(* ===== verification/_CoqProject ===== *)
-Q . S2P
Prelude.v
SFQueue.v
SFEvict.v
SFCache.v
SFLookup.v
SFProps.v
SFSource.v
Binary64.v
FloatRound.v
Backoff.v
Retrier.v
GoString.v
GoText.v
Random.v
Base64.v
Encrypt.v
PasswordHash.v
PasswordProps.v
PasswordJSON.v
FilterNumeric.v
FilterValue.v
FilterEval.v
FilterField.v
Filter.v
FilterProps.v
Keypad.v
NumTrie.v
CountryPhone.v
CountryPhoneData.v
CountryKey.v
CountryCode.v
CountryCodeData.v
EnumBitmap.v
EnumCache.v
Paging.v
EditDistance.v
StringMetric.v
RedactBytes.v
RedactCards.v
RedactKeys.v
RedactRender.v
RedactRules.v
RedactMarkup.v
RedactJSON.v
RedactEngine.v
RedactProps.v
MySQLLock.v
Jwt.v
JwtProps.v
JwtJSON.v
DNSDial.v
DNSCache.v
SqlUtil.v
DecInt.v
HTTPRetrier.v
Periodic.v
Slog.v
LogSanitize.v
LogHandler.v
LogTrace.v
LogConfig.v
Zerolog.v
LogSrv.v
LogAgree.v
HTTPServer.v
Bootstrap.v
UHex.v
RandomID.v
Utf8.v
StrSplit.v
Pwned.v
TraceID.v
RespWriter.v
HTTPRoutes.v
HealthCheck.v
Transaction.v
StringKey.v
Guarded.v
