(* ===== verification/Prelude.v ===== *)
(** * Verification of the gogen Go library

    gogen is a collection of Go packages under src/pkg; most are independent,
    a few call each other (retrier calls backoff; countryphone calls numtrie,
    which calls phonekeypad; dnscache
    calls sfcache; passwordhash calls random and encrypt). This development models the packages that carry
    logic of their own, each as executable Gallina definitions translated from
    the source, and proves what makes them correct.

    ** Files

    - Prelude: results of fallible Go functions, the state monad of Go code
      that may panic, times and generic lemmas.
    - SFQueue, SFEvict, SFCache, SFLookup, SFProps ([pkg/sfcache]): the
      bounded single-flight cache. SFQueue is entry.go and pqueue.go, a heap
      of pointers into a store of entries, each entry recording its position;
      SFEvict is evict.go, the three queues and the ranking of victims;
      SFCache is what runs under the write lock (capacity.go, stale.go, the
      lock-protected halves of flight.go and lookup.go, the maintenance half
      of sfcache.go); SFLookup interleaves callers of Lookup, Remove, Reset
      and PurgeExpired at the granularity of critical sections, the relation
      [step] over worlds holding the cache and every thread's program
      counter; SFProps states the properties of the whole, C1 to C4, C6,
      C9 and C10. SFSource: whatever the cache answers for a key, its lookup
      function answered for that key.
    - Binary64: the floats of the language, what rounds when an integer
      becomes one, and the exact value of a float. FloatRound: how far the
      float product and quotient lie from the exact ones.
    - Backoff ([pkg/backoff], C11): float64 delays with their rounding,
      as binary64 primitive floats.
    - Retrier ([pkg/retrier], C14): options as validating functions, and
      a run as a function of its environment, over Backoff.
    - HTTPRetrier ([pkg/httpretrier], C27): the same for HTTP requests, with
      the trace of what happens to the bodies of requests and responses.
    - Periodic ([pkg/periodic], C5): the goroutine that runs a task at
      intervals, its timer and the callers of Start and Stop, as the relation
      [step] over what they share.
    - HTTPServer, Bootstrap (C7) ([pkg/httpserver], [pkg/bootstrap]): the life
      of a server as the relation [sstep] over what its goroutines share, and
      of a service as the relation [step] over [Bootstrap] and the servers
      that share its wait group and its channel.
    - TraceID ([pkg/traceid]), RespWriter ([pkg/httputil]) and HTTPRoutes (C17):
      trace identifiers of contexts and headers; the wrapped response writer,
      over that of net/http; the routes, options and middleware of httpserver
      and the log of a request, where a handler is a program of writes.
    - HealthCheck (C31) ([pkg/healthcheck]): the goroutines of a health probe,
      their channel and their context as the relation [check_step], the
      response to it, and the check of a URL.
    - Transaction ([pkg/sqltransaction], [pkg/sqlxtransaction]): running a
      function in a transaction.
    - Guarded ([pkg/threadsafe], [pkg/maputil], [pkg/sliceutil]): calls under a
      reader-writer lock whose accesses interleave, the relation
      [guarded_step], and the collections they guard.
    - GoText: the functions of package strings and strconv that the filters
      and the password hashes call; Base64: its encoding and strict decoding.
    - Random (C40) ([pkg/random]): entropy from any reader and the rejection
      sampling of strings; UHex ([pkg/uhex]) and RandomID (C38): the
      encoders of fixed-width hexadecimal and the identifiers over them;
      Encrypt ([pkg/encrypt]): sealed JSON payloads.
    - PasswordHash, PasswordProps (C29, C39) ([pkg/passwordhash]): Argon2id
      hashes over Random, Base64 and Encrypt, in the JSON and PHC
      serializations and under a pepper; PasswordJSON: concrete parameters
      with the laws the theorems assume.
    - MySQLLock (C8, C13) ([pkg/mysqllock]): a named database lock. Acquire is
      a function of what the driver answers; the keep-alive goroutine, the
      release function and the handlers of a lost lock are the relation
      [step] over the context, the channel and the connection they share.
    - Jwt, JwtProps (C15, C18, C21) ([pkg/jwt]): signed tokens and the handlers
      that issue, renew and check them; JwtJSON: concrete JSON and a toy code
      with the laws the theorems assume.
    - DNSDial (C20), DNSCache (C23) ([pkg/dnscache]): names and the dialing of
      their addresses; resolution as the operations of sfcache it becomes, in
      the worlds of SFLookup.
    - SqlUtil ([pkg/sqlutil], C25): quoting and IN clauses, with a reader of
      what they write.
    - DecInt ([pkg/decint], C12): decimals as scaled integers, through floats
      and text.
    - FilterNumeric, FilterValue, FilterEval, FilterField, Filter and
      FilterProps (C35) ([pkg/filter]): rule-based filtering of slices. FilterNumeric is numeric.go; FilterValue models reflected
      values on a heap and is evaluator.go; FilterEval is evaluate_*.go and
      rule.go; FilterField is field_getter.go, field_cacher.go and the walk
      of filter.go along a path; Filter is the rest of filter.go and
      options.go; FilterProps gives a rule set its meaning element by element
      and proves that the code computes it.
    - Slog: what the two logging packages use of log/slog, with its JSON
      handler as a writer of tokens, the state it does not restore included,
      and the fields that attributes stand for.
    - LogSanitize, LogHandler, LogTrace and LogConfig (C19) ([pkg/logutil]):
      the filter of sanitize.go; handlers, [behaves], what one does with a
      record given how it was derived, and level.go; the trace ID of trace.go
      over any handler that behaves; hooks, options and [SlogHandler].
    - Zerolog, LogSrv, LogAgree (C24) ([pkg/logsrv]): the encoder and the
      handler over zerolog, which is a parameter with laws ([ZerologLaws]);
      what they write; and that the two back ends agree.
    - GoString: byte strings and the decoding of [range] over a string; Utf8:
      cutting and trimming between runes.
    - StrSplit ([pkg/strsplit], C37): chunks of bounded size.
    - StringKey ([pkg/stringkey]): hashes of normalized fields.
    - Pwned ([pkg/passwordpwned], C36): the lookup of a breached password, over
      HTTPRetrier.
    - Keypad ([pkg/phonekeypad]): digits of a keypad.
    - NumTrie ([pkg/numtrie], C16): the digit trie, and [PrefixIndex], the
      interface it implements: a finite map with longest-prefix lookup.
    - CountryPhone ([pkg/countryphone]): number resolution proved
      over any [PrefixIndex]; CountryPhoneData: the embedded dataset.
    - CountryKey, CountryCode (C22) and CountryCodeData
      ([pkg/countrycode]): the packed country key and the letter codecs, the
      resolver with its catalogs and indexes, and the embedded dataset.
    - EnumBitmap ([pkg/enumbitmap]), EnumCache ([pkg/enumcache], C26) and
      Paging ([pkg/paging]).
    - EditDistance, StringMetric ([pkg/stringmetric], C28): edit
      sequences, and the dynamic program that measures them.
    - RedactBytes, RedactKeys (C30), RedactCards, RedactRender,
      RedactRules, RedactMarkup, RedactJSON, RedactEngine and RedactProps (C32
      to C34) ([pkg/redact]): the log redaction engine. RedactKeys is
      keycache.go; RedactCards creditcard.go; RedactRules options.go,
      header.go, jwt.go, tokenprefix.go, userinfo.go and marker.go;
      RedactMarkup urlencoded.go, xml.go and pem.go; RedactJSON json.go;
      RedactEngine engine.go, scan.go and redactor.go. RedactRender states
      what every rule owes the engine, [rule_ok], which the rule files prove
      and the engine relies on.

    ** Correspondence

    Definitions keep the names of the source; a method [T.m] is the
    definition [m] of its file. Where one Go function is several definitions
    the extra ones are its loops or its closures ([makeRoom_loop] is the loop
    of [makeRoom]). A nil dereference, an index out of range or a failing
    conversion is [None]; an error return is [Error]. Fixed-width integers
    are [Z] with an explicit wrap wherever an operation can leave the width.
    Go maps are [gmap]s; where the code ranges over a map the order is a
    parameter of which only the permutation law is assumed, so the theorems
    hold for every iteration order.

    ** What the theorems show

    - sfcache: no critical section of any interleaving panics or diverges
      (C1); one external lookup per key at a time unless a flight was
      invalidated (C2); waiters are always released or somebody is still
      responsible for them (C3); capacity (C4), the
      contract of [publish] over the abstract contents (C6), the
      stale window, the eviction ranking (C9) and the heap (C10).
    - decint: exact text, and which scaled integers survive a float (C12).
    - dnscache: every destination tried once (C20), names that are one name
      share one resolution (C23). sqlutil: what is quoted is read back (C25).
    - backoff and retrier: bounds of the delays for every configuration,
      options, termination and result of a run.
    - periodic: one goroutine, and nothing after Stop, which returns (C5).
    - httpretrier: termination, the waits a server asks for, and no response
      leaked or returned with an error (C27).
    - phonekeypad, numtrie, countryphone: normalisation, the trie as a map,
      longest declared prefix, independence of iteration order, and the
      soundness of the embedded dataset.
    - countrycode: bit-level and textual round trips, the round trip of a
      custom dataset, regions beyond the width of the key excepted (C22), the
      grouped indexes, and the completeness of the embedded dataset.
    - enumbitmap, enumcache, paging: round trips of bit sets, refinement of a
      partial bijection, exact arithmetic on 64 bits.
    - stringmetric: the program computes the least number of edits, which is a
      metric.
    - redact: one classification of keys whichever path computes it, but for
      two letters that lower into ASCII, with which it errs on the safe side
      (C30), recognition of card numbers and what their checksum detects,
      totality and the shape of every output (C32), the bulk copy as a
      transparent optimisation (C33), plain secrets hidden in one round, and
      two that are not (C34).
    - filter: [ApplySubset] refines a specification with neither cache nor
      compiled paths, and touches nothing when it fails (C35); comparison of
      numbers; negation; integers through JSON.
    - passwordhash: what [New] can configure mints hashes that verify (C39),
      and no stored text makes the verifier panic or exceed its bounds (C29).
    - mysqllock: who uses the connection and what the callers see (C8), and
      that every release returns (C13).
    - logutil: one well-formed line with every field and one trace ID (C19).
      logsrv: the same fields as logutil, and where each back end puts them
      (C24).
    - jwt: what is issued verifies (C15), what verifies was signed and is
      timely (C18), and sessions end (C21).
    - healthcheck: no report lost or blocked, an answer once the context ends,
      and what it says (C31).
    - sqltransaction: every transaction started is over at the end, and when it
      was committed. threadsafe: calls are atomic. stringkey: the fields of a
      key never run together, and its texts read back.
    - strsplit: nothing but space is lost, and no rune is cut (C37).
      passwordpwned: no password is called safe without evidence (C36).
    - httpserver and bootstrap: nothing closed twice, and a shutdown that ends
      with every server stopped and [Bootstrap] returned (C7); which routes
      exist, what they run, what is logged of a request, and when the client
      cannot tell (C17).
    - random: strings are uniform images of the entropy delivered (C40), and
      version 7 UUIDs read back and sort by the clock (C38).

    ** Bounds and fuel

    Loops that are not structural carry fuel: the heap's [down] and [up] are
    given the length of the heap, [makeRoom] one more than the number of
    entries, [Run] its attempts and the loops of redact the length of the
    source; the specifications show that the fuel is
    never exhausted ([None] is excluded by C1, C10, C14, C32 and C37). The
    reads of [readFull] and the passes of [RandString] are bounded by the
    code's own limits on reads without progress (C40). The
    hundred rounds of [unwrapLeaf] are the code's own bound: pointers may be
    cyclic, and no fuel of the model's is added.

    ** Idealisations

    Times are unbounded integers of nanoseconds and the clock is any
    function of the number of readings. A mutex-protected section is one
    step. Random draws, the caller's functions and the upper-casing of
    non-ASCII text are arguments. So are regular expressions, [DeepEqual],
    [ParseFloat] and the JSON decoder of the filters; their types are given
    with what reflect documents of the index of a field ([TypesOk]). The key
    derivation of argon2, AES-GCM, the JSON decoder of a stored hash and the
    random sources are arguments with their documented laws ([Argon2],
    [AEAD], [JSONLaws], [Reader]), as are the HMAC and the JSON decoder of
    tokens, what the database driver answers, and the resolver, dialer and
    address parser of dnscache, and the client, checkers and transactions of
    passwordpwned, healthcheck and sqltransaction. The lexical rules SqlUtil reads by are those
    MySQL documents for its default mode. A LogValuer is its resolved value.
    The wait group is a counter, and [Bootstrap] passes it in one step: that
    reusing it while it is waited for is a panic is not modelled.
    Memory and goroutine costs are not
    modelled.

    ** Not modelled

    The clients of network services and drivers, whose code is the building of
    requests and options around libraries outside src; the listeners of
    servers, with their addresses, timeouts and TLS, and the bodies of the
    default handlers; the text and console formats of the logs; the
    descriptive statistics of sliceutil, which are sums and logarithms of
    floats; validator and config, which are rules over libraries; timeutil and
    errutil, which wrap the time formats and errors of the language; and the
    gob half of encode and encrypt. *)

From Stdlib Require Export ZArith Lia Bool.
From stdpp Require Export base option list gmap sets.

(** ** Results of Go functions that return [(T, error)] *)

Inductive result (Err A : Type) : Type :=
| Ok (a : A)
| Error (e : Err).
Arguments Ok {Err A} _.
Arguments Error {Err A} _.

Definition result_bind {Err A B : Type} (r : result Err A) (k : A → result Err B) : result Err B :=
  match r with
  | Ok a => k a
  | Error e => Error e
  end.

Declare Scope go_scope.
Delimit Scope go_scope with go.

(** [x <-? c ;; k]: evaluate [c], return its error early, otherwise go on
    with its value: the [if err != nil { return err }] idiom. *)
Notation "x <-? c ;; k" := (result_bind c (fun x => k))
  (at level 60, c at next level, right associativity) : go_scope.

(** Code that may panic ([None]) or return an error. *)
Definition or_bind {Err A B : Type} (c : option (result Err A)) (k : A → option (result Err B))
    : option (result Err B) :=
  match c with
  | Some (Ok a) => k a
  | Some (Error e) => Some (Error e)
  | None => None
  end.

Notation "x <?- c ;; k" := (or_bind c (fun x => k))
  (at level 60, c at next level, right associativity) : go_scope.

(** ** Stateful Go code that may panic

    [SP S A]: code that reads and writes a state [S] and returns an [A];
    [None] is a panic (nil dereference, index out of range) or, in a loop
    with fuel, running out of it. *)

Definition SP (S A : Type) : Type := S → option (A * S).

#[export] Instance sp_ret {S : Type} : MRet (SP S) := λ A a s, Some (a, s).
#[export] Instance sp_bind {S : Type} : MBind (SP S) :=
  λ A B k m s, match m s with Some (a, s') => k a s' | None => None end.

Definition sp_get {S : Type} : SP S S := λ s, Some (s, s).
Definition sp_put {S : Type} (s : S) : SP S unit := λ _, Some ((), s).
Definition sp_lift {S A : Type} (o : option A) : SP S A := λ s, a ← o; Some (a, s).

Lemma sp_bind_eq {S A B : Type} (m : SP S A) (k : A → SP S B) s a s' :
  m s = Some (a, s') → (m ≫= k) s = k a s'.
Proof. intros H. unfold mbind, sp_bind. by rewrite H. Qed.

(** ** Machine integers: a [w]-bit value is a [Z] reduced after each operation. *)

Definition wrapU (w : Z) (z : Z) : Z := (z mod 2 ^ w)%Z.

Definition wrapS (w : Z) (z : Z) : Z :=
  ((z + 2 ^ (w - 1)) mod 2 ^ w - 2 ^ (w - 1))%Z.

Definition inU (w z : Z) : Prop := (0 ≤ z < 2 ^ w)%Z.
Definition inS (w z : Z) : Prop := (- 2 ^ (w - 1) ≤ z < 2 ^ (w - 1))%Z.

Lemma wrapU_small w z : inU w z → wrapU w z = z.
Proof. intros H. apply Z.mod_small, H. Qed.

Lemma wrapU_range w z : (0 ≤ w)%Z → inU w (wrapU w z).
Proof. intros H. apply Z.mod_pos_bound. apply Z.pow_pos_nonneg; lia. Qed.

Lemma pow2_half w : (0 < w)%Z → (2 ^ w = 2 * 2 ^ (w - 1))%Z.
Proof. intros H. rewrite <- Z.pow_succ_r by lia. f_equal. lia. Qed.

Lemma wrapS_small w z : (0 < w)%Z → inS w z → wrapS w z = z.
Proof.
  intros Hw H. unfold wrapS, inS in *.
  rewrite Z.mod_small; [lia|]. rewrite (pow2_half w) by lia. lia.
Qed.

Lemma wrapS_range w z : (0 < w)%Z → inS w (wrapS w z).
Proof.
  intros Hw. unfold wrapS, inS.
  pose proof (Z.mod_pos_bound (z + 2 ^ (w - 1)) (2 ^ w)) as H.
  rewrite (pow2_half w) in * by lia.
  assert (0 < 2 ^ (w - 1))%Z by (apply Z.pow_pos_nonneg; lia). lia.
Qed.

(** ** Slices indexed by an [int], and counting loops

    [None] is an index out of range. *)

Definition aget {A : Type} (a : list A) (i : Z) : option A :=
  if (i <? 0)%Z then None else a !! Z.to_nat i.

Definition aput {A : Type} (a : list A) (i : Z) (v : A) : option (list A) :=
  if ((0 <=? i) && (i <? Z.of_nat (length a)))%Z then Some (<[Z.to_nat i := v]> a) else None.

Lemma aput_spec {A : Type} (a : list A) i v :
  (0 ≤ i < Z.of_nat (length a))%Z →
  ∃ a', aput a i v = Some a' ∧ length a' = length a ∧ aget a' i = Some v ∧
    ∀ k, k ≠ i → aget a' k = aget a k.
Proof.
  intros Hi. unfold aput, aget. rewrite (proj2 (Z.leb_le 0 i)), (proj2 (Z.ltb_lt i _)) by lia.
  eexists. split; [done|]. split; [apply length_insert|]. split.
  - rewrite (proj2 (Z.ltb_ge i 0)) by lia. apply list_lookup_insert_eq. lia.
  - intros k Hk. destruct (Z.ltb_spec k 0); [done|]. apply list_lookup_insert_ne. lia.
Qed.

Lemma aget_nth {A : Type} (a : list A) i : (0 ≤ i)%Z → aget a i = a !! Z.to_nat i.
Proof. intros Hi. unfold aget. by rewrite (proj2 (Z.ltb_ge i 0)) by lia. Qed.

(** [for i := range l { s = f(s, i) }], [f] possibly panicking. *)
Fixpoint for_each {S : Type} (f : S → Z → option S) (l : list Z) (s : S) : option S :=
  match l with
  | [] => Some s
  | i :: l => s' ← f s i; for_each f l s'
  end.

(** A loop whose body keeps an invariant of the counter. *)
Lemma for_each_inv {S : Type} (I : Z → S → Prop) f lo n s :
  (∀ i s, (lo ≤ i < lo + n)%Z → I i s → ∃ s', f s i = Some s' ∧ I (i + 1)%Z s') →
  (0 ≤ n)%Z → I lo s → ∃ s', for_each f (seqZ lo n) s = Some s' ∧ I (lo + n)%Z s'.
Proof.
  intros Hf Hn. revert lo s Hf. pattern n. apply natlike_ind; [| |done]; clear n Hn.
  - intros lo s _ HI. exists s. by rewrite seqZ_nil, Z.add_0_r by lia.
  - intros n Hn IH lo s Hf HI. rewrite seqZ_cons by lia. cbn [for_each].
    destruct (Hf lo s) as (s1 & Hs1 & HI1); [lia|done|]. rewrite Hs1. cbn [mbind option_bind].
    destruct (IH (lo + 1)%Z s1) as (s' & Hs' & HI'); [intros; apply Hf; [lia|done]|done|].
    exists s'.
    replace (Z.pred (Z.succ n)) with n by lia. replace (Z.succ lo) with (lo + 1)%Z by lia.
    split; [done|]. by replace (lo + Z.succ n)%Z with (lo + 1 + n)%Z by lia.
Qed.

(** [filter] on a list whose members all, or none of them, pass. *)
Lemma filter_all {A : Type} (P : A → Prop) `{!∀ x, Decision (P x)} (l : list A) : Forall P l → filter P l = l.
Proof. induction 1 as [|x l Hx _ IH]; [done|]. by rewrite filter_cons_True, IH. Qed.

Lemma filter_none {A : Type} (P : A → Prop) `{!∀ x, Decision (P x)} (l : list A) : Forall (fun x => ¬ P x) l → filter P l = [].
Proof. induction 1 as [|x l Hx _ IH]; [done|]. by rewrite filter_cons_False, IH. Qed.

Lemma filter_ext_in {A : Type} (P Q : A → Prop) `{!∀ x, Decision (P x)} `{!∀ x, Decision (Q x)} (l : list A) :
  Forall (fun x => P x ↔ Q x) l → filter P l = filter Q l.
Proof.
  induction 1 as [|x l Hx _ IH]; [done|]. rewrite !filter_cons, IH. destruct (decide (P x)), (decide (Q x)); tauto || done.
Qed.

Lemma existsb_none {A : Type} (f : A → bool) l : Forall (fun x => f x = false) l → existsb f l = false.
Proof. induction 1 as [|x l Hx _ IH]; [done|]. cbn [existsb]. by rewrite Hx, IH. Qed.

(** ** Work that ends *)

Section Work.
Context {A : Type} (R : relation A) (weight : A → nat).
Hypothesis lighter : ∀ x y, R x y → (weight y < weight x)%nat.

Lemma work_bounded n x y : nsteps R n x y → (n + weight y <= weight x)%nat.
Proof. induction 1 as [|n x1 x2 x3 Hs _ IH]; [lia|]. pose proof (lighter x1 x2 Hs). lia. Qed.

(** Where there is work to do until a goal is reached, it is reached. *)
Lemma work_until (I goal : A → Prop) : (∀ x, I x → goal x ∨ ∃ y, R x y) → (∀ x y, I x → R x y → I y) →
  ∀ x, I x → ∃ y, rtc R x y ∧ goal y.
Proof.
  intros Hgo HI x. remember (weight x) as m eqn:Hm. revert x Hm. induction m as [m IH] using lt_wf_ind. intros x -> Hx.
  destruct (Hgo x Hx) as [Hg|[y Hy]]; [by exists x|]. destruct (IH (weight y)) with (x := y) as (z & Hz & Hg); [by apply lighter|done|by eapply HI|].
  exists z. split; [by eapply rtc_l|done].
Qed.
End Work.

(** A weight summed over a list, one member replaced. *)
Lemma sum_list_insert {A} (f : A → nat) l t x y : l !! t = Some x →
  (sum_list_with f (<[t := y]> l) + f x = sum_list_with f l + f y)%nat.
Proof.
  revert t. induction l as [|z l IH]; intros [|t] Hl; try done; simpl in *; [simplify_eq; lia|]. specialize (IH t Hl). lia.
Qed.

(** ** [time.Time] and [time.Duration]: nanoseconds, the zero [Time] being 0. *)

Module Time.
Definition zero : Z := 0.
Definition IsZero (t : Z) : bool := (t =? zero)%Z.
Definition Before (t u : Z) : bool := (t <? u)%Z.
Definition After (t u : Z) : bool := (u <? t)%Z.
Definition Add (t d : Z) : Z := (t + d)%Z.
End Time.

(** ** Tactics shared by the development *)

(** Splits [option] binds in hypotheses and simplifies. *)
Ltac inv_bind :=
  repeat match goal with
    | H : mbind _ ?o = Some _ |- _ =>
        let E := fresh "E" in
        destruct o eqn:E; cbn in H; [|discriminate H]
    end; simplify_eq/=.

(** Splits conjunctions and existentials everywhere in the context. *)
Ltac split_hyps :=
  repeat match goal with
    | H : _ ∧ _ |- _ => destruct H
    | H : ∃ _, _ |- _ => destruct H
    end.
