(* ===== verification/SFQueue.v ===== *)
(** * [pkg/sfcache]: cache entries (entry.go) and the eviction queue (pqueue.go)

    The queue is an array-backed min-heap of pointers to entries; every entry
    records its own position. Entries are shared between the cache's map and
    the queues, so they live in a store [gmap loc entry] that the queue
    operations thread. A [None] result is a Go panic (nil dereference or index
    out of range); the specifications show that it is never reached from a
    well-formed queue. *)

From stdpp Require Import gmap list.
From S2P Require Import Prelude.

(** ** Heap order on a function from positions to deadlines

    The arithmetic of the implicit binary tree, independent of the store. *)

Section HeapOrder.
Implicit Types (g : nat → Z) (i k n lo : nat).

Definition parent (i : nat) : nat := (i - 1) / 2.

Lemma parent_lt i : 0 < i → parent i < i.
Proof. intros H. unfold parent. apply Nat.Div0.div_lt_upper_bound; lia. Qed.

Lemma parent_spec i k : 0 < i → (parent i = k ↔ i = 2 * k + 1 ∨ i = 2 * k + 2).
Proof.
  intros H. unfold parent.
  pose proof (Nat.div_mod_eq (i - 1) 2).
  pose proof (Nat.mod_upper_bound (i - 1) 2). lia.
Qed.

(** Every edge whose parent is at position [lo] or later is in order. *)
Definition ordered_from lo n g : Prop :=
  ∀ i, 0 < i < n → lo ≤ parent i → (g (parent i) ≤ g i)%Z.

(** Every such edge except those at [k] is in order, and [k]'s parent is
    no later than [k]'s children. *)
Definition ordered_but lo n g k : Prop :=
  (∀ i, 0 < i < n → lo ≤ parent i → i ≠ k → parent i ≠ k → (g (parent i) ≤ g i)%Z) ∧
  (0 < k → lo ≤ parent k → ∀ i, 0 < i < n → parent i = k → (g (parent k) ≤ g i)%Z).

Definition kids_ok n g k : Prop :=
  ∀ i, 0 < i < n → parent i = k → (g k ≤ g i)%Z.

Definition par_ok lo g k : Prop :=
  0 < k → lo ≤ parent k → (g (parent k) ≤ g k)%Z.

Definition swapf g a b : nat → Z :=
  λ i, if decide (i = a) then g b else if decide (i = b) then g a else g i.

Lemma ordered_from_but lo n g k :
  lo ≤ k → ordered_but lo n g k → kids_ok n g k → par_ok lo g k →
  ordered_from lo n g.
Proof.
  intros Hlo [Ho _] Hk Hp i Hi Hl.
  destruct (decide (i = k)) as [->|?]; [apply Hp; lia|].
  destruct (decide (parent i = k)) as [<-|?]; [by apply Hk|]. by apply Ho.
Qed.

Lemma ordered_but_weaken lo n g k : ordered_from lo n g → ordered_but lo n g k.
Proof.
  intros Ho; split; [auto|]. intros Hk Hl i Hi <-.
  pose proof (parent_lt i). pose proof (parent_lt (parent i)).
  etrans; apply Ho; lia.
Qed.

Lemma ordered_from_head n g i : ordered_from 0 n g → i < n → (g 0%nat ≤ g i)%Z.
Proof.
  intros Ho. induction (lt_wf i) as [i _ IH]. intros Hi.
  destruct (decide (i = 0)) as [->|]; [lia|].
  pose proof (parent_lt i). etrans; [apply (IH (parent i)); lia|]. apply Ho; lia.
Qed.

(** The predicates only look at the values of the function. *)
#[export] Instance ordered_from_proper lo n :
  Proper (pointwise_relation nat eq ==> iff) (ordered_from lo n).
Proof. intros g g' Hg. unfold ordered_from. by setoid_rewrite Hg. Qed.

#[export] Instance ordered_but_proper lo n :
  Proper (pointwise_relation nat eq ==> eq ==> iff) (ordered_but lo n).
Proof. intros g g' Hg k _ <-. unfold ordered_but. by setoid_rewrite Hg. Qed.

#[export] Instance kids_ok_proper n :
  Proper (pointwise_relation nat eq ==> eq ==> iff) (kids_ok n).
Proof. intros g g' Hg k _ <-. unfold kids_ok. by setoid_rewrite Hg. Qed.

#[export] Instance par_ok_proper lo :
  Proper (pointwise_relation nat eq ==> eq ==> iff) (par_ok lo).
Proof. intros g g' Hg k _ <-. unfold par_ok. by setoid_rewrite Hg. Qed.

(** One step of the sift towards the head. *)
Lemma sift_up_step n g k :
  0 < k < n → ordered_but 0 n g k → kids_ok n g k → (g k < g (parent k))%Z →
  let g' := swapf g k (parent k) in
  ordered_but 0 n g' (parent k) ∧ kids_ok n g' (parent k).
Proof.
  intros Hk [Ho Hb] Hc Hlt g'. subst g'.
  assert (Hpk : parent k < k) by (apply parent_lt; lia).
  remember (parent k) as p eqn:Hp. unfold swapf. split; [split|].
  - intros i Hi _ Hip Hpp.
    destruct (decide (i = k)) as [->|?]; [done|].
    repeat case_decide; try lia.
    + apply Hb; lia.
    + apply Ho; lia.
  - intros Hp0 _ i Hi Hpi. pose proof (parent_lt p Hp0). pose proof (parent_lt i).
    assert (g (parent p) ≤ g p)%Z by (apply Ho; lia).
    repeat case_decide; try lia.
    enough (g p ≤ g i)%Z by lia. rewrite <- Hpi. apply Ho; lia.
  - intros i Hi Hpi. pose proof (parent_lt i).
    repeat case_decide; try lia.
    enough (g p ≤ g i)%Z by lia. rewrite <- Hpi. apply Ho; lia.
Qed.

(** One step of the sift away from the head: [f] is the earlier child. *)
Lemma sift_down_step lo n g k f :
  lo ≤ k → 0 < f < n → parent f = k → ordered_but lo n g k →
  (g f < g k)%Z → (∀ i, 0 < i < n → parent i = k → (g f ≤ g i)%Z) →
  let g' := swapf g k f in
  ordered_but lo n g' f ∧ par_ok lo g' f.
Proof.
  intros Hlo Hf Hpf [Ho Hb] Hlt Hmin g'. subst g'. unfold swapf.
  pose proof (parent_lt f). split; [split|].
  - intros i Hi Hl Hif Hpif. pose proof (parent_lt i).
    repeat case_decide; subst; try lia;
      solve [apply Hmin; lia | apply Hb; lia | apply Ho; lia].
  - intros _ _ i Hi Hpi. pose proof (parent_lt i).
    repeat case_decide; subst; try lia.
    apply Ho; lia.
  - intros _ _. repeat case_decide; subst; lia.
Qed.
End HeapOrder.

(** ** Entries (entry.go) *)

(** Addresses of entries: a Go [*entry[V]]. *)
Abbreviation loc := positive (only parsing).

Record entry (V E : Type) : Type := Entry {
  e_err : option E;      (** [err]: [None] is the nil error *)
  e_expireAt : Z;        (** [expireAt] *)
  e_staleUntil : Z;      (** [staleUntil]; the zero Time when not revived *)
  e_val : V;             (** [val] *)
  e_idx : nat            (** [idx]: position in the queue holding the entry *)
}.
Arguments Entry {V E} _ _ _ _ _.
Arguments e_err {V E} _.
Arguments e_expireAt {V E} _.
Arguments e_staleUntil {V E} _.
Arguments e_val {V E} _.
Arguments e_idx {V E} _.

Section Entry.
Context {V E : Type}.
Implicit Types e : entry V E.

Definition with_idx e (i : nat) : entry V E :=
  Entry (e_err e) (e_expireAt e) (e_staleUntil e) (e_val e) i.

Definition expired e (now : Z) : bool := negb (Time.Before now (e_expireAt e)).

(** [usable]: [now] is the reading of [time.Now] it takes. *)
Definition usable e (waited : bool) (now : Z) : bool :=
  waited || Time.Before now (e_expireAt e).

Definition revived e : bool := negb (Time.IsZero (e_staleUntil e)).

Definition deadline e : Z :=
  if revived e then e_staleUntil e else e_expireAt e.

(** The immutable outcome of an entry: all of it but its position. *)
Definition outcome e : entry V E := with_idx e 0.

Lemma outcome_with_idx e i : outcome (with_idx e i) = outcome e.
Proof. done. Qed.

Lemma deadline_outcome e : deadline (outcome e) = deadline e.
Proof. done. Qed.
End Entry.

(** ** The queue (pqueue.go) *)

Record pnode (K : Type) : Type := PNode { n_item : loc; n_key : K }.
Arguments PNode {K} _ _.
Arguments n_item {K} _.
Arguments n_key {K} _.

Section PQueue.
Context {K V E : Type}.
Abbreviation store := (gmap loc (entry V E)).
Abbreviation nodes := (list (pnode K)).

(** The state a queue operation reads and writes: the entries' store and
    the queue's own array. *)
Abbreviation pq := (store * nodes)%type.

Definition len (q : nodes) : nat := length q.
Definition reset : nodes := [].

(** [item.idx = i] through a pointer. *)
Definition set_idx (h : store) (l : loc) (i : nat) : option store :=
  e ← h !! l; Some (<[l := with_idx e i]> h).

(** [item.deadline()] of the node at a position. *)
Definition deadline_at (s : pq) (i : nat) : option Z :=
  n ← s.2 !! i; e ← s.1 !! n_item n; Some (deadline e).

Definition place (i : nat) (node : pnode K) (s : pq) : option pq :=
  if decide (i < length s.2) then
    h ← set_idx s.1 (n_item node) i; Some (h, <[i := node]> s.2)
  else None.

Definition swap (i j : nat) (s : pq) : option pq :=
  ni ← s.2 !! i;
  nj ← s.2 !! j;
  let q := <[j := ni]> (<[i := nj]> s.2) in
  h1 ← set_idx s.1 (n_item nj) i;
  h2 ← set_idx h1 (n_item ni) j;
  Some (h2, q).

Fixpoint up_loop (fuel idx : nat) (s : pq) : option pq :=
  match fuel with
  | 0 => None
  | S fuel =>
      if decide (0 < idx) then
        let par := (idx - 1) / 2 in
        di ← deadline_at s idx;
        dp ← deadline_at s par;
        if negb (Time.Before di dp) then Some s
        else s' ← swap idx par s; up_loop fuel par s'
      else Some s
  end.

(** [up]: [idx + 1] iterations are enough, [idx] decreases. *)
Definition up (idx : nat) (s : pq) : option pq := up_loop (S idx) idx s.

Fixpoint down_loop (fuel start idx : nat) (s : pq) : option (bool * pq) :=
  match fuel with
  | 0 => None
  | S fuel =>
      let first := 2 * idx + 1 in
      let right := 2 * idx + 2 in
      if decide (length s.2 ≤ first) then Some (bool_decide (start < idx), s)
      else
        first ←
          (if decide (right < length s.2) then
             dr ← deadline_at s right;
             df ← deadline_at s first;
             Some (if Time.Before dr df then right else first)
           else Some first);
        df ← deadline_at s first;
        di ← deadline_at s idx;
        if negb (Time.Before df di) then Some (bool_decide (start < idx), s)
        else s' ← swap idx first s; down_loop fuel start first s'
  end.

(** [down]: [idx] increases and stays below the length. *)
Definition down (idx : nat) (s : pq) : option (bool * pq) :=
  down_loop (S (length s.2)) idx idx s.

Definition top (s : pq) : option (K * loc) :=
  n ← s.2 !! 0; Some (n_key n, n_item n).

Definition push (key : K) (item : loc) (s : pq) : option pq :=
  let q := s.2 ++ [PNode item key] in
  let i := length q - 1 in
  h ← set_idx s.1 item i;
  up i (h, q).

Definition remove (item : loc) (s : pq) : option pq :=
  e ← s.1 !! item;
  let idx := e_idx e in
  let last := length s.2 - 1 in
  s1 ← (if decide (idx ≠ last) then
          n ← s.2 !! last; place idx n s
        else Some s);
  if decide (last < length s1.2) then
    let s2 := (s1.1, take last s1.2) in
    if decide (idx ≠ last) then
      r ← down idx s2;
      if negb r.1 then up idx r.2 else Some r.2
    else Some s2
  else None.

(** [drain]: the callback acts on a state of its own, which the queue's
    operations do not touch. *)
Definition drain {St : Type} (forget : K → loc → St → St) (st : St) (q : nodes) : St * nodes :=
  (foldl (λ st n, forget (n_key n) (n_item n) st) st q, reset).

(** The in-place filtering loop of [partition]: [i] is the range's
    position, [k] the length of [kept], a prefix of the same array. *)
Fixpoint partition_loop {St : Type} (expendable : entry V E → bool)
    (forget : K → loc → St → St) (h : store) (todo i k : nat) (arr : nodes) (st : St)
    : option (nat * nodes * St) :=
  match todo with
  | 0 => Some (k, arr, st)
  | S todo =>
      n ← arr !! i;
      e ← h !! n_item n;
      if expendable e then
        partition_loop expendable forget h todo (S i) k arr (forget (n_key n) (n_item n) st)
      else
        partition_loop expendable forget h todo (S i) (S k) (<[k := n]> arr) st
  end.

(** [for idx := range q.nodes { q.nodes[idx].item.idx = idx }]. *)
Fixpoint reindex (i : nat) (q : nodes) (h : store) : option store :=
  match q with
  | [] => Some h
  | n :: q => h' ← set_idx h (n_item n) i; reindex (S i) q h'
  end.

(** [for idx := m - 1; idx >= 0; idx-- { q.down(idx) }]. *)
Fixpoint heapify_loop (m : nat) (s : pq) : option pq :=
  match m with
  | 0 => Some s
  | S m => r ← down m s; heapify_loop m r.2
  end.

Definition heapify (s : pq) : option pq :=
  h ← reindex 0 s.2 s.1;
  heapify_loop (length s.2 / 2) (h, s.2).

Definition partition {St : Type} (expendable : entry V E → bool)
    (forget : K → loc → St → St) (st : St) (s : pq) : option (St * pq) :=
  r ← partition_loop expendable forget s.1 (length s.2) 0 0 s.2 st;
  let '(k, arr, st) := r in
  s' ← heapify (s.1, take k arr);
  Some (st, s').
End PQueue.

(** ** Well-formed queues *)

Section PQueueFacts.
Context {K V E : Type}.
Abbreviation store := (gmap loc (entry V E)).
Abbreviation pq := (store * list (pnode K))%type.
Implicit Types (s : pq) (h : store) (q : list (pnode K)).

Definition items q : list loc := n_item <$> q.

(** Every queued pointer is live and its entry records its position. *)
Definition q_ok s : Prop :=
  ∀ i n, s.2 !! i = Some n → ∃ e, s.1 !! n_item n = Some e ∧ e_idx e = i.

Definition key s (i : nat) : Z := default 0%Z (deadline_at s i).

Definition pq_ok s : Prop := q_ok s ∧ ordered_from 0 (length s.2) (key s).

(** What every internal operation leaves unchanged: the queued nodes as a
    multiset, every entry's outcome, and every entry not queued here. *)
Definition evolves s s' : Prop :=
  s'.2 ≡ₚ s.2 ∧ outcome <$> s'.1 = outcome <$> s.1 ∧
  (∀ l, l ∉ items s.2 → s'.1 !! l = s.1 !! l).

#[export] Instance evolves_preorder : PreOrder evolves.
Proof.
  split; [intros s; by repeat split|].
  intros s1 s2 s3 (Hp & Ho & Hf) (Hp' & Ho' & Hf'). split; [by etrans|split; [by etrans|]].
  intros l Hl. rewrite Hf', Hf; [done..|]. unfold items. by rewrite Hp.
Qed.

Lemma evolves_length s s' : evolves s s' → length s'.2 = length s.2.
Proof. intros (Hp & _). by rewrite Hp. Qed.

Lemma set_idx_spec h l e i :
  h !! l = Some e → set_idx h l i = Some (<[l := with_idx e i]> h).
Proof. intros H. unfold set_idx. by rewrite H. Qed.

Lemma outcomes_set_idx h l e i :
  h !! l = Some e → outcome <$> <[l := with_idx e i]> h = outcome <$> h.
Proof.
  intros H. rewrite fmap_insert, outcome_with_idx. apply insert_id.
  by rewrite lookup_fmap, H.
Qed.

Lemma deadline_at_outcomes h h' q i :
  outcome <$> h' = outcome <$> h → deadline_at (h', q) i = deadline_at (h, q) i.
Proof.
  intros Ho. unfold deadline_at; simpl. destruct (q !! i) as [n|]; [simpl|done].
  assert (Hn : (outcome <$> h') !! n_item n = (outcome <$> h) !! n_item n) by by rewrite Ho.
  rewrite !lookup_fmap in Hn.
  destruct (h' !! n_item n) as [[]|], (h !! n_item n) as [[]|]; simplify_eq/=; done.
Qed.

Lemma deadline_at_ok s i :
  q_ok s → i < length s.2 → deadline_at s i = Some (key s i).
Proof.
  intros Hs [n Hn]%lookup_lt_is_Some. destruct (Hs i n Hn) as (e & He & _).
  unfold key, deadline_at. by rewrite Hn; simpl; rewrite He.
Qed.

Lemma q_ok_inj s i j n n' :
  q_ok s → s.2 !! i = Some n → s.2 !! j = Some n' → n_item n = n_item n' → i = j.
Proof.
  intros Hs Hi Hj Heq. destruct (Hs _ _ Hi) as (e & He & <-).
  destruct (Hs _ _ Hj) as (e' & He' & <-). congruence.
Qed.

Lemma items_lookup q i n : q !! i = Some n → n_item n ∈ items q.
Proof. intros H. apply list_elem_of_fmap. exists n. split; [done|]. by eapply list_elem_of_lookup_2. Qed.

Lemma q_ok_nodup s : q_ok s → NoDup (items s.2).
Proof.
  intros Hs. apply NoDup_alt. intros i j l Hi Hj.
  apply list_lookup_fmap_Some in Hi as (n & -> & Hi), Hj as (n' & Heq & Hj).
  by eapply q_ok_inj.
Qed.

(** Writing a node into a position and recording it there. *)
Lemma place_spec s i n e :
  i < length s.2 → s.1 !! n_item n = Some e →
  place i n s = Some (<[n_item n := with_idx e i]> s.1, <[i := n]> s.2).
Proof.
  intros Hi He. unfold place. rewrite decide_True by done.
  by rewrite (set_idx_spec _ _ _ _ He).
Qed.

Lemma swap_spec s i j :
  q_ok s → i < length s.2 → j < length s.2 → i ≠ j →
  ∃ s', swap i j s = Some s' ∧ q_ok s' ∧ evolves s s' ∧
        pointwise_relation nat eq (key s') (swapf (key s) i j).
Proof.
  intros Hs [ni Hi]%lookup_lt_is_Some [nj Hj]%lookup_lt_is_Some Hij.
  destruct (Hs _ _ Hi) as (ei & Hei & Hxi), (Hs _ _ Hj) as (ej & Hej & Hxj).
  assert (Hne : n_item ni ≠ n_item nj).
  { intros Heq. apply Hij. eapply q_ok_inj; eauto. }
  destruct s as [h q]; simpl in *. unfold swap; simpl.
  rewrite Hi; simpl. rewrite Hj; simpl.
  rewrite (set_idx_spec _ _ _ _ Hej); simpl.
  rewrite (set_idx_spec _ _ ei) by (by rewrite lookup_insert_ne); simpl.
  eexists; split; [done|].
  assert (Ho : outcome <$> <[n_item ni:=with_idx ei j]> (<[n_item nj:=with_idx ej i]> h)
               = outcome <$> h).
  { rewrite outcomes_set_idx by (by rewrite lookup_insert_ne). by apply outcomes_set_idx. }
  assert (Hjl := lookup_lt_Some _ _ _ Hj). assert (Hil := lookup_lt_Some _ _ _ Hi).
  split_and!.
  - intros k n Hk; simpl in *.
    destruct (decide (k = j)) as [->|Hkj].
    { rewrite list_lookup_insert_eq in Hk by (by rewrite length_insert). simplify_eq.
      rewrite lookup_insert_eq. by eexists. }
    rewrite list_lookup_insert_ne in Hk by done.
    destruct (decide (k = i)) as [->|Hki].
    { rewrite list_lookup_insert_eq in Hk by done. simplify_eq.
      rewrite lookup_insert_ne, lookup_insert_eq by done. by eexists. }
    rewrite list_lookup_insert_ne in Hk by done.
    rewrite !lookup_insert_ne; [by apply (Hs k)|..]; intros Heq;
      [apply Hkj | apply Hki]; eapply (q_ok_inj (h, q)); eauto.
  - split; [by apply Permutation_insert_swap|split; [done|]].
    intros l Hl. simpl. rewrite !lookup_insert_ne; [done|..]; intros <-; apply Hl;
      by eapply items_lookup.
  - intros k. unfold key. rewrite (deadline_at_outcomes _ _ _ _ Ho).
    unfold swapf, deadline_at; simpl.
    repeat case_decide; subst.
    + by rewrite list_lookup_insert_ne, list_lookup_insert_eq, Hj by done.
    + rewrite list_lookup_insert_eq by (by rewrite length_insert). by rewrite Hi.
    + by rewrite !list_lookup_insert_ne by done.
Qed.

Lemma up_loop_spec fuel idx s :
  idx < fuel → q_ok s → idx < length s.2 →
  ordered_but 0 (length s.2) (key s) idx → kids_ok (length s.2) (key s) idx →
  ∃ s', up_loop fuel idx s = Some s' ∧ pq_ok s' ∧ evolves s s'.
Proof.
  revert idx s. induction fuel as [|fuel IH]; intros idx s Hf Hs Hi Ho Hk; [lia|].
  cbn [up_loop].
  case_decide as H0; last first.
  { exists s. split_and!; [done| |done]. split; [done|].
    apply (ordered_from_but 0 _ _ idx); [lia|done..|intros ?; lia]. }
  pose proof (parent_lt idx H0) as Hp. fold (parent idx).
  rewrite !deadline_at_ok by (done || lia); cbn [mbind option_bind]. unfold Time.Before.
  destruct (Z.ltb_spec (key s idx) (key s (parent idx))) as [Hlt|Hge]; simpl.
  - destruct (swap_spec s idx (parent idx)) as (s1 & -> & Hs1 & Hev & Hkey); [done|lia..|].
    assert (Hlen := evolves_length _ _ Hev).
    destruct (sift_up_step (length s.2) (key s) idx) as [Ho' Hk']; [lia|done..|].
    rewrite <- Hkey, <- Hlen in Ho', Hk'.
    destruct (IH (parent idx) s1) as (s2 & Heq & Hok & Hev'); [lia|done|lia|done..|].
    exists s2. split_and!; [done..|by etrans].
  - exists s. split_and!; [done| |done]. split; [done|].
    by apply (ordered_from_but 0 _ _ idx); [lia|..|intros _ _].
Qed.

Lemma up_spec idx s :
  q_ok s → idx < length s.2 →
  ordered_but 0 (length s.2) (key s) idx → kids_ok (length s.2) (key s) idx →
  ∃ s', up idx s = Some s' ∧ pq_ok s' ∧ evolves s s'.
Proof. intros. apply up_loop_spec; [lia|done..]. Qed.

(** The child the code compares with is the earlier of the two. *)
Lemma first_child_spec s idx :
  q_ok s → 2 * idx + 1 < length s.2 →
  ∃ f, (if decide (2 * idx + 2 < length s.2) then
          dr ← deadline_at s (2 * idx + 2); df ← deadline_at s (2 * idx + 1);
          Some (if Time.Before dr df then 2 * idx + 2 else 2 * idx + 1)
        else Some (2 * idx + 1)) = Some f ∧
       0 < f < length s.2 ∧ parent f = idx ∧
       ∀ i, 0 < i < length s.2 → parent i = idx → (key s f ≤ key s i)%Z.
Proof.
  intros Hs Hlt. case_decide as Hr.
  - rewrite !deadline_at_ok by (done || lia); cbn [mbind option_bind]. unfold Time.Before.
    eexists; split; [done|].
    destruct (Z.ltb_spec (key s (2 * idx + 2)) (key s (2 * idx + 1))); cbv iota;
      (split; [lia|]; split; [apply parent_spec; lia|]);
      intros i Hi [->| ->]%parent_spec; lia.
  - exists (2 * idx + 1). split_and!; [done|lia|lia|apply parent_spec; lia|].
    intros i Hi [->| ->]%parent_spec; lia.
Qed.

Lemma down_loop_spec lo start fuel idx s :
  length s.2 - idx < fuel → q_ok s → lo ≤ idx → start ≤ idx →
  ordered_but lo (length s.2) (key s) idx →
  (start < idx → par_ok lo (key s) idx) →
  ∃ b s', down_loop fuel start idx s = Some (b, s') ∧ q_ok s' ∧ evolves s s' ∧
    (par_ok lo (key s) idx → ordered_from lo (length s'.2) (key s')) ∧
    (start < idx → b = true) ∧
    (if b then ordered_from lo (length s'.2) (key s')
     else s' = s ∧ kids_ok (length s.2) (key s) idx).
Proof.
  revert idx s. induction fuel as [|fuel IH]; intros idx s Hf Hs Hlo Hst Ho Hp; [lia|].
  cbn [down_loop].
  assert (Hstop : kids_ok (length s.2) (key s) idx →
    ∃ b s', Some (bool_decide (start < idx), s) = Some (b, s') ∧ q_ok s' ∧ evolves s s' ∧
      (par_ok lo (key s) idx → ordered_from lo (length s'.2) (key s')) ∧
      (start < idx → b = true) ∧
      (if b then ordered_from lo (length s'.2) (key s')
       else s' = s ∧ kids_ok (length s.2) (key s) idx)).
  { intros Hk. eexists _, _. split; [done|]. split; [done|]. split; [done|].
    split; [intros Hpo; by apply (ordered_from_but lo _ _ idx)|].
    split; [by intros ?; apply bool_decide_eq_true_2|].
    case_bool_decide; [|done]. apply (ordered_from_but lo _ _ idx); auto. }
  destruct (decide (length s.2 ≤ 2 * idx + 1)) as [Hfirst|Hfirst].
  { apply Hstop. intros i Hi [->| ->]%parent_spec; lia. }
  destruct (first_child_spec s idx) as (f & Hfe & Hfr & Hpf & Hmin); [done|lia|].
  assert (idx < f) by (rewrite <- Hpf; apply parent_lt; lia).
  rewrite Hfe; cbn [mbind option_bind].
  rewrite !deadline_at_ok by (done || lia); cbn [mbind option_bind]. unfold Time.Before.
  destruct (Z.ltb_spec (key s f) (key s idx)) as [Hlt|Hge]; simpl.
  - destruct (swap_spec s idx f) as (s1 & -> & Hs1 & Hev & Hkey); [done|lia..|]; simpl.
    assert (Hlen := evolves_length _ _ Hev).
    destruct (sift_down_step lo (length s.2) (key s) idx f) as [Ho' Hp']; [done..|].
    rewrite <- Hkey in Ho', Hp'. rewrite <- Hlen in Ho'.
    destruct (IH f s1) as (b & s2 & Heq & Hok & Hev' & Hpar & Hst' & Hb); [lia|done|lia|lia|done|done|].
    rewrite Hst' in Heq, Hb by lia. exists true, s2. split_and!; auto. by etrans.
  - apply Hstop. intros i Hi Hpi. specialize (Hmin i Hi Hpi). lia.
Qed.

Lemma pq_ok_nil h : pq_ok (h, []).
Proof. split; [intros i n Hn; by destruct i|intros i Hi; simpl in *; lia]. Qed.

(** *** top, push and remove *)

(** [top] names a node no later than any other. *)
Lemma top_spec s k l :
  pq_ok s → top s = Some (k, l) →
  PNode l k ∈ s.2 ∧
  ∀ n e e', s.1 !! l = Some e → n ∈ s.2 → s.1 !! n_item n = Some e' →
    (deadline e ≤ deadline e')%Z.
Proof.
  intros [Hs Ho] Ht. unfold top in Ht.
  destruct (s.2 !! 0) as [[l' k']|] eqn:H0; simplify_eq/=.
  split; [by eapply list_elem_of_lookup_2|].
  intros n e e' He [i Hi]%list_elem_of_lookup He'.
  assert (Hlt := ordered_from_head _ _ _ Ho (lookup_lt_Some _ _ _ Hi)).
  unfold key, deadline_at in Hlt. rewrite H0, Hi in Hlt; simpl in Hlt.
  by rewrite He, He' in Hlt.
Qed.

Lemma top_None s : top s = None ↔ s.2 = [].
Proof. unfold top. destruct s as [h [|n q]]; simpl; [done|by destruct n]. Qed.

Lemma top_is_Some s : s.2 ≠ [] → ∃ k l, top s = Some (k, l).
Proof. destruct s as [h [|[l k] q]]; simpl; [done|by exists k, l]. Qed.

Lemma key_app_l h q q' i : i < length q → key (h, q ++ q') i = key (h, q) i.
Proof. intros Hi. unfold key, deadline_at; simpl. by rewrite lookup_app_l. Qed.

Lemma push_spec s k l e :
  pq_ok s → s.1 !! l = Some e → l ∉ items s.2 →
  ∃ s', push k l s = Some s' ∧ pq_ok s' ∧ evolves (s.1, PNode l k :: s.2) s'.
Proof.
  intros [Hs Ho] He Hl. destruct s as [h q]; simpl in *.
  unfold push; cbn [fst snd].
  assert (Hlast : length (q ++ [PNode l k]) - 1 = length q) by (rewrite length_app; simpl; lia).
  rewrite Hlast, (set_idx_spec _ _ _ _ He); cbn [mbind option_bind].
  set (s1 := (<[l:=with_idx e (length q)]> h, q ++ [PNode l k])).
  assert (Hs1 : q_ok s1).
  { intros i n [Hi|[Hi Hn]]%lookup_app_Some; simpl in *.
    - rewrite lookup_insert_ne; [by apply (Hs i)|]. intros ->. apply Hl. by eapply items_lookup.
    - apply list_lookup_singleton_Some in Hn as [Hn <-]; simpl.
      rewrite lookup_insert_eq. eexists; split; [done|]; simpl; lia. }
  assert (Hout : outcome <$> s1.1 = outcome <$> h) by by apply outcomes_set_idx.
  assert (Hlen : length s1.2 = S (length q)) by (unfold s1; simpl; rewrite length_app; simpl; lia).
  assert (Hkey : ∀ i, i < length q → key s1 i = key (h, q) i).
  { intros i Hi. rewrite <- (key_app_l h q [PNode l k]) by done. unfold key, s1.
    by rewrite (deadline_at_outcomes h). }
  destruct (up_spec (length q) s1) as (s2 & -> & Hok & Hev); [done|lia|..].
  - split; rewrite Hlen.
    + intros i Hi _ Hne _. pose proof (parent_lt i).
      rewrite !Hkey by lia. apply Ho; lia.
    + intros _ _ i Hi Hpi. pose proof (parent_lt i). lia.
  - intros i Hi Hpi. pose proof (parent_lt i). lia.
  - exists s2. split_and!; [done..|]. destruct Hev as (Hp & Ho' & Hf). split; [|split]; simpl.
    + rewrite Hp. unfold s1; simpl. by rewrite Permutation_app_comm.
    + by rewrite Ho'.
    + intros l' Hl'. rewrite Hf.
      * unfold s1; simpl. rewrite lookup_insert_ne; [done|]. set_solver.
      * unfold s1, items in *; simpl in *. rewrite fmap_app; simpl. set_solver.
Qed.

(** Filling the hole at [idx] with the last node leaves the order broken
    only at [idx]. *)
Lemma fill_hole_spec s idx n :
  pq_ok s → s.2 !! idx = Some n → idx ≠ length s.2 - 1 →
  ∃ s1, (n' ← s.2 !! (length s.2 - 1); place idx n' s) = Some s1 ∧
    let s2 := (s1.1, take (length s.2 - 1) s1.2) in
    length s1.2 = length s.2 ∧ length s2.2 = length s.2 - 1 ∧
    q_ok s2 ∧ evolves s (s2.1, n :: s2.2) ∧
    ordered_but 0 (length s2.2) (key s2) idx.
Proof.
  intros [Hs Ho] Hn Hne. destruct s as [h q]; simpl in *.
  assert (Hi := lookup_lt_Some _ _ _ Hn).
  destruct (lookup_lt_is_Some_2 q (length q - 1)) as [n' Hn']; [lia|].
  destruct (Hs _ _ Hn') as (e' & He' & Hx'); simpl in *.
  rewrite Hn'; cbn [mbind option_bind].
  rewrite (place_spec (h, q) idx n' e') by done; simpl. eexists; split; [done|]; simpl.
  rewrite length_take, length_insert.
  assert (Hlk : ∀ k, k < length q - 1 → take (length q - 1) (<[idx:=n']> q) !! k =
                  if decide (k = idx) then Some n' else q !! k).
  { intros k Hk. rewrite lookup_take_lt by done. case_decide; subst.
    - by rewrite list_lookup_insert_eq.
    - by rewrite list_lookup_insert_ne. }
  assert (Hout : outcome <$> <[n_item n' := with_idx e' idx]> h = outcome <$> h)
    by by apply outcomes_set_idx.
  split_and!; [done|lia|..].
  - intros k m Hk. assert (k < length q - 1) as Hkl.
    { apply lookup_lt_Some in Hk. simpl in Hk. rewrite length_take, length_insert in Hk. lia. }
    simpl in *. rewrite Hlk in Hk by done. case_decide; simplify_eq.
    + rewrite lookup_insert_eq. by eexists.
    + rewrite lookup_insert_ne; [by apply (Hs k)|]. intros Heq.
      assert (length q - 1 = k) by by eapply (q_ok_inj (h, q)). lia.
  - assert (Hq : q = take (length q - 1) q ++ [n']).
    { rewrite <- (take_drop (length q - 1) q) at 1. f_equal.
      rewrite (drop_S q n') by done. rewrite drop_ge by lia. done. }
    split; [|split]; simpl; [|done|].
    + rewrite take_insert_lt by lia.
      set (t := take (length q - 1) q) in *.
      assert (Ht : t !! idx = Some n) by (unfold t; rewrite lookup_take_lt; [done|lia]).
      rewrite Hq. rewrite insert_take_drop by by eapply lookup_lt_Some.
      rewrite <- (take_drop_middle t idx n) at 3 by done.
      rewrite <- !Permutation_middle, app_nil_r. by rewrite perm_swap.
    + intros l Hl. rewrite lookup_insert_ne; [done|]. intros <-. apply Hl. by eapply items_lookup.
  - replace (length q - 1) with ((length q - 1) `min` length q) at 1 by lia.
    assert (Hkey : ∀ k, k < length q - 1 → k ≠ idx →
      key (<[n_item n':=with_idx e' idx]> h, take (length q - 1) (<[idx:=n']> q)) k = key (h, q) k).
    { intros k Hk Hki. unfold key. rewrite (deadline_at_outcomes h) by done.
      unfold deadline_at; simpl. rewrite Hlk by done. by rewrite decide_False. }
    split.
    + intros i Hil _ Hi' Hpi. pose proof (parent_lt i). rewrite !Hkey by lia. apply Ho; lia.
    + intros H0 _ i Hil Hpi. pose proof (parent_lt i). pose proof (parent_lt idx).
      rewrite !Hkey by lia.
      apply (ordered_but_weaken 0 _ _ idx) in Ho as [_ Hb]. apply Hb; lia.
Qed.

Lemma remove_spec s idx n :
  pq_ok s → s.2 !! idx = Some n →
  ∃ s', remove (n_item n) s = Some s' ∧ pq_ok s' ∧ evolves s (s'.1, n :: s'.2).
Proof.
  intros [Hs Ho] Hn. assert (Hi := lookup_lt_Some _ _ _ Hn).
  destruct (Hs _ _ Hn) as (e & He & Hx). unfold remove.
  rewrite He; cbn [mbind option_bind]. rewrite Hx.
  destruct (decide (idx = length s.2 - 1)) as [Hlast|Hne].
  - rewrite (decide_False (P := idx ≠ _)) by auto; cbn [mbind option_bind].
    rewrite decide_True, decide_False by lia. eexists; split; [done|]. rewrite <- Hlast.
    assert (Hq : s.2 = take idx s.2 ++ [n]).
    { rewrite <- (take_drop idx s.2) at 1. f_equal.
      rewrite (drop_S s.2 n) by done. by rewrite drop_ge by lia. }
    assert (Hlen : length (take idx s.2) = idx) by (rewrite length_take; lia).
    split; [split|]; simpl.
    + intros i m Hm; simpl in *. apply lookup_take_Some in Hm as [Hm _]. by apply (Hs i).
    + rewrite Hlen. intros i Hi' Hl. pose proof (parent_lt i).
      assert (Hk : ∀ j, j < idx → key (s.1, take idx s.2) j = key s j).
      { intros j Hj. unfold key, deadline_at; simpl. by rewrite lookup_take_lt. }
      rewrite !Hk by lia. apply Ho; lia.
    + split; [|split]; simpl; [|done..]. rewrite Hq at 2.
      by rewrite <- Permutation_cons_append.
  - rewrite (decide_True (P := idx ≠ _)) by auto.
    destruct (fill_hole_spec s idx n) as (s1 & -> & Hl1 & Hl2 & Hok2 & Hev & Hbut);
      [done..|]. cbn [mbind option_bind].
    rewrite !decide_True by lia.
    set (s2 := (s1.1, take (length s.2 - 1) s1.2)) in *.
    unfold down.
    destruct (down_loop_spec 0 idx (S (length s2.2)) idx s2)
      as (b & s3 & -> & Hok3 & Hev3 & _ & _ & Hb); [lia|done|lia|lia|done|lia|].
    cbn [mbind option_bind fst snd].
    assert (Hcomb : ∀ s', evolves s2 s' → evolves s (s'.1, n :: s'.2)).
    { intros s' (Hp' & Ho' & Hf'). destruct Hev as (Hp & Hout & Hf); simpl in *.
      split; [|split]; simpl.
      - by rewrite <- Hp, Hp'.
      - by rewrite Ho'.
      - intros l Hl. rewrite Hf'; [by apply Hf|].
        intros Hin. apply Hl. unfold items. rewrite <- Hp. by right. }
    destruct b; simpl.
    + exists s3. split_and!; [done|done|by apply Hcomb].
    + destruct Hb as [-> Hk].
      destruct (up_spec idx s2) as (s4 & -> & Hok4 & Hev4); [done|lia|done|done|].
      exists s4. split_and!; [done|done|by apply Hcomb].
Qed.

(** *** heapify and partition *)

Lemma reindex_spec q : ∀ i h,
  NoDup (items q) → (∀ n, n ∈ q → is_Some (h !! n_item n)) →
  ∃ h', reindex i q h = Some h' ∧ outcome <$> h' = outcome <$> h ∧
    (∀ l, l ∉ items q → h' !! l = h !! l) ∧
    (∀ j n, q !! j = Some n → ∃ e, h' !! n_item n = Some e ∧ e_idx e = i + j).
Proof.
  induction q as [|n q IH]; intros i h Hnd Hlive; simpl.
  { exists h. split_and!; [done..|]. intros j m Hj. by destruct j. }
  apply NoDup_cons in Hnd as [Hni Hnd].
  destruct (Hlive n) as [e He]; [by left|].
  rewrite (set_idx_spec _ _ _ _ He); cbn [mbind option_bind].
  destruct (IH (S i) (<[n_item n := with_idx e i]> h)) as (h' & -> & Ho & Hf & Hx); [done|..].
  { intros m Hm. destruct (decide (n_item n = n_item m)) as [<-|].
    - rewrite lookup_insert_eq; eauto.
    - rewrite lookup_insert_ne by done. apply Hlive. by right. }
  exists h'. split_and!; [done|..].
  - rewrite Ho. by apply outcomes_set_idx.
  - intros l [Hln Hl]%not_elem_of_cons. rewrite Hf by done. by rewrite lookup_insert_ne.
  - intros [|j] m Hj; simplify_eq/=.
    + rewrite Hf by done. rewrite lookup_insert_eq. eexists; split; [done|]; simpl; lia.
    + destruct (Hx j m Hj) as (e' & He' & Hx'). exists e'. split; [done|lia].
Qed.

Lemma heapify_loop_spec m s :
  q_ok s → m ≤ length s.2 → ordered_from m (length s.2) (key s) →
  ∃ s', heapify_loop m s = Some s' ∧ pq_ok s' ∧ evolves s s'.
Proof.
  revert s. induction m as [|m IH]; intros s Hs Hm Ho; simpl.
  { by exists s. }
  unfold down.
  destruct (down_loop_spec m m (S (length s.2)) m s)
    as (b & s1 & -> & Hs1 & Hev & Hord & _ & _); [lia|done|lia|lia|..|lia|].
  - split.
    + intros i Hi Hl Him Hpm. apply Ho; lia.
    + intros H0 Hl. pose proof (parent_lt m). lia.
  - cbn [mbind option_bind snd]. assert (Hlen := evolves_length _ _ Hev).
    destruct (IH s1) as (s2 & Heq & Hok & Hev'); [done|lia| |].
    + apply Hord. intros H0 Hl. pose proof (parent_lt m). lia.
    + exists s2. split_and!; [done|done|by etrans].
Qed.

Lemma heapify_spec s :
  NoDup (items s.2) → (∀ n, n ∈ s.2 → is_Some (s.1 !! n_item n)) →
  ∃ s', heapify s = Some s' ∧ pq_ok s' ∧ evolves s s'.
Proof.
  intros Hnd Hlive. unfold heapify.
  destruct (reindex_spec s.2 0 s.1) as (h' & -> & Ho & Hf & Hx); [done..|].
  cbn [mbind option_bind].
  assert (Hev : evolves s (h', s.2)) by done.
  destruct (heapify_loop_spec (length s.2 / 2) (h', s.2)) as (s2 & -> & Hok & Hev').
  - intros i n Hi; simpl in *. destruct (Hx _ _ Hi) as (e & He & <-). by exists e.
  - cbn [snd]. apply Nat.Div0.div_le_upper_bound. lia.
  - intros i Hi Hl; cbn [snd] in *. exfalso.
    pose proof (Nat.div_mod_eq (length s.2) 2). pose proof (Nat.mod_upper_bound (length s.2) 2).
    destruct (proj1 (parent_spec i (parent i) ltac:(lia)) eq_refl); lia.
  - exists s2. split_and!; [done|done|by etrans].
Qed.

Definition expendable_at (p : entry V E → bool) h (n : pnode K) : bool :=
  match h !! n_item n with Some e => p e | None => false end.

Lemma partition_loop_spec {St} (p : entry V E → bool) (f : K → loc → St → St) h rest :
  ∀ kept mid st, (∀ n, n ∈ rest → is_Some (h !! n_item n)) →
  ∃ k arr, partition_loop p f h (length rest) (length kept + length mid) (length kept)
             (kept ++ mid ++ rest) st =
      Some (k, arr, foldl (λ st n, f (n_key n) (n_item n) st) st (filter (expendable_at p h) rest)) ∧
    take k arr = kept ++ filter (λ n, ¬ expendable_at p h n) rest.
Proof.
  induction rest as [|n rest IH]; intros kept mid st Hlive; simpl.
  { eexists _, _. split; [done|]. by rewrite take_app_length, app_nil_r. }
  destruct (Hlive n) as [e He]; [by left|].
  assert (Hat : expendable_at p h n = p e) by (unfold expendable_at; by rewrite He).
  rewrite (lookup_app_r kept), Nat.add_comm, Nat.add_sub by lia.
  rewrite lookup_app_r, Nat.sub_diag by lia; cbn [mbind option_bind lookup list_lookup].
  rewrite He; cbn [mbind option_bind].
  destruct (p e) eqn:Hp.
  - destruct (IH kept (mid ++ [n]) (f (n_key n) (n_item n) st)) as (k & arr & Heq & Ht).
    { intros m Hm. apply Hlive. by right. }
    exists k, arr. rewrite length_app, <- app_assoc in Heq; simpl in Heq.
    replace (length kept + (length mid + 1)) with (S (length mid + length kept)) in Heq by lia.
    rewrite Heq, !filter_cons, Hat. rewrite decide_True, decide_False by auto. done.
  - destruct (IH (kept ++ [n]) (tail (mid ++ [n])) st) as (k & arr & Heq & Ht).
    { intros m Hm. apply Hlive. by right. }
    exists k, arr. rewrite !filter_cons, Hat. rewrite decide_False, decide_True by auto.
    rewrite <- app_assoc in Ht. split; [|done]. rewrite <- Heq.
    assert (Hmid : ∃ x t, mid ++ [n] = x :: t) by (destruct mid; simpl; eauto).
    destruct Hmid as (x & t & Hxt). assert (Hlt := f_equal length Hxt).
    rewrite length_app in Hlt; simpl in Hlt. rewrite Hxt; simpl.
    rewrite length_app; simpl.
    replace (S (length mid + length kept)) with (length kept + 1 + length t) by lia.
    replace (S (length kept)) with (length kept + 1) by lia. f_equal.
    rewrite <- (Nat.add_0_r (length kept)), insert_app_r, <- app_assoc. f_equal.
    replace (mid ++ n :: rest) with ((mid ++ [n]) ++ rest) by by rewrite <- app_assoc.
    by rewrite Hxt.
Qed.

Lemma partition_spec {St} (p : entry V E → bool) (f : K → loc → St → St) st s :
  q_ok s →
  ∃ s', partition p f st s =
      Some (foldl (λ st n, f (n_key n) (n_item n) st) st (filter (expendable_at p s.1) s.2), s') ∧
    pq_ok s' ∧ evolves (s.1, filter (λ n, ¬ expendable_at p s.1 n) s.2) s'.
Proof.
  intros Hs. assert (Hnd := q_ok_nodup s Hs). unfold partition.
  assert (Hlive : ∀ n, n ∈ s.2 → is_Some (s.1 !! n_item n)).
  { intros n [i Hi]%list_elem_of_lookup. destruct (Hs _ _ Hi) as (e & ? & _). by exists e. }
  destruct (partition_loop_spec p f s.1 s.2 [] [] st Hlive) as (k & arr & Heq & Ht).
  simpl in Heq, Ht. rewrite Heq; cbn [mbind option_bind]. rewrite Ht.
  destruct (heapify_spec (s.1, filter (λ n, ¬ expendable_at p s.1 n) s.2))
    as (s' & -> & Hok & Hev); simpl.
  - eapply sublist_NoDup; [exact Hnd|]. apply fmap_sublist, sublist_filter.
  - intros n [_ Hn]%list_elem_of_filter. by apply Hlive.
  - by exists s'.
Qed.
End PQueueFacts.
