(* ===== verification/SFEvict.v ===== *)
(** * [pkg/sfcache]: the eviction policy (evict.go)

    The victims structure holds every stored entry in one of three queues and
    names the entry a store may take. *)

From stdpp Require Import gmap list.
From S2P Require Import Prelude SFQueue.

(** [evictLevel] is a [uint8] enumeration compared with [<]. *)
Definition evictLevel := nat.
Definition evictWorthless : evictLevel := 0.
Definition evictStale : evictLevel := 1.
Definition evictValue : evictLevel := 2.

Record victims (K : Type) : Type := Victims {
  v_values : list (pnode K);
  v_stale : list (pnode K);
  v_residue : list (pnode K);
  v_maxStale : Z;
  v_maxStaleOnFailure : Z
}.
Arguments Victims {K} _ _ _ _ _.
Arguments v_values {K} _.
Arguments v_stale {K} _.
Arguments v_residue {K} _.
Arguments v_maxStale {K} _.
Arguments v_maxStaleOnFailure {K} _.

(** Which of the three queues an entry belongs to: the switch of [file] and
    [unfile]. *)
Inductive kind := KResidue | KStale | KValue.

#[export] Instance kind_eq_dec : EqDecision kind.
Proof. solve_decision. Defined.

Definition kind_of {V E} (e : entry V E) : kind :=
  match e_err e with
  | Some _ => KResidue
  | None => if revived e then KStale else KValue
  end.

Section Victims.
Context {K V E : Type}.
Abbreviation store := (gmap loc (entry V E)).
Abbreviation vstate := (store * victims K)%type.
Implicit Types (v : victims K) (e : entry V E) (h : store).

Definition queue v (k : kind) : list (pnode K) :=
  match k with
  | KResidue => v_residue v
  | KStale => v_stale v
  | KValue => v_values v
  end.

Definition set_queue v (k : kind) (q : list (pnode K)) : victims K :=
  match k with
  | KResidue => Victims (v_values v) (v_stale v) q (v_maxStale v) (v_maxStaleOnFailure v)
  | KStale => Victims (v_values v) q (v_residue v) (v_maxStale v) (v_maxStaleOnFailure v)
  | KValue => Victims q (v_stale v) (v_residue v) (v_maxStale v) (v_maxStaleOnFailure v)
  end.

(** [victims.reset]. *)
Definition vreset v : victims K :=
  Victims reset reset reset (v_maxStale v) (v_maxStaleOnFailure v).

Definition file (key : K) (item : loc) (s : vstate) : option vstate :=
  e ← s.1 !! item;
  r ← push key item (s.1, queue s.2 (kind_of e));
  Some (r.1, set_queue s.2 (kind_of e) r.2).

Definition unfile (item : loc) (s : vstate) : option vstate :=
  e ← s.1 !! item;
  r ← remove item (s.1, queue s.2 (kind_of e));
  Some (r.1, set_queue s.2 (kind_of e) r.2).

(** [None] is the [(_, false)] return: no such time exists. *)
Definition worthlessAt v e : option Z :=
  match e_err e with
  | Some _ => Some Time.zero
  | None =>
      if revived e then Some (e_staleUntil e)
      else if (0 <? v_maxStaleOnFailure v)%Z then None
      else if (0 <? v_maxStale v)%Z then Some (Time.Add (e_expireAt e) (v_maxStale v))
      else Some (e_expireAt e)
  end.

Definition worthless v e (now : Z) : bool :=
  match worthlessAt v e with
  | Some at_ => negb (Time.Before now at_)
  | None => false
  end.

(** [key, item, ok := q.top(); ok && test(item)]: the outer option is a
    panic, the inner one Go's [ok]. *)
Definition top_if (h : store) (q : list (pnode K)) (test : entry V E → bool) : option (option K) :=
  match top (h, q) with
  | None => Some None
  | Some (key, item) =>
      e ← h !! item;
      Some (if test e then Some key else None)
  end.

Definition worthlessVictim (now : Z) (s : vstate) : option (option K) :=
  match top (s.1, v_residue s.2) with
  | Some (key, _) => Some (Some key)
  | None =>
      r ← top_if s.1 (v_stale s.2) (λ e, worthless s.2 e now);
      match r with
      | Some key => Some (Some key)
      | None => top_if s.1 (v_values s.2) (λ e, worthless s.2 e now)
      end
  end.

Definition staleVictim (now : Z) (s : vstate) : option (option K) :=
  r ← top_if s.1 (v_values s.2) (λ e, expired e now);
  match r with
  | Some key => Some (Some key)
  | None =>
      match top (s.1, v_stale s.2) with
      | Some (key, _) => Some (Some key)
      | None => Some None
      end
  end.

Definition pick (level : evictLevel) (now : Z) (s : vstate) : option (option K) :=
  r ← worthlessVictim now s;
  match r with
  | Some key => Some (Some key)
  | None =>
      if decide (level < evictStale) then Some None
      else
        r ← staleVictim now s;
        match r with
        | Some key => Some (Some key)
        | None =>
            if decide (level < evictValue) then Some None
            else
              match top (s.1, v_values s.2) with
              | Some (key, _) => Some (Some key)
              | None => Some None
              end
        end
  end.
End Victims.

(** ** Well-formed victims *)

Section VictimsFacts.
Context {K V E : Type}.
Abbreviation store := (gmap loc (entry V E)).
Abbreviation vstate := (store * victims K)%type.
Implicit Types (v : victims K) (e : entry V E) (h : store) (s : vstate).

Definition all_nodes v : list (pnode K) := v_values v ++ v_stale v ++ v_residue v.

(** Each queue is a well-formed heap holding only entries of its kind. *)
Definition vic_ok s : Prop :=
  ∀ k, pq_ok (s.1, queue s.2 k) ∧
    ∀ n, n ∈ queue s.2 k → ∃ e, s.1 !! n_item n = Some e ∧ kind_of e = k.

Lemma vic_ok_empty h v : (∀ k, queue v k = []) → vic_ok (h, v).
Proof.
  intros Hq k; simpl. rewrite Hq. split; [apply pq_ok_nil|].
  intros n Hn. by apply not_elem_of_nil in Hn.
Qed.

Lemma queue_set_eq v k q : queue (set_queue v k q) k = q.
Proof. by destruct k. Qed.

Lemma queue_set_ne v k k' q : k ≠ k' → queue (set_queue v k q) k' = queue v k'.
Proof. by destruct k, k'. Qed.

Lemma elem_of_all_nodes v n : n ∈ all_nodes v ↔ ∃ k, n ∈ queue v k.
Proof.
  unfold all_nodes. rewrite !elem_of_app. split.
  - intros [?|[?|?]]; [by exists KValue|by exists KStale|by exists KResidue].
  - intros [[] ?]; auto.
Qed.

Lemma all_nodes_set_queue v k q n :
  q ≡ₚ n :: queue v k → all_nodes (set_queue v k q) ≡ₚ n :: all_nodes v.
Proof.
  intros Hq. unfold all_nodes. destruct k; simpl in *; rewrite Hq; solve_Permutation.
Qed.

Lemma kind_of_outcome e e' : outcome e = outcome e' → kind_of e = kind_of e'.
Proof. destruct e, e'; unfold outcome, with_idx; simpl. intros; simplify_eq; done. Qed.

Lemma outcomes_lookup h h' l e :
  outcome <$> h' = outcome <$> h → h !! l = Some e →
  ∃ e', h' !! l = Some e' ∧ outcome e' = outcome e.
Proof.
  intros Ho Hl. assert (Hf : (outcome <$> h') !! l = (outcome <$> h) !! l) by by rewrite Ho.
  rewrite !lookup_fmap, Hl in Hf. destruct (h' !! l) as [e'|]; [|discriminate Hf].
  exists e'. split; [done|]. by apply (inj Some).
Qed.

(** A queue none of whose entries moved is unaffected. *)
Lemma pq_ok_frame h h' (q : list (pnode K)) :
  outcome <$> h' = outcome <$> h → (∀ l, l ∈ items q → h' !! l = h !! l) →
  pq_ok (h, q) → pq_ok (h', q).
Proof.
  intros Ho Hf [Hs Hord]. split.
  - intros i n Hn; simpl in *. rewrite Hf by by eapply items_lookup. by apply (Hs i).
  - assert (Hk : pointwise_relation nat eq (key (h', q)) (key (h, q))).
    { intros i. unfold key. by rewrite (deadline_at_outcomes h). }
    simpl. by rewrite Hk.
Qed.

Lemma vic_ok_items_disjoint s k k' n n' :
  vic_ok s → n ∈ queue s.2 k → n' ∈ queue s.2 k' → n_item n = n_item n' → k = k'.
Proof.
  intros Hv Hn Hn' Heq.
  destruct (Hv k) as [_ Hk], (Hv k') as [_ Hk'].
  destruct (Hk n Hn) as (e & He & <-), (Hk' n' Hn') as (e' & He' & <-). congruence.
Qed.

(** Replacing one queue by the result of an operation on it. *)
Lemma vic_ok_set_queue s k h' q' (q : list (pnode K)) :
  vic_ok s → pq_ok (h', q') →
  outcome <$> h' = outcome <$> s.1 →
  (∀ l, l ∉ items q → h' !! l = s.1 !! l) →
  (∀ k' n, k' ≠ k → n ∈ queue s.2 k' → n_item n ∉ items q) →
  (∀ n, n ∈ q' → ∃ e, s.1 !! n_item n = Some e ∧ kind_of e = k) →
  vic_ok (h', set_queue s.2 k q').
Proof.
  intros Hv Hq' Ho Hf Hdis Hkd k'. simpl.
  destruct (decide (k = k')) as [<-|Hne].
  - rewrite queue_set_eq. split; [done|]. intros n Hn.
    destruct (Hkd n Hn) as (e & He & Hke).
    destruct (outcomes_lookup _ _ _ _ Ho He) as (e' & He' & Hout).
    exists e'. split; [done|]. by rewrite (kind_of_outcome _ _ Hout).
  - rewrite queue_set_ne by done. destruct (Hv k') as [Hpq Hk]. split.
    + eapply pq_ok_frame; [done| |done]. intros l (n & -> & Hn)%list_elem_of_fmap.
      apply Hf. by eapply Hdis.
    + intros n Hn. destruct (Hk n Hn) as (e & He & Hke).
      destruct (outcomes_lookup _ _ _ _ Ho He) as (e' & He' & Hout).
      exists e'. split; [done|]. by rewrite (kind_of_outcome _ _ Hout).
Qed.

Lemma file_spec s k l e :
  vic_ok s → s.1 !! l = Some e → l ∉ items (all_nodes s.2) →
  ∃ s', file k l s = Some s' ∧ vic_ok s' ∧ outcome <$> s'.1 = outcome <$> s.1 ∧
    (∀ kd, queue s'.2 kd ≡ₚ
      if decide (kd = kind_of e) then PNode l k :: queue s.2 kd else queue s.2 kd) ∧
    v_maxStale s'.2 = v_maxStale s.2 ∧ v_maxStaleOnFailure s'.2 = v_maxStaleOnFailure s.2.
Proof.
  intros Hv He Hl. unfold file. rewrite He; cbn [mbind option_bind].
  assert (Hlq : ∀ kd n, n ∈ queue s.2 kd → n_item n ≠ l).
  { intros kd n Hn <-. apply Hl. apply list_elem_of_fmap. exists n.
    split; [done|]. apply elem_of_all_nodes. by exists kd. }
  destruct (push_spec (s.1, queue s.2 (kind_of e)) k l e) as ([h' q'] & -> & Hok & Hp & Ho & Hf);
    [apply (Hv (kind_of e))|done| |].
  { intros (n & -> & Hn)%list_elem_of_fmap. by eapply Hlq. }
  cbn [mbind option_bind fst snd] in *. eexists; split; [done|]. split_and!.
  - eapply vic_ok_set_queue; [done..| |]; simpl.
    + intros k' n Hne Hn. unfold items; simpl. rewrite not_elem_of_cons.
      split; [by eapply Hlq|]. intros (n' & Heq & Hn')%list_elem_of_fmap.
      apply Hne. by eapply vic_ok_items_disjoint.
    + intros n Hn. rewrite Hp in Hn. apply elem_of_cons in Hn as [->|Hn]; [by exists e|].
      by apply (Hv (kind_of e)).
  - done.
  - cbn [snd]. intros kd. case_decide as Hkd; [subst; by rewrite queue_set_eq|]. by rewrite queue_set_ne by done.
  - by destruct (kind_of e).
  - by destruct (kind_of e).
Qed.

Lemma unfile_spec s n kd :
  vic_ok s → n ∈ queue s.2 kd →
  ∃ s', unfile (n_item n) s = Some s' ∧ vic_ok s' ∧ outcome <$> s'.1 = outcome <$> s.1 ∧
    (∀ kd', queue s.2 kd' ≡ₚ
      if decide (kd' = kd) then n :: queue s'.2 kd' else queue s'.2 kd') ∧
    v_maxStale s'.2 = v_maxStale s.2 ∧ v_maxStaleOnFailure s'.2 = v_maxStaleOnFailure s.2.
Proof.
  intros Hv Hn. destruct (Hv kd) as [Hpq Hk]. destruct (Hk n Hn) as (e & He & Hke).
  unfold unfile. rewrite He; cbn [mbind option_bind]. rewrite Hke.
  apply list_elem_of_lookup in Hn as [i Hi].
  destruct (remove_spec (s.1, queue s.2 kd) i n) as ([h' q'] & -> & Hok & Hp & Ho & Hf); [done..|].
  cbn [mbind option_bind fst snd] in *. eexists; split; [done|]. split_and!.
  - eapply vic_ok_set_queue; [done..| |]; simpl.
    + intros k' m Hne Hm (n' & Heq & Hn')%list_elem_of_fmap.
      apply Hne. by eapply vic_ok_items_disjoint.
    + intros m Hm. apply Hk. rewrite <- Hp. by right.
  - done.
  - cbn [snd]. intros kd'. case_decide as Hkd; [subst; by rewrite queue_set_eq|]. by rewrite queue_set_ne by done.
  - by destruct kd.
  - by destruct kd.
Qed.

(** *** The policy: which entry [pick] may name *)

(** What a victims state holds: a key and the outcome of its entry. *)
Definition held s (k : K) e : Prop :=
  ∃ n e0, n ∈ all_nodes s.2 ∧ n_key n = k ∧ s.1 !! n_item n = Some e0 ∧ e = outcome e0.

Section Policy.
(** [H k e]: the entry [e] is held under the key [k]. *)
Context (H : K → entry V E → Prop).

Definition no_worthless v (now : Z) : Prop :=
  ∀ k e, H k e → worthless v e now = false.

Definition no_expired_value (now : Z) : Prop :=
  ∀ k e, H k e → kind_of e = KValue → expired e now = false.

Definition no_stale : Prop := ∀ k e, H k e → kind_of e ≠ KStale.

Definition earliest (kd : kind) (k : K) e : Prop :=
  H k e ∧ kind_of e = kd ∧
  ∀ k' e', H k' e' → kind_of e' = kd → (deadline e ≤ deadline e')%Z.

(** The documented order of preference: a worthless entry; then a value
    merely served stale, the unrevived one closest to expiring before the
    revived one whose window shuts first; then the valid entry closest to
    expiring; each only at the levels that may take it. *)
Inductive victim_spec v (level : evictLevel) (now : Z) : option K → Prop :=
| victim_worthless k e :
    H k e → worthless v e now = true → victim_spec v level now (Some k)
| victim_unrevived k e :
    no_worthless v now → evictStale ≤ level →
    earliest KValue k e → expired e now = true → victim_spec v level now (Some k)
| victim_revived k e :
    no_worthless v now → evictStale ≤ level → no_expired_value now →
    earliest KStale k e → victim_spec v level now (Some k)
| victim_valid k e :
    no_worthless v now → evictValue ≤ level → no_expired_value now → no_stale →
    earliest KValue k e → victim_spec v level now (Some k)
| victim_none :
    no_worthless v now →
    (evictStale ≤ level → no_expired_value now ∧ no_stale) →
    (evictValue ≤ level → ∀ k' e', ¬ H k' e') →
    victim_spec v level now None.

(** A named victim is held. *)
Lemma victim_held v level now k :
  victim_spec v level now (Some k) → ∃ e, H k e.
Proof.
  inversion 1; subst; [eauto|..];
    match goal with H : earliest _ _ _ |- _ => destruct H end; eauto.
Qed.
End Policy.

Lemma held_queue s k e :
  vic_ok s → held s k e →
  ∃ n e0, n ∈ queue s.2 (kind_of e) ∧ n_key n = k ∧ s.1 !! n_item n = Some e0 ∧ e = outcome e0.
Proof.
  intros Hv (n & e0 & [kd Hn]%elem_of_all_nodes & Hk & He & ->). exists n, e0. split_and!; [|done..].
  destruct (Hv kd) as [_ Hkd]. destruct (Hkd n Hn) as (e' & He' & <-). by simplify_eq.
Qed.

Lemma queue_held s kd n :
  vic_ok s → n ∈ queue s.2 kd →
  ∃ e, held s (n_key n) (outcome e) ∧ kind_of e = kd ∧ s.1 !! n_item n = Some e.
Proof.
  intros Hv Hn. destruct (Hv kd) as [_ Hkd]. destruct (Hkd n Hn) as (e & He & Hke).
  exists e. split_and!; [|done..]. exists n, e. split_and!; [|done..].
  apply elem_of_all_nodes. by exists kd.
Qed.

(** The head of a queue is the earliest entry of its kind. *)
Lemma top_earliest s kd :
  vic_ok s →
  match top (s.1, queue s.2 kd) with
  | Some (k, l) => ∃ e, s.1 !! l = Some e ∧ earliest (held s) kd k (outcome e)
  | None => ∀ k e, held s k e → kind_of e ≠ kd
  end.
Proof.
  intros Hv. destruct (top (s.1, queue s.2 kd)) as [[k l]|] eqn:Ht.
  - destruct (Hv kd) as [Hpq _]. destruct (top_spec _ _ _ Hpq Ht) as [Hin Hmin].
    destruct (queue_held s kd _ Hv Hin) as (e & Hh & Hke & He); simpl in *.
    exists e. split; [done|]. split_and!; [done..|].
    intros k' e' Hh' Hke'. destruct (held_queue s k' e' Hv Hh') as (n' & e0 & Hn' & _ & He' & ->).
    rewrite Hke' in Hn'. rewrite !deadline_outcome. by eapply Hmin.
  - apply top_None in Ht; simpl in Ht. intros k e Hh <-.
    destruct (held_queue s k e Hv Hh) as (n & e0 & Hn & _). rewrite Ht in Hn. by apply not_elem_of_nil in Hn.
Qed.

(** [worthlessAt] is monotonic in the deadline within the stale and the
    values queues: if the head is not worthless, no entry behind it is. *)
Lemma worthless_monotone v e e' now :
  kind_of e = kind_of e' → (deadline e ≤ deadline e')%Z →
  worthless v e now = false → worthless v e' now = false.
Proof.
  unfold worthless, worthlessAt, kind_of, deadline, Time.Before, Time.Add.
  destruct (e_err e), (e_err e'); try done; destruct (revived e), (revived e'); try done.
  all: intros _ Hle; repeat case_match; simplify_eq/=; try done;
    rewrite !negb_false_iff, !Z.ltb_lt; lia.
Qed.

Lemma top_if_spec s kd test :
  vic_ok s → (∀ e, test (outcome e) = test e) →
  (∀ e e', kind_of e = kd → kind_of e' = kd → (deadline e ≤ deadline e')%Z →
     test e = false → test e' = false) →
  ∃ r, top_if s.1 (queue s.2 kd) test = Some r ∧
    match r with
    | Some k => ∃ e, earliest (held s) kd k e ∧ test e = true
    | None => ∀ k e, held s k e → kind_of e = kd → test e = false
    end.
Proof.
  intros Hv Hout Hmono. unfold top_if. pose proof (top_earliest s kd Hv) as Ht.
  destruct (top _) as [[k l]|].
  - destruct Ht as (e & -> & He); cbn [mbind option_bind].
    destruct (test e) eqn:Hte; eexists; (split; [done|]); simpl.
    + exists (outcome e). by rewrite Hout.
    + destruct He as (_ & Hke & Hmin). intros k' e' Hh Hke'.
      eapply (Hmono (outcome e)); eauto.
  - eexists; split; [done|]; simpl. intros k e Hh Hk. by destruct (Ht k e Hh).
Qed.

(** Error residue is worthless under every configuration once the clock
    has passed the zero time. *)
Lemma residue_worthless v e now :
  kind_of e = KResidue → (0 ≤ now)%Z → worthless v e now = true.
Proof.
  unfold kind_of, worthless, worthlessAt, Time.Before, Time.zero.
  destruct (e_err e); [|by destruct (revived e)].
  intros _ Hnow. apply negb_true_iff, Z.ltb_ge, Hnow.
Qed.

Lemma worthlessVictim_spec s now :
  vic_ok s → (0 ≤ now)%Z →
  ∃ r, worthlessVictim now s = Some r ∧
    match r with
    | Some k => ∃ e, held s k e ∧ worthless s.2 e now = true
    | None => no_worthless (held s) s.2 now
    end.
Proof.
  intros Hv Hnow. unfold worthlessVictim.
  pose proof (top_earliest s KResidue Hv) as Hr. simpl in Hr.
  destruct (top _) as [[k l]|].
  { destruct Hr as (e & _ & Hh & Hk & _). eexists; split; [done|]. exists (outcome e).
    split; [done|]. by apply residue_worthless. }
  destruct (top_if_spec s KStale (λ e, worthless s.2 e now) Hv) as (rs & Hs & Hrs).
  { done. }
  { intros e e' Hk Hk'. apply worthless_monotone. congruence. }
  simpl in Hs.     rewrite Hs; cbn [mbind option_bind]. destruct rs as [k|].
  { destruct Hrs as (e & (Hh & _) & Hw). eexists; split; [done|]. by exists e. }
  destruct (top_if_spec s KValue (λ e, worthless s.2 e now) Hv) as (rv & Hvv & Hrv).
  { done. }
  { intros e e' Hk Hk'. apply worthless_monotone. congruence. }
  simpl in Hvv.     rewrite Hvv. exists rv; split; [done|]. destruct rv as [k|].
  - destruct Hrv as (e & (Hh & _) & Hw). by exists e.
  - intros k e Hh. destruct (kind_of e) eqn:Hk.
    + by destruct (Hr k e Hh).
    + by apply (Hrs k).
    + by apply (Hrv k).
Qed.

Lemma expired_monotone e e' now :
  kind_of e = KValue → kind_of e' = KValue → (deadline e ≤ deadline e')%Z →
  expired e now = false → expired e' now = false.
Proof.
  unfold kind_of, deadline, expired, Time.Before.
  destruct (e_err e), (e_err e'); try done; destruct (revived e), (revived e'); try done.
  intros _ _ Hle. rewrite !negb_false_iff, !Z.ltb_lt. lia.
Qed.

Lemma staleVictim_spec s now :
  vic_ok s →
  ∃ r, staleVictim now s = Some r ∧
    match r with
    | Some k =>
        (∃ e, earliest (held s) KValue k e ∧ expired e now = true) ∨
        (no_expired_value (held s) now ∧ ∃ e, earliest (held s) KStale k e)
    | None => no_expired_value (held s) now ∧ no_stale (held s)
    end.
Proof.
  intros Hv. unfold staleVictim.
  destruct (top_if_spec s KValue (λ e, expired e now) Hv) as (r & Hr & Hrs).
  { done. }
  { intros e e'. apply expired_monotone. }
  simpl in Hr.     rewrite Hr; cbn [mbind option_bind]. destruct r as [k|]; [eexists; split; [done|]; by left|].
  pose proof (top_earliest s KStale Hv) as Ht; simpl in Ht.
  destruct (top _) as [[k l]|]; eexists; (split; [done|]).
  - right. split; [done|]. destruct Ht as (e & _ & He). by eexists.
  - done.
Qed.

Lemma pick_correct s level now :
  vic_ok s → (0 ≤ now)%Z →
  ∃ r, pick level now s = Some r ∧ victim_spec (held s) s.2 level now r.
Proof.
  intros Hv Hnow. unfold pick.
  destruct (worthlessVictim_spec s now Hv Hnow) as (rw & -> & Hw); cbn [mbind option_bind].
  destruct rw as [k|].
  { destruct Hw as (e & Hh & Hwe). eexists; split; [done|]. by eapply victim_worthless. }
  case_decide as Hl.
  { eexists; split; [done|]. apply victim_none; [done|lia|]. unfold evictStale, evictValue in *. lia. }
  destruct (staleVictim_spec s now Hv) as (rs & -> & Hs); cbn [mbind option_bind].
  destruct rs as [k|].
  { eexists; split; [done|]. destruct Hs as [(e & He & Hx)|(Hne & e & He)].
    - eapply victim_unrevived; [done|lia|done..].
    - eapply victim_revived; [done|lia|done..]. }
  destruct Hs as [Hne Hns]. case_decide as Hl2.
  { eexists; split; [done|]. apply victim_none; [done|done|lia]. }
  pose proof (top_earliest s KValue Hv) as Ht; simpl in Ht.
  destruct (top _) as [[k l]|]; eexists; (split; [done|]).
  - destruct Ht as (e & _ & He). eapply victim_valid; [done|lia|done..].
  - apply victim_none; [done..|]. intros _ k e Hh. destruct (kind_of e) eqn:Hk.
    + by specialize (Hw k e Hh); rewrite residue_worthless in Hw.
    + by destruct (Hns k e Hh).
    + by destruct (Ht k e Hh).
Qed.

(** The policy only depends on what is held and on the stale settings. *)
Lemma victim_spec_ext (H H' : K → entry V E → Prop) v v' level now r :
  (∀ k e, H k e ↔ H' k e) → (∀ e t, worthless v e t = worthless v' e t) →
  victim_spec H v level now r → victim_spec H' v' level now r.
Proof.
  intros HH Hw.
  assert (Hnw : no_worthless H v now ↔ no_worthless H' v' now).
  { unfold no_worthless. setoid_rewrite HH. by setoid_rewrite Hw. }
  assert (Hne : no_expired_value H now ↔ no_expired_value H' now).
  { unfold no_expired_value. by setoid_rewrite HH. }
  assert (Hns : no_stale H ↔ no_stale H') by (unfold no_stale; by setoid_rewrite HH).
  assert (Hea : ∀ kd k e, earliest H kd k e ↔ earliest H' kd k e).
  { intros. unfold earliest. by setoid_rewrite HH. }
  intros [k e Hk He|k e ? ? ? ?|k e ? ? ? ?|k e ? ? ? ? ?|? Hst Hval].
  - eapply victim_worthless; [by apply HH|by rewrite <- Hw].
  - eapply victim_unrevived; [by apply Hnw|done|by apply Hea|done].
  - eapply victim_revived; [by apply Hnw|done|by apply Hne|by apply Hea].
  - eapply victim_valid; [by apply Hnw|done|by apply Hne|by apply Hns|by apply Hea].
  - apply victim_none; [by apply Hnw| |].
    + rewrite <- Hne, <- Hns. done.
    + intros Hl k e Hk. by apply (Hval Hl k e), HH.
Qed.
End VictimsFacts.
