(* ===== verification/SFCache.v ===== *)
(** * [pkg/sfcache]: the cache's state and its lock-protected operations

    sfcache.go, capacity.go, stale.go and the bookkeeping half of flight.go
    and lookup.go ([startFlight], [publish], [abortFlight]). Every definition
    below that acts on a [cache] runs with the write lock held (or at
    construction); the interleaving of callers is in SFLookup. *)

From stdpp Require Import gmap list.
From S2P Require Import Prelude SFQueue SFEvict.

(** A Go [*flight] pointer. *)
Abbreviation flight_id := positive (only parsing).

(** [Config] (sfcache.go). *)
Record Config : Type := MkConfig {
  Size : Z;
  TTL : Z;
  MaxStale : Z;
  MaxStaleOnFailure : Z
}.

(** The fields of [Cache] fixed at construction. A [ttlFn] that panics is
    [None] on those arguments. *)
Record settings (K V : Type) : Type := Settings {
  ttlFn : option (K → V → option Z);
  ttl : Z;
  maxStale : Z;
  maxStaleOnFailure : Z;
  size : Z
}.
Arguments Settings {K V} _ _ _ _ _.
Arguments ttlFn {K V} _.
Arguments ttl {K V} _.
Arguments maxStale {K V} _.
Arguments maxStaleOnFailure {K V} _.
Arguments size {K V} _.

(** The mutable fields of [Cache], the store of the entries its pointers
    designate, the allocator's next address and the number of readings of
    the monotonic clock taken so far. *)
Record cache (K V E : Type) `{Countable K} : Type := Cache {
  keymap : gmap K loc;
  flights : gmap K flight_id;
  entries : gmap loc (entry V E);
  vic : victims K;
  next : loc;
  tick : nat;
  cfg : settings K V
}.
Arguments Cache {K V E _ _} _ _ _ _ _ _ _.
Arguments keymap {K V E _ _} _.
Arguments flights {K V E _ _} _.
Arguments entries {K V E _ _} _.
Arguments vic {K V E _ _} _.
Arguments next {K V E _ _} _.
Arguments tick {K V E _ _} _.
Arguments cfg {K V E _ _} _.

(** [staleState] (stale.go). *)
Record staleState (V : Type) : Type := StaleState {
  st_until : Z;
  st_val : V;
  st_ok : bool;
  st_anchored : bool
}.
Arguments StaleState {V} _ _ _ _.
Arguments st_until {V} _.
Arguments st_val {V} _.
Arguments st_ok {V} _.
Arguments st_anchored {V} _.

Section Cache.
Context {K V E : Type} `{Countable K} `{Inhabited V}.
Abbreviation cache := (cache K V E).
Abbreviation entry := (entry V E).

(** The successive readings of [time.Now]. *)
Context (clock : nat → Z).

(** Go's zero value of [V]. *)
Definition zeroV : V := inhabitant.

(** *** Construction *)

(** [New], without the functions: options only ever set [ttlFn]. *)
Definition New (cfg : Config) (ttlFn : option (K → V → option Z)) : cache :=
  let size := if (Size cfg <=? 0)%Z then 1%Z else Size cfg in
  Cache ∅ ∅ ∅
    (Victims [] [] [] (MaxStale cfg) (MaxStaleOnFailure cfg))
    1%positive 0
    (Settings ttlFn (TTL cfg) (MaxStale cfg) (MaxStaleOnFailure cfg) size).

(** *** Field updates *)

Definition set_keymap (m : gmap K loc) (c : cache) : cache :=
  Cache m (flights c) (entries c) (vic c) (next c) (tick c) (cfg c).
Definition set_flights (m : gmap K flight_id) (c : cache) : cache :=
  Cache (keymap c) m (entries c) (vic c) (next c) (tick c) (cfg c).
Definition set_vic (s : gmap loc entry * victims K) (c : cache) : cache :=
  Cache (keymap c) (flights c) s.1 s.2 (next c) (tick c) (cfg c).

Definition vstate (c : cache) : gmap loc entry * victims K := (entries c, vic c).

(** [time.Now()]. *)
Definition now : SP cache Z := λ c,
  Some (clock (tick c),
        Cache (keymap c) (flights c) (entries c) (vic c) (next c) (S (tick c)) (cfg c)).

(** [&entry[V]{...}]. *)
Definition alloc (e : entry) : SP cache loc := λ c,
  Some (next c,
        Cache (keymap c) (flights c) (<[next c := e]> (entries c)) (vic c)
              (Pos.succ (next c)) (tick c) (cfg c)).

(** *** capacity.go *)

(** The per-entry TTL; [None] when [ttlFn] panics. *)
Definition entryTTL (s : settings K V) (key : K) (val : V) : option Z :=
  match ttlFn s with
  | Some f =>
      d ← f key val;
      Some (if (0 <? d)%Z then d else Z.max 0 (ttl s))
  | None => Some (Z.max 0 (ttl s))
  end.

Definition drop (key : K) : SP cache bool := λ c,
  match keymap c !! key with
  | None => Some (false, c)
  | Some item =>
      let c := set_keymap (delete key (keymap c)) c in
      s ← unfile item (vstate c);
      Some (true, set_vic s c)
  end.

Definition vfile (key : K) (item : loc) : SP cache unit := λ c,
  s ← file key item (vstate c);
  Some ((), set_vic s c).

Definition store (key : K) (item : loc) : SP cache unit :=
  _ ← drop key;
  c ← sp_get;
  _ ← sp_put (set_keymap (<[key := item]> (keymap c)) c);
  vfile key item.

Fixpoint makeRoom_loop (fuel : nat) (target : Z) (level : evictLevel) : SP cache unit :=
  match fuel with
  | 0 => λ _, None
  | S fuel =>
      c ← sp_get;
      if (target <? Z.of_nat (base.size (keymap c)))%Z then
        t ← now;
        r ← sp_lift (pick level t (vstate c));
        match r with
        | None => mret ()
        | Some victim =>
            ok ← drop victim;
            if (ok : bool) then makeRoom_loop fuel target level else mret ()
        end
      else mret ()
  end.

(** Every iteration removes an entry or returns. *)
Definition makeRoom (key : K) (level : evictLevel) : SP cache unit :=
  c ← sp_get;
  let target := match keymap c !! key with
                | None => (size (cfg c) - 1)%Z
                | Some _ => size (cfg c)
                end in
  makeRoom_loop (S (base.size (keymap c))) target level.

Definition set (key : K) (val : V) (err : option E) (d : Z) : SP cache unit :=
  let cacheable := match err with None => true | Some _ => false end in
  let level := if cacheable then evictValue else evictWorthless in
  _ ← makeRoom key level;
  expireAt ← (if cacheable then t ← now; mret (Time.Add t d) else mret Time.zero);
  l ← alloc (Entry err expireAt Time.zero val 0);
  store key l.

(** *** stale.go *)

Definition staleNone : staleState V := StaleState Time.zero zeroV false false.

Definition staleFrom (s : settings K V) (old : option entry) : staleState V :=
  if (maxStale s <=? 0)%Z && (maxStaleOnFailure s <=? 0)%Z then staleNone
  else
    match old with
    | None => staleNone
    | Some old =>
        match e_err old with
        | Some _ => staleNone
        | None =>
            if negb (Time.IsZero (e_staleUntil old)) then
              StaleState (e_staleUntil old) (e_val old) true true
            else
              StaleState
                (if (0 <? maxStale s)%Z then Time.Add (e_expireAt old) (maxStale s) else Time.zero)
                (e_val old) true false
        end
    end.

Definition staleDeadline (stale : staleState V) : SP cache (Z * bool) :=
  if negb (st_ok stale) then mret (Time.zero, false)
  else
    c ← sp_get;
    t ← now;
    let until :=
      if negb (st_anchored stale) && (0 <? maxStaleOnFailure (cfg c))%Z then
        let d := Time.Add t (maxStaleOnFailure (cfg c)) in
        if Time.After d (st_until stale) then d else st_until stale
      else st_until stale in
    mret (until, Time.Before t until).

(** *** The lock-protected halves of flight.go and lookup.go *)

Definition startFlight (key : K) (fl : flight_id) : SP cache (staleState V) :=
  c ← sp_get;
  old ← sp_lift (match keymap c !! key with
                 | None => Some None
                 | Some item => e ← entries c !! item; Some (Some e)
                 end);
  let stale := staleFrom (cfg c) old in
  _ ← drop key;
  c ← sp_get;
  _ ← sp_put (set_flights (<[key := fl]> (flights c)) c);
  mret stale.

Definition abortFlight (key : K) (fl : flight_id) : SP cache unit :=
  c ← sp_get;
  if decide (flights c !! key = Some fl) then sp_put (set_flights (delete key (flights c)) c)
  else mret ().

Definition publish (key : K) (fl : flight_id) (val : V) (err : option E)
    (stale : staleState V) (ctxInduced : bool) (d : Z) : SP cache (V * option E) :=
  c ← sp_get;
  if decide (flights c !! key ≠ Some fl) then mret (val, err)
  else
    _ ← sp_put (set_flights (delete key (flights c)) c);
    match err with
    | None => _ ← set key val None d; mret (val, None)
    | Some _ =>
        r ← staleDeadline stale;
        if (r.2 : bool) then
          _ ← makeRoom key evictStale;
          l ← alloc (Entry None Time.zero r.1 (st_val stale) 0);
          _ ← store key l;
          mret (st_val stale, None)
        else if ctxInduced then mret (val, err)
        else
          _ ← set key val err 0%Z;
          mret (val, err)
    end.

(** *** sfcache.go *)

Definition Len (c : cache) : nat := base.size (keymap c) + base.size (flights c).

(** [resetLocked] returns the flights it invalidated. *)
Definition resetLocked : SP cache (gmap K flight_id) := λ c,
  Some (flights c,
        Cache ∅ ∅ (entries c) (vreset (vic c)) (next c) (tick c) (cfg c)).

(** [removeLocked] returns the flight it invalidated, if any. *)
Definition removeLocked (key : K) : SP cache (option flight_id) :=
  _ ← drop key;
  c ← sp_get;
  match flights c !! key with
  | None => mret None
  | Some fl =>
      _ ← sp_put (set_flights (delete key (flights c)) c);
      mret (Some fl)
  end.

(** The closure [forget] of [PurgeExpired], over the map and the count. *)
Definition forget (key : K) (_ : loc) (st : gmap K loc * nat) : gmap K loc * nat :=
  match st.1 !! key with
  | None => st
  | Some _ => (delete key st.1, S st.2)
  end.

Definition bulkPurgeRatio : nat := 12.

(** [for range budget]; the boolean says that the loop returned early. *)
Fixpoint purge_loop (budget : nat) (t : Z) (st : gmap K loc * nat)
    (s : gmap loc entry * list (pnode K))
    : option (bool * (gmap K loc * nat) * (gmap loc entry * list (pnode K))) :=
  match budget with
  | 0 => Some (false, st, s)
  | S budget =>
      match top s with
      | None => Some (true, st, s)
      | Some (key, item) =>
          e ← s.1 !! item;
          if expired e t then
            s' ← remove item s;
            purge_loop budget t (forget key item st) s'
          else Some (true, st, s)
      end
  end.

Definition purgeValues (t : Z) (st : gmap K loc * nat) (s : gmap loc entry * list (pnode K))
    : option ((gmap K loc * nat) * (gmap loc entry * list (pnode K))) :=
  let budget := length s.2 / bulkPurgeRatio + 1 in
  r ← purge_loop budget t st s;
  let '(returned, st, s) := r in
  if (returned : bool) then Some (st, s)
  else
    match top s with
    | None => Some (st, s)
    | Some (_, item) =>
        e ← s.1 !! item;
        if expired e t then partition (λ e, expired e t) forget st s
        else Some (st, s)
    end.

Definition PurgeExpired : SP cache nat :=
  c ← sp_get;
  let '(st1, q_residue) := drain forget (keymap c, 0) (v_residue (vic c)) in
  let '(st2, q_stale) := drain forget st1 (v_stale (vic c)) in
  t ← now;
  r ← sp_lift (purgeValues t st2 (entries c, v_values (vic c)));
  let '((m, purged), (h, q_values)) := r in
  c ← sp_get;
  _ ← sp_put (set_keymap m
        (set_vic (h, Victims q_values q_stale q_residue
                      (v_maxStale (vic c)) (v_maxStaleOnFailure (vic c))) c));
  mret purged.
End Cache.

(** ** The cache invariant and the abstract contents *)

Section CacheFacts.
Context {K V E : Type} `{Countable K} `{Inhabited V}.
Abbreviation cache := (cache K V E).
Abbreviation entry := (entry V E).
Implicit Types (c : cache) (e : entry) (k : K) (l : loc).

Definition node_pair (n : pnode K) : K * loc := (n_key n, n_item n).

(** Errors and revived values are stored already expired. *)
Definition entry_wf e : Prop :=
  kind_of e ≠ KValue → e_expireAt e = Time.zero.

(** [keymap] and the three queues hold the same entries; a key is never
    both stored and in flight; addresses are allocated in order. *)
Record cache_inv c : Prop := CacheInv {
  inv_vic : vic_ok (vstate c);
  inv_map : map_to_list (keymap c) ≡ₚ node_pair <$> all_nodes (vic c);
  inv_flights : ∀ k fl, flights c !! k = Some fl → keymap c !! k = None;
  inv_alloc : ∀ l e, entries c !! l = Some e → (l < next c)%positive;
  inv_cfg : v_maxStale (vic c) = maxStale (cfg c) ∧
            v_maxStaleOnFailure (vic c) = maxStaleOnFailure (cfg c);
  inv_entry : ∀ l e, entries c !! l = Some e → entry_wf e;
  inv_size : (1 ≤ size (cfg c))%Z
}.

(** What the cache holds: the outcome stored for each key. *)
Definition contents c : gmap K entry :=
  omap (λ l, outcome <$> entries c !! l) (keymap c).

(** Everything but the stored entries is unchanged. *)
Definition same_meta c c' : Prop :=
  flights c' = flights c ∧ cfg c' = cfg c ∧ tick c ≤ tick c' ∧ (next c ≤ next c')%positive.

#[export] Instance same_meta_preorder : PreOrder same_meta.
Proof.
  split; [intros c; repeat split; lia|].
  intros c1 c2 c3 (?&?&?&?) (?&?&?&?). repeat split; try congruence; lia.
Qed.

Lemma contents_lookup c k :
  contents c !! k = l ← keymap c !! k; outcome <$> entries c !! l.
Proof. apply lookup_omap. Qed.

Lemma keymap_node c k l :
  cache_inv c → keymap c !! k = Some l ↔ PNode l k ∈ all_nodes (vic c).
Proof.
  intros Hi. rewrite <- elem_of_map_to_list, (inv_map _ Hi), list_elem_of_fmap.
  split; [|by exists (PNode l k)]. intros ([l' k'] & Heq & Hn). unfold node_pair in Heq. by simplify_eq/=.
Qed.

Lemma keymap_live c k l :
  cache_inv c → keymap c !! k = Some l → ∃ e, entries c !! l = Some e.
Proof.
  intros Hi [kd Hn]%(keymap_node c k l Hi)%elem_of_all_nodes.
  destruct (inv_vic _ Hi kd) as [_ Hk]. destruct (Hk _ Hn) as (e & He & _). by exists e.
Qed.

Lemma contents_None c k : cache_inv c → contents c !! k = None ↔ keymap c !! k = None.
Proof.
  intros Hi. rewrite contents_lookup. destruct (keymap c !! k) as [l|] eqn:Hk; [|done].
  destruct (keymap_live c k l Hi Hk) as [e He]. cbn [mbind option_bind]. rewrite He. by split.
Qed.

Lemma held_contents c k e : cache_inv c → held (vstate c) k e ↔ contents c !! k = Some e.
Proof.
  intros Hi. rewrite contents_lookup. split.
  - intros ([l k'] & e0 & Hn & <- & He & ->). simpl in *.
    rewrite (proj2 (keymap_node c k' l Hi) Hn); simpl. by rewrite He.
  - destruct (keymap c !! k) as [l|] eqn:Hk; [cbn [mbind option_bind]|done].
    intros (e0 & He & ->)%fmap_Some. apply (keymap_node c k l Hi) in Hk.
    by exists (PNode l k), e0.
Qed.

Lemma contents_wf c k e : cache_inv c → contents c !! k = Some e → entry_wf e.
Proof.
  intros Hi. rewrite contents_lookup. intros (l & _ & He)%bind_Some.
  apply fmap_Some in He as (e0 & He & ->). apply (inv_entry _ Hi _ _ He).
Qed.

(** The number of stored entries is the number of queued nodes. *)
Lemma inv_count c :
  cache_inv c →
  base.size (keymap c) =
    length (v_values (vic c)) + length (v_stale (vic c)) + length (v_residue (vic c)).
Proof.
  intros Hi. rewrite <- length_map_to_list, (inv_map _ Hi), length_fmap.
  unfold all_nodes. rewrite !length_app. lia.
Qed.

Lemma contents_size c : cache_inv c → base.size (contents c) = base.size (keymap c).
Proof.
  intros Hi. rewrite <- !size_dom. f_equal. apply set_eq. intros k.
  rewrite !elem_of_dom, <- !not_eq_None_Some. by rewrite contents_None.
Qed.

Lemma all_nodes_perm (v v' : victims K) kd n :
  (∀ kd', queue v' kd' ≡ₚ if decide (kd' = kd) then n :: queue v kd' else queue v kd') →
  all_nodes v' ≡ₚ n :: all_nodes v.
Proof.
  intros Hq. unfold all_nodes.
  pose proof (Hq KValue) as H1. pose proof (Hq KStale) as H2. pose proof (Hq KResidue) as H3.
  simpl in *. rewrite H1, H2, H3. destruct kd; simpl; solve_Permutation.
Qed.

Lemma contents_ext c c' :
  keymap c' = keymap c → outcome <$> entries c' = outcome <$> entries c →
  contents c' = contents c.
Proof.
  intros Hk Ho. apply map_eq; intros k. rewrite !contents_lookup, Hk.
  destruct (keymap c !! k) as [l|]; [simpl|done]. by rewrite <- !lookup_fmap, Ho.
Qed.

(** A store with the same outcomes is as well allocated and well formed. *)
Lemma outcomes_transfer c h :
  cache_inv c → outcome <$> h = outcome <$> entries c →
  ∀ l e, h !! l = Some e → (l < next c)%positive ∧ entry_wf e.
Proof.
  intros Hi Ho l e He. symmetry in Ho.
  destruct (outcomes_lookup _ _ _ _ Ho He) as (e0 & He0 & Hoe).
  split; [by eapply inv_alloc|]. pose proof (inv_entry _ Hi _ _ He0) as Hw. unfold entry_wf in *.
  rewrite <- (kind_of_outcome _ _ Hoe). intros Hkd. rewrite <- (Hw Hkd).
  apply (f_equal e_expireAt (eq_sym Hoe)).
Qed.

(** *** drop *)

Lemma drop_spec c k :
  cache_inv c →
  ∃ c', drop k c = Some (bool_decide (is_Some (keymap c !! k)), c') ∧ cache_inv c' ∧
    contents c' = delete k (contents c) ∧ keymap c' = delete k (keymap c) ∧
    same_meta c c' ∧ tick c' = tick c ∧ next c' = next c ∧
    outcome <$> entries c' = outcome <$> entries c.
Proof.
  intros Hi. unfold drop. destruct (keymap c !! k) as [l|] eqn:Hk.
  - pose proof (proj1 (keymap_node c k l Hi) Hk) as Hn.
    apply elem_of_all_nodes in Hn as [kd Hn].
    destruct (unfile_spec (vstate c) _ _ (inv_vic _ Hi) Hn)
      as ([h v] & Hu & Hv & Ho & Hq & Hc1 & Hc2); simpl in *.
    unfold vstate in Hu |- *; simpl. rewrite Hu; simpl.
    eexists; split; [done|].
    assert (Hcon : contents (set_vic (h, v) (set_keymap (delete k (keymap c)) c)) = delete k (contents c)).
    { apply map_eq; intros k'. rewrite contents_lookup; simpl.
      destruct (decide (k = k')) as [<-|Hne]; [by rewrite !lookup_delete_eq|].
      rewrite !lookup_delete_ne, contents_lookup by done.
      destruct (keymap c !! k') as [l'|]; [simpl|done]. by rewrite <- !lookup_fmap, Ho. }
    split; [|by repeat split].
    apply (all_nodes_perm v (vic c) kd) in Hq.
    constructor; simpl.
    + done.
    + pose proof (inv_map _ Hi) as Hm. rewrite Hq, <- (map_to_list_delete _ _ _ Hk) in Hm.
      by apply (inj (cons (k, l))) in Hm.
    + intros k' fl Hf. apply lookup_delete_None. right. by eapply inv_flights.
    + intros l' e' He'. by eapply (outcomes_transfer c h Hi Ho).
    + rewrite Hc1, Hc2. apply (inv_cfg _ Hi).
    + intros l' e' He'. by eapply (outcomes_transfer c h Hi Ho).
    + apply (inv_size _ Hi).
  - exists c. split_and!; try done.
    + symmetry. apply delete_id. by apply contents_None.
    + by rewrite delete_id.
Qed.

(** *** Allocating and storing an entry *)

Lemma pq_ok_insert (h : gmap loc entry) (q : list (pnode K)) l e :
  h !! l = None → pq_ok (h, q) → pq_ok (<[l := e]> h, q).
Proof.
  intros Hl [Hs Ho]. assert (Hne : ∀ i n, q !! i = Some n → l ≠ n_item n).
  { intros i n Hn ->. destruct (Hs _ _ Hn) as (e' & He' & _); simpl in *. congruence. }
  split.
  - intros i n Hn; simpl in *. rewrite lookup_insert_ne by eauto. by apply (Hs i).
  - assert (Hk : pointwise_relation nat eq (key (<[l := e]> h, q)) (key (h, q))).
    { intros i. unfold key, deadline_at; simpl. destruct (q !! i) as [n|] eqn:Hn; [simpl|done].
      by rewrite lookup_insert_ne by eauto. }
    simpl. by rewrite Hk.
Qed.

Lemma fresh_not_queued c n :
  cache_inv c → n ∈ all_nodes (vic c) → n_item n ≠ next c.
Proof.
  intros Hi [kd Hn]%elem_of_all_nodes Heq. destruct (inv_vic _ Hi kd) as [_ Hk].
  destruct (Hk n Hn) as (e & He & _). pose proof (inv_alloc _ Hi _ _ He). lia.
Qed.

Lemma alloc_inv c e c1 l :
  cache_inv c → entry_wf e → alloc e c = Some (l, c1) →
  cache_inv c1 ∧ contents c1 = contents c ∧ entries c1 !! l = Some e ∧
  l ∉ items (all_nodes (vic c1)) ∧ keymap c1 = keymap c ∧ same_meta c c1 ∧ tick c1 = tick c.
Proof.
  intros Hi Hw Ha. unfold alloc in Ha; simplify_eq/=.
  assert (Hfresh : entries c !! next c = None).
  { apply eq_None_not_Some. intros [e' He']. pose proof (inv_alloc _ Hi _ _ He'). lia. }
  assert (Hlive : ∀ k' l', keymap c !! k' = Some l' → next c ≠ l').
  { intros k' l' Hk' <-. destruct (keymap_live _ _ _ Hi Hk'). congruence. }
  split_and!; try done.
  - constructor; simpl; try apply Hi.
    + intros kd. destruct (inv_vic _ Hi kd) as [Hpq Hk]. split; [by apply pq_ok_insert|].
      intros n Hn. destruct (Hk n Hn) as (e' & He' & Hke). exists e'. split; [|done].
      simpl. rewrite lookup_insert_ne; [done|]. intros Heq. simpl in *. congruence.
    + intros l' e' He'. destruct (decide (next c = l')) as [<-|]; [lia|].
      rewrite lookup_insert_ne in He' by done. pose proof (inv_alloc _ Hi _ _ He'). lia.
    + intros l' e' He'. destruct (decide (next c = l')) as [<-|].
      * rewrite lookup_insert_eq in He'. by simplify_eq.
      * rewrite lookup_insert_ne in He' by done. by apply (inv_entry _ Hi l').
  - apply map_eq; intros k. rewrite !contents_lookup; simpl.
    destruct (keymap c !! k) as [l'|] eqn:Hk; [simpl|done].
    by rewrite lookup_insert_ne by eauto.
  - simpl. apply lookup_insert_eq.
  - simpl. intros (n & Heq & Hn)%list_elem_of_fmap. by eapply fresh_not_queued.
  - repeat split; simpl; lia.
Qed.

Lemma store_spec c k l e :
  cache_inv c → entries c !! l = Some e → l ∉ items (all_nodes (vic c)) →
  flights c !! k = None →
  ∃ c', store k l c = Some ((), c') ∧ cache_inv c' ∧
    contents c' = <[k := outcome e]> (contents c) ∧ same_meta c c' ∧ tick c' = tick c.
Proof.
  intros Hi He Hl Hfl. unfold store.
  destruct (drop_spec c k Hi) as (c1 & Hd & Hi1 & Hc1 & Hk1 & Hm1 & Ht1 & Hn1 & Ho1).
  rewrite (sp_bind_eq _ _ _ _ _ Hd). simpl. unfold mbind, sp_bind, sp_get, sp_put, vfile; simpl.
  symmetry in Ho1. destruct (outcomes_lookup _ _ _ _ (eq_sym Ho1) He) as (e1 & He1 & Hoe).
  assert (Hl1 : l ∉ items (all_nodes (vic c1))).
  { intros (n & -> & Hn)%list_elem_of_fmap. apply Hl. apply list_elem_of_fmap. exists n. split; [done|].
    destruct n as [l0 k0]; simpl in *. apply (keymap_node c1 k0 l0 Hi1) in Hn.
    apply (keymap_node c k0 l0 Hi). rewrite Hk1 in Hn. by apply lookup_delete_Some in Hn as [_ ?]. }
  destruct (file_spec (vstate c1) k l e1 (inv_vic _ Hi1) He1 Hl1)
    as ([h v] & Hf & Hv & Ho & Hq & Hs1 & Hs2); simpl in *.
  unfold vstate in *; simpl in *. rewrite Hf; simpl. eexists; split; [done|].
  assert (Hkn : keymap c1 !! k = None) by (by rewrite Hk1, lookup_delete_eq).
  assert (Hmeta : flights c1 = flights c) by apply Hm1.
  apply (all_nodes_perm (vic c1) v (kind_of e1)) in Hq.
  split_and!.
  - constructor; simpl.
    + done.
    + rewrite (map_to_list_insert _ _ _ Hkn), (inv_map _ Hi1), Hq. done.
    + intros k' fl Hf'. destruct (decide (k = k')) as [<-|Hne].
      { rewrite Hmeta in Hf'. congruence. }
      rewrite lookup_insert_ne by done. by eapply inv_flights.
    + intros l' e' He'. by eapply (outcomes_transfer c1 h Hi1 Ho).
    + rewrite Hs1, Hs2. apply (inv_cfg _ Hi1).
    + intros l' e' He'. by eapply (outcomes_transfer c1 h Hi1 Ho).
    + apply (inv_size _ Hi1).
  - apply map_eq; intros k'. rewrite contents_lookup; simpl.
    destruct (decide (k = k')) as [<-|Hne].
    + rewrite !lookup_insert_eq; simpl. rewrite <- lookup_fmap, Ho, lookup_fmap, He1; simpl.
      by rewrite Hoe.
    + rewrite !lookup_insert_ne by done. rewrite Hk1, lookup_delete_ne, contents_lookup by done.
      destruct (keymap c !! k') as [l'|]; [simpl|done].
      by rewrite <- !lookup_fmap, Ho, <- Ho1.
  - etrans; [exact Hm1|]. repeat split; simpl; lia.
  - done.
Qed.

(** *** Eviction, on the abstract contents *)

(** The eviction policy of a cache with the given settings. *)
Definition policy (st : settings K V) : victims K :=
  Victims [] [] [] (maxStale st) (maxStaleOnFailure st).

Definition victim_of (st : settings K V) (m : gmap K entry) (level : evictLevel) (t : Z)
    (r : option K) : Prop :=
  victim_spec (λ k e, m !! k = Some e) (policy st) level t r.

Lemma victim_of_vic c level t r :
  cache_inv c →
  victim_spec (held (vstate c)) (vic c) level t r → victim_of (cfg c) (contents c) level t r.
Proof.
  intros Hi. apply victim_spec_ext.
  - intros k e. by apply held_contents.
  - intros e t'. destruct (inv_cfg _ Hi) as [H1 H2].
    unfold worthless, worthlessAt, policy; simpl. by rewrite H1, H2.
Qed.

(** A run of evictions, each of the victim the policy names at some reading
    of the clock from the [lo]-th on, while the map is over the target. *)
Inductive evicts (clock : nat → Z) (st : settings K V) (level : evictLevel) (target : Z) (lo : nat) :
    gmap K entry → gmap K entry → Prop :=
| evicts_refl m : evicts clock st level target lo m m
| evicts_step m i k m' :
    lo ≤ i → (target < Z.of_nat (base.size m))%Z →
    victim_of st m level (clock i) (Some k) →
    evicts clock st level target lo (delete k m) m' →
    evicts clock st level target lo m m'.

Lemma evicts_subseteq clock st level target lo m m' :
  evicts clock st level target lo m m' → m' ⊆ m.
Proof.
  induction 1 as [|m i k m' ? ? ? ? IH]; [done|]. etrans; [exact IH|]. apply delete_subseteq.
Qed.

Lemma evicts_weaken clock st level target lo lo' m m' :
  lo' ≤ lo → evicts clock st level target lo m m' → evicts clock st level target lo' m m'.
Proof.
  intros Hlo. induction 1; [constructor|]. econstructor; [by etrans|done..].
Qed.

Section Timed.
Context (clock : nat → Z) (clock_nonneg : ∀ i, (0 ≤ clock i)%Z).

Lemma now_eq c :
  now clock c = Some (clock (tick c), Cache (keymap c) (flights c) (entries c) (vic c) (next c) (S (tick c)) (cfg c)).
Proof. done. Qed.

(** Only the clock has advanced. *)
Lemma inv_tick c n : cache_inv c →
  cache_inv (Cache (keymap c) (flights c) (entries c) (vic c) (next c) n (cfg c)).
Proof. intros []. by constructor. Qed.

Lemma makeRoom_loop_spec level target fuel : ∀ c,
  cache_inv c → base.size (keymap c) < fuel →
  ∃ c', makeRoom_loop clock fuel target level c = Some ((), c') ∧ cache_inv c' ∧ same_meta c c' ∧
    evicts clock (cfg c) level target (tick c) (contents c) (contents c') ∧
    ((Z.of_nat (base.size (contents c')) ≤ target)%Z ∨
     ∃ i, tick c ≤ i ∧ victim_of (cfg c) (contents c') level (clock i) None).
Proof.
  induction fuel as [|fuel IH]; intros c Hi Hf; [lia|]. cbn [makeRoom_loop].
  unfold mbind, sp_bind, sp_get; cbn beta iota.
  destruct (Z.ltb_spec target (Z.of_nat (base.size (keymap c)))) as [Hlt|Hge]; last first.
  { exists c. split_and!; [done..|constructor|left]. by rewrite contents_size. }
  rewrite now_eq; cbn beta iota. set (c1 := Cache _ _ _ _ _ _ _).
  assert (Hi1 : cache_inv c1) by by apply inv_tick.
  assert (Hm1 : same_meta c c1) by (repeat split; simpl; lia).
  destruct (pick_correct (vstate c1) level (clock (tick c)) (inv_vic _ Hi1)) as (r & Hp & Hv); [done|].
  change (vstate c1) with (vstate c) in Hp. unfold sp_lift. rewrite Hp; cbn [mbind option_bind].
  apply (victim_of_vic c1) in Hv; [|done]. destruct r as [k|]; last first.
  { exists c1. split_and!; [done..|constructor|right]. exists (tick c). by split. }
  destruct (victim_held _ _ _ _ _ Hv) as [e He].
  destruct (drop_spec c1 k Hi1) as (c2 & -> & Hi2 & Hc2 & Hk2 & Hm2 & Ht2 & _ & _).
  assert (Hin : is_Some (keymap c1 !! k)).
  { apply not_eq_None_Some. rewrite <- (contents_None c1) by done. by rewrite He. }
  rewrite bool_decide_eq_true_2 by done; cbn beta iota.
  assert (Hsz : base.size (keymap c2) < fuel).
  { assert (base.size (keymap c1) ≠ 0).
    { intros Heq%map_size_empty_inv. rewrite Heq in Hin. by destruct Hin. }
    rewrite Hk2, map_size_delete_Some by done. change (keymap c1) with (keymap c) in *. lia. }
  destruct (IH c2 Hi2 Hsz) as (c3 & -> & Hi3 & Hm3 & Hev & Hend).
  destruct Hm2 as (Hf2 & Hg2 & Htk2 & Hn2).
  exists c3. split_and!; [done..| | |].
  - etrans; [exact Hm1|]. etrans; [|exact Hm3]. done.
  - apply (evicts_step _ _ _ _ _ _ (tick c) k); [done| |done|].
    + by rewrite contents_size.
    + change (contents c) with (contents c1). rewrite <- Hc2. rewrite Hg2 in Hev.
      apply (evicts_weaken _ _ _ _ (tick c2)); [simpl in *; lia|done].
  - rewrite Hg2 in Hend. destruct Hend as [?|(i & Hle & Hv')]; [by left|right].
    exists i. split; [|done]. simpl in *. lia.
Qed.

Lemma makeRoom_spec c k level :
  cache_inv c →
  let target := match keymap c !! k with None => (size (cfg c) - 1)%Z | Some _ => size (cfg c) end in
  ∃ c', makeRoom clock k level c = Some ((), c') ∧ cache_inv c' ∧ same_meta c c' ∧
    evicts clock (cfg c) level target (tick c) (contents c) (contents c') ∧
    ((Z.of_nat (base.size (contents c')) ≤ target)%Z ∨
     ∃ i, tick c ≤ i ∧ victim_of (cfg c) (contents c') level (clock i) None).
Proof. intros Hi. apply makeRoom_loop_spec; [done|lia]. Qed.

(** A level that may take valid values always makes the room asked for. *)
Lemma makeRoom_value c k :
  cache_inv c → keymap c !! k = None →
  ∃ c', makeRoom clock k evictValue c = Some ((), c') ∧ cache_inv c' ∧ same_meta c c' ∧
    evicts clock (cfg c) evictValue (size (cfg c) - 1) (tick c) (contents c) (contents c') ∧
    (Z.of_nat (base.size (contents c')) ≤ size (cfg c) - 1)%Z.
Proof.
  intros Hi Hk. destruct (makeRoom_spec c k evictValue Hi) as (c' & Hm & Hi' & Hmeta & Hev & Hend).
  rewrite Hk in *. exists c'. split_and!; try done. destruct Hend as [?|(i & _ & Hv)]; [done|].
  inversion Hv as [| | | |_ _ Hnone]; subst. pose proof (inv_size _ Hi).
  assert (contents c' = ∅) as ->.
  { apply map_eq. intros k'. rewrite lookup_empty. apply eq_None_not_Some. intros [e He].
    by apply (Hnone (le_n _) k' e). }
  rewrite map_size_empty. lia.
Qed.

(** *** set *)

Lemma alloc_store_spec c k e :
  cache_inv c → entry_wf e → flights c !! k = None → outcome e = e →
  ∃ c', (l ← alloc e; store k l) c = Some ((), c') ∧ cache_inv c' ∧
    contents c' = <[k := e]> (contents c) ∧ same_meta c c' ∧ tick c' = tick c.
Proof.
  intros Hi Hw Hf Ho. destruct (alloc e c) as [[l c1]|] eqn:Ha; [|done].
  destruct (alloc_inv _ _ _ _ Hi Hw Ha) as (Hi1 & Hc1 & He1 & Hl1 & _ & Hm1 & Ht1).
  rewrite (sp_bind_eq _ _ _ _ _ Ha).
  destruct (store_spec c1 k l e) as (c2 & -> & Hi2 & Hc2 & Hm2 & Ht2); try done.
  { destruct Hm1 as [-> _]. done. }
  exists c2. split_and!; [done..| | |by rewrite Ht2].
  - by rewrite Hc2, Hc1, Ho.
  - by etrans.
Qed.

(** A successful lookup: any entry may have been evicted, the value is
    stored with the deadline [ttl] past a reading of the clock taken after
    the eviction. *)
Lemma set_value_spec c k val d :
  cache_inv c → keymap c !! k = None → flights c !! k = None →
  ∃ c' m i, set clock k val None d c = Some ((), c') ∧ cache_inv c' ∧ same_meta c c' ∧
    tick c ≤ i ∧
    evicts clock (cfg c) evictValue (size (cfg c) - 1) (tick c) (contents c) m ∧
    (Z.of_nat (base.size m) ≤ size (cfg c) - 1)%Z ∧ m !! k = None ∧
    contents c' = <[k := Entry None (Time.Add (clock i) d) Time.zero val 0]> m.
Proof.
  intros Hi Hk Hf. unfold set.
  destruct (makeRoom_value c k Hi Hk) as (c1 & Hm & Hi1 & Hm1 & Hev & Hsz).
  rewrite (sp_bind_eq _ _ _ _ _ Hm). unfold mbind at 1, sp_bind at 1.
  rewrite (sp_bind_eq _ _ _ _ _ (now_eq c1)). unfold mret, sp_ret; cbn beta iota.
  set (c2 := Cache _ _ _ _ _ _ _).
  set (e := Entry _ _ _ _ _).
  assert (Hi2 : cache_inv c2) by by apply inv_tick.
  destruct (alloc_store_spec c2 k e Hi2) as (c3 & Hs & Hi3 & Hc3 & Hm3 & Ht3);
    [by intros []|by simpl; destruct Hm1 as [-> _]|done|].
  rewrite Hs. exists c3, (contents c1), (tick c1).
  assert (Hm2 : same_meta c1 c2) by (repeat split; simpl; lia).
  split_and!; try done.
  - etrans; [exact Hm1|]. by etrans.
  - apply Hm1.
  - apply (contents_None c k Hi) in Hk. eapply lookup_weaken_None; [exact Hk|].
    by eapply evicts_subseteq.
Qed.

(** A failed lookup: only worthless entries may have been evicted. *)
Lemma set_error_spec c k val err d :
  cache_inv c → keymap c !! k = None → flights c !! k = None →
  ∃ c' m, set clock k val (Some err) d c = Some ((), c') ∧ cache_inv c' ∧ same_meta c c' ∧
    evicts clock (cfg c) evictWorthless (size (cfg c) - 1) (tick c) (contents c) m ∧
    ((Z.of_nat (base.size m) ≤ size (cfg c) - 1)%Z ∨
     ∃ i, tick c ≤ i ∧ victim_of (cfg c) m evictWorthless (clock i) None) ∧ m !! k = None ∧
    contents c' = <[k := Entry (Some err) Time.zero Time.zero val 0]> m.
Proof.
  intros Hi Hk Hf. unfold set.
  destruct (makeRoom_spec c k evictWorthless Hi) as (c1 & Hm & Hi1 & Hm1 & Hev & Hend).
  rewrite Hk in *.
  rewrite (sp_bind_eq _ _ _ _ _ Hm). unfold mbind at 1, sp_bind at 1, mret, sp_ret; cbn beta iota.
  set (e := Entry _ _ _ _ _).
  destruct (alloc_store_spec c1 k e Hi1) as (c3 & Hs & Hi3 & Hc3 & Hm3 & Ht3);
    [done|by destruct Hm1 as [-> _]|done|].
  rewrite Hs. exists c3, (contents c1).
  split_and!; try done; [by etrans|].
  apply (contents_None c k Hi) in Hk. eapply lookup_weaken_None; [exact Hk|].
  by eapply evicts_subseteq.
Qed.

(** *** staleDeadline *)

(** The deadline until which a failure at time [t] may serve the stale
    value captured by the flight. *)
Definition stale_until (st : settings K V) (stale : staleState V) (t : Z) : Z :=
  if negb (st_anchored stale) && (0 <? maxStaleOnFailure st)%Z then
    Z.max (st_until stale) (t + maxStaleOnFailure st)
  else st_until stale.

Lemma staleDeadline_spec c stale :
  ∃ r c', staleDeadline clock stale c = Some (r, c') ∧
    c' = Cache (keymap c) (flights c) (entries c) (vic c) (next c) (tick c') (cfg c) ∧
    tick c ≤ tick c' ∧
    r.2 = st_ok stale && (clock (tick c) <? stale_until (cfg c) stale (clock (tick c)))%Z ∧
    (r.2 = true → r.1 = stale_until (cfg c) stale (clock (tick c))).
Proof.
  unfold staleDeadline. destruct (st_ok stale); simpl.
  - eexists _, _. split; [done|]. simpl. split; [done|]. split; [lia|].
    unfold stale_until, Time.Before, Time.After, Time.Add.
    assert (Hmax : ∀ a b : Z, (if (a <? b)%Z then b else a) = Z.max a b).
    { intros a b. destruct (Z.ltb_spec a b); lia. }
    destruct (negb _ && _); [by rewrite Hmax|done].
  - eexists _, c. split; [done|]. by destruct c.
Qed.

(** *** publish *)

(** What [publish] may do with the outcome of a flight: five branches. *)
Inductive published c (k : K) (fl : flight_id) (val : V) (err : option E)
    (stale : staleState V) (ctxInduced : bool) (d : Z) c' : V * option E → Prop :=
| published_orphan :
    flights c !! k ≠ Some fl → c' = c →
    published c k fl val err stale ctxInduced d c' (val, err)
| published_value m i :
    flights c !! k = Some fl → flights c' = delete k (flights c) → err = None →
    tick c ≤ i →
    evicts clock (cfg c) evictValue (size (cfg c) - 1) (tick c) (contents c) m →
    (Z.of_nat (base.size m) ≤ size (cfg c) - 1)%Z → m !! k = None →
    contents c' = <[k := Entry None (clock i + d)%Z Time.zero val 0]> m →
    published c k fl val err stale ctxInduced d c' (val, None)
| published_revived (er : E) m i :
    flights c !! k = Some fl → flights c' = delete k (flights c) → err = Some er →
    tick c ≤ i → st_ok stale = true →
    (clock i < stale_until (cfg c) stale (clock i))%Z →
    evicts clock (cfg c) evictStale (size (cfg c) - 1) (tick c) (contents c) m →
    ((Z.of_nat (base.size m) ≤ size (cfg c) - 1)%Z ∨
     ∃ j, tick c ≤ j ∧ victim_of (cfg c) m evictStale (clock j) None) → m !! k = None →
    contents c' =
      <[k := Entry None Time.zero (stale_until (cfg c) stale (clock i)) (st_val stale) 0]> m →
    published c k fl val err stale ctxInduced d c' (st_val stale, None)
| published_nothing (er : E) i :
    flights c !! k = Some fl → flights c' = delete k (flights c) → err = Some er →
    tick c ≤ i →
    st_ok stale = false ∨ (stale_until (cfg c) stale (clock i) ≤ clock i)%Z →
    ctxInduced = true → contents c' = contents c →
    published c k fl val err stale ctxInduced d c' (val, err)
| published_residue (er : E) m i :
    flights c !! k = Some fl → flights c' = delete k (flights c) → err = Some er →
    tick c ≤ i →
    st_ok stale = false ∨ (stale_until (cfg c) stale (clock i) ≤ clock i)%Z →
    ctxInduced = false →
    evicts clock (cfg c) evictWorthless (size (cfg c) - 1) (tick c) (contents c) m →
    ((Z.of_nat (base.size m) ≤ size (cfg c) - 1)%Z ∨
     ∃ j, tick c ≤ j ∧ victim_of (cfg c) m evictWorthless (clock j) None) → m !! k = None →
    contents c' = <[k := Entry (Some er) Time.zero Time.zero val 0]> m →
    published c k fl val err stale ctxInduced d c' (val, err).

(** A stale revive: only worthless entries and values merely served stale
    may have been evicted. *)
Lemma revive_spec c k until v :
  cache_inv c → keymap c !! k = None → flights c !! k = None →
  ∃ c' m, (_ ← makeRoom clock k evictStale;
           l ← alloc (Entry None Time.zero until v 0);
           _ ← store k l; mret (v, None)) c = Some ((v, None : option E), c') ∧
    cache_inv c' ∧ same_meta c c' ∧
    evicts clock (cfg c) evictStale (size (cfg c) - 1) (tick c) (contents c) m ∧
    ((Z.of_nat (base.size m) ≤ size (cfg c) - 1)%Z ∨
     ∃ i, tick c ≤ i ∧ victim_of (cfg c) m evictStale (clock i) None) ∧ m !! k = None ∧
    contents c' = <[k := Entry None Time.zero until v 0]> m.
Proof.
  intros Hi Hk Hf.
  destruct (makeRoom_spec c k evictStale Hi) as (c2 & Hm & Hi2 & Hm2 & Hev & Hend).
  rewrite Hk in *. rewrite (sp_bind_eq _ _ _ _ _ Hm). set (e := Entry _ _ _ _ _).
  destruct (alloc_store_spec c2 k e Hi2) as (c3 & Ha & Hi3 & Hc3 & Hm3 & Ht3);
    [done|by destruct Hm2 as [-> _]|done|].
  assert (Hrun : (l ← alloc e; _ ← store k l; mret (v, None)) c2 = Some ((v, None : option E), c3)).
  { unfold mbind, sp_bind in Ha |- *. destruct (alloc e c2) as [[l c2']|]; [|done].
    by rewrite Ha. }
  rewrite Hrun. exists c3, (contents c2). split_and!; try done; [by etrans|].
  apply (contents_None c k Hi) in Hk. eapply lookup_weaken_None; [exact Hk|].
  by eapply evicts_subseteq.
Qed.

(** Deregistering a flight. *)
Lemma inv_delete_flight c k : cache_inv c → cache_inv (set_flights (delete k (flights c)) c).
Proof.
  intros []. constructor; simpl; try done.
  intros k' fl [_ Hf]%lookup_delete_Some. by eapply inv_flights0.
Qed.

Lemma publish_published c k fl val err stale ctxInduced d :
  cache_inv c →
  ∃ r c', publish clock k fl val err stale ctxInduced d c = Some (r, c') ∧ cache_inv c' ∧
    cfg c' = cfg c ∧ tick c ≤ tick c' ∧
    published c k fl val err stale ctxInduced d c' r.
Proof.
  intros Hi. unfold publish. unfold mbind at 1, sp_bind at 1, sp_get; cbn beta iota.
  destruct (decide (flights c !! k ≠ Some fl)) as [Hne|Hfl%dec_stable].
  { exists (val, err), c. split_and!; try done. by apply published_orphan. }
  unfold mbind at 1, sp_bind at 1, sp_put; cbn beta iota.
  set (c0 := set_flights (delete k (flights c)) c).
  assert (Hi0 : cache_inv c0) by by apply inv_delete_flight.
  assert (Hk0 : keymap c0 !! k = None) by by eapply (inv_flights _ Hi).
  assert (Hf0 : flights c0 !! k = None) by apply lookup_delete_eq.
  destruct err as [err|].
  - destruct (staleDeadline_spec c0 stale) as ([until rv] & c1 & Hs & Hc1 & Ht1 & Hrv & Hun).
    rewrite (sp_bind_eq _ _ _ _ _ Hs). simpl in Hrv, Hun |- *.
    assert (Hi1 : cache_inv c1) by (rewrite Hc1; by apply inv_tick).
    assert (Hcon1 : contents c1 = contents c) by by rewrite Hc1.
    assert (Hk1 : keymap c1 !! k = None) by by rewrite Hc1.
    assert (Hg1 : cfg c1 = cfg c) by by rewrite Hc1.
    assert (Hf1 : flights c1 = delete k (flights c)) by by rewrite Hc1.
    assert (Htc : tick c ≤ tick c1) by exact Ht1.
    assert (Hev : ∀ lv m, evicts clock (cfg c1) lv (size (cfg c1) - 1) (tick c1) (contents c1) m →
      evicts clock (cfg c) lv (size (cfg c) - 1) (tick c) (contents c) m).
    { intros lv m. rewrite Hg1, Hcon1. by apply evicts_weaken. }
    assert (Hend : ∀ lv m,
      ((Z.of_nat (base.size m) ≤ size (cfg c1) - 1)%Z ∨
        ∃ j, tick c1 ≤ j ∧ victim_of (cfg c1) m lv (clock j) None) →
      ((Z.of_nat (base.size m) ≤ size (cfg c) - 1)%Z ∨
        ∃ j, tick c ≤ j ∧ victim_of (cfg c) m lv (clock j) None)).
    { intros lv m. rewrite Hg1. intros [?|(j & ? & ?)]; [by left|right; exists j].
      split; [simpl in *; lia|done]. }
    destruct rv; simpl.
    + symmetry in Hrv. apply andb_true_iff in Hrv as [Hok Hlt%Z.ltb_lt].
      destruct (revive_spec c1 k until (st_val stale) Hi1 Hk1)
        as (c2 & m & -> & Hi2 & (Hf2 & Hg2 & Ht2 & _) & Hev2 & Hend2 & Hmk & Hc2);
        [by rewrite Hf1, lookup_delete_eq|].
      rewrite (Hun eq_refl) in Hc2.
      eexists _, c2. split_and!; [done|done|congruence|lia|].
      eapply (published_revived _ _ _ _ _ _ _ _ _ err m (tick c)); naive_solver congruence.
    + assert (Hno : st_ok stale = false ∨
        (stale_until (cfg c) stale (clock (tick c)) ≤ clock (tick c))%Z).
      { symmetry in Hrv. apply andb_false_iff in Hrv as [?|?%Z.ltb_ge]; [by left|by right]. }
      destruct ctxInduced.
      * eexists _, c1. split; [done|]. split; [done|]. split; [done|].
        split; [simpl in *; lia|]. by eapply (published_nothing _ _ _ _ _ _ _ _ _ err (tick c)).
      * destruct (set_error_spec c1 k val err 0 Hi1 Hk1) as (c2 & m & Hse & Hi2 & Hm2 & Hev2 & Hend2 & Hmk & Hc2).
        { by rewrite Hf1, lookup_delete_eq. }
        rewrite (sp_bind_eq _ _ _ _ _ Hse). eexists _, c2. split; [done|]. split; [done|].
        destruct Hm2 as (Hf2 & Hg2 & Ht2 & _).
        split; [congruence|]. split; [lia|].
        eapply (published_residue _ _ _ _ _ _ _ _ _ err m (tick c)); naive_solver congruence.
  - destruct (set_value_spec c0 k val d Hi0 Hk0 Hf0)
      as (c1 & m & i & Hs & Hi1 & Hm1 & Hti & Hev & Hsz & Hmk & Hc1).
    rewrite (sp_bind_eq _ _ _ _ _ Hs). eexists _, c1. split; [done|]. split; [done|].
    destruct Hm1 as (Hf1 & Hg1 & Ht1 & _). split; [done|]. split; [simpl in *; lia|].
    by eapply (published_value _ _ _ _ _ _ _ _ _ m i).
Qed.
End Timed.

(** *** The other lock-protected operations *)

Lemma New_inv cf tf : cache_inv (New cf tf).
Proof.
  constructor; simpl; try done.
  - apply vic_ok_empty. by intros [].
  - destruct (Z.leb_spec (Size cf) 0); lia.
Qed.

(** [startFlight] captures the value it supersedes, drops the entry and
    registers the flight. *)
Lemma startFlight_spec c k fl :
  cache_inv c → flights c !! k = None →
  ∃ c' old, startFlight k fl c = Some (staleFrom (cfg c) old, c') ∧ cache_inv c' ∧
    (outcome <$> old) = contents c !! k ∧
    contents c' = delete k (contents c) ∧ flights c' = <[k := fl]> (flights c) ∧
    cfg c' = cfg c ∧ tick c' = tick c.
Proof.
  intros Hi Hf. unfold startFlight. unfold mbind at 1, sp_bind at 1, sp_get; cbn beta iota.
  assert (Hold : ∃ old : option entry, (match keymap c !! k with
                         | None => Some None
                         | Some item => e ← entries c !! item; Some (Some e)
                         end) = Some old ∧ (outcome <$> old) = contents c !! k).
  { rewrite contents_lookup. destruct (keymap c !! k) as [l|] eqn:Hk; [|by exists None].
    destruct (keymap_live c k l Hi Hk) as [e He]. exists (Some e).
    cbn [mbind option_bind]. by rewrite He. }
  destruct Hold as (old & -> & Ho).
  unfold mbind at 1, sp_bind at 1, sp_lift; cbn [mbind option_bind].
  destruct (drop_spec c k Hi) as (c1 & Hd & Hi1 & Hc1 & Hk1 & (Hf1 & Hg1 & _) & Ht1 & _).
  rewrite (sp_bind_eq _ _ _ _ _ Hd). eexists _, old. split; [done|]. simpl. split_and!; try done.
  - destruct Hi1. constructor; simpl; try done.
    intros k' fl'. destruct (decide (k = k')) as [<-|Hne].
    + intros _. by rewrite Hk1, lookup_delete_eq.
    + rewrite lookup_insert_ne by done. by apply inv_flights0.
  - by rewrite Hf1.
Qed.

Lemma abortFlight_spec c k fl :
  cache_inv c →
  ∃ c', abortFlight k fl c = Some ((), c') ∧ cache_inv c' ∧ contents c' = contents c ∧
    flights c' = (if decide (flights c !! k = Some fl) then delete k (flights c) else flights c) ∧
    cfg c' = cfg c ∧ tick c' = tick c.
Proof.
  intros Hi. unfold abortFlight. unfold mbind at 1, sp_bind at 1, sp_get; cbn beta iota.
  case_decide.
  - eexists; split; [done|]. split_and!; try done. by apply inv_delete_flight.
  - by exists c.
Qed.

Lemma removeLocked_spec c k :
  cache_inv c →
  ∃ c', removeLocked k c = Some (flights c !! k, c') ∧ cache_inv c' ∧
    contents c' = delete k (contents c) ∧ flights c' = delete k (flights c) ∧
    cfg c' = cfg c ∧ tick c' = tick c.
Proof.
  intros Hi. unfold removeLocked.
  destruct (drop_spec c k Hi) as (c1 & Hd & Hi1 & Hc1 & Hk1 & (Hf1 & Hg1 & _) & Ht1 & _).
  rewrite (sp_bind_eq _ _ _ _ _ Hd). unfold mbind at 1, sp_bind at 1, sp_get; cbn beta iota.
  rewrite <- Hf1. destruct (flights c1 !! k) as [fl|] eqn:Hfl.
  - eexists; split; [done|]. split_and!; try done. by apply inv_delete_flight.
  - exists c1. split_and!; try done. by rewrite delete_id.
Qed.

Lemma resetLocked_spec c :
  cache_inv c →
  ∃ c', resetLocked c = Some (flights c, c') ∧ cache_inv c' ∧
    contents c' = ∅ ∧ flights c' = ∅ ∧ cfg c' = cfg c ∧ tick c' = tick c.
Proof.
  intros []. eexists; split; [done|]. simpl. split_and!; try done.
  - constructor; simpl; try done.
    apply vic_ok_empty. by intros [].
Qed.

(** *** The capacity bound *)

Definition kcount (kd : kind) (m : gmap K entry) : nat :=
  base.size (filter (λ ke : K * entry, kind_of ke.2 = kd) m).

(** The entries stored within the capacity, or over it by at most one
    revived value and one residue. *)
Definition cap_ok (st : settings K V) (m : gmap K entry) : Prop :=
  (Z.of_nat (kcount KValue m) ≤ size st)%Z ∧
  ((Z.of_nat (base.size m) ≤ size st)%Z ∨
   (kcount KResidue m ≤ 1 ∧ (Z.of_nat (kcount KValue m + kcount KStale m) ≤ size st + 1)%Z)).

Lemma kcount_insert kd m k e :
  m !! k = None → kcount kd (<[k := e]> m) =
    kcount kd m + (if decide (kind_of e = kd) then 1 else 0).
Proof.
  intros Hk. unfold kcount. case_decide as Hd.
  - rewrite map_filter_insert_True by done. rewrite map_size_insert_None; [lia|].
    apply map_lookup_filter_None. left. done.
  - rewrite map_filter_insert_False by done. rewrite delete_id by done. lia.
Qed.

Lemma kcount_total m :
  base.size m = kcount KValue m + kcount KStale m + kcount KResidue m.
Proof.
  induction m as [|k e m Hk IH] using map_ind.
  - unfold kcount. by rewrite !map_filter_empty, !map_size_empty.
  - rewrite map_size_insert_None, !kcount_insert, IH by done.
    destruct (kind_of e); simpl; lia.
Qed.

Lemma kcount_subseteq kd m m' : m' ⊆ m → kcount kd m' ≤ kcount kd m.
Proof. intros Hs. apply map_subseteq_size. by apply map_filter_subseteq_mono. Qed.

Lemma size_subseteq (m m' : gmap K entry) : m' ⊆ m → base.size m' ≤ base.size m.
Proof. apply map_subseteq_size. Qed.

Lemma kcount_0 kd m :
  (∀ k e, m !! k = Some e → kind_of e ≠ kd) → kcount kd m = 0.
Proof.
  intros Hn. unfold kcount. apply map_size_empty_iff, map_empty. intros k.
  apply map_lookup_filter_None. right. intros e He. by apply (Hn k).
Qed.

Lemma cap_ok_subseteq st m m' : m' ⊆ m → cap_ok st m → cap_ok st m'.
Proof.
  intros Hs [Hv Ht]. pose proof (kcount_subseteq KValue _ _ Hs).
  pose proof (kcount_subseteq KStale _ _ Hs). pose proof (kcount_subseteq KResidue _ _ Hs).
  pose proof (size_subseteq _ _ Hs). split; [lia|]. destruct Ht as [Ht|[Ht1 Ht2]]; [left|right]; lia.
Qed.

(** A policy with no victim left to name holds no residue and, when it may
    take stale values, no stale value. *)
Lemma no_victim_counts st m level t :
  (0 ≤ t)%Z → victim_of st m level t None →
  kcount KResidue m = 0 ∧ (evictStale ≤ level → kcount KStale m = 0).
Proof.
  intros Ht Hv. inversion Hv as [| | | |Hw Hst _]; subst. split.
  - apply kcount_0. intros k e He Hk. specialize (Hw k e He).
    by rewrite residue_worthless in Hw.
  - intros Hl. apply kcount_0. apply (Hst Hl).
Qed.

(** Every publication keeps the bound. *)
Lemma published_cap clock c k fl val err stale ctxInduced d c' r :
  (∀ i, (0 ≤ clock i)%Z) → (1 ≤ size (cfg c))%Z →
  published clock c k fl val err stale ctxInduced d c' r →
  cap_ok (cfg c) (contents c) → cap_ok (cfg c) (contents c').
Proof.
  intros Hclk Hs1 Hp Hcap.
  destruct Hp as [_ ->|m i _ _ _ _ Hev Hsz Hmk ->|e m i _ _ _ Hi _ Hlt Hev Hend Hmk ->
                 |e i _ _ _ _ _ _ ->|e m i _ _ _ _ _ _ Hev Hend Hmk ->]; [done|..|done|].
  all: pose proof (cap_ok_subseteq _ _ _ (evicts_subseteq _ _ _ _ _ _ _ Hev) Hcap) as [Hcv Hct].
  all: pose proof (kcount_total m) as Hkt.
  all: unfold cap_ok; rewrite !kcount_insert, map_size_insert_None by done.
  - split; repeat case_decide; try done; simpl in *; lia.
  - assert (Hk : kind_of (Entry None Time.zero (stale_until (cfg c) stale (clock i)) (st_val stale) 0 : entry) = KStale).
    { unfold kind_of, revived, Time.IsZero; cbn [e_err e_staleUntil]. specialize (Hclk i).
      rewrite (proj2 (Z.eqb_neq (stale_until (cfg c) stale (clock i)) Time.zero)); [done|unfold Time.zero; lia]. }
    rewrite Hk. repeat case_decide; try done.
    destruct Hend as [Hend|(j & _ & Hv)]; [split; [|left]; lia|].
    apply no_victim_counts in Hv as [Hr Hst]; [|done]. specialize (Hst (le_n _)).
    split; [lia|]. right. lia.
  - repeat case_decide; try done.
    destruct Hend as [Hend|(j & _ & Hv)]; [split; [|left]; lia|].
    apply no_victim_counts in Hv as [Hr _]; [|done].
    split; [lia|]. right. destruct Hct as [|[]]; lia.
Qed.

(** *** PurgeExpired *)

(** [m] maps the keys of the nodes [q] to their entries, and nothing else. *)
Definition maps_nodes (m : gmap K loc) (q : list (pnode K)) : Prop :=
  map_to_list m ≡ₚ node_pair <$> q.

Lemma maps_nodes_perm m q q' : q ≡ₚ q' → maps_nodes m q → maps_nodes m q'.
Proof. intros Hq. unfold maps_nodes. by rewrite Hq. Qed.

Lemma forget_spec m p n q :
  maps_nodes m (n :: q) →
  maps_nodes (forget (n_key n) (n_item n) (m, p)).1 q ∧
  (forget (n_key n) (n_item n) (m, p)).2 = S p.
Proof.
  intros Hm. unfold forget; simpl.
  assert (Hk : m !! n_key n = Some (n_item n)).
  { apply elem_of_map_to_list. unfold maps_nodes in Hm. rewrite Hm. by left. }
  rewrite Hk; simpl. split; [|done]. unfold maps_nodes in *; simpl in *.
  rewrite <- (map_to_list_delete _ _ _ Hk) in Hm. by apply (inj (cons (node_pair n))) in Hm.
Qed.

Lemma forget_all d : ∀ m p q,
  maps_nodes m (d ++ q) →
  let st := foldl (λ st n, forget (n_key n) (n_item n) st) (m, p) d in
  maps_nodes st.1 q ∧ st.2 = p + length d.
Proof.
  induction d as [|n d IH]; intros m p q Hm; simpl in *; [split; [done|lia]|].
  destruct (forget_spec m p n (d ++ q) Hm) as [H1 H2].
  destruct (forget _ _ _) as [m' p'] eqn:Hf; simpl in *; subst.
  destruct (IH m' (S p) q H1) as [H3 H4]. split; [done|lia].
Qed.

Definition value_queue (h : gmap loc entry) (q : list (pnode K)) : Prop :=
  ∀ n, n ∈ q → ∃ e, h !! n_item n = Some e ∧ kind_of e = KValue.

Definition node_expired (t : Z) (h : gmap loc entry) (n : pnode K) : Prop :=
  ∃ e, h !! n_item n = Some e ∧ expired e t = true.

(** The state of a purge of the values queue in progress: [d] are the nodes
    already removed, all expired, [rest] the nodes of the other queues. *)
Record purging (t : Z) (h0 : gmap loc entry) (q0 rest : list (pnode K)) (p0 : nat)
    (st : gmap K loc * nat) (s : gmap loc entry * list (pnode K)) : Prop := Purging {
  pg_ok : pq_ok s;
  pg_out : outcome <$> s.1 = outcome <$> h0;
  pg_frame : ∀ l, l ∉ items q0 → s.1 !! l = h0 !! l;
  pg_map : maps_nodes st.1 (s.2 ++ rest);
  pg_split : ∃ d, q0 ≡ₚ d ++ s.2 ∧ Forall (node_expired t h0) d ∧ st.2 = p0 + length d
}.

Lemma expired_outcome e e' t : outcome e = outcome e' → expired e t = expired e' t.
Proof.
  intros Ho. unfold expired. by rewrite (f_equal e_expireAt Ho : e_expireAt e = e_expireAt e').
Qed.

(** If the head of a values queue has not expired, nothing behind it has. *)
Lemma head_not_expired t (s : gmap loc entry * list (pnode K)) :
  pq_ok s → value_queue s.1 s.2 →
  match top s with
  | None => True
  | Some (_, l) => ∀ e, s.1 !! l = Some e → expired e t = false
  end →
  ∀ n e, n ∈ s.2 → s.1 !! n_item n = Some e → expired e t = false.
Proof.
  intros Hpq Hvq Ht n e Hn He. destruct (top s) as [[k l]|] eqn:Htop.
  - destruct (top_spec _ _ _ Hpq Htop) as [Hin Hmin].
    destruct (Hvq _ Hin) as (e0 & He0 & Hk0); simpl in *.
    destruct (Hvq _ Hn) as (e' & He' & Hk'). assert (e' = e) as -> by congruence.
    eapply expired_monotone; [exact Hk0|done|by eapply (Hmin n e0 e)|by apply Ht].
  - apply top_None in Htop. rewrite Htop in Hn. by apply not_elem_of_nil in Hn.
Qed.

Lemma value_queue_purging t h0 q0 rest p0 st s :
  value_queue h0 q0 → purging t h0 q0 rest p0 st s → value_queue s.1 s.2.
Proof.
  intros Hvq [_ Ho _ _ (d & Hd & _)] n Hn.
  destruct (Hvq n) as (e & He & Hk); [rewrite Hd; apply elem_of_app; by right|].
  destruct (outcomes_lookup _ _ _ _ Ho He) as (e' & He' & Hoe).
  exists e'. split; [done|]. by rewrite (kind_of_outcome _ _ Hoe).
Qed.

Lemma purge_loop_spec t h0 q0 rest p0 budget : ∀ st s,
  value_queue h0 q0 → purging t h0 q0 rest p0 st s →
  ∃ b st' s', purge_loop budget t st s = Some (b, st', s') ∧
    purging t h0 q0 rest p0 st' s' ∧
    (b = true → ∀ n e, n ∈ s'.2 → s'.1 !! n_item n = Some e → expired e t = false).
Proof.
  induction budget as [|budget IH]; intros st s Hvq Hpg; simpl; [by exists false, st, s|].
  pose proof (value_queue_purging _ _ _ _ _ _ _ Hvq Hpg) as Hvs.
  pose proof (head_not_expired t s (pg_ok _ _ _ _ _ _ _ Hpg) Hvs) as Hhead.
  destruct (top s) as [[k l]|] eqn:Htop; last first.
  { exists true, st, s. split_and!; [done..|]. intros _. by apply Hhead. }
  destruct Hpg as [Hok Ho Hfr Hmap (d & Hd & Hde & Hp)].
  destruct (top_spec _ _ _ Hok Htop) as [Hin _].
  destruct (Hvs _ Hin) as (e & He & Hk); simpl in He. rewrite He; cbn [mbind option_bind].
  destruct (expired e t) eqn:Hx; last first.
  { exists true, st, s. split_and!; [done|by constructor; eauto|]. intros _. apply Hhead.
    intros e' He'. congruence. }
  pose proof Hin as [i Hi]%list_elem_of_lookup.
  destruct (remove_spec s i _ Hok Hi) as (s1 & Hr & Hok1 & Hp1 & Ho1 & Hf1); simpl in Hr.
  rewrite Hr; cbn [mbind option_bind]. apply IH; [done|].
  destruct st as [m p]. simpl in Hp1, Ho1, Hf1, Hmap, Hp.
  assert (Hmap' : maps_nodes m (PNode l k :: s1.2 ++ rest)).
  { eapply maps_nodes_perm; [|exact Hmap]. by rewrite <- Hp1. }
  destruct (forget_spec _ p _ _ Hmap') as [Hm2 Hp2]; simpl in Hm2, Hp2.
  constructor; [done|by rewrite Ho1| |done|].
  - intros l' Hl'. rewrite Hf1; [by apply Hfr|]. intros Hin'. apply Hl'.
    unfold items in *. rewrite Hd, fmap_app. apply elem_of_app. by right.
  - exists (PNode l k :: d). split_and!.
    + rewrite Hd, <- Hp1. simpl; by rewrite Permutation_middle.
    + constructor; [|done]. symmetry in Ho.
      destruct (outcomes_lookup _ _ _ _ Ho He) as (e0 & He0 & Hoe).
      exists e0. split; [done|]. by rewrite (expired_outcome _ _ _ Hoe).
    + rewrite Hp2, Hp. simpl. lia.
Qed.

Lemma purge_partition_spec t h0 q0 rest p0 st s :
  purging t h0 q0 rest p0 st s →
  ∃ st' s', partition (λ e, expired e t) forget st s = Some (st', s') ∧
    purging t h0 q0 rest p0 st' s' ∧
    (∀ n e, n ∈ s'.2 → s'.1 !! n_item n = Some e → expired e t = false).
Proof.
  intros [Hok Ho Hfr Hmap (d & Hd & Hde & Hp)]. destruct st as [m p]; simpl in Hmap, Hp.
  destruct (partition_spec (λ e, expired e t) forget (m, p) s (proj1 Hok))
    as (s1 & -> & Hok1 & Hp1 & Ho1 & Hf1).
  set (P := expendable_at (λ e, expired e t) s.1) in *. simpl in Hp1, Ho1, Hf1.
  assert (Hsplit : s.2 ≡ₚ filter P s.2 ++ s1.2) by (rewrite Hp1; symmetry; apply (filter_app_complement P)).
  destruct (forget_all (filter P s.2) m p (s1.2 ++ rest)) as [Hm2 Hp2].
  { eapply maps_nodes_perm; [|exact Hmap]. by rewrite app_assoc, <- Hsplit. }
  eexists _, s1. split; [done|]. split; [constructor|].
  - done.
  - by rewrite Ho1.
  - intros l Hl. rewrite Hf1; [by apply Hfr|]. intros (n & -> & [_ Hn]%list_elem_of_filter)%list_elem_of_fmap.
    apply Hl. apply list_elem_of_fmap. exists n. split; [done|]. rewrite Hd. apply elem_of_app. by right.
  - exact Hm2.
  - exists (d ++ filter P s.2). split_and!.
    + by rewrite <- app_assoc, <- Hsplit.
    + apply Forall_app; split; [done|]. apply Forall_forall. intros n [HP Hn]%list_elem_of_filter.
      unfold P, expendable_at in HP. destruct (s.1 !! n_item n) as [e|] eqn:He; [|done].
      symmetry in Ho. destruct (outcomes_lookup _ _ _ _ Ho He) as (e0 & He0 & Hoe).
      exists e0. split; [done|]. rewrite (expired_outcome _ _ _ Hoe). by destruct (expired e t).
    + rewrite Hp2, Hp, length_app. lia.
  - intros n e Hn He. rewrite Hp1 in Hn. apply list_elem_of_filter in Hn as [HP _].
    symmetry in Ho1. destruct (outcomes_lookup _ _ _ _ Ho1 He) as (e0 & He0 & Hoe).
    rewrite <- (expired_outcome _ _ _ Hoe). unfold P, expendable_at in HP. rewrite He0 in HP.
    by destruct (expired e0 t).
Qed.

Lemma purgeValues_spec t h0 q0 rest p0 st s :
  value_queue h0 q0 → purging t h0 q0 rest p0 st s →
  ∃ st' s', purgeValues t st s = Some (st', s') ∧ purging t h0 q0 rest p0 st' s' ∧
    (∀ n e, n ∈ s'.2 → s'.1 !! n_item n = Some e → expired e t = false).
Proof.
  intros Hvq Hpg. unfold purgeValues.
  destruct (purge_loop_spec t h0 q0 rest p0 (length s.2 / bulkPurgeRatio + 1) st s Hvq Hpg)
    as (b & st1 & s1 & -> & Hpg1 & Hb). cbn [mbind option_bind].
  destruct b; [exists st1, s1; split_and!; [done..|by apply Hb]|].
  pose proof (value_queue_purging _ _ _ _ _ _ _ Hvq Hpg1) as Hvs.
  pose proof (head_not_expired t s1 (pg_ok _ _ _ _ _ _ _ Hpg1) Hvs) as Hhead.
  destruct (top s1) as [[k l]|] eqn:Htop;
    [|exists st1, s1; split_and!; [done..|by apply Hhead]].
  destruct (top_spec _ _ _ (pg_ok _ _ _ _ _ _ _ Hpg1) Htop) as [Hin _].
  destruct (Hvs _ Hin) as (e & He & _); simpl in He. rewrite He; cbn [mbind option_bind].
  destruct (expired e t) eqn:Hx; [by apply purge_partition_spec|].
  exists st1, s1. split_and!; [done..|]. apply Hhead. intros e' He'. congruence.
Qed.

Lemma wf_expired e t : (0 ≤ t)%Z → entry_wf e → kind_of e ≠ KValue → expired e t = true.
Proof.
  intros Ht Hw Hk. unfold expired, Time.Before. rewrite (Hw Hk). unfold Time.zero.
  apply negb_true_iff, Z.ltb_ge. lia.
Qed.

(** The new state of the cache after a purge that keeps the values [q]. *)
Lemma purged_state c t (m : gmap K loc) (p : nat) (h : gmap loc entry) q :
  cache_inv c → (0 ≤ t)%Z →
  purging t (entries c) (v_values (vic c)) []
    (length (v_residue (vic c)) + length (v_stale (vic c))) (m, p) (h, q) →
  (∀ n e, n ∈ q → h !! n_item n = Some e → expired e t = false) →
  let c' := Cache m (flights c) h
              (Victims q [] [] (v_maxStale (vic c)) (v_maxStaleOnFailure (vic c)))
              (next c) (S (tick c)) (cfg c) in
  cache_inv c' ∧
  contents c' = filter (λ ke : K * entry, expired ke.2 t = false) (contents c) ∧
  p = base.size (contents c) - base.size (contents c').
Proof.
  intros Hi Ht [Hok Ho Hfr Hmap (d & Hd & Hde & Hp)] Hkeep c'. simpl in *.
  rewrite app_nil_r in Hmap.
  assert (Hsub : ∀ k l, m !! k = Some l ↔ PNode l k ∈ q).
  { intros k l. rewrite <- elem_of_map_to_list, Hmap, list_elem_of_fmap. unfold node_pair.
    split; [|by exists (PNode l k)]. intros ([l' k'] & Heq & Hn). by simplify_eq/=. }
  assert (Hval : ∀ n, n ∈ q → n ∈ v_values (vic c)).
  { intros n Hn. rewrite Hd. apply elem_of_app. by right. }
  assert (Hi' : cache_inv c').
  { pose proof Hi as [Hv Hm Hf Hal Hcf Hen Hsz]. constructor; simpl; try done.
    - intros []; simpl; (split; [|intros n Hn]);
        try apply pq_ok_nil; try (by apply not_elem_of_nil in Hn); [done|].
      destruct (Hv KValue) as [_ Hk]. destruct (Hk n (Hval n Hn)) as (e & He & Hke).
      destruct (outcomes_lookup _ _ _ _ Ho He) as (e' & He' & Hoe).
      exists e'. split; [done|]. by rewrite (kind_of_outcome _ _ Hoe).
    - unfold all_nodes; simpl. by rewrite app_nil_r.
    - intros k fl Hfl. apply eq_None_not_Some. intros [l Hl].
      apply Hsub, Hval in Hl. specialize (Hf k fl Hfl).
      assert (Hkm : keymap c !! k = Some l); [|congruence].
      apply (keymap_node c k l); [done|]. apply elem_of_all_nodes. by exists KValue.
    - intros l e He. by eapply (outcomes_transfer c h).
    - intros l e He. by eapply (outcomes_transfer c h). }
  split; [done|]. split.
  - apply map_eq. intros k. apply option_eq. intros e. rewrite map_lookup_filter_Some.
    rewrite <- (held_contents c' k e Hi'), <- (held_contents c k e Hi).
    unfold held, vstate; simpl. unfold all_nodes at 1; simpl. rewrite app_nil_r.
    split.
    + intros (n & e0 & Hn & Hk & He0 & ->). split; [|by apply (Hkeep n e0 Hn He0)].
      destruct (outcomes_lookup _ _ _ _ (eq_sym Ho) He0) as (e1 & He1 & Hoe).
      exists n, e1. split_and!; try done. apply elem_of_app. left. by apply Hval.
    + intros ((n & e0 & [kd Hn]%elem_of_all_nodes & Hk & He0 & ->) & Hx).
      destruct (inv_vic _ Hi kd) as [_ Hkd]. destruct (Hkd n Hn) as (e1 & He1 & Hke).
      simpl in He1. assert (e1 = e0) as -> by congruence.
      destruct (decide (kd = KValue)) as [->|Hne]; last first.
      { rewrite <- Hke in Hne. pose proof (inv_entry _ Hi _ _ He0) as Hw.
        pose proof (wf_expired e0 t Ht Hw Hne) as Hxx. change (expired e0 t = false) in Hx. congruence. }
      simpl in Hn. rewrite Hd in Hn. apply elem_of_app in Hn as [Hn|Hn].
      { rewrite Forall_forall in Hde. destruct (Hde n Hn) as (e2 & He2 & Hx2).
        change (expired e0 t = false) in Hx. congruence. }
      destruct (outcomes_lookup _ _ _ _ Ho He0) as (e2 & He2 & Hoe).
      by exists n, e2.
  - rewrite !contents_size by done. rewrite (inv_count c Hi), (inv_count c' Hi'); simpl.
    rewrite Hd, length_app, Hp. lia.
Qed.

Lemma PurgeExpired_spec (clock : nat → Z) c :
  (∀ i, (0 ≤ clock i)%Z) → cache_inv c →
  ∃ n c', PurgeExpired clock c = Some (n, c') ∧ cache_inv c' ∧
    contents c' = filter (λ ke : K * entry, expired ke.2 (clock (tick c)) = false) (contents c) ∧
    n = base.size (contents c) - base.size (contents c') ∧
    flights c' = flights c ∧ cfg c' = cfg c.
Proof.
  intros Hclk Hi. unfold PurgeExpired. unfold mbind at 1, sp_bind at 1, sp_get; cbn beta iota.
  unfold drain. cbn beta iota.
  set (qr := v_residue (vic c)). set (qs := v_stale (vic c)).
  destruct (forget_all qr (keymap c) 0 (qs ++ v_values (vic c))) as [Hm1 Hp1].
  { eapply maps_nodes_perm; [|exact (inv_map _ Hi)]. unfold all_nodes. solve_Permutation. }
  destruct (foldl _ (keymap c, 0) qr) as [m1 p1]; simpl in Hm1, Hp1.
  destruct (forget_all qs m1 p1 (v_values (vic c)) Hm1) as [Hm2 Hp2].
  destruct (foldl _ (m1, p1) qs) as [m2 p2]; simpl in Hm2, Hp2.
  unfold mbind at 1, sp_bind at 1. rewrite now_eq; cbn beta iota.
  destruct (inv_vic _ Hi KValue) as [Hpq Hk]; simpl in Hpq, Hk.
  destruct (purgeValues_spec (clock (tick c)) (entries c) (v_values (vic c)) []
              (length qr + length qs) (m2, p2) (entries c, v_values (vic c)))
    as ([m p] & [h q] & Hpv & Hpg & Hkeep).
  { intros n Hn. by apply Hk. }
  { constructor; try done; simpl.
    - by rewrite app_nil_r.
    - exists []. split_and!; [done|by constructor|simpl; lia]. }
  unfold mbind at 1, sp_bind at 1, sp_lift. rewrite Hpv; cbn [mbind option_bind].
  destruct (purged_state c (clock (tick c)) m p h q Hi (Hclk _) Hpg Hkeep) as (Hi' & Hc' & Hn').
  eexists p, _. split; [done|]. by split_and!.
Qed.
End CacheFacts.
