(* ===== verification/SFLookup.v ===== *)
(** * [pkg/sfcache]: Lookup, Remove, Reset and PurgeExpired under concurrency

    lookup.go and flight.go: the callers of a cache as threads interleaving
    at the granularity of the code's critical sections. A thread's program
    counter names the point between two of them; each rule of [step] is one
    critical section (run by the functions of SFCache), one read of the
    caller's context, one return of the caller-supplied lookup function, or
    one channel operation. *)

From stdpp Require Import gmap list relations functions.
From S2P Require Import Prelude SFQueue SFEvict SFCache.

Section Lookup.
Context {K V E : Type} `{Countable K} `{Inhabited V}.
Abbreviation cache := (cache K V E).

(** Errors of contexts ([ctx.Err()]). *)
Context {CE : Type}.
(** [key == key] of the key's Go type: false for a NaN. *)
Context (selfEqual : K → bool).
(** [errors.Is(err, ctx.Err())]: code of the caller's error type. *)
Context (errorsIs : E → CE → bool).
(** What the caller's lookup function may return for a key. *)
Context (lookupFn : K → V → option E → Prop).
Context (clock : nat → Z).

(** What a call of [Lookup] ends with. *)
Inductive ending :=
| Returned (val : V) (err : option E)
| InvalidKey                    (** [ErrInvalidKey] *)
| Aborted (ctxErr : CE)         (** [ErrLookupAborted] wrapping the context's error *)
| Panicked.

Inductive pc :=
| Idle
| AtLookup (key : K)                        (** entering [Lookup] *)
| AtSlow (key : K) (waited : bool)          (** about to read [ctx.Err()] *)
| AtLock (key : K) (waited : bool) (ctxErr : option CE)  (** about to take the write lock *)
| AtAwait (key : K) (fl : flight_id)        (** in [await]'s select *)
| AtFetch (key : K) (fl : flight_id) (stale : staleState V)  (** running [lookupFn] *)
| AtPublish (key : K) (fl : flight_id) (val : V) (err : option E)
    (stale : staleState V) (ctxInduced : bool) (ttl : Z)     (** about to publish *)
| AtAbort (key : K) (fl : flight_id)        (** unwinding a panic of the caller's code *)
| AtFinish (fls : list flight_id) (e : option ending)        (** about to finish flights *)
| AtRemove (key : K)
| AtReset
| AtPurge
| Ended (e : option ending).                (** [None]: [Remove], [Reset], [PurgeExpired] *)

(** [fresh]: the fast path, under the read lock. *)
Definition fresh (key : K) : SP cache (option (V * option E)) := λ c,
  match keymap c !! key with
  | None => Some (None, c)
  | Some item =>
      e ← entries c !! item;
      '(t, c) ← now clock c;
      Some (if usable e false t then Some (e_val e, e_err e) else None, c)
  end.

(** The entry a caller of [lookupSlow] may return, read under the lock. *)
Definition usableEntry (key : K) (waited : bool) : SP cache (option (V * option E)) := λ c,
  match keymap c !! key with
  | None => Some (None, c)
  | Some item =>
      e ← entries c !! item;
      if waited then Some (Some (e_val e, e_err e), c)
      else
        '(t, c) ← now clock c;
        Some (if usable e waited t then Some (e_val e, e_err e) else None, c)
  end.

(** One iteration of [lookupSlow]'s loop, from taking the write lock to
    releasing it; [fl] is the flight [fetch] would create. *)
Definition lookupIteration (key : K) (waited : bool) (ctxErr : option CE) (fl : flight_id)
    : SP cache pc :=
  r ← usableEntry key waited;
  match r with
  | Some (val, err) => mret (Ended (Some (Returned val err)))
  | None =>
      c ← sp_get;
      match flights c !! key with
      | Some fl' => mret (AtAwait key fl')
      | None =>
          match ctxErr with
          | Some ce => mret (Ended (Some (Aborted ce)))
          | None => stale ← startFlight key fl; mret (AtFetch key fl stale)
          end
      end
  end.

(** The cache, the finished flights, the next flight to be created, the
    flights [Remove] and [Reset] have invalidated (a ghost), each thread's
    position and context. *)
Record world := World {
  w_cache : cache;
  w_finished : gset flight_id;
  w_next : flight_id;
  w_invalid : gset flight_id;
  w_pc : nat → pc;
  w_ctx : nat → option CE
}.

Definition goto (w : world) (t : nat) (p : pc) (c : cache) : world :=
  World c (w_finished w) (w_next w) (w_invalid w) (<[t := p]> (w_pc w)) (w_ctx w).

Inductive step : world → world → Prop :=
(** Callers come, and contexts end (and stay ended), at any time. *)
| step_call w t p :
    (∃ k, p = AtLookup k ∨ p = AtRemove k) ∨ p = AtReset ∨ p = AtPurge →
    w_pc w t = Idle → step w (goto w t p (w_cache w))
| step_return w t e :
    w_pc w t = Ended e → step w (goto w t Idle (w_cache w))
| step_cancel w t ce :
    w_ctx w t = None →
    step w (World (w_cache w) (w_finished w) (w_next w) (w_invalid w) (w_pc w)
                  (<[t := Some ce]> (w_ctx w)))
(** [Lookup]. *)
| step_invalid_key w t k :
    w_pc w t = AtLookup k → selfEqual k = false →
    step w (goto w t (Ended (Some InvalidKey)) (w_cache w))
| step_hit w t k val err c :
    w_pc w t = AtLookup k → selfEqual k = true →
    fresh k (w_cache w) = Some (Some (val, err), c) →
    step w (goto w t (Ended (Some (Returned val err))) c)
| step_miss w t k c :
    w_pc w t = AtLookup k → selfEqual k = true →
    fresh k (w_cache w) = Some (None, c) →
    step w (goto w t (AtSlow k false) c)
(** [lookupSlow]: the context is read outside the lock. *)
| step_read_ctx w t k waited :
    w_pc w t = AtSlow k waited →
    step w (goto w t (AtLock k waited (w_ctx w t)) (w_cache w))
| step_iteration w t k waited ctxErr p c :
    w_pc w t = AtLock k waited ctxErr →
    lookupIteration k waited ctxErr (w_next w) (w_cache w) = Some (p, c) →
    step w (World c (w_finished w)
              (match p with AtFetch _ _ _ => Pos.succ (w_next w) | _ => w_next w end)
              (w_invalid w) (<[t := p]> (w_pc w)) (w_ctx w))
(** [await]: either channel, when ready. *)
| step_await_ctx w t k fl ce :
    w_pc w t = AtAwait k fl → w_ctx w t = Some ce →
    step w (goto w t (Ended (Some (Aborted ce))) (w_cache w))
| step_await_done w t k fl :
    w_pc w t = AtAwait k fl → fl ∈ w_finished w →
    step w (goto w t (AtSlow k true) (w_cache w))
(** [fetch]: the lookup function returns or panics. *)
| step_fetched_value w t k fl stale val d :
    w_pc w t = AtFetch k fl stale → lookupFn k val None →
    entryTTL (cfg (w_cache w)) k val = Some d →
    step w (goto w t (AtPublish k fl val None stale false d) (w_cache w))
| step_fetched_error w t k fl stale val err :
    w_pc w t = AtFetch k fl stale → lookupFn k val (Some err) →
    step w (goto w t
      (AtPublish k fl val (Some err) stale
         (match w_ctx w t with Some ce => errorsIs err ce | None => false end) 0)
      (w_cache w))
| step_panic w t k fl stale :
    w_pc w t = AtFetch k fl stale →
    step w (goto w t (AtAbort k fl) (w_cache w))
| step_publish w t k fl val err stale ctxInduced d r c :
    w_pc w t = AtPublish k fl val err stale ctxInduced d →
    publish clock k fl val err stale ctxInduced d (w_cache w) = Some (r, c) →
    step w (goto w t (AtFinish [fl] (Some (Returned r.1 r.2))) c)
| step_abort w t k fl c :
    w_pc w t = AtAbort k fl →
    abortFlight k fl (w_cache w) = Some ((), c) →
    step w (goto w t (AtFinish [fl] (Some Panicked)) c)
(** [finish], for the producer and for the invalidators. *)
| step_finish w t fl fls e :
    w_pc w t = AtFinish (fl :: fls) e →
    step w (World (w_cache w) ({[fl]} ∪ w_finished w) (w_next w) (w_invalid w)
                  (<[t := AtFinish fls e]> (w_pc w)) (w_ctx w))
| step_finished w t e :
    w_pc w t = AtFinish [] e →
    step w (goto w t (Ended e) (w_cache w))
(** [Remove], [Reset], [PurgeExpired]. *)
| step_remove w t k r c :
    w_pc w t = AtRemove k →
    removeLocked k (w_cache w) = Some (r, c) →
    step w (World c (w_finished w) (w_next w)
              (match r with Some fl => {[fl]} | None => ∅ end ∪ w_invalid w)
              (<[t := AtFinish (match r with Some fl => [fl] | None => [] end) None]> (w_pc w))
              (w_ctx w))
| step_reset w t m c :
    w_pc w t = AtReset →
    resetLocked (w_cache w) = Some (m, c) →
    step w (World c (w_finished w) (w_next w)
              (list_to_set (map_to_list m).*2 ∪ w_invalid w)
              (<[t := AtFinish (map_to_list m).*2 None]> (w_pc w)) (w_ctx w))
| step_purge w t n c :
    w_pc w t = AtPurge →
    PurgeExpired clock (w_cache w) = Some (n, c) →
    step w (goto w t (Ended None) c).

Definition initial (cf : Config) (tf : option (K → V → option Z)) (ctxs : nat → option CE) : world :=
  World (New cf tf) ∅ 1%positive ∅ (λ _, Idle) ctxs.

Definition reachable cf tf (w : world) : Prop :=
  ∃ ctxs, rtc step (initial cf tf ctxs) w.

(** ** The invariant of the reachable worlds *)

(** The flight a thread is the producer of. *)
Definition producing (p : pc) : option (K * flight_id) :=
  match p with
  | AtFetch k fl _ | AtPublish k fl _ _ _ _ _ | AtAbort k fl => Some (k, fl)
  | _ => None
  end.

(** The flights a thread is about to finish, having deregistered them. *)
Definition finishing (p : pc) : list flight_id :=
  match p with AtFinish fls _ => fls | _ => [] end.

(** A thread that will finish the flight. *)
Definition responsible (p : pc) (fl : flight_id) : Prop :=
  snd <$> producing p = Some fl ∨ fl ∈ finishing p.

Definition awaiting (p : pc) : option flight_id :=
  match p with AtAwait _ fl => Some fl | _ => None end.

Record world_inv (w : world) : Prop := WorldInv {
  wi_cache : cache_inv (w_cache w);
  wi_cap : cap_ok (cfg (w_cache w)) (contents (w_cache w));
  (** a registered flight is unfinished, valid, and has its producer *)
  wi_registered : ∀ k fl, flights (w_cache w) !! k = Some fl →
    fl ∉ w_finished w ∧ fl ∉ w_invalid w ∧ ∃ t, producing (w_pc w t) = Some (k, fl);
  (** a producer's flight is registered or was invalidated *)
  wi_producing : ∀ t k fl, producing (w_pc w t) = Some (k, fl) →
    (fl < w_next w)%positive ∧ (flights (w_cache w) !! k = Some fl ∨ fl ∈ w_invalid w);
  wi_unique : ∀ t t' k k' fl, producing (w_pc w t) = Some (k, fl) →
    producing (w_pc w t') = Some (k', fl) → t = t';
  (** a flight is finished, or some thread will finish it *)
  wi_alive : ∀ fl, (fl < w_next w)%positive →
    fl ∈ w_finished w ∨ ∃ t, responsible (w_pc w t) fl;
  (** flights to be finished are deregistered *)
  wi_finishing : ∀ t fl, fl ∈ finishing (w_pc w t) →
    (fl < w_next w)%positive ∧ ∀ k, flights (w_cache w) !! k ≠ Some fl;
  wi_awaiting : ∀ t fl, awaiting (w_pc w t) = Some fl → (fl < w_next w)%positive;
  wi_old : ∀ fl, fl ∈ w_finished w ∨ fl ∈ w_invalid w → (fl < w_next w)%positive
}.

Lemma pc_lookup (f : nat → pc) t p t' :
  (<[t := p]> f : nat → pc) t' = if decide (t = t') then p else f t'.
Proof. case_decide; subst; [by rewrite fn_lookup_insert|by rewrite fn_lookup_insert_ne]. Qed.

(** A thread moving on without changing who is responsible for what. *)
Lemma inv_goto w t p c :
  world_inv w → cache_inv c → cap_ok (cfg c) (contents c) →
  flights c = flights (w_cache w) →
  producing p = producing (w_pc w t) →
  finishing p = finishing (w_pc w t) →
  (∀ fl, awaiting p = Some fl → (fl < w_next w)%positive) →
  world_inv (goto w t p c).
Proof.
  intros [] Hc Hcap Hf Hp Hfin Haw.
  assert (Hpr : ∀ t', producing ((<[t := p]> (w_pc w) : nat → pc) t') = producing (w_pc w t')).
  { intros t'. rewrite pc_lookup. by case_decide; subst. }
  assert (Hfi : ∀ t', finishing ((<[t := p]> (w_pc w) : nat → pc) t') = finishing (w_pc w t')).
  { intros t'. rewrite pc_lookup. by case_decide; subst. }
  assert (Hre : ∀ t' fl, responsible ((<[t := p]> (w_pc w) : nat → pc) t') fl ↔ responsible (w_pc w t') fl).
  { intros t' fl. unfold responsible. by rewrite Hpr, Hfi. }
  constructor; simpl; rewrite ?Hf; try done.
  - setoid_rewrite Hpr. done.
  - setoid_rewrite Hpr. done.
  - setoid_rewrite Hpr. done.
  - setoid_rewrite Hre. done.
  - setoid_rewrite Hfi. done.
  - intros t' fl. rewrite pc_lookup. case_decide; [apply Haw|apply wi_awaiting0].
Qed.

(** A producer retires: its flight is no longer registered under its key,
    and the thread goes on to finish it. *)
Lemma inv_retire w t k fl e c :
  world_inv w → cache_inv c → cap_ok (cfg c) (contents c) →
  producing (w_pc w t) = Some (k, fl) →
  flights c = (if decide (flights (w_cache w) !! k = Some fl) then delete k (flights (w_cache w))
               else flights (w_cache w)) →
  world_inv (goto w t (AtFinish [fl] e) c).
Proof.
  intros [] Hc Hcap Hp Hf.
  assert (Hreg : ∀ k' fl', flights c !! k' = Some fl' →
            flights (w_cache w) !! k' = Some fl' ∧ fl' ≠ fl).
  { intros k' fl' Hfl. assert (Hfl' : flights (w_cache w) !! k' = Some fl').
    { rewrite Hf in Hfl. case_decide; [|done]. by apply lookup_delete_Some in Hfl as [_ ?]. }
    split; [done|]. intros ->. destruct (wi_registered0 _ _ Hfl') as (_ & _ & t' & Ht').
    assert (t' = t) as -> by by eapply wi_unique0. assert (k' = k) as -> by congruence.
    rewrite Hf, decide_True, lookup_delete_eq in Hfl by done. done. }
  assert (Hkeep : ∀ k' fl', flights (w_cache w) !! k' = Some fl' → fl' ≠ fl → flights c !! k' = Some fl').
  { intros k' fl' Hfl Hne. rewrite Hf. case_decide; [|done]. apply lookup_delete_Some.
    split; [|done]. intros <-. congruence. }
  clear Hf.
  constructor; simpl; try done.
  - intros k' fl' Hfl. destruct (Hreg _ _ Hfl) as [Hfl' Hne].
    destruct (wi_registered0 _ _ Hfl') as (? & ? & t' & Ht'). split_and!; try done.
    exists t'. rewrite pc_lookup. case_decide; [congruence|done].
  - intros t' k' fl'. rewrite pc_lookup. case_decide as Ht; [done|]. intros Hp'.
    destruct (wi_producing0 _ _ _ Hp') as [Hlt Hor]. split; [done|].
    destruct Hor as [Hor|?]; [left|by right]. apply Hkeep; [done|]. intros ->.
    by apply Ht; eapply wi_unique0.
  - intros t1 t2 k1 k2 fl'. rewrite !pc_lookup. do 2 case_decide; try done. apply wi_unique0.
  - intros fl' Hlt. destruct (wi_alive0 fl' Hlt) as [?|[t' Ht']]; [by left|right].
    destruct (decide (t = t')) as [<-|Hne].
    + exists t. rewrite pc_lookup, decide_True by done. destruct Ht' as [Ht'|Ht'].
      * rewrite Hp in Ht'; simplify_eq/=. right; simpl. by left.
      * exfalso. destruct (w_pc w t); simpl in *; try done; by apply not_elem_of_nil in Ht'.
    + exists t'. by rewrite pc_lookup, decide_False by done.
  - intros t' fl'. rewrite pc_lookup. case_decide as Ht; simpl.
    + intros ->%list_elem_of_singleton. split; [by eapply wi_producing0|].
      intros k' Hk'. by destruct (Hreg _ _ Hk').
    + intros Hin. destruct (wi_finishing0 _ _ Hin) as [? Hn]. split; [done|].
      intros k' Hk'. destruct (Hreg _ _ Hk') as [Hk _]. by apply (Hn k').
  - intros t' fl'. rewrite pc_lookup. case_decide; [done|apply wi_awaiting0].
Qed.

(** *** The critical sections of Lookup *)

(** Only the clock has been read. *)
Definition tick_only (c c' : cache) : Prop :=
  c' = Cache (keymap c) (flights c) (entries c) (vic c) (next c) (tick c') (cfg c).

Lemma tick_only_refl c : tick_only c c.
Proof. by destruct c. Qed.

Lemma tick_only_inv c c' : tick_only c c' → cache_inv c →
  cache_inv c' ∧ contents c' = contents c ∧ flights c' = flights c ∧ cfg c' = cfg c.
Proof. intros ->. intros Hi. split_and!; [by apply inv_tick|done..]. Qed.

(** A hit without waiting is a value whose deadline lies ahead of the
    reading of the clock the hit took; an entry holding an error is never
    one. *)
Definition fresh_entry (c : cache) (k : K) (r : V * option E) : Prop :=
  ∃ e, contents c !! k = Some e ∧ r = (e_val e, None) ∧ e_err e = None ∧
    (clock (tick c) < e_expireAt e)%Z.

Lemma fresh_spec c k :
  (∀ i, (0 ≤ clock i)%Z) → cache_inv c →
  ∃ r c', fresh k c = Some (r, c') ∧ tick_only c c' ∧
    match r with
    | Some r => fresh_entry c k r
    | None => ∀ e, contents c !! k = Some e → (e_expireAt e ≤ clock (tick c))%Z
    end.
Proof.
  intros Hclk Hi. unfold fresh. destruct (keymap c !! k) as [l|] eqn:Hk; last first.
  { eexists _, c. split; [done|]. split; [apply tick_only_refl|].
    intros e. by rewrite (proj2 (contents_None c k Hi) Hk). }
  destruct (keymap_live c k l Hi Hk) as [e He]. rewrite He; cbn [mbind option_bind].
  rewrite now_eq; cbn [mbind option_bind]. eexists _, _. split; [done|]. split; [done|].
  assert (Hc : contents c !! k = Some (outcome e)) by (by rewrite contents_lookup, Hk; simpl; rewrite He).
  unfold usable, Time.Before; simpl. destruct (Z.ltb_spec (clock (tick c)) (e_expireAt e)) as [Hlt|Hge].
  - exists (outcome e). pose proof (contents_wf c k _ Hi Hc) as Hw.
    assert (Her : e_err e = None).
    { destruct (e_err e) as [er|] eqn:Her; [|done]. unfold entry_wf, kind_of in Hw; simpl in Hw.
      rewrite Her in Hw. specialize (Hclk (tick c)). rewrite Hw in Hlt by done.
      unfold Time.zero in Hlt. lia. }
    split_and!; try done. by rewrite Her.
  - intros e' He'. by simplify_eq/=.
Qed.

Lemma usableEntry_spec c k waited :
  (∀ i, (0 ≤ clock i)%Z) → cache_inv c →
  ∃ r c', usableEntry k waited c = Some (r, c') ∧ tick_only c c' ∧
    match r with
    | Some r =>
        if waited then ∃ e, contents c !! k = Some e ∧ r = (e_val e, e_err e)
        else fresh_entry c k r
    | None =>
        if waited then contents c !! k = None
        else ∀ e, contents c !! k = Some e → (e_expireAt e ≤ clock (tick c))%Z
    end.
Proof.
  intros Hclk Hi. destruct waited.
  - unfold usableEntry. destruct (keymap c !! k) as [l|] eqn:Hk.
    + destruct (keymap_live c k l Hi Hk) as [e He]. rewrite He; cbn [mbind option_bind].
      eexists _, c. split; [done|]. split; [apply tick_only_refl|]. exists (outcome e).
      split; [|done]. by rewrite contents_lookup, Hk; simpl; rewrite He.
    + eexists _, c. split; [done|]. split; [apply tick_only_refl|]. by apply contents_None.
  - apply (fresh_spec c k Hclk Hi).
Qed.

(** What an iteration of the loop may do. *)
Inductive iterated (c : cache) (k : K) (waited : bool) (ctxErr : option CE) (fl : flight_id)
    (c' : cache) : pc → Prop :=
| iterated_return val err :
    tick_only c c' →
    (if waited then ∃ e, contents c !! k = Some e ∧ (val, err) = (e_val e, e_err e)
     else fresh_entry c k (val, err)) →
    iterated c k waited ctxErr fl c' (Ended (Some (Returned val err)))
| iterated_await fl' :
    tick_only c c' → flights c !! k = Some fl' →
    iterated c k waited ctxErr fl c' (AtAwait k fl')
| iterated_aborted ce :
    tick_only c c' → flights c !! k = None → ctxErr = Some ce →
    iterated c k waited ctxErr fl c' (Ended (Some (Aborted ce)))
| iterated_fetch old :
    flights c !! k = None → ctxErr = None → cache_inv c' → cfg c' = cfg c →
    (outcome <$> old) = contents c !! k → contents c' = delete k (contents c) →
    flights c' = <[k := fl]> (flights c) →
    iterated c k waited ctxErr fl c' (AtFetch k fl (staleFrom (cfg c) old)).

Lemma lookupIteration_spec c k waited ctxErr fl :
  (∀ i, (0 ≤ clock i)%Z) → cache_inv c →
  ∃ p c', lookupIteration k waited ctxErr fl c = Some (p, c') ∧
    iterated c k waited ctxErr fl c' p.
Proof.
  intros Hclk Hi. unfold lookupIteration.
  destruct (usableEntry_spec c k waited Hclk Hi) as (r & c1 & Hu & Ht & Hr).
  rewrite (sp_bind_eq _ _ _ _ _ Hu).
  destruct (tick_only_inv c c1 Ht Hi) as (Hi1 & Hc1 & Hf1 & Hg1).
  destruct r as [[val err]|]; [eexists _, c1; split; [done|]; by apply iterated_return|].
  unfold mbind at 1, sp_bind at 1, sp_get; cbn beta iota. rewrite Hf1.
  destruct (flights c !! k) as [fl'|] eqn:Hfl; [eexists _, c1; split; [done|]; by apply iterated_await|].
  destruct ctxErr as [ce|]; [eexists _, c1; split; [done|]; by apply iterated_aborted|].
  destruct (startFlight_spec c1 k fl Hi1) as (c2 & old & Hs & Hi2 & Hold & Hc2 & Hf2 & Hg2 & _);
    [by rewrite Hf1|].
  rewrite (sp_bind_eq _ _ _ _ _ Hs). eexists _, c2. split; [done|].
  rewrite Hg1. apply iterated_fetch; congruence.
Qed.

(** *** Preservation of the world invariant *)

(** Entering the fetch registers a new flight and makes the thread its
    producer. *)
Lemma inv_start w t k stale c :
  world_inv w → cache_inv c → cap_ok (cfg c) (contents c) →
  producing (w_pc w t) = None → finishing (w_pc w t) = [] →
  flights (w_cache w) !! k = None →
  flights c = <[k := w_next w]> (flights (w_cache w)) →
  world_inv (World c (w_finished w) (Pos.succ (w_next w)) (w_invalid w)
               (<[t := AtFetch k (w_next w) stale]> (w_pc w)) (w_ctx w)).
Proof.
  intros [] Hc Hcap Hp Hfi Hk Hf.
  assert (Hold : ∀ t' k' fl', producing (w_pc w t') = Some (k', fl') → (fl' < w_next w)%positive).
  { intros t' k' fl' Hpr. by eapply wi_producing0. }
  assert (Hreg : ∀ k' fl', flights c !! k' = Some fl' ↔
            (k' = k ∧ fl' = w_next w) ∨ flights (w_cache w) !! k' = Some fl').
  { intros k' fl'. rewrite Hf, lookup_insert_Some. split; [naive_solver|].
    intros [[-> ->]|Hl]; [by left|]. right. split; [|done]. intros <-. congruence. }
  clear Hf. constructor; simpl; try done.
  - intros k' fl' [[-> ->]|Hfl]%Hreg.
    + split_and!; [intros Hin; assert (w_next w < w_next w)%positive by auto; lia..|].
      exists t. by rewrite pc_lookup, decide_True.
    + destruct (wi_registered0 _ _ Hfl) as (? & ? & t' & Ht'). split_and!; try done.
      exists t'. rewrite pc_lookup. case_decide; [congruence|done].
  - intros t' k' fl'. rewrite pc_lookup. case_decide as Ht; simpl.
    + intros [= <- <-]. split; [lia|]. left. apply Hreg. by left.
    + intros Hpr. destruct (wi_producing0 _ _ _ Hpr) as [? [?|?]]; (split; [lia|]); [left|by right].
      apply Hreg. by right.
  - intros t1 t2 k1 k2 fl'. rewrite !pc_lookup. do 2 case_decide; simpl; try congruence.
    + intros [= <- <-] Hpr%Hold. lia.
    + intros Hpr%Hold [= <- <-]. lia.
    + apply wi_unique0.
  - intros fl' Hlt. destruct (decide (fl' = w_next w)) as [->|Hne].
    + right. exists t. rewrite pc_lookup, decide_True by done. by left.
    + destruct (wi_alive0 fl') as [?|[t' Ht']]; [lia|by left|right]. exists t'.
      rewrite pc_lookup. case_decide; [|done]. subst. unfold responsible in Ht'.
      rewrite Hp, Hfi in Ht'. destruct Ht' as [?|?%not_elem_of_nil]; done.
  - intros t' fl'. rewrite pc_lookup. case_decide; [intros ?%not_elem_of_nil; done|].
    intros Hin. destruct (wi_finishing0 _ _ Hin) as [Hlt Hn]. split; [lia|].
    intros k' [[-> ->]|Hk']%Hreg; [lia|by apply (Hn k')].
  - intros t' fl'. rewrite pc_lookup. case_decide; [done|].
    intros Ha. specialize (wi_awaiting0 _ _ Ha). lia.
  - intros fl' Hin. specialize (wi_old0 _ Hin). lia.
Qed.

(** [Remove] and [Reset] deregister flights, which their thread then
    finishes. *)
Lemma inv_invalidate w t fls (gone : gset flight_id) c :
  world_inv w → cache_inv c → cap_ok (cfg c) (contents c) →
  producing (w_pc w t) = None → finishing (w_pc w t) = [] →
  (∀ k fl, flights c !! k = Some fl ↔ flights (w_cache w) !! k = Some fl ∧ fl ∉ gone) →
  (∀ fl, fl ∈ gone ↔ fl ∈ fls) →
  (∀ fl, fl ∈ gone → ∃ k, flights (w_cache w) !! k = Some fl) →
  world_inv (World c (w_finished w) (w_next w) (gone ∪ w_invalid w)
               (<[t := AtFinish fls None]> (w_pc w)) (w_ctx w)).
Proof.
  intros [] Hc Hcap Hp Hfi Hf Hgone Hreg.
  assert (Hlt : ∀ fl, fl ∈ gone → (fl < w_next w)%positive).
  { intros fl [k Hk]%Hreg. destruct (wi_registered0 _ _ Hk) as (_ & _ & t' & Ht').
    by eapply wi_producing0. }
  constructor; simpl; try done.
  - intros k fl [Hfl Hng]%Hf. destruct (wi_registered0 _ _ Hfl) as (? & ? & t' & Ht').
    split_and!; [done|set_solver|]. exists t'. rewrite pc_lookup. case_decide; [congruence|done].
  - intros t' k fl. rewrite pc_lookup. case_decide; [done|]. intros Hpr.
    destruct (wi_producing0 _ _ _ Hpr) as [? Hor]. split; [done|]. rewrite Hf.
    destruct (decide (fl ∈ gone)); [right; set_solver|]. destruct Hor; [by left|right; set_solver].
  - intros t1 t2 k1 k2 fl. rewrite !pc_lookup. do 2 case_decide; try done. apply wi_unique0.
  - intros fl Hl. destruct (wi_alive0 fl Hl) as [?|[t' Ht']]; [by left|right]. exists t'.
    rewrite pc_lookup. case_decide; [|done]. subst. unfold responsible in Ht'.
    rewrite Hp, Hfi in Ht'. destruct Ht' as [?|?%not_elem_of_nil]; done.
  - intros t' fl. rewrite pc_lookup. case_decide; simpl.
    + intros Hin%Hgone. split; [by apply Hlt|]. intros k [_ Hk]%Hf. done.
    + intros Hin. destruct (wi_finishing0 _ _ Hin) as [? Hn]. split; [done|].
      intros k [Hk _]%Hf. by apply (Hn k).
  - intros t' fl. rewrite pc_lookup. case_decide; [done|]. apply wi_awaiting0.
  - intros fl [?|[?|?]%elem_of_union]; [apply wi_old0; by left|by apply Hlt|apply wi_old0; by right].
Qed.

Lemma inv_finish w t fl fls e :
  world_inv w → w_pc w t = AtFinish (fl :: fls) e →
  world_inv (World (w_cache w) ({[fl]} ∪ w_finished w) (w_next w) (w_invalid w)
               (<[t := AtFinish fls e]> (w_pc w)) (w_ctx w)).
Proof.
  intros [] Ht.
  destruct (wi_finishing0 t fl) as [Hlt Hnr]; [rewrite Ht; by left|].
  constructor; simpl; try done.
  - intros k fl' Hfl. destruct (wi_registered0 _ _ Hfl) as (? & ? & t' & Ht').
    split_and!; [|done|].
    + intros [->%elem_of_singleton|?]%elem_of_union; [by apply (Hnr k)|done].
    + exists t'. rewrite pc_lookup. case_decide; [|done]. subst. by rewrite Ht in Ht'.
  - intros t' k fl'. rewrite pc_lookup. case_decide; [done|]. apply wi_producing0.
  - intros t1 t2 k1 k2 fl'. rewrite !pc_lookup. do 2 case_decide; try done. apply wi_unique0.
  - intros fl' Hl. destruct (decide (fl' = fl)) as [->|Hne]; [left; set_solver|].
    destruct (wi_alive0 fl' Hl) as [?|[t' Ht']]; [left; set_solver|right]. exists t'.
    rewrite pc_lookup. case_decide; [|done]. subst. unfold responsible in *. rewrite Ht in Ht'.
    simpl in *. destruct Ht' as [?|Hin]; [done|right].
    by apply elem_of_cons in Hin as [?|?].
  - intros t' fl'. rewrite pc_lookup. case_decide as Hd; simpl; [|apply wi_finishing0].
    intros Hin. subst. apply (wi_finishing0 t'). rewrite Ht. by right.
  - intros t' fl'. rewrite pc_lookup. case_decide; [done|]. apply wi_awaiting0.
  - intros fl' [[->%elem_of_singleton|?]%elem_of_union|?]; [done|apply wi_old0; by left|apply wi_old0; by right].
Qed.

Lemma flights_of_published (c : cache) (k : K) fl (val : V) (err : option E) stale ctxInduced d (c' : cache) r :
  published clock c k fl val err stale ctxInduced d c' r →
  flights c' = if decide (flights c !! k = Some fl) then delete k (flights c) else flights c.
Proof.
  destruct 1 as [? ->|? ? ? ?|? ? ? ? ?|? ? ? ?|? ? ? ? ?]; case_decide; congruence.
Qed.

Lemma step_inv w w' :
  (∀ i, (0 ≤ clock i)%Z) → world_inv w → step w w' → world_inv w'.
Proof.
  intros Hclk Hw Hs. pose proof (wi_cache _ Hw) as Hi. pose proof (wi_cap _ Hw) as Hcap.
  assert (Htick : ∀ c, tick_only (w_cache w) c →
    cache_inv c ∧ cap_ok (cfg c) (contents c) ∧ flights c = flights (w_cache w)).
  { intros c Ht. destruct (tick_only_inv _ _ Ht Hi) as (? & -> & ? & ->). done. }
  destruct Hs as
    [w t p Hp Ht|w t e Ht|w t ce Ht|w t k Ht _|w t k val err c Ht _ Hf|w t k c Ht _ Hf
    |w t k wt Ht|w t k wt ce p c Ht Hit|w t k fl ce Ht _|w t k fl Ht _
    |w t k fl st val d Ht _ _|w t k fl st val err Ht _|w t k fl st Ht
    |w t k fl val err st ci d r c Ht Hpub|w t k fl c Ht Hab|w t fl fls e Ht|w t e Ht
    |w t k r c Ht Hr|w t m c Ht Hr|w t n c Ht Hr].
  - apply inv_goto; rewrite ?Ht; try done; destruct Hp as [[k [-> | ->]]|[-> | ->]]; done.
  - by apply inv_goto; rewrite ?Ht.
  - destruct Hw. by constructor.
  - by apply inv_goto; rewrite ?Ht.
  - destruct (fresh_spec (w_cache w) k Hclk Hi) as (r & c' & Hf' & Htk & _).
    rewrite Hf in Hf'. simplify_eq. destruct (Htick c' Htk) as (?&?&?).
    by apply inv_goto; rewrite ?Ht.
  - destruct (fresh_spec (w_cache w) k Hclk Hi) as (r & c' & Hf' & Htk & _).
    rewrite Hf in Hf'. simplify_eq. destruct (Htick c' Htk) as (?&?&?).
    by apply inv_goto; rewrite ?Ht.
  - by apply inv_goto; rewrite ?Ht.
  - destruct (lookupIteration_spec (w_cache w) k wt ce (w_next w) Hclk Hi) as (p' & c' & Hl & Hit').
    rewrite Hit in Hl. simplify_eq.
    destruct Hit' as [val err Htk _|fl' Htk Hfl|ce' Htk _ _|old Hfl _ Hi' Hg Hold Hc' Hf'].
    + destruct (Htick _ Htk) as (?&?&?). by apply inv_goto; rewrite ?Ht.
    + destruct (Htick _ Htk) as (?&?&?). apply inv_goto; rewrite ?Ht; try done.
      intros fl [= <-]. destruct (wi_registered _ Hw _ _ Hfl) as (_ & _ & t' & Ht').
      by eapply (wi_producing _ Hw).
    + destruct (Htick _ Htk) as (?&?&?). by apply inv_goto; rewrite ?Ht.
    + apply inv_start; rewrite ?Ht; try done. rewrite Hc', Hg.
      eapply cap_ok_subseteq; [apply delete_subseteq|done].
  - by apply inv_goto; rewrite ?Ht.
  - by apply inv_goto; rewrite ?Ht.
  - by apply inv_goto; rewrite ?Ht.
  - by apply inv_goto; rewrite ?Ht.
  - by apply inv_goto; rewrite ?Ht.
  - destruct (publish_published clock Hclk (w_cache w) k fl val err st ci d Hi)
      as (r' & c' & Hp & Hi' & Hg & _ & Hpd). rewrite Hpub in Hp. simplify_eq.
    apply (inv_retire _ _ k); rewrite ?Ht; try done.
    + rewrite Hg. eapply published_cap; [done|apply (inv_size _ Hi)|done|done].
    + by eapply flights_of_published.
  - destruct (abortFlight_spec (w_cache w) k fl Hi) as (c' & Ha & Hi' & Hc' & Hf' & Hg & _).
    rewrite Hab in Ha. simplify_eq. apply (inv_retire _ _ k); rewrite ?Ht; try done.
    by rewrite Hg, Hc'.
  - by apply inv_finish.
  - by apply inv_goto; rewrite ?Ht.
  - destruct (removeLocked_spec (w_cache w) k Hi) as (c' & Hrm & Hi' & Hc' & Hf' & Hg & _).
    rewrite Hr in Hrm. simplify_eq. apply inv_invalidate; rewrite ?Ht; try done.
    + rewrite Hc', Hg. eapply cap_ok_subseteq; [apply delete_subseteq|done].
    + intros k' fl. rewrite Hf', lookup_delete_Some.
      destruct (flights (w_cache w) !! k) as [fl0|] eqn:Hfl0; [|set_solver].
      rewrite not_elem_of_singleton. split.
      * intros [Hne Hfl]. split; [done|]. intros ->. apply Hne.
        destruct (wi_registered _ Hw _ _ Hfl) as (_ & _ & t1 & Ht1).
        destruct (wi_registered _ Hw _ _ Hfl0) as (_ & _ & t2 & Ht2).
        assert (t1 = t2) as -> by by eapply (wi_unique _ Hw). congruence.
      * intros [Hfl Hne]. split; [|done]. intros <-. congruence.
    + intros fl. destruct (flights (w_cache w) !! k); set_solver.
    + intros fl. destruct (flights (w_cache w) !! k) eqn:Hfl; [|set_solver].
      intros ->%elem_of_singleton. by exists k.
  - destruct (resetLocked_spec (w_cache w) Hi) as (c' & Hrs & Hi' & Hc' & Hf' & Hg & _).
    rewrite Hr in Hrs. simplify_eq. apply inv_invalidate; rewrite ?Ht; try done.
    + rewrite Hc', Hg. eapply cap_ok_subseteq; [apply map_empty_subseteq|done].
    + intros k fl. rewrite Hf', lookup_empty. split; [done|]. intros [Hfl Hn]. exfalso. apply Hn.
      apply elem_of_list_to_set, list_elem_of_fmap. exists (k, fl). split; [done|].
      by apply elem_of_map_to_list.
    + intros fl. apply elem_of_list_to_set.
    + intros fl ([k fl'] & -> & Hin%elem_of_map_to_list)%elem_of_list_to_set%list_elem_of_fmap.
      by exists k.
  - destruct (PurgeExpired_spec clock (w_cache w) Hclk Hi) as (n' & c' & Hpe & Hi' & Hc' & _ & Hf' & Hg).
    rewrite Hr in Hpe. simplify_eq. apply inv_goto; rewrite ?Ht; try done.
    rewrite Hc', Hg. eapply cap_ok_subseteq; [apply map_filter_subseteq|done].
Qed.

Lemma initial_inv cf tf ctxs : world_inv (initial cf tf ctxs).
Proof.
  assert (Hs : (1 ≤ size (cfg (New (E := E) cf tf)))%Z) by apply (inv_size _ (New_inv cf tf)).
  constructor; simpl; try done.
  - apply New_inv.
  - assert (Hc : contents (New (E := E) cf tf) = ∅) by apply omap_empty.
    rewrite Hc. split; [|left]; [|rewrite map_size_empty; simpl in *; lia].
    unfold kcount. rewrite map_filter_empty, map_size_empty. simpl in *; lia.
  - intros fl Hfl. lia.
  - intros t fl Hin. by apply not_elem_of_nil in Hin.
  - set_solver.
Qed.

Lemma reachable_inv cf tf w :
  (∀ i, (0 ≤ clock i)%Z) → reachable cf tf w → world_inv w.
Proof.
  intros Hclk [ctxs Hr]. pose proof (initial_inv cf tf ctxs) as Hi. revert Hi.
  induction Hr as [|w1 w2 w3 Hs _ IH]; [done|]. intros Hi. apply IH. by eapply step_inv.
Qed.
End Lookup.
