(* ===== verification/SFProps.v ===== *)
(** * [pkg/sfcache]: the properties of the cache

    What the development shows of the package as a whole, from the lemmas of
    SFQueue, SFEvict, SFCache and SFLookup, each with a concrete run at which
    its hypotheses hold. *)

From stdpp Require Import gmap list relations functions.
From S2P Require Import Prelude SFQueue SFEvict SFCache SFLookup.

Section Properties.
Context {K V E : Type} `{Countable K} `{Inhabited V} {CE : Type}.
Abbreviation cache := (cache K V E).
Abbreviation world := (@world K V E _ _ CE).
Context (selfEqual : K → bool) (errorsIs : E → CE → bool) (lookupFn : K → V → option E → Prop).
Context (clock : nat → Z).

Abbreviation reach := (reachable selfEqual errorsIs lookupFn clock).

(** C1. In every reachable world, whatever the interleaving of the callers,
    no critical section panics: the map and the three queues agree, every
    index is in range, every pointer live, and eviction terminates. *)
Theorem critical_sections_never_panic cf tf (w : world) t :
  (∀ i, (0 ≤ clock i)%Z) → reach cf tf w →
  match w_pc w t with
  | AtLookup k => is_Some (fresh clock k (w_cache w))
  | AtLock k waited ctxErr => is_Some (lookupIteration clock k waited ctxErr (w_next w) (w_cache w))
  | AtPublish k fl val err stale ci d => is_Some (publish clock k fl val err stale ci d (w_cache w))
  | AtAbort k fl => is_Some (abortFlight k fl (w_cache w))
  | AtRemove k => is_Some (removeLocked k (w_cache w))
  | AtReset => is_Some (resetLocked (w_cache w))
  | AtPurge => is_Some (PurgeExpired clock (w_cache w))
  | _ => True
  end.
Proof.
  intros Hclk Hr. pose proof (wi_cache _ (reachable_inv _ _ _ _ _ _ _ Hclk Hr)) as Hi.
  destruct (w_pc w t) as [|k|k wt|k wt ce|k fl|k fl st|k fl val err st ci d|k fl|fls e|k| | |e]; try done.
  - destruct (fresh_spec clock (w_cache w) k Hclk Hi) as (? & ? & -> & _). by eexists.
  - destruct (lookupIteration_spec clock (w_cache w) k wt ce (w_next w) Hclk Hi) as (? & ? & -> & _).
    by eexists.
  - destruct (publish_published clock Hclk (w_cache w) k fl val err st ci d Hi) as (? & ? & -> & _).
    by eexists.
  - destruct (abortFlight_spec (w_cache w) k fl Hi) as (? & -> & _). by eexists.
  - destruct (removeLocked_spec (w_cache w) k Hi) as (? & -> & _). by eexists.
  - destruct (PurgeExpired_spec clock (w_cache w) Hclk Hi) as (? & ? & -> & _). by eexists.
Qed.

(** C2. Single flight: two callers run the external lookup for the same key
    at the same time only if [Remove] or [Reset] invalidated the flight of
    one of them. *)
Theorem single_flight cf tf (w : world) t t' k fl fl' stale stale' :
  (∀ i, (0 ≤ clock i)%Z) → reach cf tf w →
  w_pc w t = AtFetch k fl stale → w_pc w t' = AtFetch k fl' stale' → t ≠ t' →
  fl ∈ w_invalid w ∨ fl' ∈ w_invalid w.
Proof.
  intros Hclk Hr Ht Ht' Hne. pose proof (reachable_inv _ _ _ _ _ _ _ Hclk Hr) as Hw.
  destruct (wi_producing _ Hw t k fl) as [_ [Hf|?]]; [by rewrite Ht| |by left].
  destruct (wi_producing _ Hw t' k fl') as [_ [Hf'|?]]; [by rewrite Ht'| |by right].
  exfalso. apply Hne. apply (wi_unique _ Hw t t' k k fl); [by rewrite Ht|rewrite Ht'; simpl; congruence].
Qed.

(** C3. No lost waiter: a caller parked on a flight can go on, or another
    caller will finish that flight, and that one is running the external
    lookup or able to take a step. *)
Theorem waiter_is_released cf tf (w : world) t k fl :
  (∀ i, (0 ≤ clock i)%Z) → reach cf tf w → w_pc w t = AtAwait k fl →
  (∃ w', step selfEqual errorsIs lookupFn clock w w' ∧ w_pc w' t = AtSlow k true) ∨
  ∃ t', t' ≠ t ∧ responsible (w_pc w t') fl ∧
    ((∃ k' stale, w_pc w t' = AtFetch k' fl stale) ∨
     ∃ w', step selfEqual errorsIs lookupFn clock w w' ∧ w_pc w' t' ≠ w_pc w t').
Proof.
  intros Hclk Hr Ht. pose proof (reachable_inv _ _ _ _ _ _ _ Hclk Hr) as Hw.
  pose proof (wi_cache _ Hw) as Hi.
  destruct (wi_alive _ Hw fl) as [Hfin|[t' Hres]].
  { apply (wi_awaiting _ Hw t). by rewrite Ht. }
  { left. eexists. split; [by eapply step_await_done|]. simpl. by rewrite pc_lookup, decide_True. }
  right. exists t'. split; [|split; [done|]].
  { intros ->. rewrite Ht in Hres. by destruct Hres as [?|?%not_elem_of_nil]. }
  destruct (w_pc w t') as [|k'|k' wt|k' wt ce|k' fl'|k' fl' st|k' fl' val err st ci d|k' fl'|fls e|k'| | |e] eqn:Hp;
    destruct Hres as [Hres|Hres]; simplify_eq/=; try (by apply not_elem_of_nil in Hres).
  - left. by exists k', st.
  - right. destruct (publish_published clock Hclk (w_cache w) k' fl val err st ci d Hi) as (r & c & Hpu & _).
    eexists. split; [by eapply step_publish|]. simpl. by rewrite pc_lookup, decide_True.
  - right. destruct (abortFlight_spec (w_cache w) k' fl Hi) as (c & Hab & _).
    eexists. split; [by eapply step_abort|]. simpl. by rewrite pc_lookup, decide_True.
  - right. destruct fls as [|fl0 fls]; [by apply not_elem_of_nil in Hres|].
    eexists. split; [by eapply step_finish|]. simpl. rewrite pc_lookup, decide_True by done.
    intros [= Heq]. apply (f_equal length) in Heq. simpl in Heq. lia.
Qed.

(** C4. Capacity: the values held never exceed [Size]; counting a revived
    stale value and the residue of a failed lookup, the entries exceed it
    by at most two, and [Len] by that and the lookups in flight. *)
Theorem capacity_bound cf tf (w : world) :
  (∀ i, (0 ≤ clock i)%Z) → reach cf tf w →
  (Z.of_nat (kcount KValue (contents (w_cache w))) ≤ size (cfg (w_cache w)))%Z ∧
  (Z.of_nat (Len (w_cache w)) ≤
     size (cfg (w_cache w)) + 2 + Z.of_nat (base.size (flights (w_cache w))))%Z.
Proof.
  intros Hclk Hr. pose proof (reachable_inv _ _ _ _ _ _ _ Hclk Hr) as Hw.
  destruct (wi_cap _ Hw) as [Hv Ht]. split; [done|].
  unfold Len. rewrite <- (contents_size _ (wi_cache _ Hw)).
  pose proof (kcount_total (contents (w_cache w))). lia.
Qed.

(** What a caller is served without waiting is a fresh value: a
    successful outcome whose deadline lies ahead of the clock, never an
    error and never a value past its deadline. *)
Theorem hit_is_fresh cf tf (w : world) k val err c :
  (∀ i, (0 ≤ clock i)%Z) → reach cf tf w →
  fresh clock k (w_cache w) = Some (Some (val, err), c) →
  err = None ∧ ∃ e, contents (w_cache w) !! k = Some e ∧ e_val e = val ∧ e_err e = None ∧
    (clock (tick (w_cache w)) < e_expireAt e)%Z.
Proof.
  intros Hclk Hr Hf. pose proof (wi_cache _ (reachable_inv _ _ _ _ _ _ _ Hclk Hr)) as Hi.
  destruct (fresh_spec clock (w_cache w) k Hclk Hi) as (r & c' & Hf' & _ & Hfr).
  rewrite Hf in Hf'. simplify_eq. destruct Hfr as (e & Hc & Heq & He & Hlt).
  simplify_eq. split; [done|]. by exists e.
Qed.

(** C6. [publish] implements its contract: an invalidated flight stores
    nothing; a value is stored with its deadline, over at most [Size]
    entries; a failure revives the stale value while its window is open;
    a context-induced failure stores nothing; any other failure leaves
    expired residue, evicting only worthless entries. *)
Theorem publish_correct (c : cache) k fl val err stale ctxInduced d :
  (∀ i, (0 ≤ clock i)%Z) → cache_inv c →
  ∃ r c', publish clock k fl val err stale ctxInduced d c = Some (r, c') ∧ cache_inv c' ∧
    published clock c k fl val err stale ctxInduced d c' r.
Proof.
  intros Hclk Hi.
  destruct (publish_published clock Hclk c k fl val err stale ctxInduced d Hi)
    as (r & c' & ? & ? & _ & _ & ?). by exists r, c'.
Qed.

(** A stale window is anchored once: when the refresh of an already
    revived value fails, the deadline stored again is the one the first
    failure set, and past that deadline the value is not served. *)
Theorem stale_window_is_anchored (c : cache) k fl e val er ctxInduced d :
  (∀ i, (0 ≤ clock i)%Z) → cache_inv c → flights c !! k = None →
  contents c !! k = Some e → kind_of e = KStale →
  (0 < maxStale (cfg c))%Z ∨ (0 < maxStaleOnFailure (cfg c))%Z →
  ∃ stale c1 r c2, startFlight k fl c = Some (stale, c1) ∧
    publish clock k fl val (Some er) stale ctxInduced d c1 = Some (r, c2) ∧
    ((r = (e_val e, None) ∧
      contents c2 !! k = Some (Entry None Time.zero (e_staleUntil e) (e_val e) 0)) ∨
     (r = (val, Some er) ∧ ∃ i, tick c ≤ i ∧ (e_staleUntil e ≤ clock i)%Z)).
Proof.
  intros Hclk Hi Hf He Hk Hst.
  destruct (startFlight_spec c k fl Hi Hf) as (c1 & old & Hs & Hi1 & Hold & _ & Hf1 & Hg1 & Ht1).
  rewrite He in Hold. destruct old as [old|]; [|done]. simpl in Hold.
  assert (Hoe : outcome old = e) by by apply (inj Some). clear Hold. subst e.
  assert (Hsf : staleFrom (cfg c) (Some old) = StaleState (e_staleUntil old) (e_val old) true true).
  { unfold staleFrom. change (kind_of old = KStale) in Hk. unfold kind_of, revived in Hk.
    destruct (e_err old); [done|]. destruct (negb _); [|done].
    rewrite (proj2 (andb_false_iff _ _)); [done|]. rewrite !Z.leb_gt. lia. }
  rewrite Hsf in Hs. eexists _, c1.
  destruct (publish_published clock Hclk c1 k fl val (Some er)
    (StaleState (e_staleUntil old) (e_val old) true true) ctxInduced d Hi1)
    as (r & c2 & Hp & _ & _ & _ & Hpub).
  exists r, c2. split; [done|]. split; [done|].
  inversion Hpub as [Hn|m i ? ? ?|er' m i ? ? ? ? ? Hlt ? ? ? Hc2|er' i ? ? ? Hle Hno ? ?|er' m i ? ? ? Hle Hno];
    simplify_eq; [by rewrite Hf1, lookup_insert_eq in Hn|..].
  - left. split; [done|]. by rewrite Hc2, lookup_insert_eq.
  - right. split; [done|]. exists i. split; [lia|]. by destruct Hno.
  - right. split; [done|]. exists i. split; [lia|]. by destruct Hno.
Qed.

(** [PurgeExpired] removes exactly the expired entries, error residue
    and revived values included, and returns how many it removed. *)
Theorem PurgeExpired_correct (c : cache) :
  (∀ i, (0 ≤ clock i)%Z) → cache_inv c →
  ∃ n c', PurgeExpired clock c = Some (n, c') ∧ cache_inv c' ∧
    contents c' = filter (λ ke, expired ke.2 (clock (tick c)) = false) (contents c) ∧
    n = base.size (contents c) - base.size (contents c') ∧ flights c' = flights c.
Proof.
  intros Hclk Hi. destruct (PurgeExpired_spec clock c Hclk Hi) as (n & c' & ? & ? & ? & ? & ? & _).
  by exists n, c'.
Qed.

(** C9. The eviction policy: the victim picked is worthless if anything
    held is; otherwise, as the level allows, the value that expired first,
    then the revived value whose window closes first, then the valid value
    whose deadline is earliest; nothing is picked only when the level
    allows nothing that is held. *)
Theorem eviction_follows_policy (c : cache) level t :
  cache_inv c → (0 ≤ t)%Z →
  ∃ r, pick level t (vstate c) = Some r ∧ victim_of (cfg c) (contents c) level t r.
Proof.
  intros Hi Ht. destruct (pick_correct (vstate c) level t (inv_vic _ Hi) Ht) as (r & Hp & Hr).
  exists r. split; [done|]. by apply victim_of_vic.
Qed.

(** C10. The priority queue: [push] adds one node, [remove] takes out the
    node its entry's index designates, [partition] hands exactly the
    expendable nodes to [forget] and keeps the others; each restores the
    heap order and the indexes without touching any other entry. *)
Theorem pqueue_correct (s : gmap loc (entry V E) * list (pnode K)) :
  pq_ok s →
  (∀ k l e, s.1 !! l = Some e → l ∉ items s.2 →
     ∃ s', push k l s = Some s' ∧ pq_ok s' ∧ evolves (s.1, PNode l k :: s.2) s') ∧
  (∀ idx n, s.2 !! idx = Some n →
     ∃ s', remove (n_item n) s = Some s' ∧ pq_ok s' ∧ evolves s (s'.1, n :: s'.2)) ∧
  (∀ (p : entry V E → bool) (f : K → loc → list K → list K) st,
     ∃ s', partition p f st s =
         Some (foldl (λ st n, f (n_key n) (n_item n) st) st (filter (expendable_at p s.1) s.2), s') ∧
       pq_ok s' ∧ evolves (s.1, filter (λ n, ¬ expendable_at p s.1 n) s.2) s').
Proof.
  intros Hs. split; [|split].
  - intros k l e. by apply push_spec.
  - intros idx n. by apply remove_spec.
  - intros p f st. by apply partition_spec, Hs.
Qed.
End Properties.

(** ** Concrete runs

    A cache of natural numbers, of size 2, TTL 10 and a failure window of 5,
    a clock that advances one unit per reading, and a lookup function that
    may return anything. *)

Section Runs.
Definition run_clock : nat → Z := Z.of_nat.
Definition run_cfg : Config := MkConfig 2 10 0 5.
Definition run_lookup (_ _ : nat) (_ : option nat) : Prop := True.
Definition run_start : @world nat nat nat _ _ unit := initial run_cfg None (λ _, None).

Abbreviation run_step := (step (K := nat) (V := nat) (E := nat) (CE := unit)
  (λ _, true) (λ _ _, false) run_lookup run_clock).
Abbreviation run_reach := (reachable (K := nat) (V := nat) (E := nat) (CE := unit)
  (λ _, true) (λ _ _, false) run_lookup run_clock run_cfg None).

Lemma run_clock_nonneg i : (0 ≤ run_clock i)%Z.
Proof. unfold run_clock. lia. Qed.

Lemma run_start_reach : run_reach run_start.
Proof. exists (λ _, None). apply rtc_refl. Qed.

Lemma run_reach_step w w' : run_reach w → run_step w w' → run_reach w'.
Proof. intros [ctxs Hr] Hs. exists ctxs. by eapply rtc_r. Qed.

(** A caller that finds nothing cached and no flight becomes a producer. *)
Lemma run_produce w t k c st c' :
  run_reach w → w_pc w t = Idle → w_ctx w t = None →
  fresh run_clock k (w_cache w) = Some (None, c) →
  lookupIteration run_clock k false (@None unit) (w_next w) c = Some (AtFetch k (w_next w) st, c') →
  ∃ w', run_reach w' ∧ w_cache w' = c' ∧ w_next w' = Pos.succ (w_next w) ∧
    w_invalid w' = w_invalid w ∧ w_ctx w' = w_ctx w ∧
    ∀ t', w_pc w' t' = if decide (t = t') then AtFetch k (w_next w) st else w_pc w t'.
Proof.
  intros Hr Hp Hx Hf Hl.
  eapply run_reach_step in Hr; [|apply (step_call _ _ _ _ w t (AtLookup k)); [eauto|done]].
  eapply run_reach_step in Hr; [|eapply (step_miss _ _ _ _ _ t k c); [|done|exact Hf]].
  2:{ simpl. by rewrite pc_lookup, decide_True. }
  eapply run_reach_step in Hr; [|eapply (step_read_ctx _ _ _ _ _ t k false)].
  2:{ simpl. by rewrite pc_lookup, decide_True. }
  eapply run_reach_step in Hr; [|eapply (step_iteration _ _ _ _ _ t k false None); [|exact Hl]].
  2:{ simpl. by rewrite pc_lookup, decide_True, Hx. }
  eexists. split; [exact Hr|]. simpl. split_and!; try done.
  intros t'. rewrite !pc_lookup. by destruct (decide (t = t')).
Qed.

Lemma run_one_producer : ∃ w, run_reach w ∧ w_pc w 0 = AtFetch 7 1%positive staleNone ∧
  w_pc w 1 = Idle ∧ w_pc w 2 = Idle ∧ w_next w = 2%positive ∧ w_ctx w = (λ _, None) ∧
  w_cache w = set_flights {[7 := 1%positive]} (New run_cfg None).
Proof.
  destruct (run_produce run_start 0 7 (New run_cfg None) staleNone
    (set_flights {[7 := 1%positive]} (New run_cfg None)) run_start_reach)
    as (w & Hr & Hc & Hn & Hi & Hx & Hp); try reflexivity.
  exists w. rewrite !Hp, Hn, Hx, Hc. by split_and!.
Qed.

(** A second caller of the same key, while the first looks it up. *)
Lemma run_waiter : ∃ w, run_reach w ∧ w_pc w 1 = AtAwait 7 1%positive.
Proof.
  destruct run_one_producer as (w & Hr & _ & Hp & _ & Hn & Hx & Hc).
  eapply run_reach_step in Hr; [|apply (step_call _ _ _ _ w 1 (AtLookup 7)); [eauto|done]].
  eapply run_reach_step in Hr; [|eapply (step_miss _ _ _ _ _ 1 7); [|done|]].
  2:{ simpl. by rewrite pc_lookup, decide_True. }
  2:{ simpl. rewrite Hc. reflexivity. }
  eapply run_reach_step in Hr; [|eapply (step_read_ctx _ _ _ _ _ 1 7 false)].
  2:{ simpl. by rewrite pc_lookup, decide_True. }
  eapply run_reach_step in Hr; [|eapply (step_iteration _ _ _ _ _ 1 7 false None)].
  2:{ simpl. by rewrite pc_lookup, decide_True, Hx. }
  2:{ reflexivity. }
  eexists. split; [exact Hr|]. simpl. by rewrite pc_lookup, decide_True.
Qed.

(** [Remove] while a lookup runs, then a second lookup of the key. *)
Lemma run_two_producers : ∃ w st, run_reach w ∧
  w_pc w 0 = AtFetch 7 1%positive st ∧ w_pc w 1 = AtFetch 7 2%positive st.
Proof.
  destruct run_one_producer as (w & Hr & Hp0 & Hp1 & Hp2 & Hn & Hx & Hc).
  eapply run_reach_step in Hr; [|apply (step_call _ _ _ _ w 2 (AtRemove 7)); [eauto|done]].
  eapply run_reach_step in Hr; [|eapply (step_remove _ _ _ _ _ 2 7)].
  2:{ simpl. by rewrite pc_lookup, decide_True. }
  2:{ simpl. rewrite Hc. reflexivity. }
  eapply (run_produce _ 1 7) in Hr as (w' & Hr & _ & _ & _ & _ & Hp).
  3:{ simpl. by rewrite Hx. }
  3:{ reflexivity. }
  3:{ simpl. rewrite Hn. reflexivity. }
  2:{ simpl. by rewrite !pc_lookup. }
  exists w', staleNone. split; [done|]. rewrite !Hp. simpl. by rewrite !pc_lookup, Hn.
Qed.

(** The value 70 stored under the key 7 when the clock reads 0. *)
Definition run_stored : cache nat nat nat :=
  match set run_clock 7 70 None 10 (New run_cfg None) with
  | Some (_, c) => c
  | None => New run_cfg None
  end.

Lemma run_stored_inv : cache_inv run_stored.
Proof.
  assert (Hi : cache_inv (set_flights {[7 := 1%positive]} (New (V := nat) (E := nat) run_cfg None))).
  { destruct run_one_producer as (w & Hr & _ & _ & _ & _ & _ & <-).
    apply (wi_cache _ (reachable_inv _ _ _ _ _ _ _ run_clock_nonneg Hr)). }
  destruct (publish_published run_clock run_clock_nonneg _ 7 1%positive 70 None staleNone false 10 Hi)
    as (r & c & Hp & Hi' & _).
  replace run_stored with c; [done|]. vm_compute in Hp. injection Hp as _ Hp.
  rewrite <- Hp. vm_compute. reflexivity.
Qed.

(** The refresh of that value fails: it is revived until 6. *)
Definition run_revived : cache nat nat nat :=
  match startFlight 7 2%positive run_stored with
  | Some (stale, c) =>
      match publish run_clock 7 2%positive 0 (Some 404) stale false 0 c with
      | Some (_, c) => c
      | None => c
      end
  | None => run_stored
  end.

Lemma run_revived_inv : cache_inv run_revived.
Proof.
  destruct (startFlight_spec run_stored 7 2%positive run_stored_inv)
    as (c1 & old & Hs & Hi1 & _); [reflexivity|].
  unfold run_revived. rewrite Hs.
  destruct (publish_published run_clock run_clock_nonneg c1 7 2%positive 0 (Some 404)
    (staleFrom (cfg run_stored) old) false 0 Hi1) as (r & c & Hp & Hi & _).
  by rewrite Hp.
Qed.

Lemma critical_sections_never_panic_witness : is_Some (fresh run_clock 7 (w_cache run_start)).
Proof.
  pose proof (critical_sections_never_panic (λ _, true) (λ _ _, false) run_lookup run_clock
    run_cfg None (goto run_start 0 (AtLookup 7) (w_cache run_start)) 0 run_clock_nonneg) as Hp.
  apply Hp. eapply run_reach_step; [apply run_start_reach|]. by apply step_call; eauto.
Defined.

Lemma single_flight_witness : ∃ w : @world nat nat nat _ _ unit,
  1%positive ∈ w_invalid w ∨ 2%positive ∈ w_invalid w.
Proof.
  destruct run_two_producers as (w & st & Hr & Hp0 & Hp1). exists w.
  apply (single_flight (λ _, true) (λ _ _, false) run_lookup run_clock
    run_cfg None w 0 1 7 1%positive 2%positive st st run_clock_nonneg Hr Hp0 Hp1). lia.
Defined.

Lemma waiter_is_released_witness : ∃ w, run_reach w ∧ w_pc w 1 = AtAwait 7 1%positive ∧
  ((∃ w', run_step w w' ∧ w_pc w' 1 = AtSlow 7 true) ∨
   ∃ t', t' ≠ 1 ∧ responsible (w_pc w t') 1%positive ∧
     ((∃ k' stale, w_pc w t' = AtFetch k' 1%positive stale) ∨
      ∃ w', run_step w w' ∧ w_pc w' t' ≠ w_pc w t')).
Proof.
  destruct run_waiter as (w & Hr & Hp). exists w. split; [exact Hr|]. split; [exact Hp|].
  exact (waiter_is_released (λ _, true) (λ _ _, false) run_lookup run_clock
    run_cfg None w 1 7 1%positive run_clock_nonneg Hr Hp).
Defined.

Lemma capacity_bound_witness : ∃ w, run_reach w ∧ w_pc w 1 = AtAwait 7 1%positive ∧
  (Z.of_nat (Len (w_cache w)) ≤
     size (cfg (w_cache w)) + 2 + Z.of_nat (base.size (flights (w_cache w))))%Z.
Proof.
  destruct run_waiter as (w & Hr & Hp). exists w. split; [exact Hr|]. split; [exact Hp|].
  exact (proj2 (capacity_bound (λ _, true) (λ _ _, false) run_lookup run_clock
    run_cfg None w run_clock_nonneg Hr)).
Defined.

(** The first lookup returns 70, and its value is published. *)
Lemma run_hit : ∃ w c, run_reach w ∧ fresh run_clock 7 (w_cache w) = Some (Some (70, None), c).
Proof.
  destruct run_one_producer as (w & Hr & Hp & _ & _ & _ & _ & Hc).
  eapply run_reach_step in Hr; [|eapply (step_fetched_value _ _ _ _ w 0 7 _ _ 70 10 Hp); [done|]].
  2:{ by rewrite Hc. }
  eapply run_reach_step in Hr; [|eapply step_publish].
  2:{ simpl. by rewrite pc_lookup, decide_True. }
  2:{ simpl. rewrite Hc. reflexivity. }
  eexists _, _. split; [exact Hr|]. reflexivity.
Qed.

Lemma hit_is_fresh_witness : ∃ (w : @world nat nat nat _ _ unit) c,
  fresh run_clock 7 (w_cache w) = Some (Some (70, None), c) ∧
  ∃ e : entry nat nat, contents (w_cache w) !! 7 = Some e ∧ e_val e = 70 ∧ e_err e = None ∧
    (run_clock (tick (w_cache w)) < e_expireAt e)%Z.
Proof.
  destruct run_hit as (w & c & Hr & Hf). exists w, c. split; [exact Hf|].
  exact (proj2 (hit_is_fresh (λ _, true) (λ _ _, false) run_lookup run_clock
    run_cfg None w 7 70 None c run_clock_nonneg Hr Hf)).
Defined.

Lemma publish_correct_witness : ∃ r c',
  publish run_clock 7 2%positive 0 (Some 404) staleNone false 0 run_stored = Some (r, c') ∧
  published run_clock run_stored 7 2%positive 0 (Some 404) staleNone false 0 c' r.
Proof.
  destruct (publish_correct run_clock run_stored 7 2%positive 0 (Some 404) staleNone false 0
    run_clock_nonneg run_stored_inv) as (r & c' & Hp & _ & Hs).
  exists r, c'. split; [exact Hp|exact Hs].
Defined.

Lemma stale_window_is_anchored_witness : ∃ stale c1 r c2,
  startFlight 7 3%positive run_revived = Some (stale, c1) ∧
  publish run_clock 7 3%positive 0 (Some 405) stale false 0 c1 = Some (r, c2) ∧
  ((r = (70, None) ∧ contents c2 !! 7 = Some (Entry None 0 6 70 0)) ∨
   (r = (0, Some 405) ∧ ∃ i, tick run_revived ≤ i ∧ (6 ≤ run_clock i)%Z)).
Proof.
  destruct (stale_window_is_anchored run_clock run_revived 7 3%positive
    (Entry None 0 6 70 0) 0 405 false 0 run_clock_nonneg run_revived_inv)
    as (stale & c1 & r & c2 & Hs & Hp & Hor); [reflexivity|reflexivity|reflexivity|right; reflexivity|].
  exists stale, c1, r, c2. split; [exact Hs|]. split; [exact Hp|exact Hor].
Defined.

Lemma PurgeExpired_correct_witness : ∃ n c',
  PurgeExpired run_clock run_revived = Some (n, c') ∧
  n = base.size (contents run_revived) - base.size (contents c').
Proof.
  destruct (PurgeExpired_correct run_clock run_revived run_clock_nonneg run_revived_inv)
    as (n & c' & Hp & _ & _ & Hn & _).
  exists n, c'. split; [exact Hp|exact Hn].
Defined.

Lemma eviction_follows_policy_witness : ∃ r,
  pick evictStale 1 (vstate run_revived) = Some r ∧
  victim_of (cfg run_revived) (contents run_revived) evictStale 1 r.
Proof.
  apply (eviction_follows_policy run_revived evictStale 1 run_revived_inv). lia.
Defined.

Lemma pqueue_correct_witness : ∃ s',
  push 7 5%positive ({[5%positive := Entry (V := nat) (E := nat) None 3 0 0 0]}, []) = Some s' ∧ pq_ok s'.
Proof.
  destruct (pqueue_correct (K := nat) (V := nat) (E := nat)
    ({[5%positive := Entry None 3 0 0 0]}, []) (pq_ok_nil _)) as (Hpush & _).
  destruct (Hpush 7 5%positive (Entry None 3 0 0 0)) as (s' & Hs & Hok & _);
    [reflexivity|apply not_elem_of_nil|].
  exists s'. split; [exact Hs|exact Hok].
Defined.
End Runs.
