(* ===== verification/SFSource.v ===== *)
(** * [pkg/sfcache]: where the answers come from

    Whatever [Lookup] answers for a key, the lookup function answered for that
    key: an invariant of the worlds of SFLookup, for the packages that build
    on the cache. *)

From stdpp Require Import gmap list relations functions.
From S2P Require Import Prelude SFQueue SFEvict SFCache SFLookup.

Section Source.
Context {K V E : Type} `{Countable K} `{Inhabited V} {CE : Type}.
Abbreviation cache := (cache K V E).
Abbreviation world := (@world K V E _ _ CE).
Context (selfEqual : K → bool) (errorsIs : E → CE → bool) (lookupFn : K → V → option E → Prop).
Context (clock : nat → Z).

Abbreviation reach := (reachable selfEqual errorsIs lookupFn clock).
Abbreviation step := (step selfEqual errorsIs lookupFn clock).

(** The outcomes cached under a key were answers for it. *)
Definition sourced (c : cache) : Prop :=
  ∀ k e, contents c !! k = Some e → lookupFn k (e_val e) (e_err e).

(** What a thread carries of a flight was answered for its key. *)
Definition carries (p : @pc K V E CE) : Prop :=
  match p with
  | AtFetch k _ st => st_ok st = true → lookupFn k (st_val st) None
  | AtPublish k _ val err st _ _ => lookupFn k val err ∧ (st_ok st = true → lookupFn k (st_val st) None)
  | _ => True
  end.

(** The key a thread in [Lookup] asks for, and what it ends with. *)
Definition asks (p : @pc K V E CE) : option K :=
  match p with
  | AtLookup k | AtSlow k _ | AtLock k _ _ | AtAwait k _ | AtFetch k _ _ | AtPublish k _ _ _ _ _ _ | AtAbort k _ => Some k
  | _ => None
  end.

Definition ends (p : @pc K V E CE) : option (ending (V := V) (E := E) (CE := CE)) :=
  match p with Ended e | AtFinish _ e => e | _ => None end.

Record sources (w : world) : Prop := {
  so_cache : sourced (w_cache w);
  so_carries : ∀ t, carries (w_pc w t)
}.

Lemma staleFrom_sourced (s : settings K V) (old : option (entry V E)) k :
  (∀ e, old = Some e → lookupFn k (e_val e) (e_err e)) → st_ok (staleFrom s old) = true → lookupFn k (st_val (staleFrom s old)) None.
Proof.
  intros Hold. unfold staleFrom. destruct (_ && _); [done|]. destruct old as [e|]; [|done]. specialize (Hold e eq_refl).
  destruct (e_err e); [done|]. by destruct (negb _).
Qed.

Lemma sourced_subset (c c' : cache) : sourced c → contents c' ⊆ contents c → sourced c'.
Proof. intros Hs Hsub k e He. apply Hs. by eapply lookup_weaken. Qed.

Lemma sourced_insert c c' k (e : entry V E) m : sourced c → m ⊆ contents c → lookupFn k (e_val e) (e_err e) →
  contents c' = <[k := e]> m → sourced c'.
Proof.
  intros Hs Hm He Hc' k' e'. rewrite Hc', lookup_insert_Some. intros [[<- <-]|[_ Hin]]; [done|]. apply Hs. by eapply lookup_weaken.
Qed.

(** Publishing keeps the invariant, and answers with an answer. *)
Lemma published_sourced c k fl val err st ci d c' r :
  sourced c → lookupFn k val err → (st_ok st = true → lookupFn k (st_val st) None) →
  published clock c k fl val err st ci d c' r → sourced c' ∧ lookupFn k r.1 r.2.
Proof.
  intros Hs Hv Hst Hp.
  destruct Hp as [_ ->|m i _ _ -> _ Hev _ _ Hc'|er m i _ _ _ _ Hok _ Hev _ _ Hc'|er i _ _ _ _ _ _ Hc'|er m i _ _ -> _ _ _ Hev _ _ Hc'].
  - done.
  - split; [|done]. eapply sourced_insert; [exact Hs|by eapply evicts_subseteq| |exact Hc']; exact Hv.
  - specialize (Hst Hok). split; [|done]. eapply sourced_insert; [exact Hs|by eapply evicts_subseteq| |exact Hc']; exact Hst.
  - split; [|done]. eapply sourced_subset; [exact Hs|by rewrite Hc'].
  - split; [|done]. eapply sourced_insert; [exact Hs|by eapply evicts_subseteq| |exact Hc']; exact Hv.
Qed.

(** A thread moves on in a world whose cache is still sourced. *)
Lemma sources_goto (w : world) t p c fin next inv ctx : sources w → sourced c → carries p →
  sources (World c fin next inv (<[t := p]> (w_pc w)) ctx).
Proof.
  intros [_ Hw] Hc Hp. split; [done|]. intros t'. cbn. rewrite pc_lookup. by case_decide.
Qed.

Lemma sourced_tick (c c' : cache) : tick_only c c' → sourced c → sourced c'.
Proof. by intros ->. Qed.

(** The invariant of the steps, and what they end a lookup with. *)
Lemma step_sources w w' : (∀ i, (0 ≤ clock i)%Z) → world_inv w → sources w → step w w' →
  sources w' ∧ ∀ t k val err, asks (w_pc w t) = Some k → ends (w_pc w' t) = Some (Returned val err) → lookupFn k val err.
Proof.
  intros Hclk Hw Hso Hs. pose proof (wi_cache _ Hw) as Hi. pose proof (so_cache _ Hso) as Hc. pose proof (so_carries _ Hso) as Hcar.
  (* A step of [t0] that goes to [p] and leaves the other threads alone. *)
  assert (Hmove : ∀ t0 p c fin next inv ctx, sourced c → carries p →
    (∀ k val err, asks (w_pc w t0) = Some k → ends p = Some (Returned val err) → lookupFn k val err) →
    sources (World c fin next inv (<[t0 := p]> (w_pc w)) ctx) ∧
    ∀ t k val err, asks (w_pc w t) = Some k → ends ((<[t0 := p]> (w_pc w) : nat → pc) t) = Some (Returned val err) → lookupFn k val err).
  { intros t0 p c fin nxt inv ctx Hc' Hp Hans. split; [by apply sources_goto|]. intros t k val err Ha He. rewrite pc_lookup in He.
    case_decide; subst; [by eapply Hans|]. exfalso. destruct (w_pc w t); simplify_eq/=. }
  destruct Hs as
    [w t p Hp Ht|w t e Ht|w t ce Ht|w t k Ht _|w t k val err c Ht _ Hf|w t k c Ht _ Hf
    |w t k wt Ht|w t k wt ce p c Ht Hit|w t k fl ce Ht _|w t k fl Ht _
    |w t k fl st val d Ht Hl _|w t k fl st val err Ht Hl|w t k fl st Ht
    |w t k fl val err st ci d r c Ht Hpub|w t k fl c Ht Hab|w t fl fls e Ht|w t e Ht
    |w t k r c Ht Hr|w t m c Ht Hr|w t n c Ht Hr]; unfold goto; cbn [w_pc].
  - apply Hmove; [done|destruct Hp as [[k [-> | ->]]|[-> | ->]]; done|by rewrite Ht].
  - apply Hmove; [done|done|by rewrite Ht].
  - split; [by split|]. cbn [w_pc]. intros t' k val err Ha He. destruct (w_pc w t'); simplify_eq/=.
  - apply Hmove; [done|done|by intros].
  - destruct (fresh_spec clock (w_cache w) k Hclk Hi) as (r & c' & Hf' & Htk & Hr). rewrite Hf in Hf'. simplify_eq.
    destruct Hr as (e & He & ? & Her & _). simplify_eq. apply Hmove; [by eapply sourced_tick|done|].
    rewrite Ht. intros k' val err [= <-] [= <- <-]. specialize (Hc _ _ He). by rewrite Her in Hc.
  - destruct (fresh_spec clock (w_cache w) k Hclk Hi) as (r & c' & Hf' & Htk & Hr). rewrite Hf in Hf'. simplify_eq.
    apply Hmove; [by eapply sourced_tick|done|by intros].
  - apply Hmove; [done|done|by intros].
  - destruct (lookupIteration_spec clock (w_cache w) k wt ce (w_next w) Hclk Hi) as (p' & c' & Hl & Hit').
    rewrite Hit in Hl. simplify_eq.
    destruct Hit' as [val err Htk Hr|fl' Htk Hfl|ce' Htk _ _|old Hfl _ Hi' Hg Hold Hc' Hf'].
    + apply Hmove; [by eapply sourced_tick|done|]. rewrite Ht. intros k' v' e' [= <-] [= <- <-].
      destruct wt; [destruct Hr as (e & He & [= -> ->]); by apply Hc|].
      destruct Hr as (e & He & [= -> ->] & Her & _). specialize (Hc _ _ He). by rewrite Her in Hc.
    + apply Hmove; [by eapply sourced_tick|done|by intros].
    + apply Hmove; [by eapply sourced_tick|done|by intros].
    + apply Hmove; [|cbn|by intros].
      * eapply sourced_subset; [exact Hc|]. rewrite Hc'. apply delete_subseteq.
      * apply staleFrom_sourced. intros e ->. cbn in Hold. exact (Hc k _ (eq_sym Hold)).
  - apply Hmove; [done|done|by intros].
  - apply Hmove; [done|done|by intros].
  - specialize (Hcar t). rewrite Ht in Hcar. apply Hmove; [done|by split|by intros].
  - specialize (Hcar t). rewrite Ht in Hcar. apply Hmove; [done|by split|by intros].
  - apply Hmove; [done|done|by intros].
  - destruct (publish_published clock Hclk (w_cache w) k fl val err st ci d Hi) as (r' & c' & Hp & Hi' & _ & _ & Hpd).
    rewrite Hpub in Hp. simplify_eq. specialize (Hcar t). rewrite Ht in Hcar. destruct Hcar as [Hv Hst].
    destruct (published_sourced _ _ _ _ _ _ _ _ _ _ Hc Hv Hst Hpd) as [Hs' Hr].
    apply Hmove; [done|done|]. rewrite Ht. intros k' v' e' [= <-] [= <- <-]. exact Hr.
  - destruct (abortFlight_spec (w_cache w) k fl Hi) as (c' & Ha & _ & Hcc & _). rewrite Hab in Ha. simplify_eq.
    apply Hmove; [|done|by intros]. eapply sourced_subset; [exact Hc|by rewrite Hcc].
  - apply Hmove; [done|done|by rewrite Ht].
  - apply Hmove; [done|done|by rewrite Ht].
  - destruct (removeLocked_spec (w_cache w) k Hi) as (c' & Hrm & _ & Hcc & _). rewrite Hr in Hrm. simplify_eq.
    apply Hmove; [|done|by rewrite Ht]. eapply sourced_subset; [exact Hc|]. rewrite Hcc. apply delete_subseteq.
  - destruct (resetLocked_spec (w_cache w) Hi) as (c' & Hrs & _ & Hcc & _). rewrite Hr in Hrs. simplify_eq.
    apply Hmove; [|done|by rewrite Ht]. eapply sourced_subset; [exact Hc|]. rewrite Hcc. apply map_empty_subseteq.
  - destruct (PurgeExpired_spec clock (w_cache w) Hclk Hi) as (n' & c' & Hpe & _ & Hcc & _). rewrite Hr in Hpe. simplify_eq.
    apply Hmove; [|done|by rewrite Ht]. eapply sourced_subset; [exact Hc|]. rewrite Hcc. apply map_filter_subseteq.
Qed.

Lemma reachable_sources cf tf w : (∀ i, (0 ≤ clock i)%Z) → reach cf tf w → sources w.
Proof.
  intros Hclk [ctxs Hr]. assert (Hi : world_inv (initial (E := E) cf tf ctxs)) by apply initial_inv.
  assert (Hso : sources (initial (E := E) cf tf ctxs)).
  { split; [|done]. intros k e He. assert (Hc : contents (w_cache (initial (CE := CE) cf tf ctxs)) = (∅ : gmap K (entry V E))) by apply omap_empty.
    rewrite Hc in He. by apply lookup_empty_Some in He. }
  revert Hi Hso. induction Hr as [|w1 w2 w3 Hs _ IH]; [done|]. intros Hi Hso.
  apply IH; [by eapply step_inv|by eapply step_sources].
Qed.

(** Every answer of a lookup of a key was an answer of the lookup function
    for that key. *)
Lemma answers_are_sourced cf tf w w' t k val err : (∀ i, (0 ≤ clock i)%Z) → reach cf tf w → step w w' →
  asks (w_pc w t) = Some k → ends (w_pc w' t) = Some (Returned val err) → lookupFn k val err.
Proof.
  intros Hclk Hr Hs. eapply step_sources; [done|by eapply reachable_inv|by eapply reachable_sources|done].
Qed.
End Source.
