(* ===== verification/Binary64.v ===== *)
(** * Binary64 rounding

    The binary64 floats of the language as the Standard Library specifies
    them, the conversion of 64-bit integers to them (round to nearest, ties to
    even) and the value of a float as an integer multiple of 2^-1074. Shared by
    the components that compute with float64. *)

From stdpp Require Import base option.
From Stdlib Require Import Floats Uint63.
From S2P Require Import Prelude.

#[local] Open Scope Z_scope.

(** ** Rounding of integers *)

Definition mant (r : shr_record) : Z := shr_m r.

Lemma shr_1_spec r : 0 <= shr_m r → shr_m (shr_1 r) = shr_m r / 2 ∧ shr_r (shr_1 r) = Z.odd (shr_m r).
Proof.
  destruct r as [m rb sb]; simpl. intros Hm.
  destruct m as [|[p|p|]|p]; simpl; try lia; split; try done.
  - rewrite (Pos2Z.inj_xI p), Z.add_comm, Z.mul_comm, Z.div_add by lia. done.
  - rewrite (Pos2Z.inj_xO p), Z.mul_comm, Z.div_mul by lia. done.
Qed.

(** [n] shifts from an exact mantissa keep its quotient, and the rounding
    bit says that the remainder is at least one half. *)
Lemma shr_iter_spec p : ∀ r (z k : Z), 0 <= k → 0 <= z →
  shr_m r = z / 2 ^ k → (shr_r r = true → 2 ^ k <= 2 * (z mod 2 ^ k)) →
  let r' := @SpecFloat.iter_pos shr_record shr_1 p r in
  shr_m r' = z / 2 ^ (k + Zpos p) ∧ (shr_r r' = true → 2 ^ (k + Zpos p) <= 2 * (z mod 2 ^ (k + Zpos p))).
Proof.
  assert (H1 : ∀ r (z k : Z), 0 <= k → 0 <= z → shr_m r = z / 2 ^ k →
    shr_m (shr_1 r) = z / 2 ^ (k + 1) ∧ (shr_r (shr_1 r) = true → 2 ^ (k + 1) <= 2 * (z mod 2 ^ (k + 1)))).
  { intros r z k Hk Hz Hm.
    assert (0 < 2 ^ k) by (apply Z.pow_pos_nonneg; lia).
    destruct (shr_1_spec r) as [Hm' Hr']; [rewrite Hm; apply Z.div_pos; lia|].
    rewrite Hm', Hr', Hm. rewrite Z.pow_add_r, Z.pow_1_r, <- Z.div_div by lia.
    split; [done|]. intros Hodd. rewrite Z.rem_mul_r by lia.
    rewrite (Zmod_odd (z / 2 ^ k)), Hodd. pose proof (Z.mod_pos_bound z (2 ^ k)). lia. }
  induction p as [p IH|p IH|]; intros r z k Hk Hz Hm Hr; simpl.
  - destruct (H1 r z k Hk Hz Hm) as [Ha Hb].
    destruct (IH (shr_1 r) z (k + 1) ltac:(lia) Hz Ha Hb) as [Hc Hd].
    destruct (IH _ z (k + 1 + Zpos p) ltac:(lia) Hz Hc Hd) as [He Hf].
    replace (k + Zpos p~1) with (k + 1 + Zpos p + Zpos p) by lia. done.
  - destruct (IH r z k Hk Hz Hm Hr) as [Hc Hd].
    destruct (IH _ z (k + Zpos p) ltac:(lia) Hz Hc Hd) as [He Hf].
    replace (k + Zpos p~0) with (k + Zpos p + Zpos p) by lia. done.
  - by apply H1.
Qed.

Lemma digits2_pos_spec p : 2 ^ (Zpos (digits2_pos p) - 1) <= Zpos p < 2 ^ Zpos (digits2_pos p).
Proof.
  induction p as [p IH|p IH|]; simpl; [..|lia];
    rewrite Pos2Z.inj_succ, Z.pow_succ_r by lia;
    replace (Z.succ (Zpos (digits2_pos p)) - 1) with (Z.succ (Zpos (digits2_pos p) - 1)) by lia;
    rewrite Z.pow_succ_r by lia; lia.
Qed.

Lemma digits2_unique p d : 0 < d → 2 ^ (d - 1) <= Zpos p < 2 ^ d → Zpos (digits2_pos p) = d.
Proof.
  intros Hd [Hl Hu]. pose proof (digits2_pos_spec p) as [Hl' Hu'].
  assert (d - 1 < Zpos (digits2_pos p)) by (apply (Z.pow_lt_mono_r_iff 2); lia).
  assert (Zpos (digits2_pos p) - 1 < d) by (apply (Z.pow_lt_mono_r_iff 2); lia). lia.
Qed.

(** A 53-bit mantissa is rounded no further. *)
Lemma round_aux_exact m e l :
  Zpos (digits2_pos m) = 53 → -1074 <= e → e <= 971 → l = loc_Exact →
  binary_round_aux prec emax false (Zpos m) e l = S754_finite false m e.
Proof.
  intros Hd Hlo Hhi ->. unfold binary_round_aux.
  assert (Hs : ∀ l, shr_fexp prec emax (Zpos m) e l = (shr_record_of_loc (Zpos m) l, e)).
  { intros l. unfold shr_fexp, Zdigits2, fexp, emin, prec, emax. rewrite Hd.
    replace (_ - e) with 0 by lia. done. }
  rewrite Hs. cbn [shr_record_of_loc loc_of_shr_record shr_m round_nearest_even]. rewrite Hs. cbn [shr_record_of_loc shr_m]. by rewrite (proj2 (Z.leb_le _ _)) by (unfold prec, emax; lia).
Qed.

Lemma iter_xO_eq (d m : positive) : Zpos (Pos.iter xO m d) = Zpos m * 2 ^ Zpos d.
Proof.
  induction d using Pos.peano_ind; [simpl; lia|].
  rewrite Pos.iter_succ, Pos2Z.inj_xO, IHd, Pos2Z.inj_succ, Z.pow_succ_r by lia. lia.
Qed.

(** The positive integers of 64 bits: those below 2^53 are exact, the others
    become one of the two multiples of [2^q] around them, [q] being the number
    of bits dropped, the upper one only from the middle on. *)
Definition rounds_to (z r : Z) : Prop :=
  (z < 2 ^ 53 ∧ r = z) ∨
  ∃ q, 0 < q <= 11 ∧ 2 ^ (q + 52) <= z < 2 ^ (q + 53) ∧
    (r = z / 2 ^ q * 2 ^ q ∨ (r = (z / 2 ^ q + 1) * 2 ^ q ∧ 2 ^ q <= 2 * (z mod 2 ^ q))).

Lemma normalize_small m : Zpos m < 2 ^ 53 →
  ∃ mm e, binary_normalize prec emax (Zpos m) 0 false = S754_finite false mm e ∧
    Zpos (digits2_pos mm) = 53 ∧ -52 <= e <= 0 ∧ Zpos mm = Zpos m * 2 ^ (- e).
Proof.
  intros Hm. pose proof (digits2_pos_spec m) as [Hl Hu].
  set (d := Zpos (digits2_pos m)) in *.
  assert (Hd : 0 < d <= 53). { split; [lia|]. assert (d - 1 < 53); [|lia].
    apply (Z.pow_lt_mono_r_iff 2); lia. }
  unfold binary_normalize, binary_round, shl_align. fold d. rewrite Z.add_0_r, Z.sub_0_r.
  replace (fexp prec emax d) with (d - 53) by (unfold fexp, emin, prec, emax; lia).
  destruct (d - 53) as [|p|p] eqn:Hp; [|lia|].
  - rewrite round_aux_exact; [|lia..|done]. eexists _, _. split; [done|]. split; [lia|]. split; [lia|]. simpl. lia.
  - assert (Hmm : Zpos (Pos.iter xO m p) = Zpos m * 2 ^ Zpos p) by apply iter_xO_eq.
    assert (Hdig : Zpos (digits2_pos (Pos.iter xO m p)) = 53).
    { apply digits2_unique; [lia|]. rewrite Hmm. assert (Hdp : d + Zpos p = 53) by lia. rewrite <- Hdp.
      replace (d + Zpos p - 1) with ((d - 1) + Zpos p) by lia. rewrite !Z.pow_add_r by lia.
      assert (0 < 2 ^ Zpos p) by lia. nia. }
    rewrite round_aux_exact; [|done|lia|lia|done]. eexists _, _. split; [done|]. split; [done|]. split; [lia|].
    rewrite Hmm. f_equal.
Qed.

Lemma normalize_large m : 2 ^ 53 <= Zpos m → Zpos m < 2 ^ 64 →
  ∃ mm e q b, binary_normalize prec emax (Zpos m) 0 false = S754_finite false mm e ∧
    Zpos (digits2_pos mm) = 53 ∧ 0 < e <= 12 ∧ Zpos mm * 2 ^ e = b * 2 ^ q ∧
    0 < q <= 11 ∧ 2 ^ (q + 52) <= Zpos m < 2 ^ (q + 53) ∧
    (b = Zpos m / 2 ^ q ∨ (b = Zpos m / 2 ^ q + 1 ∧ 2 ^ q <= 2 * (Zpos m mod 2 ^ q))).
Proof.
  intros Hlo Hhi. pose proof (digits2_pos_spec m) as [Hl Hu].
  set (d := Zpos (digits2_pos m)) in *.
  assert (Hd : 54 <= d <= 64).
  { assert (53 < d) by (apply (Z.pow_lt_mono_r_iff 2); lia).
    assert (d - 1 < 64) by (apply (Z.pow_lt_mono_r_iff 2); lia). lia. }
  set (q := Z.to_pos (d - 53)). assert (Hq : Zpos q = d - 53) by lia.
  unfold binary_normalize, binary_round, shl_align. fold d. rewrite Z.add_0_r, Z.sub_0_r.
  replace (fexp prec emax d) with (Zpos q) by (unfold fexp, emin, prec, emax; lia).
  unfold binary_round_aux. unfold shr_fexp at 1; simpl (Zdigits2 _). fold d.
  replace (fexp prec emax (d + 0) - 0) with (Zpos q) by (unfold fexp, emin, prec, emax; lia).
  destruct (shr_iter_spec q (shr_record_of_loc (Zpos m) loc_Exact) (Zpos m) 0)
    as [Hsm Hsr]; [lia|lia|by rewrite Z.div_1_r|done|].
  unfold shr. rewrite Z.add_0_l in *.
  set (r := SpecFloat.iter_pos shr_1 q (shr_record_of_loc (Zpos m) loc_Exact)) in *.
  set (a := Zpos m / 2 ^ Zpos q) in *.
  assert (Hb : 0 < 2 ^ Zpos q) by lia.
  assert (Ha : 2 ^ 52 <= a < 2 ^ 53).
  { split; [apply Z.div_le_lower_bound|apply Z.div_lt_upper_bound]; try done.
    - replace (2 ^ Zpos q * 2 ^ 52) with (2 ^ (d - 1)); [done|]. rewrite <- Z.pow_add_r by lia. f_equal; lia.
    - replace (2 ^ Zpos q * 2 ^ 53) with (2 ^ d); [done|]. rewrite <- Z.pow_add_r by lia. f_equal; lia. }
  set (b := round_nearest_even (shr_m r) (loc_of_shr_record r)).
  assert (Hba : b = a ∨ (b = a + 1 ∧ 2 ^ Zpos q <= 2 * (Zpos m mod 2 ^ Zpos q))).
  { subst b. destruct r as [rm [] []]; simpl in *; subst rm; eauto. case_match; eauto. }
  clear Hsr. clearbody b.
  assert (Hrange : 2 ^ (Zpos q + 52) <= Zpos m < 2 ^ (Zpos q + 53)).
  { replace (Zpos q + 52) with (d - 1) by lia. replace (Zpos q + 53) with d by lia. done. }
  destruct (decide (b = 2 ^ 53)) as [Hb53|Hb53].
  - rewrite Hb53 in *.
    replace (shr_fexp _ _ _ _ _) with (shr_1 (Build_shr_record (2 ^ 53) false false), Zpos q + 1).
    2:{ unfold shr_fexp. replace (Zdigits2 (2 ^ 53)) with 54 by done.
        replace (fexp prec emax (54 + Zpos q) - Zpos q) with 1; [done|]. unfold fexp, emin, prec, emax; lia. }
    simpl. rewrite (proj2 (Z.leb_le _ _)) by (unfold prec, emax; lia).
    eexists _, _, (Zpos q), (2 ^ 53). split; [done|]. split; [done|]. split; [lia|].
    split; [rewrite Z.pow_add_r by lia; lia|]. split; [lia|]. done.
  - destruct b as [|pb|pb] eqn:Heb; [lia| |lia].
    assert (Hpd : Zpos (digits2_pos pb) = 53) by (apply digits2_unique; lia).
    replace (shr_fexp _ _ _ _ _) with (shr_record_of_loc (Zpos pb) loc_Exact, Zpos q).
    2:{ unfold shr_fexp. simpl (Zdigits2 _). rewrite Hpd.
        replace (fexp prec emax (53 + Zpos q) - Zpos q) with 0; [done|]. unfold fexp, emin, prec, emax; lia. }
    simpl. rewrite (proj2 (Z.leb_le _ _)) by (unfold prec, emax; lia).
    eexists _, _, (Zpos q), (Zpos pb). split; [done|]. split; [done|]. split; [lia|]. split; [done|]. split; [lia|]. done.
Qed.

Lemma normalize_spec m : Zpos m < 2 ^ 64 →
  ∃ mm e r, binary_normalize prec emax (Zpos m) 0 false = S754_finite false mm e ∧
    Zpos (digits2_pos mm) = 53 ∧ -52 <= e <= 12 ∧ Zpos mm * 2 ^ (e + 52) = r * 2 ^ 52 ∧ rounds_to (Zpos m) r.
Proof.
  intros Hm. destruct (Z.lt_ge_cases (Zpos m) (2 ^ 53)) as [Hs|Hl].
  - destruct (normalize_small m Hs) as (mm & e & Hn & Hd & He & Hmm). exists mm, e, (Zpos m).
    split; [done|]. split; [done|]. split; [lia|]. split; [|by left].
    rewrite Hmm, <- Z.mul_assoc, <- Z.pow_add_r by lia. do 2 f_equal. lia.
  - destruct (normalize_large m Hl Hm) as (mm & e & q & b & Hn & Hd & He & Hv & Hq & Hr & Hb).
    exists mm, e, (b * 2 ^ q). split; [done|]. split; [done|]. split; [lia|]. split.
    + rewrite Z.pow_add_r by lia. rewrite Z.mul_assoc, Hv. done.
    + right. exists q. split; [done|]. split; [done|]. destruct Hb as [-> |[-> Hge]]; [by left|by right].
Qed.

(** ** Scaled values *)

Lemma shiftl_scaled m e k : 0 <= k → - k <= e → Z.shiftl m e = m * 2 ^ (e + k) / 2 ^ k.
Proof.
  intros Hk He. assert (0 < 2 ^ k) by (apply Z.pow_pos_nonneg; lia).
  destruct (Z.le_gt_cases 0 e) as [Hp|Hn].
  - rewrite Z.shiftl_mul_pow2, Z.pow_add_r, Z.mul_assoc, Z.div_mul by lia. done.
  - rewrite Z.shiftl_div_pow2 by lia.
    replace (2 ^ k) with (2 ^ (- e) * 2 ^ (e + k)) by (rewrite <- Z.pow_add_r by lia; f_equal; lia).
    rewrite Z.div_mul_cancel_r; [done| |]; apply Z.pow_nonzero; lia.
Qed.

Lemma bounded_digits m e : bounded prec emax m e = true →
  -1074 <= e ∧ Zpos m < 2 ^ 53 ∧ (-1074 < e → 2 ^ 52 <= Zpos m).
Proof.
  intros [Hc _]%andb_true_iff. apply Z.eqb_eq in Hc. pose proof (digits2_pos_spec m) as [Hl Hu].
  set (d := Zpos (digits2_pos m)) in *. unfold fexp, emin, prec, emax in Hc.
  split; [lia|split].
  - eapply Z.lt_le_trans; [exact Hu|]. apply Z.pow_le_mono_r; lia.
  - intros He. assert (d = 53) as Hd by lia. by rewrite Hd in Hl.
Qed.

(** ** The value of a float

    In units of 2^-1074, the least positive float; an infinity counts as
    2^1024, beyond every finite float. *)

Definition beyond : Z := 2 ^ 2098.

Lemma beyond_pos : 0 < beyond.
Proof. done. Qed.

Definition cond_opp (s : bool) (z : Z) : Z := if s then - z else z.

Definition scaledSF (x : spec_float) : option Z :=
  match x with
  | S754_zero _ => Some 0
  | S754_infinity s => Some (cond_opp s beyond)
  | S754_nan => None
  | S754_finite s m e => Some (cond_opp s (Zpos m * 2 ^ (e + 1074)))
  end.

Definition scaled (f : float) : option Z := scaledSF (Prim2SF f).

Lemma finite_scaled m e : bounded prec emax m e = true → 0 < Zpos m * 2 ^ (e + 1074) < beyond.
Proof.
  unfold beyond.
  intros Hb. pose proof (bounded_digits _ _ Hb) as (Hlo & Hm & _).
  apply andb_true_iff in Hb as [_ Hu]. apply Z.leb_le in Hu. unfold prec, emax in Hu.
  assert (Hp : 0 < 2 ^ (e + 1074)) by (apply Z.pow_pos_nonneg; lia). split; [nia|].
  replace 2098 with (53 + 2045) by done. rewrite (Z.pow_add_r 2 53 2045) by lia.
  apply Z.lt_le_trans with (2 ^ 53 * 2 ^ (e + 1074)); [by apply Z.mul_lt_mono_pos_r|].
  apply Z.mul_le_mono_nonneg_l; [lia|]. apply Z.pow_le_mono_r; lia.
Qed.

Lemma finite_compare m1 e1 m2 e2 : bounded prec emax m1 e1 = true → bounded prec emax m2 e2 = true →
  match e1 ?= e2 with Lt => Lt | Gt => Gt | Eq => Pos.compare_cont Eq m1 m2 end
  = (Zpos m1 * 2 ^ (e1 + 1074) ?= Zpos m2 * 2 ^ (e2 + 1074)).
Proof.
  assert (Hlt : ∀ m1 e1 m2 e2, bounded prec emax m1 e1 = true → bounded prec emax m2 e2 = true → e1 < e2 →
    Zpos m1 * 2 ^ (e1 + 1074) < Zpos m2 * 2 ^ (e2 + 1074)).
  { clear. intros m1 e1 m2 e2 (Hl1 & Hu1 & _)%bounded_digits (Hl2 & _ & Hn2)%bounded_digits He.
    replace (e2 + 1074) with (1 + (e2 - e1 - 1) + (e1 + 1074)) by lia.
    rewrite (Z.pow_add_r _ _ (e1 + 1074)), (Z.pow_add_r _ 1) by lia.
    assert (0 < 2 ^ (e1 + 1074)) by (apply Z.pow_pos_nonneg; lia).
    assert (0 < 2 ^ (e2 - e1 - 1)) by (apply Z.pow_pos_nonneg; lia).
    rewrite Z.mul_assoc. apply Z.mul_lt_mono_pos_r; [done|]. specialize (Hn2 ltac:(lia)). nia. }
  intros H1 H2. destruct (Z.compare_spec e1 e2) as [->|He|He].
  - assert (0 < 2 ^ (e2 + 1074)) by (apply bounded_digits in H2 as [? _]; apply Z.pow_pos_nonneg; lia).
    rewrite <- (Zmult_compare_compat_r _ _ (2 ^ (e2 + 1074))) by lia. done.
  - symmetry. apply Z.compare_lt_iff. by apply Hlt.
  - symmetry. apply Z.compare_gt_iff. by apply Hlt.
Qed.

(** Comparing floats is comparing their values. *)
Lemma SFcompare_scaled x y : valid_binary x = true → valid_binary y = true →
  SFcompare x y = (a ← scaledSF x; b ← scaledSF y; Some (a ?= b)).
Proof.
  intros Hx Hy. pose proof beyond_pos.
  destruct x as [s1|s1| |s1 m1 e1], y as [s2|s2| |s2 m2 e2]; cbn [valid_binary] in *;
    try (pose proof (finite_scaled _ _ Hx)); try (pose proof (finite_scaled _ _ Hy));
    try pose proof (finite_compare _ _ _ _ Hx Hy) as Hc;
    repeat match goal with b : bool |- _ => destruct b end;
    cbn [SFcompare scaledSF cond_opp mbind option_bind]; try done; f_equal; symmetry; try done;
    rewrite ?Z.compare_gt_iff, ?Z.compare_lt_iff, ?Z.compare_eq_iff; try lia.
  rewrite Z.compare_opp, Z.compare_antisym, <- Hc. by destruct (e1 ?= e2).
Qed.

Lemma ltb_scaled f g : PrimFloat.ltb f g = match scaled f, scaled g with Some a, Some b => a <? b | _, _ => false end.
Proof.
  rewrite FloatAxioms.ltb_spec. unfold SFltb, scaled.
  rewrite SFcompare_scaled by apply Prim2SF_valid.
  destruct (scaledSF (Prim2SF f)) as [a|], (scaledSF (Prim2SF g)) as [b|]; [|done..].
  simpl. unfold Z.ltb. by destruct (a ?= b).
Qed.

Lemma eqb_scaled f g : PrimFloat.eqb f g = match scaled f, scaled g with Some a, Some b => a =? b | _, _ => false end.
Proof.
  rewrite FloatAxioms.eqb_spec. unfold SFeqb, scaled.
  rewrite SFcompare_scaled by apply Prim2SF_valid.
  destruct (scaledSF (Prim2SF f)) as [a|], (scaledSF (Prim2SF g)) as [b|]; [|done..].
  simpl. destruct (Z.compare_spec a b), (Z.eqb_spec a b); lia || done.
Qed.

Lemma is_nan_scaled f : PrimFloat.is_nan f = bool_decide (scaled f = None).
Proof.
  unfold PrimFloat.is_nan. rewrite eqb_scaled. destruct (scaled f) as [a|]; [|done]. by rewrite Z.eqb_refl.
Qed.

(** ** Integers as floats

    [float64(z)] for a 64-bit [z], signed or unsigned. *)

Definition of_int (z : Z) : float := SF2Prim (binary_normalize prec emax z 0 false).

Lemma round_aux_opp m e l : binary_round_aux prec emax true m e l = SFopp (binary_round_aux prec emax false m e l).
Proof.
  unfold binary_round_aux. destruct (shr_fexp _ _ m e l) as [r e'].
  destruct (shr_fexp _ _ _ e' _) as [r' e'']. destruct (shr_m r'); simpl; [done| |done]. by case_match.
Qed.

Lemma normalize_opp m : binary_normalize prec emax (Zneg m) 0 false = SFopp (binary_normalize prec emax (Zpos m) 0 false).
Proof.
  unfold binary_normalize, binary_round. destruct (shl_align _ _ _) as [m' e']. apply round_aux_opp.
Qed.

Lemma digits_bounded m e : Zpos (digits2_pos m) = 53 → -1074 <= e <= 971 → bounded prec emax m e = true.
Proof.
  intros Hd He. unfold bounded, canonical_mantissa, fexp, emin. rewrite Hd. unfold prec, emax.
  apply andb_true_iff; split; [apply Z.eqb_eq; lia|apply Z.leb_le; lia].
Qed.

Lemma of_int_pos m : Zpos m < 2 ^ 64 →
  ∃ r, rounds_to (Zpos m) r ∧ scaled (of_int (Zpos m)) = Some (r * 2 ^ 1074) ∧
    scaled (of_int (Zneg m)) = Some (- (r * 2 ^ 1074)).
Proof.
  intros Hm. destruct (normalize_spec m Hm) as (mm & e & r & Hn & Hd & He & Hv & Hr). exists r. split; [done|].
  assert (Hb : bounded prec emax mm e = true) by (apply digits_bounded; [done|lia]).
  assert (Hs : Zpos mm * 2 ^ (e + 1074) = r * 2 ^ 1074).
  { replace (e + 1074) with (e + 52 + 1022) by lia. rewrite Z.pow_add_r by lia.
    rewrite Z.mul_assoc, Hv, <- Z.mul_assoc, <- Z.pow_add_r by lia. done. }
  unfold scaled, of_int. rewrite normalize_opp, Hn. cbn [SFopp negb].
  rewrite !Prim2SF_SF2Prim by done. cbn [scaledSF cond_opp]. by rewrite Hs.
Qed.

(** ** Nothing lies strictly between an integer and its rounding *)

(** The floats above [2^(q+52)] are multiples of [2^q]. *)
Lemma float_multiple m e q : bounded prec emax m e = true → 0 <= q →
  2 ^ (q + 52) * 2 ^ 1074 < Zpos m * 2 ^ (e + 1074) → ∃ k, Zpos m * 2 ^ (e + 1074) = k * 2 ^ q * 2 ^ 1074.
Proof.
  intros (Hlo & Hm & _)%bounded_digits Hq Hlt.
  assert (Hqe : q <= e).
  { apply Z.nlt_ge. intros He.
    assert (Hpow : 2 ^ 53 * 2 ^ (e + 1074) <= 2 ^ (q + 52) * 2 ^ 1074).
    { rewrite <- !Z.pow_add_r by lia. apply Z.pow_le_mono_r; lia. }
    assert (0 < 2 ^ (e + 1074)) by (apply Z.pow_pos_nonneg; lia).
    assert (Zpos m * 2 ^ (e + 1074) < 2 ^ 53 * 2 ^ (e + 1074)) by (by apply Z.mul_lt_mono_pos_r). lia. }
  exists (Zpos m * 2 ^ (e - q)). rewrite <- !Z.mul_assoc. f_equal. rewrite <- !Z.pow_add_r by lia. f_equal; lia.
Qed.

Lemma rounds_floor z q : 0 < q → 2 ^ (q + 52) <= z →
  0 < 2 ^ q ∧ z = 2 ^ q * (z / 2 ^ q) + z mod 2 ^ q ∧ 0 <= z mod 2 ^ q < 2 ^ q ∧ 2 ^ (q + 52) <= z / 2 ^ q * 2 ^ q.
Proof.
  intros Hq Hz. assert (0 < 2 ^ q) by (apply Z.pow_pos_nonneg; lia). split; [done|].
  split; [apply Z.div_mod; lia|]. split; [by apply Z.mod_pos_bound|].
  rewrite Z.add_comm, Z.pow_add_r in * by lia. apply Z.mul_le_mono_nonneg_r; [lia|].
  apply Z.div_le_lower_bound; [done|]. lia.
Qed.

Lemma rounds_to_pos z r : 0 < z < 2 ^ 64 → rounds_to z r → 0 < r <= 2 ^ 64.
Proof.
  intros Hz [[Hs ->]|(q & Hq & Hzq & Hr)]; [lia|].
  destruct (rounds_floor z q) as (Hp & Hdm & Hmod & Hfl); [lia|lia|].
  assert (0 < 2 ^ (q + 52)) by (apply Z.pow_pos_nonneg; lia).
  destruct Hr as [-> |[-> _]]; [lia|]. split; [lia|].
  assert (H64 : 2 ^ 64 = 2 ^ (64 - q) * 2 ^ q).
  { rewrite <- Z.pow_add_r by lia. by replace (64 - q + q) with 64 by lia. }
  rewrite H64 in *. apply Z.mul_le_mono_nonneg_r; [lia|]. assert (z / 2 ^ q < 2 ^ (64 - q)); [|lia].
  apply Z.div_lt_upper_bound; lia.
Qed.

Lemma rounds_between z r x y : 0 < z < 2 ^ 64 → rounds_to z r → valid_binary x = true → scaledSF x = Some y →
  (y <= z * 2 ^ 1074 → y <= r * 2 ^ 1074) ∧ (z * 2 ^ 1074 <= y → r * 2 ^ 1074 <= y).
Proof.
  intros Hz Hround Hx Hy. pose proof (rounds_to_pos _ _ Hz Hround) as Hr0.
  assert (HU : 0 < 2 ^ 1074) by done. pose proof beyond_pos as Hb.
  assert (Hbu : 2 ^ 64 * 2 ^ 1074 <= beyond) by done.
  destruct x as [s|s| |s m e]; [..|pose proof (finite_scaled _ _ Hx)];
    try destruct s; cbn [scaledSF cond_opp] in Hy; simplify_eq; try (split; nia).
  destruct Hround as [[Hs ->]|(q & Hq & Hzq & Hr)]; [lia|].
  destruct (rounds_floor z q) as (Hp & Hdm & Hmod & Hfl); [lia|lia|].
  destruct (Z.le_gt_cases (Zpos m * 2 ^ (e + 1074)) (2 ^ (q + 52) * 2 ^ 1074)) as [Hle|Hgt].
  - split; intros Hc; [destruct Hr as [-> |[-> _]]; nia|].
    assert (z = 2 ^ (q + 52)) by nia. destruct Hr as [-> |[-> Hhalf]]; nia.
  - destruct (float_multiple m e q Hx ltac:(lia) Hgt) as (k & Hk). rewrite Hk.
    rewrite <- !Z.mul_le_mono_pos_r by done. split; intros Hc.
    + assert (k <= z / 2 ^ q) by (apply Z.div_le_lower_bound; lia). destruct Hr as [-> |[-> _]]; nia.
    + destruct Hr as [-> |[-> Hhalf]]; [lia|]. assert (z / 2 ^ q < k) by nia. nia.
Qed.

Lemma rounds_to_exact z r : 0 < z <= 2 ^ 53 → rounds_to z r → r = z.
Proof.
  intros Hz [[_ ->]|(q & Hq & Hzq & Hr)]; [done|].
  destruct (Z.eq_dec q 1) as [->|Hq1].
  - assert (z = 2 ^ 53) as -> by (change (1 + 52) with 53 in Hzq; lia). destruct Hr as [-> |[-> Hge]]; [done|].
    by vm_compute in Hge.
  - assert (2 ^ 54 <= 2 ^ (q + 52)) by (apply Z.pow_le_mono_r; lia). lia.
Qed.

Lemma scaledSF_opp x y : scaledSF x = Some y → scaledSF (SFopp x) = Some (- y).
Proof. destruct x as [| | |[] ? ?]; simpl; intros; simplify_eq; try destruct s; simpl; f_equal; lia. Qed.

Lemma valid_opp x : valid_binary x = true → valid_binary (SFopp x) = true.
Proof. by destruct x. Qed.

(** The conversion of an integer stays on its side of every float. *)
Lemma of_int_spec i : - 2 ^ 64 < i < 2 ^ 64 →
  ∃ x, scaled (of_int i) = Some x ∧ (- 2 ^ 53 <= i <= 2 ^ 53 → x = i * 2 ^ 1074) ∧
    ∀ f y, scaled f = Some y → (y <= i * 2 ^ 1074 → y <= x) ∧ (i * 2 ^ 1074 <= y → x <= y).
Proof.
  intros Hi. destruct i as [|m|m].
  - exists 0. split; [done|]. split; [done|]. intros f y Hy. lia.
  - destruct (of_int_pos m) as (r & Hr & Hx & _); [lia|]. exists (r * 2 ^ 1074). split; [done|]. split.
    + intros Hs. by rewrite (rounds_to_exact (Zpos m) r) by (done || lia).
    + intros f y Hy. apply (rounds_between (Zpos m) r (Prim2SF f)); [lia|done|apply Prim2SF_valid|done].
  - destruct (of_int_pos m) as (r & Hr & _ & Hx); [lia|]. exists (- (r * 2 ^ 1074)). split; [done|]. split.
    + intros Hs. rewrite (rounds_to_exact (Zpos m) r) by (done || lia). rewrite <- Pos2Z.opp_pos. lia.
    + intros f y Hy. pose proof (rounds_between (Zpos m) r (SFopp (Prim2SF f)) (- y) ltac:(lia) Hr
        (valid_opp _ (Prim2SF_valid f)) (scaledSF_opp _ _ Hy)) as [H1 H2].
      rewrite <- Pos2Z.opp_pos. lia.
Qed.
