(* ===== verification/FloatRound.v ===== *)
(** * Products and quotients of binary64 floats

    How far the float product and the float quotient lie from the exact ones:
    half a unit in the last place. The Standard Library's specification of
    the operations, followed through its shifts and its rounding. *)

From stdpp Require Import base option.
From Stdlib Require Import Floats Uint63.
From S2P Require Import Prelude Binary64.

#[local] Open Scope Z_scope.

(** A mantissa with its rounding and sticky bits stands for [N / D]. *)
Record stands_for (r : shr_record) (N D : Z) : Prop := {
  sf_mant : shr_m r = N / D;
  sf_round : shr_r r = (D <=? 2 * (N mod D));
  sf_exact : shr_s r = false → 2 * (N mod D) = if shr_r r then D else 0
}.

Lemma shr_1_stands r N D : 0 < D → 0 <= N → stands_for r N D → stands_for (shr_1 r) N (2 * D).
Proof.
  intros HD HN [Hm Hr Hs]. assert (H0 : 0 <= shr_m r) by (rewrite Hm; by apply Z.div_pos).
  destruct (shr_1_spec r H0) as [Hm' Hr']. pose proof (Z.mod_pos_bound N D HD) as Hb.
  assert (Hmod : N mod (2 * D) = N mod D + D * (N / D mod 2)) by (rewrite Z.mul_comm; apply Z.rem_mul_r; lia).
  rewrite Zmod_odd in Hmod. split.
  - rewrite Hm', Hm, Z.mul_comm. apply Z.div_div; lia.
  - rewrite Hr', Hm, Hmod. destruct (Z.odd (N / D)); symmetry; [apply Z.leb_le|apply Z.leb_gt]; lia.
  - intros Hs'. rewrite Hr', Hm, Hmod. assert (Hrs : shr_r r = false ∧ shr_s r = false).
    { destruct r as [m rb sb]. cbn in *. destruct m as [|[| |]|[| |]]; cbn in Hs'; apply orb_false_iff in Hs'; exact Hs'. }
    destruct Hrs as [Hr0 Hs0]. specialize (Hs Hs0). rewrite Hr0 in Hs. destruct (Z.odd (N / D)); lia.
Qed.

Lemma shr_iter_stands p : ∀ r N D, 0 < D → 0 <= N → stands_for r N D →
  stands_for (@SpecFloat.iter_pos shr_record shr_1 p r) N (2 ^ Zpos p * D).
Proof.
  assert (Hp2 : ∀ p, 0 < 2 ^ Zpos p) by (intros; apply Z.pow_pos_nonneg; lia).
  induction p as [p IH|p IH|]; intros r N D HD HN Hr; cbn [SpecFloat.iter_pos].
  - replace (2 ^ Zpos p~1 * D) with (2 ^ Zpos p * (2 ^ Zpos p * (2 * D))).
    + apply IH; [nia|done|]. apply IH; [lia|done|]. by apply shr_1_stands.
    + replace (Zpos p~1) with (Zpos p + Zpos p + 1) by lia. rewrite !Z.pow_add_r by lia. lia.
  - replace (2 ^ Zpos p~0 * D) with (2 ^ Zpos p * (2 ^ Zpos p * D)).
    + apply IH; [nia|done|]. by apply IH.
    + replace (Zpos p~0) with (Zpos p + Zpos p) by lia. rewrite Z.pow_add_r by lia. lia.
  - by apply shr_1_stands.
Qed.

(** Rounding such a mantissa misses by half at most. *)
Lemma round_stands r N D : 0 < D → stands_for r N D →
  let b := round_nearest_even (shr_m r) (loc_of_shr_record r) in
  (b = N / D ∨ b = N / D + 1) ∧ 2 * Z.abs (b * D - N) <= D.
Proof.
  intros HD [Hm Hr Hs] b. pose proof (Z.div_mod N D ltac:(lia)) as Hdm. pose proof (Z.mod_pos_bound N D HD) as Hb.
  assert (Hcase : (b = N / D ∧ 2 * (N mod D) <= D) ∨ (b = N / D + 1 ∧ D <= 2 * (N mod D))).
  { subst b. destruct r as [m rb sb]. cbn in *. subst m. destruct rb, sb; cbn.
    - right. split; [done|]. by apply Z.leb_le.
    - specialize (Hs eq_refl). destruct (Z.even (N / D)); [left|right]; lia.
    - left. symmetry in Hr. apply Z.leb_gt in Hr. lia.
    - specialize (Hs eq_refl). left. lia. }
  destruct Hcase as [[-> Hh]|[-> Hh]]; (split; [auto|]); nia.
Qed.

(** The location of a remainder. *)
Lemma location_stands N D : 0 < D → 0 <= N → stands_for (shr_record_of_loc (N / D) (new_location D (N mod D))) N D.
Proof.
  intros HD HN. pose proof (Z.mod_pos_bound N D HD) as Hb. unfold new_location, new_location_even, new_location_odd.
  destruct (Z.even D) eqn:Hev.
  - destruct (Z.eqb_spec (N mod D) 0) as [H0|H0].
    + split; [done|cbn; symmetry; apply Z.leb_gt; lia|cbn; lia].
    + destruct (Z.compare_spec (2 * (N mod D)) D) as [Hc|Hc|Hc]; (split; [done|cbn; symmetry; first [apply Z.leb_le; lia|apply Z.leb_gt; lia]|cbn; done || lia]).
  - destruct (Z.eqb_spec (N mod D) 0) as [H0|H0].
    + split; [done|cbn; symmetry; apply Z.leb_gt; lia|cbn; lia].
    + assert (Hodd : 2 * (N mod D) ≠ D) by (intros He; rewrite <- He, Z.even_mul in Hev; done).
      destruct (Z.compare_spec (2 * (N mod D) + 1) D) as [Hc|Hc|Hc]; (split; [done|cbn; symmetry; first [apply Z.leb_le; lia|apply Z.leb_gt; lia]|cbn; done || lia]).
Qed.

Lemma exact_stands m : 0 <= m → stands_for (shr_record_of_loc m loc_Exact) m 1.
Proof. intros Hm. split; cbn; rewrite ?Z.div_1_r, ?Z.mod_1_r; done. Qed.

(** The bits dropped from a mantissa of [d] bits at the exponent [e]. *)
Definition dropped (d e : Z) : Z := Z.max 0 (fexp prec emax (d + e) - e).

Lemma round_aux_near m e l N D : 0 < D → stands_for (shr_record_of_loc (Zpos m) l) N D →
  e <= 970 → Zpos (digits2_pos m) + e <= 1023 → 0 <= N →
  let n := dropped (Zpos (digits2_pos m)) e in
  ∃ b, scaledSF (binary_round_aux prec emax false (Zpos m) e l) = Some (b * 2 ^ (e + n + 1074)) ∧
    0 <= b ∧ -1074 <= e + n ∧ 2 * Z.abs (b * 2 ^ n * D - N) <= 2 ^ n * D.
Proof.
  intros HD Hst He Hde HN n. pose proof (digits2_pos_spec m) as [Hlo Hhi]. set (d := Zpos (digits2_pos m)) in *.
  assert (Hm : Zpos m = N / D) by (destruct Hst as [Hm _ _]; by destruct l as [|[]]).
  assert (Hn : n = Z.max 0 (Z.max (d + e - 53) (-1074) - e)) by (subst n; unfold dropped, fexp, emin, prec, emax; lia).
  assert (H2n : 0 < 2 ^ n) by (apply Z.pow_pos_nonneg; lia).
  unfold binary_round_aux.
  assert (Hshr : ∃ r, shr_fexp prec emax (Zpos m) e l = (r, e + n) ∧ stands_for r N (2 ^ n * D)).
  { unfold shr_fexp. cbn [Zdigits2]. fold d. unfold n, dropped. destruct (fexp prec emax (d + e) - e) as [|p|p] eqn:Hf; cbn [shr].
    - exists (shr_record_of_loc (Zpos m) l). split; [f_equal; cbn; lia|]. by rewrite Z.max_id, Z.pow_0_r, Z.mul_1_l.
    - eexists. split; [f_equal; cbn; lia|]. rewrite Z.max_r by lia. by apply shr_iter_stands.
    - exists (shr_record_of_loc (Zpos m) l). split; [f_equal; cbn; lia|]. rewrite Z.max_l by lia. by rewrite Z.pow_0_r, Z.mul_1_l. }
  destruct Hshr as (r & -> & Hr). destruct (round_stands r N (2 ^ n * D) ltac:(nia) Hr) as [Hb Herr].
  set (b := round_nearest_even (shr_m r) (loc_of_shr_record r)) in *. clearbody b.
  assert (HM : 0 <= N / (2 ^ n * D) < 2 ^ 53).
  { rewrite Z.mul_comm, <- Z.div_div by lia. rewrite <- Hm. split; [apply Z.div_pos; lia|]. apply Z.div_lt_upper_bound; [done|].
    eapply Z.lt_le_trans; [exact Hhi|]. rewrite <- Z.pow_add_r by lia. apply Z.pow_le_mono_r; lia. }
  assert (Hb53 : 0 <= b <= 2 ^ 53) by lia. exists b.
  assert (Hkeep : ∀ z, 0 <= z < 2 ^ 53 → shr_fexp prec emax z (e + n) loc_Exact = (shr_record_of_loc z loc_Exact, e + n)).
  { intros z Hz. unfold shr_fexp. assert (Hd : Zdigits2 z <= 53).
    { destruct z as [|pz|pz]; cbn; [lia| |lia]. pose proof (digits2_pos_spec pz) as [Hl' _].
      assert (Zpos (digits2_pos pz) - 1 < 53); [|lia]. apply (Z.pow_lt_mono_r_iff 2); lia. }
    destruct (fexp prec emax (Zdigits2 z + (e + n)) - (e + n)) as [|p|p] eqn:Hf; [done| |done].
    unfold fexp, emin, prec, emax in Hf. lia. }
  split; [|split; [lia|split; [lia|by replace (b * 2 ^ n * D) with (b * (2 ^ n * D)) by lia]]].
  destruct (decide (b = 2 ^ 53)) as [->|Hne].
  - replace (shr_fexp _ _ _ _ _) with (shr_1 (Build_shr_record (2 ^ 53) false false), e + n + 1).
    2:{ unfold shr_fexp. replace (Zdigits2 (2 ^ 53)) with 54 by done. replace (fexp prec emax (54 + (e + n)) - (e + n)) with 1; [done|].
        unfold fexp, emin, prec, emax. lia. }
    change (shr_m (shr_1 (Build_shr_record (2 ^ 53) false false))) with 4503599627370496.
    rewrite (proj2 (Z.leb_le _ _)) by (unfold prec, emax; lia). cbn [scaledSF cond_opp]. f_equal.
    replace (e + n + 1 + 1074) with (1 + (e + n + 1074)) by lia. rewrite (Z.pow_add_r 2 1) by lia. lia.
  - rewrite Hkeep by lia. cbn [shr_record_of_loc shr_m]. destruct b as [|pb|pb]; [done| |lia].
    rewrite (proj2 (Z.leb_le _ _)) by (unfold prec, emax; lia). done.
Qed.

(** ** Products and quotients *)

Lemma scaled_finite f s : scaled f = Some s → 0 < s < beyond →
  ∃ m e, Prim2SF f = S754_finite false m e ∧ bounded prec emax m e = true ∧ s = Zpos m * 2 ^ (e + 1074).
Proof.
  intros Hf Hs. pose proof (Prim2SF_valid f) as Hv. unfold scaled in Hf.
  destruct (Prim2SF f) as [b|b| |b m e]; cbn in Hf; simplify_eq; [lia|destruct b; cbn in Hs; lia|].
  pose proof (finite_scaled m e Hv) as Hp. destruct b; cbn in Hs; [lia|]. by exists m, e.
Qed.

Lemma pow2_pos k : 0 <= k → 0 < 2 ^ k.
Proof. intros. by apply Z.pow_pos_nonneg. Qed.

(** The product of two floats is a multiple of a power of two and within half
    of it; unless it is exact or tiny, it has 53 bits above that power. *)
Lemma mul_near f g x y : scaled f = Some x → scaled g = Some y → 0 < x < beyond → 0 < y < beyond → x * y < 2 ^ 3000 →
  ∃ k s, 0 <= k ∧ scaled (f * g)%float = Some s ∧ 0 <= s ∧ (2 ^ k | s) ∧ 2 * Z.abs (s * 2 ^ 1074 - x * y) <= 2 ^ k * 2 ^ 1074 ∧
    x * y < 2 ^ (k + 53) * 2 ^ 1074 ∧ (s * 2 ^ 1074 = x * y ∨ k = 0 ∨ 2 ^ (k + 52) * 2 ^ 1074 <= x * y).
Proof.
  intros Hf Hg Hx Hy Hxy. destruct (scaled_finite f x Hf Hx) as (m1 & e1 & Ef & (Hl1 & Hu1 & _)%bounded_digits & ->).
  destruct (scaled_finite g y Hg Hy) as (m2 & e2 & Eg & (Hl2 & Hu2 & _)%bounded_digits & ->).
  set (m := (m1 * m2)%positive). set (e := e1 + e2).
  assert (Hprod : Zpos m1 * 2 ^ (e1 + 1074) * (Zpos m2 * 2 ^ (e2 + 1074)) = Zpos m * 2 ^ (e + 2148)).
  { subst m e. replace (e1 + e2 + 2148) with ((e1 + 1074) + (e2 + 1074)) by lia. rewrite (Z.pow_add_r 2 (e1 + 1074) (e2 + 1074)), Pos2Z.inj_mul by lia. ring. }
  rewrite Hprod in *. pose proof (digits2_pos_spec m) as [Hlo Hhi]. set (d := Zpos (digits2_pos m)) in *.
  assert (He2 : 0 <= e + 2148) by lia. pose proof (pow2_pos _ He2) as Hpe.
  assert (Hde : d - 1 + (e + 2148) < 3000).
  { apply (Z.pow_lt_mono_r_iff 2); [lia|lia|]. rewrite Z.pow_add_r by lia. eapply Z.le_lt_trans; [|exact Hxy].
    apply Z.mul_le_mono_nonneg_r; [by apply Z.lt_le_incl|done]. }
  destruct (round_aux_near m e loc_Exact (Zpos m) 1) as (b & Hb & Hb0 & Hk & Herr); [lia|by apply exact_stands|lia|fold d; lia|lia|].
  fold d in Hb, Hk, Herr. set (n := dropped d e) in *. assert (Hn : n = Z.max 0 (Z.max (d + e - 53) (-1074) - e)) by (subst n; unfold dropped, fexp, emin, prec, emax; lia).
  exists (e + n + 1074), (b * 2 ^ (e + n + 1074)).
  assert (Hs : scaled (f * g)%float = Some (b * 2 ^ (e + n + 1074))).
  { unfold scaled. rewrite FloatAxioms.mul_spec, Ef, Eg. exact Hb. }
  assert (Hpn : 0 < 2 ^ n) by (apply pow2_pos; lia).
  assert (Hsplit : 2 ^ (e + n + 1074) * 2 ^ 1074 = 2 ^ n * 2 ^ (e + 2148)) by (rewrite <- !Z.pow_add_r by lia; f_equal; lia).
  split_and!; [lia|done|apply Z.mul_nonneg_nonneg; [done|apply Z.pow_nonneg; lia]|apply Z.divide_factor_r| | |].
  - rewrite <- Z.mul_assoc, Hsplit. rewrite Z.mul_assoc. rewrite <- Z.mul_sub_distr_r, Z.abs_mul, (Z.abs_eq (2 ^ (e + 2148))) by (by apply Z.lt_le_incl). rewrite !Z.mul_1_r in Herr.
    rewrite Z.mul_assoc. by apply Z.mul_le_mono_pos_r.
  - replace (2 ^ (e + n + 1074 + 53) * 2 ^ 1074) with (2 ^ (n + 53) * 2 ^ (e + 2148)) by (rewrite <- !Z.pow_add_r by lia; f_equal; lia).
    apply Z.mul_lt_mono_pos_r; [done|]. eapply Z.lt_le_trans; [exact Hhi|]. apply Z.pow_le_mono_r; lia.
  - rewrite <- Z.mul_assoc, Hsplit. destruct (Z.eq_dec n 0) as [Hn0|Hn0].
    + left. rewrite Hn0, Z.pow_0_r in Herr |- *. lia.
    + destruct (Z.eq_dec (e + n + 1074) 0) as [H0|H0]; [by right; left|right; right].
      assert (Hnd : n = d + e - 53 - e) by lia.
      replace (2 ^ (e + n + 1074 + 52) * 2 ^ 1074) with (2 ^ (d - 1) * 2 ^ (e + 2148)) by (rewrite <- !Z.pow_add_r by lia; f_equal; lia).
      by apply Z.mul_le_mono_pos_r.
Qed.

(** The quotient of two floats from 1 on. *)
Lemma div_near f g x y : scaled f = Some x → scaled g = Some y → 2 ^ 1074 <= x < 2 ^ 1974 → 2 ^ 1074 <= y < 2 ^ 1974 →
  ∃ k s, 0 < k ∧ scaled (f / g)%float = Some s ∧ 0 <= s ∧ (2 ^ k | s) ∧ 2 * Z.abs (s * y - x * 2 ^ 1074) <= 2 ^ k * y ∧
    2 ^ (k + 52) * y <= x * 2 ^ 1074.
Proof.
  intros Hf Hg Hx Hy. assert (H1974 : 2 ^ 1974 < beyond) by done. assert (H1074 : 0 < 2 ^ 1074) by done.
  destruct (scaled_finite f x Hf) as (m1 & e1 & Ef & Hb1 & ->); [lia|]. destruct (scaled_finite g y Hg) as (m2 & e2 & Eg & Hb2 & ->); [lia|].
  (* Both mantissas have 53 bits, and the exponents are moderate. *)
  assert (Hnorm : ∀ m e, bounded prec emax m e = true → 2 ^ 1074 <= Zpos m * 2 ^ (e + 1074) < 2 ^ 1974 →
    2 ^ 52 <= Zpos m < 2 ^ 53 ∧ -52 <= e <= 847).
  { intros m e (Hl & Hu & Hn)%bounded_digits Hr. assert (Hp : 0 < 2 ^ (e + 1074)) by (apply pow2_pos; lia).
    assert (Hlow : -52 <= e).
    { assert (1074 < e + 1074 + 53); [|lia]. apply (Z.pow_lt_mono_r_iff 2); [lia|lia|]. rewrite (Z.pow_add_r 2 (e + 1074)) by lia. nia. }
    specialize (Hn ltac:(lia)). split; [lia|]. split; [done|].
    assert (e + 1074 + 52 < 1974); [|lia]. apply (Z.pow_lt_mono_r_iff 2); [lia|lia|]. rewrite (Z.pow_add_r 2 (e + 1074)) by lia. nia. }
  destruct (Hnorm m1 e1 Hb1 Hx) as [Hm1 He1]. destruct (Hnorm m2 e2 Hb2 Hy) as [Hm2 He2]. clear Hnorm Hb1 Hb2.
  assert (Hd1 : Zpos (digits2_pos m1) = 53) by (apply digits2_unique; lia). assert (Hd2 : Zpos (digits2_pos m2) = 53) by (apply digits2_unique; lia).
  set (N := Zpos m1 * 2 ^ 53). set (e := e1 - e2 - 53).
  assert (Hq : 2 ^ 52 <= N / Zpos m2 < 2 ^ 54).
  { split; [apply Z.div_le_lower_bound; [lia|]|apply Z.div_lt_upper_bound; [lia|]]; subst N; lia. }
  destruct (N / Zpos m2) as [|m|m] eqn:Hm; [lia| |lia].
  pose proof (digits2_pos_spec m) as [Hlo Hhi]. set (d := Zpos (digits2_pos m)) in *.
  assert (Hd : 53 <= d <= 54).
  { split; [assert (52 < d); [|lia]|assert (d - 1 < 54); [|lia]]; apply (Z.pow_lt_mono_r_iff 2); lia. }
  assert (Hcore : SFdiv_core_binary prec emax (Zpos m1) e1 (Zpos m2) e2 = (Zpos m, e, new_location (Zpos m2) (N mod Zpos m2))).
  { unfold SFdiv_core_binary. cbn [Zdigits2]. rewrite Hd1, Hd2.
    replace (Z.min (fexp prec emax (53 + e1 - (53 + e2))) (e1 - e2)) with e by (unfold fexp, emin, prec, emax; lia).
    replace (e1 - e2 - e) with 53 by lia. rewrite Z.shiftl_mul_pow2 by lia. fold N.
    pose proof (Z.div_eucl_eq N (Zpos m2)) as _. unfold Z.div in Hm. unfold Z.modulo. destruct (Z.div_eucl N (Zpos m2)) as [q r]. by subst q. }
  pose proof (location_stands N (Zpos m2) ltac:(lia) ltac:(lia)) as Hst. rewrite Hm in Hst.
  destruct (round_aux_near m e _ N (Zpos m2) ltac:(lia) Hst) as (b & Hb & Hb0 & Hk & Herr); [lia|fold d; lia|lia|].
  fold d in Hb, Hk, Herr. set (n := dropped d e) in *. assert (Hn : n = d - 53) by (subst n; unfold dropped, fexp, emin, prec, emax; lia).
  exists (e + n + 1074), (b * 2 ^ (e + n + 1074)).
  assert (Hs : scaled (f / g)%float = Some (b * 2 ^ (e + n + 1074))).
  { unfold scaled. rewrite FloatAxioms.div_spec, Ef, Eg. unfold SF64div, SFdiv. by rewrite Hcore. }
  assert (HP : 0 < 2 ^ (e + e2 + 2148)) by (apply pow2_pos; lia).
  assert (Hsy : 2 ^ (e + n + 1074) * (Zpos m2 * 2 ^ (e2 + 1074)) = 2 ^ n * Zpos m2 * 2 ^ (e + e2 + 2148)).
  { replace (e + n + 1074) with (n + (e + 1074)) by lia. replace (e + e2 + 2148) with ((e + 1074) + (e2 + 1074)) by lia.
    rewrite (Z.pow_add_r 2 n (e + 1074)), (Z.pow_add_r 2 (e + 1074) (e2 + 1074)) by lia. ring. }
  assert (Hx' : Zpos m1 * 2 ^ (e1 + 1074) * 2 ^ 1074 = N * 2 ^ (e + e2 + 2148)).
  { subst N. rewrite <- !Z.mul_assoc, <- !Z.pow_add_r by lia. do 2 f_equal. lia. }
  split_and!; [lia|done|apply Z.mul_nonneg_nonneg; [done|apply Z.pow_nonneg; lia]|apply Z.divide_factor_r| |].
  - rewrite <- Z.mul_assoc, Hsy, Hx'. replace (b * (2 ^ n * Zpos m2 * 2 ^ (e + e2 + 2148))) with (b * 2 ^ n * Zpos m2 * 2 ^ (e + e2 + 2148)) by ring.
    rewrite <- Z.mul_sub_distr_r, Z.abs_mul, (Z.abs_eq (2 ^ (e + e2 + 2148))) by (by apply Z.lt_le_incl). rewrite Z.mul_assoc. by apply Z.mul_le_mono_pos_r.
  - rewrite Hx'. replace (2 ^ (e + n + 1074 + 52)) with (2 ^ 52 * 2 ^ (e + n + 1074)) by (rewrite <- Z.pow_add_r by lia; f_equal; lia).
    rewrite <- Z.mul_assoc, Hsy, !Z.mul_assoc. apply Z.mul_le_mono_pos_r; [done|].
    rewrite <- Z.pow_add_r by lia. replace (52 + n) with (d - 1) by lia.
    pose proof (Z.mul_div_le N (Zpos m2) ltac:(lia)) as Hle. rewrite Hm in Hle.
    eapply Z.le_trans; [|exact Hle]. rewrite (Z.mul_comm (Zpos m2)). apply Z.mul_le_mono_nonneg_r; [by apply Pos2Z.is_nonneg|done].
Qed.

(** Signs. *)
Lemma SFopp_involutive x : SFopp (SFopp x) = x.
Proof. destruct x; cbn; by rewrite ?negb_involutive. Qed.

Lemma round_aux_negb s m e l : binary_round_aux prec emax (negb s) m e l = SFopp (binary_round_aux prec emax s m e l).
Proof. destruct s; cbn [negb]; rewrite ?round_aux_opp, ?SFopp_involutive; done. Qed.

Lemma SFmul_opp x y : SFmul prec emax (SFopp x) y = SFopp (SFmul prec emax x y).
Proof.
  destruct x as [s|s| |s m e], y as [s'|s'| |s' m' e']; cbn [SFopp SFmul]; rewrite ?negb_xorb_l; try done.
  by rewrite <- round_aux_negb, negb_xorb_l.
Qed.

Lemma SFdiv_opp x y : SFdiv prec emax (SFopp x) y = SFopp (SFdiv prec emax x y).
Proof.
  destruct x as [s|s| |s m e], y as [s'|s'| |s' m' e']; cbn [SFopp SFdiv]; rewrite ?negb_xorb_l; try done.
  destruct (SFdiv_core_binary _ _ _ _ _ _) as [[? ?] ?]. by rewrite <- round_aux_negb, negb_xorb_l.
Qed.

(** Two floats of opposite signs. *)
Definition opposite (f g : float) : Prop := Prim2SF g = SFopp (Prim2SF f).

Lemma opposite_opp f : opposite (- f) f.
Proof. unfold opposite. by rewrite FloatAxioms.opp_spec, SFopp_involutive. Qed.

Lemma mul_opposite f g h : opposite f g → opposite (f * h) (g * h).
Proof. unfold opposite. intros Ho. rewrite !FloatAxioms.mul_spec, Ho. apply SFmul_opp. Qed.

Lemma div_opposite f g h : opposite f g → opposite (f / h) (g / h).
Proof. unfold opposite. intros Ho. rewrite !FloatAxioms.div_spec, Ho. apply SFdiv_opp. Qed.

Lemma opposite_scaled f g : opposite f g → scaled g = Z.opp <$> scaled f.
Proof.
  unfold opposite, scaled. intros ->. destruct (Prim2SF f) as [s|s| |s m e]; cbn; [done|destruct s; cbn; f_equal; lia|done|].
  destruct s; cbn [negb cond_opp]; f_equal; lia.
Qed.

Lemma leb_scaled f g : PrimFloat.leb f g = match scaled f, scaled g with Some a, Some b => a <=? b | _, _ => false end.
Proof.
  rewrite FloatAxioms.leb_spec. unfold SFleb, scaled. rewrite SFcompare_scaled by apply Prim2SF_valid.
  destruct (scaledSF (Prim2SF f)) as [a|], (scaledSF (Prim2SF g)) as [b|]; [|done..]. simpl. unfold Z.leb. by destruct (a ?= b).
Qed.
