(* ===== verification/Backoff.v ===== *)
(** * [pkg/backoff]: exponential delays with clamping and jitter

    backoff.go. A [time.Duration] is an int64 of nanoseconds, a [Z] in range
    wrapped after each operation; a [float64] is a primitive binary64 float.
    A random draw of [rand.Int64N] is an argument of the operations that make
    one, a function of its bound. *)

From stdpp Require Import base option.
From Stdlib Require Import Floats Uint63.
From S2P Require Import Prelude Binary64.

#[local] Open Scope Z_scope.

(** ** Conversions of the language between int64 and float64 *)

Definition MaxInt64 : Z := 2 ^ 63 - 1.
Definition MinInt64 : Z := - 2 ^ 63.

(** [float64(z)] for an int64 [z]: round to nearest, ties to even. *)
Definition float64 (z : Z) : float :=
  if 0 <=? z then PrimFloat.of_uint63 (Uint63.of_Z z)
  else if z =? MinInt64 then PrimFloat.opp 0x1p63%float
  else PrimFloat.opp (PrimFloat.of_uint63 (Uint63.of_Z (- z))).

(** [int64(f)], truncating; the language leaves out-of-range and NaN
    conversions open, which is the [None] case. *)
Definition truncSF (s : spec_float) : option Z :=
  match s with
  | S754_zero _ => Some 0
  | S754_finite false m e => Some (Z.shiftl (Zpos m) e)
  | S754_finite true m e => Some (- Z.shiftl (Zpos m) e)
  | _ => None
  end.

Definition int64 (f : float) : option Z :=
  z ← truncSF (Prim2SF f);
  if (MinInt64 <=? z) && (z <=? MaxInt64) then Some z else None.

(** ** The schedule *)

Definition maxSafeDelay : Z := MaxInt64 / 2.

(** [JitterStrategy] is an int: a value other than the three is possible. *)
Definition JitterStrategy : Type := Z.
Definition JitterAdditive : JitterStrategy := 0.
Definition JitterFull : JitterStrategy := 1.
Definition JitterEqual : JitterStrategy := 2.

Definition Valid (s : JitterStrategy) : bool := (JitterAdditive <=? s) && (s <=? JitterEqual).

Record BackoffConfig : Type := MkBackoffConfig {
  Base : Z;
  Factor : float;
  Jitter : Z;
  MaxDelay : Z;
  Strategy : JitterStrategy
}.

Record Schedule : Type := MkSchedule {
  s_next : float;
  s_factor : float;
  s_jitter : Z;
  s_maxDelay : Z;
  s_strategy : JitterStrategy
}.

Definition NewSchedule (cfg : BackoffConfig) : Schedule :=
  MkSchedule (float64 (Base cfg)) (Factor cfg) (Jitter cfg) (MaxDelay cfg) (Strategy cfg).

Definition addJitterValue (base jitter : Z) : Z :=
  let sum := wrapS 64 (base + jitter) in
  if sum <? base then MaxInt64 else sum.

(** [draw n] is what [rand.Int64N(n)] returns. *)
Definition AddJitter (draw : Z → Z) (base ceil : Z) : Z :=
  if ceil <=? 0 then base else addJitterValue base (draw ceil).

Definition applyJitter (draw : Z → Z) (s : Schedule) (delay : Z) : Z :=
  if s_strategy s =? JitterFull then AddJitter draw 0 delay
  else if s_strategy s =? JitterEqual then
    let half := Z.quot delay 2 in AddJitter draw half (wrapS 64 (delay - half))
  else AddJitter draw delay (s_jitter s).

(** The clamp of the pre-jitter delay. *)
Definition clampOf (s : Schedule) : Z :=
  if (s_maxDelay s <=? 0) || (maxSafeDelay <? s_maxDelay s) then maxSafeDelay else s_maxDelay s.

(** The pre-jitter delay, as a float. *)
Definition clamped (s : Schedule) : float :=
  let delay := s_next s in
  let delay := if PrimFloat.is_nan delay || PrimFloat.ltb delay 0 then 0%float else delay in
  if PrimFloat.ltb (float64 (clampOf s)) delay then float64 (clampOf s) else delay.

Definition advance (s : Schedule) : Schedule :=
  let next := PrimFloat.mul (s_next s) (s_factor s) in
  let next := if PrimFloat.ltb (float64 maxSafeDelay) next then float64 maxSafeDelay else next in
  MkSchedule next (s_factor s) (s_jitter s) (s_maxDelay s) (s_strategy s).

(** [Next]: the delay and the schedule after the call; [None] if the float
    to int64 conversion is out of range. *)
Definition Next (draw : Z → Z) (s : Schedule) : option (Z * Schedule) :=
  delay ← int64 (clamped s);
  Some (applyJitter draw s delay, advance s).

(** ** Rounding of int64 values to float64 *)

Lemma truncSF_normalize m : Zpos m < 2 ^ 64 →
  ∃ r, truncSF (binary_normalize prec emax (Zpos m) 0 false) = Some r ∧ rounds_to (Zpos m) r.
Proof.
  intros Hm. destruct (normalize_spec m Hm) as (mm & e & r & -> & _ & He & Hv & Hr). exists r. split; [|done].
  simpl. rewrite (shiftl_scaled _ _ 52), Hv, Z.div_mul by lia. done.
Qed.

(** Rounding moves a positive integer by at most one part in 2^53. *)
Lemma rounds_to_le z r : 0 < z → rounds_to z r → 0 < r <= z + z / 2 ^ 53.
Proof.
  intros Hz [[Hs ->]|(q & Hq & Hzq & Hr)]; [pose proof (Z.div_pos z (2 ^ 53)); lia|].
  assert (0 < 2 ^ q) by (apply Z.pow_pos_nonneg; lia).
  assert (Hdm : z = 2 ^ q * (z / 2 ^ q) + z mod 2 ^ q) by (apply Z.div_mod; lia).
  pose proof (Z.mod_pos_bound z (2 ^ q) ltac:(lia)).
  assert (0 < z / 2 ^ q).
  { apply Z.div_str_pos. split; [lia|]. etransitivity; [|exact (proj1 Hzq)]. apply Z.pow_le_mono_r; lia. }
  assert (0 <= z / 2 ^ 53) by (apply Z.div_pos; lia).
  destruct Hr as [-> |[-> Hge]]; [nia|]. split; [nia|].
  assert (2 ^ (q - 1) <= z / 2 ^ 53).
  { apply Z.div_le_lower_bound; [lia|]. rewrite <- Z.pow_add_r by lia. replace (53 + (q - 1)) with (q + 52) by lia. apply Hzq. }
  assert (2 ^ q = 2 * 2 ^ (q - 1)) by (rewrite <- Z.pow_succ_r by lia; f_equal; lia). nia.
Qed.

Lemma float64_trunc z : 0 < z < 2 ^ 63 →
  ∃ t, truncSF (Prim2SF (float64 z)) = Some t ∧ 0 < t <= z + z / 2 ^ 53.
Proof.
  intros Hz. unfold float64. rewrite (proj2 (Z.leb_le 0 z)) by lia.
  rewrite of_uint63_spec, Uint63.of_Z_spec, Z.mod_small by (change Uint63.wB with (2 ^ 63); lia).
  destruct z as [|m|m]; [lia| |lia]. destruct (truncSF_normalize m) as (r & Hr & Hround); [lia|].
  exists r. split; [done|]. by apply rounds_to_le.
Qed.

(** ** Truncation is monotone *)

Lemma trunc_monotone m1 e1 m2 e2 :
  bounded prec emax m1 e1 = true → bounded prec emax m2 e2 = true →
  SFltb (S754_finite false m2 e2) (S754_finite false m1 e1) = false →
  Z.shiftl (Zpos m1) e1 <= Z.shiftl (Zpos m2) e2.
Proof.
  intros (Hl1 & Hu1 & _)%bounded_digits (Hl2 & _ & Hn2)%bounded_digits Hc.
  rewrite !(shiftl_scaled _ _ 1074) by lia. apply Z.div_le_mono; [apply Z.pow_pos_nonneg; lia|].
  unfold SFltb in Hc; simpl in Hc. destruct (Z.compare_spec e2 e1) as [->|Hlt|Hgt]; [|done|].
  - apply Z.mul_le_mono_nonneg_r; [lia|]. change (Pos.compare_cont Eq m2 m1) with (m2 ?= m1)%positive in Hc.
    destruct (Pos.compare_spec m2 m1); [lia|done|lia].
  - specialize (Hn2 ltac:(lia)).
    replace (e2 + 1074) with (1 + (e2 - e1 - 1) + (e1 + 1074)) by lia.
    rewrite (Z.pow_add_r _ _ (e1 + 1074)), (Z.pow_add_r _ 1) by lia.
    assert (0 < 2 ^ (e1 + 1074)) by (apply Z.pow_pos_nonneg; lia).
    assert (0 < 2 ^ (e2 - e1 - 1)) by (apply Z.pow_pos_nonneg; lia).
    rewrite Z.mul_assoc. apply Z.mul_le_mono_nonneg_r; [lia|]. nia.
Qed.

(** ** Jitter *)

Lemma addJitterValue_spec base jitter :
  0 <= base <= MaxInt64 → 0 <= jitter <= MaxInt64 →
  addJitterValue base jitter = Z.min MaxInt64 (base + jitter).
Proof.
  unfold addJitterValue, MaxInt64. intros Hb Hj. destruct (Z.lt_ge_cases (base + jitter) (2 ^ 63)).
  - rewrite wrapS_small by (unfold inS; lia). destruct (Z.ltb_spec (base + jitter) base); lia.
  - replace (wrapS 64 (base + jitter)) with (base + jitter - 2 ^ 64).
    + destruct (Z.ltb_spec (base + jitter - 2 ^ 64) base); lia.
    + unfold wrapS. replace ((base + jitter + 2 ^ (64 - 1)) mod 2 ^ 64) with (base + jitter + 2 ^ 63 - 2 ^ 64); [lia|].
      apply Z.mod_unique with 1; [left|]; lia.
Qed.

(** The contract of [rand.Int64N]. *)
Definition draws (draw : Z → Z) : Prop := ∀ n, 0 < n → 0 <= draw n < n.

Lemma AddJitter_spec draw base ceil :
  draws draw → 0 <= base <= MaxInt64 → ceil <= MaxInt64 →
  AddJitter draw base ceil = Z.min MaxInt64 (base + (if ceil <=? 0 then 0 else draw ceil)).
Proof.
  intros Hd Hb Hc. unfold AddJitter. destruct (Z.leb_spec ceil 0) as [H0|H0]; [lia|].
  pose proof (Hd ceil ltac:(lia)). apply addJitterValue_spec; lia.
Qed.

(** ** The delays *)

Lemma clampOf_range s : 0 < clampOf s <= maxSafeDelay.
Proof.
  unfold clampOf. destruct (Z.leb_spec (s_maxDelay s) 0); [by simpl|].
  destruct (Z.ltb_spec maxSafeDelay (s_maxDelay s)); simpl; [done|lia].
Qed.

Lemma clamped_spec s : ∃ t, int64 (clamped s) = Some t ∧
  0 <= t <= clampOf s + clampOf s / 2 ^ 53.
Proof.
  pose proof (clampOf_range s) as Hc. unfold maxSafeDelay in Hc.
  assert (Hcv : MaxInt64 / 2 = 2 ^ 62 - 1) by done. rewrite Hcv in Hc. clear Hcv.
  destruct (float64_trunc (clampOf s)) as (b & Hb & Hbr); [lia|].
  assert (Hd : 0 <= clampOf s / 2 ^ 53 < 2 ^ 10).
  { split; [apply Z.div_pos; lia|apply Z.div_lt_upper_bound; lia]. }
  enough (∃ t, truncSF (Prim2SF (clamped s)) = Some t ∧ 0 <= t <= clampOf s + clampOf s / 2 ^ 53) as (t & Ht & Hr).
  { exists t. unfold int64. rewrite Ht; simpl. split; [|done].
    rewrite (proj2 (Z.leb_le _ _)), (proj2 (Z.leb_le _ _)) by (unfold MinInt64, MaxInt64; lia). done. }
  unfold clamped. set (fc := float64 (clampOf s)) in *.
  assert (H0 : ∀ f, PrimFloat.ltb f 0 = SFltb (Prim2SF f) (S754_zero false)).
  { intros f. by rewrite FloatAxioms.ltb_spec. }
  set (f := if PrimFloat.is_nan (s_next s) || PrimFloat.ltb (s_next s) 0 then 0%float else s_next s).
  assert (Hf : f = 0%float ∨ (PrimFloat.is_nan f = false ∧ PrimFloat.ltb f 0 = false)).
  { subst f. destruct (PrimFloat.is_nan (s_next s)) eqn:?; [by left|].
    destruct (PrimFloat.ltb (s_next s) 0) eqn:?; [by left|by right]. }
  clearbody f. destruct (PrimFloat.ltb fc f) eqn:Hlt; [exists b; split; [done|lia]|].
  destruct Hf as [->|[Hnan Hneg]]; [exists 0; split; [done|lia]|].
  rewrite H0 in Hneg. rewrite FloatAxioms.ltb_spec in Hlt.
  pose proof (Prim2SF_valid f) as Hvf. pose proof (Prim2SF_valid fc) as Hvc.
  destruct (Prim2SF fc) as [|[]| |[] mc ec]; simpl in Hb; simplify_eq; try lia.
  { pose proof (Z.shiftl_nonneg (Zpos mc) ec) as [_ Hx].
    specialize (Hx ltac:(lia)). lia. }
  destruct (Prim2SF f) as [sf|[]| |[] mf ef] eqn:Hsf; try done.
  - exists 0. split; [done|lia].
  - unfold Prim2SF in Hsf. rewrite Hnan in Hsf. repeat case_match; done.
  - eexists; split; [done|]. split; [by apply Z.shiftl_nonneg|].
    etrans; [eapply trunc_monotone; [exact Hvf|exact Hvc|exact Hlt]|]. lia.
Qed.

(** What a delay may be, given the clamped exponential delay it derives
    from: the jitter strategies, with the saturation of the addition. *)
Definition delay_spec (s : Schedule) (delay d : Z) : Prop :=
  if s_strategy s =? JitterFull then 0 <= d <= Z.max 0 (delay - 1)
  else if s_strategy s =? JitterEqual then delay / 2 <= d <= Z.max 0 (delay - 1)
  else delay <= d <= Z.min MaxInt64 (delay + Z.max 0 (s_jitter s - 1)).

Lemma applyJitter_spec draw s delay :
  draws draw → s_jitter s <= MaxInt64 → 0 <= delay <= MaxInt64 →
  delay_spec s delay (applyJitter draw s delay).
Proof.
  intros Hd Hj Hr. unfold delay_spec, applyJitter.
  assert (Hh : 2 * (delay / 2) <= delay < 2 * (delay / 2) + 2).
  { pose proof (Z.div_mod delay 2 ltac:(lia)). pose proof (Z.mod_pos_bound delay 2 ltac:(lia)). lia. }
  destruct (s_strategy s =? JitterFull); [|destruct (s_strategy s =? JitterEqual)].
  - rewrite AddJitter_spec by (done || lia). destruct (Z.leb_spec delay 0); [lia|].
    pose proof (Hd delay ltac:(lia)). lia.
  - rewrite Z.quot_div_nonneg by lia.
    rewrite wrapS_small by (unfold inS, MaxInt64 in *; lia).
    rewrite AddJitter_spec by (done || lia). destruct (Z.leb_spec (delay - delay / 2) 0); [lia|].
    pose proof (Hd (delay - delay / 2) ltac:(lia)). lia.
  - rewrite AddJitter_spec by (done || lia). destruct (Z.leb_spec (s_jitter s) 0); [lia|].
    pose proof (Hd (s_jitter s) ltac:(lia)). lia.
Qed.

Lemma Next_spec draw s :
  draws draw → s_jitter s <= MaxInt64 →
  ∃ delay d, Next draw s = Some (d, advance s) ∧ int64 (clamped s) = Some delay ∧
    0 <= delay <= clampOf s + clampOf s / 2 ^ 53 ∧ delay_spec s delay d ∧ 0 <= d <= MaxInt64.
Proof.
  intros Hd Hj. destruct (clamped_spec s) as (t & Ht & Hr). exists t, (applyJitter draw s t).
  unfold Next. rewrite Ht. split; [done|]. split; [done|]. split; [done|].
  assert (Hm : t <= MaxInt64).
  { pose proof (clampOf_range s) as Hc. change maxSafeDelay with (2 ^ 62 - 1) in Hc.
    unfold MaxInt64.
    assert (clampOf s / 2 ^ 53 < 2 ^ 10) by (apply Z.div_lt_upper_bound; lia). lia. }
  pose proof (applyJitter_spec draw s t Hd Hj ltac:(lia)) as Ha. split; [done|].
  unfold delay_spec in Ha. assert (0 <= t / 2) by (apply Z.div_pos; lia).
  destruct (s_strategy s =? JitterFull); [lia|]. destruct (s_strategy s =? JitterEqual); lia.
Qed.

(** The delays of [n] successive calls. *)
Fixpoint delays (draw : nat → Z → Z) (n : nat) (s : Schedule) : option (list Z) :=
  match n with
  | O => Some []
  | S n =>
      r ← Next (draw O) s;
      l ← delays (fun i => draw (S i)) n r.2;
      Some (r.1 :: l)
  end.

(** C11. Whatever the configuration (negative, NaN and infinite factors,
    non-positive delays and unknown strategies included), every delay of a
    schedule is computed without an out-of-range conversion, is never
    negative and never exceeds the largest duration. *)
Theorem delays_in_range draw n cfg :
  (∀ i, draws (draw i)) → Jitter cfg <= MaxInt64 →
  ∃ l, delays draw n (NewSchedule cfg) = Some l ∧ length l = n ∧
    List.Forall (fun d => 0 <= d <= MaxInt64) l.
Proof.
  intros Hd Hj. change (Jitter cfg) with (s_jitter (NewSchedule cfg)) in Hj.
  revert draw Hd Hj. generalize (NewSchedule cfg).
  induction n as [|n IH]; intros s draw Hd Hj; [by exists []|].
  destruct (Next_spec (draw O) s (Hd O) Hj) as (dl & d & Hn & _ & _ & _ & Hr).
  destruct (IH (advance s) (fun i => draw (S i)) (fun i => Hd (S i)) Hj) as (l & Hl & Hlen & Hall).
  exists (d :: l). cbn [delays]. rewrite Hn. cbn. rewrite Hl. cbn.
  split; [done|]. split; [by rewrite Hlen|]. by constructor.
Qed.

Lemma delays_in_range_witness : ∃ l,
  delays (fun _ n => n - 1) 3 (NewSchedule (MkBackoffConfig (2 ^ 62) (-2)%float MaxInt64 0 0)) = Some l ∧
  List.Forall (fun d => 0 <= d <= MaxInt64) l.
Proof.
  destruct (delays_in_range (fun _ n => n - 1) 3 (MkBackoffConfig (2 ^ 62) (-2)%float MaxInt64 0 0))
    as (l & Hl & _ & Hr); [intros i n Hn; lia|vm_compute; discriminate|].
  exists l. split; [exact Hl|exact Hr].
Defined.

(** A delay obeys the jitter strategy relative to the clamped
    exponential delay, which exceeds the configured maximum by at most its
    rounding to a float (one part in 2^53). *)
Theorem Next_delay draw s :
  draws draw → s_jitter s <= MaxInt64 →
  ∃ delay d, Next draw s = Some (d, advance s) ∧ int64 (clamped s) = Some delay ∧
    0 <= delay <= clampOf s + clampOf s / 2 ^ 53 ∧ delay_spec s delay d.
Proof.
  intros Hd Hj. destruct (Next_spec draw s Hd Hj) as (delay & d & ? & ? & ? & ? & _).
  by exists delay, d.
Qed.

Lemma Next_delay_witness : ∃ d,
  Next (fun n => n / 2) (MkSchedule 100%float 2%float 10 1000 JitterEqual) =
    Some (d, advance (MkSchedule 100%float 2%float 10 1000 JitterEqual)) ∧ 50 <= d <= 99.
Proof.
  destruct (Next_delay (fun n => n / 2) (MkSchedule 100%float 2%float 10 1000 JitterEqual))
    as (delay & d & Hn & Hc & _ & Hs).
  - intros n Hn. split; [apply Z.div_pos; lia|apply Z.div_lt_upper_bound; lia].
  - vm_compute. discriminate.
  - exists d. split; [exact Hn|]. vm_compute in Hc. injection Hc as <-. vm_compute in Hs. exact Hs.
Defined.

(** The sequence of the package's documentation. *)
Example exponential_sequence :
  delays (fun _ _ => 0) 5 (NewSchedule (MkBackoffConfig 100 2%float 0 1000 JitterAdditive))
    = Some [100; 200; 400; 800; 1000].
Proof. vm_compute. reflexivity. Qed.

(** A maximum delay that is not a float is not a strict bound: the clamp is
    rounded up, and the delay exceeds it. *)
Example clamp_rounds_up :
  Next (fun _ => 0) (NewSchedule (MkBackoffConfig (2 ^ 55) 2%float 0 (2 ^ 53 + 3) JitterAdditive))
    = Some (2 ^ 53 + 4, advance (NewSchedule (MkBackoffConfig (2 ^ 55) 2%float 0 (2 ^ 53 + 3) JitterAdditive))).
Proof. vm_compute. reflexivity. Qed.

(** The same holds of the internal cap. *)
Example safe_delay_rounds_up : int64 (float64 maxSafeDelay) = Some (maxSafeDelay + 1).
Proof. vm_compute. reflexivity. Qed.
