(* ===== verification/Retrier.v ===== *)
(** * [pkg/retrier]: retrying a task with exponential backoff

    options.go and retrier.go. The environment of a run (what the task
    returns at each attempt, when the caller's context ends, which ready
    channel a [select] takes, the random draws) is given as functions of the
    attempt number; the run itself is a deterministic function of it. *)

From stdpp Require Import base option list.
From Stdlib Require Import Floats.
From S2P Require Import Prelude Backoff.

#[local] Open Scope Z_scope.

Section Retrier.
(** Errors of the task and of the context. *)
Context {E CE : Type}.

(** [Retrier]. A Go [error] is an [option E]; of the observability callback
    only its presence is kept, its calls are logged by the run. *)
Record Retrier : Type := MkRetrier {
  delayFactor : float;
  attempts : Z;
  delay : Z;
  jitter : Z;
  timeout : Z;
  maxDelay : Z;
  strategy : JitterStrategy;
  retryIfFn : option E → bool;
  onRetry : bool
}.

Definition DefaultAttempts : Z := 4.
Definition DefaultDelay : Z := 1000000000.
Definition DefaultDelayFactor : float := 2%float.
Definition DefaultJitter : Z := 1000000.
Definition DefaultTimeout : Z := 1000000000.

Definition DefaultRetryIf (err : option E) : bool :=
  match err with Some _ => true | None => false end.

Definition defaultRetrier : Retrier :=
  MkRetrier DefaultDelayFactor DefaultAttempts DefaultDelay DefaultJitter DefaultTimeout 0
    JitterAdditive DefaultRetryIf false.

(** ** Options *)

Inductive option_error :=
| ErrRetryFnRequired | ErrAttempts | ErrDelay | ErrDelayFactor | ErrJitter
| ErrTimeout | ErrMaxDelay | ErrStrategy | ErrOnRetryRequired.

Definition Option : Type := Retrier → result option_error Retrier.

(** A nil function is [None]. *)
Definition WithRetryIfFn (f : option (option E → bool)) : Option := fun r =>
  match f with
  | None => Error ErrRetryFnRequired
  | Some f => Ok (MkRetrier (delayFactor r) (attempts r) (delay r) (jitter r) (timeout r)
                    (maxDelay r) (strategy r) f (onRetry r))
  end.

Definition WithAttempts (n : Z) : Option := fun r =>
  if n <? 1 then Error ErrAttempts
  else Ok (MkRetrier (delayFactor r) n (delay r) (jitter r) (timeout r)
             (maxDelay r) (strategy r) (retryIfFn r) (onRetry r)).

Definition WithDelay (d : Z) : Option := fun r =>
  if d <? 1 then Error ErrDelay
  else Ok (MkRetrier (delayFactor r) (attempts r) d (jitter r) (timeout r)
             (maxDelay r) (strategy r) (retryIfFn r) (onRetry r)).

Definition WithDelayFactor (f : float) : Option := fun r =>
  if PrimFloat.ltb f 1 then Error ErrDelayFactor
  else Ok (MkRetrier f (attempts r) (delay r) (jitter r) (timeout r)
             (maxDelay r) (strategy r) (retryIfFn r) (onRetry r)).

Definition WithJitter (j : Z) : Option := fun r =>
  if j <? 1 then Error ErrJitter
  else Ok (MkRetrier (delayFactor r) (attempts r) (delay r) j (timeout r)
             (maxDelay r) (strategy r) (retryIfFn r) (onRetry r)).

Definition WithTimeout (t : Z) : Option := fun r =>
  if t <? 1 then Error ErrTimeout
  else Ok (MkRetrier (delayFactor r) (attempts r) (delay r) (jitter r) t
             (maxDelay r) (strategy r) (retryIfFn r) (onRetry r)).

Definition WithMaxDelay (m : Z) : Option := fun r =>
  if m <? 1 then Error ErrMaxDelay
  else Ok (MkRetrier (delayFactor r) (attempts r) (delay r) (jitter r) (timeout r)
             m (strategy r) (retryIfFn r) (onRetry r)).

Definition WithJitterStrategy (s : JitterStrategy) : Option := fun r =>
  if negb (Valid s) then Error ErrStrategy
  else Ok (MkRetrier (delayFactor r) (attempts r) (delay r) (jitter r) (timeout r)
             (maxDelay r) s (retryIfFn r) (onRetry r)).

Definition WithOnRetry (set : bool) : Option := fun r =>
  if negb set then Error ErrOnRetryRequired
  else Ok (MkRetrier (delayFactor r) (attempts r) (delay r) (jitter r) (timeout r)
             (maxDelay r) (strategy r) (retryIfFn r) true).

Fixpoint apply_opts (opts : list Option) (r : Retrier) : result option_error Retrier :=
  (match opts with
   | [] => Ok r
   | o :: opts => r' <-? o r ;; apply_opts opts r'
   end)%go.

Definition New (opts : list Option) : result option_error Retrier := apply_opts opts defaultRetrier.

(** ** A run *)

(** [run], with the attempts made and the calls of [onRetry] so far, in
    order. [timer] tells whether it is armed or has fired undrained. *)
Record run : Type := MkRun {
  timer : bool;
  sched : Schedule;
  remainingAttempts : Z;
  log : list (option E);
  retries : list (Z * Z * option E)
}.

(** [exec]: [ctxEnded] is [ctx.Err() != nil] after the task. [None] only if
    the schedule's conversion is out of range. *)
Definition exec (draw : Z → Z) (r : Retrier) (taskError : option E) (ctxEnded : bool) (s : run)
    : option (bool * option E * run) :=
  let remaining := wrapU 64 (remainingAttempts s - 1) in
  let s := MkRun false (sched s) remaining (log s ++ [taskError]) (retries s) in
  if (remaining =? 0) || negb (retryIfFn r taskError) then Some (true, taskError, s)
  else if ctxEnded then Some (false, taskError, s)
  else
    n ← Next draw (sched s);
    let '(d, sched') := n in
    let retries := if onRetry r
      then retries s ++ [(wrapU 64 (attempts r - remaining), d, taskError)] else retries s in
    Some (false, taskError, MkRun true sched' remaining (log s) retries).

(** The environment: the context's error at each instant (instant [0] is the
    entry of [Run], [2 i + 1] the [i]-th select, [2 i + 2] the end of the
    [i]-th attempt), the task's result, whether a select with both channels
    ready takes the context's, and the random draws. *)
Record env : Type := Env {
  ctxErr : nat → option CE;
  task : nat → option E;
  pickDone : nat → bool;
  draw : nat → Z → Z
}.

Inductive outcome :=
| BeforeFirst (ce : CE)        (** the context had ended before the first attempt *)
| ContextEnded (ce : CE)
| TaskReturned (err : option E)
| Blocked.                     (** a select that no channel will ever release *)

Fixpoint run_loop (fuel : nat) (ev : env) (r : Retrier) (i : nat) (s : run) : option (outcome * run) :=
  match fuel with
  | O => None
  | S fuel =>
      let attempt :=
        e ← exec (draw ev i) r (task ev i) (bool_decide (is_Some (ctxErr ev (2 * i + 2)))) s;
        let '(stop, err, s') := e in
        if stop : bool then Some (TaskReturned err, s') else run_loop fuel ev r (S i) s' in
      match ctxErr ev (2 * i + 1), timer s with
      | Some ce, true => if pickDone ev i then Some (ContextEnded ce, s) else attempt
      | Some ce, false => Some (ContextEnded ce, s)
      | None, true => attempt
      | None, false => Some (Blocked, s)
      end
  end.

Definition start_run (r : Retrier) : run :=
  MkRun true (NewSchedule (MkBackoffConfig (delay r) (delayFactor r) (jitter r) (maxDelay r) (strategy r)))
    (attempts r) [] [].

Definition Run (fuel : nat) (ev : env) (r : Retrier) : option (outcome * run) :=
  match ctxErr ev 0 with
  | Some ce => Some (BeforeFirst ce, start_run r)
  | None => run_loop fuel ev r 0 (start_run r)
  end.

(** ** Facts *)

(** The configurations the options produce. *)
Record valid (r : Retrier) : Prop := RetrierValid {
  v_attempts : 1 <= attempts r < 2 ^ 64;
  v_delay : 1 <= delay r;
  v_factor : PrimFloat.ltb (delayFactor r) 1 = false;
  v_jitter : 1 <= jitter r <= MaxInt64;
  v_timeout : 1 <= timeout r;
  v_maxDelay : 0 <= maxDelay r;
  v_strategy : Valid (strategy r) = true
}.

(** The package's options, on arguments in the range of their types. *)
Inductive package_option : Option → Prop :=
| po_retry f : package_option (WithRetryIfFn f)
| po_attempts n : inU 64 n → package_option (WithAttempts n)
| po_delay d : package_option (WithDelay d)
| po_factor f : package_option (WithDelayFactor f)
| po_jitter j : inS 64 j → package_option (WithJitter j)
| po_timeout t : package_option (WithTimeout t)
| po_maxDelay m : package_option (WithMaxDelay m)
| po_strategy s : package_option (WithJitterStrategy s)
| po_onRetry b : package_option (WithOnRetry b).

Lemma default_valid : valid defaultRetrier.
Proof. constructor; simpl; try lia; done. Qed.

Lemma option_valid o r r' : package_option o → valid r → o r = Ok r' → valid r'.
Proof.
  intros Ho [] Hr. destruct Ho; cbv [WithRetryIfFn WithAttempts WithDelay WithDelayFactor WithJitter
    WithTimeout WithMaxDelay WithJitterStrategy WithOnRetry] in Hr; case_match; simplify_eq;
    try done; constructor; simpl; try done; try lia.
  - unfold inU in *. lia.
  - unfold inS, MaxInt64 in *. lia.
  - by apply negb_false_iff.
Qed.

(** [New] applies the options in order to the defaults and returns the
    first error; the retrier it returns is well formed: at least one attempt,
    positive delay, jitter and timeout, a factor that is not below one, a
    defined strategy. *)
Theorem New_correct (opts : list Option) :
  List.Forall package_option opts →
  (∃ r, New opts = Ok r ∧ valid r) ∨
  (∃ pre o post r e, opts = pre ++ o :: post ∧ New pre = Ok r ∧ valid r ∧ o r = Error e ∧ New opts = Error e).
Proof.
  unfold New. generalize default_valid. generalize defaultRetrier.
  induction opts as [|o opts IH]; intros r Hr Hall; [left; by exists r|].
  inversion Hall as [|? ? Ho Hrest]; subst; simpl. destruct (o r) as [r'|e] eqn:Hor; simpl.
  - destruct (IH r' (option_valid _ _ _ Ho Hr Hor) Hrest) as [?|(pre & o' & post & r0 & e & -> & Hp & ? & ? & Hn)];
      [by left|right].
    exists (o :: pre), o', post, r0, e. simpl. rewrite Hor. by simpl.
  - right. exists [], o, opts, r, e. simpl. by rewrite Hor.
Qed.

(** The calls of [onRetry] before the attempts [1] to [m]. *)
Definition retries_ok (ev : env) (r : Retrier) (m : nat) (l : list (Z * Z * option E)) : Prop :=
  ∃ ds, length ds = m ∧ List.Forall (fun d => 0 <= d <= MaxInt64) ds ∧
    l = if onRetry r then zip_with (fun k d => (Z.of_nat k + 1, d, task ev k)) (seq 0 m) ds else [].

(** What a finished run guarantees, [n] being the attempts it made. *)
Definition run_result (ev : env) (r : Retrier) (out : outcome) (s : run) : Prop :=
  ∃ n, log s = (task ev) <$> seq 0 n ∧ Z.of_nat n <= attempts r ∧
    (∀ k, (S k < n)%nat → retryIfFn r (task ev k) = true) ∧
    (∃ m, (m <= n)%nat ∧ retries_ok ev r m (retries s)) ∧
    match out with
    | BeforeFirst ce => n = O ∧ ctxErr ev 0 = Some ce
    | ContextEnded ce => ctxErr ev (2 * n + 1) = Some ce ∧ Z.of_nat n < attempts r ∧
        (∀ k, (k < n)%nat → retryIfFn r (task ev k) = true)
    | TaskReturned err => ∃ k, n = S k ∧ err = task ev k ∧
        (Z.of_nat n = attempts r ∨ retryIfFn r err = false)
    | Blocked => False
    end.

Lemma retryable_before r (f : nat → option E) n :
  List.Forall (fun e => retryIfFn r e = true) (f <$> seq 0 n) →
  ∀ k, (k < n)%nat → retryIfFn r (f k) = true.
Proof.
  rewrite List.Forall_forall. intros Hall k Hk. apply Hall. apply List.in_map_iff.
  exists k. split; [done|]. apply List.in_seq. lia.
Qed.

(** The state of a run between two attempts. *)
Record run_ok (ev : env) (r : Retrier) (i : nat) (s : run) : Prop := RunOk {
  ro_log : log s = (task ev) <$> seq 0 i;
  ro_remaining : remainingAttempts s = attempts r - Z.of_nat i;
  ro_left : Z.of_nat i < attempts r;
  ro_retryable : List.Forall (fun e => retryIfFn r e = true) (log s);
  ro_jitter : s_jitter (sched s) = jitter r;
  ro_armed : timer s = false → is_Some (ctxErr ev (2 * i));
  ro_retries : retries_ok ev r (if timer s then i else pred i) (retries s)
}.

(** The context stays ended once it has ended. *)
Definition ctx_stays (ev : env) : Prop :=
  ∀ i j ce, (i <= j)%nat → ctxErr ev i = Some ce → ctxErr ev j = Some ce.

Lemma retries_ok_snoc ev r m l d :
  retries_ok ev r m l → 0 <= d <= MaxInt64 →
  retries_ok ev r (S m) (if onRetry r then l ++ [(Z.of_nat m + 1, d, task ev m)] else l).
Proof.
  intros (ds & Hlen & Hall & ->) Hd. exists (ds ++ [d]).
  split; [rewrite length_app; simpl; lia|]. split; [apply List.Forall_app; split; [done|by constructor]|].
  destruct (onRetry r); [|done]. rewrite seq_S, zip_with_app by (rewrite length_seq; lia). done.
Qed.

Lemma log_snoc ev n : (task ev <$> seq 0 n) ++ [task ev n] = task ev <$> seq 0 (S n).
Proof. by rewrite seq_S, fmap_app. Qed.

(** One attempt: it ends the run as [run_result] says, or leaves a state
    between two attempts. *)
Lemma exec_spec ev r i s :
  valid r → (∀ k, draws (draw ev k)) → run_ok ev r i s → timer s = true →
  ∃ stop s', exec (draw ev i) r (task ev i) (bool_decide (is_Some (ctxErr ev (2 * i + 2)))) s
      = Some (stop, task ev i, s') ∧
    if stop : bool then run_result ev r (TaskReturned (task ev i)) s' else run_ok ev r (S i) s'.
Proof.
  intros Hv Hd [Hlog Hrem Hleft Hre Hj Har Hret] Ht. rewrite Ht in Hret.
  pose proof (v_attempts _ Hv) as Hat. unfold exec. rewrite Hlog, Hrem, log_snoc.
  rewrite wrapU_small by (unfold inU; lia).
  destruct (Z.eqb_spec (attempts r - Z.of_nat i - 1) 0) as [H0|H0]; simpl.
  { eexists _, _; split; [done|]. simpl. exists (S i). rewrite Hlog in Hre.
    split; [done|]. split; [lia|]. split; [intros k Hk; apply (retryable_before r (task ev) i Hre); lia|].
    split; [exists i; split; [lia|done]|]. exists i. split; [done|]. split; [done|]. left. lia. }
  destruct (retryIfFn r (task ev i)) eqn:Hri; simpl.
  2:{ eexists _, _; split; [done|]. simpl. exists (S i). rewrite Hlog in Hre.
    split; [done|]. split; [lia|]. split; [intros k Hk; apply (retryable_before r (task ev) i Hre); lia|].
    split; [exists i; split; [lia|done]|]. exists i. split; [done|]. split; [done|]. by right. }
  assert (Hre' : List.Forall (fun e => retryIfFn r e = true) (task ev <$> seq 0 (S i))).
  { rewrite <- log_snoc, <- Hlog. apply List.Forall_app; split; [done|by constructor]. }
  case_bool_decide as Hctx.
  - eexists _, _; split; [done|]. constructor; simpl; try done; try lia.
    intros _. by replace (i + S (i + 0))%nat with (i + (i + 0) + 1)%nat by lia;
      replace (i + (i + 0) + 2)%nat with (S (i + (i + 0) + 1)) in Hctx by lia.
  - destruct (Next_spec (draw ev i) (sched s) (Hd i)) as (dl & d & Hn & _ & _ & _ & Hdr).
    { rewrite Hj. apply (v_jitter _ Hv). }
    rewrite Hn. simpl. eexists _, _; split; [done|]. constructor; simpl; try done; try lia.
    rewrite (wrapU_small _ (attempts r - _)) by (unfold inU; lia).
    replace (attempts r - (attempts r - Z.of_nat i - 1)) with (Z.of_nat i + 1) by lia.
    by apply retries_ok_snoc.
Qed.

Lemma run_loop_spec ev r fuel : ∀ i s,
  valid r → (∀ k, draws (draw ev k)) → ctx_stays ev →
  run_ok ev r i s → attempts r < Z.of_nat (fuel + i) →
  ∃ out s', run_loop fuel ev r i s = Some (out, s') ∧ run_result ev r out s'.
Proof.
  induction fuel as [|fuel IH]; intros i s Hv Hd Hst Hs Hf; [pose proof (ro_left _ _ _ _ Hs); lia|].
  assert (Hctx : ∀ ce, ctxErr ev (2 * i + 1) = Some ce → run_result ev r (ContextEnded ce) s).
  { intros ce Hce. destruct Hs as [Hlog Hrem Hleft Hre Hj Har Hret]. exists i.
    split; [done|]. split; [lia|]. rewrite Hlog in Hre. split; [intros k Hk; apply (retryable_before r (task ev) i Hre); lia|].
    split; [exists (if timer s then i else pred i); split; [destruct (timer s); lia|done]|].
    split; [done|]. split; [done|]. intros k Hk. by apply (retryable_before r (task ev) i Hre). }
  assert (Hgo : timer s = true → ∃ out s',
    (e ← exec (draw ev i) r (task ev i) (bool_decide (is_Some (ctxErr ev (2 * i + 2)))) s;
     let '(stop, err, s') := e in
     if stop : bool then Some (TaskReturned err, s') else run_loop fuel ev r (S i) s')
    = Some (out, s') ∧ run_result ev r out s').
  { intros Ht. destruct (exec_spec ev r i s Hv Hd Hs Ht) as ([] & s' & -> & Hs'); simpl; [eauto|].
    apply IH; try done. lia. }
  cbn [run_loop]. destruct (ctxErr ev (2 * i + 1)) as [ce|] eqn:Hce; destruct (timer s) eqn:Ht.
  - destruct (pickDone ev i); [|by apply Hgo]. eexists _, _; split; [done|]. by apply Hctx.
  - eexists _, _; split; [done|]. by apply Hctx.
  - by apply Hgo.
  - destruct (ro_armed _ _ _ _ Hs Ht) as [ce Hc].
    rewrite (Hst (2 * i)%nat (2 * i + 1)%nat ce ltac:(lia) Hc) in Hce. done.
Qed.

(** C14. [Run] terminates: it never waits for a timer nobody armed, it runs
    the task at most the configured number of times, every attempt but the
    last failed in a way to be retried, and it ends with the task's last
    result (when it needs no retry or attempts are exhausted) or with the
    context's error; [onRetry] is told each retry's attempt number and delay. *)
Theorem Run_correct ev r fuel :
  valid r → (∀ k, draws (draw ev k)) → ctx_stays ev → attempts r < Z.of_nat fuel →
  ∃ out s, Run fuel ev r = Some (out, s) ∧ run_result ev r out s.
Proof.
  intros Hv Hd Hst Hf. unfold Run. pose proof (v_attempts _ Hv) as Hat.
  assert (Hr0 : retries_ok ev r 0 []) by (exists []; by destruct (onRetry r)).
  destruct (ctxErr ev 0) as [ce|] eqn:H0.
  - eexists _, _; split; [done|]. exists O. split; [done|]. split; [simpl; lia|].
    split; [intros k Hk; lia|]. split; [exists O; split; [lia|done]|]. done.
  - apply run_loop_spec; try done; [|lia]. constructor; simpl; try done; lia.
Qed.
End Retrier.

Lemma Run_correct_witness : ∃ out s,
  Run (E := nat) (CE := unit) 5
    (Env (fun _ => None) (fun i => if (i <? 2)%nat then Some 404%nat else None) (fun _ => false) (fun _ _ => 0))
    defaultRetrier = Some (out, s) ∧ out = TaskReturned None ∧ length (log s) = 3%nat.
Proof.
  destruct (Run_correct (E := nat) (CE := unit)
    (Env (fun _ => None) (fun i => if (i <? 2)%nat then Some 404%nat else None) (fun _ => false) (fun _ _ => 0))
    defaultRetrier 5) as (out & s & Hrun & Hres).
  - apply default_valid.
  - intros k n Hn. simpl. lia.
  - intros i j ce _ Hc. discriminate Hc.
  - reflexivity.
  - exists out, s. split; [exact Hrun|]. vm_compute in Hrun. injection Hrun as <- <-. split; reflexivity.
Defined.

Lemma New_correct_witness :
  ∃ r : @Retrier nat, New [WithAttempts 2; WithDelay 10] = Ok r ∧ valid r.
Proof.
  destruct (New_correct (E := nat) [WithAttempts 2; WithDelay 10]) as [H|(pre & o & post & r & e & _ & _ & _ & _ & Hn)].
  - constructor; [constructor; vm_compute; split; [discriminate|reflexivity]|]. constructor; constructor.
  - exact H.
  - vm_compute in Hn. discriminate Hn.
Defined.
