(* ===== verification/GoString.v ===== *)
(** * Go strings

    A Go [string] is a list of bytes, a byte being a [Z] below 256; the
    language's [range] over a string decodes UTF-8, one rune at a time, an
    invalid byte yielding U+FFFD and being skipped alone. Shared by every
    component that handles text. *)

From stdpp Require Import base option list.
From Stdlib Require Import String Ascii.
From S2P Require Import Prelude.

#[local] Open Scope Z_scope.

Abbreviation gostring := (list Z) (only parsing).

(** A literal. *)
Definition str (s : String.string) : gostring :=
  (fun c => Z.of_N (N_of_ascii c)) <$> String.list_ascii_of_string s.

Definition is_byte (b : Z) : Prop := 0 <= b < 256.

Definition RuneError : Z := 65533.

Definition between (lo b hi : Z) : bool := (lo <=? b) && (b <=? hi).

(** The rune at the head of a non-empty string and its width in bytes. *)
Definition decodeRune (s : gostring) : Z * nat :=
  match s with
  | [] => (RuneError, O)
  | b0 :: s1 =>
      if b0 <? 128 then (b0, 1%nat)
      else match s1 with
      | b1 :: s2 =>
          if between 194 b0 223 && between 128 b1 191 then
            ((b0 - 192) * 64 + (b1 - 128), 2%nat)
          else match s2 with
          | b2 :: s3 =>
              let ok1 := if b0 =? 224 then between 160 b1 191
                         else if b0 =? 237 then between 128 b1 159
                         else between 225 b0 239 && between 128 b1 191 in
              if ok1 && between 128 b2 191 then
                ((b0 - 224) * 4096 + (b1 - 128) * 64 + (b2 - 128), 3%nat)
              else match s3 with
              | b3 :: _ =>
                  let ok1 := if b0 =? 240 then between 144 b1 191
                             else if b0 =? 244 then between 128 b1 143
                             else between 241 b0 243 && between 128 b1 191 in
                  if ok1 && between 128 b2 191 && between 128 b3 191 then
                    ((b0 - 240) * 262144 + (b1 - 128) * 4096 + (b2 - 128) * 64 + (b3 - 128), 4%nat)
                  else (RuneError, 1%nat)
              | [] => (RuneError, 1%nat)
              end
          | [] => (RuneError, 1%nat)
          end
      | [] => (RuneError, 1%nat)
      end
  end.

(** The runes of a [range] over the string; a rune consumes at least a byte,
    so its length is enough fuel. *)
Fixpoint runes_loop (fuel : nat) (s : gostring) : list Z :=
  match fuel, s with
  | S fuel, _ :: _ => let '(r, n) := decodeRune s in r :: runes_loop fuel (drop n s)
  | _, _ => []
  end.

Definition runes (s : gostring) : list Z := runes_loop (length s) s.

(** [strings.Builder.WriteRune]: the UTF-8 encoding of a rune, that of U+FFFD
    for an invalid one. *)
Definition encodeRune (r : Z) : gostring :=
  if between 0 r 127 then [r]
  else if between 128 r 2047 then [192 + r / 64; 128 + r mod 64]
  else if between 2048 r 55295 || between 57344 r 65535 then
    [224 + r / 4096; 128 + (r / 64) mod 64; 128 + r mod 64]
  else if between 65536 r 1114111 then
    [240 + r / 262144; 128 + (r / 4096) mod 64; 128 + (r / 64) mod 64; 128 + r mod 64]
  else [239; 191; 189].

Ltac rune_cases :=
  repeat match goal with
    | |- context [match ?x with _ => _ end] => destruct x eqn:?; simpl in *
    end.

Lemma decodeRune_width s : s ≠ [] → (1 <= (decodeRune s).2 <= length s)%nat.
Proof.
  destruct s as [|b0 s1]; [done|]. intros _. unfold decodeRune.
  destruct (b0 <? 128); [simpl; lia|]. destruct s1 as [|b1 s2]; [simpl; lia|].
  destruct (_ && _); [simpl; lia|]. destruct s2 as [|b2 s3]; [simpl; lia|].
  destruct (_ && _); [simpl; lia|]. destruct s3 as [|b3 s4]; [simpl; lia|].
  destruct (_ && _); simpl; lia.
Qed.

Lemma runes_loop_fuel fuel : ∀ s, (length s <= fuel)%nat → runes_loop fuel s = runes s.
Proof.
  enough (He : ∀ n s fuel, (length s <= n)%nat → (length s <= fuel)%nat →
    runes_loop fuel s = runes_loop (length s) s).
  { intros s Hs. by apply (He (length s)). }
  induction n as [|n IH]; intros s f Hn Hf.
  { destruct s; simpl in *; [by destruct f|lia]. }
  destruct s as [|b s]; [by destruct f|]. destruct f as [|f]; [simpl in Hf; lia|].
  pose proof (decodeRune_width (b :: s) ltac:(done)) as Hw.
  cbn [runes_loop length]. destruct (decodeRune (b :: s)) as [r w]. cbn [snd] in Hw. f_equal.
  assert (Hl : (length (drop w (b :: s)) <= length s)%nat).
  { rewrite length_drop. simpl in *. lia. }
  simpl in Hn, Hf. rewrite (IH _ f), (IH _ (length s)) by lia. done.
Qed.

Lemma runes_nil : runes [] = [].
Proof. done. Qed.

Lemma runes_cons b s : runes (b :: s) = (decodeRune (b :: s)).1 :: runes (drop (decodeRune (b :: s)).2 (b :: s)).
Proof.
  unfold runes at 1. cbn [length runes_loop].
  pose proof (decodeRune_width (b :: s) ltac:(done)) as Hw.
  destruct (decodeRune (b :: s)) as [r w]. cbn [fst snd] in *. f_equal.
  apply runes_loop_fuel. rewrite length_drop. simpl in *. lia.
Qed.

Lemma runes_ascii_cons b s : b < 128 → runes (b :: s) = b :: runes s.
Proof.
  intros Hb. rewrite runes_cons.
  assert (Hd : decodeRune (b :: s) = (b, 1%nat)).
  { unfold decodeRune. by rewrite (proj2 (Z.ltb_lt _ _)). }
  by rewrite Hd.
Qed.

Lemma runes_ascii s : List.Forall (fun b => b < 128) s → runes s = s.
Proof. induction 1; [done|]. by rewrite runes_ascii_cons, IHForall. Qed.

(** A rune that takes more than one byte takes only non-ASCII bytes, and is
    not ASCII either. *)
Lemma decodeRune_nonascii b s r w : 128 <= b → decodeRune (b :: s) = (r, w) →
  128 <= r ∧ List.Forall (fun c => 128 <= c) (take w (b :: s)).
Proof.
  intros Hb Hd. unfold decodeRune in Hd. rewrite (proj2 (Z.ltb_ge _ _)) in Hd by done.
  unfold between, RuneError in Hd. rewrite <- ?andb_assoc in Hd.
  repeat match type of Hd with
    | context [match ?x with [] => _ | _ :: _ => _ end] => destruct x as [|? ?]
    | (if ?c then _ else _) = _ => let E := fresh "E" in destruct c eqn:E
    end; simplify_eq/=; rewrite ?andb_true_iff, ?Z.leb_le in *;
    repeat match goal with H : context [if ?c then _ else _] |- _ => destruct c eqn:? end;
    rewrite ?andb_true_iff, ?Z.leb_le, ?Z.eqb_eq, ?Z.eqb_neq in *;
    (split; [lia|repeat constructor; lia]).
Qed.

(** Code that only looks at ASCII sees the bytes themselves. *)
Lemma runes_omap {A} (f : Z → option A) s :
  (∀ r, 128 <= r → f r = None) → omap f (runes s) = omap f s.
Proof.
  intros Hf. remember (length s) as n eqn:Hn. revert s Hn.
  induction (lt_wf n) as [n _ IH]. intros [|b s] ->; [done|].
  destruct (Z.lt_ge_cases b 128) as [Hb|Hb].
  { rewrite runes_ascii_cons by done. simpl. by rewrite (IH (length s)) by (simpl; lia). }
  pose proof (decodeRune_width (b :: s) ltac:(done)) as Hw. rewrite runes_cons.
  destruct (decodeRune (b :: s)) as [r w] eqn:Hd. cbn [fst snd] in *.
  destruct (decodeRune_nonascii _ _ _ _ Hb Hd) as [Hr Hall].
  assert (Hdrop : omap f (b :: s) = omap f (drop w (b :: s))).
  { rewrite <- (take_drop w (b :: s)) at 1. rewrite omap_app. clear Hd Hw.
    induction Hall as [|c l Hc _ IHl]; [done|]. simpl. by rewrite (Hf c Hc). }
  rewrite Hdrop. cbn [omap list_omap]. rewrite (Hf r Hr).
  apply (IH (length (drop w (b :: s)))); [rewrite length_drop; simpl in *; lia|done].
Qed.

(** ** Order *)

(** [slices.Sort] on strings: bytewise lexicographic. *)
Fixpoint str_leb (s t : gostring) : bool :=
  match s, t with
  | [], _ => true
  | _ :: _, [] => false
  | a :: s, b :: t => (a <? b) || ((a =? b) && str_leb s t)
  end.

Definition str_le (s t : gostring) : Prop := str_leb s t = true.

#[export] Instance str_le_dec : RelDecision str_le.
Proof. intros s t. unfold str_le. apply _. Defined.

#[export] Instance str_le_total : Total str_le.
Proof.
  intros s. induction s as [|a s IH]; intros [|b t]; unfold str_le; simpl; [by left|by left|by right|].
  destruct (Z.ltb_spec a b), (Z.ltb_spec b a), (Z.eqb_spec a b), (Z.eqb_spec b a); simpl; try lia; auto.
  apply IH.
Qed.

#[export] Instance str_le_trans : Transitive str_le.
Proof.
  intros s. unfold str_le. induction s as [|a s IH]; intros [|b t] [|c u]; simpl; try done.
  rewrite !orb_true_iff, !andb_true_iff, !Z.ltb_lt, !Z.eqb_eq.
  intros [?|[-> Hst]] [?|[-> Htu]]; [left; lia..|]. right. split; [done|]. by eapply IH.
Qed.

#[export] Instance str_le_antisymm : AntiSymm (=) str_le.
Proof.
  intros s. unfold str_le. induction s as [|a s IH]; intros [|b t]; simpl; try done.
  rewrite !orb_true_iff, !andb_true_iff, !Z.ltb_lt, !Z.eqb_eq.
  intros [?|[Hab Hs]] [?|[Hba Ht]]; try lia. f_equal; [done|by apply IH].
Qed.
