(* ===== verification/GoText.v ===== *)
(** * The parts of packages strings and strconv in use

    Bytewise searches, [Split], [SplitN] and [Cut] on a separator, [ToLower]
    with the lower-casing of non-ASCII runes as an argument, and decimal
    numbers. *)

From stdpp Require Import base option list.
From S2P Require Import Prelude GoString.

#[local] Open Scope Z_scope.

(** [bool]-valued equality of strings. *)
Definition str_eqb (s t : gostring) : bool := bool_decide (s = t).

Fixpoint HasPrefix (s p : gostring) {struct p} : bool :=
  match p, s with
  | [], _ => true
  | c :: p, d :: s => (c =? d) && HasPrefix s p
  | _ :: _, [] => false
  end.

Definition strHasSuffix (s p : gostring) : bool :=
  (length p <=? length s)%nat && str_eqb (drop (length s - length p) s) p.

Fixpoint Contains (s p : gostring) : bool :=
  HasPrefix s p || match s with [] => false | _ :: s => Contains s p end.

Definition CutPrefix (s p : gostring) : option gostring :=
  if HasPrefix s p then Some (drop (length p) s) else None.

(** [strings.Split] on a separator of one byte: never empty. *)
Fixpoint Split (c : Z) (s : gostring) : list gostring :=
  match s with
  | [] => [[]]
  | d :: s =>
      if d =? c then [] :: Split c s
      else match Split c s with
           | w :: ws => (d :: w) :: ws
           | [] => [[d]]
           end
  end.

Fixpoint Count (c : Z) (s : gostring) : Z :=
  match s with
  | [] => 0
  | d :: s => (if d =? c then 1 else 0) + Count c s
  end.

Definition is_ascii (s : gostring) : bool := forallb (fun b => b <? 128) s.

Definition lowerASCII (c : Z) : Z := if between 65 c 90 then c + 32 else c.

(** [strings.ToLower]: rune by rune once a byte is not ASCII, an invalid one
    becoming U+FFFD. *)
Definition strToLower (unicodeLower : Z → Z) (s : gostring) : gostring :=
  if is_ascii s then lowerASCII <$> s
  else runes s ≫= (fun r => encodeRune (if r <? 128 then lowerASCII r else unicodeLower r)).

Lemma HasPrefix_spec s p : HasPrefix s p = true ↔ ∃ r, s = p ++ r.
Proof.
  revert s. induction p as [|c p IH]; intros s; simpl; [split; [by exists s|done]|].
  destruct s as [|d s]; [split; [done|intros [r Hr]; done]|]. rewrite andb_true_iff, Z.eqb_eq, IH. split.
  - intros [-> [r ->]]. by exists r.
  - intros [r Hr]. simplify_eq. eauto.
Qed.

Lemma strHasSuffix_spec s p : strHasSuffix s p = true ↔ ∃ r, s = r ++ p.
Proof.
  unfold strHasSuffix, str_eqb. rewrite andb_true_iff, Nat.leb_le, bool_decide_eq_true. split.
  - intros [Hl Hd]. exists (take (length s - length p) s). rewrite <- Hd at 2. by rewrite take_drop.
  - intros [r ->]. rewrite length_app. split; [lia|].
    replace (length r + length p - length p)%nat with (length r) by lia. by rewrite drop_app_length.
Qed.

Lemma Contains_spec s p : Contains s p = true ↔ ∃ l r, s = l ++ p ++ r.
Proof.
  induction s as [|d s IH]; cbn [Contains]; rewrite orb_true_iff, HasPrefix_spec.
  - split; [intros [[r Hr]|]; [by exists [], r|done]|]. intros ([|] & r & Hr); [left; eauto|done].
  - rewrite IH. split.
    + intros [[r Hr]|(l & r & ->)]; [by exists [], r|by exists (d :: l), r].
    + intros ([|x l] & r & Hr); [left; eauto|right]. simplify_eq/=. eauto.
Qed.

Lemma Count_nonneg c s : 0 <= Count c s.
Proof. induction s as [|d s IH]; simpl; [lia|]. case_match; lia. Qed.

Lemma Split_length c s : Z.of_nat (length (Split c s)) = Count c s + 1.
Proof.
  induction s as [|d s IH]; [done|]. cbn [Split Count]. destruct (d =? c).
  - cbn [length]. lia.
  - pose proof (Count_nonneg c s). destruct (Split c s); cbn [length] in *; lia.
Qed.

Lemma encodeRune_ascii r : 0 <= r < 128 → encodeRune r = [r].
Proof. intros Hr. unfold encodeRune, between. by rewrite (proj2 (Z.leb_le 0 r)), (proj2 (Z.leb_le r 127)) by lia. Qed.

(** An ASCII byte in front is lower-cased on its own. *)
Lemma strToLower_cons U b s : 0 <= b < 128 → strToLower U (b :: s) = lowerASCII b :: strToLower U s.
Proof.
  intros Hb. unfold strToLower. cbn [is_ascii forallb]. rewrite (proj2 (Z.ltb_lt b 128)) by lia. cbn [andb].
  fold (is_ascii s). destruct (is_ascii s); [done|]. rewrite runes_ascii_cons by lia. cbn [mbind list_bind].
  rewrite (proj2 (Z.ltb_lt b 128)), encodeRune_ascii by (unfold lowerASCII, between; repeat case_match; lia).
  done.
Qed.

(** [strings.Split] is undone by joining. *)
Fixpoint Join (c : Z) (ws : list gostring) : gostring :=
  match ws with
  | [] => []
  | [w] => w
  | w :: ws => w ++ c :: Join c ws
  end.

Lemma Join_Split c s : Join c (Split c s) = s.
Proof.
  induction s as [|d s IH]; [done|]. cbn [Split]. destruct (Z.eqb_spec d c) as [->|Hd].
  - pose proof (Split_length c s). destruct (Split c s) as [|w ws]; [|by simpl in *; f_equal].
    pose proof (Count_nonneg c s). simpl in *. lia.
  - destruct (Split c s) as [|w [|w' ws]]; simpl in *; by f_equal.
Qed.

(** ** Decimal numbers *)

Definition digitVal (b : Z) : option Z := if between 48 b 57 then Some (b - 48) else None.

Fixpoint digits_value (acc : Z) (s : gostring) : option Z :=
  match s with
  | [] => Some acc
  | b :: s => d ← digitVal b; digits_value (10 * acc + d) s
  end.

Definition number_value (s : gostring) : option Z := match s with [] => None | _ => digits_value 0 s end.

Definition is_digits (s : gostring) : Prop := s ≠ [] ∧ Forall (fun b => 48 <= b <= 57) s.

(** Positional notation. *)
Fixpoint decimal (s : gostring) : Z :=
  match s with
  | [] => 0
  | b :: s => (b - 48) * 10 ^ Z.of_nat (length s) + decimal s
  end.

Lemma digits_value_spec s : ∀ acc, Forall (fun b => 48 <= b <= 57) s →
  digits_value acc s = Some (acc * 10 ^ Z.of_nat (length s) + decimal s).
Proof.
  induction s as [|b s IH]; intros acc Hs; [cbn; f_equal; lia|]. apply Forall_cons in Hs as [Hb Hs].
  cbn [digits_value decimal length]. unfold digitVal, between.
  rewrite (proj2 (Z.leb_le 48 b)), (proj2 (Z.leb_le b 57)) by lia. cbn [andb mbind option_bind].
  rewrite IH by done. f_equal. rewrite Nat2Z.inj_succ, Z.pow_succ_r by lia. lia.
Qed.

Lemma number_value_spec s : is_digits s → number_value s = Some (decimal s).
Proof. intros [Hne Hs]. destruct s; [done|]. unfold number_value. rewrite digits_value_spec by done. f_equal. Qed.

Lemma decimal_nonneg s : Forall (fun b => 48 <= b <= 57) s → 0 <= decimal s.
Proof.
  induction 1 as [|b s Hb Hs IH]; cbn [decimal]; [done|]. assert (0 <= 10 ^ Z.of_nat (length s)) by (apply Z.pow_nonneg; lia). nia.
Qed.

(** [strconv.ParseUint(s, 10, bits)]. *)
Definition ParseUintBits (bits : Z) (s : gostring) : option Z :=
  n ← number_value s; if n <? 2 ^ bits then Some n else None.

(** [strconv.ParseInt(s, 10, 64)]. *)
Definition ParseInt (s : gostring) : option Z :=
  match s with
  | 45 :: s => n ← number_value s; if n <=? 2 ^ 63 then Some (- n) else None
  | 43 :: s => n ← number_value s; if n <? 2 ^ 63 then Some n else None
  | s => n ← number_value s; if n <? 2 ^ 63 then Some n else None
  end.

(** [%d] of an unsigned integer of at most 64 bits. *)
Fixpoint format_loop (fuel : nat) (n : Z) (acc : gostring) : gostring :=
  match fuel with
  | O => acc
  | S fuel => if n <? 10 then 48 + n :: acc else format_loop fuel (n / 10) (48 + n mod 10 :: acc)
  end.

Definition FormatUint (n : Z) : gostring := format_loop 20 n [].

(** [strconv.FormatInt] in base 10, on 64 bits. *)
Definition FormatInt (n : Z) : gostring := if n <? 0 then 45 :: FormatUint (- n) else FormatUint n.

Lemma decimal_app s t : decimal (s ++ t) = decimal s * 10 ^ Z.of_nat (length t) + decimal t.
Proof.
  induction s as [|b s IH]; [done|]. cbn [decimal app]. rewrite IH, length_app, Nat2Z.inj_add, Z.pow_add_r by lia. lia.
Qed.

Lemma format_loop_spec fuel : ∀ n acc, 0 <= n < 10 ^ Z.of_nat fuel → (0 < fuel)%nat →
  ∃ ds, format_loop fuel n acc = ds ++ acc ∧ is_digits ds ∧ decimal ds = n.
Proof.
  induction fuel as [|fuel IH]; intros n acc Hn Hf; [lia|]. cbn [format_loop]. destruct (Z.ltb_spec n 10).
  - exists [48 + n]. split; [done|]. split; [split; [done|repeat constructor; lia]|]. cbn. lia.
  - destruct fuel as [|fuel]; [cbn in Hn; lia|]. rewrite Nat2Z.inj_succ, Z.pow_succ_r in Hn by lia.
    pose proof (Z.mod_pos_bound n 10). pose proof (Z.div_mod n 10).
    destruct (IH (n / 10) (48 + n mod 10 :: acc)) as (ds & -> & [Hne Hds] & Hv); [|lia|].
    { split; [apply Z.div_pos; lia|]. apply Z.div_lt_upper_bound; lia. }
    exists (ds ++ [48 + n mod 10]). split; [by rewrite <- app_assoc|]. split.
    + split; [by destruct ds|]. apply Forall_app. split; [done|]. repeat constructor; lia.
    + rewrite decimal_app. cbn. lia.
Qed.

Lemma FormatUint_spec n : 0 <= n < 2 ^ 64 → is_digits (FormatUint n) ∧ decimal (FormatUint n) = n.
Proof.
  intros Hn. destruct (format_loop_spec 20 n []) as (ds & Hf & Hd & Hv); [|lia|].
  - assert (2 ^ 64 < 10 ^ Z.of_nat 20) by done. lia.
  - unfold FormatUint. rewrite Hf, app_nil_r. done.
Qed.

Lemma ParseUint_FormatUint bits n : 0 <= n < 2 ^ bits → bits <= 64 → ParseUintBits bits (FormatUint n) = Some n.
Proof.
  intros Hn Hb. assert (2 ^ bits <= 2 ^ 64) by (apply Z.pow_le_mono_r; lia).
  destruct (FormatUint_spec n) as [Hd Hv]; [lia|]. unfold ParseUintBits. rewrite number_value_spec, Hv by done.
  cbn [mbind option_bind]. by rewrite (proj2 (Z.ltb_lt _ _)) by lia.
Qed.

(** ** Splitting at most so many times *)

(** Around the first [c]. *)
Fixpoint Cut (c : Z) (s : gostring) : option (gostring * gostring) :=
  match s with
  | [] => None
  | d :: s =>
      if d =? c then Some ([], s)
      else '(before, after) ← Cut c s; Some (d :: before, after)
  end.

(** [strings.SplitN] for a positive [n]: the last part keeps its
    separators. *)
Fixpoint SplitN (c : Z) (n : nat) (s : gostring) : list gostring :=
  match n with
  | O => []
  | S n =>
      match n, Cut c s with
      | S _, Some (before, after) => before :: SplitN c n after
      | _, _ => [s]
      end
  end.

Lemma Cut_first c w s : Forall (fun d => d ≠ c) w → Cut c (w ++ c :: s) = Some (w, s).
Proof.
  induction 1 as [|d w Hd _ IH]; cbn [app Cut]; [by rewrite Z.eqb_refl|].
  rewrite (proj2 (Z.eqb_neq d c)) by done. by rewrite IH.
Qed.

Lemma Cut_none c w : Forall (fun d => d ≠ c) w → Cut c w = None.
Proof.
  induction 1 as [|d w Hd _ IH]; [done|]. cbn [Cut]. rewrite (proj2 (Z.eqb_neq d c)) by done. by rewrite IH.
Qed.

Lemma Cut_join c s a b : Cut c s = Some (a, b) → s = a ++ c :: b ∧ Forall (fun d => d ≠ c) a.
Proof.
  revert a b. induction s as [|d s IH]; intros a b H; [done|]. cbn [Cut] in H.
  destruct (Z.eqb_spec d c) as [->|]; [by simplify_eq|].
  destruct (Cut c s) as [[a' b']|]; [|done]. cbn in H. simplify_eq. destruct (IH _ _ eq_refl) as [-> ?].
  split; [done|by constructor].
Qed.

(** Joining parts free of the separator and splitting them again. *)
Lemma SplitN_Join c ws : ∀ n, (length ws < n)%nat → ws ≠ [] → Forall (Forall (fun d => d ≠ c)) ws →
  SplitN c n (Join c ws) = ws.
Proof.
  induction ws as [|w ws IH]; intros n Hn Hne Hws; [done|]. apply Forall_cons in Hws as [Hw Hws].
  destruct n as [|n]; [lia|]. destruct ws as [|w' ws].
  - cbn [Join SplitN]. rewrite Cut_none by done. by destruct n.
  - change (Join c (w :: w' :: ws)) with (w ++ c :: Join c (w' :: ws)). cbn [SplitN]. rewrite Cut_first by done.
    destruct n as [|n]; [simpl in Hn; lia|]. f_equal. apply IH; [simpl in *; lia|done|done].
Qed.

(** The parts of a split that was not capped join to the text. *)
Lemma Join_SplitN c n s : (0 < n)%nat → Join c (SplitN c n s) = s.
Proof.
  revert s. induction n as [|n IH]; intros s Hn; [lia|]. cbn [SplitN]. destruct n as [|n]; [done|].
  destruct (Cut c s) as [[a b]|] eqn:Hc; [|done]. apply Cut_join in Hc as [-> _].
  assert (Hj : Join c (SplitN c (S n) b) = b) by (apply IH; lia). 
  destruct (SplitN c (S n) b) as [|w ws] eqn:Hs; [|cbn [Join]; by rewrite <- Hj].
  cbn [SplitN] in Hs. by destruct n, (Cut c b) as [[? ?]|].
Qed.

(** ** Characters and lengths *)

Lemma format_loop_length fuel : ∀ n acc, (length (format_loop fuel n acc) <= fuel + length acc)%nat.
Proof.
  induction fuel as [|fuel IH]; intros n acc; cbn [format_loop]; [lia|]. case_match; [simpl; lia|].
  specialize (IH (n / 10) (48 + n mod 10 :: acc)). simpl in IH. lia.
Qed.

Lemma FormatUint_length n : (length (FormatUint n) <= 20)%nat.
Proof. unfold FormatUint. etransitivity; [apply format_loop_length|]. cbn [length]. lia. Qed.

Lemma FormatUint_digits n : 0 <= n < 2 ^ 64 → Forall (fun b => 48 <= b <= 57) (FormatUint n).
Proof. intros Hn. apply FormatUint_spec in Hn as [[_ Hd] _]. done. Qed.

Lemma FormatUint_bytes n : 0 <= n < 2 ^ 64 → Forall is_byte (FormatUint n).
Proof. intros Hn. eapply Forall_impl; [by apply FormatUint_digits|]. unfold is_byte. cbn. lia. Qed.

Lemma Forall_Forall_impl {A} (P Q : A → Prop) ll : (∀ x, P x → Q x) → Forall (Forall P) ll → Forall (Forall Q) ll.
Proof. intros HPQ Hll. eapply Forall_impl; [exact Hll|]. intros l Hl. by eapply Forall_impl. Qed.

Lemma Forall_Join (P : Z → Prop) c ws : P c → Forall (Forall P) ws → Forall P (Join c ws).
Proof.
  intros Hc. induction 1 as [|w [|w' ws] Hw _ IH]; [constructor|done|].
  change (Join c (w :: w' :: ws)) with (w ++ c :: Join c (w' :: ws)). apply Forall_app. split; [done|by constructor].
Qed.

(** As many digits as the number needs. *)
Lemma format_loop_short fuel k : ∀ n acc, 0 <= n < 10 ^ Z.of_nat k → (0 < k)%nat → (length (format_loop fuel n acc) <= k + length acc)%nat.
Proof.
  revert k. induction fuel as [|fuel IH]; intros k n acc Hn Hk; cbn [format_loop]; [lia|]. destruct (Z.ltb_spec n 10); [simpl; lia|].
  destruct k as [|[|k]]; [lia|cbn in Hn; lia|]. rewrite Nat2Z.inj_succ, Z.pow_succ_r in Hn by lia.
  specialize (IH (S k) (n / 10) (48 + n mod 10 :: acc)). simpl in IH. etransitivity; [apply IH|]; [|lia|lia].
  split; [apply Z.div_pos; lia|]. apply Z.div_lt_upper_bound; lia.
Qed.
