(* ===== verification/Random.v ===== *)
(** * [pkg/random]: random bytes and strings

    random.go and options.go: reading entropy from an [io.Reader] that may be
    short, slow or stuck, and the rejection sampling of [RandString], in place
    in the output buffer. The integers and the identifiers of the other files
    are in [RandomID]. *)

From stdpp Require Import base option list.
From Stdlib Require Import String.
From S2P Require Import Prelude GoString.

#[local] Open Scope Z_scope.

Inductive rerror : Type :=
| ErrNegativeLength
| ErrReaderNoProgress
| ErrInvalidCharMap
| EOF
| ErrUnexpectedEOF
| ReadFailure (code : Z).

#[export] Instance rerror_eq_dec : EqDecision rerror.
Proof. solve_decision. Defined.

(** An [io.Reader] over a state [R]: given room for [n] bytes it delivers some
    of them, perhaps with an error. *)
Class Reader (R : Type) : Type := {
  Read : R → nat → gostring * option rerror * R;
  Read_room r n : (length (Read r n).1.1 <= n)%nat;
  Read_bytes r n : Forall is_byte (Read r n).1.1
}.

Definition chrDigits : gostring := str "0123456789".
Definition chrUppercase : gostring := str "ABCDEFGHIJKLMNOPQRSTUVWXYZ".
Definition chrLowercase : gostring := str "abcdefghijklmnopqrstuvwxyz".
Definition chrSymbols : gostring := str "!#$%&()*+,-./:;<=>?@[]^_{|}~".
Definition chrMapDefault : gostring := chrDigits ++ chrUppercase ++ chrLowercase ++ chrSymbols.

Definition byteRange : Z := 256.
Definition chrMapMaxLen : Z := byteRange.
Definition maxEmptyReads : nat := 100.
Definition maxStalledPasses : nat := 128.

(** [WithByteToCharMap]: the character map it installs. *)
Definition WithByteToCharMap (cm : gostring) : gostring :=
  if (length cm =? 0)%nat then chrMapDefault
  else if chrMapMaxLen <? Z.of_nat (length cm) then take (Z.to_nat chrMapMaxLen) cm
  else cm.

(** [readError]. *)
Definition readError (err : rerror) (read : nat) : rerror :=
  if decide (err = EOF) then if (0 <? read)%nat then ErrUnexpectedEOF else EOF else err.

Section Random.
Context {R : Type} `{RD : Reader R}.

(** The loop of [readFull]: [buf] has been filled so far, [want] is its full
    length. *)
Fixpoint readFull_loop (fuel : nat) (want : nat) (buf : gostring) (empty : nat) (r : R)
    : option (result rerror gostring * R) :=
  if (want <=? length buf)%nat then Some (Ok buf, r)
  else match fuel with
  | O => None
  | S fuel =>
      let '(bs, err, r) := Read r (want - length buf) in
      let buf := buf ++ bs in
      if (want <=? length buf)%nat then Some (Ok buf, r)
      else match err with
      | Some e => Some (Error (readError e (length buf)), r)
      | None =>
          if (0 <? length bs)%nat then readFull_loop fuel want buf 0 r
          else if (maxEmptyReads <=? S empty)%nat then Some (Error ErrReaderNoProgress, r)
          else readFull_loop fuel want buf (S empty) r
      end
  end.

(** [readFull] into a buffer of [want] bytes. *)
Definition readFull (want : nat) (r : R) : option (result rerror gostring * R) :=
  readFull_loop (S want * maxEmptyReads) want [] 0 r.

Definition RandomBytes (n : Z) (r : R) : option (result rerror gostring * R) :=
  if n <? 0 then Some (Error ErrNegativeLength, r) else readFull (Z.to_nat n) r.

(** The loop of [mapAccepted]: the entropy at [j] is mapped to [filled]. *)
Fixpoint mapAccepted_loop (fuel : nat) (chrMap : gostring) (limit cmlen : Z) (b : gostring) (filled j : nat)
    : option (gostring * nat) :=
  match fuel with
  | O => Some (b, filled)
  | S fuel =>
      v ← b !! j;
      if limit <=? v then mapAccepted_loop fuel chrMap limit cmlen b filled (S j)
      else
        c ← aget chrMap (v mod cmlen);
        mapAccepted_loop fuel chrMap limit cmlen (<[filled := c]> b) (S filled) (S j)
  end.

(** [mapAccepted]: [for j := start; j < len(b); j++]. *)
Definition mapAccepted (chrMap : gostring) (b : gostring) (start : nat) (limit cmlen : Z) : option (gostring * nat) :=
  mapAccepted_loop (length b - start) chrMap limit cmlen b start start.

(** The loop of [RandString]. *)
Fixpoint RandString_loop (fuel : nat) (chrMap : gostring) (limit cmlen : Z) (n : nat) (b : gostring)
    (filled stalled : nat) (r : R) : option (result rerror gostring * R) :=
  if (n <=? filled)%nat then Some (Ok b, r)
  else match fuel with
  | O => None
  | S fuel =>
      '(res, r) ← readFull (n - filled) r;
      match res with
      | Error e => Some (Error e, r)
      | Ok bs =>
          '(b, filled') ← mapAccepted chrMap (take filled b ++ bs) filled limit cmlen;
          if (filled <? filled')%nat then RandString_loop fuel chrMap limit cmlen n b filled' 0 r
          else if (maxStalledPasses <=? S stalled)%nat then Some (Error ErrReaderNoProgress, r)
          else RandString_loop fuel chrMap limit cmlen n b filled' (S stalled) r
      end
  end.

Definition RandString (chrMap : gostring) (n : Z) (r : R) : option (result rerror gostring * R) :=
  if n <? 0 then Some (Error ErrNegativeLength, r)
  else
    let cmlen := Z.of_nat (length chrMap) in
    if (cmlen <? 1) || (byteRange <? cmlen) then Some (Error ErrInvalidCharMap, r)
    else
      let limit := byteRange - byteRange mod cmlen in
      RandString_loop (S (Z.to_nat n) * maxStalledPasses) chrMap limit cmlen (Z.to_nat n)
        (replicate (Z.to_nat n) 0) 0 0 r.

(** ** What the reader delivered *)

(** Some calls of [Read] take the reader from one state to another and
    deliver these bytes. *)
Inductive delivers : R → gostring → R → Prop :=
| delivers_nil r : delivers r [] r
| delivers_read r n bs err r1 rest r2 :
    Read r n = (bs, err, r1) → delivers r1 rest r2 → delivers r (bs ++ rest) r2.

Lemma delivers_app r a r1 b r2 : delivers r a r1 → delivers r1 b r2 → delivers r (a ++ b) r2.
Proof.
  induction 1 as [|r n bs err r1' rest r2' Hr _ IH]; intros Hb; [done|]. rewrite <- app_assoc. eapply delivers_read; [done|by apply IH].
Qed.

Lemma readFull_loop_spec fuel : ∀ want buf empty r,
  (length buf <= want)%nat → (empty < maxEmptyReads)%nat → ((S (want - length buf)) * maxEmptyReads <= fuel + empty)%nat →
  ∃ res r' bs, readFull_loop fuel want buf empty r = Some (res, r') ∧ delivers r bs r' ∧
    match res with Ok out => out = buf ++ bs ∧ length out = want ∧ Forall is_byte bs | Error _ => True end.
Proof.
  induction fuel as [|fuel IH]; intros want buf empty r Hlen Hempty Hfuel; cbn [readFull_loop].
  { unfold maxEmptyReads in *. destruct (Nat.leb_spec want (length buf)); [|lia].
    exists (Ok buf), r, []. split; [done|]. split; [constructor|]. rewrite app_nil_r. repeat split; [lia|constructor]. }
  destruct (Nat.leb_spec want (length buf)).
  { exists (Ok buf), r, []. split; [done|]. split; [constructor|]. rewrite app_nil_r. repeat split; [lia|constructor]. }
  pose proof (Read_room r (want - length buf)) as Hroom. pose proof (Read_bytes r (want - length buf)) as Hbytes.
  destruct (Read r (want - length buf)) as [[bs err] r1] eqn:Hread. cbn [fst] in *.
  assert (Hd : delivers r bs r1) by (rewrite <- (app_nil_r bs); eapply delivers_read; [done|constructor]).
  destruct (Nat.leb_spec want (length (buf ++ bs))) as [Hfull|Hmore]; rewrite length_app in *.
  { exists (Ok (buf ++ bs)), r1, bs. split; [done|]. split; [done|]. rewrite length_app. repeat split; [lia|done]. }
  destruct err as [e|]; [by exists (Error (readError e (length buf + length bs))), r1, bs|].
  destruct (Nat.ltb_spec 0 (length bs)) as [Hpos|Hzero].
  - destruct (IH want (buf ++ bs) 0%nat r1) as (res & r2 & bs2 & -> & Hd2 & Hres).
    { rewrite length_app; lia. } { unfold maxEmptyReads; lia. } { rewrite length_app. unfold maxEmptyReads in *; lia. }
    exists res, r2, (bs ++ bs2). split; [done|]. split; [by eapply delivers_app|].
    destruct res; [|done]. destruct Hres as (-> & ? & ?). rewrite <- app_assoc in *. repeat split; [done|]. by apply Forall_app.
  - destruct (Nat.leb_spec maxEmptyReads (S empty)); [by exists (Error ErrReaderNoProgress), r1, bs|].
    destruct bs as [|b bs]; [|simpl in Hzero; lia]. rewrite app_nil_r.
    destruct (IH want buf (S empty) r1) as (res & r2 & bs2 & -> & Hd2 & Hres); [lia|lia|unfold maxEmptyReads in *; lia|].
    exists res, r2, bs2. split; [done|]. split; [|done]. by apply (delivers_app r [] r1).
Qed.

(** [readFull] always returns; a success fills the buffer with what the
    reader delivered. *)
Lemma readFull_spec want r : ∃ res r' bs, readFull want r = Some (res, r') ∧ delivers r bs r' ∧
  match res with Ok out => out = bs ∧ length out = want ∧ Forall is_byte bs | Error _ => True end.
Proof. apply readFull_loop_spec; [simpl; lia|unfold maxEmptyReads; lia|simpl length; lia]. Qed.

Lemma RandomBytes_spec n r : 0 <= n → ∃ res r', RandomBytes n r = Some (res, r') ∧
  match res with Ok out => Z.of_nat (length out) = n ∧ Forall is_byte out | Error _ => True end.
Proof.
  intros Hn. unfold RandomBytes. rewrite (proj2 (Z.ltb_ge _ _)) by lia.
  destruct (readFull_spec (Z.to_nat n) r) as (res & r' & bs & -> & _ & Hres). exists res, r'. split; [done|].
  destruct res; [|done]. destruct Hres as (-> & ? & ?). split; [lia|done].
Qed.

(** ** Rejection sampling *)

Definition pick (chrMap : gostring) (v : Z) : Z := default 0 (aget chrMap (v mod Z.of_nat (length chrMap))).

(** The characters of the accepted bytes, in the order they came. *)
Definition sample (chrMap : gostring) (limit : Z) (bs : gostring) : gostring :=
  pick chrMap <$> filter (fun v => v < limit) bs.

Lemma sample_app chrMap limit a b : sample chrMap limit (a ++ b) = sample chrMap limit a ++ sample chrMap limit b.
Proof. unfold sample. by rewrite filter_app, fmap_app. Qed.

Lemma pick_spec chrMap v : chrMap ≠ [] → aget chrMap (v mod Z.of_nat (length chrMap)) = Some (pick chrMap v).
Proof.
  intros Hne. unfold pick. assert (0 < Z.of_nat (length chrMap)) by (destruct chrMap; [done|simpl; lia]).
  pose proof (Z.mod_pos_bound v (Z.of_nat (length chrMap)) ltac:(lia)).
  unfold aget. rewrite (proj2 (Z.ltb_ge _ _)) by lia.
  destruct (lookup_lt_is_Some_2 chrMap (Z.to_nat (v mod Z.of_nat (length chrMap)))) as [c ->]; [lia|done].
Qed.

(** The write cursor never overtakes the read cursor, so what is read is the
    entropy and not an earlier output. *)
Lemma mapAccepted_loop_spec chrMap limit fuel : chrMap ≠ [] → ∀ b filled j,
  (filled <= j)%nat → (j + fuel = length b)%nat →
  ∃ b' filled', mapAccepted_loop fuel chrMap limit (Z.of_nat (length chrMap)) b filled j = Some (b', filled') ∧
    length b' = length b ∧ filled' = (filled + length (sample chrMap limit (drop j b)))%nat ∧ (filled' <= length b)%nat ∧
    take filled' b' = take filled b ++ sample chrMap limit (drop j b).
Proof.
  intros Hne. induction fuel as [|fuel IH]; intros b filled j Hle Hlen; cbn [mapAccepted_loop].
  { exists b, filled. rewrite drop_ge by lia. cbn. rewrite app_nil_r. repeat split; lia. }
  destruct (lookup_lt_is_Some_2 b j) as [v Hv]; [lia|]. rewrite Hv. cbn [mbind option_bind].
  rewrite (drop_S b v j Hv). unfold sample. rewrite filter_cons. destruct (Z.leb_spec limit v).
  - rewrite decide_False by lia. apply IH; lia.
  - rewrite decide_True by done. rewrite pick_spec by done. cbn [mbind option_bind].
    destruct (IH (<[filled:=pick chrMap v]> b) (S filled) (S j)) as (b' & f' & -> & Hlb & Hf & Hfl & Ht);
      [lia|by rewrite length_insert; lia|]. rewrite length_insert in *.
    assert (Hd : drop (S j) (<[filled:=pick chrMap v]> b) = drop (S j) b) by (apply drop_insert_lt; lia).
    rewrite Hd in *. exists b', f'. split; [done|]. split; [done|]. unfold sample in *. cbn [fmap list_fmap length].
    split; [lia|]. split; [done|]. rewrite Ht.
    rewrite (take_S_r _ _ (pick chrMap v)) by (apply list_lookup_insert_eq; lia).
    rewrite take_insert_ge by lia. by rewrite <- app_assoc.
Qed.

Lemma RandString_loop_spec chrMap limit n fuel : chrMap ≠ [] → ∀ b filled stalled r,
  length b = n → (filled <= n)%nat → (stalled < maxStalledPasses)%nat →
  ((n - filled) * maxStalledPasses + maxStalledPasses <= fuel + stalled)%nat →
  ∃ res r' bs, RandString_loop fuel chrMap limit (Z.of_nat (length chrMap)) n b filled stalled r = Some (res, r') ∧
    delivers r bs r' ∧
    match res with
    | Ok out => out = take filled b ++ sample chrMap limit bs ∧ length out = n
    | Error _ => True
    end.
Proof.
  intros Hne. induction fuel as [|fuel IH]; intros b filled stalled r Hb Hfl Hst Hfuel; cbn [RandString_loop].
  { unfold maxStalledPasses in *. lia. }
  destruct (Nat.leb_spec n filled).
  { exists (Ok b), r, []. split; [done|]. split; [constructor|]. split; [|done]. rewrite take_ge, app_nil_r by lia. done. }
  destruct (readFull_spec (n - filled) r) as (res & r1 & bs & -> & Hd & Hres). cbn [mbind option_bind].
  destruct res as [out|e]; [|by exists (Error e), r1, bs]. destruct Hres as (-> & Hlb & _).
  assert (Htake : length (take filled b) = filled) by (rewrite length_take; lia).
  unfold mapAccepted. 
  destruct (mapAccepted_loop_spec chrMap limit (length (take filled b ++ bs) - filled) Hne (take filled b ++ bs) filled filled)
    as (b' & f' & -> & Hlb' & Hf' & Hfl' & Ht'); [lia|rewrite length_app; lia|]. cbn [mbind option_bind].
  rewrite length_app in *. rewrite drop_app_length' in Hf', Ht' by done. rewrite take_app_length' in Ht' by done.
  destruct (Nat.ltb_spec filled f') as [Hprog|Hstall].
  - destruct (IH b' f' 0%nat r1) as (res & r2 & bs2 & -> & Hd2 & Hres); [lia|lia|unfold maxStalledPasses; lia| |].
    { unfold maxStalledPasses in *. nia. }
    exists res, r2, (bs ++ bs2). split; [done|]. split; [by eapply delivers_app|]. destruct res; [|done].
    destruct Hres as [-> Hn]. split; [|done]. by rewrite Ht', sample_app, <- app_assoc.
  - destruct (Nat.leb_spec maxStalledPasses (S stalled)); [by exists (Error ErrReaderNoProgress), r1, bs|].
    assert (Hf0 : f' = filled) by lia. rewrite Hf0 in *.
    destruct (IH b' filled (S stalled) r1) as (res & r2 & bs2 & -> & Hd2 & Hres); [lia|lia|lia|lia|].
    exists res, r2, (bs ++ bs2). split; [done|]. split; [by eapply delivers_app|]. destruct res; [|done].
    destruct Hres as [-> Hn]. split; [|done]. by rewrite Ht', sample_app, <- app_assoc.
Qed.
End Random.

(** ** Uniformity *)

(** A block of [c] consecutive integers has one of each remainder. *)
Lemma one_per_block c k : 0 <= k < c → ∀ m, 0 <= m →
  Z.of_nat (length (filter (fun v => v mod c = k) (seqZ 0 (c * m)))) = m.
Proof.
  intros Hk m Hm. pattern m. apply natlike_ind; [| |done]; clear m Hm.
  - by rewrite Z.mul_0_r.
  - intros m Hm IH. rewrite Z.mul_succ_r, seqZ_app by nia. rewrite filter_app, length_app, Nat2Z.inj_add, IH.
    assert (Hb : filter (fun v => v mod c = k) (seqZ (0 + c * m) c) = [c * m + k]); [|rewrite Hb; simpl; lia].
    replace c with (k + (1 + (c - k - 1))) at 2 by lia. rewrite seqZ_app, seqZ_app by lia. rewrite !filter_app.
    rewrite (filter_none _ (seqZ (0 + c * m) k)).
    + rewrite (filter_none _ (seqZ (0 + c * m + k + 1) (c - k - 1))).
      * rewrite seqZ_cons by lia. cbn [app]. rewrite seqZ_nil, filter_cons, decide_True by (lia || (rewrite Z.add_0_l, Z.mul_comm, Z.add_comm, Z.mod_add by lia; apply Z.mod_small; lia)).
        cbn. f_equal.
      * apply Forall_seqZ. intros v Hv Hmod.
        replace v with (v - c * m + m * c) in Hmod by lia. rewrite Z.mod_add, Z.mod_small in Hmod by lia. lia.
    + apply Forall_seqZ. intros v Hv Hmod.
      replace v with (v - c * m + m * c) in Hmod by lia. rewrite Z.mod_add, Z.mod_small in Hmod by lia. lia.
Qed.

(** Of the 256 bytes, as many are accepted for one entry as for another. *)
Lemma accepted_bytes c k : 1 <= c <= byteRange → 0 <= k < c →
  let limit := byteRange - byteRange mod c in
  Z.of_nat (length (filter (fun v => v < limit ∧ v mod c = k) (seqZ 0 byteRange))) = limit / c ∧ 0 < limit / c.
Proof.
  intros Hc Hk limit. unfold byteRange in *.
  assert (Hlim : limit = c * (256 / c)) by (subst limit; pose proof (Z.div_mod 256 c ltac:(lia)); lia).
  assert (Hq : limit / c = 256 / c) by (rewrite Hlim, Z.mul_comm, Z.div_mul by lia; done).
  assert (Hpos : 0 < 256 / c) by (apply Z.div_str_pos; lia). rewrite Hq. split; [|done].
  pose proof (Z.mod_pos_bound 256 c ltac:(lia)). assert (0 <= limit <= 256) by (subst limit; lia). clearbody limit.
  replace 256 with (limit + (256 - limit)) at 1 by lia. rewrite seqZ_app by lia. rewrite filter_app, (filter_none _ (seqZ (0 + limit) _)).
  - rewrite app_nil_r, <- (one_per_block c k Hk (256 / c)), <- Hlim by lia. do 2 f_equal.
    assert (Hall : Forall (fun v => v < limit) (seqZ 0 limit)) by (apply Forall_seqZ; lia).
    induction Hall as [|v l Hv _ IH]; [done|]. rewrite !filter_cons, IH. 
    destruct (decide (v mod c = k)); [by rewrite decide_True|rewrite decide_False; [done|tauto]].
  - apply Forall_seqZ. lia.
Qed.

Lemma pick_in chrMap v : chrMap ≠ [] → pick chrMap v ∈ chrMap.
Proof.
  intros Hne. pose proof (pick_spec chrMap v Hne) as H. unfold aget in H. case_match; [done|].
  by eapply list_elem_of_lookup_2.
Qed.

Lemma WithByteToCharMap_length cm : (1 <= length (WithByteToCharMap cm) <= 256)%nat.
Proof.
  unfold WithByteToCharMap, chrMapMaxLen, byteRange. destruct (Nat.eqb_spec (length cm) 0); [by vm_compute; lia|].
  destruct (Z.ltb_spec 256 (Z.of_nat (length cm))); rewrite ?length_take; lia.
Qed.

(** C40. Random strings. Whatever the reader does within the contract of
    [io.Reader] - short reads, empty reads, errors - [RandString] returns; and
    a string it returns has the length asked for and is, character by
    character, the image of the bytes below the rejection limit among those
    the reader delivered, none reused or skipped. The map never reads out of
    range, and each of its entries is the image of the same positive number
    of the byte values, so uniform bytes give uniform entries. Every map an
    option can install is valid. *)
Theorem RandString_uniform {R} `{Reader R} chrMap n r (Hn : 0 <= n)
    (Hmap : 1 <= Z.of_nat (length chrMap) <= byteRange) :
  let c := Z.of_nat (length chrMap) in
  let limit := byteRange - byteRange mod c in
  (∃ res r' bs, RandString chrMap n r = Some (res, r') ∧ delivers r bs r' ∧
    match res with
    | Ok s => s = sample chrMap limit bs ∧ Z.of_nat (length s) = n ∧ Forall (.∈ chrMap) s
    | Error _ => True
    end) ∧
  (∀ k, 0 <= k < c →
    Z.of_nat (length (filter (fun v => v < limit ∧ v mod c = k) (seqZ 0 byteRange))) = limit / c ∧ 0 < limit / c) ∧
  ∀ cm, (1 <= length (WithByteToCharMap cm) <= 256)%nat.
Proof.
  intros c limit. assert (Hne : chrMap ≠ []) by (intros ->; simpl in Hmap; lia).
  split; [|split; [intros k Hk; by apply accepted_bytes|apply WithByteToCharMap_length]].
  unfold RandString. rewrite (proj2 (Z.ltb_ge n 0)) by lia. fold c limit.
  rewrite (proj2 (Z.ltb_ge c 1)), (proj2 (Z.ltb_ge byteRange c)) by (subst c; lia). cbn [orb].
  pose proof (RandString_loop_spec chrMap limit (Z.to_nat n) (S (Z.to_nat n) * maxStalledPasses) Hne (replicate (Z.to_nat n) 0) 0%nat 0%nat r) as Hloop.
  fold c in Hloop. destruct Hloop as (res & r' & bs & -> & Hd & Hres); [apply length_replicate|lia|unfold maxStalledPasses; lia|lia|].
  exists res, r', bs. split; [done|]. split; [done|]. destruct res as [s|]; [|done]. destruct Hres as [-> Hl].
  cbn [take app] in *. split; [done|]. split; [lia|]. unfold sample. apply Forall_fmap, Forall_forall.
  intros v _. by apply pick_in.
Qed.

(** A reader that counts up, two bytes at a time. *)
Definition counting : Reader Z.
Proof.
  refine {| Read := fun r n => (take n [r mod 256; (r + 1) mod 256], None, r + Z.min 2 (Z.of_nat n)) |}.
  - intros r n. cbn [fst]. rewrite length_take. lia.
  - intros r n. cbn [fst]. apply Forall_take. repeat constructor; apply Z.mod_pos_bound; lia.
Defined.

Lemma RandString_uniform_witness :
  0 <= 3 ∧ 1 <= Z.of_nat (length chrMapDefault) <= byteRange ∧
  ∃ res r', RandString (R := Z) (RD := counting) chrMapDefault 3 250 = Some (res, r') ∧ res = Ok (str "012").
Proof.
  split; [done|]. split; [by vm_compute|].
  destruct (RandString_uniform (H := counting) chrMapDefault 3 250 ltac:(done) ltac:(by vm_compute)) as ((res & r' & bs & Hr & _) & _).
  exists res, r'. split; [exact Hr|]. vm_compute in Hr. by injection Hr as <- _.
Defined.
