(* ===== verification/Base64.v ===== *)
(** * Base64

    The standard alphabet of encoding/base64, with padding ([StdEncoding]) or
    without ([RawStdEncoding]), and the strict mode that refuses trailing bits.
    Decoding skips newlines, as the library does. Shared by the packages that
    store binary data as text. *)

From stdpp Require Import base option list.
From S2P Require Import Prelude GoString.

#[local] Open Scope Z_scope.

Definition alphabet (i : Z) : Z :=
  if i <? 26 then 65 + i
  else if i <? 52 then 71 + i
  else if i <? 62 then i - 4
  else if i =? 62 then 43 else 47.

Definition sextet (c : Z) : option Z :=
  if between 65 c 90 then Some (c - 65)
  else if between 97 c 122 then Some (c - 71)
  else if between 48 c 57 then Some (c + 4)
  else if c =? 43 then Some 62
  else if c =? 47 then Some 63
  else None.

Definition padding (pad : bool) (n : nat) : gostring := if pad then replicate n 61 else [].

(** [EncodeToString]. *)
Fixpoint encode64 (pad : bool) (l : gostring) : gostring :=
  match l with
  | a :: b :: c :: l =>
      alphabet (a / 4) :: alphabet (a mod 4 * 16 + b / 16) :: alphabet (b mod 16 * 4 + c / 64) :: alphabet (c mod 64)
        :: encode64 pad l
  | [a; b] => alphabet (a / 4) :: alphabet (a mod 4 * 16 + b / 16) :: alphabet (b mod 16 * 4) :: padding pad 1
  | [a] => alphabet (a / 4) :: alphabet (a mod 4 * 16) :: padding pad 2
  | [] => []
  end.

(** The bytes of an incomplete last quantum; strictly, its low bits are 0. *)
Definition tail2 (strict : bool) (x y : Z) : option gostring :=
  if strict && negb (y mod 16 =? 0) then None else Some [x * 4 + y / 16].

Definition tail3 (strict : bool) (x y z : Z) : option gostring :=
  if strict && negb (z mod 4 =? 0) then None else Some [x * 4 + y / 16; y mod 16 * 16 + z / 4].

(** The quanta of a text without newlines. *)
Fixpoint quanta (strict pad : bool) (s : gostring) : option gostring :=
  match s with
  | [] => Some []
  | a :: b :: c :: d :: s =>
      x ← sextet a; y ← sextet b;
      match sextet c, sextet d with
      | Some z, Some w => l ← quanta strict pad s; Some (x * 4 + y / 16 :: y mod 16 * 16 + z / 4 :: z mod 4 * 64 + w :: l)
      | Some z, None => if pad && (d =? 61) && (length s =? 0)%nat then tail3 strict x y z else None
      | None, _ => if pad && (c =? 61) && (d =? 61) && (length s =? 0)%nat then tail2 strict x y else None
      end
  | [a; b; c] => if pad then None else x ← sextet a; y ← sextet b; z ← sextet c; tail3 strict x y z
  | [a; b] => if pad then None else x ← sextet a; y ← sextet b; tail2 strict x y
  | [_] => None
  end.

(** [DecodeString]. *)
Definition decode64 (strict pad : bool) (s : gostring) : option gostring :=
  quanta strict pad (filter (fun c => c ≠ 10 ∧ c ≠ 13) s).

(** [RawURLEncoding]: the two last characters of the alphabet are others, and
    there is no padding. *)
Definition to_url (c : Z) : Z := if c =? 43 then 45 else if c =? 47 then 95 else c.
Definition of_url (c : Z) : Z := if c =? 45 then 43 else if c =? 95 then 47 else c.

Definition encode64url (l : gostring) : gostring := to_url <$> encode64 false l.
Definition decode64url (strict : bool) (s : gostring) : option gostring :=
  if existsb (fun c => (c =? 43) || (c =? 47)) s then None else decode64 strict false (of_url <$> s).

(** ** Facts *)

Lemma sextet_alphabet i : 0 <= i < 64 → sextet (alphabet i) = Some i.
Proof.
  intros Hi. unfold sextet, alphabet, between.
  repeat match goal with
    | |- context [?a <? ?b] => destruct (Z.ltb_spec a b)
    | |- context [?a =? ?b] => destruct (Z.eqb_spec a b)
    | |- context [?a <=? ?b] => destruct (Z.leb_spec a b)
    end; cbn [andb]; f_equal; lia.
Qed.

Lemma alphabet_sextet c i : sextet c = Some i → 0 <= i < 64 ∧ alphabet i = c.
Proof.
  unfold sextet, between. repeat match goal with
    | |- context [?a <=? ?b] => destruct (Z.leb_spec a b); cbn [andb]
    | |- context [?a =? ?b] => destruct (Z.eqb_spec a b); cbn [andb]
    end; intros Hc; simplify_eq; (split; [lia|]); unfold alphabet;
    repeat match goal with
    | |- context [?a <? ?b] => destruct (Z.ltb_spec a b)
    | |- context [?a =? ?b] => destruct (Z.eqb_spec a b)
    end; lia.
Qed.

Lemma sextet_61 : sextet 61 = None.
Proof. done. Qed.

(** Splitting a byte, and the quantum arithmetic. *)
Lemma byte_split n a : 0 < n → 0 <= a → a = n * (a / n) + a mod n ∧ 0 <= a mod n < n ∧ 0 <= a / n.
Proof. intros Hn Ha. split; [apply Z.div_mod; lia|]. split; [apply Z.mod_pos_bound; lia|apply Z.div_pos; lia]. Qed.

Lemma split_unique n q r : 0 <= r < n → (n * q + r) / n = q ∧ (n * q + r) mod n = r.
Proof.
  intros Hr. rewrite Z.add_comm, Z.mul_comm, Z.div_add, Z.mod_add, Z.div_small, Z.mod_small by lia. lia.
Qed.

Lemma triple_induction {A} (P : list A → Prop) :
  P [] → (∀ a, P [a]) → (∀ a b, P [a; b]) → (∀ a b c l, P l → P (a :: b :: c :: l)) → ∀ l, P l.
Proof.
  intros H0 H1 H2 H3 l. assert (H : P l ∧ (∀ a, P (a :: l)) ∧ ∀ a b, P (a :: b :: l)); [|tauto].
  induction l as [|x l (Ha & Hb & Hc)]; [by auto|]. auto.
Qed.

Ltac euclid := unfold is_byte in *; Z.to_euclidean_division_equations; lia.

Lemma quantum a b c : is_byte a → is_byte b → is_byte c →
  let x := a / 4 in let y := a mod 4 * 16 + b / 16 in let z := b mod 16 * 4 + c / 64 in let w := c mod 64 in
  0 <= x < 64 ∧ 0 <= y < 64 ∧ 0 <= z < 64 ∧ 0 <= w < 64 ∧
  x * 4 + y / 16 = a ∧ y mod 16 * 16 + z / 4 = b ∧ z mod 4 * 64 + w = c.
Proof.
  intros Ha Hb Hc x y z w. subst x y z w. split_and!; euclid.
Qed.

Lemma alphabet_plain i : 0 <= i < 64 → alphabet i ≠ 10 ∧ alphabet i ≠ 13.
Proof.
  intros Hi. unfold alphabet. repeat match goal with
    | |- context [?a <? ?b] => destruct (Z.ltb_spec a b)
    | |- context [?a =? ?b] => destruct (Z.eqb_spec a b)
    end; lia.
Qed.

Lemma padding_plain pad n : Forall (fun c => c ≠ 10 ∧ c ≠ 13) (padding pad n).
Proof. destruct pad; [by apply Forall_replicate|constructor]. Qed.

Lemma encode64_plain pad l : Forall is_byte l → Forall (fun c => c ≠ 10 ∧ c ≠ 13) (encode64 pad l).
Proof.
  induction l as [|a|a b|a b c l IH] using triple_induction; intros Hl; cbn [encode64];
    rewrite ?Forall_cons in *; [done| | |].
  - repeat constructor; try apply padding_plain; apply alphabet_plain; euclid.
  - repeat constructor; try apply padding_plain; apply alphabet_plain; euclid.
  - destruct Hl as (Ha & Hb & Hc & Hl). destruct (quantum a b c Ha Hb Hc) as (? & ? & ? & ? & _).
    repeat constructor; try (by apply alphabet_plain). by apply IH.
Qed.

Lemma quanta_encode64 strict pad l : Forall is_byte l → quanta strict pad (encode64 pad l) = Some l.
Proof.
  induction l as [|a|a b|a b c l IH] using triple_induction; intros Hl; rewrite ?Forall_cons in *; [done| | |].
  - destruct (quantum a 0 0) as (Hx & Hy & _ & _ & Ha & Hb & _); [tauto|done|done|]. rewrite Z.add_0_r in *.
    destruct pad; cbn [encode64 padding replicate quanta]; rewrite !sextet_alphabet, ?sextet_61 by done; cbn;
      unfold tail2; (replace (a mod 4 * 16 mod 16) with 0 by euclid); rewrite andb_false_r; by rewrite Ha.
  - destruct (quantum a b 0) as (Hx & Hy & Hz & _ & Ha & Hb & _); [tauto|tauto|done|]. rewrite Z.add_0_r in *.
    destruct pad; cbn [encode64 padding replicate quanta]; rewrite !sextet_alphabet, ?sextet_61 by done; cbn;
      unfold tail3; (replace (b mod 16 * 4 mod 4) with 0 by euclid); rewrite andb_false_r; by rewrite Ha, Hb.
  - destruct Hl as (Ha & Hb & Hc & Hl). destruct (quantum a b c Ha Hb Hc) as (Hx & Hy & Hz & Hw & Ea & Eb & Ec).
    cbn [encode64 quanta]. rewrite !sextet_alphabet by done. cbn [mbind option_bind]. rewrite (IH Hl). cbn [mbind option_bind].
    by rewrite Ea, Eb, Ec.
Qed.

(** Decoding undoes encoding, strictly or not. *)
Lemma decode64_encode64 strict pad l : Forall is_byte l → decode64 strict pad (encode64 pad l) = Some l.
Proof. intros Hl. unfold decode64. rewrite filter_all by (by apply encode64_plain). by apply quanta_encode64. Qed.

(** The quantum of four sextets, read back. *)
Lemma unquantum x y z w : 0 <= x < 64 → 0 <= y < 64 → 0 <= z < 64 → 0 <= w < 64 →
  let a := x * 4 + y / 16 in let b := y mod 16 * 16 + z / 4 in let c := z mod 4 * 64 + w in
  is_byte a ∧ is_byte b ∧ is_byte c ∧
  a / 4 = x ∧ a mod 4 * 16 + b / 16 = y ∧ b mod 16 * 4 + c / 64 = z ∧ c mod 64 = w.
Proof. intros Hx Hy Hz Hw a b c. subst a b c. split_and!; euclid. Qed.

Lemma encode64_tail2 pad x y l : 0 <= x < 64 → 0 <= y < 64 → tail2 true x y = Some l →
  encode64 pad l = alphabet x :: alphabet y :: padding pad 2 ∧ Forall is_byte l.
Proof.
  intros Hx Hy. unfold tail2. destruct (Z.eqb_spec (y mod 16) 0) as [Hz|]; [|done]. intros; simplify_eq/=.
  destruct (unquantum x y 0 0) as (Ha & _ & _ & Ex & Ey & _); [done..|].
  split; [|by constructor]. assert (E : (x * 4 + y / 16) mod 4 * 16 = y) by euclid. cbn [encode64]. by rewrite Ex, E.
Qed.

Lemma encode64_tail3 pad x y z l : 0 <= x < 64 → 0 <= y < 64 → 0 <= z < 64 → tail3 true x y z = Some l →
  encode64 pad l = alphabet x :: alphabet y :: alphabet z :: padding pad 1 ∧ Forall is_byte l.
Proof.
  intros Hx Hy Hz. unfold tail3. destruct (Z.eqb_spec (z mod 4) 0) as [Hm|]; [|done]. intros; simplify_eq/=.
  destruct (unquantum x y z 0) as (Ha & Hb & _ & Ex & Ey & Ez & _); [done..|].
  split; [|by rewrite !Forall_cons]. assert (E : (y mod 16 * 16 + z / 4) mod 16 * 4 = z) by euclid. cbn [encode64]. by rewrite Ex, Ey, E.
Qed.

(** Strict decoding of a text without newlines accepts only what encoding
    produces. *)
Lemma quanta_canonical pad s : ∀ l, quanta true pad s = Some l → encode64 pad l = s ∧ Forall is_byte l.
Proof.
  enough (H : ∀ n s, (length s < n)%nat → ∀ l, quanta true pad s = Some l → encode64 pad l = s ∧ Forall is_byte l).
  { apply (H (S (length s))). lia. }
  clear s. induction n as [|n IH]; intros s Hn l Hq; [lia|].
  destruct s as [|a [|b [|c [|d s]]]]; cbn [quanta] in Hq.
  - by simplify_eq.
  - done.
  - destruct pad; [done|]. destruct (sextet a) as [x|] eqn:Ha; [|done]. destruct (sextet b) as [y|] eqn:Hb; [|done].
    apply alphabet_sextet in Ha as [Hx <-], Hb as [Hy <-]. by apply encode64_tail2.
  - destruct pad; [done|]. destruct (sextet a) as [x|] eqn:Ha; [|done]. destruct (sextet b) as [y|] eqn:Hb; [|done].
    destruct (sextet c) as [z|] eqn:Hc; [|done].
    apply alphabet_sextet in Ha as [Hx <-], Hb as [Hy <-], Hc as [Hz <-]. by apply encode64_tail3.
  - destruct (sextet a) as [x|] eqn:Ha; [|done]. destruct (sextet b) as [y|] eqn:Hb; [|done]. cbn [mbind option_bind] in Hq.
    apply alphabet_sextet in Ha as [Hx <-], Hb as [Hy <-].
    destruct (sextet c) as [z|] eqn:Hc; [apply alphabet_sextet in Hc as [Hz <-]; destruct (sextet d) as [w|] eqn:Hd|].
    + apply alphabet_sextet in Hd as [Hw <-]. destruct (quanta true pad s) as [k|] eqn:Hk; [|done]. cbn [mbind option_bind] in Hq.
      simplify_eq. destruct (IH s) with (l := k) as [Hs Hbk]; [simpl in Hn; lia|done|].
      destruct (unquantum x y z w) as (Ba & Bb & Bc & Ea & Eb & Ec & Ed); [done..|].
      cbn [encode64]. rewrite Ea, Eb, Ec, Ed, Hs. split; [done|by rewrite !Forall_cons].
    + destruct pad; [|done]. destruct (Z.eqb_spec d 61) as [->|]; [|done]. destruct s; [|done]. cbn [andb Nat.eqb length] in Hq.
      by apply encode64_tail3.
    + destruct pad; [|done]. destruct (Z.eqb_spec c 61) as [->|]; [|done]. destruct (Z.eqb_spec d 61) as [->|]; [|done].
      destruct s; [|done]. cbn [andb Nat.eqb length] in Hq. by apply encode64_tail2.
Qed.

(** The characters of an encoding. *)
Definition is_text64 (c : Z) : Prop :=
  65 <= c <= 90 ∨ 97 <= c <= 122 ∨ 48 <= c <= 57 ∨ c = 43 ∨ c = 47 ∨ c = 61.

Lemma alphabet_text i : 0 <= i < 64 → is_text64 (alphabet i).
Proof.
  intros Hi. unfold alphabet, is_text64.
  destruct (Z.ltb_spec i 26); [lia|]. destruct (Z.ltb_spec i 52); [lia|]. destruct (Z.ltb_spec i 62); [lia|].
  destruct (Z.eqb_spec i 62); lia.
Qed.

Lemma padding_text pad n : Forall is_text64 (padding pad n).
Proof. destruct pad; [apply Forall_replicate; unfold is_text64; lia|constructor]. Qed.

Lemma encode64_text pad l : Forall is_byte l → Forall is_text64 (encode64 pad l).
Proof.
  induction l as [|a|a b|a b c l IH] using triple_induction; intros Hl; cbn [encode64]; rewrite ?Forall_cons in *; [done|..].
  - destruct (quantum a 0 0) as (Hx & Hy & _); [tauto|done|done|]. rewrite Z.add_0_r in Hy.
    split_and!; [by apply alphabet_text..|apply padding_text].
  - destruct (quantum a b 0) as (Hx & Hy & Hz & _); [tauto|tauto|done|]. rewrite Z.add_0_r in Hz.
    split_and!; [by apply alphabet_text..|apply padding_text].
  - destruct Hl as (Ha & Hb & Hc & Hl). destruct (quantum a b c Ha Hb Hc) as (Hx & Hy & Hz & Hw & _).
    split_and!; [by apply alphabet_text..|by apply IH].
Qed.

(** The URL alphabet. *)
Definition is_url64 (c : Z) : Prop := 65 <= c <= 90 ∨ 97 <= c <= 122 ∨ 48 <= c <= 57 ∨ c = 45 ∨ c = 95 ∨ c = 61.

Lemma encode64url_text l : Forall is_byte l → Forall is_url64 (encode64url l).
Proof.
  intros Hl. apply Forall_fmap. eapply Forall_impl; [by apply encode64_text|]. intros c Hc. cbn.
  unfold is_text64, is_url64, to_url in *. destruct (Z.eqb_spec c 43); [lia|]. destruct (Z.eqb_spec c 47); lia.
Qed.

Lemma of_to_url s : Forall is_text64 s → of_url <$> (to_url <$> s) = s.
Proof.
  induction 1 as [|c s Hc _ IH]; [done|]. cbn [fmap list_fmap]. f_equal; [|exact IH].
  unfold is_text64, of_url, to_url in *. destruct (Z.eqb_spec c 43); [by subst|]. destruct (Z.eqb_spec c 47); [by subst|].
  destruct (Z.eqb_spec c 45); [lia|]. destruct (Z.eqb_spec c 95); [lia|done].
Qed.

Lemma decode64url_encode64url strict l : Forall is_byte l → decode64url strict (encode64url l) = Some l.
Proof.
  intros Hl. unfold decode64url. rewrite existsb_none.
  - unfold encode64url. rewrite of_to_url by (by apply encode64_text). by apply decode64_encode64.
  - eapply Forall_impl; [by apply encode64url_text|]. intros c Hc. unfold is_url64 in Hc. apply orb_false_iff. rewrite !Z.eqb_neq. lia.
Qed.
