(* ===== verification/Encrypt.v ===== *)
(** * [pkg/encrypt]: sealed payloads

    encrypt.go for payloads already serialized: AES-GCM under a random nonce
    that travels in front of the ciphertext, as Base64 text. The cipher is a
    parameter with the law of an AEAD. *)

From stdpp Require Import base option list.
From S2P Require Import Prelude GoString Base64.

#[local] Open Scope Z_scope.

(** crypto/aes and crypto/cipher. *)
Class AEAD : Type := {
  Seal : gostring → gostring → gostring → gostring → gostring;
  Open : gostring → gostring → gostring → gostring → option gostring;
  Open_Seal key nonce msg aad : Forall is_byte msg → Open key nonce (Seal key nonce msg aad) aad = Some msg;
  Seal_bytes key nonce msg aad : Forall is_byte (Seal key nonce msg aad);
  Seal_length key nonce msg aad : length (Seal key nonce msg aad) = (length msg + 16)%nat
}.

Definition NonceSize : nat := 12.

Inductive eerror : Type := ErrInvalidInputSize | ErrKeySize | ErrNonce | ErrOpen | ErrBase64 | ErrDecode.

(** [config]: the outcome of [io.ReadFull] on the reader, and the AAD. *)
Record config : Type := MkConfig {
  randReader : option (nat → option gostring);
  aad : gostring
}.

Definition EOption : Type := config → config.
Definition WithRandReader (r : nat → option gostring) : EOption := fun c => MkConfig (Some r) (aad c).
Definition WithAAD (a : gostring) : EOption := fun c => MkConfig (randReader c) a.

Definition apply_econfig (opts : list EOption) : config := fold_left (fun c opt => opt c) opts (MkConfig None []).

Section Encrypt.
Context `{AEAD} (cryptoRand : nat → option gostring).

(** [newAESGCM]: a key of 16, 24 or 32 bytes. *)
Definition newAESGCM (key : gostring) : bool := bool_decide (length key ∈ [16; 24; 32]%nat).

Definition EncryptWith (key msg : gostring) (opts : list EOption) : result eerror gostring :=
  let cfg := apply_econfig opts in
  if negb (newAESGCM key) then Error ErrKeySize
  else
    let reader := default cryptoRand (randReader cfg) in
    match reader NonceSize with
    | None => Error ErrNonce
    | Some nonce => Ok (nonce ++ Seal key nonce msg (aad cfg))
    end.

Definition Encrypt (key msg : gostring) : result eerror gostring := EncryptWith key msg [].

Definition DecryptWith (key msg : gostring) (opts : list EOption) : result eerror gostring :=
  let cfg := apply_econfig opts in
  if negb (newAESGCM key) then Error ErrKeySize
  else if (length msg <? NonceSize)%nat then Error ErrInvalidInputSize
  else match Open key (take NonceSize msg) (drop NonceSize msg) (aad cfg) with
  | Some m => Ok m
  | None => Error ErrOpen
  end.

Definition Decrypt (key msg : gostring) : result eerror gostring := DecryptWith key msg [].

Definition byteEncryptEncoded (key data : gostring) : result eerror gostring :=
  (msg <-? Encrypt key data;; Ok (encode64 true msg))%go.

Definition byteDecryptEncoded (key msg : gostring) : result eerror gostring :=
  match decode64 false true msg with
  | None => Error ErrBase64
  | Some dst => Decrypt key dst
  end.

(** [ByteEncryptSerializeAny] and [EncryptSerializeAny] on the JSON text of
    the value, and back with a decoder of such texts. *)
Definition EncryptSerializeAny {A} (json : A → gostring) (key : gostring) (data : A) : result eerror gostring :=
  byteEncryptEncoded key (json data).

Definition DecryptSerializeAny {A} (parse : gostring → option A) (key msg : gostring) : result eerror A :=
  (dec <-? byteDecryptEncoded key msg;;
   match parse dec with Some a => Ok a | None => Error ErrDecode end)%go.

(** [crypto/rand] fills what it is asked for. *)
Definition fills (rand : nat → option gostring) : Prop := ∀ n, ∃ bs, rand n = Some bs ∧ length bs = n ∧ Forall is_byte bs.

Lemma Decrypt_Encrypt key msg opts nonce : newAESGCM key = true → Forall is_byte msg →
  default cryptoRand (randReader (apply_econfig opts)) NonceSize = Some nonce → length nonce = NonceSize →
  EncryptWith key msg opts = Ok (nonce ++ Seal key nonce msg (aad (apply_econfig opts))) ∧
  DecryptWith key (nonce ++ Seal key nonce msg (aad (apply_econfig opts))) opts = Ok msg.
Proof.
  intros Hk Hb Hr Hn. unfold EncryptWith, DecryptWith. rewrite Hk, Hr. cbn [negb]. split; [done|].
  rewrite length_app. destruct (Nat.ltb_spec (length nonce + length (Seal key nonce msg (aad (apply_econfig opts)))) NonceSize);
    [lia|]. rewrite take_app_length', drop_app_length' by done. by rewrite Open_Seal.
Qed.

(** What is encrypted decrypts to itself, as text too; the text is bounded by
    the message. *)
Lemma EncryptSerializeAny_spec {A} (json : A → gostring) (parse : gostring → option A) key a :
  fills cryptoRand → newAESGCM key = true → Forall is_byte (json a) → parse (json a) = Some a →
  ∃ text, EncryptSerializeAny json key a = Ok text ∧ DecryptSerializeAny parse key text = Ok a ∧
    ∃ msg, text = encode64 true msg ∧ length msg = (length (json a) + 28)%nat.
Proof.
  intros Hf Hk Hj Hp. destruct (Hf NonceSize) as (nonce & Hn & Hln & Hb).
  destruct (Decrypt_Encrypt key (json a) [] nonce Hk Hj Hn Hln) as [He Hd]. cbn [apply_econfig fold_left aad] in *.
  exists (encode64 true (nonce ++ Seal key nonce (json a) [])). unfold EncryptSerializeAny, byteEncryptEncoded, Encrypt.
  rewrite He. split; [done|]. split.
  - unfold DecryptSerializeAny, byteDecryptEncoded, Decrypt. rewrite decode64_encode64, Hd by (apply Forall_app; split; [done|apply Seal_bytes]).
    cbn [result_bind]. by rewrite Hp.
  - eexists. split; [done|]. rewrite length_app, Seal_length, Hln. unfold NonceSize. lia.
Qed.
End Encrypt.
