(* ===== verification/PasswordHash.v ===== *)
(** * [pkg/passwordhash]: Argon2id password hashes

    passwordhash.go, options.go, format.go and phc.go: parameters and their
    bounds, minting, verification and the rehash check, in the JSON and PHC
    serializations and under an encrypting pepper. The key derivation is a
    parameter; the panics of golang.org/x/crypto/argon2 on a zero time or
    parallelism, and of a division by zero, are [None]. The best-effort wipes
    of memory change no result and are left out. *)

From stdpp Require Import base option list.
From Stdlib Require Import String.
From S2P Require Import Prelude GoString GoText Random Base64 Encrypt.

#[local] Open Scope Z_scope.

(** ** Constants *)

Definition DefaultAlgo : gostring := str "argon2id".
Definition argon2Version : Z := 19.
Definition DefaultKeyLen : Z := 32.
Definition minKeyLen : Z := 4.
Definition minHashKeyLen : Z := 16.
Definition DefaultSaltLen : Z := 16.
Definition minSaltLen : Z := 1.
Definition minHashSaltLen : Z := 8.
Definition DefaultTime : Z := 3.
Definition minTime : Z := 1.
Definition DefaultMemory : Z := 64 * 1024.
Definition minMemory : Z := 8.
Definition memBlock : Z := 4.
Definition minThreads : Z := 1.
Definition defaultThreads : Z := 4.
Definition DefaultMinPasswordLength : Z := 8.
Definition minPasswordLength : Z := 1.
Definition DefaultMaxPasswordLength : Z := 4096.
Definition maxVerifyTime : Z := 2 ^ 10.
Definition maxVerifyMemory : Z := 2 ^ 22.
Definition maxVerifyKeyLen : Z := 2 ^ 10.
Definition maxVerifySaltLen : Z := 2 ^ 10.
Definition defaultVerifyCostMultiplier : Z := 4.
Definition minVerifyCostMultiplier : Z := 1.
Definition maxHashLen : Z := 16 * 2 ^ 10.

Definition Format : Type := Z.
Definition FormatJSON : Format := 0.
Definition FormatPHC : Format := 1.

Inductive perror : Type :=
| ErrPasswordTooShort | ErrPasswordTooLong | ErrInvalidParams | ErrInvalidHashData
| ErrAlgoMismatch | ErrVersionMismatch | ErrInvalidPepperKey
| ErrRandom (e : rerror) | ErrEncrypt (e : eerror).

(** [Params]; [rnd] says whether the random source is set. *)
Record Params : Type := MkParams {
  Algo : gostring;
  Version : Z;
  KeyLen : Z;
  SaltLen : Z;
  Time : Z;
  Memory : Z;
  Threads : Z;
  minPLen : Z;
  maxPLen : Z;
  format : Format;
  acceptedFormats : Z;
  verifyCostMultiplier : Z;
  rnd : bool
}.

(** [Hashed]; a nil [Params] is [None]. *)
Record Hashed : Type := MkHashed {
  HParams : option Params;
  Salt : gostring;
  Key : gostring
}.

(** The exported fields alone, as a literal or a decoder sets them. *)
Definition stored (algo : gostring) (version keyLen saltLen time memory threads : Z) : Params :=
  MkParams algo version keyLen saltLen time memory threads 0 0 FormatJSON 0 0 false.

(** ** Construction *)

(** [normalizeFormat], [formatBit]. *)
Definition normalizeFormat (f : Format) : Format := if f =? FormatPHC then FormatPHC else FormatJSON.
Definition formatBit (f : Format) : Z := wrapU 8 (Z.shiftl 1 f).

Definition defaultParams : Params :=
  MkParams DefaultAlgo argon2Version DefaultKeyLen DefaultSaltLen DefaultTime DefaultMemory defaultThreads
    DefaultMinPasswordLength DefaultMaxPasswordLength FormatJSON (formatBit FormatJSON) defaultVerifyCostMultiplier true.

Definition POption : Type := Params → Params.

Definition WithKeyLen (v : Z) : POption := fun ph =>
  MkParams (Algo ph) (Version ph) (Z.min (Z.max minHashKeyLen v) maxVerifyKeyLen) (SaltLen ph) (Time ph) (Memory ph)
    (Threads ph) (minPLen ph) (maxPLen ph) (format ph) (acceptedFormats ph) (verifyCostMultiplier ph) (rnd ph).

Definition WithSaltLen (v : Z) : POption := fun ph =>
  MkParams (Algo ph) (Version ph) (KeyLen ph) (Z.min (Z.max minHashSaltLen v) maxVerifySaltLen) (Time ph) (Memory ph)
    (Threads ph) (minPLen ph) (maxPLen ph) (format ph) (acceptedFormats ph) (verifyCostMultiplier ph) (rnd ph).

Definition WithTime (v : Z) : POption := fun ph =>
  MkParams (Algo ph) (Version ph) (KeyLen ph) (SaltLen ph) (Z.min (Z.max minTime v) maxVerifyTime) (Memory ph)
    (Threads ph) (minPLen ph) (maxPLen ph) (format ph) (acceptedFormats ph) (verifyCostMultiplier ph) (rnd ph).

Definition WithMemory (v : Z) : POption := fun ph =>
  MkParams (Algo ph) (Version ph) (KeyLen ph) (SaltLen ph) (Time ph) (Z.min (Z.max minMemory v) maxVerifyMemory)
    (Threads ph) (minPLen ph) (maxPLen ph) (format ph) (acceptedFormats ph) (verifyCostMultiplier ph) (rnd ph).

Definition WithThreads (v : Z) : POption := fun ph =>
  MkParams (Algo ph) (Version ph) (KeyLen ph) (SaltLen ph) (Time ph) (Memory ph)
    (Z.max minThreads v) (minPLen ph) (maxPLen ph) (format ph) (acceptedFormats ph) (verifyCostMultiplier ph) (rnd ph).

Definition WithMinPasswordLength (v : Z) : POption := fun ph =>
  MkParams (Algo ph) (Version ph) (KeyLen ph) (SaltLen ph) (Time ph) (Memory ph)
    (Threads ph) (Z.max minPasswordLength v) (maxPLen ph) (format ph) (acceptedFormats ph) (verifyCostMultiplier ph) (rnd ph).

Definition WithMaxPasswordLength (v : Z) : POption := fun ph =>
  MkParams (Algo ph) (Version ph) (KeyLen ph) (SaltLen ph) (Time ph) (Memory ph)
    (Threads ph) (minPLen ph) v (format ph) (acceptedFormats ph) (verifyCostMultiplier ph) (rnd ph).

Definition WithVerifyCostMultiplier (v : Z) : POption := fun ph =>
  MkParams (Algo ph) (Version ph) (KeyLen ph) (SaltLen ph) (Time ph) (Memory ph)
    (Threads ph) (minPLen ph) (maxPLen ph) (format ph) (acceptedFormats ph) (Z.max minVerifyCostMultiplier v) (rnd ph).

(** The loop of [WithFormat] over the other accepted formats. *)
Definition accept_format (mask : Z) (a : Format) : Z :=
  if (a =? FormatJSON) || (a =? FormatPHC) then Z.lor mask (formatBit a) else mask.

Definition WithFormat (f : Format) (accept : list Format) : POption := fun ph =>
  let f := normalizeFormat f in
  MkParams (Algo ph) (Version ph) (KeyLen ph) (SaltLen ph) (Time ph) (Memory ph) (Threads ph) (minPLen ph) (maxPLen ph)
    f (fold_left accept_format accept (formatBit f)) (verifyCostMultiplier ph) (rnd ph).

(** [adjustMemory] on 32 bits. *)
Definition adjustMemory (m p : Z) : option Z :=
  let block := wrapU 32 (memBlock * p) in
  if block =? 0 then None else Some (Z.max (wrapU 32 (2 * block)) (wrapU 32 (m / block * block))).

Definition New (opts : list POption) : option Params :=
  let ph := fold_left (fun ph opt => opt ph) opts defaultParams in
  memory ← adjustMemory (Memory ph) (Threads ph);
  Some (MkParams (Algo ph) (Version ph) (KeyLen ph) (SaltLen ph) (Time ph) memory (Threads ph) (minPLen ph)
          (Z.max (maxPLen ph) (minPLen ph)) (format ph) (acceptedFormats ph) (verifyCostMultiplier ph) (rnd ph)).

(** ** Validation *)

Definition outOfRange (value minValue maxValue : Z) : bool := (value <? minValue) || (maxValue <? value).

Definition validateHashLen (hash : gostring) : result perror unit :=
  if maxHashLen <? Z.of_nat (length hash) then Error ErrInvalidHashData else Ok ().

Definition validatePepperKey (key : gostring) : result perror unit :=
  if bool_decide (length key ∈ [16; 24; 32]%nat) then Ok () else Error ErrInvalidPepperKey.

Definition validateHashCostParams (ph : Params) : result perror unit :=
  if outOfRange (Time ph) minTime maxVerifyTime then Error ErrInvalidParams
  else if Threads ph <? minThreads then Error ErrInvalidParams
  else if outOfRange (KeyLen ph) minHashKeyLen maxVerifyKeyLen then Error ErrInvalidParams
  else if outOfRange (SaltLen ph) minHashSaltLen maxVerifySaltLen then Error ErrInvalidParams
  else if outOfRange (Memory ph) minMemory maxVerifyMemory then Error ErrInvalidParams
  else Ok ().

Definition validateHashParams (ph : Params) : result perror unit :=
  if negb (rnd ph) then Error ErrInvalidParams
  else if maxPLen ph <? minPLen ph then Error ErrInvalidParams
  else if negb (str_eqb (Algo ph) DefaultAlgo) then Error ErrInvalidParams
  else if negb (Version ph =? argon2Version) then Error ErrInvalidParams
  else validateHashCostParams ph.

Definition verifyTimeCeiling (ph : Params) : Z := Z.min (wrapU 64 (verifyCostMultiplier ph * Time ph)) maxVerifyTime.
Definition verifyMemoryCeiling (ph : Params) : Z := Z.min (wrapU 64 (verifyCostMultiplier ph * Memory ph)) maxVerifyMemory.

Definition validateStoredParamBounds (ph p : Params) : result perror unit :=
  if outOfRange (Time p) minTime (verifyTimeCeiling ph) then Error ErrInvalidHashData
  else if outOfRange (Memory p) minMemory (verifyMemoryCeiling ph) then Error ErrInvalidHashData
  else if Threads p <? minThreads then Error ErrInvalidHashData
  else if outOfRange (KeyLen p) minKeyLen maxVerifyKeyLen then Error ErrInvalidHashData
  else if outOfRange (SaltLen p) minSaltLen maxVerifySaltLen then Error ErrInvalidHashData
  else Ok ().

Definition validateStoredLengths (p : Params) (data : Hashed) : result perror unit :=
  if negb (Z.of_nat (length (Key data)) =? KeyLen p) then Error ErrInvalidHashData
  else if negb (Z.of_nat (length (Salt data)) =? SaltLen p) then Error ErrInvalidHashData
  else Ok ().

(** [validateVerifyData], which hands the parameters on. *)
Definition validateVerifyData (ph : Params) (data : Hashed) : result perror Params :=
  match HParams data with
  | None => Error ErrInvalidHashData
  | Some p => (_ <-? validateStoredParamBounds ph p;; _ <-? validateStoredLengths p data;; Ok p)%go
  end.

(** ** Serialization *)

(** encoding/json on a [Hashed]: the quoting of a string and the decoders, of
    bytes and of a Base64 stream. *)
Class JSON : Type := {
  json_quote : gostring → gostring;
  json_parse : gostring → option Hashed;
  json_stream : gostring → option Hashed
}.

Definition phcSeparator : Z := 36.
Definition phcCostSeparator : Z := 44.
Definition phcSegments : nat := 6.
Definition phcCostFields : nat := 3.
Definition phcVersionPrefix : gostring := str "v=".
Definition phcMemoryPrefix : gostring := str "m=".
Definition phcTimePrefix : gostring := str "t=".
Definition phcThreadsPrefix : gostring := str "p=".

(** [marshalPHC]; the parameters are those of a minted hash, never nil. *)
Definition marshalPHC (prm : Params) (salt key : gostring) : gostring :=
  str "$" ++ Algo prm ++ str "$v=" ++ FormatUint (Version prm) ++ str "$m=" ++ FormatUint (Memory prm) ++
  str ",t=" ++ FormatUint (Time prm) ++ str ",p=" ++ FormatUint (Threads prm) ++
  str "$" ++ encode64 false salt ++ str "$" ++ encode64 false key.

Definition decodePHCBytes (segment : gostring) : result perror gostring :=
  match decode64 true false segment with Some b => Ok b | None => Error ErrInvalidHashData end.

Definition parsePHCUint (segment prefix : gostring) (bitSize : Z) : result perror Z :=
  match CutPrefix segment prefix with
  | None => Error ErrInvalidHashData
  | Some rest => match ParseUintBits bitSize rest with Some v => Ok v | None => Error ErrInvalidHashData end
  end.

Definition parsePHCParams (algo versionSeg costSeg : gostring) : result perror Params :=
  (version <-? parsePHCUint versionSeg phcVersionPrefix 8;;
   match SplitN phcCostSeparator (phcCostFields + 1) costSeg with
   | [cost0; cost1; cost2] =>
       memory <-? parsePHCUint cost0 phcMemoryPrefix 32;;
       time <-? parsePHCUint cost1 phcTimePrefix 32;;
       threads <-? parsePHCUint cost2 phcThreadsPrefix 8;;
       Ok (stored algo version 0 0 time memory threads)
   | _ => Error ErrInvalidHashData
   end)%go.

(** [params.SaltLen = uint32(len(salt))], and the key's. *)
Definition with_lengths (p : Params) (saltLen keyLen : Z) : Params :=
  stored (Algo p) (Version p) keyLen saltLen (Time p) (Memory p) (Threads p).

Definition unmarshalPHC (hash : gostring) : result perror Hashed :=
  if existsb (fun c => (c =? 13) || (c =? 10)) hash then Error ErrInvalidHashData
  else match SplitN phcSeparator (phcSegments + 1) hash with
  | [_; algo; version; cost; salt; key] =>
      (params <-? parsePHCParams algo version cost;;
       salt <-? decodePHCBytes salt;;
       key <-? decodePHCBytes key;;
       Ok (MkHashed (Some (with_lengths params (wrapU 32 (Z.of_nat (length salt))) (wrapU 32 (Z.of_nat (length key))))) salt key))%go
  | _ => Error ErrInvalidHashData
  end.

Definition detectFormat (hash : gostring) : Format := if HasPrefix hash [phcSeparator] then FormatPHC else FormatJSON.

Definition acceptsFormat (ph : Params) (f : Format) : bool := negb (Z.land (acceptedFormats ph) (formatBit f) =? 0).

(** The key derivation of golang.org/x/crypto/argon2. *)
Class Argon2 : Type := {
  IDKey : gostring → gostring → Z → Z → Z → Z → gostring;
  IDKey_length password salt time memory threads keyLen :
    0 <= keyLen → Z.of_nat (length (IDKey password salt time memory threads keyLen)) = keyLen;
  IDKey_bytes password salt time memory threads keyLen : Forall is_byte (IDKey password salt time memory threads keyLen)
}.

Section Hashing.
Context `{JS : JSON} `{AR : Argon2} `{AE : AEAD} {R : Type} `{RD : Reader R} (cryptoRand : nat → option gostring).

(** [IDKey] panics without a pass or a lane. *)
Definition argon2_IDKey (password salt : gostring) (time memory threads keyLen : Z) : option gostring :=
  if (time <? 1) || (threads <? 1) then None else Some (IDKey password salt time memory threads keyLen).

Definition quoted (s : gostring) : gostring := 34 :: s ++ [34].

(** The JSON object of a [Hashed], fields in the order of the structs. *)
Definition json_params (p : Params) : gostring :=
  str "{" ++ quoted (str "A") ++ str ":" ++ json_quote (Algo p) ++
  str "," ++ quoted (str "V") ++ str ":" ++ FormatUint (Version p) ++
  str "," ++ quoted (str "K") ++ str ":" ++ FormatUint (KeyLen p) ++
  str "," ++ quoted (str "S") ++ str ":" ++ FormatUint (SaltLen p) ++
  str "," ++ quoted (str "T") ++ str ":" ++ FormatUint (Time p) ++
  str "," ++ quoted (str "M") ++ str ":" ++ FormatUint (Memory p) ++
  str "," ++ quoted (str "P") ++ str ":" ++ FormatUint (Threads p) ++ str "}".

Definition json_encode (d : Hashed) : gostring :=
  str "{" ++ quoted (str "P") ++ str ":" ++ (match HParams d with Some p => json_params p | None => str "null" end) ++
  str "," ++ quoted (str "S") ++ str ":" ++ quoted (encode64 true (Salt d)) ++
  str "," ++ quoted (str "K") ++ str ":" ++ quoted (encode64 true (Key d)) ++ str "}" ++ [10].

(** [encode.Serialize] and [encode.Deserialize]. *)
Definition Serialize (d : Hashed) : gostring := encode64 true (json_encode d).
Definition Deserialize (hash : gostring) : option Hashed := json_stream hash.

Definition decodeHash (hash : gostring) : result perror Hashed :=
  if detectFormat hash =? FormatPHC then unmarshalPHC hash
  else match Deserialize hash with Some d => Ok d | None => Error ErrInvalidHashData end.

Definition serialize (ph : Params) (prm : Params) (data : Hashed) : gostring :=
  if format ph =? FormatPHC then marshalPHC prm (Salt data) (Key data) else Serialize data.

(** ** Hashing and verification *)

(** [passwordHashData]: the hash with its parameters, which are not nil. *)
Definition passwordHashData (ph : Params) (password : gostring) (r : R) : option (result perror (Params * Hashed) * R) :=
  match validateHashParams ph with
  | Error e => Some (Error e, r)
  | Ok _ =>
      if Z.of_nat (length password) <? minPLen ph then Some (Error ErrPasswordTooShort, r)
      else if maxPLen ph <? Z.of_nat (length password) then Some (Error ErrPasswordTooLong, r)
      else
        '(salt, r) ← RandomBytes (SaltLen ph) r;
        match salt with
        | Error e => Some (Error (ErrRandom e), r)
        | Ok salt =>
            key ← argon2_IDKey password salt (Time ph) (Memory ph) (Threads ph) (KeyLen ph);
            let prm := stored (Algo ph) (Version ph) (KeyLen ph) (SaltLen ph) (Time ph) (Memory ph) (Threads ph) in
            Some (Ok (prm, MkHashed (Some prm) salt key), r)
        end
  end.

Definition PasswordHash (ph : Params) (password : gostring) (r : R) : option (result perror gostring * R) :=
  '(data, r) ← passwordHashData ph password r;
  match data with
  | Error e => Some (Error e, r)
  | Ok (prm, data) => Some (Ok (serialize ph prm data), r)
  end.

Definition passwordVerifyData (ph : Params) (password : gostring) (data : Hashed) : option (result perror bool) :=
  if maxPLen ph =? 0 then Some (Error ErrInvalidParams)
  else if maxPLen ph <? Z.of_nat (length password) then Some (Error ErrPasswordTooLong)
  else match validateVerifyData ph data with
  | Error e => Some (Error e)
  | Ok p =>
      if negb (str_eqb (Algo p) (Algo ph)) then Some (Error ErrAlgoMismatch)
      else if negb (Version p =? Version ph) then Some (Error ErrVersionMismatch)
      else
        newkey ← argon2_IDKey password (Salt data) (Time p) (Memory p) (Threads p) (KeyLen p);
        Some (Ok (str_eqb newkey (Key data)))
  end.

Definition PasswordVerify (ph : Params) (password hash : gostring) : option (result perror bool) :=
  match validateHashLen hash with
  | Error e => Some (Error e)
  | Ok _ =>
      match decodeHash hash with
      | Error e => Some (Error e)
      | Ok data => passwordVerifyData ph password data
      end
  end.

Definition needsRehashData (ph : Params) (data : Hashed) : result perror bool :=
  if maxPLen ph =? 0 then Error ErrInvalidParams
  else
    (p <-? validateVerifyData ph data;;
     Ok (negb (str_eqb (Algo p) (Algo ph)) || negb (Version p =? Version ph) || negb (KeyLen p =? KeyLen ph) ||
         negb (SaltLen p =? SaltLen ph) || negb (Time p =? Time ph) || negb (Memory p =? Memory ph) ||
         negb (Threads p =? Threads ph)))%go.

Definition PasswordNeedsRehash (ph : Params) (hash : gostring) : result perror bool :=
  (_ <-? validateHashLen hash;;
   data <-? decodeHash hash;;
   need <-? needsRehashData ph data;;
   Ok (need || negb (acceptsFormat ph (detectFormat hash))))%go.

(** ** Under a pepper *)

Definition EncryptPasswordHash (ph : Params) (key password : gostring) (r : R) : option (result perror gostring * R) :=
  match validatePepperKey key with
  | Error e => Some (Error e, r)
  | Ok _ =>
      '(data, r) ← passwordHashData ph password r;
      match data with
      | Error e => Some (Error e, r)
      | Ok (_, data) =>
          match EncryptSerializeAny cryptoRand json_encode key data with
          | Ok h => Some (Ok h, r)
          | Error e => Some (Error (ErrEncrypt e), r)
          end
      end
  end.

(** The decryption shared by the two readers. *)
Definition decryptHash (key hash : gostring) : result perror Hashed :=
  (_ <-? validatePepperKey key;;
   _ <-? validateHashLen hash;;
   match DecryptSerializeAny json_parse key hash with
   | Ok data => Ok data
   | Error _ => Error ErrInvalidHashData
   end)%go.

Definition EncryptPasswordVerify (ph : Params) (key password hash : gostring) : option (result perror bool) :=
  match decryptHash key hash with
  | Error e => Some (Error e)
  | Ok data => passwordVerifyData ph password data
  end.

Definition EncryptPasswordNeedsRehash (ph : Params) (key hash : gostring) : result perror bool :=
  (data <-? decryptHash key hash;; needsRehashData ph data)%go.

End Hashing.
