(* ===== verification/PasswordProps.v ===== *)
(** * [pkg/passwordhash]: what is minted verifies

    Parameters built by [New] can mint, what they mint they verify and do not
    ask to rehash, in both serializations and under a pepper (C39); no stored
    text makes verification panic or derive a key beyond the verifier's own
    bounds (C29). *)

From stdpp Require Import base option list.
From Stdlib Require Import String.
From S2P Require Import Prelude GoString GoText Random Base64 Encrypt PasswordHash.

#[local] Open Scope Z_scope.

(** ** Sizes and alphabets of the texts *)

Lemma encode64_length pad l : 3 * Z.of_nat (length (encode64 pad l)) <= 4 * Z.of_nat (length l) + 8.
Proof.
  induction l as [|a|a b|a b c l IH] using triple_induction; cbn [encode64 length]; [done|..]; [..|lia].
  all: destruct pad; cbn; lia.
Qed.

(** ** Well-formed parameters *)

(** The fields within their Go types. *)
Definition typed (p : Params) : Prop :=
  inU 8 (Version p) ∧ inU 32 (KeyLen p) ∧ inU 32 (SaltLen p) ∧ inU 32 (Time p) ∧ inU 32 (Memory p) ∧ inU 8 (Threads p).

(** A configuration that can mint. *)
Definition mintable (ph : Params) : Prop :=
  typed ph ∧ validateHashParams ph = Ok () ∧ 1 <= verifyCostMultiplier ph < 2 ^ 32 ∧ 0 < maxPLen ph ∧
  acceptsFormat ph (if format ph =? FormatPHC then FormatPHC else FormatJSON) = true.

(** The package's options, on arguments of their types. *)
Inductive package_option : POption → Prop :=
| opt_KeyLen v : inU 32 v → package_option (WithKeyLen v)
| opt_SaltLen v : inU 32 v → package_option (WithSaltLen v)
| opt_Time v : inU 32 v → package_option (WithTime v)
| opt_Memory v : inU 32 v → package_option (WithMemory v)
| opt_Threads v : inU 8 v → package_option (WithThreads v)
| opt_MinLength v : inU 32 v → package_option (WithMinPasswordLength v)
| opt_MaxLength v : inU 32 v → package_option (WithMaxPasswordLength v)
| opt_Multiplier v : inU 32 v → package_option (WithVerifyCostMultiplier v)
| opt_Format f accept : package_option (WithFormat f accept).

(** What the options keep. *)
Record configured (p : Params) : Prop := {
  c_algo : Algo p = DefaultAlgo;
  c_version : Version p = argon2Version;
  c_keyLen : minHashKeyLen <= KeyLen p <= maxVerifyKeyLen;
  c_saltLen : minHashSaltLen <= SaltLen p <= maxVerifySaltLen;
  c_time : minTime <= Time p <= maxVerifyTime;
  c_memory : minMemory <= Memory p <= maxVerifyMemory;
  c_threads : 1 <= Threads p < 2 ^ 8;
  c_minPLen : 1 <= minPLen p < 2 ^ 32;
  c_format : format p = FormatJSON ∧ Z.testbit (acceptedFormats p) 0 = true ∨
             format p = FormatPHC ∧ Z.testbit (acceptedFormats p) 1 = true;
  c_multiplier : 1 <= verifyCostMultiplier p < 2 ^ 32;
  c_rnd : rnd p = true
}.

Lemma configured_default : configured defaultParams.
Proof. split; try done. by left. Qed.

Lemma accept_format_keeps mask k : Z.testbit mask k = true → ∀ fs, Z.testbit (fold_left accept_format fs mask) k = true.
Proof.
  intros Hm fs. revert mask Hm. induction fs as [|f fs IH]; intros mask Hm; [done|]. cbn [fold_left]. apply IH.
  unfold accept_format. case_match; [|done]. by rewrite Z.lor_spec, Hm.
Qed.

Lemma option_configured opt p : package_option opt → configured p → configured (opt p).
Proof.
  intros Ho [].
  destruct Ho; (split; cbn; try assumption); unfold inU, minHashKeyLen, maxVerifyKeyLen, minHashSaltLen,
    maxVerifySaltLen, minTime, maxVerifyTime, minMemory, maxVerifyMemory, minThreads, minPasswordLength,
    minVerifyCostMultiplier in *; try lia.
  unfold normalizeFormat. destruct (f =? FormatPHC); [right|left]; (split; [done|]).
  - by apply (accept_format_keeps (formatBit FormatPHC) 1).
  - by apply (accept_format_keeps (formatBit FormatJSON) 0).
Qed.

Lemma options_configured opts p : Forall package_option opts → configured p → configured (fold_left (fun ph opt => opt ph) opts p).
Proof.
  intros Ho. revert p. induction Ho as [|opt opts Hopt _ IH]; intros p Hp; [done|]. cbn [fold_left].
  by apply IH, option_configured.
Qed.

Lemma adjustMemory_spec m p : minMemory <= m <= maxVerifyMemory → 1 <= p < 2 ^ 8 →
  ∃ b, adjustMemory m p = Some b ∧ minMemory <= b <= maxVerifyMemory ∧ b mod (4 * p) = 0 ∧ 8 * p <= b.
Proof.
  intros Hm Hp. unfold adjustMemory, memBlock, minMemory, maxVerifyMemory in *.
  rewrite (wrapU_small 32 (4 * p)) by (unfold inU; lia). rewrite (proj2 (Z.eqb_neq _ _)) by lia.
  assert (Hd : 0 <= m / (4 * p) * (4 * p) <= m).
  { pose proof (Z.div_mod m (4 * p)). pose proof (Z.mod_pos_bound m (4 * p)). assert (0 <= m / (4 * p)) by (apply Z.div_pos; lia). nia. }
  rewrite !wrapU_small by (unfold inU; lia). eexists. split; [done|]. split; [lia|]. split; [|lia].
  destruct (Z.max_spec (2 * (4 * p)) (m / (4 * p) * (4 * p))) as [[_ ->]|[_ ->]]; apply Z.mod_mul; lia.
Qed.

Lemma testbit_accepts p k : 0 <= k < 2 → Z.testbit (acceptedFormats p) k = true → acceptsFormat p k = true.
Proof.
  intros Hk Ht. unfold acceptsFormat. apply negb_true_iff, Z.eqb_neq. intros H0.
  assert (Hb : Z.testbit (Z.land (acceptedFormats p) (formatBit k)) k = true); [|by rewrite H0, Z.bits_0 in Hb].
  rewrite Z.land_spec, Ht. assert (k = 0 ∨ k = 1) as [-> | ->] by lia; done.
Qed.

(** [New] always returns, and what it returns can mint. *)
Lemma New_mintable opts : Forall package_option opts → ∃ ph, New opts = Some ph ∧ mintable ph.
Proof.
  intros Ho. unfold New. pose proof (options_configured opts defaultParams Ho configured_default) as Hc.
  set (p := fold_left (fun (ph : Params) (opt : Params → Params) => opt ph) opts defaultParams) in *. destruct Hc.
  destruct (adjustMemory_spec (Memory p) (Threads p)) as (m & -> & Hm & _); [done|done|]. cbn [mbind option_bind].
  eexists. split; [done|].
  unfold mintable, typed, validateHashParams, validateHashCostParams, outOfRange; cbn [Algo Version KeyLen SaltLen Time Memory
    Threads minPLen maxPLen format acceptedFormats verifyCostMultiplier rnd].
  unfold inU, minHashKeyLen, maxVerifyKeyLen, minHashSaltLen, maxVerifySaltLen, minTime, maxVerifyTime, minMemory,
    maxVerifyMemory, minThreads in *.
  rewrite c_rnd0, c_algo0, c_version0. split; [unfold argon2Version; lia|]. split.
  { rewrite !(proj2 (Z.ltb_ge _ _)) by lia. done. }
  split; [lia|]. split; [lia|].
  destruct c_format0 as [[-> Hb]|[-> Hb]]; by apply testbit_accepts.
Qed.

(** ** The PHC round trip *)

(** The characters the fields are made of: none separates fields or breaks a
    line. *)
Definition field_char (c : Z) : Prop := c ≠ 10 ∧ c ≠ 13 ∧ c ≠ phcSeparator ∧ c ≠ phcCostSeparator.

Lemma text64_field s : Forall is_text64 s → Forall field_char s.
Proof. intros Hs. eapply Forall_impl; [exact Hs|]. unfold is_text64, field_char, phcSeparator, phcCostSeparator. cbn. lia. Qed.

Lemma FormatUint_field n : 0 <= n < 2 ^ 64 → Forall field_char (FormatUint n).
Proof.
  intros Hn. eapply Forall_impl; [by apply FormatUint_digits|]. unfold field_char, phcSeparator, phcCostSeparator. cbn. lia.
Qed.

Lemma parsePHCUint_prefix prefix n bits : 0 <= n < 2 ^ bits → bits <= 64 →
  parsePHCUint (prefix ++ FormatUint n) prefix bits = Ok n.
Proof.
  intros Hn Hb. unfold parsePHCUint, CutPrefix. rewrite (proj2 (HasPrefix_spec _ prefix)) by eauto.
  by rewrite drop_app_length, ParseUint_FormatUint.
Qed.

Definition phc_cost (p : Params) : list gostring :=
  [phcMemoryPrefix ++ FormatUint (Memory p); phcTimePrefix ++ FormatUint (Time p); phcThreadsPrefix ++ FormatUint (Threads p)].

Definition phc_fields (p : Params) (salt key : gostring) : list gostring :=
  [[]; Algo p; phcVersionPrefix ++ FormatUint (Version p); Join phcCostSeparator (phc_cost p); encode64 false salt; encode64 false key].

Lemma marshalPHC_Join p salt key : marshalPHC p salt key = Join phcSeparator (phc_fields p salt key).
Proof. unfold marshalPHC, phc_fields, phc_cost. simpl. rewrite <- !app_assoc. simpl. rewrite <- !app_assoc. reflexivity. Qed.

(** The exported fields. *)
Definition exported (p : Params) : Params :=
  stored (Algo p) (Version p) (KeyLen p) (SaltLen p) (Time p) (Memory p) (Threads p).

(** A hash whose fields have their Go types, as minted under [p]. *)
Record minted (p : Params) (salt key : gostring) : Prop := {
  m_typed : typed p;
  m_algo : Algo p = DefaultAlgo;
  m_salt : Forall is_byte salt;
  m_key : Forall is_byte key;
  m_saltLen : Z.of_nat (length salt) = SaltLen p;
  m_keyLen : Z.of_nat (length key) = KeyLen p
}.

Lemma phc_cost_field p : typed p → Forall (Forall field_char) (phc_cost p).
Proof.
  intros (_ & _ & _ & Ht & Hm & Hp). unfold inU in *.
  unfold phc_cost. rewrite !Forall_cons, Forall_nil, !Forall_app.
  split_and!; try (apply FormatUint_field; lia); repeat constructor; done.
Qed.

Lemma phc_fields_plain p salt key : minted p salt key →
  Forall (Forall (fun c => c ≠ 10 ∧ c ≠ 13 ∧ c ≠ phcSeparator)) (phc_fields p salt key).
Proof.
  intros [Hty Ha Hs Hk _ _]. pose proof Hty as (Hv & _). unfold inU in Hv.
  assert (Hi : ∀ s, Forall field_char s → Forall (fun c => c ≠ 10 ∧ c ≠ 13 ∧ c ≠ phcSeparator) s).
  { intros s Hsf. eapply Forall_impl; [exact Hsf|]. unfold field_char. cbn. tauto. }
  unfold phc_fields. rewrite Ha, !Forall_cons, Forall_nil. split_and!; [constructor| | | | | |done].
  - repeat constructor; done.
  - apply Forall_app. split; [repeat constructor; done|]. apply Hi, FormatUint_field. lia.
  - apply Forall_Join; [done|]. eapply Forall_impl; [by apply phc_cost_field|exact Hi].
  - by apply Hi, text64_field, encode64_text.
  - by apply Hi, text64_field, encode64_text.
Qed.

Lemma unmarshalPHC_marshalPHC p salt key : minted p salt key →
  unmarshalPHC (marshalPHC p salt key) = Ok (MkHashed (Some (exported p)) salt key).
Proof.
  intros Hmint. pose proof (phc_fields_plain p salt key Hmint) as Hf. pose proof (phc_cost_field p (m_typed _ _ _ Hmint)) as Hc.
  destruct Hmint as [(Hv & Hk & Hs & Ht & Hm & Hp) Ha Hbs Hbk Hls Hlk]. unfold unmarshalPHC. rewrite marshalPHC_Join.
  assert (Hnl : existsb (fun c => (c =? 13) || (c =? 10)) (Join phcSeparator (phc_fields p salt key)) = false).
  { apply existsb_none, (Forall_Join _ phcSeparator); [done|]. eapply Forall_Forall_impl; [|exact Hf].
    intros c (? & ? & _). apply orb_false_iff. by rewrite !Z.eqb_neq. }
  rewrite Hnl, SplitN_Join; [|cbn; lia|done|eapply Forall_Forall_impl; [|exact Hf]; cbn; tauto].
  unfold phc_fields, parsePHCParams. rewrite parsePHCUint_prefix by (unfold inU in Hv; lia). cbn [result_bind].
  rewrite SplitN_Join; [|cbn; lia|done|eapply Forall_Forall_impl; [|exact Hc]; unfold field_char; cbn; tauto].
  unfold phc_cost, inU in *. rewrite !parsePHCUint_prefix by lia. cbn [result_bind].
  unfold decodePHCBytes. rewrite !decode64_encode64 by done. cbn [result_bind].
  rewrite !wrapU_small by (unfold inU; lia). unfold with_lengths, exported. cbn. by rewrite Hls, Hlk.
Qed.

(** ** What minting checks *)

Lemma outOfRange_false v lo hi : outOfRange v lo hi = false ↔ lo <= v <= hi.
Proof. unfold outOfRange. rewrite orb_false_iff, !Z.ltb_ge. lia. Qed.

Record bounds (ph : Params) : Prop := {
  b_rnd : rnd ph = true;
  b_lengths : minPLen ph <= maxPLen ph;
  b_algo : Algo ph = DefaultAlgo;
  b_version : Version ph = argon2Version;
  b_time : minTime <= Time ph <= maxVerifyTime;
  b_threads : minThreads <= Threads ph;
  b_keyLen : minHashKeyLen <= KeyLen ph <= maxVerifyKeyLen;
  b_saltLen : minHashSaltLen <= SaltLen ph <= maxVerifySaltLen;
  b_memory : minMemory <= Memory ph <= maxVerifyMemory
}.

Lemma validateHashParams_bounds ph : validateHashParams ph = Ok () → bounds ph.
Proof.
  unfold validateHashParams, validateHashCostParams. destruct (rnd ph) eqn:Hr; [|done]. cbn [negb].
  destruct (Z.ltb_spec (maxPLen ph) (minPLen ph)); [done|].
  destruct (str_eqb (Algo ph) DefaultAlgo) eqn:Ha; [|done]. apply bool_decide_eq_true in Ha. cbn [negb].
  destruct (Z.eqb_spec (Version ph) argon2Version); [|done]. cbn [negb].
  destruct (outOfRange (Time ph) _ _) eqn:Ht; [done|]. destruct (Z.ltb_spec (Threads ph) minThreads); [done|].
  destruct (outOfRange (KeyLen ph) _ _) eqn:Hk; [done|]. destruct (outOfRange (SaltLen ph) _ _) eqn:Hs; [done|].
  destruct (outOfRange (Memory ph) _ _) eqn:Hm; [done|]. rewrite outOfRange_false in *. by split.
Qed.

(** The ceiling of a cost is never below the configured cost. *)
Lemma ceiling_ge m v hi : 1 <= m < 2 ^ 32 → 0 <= v < 2 ^ 32 → v <= hi → v <= Z.min (wrapU 64 (m * v)) hi.
Proof. intros Hm Hv Hhi. rewrite wrapU_small by (unfold inU; nia). nia. Qed.

Lemma validateVerifyData_minted ph salt key : mintable ph → minted ph salt key →
  validateVerifyData ph (MkHashed (Some (exported ph)) salt key) = Ok (exported ph).
Proof.
  intros (Hty & Hv & Hmul & _) Hmint. destruct (validateHashParams_bounds ph Hv). destruct Hty as (_ & _ & _ & Ht & Hm & _), Hmint.
  unfold validateVerifyData, validateStoredParamBounds, validateStoredLengths, verifyTimeCeiling, verifyMemoryCeiling, inU in *.
  cbn [HParams Salt Key exported stored Time Memory Threads KeyLen SaltLen].
  pose proof (ceiling_ge (verifyCostMultiplier ph) (Time ph) maxVerifyTime).
  pose proof (ceiling_ge (verifyCostMultiplier ph) (Memory ph) maxVerifyMemory).
  unfold minHashKeyLen, minHashSaltLen in *.
  rewrite !(proj2 (outOfRange_false _ _ _)) by (unfold minKeyLen, minSaltLen; lia).
  rewrite (proj2 (Z.ltb_ge _ _)) by done. cbn [result_bind]. by rewrite m_keyLen0, m_saltLen0, !Z.eqb_refl.
Qed.

(** ** The JSON text *)

(** What the records of the model say of encoding/json: letters and digits are
    quoted as they are, decoding undoes encoding, and a Base64 stream decodes
    as the bytes it stands for. *)
Class JSONLaws `{JSON} : Prop := {
  quote_algo : json_quote DefaultAlgo = quoted DefaultAlgo;
  parse_encode p salt key : minted p salt key →
    json_parse (json_encode (MkHashed (Some (exported p)) salt key)) = Some (MkHashed (Some (exported p)) salt key);
  stream_parse b : Forall is_byte b → json_stream (encode64 true b) = json_parse b
}.

Lemma text64_bytes s : Forall is_text64 s → Forall is_byte s.
Proof. intros Hs. eapply Forall_impl; [exact Hs|]. unfold is_text64, is_byte. cbn. lia. Qed.

Section JSONText.
Context `{JSONLaws}.

Lemma json_encode_bytes p salt key : minted p salt key → Forall is_byte (json_encode (MkHashed (Some (exported p)) salt key)).
Proof.
  intros [(Hv & Hk & Hs & Ht & Hm & Hp) Ha Hbs Hbk _ _]. unfold inU in *.
  unfold json_encode, json_params, quoted. cbn [HParams exported stored Algo Version KeyLen SaltLen Time Memory Threads Salt Key].
  rewrite Ha, quote_algo. repeat first [apply Forall_app; split | apply Forall_cons; split].
  all: try (apply FormatUint_bytes; lia); try (by apply text64_bytes, encode64_text); try (unfold is_byte; lia).
  all: repeat constructor; done.
Qed.

Lemma json_encode_length p salt key : Algo p = DefaultAlgo → Z.of_nat (length salt) <= 1024 → Z.of_nat (length key) <= 1024 →
  Z.of_nat (length (json_encode (MkHashed (Some (exported p)) salt key))) <= 3000.
Proof.
  intros Ha Hs Hk. unfold json_encode, json_params.
  cbn [HParams exported stored Algo Version KeyLen SaltLen Time Memory Threads Salt Key].
  rewrite Ha, quote_algo. unfold quoted. repeat (rewrite length_app || rewrite length_cons).
  pose proof (encode64_length true salt). pose proof (encode64_length true key).
  pose proof (FormatUint_length (Version p)). pose proof (FormatUint_length (KeyLen p)).
  pose proof (FormatUint_length (SaltLen p)). pose proof (FormatUint_length (Time p)).
  pose proof (FormatUint_length (Memory p)). pose proof (FormatUint_length (Threads p)).
  cbn [length str DefaultAlgo]. simpl length. lia.
Qed.
End JSONText.

(** ** Stored texts *)

Section Stored.
Context `{JSONLaws}.

Lemma validateHashLen_ok hash : Z.of_nat (length hash) <= maxHashLen → validateHashLen hash = Ok ().
Proof. intros Hl. unfold validateHashLen. by rewrite (proj2 (Z.ltb_ge _ _)). Qed.

Lemma marshalPHC_length p salt key : Algo p = DefaultAlgo → Z.of_nat (length salt) <= 1024 → Z.of_nat (length key) <= 1024 →
  Z.of_nat (length (marshalPHC p salt key)) <= 3000.
Proof.
  intros Ha Hs Hk. unfold marshalPHC. rewrite Ha. repeat (rewrite length_app || rewrite length_cons).
  pose proof (encode64_length false salt). pose proof (encode64_length false key).
  pose proof (FormatUint_length (Version p)). pose proof (FormatUint_length (Time p)).
  pose proof (FormatUint_length (Memory p)). pose proof (FormatUint_length (Threads p)).
  simpl length. lia.
Qed.

(** What a minted hash is stored as is within the length bound, is recognised
    as its own serialization and decodes to itself. *)
Lemma serialize_decodes ph salt key : minted ph salt key → SaltLen ph <= 1024 → KeyLen ph <= 1024 →
  let data := MkHashed (Some (exported ph)) salt key in
  let hash := serialize ph (exported ph) data in
  validateHashLen hash = Ok () ∧ decodeHash hash = Ok data ∧
  detectFormat hash = (if format ph =? FormatPHC then FormatPHC else FormatJSON).
Proof.
  intros Hmint Hs Hk data hash. pose proof Hmint as [Hty Ha Hbs Hbk Hls Hlk].
  assert (Hexp : minted (exported ph) salt key) by done.
  subst hash. unfold serialize, decodeHash. cbn [Salt Key data]. destruct (format ph =? FormatPHC).
  - assert (Hd : detectFormat (marshalPHC (exported ph) salt key) = FormatPHC) by done. rewrite Hd.
    split; [|split; [by rewrite (unmarshalPHC_marshalPHC (exported ph))|done]].
    apply validateHashLen_ok. etransitivity; [apply marshalPHC_length; [done|lia..]|done].
  - pose proof (json_encode_bytes ph salt key Hmint) as Hb. pose proof (json_encode_length ph salt key Ha ltac:(lia) ltac:(lia)) as Hl.
    assert (Hd : detectFormat (Serialize data) = FormatJSON) by done. rewrite Hd.
    split; [|split; [|done]].
    + apply validateHashLen_ok. unfold Serialize. pose proof (encode64_length true (json_encode data)). unfold maxHashLen. subst data. lia.
    + change (FormatJSON =? FormatPHC) with false. cbv iota. unfold Deserialize, Serialize. subst data. by rewrite stream_parse, parse_encode.
Qed.

(** The same under a pepper. *)
Lemma encrypted_decodes `{AEAD} cryptoRand ph salt key pepper : fills cryptoRand → (length pepper ∈ [16; 24; 32]%nat) →
  minted ph salt key → SaltLen ph <= 1024 → KeyLen ph <= 1024 →
  let data := MkHashed (Some (exported ph)) salt key in
  ∃ hash, EncryptSerializeAny cryptoRand json_encode pepper data = Ok hash ∧ decryptHash pepper hash = Ok data.
Proof.
  intros Hf Hp Hmint Hs Hk data. pose proof Hmint as [Hty Ha Hbs Hbk Hls Hlk].
  pose proof (json_encode_length ph salt key Ha ltac:(lia) ltac:(lia)) as Hl. fold data in Hl.
  destruct (EncryptSerializeAny_spec cryptoRand json_encode json_parse pepper data) as (hash & He & Hd & msg & -> & Hlm);
    [done|by apply bool_decide_eq_true|by apply json_encode_bytes|by apply parse_encode|].
  eexists. split; [exact He|]. unfold decryptHash, validatePepperKey. rewrite bool_decide_eq_true_2 by done. cbn [result_bind].
  rewrite validateHashLen_ok; [cbn [result_bind]; by rewrite Hd|].
  pose proof (encode64_length true msg). unfold maxHashLen. lia.
Qed.
End Stored.

(** ** Hashing and verifying *)

Section Mint.
Context `{JSONLaws} `{Argon2} {R : Type} `{Reader R}.

(** The key [password] derives under the parameters of [ph]. *)
Definition derived (ph : Params) (password salt : gostring) : gostring :=
  IDKey password salt (Time ph) (Memory ph) (Threads ph) (KeyLen ph).

Lemma passwordHashData_spec ph password r : mintable ph → ∃ res r', passwordHashData ph password r = Some (res, r') ∧
  match res with
  | Ok (prm, data) =>
      minPLen ph <= Z.of_nat (length password) <= maxPLen ph ∧ prm = exported ph ∧
      ∃ salt, data = MkHashed (Some prm) salt (derived ph password salt) ∧ minted ph salt (derived ph password salt)
  | Error ErrPasswordTooShort => Z.of_nat (length password) < minPLen ph
  | Error ErrPasswordTooLong => maxPLen ph < Z.of_nat (length password)
  | Error (ErrRandom _) => True
  | Error _ => False
  end.
Proof.
  intros (Hty & Hv & _). destruct (validateHashParams_bounds ph Hv). unfold passwordHashData. rewrite Hv.
  destruct (Z.ltb_spec (Z.of_nat (length password)) (minPLen ph)); [by eexists _, _|].
  destruct (Z.ltb_spec (maxPLen ph) (Z.of_nat (length password))); [by eexists _, _|].
  unfold minHashKeyLen, minHashSaltLen in *.
  destruct (RandomBytes_spec (SaltLen ph) r) as (res & r' & -> & Hres); [lia|]. cbn [mbind option_bind].
  destruct res as [salt|e]; [|by eexists _, _]. destruct Hres as [Hls Hbs].
  unfold argon2_IDKey. unfold minTime, minThreads in *. rewrite !(proj2 (Z.ltb_ge _ _)) by lia. cbn [orb mbind option_bind].
  eexists _, _. split; [done|]. split; [done|]. split; [done|]. exists salt. split; [done|].
  split; try done; [apply IDKey_bytes|apply IDKey_length; lia].
Qed.

(** A minted hash read back: another password verifies when it derives the same
    key, and no rehash is due. *)
Lemma read_minted ph salt key : mintable ph → minted ph salt key →
  let data := MkHashed (Some (exported ph)) salt key in
  (∀ password, Z.of_nat (length password) <= maxPLen ph →
    passwordVerifyData ph password data = Some (Ok (str_eqb (derived ph password salt) key))) ∧
  needsRehashData ph data = Ok false.
Proof.
  intros Hph Hmint data. pose proof Hph as (Hty & Hv & _ & Hmax & _). destruct (validateHashParams_bounds ph Hv).
  unfold passwordVerifyData, needsRehashData. rewrite (proj2 (Z.eqb_neq _ _)) by lia. subst data.
  rewrite validateVerifyData_minted by done. cbn [result_bind].
  change (Algo (exported ph)) with (Algo ph). change (Version (exported ph)) with (Version ph).
  assert (Hr : str_eqb (Algo ph) (Algo ph) = true) by (by apply bool_decide_eq_true). rewrite Hr. split.
  - intros password Hl. rewrite (proj2 (Z.ltb_ge _ _)) by lia. cbn. rewrite Z.eqb_refl. cbn.
    unfold argon2_IDKey. unfold minTime, minThreads in *. cbn. by rewrite !(proj2 (Z.ltb_ge _ _)) by lia.
  - cbn. by rewrite !Z.eqb_refl.
Qed.
End Mint.

Section Theorems.
Context `{JSONLaws} `{Argon2} `{AEAD} {R : Type} `{Reader R} (cryptoRand : nat → option gostring).

(** How minting can fail: the length of the password, or the random source. *)
Definition mint_failure (ph : Params) (password : gostring) (e : perror) : Prop :=
  match e with
  | ErrPasswordTooShort => Z.of_nat (length password) < minPLen ph
  | ErrPasswordTooLong => maxPLen ph < Z.of_nat (length password)
  | ErrRandom _ => True
  | _ => False
  end.

(** C39. What is minted verifies. [New] returns parameters whatever its
    options. Under them [PasswordHash] always returns, failing only for the
    length of the password or the random source. A hash it returns verifies
    the password it was made from, verifies another one of a valid length
    exactly when that derives the same key from the stored salt, and needs no
    rehash. The same holds of a hash minted and read under a pepper. *)
Theorem minted_verifies (opts : list POption) (password pepper : gostring) (r : R)
    (Hopts : Forall package_option opts) (Hrand : fills cryptoRand) (Hpepper : length pepper ∈ [16; 24; 32]%nat) :
  ∃ ph, New opts = Some ph ∧ mintable ph ∧
  (∃ res r', PasswordHash ph password r = Some (res, r') ∧
    match res with
    | Error e => mint_failure ph password e
    | Ok hash =>
        PasswordVerify ph password hash = Some (Ok true) ∧ PasswordNeedsRehash ph hash = Ok false ∧
        ∃ salt, Z.of_nat (length salt) = SaltLen ph ∧
          ∀ other, Z.of_nat (length other) <= maxPLen ph →
            PasswordVerify ph other hash = Some (Ok (str_eqb (derived ph other salt) (derived ph password salt)))
    end) ∧
  ∃ res r', EncryptPasswordHash cryptoRand ph pepper password r = Some (res, r') ∧
    match res with
    | Error e => mint_failure ph password e
    | Ok hash =>
        EncryptPasswordVerify ph pepper password hash = Some (Ok true) ∧ EncryptPasswordNeedsRehash ph pepper hash = Ok false ∧
        ∃ salt, Z.of_nat (length salt) = SaltLen ph ∧
          ∀ other, Z.of_nat (length other) <= maxPLen ph →
            EncryptPasswordVerify ph pepper other hash = Some (Ok (str_eqb (derived ph other salt) (derived ph password salt)))
    end.
Proof.
  destruct (New_mintable opts Hopts) as (ph & Hnew & Hph). exists ph. split; [done|]. split; [done|].
  pose proof Hph as (_ & Hv & _ & _ & Hacc). destruct (validateHashParams_bounds ph Hv).
  destruct (passwordHashData_spec ph password r Hph) as (res & r' & Hd & Hres).
  unfold PasswordHash, EncryptPasswordHash, validatePepperKey. rewrite bool_decide_eq_true_2 by done.
  rewrite Hd. cbn [mbind option_bind]. destruct res as [[prm data]|e].
  - destruct Hres as (Hlen & -> & salt & -> & Hmint). unfold maxVerifySaltLen, maxVerifyKeyLen in *.
    destruct (read_minted ph salt (derived ph password salt) Hph Hmint) as [Hread Hneeds].
    assert (Hsame : str_eqb (derived ph password salt) (derived ph password salt) = true) by (by apply bool_decide_eq_true).
    pose proof (m_saltLen _ _ _ Hmint) as Hsalt. split.
    + eexists _, _. split; [done|].
      destruct (serialize_decodes ph salt (derived ph password salt) Hmint) as (Hl & Hdec & Hfmt); [lia|lia|].
      unfold PasswordVerify, PasswordNeedsRehash. rewrite Hl, Hdec, Hfmt, Hacc. cbn [result_bind]. rewrite Hneeds.
      split; [by rewrite Hread, Hsame by lia|]. split; [done|]. exists salt. split; [done|]. intros other Ho. by rewrite Hread.
    + destruct (encrypted_decodes cryptoRand ph salt (derived ph password salt) pepper Hrand Hpepper Hmint) as (hash & He & Hdec); [lia|lia|].
      rewrite He. eexists _, _. split; [done|]. unfold EncryptPasswordVerify, EncryptPasswordNeedsRehash. rewrite Hdec. cbn [result_bind].
      split; [by rewrite Hread, Hsame by lia|]. split; [done|]. exists salt. split; [done|]. intros other Ho. by rewrite Hread.
  - split; (eexists _, _; split; [done|]); by destruct e.
Qed.

(** What verification accepts to spend on a stored hash. *)
Definition affordable (ph p : Params) (data : Hashed) : Prop :=
  1 <= Time p <= Z.min 1024 (verifyCostMultiplier ph * Time ph) ∧
  8 <= Memory p <= Z.min (2 ^ 22) (verifyCostMultiplier ph * Memory ph) ∧
  1 <= Threads p ∧ 4 <= KeyLen p <= 1024 ∧ 1 <= SaltLen p <= 1024 ∧
  Z.of_nat (length (Key data)) = KeyLen p ∧ Z.of_nat (length (Salt data)) = SaltLen p.

Lemma validateVerifyData_affordable ph data p : inU 32 (verifyCostMultiplier ph) → inU 32 (Time ph) → inU 32 (Memory ph) →
  validateVerifyData ph data = Ok p → HParams data = Some p ∧ affordable ph p data.
Proof.
  intros Hmul Ht Hm. unfold validateVerifyData, validateStoredParamBounds, validateStoredLengths, verifyTimeCeiling, verifyMemoryCeiling.
  rewrite !wrapU_small by (unfold inU in *; nia). destruct (HParams data) as [q|]; [|done].
  destruct (outOfRange (Time q) _ _) eqn:E1; [done|]. destruct (outOfRange (Memory q) _ _) eqn:E2; [done|].
  destruct (Z.ltb_spec (Threads q) minThreads); [done|].
  destruct (outOfRange (KeyLen q) _ _) eqn:E3; [done|]. destruct (outOfRange (SaltLen q) _ _) eqn:E4; [done|]. cbn [result_bind].
  destruct (Z.eqb_spec (Z.of_nat (length (Key data))) (KeyLen q)); [|done].
  destruct (Z.eqb_spec (Z.of_nat (length (Salt data))) (SaltLen q)); [|done]. cbn [negb result_bind].
  intros; simplify_eq. rewrite outOfRange_false in *. split; [done|]. unfold affordable.
  unfold minTime, maxVerifyTime, minMemory, maxVerifyMemory, minThreads, minKeyLen, maxVerifyKeyLen, minSaltLen, maxVerifySaltLen in *.
  split_and!; lia.
Qed.

(** The outcome of verifying [password] against decoded data. *)
Definition verdict (ph : Params) (password : gostring) (data : Hashed) (res : result perror bool) : Prop :=
  match res with
  | Ok b => ∃ p, HParams data = Some p ∧ affordable ph p data ∧ Algo p = Algo ph ∧ Version p = Version ph ∧
      0 < maxPLen ph ∧ Z.of_nat (length password) <= maxPLen ph ∧
      b = str_eqb (IDKey password (Salt data) (Time p) (Memory p) (Threads p) (KeyLen p)) (Key data)
  | Error ErrInvalidParams => maxPLen ph = 0
  | Error ErrPasswordTooLong => maxPLen ph < Z.of_nat (length password)
  | Error ErrInvalidHashData | Error ErrAlgoMismatch | Error ErrVersionMismatch => True
  | Error _ => False
  end.

Lemma passwordVerifyData_verdict ph password data : inU 32 (verifyCostMultiplier ph) → inU 32 (Time ph) → inU 32 (Memory ph) →
  0 <= maxPLen ph → ∃ res, passwordVerifyData ph password data = Some res ∧ verdict ph password data res.
Proof.
  intros Hmul Ht Hm Hmax. unfold passwordVerifyData.
  destruct (Z.eqb_spec (maxPLen ph) 0); [by exists (Error ErrInvalidParams); split|].
  destruct (Z.ltb_spec (maxPLen ph) (Z.of_nat (length password))); [by exists (Error ErrPasswordTooLong); split|].
  destruct (validateVerifyData ph data) as [p|e] eqn:Hv.
  - apply validateVerifyData_affordable in Hv as [Hp Ha]; [|done..].
    destruct (str_eqb (Algo p) (Algo ph)) eqn:Halgo; [|by exists (Error ErrAlgoMismatch); split].
    apply bool_decide_eq_true in Halgo. destruct (Z.eqb_spec (Version p) (Version ph)); [|by exists (Error ErrVersionMismatch); split].
    cbn [negb]. pose proof Ha as (? & _ & ? & _). unfold argon2_IDKey. rewrite !(proj2 (Z.ltb_ge _ _)) by lia.
    cbn [orb mbind option_bind]. eexists. split; [done|]. exists p. split_and!; try done; lia.
  - eexists. split; [done|]. cbn. assert (e = ErrInvalidHashData) as ->; [|done].
    unfold validateVerifyData, validateStoredParamBounds, validateStoredLengths in Hv.
    destruct (HParams data); [|by simplify_eq]. repeat case_match; simplify_eq/=; repeat case_match; by simplify_eq.
Qed.

(** Decoding fails in one way only. *)
Definition only_invalid {A} (r : result perror A) : Prop := match r with Ok _ => True | Error e => e = ErrInvalidHashData end.

Lemma only_invalid_bind {A B} (r : result perror A) (k : A → result perror B) :
  only_invalid r → (∀ a, only_invalid (k a)) → only_invalid (result_bind r k).
Proof. destruct r as [a|e]; cbn; auto. Qed.

Lemma parsePHCUint_invalid segment prefix bits : only_invalid (parsePHCUint segment prefix bits).
Proof. unfold parsePHCUint. destruct (CutPrefix segment prefix) as [rest|]; [|done]. by destruct (ParseUintBits bits rest). Qed.

Lemma decodePHCBytes_invalid segment : only_invalid (decodePHCBytes segment).
Proof. unfold decodePHCBytes. by destruct (decode64 true false segment). Qed.

Lemma parsePHCParams_invalid algo version cost : only_invalid (parsePHCParams algo version cost).
Proof.
  unfold parsePHCParams. apply only_invalid_bind; [apply parsePHCUint_invalid|intros ?].
  destruct (SplitN _ _ _) as [|? [|? [|? [|? ?]]]]; try done.
  do 3 (apply only_invalid_bind; [apply parsePHCUint_invalid|intros ?]). done.
Qed.

Lemma unmarshalPHC_invalid hash : only_invalid (unmarshalPHC hash).
Proof.
  unfold unmarshalPHC. case_match; [done|]. destruct (SplitN _ _ _) as [|? [|? [|? [|? [|? [|? [|? ?]]]]]]]; try done.
  apply only_invalid_bind; [apply parsePHCParams_invalid|intros ?].
  do 2 (apply only_invalid_bind; [apply decodePHCBytes_invalid|intros ?]). done.
Qed.

Lemma decodeHash_error hash e : decodeHash hash = Error e → e = ErrInvalidHashData.
Proof.
  unfold decodeHash. destruct (detectFormat hash =? FormatPHC); [|by case_match; intros; simplify_eq].
  pose proof (unmarshalPHC_invalid hash) as Hinv. intros He. by rewrite He in Hinv.
Qed.

(** C29. No stored text hurts the verifier. For any parameters, password and
    stored text, a forged or corrupted one included, [PasswordVerify] never
    panics; and it derives a key only for a text of bounded length whose
    decoded costs lie within the multiple of its own costs that it allows and
    the absolute bounds, and whose salt and key have the lengths it declares.
    Its answer is then the comparison of the derived with the stored key. The
    same holds under a pepper. A text needs no rehash exactly when it decodes,
    within those bounds, to the verifier's own parameters in an accepted
    serialization. *)
Theorem verification_is_bounded ph (password hash pepper : gostring)
    (Hmul : inU 32 (verifyCostMultiplier ph)) (Ht : inU 32 (Time ph)) (Hm : inU 32 (Memory ph)) (Hmax : 0 <= maxPLen ph) :
  (∃ res, PasswordVerify ph password hash = Some res ∧
    (res = Error ErrInvalidHashData ∨
     ∃ data, Z.of_nat (length hash) <= maxHashLen ∧ decodeHash hash = Ok data ∧ verdict ph password data res)) ∧
  (∃ res, EncryptPasswordVerify ph pepper password hash = Some res ∧
    (res = Error ErrInvalidHashData ∨ res = Error ErrInvalidPepperKey ∧ length pepper ∉ [16; 24; 32]%nat ∨
     ∃ data, Z.of_nat (length hash) <= maxHashLen ∧ decryptHash pepper hash = Ok data ∧ verdict ph password data res)) ∧
  (PasswordNeedsRehash ph hash = Ok false ↔
    Z.of_nat (length hash) <= maxHashLen ∧ maxPLen ph ≠ 0 ∧ acceptsFormat ph (detectFormat hash) = true ∧
    ∃ data p, decodeHash hash = Ok data ∧ validateVerifyData ph data = Ok p ∧ exported p = exported ph).
Proof.
  split; [|split].
  - unfold PasswordVerify, validateHashLen. destruct (Z.ltb_spec maxHashLen (Z.of_nat (length hash))); [by eexists; split; [|left]|].
    destruct (decodeHash hash) as [data|e] eqn:Hd; [|apply decodeHash_error in Hd as ->; by eexists; split; [|left]].
    destruct (passwordVerifyData_verdict ph password data) as (res & Hres & Hverd); [done..|]. eauto 8.
  - unfold EncryptPasswordVerify, decryptHash, validatePepperKey.
    case_bool_decide; cbn [result_bind]; [|by eexists; split; [|right; left]].
    unfold validateHashLen. destruct (Z.ltb_spec maxHashLen (Z.of_nat (length hash))); [by eexists; split; [|left]|]. cbn [result_bind].
    destruct (DecryptSerializeAny json_parse pepper hash) as [data|e]; [|by eexists; split; [|left]].
    destruct (passwordVerifyData_verdict ph password data) as (res & Hres & Hverd); [done..|]. eauto 8.
  - unfold PasswordNeedsRehash, validateHashLen, needsRehashData. destruct (Z.ltb_spec maxHashLen (Z.of_nat (length hash))); cbn [result_bind].
    { split; [done|lia]. }
    destruct (decodeHash hash) as [data|e]; cbn [result_bind]; [|by split; [|intros (_ & _ & _ & ? & ? & ? & _)]].
    destruct (Z.eqb_spec (maxPLen ph) 0); [by split; [|tauto]|].
    destruct (validateVerifyData ph data) as [p|e] eqn:Hv; cbn [result_bind].
    + split.
      * intros Heq. injection Heq as Hor. rewrite !orb_false_iff, !negb_false_iff, !Z.eqb_eq in Hor.
        destruct Hor as (((((((Ha & ?) & ?) & ?) & ?) & ?) & ?) & ?). apply bool_decide_eq_true in Ha.
        do 3 (split; [done|]). exists data, p. do 2 (split; [done|]). unfold exported, stored. by f_equal.
      * intros (_ & _ & Hacc & data' & p' & Hd & Hv' & He). f_equal.
        assert (data' = data) as -> by congruence. assert (p' = p) as -> by congruence.
        unfold exported, stored in He. injection He as -> -> -> -> -> -> ->.
        rewrite Hacc, !Z.eqb_refl. unfold str_eqb. by rewrite bool_decide_eq_true_2.
    + split; [done|]. intros (_ & _ & _ & data' & p' & ? & ? & _). congruence.
Qed.
End Theorems.
