(* ===== verification/PasswordJSON.v ===== *)
(** * [pkg/passwordhash]: the records of the model can be decoded

    A decoder of the JSON texts the package writes, in their one layout, with
    a toy key derivation and cipher: concrete functions with the laws the
    theorems assume, and the theorems applied to them. *)

From stdpp Require Import base option list.
From Stdlib Require Import String.
From S2P Require Import Prelude GoString GoText Random Base64 Encrypt PasswordHash PasswordProps.

#[local] Open Scope Z_scope.

(** ** The layout *)

(** What stands between [pre] and [post]. *)
Definition field (pre post s : gostring) : option gostring :=
  rest ← CutPrefix s pre;
  if strHasSuffix rest post then Some (take (length rest - length post) rest) else None.

Lemma field_app pre post s : field pre post (pre ++ s ++ post) = Some s.
Proof.
  unfold field, CutPrefix. rewrite (proj2 (HasPrefix_spec _ pre)) by eauto. cbn [mbind option_bind].
  rewrite drop_app_length, (proj2 (strHasSuffix_spec _ post)) by eauto. rewrite length_app.
  replace (length s + length post - length post)%nat with (length s) by lia. by rewrite take_app_length.
Qed.

Definition member (name : gostring) : gostring := quoted name ++ str ":".
Definition opening : gostring := str "{" ++ member (str "P") ++ str "{" ++ member (str "A") ++ [34].
Definition closing : gostring := [34] ++ str "}" ++ [10].

Definition layout (p : Params) (salt key : gostring) : list gostring :=
  [opening ++ DefaultAlgo ++ [34]; member (str "V") ++ FormatUint (Version p) ++ []; member (str "K") ++ FormatUint (KeyLen p) ++ [];
   member (str "S") ++ FormatUint (SaltLen p) ++ []; member (str "T") ++ FormatUint (Time p) ++ [];
   member (str "M") ++ FormatUint (Memory p) ++ []; member (str "P") ++ FormatUint (Threads p) ++ str "}";
   (member (str "S") ++ [34]) ++ encode64 true salt ++ [34]; (member (str "K") ++ [34]) ++ encode64 true key ++ closing].

Definition number (bits : Z) (pre post s : gostring) : option Z := text ← field pre post s; ParseUintBits bits text.
Definition blob (pre post s : gostring) : option gostring := text ← field pre post s; decode64 false true text.

Definition canonical_parse (s : gostring) : option Hashed :=
  match SplitN 44 10 s with
  | [a; v; k; n; t; m; p; salt; key] =>
      algo ← field opening [34] a;
      version ← number 8 (member (str "V")) [] v; keyLen ← number 32 (member (str "K")) [] k;
      saltLen ← number 32 (member (str "S")) [] n; time ← number 32 (member (str "T")) [] t;
      memory ← number 32 (member (str "M")) [] m; threads ← number 8 (member (str "P")) (str "}") p;
      salt ← blob (member (str "S") ++ [34]) [34] salt;
      key ← blob (member (str "K") ++ [34]) closing key;
      Some (MkHashed (Some (stored algo version keyLen saltLen time memory threads)) salt key)
  | _ => None
  end.

#[export] Instance canonical : JSON := {|
  json_quote := quoted;
  json_parse := canonical_parse;
  json_stream text := bytes ← decode64 false true text; canonical_parse bytes
|}.

Lemma json_encode_layout p salt key : Algo p = DefaultAlgo →
  json_encode (MkHashed (Some (exported p)) salt key) = Join 44 (layout p salt key).
Proof.
  intros Ha. unfold json_encode, json_params, layout.
  cbn [HParams exported stored Algo Version KeyLen SaltLen Time Memory Threads Salt Key]. rewrite Ha.
  rewrite !app_nil_r. repeat (progress (simpl; rewrite <- ?app_assoc)). reflexivity.
Qed.

Lemma layout_plain p salt key : minted p salt key → Forall (Forall (fun c => c ≠ 44)) (layout p salt key).
Proof.
  intros [(Hv & Hk & Hs & Ht & Hm & Hp) _ Hbs Hbk _ _]. unfold inU in *.
  assert (Hf : ∀ n, 0 <= n < 2 ^ 64 → Forall (fun c => c ≠ 44) (FormatUint n)).
  { intros n Hn. eapply Forall_impl; [by apply FormatUint_digits|]. cbn. lia. }
  assert (He : ∀ l, Forall is_byte l → Forall (fun c => c ≠ 44) (encode64 true l)).
  { intros l Hl. eapply Forall_impl; [by apply (encode64_text true)|]. unfold is_text64. cbn. lia. }
  unfold layout. rewrite !Forall_cons, Forall_nil, !Forall_app.
  split_and!; try (apply Hf; lia); try (by apply He); repeat constructor; done.
Qed.

Lemma number_field bits pre post n : 0 <= n < 2 ^ bits → bits <= 64 → number bits pre post (pre ++ FormatUint n ++ post) = Some n.
Proof. intros Hn Hb. unfold number. rewrite field_app. by apply ParseUint_FormatUint. Qed.

Lemma blob_field pre post l : Forall is_byte l → blob pre post (pre ++ encode64 true l ++ post) = Some l.
Proof. intros Hl. unfold blob. rewrite field_app. by apply decode64_encode64. Qed.

#[export] Instance canonical_laws : JSONLaws.
Proof.
  split; [done| |].
  - intros p salt key Hmint. pose proof (layout_plain p salt key Hmint) as Hp. destruct Hmint as [(Hv & Hk & Hs & Ht & Hm & Hth) Ha Hbs Hbk _ _].
    unfold inU in *. cbn [json_parse canonical]. rewrite json_encode_layout by done. unfold canonical_parse.
    rewrite SplitN_Join; [|cbn; lia|done|done]. unfold layout.
    rewrite field_app, !number_field, !blob_field by (done || lia). cbn [mbind option_bind]. unfold exported. by rewrite Ha.
  - intros b Hb. cbn [json_stream canonical]. by rewrite decode64_encode64.
Qed.

(** ** A toy derivation, cipher and random source *)

#[export] Instance toy_argon2 : Argon2.
Proof.
  refine {| IDKey := fun password salt _ _ _ n =>
    (fun c => c mod 256) <$> take (Z.to_nat n) (password ++ salt ++ replicate (Z.to_nat n) 0) |}.
  - intros. rewrite length_fmap, length_take, !length_app, length_replicate. lia.
  - intros. apply Forall_fmap, Forall_true. intros c. apply Z.mod_pos_bound. lia.
Defined.

#[export] Instance toy_aead : AEAD.
Proof.
  refine {| Seal := fun _ _ msg _ => ((fun c => c mod 256) <$> msg) ++ replicate 16 0;
            Open := fun _ _ text _ => Some (take (length text - 16) text) |}.
  - intros _ _ msg _ Hb. rewrite length_app, length_replicate, Nat.add_sub, take_app_length. f_equal.
    induction Hb as [|c msg Hc _ IH]; [done|]. cbn [fmap list_fmap]. rewrite Z.mod_small by done. by f_equal.
  - intros _ _ msg _. apply Forall_app. split; [|by apply Forall_replicate].
    apply Forall_fmap, Forall_true. intros c. apply Z.mod_pos_bound. lia.
  - intros _ _ msg _. by rewrite length_app, length_fmap, length_replicate.
Defined.

Definition zeros (n : nat) : option gostring := Some (replicate n 0).

Lemma zeros_fill : fills zeros.
Proof. intros n. exists (replicate n 0). split; [done|]. split; [apply length_replicate|by apply Forall_replicate]. Qed.

Definition options : list POption := [WithFormat FormatPHC []; WithSaltLen 8; WithKeyLen 16].

Lemma options_package : Forall package_option options.
Proof. repeat constructor; unfold inU; lia. Qed.

Lemma minted_verifies_witness :
  Forall package_option options ∧ fills zeros ∧ length (replicate 16 7) ∈ [16; 24; 32]%nat ∧
  ∃ ph, New options = Some ph ∧ ∃ r', PasswordHash (R := Z) (RD := counting) ph (str "correct horse") 250 =
      Some (Ok (str "$argon2id$v=19$m=65536,t=3,p=4$+vv8/f7/AAE$Y29ycmVjdCBob3JzZfr7/A"), r') ∧
    PasswordVerify ph (str "correct horse") (str "$argon2id$v=19$m=65536,t=3,p=4$+vv8/f7/AAE$Y29ycmVjdCBob3JzZfr7/A") = Some (Ok true).
Proof.
  split; [exact options_package|]. split; [exact zeros_fill|]. split; [by apply (bool_decide_unpack _)|].
  destruct (minted_verifies (R := Z) (H3 := counting) zeros options (str "correct horse") (replicate 16 7) 250
    options_package zeros_fill ltac:(by apply (bool_decide_unpack _))) as (ph & Hnew & _ & (res & r' & Hhash & Hres) & _).
  exists ph. split; [exact Hnew|]. exists r'.
  vm_compute in Hnew. injection Hnew as <-. vm_compute in Hhash. injection Hhash as <- <-. vm_compute in Hres.
  split; [vm_compute; reflexivity|]. destruct Hres as [Hres _]. exact Hres.
Defined.

Lemma verification_is_bounded_witness :
  inU 32 (verifyCostMultiplier defaultParams) ∧ inU 32 (Time defaultParams) ∧ inU 32 (Memory defaultParams) ∧ 0 <= maxPLen defaultParams ∧
  PasswordVerify defaultParams (str "secret") (str "$argon2id$v=19$m=65536,t=13,p=4$AAAA$AAAAAA") = Some (Error ErrInvalidHashData).
Proof.
  assert (Hu : inU 32 (verifyCostMultiplier defaultParams) ∧ inU 32 (Time defaultParams) ∧ inU 32 (Memory defaultParams) ∧ 0 <= maxPLen defaultParams)
    by (unfold inU; cbn; unfold defaultVerifyCostMultiplier, DefaultTime, DefaultMemory, DefaultMaxPasswordLength; lia).
  destruct Hu as (Hmul & Ht & Hm & Hmax). do 4 (split; [assumption|]).
  destruct (verification_is_bounded defaultParams (str "secret") (str "$argon2id$v=19$m=65536,t=13,p=4$AAAA$AAAAAA") [] Hmul Ht Hm Hmax)
    as ((res & Hres & _) & _).
  rewrite Hres. vm_compute in Hres. injection Hres as <-. reflexivity.
Defined.

(** ** What PHC decoding does not distinguish *)

(** Numbers with leading zeros are accepted: these texts differ and decode to
    the same hash. *)
Example phc_leading_zeros :
  let canonical := str "$argon2id$v=19$m=65536,t=3,p=4$+vv8/f7/AAE$Y29ycmVjdCBob3JzZfr7/A" in
  let padded := str "$argon2id$v=019$m=0065536,t=03,p=4$+vv8/f7/AAE$Y29ycmVjdCBob3JzZfr7/A" in
  canonical ≠ padded ∧ unmarshalPHC canonical = unmarshalPHC padded ∧ ∃ data, unmarshalPHC canonical = Ok data.
Proof. split; [done|]. split; [vm_compute; reflexivity|]. eexists. vm_compute. reflexivity. Qed.
