(* ===== verification/FilterNumeric.v ===== *)
(** * [pkg/filter]: exact numeric comparison

    numeric.go. Integers keep their 64 bits and are compared exactly, signed
    with unsigned; only a comparison with a float converts, and the theorem
    says what that rounding can and cannot change. *)

From stdpp Require Import base option.
From Stdlib Require Import Floats.
From S2P Require Import Prelude Binary64.

#[local] Open Scope Z_scope.

(** [numeric]: the kind selects the field that is read. *)
Inductive numeric : Type :=
| numericNone
| numericInt (i : Z)
| numericUint (u : Z)
| numericFloat (f : float).

Definition numericNaN : Z := 2.

Definition is_float (n : numeric) : bool := match n with numericFloat _ => true | _ => false end.

(** [float]: only called on integer or float kinds. *)
Definition float_ (n : numeric) : float :=
  match n with
  | numericFloat f => f
  | numericUint u => of_int u
  | numericInt i => of_int i
  | numericNone => of_int 0
  end.

Definition cmpInt64 (a b : Z) : Z := if a <? b then -1 else if b <? a then 1 else 0.

Definition cmpUint64 (a b : Z) : Z := if a <? b then -1 else if b <? a then 1 else 0.

(** [uint64(i)] keeps the bits of [i]. *)
Definition cmpIntUint (i u : Z) : Z := if i <? 0 then -1 else cmpUint64 (wrapU 64 i) u.

Definition cmpFloat (a b : float) : Z :=
  if PrimFloat.is_nan a || PrimFloat.is_nan b then numericNaN
  else if PrimFloat.ltb a b then -1
  else if PrimFloat.ltb b a then 1
  else 0.

Definition compareInt (n o : numeric) : Z :=
  match n, o with
  | numericInt i, numericInt j => cmpInt64 i j
  | numericUint u, numericUint v => cmpUint64 u v
  | numericInt i, numericUint u => cmpIntUint i u
  | numericUint u, numericInt i => - cmpIntUint i u
  | _, _ => 0
  end.

(** [compare]: [None] is [ok = false]. *)
Definition compare (n o : numeric) : option Z :=
  match n, o with
  | numericNone, _ | _, numericNone => None
  | _, _ =>
      if negb (is_float n) && negb (is_float o) then Some (compareInt n o)
      else
        let c := cmpFloat (float_ n) (float_ o) in
        if c =? numericNaN then None else Some c
  end.

Definition equals (n o : numeric) : bool :=
  match compare n o with
  | Some c => c =? 0
  | None => false
  end.

(** ** Values *)

(** A [numeric] the code can build. *)
Definition numeric_ok (n : numeric) : Prop :=
  match n with
  | numericInt i => inS 64 i
  | numericUint u => inU 64 u
  | _ => True
  end.

(** The exact value, in units of 2^-1074. *)
Definition exact (n : numeric) : option Z :=
  match n with
  | numericNone => None
  | numericInt i => Some (i * 2 ^ 1074)
  | numericUint u => Some (u * 2 ^ 1074)
  | numericFloat f => scaled f
  end.

(** No rounding happens between [n] and [o]. *)
Definition no_rounding (n o : numeric) : Prop :=
  is_float n = is_float o ∨
  (∀ i, n = numericInt i ∨ n = numericUint i ∨ o = numericInt i ∨ o = numericUint i → - 2 ^ 53 <= i <= 2 ^ 53).

(** The sign of a comparison. *)
Definition sgn (a b : Z) : Z := if a <? b then -1 else if b <? a then 1 else 0.

Lemma sgn_scale a b k : 0 < k → sgn (a * k) (b * k) = sgn a b.
Proof.
  intros Hk. unfold sgn. destruct (Z.ltb_spec a b), (Z.ltb_spec b a), (Z.ltb_spec (a * k) (b * k)),
    (Z.ltb_spec (b * k) (a * k)); nia || done.
Qed.

Lemma sgn_opp a b : - sgn a b = sgn b a.
Proof. unfold sgn. destruct (Z.ltb_spec a b), (Z.ltb_spec b a); lia. Qed.

Lemma cmpIntUint_spec i u : inS 64 i → inU 64 u → cmpIntUint i u = sgn i u.
Proof.
  intros Hi Hu. unfold cmpIntUint, cmpUint64, sgn. unfold inS, inU in *.
  destruct (Z.ltb_spec i 0); [by rewrite (proj2 (Z.ltb_lt i u)) by lia|].
  by rewrite wrapU_small by (unfold inU; lia).
Qed.

Lemma cmpFloat_spec a b :
  cmpFloat a b = match scaled a, scaled b with Some x, Some y => sgn x y | _, _ => numericNaN end.
Proof.
  unfold cmpFloat. rewrite !is_nan_scaled, !ltb_scaled.
  destruct (scaled a) as [x|], (scaled b) as [y|]; try done; by case_bool_decide.
Qed.

Lemma sgn_range a b : sgn a b <> numericNaN.
Proof. unfold sgn, numericNaN. repeat case_match; lia. Qed.

Lemma compare_ints n o a b : numeric_ok n → numeric_ok o → is_float n = false → is_float o = false →
  exact n = Some a → exact o = Some b → compare n o = Some (sgn a b).
Proof.
  intros Hn Ho Hfn Hfo Ha Hb. assert (HU : 0 < 2 ^ 1074) by done. unfold compare.
  destruct n as [|i|u|f], o as [|j|v|g]; try discriminate; cbn [exact] in Ha, Hb; simplify_eq;
    cbn [is_float negb andb compareInt]; rewrite sgn_scale by done; try done.
  - by rewrite cmpIntUint_spec.
  - by rewrite cmpIntUint_spec, sgn_opp.
Qed.

Lemma compare_floats n o : is_float n || is_float o = true → n ≠ numericNone → o ≠ numericNone →
  compare n o = match scaled (float_ n), scaled (float_ o) with Some x, Some y => Some (sgn x y) | _, _ => None end.
Proof.
  intros Hf Hn Ho. transitivity
    (if cmpFloat (float_ n) (float_ o) =? numericNaN then None else Some (cmpFloat (float_ n) (float_ o))).
  - unfold compare. by destruct n, o.
  - rewrite cmpFloat_spec. destruct (scaled (float_ n)) as [x|], (scaled (float_ o)) as [y|]; try done.
    by rewrite (proj2 (Z.eqb_neq _ _)) by apply sgn_range.
Qed.

(** The conversion keeps the kinds' values on their side of every float, and
    keeps the value of a float or of an integer of 53 bits. *)
Lemma float_spec n a : numeric_ok n → exact n = Some a →
  ∃ x, scaled (float_ n) = Some x ∧ (is_float n = true → x = a) ∧
    (∀ i, (n = numericInt i ∨ n = numericUint i) → - 2 ^ 53 <= i <= 2 ^ 53 → x = a) ∧
    ∀ f y, scaled f = Some y → (y <= a → y <= x) ∧ (a <= y → x <= y).
Proof.
  intros Hn Ha. destruct n as [|i|u|f]; cbn [exact float_ numeric_ok] in *; [done| | |].
  1,2: simplify_eq.
  - destruct (of_int_spec i) as (x & Hx & Hs & Hb); [unfold inS in Hn; lia|]. exists x. split; [done|].
    split; [done|]. split; [|done]. intros j [Hj|Hj] Hr; simplify_eq; by apply Hs.
  - destruct (of_int_spec u) as (x & Hx & Hs & Hb); [unfold inU in Hn; lia|]. exists x. split; [done|].
    split; [done|]. split; [|done]. intros j [Hj|Hj] Hr; simplify_eq; by apply Hs.
  - exists a. split; [done|]. split; [done|]. split; [intros ? [?|?]; done|]. lia.
Qed.

Lemma float_none n : n ≠ numericNone → exact n = None → scaled (float_ n) = None.
Proof. by destruct n. Qed.

(** A strict comparison of the rounded values is that of the exact ones, since
    one of them is a float and the other stays on its side of it. *)
Lemma rounded_sgn a b x y : (a = x ∨ b = y) →
  (y <= a → y <= x) → (a <= y → x <= y) → (x <= b → x <= y) → (b <= x → y <= x) →
  sgn x y = sgn a b ∨ sgn x y = 0.
Proof.
  unfold sgn. intros Hor H1 H2 H3 H4. destruct (Z.ltb_spec x y), (Z.ltb_spec y x), (Z.ltb_spec a b), (Z.ltb_spec b a);
    auto; lia.
Qed.

Lemma compare_rounded n o a b : numeric_ok n → numeric_ok o → is_float n || is_float o = true →
  exact n = Some a → exact o = Some b →
  ∃ c, compare n o = Some c ∧ compare o n = Some (- c) ∧ (c = sgn a b ∨ c = 0) ∧ (no_rounding n o → c = sgn a b).
Proof.
  intros Hn Ho Hf Ha Hb. assert (n ≠ numericNone ∧ o ≠ numericNone) as [Hn0 Ho0] by (by destruct n, o).
  destruct (float_spec n a Hn Ha) as (x & Hx & Hxf & Hxs & Hxb).
  destruct (float_spec o b Ho Hb) as (y & Hy & Hyf & Hys & Hyb).
  exists (sgn x y). rewrite (compare_floats n o), (compare_floats o n), Hx, Hy by (done || by rewrite orb_comm).
  split; [done|]. split; [by rewrite sgn_opp|]. split.
  - destruct (Hxb _ _ Hy), (Hyb _ _ Hx). apply rounded_sgn; try done.
    apply orb_true_iff in Hf as [Hf|Hf]; [left; symmetry; auto|right; symmetry; auto].
  - intros Hr. assert (x = a ∧ y = b) as [-> ->]; [|done].
    destruct Hr as [Hr|Hr]; [rewrite Hr, orb_diag in Hf; split; [apply Hxf; congruence|auto]|].
    split; [destruct n|destruct o]; try done; (try by auto); eapply Hxs || eapply Hys; eauto 6.
Qed.

Lemma compare_nan n o : exact n = None ∨ exact o = None → compare n o = None.
Proof.
  intros H. assert (Hf : ∀ f g, scaled f = None ∨ scaled g = None →
      (if cmpFloat f g =? numericNaN then None else Some (cmpFloat f g)) = None).
  { intros f g Hfg. rewrite cmpFloat_spec. by destruct (scaled f), (scaled g), Hfg. }
  destruct n, o, H as [H|H]; try discriminate H; try done; apply Hf; auto.
Qed.

(** Comparison of numbers. It is undefined exactly for a NaN (or a
    non-number); otherwise it is antisymmetric; whenever it answers less or
    greater, the exact values are so, whatever 64-bit integer was rounded to
    a float on the way; and it is exact altogether between two integers of
    any signedness, between two floats, and with integers of at most 53 bits. *)
Theorem compare_exact n o (Hn : numeric_ok n) (Ho : numeric_ok o) :
  (compare n o = None ↔ exact n = None ∨ exact o = None) ∧
  ∀ a b, exact n = Some a → exact o = Some b →
    ∃ c, compare n o = Some c ∧ compare o n = Some (- c) ∧ equals n o = (c =? 0) ∧
      (c = sgn a b ∨ c = 0) ∧ (no_rounding n o → c = sgn a b).
Proof.
  assert (Hv : ∀ a b, exact n = Some a → exact o = Some b →
    ∃ c, compare n o = Some c ∧ compare o n = Some (- c) ∧ (c = sgn a b ∨ c = 0) ∧ (no_rounding n o → c = sgn a b)).
  { intros a b Ha Hb. destruct (is_float n || is_float o) eqn:Hf; [by apply compare_rounded|].
    apply orb_false_iff in Hf as [Hfn Hfo]. exists (sgn a b).
    rewrite (compare_ints n o a b), (compare_ints o n b a), sgn_opp by done. auto. }
  split.
  - split; [|apply compare_nan].
    destruct (exact n) as [a|], (exact o) as [b|]; auto.
    destruct (Hv a b) as (c & -> & _); done.
  - intros a b Ha Hb. destruct (Hv a b Ha Hb) as (c & Hc & Hoc & Hs & Hr). exists c. unfold equals. by rewrite Hc.
Qed.

Lemma compare_exact_witness :
  numeric_ok (numericInt (2 ^ 53 + 1)) ∧ numeric_ok (numericUint (2 ^ 64 - 1)) ∧
  ∃ c, compare (numericInt (2 ^ 53 + 1)) (numericUint (2 ^ 64 - 1)) = Some c ∧ c = -1.
Proof.
  split; [done|]. split; [done|].
  destruct (compare_exact (numericInt (2 ^ 53 + 1)) (numericUint (2 ^ 64 - 1)) ltac:(done) ltac:(done)) as [_ H].
  destruct (H _ _ eq_refl eq_refl) as (c & Hc & _ & _ & _ & Hr). exists c. split; [done|].
  apply Hr. by left.
Defined.

(** An equality with a float is equality after rounding: 2^53 + 1 equals the
    float 2^53, which equals 2^53. *)
Lemma equals_rounds :
  equals (numericInt (2 ^ 53 + 1)) (numericFloat (of_int (2 ^ 53))) = true ∧
  equals (numericFloat (of_int (2 ^ 53))) (numericInt (2 ^ 53)) = true ∧
  equals (numericInt (2 ^ 53 + 1)) (numericInt (2 ^ 53)) = false.
Proof. by vm_compute. Qed.
