(* ===== verification/FilterValue.v ===== *)
(** * [pkg/filter]: reflected values

    What the filters use of package reflect. A type is an identifier with its
    kind, element and fields ([Types]); a value carries its type and a
    payload; pointers are locations of a heap, so chains of pointers may be
    cyclic. A [Value] is a value with the read-only marks that a step through
    an unexported field leaves, or the zero [Value]; what reflect answers with
    a panic is [None]. The second half is evaluator.go and
    [typeutil.IsNil]. *)

From stdpp Require Import base option list gmap.
From Stdlib Require Import Floats.
From S2P Require Import Prelude Binary64 GoString GoText FilterNumeric.

#[local] Open Scope Z_scope.

(** ** Types *)

Inductive rkind : Type :=
| KBool | KInt | KInt8 | KInt16 | KInt32 | KInt64
| KUint | KUint8 | KUint16 | KUint32 | KUint64 | KUintptr
| KFloat32 | KFloat64 | KComplex64 | KComplex128
| KArray | KChan | KFunc | KInterface | KMap | KPointer | KSlice | KString | KStruct | KUnsafePointer.

#[export] Instance kind_eq_dec : EqDecision rkind.
Proof. solve_decision. Defined.

Record StructField : Type := MkField {
  Name : gostring;
  PkgPath : gostring;
  Anonymous : bool;
  TypeOf : N;
  Tag : gostring → gostring;
  Index : list nat
}.

(** The program's types as reflect shows them. [FieldByName] follows Go's
    promotion rules and [VisibleFields] lists every field it can promote. *)
Class Types : Type := {
  Kind : N → rkind;
  Elem : N → N;
  Fields : N → list StructField;
  FieldByName : N → gostring → option StructField;
  VisibleFields : N → list StructField;
  Comparable : N → bool;
  predeclared : N → bool;
  tFloat64 : N;
  tString : N;
  tInt64 : N;
  tUint64 : N;
  tBool : N
}.

(** ** Values *)

Inductive gval : Type :=
| Val (t : N) (c : content)
with content : Type :=
| CBool (b : bool)
| CInt (i : Z)
| CUint (u : Z)
| CFloat (f : float)
| CComplex (re im : float)
| CString (s : gostring)
| CPtr (p : option N)
| CIface (v : option gval)
| CStruct (vs : list gval)
| CArray (vs : list gval)
| CSlice (vs : option (list gval))
| CMap (m : option (N * nat))
| CRef (r : option N).

Definition val_type (v : gval) : N := let 'Val t _ := v in t.
Definition val_content (v : gval) : content := let 'Val _ c := v in c.

(** An [any]; its dynamic type is never an interface. *)
Abbreviation any := (option gval) (only parsing).

(** The memory that pointers reach. *)
Abbreviation heap := (gmap N gval) (only parsing).

Record rvalue : Type := MkR {
  rv : gval;
  stickyRO : bool;
  embedRO : bool
}.

Abbreviation Value := (option rvalue) (only parsing).

Definition ValueOf (v : any) : Value := (fun g => MkR g false false) <$> v.

Section Reflect.
Context `{TY : Types} (σ : heap).

(** The kind of a valid value. *)
Definition rkind_of (r : rvalue) : rkind := Kind (val_type (rv r)).

(** The kind tested by the code; an invalid value has none of them. *)
Definition has_kind (v : Value) (ks : list rkind) : bool :=
  match v with
  | None => false
  | Some r => bool_decide (rkind_of r ∈ ks)
  end.

(** [Value.Elem] of an interface or a pointer. *)
Definition VElem (v : Value) : option Value :=
  r ← v;
  match val_content (rv r) with
  | CIface x => Some ((fun g => MkR g (stickyRO r || embedRO r) false) <$> x)
  | CPtr None => Some None
  | CPtr (Some l) => g ← σ !! l; Some (Some (MkR g (stickyRO r) (embedRO r)))
  | _ => None
  end.

(** [reflect.Indirect]. *)
Definition Indirect (v : Value) : option Value := if has_kind v [KPointer] then VElem v else Some v.

(** [Value.Field]: an unexported field is read-only, for good unless it is
    embedded. *)
Definition VField (v : Value) (i : nat) : option Value :=
  r ← v;
  match val_content (rv r) with
  | CStruct vs =>
      g ← vs !! i;
      f ← Fields (val_type (rv r)) !! i;
      let unexported := negb (str_eqb (PkgPath f) []) in
      Some (Some (MkR g (stickyRO r || (unexported && negb (Anonymous f))) (unexported && Anonymous f)))
  | _ => None
  end.

(** [Value.IsNil] on the nilable kinds. *)
Definition VIsNil (v : Value) : option bool :=
  r ← v;
  match val_content (rv r) with
  | CPtr p => Some (bool_decide (p = None))
  | CIface x => Some (match x with None => true | Some _ => false end)
  | CSlice x => Some (match x with None => true | Some _ => false end)
  | CMap m => Some (bool_decide (m = None))
  | CRef p => Some (bool_decide (p = None))
  | _ => None
  end.

(** [Value.Len] of a string, array, slice or map. *)
Definition VLen (v : Value) : option Z :=
  r ← v;
  match val_content (rv r) with
  | CString s => Some (Z.of_nat (length s))
  | CArray vs | CSlice (Some vs) => Some (Z.of_nat (length vs))
  | CSlice None | CMap None => Some 0
  | CMap (Some (_, n)) => Some (Z.of_nat n)
  | _ => None
  end.

(** [Value.Interface]: not for a read-only or invalid value. *)
Definition VInterface (v : Value) : option any :=
  r ← v;
  if stickyRO r || embedRO r then None
  else match val_content (rv r) with
  | CIface x => Some x
  | _ => Some (Some (rv r))
  end.

(** The language's [==] on two values: [None] is the panic on uncomparable
    types. Blank fields are skipped, and a difference stops the comparison. *)
Fixpoint go_eq (a b : gval) {struct a} : option bool :=
  match a, b with
  | Val t c, Val u d =>
      if negb (t =? u)%N then Some false
      else if negb (Comparable t) then None
      else
        let all := fix all (fs : list StructField) (xs ys : list gval) {struct xs} : option bool :=
          match xs, ys with
          | x :: xs, y :: ys =>
              if match fs with f :: _ => str_eqb (Name f) [95] | [] => false end then all (tail fs) xs ys
              else match go_eq x y with
                   | Some true => all (tail fs) xs ys
                   | r => r
                   end
          | _, _ => Some true
          end in
        match c, d with
        | CBool x, CBool y => Some (Bool.eqb x y)
        | CInt x, CInt y | CUint x, CUint y => Some (x =? y)
        | CFloat x, CFloat y => Some (PrimFloat.eqb x y)
        | CComplex x x', CComplex y y' => Some (PrimFloat.eqb x y && PrimFloat.eqb x' y')
        | CString x, CString y => Some (str_eqb x y)
        | CPtr x, CPtr y | CRef x, CRef y => Some (bool_decide (x = y))
        | CIface None, CIface None => Some true
        | CIface (Some x), CIface (Some y) => go_eq x y
        | CIface _, CIface _ => Some false
        | CStruct xs, CStruct ys => all (Fields t) xs ys
        | CArray xs, CArray ys => all [] xs ys
        | _, _ => None
        end
  end.

End Reflect.

(** ** evaluator.go *)

(** The library functions the evaluators call and whose code is not modelled:
    regular expressions, Unicode case folding and lower-casing, and
    [reflect.DeepEqual]. *)
Class Lib : Type := {
  regexp : Type;
  Compile : gostring → option regexp;
  MatchString : regexp → gostring → bool;
  EqualFold : gostring → gostring → bool;
  unicodeLower : Z → Z;
  DeepEqual : heap → any → any → bool
}.

Definition nilable : list rkind := [KChan; KFunc; KInterface; KMap; KPointer; KSlice; KUnsafePointer].
Definition int_kinds : list rkind := [KInt; KInt8; KInt16; KInt32; KInt64].
Definition uint_kinds : list rkind := [KUint; KUint8; KUint16; KUint32; KUint64].
Definition float_kinds : list rkind := [KFloat32; KFloat64].

Section Evaluator.
Context `{TY : Types} `{LIB : Lib} (σ : heap).

(** [isNilValue]. *)
Definition isNilValue (v : Value) : option bool :=
  match v with
  | None => Some true
  | Some _ => if has_kind v nilable then VIsNil v else Some false
  end.

(** [isNil], [typeutil.IsNil]. *)
Definition isNil (v : any) : option bool :=
  match v with
  | None => Some true
  | Some _ => if has_kind (ValueOf v) nilable then VIsNil (ValueOf v) else Some false
  end.

Definition stringValue (v : Value) : option gostring :=
  if has_kind v [KString] then
    match v with
    | Some r => match val_content (rv r) with CString s => Some s | _ => None end
    | None => None
    end
  else None.

(** The number of a value of numeric kind: [rv.Int()], [rv.Uint()],
    [rv.Float()]. *)
Definition toNumericValue (v : Value) : option numeric :=
  match v with
  | None => None
  | Some r =>
      match val_content (rv r) with
      | CInt i => if has_kind v int_kinds then Some (numericInt i) else None
      | CUint u => if has_kind v uint_kinds then Some (numericUint u) else None
      | CFloat f => if has_kind v float_kinds then Some (numericFloat f) else None
      | _ => None
      end
  end.

Definition toNumericReflect (v : any) : option numeric :=
  match v with
  | None => None
  | Some _ => toNumericValue (ValueOf v)
  end.

(** The type switch takes the predeclared types, reflection the others. *)
Definition toNumeric (v : any) : option numeric :=
  match v with
  | Some (Val t (CInt i)) =>
      if predeclared t && bool_decide (Kind t ∈ int_kinds) then Some (numericInt i) else toNumericReflect v
  | Some (Val t (CUint u)) =>
      if predeclared t && bool_decide (Kind t ∈ uint_kinds) then Some (numericUint u) else toNumericReflect v
  | Some (Val t (CFloat f)) =>
      if predeclared t && bool_decide (Kind t ∈ float_kinds) then Some (numericFloat f) else toNumericReflect v
  | _ => toNumericReflect v
  end.

Definition convertStringValue (v : any) : option gostring :=
  match v with
  | None => None
  | Some (Val t (CString s)) => if (t =? tString)%N then Some s else stringValue (ValueOf v)
  | Some _ => stringValue (ValueOf v)
  end.

Definition convertValue (v : any) : any :=
  match toNumeric v with
  | Some num => Some (Val tFloat64 (CFloat (float_ num)))
  | None =>
      match convertStringValue v with
      | Some s => Some (Val tString (CString s))
      | None => v
      end
  end.

(** The errors: those wrapped with [ErrInvalidFilter], [errFieldNotFound],
    and those of a caller's misuse. *)
Inductive ferror : Type := ErrInvalidFilter | errFieldNotFound | ErrUsage.

#[export] Instance ferror_eq_dec : EqDecision ferror.
Proof. solve_decision. Defined.

Definition convertFloatValue (v : any) : result ferror float :=
  let v := convertValue v in
  match ValueOf v with
  | Some r =>
      if has_kind (Some r) [KFloat64] then
        match val_content (rv r) with CFloat f => Ok f | _ => Error ErrInvalidFilter end
      else Error ErrInvalidFilter
  | None => Error ErrInvalidFilter
  end.

(** The recovered panic of [==] falls back to [DeepEqual]. *)
Definition comparableEqual (a b : any) : bool :=
  match a, b with
  | Some x, Some y =>
      match go_eq x y with
      | Some r => r
      | None => DeepEqual σ a b
      end
  | None, None => true
  | _, _ => false
  end.

Definition equalValues (a b : any) : option bool :=
  na ← isNil a; nb ← isNil b;
  if na || nb then Some (na && nb)
  else
    x ← a; y ← b;
    if Comparable (val_type x) && Comparable (val_type y) then Some (comparableEqual a b)
    else Some (DeepEqual σ a b).

End Evaluator.

(** ** Well-typed values *)

Section Typing.
Context `{TY : Types} (σ : heap).

(** A value agrees with its type: payload of its kind, integers of 64 bits,
    one value of the declared type per field, pointers into the heap. *)
Inductive value_ok : gval → Prop :=
| value_ok_intro t c : content_ok t c → value_ok (Val t c)
with content_ok : N → content → Prop :=
| ok_bool t b : Kind t = KBool → content_ok t (CBool b)
| ok_int t i : Kind t ∈ int_kinds → inS 64 i → content_ok t (CInt i)
| ok_uint t u : Kind t ∈ KUintptr :: uint_kinds → inU 64 u → content_ok t (CUint u)
| ok_float t f : Kind t ∈ float_kinds → content_ok t (CFloat f)
| ok_complex t x y : Kind t ∈ [KComplex64; KComplex128] → content_ok t (CComplex x y)
| ok_string t s : Kind t = KString → content_ok t (CString s)
| ok_nil t : Kind t = KPointer → content_ok t (CPtr None)
| ok_ptr t l v : Kind t = KPointer → σ !! l = Some v → val_type v = Elem t → content_ok t (CPtr (Some l))
| ok_iface_nil t : Kind t = KInterface → content_ok t (CIface None)
| ok_iface t v : Kind t = KInterface → value_ok v → Kind (val_type v) ≠ KInterface → content_ok t (CIface (Some v))
| ok_struct t vs : Kind t = KStruct → Forall2 (fun f v => val_type v = TypeOf f ∧ value_ok v) (Fields t) vs →
    content_ok t (CStruct vs)
| ok_array t vs : Kind t = KArray → Forall (fun v => val_type v = Elem t ∧ value_ok v) vs → content_ok t (CArray vs)
| ok_slice_nil t : Kind t = KSlice → content_ok t (CSlice None)
| ok_slice t vs : Kind t = KSlice → Forall (fun v => val_type v = Elem t ∧ value_ok v) vs →
    content_ok t (CSlice (Some vs))
| ok_map t m : Kind t = KMap → content_ok t (CMap m)
| ok_ref t r : Kind t ∈ [KChan; KFunc; KUnsafePointer] → content_ok t (CRef r).

Definition heap_ok : Prop := ∀ l v, σ !! l = Some v → value_ok v.

Definition Value_ok (v : Value) : Prop := match v with None => True | Some r => value_ok (rv r) end.

Definition any_ok (v : any) : Prop := match v with None => True | Some g => value_ok g ∧ Kind (val_type g) ≠ KInterface end.

(** A value an evaluator may be handed: not read-only. *)
Definition readable (v : Value) : Prop :=
  match v with None => True | Some r => stickyRO r = false ∧ embedRO r = false end.

End Typing.

(** Closes a goal whose hypotheses give one type two kinds. *)
Ltac kind_clash :=
  exfalso; unfold has_kind, rkind_of in *; cbn [rv val_type val_content] in *;
  repeat match goal with H : Kind ?t ∈ ?l |- _ => apply (bool_decide_eq_true_2 (Kind t ∈ l)) in H end;
  match goal with H : bool_decide (Kind ?t ∈ _) = true |- _ => destruct (Kind t) end;
  repeat match goal with H : bool_decide _ = true |- _ => vm_compute in H end; (discriminate || congruence).

Section TypeFacts.
Context `{TY : Types}.

(** The type behind one pointer. *)
Definition under (t : N) : N := if decide (Kind t = KPointer) then Elem t else t.

(** Following [idx] from the struct [t], through embedded fields and one
    pointer at a time, leads to the field [f]. *)
Fixpoint leads (t : N) (idx : list nat) (f : StructField) : Prop :=
  match idx with
  | [] => False
  | i :: idx =>
      Kind t = KStruct ∧ ∃ g, Fields t !! i = Some g ∧
        match idx with
        | [] => TypeOf g = TypeOf f ∧ PkgPath g = PkgPath f
        | _ :: _ => Anonymous g = true ∧ leads (under (TypeOf g)) idx f
        end
  end.

(** What reflect documents of the index of a field it finds. *)
Class TypesOk : Prop := {
  kind_float64 : Kind tFloat64 = KFloat64;
  kind_string : Kind tString = KString;
  kind_int64 : Kind tInt64 = KInt64;
  kind_uint64 : Kind tUint64 = KUint64;
  kind_bool : Kind tBool = KBool;
  FieldByName_ok t n f : Kind t = KStruct → FieldByName t n = Some f → leads t (Index f) f;
  VisibleFields_ok t f : Kind t = KStruct → f ∈ VisibleFields t → leads t (Index f) f
}.

Lemma has_kind_in r ks : has_kind (Some r) ks = true ↔ rkind_of r ∈ ks.
Proof. apply bool_decide_eq_true. Qed.

Lemma toNumeric_reflect v : toNumeric v = toNumericReflect v.
Proof.
  destruct v as [[t []]|]; try done; simpl; unfold rkind_of; simpl; destruct (predeclared t); try done;
    cbn [andb]; by case_bool_decide.
Qed.

Lemma toNumericValue_ValueOf v : toNumeric v = toNumericValue (ValueOf v).
Proof. rewrite toNumeric_reflect. by destruct v. Qed.

Lemma isNilValue_total σ v : Value_ok σ v → ∃ b, isNilValue v = Some b.
Proof.
  intros Hv. destruct v as [[[t c] s e]|]; [|by exists true]. unfold isNilValue.
  destruct (has_kind _ _) eqn:Hk; [|by exists false].
  inversion Hv as [? ? Hc]; subst. inversion Hc; subst; cbn; eauto; kind_clash.
Qed.

Lemma isNil_total σ v : any_ok σ v → ∃ b, isNil v = Some b.
Proof. destruct v as [g|]; [|by exists true]. intros [Hv _]. apply (isNilValue_total σ (ValueOf (Some g)) Hv). Qed.

Lemma toNumericValue_ok σ v n : Value_ok σ v → toNumericValue v = Some n → numeric_ok n ∧ n ≠ numericNone.
Proof.
  destruct v as [[[t c] s e]|]; [|done]. intros Hv. inversion Hv as [? ? Hc]; subst.
  unfold toNumericValue. cbn [rv val_content]. intros Hn.
  destruct c; try done; case_match; simplify_eq; (split; [|done]); inversion Hc; done.
Qed.

End TypeFacts.
