(* ===== verification/FilterEval.v ===== *)
(** * [pkg/filter]: evaluators and rules

    evaluate_*.go and rule.go: one constructor of [evaluator] per evaluator
    type, the constructors that check the reference value, [Evaluate] on a
    reflected value, and the compilation of a rule's type with its [!]
    prefix. *)

From stdpp Require Import base option list.
From Stdlib Require Import String Floats.
From S2P Require Import Prelude Binary64 GoString GoText FilterNumeric FilterValue.

#[local] Open Scope Z_scope.

Inductive order_op : Type := opLT | opLTE | opGT | opGTE.

(** The implementations of the interface [evaluator]. *)
Inductive evaluator `{LIB : Lib} : Type :=
| Eequal (ref : any) (refNum : option numeric)
| EequalFold (ref : any) (refNum : option numeric)
| EhasPrefix (ref : gostring)
| EhasSuffix (ref : gostring)
| Econtains (ref : gostring)
| Eregexp (rxp : regexp)
| Eorder (op : order_op) (ref : numeric)
| Enot (e : evaluator).

(** [Rule]. *)
Record Rule : Type := MkRule {
  Field : gostring;
  Type_ : gostring;
  RValue : any
}.

Definition TypePrefixNot : gostring := str "!".
Definition TypeRegexp : gostring := str "regexp".
Definition TypeEqual : gostring := str "==".
Definition TypeEqualFold : gostring := str "=".
Definition TypeHasPrefix : gostring := str "^=".
Definition TypeHasSuffix : gostring := str "=$".
Definition TypeContains : gostring := str "~=".
Definition TypeLT : gostring := str "<".
Definition TypeLTE : gostring := str "<=".
Definition TypeGT : gostring := str ">".
Definition TypeGTE : gostring := str ">=".

Section Eval.
Context `{TY : Types} `{LIB : Lib} (σ : heap).

(** ** Construction *)

(** [newEqual]: the exact number of a numeric reference is kept aside. *)
Definition newEqual (r : any) : evaluator := Eequal (convertValue r) (toNumeric r).

Definition newEqualFold (r : any) : evaluator := EequalFold (convertValue r) (toNumeric r).

(** The type assertion [r.(string)]: not a named string type. *)
Definition as_string (r : any) : option gostring :=
  match r with
  | Some (Val t (CString s)) => if (t =? tString)%N then Some s else None
  | _ => None
  end.

Definition newHasPrefix (r : any) : result ferror evaluator :=
  match as_string r with Some s => Ok (EhasPrefix s) | None => Error ErrInvalidFilter end.

Definition newHasSuffix (r : any) : result ferror evaluator :=
  match as_string r with Some s => Ok (EhasSuffix s) | None => Error ErrInvalidFilter end.

Definition newContains (r : any) : result ferror evaluator :=
  match as_string r with Some s => Ok (Econtains s) | None => Error ErrInvalidFilter end.

Definition newRegexp (r : any) : result ferror evaluator :=
  match as_string r with
  | None => Error ErrInvalidFilter
  | Some s => match Compile s with Some rxp => Ok (Eregexp rxp) | None => Error ErrInvalidFilter end
  end.

(** [newOrder]: [toNumeric] cannot fail once [convertFloatValue] accepts. *)
Definition newOrder (r : any) : result ferror numeric :=
  match convertFloatValue r with
  | Error e => Error e
  | Ok _ => Ok (default numericNone (toNumeric r))
  end.

Definition newLT (r : any) : result ferror evaluator := (o <-? newOrder r;; Ok (Eorder opLT o))%go.
Definition newLTE (r : any) : result ferror evaluator := (o <-? newOrder r;; Ok (Eorder opLTE o))%go.
Definition newGT (r : any) : result ferror evaluator := (o <-? newOrder r;; Ok (Eorder opGT o))%go.
Definition newGTE (r : any) : result ferror evaluator := (o <-? newOrder r;; Ok (Eorder opGTE o))%go.

Definition newNot (e : evaluator) : evaluator := Enot e.

(** ** Evaluation *)

(** [order.compare]: numbers, else the length of a collection or string. *)
Definition order_compare (ref : numeric) (v : Value) : option (option Z) :=
  n ← isNilValue v;
  if n : bool then Some None
  else match toNumericValue v with
  | Some num => Some (compare num ref)
  | None =>
      if has_kind v [KArray; KMap; KSlice; KString] then
        l ← VLen v; Some (compare (numericInt l) ref)
      else Some None
  end.

(** [Evaluate] of the four ordering evaluators. *)
Definition lt_Evaluate (ref : numeric) (v : Value) : option bool :=
  c ← order_compare ref v; Some (match c with Some c => c <? 0 | None => false end).

Definition lte_Evaluate (ref : numeric) (v : Value) : option bool :=
  c ← order_compare ref v; Some (match c with Some c => c <=? 0 | None => false end).

Definition gt_Evaluate (ref : numeric) (v : Value) : option bool :=
  c ← order_compare ref v; Some (match c with Some c => 0 <? c | None => false end).

Definition gte_Evaluate (ref : numeric) (v : Value) : option bool :=
  c ← order_compare ref v; Some (match c with Some c => 0 <=? c | None => false end).

(** The body shared by [equal.Evaluate] and [equalFold.Evaluate], which
    differ in the comparison of strings. *)
Definition evaluate_equal (string_eq : gostring → gostring → bool) (ref : any) (refNum : option numeric)
    (v : Value) : option bool :=
  match refNum with
  | Some num => Some (match toNumericValue v with Some n => equals num n | None => false end)
  | None =>
      match ref with
      | None => isNilValue v
      | Some _ =>
          match as_string ref with
          | Some r => Some (match stringValue v with Some s => string_eq s r | None => false end)
          | None =>
              match v with
              | None => Some false
              | Some _ => i ← VInterface v; equalValues σ (convertValue i) ref
              end
          end
      end
  end.

Definition equal_Evaluate (ref : any) (refNum : option numeric) (v : Value) : option bool :=
  evaluate_equal str_eqb ref refNum v.

Definition equalFold_Evaluate (ref : any) (refNum : option numeric) (v : Value) : option bool :=
  evaluate_equal EqualFold ref refNum v.

(** The string evaluators: any other operand is a non-match. *)
Definition hasPrefix_Evaluate (ref : gostring) (v : Value) : option bool :=
  Some (match stringValue v with Some s => HasPrefix s ref | None => false end).

Definition hasSuffix_Evaluate (ref : gostring) (v : Value) : option bool :=
  Some (match stringValue v with Some s => strHasSuffix s ref | None => false end).

Definition contains_Evaluate (ref : gostring) (v : Value) : option bool :=
  Some (match stringValue v with Some s => Contains s ref | None => false end).

Definition regexp_Evaluate (rxp : regexp) (v : Value) : option bool :=
  Some (match stringValue v with Some s => MatchString rxp s | None => false end).

(** The method of the evaluator an interface value holds. *)
Fixpoint Evaluate (e : evaluator) (v : Value) : option bool :=
  match e with
  | Eequal ref num => equal_Evaluate ref num v
  | EequalFold ref num => equalFold_Evaluate ref num v
  | EhasPrefix ref => hasPrefix_Evaluate ref v
  | EhasSuffix ref => hasSuffix_Evaluate ref v
  | Econtains ref => contains_Evaluate ref v
  | Eregexp rxp => regexp_Evaluate rxp v
  | Eorder opLT ref => lt_Evaluate ref v
  | Eorder opLTE ref => lte_Evaluate ref v
  | Eorder opGT ref => gt_Evaluate ref v
  | Eorder opGTE ref => gte_Evaluate ref v
  | Enot e => b ← Evaluate e v; Some (negb b)
  end.

(** ** Rules *)

Definition getBaseTypeEvaluator (r : Rule) (t : gostring) : result ferror evaluator :=
  if str_eqb t TypeRegexp then newRegexp (RValue r)
  else if str_eqb t TypeEqual then Ok (newEqual (RValue r))
  else if str_eqb t TypeEqualFold then Ok (newEqualFold (RValue r))
  else if str_eqb t TypeHasPrefix then newHasPrefix (RValue r)
  else if str_eqb t TypeHasSuffix then newHasSuffix (RValue r)
  else if str_eqb t TypeContains then newContains (RValue r)
  else if str_eqb t TypeLT then newLT (RValue r)
  else if str_eqb t TypeLTE then newLTE (RValue r)
  else if str_eqb t TypeGT then newGT (RValue r)
  else if str_eqb t TypeGTE then newGTE (RValue r)
  else Error ErrInvalidFilter.

Definition getEvaluator (r : Rule) : result ferror evaluator :=
  let t := strToLower unicodeLower (Type_ r) in
  match CutPrefix t TypePrefixNot with
  | Some after => (e <-? getBaseTypeEvaluator r after;; Ok (newNot e))%go
  | None => getBaseTypeEvaluator r t
  end.

(** [Rule.evaluate]. *)
Definition evaluate (r : Rule) (value : any) : option (result ferror bool) :=
  match getEvaluator r with
  | Error e => Some (Error e)
  | Ok e => b ← Evaluate e (ValueOf value); Some (Ok b)
  end.

End Eval.

(** ** Facts *)

Section EvalFacts.
Context `{TY : Types} `{LIB : Lib} `{TOK : !TypesOk} (σ : heap).

Implicit Types (v : Value) (r : any).

(** The reference kept by an equality evaluator is well typed. *)
Fixpoint evaluator_ok (e : evaluator) : Prop :=
  match e with
  | Eequal ref num | EequalFold ref num => any_ok σ ref
  | Enot e => evaluator_ok e
  | _ => True
  end.

Lemma any_string_ok s : any_ok σ (Some (Val tString (CString s))).
Proof. split; [|cbn; by rewrite kind_string]. constructor. constructor. apply kind_string. Qed.

Lemma convertValue_ok r : any_ok σ r → any_ok σ (convertValue r).
Proof.
  intros Hr. unfold convertValue. destruct (toNumeric r) as [n|].
  - split; [|cbn; by rewrite kind_float64]. constructor. constructor. rewrite kind_float64. vm_compute. by do 2 constructor.
  - destruct (convertStringValue r); [apply any_string_ok|done].
Qed.

Lemma VInterface_ok v (r : rvalue) : readable v → Value_ok σ v → v = Some r → ∃ i, VInterface v = Some i ∧ any_ok σ i.
Proof.
  intros Hread Hv ->. destruct Hread as [Hs He]. destruct r as [[t c] s e]. cbn in Hs, He. subst.
  inversion Hv as [? ? Hc]; subst. unfold VInterface. cbn.
  inversion Hc; subst; (eexists; split; [reflexivity|]); try (split; [by constructor|]; cbn; intros Hk;
    try congruence; kind_clash); [done|split; done].
Qed.

Lemma equalValues_total a b : any_ok σ a → any_ok σ b → ∃ x, equalValues σ a b = Some x.
Proof.
  intros Ha Hb. unfold equalValues. destruct (isNil_total σ a Ha) as [na Hna], (isNil_total σ b Hb) as [nb Hnb].
  rewrite Hna, Hnb. cbn [mbind option_bind]. destruct (na || nb) eqn:Hn; [by eauto|].
  apply orb_false_iff in Hn as [-> ->]. destruct a as [x|], b as [y|]; try done.
  cbn [mbind option_bind]. case_match; eauto.
Qed.

Lemma order_compare_total ref v : Value_ok σ v → ∃ c, order_compare ref v = Some c.
Proof.
  intros Hv. unfold order_compare. destruct (isNilValue_total σ v Hv) as [n ->]. cbn [mbind option_bind].
  destruct n; [by eauto|]. destruct (toNumericValue v) as [m|]; [by eauto|].
  destruct (has_kind v _) eqn:Hk; [|by eauto]. destruct v as [[[t c] s e]|]; [|done].
  inversion Hv as [? ? Hc]; subst. unfold VLen. cbn [mbind option_bind rv val_content].
  inversion Hc as [| | | | | | | | | | | | | |? m|]; subst; eauto; try (kind_clash). destruct m as [[? ?]|]; eauto.
Qed.

(** What an ordering evaluator asks of the sign of a comparison. *)
Definition order_holds (op : order_op) (c : Z) : bool :=
  match op with
  | opLT => c <? 0
  | opLTE => c <=? 0
  | opGT => 0 <? c
  | opGTE => 0 <=? c
  end.

Lemma Evaluate_order op ref v : Evaluate σ (Eorder op ref) v =
  (c ← order_compare ref v; Some (match c with Some c => order_holds op c | None => false end)).
Proof. by destruct op. Qed.

(** No evaluation panics. *)
Lemma Evaluate_total e v : evaluator_ok e → Value_ok σ v → readable v → ∃ b, Evaluate σ e v = Some b.
Proof.
  intros He Hv Hr. induction e as [ref num|ref num|ref|ref|ref|rxp|op ref|e IH]; cbn [evaluator_ok] in *;
    [cbn [Evaluate].. |rewrite Evaluate_order|cbn [Evaluate]];
    unfold hasPrefix_Evaluate, hasSuffix_Evaluate, contains_Evaluate, regexp_Evaluate; eauto.
  1,2: unfold equal_Evaluate, equalFold_Evaluate, evaluate_equal; destruct num as [n|]; [by eauto|]; destruct ref as [g|]; [|by apply (isNilValue_total σ)];
    destruct (as_string _); [by eauto|]; destruct v as [r|] eqn:Hvr; [|by eauto];
    destruct (VInterface_ok (Some r) r Hr Hv eq_refl) as (i & -> & Hi); cbn [mbind option_bind];
    apply equalValues_total; [by apply convertValue_ok|done].
  - destruct (order_compare_total ref v Hv) as [c ->]. cbn. eauto.
  - destruct (IH He) as [b ->]. cbn. eauto.
Qed.

Lemma getBaseTypeEvaluator_ok rl t e : any_ok σ (RValue rl) → getBaseTypeEvaluator rl t = Ok e → evaluator_ok e.
Proof.
  intros Hr. unfold getBaseTypeEvaluator, newHasPrefix, newHasSuffix, newContains, newRegexp, newLT, newLTE, newGT,
    newGTE, result_bind, newEqual, newEqualFold. repeat case_match; intros; simplify_eq; try done; by apply convertValue_ok.
Qed.

Lemma getEvaluator_ok rl e : any_ok σ (RValue rl) → getEvaluator rl = Ok e → evaluator_ok e.
Proof.
  intros Hr. unfold getEvaluator, newNot, result_bind. repeat case_match; intros; simplify_eq; cbn;
    eauto using getBaseTypeEvaluator_ok.
Qed.

(** Every error of a rule is the client's. *)
Lemma getEvaluator_error rl e : getEvaluator rl = Error e → e = ErrInvalidFilter.
Proof.
  unfold getEvaluator, newNot, getBaseTypeEvaluator, newHasPrefix, newHasSuffix, newContains, newRegexp, newLT, newLTE,
    newGT, newGTE, newOrder, convertFloatValue, result_bind. by repeat case_match; intros; simplify_eq.
Qed.

(** The rule with [!] in front of its type. *)
Definition negated (rl : Rule) : Rule := MkRule (Field rl) (TypePrefixNot ++ Type_ rl) (RValue rl).

(** A rule and its negation compile together, the latter to the negation of
    the former's evaluator. *)
Lemma getEvaluator_negated rl : HasPrefix (strToLower unicodeLower (Type_ rl)) TypePrefixNot = false →
  getEvaluator (negated rl) = match getEvaluator rl with Ok e => Ok (Enot e) | Error e => Error e end.
Proof.
  intros Hp. unfold getEvaluator, negated. cbn [Type_ RValue].
  change (TypePrefixNot ++ Type_ rl) with (33 :: Type_ rl). rewrite strToLower_cons by lia.
  assert (Hc : CutPrefix (lowerASCII 33 :: strToLower unicodeLower (Type_ rl)) TypePrefixNot
    = Some (strToLower unicodeLower (Type_ rl))) by done.
  rewrite Hc. unfold CutPrefix. by rewrite Hp.
Qed.

End EvalFacts.
