(* ===== verification/FilterField.v ===== *)
(** * [pkg/filter]: field selectors

    field_getter.go and field_cacher.go: a dotted selector becomes a path of
    field indices of a type, kept in a bounded cache; and, from filter.go, the
    walk along such a path through a value and the unwrapping of its leaf. *)

From stdpp Require Import base option list gmap.
From S2P Require Import Prelude GoString GoText FilterNumeric FilterValue.

#[local] Open Scope Z_scope.

Abbreviation reflectPath := (list nat) (only parsing).

(** ** The cache *)

Definition defaultFieldCacheMaxEntries : Z := 2 ^ 14.

Record fieldCache : Type := MkCache {
  entries : gmap (N * gostring) reflectPath;
  count : Z;
  maxEntries : Z
}.

Definition cacheGet (c : fieldCache) (t : N) (fieldPath : gostring) : option reflectPath := entries c !! (t, fieldPath).

Definition ceiling (c : fieldCache) : Z :=
  if maxEntries c =? 0 then defaultFieldCacheMaxEntries else maxEntries c.

(** [Set]: [LoadOrStore] stores and counts only a new key. *)
Definition cacheSet (c : fieldCache) (t : N) (fieldPath : gostring) (path : reflectPath) : fieldCache :=
  if ceiling c <=? count c then c
  else match entries c !! (t, fieldPath) with
  | Some _ => c
  | None => MkCache (<[(t, fieldPath) := path]> (entries c)) (wrapS 64 (count c + 1)) (maxEntries c)
  end.

(** Code that may panic or fail, over the cache. *)
Definition FM (A : Type) : Type := fieldCache → option (result ferror A * fieldCache).

Definition fm_ret {A} (a : A) : FM A := fun c => Some (Ok a, c).
Definition fm_lift {A} (r : option (result ferror A)) : FM A := fun c => x ← r; Some (x, c).
Definition fm_bind {A B} (m : FM A) (k : A → FM B) : FM B :=
  fun c => '(r, c) ← m c; match r with Ok a => k a c | Error e => Some (Error e, c) end.

Notation "x <~ m ;; k" := (fm_bind m (fun x => k)) (at level 60, m at next level, right associativity) : go_scope.

(** ** Resolution *)

Definition FieldNameSeparator : Z := 46.

(** The configuration half of [fieldGetter]; its cache is threaded. *)
Record fieldGetter : Type := MkGetter {
  fieldTag : gostring;
  maxDepth : Z
}.

Section Resolve.
Context `{TY : Types} (r : fieldGetter).

Definition lookupFieldByTag (t : N) (tagValue : gostring) : option StructField :=
  snd <$> list_find (fun f => head (Split 44 (Tag f (fieldTag r))) = Some tagValue) (VisibleFields t).

Definition lookupStructField (t : N) (name : gostring) : option StructField :=
  if str_eqb (fieldTag r) [] then FieldByName t name else lookupFieldByTag t name.

Definition getStructField (t : N) (name : gostring) : result ferror StructField :=
  match lookupStructField t name with
  | None => Error errFieldNotFound
  | Some f => if str_eqb (PkgPath f) [] then Ok f else Error ErrInvalidFilter
  end.

Fixpoint getFieldPath (t : N) (fieldNames : list gostring) : result ferror reflectPath :=
  match fieldNames with
  | [] => Ok []
  | name :: fieldNames =>
      let t := under t in
      if negb (bool_decide (Kind t = KStruct)) then Error ErrInvalidFilter
      else
        (field <-? getStructField t name;;
         rest <-? getFieldPath (TypeOf field) fieldNames;;
         Ok (Index field ++ rest))%go
  end.

Definition resolvePath (t : N) (path : gostring) : FM reflectPath := fun c =>
  if maxDepth r <? Count FieldNameSeparator path + 1 then Some (Error ErrInvalidFilter, c)
  else match cacheGet c t path with
  | Some rPath => Some (Ok rPath, c)
  | None =>
      match getFieldPath t (Split FieldNameSeparator path) with
      | Error e => Some (Error e, c)
      | Ok rPath => Some (Ok rPath, cacheSet c t path rPath)
      end
  end.

End Resolve.

(** ** Reading a path *)

Definition maxLeafIndirections : nat := 100.

Section Walk.
Context `{TY : Types} (σ : heap).

Fixpoint unwrapLeaf_loop (n : nat) (value : Value) : option Value :=
  match n with
  | O => Some None
  | S n =>
      if negb (has_kind value [KPointer; KInterface]) then Some value
      else
        b ← VIsNil value;
        if b : bool then Some None else value ← VElem σ value; unwrapLeaf_loop n value
  end.

Definition unwrapLeaf (value : Value) : option Value := unwrapLeaf_loop maxLeafIndirections value.

(** The loop of [walkFieldPath]; the inner [None] is [ok = false]. *)
Fixpoint walk (value : Value) (path : reflectPath) : option (option Value) :=
  match path with
  | [] => Some (Some value)
  | fieldIndex :: path =>
      value ← Indirect σ value;
      match value with
      | None => Some None
      | Some _ => value ← VField value fieldIndex; walk value path
      end
  end.

Definition walkFieldPath (value : Value) (path : reflectPath) : option (option Value) :=
  w ← walk value path;
  match w with
  | None => Some None
  | Some value => u ← unwrapLeaf value; Some (Some u)
  end.

End Walk.

(** ** The cache changes nothing but the time *)

Section CacheFacts.
Context `{TY : Types} (r : fieldGetter).

(** What [resolvePath] computes. *)
Definition resolve (t : N) (path : gostring) : result ferror reflectPath :=
  if maxDepth r <? Count FieldNameSeparator path + 1 then Error ErrInvalidFilter
  else getFieldPath r t (Split FieldNameSeparator path).

(** Every entry is what resolution would answer, and there are as many as
    counted, within the ceiling. *)
Record cache_ok (c : fieldCache) : Prop := {
  cache_entries t p path : entries c !! (t, p) = Some path → getFieldPath r t (Split FieldNameSeparator p) = Ok path;
  cache_count : count c = Z.of_nat (size (entries c));
  cache_bound : count c <= ceiling c;
  cache_ceiling : 0 <= maxEntries c < 2 ^ 62
}.

Lemma empty_cache_ok m : 0 <= m < 2 ^ 62 → cache_ok (MkCache ∅ 0 m).
Proof.
  intros Hm. split; cbn; [done| |unfold ceiling; cbn|done].
  - by rewrite map_size_empty.
  - unfold defaultFieldCacheMaxEntries. case_match; lia.
Qed.

Lemma cacheSet_ok c t p path : cache_ok c → getFieldPath r t (Split FieldNameSeparator p) = Ok path → cache_ok (cacheSet c t p path).
Proof.
  intros [He Hn Hb Hm] Hp. unfold cacheSet. destruct (Z.leb_spec (ceiling c) (count c)); [done|].
  destruct (entries c !! (t, p)) eqn:Hl; [done|].
  assert (Hc : ceiling c <= 2 ^ 62) by (unfold ceiling, defaultFieldCacheMaxEntries; case_match; lia).
  split; cbn; [| | |done].
  - intros u q x. rewrite lookup_insert_Some. intros [[Hk <-]|[_ Hq]]; [by simplify_eq|eauto].
  - rewrite map_size_insert_None, wrapS_small by (done || unfold inS; lia). lia.
  - rewrite wrapS_small by (unfold inS; lia). change (ceiling _) with (ceiling c). lia.
Qed.

Lemma resolvePath_spec t p c : cache_ok c → ∃ c', resolvePath r t p c = Some (resolve t p, c') ∧ cache_ok c'.
Proof.
  intros Hc. unfold resolvePath, resolve, cacheGet. destruct (_ <? _); [by eauto|].
  destruct (entries c !! (t, p)) as [path|] eqn:Hl; [rewrite (cache_entries c Hc _ _ _ Hl); by eauto|].
  destruct (getFieldPath r t _) as [path|e] eqn:Hp; [|by eauto].
  eexists. split; [done|]. by apply cacheSet_ok.
Qed.

End CacheFacts.

(** ** Walking never goes wrong *)

Section WalkFacts.
Context `{TY : Types} `{TOK : !TypesOk} (σ : heap) (r : fieldGetter).

(** A well-typed value, free of read-only marks. *)
Definition clear (x : rvalue) : Prop := value_ok σ (rv x) ∧ stickyRO x = false ∧ embedRO x = false.

(** A well-typed value on the way to a field: at most the mark of the
    embedded field it was read through. *)
Definition on_walk (x : rvalue) : Prop := value_ok σ (rv x) ∧ stickyRO x = false.

Lemma Indirect_ok x : heap_ok σ → on_walk x →
  ∃ v, Indirect σ (Some x) = Some v ∧
    match v with
    | None => True
    | Some y => on_walk y ∧ val_type (rv y) = under (val_type (rv x))
    end.
Proof.
  intros Hh [Hx Hs]. unfold Indirect, under. destruct x as [[t c] s e]. cbn [rv val_type stickyRO] in *. subst.
  destruct (has_kind _ _) eqn:Hk.
  - apply has_kind_in in Hk. unfold rkind_of in Hk; cbn in Hk. apply list_elem_of_singleton in Hk.
    rewrite decide_True by done. inversion Hx as [? ? Hc]; subst. unfold VElem. cbn.
    inversion Hc as [| | | | | | |? l v Hp Hl Hv| | | | | | | |]; subst; try (kind_clash); try congruence.
    + by exists None.
    + rewrite Hl. cbn. eexists. split; [done|]. split; [|done]. split; [by eapply Hh|done].
  - rewrite decide_False; [|intros Hp; rewrite <- not_true_iff_false, has_kind_in in Hk; apply Hk, list_elem_of_singleton, Hp].
    eexists. split; [done|]. split; [by split|done].
Qed.

Lemma VField_ok x i g : on_walk x → Kind (val_type (rv x)) = KStruct → Fields (val_type (rv x)) !! i = Some g →
  ∃ y, VField (Some x) i = Some (Some y) ∧ value_ok σ (rv y) ∧ val_type (rv y) = TypeOf g ∧
    (Anonymous g = true ∨ PkgPath g = [] → stickyRO y = false) ∧ (PkgPath g = [] → embedRO y = false).
Proof.
  intros [Hx Hs] Hk Hg. destruct x as [[t c] s e]. cbn [rv val_type stickyRO] in *. subst.
  inversion Hx as [? ? Hc]; subst. unfold VField. cbn [mbind option_bind rv val_content val_type].
  inversion Hc as [| | | | | | | | | |? vs _ Hvs| | | | |]; subst; try congruence; try (kind_clash).
  - destruct (Forall2_lookup_l _ _ _ _ _ Hvs Hg) as (v & Hv & Hty & Hok).
    rewrite Hv, Hg. cbn [mbind option_bind]. eexists. split; [done|]. cbn [rv stickyRO embedRO orb].
    split; [done|]. split; [done|]. unfold str_eqb. split.
    + intros [-> | ->]; [by rewrite andb_false_r|done].
    + by intros ->.
Qed.

Lemma walk_leads f : heap_ok σ → PkgPath f = [] → ∀ idx x, on_walk x → leads (under (val_type (rv x))) idx f →
  ∃ w, walk σ (Some x) idx = Some w ∧
    match w with None => True | Some v => ∃ y, v = Some y ∧ clear y ∧ val_type (rv y) = TypeOf f end.
Proof.
  intros Hh Hf. induction idx as [|i idx IH]; intros x Hx Hl; [done|]. cbn [leads walk] in *.
  destruct Hl as [Hk (g & Hg & Hl)]. destruct (Indirect_ok x Hh Hx) as (v & Hv & Hy). rewrite Hv. cbn [mbind option_bind].
  destruct v as [y|]; [|by eauto]. destruct Hy as [Hy Hty]. rewrite <- Hty in Hk, Hg.
  destruct (VField_ok y i g Hy Hk Hg) as (z & Hz & Hzok & Hzt & Hzs & Hze). rewrite Hz. cbn [mbind option_bind].
  destruct idx as [|j idx].
  - destruct Hl as [Ht Hp]. cbn [walk]. eexists. split; [done|]. exists z. rewrite Hp in *. split; [done|].
    split; [|congruence]. repeat split; auto.
  - destruct Hl as [Ha Hl]. apply IH; [by split; auto|]. by rewrite Hzt.
Qed.

Lemma walk_app p : ∀ v q, walk σ v (p ++ q) =
  (w ← walk σ v p; match w with None => Some None | Some v => walk σ v q end).
Proof.
  induction p as [|i p IH]; intros v q; [done|]. cbn [walk app]. destruct (Indirect σ v) as [[y|]|]; cbn [mbind option_bind]; try done.
  destruct (VField (Some y) i); cbn [mbind option_bind]; [apply IH|done].
Qed.

Lemma getStructField_leads t n f : Kind t = KStruct → getStructField r t n = Ok f → leads t (Index f) f ∧ PkgPath f = [].
Proof.
  intros Hk. unfold getStructField, lookupStructField, lookupFieldByTag.
  destruct (str_eqb (fieldTag r) []).
  - destruct (FieldByName t n) as [g|] eqn:Hg; [|done]. unfold str_eqb. case_bool_decide; intros; simplify_eq.
    split; [by eapply FieldByName_ok|done].
  - destruct (list_find _ _) as [[i g]|] eqn:Hg; [|done]. cbn. unfold str_eqb. case_bool_decide; intros; simplify_eq.
    apply list_find_Some in Hg as [Hg _]. split; [|done]. apply VisibleFields_ok; [done|]. by eapply list_elem_of_lookup_2.
Qed.

(** A path resolved on the type of a value can be walked: it ends in a
    well-typed readable value or at a nil pointer. *)
Lemma getFieldPath_walk : heap_ok σ → ∀ names x path, clear x → getFieldPath r (val_type (rv x)) names = Ok path →
  ∃ w, walk σ (Some x) path = Some w ∧ match w with None => True | Some v => ∃ y, v = Some y ∧ clear y end.
Proof.
  intros Hh. induction names as [|n names IH]; intros x path Hx Hp; cbn [getFieldPath] in Hp.
  { simplify_eq. cbn. eexists. split; [done|]. by eexists. }
  case_bool_decide as Hk; [cbn [negb] in Hp|done].
  destruct (getStructField r _ n) as [f|] eqn:Hf; [cbn [result_bind] in Hp|done].
  destruct (getFieldPath r (TypeOf f) names) as [rest|] eqn:Hr; [cbn [result_bind] in Hp; simplify_eq|done].
  destruct (getStructField_leads _ _ _ Hk Hf) as [Hl Hpk]. destruct Hx as (Hx & Hs & He).
  destruct (walk_leads f Hh Hpk (Index f) x) as (w & Hw & Hy); [by split|done|].
  rewrite walk_app, Hw. cbn [mbind option_bind]. destruct w as [v|]; [|by eauto].
  destruct Hy as (y & -> & Hy & Hty). apply IH; [done|]. by rewrite Hty.
Qed.

(** A leaf is a nil operand or a value that is neither a pointer nor an
    interface. *)
Lemma unwrapLeaf_ok x : heap_ok σ → clear x → ∃ u, unwrapLeaf σ (Some x) = Some u ∧
  has_kind u [KPointer; KInterface] = false ∧ Value_ok σ u ∧ readable u.
Proof.
  intros Hh. unfold unwrapLeaf. generalize maxLeafIndirections. intros n. revert x.
  induction n as [|n IH]; intros x Hx; cbn [unwrapLeaf_loop]; [by exists None|].
  destruct (has_kind _ _) eqn:Hk; cbn [negb]; [|destruct Hx as (? & ? & ?); by exists (Some x)].
  destruct Hx as (Hx & Hs & He). destruct x as [[t c] s e]. cbn [rv val_type stickyRO embedRO] in *. subst.
  inversion Hx as [? ? Hc]; subst. 
  inversion Hc as [| | | | | | |? l v Hp Hl Hv|?|? v Hki Hv Hd| | | | | |]; subst; try (kind_clash);
    unfold VIsNil, VElem; cbn; try (by exists None).
  - rewrite Hl. cbn. apply IH. repeat split. by eapply Hh.
  - apply IH. by repeat split.
Qed.

End WalkFacts.
