(* ===== verification/Filter.v ===== *)
(** * [pkg/filter]: the processor

    filter.go and options.go: the limits of a [Processor] and its options, the
    compilation of a rule set against an element type, its evaluation on an
    element, the in-place filtering of [ApplySubset], and the decoding of a
    rule set from JSON. *)

From stdpp Require Import base option list gmap.
From Stdlib Require Import String Floats.
From S2P Require Import Prelude GoString GoText FilterNumeric FilterValue FilterEval FilterField.

#[local] Open Scope Z_scope.

(** ** Processors and options *)

Definition MaxResults : Z := 2 ^ 31 - 1.
Definition DefaultMaxResults : Z := MaxResults.
Definition DefaultMaxRules : Z := 8.
Definition DefaultURLQueryFilterKey : gostring := str "filter".
Definition DefaultMaxValueLength : Z := 4096.
Definition DefaultMaxFilterBytes : Z := 2 ^ 16.
Definition DefaultMaxFieldDepth : Z := 32.

(** [Processor], less the cache of its [fields]. *)
Record Processor : Type := MkProcessor {
  fields : fieldGetter;
  maxRules : Z;
  maxResults : Z;
  maxValueLen : Z;
  maxFilterBytes : Z;
  urlQueryFilterKey : gostring
}.

Definition ProcOption : Type := Processor → result ferror Processor.

Definition WithFieldNameTag (tag : gostring) : ProcOption := fun p =>
  if str_eqb tag [] then Error ErrUsage
  else Ok (MkProcessor (MkGetter tag (maxDepth (fields p))) (maxRules p) (maxResults p) (maxValueLen p)
             (maxFilterBytes p) (urlQueryFilterKey p)).

Definition WithQueryFilterKey (key : gostring) : ProcOption := fun p =>
  if str_eqb key [] then Error ErrUsage
  else Ok (MkProcessor (fields p) (maxRules p) (maxResults p) (maxValueLen p) (maxFilterBytes p) key).

Definition WithMaxRules (rulemax : Z) : ProcOption := fun p =>
  if rulemax <? 1 then Error ErrUsage
  else Ok (MkProcessor (fields p) rulemax (maxResults p) (maxValueLen p) (maxFilterBytes p) (urlQueryFilterKey p)).

Definition WithMaxResults (resmax : Z) : ProcOption := fun p =>
  if resmax <? 1 then Error ErrUsage
  else if MaxResults <? resmax then Error ErrUsage
  else Ok (MkProcessor (fields p) (maxRules p) resmax (maxValueLen p) (maxFilterBytes p) (urlQueryFilterKey p)).

Definition WithMaxValueLength (maxlen : Z) : ProcOption := fun p =>
  if maxlen <? 1 then Error ErrUsage
  else Ok (MkProcessor (fields p) (maxRules p) (maxResults p) maxlen (maxFilterBytes p) (urlQueryFilterKey p)).

Definition WithMaxFilterBytes (maxbytes : Z) : ProcOption := fun p =>
  if maxbytes <? 1 then Error ErrUsage
  else Ok (MkProcessor (fields p) (maxRules p) (maxResults p) (maxValueLen p) maxbytes (urlQueryFilterKey p)).

Definition WithMaxFieldDepth (maxdepth : Z) : ProcOption := fun p =>
  if maxdepth <? 1 then Error ErrUsage
  else Ok (MkProcessor (MkGetter (fieldTag (fields p)) maxdepth) (maxRules p) (maxResults p) (maxValueLen p)
             (maxFilterBytes p) (urlQueryFilterKey p)).

Fixpoint apply_options (opts : list ProcOption) (p : Processor) : result ferror Processor :=
  match opts with
  | [] => Ok p
  | opt :: opts => (p <-? opt p;; apply_options opts p)%go
  end.

Definition defaultProcessor : Processor :=
  MkProcessor (MkGetter [] DefaultMaxFieldDepth) DefaultMaxRules DefaultMaxResults DefaultMaxValueLength
    DefaultMaxFilterBytes DefaultURLQueryFilterKey.

Definition New (opts : list ProcOption) : result ferror Processor := apply_options opts defaultProcessor.

(** ** Compilation *)

Record compiledRule `{LIB : Lib} : Type := MkCompiled {
  eval : evaluator;
  field : gostring;
  path : list nat;
  wholeElem : bool;
  dynamic : bool
}.

Section Processor.
Context `{TY : Types} `{LIB : Lib} (p : Processor).

(** The loop of [checkRulesCount] over the groups. *)
Fixpoint count_rules (rules : list (list Rule)) (count : Z) : result ferror Z :=
  match rules with
  | [] => Ok count
  | [] :: _ => Error ErrInvalidFilter
  | group :: rules => count_rules rules (count + Z.of_nat (length group))
  end.

Definition checkRulesCount (rules : list (list Rule)) : result ferror unit :=
  if maxRules p <? Z.of_nat (length rules) then Error ErrInvalidFilter
  else
    (count <-? count_rules rules 0;;
     if maxRules p <? count then Error ErrInvalidFilter else Ok ())%go.

(** The value of string kind is too long. *)
Definition value_too_large (v : any) : bool :=
  match stringValue (ValueOf v) with
  | Some s => maxValueLen p <? Z.of_nat (length s)
  | None => false
  end.

Definition compileRule (rule : Rule) (elemType : N) : FM compiledRule :=
  if value_too_large (RValue rule) then fm_lift (Some (Error ErrInvalidFilter))
  else match getEvaluator rule with
  | Error e => fm_lift (Some (Error e))
  | Ok eval =>
      if str_eqb (Field rule) [] then fm_ret (MkCompiled _ eval (Field rule) [] true false)
      else if bool_decide (Kind elemType = KInterface) then fm_ret (MkCompiled _ eval (Field rule) [] false true)
      else fun c =>
        '(r, c) ← resolvePath (fields p) elemType (Field rule) c;
        match r with
        | Error errFieldNotFound => Some (Error ErrInvalidFilter, c)
        | Error e => Some (Error e, c)
        | Ok path => Some (Ok (MkCompiled _ eval (Field rule) path false false), c)
        end
  end.

Fixpoint compileGroup (group : list Rule) (elemType : N) : FM (list compiledRule) :=
  match group with
  | [] => fm_ret []
  | rule :: group =>
      (cr <~ compileRule rule elemType;;
       crs <~ compileGroup group elemType;; fm_ret (cr :: crs))%go
  end.

Fixpoint compileRules (rules : list (list Rule)) (elemType : N) : FM (list (list compiledRule)) :=
  match rules with
  | [] => fm_ret []
  | group :: rules =>
      (g <~ compileGroup group elemType;;
       gs <~ compileRules rules elemType;; fm_ret (g :: gs))%go
  end.

(** ** Evaluation on an element *)

Context (σ : heap).

Definition dynamicFieldValue (rule : compiledRule) (value : Value) : FM (option Value) :=
  match value with
  | None => fm_ret None
  | Some x => fun c =>
      '(r, c) ← resolvePath (fields p) (val_type (rv x)) (field rule) c;
      match r with
      | Error errFieldNotFound => Some (Ok None, c)
      | Error e => Some (Error e, c)
      | Ok path => w ← walkFieldPath σ value path; Some (Ok w, c)
      end
  end.

(** The inner [None] is [ok = false]. *)
Definition ruleValue (rule : compiledRule) (elem : Value) : FM (option Value) := fun c =>
  value ← (if has_kind elem [KInterface] then VElem σ elem else Some elem);
  if wholeElem rule then Some (Ok (Some value), c)
  else if dynamic rule then dynamicFieldValue rule value c
  else w ← walkFieldPath σ value (path rule); Some (Ok w, c).

Definition evaluateRule (rule : compiledRule) (elem : Value) : FM bool :=
  (value <~ ruleValue rule elem;;
   match value with
   | None => fm_ret false
   | Some value => fm_lift (Ok <$> Evaluate σ (eval rule) value)
   end)%go.

(** The inner loop: the disjunction of a group. *)
Fixpoint evaluateGroup (group : list compiledRule) (elem : Value) : FM bool :=
  match group with
  | [] => fm_ret false
  | rule :: group =>
      (m <~ evaluateRule rule elem;;
       if m : bool then fm_ret true else evaluateGroup group elem)%go
  end.

Fixpoint evaluateRules (rules : list (list compiledRule)) (elem : Value) : FM bool :=
  match rules with
  | [] => fm_ret true
  | group :: rules =>
      (m <~ evaluateGroup group elem;;
       if m : bool then evaluateRules rules elem else fm_ret false)%go
  end.

(** ** Filtering *)

(** [slice.Index(i)] of an element. *)
Definition element (g : gval) : Value := Some (MkR g false false).

(** The loop of [selectMatches] from the element [i] on. *)
Fixpoint selectMatches_loop (matcher : Value → FM bool) (length : Z) (i : nat) (slice : list gval)
    (skip : Z) (selected : list nat) (total : Z) : FM (list nat * Z) :=
  match slice with
  | [] => fm_ret (selected, total)
  | g :: slice =>
      (m <~ matcher (element g);;
       if negb m then selectMatches_loop matcher length (S i) slice skip selected total
       else
         let total := wrapU 64 (total + 1) in
         if 0 <? skip then selectMatches_loop matcher length (S i) slice (skip - 1) selected total
         else selectMatches_loop matcher length (S i) slice skip
                (if Z.of_nat (List.length selected) <? length then selected ++ [i] else selected) total)%go
  end.

Definition selectMatches (slice : list gval) (offset length : Z) (matcher : Value → FM bool) : FM (list nat * Z) :=
  selectMatches_loop matcher length 0 slice offset [] 0.

(** The commit loop: [slice.Index(n).Set(slice.Index(i))]. *)
Fixpoint commit (n : nat) (selected : list nat) (slice : list gval) : option (list gval) :=
  match selected with
  | [] => Some slice
  | i :: selected =>
      slice ← (if (n =? i)%nat then Some slice
               else g ← slice !! i; if (n <? length slice)%nat then Some (<[n := g]> slice) else None);
      commit (S n) selected slice
  end.

(** The result and the array behind the slice; the slice itself is its first
    [n] elements. *)
Definition filterSliceValue (slice : list gval) (offset length : Z) (matcher : Value → FM bool)
    : FM (list gval * Z * Z) :=
  (matches <~ selectMatches slice offset length matcher;;
   let '(selected, total) := matches in
   fm_lift (slice ← commit 0 selected slice; Some (Ok (slice, Z.of_nat (List.length selected), total))))%go.

End Processor.

Section Apply.
Context `{TY : Types} `{LIB : Lib} (p : Processor).

(** The elements of a slice, [nil] having none. *)
Definition slice_elements (v : gval) : list gval :=
  match val_content v with CSlice (Some vs) => vs | _ => [] end.

(** [SetLen] on the slice [v] whose array is now [arr]. *)
Definition set_slice (v : gval) (arr : list gval) (n : nat) : gval :=
  match v with
  | Val t (CSlice (Some _)) => Val t (CSlice (Some (take n arr)))
  | v => v
  end.

(** [ApplySubset], on a heap holding the slice at [slicePtr]. *)
Definition ApplySubset (rules : list (list Rule)) (slicePtr : any) (offset length : Z) (σ : heap) (c : fieldCache)
    : option (result ferror (Z * Z) * heap * fieldCache) :=
  if length <? 1 then Some (Error ErrUsage, σ, c)
  else if maxResults p <? length then Some (Error ErrUsage, σ, c)
  else match checkRulesCount p rules with
  | Error e => Some (Error e, σ, c)
  | Ok _ =>
      let vSlicePtr := ValueOf slicePtr in
      if negb (has_kind vSlicePtr [KPointer]) then Some (Error ErrUsage, σ, c)
      else
        vSlice ← VElem σ vSlicePtr;
        if negb (has_kind vSlice [KSlice]) then Some (Error ErrUsage, σ, c)
        else
          v ← rv <$> vSlice;
          '(r, c) ← compileRules p rules (Elem (val_type v)) c;
          match r with
          | Error e => Some (Error e, σ, c)
          | Ok compiled =>
              '(r, c) ← filterSliceValue (slice_elements v) offset (wrapS 64 length) (evaluateRules p σ compiled) c;
              match r with
              | Error e => Some (Error e, σ, c)
              | Ok (arr, n, m) =>
                  l ← (match slicePtr with Some (Val _ (CPtr l)) => l | _ => None end);
                  Some (Ok (wrapU 64 n, m), <[l := set_slice v arr (Z.to_nat n)]> σ, c)
              end
          end
  end.

Definition Apply (rules : list (list Rule)) (slicePtr : any) (σ : heap) (c : fieldCache)
    : option (result ferror (Z * Z) * heap * fieldCache) :=
  ApplySubset rules slicePtr 0 (maxResults p) σ c.

End Apply.

(** ** Decoding *)

(** A JSON value decoded with [UseNumber]: a number keeps its text. *)
Inductive json : Type :=
| JNull
| JBool (b : bool)
| JNumber (text : gostring)
| JString (s : gostring)
| JArray (l : list json)
| JObject (l : list (gostring * json)).

(** [rawRule]: an omitted key is [None]; [value] records whether the decoder
    called [UnmarshalJSON], which it does for a present key only. *)
Record rawRule : Type := MkRaw {
  rawField : option gostring;
  rawType : option gostring;
  rawValue : option json
}.

(** [encoding/json] on a [[][]rawRule], and [strconv.ParseFloat]. *)
Class Decoder : Type := {
  Unmarshal : gostring → option (list (list rawRule));
  ParseFloat : gostring → option float
}.

(** [strconv.ParseUint(s, 10, 64)]. *)
Definition ParseUint (s : gostring) : option Z := ParseUintBits 64 s.

Section Parse.
Context `{TY : Types} `{DEC : Decoder}.

Definition exactJSONNumber (n : gostring) : result ferror any :=
  match ParseInt n with
  | Some i => Ok (Some (Val tInt64 (CInt i)))
  | None =>
      match ParseUint n with
      | Some u => Ok (Some (Val tUint64 (CUint u)))
      | None =>
          match ParseFloat n with
          | Some f => Ok (Some (Val tFloat64 (CFloat f)))
          | None => Error ErrInvalidFilter
          end
      end
  end.

Definition normalizeRuleValue (v : json) : result ferror any :=
  match v with
  | JNumber n => exactJSONNumber n
  | JArray _ | JObject _ => Error ErrInvalidFilter
  | JNull => Ok None
  | JBool b => Ok (Some (Val tBool (CBool b)))
  | JString s => Ok (Some (Val tString (CString s)))
  end.

(** [rawRule.rule]. *)
Definition rule (r : rawRule) : result ferror Rule :=
  match rawField r, rawType r, rawValue r with
  | Some f, Some t, Some v => (value <-? normalizeRuleValue v;; Ok (MkRule f t value))%go
  | _, _, _ => Error ErrInvalidFilter
  end.

Fixpoint each {A B : Type} (f : A → result ferror B) (l : list A) : result ferror (list B) :=
  match l with
  | [] => Ok []
  | a :: l => (b <-? f a;; bs <-? each f l;; Ok (b :: bs))%go
  end.

Definition parseJSON (s : gostring) : result ferror (list (list Rule)) :=
  match Unmarshal s with
  | None => Error ErrInvalidFilter
  | Some [] => Error ErrInvalidFilter
  | Some raw => each (each rule) raw
  end.

Definition ParseJSON (p : Processor) (s : gostring) : result ferror (list (list Rule)) :=
  if maxFilterBytes p <? Z.of_nat (length s) then Error ErrInvalidFilter
  else
    (rules <-? parseJSON s;;
     _ <-? checkRulesCount p rules;; Ok rules)%go.

(** [q.Get(key)] of the query is the argument; [Ok None] is [nil, nil]. *)
Definition ParseURLQuery (p : Processor) (q : gostring → gostring) : result ferror (option (list (list Rule))) :=
  let value := q (urlQueryFilterKey p) in
  if str_eqb value [] then Ok None else (rules <-? ParseJSON p value;; Ok (Some rules))%go.

End Parse.
