(* ===== verification/FilterProps.v ===== *)
(** * [pkg/filter]: what the filters compute

    The meaning of a rule set, element by element, with no cache, no compiled
    path and no index: [selected_by]; and the refinement of it by
    [ApplySubset] (C35), the negation of rules and the integers of JSON
    rules (C38). *)

From stdpp Require Import base option list gmap.
From Stdlib Require Import String Floats.
From S2P Require Import Prelude GoString GoText Binary64 FilterNumeric FilterValue FilterEval FilterField Filter.

#[local] Open Scope Z_scope.

(** ** The specification *)

Section Spec.
Context `{TY : Types} `{LIB : Lib} (p : Processor) (σ : heap).

(** An element of an interface type stands for the value it holds. *)
Definition dynamic_value (g : gval) : any :=
  if bool_decide (Kind (val_type g) = KInterface) then
    match val_content g with CIface o => o | _ => None end
  else Some g.

(** The value that a rule's selector designates in an element; [Ok None] when
    it is unreachable. The selector is resolved on the element's own type. *)
Definition target (rl : Rule) (g : gval) : result ferror (option Value) :=
  if str_eqb (Field rl) [] then Ok (Some (ValueOf (dynamic_value g)))
  else match dynamic_value g with
  | None => Ok None
  | Some x =>
      match resolve (fields p) (val_type x) (Field rl) with
      | Error errFieldNotFound => Ok None
      | Error e => Error e
      | Ok path => Ok (default None (walkFieldPath σ (ValueOf (Some x)) path))
      end
  end.

Definition rule_holds (rl : Rule) (g : gval) : result ferror bool :=
  (ev <-? getEvaluator rl;;
   t <-? target rl g;;
   Ok (match t with None => false | Some v => default false (Evaluate σ ev v) end))%go.

(** A disjunction, then a conjunction of them, left to right. *)
Fixpoint any_holds (group : list Rule) (g : gval) : result ferror bool :=
  match group with
  | [] => Ok false
  | rl :: group => (b <-? rule_holds rl g;; if b : bool then Ok true else any_holds group g)%go
  end.

Fixpoint all_hold (rules : list (list Rule)) (g : gval) : result ferror bool :=
  match rules with
  | [] => Ok true
  | group :: rules => (b <-? any_holds group g;; if b : bool then all_hold rules g else Ok false)%go
  end.

(** The elements that satisfy a test, in order. *)
Fixpoint matching (test : gval → result ferror bool) (vs : list gval) : result ferror (list gval) :=
  match vs with
  | [] => Ok []
  | g :: vs => (b <-? test g;; ms <-? matching test vs;; Ok (if b : bool then g :: ms else ms))%go
  end.

(** The error of a rule that can be told from the element type alone. *)
Definition rule_error (elemType : N) (rl : Rule) : option ferror :=
  if value_too_large p (RValue rl) then Some ErrInvalidFilter
  else match getEvaluator rl with
  | Error e => Some e
  | Ok _ =>
      if str_eqb (Field rl) [] || bool_decide (Kind elemType = KInterface) then None
      else match resolve (fields p) elemType (Field rl) with
      | Error _ => Some ErrInvalidFilter
      | Ok _ => None
      end
  end.

Fixpoint first_error (elemType : N) (rules : list Rule) : option ferror :=
  match rules with
  | [] => None
  | rl :: rules => match rule_error elemType rl with Some e => Some e | None => first_error elemType rules end
  end.

(** The slice a pointer designates. *)
Definition pointee (slicePtr : any) : option (N * gval) :=
  match slicePtr with
  | Some (Val t (CPtr (Some l))) =>
      if bool_decide (Kind t = KPointer) then
        v ← σ !! l; if bool_decide (Kind (val_type v) = KSlice) then Some (l, v) else None
      else None
  | _ => None
  end.

(** All the matching elements of the slice, or the error. *)
Definition selected_by (rules : list (list Rule)) (slicePtr : any) (length : Z) : result ferror (list gval) :=
  if (length <? 1) || (maxResults p <? length) then Error ErrUsage
  else
    (_ <-? checkRulesCount p rules;;
     match pointee slicePtr with
     | None => Error ErrUsage
     | Some (_, v) =>
         match first_error (Elem (val_type v)) (concat rules) with
         | Some e => Error e
         | None => matching (all_hold rules) (slice_elements v)
         end
     end)%go.

(** The slice with other elements; a nil slice has none. *)
Definition with_elements (v : gval) (vs : list gval) : gval :=
  match v with
  | Val t (CSlice (Some _)) => Val t (CSlice (Some vs))
  | v => v
  end.

(** The page of [length] elements from [offset]. *)
Definition window (offset length : Z) (vs : list gval) : list gval := take (Z.to_nat length) (drop (Z.to_nat offset) vs).

End Spec.

(** ** Generic facts on the cached computations *)

(** [m] computes [r], whatever the cache, and leaves a sound cache. *)
Definition computes `{TY : Types} (fg : fieldGetter) {A} (m : FM A) (r : result ferror A) : Prop :=
  ∀ c, cache_ok fg c → ∃ c', m c = Some (r, c') ∧ cache_ok fg c'.

Section Computes.
Context `{TY : Types} (fg : fieldGetter).

Lemma computes_ret {A} (a : A) : computes fg (fm_ret a) (Ok a).
Proof. intros c Hc. by exists c. Qed.

Lemma computes_lift {A} (r : result ferror A) : computes fg (fm_lift (Some r)) r.
Proof. intros c Hc. by exists c. Qed.

Lemma computes_bind {A B} (m : FM A) (k : A → FM B) r (s : A → result ferror B) :
  computes fg m r → (∀ a, r = Ok a → computes fg (k a) (s a)) → computes fg (fm_bind m k) (result_bind r s).
Proof.
  intros Hm Hk c Hc. destruct (Hm c Hc) as (c1 & Hc1 & Hok). unfold fm_bind. rewrite Hc1. cbn [mbind option_bind].
  destruct r as [a|e]; cbn [result_bind]; [by apply Hk|by exists c1].
Qed.

Lemma computes_resolve t pth : computes fg (resolvePath fg t pth) (resolve fg t pth).
Proof. intros c Hc. by apply resolvePath_spec. Qed.

End Computes.

(** ** The commit of the selected elements *)

(** Increasing indices from [n] on. *)
Fixpoint ascending (n : nat) (sel : list nat) : Prop :=
  match sel with
  | [] => True
  | i :: sel => (n <= i)%nat ∧ ascending (S i) sel
  end.

Lemma ascending_weaken m n sel : (m <= n)%nat → ascending n sel → ascending m sel.
Proof. destruct sel; simpl; [done|]. intros ? [? ?]. split; [lia|done]. Qed.

Lemma ascending_drop k : ∀ n sel, ascending n sel → ascending n (drop k sel).
Proof.
  induction k as [|k IH]; intros n [|i sel] H; try done. cbn [drop]. apply IH.
  destruct H as [Hi Hs]. apply (ascending_weaken _ (S i)); [lia|done].
Qed.

Lemma ascending_take k : ∀ n sel, ascending n sel → ascending n (take k sel).
Proof. induction k as [|k IH]; intros n [|i sel] H; try done. destruct H. split; [done|by apply IH]. Qed.

Lemma ascending_ge n sel i : ascending n sel → i ∈ sel → (n <= i)%nat.
Proof.
  revert n. induction sel as [|j sel IH]; intros n H Hi; [by apply not_elem_of_nil in Hi|].
  destruct H as [Hj Hs]. apply elem_of_cons in Hi as [->|Hi]; [done|]. specialize (IH _ Hs Hi). lia.
Qed.

(** Each selected element lands at its rank; nothing beyond the selection is
    written. *)
Lemma commit_spec sel : ∀ n slice, ascending n sel → Forall (fun i => (i < length slice)%nat) sel →
  ∃ arr, commit n sel slice = Some arr ∧ length arr = length slice ∧
    (∀ k, (k < n)%nat ∨ (n + length sel <= k)%nat → arr !! k = slice !! k) ∧
    ∀ j i, sel !! j = Some i → arr !! (n + j)%nat = slice !! i.
Proof.
  induction sel as [|i sel IH]; intros n slice Hasc Hlt; cbn [commit].
  { exists slice. done. }
  destruct Hasc as [Hn Hasc]. apply Forall_cons in Hlt as [Hi Hlt].
  destruct (lookup_lt_is_Some_2 slice i Hi) as [g Hg].
  set (slice1 := if (n =? i)%nat then slice else <[n := g]> slice).
  assert (Hstep : (if (n =? i)%nat then Some slice
      else g ← slice !! i; if (n <? length slice)%nat then Some (<[n := g]> slice) else None) = Some slice1).
  { subst slice1. destruct (Nat.eqb_spec n i); [done|]. rewrite Hg. cbn [mbind option_bind].
    by rewrite (proj2 (Nat.ltb_lt _ _)) by lia. }
  rewrite Hstep. cbn [mbind option_bind].
  assert (Hlen : length slice1 = length slice) by (subst slice1; case_match; [done|apply length_insert]).
  assert (Hother : ∀ k, k ≠ n → slice1 !! k = slice !! k).
  { intros k Hk. subst slice1. case_match; [done|]. by apply list_lookup_insert_ne. }
  assert (Hat : slice1 !! n = slice !! i).
  { subst slice1. destruct (Nat.eqb_spec n i) as [->|]; [done|]. rewrite Hg. apply list_lookup_insert_eq. lia. }
  destruct (IH (S n) slice1) as (arr & Harr & Hal & Hout & Hin).
  { apply (ascending_weaken _ (S i)); [lia|done]. }
  { by rewrite Hlen. }
  exists arr. split; [done|]. split; [lia|]. split.
  - intros k Hk. cbn [length] in Hk. rewrite Hout by lia. apply Hother. lia.
  - intros [|j] x Hx; cbn in Hx; simplify_eq.
    + rewrite Nat.add_0_r, Hout by lia. done.
    + rewrite Nat.add_succ_r, <- Nat.add_succ_l, (Hin _ _ Hx). apply Hother.
      pose proof (ascending_ge _ _ _ Hasc (list_elem_of_lookup_2 _ _ _ Hx)). lia.
Qed.

(** ** Compilation *)

Section Refinement.
Context `{TY : Types} `{LIB : Lib} `{TOK : !TypesOk} (p : Processor) (σ : heap).

Abbreviation computes := (computes (fields p)).

(** What compilation records of a rule. *)
Definition compiled_ok (t : N) (rl : Rule) (cr : compiledRule) : Prop :=
  getEvaluator rl = Ok (eval cr) ∧ field cr = Field rl ∧ wholeElem cr = str_eqb (Field rl) [] ∧
  (wholeElem cr = false → dynamic cr = bool_decide (Kind t = KInterface) ∧
    (dynamic cr = false → resolve (fields p) t (Field rl) = Ok (path cr))).

Lemma resolve_error t f e : resolve (fields p) t f = Error e → e = errFieldNotFound ∨ e = ErrInvalidFilter.
Proof.
  unfold resolve. case_match; [intros; simplify_eq; by right|]. generalize (Split FieldNameSeparator f). intros names.
  revert t. induction names as [|n names IH]; intros t; cbn [getFieldPath]; [done|].
  case_bool_decide; cbn [negb]; [|intros; simplify_eq; by right].
  unfold getStructField. destruct (lookupStructField _ _ _) as [fd|]; cbn [result_bind]; [|intros; simplify_eq; by left].
  destruct (str_eqb _ _); cbn [result_bind]; [|intros; simplify_eq; by right].
  destruct (getFieldPath _ _ names) eqn:Hg; cbn [result_bind]; [done|]. intros; simplify_eq. by eapply IH.
Qed.

Lemma compileRule_spec rl t c : cache_ok (fields p) c → ∃ r c', compileRule p rl t c = Some (r, c') ∧ cache_ok (fields p) c' ∧
  match r with
  | Ok cr => rule_error p t rl = None ∧ compiled_ok t rl cr
  | Error e => rule_error p t rl = Some e
  end.
Proof.
  intros Hc. unfold compileRule, rule_error. destruct (value_too_large p (RValue rl)).
  { by eexists (Error _), c. }
  destruct (getEvaluator rl) as [ev|e] eqn:He; [|by eexists (Error _), c].
  destruct (str_eqb (Field rl) []) eqn:Hf; cbn [orb].
  { eexists (Ok _), c. split; [done|]. split; [done|]. split; [done|]. by repeat split. }
  destruct (bool_decide (Kind t = KInterface)) eqn:Hk; cbn [orb].
  { eexists (Ok _), c. split; [done|]. split; [done|]. split; [done|]. by repeat split. }
  destruct (resolvePath_spec (fields p) t (Field rl) c Hc) as (c' & -> & Hc'). cbn [mbind option_bind].
  destruct (resolve (fields p) t (Field rl)) as [pth|e] eqn:Hr.
  { eexists (Ok _), c'. split; [done|]. split; [done|]. split; [done|]. by repeat split. }
  destruct (resolve_error _ _ _ Hr) as [-> | ->]; by eexists (Error _), c'.
Qed.

Lemma compileGroup_spec t group : ∀ c, cache_ok (fields p) c →
  ∃ r c', compileGroup p group t c = Some (r, c') ∧ cache_ok (fields p) c' ∧
  match r with
  | Ok crs => first_error p t group = None ∧ Forall2 (compiled_ok t) group crs
  | Error e => first_error p t group = Some e
  end.
Proof.
  induction group as [|rl group IH]; intros c Hc; cbn [compileGroup first_error].
  { by eexists (Ok _), c. }
  destruct (compileRule_spec rl t c Hc) as (r & c1 & H1 & Hc1 & Hr). unfold fm_bind. rewrite H1. cbn [mbind option_bind].
  destruct r as [cr|e]; [destruct Hr as [-> Hcr]|rewrite Hr; by eexists (Error _), c1].
  destruct (IH c1 Hc1) as (r & c2 & H2 & Hc2 & Hr). rewrite H2. cbn [mbind option_bind].
  destruct r as [crs|e]; [destruct Hr as [-> Hcrs]|rewrite Hr; by eexists (Error _), c2].
  eexists (Ok _), c2. split; [done|]. split; [done|]. split; [done|]. by constructor.
Qed.

Lemma first_error_app t l k : first_error p t (l ++ k) = match first_error p t l with Some e => Some e | None => first_error p t k end.
Proof. induction l as [|rl l IH]; [done|]. cbn [first_error app]. by destruct (rule_error p t rl). Qed.

Lemma compileRules_spec t rules : ∀ c, cache_ok (fields p) c →
  ∃ r c', compileRules p rules t c = Some (r, c') ∧ cache_ok (fields p) c' ∧
  match r with
  | Ok crs => first_error p t (concat rules) = None ∧ Forall2 (Forall2 (compiled_ok t)) rules crs
  | Error e => first_error p t (concat rules) = Some e
  end.
Proof.
  induction rules as [|group rules IH]; intros c Hc; cbn [compileRules concat].
  { by eexists (Ok _), c. }
  destruct (compileGroup_spec t group c Hc) as (r & c1 & H1 & Hc1 & Hr). unfold fm_bind. rewrite H1, first_error_app.
  cbn [mbind option_bind].
  destruct r as [cr|e]; [destruct Hr as [-> Hcr]|rewrite Hr; by eexists (Error _), c1].
  destruct (IH c1 Hc1) as (r & c2 & H2 & Hc2 & Hr). rewrite H2. cbn [mbind option_bind].
  destruct r as [crs|e]; [destruct Hr as [-> Hcrs]|rewrite Hr; by eexists (Error _), c2].
  eexists (Ok _), c2. split; [done|]. split; [done|]. split; [done|]. by constructor.
Qed.

(** ** Evaluation *)

Hypothesis Hheap : heap_ok σ.

(** Reading a resolved path does not panic; what it reads is readable. *)
Lemma walkFieldPath_ok x t f pth : clear σ x → val_type (rv x) = t → resolve (fields p) t f = Ok pth →
  ∃ w, walkFieldPath σ (Some x) pth = Some w ∧
    match w with None => True | Some v => Value_ok σ v ∧ readable v ∧ has_kind v [KPointer; KInterface] = false end.
Proof.
  intros Hx <- Hr. unfold resolve in Hr. case_match; [done|]. unfold walkFieldPath.
  destruct (getFieldPath_walk σ (fields p) Hheap _ x pth Hx Hr) as (w & -> & Hw). cbn [mbind option_bind].
  destruct w as [v|]; [|by eexists]. destruct Hw as (y & -> & Hy).
  destruct (unwrapLeaf_ok σ y Hheap Hy) as (u & -> & Hk & Hu & Hread). cbn [mbind option_bind]. by eexists.
Qed.

Lemma dynamic_value_spec g : value_ok σ g →
  (if has_kind (element g) [KInterface] then VElem σ (element g) else Some (element g)) = Some (ValueOf (dynamic_value g)) ∧
  any_ok σ (dynamic_value g).
Proof.
  intros Hg. unfold dynamic_value, element, has_kind, rkind_of. cbn [rv]. destruct g as [t c]. cbn [val_type val_content].
  inversion Hg as [? ? Hc]; subst. destruct (decide (Kind t = KInterface)) as [Hk|Hk].
  - rewrite !bool_decide_eq_true_2 by (done || by apply list_elem_of_singleton).
    inversion Hc; subst; try congruence; try (exfalso; kind_clash); try done.
    all: try (exfalso; repeat match goal with H : Kind ?t ∈ ?l |- _ => apply (bool_decide_eq_true_2 (Kind t ∈ l)) in H end;
      rewrite Hk in *; done).
  - rewrite !bool_decide_eq_false_2 by (done || by rewrite list_elem_of_singleton). done.
Qed.

Lemma any_clear x : value_ok σ x → clear σ (MkR x false false).
Proof. by split. Qed.

(** What the walk of the specification returns. *)
Lemma target_ok rl g v : value_ok σ g → target p σ rl g = Ok (Some v) → Value_ok σ v ∧ readable v.
Proof.
  intros Hg. unfold target. destruct (dynamic_value_spec g Hg) as [_ Hd]. destruct (str_eqb _ _).
  { intros; simplify_eq. destruct (dynamic_value g) as [x|]; [|done]. split; [apply Hd|done]. }
  destruct (dynamic_value g) as [x|]; [|done]. destruct (resolve _ _ _) as [pth|e] eqn:Hr; [|by destruct e].
  destruct (walkFieldPath_ok (MkR x false false) (val_type x) _ pth (any_clear x (proj1 Hd)) eq_refl Hr) as (w & Hw & Hok).
  unfold ValueOf. cbn [fmap option_fmap option_map]. rewrite Hw. intros; simplify_eq/=. by destruct Hok as (? & ? & _).
Qed.

Lemma ruleValue_spec t rl cr g : compiled_ok t rl cr → value_ok σ g → val_type g = t →
  computes (ruleValue p σ cr (element g)) (target p σ rl g).
Proof.
  intros (_ & Hf & Hw & Hd) Hg Ht c Hc. unfold ruleValue, target.
  destruct (dynamic_value_spec g Hg) as [-> Hok]. cbn [mbind option_bind]. rewrite <- Hw.
  destruct (wholeElem cr); [by exists c|]. destruct (Hd eq_refl) as [Hdyn Hpath].
  destruct (dynamic cr).
  - unfold dynamicFieldValue. destruct (dynamic_value g) as [x|]; [|by exists c]. unfold ValueOf.
    cbn [fmap option_fmap option_map rv]. rewrite Hf.
    destruct (resolvePath_spec (fields p) (val_type x) (Field rl) c Hc) as (c' & -> & Hc'). cbn [mbind option_bind].
    destruct (resolve (fields p) (val_type x) (Field rl)) as [pth|e] eqn:Hr; [|exists c'; by destruct e].
    destruct (walkFieldPath_ok (MkR x false false) (val_type x) _ pth (any_clear x (proj1 Hok)) eq_refl Hr) as (w & -> & _).
    by exists c'.
  - unfold dynamic_value in *. rewrite Ht, <- Hdyn in *. destruct Hok as [Hgok _]. cbn [ValueOf fmap option_fmap option_map].
    specialize (Hpath eq_refl).
    destruct (walkFieldPath_ok (MkR g false false) t _ _ (any_clear g Hgok) Ht Hpath) as (w & Hw' & _).
    rewrite Ht, Hpath, Hw'. by exists c.
Qed.

Lemma evaluateRule_spec t rl cr g : any_ok σ (RValue rl) → compiled_ok t rl cr → value_ok σ g → val_type g = t →
  computes (evaluateRule p σ cr (element g)) (rule_holds p σ rl g).
Proof.
  intros Hv Hcr Hg Ht. unfold rule_holds. rewrite (proj1 Hcr). cbn [result_bind].
  apply computes_bind; [by apply (ruleValue_spec t)|]. intros [v|] Hr; [|apply computes_ret].
  destruct (target_ok rl g v Hg Hr) as [Hvok Hread].
  destruct (Evaluate_total σ (eval cr) v (getEvaluator_ok σ rl _ Hv (proj1 Hcr)) Hvok Hread) as [b ->].
  apply computes_lift.
Qed.

Definition rulevalue_ok (rl : Rule) : Prop := any_ok σ (RValue rl).

Lemma evaluateGroup_spec t group crs g : Forall rulevalue_ok group → Forall2 (compiled_ok t) group crs → value_ok σ g →
  val_type g = t → computes (evaluateGroup p σ crs (element g)) (any_holds p σ group g).
Proof.
  intros Hok Hcrs Hg Ht. revert Hok. induction Hcrs as [|rl cr group crs Hcr Hcrs IH]; intros Hok;
    cbn [evaluateGroup any_holds]; [apply computes_ret|]. apply Forall_cons in Hok as [Hrl Hok].
  apply computes_bind; [by apply (evaluateRule_spec t)|]. intros [] _; [apply computes_ret|by apply IH].
Qed.

Lemma evaluateRules_spec t rules crs g : Forall (Forall rulevalue_ok) rules → Forall2 (Forall2 (compiled_ok t)) rules crs →
  value_ok σ g → val_type g = t → computes (evaluateRules p σ crs (element g)) (all_hold p σ rules g).
Proof.
  intros Hok Hcrs Hg Ht. revert Hok. induction Hcrs as [|group gcrs rules crs Hcr Hcrs IH]; intros Hok;
    cbn [evaluateRules all_hold]; [apply computes_ret|]. apply Forall_cons in Hok as [Hrl Hok].
  apply computes_bind; [by apply (evaluateGroup_spec t)|]. intros [] _; [by apply IH|apply computes_ret].
Qed.

(** ** Selection *)

(** The matching elements with their indices. *)
Fixpoint indexed (test : gval → result ferror bool) (i : nat) (vs : list gval) : result ferror (list (nat * gval)) :=
  match vs with
  | [] => Ok []
  | g :: vs => (b <-? test g;; ms <-? indexed test (S i) vs;; Ok (if b : bool then (i, g) :: ms else ms))%go
  end.

Lemma indexed_matching test vs : ∀ i, matching test vs = match indexed test i vs with Ok ms => Ok (snd <$> ms) | Error e => Error e end.
Proof.
  induction vs as [|g vs IH]; intros i; [done|]. cbn [matching indexed]. destruct (test g) as [b|e]; [|done].
  cbn [result_bind]. rewrite (IH (S i)). destruct (indexed test (S i) vs); [|done]. cbn [result_bind]. by destruct b.
Qed.

Lemma indexed_spec test vs : ∀ i ms, indexed test i vs = Ok ms →
  ascending i (fst <$> ms) ∧ (length ms <= length vs)%nat ∧
  Forall (fun '(j, g) => (i <= j)%nat ∧ vs !! (j - i)%nat = Some g) ms.
Proof.
  induction vs as [|g vs IH]; intros i ms Hms; cbn [indexed] in Hms; [by simplify_eq|].
  destruct (test g) as [b|]; [cbn [result_bind] in Hms|done].
  destruct (indexed test (S i) vs) as [ms'|] eqn:Hi; [cbn [result_bind] in Hms; simplify_eq|done].
  destruct (IH _ _ Hi) as (Hasc & Hlen & Hall).
  assert (Hall' : Forall (fun '(j, x) => (i <= j)%nat ∧ (g :: vs) !! (j - i)%nat = Some x) ms').
  { eapply Forall_impl; [exact Hall|]. intros [j x] [Hj Hx]. split; [lia|].
    by replace (j - i)%nat with (S (j - S i)) by lia. }
  destruct b; cbn [fmap list_fmap length ascending fst].
  - split; [done|]. split; [lia|]. constructor; [|done]. by rewrite Nat.sub_diag.
  - split; [by apply (ascending_weaken _ (S i)); [lia|]|]. split; [lia|done].
Qed.

(** The loop skips the first matches, keeps at most [len] and counts all. *)
Lemma select_spec (matcher : Value → FM bool) test len vs : 
  Forall (fun g => computes (matcher (element g)) (test g)) vs → ∀ i skip sel total,
  0 <= skip → (Z.of_nat (length sel) <= len) → 0 <= total → total + Z.of_nat (length vs) < 2 ^ 64 →
  (0 < skip → sel = []) →
  computes (selectMatches_loop matcher len i vs skip sel total)
    (ms <-? indexed test i vs;;
     Ok (sel ++ take (Z.to_nat len - length sel) (drop (Z.to_nat skip) (fst <$> ms)), total + Z.of_nat (length ms)))%go.
Proof.
  intros Hvs. induction Hvs as [|g vs Hg Hvs IH]; intros i skip sel total Hskip Hlen Htot Hbound Hfirst;
    cbn [selectMatches_loop indexed length] in *.
  { cbn [result_bind fmap list_fmap length]. rewrite drop_nil, take_nil, app_nil_r, Z.add_0_r. apply computes_ret. }
  intros c Hc. destruct (Hg c Hc) as (c1 & H1 & Hc1). unfold fm_bind at 1. rewrite H1. cbn [mbind option_bind].
  destruct (test g) as [b|e]; [|by exists c1]. cbn [result_bind].
  assert (Hgo : ∀ skip' sel' total' (k : list (nat * gval) → list nat * Z),
    0 <= skip' → Z.of_nat (length sel') <= len → 0 <= total' → total' + Z.of_nat (length vs) < 2 ^ 64 → (0 < skip' → sel' = []) →
    (∀ ms, (sel' ++ take (Z.to_nat len - length sel') (drop (Z.to_nat skip') (fst <$> ms)), total' + Z.of_nat (length ms)) = k ms) →
    ∃ c', selectMatches_loop matcher len (S i) vs skip' sel' total' c1
      = Some ((ms <-? indexed test (S i) vs;; Ok (k ms))%go, c') ∧ cache_ok (fields p) c').
  { intros skip' sel' total' k Hs Hl Ht Hb Hf Hk. destruct (IH (S i) skip' sel' total' Hs Hl Ht Hb Hf c1 Hc1) as (c' & Hc' & Hok).
    exists c'. split; [|done]. rewrite Hc'. do 2 f_equal. destruct (indexed test (S i) vs); cbn [result_bind]; [|done]. by rewrite Hk. }
  destruct b; cbn [negb].
  - rewrite wrapU_small by (unfold inU; lia). destruct (Z.ltb_spec 0 skip) as [Hpos|Hzero].
    + rewrite (Hfirst Hpos) in *. edestruct (Hgo (skip - 1) [] (total + 1)) as (c' & -> & Hok); [lia|done|lia|lia|done|reflexivity|].
      exists c'. split; [|done]. do 2 f_equal. destruct (indexed test (S i) vs) as [ms|]; cbn [result_bind]; [|done].
      cbn [fmap list_fmap fst length]. replace (Z.to_nat skip) with (S (Z.to_nat (skip - 1))) by lia. cbn [drop].
      do 2 f_equal. lia.
    + assert (skip = 0) as -> by lia. cbn [Z.to_nat drop].
      edestruct (Hgo 0 (if Z.of_nat (length sel) <? len then sel ++ [i] else sel) (total + 1)) as (c' & -> & Hok);
        [lia| |lia|lia|lia|reflexivity|].
      { destruct (Z.ltb_spec (Z.of_nat (length sel)) len); [rewrite length_app; simpl; lia|lia]. }
      exists c'. split; [|done]. do 2 f_equal. destruct (indexed test (S i) vs) as [ms|]; cbn [result_bind]; [|done].
      cbn [Z.to_nat drop fmap list_fmap fst length]. do 2 f_equal; [|lia].
      destruct (Z.ltb_spec (Z.of_nat (length sel)) len).
      * replace (Z.to_nat len - length sel)%nat with (S (Z.to_nat len - length (sel ++ [i]))) by (rewrite length_app; simpl; lia).
        cbn [take]. by rewrite <- app_assoc.
      * by replace (Z.to_nat len - length sel)%nat with O by lia.
  - edestruct (Hgo skip sel total) as (c' & -> & Hok); [lia|lia|lia|lia|done|reflexivity|].
    exists c'. split; [|done]. do 2 f_equal. by destruct (indexed test (S i) vs).
Qed.

Lemma fst_snd_window {A B} (ms : list (A * B)) n k : take k (drop n (fst <$> ms)) = fst <$> take k (drop n ms) ∧
  take k (drop n (snd <$> ms)) = snd <$> take k (drop n ms).
Proof. by rewrite !fmap_take, !fmap_drop. Qed.

(** The slice becomes the page of its matches; the array behind it is
    untouched beyond the page. *)
Lemma filterSliceValue_spec matcher test offset len vs :
  Forall (fun g => computes (matcher (element g)) (test g)) vs →
  0 <= offset → 0 < len → Z.of_nat (length vs) < 2 ^ 63 → ∀ c, cache_ok (fields p) c →
  ∃ r c', filterSliceValue vs offset len matcher c = Some (r, c') ∧ cache_ok (fields p) c' ∧
    match matching test vs with
    | Error e => r = Error e
    | Ok ms => ∃ arr, let w := window offset len ms in
        r = Ok (arr, Z.of_nat (length w), Z.of_nat (length ms)) ∧ length arr = length vs ∧
        (length w <= length vs)%nat ∧ take (length w) arr = w ∧ drop (length w) arr = drop (length w) vs
    end.
Proof.
  intros Hvs Hoff Hlen Hsize c Hc. unfold filterSliceValue, selectMatches, window.
  destruct (select_spec matcher test len vs Hvs 0 offset [] 0) with (c := c) as (c' & Hsel & Hc'); [lia|simpl; lia|lia|lia|done..|].
  unfold fm_bind. rewrite Hsel. cbn [mbind option_bind]. rewrite (indexed_matching test vs 0).
  destruct (indexed test 0 vs) as [ms|e] eqn:Hms; cbn [result_bind]; [|by eexists _, c'].
  destruct (indexed_spec _ _ _ _ Hms) as (Hasc & Hle & Hall).
  cbn [length app]. rewrite Nat.sub_0_r, Z.add_0_l.
  destruct (fst_snd_window ms (Z.to_nat offset) (Z.to_nat len)) as [-> ->].
  set (w := take (Z.to_nat len) (drop (Z.to_nat offset) ms)).
  assert (Hw : Forall (fun '(j, g) => (0 <= j)%nat ∧ vs !! (j - 0)%nat = Some g) w) by (by apply Forall_take, Forall_drop).
  assert (Hwasc : ascending 0 (fst <$> w)).
  { subst w. rewrite fmap_take, fmap_drop. by apply ascending_take, ascending_drop. }
  assert (Hwlen : (length w <= length vs)%nat) by (subst w; rewrite length_take, length_drop; lia).
  destruct (commit_spec (fst <$> w) 0 vs Hwasc) as (arr & Harr & Hal & Hout & Hin).
  { apply Forall_fmap. eapply Forall_impl; [exact Hw|]. intros [j g] [_ Hg]. cbn. apply lookup_lt_Some in Hg. lia. }
  unfold fm_lift. rewrite Harr. cbn [mbind option_bind]. eexists _, c'. split; [done|]. split; [done|].
  exists arr. rewrite !length_fmap in *. split; [done|]. split; [done|]. split; [done|]. split.
  - apply list_eq. intros j. destruct (decide (j < length w)%nat) as [Hj|Hj].
    + rewrite lookup_take_lt by done. destruct (lookup_lt_is_Some_2 w j Hj) as [[i g] Hig].
      change (arr !! j) with (arr !! (0 + j)%nat). rewrite (Hin j i) by (by rewrite list_lookup_fmap, Hig). rewrite list_lookup_fmap, Hig.
      rewrite Forall_lookup in Hw. specialize (Hw _ _ Hig). cbn in Hw. rewrite Nat.sub_0_r in Hw. apply Hw.
    + rewrite lookup_take_ge by lia. symmetry. apply lookup_ge_None_2. rewrite length_fmap. lia.
  - apply list_eq. intros j. rewrite !lookup_drop. apply Hout. lia.
Qed.

(** ** Elements of a concrete type *)

(** The truth value of a rule that has one. *)
Definition sat (rl : Rule) (g : gval) : bool := match rule_holds p σ rl g with Ok b => b | Error _ => false end.

Definition cnf (rules : list (list Rule)) (g : gval) : bool := forallb (existsb (fun rl => sat rl g)) rules.

Lemma first_error_none t rules rl : first_error p t rules = None → rl ∈ rules → rule_error p t rl = None.
Proof.
  induction rules as [|r rules IH]; intros Hf Hin; [by apply not_elem_of_nil in Hin|]. cbn [first_error] in Hf.
  destruct (rule_error p t r) eqn:Hr; [done|]. apply elem_of_cons in Hin as [->|Hin]; auto.
Qed.

Lemma holds_concrete t rl g : Kind t ≠ KInterface → val_type g = t → rule_error p t rl = None → rule_holds p σ rl g = Ok (sat rl g).
Proof.
  intros Hk Ht Hr. assert (Hh : ∃ b, rule_holds p σ rl g = Ok b); [|destruct Hh as [b Hb]; unfold sat; by rewrite Hb].
  unfold rule_error in Hr. unfold rule_holds, target, dynamic_value. case_match; [done|].
  destruct (getEvaluator rl) as [ev|]; [cbn [result_bind]|done]. rewrite Ht, bool_decide_eq_false_2 by done.
  destruct (str_eqb (Field rl) []); cbn [result_bind orb] in *; [by eexists|].
  rewrite bool_decide_eq_false_2 in Hr by done. rewrite Ht. destruct (resolve _ _ _); [|done]. cbn [result_bind]. by eexists.
Qed.

Lemma all_hold_concrete t rules g : Kind t ≠ KInterface → val_type g = t →
  first_error p t (concat rules) = None → all_hold p σ rules g = Ok (cnf rules g).
Proof.
  intros Hk Ht. induction rules as [|group rules IH]; intros Hf; [done|]. cbn [concat] in Hf. rewrite first_error_app in Hf.
  destruct (first_error p t group) eqn:Hg; [done|]. cbn [all_hold cnf forallb].
  assert (Hany : any_holds p σ group g = Ok (existsb (fun rl => sat rl g) group)).
  { clear Hf IH. induction group as [|rl group IH]; [done|]. cbn [first_error] in Hg. destruct (rule_error p t rl) eqn:Hr; [done|].
    cbn [any_holds existsb]. rewrite (holds_concrete t) by done. cbn [result_bind]. rewrite IH by done. by destruct (sat rl g). }
  rewrite Hany. cbn [result_bind]. destruct (existsb _ group); [|done]. by rewrite IH.
Qed.

Lemma matching_concrete t rules vs : Kind t ≠ KInterface → Forall (fun g => val_type g = t) vs →
  first_error p t (concat rules) = None → matching (all_hold p σ rules) vs = Ok (filter (fun g => cnf rules g = true) vs).
Proof.
  intros Hk Hvs Hf. induction Hvs as [|g vs Hg Hvs IH]; [done|]. cbn [matching]. rewrite (all_hold_concrete t), IH by done.
  cbn [result_bind]. rewrite filter_cons. destruct (cnf rules g); [by rewrite decide_True|by rewrite decide_False].
Qed.

(** ** The refinement *)

(** What the caller passes: well-typed rule values and target, the length of
    a slice being an [int], and a processor within its bounds. *)
Definition call_ok (rules : list (list Rule)) (slicePtr : any) (offset : Z) : Prop :=
  Forall (Forall rulevalue_ok) rules ∧ any_ok σ slicePtr ∧ 0 <= offset < 2 ^ 64 ∧ maxResults p <= MaxResults ∧
  ∀ l v, pointee σ slicePtr = Some (l, v) → Z.of_nat (length (slice_elements v)) < 2 ^ 63.

Lemma pointee_spec slicePtr : any_ok σ slicePtr →
  match pointee σ slicePtr with
  | Some (l, v) => ∃ t, slicePtr = Some (Val t (CPtr (Some l))) ∧ Kind t = KPointer ∧ σ !! l = Some v ∧
      Kind (val_type v) = KSlice ∧ Forall (fun g => value_ok σ g ∧ val_type g = Elem (val_type v)) (slice_elements v)
  | None => has_kind (ValueOf slicePtr) [KPointer] = false ∨
      ∃ v, has_kind (ValueOf slicePtr) [KPointer] = true ∧ VElem σ (ValueOf slicePtr) = Some v ∧ has_kind v [KSlice] = false
  end.
Proof.
  intros Hok. destruct slicePtr as [[t c]|]; [|by left]. destruct Hok as [Hok _].
  destruct (decide (Kind t = KPointer)) as [Hk|Hk].
  2:{ assert (Hno : has_kind (ValueOf (Some (Val t c))) [KPointer] = false).
      { cbn. apply bool_decide_eq_false_2. unfold rkind_of. cbn. by rewrite list_elem_of_singleton. }
      destruct (pointee σ (Some (Val t c))) as [[l v]|] eqn:Hp; [|by left].
      cbn [pointee] in Hp. rewrite bool_decide_eq_false_2 in Hp by done. by destruct c as [| | | | | |[|]| | | | | |]. }
  assert (Hyes : has_kind (ValueOf (Some (Val t c))) [KPointer] = true).
  { cbn. apply bool_decide_eq_true_2. unfold rkind_of. cbn. by apply list_elem_of_singleton. }
  inversion Hok as [? ? Hc]; subst. unfold pointee. rewrite bool_decide_eq_true_2 by done.
  inversion Hc as [| | | | | | |? l v Hp Hl Hv|?|? ? Hki| | | | | |]; subst; try congruence;
    try (exfalso; repeat match goal with H : Kind ?t ∈ ?l |- _ => apply (bool_decide_eq_true_2 (Kind t ∈ l)) in H end;
      rewrite Hk in *; done).
  - right. by exists None.
  - rewrite Hl. cbn [mbind option_bind]. case_bool_decide as Hs.
    + exists t. split; [done|]. split; [done|]. split; [done|]. split; [done|].
      pose proof (Hheap _ _ Hl) as Hvok. destruct v as [ts cs]. inversion Hvok as [? ? Hcs]; subst. cbn [val_type] in Hs.
      unfold slice_elements. cbn [val_content val_type]. inversion Hcs as [| | | | | | | | | | | | |? vs _ Hall| |]; subst; try done.
      eapply Forall_impl; [exact Hall|]. cbn. naive_solver.
    + right. exists (Some (MkR v false false)). split; [done|]. split; [cbn; by rewrite Hl|].
      cbn. apply bool_decide_eq_false_2. unfold rkind_of. cbn. by rewrite list_elem_of_singleton.
Qed.
End Refinement.

Lemma set_slice_with v arr n : set_slice v arr n = with_elements v (take n arr).
Proof. by destruct v as [t []]. Qed.

Lemma window_length offset length vs : 0 < length → Z.of_nat (List.length (window offset length vs)) <= length.
Proof. intros Hl. unfold window. rewrite length_take. lia. Qed.

Section Main.
Context `{TY : Types} `{LIB : Lib} `{TOK : !TypesOk}.

(** C35. [ApplySubset] refines its specification. On a well-typed heap, with
    any sound cache, it never panics and leaves a sound cache whose content
    changes nothing else. It returns the error that the specification reads
    off the arguments and elements, and then the heap is untouched; or the
    slice becomes exactly the requested page of the elements that match, in
    order, with the length of the page and the number of all the matches. For
    a concrete element type no element can fail, and the matches are those
    satisfying the conjunction of disjunctions that the rules spell. *)
Theorem ApplySubset_refines (p : Processor) σ rules slicePtr offset length c
    (Hheap : heap_ok σ) (Hcall : call_ok p σ rules slicePtr offset) (Hc : cache_ok (fields p) c) :
  ∃ r σ' c', ApplySubset p rules slicePtr offset length σ c = Some (r, σ', c') ∧ cache_ok (fields p) c' ∧
    match selected_by p σ rules slicePtr length with
    | Error e => r = Error e ∧ σ' = σ
    | Ok ms => ∃ l v, pointee σ slicePtr = Some (l, v) ∧
        let w := window offset length ms in
        r = Ok (Z.of_nat (List.length w), Z.of_nat (List.length ms)) ∧ σ' = <[l := with_elements v w]> σ ∧
        (Kind (Elem (val_type v)) ≠ KInterface → ms = filter (fun g => cnf p σ rules g = true) (slice_elements v))
    end.
Proof.
  destruct Hcall as (Hrules & Hptr & Hoff & Hmax & Hsize). unfold ApplySubset, selected_by, MaxResults in *.
  destruct (Z.ltb_spec length 1); [by eexists (Error _), σ, c|].
  destruct (Z.ltb_spec (maxResults p) length); [by eexists (Error _), σ, c|]. cbn [orb].
  destruct (checkRulesCount p rules) as [[]|e]; [cbn [result_bind]|by eexists (Error _), σ, c].
  pose proof (pointee_spec σ Hheap slicePtr Hptr) as Hp. destruct (pointee σ slicePtr) as [[l v]|] eqn:Hpt.
  2:{ destruct Hp as [-> |(v & -> & -> & Hv)]; cbn [negb mbind option_bind]; [by eexists (Error _), σ, c|].
      rewrite Hv. by eexists (Error _), σ, c. }
  destruct Hp as (t & -> & Hk & Hl & Hks & Hels). cbn [ValueOf fmap option_fmap option_map].
  rewrite (proj2 (has_kind_in _ _)) by (apply list_elem_of_singleton; done). cbn [negb].
  unfold VElem. cbn [mbind option_bind rv val_content]. rewrite Hl. cbn [mbind option_bind].
  rewrite (proj2 (has_kind_in _ _)) by (apply list_elem_of_singleton; done). cbn [negb fmap option_fmap option_map mbind option_bind rv].
  destruct (compileRules_spec p (Elem (val_type v)) rules c Hc) as (r & c1 & -> & Hc1 & Hr). cbn [mbind option_bind].
  destruct r as [crs|e]; [destruct Hr as [Hfirst Hcrs]|rewrite Hr; by eexists (Error _), σ, c1]. rewrite Hfirst.
  assert (Hm : Forall (fun g => computes (fields p) (evaluateRules p σ crs (element g)) (all_hold p σ rules g)) (slice_elements v)).
  { eapply Forall_impl; [exact Hels|]. intros g [Hg Ht]. by apply (evaluateRules_spec p σ Hheap (Elem (val_type v))). }
  rewrite wrapS_small by (unfold inS; lia).
  destruct (filterSliceValue_spec p _ _ offset length _ Hm) with (c := c1) as (r & c2 & -> & Hc2 & Hr); [lia|lia|by eapply Hsize|done|].
  cbn [mbind option_bind]. destruct (matching (all_hold p σ rules) (slice_elements v)) as [ms|e] eqn:Hms;
    [|subst r; by eexists (Error _), σ, c2].
  destruct Hr as (arr & -> & Hal & Hwle & Hw & _). eexists (Ok _), _, c2. split; [reflexivity|]. split; [done|].
  exists l, v. split; [done|]. rewrite set_slice_with, Nat2Z.id, Hw.
  pose proof (window_length offset length ms ltac:(lia)). rewrite wrapU_small by (unfold inU; lia).
  split; [done|]. split; [done|]. intros Hki.
  rewrite (matching_concrete p σ (Elem (val_type v))) in Hms; [by simplify_eq|done| |done].
  eapply Forall_impl; [exact Hels|]. naive_solver.
Qed.

(** A rule and its negation, under any caches: they are rejected with
    the same error or compile together; and on every element of the slice's
    type exactly one of them matches when the selected field is reached, and
    neither when it is not. *)
Theorem negation_partitions (p : Processor) σ rl t c cn (Hheap : heap_ok σ) (Hrl : any_ok σ (RValue rl))
    (Hp : HasPrefix (strToLower unicodeLower (Type_ rl)) TypePrefixNot = false)
    (Hc : cache_ok (fields p) c) (Hcn : cache_ok (fields p) cn) :
  ∃ r c1 rn c2, compileRule p rl t c = Some (r, c1) ∧ compileRule p (negated rl) t cn = Some (rn, c2) ∧
    match r, rn with
    | Error e, Error e' => e = e'
    | Ok cr, Ok crn => ∀ g, value_ok σ g → val_type g = t →
        ∃ a b, computes (fields p) (evaluateRule p σ cr (element g)) a ∧
          computes (fields p) (evaluateRule p σ crn (element g)) b ∧
          match target p σ rl g with
          | Error e => a = Error e ∧ b = Error e
          | Ok None => a = Ok false ∧ b = Ok false
          | Ok (Some _) => ∃ x, a = Ok x ∧ b = Ok (negb x)
          end
    | _, _ => False
    end.
Proof.
  destruct (compileRule_spec p rl t c Hc) as (r & c1 & H1 & Hc1 & Hr).
  destruct (compileRule_spec p (negated rl) t cn Hcn) as (rn & c2 & H2 & Hc2 & Hrn).
  exists r, c1, rn, c2. split; [done|]. split; [done|]. pose proof (getEvaluator_negated rl Hp) as Hneg.
  assert (Herr : rule_error p t (negated rl) = rule_error p t rl).
  { unfold rule_error. cbn [negated RValue Field]. rewrite Hneg. by destruct (getEvaluator rl). }
  destruct r as [cr|e], rn as [crn|e']; [|destruct Hr; congruence|destruct Hrn; congruence|congruence].
  destruct Hr as [_ Hcr], Hrn as [_ Hcrn]. intros g Hg Ht.
  exists (rule_holds p σ rl g), (rule_holds p σ (negated rl) g).
  split; [by apply (evaluateRule_spec p σ Hheap t)|]. split; [by apply (evaluateRule_spec p σ Hheap t)|].
  unfold rule_holds. rewrite Hneg, (proj1 Hcr). cbn [result_bind]. change (target p σ (negated rl) g) with (target p σ rl g).
  destruct (target p σ rl g) as [[v|]|e] eqn:Htg; cbn [result_bind]; [|done..].
  destruct (target_ok p σ Hheap rl g v Hg Htg) as [Hv Hread].
  destruct (Evaluate_total σ (eval cr) v (getEvaluator_ok σ rl _ Hrl (proj1 Hcr)) Hv Hread) as [b Hb].
  cbn [Evaluate]. rewrite Hb. by exists b.
Qed.

End Main.

(** ** Integers in JSON rules *)

Section Numbers.
Context `{TY : Types} `{LIB : Lib} `{TOK : !TypesOk} `{DEC : Decoder} (σ : heap).

(** A JSON integer: a sign and digits. *)
Definition literal (neg : bool) (ds : gostring) : gostring := if neg then 45 :: ds else ds.
Definition literal_value (neg : bool) (ds : gostring) : Z := if neg then - decimal ds else decimal ds.

Lemma ParseInt_literal neg ds : is_digits ds →
  ParseInt (literal neg ds) = if bool_decide (inS 64 (literal_value neg ds)) then Some (literal_value neg ds) else None.
Proof.
  intros Hds. pose proof (number_value_spec ds Hds) as Hv. destruct Hds as [Hne Hds]. pose proof (decimal_nonneg ds Hds).
  unfold literal, literal_value, inS. destruct neg.
  - cbn [ParseInt]. rewrite Hv. cbn [mbind option_bind].
    destruct (Z.leb_spec (decimal ds) (2 ^ 63)); case_bool_decide; done || lia.
  - assert (Hp : ParseInt ds = n ← number_value ds; if n <? 2 ^ 63 then Some n else None).
    { destruct ds as [|b ds]; [done|]. apply Forall_cons in Hds as [Hb _]. unfold ParseInt.
      repeat (case_match; try lia); done. }
    rewrite Hp, Hv. cbn [mbind option_bind]. destruct (Z.ltb_spec (decimal ds) (2 ^ 63)); case_bool_decide; done || lia.
Qed.

(** The number that a JSON integer becomes. *)
Definition exact_any (z : Z) : any :=
  if bool_decide (inS 64 z) then Some (Val tInt64 (CInt z)) else Some (Val tUint64 (CUint z)).

Definition exact_numeric (z : Z) : numeric := if bool_decide (inS 64 z) then numericInt z else numericUint z.

Lemma exactJSONNumber_literal neg ds : is_digits ds → - 2 ^ 63 <= literal_value neg ds < 2 ^ 64 →
  exactJSONNumber (literal neg ds) = Ok (exact_any (literal_value neg ds)).
Proof.
  intros Hds Hr. unfold exactJSONNumber, exact_any. rewrite ParseInt_literal by done. case_bool_decide as Hin; [done|].
  unfold literal_value, literal, inS in *. destruct neg.
  { exfalso. pose proof (decimal_nonneg ds (proj2 Hds)). lia. }
  unfold ParseUint, ParseUintBits. rewrite number_value_spec by done. cbn [mbind option_bind]. by rewrite (proj2 (Z.ltb_lt _ _)) by lia.
Qed.

Lemma has_kind_true t c s e k ks : Kind t = k → k ∈ ks → has_kind (Some (MkR (Val t c) s e)) ks = true.
Proof. intros <- Hk. by apply has_kind_in. Qed.

Lemma toNumeric_exact z : toNumeric (exact_any z) = Some (exact_numeric z).
Proof.
  rewrite toNumericValue_ValueOf. unfold exact_any, exact_numeric. case_bool_decide;
    unfold toNumericValue; cbn [ValueOf fmap option_fmap option_map rv val_content].
  - by rewrite (has_kind_true _ _ _ _ KInt64) by (apply kind_int64 || by apply (bool_decide_unpack _)).
  - by rewrite (has_kind_true _ _ _ _ KUint64) by (apply kind_uint64 || by apply (bool_decide_unpack _)).
Qed.

Lemma newOrder_exact z : newOrder (exact_any z) = Ok (exact_numeric z).
Proof.
  unfold newOrder, convertFloatValue, convertValue. rewrite toNumeric_exact.
  cbn [ValueOf fmap option_fmap option_map rv val_content].
  by rewrite (has_kind_true _ _ _ _ KFloat64) by (apply kind_float64 || by apply (bool_decide_unpack _)).
Qed.

(** The relation of the operand to the reference that an operator decides. *)
Definition relation (t : gostring) : option (Z → Z → bool) :=
  if str_eqb t TypeEqual || str_eqb t TypeEqualFold then Some Z.eqb
  else if str_eqb t TypeLT then Some Z.ltb
  else if str_eqb t TypeLTE then Some Z.leb
  else if str_eqb t TypeGT then Some Z.gtb
  else if str_eqb t TypeGTE then Some Z.geb
  else None.

(** The integer of a numeric. *)
Definition integer (n : numeric) : option Z :=
  match n with numericInt i | numericUint i => Some i | _ => None end.

Lemma compare_integers n o i j : numeric_ok n → numeric_ok o → integer n = Some i → integer o = Some j →
  compare n o = Some (sgn i j).
Proof.
  intros Hn Ho Hi Hj. rewrite (compare_ints n o (i * 2 ^ 1074) (j * 2 ^ 1074)); [by rewrite sgn_scale|done|done|..];
    by destruct n, o; simplify_eq/=.
Qed.

Lemma order_holds_sgn op i z : order_holds op (sgn i z) =
  match op with opLT => i <? z | opLTE => i <=? z | opGT => i >? z | opGTE => i >=? z end.
Proof.
  rewrite Z.gtb_ltb, Z.geb_leb. unfold sgn.
  destruct op; destruct (Z.ltb_spec i z), (Z.ltb_spec z i), (Z.leb_spec i z), (Z.leb_spec z i); simpl; lia || done.
Qed.

Lemma toNumericValue_not_nil v n : toNumericValue v = Some n → isNilValue v = Some false.
Proof.
  destruct v as [[[t c] s e]|]; [|done]. unfold toNumericValue, isNilValue, has_kind, rkind_of. cbn [rv val_type val_content].
  destruct (bool_decide (Kind t ∈ nilable)) eqn:Hn; [|done]. intros Hc. exfalso.
  destruct c; try done; case_match; try done; kind_clash.
Qed.

Lemma getEvaluator_relation f t R r : relation t = Some R →
  let ev := getEvaluator (MkRule f t r) in
  ((ev = Ok (newEqual r) ∨ ev = Ok (newEqualFold r)) ∧ R = Z.eqb) ∨
  ∃ op, ev = (o <-? newOrder r;; Ok (Eorder op o))%go ∧ ∀ i z, R i z = order_holds op (sgn i z).
Proof.
  unfold relation, str_eqb. repeat case_bool_decide; intros; simplify_eq/=; try done.
  1,2: left; split; [first [by left|by right]|done].
  - right. exists opLT. split; [reflexivity|]. intros. by rewrite order_holds_sgn.
  - right. exists opLTE. split; [reflexivity|]. intros. by rewrite order_holds_sgn.
  - right. exists opGT. split; [reflexivity|]. intros. by rewrite order_holds_sgn.
  - right. exists opGTE. split; [reflexivity|]. intros. by rewrite order_holds_sgn.
Qed.

Lemma exact_numeric_ok z : - 2 ^ 63 <= z < 2 ^ 64 → numeric_ok (exact_numeric z) ∧ integer (exact_numeric z) = Some z.
Proof. intros Hz. unfold exact_numeric. case_bool_decide as Hi; [done|]. split; [|done]. cbn. unfold inS, inU in *. lia. Qed.

(** The two kinds of numeric evaluators on an integer operand. *)
Lemma Evaluate_integer v n i z : Value_ok σ v → toNumericValue v = Some n → integer n = Some i → - 2 ^ 63 <= z < 2 ^ 64 →
  (∀ op, Evaluate σ (Eorder op (exact_numeric z)) v = Some (order_holds op (sgn i z))) ∧
  Evaluate σ (newEqual (exact_any z)) v = Some (i =? z) ∧ Evaluate σ (newEqualFold (exact_any z)) v = Some (i =? z).
Proof.
  intros Hv Hn Hi Hz. destruct (toNumericValue_ok σ v n Hv Hn) as [Hok _], (exact_numeric_ok z Hz) as [Hzok Hzi].
  assert (Heq : equals (exact_numeric z) n = (i =? z)).
  { unfold equals. rewrite (compare_integers _ _ z i) by done. unfold sgn.
    destruct (Z.ltb_spec z i), (Z.ltb_spec i z), (Z.eqb_spec i z); simpl; lia || done. }
  split; [|unfold newEqual, newEqualFold; cbn [Evaluate]; unfold equal_Evaluate, equalFold_Evaluate, evaluate_equal; by rewrite toNumeric_exact, Hn, Heq].
  intros op. rewrite Evaluate_order. unfold order_compare. rewrite (toNumericValue_not_nil v n Hn). cbn [mbind option_bind].
  by rewrite Hn, (compare_integers _ _ i z).
Qed.

(** Integers survive JSON exactly, well beyond the 53 bits of a float. A
    rule object whose value is an integer literal of 64 bits, signed or
    unsigned, with a numeric operator, is accepted and compiles; and on every
    integer operand, whatever its width and signedness, its evaluator decides
    the mathematical relation between the operand and the literal. *)
Theorem json_integer_exact f t R neg ds (Hds : is_digits ds) (Hz : - 2 ^ 63 <= literal_value neg ds < 2 ^ 64)
    (Ht : relation t = Some R) :
  ∃ rl ev, rule (MkRaw (Some f) (Some t) (Some (JNumber (literal neg ds)))) = Ok rl ∧ Field rl = f ∧
    getEvaluator rl = Ok ev ∧
    ∀ v n i, Value_ok σ v → toNumericValue v = Some n → integer n = Some i →
      Evaluate σ ev v = Some (R i (literal_value neg ds)).
Proof.
  set (z := literal_value neg ds) in *. exists (MkRule f t (exact_any z)).
  destruct (getEvaluator_relation f t R (exact_any z) Ht) as [[Hev HR]|(op & Hev & HR)].
  - assert (Hor : ∃ ev, getEvaluator (MkRule f t (exact_any z)) = Ok ev ∧ (ev = newEqual (exact_any z) ∨ ev = newEqualFold (exact_any z))).
    { destruct Hev as [-> | ->]; eauto. }
    destruct Hor as (ev & Hget & Hor). exists ev. split; [unfold rule; cbn; by rewrite exactJSONNumber_literal|].
    split; [done|]. split; [done|]. intros v n i Hv Hn Hi. subst R.
    destruct (Evaluate_integer v n i z Hv Hn Hi Hz) as (_ & ? & ?). by destruct Hor as [-> | ->].
  - rewrite newOrder_exact in Hev. exists (Eorder op (exact_numeric z)).
    split; [unfold rule; cbn; by rewrite exactJSONNumber_literal|]. split; [done|]. split; [done|].
    intros v n i Hv Hn Hi. rewrite HR. by apply (Evaluate_integer v n i z Hv Hn Hi Hz).
Qed.

End Numbers.

(** ** Limits of a processor *)

Definition limits_ok (p : Processor) : Prop :=
  1 <= maxRules p ∧ 1 <= maxResults p <= MaxResults ∧ 1 <= maxValueLen p ∧ 1 <= maxFilterBytes p ∧
  1 <= maxDepth (fields p) ∧ urlQueryFilterKey p ≠ [].

(** An option that keeps the limits. *)
Definition keeps_limits (opt : ProcOption) : Prop := ∀ p q, limits_ok p → opt p = Ok q → limits_ok q.

Lemma options_keep_limits :
  (∀ tag, keeps_limits (WithFieldNameTag tag)) ∧ (∀ key, keeps_limits (WithQueryFilterKey key)) ∧
  (∀ n, keeps_limits (WithMaxRules n)) ∧ (∀ n, keeps_limits (WithMaxResults n)) ∧
  (∀ n, keeps_limits (WithMaxValueLength n)) ∧ (∀ n, keeps_limits (WithMaxFilterBytes n)) ∧
  (∀ n, keeps_limits (WithMaxFieldDepth n)).
Proof.
  unfold keeps_limits, limits_ok, WithFieldNameTag, WithQueryFilterKey, WithMaxRules, WithMaxResults,
    WithMaxValueLength, WithMaxFilterBytes, WithMaxFieldDepth, str_eqb.
  split_and!; intros x p q (? & ? & ? & ? & ? & ?);
    repeat match goal with
      | |- context [bool_decide _] => case_bool_decide
      | |- context [?a <? ?b] => destruct (Z.ltb_spec a b)
      end; intros Hq; first [discriminate Hq|injection Hq as <-]; cbn [fields maxRules maxResults maxValueLen maxFilterBytes urlQueryFilterKey maxDepth fieldTag];
    split_and!; first [assumption|lia].
Qed.

Lemma New_limits opts p : Forall keeps_limits opts → New opts = Ok p → limits_ok p.
Proof.
  assert (Hdef : limits_ok defaultProcessor).
  { split_and!; by vm_compute. } unfold New. revert Hdef. generalize defaultProcessor as q.
  induction opts as [|opt opts IH]; intros q Hq Hopts Hp; cbn [apply_options] in Hp; [by simplify_eq|].
  apply Forall_cons in Hopts as [Ho Hopts]. destruct (opt q) as [q'|] eqn:Hoq; [|done]. cbn [result_bind] in Hp.
  apply (IH q'); [by eapply Ho|done|done].
Qed.

(** ** A concrete instance

    The slice [people] of structs [{Name string; Age int64}] behind a
    pointer. *)

Module People.

Definition nameField : StructField := MkField (str "Name") [] false 3 (fun _ => []) [0%nat].
Definition ageField : StructField := MkField (str "Age") [] false 4 (fun _ => []) [1%nat].

#[global] Instance types : Types := {|
  Kind := fun t => match t with
    | 0 => KStruct | 1 => KSlice | 2 => KPointer | 3 => KString | 4 => KInt64 | 5 => KFloat64 | 6 => KUint64
    | _ => KBool
    end%N;
  Elem := fun t => if (t =? 1)%N then 0%N else 1%N;
  Fields := fun t => if (t =? 0)%N then [nameField; ageField] else [];
  FieldByName := fun t n =>
    if (t =? 0)%N then
      if str_eqb n (str "Name") then Some nameField else if str_eqb n (str "Age") then Some ageField else None
    else None;
  VisibleFields := fun t => if (t =? 0)%N then [nameField; ageField] else [];
  Comparable := fun t => negb (t =? 1)%N;
  predeclared := fun t => (2 <? t)%N;
  tFloat64 := 5; tString := 3; tInt64 := 4; tUint64 := 6; tBool := 7
|}.

#[global] Instance lib : Lib := {|
  regexp := gostring; Compile := Some; MatchString := fun r s => Contains s r; EqualFold := str_eqb;
  unicodeLower := fun r => r; DeepEqual := fun _ _ _ => false
|}.

Lemma people_leads t f : f ∈ (if (t =? 0)%N then [nameField; ageField] else []) → leads t (Index f) f.
Proof.
  destruct (N.eqb_spec t 0) as [->|]; [|by intros ?%not_elem_of_nil].
  intros [-> |[-> |[]%not_elem_of_nil]%elem_of_cons]%elem_of_cons; (split; [done|]); by eexists.
Qed.

#[global] Instance types_ok : TypesOk.
Proof.
  split; try done.
  - intros t n f _ Hf. apply people_leads. cbn in Hf. destruct (t =? 0)%N; [|done].
    repeat case_match; simplify_eq; rewrite !elem_of_cons; auto.
  - intros t f _ Hf. by apply people_leads.
Qed.

Definition person (n : gostring) (age : Z) : gval := Val 0 (CStruct [Val 3 (CString n); Val 4 (CInt age)]).
Definition people : list gval := [person (str "ann") 7; person (str "bob") 2; person (str "cy") 5].
Definition σ : gmap N gval := {[ 9%N := Val 1 (CSlice (Some people)) ]}.
Definition slicePtr : option gval := Some (Val 2 (CPtr (Some 9%N))).
Definition p : Processor := defaultProcessor.
Definition c : fieldCache := MkCache ∅ 0 0.

(** [Age > 4]. *)
Definition older : Rule := MkRule (str "Age") (str ">") (Some (Val 4 (CInt 4))).

Lemma person_ok n age : inS 64 age → value_ok σ (person n age).
Proof.
  intros Ha. constructor. constructor; [done|]. cbn. constructor; [|constructor; [|constructor]]; (split; [done|]);
    constructor; constructor; try done. by apply (bool_decide_unpack _).
Qed.

Lemma heap_is_ok : heap_ok σ.
Proof.
  intros l v Hv. unfold σ in Hv. apply lookup_singleton_Some in Hv as [_ <-]. constructor. constructor; [done|].
  unfold people. repeat (apply Forall_cons; split; [split; [done|by apply person_ok]|]). done.
Qed.

Lemma four_ok : any_ok σ (RValue older).
Proof. split; [|done]. constructor. constructor; [|done]. by apply (bool_decide_unpack _). Qed.

Lemma call_is_ok : call_ok p σ [[older]] slicePtr 1.
Proof.
  split; [apply Forall_singleton, Forall_singleton, four_ok|]. split.
  { split; [|done]. constructor. by apply (ok_ptr _ _ 9 (Val 1 (CSlice (Some people)))). }
  split; [done|]. split; [done|]. intros l v Hv. vm_compute in Hv. by simplify_eq.
Qed.

Lemma cache_is_ok : cache_ok (fields p) c.
Proof. by apply empty_cache_ok. Qed.

End People.

Lemma ApplySubset_refines_witness :
  heap_ok People.σ ∧ call_ok People.p People.σ [[People.older]] People.slicePtr 1 ∧ cache_ok (fields People.p) People.c ∧
  ∃ r σ' c', ApplySubset People.p [[People.older]] People.slicePtr 1 10 People.σ People.c = Some (r, σ', c') ∧
    r = Ok (1, 2) ∧ σ' !! 9%N = Some (Val 1 (CSlice (Some [People.person (str "cy") 5]))).
Proof.
  split; [apply People.heap_is_ok|]. split; [apply People.call_is_ok|]. split; [apply People.cache_is_ok|].
  destruct (ApplySubset_refines People.p People.σ [[People.older]] People.slicePtr 1 10 People.c
    People.heap_is_ok People.call_is_ok People.cache_is_ok) as (r & σ' & c' & Hr & _ & Hm).
  exists r, σ', c'. split; [exact Hr|]. vm_compute in Hr. injection Hr as <- <- _. by vm_compute.
Defined.

Lemma negation_partitions_witness :
  heap_ok People.σ ∧ any_ok People.σ (RValue People.older) ∧
  HasPrefix (strToLower unicodeLower (Type_ People.older)) TypePrefixNot = false ∧ cache_ok (fields People.p) People.c ∧
  ∃ r c1 rn c2, compileRule People.p People.older 0 People.c = Some (r, c1) ∧
    compileRule People.p (negated People.older) 0 People.c = Some (rn, c2).
Proof.
  split; [apply People.heap_is_ok|]. split; [apply People.four_ok|]. split; [done|]. split; [apply People.cache_is_ok|].
  destruct (negation_partitions People.p People.σ People.older 0 People.c People.c People.heap_is_ok People.four_ok
    eq_refl People.cache_is_ok People.cache_is_ok) as (r & c1 & rn & c2 & H1 & H2 & _). by exists r, c1, rn, c2.
Defined.

Lemma json_integer_exact_witness :
  is_digits (str "9007199254740993") ∧ relation (str "==") = Some Z.eqb ∧
  ∃ rl ev, getEvaluator rl = Ok ev ∧
    Evaluate People.σ ev (ValueOf (Some (Val 4 (CInt 9007199254740992)))) = Some false.
Proof.
  assert (Hd : is_digits (str "9007199254740993")) by (split; [done|]; by apply (bool_decide_unpack _)).
  split; [exact Hd|]. split; [done|].
  destruct (json_integer_exact (DEC := Build_Decoder (fun _ => None) (fun _ => None)) People.σ (str "Age") (str "==") Z.eqb false
    (str "9007199254740993") Hd ltac:(by vm_compute) eq_refl) as (rl & ev & _ & _ & Hev & Hall).
  exists rl, ev. split; [exact Hev|]. rewrite (Hall _ (numericInt 9007199254740992) 9007199254740992); [by vm_compute| |done|done].
  constructor. constructor; [by apply (bool_decide_unpack _)|done].
Defined.
