(* ===== verification/Keypad.v ===== *)
(** * [pkg/phonekeypad]: ITU E.161 keypad digits *)

From stdpp Require Import base option list.
From Stdlib Require Import String.
From S2P Require Import Prelude GoString.

#[local] Open Scope Z_scope.

(** [r] is one of the runes of the literal. *)
Definition one_of (r : Z) (s : String.string) : bool := existsb (Z.eqb r) (str s).

Definition keypadAlphaToDigit (r : Z) : Z * bool :=
  if one_of r "ABC" then (2, true)
  else if one_of r "DEF" then (3, true)
  else if one_of r "GHI" then (4, true)
  else if one_of r "JKL" then (5, true)
  else if one_of r "MNO" then (6, true)
  else if one_of r "PQRS" then (7, true)
  else if one_of r "TUV" then (8, true)
  else if one_of r "WXYZ" then (9, true)
  else (-1, false).

(** A rune is an int32: no operation below leaves its range. *)
Definition KeypadDigit (r : Z) : Z * bool :=
  if (48 <=? r) && (r <=? 57) then (r - 48, true)
  else
    let r := if (97 <=? r) && (r <=? 122) then r - (97 - 65) else r in
    keypadAlphaToDigit r.

Fixpoint KeypadNumber_loop (rs : list Z) (seq : list Z) : list Z :=
  match rs with
  | [] => seq
  | r :: rs =>
      let '(v, status) := KeypadDigit r in
      KeypadNumber_loop rs (if status : bool then seq ++ [v] else seq)
  end.

Definition KeypadNumber (num : gostring) : list Z := KeypadNumber_loop (runes num) [].

Fixpoint KeypadNumberString_loop (rs : list Z) (sb : gostring) : gostring :=
  match rs with
  | [] => sb
  | r :: rs =>
      let '(v, status) := KeypadDigit r in
      KeypadNumberString_loop rs (if status : bool then sb ++ [wrapU 8 (48 + v)] else sb)
  end.

Definition KeypadNumberString (num : gostring) : gostring := KeypadNumberString_loop (runes num) [].

(** ** Facts *)

(** The digit of a rune, if it has one. *)
Definition keyDigit (r : Z) : option Z :=
  match KeypadDigit r with (v, true) => Some v | _ => None end.

(** The dialable digits of a string. *)
Definition digits (num : gostring) : list Z := omap keyDigit (runes num).

Lemma keypadAlpha_cases r : keypadAlphaToDigit r = (-1, false) ∨
  ∃ d, keypadAlphaToDigit r = (d, true) ∧ 2 <= d <= 9 ∧ 65 <= r <= 90.
Proof.
  unfold keypadAlphaToDigit, one_of, str.
  repeat match goal with
    | |- context [if existsb ?f ?l then _ else _] =>
        let E := fresh "E" in destruct (existsb f l) eqn:E;
        [right; eexists; split; [reflexivity|]; split; [lia|];
         apply existsb_exists in E as (x & Hx & He); apply Z.eqb_eq in He; subst x;
         simpl in Hx; lia|clear E]
    end. by left.
Qed.

(** A digit is a keypad digit, and only ASCII digits and letters have one. *)
Lemma keyDigit_spec r d : keyDigit r = Some d → 0 <= d <= 9 ∧ r < 128.
Proof.
  unfold keyDigit, KeypadDigit.
  destruct (Z.leb_spec 48 r), (Z.leb_spec r 57); simpl; intros Hd; simplify_eq; try lia;
    destruct (Z.leb_spec 97 r), (Z.leb_spec r 122); simpl in Hd;
    match type of Hd with context [keypadAlphaToDigit ?x] =>
      destruct (keypadAlpha_cases x) as [Ha|(? & Ha & ? & ?)]; rewrite Ha in Hd end; simplify_eq; lia.
Qed.

Lemma keyDigit_nonascii r : 128 <= r → keyDigit r = None.
Proof. intros Hr. destruct (keyDigit r) as [d|] eqn:Hd; [|done]. apply keyDigit_spec in Hd. lia. Qed.

Lemma keyDigit_digit d : 0 <= d <= 9 → keyDigit (48 + d) = Some d.
Proof.
  intros Hd. unfold keyDigit, KeypadDigit. rewrite (proj2 (Z.leb_le _ _)), (proj2 (Z.leb_le _ _)) by lia.
  simpl. f_equal. lia.
Qed.

Lemma KeypadDigit_keyDigit r : KeypadDigit r = (default (-1) (keyDigit r), bool_decide (is_Some (keyDigit r))).
Proof.
  unfold keyDigit, KeypadDigit. destruct (_ && _); [done|].
  match goal with |- context [keypadAlphaToDigit ?x] =>
    destruct (keypadAlpha_cases x) as [Ha|(? & Ha & ? & ?)]; rewrite Ha end; [|done].
  by rewrite bool_decide_eq_false_2 by (by intros [? ?]).
Qed.

(** Separators do not matter, whatever bytes they are made of. *)
Lemma digits_bytes s : digits s = omap keyDigit s.
Proof. apply runes_omap, keyDigit_nonascii. Qed.

Lemma digits_range s : List.Forall (fun d => 0 <= d <= 9) (digits s).
Proof.
  unfold digits. apply List.Forall_forall. intros d Hd. apply list_elem_of_In, list_elem_of_omap in Hd.
  destruct Hd as (r & _ & Hr). by destruct (keyDigit_spec _ _ Hr).
Qed.

Lemma KeypadNumber_digits s : KeypadNumber s = digits s.
Proof.
  unfold KeypadNumber, digits. rewrite <- (app_nil_l (omap _ _)). generalize (@nil Z).
  induction (runes s) as [|r rs IH]; intros seq; simpl; [by rewrite app_nil_r|].
  rewrite KeypadDigit_keyDigit. destruct (keyDigit r); rewrite IH; simpl; [by rewrite <- app_assoc|done].
Qed.

Lemma KeypadNumberString_digits s : KeypadNumberString s = (fun d => 48 + d) <$> digits s.
Proof.
  unfold KeypadNumberString, digits. rewrite <- (app_nil_l (_ <$> _)). generalize (@nil Z).
  induction (runes s) as [|r rs IH]; intros sb; simpl; [by rewrite app_nil_r|].
  rewrite KeypadDigit_keyDigit. destruct (keyDigit r) as [d|] eqn:Hd; rewrite IH; simpl; [|done].
  rewrite <- app_assoc. simpl. apply keyDigit_spec in Hd. by rewrite wrapU_small by (unfold inU; lia).
Qed.

Lemma digits_ascii ds : List.Forall (fun d => 0 <= d <= 9) ds → digits ((fun d => 48 + d) <$> ds) = ds.
Proof.
  rewrite digits_bytes. induction 1 as [|d ds Hd _ IH]; [done|]. cbn [fmap list_fmap omap list_omap].
  change (list_fmap _ _ (fun d => 48 + d) ds) with ((fun d => 48 + d) <$> ds).
  by rewrite keyDigit_digit, IH.
Qed.

(** Normalising a number keeps exactly its keypad digits, all between 0
    and 9, in order, the string form spelling the numeric one; it looks
    through UTF-8 separators and malformed bytes alike, and normalising a
    normalised number changes nothing. *)
Theorem KeypadNumberString_correct (num : gostring) :
  KeypadNumberString num = (fun d => 48 + d) <$> KeypadNumber num ∧
  KeypadNumber num = omap keyDigit num ∧
  List.Forall (fun d => 0 <= d <= 9) (KeypadNumber num) ∧
  KeypadNumber (KeypadNumberString num) = KeypadNumber num ∧
  KeypadNumberString (KeypadNumberString num) = KeypadNumberString num.
Proof.
  pose proof (digits_range num) as Hr.
  rewrite !KeypadNumberString_digits, !KeypadNumber_digits, (digits_ascii _ Hr).
  split; [done|]. split; [apply digits_bytes|done].
Qed.

Example keypad_vanity : KeypadNumberString (str "1-800-EXAMPLE") = str "18003926753".
Proof. reflexivity. Qed.
