(* ===== verification/NumTrie.v ===== *)
(** * [pkg/numtrie]: a trie on keypad digits with longest-prefix search

    numtrie.go. A node is reached from its parent only, so the mutable tree
    of the code is a value and [Add] returns the new one. An index out of the
    children array's range is [None] (a panic). The second half shows that a
    trie implements a finite map from digit sequences, through the interface
    [PrefixIndex] that other components are proved against. *)

From stdpp Require Import base option list gmap.
From S2P Require Import Prelude GoString Keypad.

#[local] Open Scope Z_scope.

(** [typeutil.BoolToNum]. *)
Definition BoolToNum (b : bool) : Z := if b then 1 else 0.

Definition StatusMatchEmpty : Z := -127.
Definition StatusMatchNo : Z := -125.
Definition StatusMatchFull : Z := 0.
Definition StatusMatchPartial : Z := 1.
Definition StatusMatchPrefix : Z := 2.
Definition StatusMatchPartialPrefix : Z := 3.

Definition indexSize : nat := 10.

Inductive node (T : Type) : Type :=
| Node (value : option T) (numChildren : Z) (children : list (option (node T))).
Arguments Node {T} _ _ _.

Section NumTrie.
Context {T : Type}.
Implicit Types (n c : node T) (val : option T).

Definition value n : option T := let '(Node v _ _) := n in v.
Definition numChildren n : Z := let '(Node _ k _) := n in k.
Definition children n : list (option (node T)) := let '(Node _ _ cs) := n in cs.

Definition New : node T := Node None 0 (replicate indexSize None).

(** [node.children[i]]. *)
Definition child n (i : Z) : option (option (node T)) :=
  if 0 <=? i then children n !! Z.to_nat i else None.

Fixpoint Add_loop n (rs : list Z) (val : option T) : option (bool * node T) :=
  match rs with
  | [] => Some (match value n with None => true | Some _ => false end, Node val (numChildren n) (children n))
  | v :: rs =>
      let '(i, ok) := KeypadDigit v in
      if negb ok then Add_loop n rs val
      else
        slot ← child n i;
        let '(c, k) := match slot with
                       | None => (New, numChildren n + 1)
                       | Some c => (c, numChildren n)
                       end in
        r ← Add_loop c rs val;
        Some (r.1, Node (value n) k (<[Z.to_nat i := Some r.2]> (children n)))
  end.

(** [Add]; a nil pointer is [None]. *)
Definition Add n (num : gostring) (val : option T) : option (bool * node T) :=
  match val with
  | None => Some (false, n)
  | Some _ => Add_loop n (runes num) val
  end.

Fixpoint Get_loop n val (match_ digit : Z) (rs : list Z) : option (node T * option T * Z * Z) :=
  match rs with
  | [] => Some (n, val, match_, digit)
  | v :: rs =>
      let '(i, ok) := KeypadDigit v in
      if negb ok then Get_loop n val match_ digit rs
      else
        let digit := digit + 1 in
        slot ← child n i;
        match slot with
        | None => Some (n, val, match_, digit)
        | Some n =>
            Get_loop n (match value n with Some x => Some x | None => val end) (match_ + 1) digit rs
        end
  end.

Definition matchStatus n (match_ digit : Z) : Z :=
  if match_ =? 0 then
    if digit =? 0 then StatusMatchEmpty else StatusMatchNo
  else Z.lor (wrapS 8 (Z.shiftl (BoolToNum (match_ <? digit)) 1)) (BoolToNum (0 <? numChildren n)).

Definition Get n (num : gostring) : option (option T * Z) :=
  r ← Get_loop n (value n) 0 0 (runes num);
  let '(n', val, match_, digit) := r in
  let status := matchStatus n' match_ digit in
  Some (if match_ =? 0 then (None, status) else (val, status)).

Fixpoint GetExact_loop n (rs : list Z) : option (option T) :=
  match rs with
  | [] => Some (value n)
  | v :: rs =>
      let '(i, ok) := KeypadDigit v in
      if negb ok then GetExact_loop n rs
      else
        slot ← child n i;
        match slot with
        | None => Some None
        | Some n => GetExact_loop n rs
        end
  end.

Definition GetExact n (num : gostring) : option (option T) := GetExact_loop n (runes num).

(** ** Well-formed tries *)

Fixpoint descend n (ds : list Z) : option (node T) :=
  match ds with
  | [] => Some n
  | d :: ds => match child n d with Some (Some c) => descend c ds | _ => None end
  end.

Definition value_at n (ds : list Z) : option T := descend n ds ≫= value.

Definition count (cs : list (option (node T))) : Z := Z.of_nat (length (omap id cs)).

(** Ten slots, a right count of children, and a value below every child. *)
Inductive wf : node T → Prop :=
| wf_node v k cs :
    length cs = indexSize → k = count cs →
    (∀ i c, cs !! i = Some (Some c) → wf c) →
    (∀ i c, cs !! i = Some (Some c) → ∃ ds x, value_at c ds = Some x) →
    wf (Node v k cs).

Definition keypad (d : Z) : Prop := 0 <= d <= 9.

Lemma New_wf : wf New.
Proof.
  constructor; [by rewrite length_replicate|done|..]; intros i c [Hc _]%lookup_replicate; done.
Qed.

Lemma value_at_New ds : value_at New ds = None.
Proof.
  unfold value_at. destruct ds as [|d ds]; [done|]. simpl. unfold child.
  destruct (0 <=? d); [|done]. destruct (children New !! Z.to_nat d) as [[c|]|] eqn:Hc; [|done..].
  by apply lookup_replicate in Hc as [? _].
Qed.

Lemma child_wf n d : wf n → keypad d → ∃ s, child n d = Some s.
Proof.
  intros [v k cs Hl _ _ _] Hd. unfold child, keypad in *.
  rewrite (proj2 (Z.leb_le _ _)) by lia. apply lookup_lt_is_Some. simpl. rewrite Hl. unfold indexSize. lia.
Qed.

Lemma child_some n d c : wf n → child n d = Some (Some c) → wf c ∧ ∃ ds x, value_at c ds = Some x.
Proof.
  intros [v k cs _ _ Hwf Hlive] Hc. unfold child in Hc. destruct (0 <=? d); [|done]. simpl in Hc. eauto.
Qed.

Lemma descend_app n p q : descend n (p ++ q) = descend n p ≫= (fun n' => descend n' q).
Proof.
  revert n. induction p as [|d p IH]; intros n; [done|]. simpl.
  destruct (child n d) as [[c|]|]; [apply IH|done..].
Qed.

Lemma descend_wf n p n' : wf n → descend n p = Some n' → wf n'.
Proof.
  revert n. induction p as [|d p IH]; intros n Hn Hd; simpl in Hd; [by simplify_eq|].
  destruct (child n d) as [[c|]|] eqn:Hc; [|done..]. apply (IH c); [|done]. by apply (child_some n d).
Qed.

(** A node other than the root lies on the path to a value. *)
Lemma descend_live n p n' : wf n → p ≠ [] → descend n p = Some n' →
  ∃ ds x, value_at n' ds = Some x.
Proof.
  revert n. induction p as [|d p IH]; intros n Hn Hp Hd; [done|]. simpl in Hd.
  destruct (child n d) as [[c|]|] eqn:Hc; [|done..]. destruct (child_some _ _ _ Hn Hc) as [Hcw Hlive].
  destruct p as [|d' p]; [simpl in Hd; by simplify_eq|]. by apply (IH c).
Qed.

Lemma count_insert (cs : list (option (node T))) i s c :
  cs !! i = Some s → count (<[i := Some c]> cs) = count cs + (match s with Some _ => 0 | None => 1 end).
Proof.
  intros Hi. pose proof (lookup_lt_Some _ _ _ Hi) as Hlt. unfold count.
  rewrite insert_take_drop by done.
  assert (Hcs : cs = take i cs ++ s :: drop (S i) cs) by (by rewrite take_drop_middle).
  rewrite Hcs at 3.
  rewrite !omap_app, !length_app. cbn [omap list_omap id]. destruct s; simpl; lia.
Qed.

Lemma count_pos (cs : list (option (node T))) :
  0 < count cs ↔ ∃ i c, cs !! i = Some (Some c).
Proof.
  unfold count. split.
  - intros Hpos. destruct (omap id cs) as [|c l] eqn:Ho; [simpl in Hpos; lia|].
    assert (Hc : c ∈ omap id cs) by (rewrite Ho; left).
    apply list_elem_of_omap in Hc as (s & Hs & Hid). simpl in Hid. subst s.
    apply list_elem_of_lookup in Hs as [i Hi]. by exists i, c.
  - intros (i & c & Hi). assert (Hc : c ∈ omap id cs).
    { apply list_elem_of_omap. exists (Some c). split; [by eapply list_elem_of_lookup_2|done]. }
    destruct (omap id cs); [by apply not_elem_of_nil in Hc|simpl; lia].
Qed.

(** ** The operations *)

Lemma KeypadDigit_cases v :
  (∃ d, KeypadDigit v = (d, true) ∧ keyDigit v = Some d ∧ keypad d) ∨
  (∃ d, KeypadDigit v = (d, false) ∧ keyDigit v = None).
Proof.
  destruct (keyDigit v) as [d|] eqn:Hd; rewrite KeypadDigit_keyDigit, Hd; simpl.
  - left. exists d. split; [done|]. split; [done|]. by destruct (keyDigit_spec _ _ Hd).
  - right. by exists (-1).
Qed.

Lemma value_at_insert n d k c' ds :
  wf n → keypad d →
  value_at (Node (value n) k (<[Z.to_nat d := Some c']> (children n))) ds =
    match ds with
    | [] => value n
    | d' :: ds' => if decide (d' = d) then value_at c' ds' else value_at n ds
    end.
Proof.
  intros Hn Hd. destruct ds as [|d' ds]; [done|]. unfold value_at. simpl. unfold child; simpl.
  destruct Hn as [v k0 cs Hl _ _ _]. unfold keypad in Hd. simpl.
  destruct (decide (d' = d)) as [->|Hne].
  - rewrite (proj2 (Z.leb_le _ _)) by lia.
    rewrite list_lookup_insert_eq by (rewrite Hl; unfold indexSize; lia). done.
  - destruct (Z.leb_spec 0 d'); [|done]. rewrite list_lookup_insert_ne by lia. done.
Qed.

Lemma Add_loop_spec x rs : ∀ n, wf n →
  ∃ n', Add_loop n rs (Some x) = Some (bool_decide (value_at n (omap keyDigit rs) = None), n') ∧ wf n' ∧
    ∀ ds, value_at n' ds = if decide (ds = omap keyDigit rs) then Some x else value_at n ds.
Proof.
  induction rs as [|v rs IH]; intros n Hn; cbn [Add_loop omap list_omap].
  { eexists. split; [|split].
    - unfold value_at; simpl. destruct (value n); reflexivity.
    - destruct Hn. by constructor.
    - intros ds. destruct (decide (ds = [])) as [->|Hne]; [done|]. by destruct ds. }
  destruct (KeypadDigit_cases v) as [(d & -> & -> & Hd)|(d & -> & ->)]; simpl negb; cbv iota; [|by apply IH].
  change (list_omap Z Z keyDigit rs) with (omap keyDigit rs).
  destruct (child_wf n d Hn Hd) as [slot Hslot]. rewrite Hslot. cbn [mbind option_bind].
  set (c := match slot with None => New | Some c => c end).
  assert (Hc : wf c ∧ ∀ ds, value_at n (d :: ds) = value_at c ds).
  { subst c. unfold value_at. simpl. rewrite Hslot. destruct slot as [c|].
    - split; [by apply (child_some n d)|done].
    - split; [apply New_wf|]. intros ds. symmetry. apply value_at_New. }
  destruct Hc as [Hcw Hcv]. destruct (IH c Hcw) as (c' & Ha & Hc'w & Hc'v).
  set (k := match slot with None => numChildren n + 1 | Some _ => numChildren n end).
  exists (Node (value n) k (<[Z.to_nat d := Some c']> (children n))).
  split; [|split].
  - assert (Hck : match slot with None => (New, numChildren n + 1) | Some c => (c, numChildren n) end = (c, k))
      by (by destruct slot).
    rewrite Hck, Ha. simpl. by rewrite Hcv.
  - assert (Hsl : children n !! Z.to_nat d = Some slot).
    { unfold child in Hslot. by destruct (0 <=? d). }
    destruct Hn as [v0 k0 cs Hl Hk Hwf Hlive]. cbn [children numChildren value] in *. constructor.
    + by rewrite length_insert.
    + rewrite (count_insert _ _ _ _ Hsl). subst k k0. destruct slot; lia.
    + intros i c0 Hi. apply list_lookup_insert_Some in Hi as [(_ & ? & _)|[_ Hi]]; [by simplify_eq|eauto].
    + intros i c0 Hi. apply list_lookup_insert_Some in Hi as [(_ & ? & _)|[_ Hi]]; [simplify_eq|eauto].
      exists (omap keyDigit rs), x. by rewrite Hc'v, decide_True.
  - intros ds. rewrite value_at_insert by done. destruct ds as [|d' ds]; [done|].
    destruct (decide (d' = d)) as [->|Hne].
    + rewrite Hc'v, Hcv. destruct (decide (ds = omap keyDigit rs)) as [->|Hne'];
        [by rewrite decide_True|rewrite decide_False by congruence; done].
    + rewrite (decide_False (P := d' :: ds = _)) by congruence. done.
Qed.

Lemma GetExact_loop_spec rs : ∀ n, wf n → GetExact_loop n rs = Some (value_at n (omap keyDigit rs)).
Proof.
  induction rs as [|v rs IH]; intros n Hn; cbn [GetExact_loop omap list_omap]; [done|].
  destruct (KeypadDigit_cases v) as [(d & -> & -> & Hd)|(d & -> & ->)]; simpl negb; cbv iota; [|by apply IH].
  destruct (child_wf n d Hn Hd) as [slot Hslot]. rewrite Hslot. cbn [mbind option_bind].
  unfold value_at; simpl. rewrite Hslot. destruct slot as [c|]; [|done].
  apply IH. by apply (child_some n d).
Qed.

(** The last value met on the way down, [val] before. *)
Fixpoint last_value n (ds : list Z) val : option T :=
  match ds with
  | [] => val
  | d :: ds =>
      match child n d with
      | Some (Some c) => last_value c ds (match value c with Some x => Some x | None => val end)
      | _ => val
      end
  end.

(** A walk stops where the digits end or no child bears the next one. *)
Lemma Get_loop_spec rs : ∀ n val k g, wf n →
  ∃ p q n', omap keyDigit rs = p ++ q ∧ descend n p = Some n' ∧
    (∀ d q', q = d :: q' → child n' d = Some None) ∧
    Get_loop n val k g rs = Some (n', last_value n p val, k + Z.of_nat (length p),
      g + Z.of_nat (length p) + match q with [] => 0 | _ => 1 end).
Proof.
  induction rs as [|v rs IH]; intros n val k g Hn; cbn [Get_loop omap list_omap].
  { exists [], [], n. split; [done|]. split; [done|]. split; [done|]. simpl. by rewrite !Z.add_0_r. }
  destruct (KeypadDigit_cases v) as [(d & -> & -> & Hd)|(d & -> & ->)]; simpl negb; cbv iota; [|by apply IH].
  change (list_omap Z Z keyDigit rs) with (omap keyDigit rs).
  destruct (child_wf n d Hn Hd) as [slot Hslot]. rewrite Hslot. cbn [mbind option_bind].
  destruct slot as [c|].
  - destruct (child_some n d c Hn Hslot) as [Hc _].
    destruct (IH c (match value c with Some x => Some x | None => val end) (k + 1) (g + 1) Hc)
      as (p & q & n' & Ho & Hdesc & Hstop & Hg).
    exists (d :: p), q, n'. split; [by rewrite Ho|]. split; [simpl; by rewrite Hslot|]. split; [done|].
    rewrite Hg. simpl. rewrite Hslot.
    replace (k + 1 + Z.of_nat (length p)) with (k + Z.of_nat (S (length p))) by lia.
    by replace (g + 1 + Z.of_nat (length p)) with (g + Z.of_nat (S (length p))) by lia.
  - exists [], (d :: omap keyDigit rs), n. split; [done|]. split; [done|].
    split; [intros ? ? [= <- <-]; done|]. simpl. by rewrite !Z.add_0_r.
Qed.

(** ** The finite map a trie implements *)

Definition represents n (m : gmap (list Z) T) : Prop :=
  wf n ∧ ∀ ds, value_at n ds = m !! ds.

(** The value of the longest key that is a prefix of [p]. *)
Definition longest_match (m : gmap (list Z) T) (p : list Z) (r : option T) : Prop :=
  match r with
  | Some x => ∃ q, q `prefix_of` p ∧ m !! q = Some x ∧
      ∀ q', q' `prefix_of` p → is_Some (m !! q') → q' `prefix_of` q
  | None => ∀ q, q `prefix_of` p → m !! q = None
  end.

(** [p] is a prefix of a key: there is a path for it. *)
Definition on_path (m : gmap (list Z) T) (p : list Z) : Prop :=
  p = [] ∨ ∃ ks, p `prefix_of` ks ∧ is_Some (m !! ks).

Definition extended (m : gmap (list Z) T) (p : list Z) : Prop :=
  ∃ ks, p `prefix_of` ks ∧ ks ≠ p ∧ is_Some (m !! ks).

(** What [Get] returns for the digits [ds], [p] being their longest prefix
    that is on a path. *)
Definition get_spec (m : gmap (list Z) T) (ds : list Z) (r : option T) (status : Z) : Prop :=
  ∃ p, p `prefix_of` ds ∧ on_path m p ∧ (∀ q, q `prefix_of` ds → on_path m q → q `prefix_of` p) ∧
    match p with
    | [] => r = None ∧ status = match ds with [] => StatusMatchEmpty | _ => StatusMatchNo end
    | _ => longest_match m p r ∧
        ((p = ds ∧ ¬ extended m p ∧ status = StatusMatchFull) ∨
         (p = ds ∧ extended m p ∧ status = StatusMatchPartial) ∨
         (p ≠ ds ∧ ¬ extended m p ∧ status = StatusMatchPrefix) ∨
         (p ≠ ds ∧ extended m p ∧ status = StatusMatchPartialPrefix))
    end.

Lemma prefix_snoc_cases {A} (q : list A) (p : list A) a :
  q `prefix_of` p ++ [a] → q = p ++ [a] ∨ q `prefix_of` p.
Proof.
  intros [k Hk]. destruct k as [|b k _] using rev_ind.
  - left. by rewrite app_nil_r in Hk.
  - right. exists k. rewrite app_assoc in Hk. by apply app_inj_tail in Hk as [? _].
Qed.

Lemma last_value_snoc n p d val :
  is_Some (descend n (p ++ [d])) →
  last_value n (p ++ [d]) val =
    match value_at n (p ++ [d]) with Some x => Some x | None => last_value n p val end.
Proof.
  revert n val. induction p as [|e p IH]; intros n val [n' Hd]; unfold value_at; simpl in *.
  - destruct (child n d) as [[c|]|]; [|done..]. simpl. by destruct (value c).
  - destruct (child n e) as [[c|]|]; [|done..]. by apply IH.
Qed.

Lemma last_value_longest n m p :
  represents n m → is_Some (descend n p) → longest_match m p (last_value n p (value n)).
Proof.
  intros [Hw Hv]. induction p as [|d p IH] using rev_ind; intros Hd.
  - simpl. specialize (Hv []). unfold value_at in Hv; simpl in Hv. rewrite Hv.
    destruct (m !! []) as [x|] eqn:Hm; simpl.
    + exists []. split; [done|]. split; [done|]. by intros q' ->%prefix_nil_inv.
    + by intros q ->%prefix_nil_inv.
  - assert (Hd' : is_Some (descend n p)).
    { destruct Hd as [n' Hd]. rewrite descend_app in Hd. by destruct (descend n p). }
    specialize (IH Hd'). rewrite (last_value_snoc n p d _ Hd), Hv.
    destruct (m !! (p ++ [d])) as [x|] eqn:Hm; simpl.
    + exists (p ++ [d]). by split_and!.
    + destruct (last_value n p (value n)) as [x|]; simpl in *.
      * destruct IH as (q & Hq & Hx & Hmax). exists q. split; [by apply prefix_app_r|]. split; [done|].
        intros q' [->|Hq']%prefix_snoc_cases [? ?]; [congruence|]. apply Hmax; [done|by eexists].
      * intros q [->|Hq]%prefix_snoc_cases; [done|by apply IH].
Qed.

Lemma on_path_descend n m p : represents n m → (on_path m p ↔ is_Some (descend n p)).
Proof.
  intros [Hw Hv]. split.
  - intros [->|(ks & [k ->] & x & Hx)]; [by eexists|].
    rewrite <- Hv in Hx. unfold value_at in Hx. rewrite descend_app in Hx.
    destruct (descend n p); [by eexists|done].
  - intros [n' Hd]. destruct (decide (p = [])) as [->|Hp]; [by left|right].
    destruct (descend_live n p n' Hw Hp Hd) as (ds & x & Hx). exists (p ++ ds).
    split; [by apply prefix_app_r|]. exists x. rewrite <- Hv. unfold value_at in *.
    by rewrite descend_app, Hd.
Qed.

Lemma extended_children n m p n' :
  represents n m → descend n p = Some n' → (extended m p ↔ 0 < numChildren n').
Proof.
  intros [Hw Hv] Hd. pose proof (descend_wf _ _ _ Hw Hd) as Hw'.
  assert (Hval : ∀ ds, value_at n' ds = m !! (p ++ ds)).
  { intros ds. rewrite <- Hv. unfold value_at. by rewrite descend_app, Hd. }
  assert (Hcount : numChildren n' = count (children n')) by by destruct Hw'.
  rewrite Hcount, count_pos. split.
  - intros (ks & [k ->] & Hne & x & Hx). rewrite <- Hval in Hx.
    destruct k as [|d k]; [by rewrite app_nil_r in Hne|]. unfold value_at in Hx. simpl in Hx.
    destruct (child n' d) as [[c|]|] eqn:Hc; [|done..]. unfold child in Hc.
    destruct (0 <=? d); [|done]. by exists (Z.to_nat d), c.
  - intros (i & c & Hi). assert (Hc : child n' (Z.of_nat i) = Some (Some c)).
    { unfold child. rewrite (proj2 (Z.leb_le _ _)) by lia. by rewrite Nat2Z.id. }
    destruct (child_some _ _ _ Hw' Hc) as [_ (ds & x & Hx)].
    exists (p ++ Z.of_nat i :: ds). split; [by apply prefix_app_r|]. split.
    + intros He. rewrite <- (app_nil_r p) in He at 2. by apply app_inv_head in He.
    + exists x. rewrite <- Hval. unfold value_at in *. simpl. by rewrite Hc.
Qed.

Lemma represents_New : represents New ∅.
Proof. split; [apply New_wf|]. intros ds. by rewrite value_at_New, lookup_empty. Qed.

Lemma represents_Add n m num x : represents n m →
  ∃ n', Add n num (Some x) = Some (bool_decide (m !! digits num = None), n') ∧
    represents n' (<[digits num := x]> m).
Proof.
  intros [Hw Hv]. destruct (Add_loop_spec x (runes num) n Hw) as (n' & Ha & Hw' & Hv').
  exists n'. simpl. rewrite Ha. change (omap keyDigit (runes num)) with (digits num) in *.
  rewrite Hv. split; [done|]. split; [done|]. intros ds. rewrite Hv'.
  destruct (decide (ds = digits num)) as [->|Hne]; [by rewrite lookup_insert_eq|].
  by rewrite lookup_insert_ne, Hv by done.
Qed.

Lemma represents_GetExact n m num : represents n m → GetExact n num = Some (m !! digits num).
Proof. intros [Hw Hv]. unfold GetExact. by rewrite (GetExact_loop_spec _ _ Hw), Hv. Qed.

Lemma represents_Get n m num : represents n m →
  ∃ r status, Get n num = Some (r, status) ∧ get_spec m (digits num) r status.
Proof.
  intros Hr. pose proof Hr as [Hw Hv].
  destruct (Get_loop_spec (runes num) n (value n) 0 0 Hw) as (p & q & n' & Ho & Hd & Hstop & Hg).
  unfold Get. rewrite Hg. cbn [mbind option_bind]. rewrite !Z.add_0_l.
  change (omap keyDigit (runes num)) with (digits num) in Ho. rewrite Ho.
  assert (Hpath : on_path m p) by (apply (on_path_descend _ _ _ Hr); by eexists).
  assert (Hmax : ∀ q', q' `prefix_of` p ++ q → on_path m q' → q' `prefix_of` p).
  { intros q' Hq' Hon. apply (on_path_descend _ _ _ Hr) in Hon as [n'' Hn''].
    destruct (prefix_weak_total q' p (p ++ q) Hq' (prefix_app_r _ _ _ (reflexivity p))) as [?|[k Hk]]; [done|].
    subst q'. destruct k as [|d k]; [by rewrite app_nil_r|]. exfalso.
    destruct Hq' as [k' Hk']. rewrite <- app_assoc in Hk'. apply app_inv_head in Hk'. simpl in Hk'.
    rewrite descend_app, Hd in Hn''. simpl in Hn''. by rewrite (Hstop _ _ Hk') in Hn''. }
  unfold matchStatus. destruct p as [|d p]; cbn [length].
  { eexists _, _. split; [done|]. exists []. split; [apply prefix_nil|]. split; [by left|].
    split; [done|]. split; [done|]. by destruct q. }
  rewrite (proj2 (Z.eqb_neq (Z.of_nat _) 0)) by lia. eexists _, _. split; [done|].
  exists (d :: p). split; [by apply prefix_app_r|]. split; [done|]. split; [done|].
  split; [apply last_value_longest; [done|by eexists]|].
  pose proof (extended_children _ _ _ _ Hr Hd) as Hext.
  destruct q as [|d' q].
  - rewrite app_nil_r, Z.add_0_r, Z.ltb_irrefl. destruct (Z.ltb_spec 0 (numChildren n')) as [Hlt|Hle].
    + right; left. split; [done|]. split; [by apply Hext|done].
    + left. split; [done|]. split; [|done]. intros ?%Hext. lia.
  - rewrite (proj2 (Z.ltb_lt _ _)) by lia.
    assert (Hne : d :: p ≠ (d :: p) ++ d' :: q).
    { intros He. rewrite <- (app_nil_r (d :: p)) in He at 1. by apply app_inv_head in He. }
    destruct (Z.ltb_spec 0 (numChildren n')) as [Hlt|Hle].
    + right; right; right. split; [done|]. split; [by apply Hext|done].
    + right; right; left. split; [done|]. split; [|done]. intros ?%Hext. lia.
Qed.

(** The results of adding values one after the other. *)
Fixpoint add_all n (l : list (gostring * T)) : option (list bool * node T) :=
  match l with
  | [] => Some ([], n)
  | (num, x) :: l => r ← Add n num (Some x); rs ← add_all r.2 l; Some (r.1 :: rs.1, rs.2)
  end.

(** The same on maps: whether each key was new, and the final map. *)
Fixpoint map_all (m : gmap (list Z) T) (l : list (gostring * T)) : list bool * gmap (list Z) T :=
  match l with
  | [] => ([], m)
  | (num, x) :: l =>
      let r := map_all (<[digits num := x]> m) l in
      (bool_decide (m !! digits num = None) :: r.1, r.2)
  end.

(** C16. A trie is a map from digit sequences: whatever is added to an empty
    one, no operation indexes out of range, [Add] tells new keys from
    overwritten ones, [GetExact] reads the map, and [Get] returns the value of
    the longest stored prefix along the path, with the status code that its
    documentation gives to the way the path ended. *)
Theorem trie_implements_map (l : list (gostring * T)) :
  ∃ t, add_all New l = Some ((map_all ∅ l).1, t) ∧
    ∀ num, GetExact t num = Some ((map_all ∅ l).2 !! digits num) ∧
      ∃ r status, Get t num = Some (r, status) ∧ get_spec (map_all ∅ l).2 (digits num) r status.
Proof.
  enough (Hg : ∀ n m, represents n m →
    ∃ t, add_all n l = Some ((map_all m l).1, t) ∧ represents t (map_all m l).2).
  { destruct (Hg New ∅ represents_New) as (t & Ht & Hr). exists t. split; [done|]. intros num.
    split; [by apply represents_GetExact|by apply represents_Get]. }
  induction l as [|[num x] l IH]; intros n m Hr; [by exists n|].
  destruct (represents_Add n m num x Hr) as (n' & Ha & Hr').
  destruct (IH n' _ Hr') as (t & Ht & Hrt). exists t. split; [|done].
  cbn [add_all]. rewrite Ha. cbn [mbind option_bind fst snd]. rewrite Ht. done.
Qed.
End NumTrie.

(** ** The interface other components rely on *)

Class PrefixIndex (N T : Type) : Type := {
  pi_New : N;
  pi_Add : N → gostring → option T → option (bool * N);
  pi_Get : N → gostring → option (option T * Z);
  pi_GetExact : N → gostring → option (option T);
  pi_rep : N → gmap (list Z) T → Prop;
  pi_rep_New : pi_rep pi_New ∅;
  pi_rep_Add n m num x : pi_rep n m →
    ∃ n', pi_Add n num (Some x) = Some (bool_decide (m !! digits num = None), n') ∧
      pi_rep n' (<[digits num := x]> m);
  pi_rep_GetExact n m num : pi_rep n m → pi_GetExact n num = Some (m !! digits num);
  pi_rep_Get n m num : pi_rep n m →
    ∃ r status, pi_Get n num = Some (r, status) ∧ get_spec m (digits num) r status
}.

#[export] Instance numtrie_index (T : Type) : PrefixIndex (node T) T := {|
  pi_New := New;
  pi_Add := Add;
  pi_Get := Get;
  pi_GetExact := GetExact;
  pi_rep := represents;
  pi_rep_New := represents_New;
  pi_rep_Add := represents_Add;
  pi_rep_GetExact := represents_GetExact;
  pi_rep_Get := represents_Get
|}.

(** A status is negative exactly when no digit matched, and then there is no
    value. *)
Lemma get_spec_negative {T} (m : gmap (list Z) T) ds r status :
  get_spec m ds r status → status < 0 → r = None.
Proof.
  intros (p & _ & _ & _ & Hp) Hs. destruct p as [|d p].
  - by destruct Hp.
  - destruct Hp as [_ [(_ & _ & ->)|[(_ & _ & ->)|[(_ & _ & ->)|(_ & _ & ->)]]]]; by vm_compute in Hs.
Qed.

(** With no value at the root, what [Get] returns is the longest match among
    all prefixes of the digits. *)
Lemma get_spec_longest {T} (m : gmap (list Z) T) ds r status :
  m !! [] = None → get_spec m ds r status →
  longest_match m ds r ∧ (status < 0 → r = None).
Proof.
  intros H0 Hg. split; [|by apply get_spec_negative with m ds].
  destruct Hg as (p & Hp & _ & Hmax & Hr).
  assert (Hon : ∀ q, q `prefix_of` ds → is_Some (m !! q) → q `prefix_of` p).
  { intros q Hq Hs. apply Hmax; [done|]. right. by exists q. }
  destruct p as [|d p].
  { destruct Hr as [-> _]. intros q Hq. apply eq_None_not_Some. intros Hs.
    pose proof (Hon q Hq Hs) as ->%prefix_nil_inv. by rewrite H0 in Hs; destruct Hs. }
  destruct Hr as [Hl _]. destruct r as [x|]; simpl in *.
  - destruct Hl as (q & Hq & Hx & Hm). exists q. split; [by etrans|]. split; [done|].
    intros q' Hq' Hs. apply Hm; [by apply Hon|done].
  - intros q Hq. apply eq_None_not_Some. intros Hs. rewrite Hl in Hs; [by destruct Hs|by apply Hon].
Qed.
