(* ===== verification/CountryPhone.v ===== *)
(** * [pkg/countryphone]: phone prefixes resolved to number types and areas

    countryphone.go, over any [PrefixIndex] (the trie of NumTrie). A
    [*NumInfo] is allocated for each inserted prefix and never shared, so it
    is a value; the iteration order of the Go map of countries is the order
    of the association list that stands for it, and the properties hold for
    all orders. *)

From stdpp Require Import base option list gmap sets countable.
From Stdlib Require Import String.
From S2P Require Import Prelude GoString Keypad NumTrie.

#[local] Open Scope Z_scope.

(** ** Data *)

Record GeoInfo : Type := MkGeoInfo { Alpha2 : gostring; Area : gostring; GeoType : Z }.

#[export] Instance GeoInfo_eq_dec : EqDecision GeoInfo.
Proof. solve_decision. Defined.

#[export] Program Instance GeoInfo_countable : Countable GeoInfo :=
  inj_countable' (fun g => (Alpha2 g, Area g, GeoType g)) (fun t => MkGeoInfo t.1.1 t.1.2 t.2) _.
Next Obligation. by intros []. Qed.

Record NumInfo : Type := MkNumInfo { NumType : Z; Geo : list GeoInfo }.

Record InPrefixGroup : Type := MkGroup {
  Name : gostring;
  Type_ : Z;
  PrefixType : Z;
  Prefixes : list gostring
}.

Record InCountryData : Type := MkCountry { CC : gostring; Groups : list InPrefixGroup }.

(** [map[string]*InCountryData] in iteration order; [None] is a nil pointer. *)
Definition InData : Type := list (gostring * option InCountryData).

Inductive phone_error :=
| ErrNoMatch (num : gostring)
| ErrInvalidNumberType (t : Z)
| ErrInvalidAreaType (t : Z).

Definition enumNumberType : list String.string :=
  ["";"landline";"mobile";"pager";"satellite";"special service";"virtual";"other"]%string.

Definition enumAreaType : list String.string :=
  ["";"state";"province or territory";"nation or territory";"non-geographic";"other"]%string.

Definition enum_label (enum : list String.string) (e : phone_error) (t : Z) : result phone_error String.string :=
  if (t <? 0) || (Z.of_nat (length enum) <=? t) then Error e
  else match enum !! Z.to_nat t with Some s => Ok s | None => Error e end.

Definition NumberType (t : Z) : result phone_error String.string :=
  enum_label enumNumberType (ErrInvalidNumberType t) t.

Definition AreaType (t : Z) : result phone_error String.string :=
  enum_label enumAreaType (ErrInvalidAreaType t) t.

(** ** Building the index *)

Definition cloneNumInfo (src : NumInfo) : NumInfo := MkNumInfo (NumType src) (Geo src).

Fixpoint hasDialable_loop (rs : list Z) : bool :=
  match rs with
  | [] => false
  | r :: rs => let '(_, ok) := KeypadDigit r in if ok : bool then true else hasDialable_loop rs
  end.

Definition hasDialableDigit (prefix : gostring) : bool := hasDialable_loop (runes prefix).

(** [appendUnique], on [(merged, seen)]. *)
Fixpoint appendUnique (geo : list GeoInfo) (st : list GeoInfo * gset GeoInfo) : list GeoInfo * gset GeoInfo :=
  match geo with
  | [] => st
  | g :: geo =>
      if bool_decide (g ∈ st.2) then appendUnique geo st
      else appendUnique geo (st.1 ++ [g], {[g]} ∪ st.2)
  end.

Definition mergeGeo (existing added : list GeoInfo) : list GeoInfo :=
  (appendUnique added (appendUnique existing ([], ∅))).1.

Definition newGroupInfo (a2 : gostring) (g : InPrefixGroup) : NumInfo :=
  MkNumInfo (PrefixType g) [MkGeoInfo a2 (Name g) (Type_ g)].

Section Index.
Context {N : Type} `{PI : !PrefixIndex N NumInfo}.

(** [insertPrefix]; [info] is never the pointer already stored. *)
Definition insertPrefix (t : N) (prefix : gostring) (info : NumInfo) : option N :=
  if negb (hasDialableDigit prefix) then Some t
  else
    v ← pi_GetExact t prefix;
    let info :=
      match v with
      | Some v =>
          if (0 <? length (Geo v))%nat then
            if (0 <? length (Geo info))%nat then MkNumInfo (NumType info) (mergeGeo (Geo v) (Geo info))
            else info
          else info
      | None => info
      end in
    r ← pi_Add t prefix (Some info);
    Some r.2.

Fixpoint insertPrefixes (a2 : gostring) (g : InPrefixGroup) (ps : list gostring) (t : N) : option N :=
  match ps with
  | [] => Some t
  | p :: ps => t ← insertPrefix t p (newGroupInfo a2 g); insertPrefixes a2 g ps t
  end.

Fixpoint insertGroups (a2 : gostring) (cc : gostring) (groups : list InPrefixGroup) (t : N) : option N :=
  match groups with
  | [] => Some t
  | g :: groups =>
      t ← match Prefixes g with
          | [] => insertPrefix t cc (newGroupInfo a2 g)
          | ps => insertPrefixes a2 g ps t
          end;
      insertGroups a2 cc groups t
  end.

Fixpoint loadData_loop (data : InData) (t : N) : option N :=
  match data with
  | [] => Some t
  | (a2, None) :: data => loadData_loop data t
  | (a2, Some cdata) :: data =>
      t ← match CC cdata with
          | [] => Some t
          | cc => insertPrefix t cc (MkNumInfo 0 [MkGeoInfo a2 [] 0])
          end;
      t ← match Groups cdata with
          | [] => Some t
          | groups => insertGroups a2 (CC cdata) groups t
          end;
      loadData_loop data t
  end.

(** [New], for given data. *)
Definition NewPhone (data : InData) : option N := loadData_loop data pi_New.

Definition NumberInfo (t : N) (num : gostring) : option (result phone_error NumInfo) :=
  r ← pi_Get t num;
  let '(data, status) := r in
  Some (if status <? 0 then Error (ErrNoMatch num)
        else match data with
             | None => Error (ErrNoMatch num)
             | Some data => Ok (cloneNumInfo data)
             end).
End Index.

(** ** What a dataset declares *)

(** The calls of [insertPrefix] a group, a country and a dataset amount to. *)
Definition group_decls (a2 cc : gostring) (g : InPrefixGroup) : list (gostring * NumInfo) :=
  match Prefixes g with
  | [] => [(cc, newGroupInfo a2 g)]
  | ps => (fun p => (p, newGroupInfo a2 g)) <$> ps
  end.

Definition country_decls (a2 : gostring) (c : InCountryData) : list (gostring * NumInfo) :=
  match CC c with [] => [] | cc => [(cc, MkNumInfo 0 [MkGeoInfo a2 [] 0])] end ++
  mjoin (group_decls a2 (CC c) <$> Groups c).

Definition decls (data : InData) : list (gostring * NumInfo) :=
  mjoin ((fun e => match e.2 with None => [] | Some c => country_decls e.1 c end) <$> data).

(** What is declared of a digit sequence, in order. *)
Definition declared (l : list (gostring * NumInfo)) (ds : list Z) : list NumInfo :=
  omap (fun d => if decide (digits d.1 = ds ∧ ds ≠ []) then Some d.2 else None) l.

(** The first occurrence of each element, after those of [acc]. *)
Fixpoint uniq_from (acc l : list GeoInfo) : list GeoInfo :=
  match l with
  | [] => acc
  | g :: l => uniq_from (if decide (g ∈ acc) then acc else acc ++ [g]) l
  end.

Definition uniq (l : list GeoInfo) : list GeoInfo := uniq_from [] l.

(** What the index holds for a digit sequence: the last declared type, and
    the declared areas without repetition, in order. *)
Definition resolved (l : list (gostring * NumInfo)) (ds : list Z) : option NumInfo :=
  match last (declared l ds) with
  | None => None
  | Some info => Some (MkNumInfo (NumType info) (uniq (mjoin (Geo <$> declared l ds))))
  end.

(** ** Facts *)

Lemma elem_of_length_pos {A} (x : A) l : x ∈ l → (0 < length l)%nat.
Proof. destruct l; [by intros ?%not_elem_of_nil|simpl; lia]. Qed.

Lemma uniq_from_elem g l : ∀ acc, g ∈ uniq_from acc l ↔ g ∈ acc ∨ g ∈ l.
Proof.
  induction l as [|a l IH]; intros acc; simpl; [set_solver|]. rewrite IH.
  destruct (decide (a ∈ acc)); set_solver.
Qed.

Lemma uniq_from_NoDup l : ∀ acc, NoDup acc → NoDup (uniq_from acc l).
Proof.
  induction l as [|a l IH]; intros acc Hacc; simpl; [done|]. apply IH.
  destruct (decide (a ∈ acc)) as [?|Hn]; [done|]. apply NoDup_app. split; [done|]. split; [set_solver|].
  apply NoDup_singleton.
Qed.

Lemma uniq_from_app l l' : ∀ acc, uniq_from acc (l ++ l') = uniq_from (uniq_from acc l) l'.
Proof. induction l as [|a l IH]; intros acc; simpl; [done|apply IH]. Qed.

Lemma uniq_from_fresh l : ∀ acc, NoDup (acc ++ l) → uniq_from acc l = acc ++ l.
Proof.
  induction l as [|a l IH]; intros acc Hnd; simpl; [by rewrite app_nil_r|].
  rewrite decide_False.
  - rewrite IH; by rewrite <- app_assoc.
  - apply NoDup_app in Hnd as (_ & Hd & _). intros Ha. apply (Hd a Ha). left.
Qed.

Lemma uniq_elem g l : g ∈ uniq l ↔ g ∈ l.
Proof. unfold uniq. rewrite uniq_from_elem. set_solver. Qed.

Lemma uniq_NoDup l : NoDup (uniq l).
Proof. apply uniq_from_NoDup. constructor. Qed.

Lemma uniq_uniq_app l l' : uniq (uniq l ++ l') = uniq (l ++ l').
Proof.
  unfold uniq. rewrite !uniq_from_app. f_equal. rewrite uniq_from_fresh; [done|]. apply uniq_NoDup.
Qed.

Lemma appendUnique_spec l : ∀ acc, appendUnique l (acc, list_to_set acc) =
  (uniq_from acc l, list_to_set (uniq_from acc l)).
Proof.
  induction l as [|a l IH]; intros acc; [done|]. cbn [appendUnique uniq_from fst snd].
  destruct (decide (a ∈ acc)) as [Ha|Ha].
  - rewrite bool_decide_eq_true_2 by (by apply elem_of_list_to_set). apply IH.
  - rewrite bool_decide_eq_false_2 by (by rewrite elem_of_list_to_set).
    replace ({[a]} ∪ list_to_set acc : gset GeoInfo) with (list_to_set (acc ++ [a]) : gset GeoInfo);
      [apply IH|]. rewrite list_to_set_app_L. simpl. set_solver.
Qed.

Lemma mergeGeo_spec a b : mergeGeo a b = uniq (a ++ b).
Proof.
  unfold mergeGeo. change (∅ : gset GeoInfo) with (list_to_set [] : gset GeoInfo).
  by rewrite !appendUnique_spec, <- uniq_from_app.
Qed.

Lemma hasDialable_digits prefix : hasDialableDigit prefix = bool_decide (digits prefix ≠ []).
Proof.
  unfold hasDialableDigit, digits. induction (runes prefix) as [|r rs IH]; [done|].
  cbn [hasDialable_loop omap list_omap]. rewrite KeypadDigit_keyDigit.
  destruct (keyDigit r); [done|]. exact IH.
Qed.

(** ** Inserting *)

Lemma declared_app l l' ds : declared (l ++ l') ds = declared l ds ++ declared l' ds.
Proof. apply omap_app. Qed.

Lemma declared_nil_key l : declared l [] = [].
Proof. induction l as [|d l IH]; [done|]. unfold declared; simpl. by rewrite decide_False by naive_solver. Qed.

Definition geo_ok (l : list (gostring * NumInfo)) : Prop := List.Forall (fun d => Geo d.2 ≠ [] ∧ NoDup (Geo d.2)) l.

(** The map holding what [l] declares. *)
Definition holds (m : gmap (list Z) NumInfo) (l : list (gostring * NumInfo)) : Prop :=
  ∀ ds, m !! ds = resolved l ds.

Lemma resolved_snoc l p info ds :
  resolved (l ++ [(p, info)]) ds =
    if decide (digits p = ds ∧ ds ≠ []) then
      Some (MkNumInfo (NumType info) (uniq (mjoin (Geo <$> declared l ds) ++ Geo info)))
    else resolved l ds.
Proof.
  unfold resolved. rewrite declared_app. unfold declared at 2 4; simpl.
  destruct (decide _) as [Hd|Hd]; [|by rewrite app_nil_r].
  rewrite last_snoc, fmap_app, join_app. simpl. by rewrite app_nil_r.
Qed.

Section Facts.
Context {N : Type} `{PI : !PrefixIndex N NumInfo}.

Lemma insertPrefix_spec (t : N) m l p info :
  pi_rep t m → holds m l → geo_ok l → Geo info ≠ [] → NoDup (Geo info) →
  ∃ t' m', insertPrefix t p info = Some t' ∧ pi_rep t' m' ∧ holds m' (l ++ [(p, info)]).
Proof.
  intros Hr Hm Hok Hne Hnd. unfold insertPrefix. rewrite hasDialable_digits.
  destruct (decide (digits p = [])) as [Hp|Hp].
  { rewrite bool_decide_eq_false_2 by naive_solver. exists t, m. split; [done|]. split; [done|].
    intros ds. rewrite resolved_snoc, decide_False by naive_solver. apply Hm. }
  rewrite bool_decide_eq_true_2 by done. simpl negb. cbv iota.
  rewrite (pi_rep_GetExact _ _ _ Hr). cbn [mbind option_bind].
  match goal with |- context [pi_Add t p (Some ?x)] => set (info' := x) end.
  destruct (pi_rep_Add t m p info' Hr) as (t' & Ha & Hr'). rewrite Ha. cbn [mbind option_bind snd].
  exists t', (<[digits p := info']> m). split; [done|]. split; [done|].
  intros ds. rewrite resolved_snoc. destruct (decide (digits p = ds)) as [<-|Hne'].
  2:{ rewrite lookup_insert_ne, decide_False by naive_solver. apply Hm. }
  rewrite lookup_insert_eq, decide_True by done. f_equal. subst info'. rewrite Hm. unfold resolved.
  assert (Hi : MkNumInfo (NumType info) (uniq (Geo info)) = info).
  { unfold uniq. rewrite uniq_from_fresh by done. by destruct info. }
  destruct (last (declared l (digits p))) as [i|] eqn:Hl; simpl.
  - assert (Hpos : (0 < length (uniq (mjoin (Geo <$> declared l (digits p)))))%nat).
    { apply last_Some in Hl as [l0 Hl0]. assert (Hg : Geo i ≠ []).
      { assert (Hin : i ∈ declared l (digits p)) by (rewrite Hl0; set_solver).
        apply list_elem_of_omap in Hin as (d & Hd & Hdi). destruct (decide _); simplify_eq.
        unfold geo_ok in Hok. rewrite List.Forall_forall in Hok. apply Hok. by apply list_elem_of_In. }
      destruct (Geo i) as [|g gs] eqn:Hgi; [done|].
      assert (Hg' : g ∈ uniq (mjoin (Geo <$> declared l (digits p)))).
      { apply uniq_elem. rewrite Hl0, fmap_app, join_app. simpl. rewrite Hgi. set_solver. }
      by apply (elem_of_length_pos _ _ Hg'). }
    rewrite (proj2 (Nat.ltb_lt _ _) Hpos).
    rewrite (proj2 (Nat.ltb_lt 0 (length (Geo info)))) by (destruct (Geo info); [done|simpl; lia]).
    by rewrite mergeGeo_spec, uniq_uniq_app.
  - apply last_None in Hl. rewrite Hl. simpl. by rewrite Hi.
Qed.

(** Several insertions in a row. *)
Fixpoint insert_all (ds : list (gostring * NumInfo)) (t : N) : option N :=
  match ds with
  | [] => Some t
  | (p, info) :: ds => t ← insertPrefix t p info; insert_all ds t
  end.

Lemma insert_all_app l l' t : insert_all (l ++ l') t = (t ← insert_all l t; insert_all l' t).
Proof.
  revert t. induction l as [|[p info] l IH]; intros t; [done|]. simpl.
  destruct (insertPrefix t p info); [apply IH|done].
Qed.

Lemma insert_all_spec ds : ∀ l t m, pi_rep t m → holds m l → geo_ok l → geo_ok ds →
  ∃ t' m', insert_all ds t = Some t' ∧ pi_rep t' m' ∧ holds m' (l ++ ds).
Proof.
  induction ds as [|[p info] ds IH]; intros l t m Hr Hm Hl Hds.
  { exists t, m. rewrite app_nil_r. done. }
  inversion Hds as [|? ? [Hne Hnd] Hds']; subst; simpl in *.
  destruct (insertPrefix_spec t m l p info Hr Hm Hl Hne Hnd) as (t' & m' & Hi & Hr' & Hm').
  rewrite Hi. cbn [mbind option_bind].
  destruct (IH (l ++ [(p, info)]) t' m' Hr' Hm') as (t'' & m'' & ? & ? & Hh); [|done|].
  { apply List.Forall_app; split; [done|by constructor]. }
  exists t'', m''. rewrite <- app_assoc in Hh. done.
Qed.

Lemma insertPrefixes_all a2 g ps : ∀ t,
  insertPrefixes a2 g ps t = insert_all ((fun p => (p, newGroupInfo a2 g)) <$> ps) t.
Proof.
  induction ps as [|p ps IH]; intros t; [done|]. simpl.
  destruct (insertPrefix t p (newGroupInfo a2 g)); [apply IH|done].
Qed.

Lemma insertGroups_all a2 cc gs : ∀ t,
  insertGroups a2 cc gs t = insert_all (mjoin (group_decls a2 cc <$> gs)) t.
Proof.
  induction gs as [|g gs IH]; intros t; [done|].
  change (mjoin (group_decls a2 cc <$> g :: gs)) with
    (group_decls a2 cc g ++ mjoin (group_decls a2 cc <$> gs)).
  rewrite insert_all_app. cbn [insertGroups].
  assert (Hg : match Prefixes g with
               | [] => insertPrefix t cc (newGroupInfo a2 g)
               | ps => insertPrefixes a2 g ps t
               end = insert_all (group_decls a2 cc g) t).
  { unfold group_decls. destruct (Prefixes g) as [|p ps]; [|apply insertPrefixes_all].
    cbn [insert_all]. by destruct (insertPrefix _ _ _). }
  rewrite Hg. destruct (insert_all _ t); [apply IH|done].
Qed.

Lemma loadData_all data : ∀ t, loadData_loop data t = insert_all (decls data) t.
Proof.
  induction data as [|[a2 [c|]] data IH]; intros t; [done| |].
  - change (decls ((a2, Some c) :: data)) with (country_decls a2 c ++ decls data).
    unfold country_decls. rewrite !insert_all_app. cbn [loadData_loop].
    assert (Hc : match CC c with
                 | [] => Some t
                 | cc => insertPrefix t cc (MkNumInfo 0 [MkGeoInfo a2 [] 0])
                 end = insert_all match CC c with [] => [] | cc => [(cc, MkNumInfo 0 [MkGeoInfo a2 [] 0])] end t).
    { destruct (CC c); [done|]. cbn [insert_all]. by destruct (insertPrefix _ _ _). }
    rewrite Hc. destruct (insert_all _ t) as [t'|]; [|done]. cbn [mbind option_bind].
    rewrite <- insertGroups_all. destruct (Groups c) as [|g gs].
    + simpl. apply IH.
    + destruct (insertGroups _ _ _ t'); [apply IH|done].
  - apply IH.
Qed.

Lemma decls_geo_ok data : geo_ok (decls data).
Proof.
  unfold decls. induction data as [|[a2 [c|]] data IH]; [constructor|..|exact IH].
  apply List.Forall_app. split; [|exact IH]. simpl. unfold country_decls. apply List.Forall_app. split.
  - destruct (CC c); constructor; [|constructor]. split; [done|apply NoDup_singleton].
  - induction (Groups c) as [|g gs IHg]; [constructor|]. apply List.Forall_app. split; [|exact IHg].
    unfold group_decls. destruct (Prefixes g) as [|p ps].
    + constructor; [|constructor]. split; [done|apply NoDup_singleton].
    + apply List.Forall_forall. intros d Hd. apply list_elem_of_In, list_elem_of_fmap in Hd.
      destruct Hd as (? & -> & _). split; [done|apply NoDup_singleton].
Qed.

Lemma NewPhone_spec data : ∃ t m, NewPhone data = Some t ∧ pi_rep t m ∧ holds m (decls data).
Proof.
  unfold NewPhone. rewrite loadData_all.
  apply (insert_all_spec (decls data) [] pi_New ∅); [apply pi_rep_New|done|constructor|apply decls_geo_ok].
Qed.
End Facts.

(** ** Looking a number up *)

(** The answer a dataset's declarations give to a number: the entry of the
    longest declared prefix of its digits. *)
Definition answer (l : list (gostring * NumInfo)) (num : gostring) (res : result phone_error NumInfo) : Prop :=
  match res with
  | Ok info => ∃ q, q `prefix_of` digits num ∧ resolved l q = Some info ∧
      ∀ q', q' `prefix_of` digits num → is_Some (resolved l q') → q' `prefix_of` q
  | Error e => e = ErrNoMatch num ∧ ∀ q, q `prefix_of` digits num → resolved l q = None
  end.

Lemma NumberInfo_spec {N} `{PI : !PrefixIndex N NumInfo} data (t : N) num :
  NewPhone data = Some t → ∃ res, NumberInfo t num = Some res ∧ answer (decls data) num res.
Proof.
  intros Ht. destruct (NewPhone_spec data) as (t' & m & Ht' & Hr & Hm). rewrite Ht in Ht'. simplify_eq.
  destruct (pi_rep_Get t' m num Hr) as (r & status & Hg & Hs).
  assert (H0 : m !! [] = None) by (rewrite Hm; unfold resolved; by rewrite declared_nil_key).
  destruct (get_spec_longest _ _ _ _ H0 Hs) as [Hl Hneg].
  unfold NumberInfo. rewrite Hg. cbn [mbind option_bind]. eexists; split; [done|].
  destruct (Z.ltb_spec status 0) as [Hlt|_]; [rewrite (Hneg Hlt) in Hl|destruct r as [info|]]; simpl in *.
  - split; [done|]. intros q Hq. by rewrite <- Hm, Hl.
  - destruct Hl as (q & Hq & Hx & Hmax). exists q. rewrite <- Hm, Hx. destruct info; simpl.
    split; [done|]. split; [done|]. intros q' Hq' Hs'. apply Hmax; [done|by rewrite Hm].
  - split; [done|]. intros q Hq. by rewrite <- Hm, Hl.
Qed.

(** Longest-prefix resolution: for any dataset and any number, formatted
    in any way, the lookup returns the entry of the longest declared prefix
    of the number's digits (the type declared last, the areas declared for
    that very prefix, each once, in order), and the no-match error exactly
    when no declared prefix is a prefix of it; nothing panics. *)
Theorem NumberInfo_correct (data : InData) :
  ∃ t : node NumInfo, NewPhone data = Some t ∧
    ∀ num, ∃ res, NumberInfo t num = Some res ∧ answer (decls data) num res.
Proof.
  destruct (NewPhone_spec (N := node NumInfo) data) as (t & m & Ht & _). exists t. split; [done|].
  intros num. by apply NumberInfo_spec.
Qed.

Lemma declared_perm l l' ds : l ≡ₚ l' → declared l ds ≡ₚ declared l' ds.
Proof. intros Hp. unfold declared. by rewrite Hp. Qed.

Lemma decls_perm data data' : data ≡ₚ data' → decls data ≡ₚ decls data'.
Proof. intros Hp. unfold decls. by rewrite Hp. Qed.

Lemma resolved_perm l l' ds : l ≡ₚ l' →
  match resolved l ds, resolved l' ds with
  | Some i, Some i' => Geo i ≡ₚ Geo i'
  | None, None => True
  | _, _ => False
  end.
Proof.
  intros Hp. pose proof (declared_perm l l' ds Hp) as Hd. unfold resolved.
  destruct (last (declared l ds)) as [i|] eqn:H1, (last (declared l' ds)) as [i'|] eqn:H2; simpl.
  - apply NoDup_Permutation; [apply uniq_NoDup..|]. intros g. rewrite !uniq_elem.
    assert (Hj : mjoin (Geo <$> declared l ds) ≡ₚ mjoin (Geo <$> declared l' ds)) by by rewrite Hd.
    by rewrite Hj.
  - apply last_None in H2. rewrite H2 in Hd. apply Permutation_nil_r in Hd. by rewrite Hd in H1.
  - apply last_None in H1. rewrite H1 in Hd. apply Permutation_nil_l in Hd. by rewrite <- Hd in H2.
  - done.
Qed.

(** The unspecified iteration order of the map of countries does not
    decide whether a number resolves, nor to which areas: only the order of
    the areas (and the type of a prefix that several groups share). *)
Theorem NumberInfo_order (data data' : InData) (t t' : node NumInfo) num :
  data ≡ₚ data' → NewPhone data = Some t → NewPhone data' = Some t' →
  ∃ res res', NumberInfo t num = Some res ∧ NumberInfo t' num = Some res' ∧
    match res, res' with
    | Ok i, Ok i' => Geo i ≡ₚ Geo i'
    | Error e, Error e' => e = e'
    | _, _ => False
    end.
Proof.
  intros Hp Ht Ht'. apply decls_perm in Hp.
  destruct (NumberInfo_spec data t num Ht) as (res & Hr & Ha).
  destruct (NumberInfo_spec data' t' num Ht') as (res' & Hr' & Ha').
  exists res, res'. split; [done|]. split; [done|].
  assert (Hiff : ∀ q, is_Some (resolved (decls data) q) ↔ is_Some (resolved (decls data') q)).
  { intros q. pose proof (resolved_perm _ _ q Hp) as Hq.
    destruct (resolved (decls data) q), (resolved (decls data') q); try done;
      (split; [|]; intros [? ?]; by eauto || done). }
  destruct res as [i|e], res' as [i'|e']; simpl in *.
  - destruct Ha as (q & Hq & Hi & Hmax), Ha' as (q' & Hq' & Hi' & Hmax').
    assert (q = q') as <-.
    { apply (anti_symm prefix); [apply Hmax'|apply Hmax]; try done; apply Hiff; by eexists. }
    pose proof (resolved_perm _ _ q Hp) as Hg. by rewrite Hi, Hi' in Hg.
  - destruct Ha as (q & Hq & Hi & _), Ha' as [_ Hn].
    assert (Hs : is_Some (resolved (decls data') q)) by (apply Hiff; by eexists).
    rewrite (Hn q Hq) in Hs. by destruct Hs.
  - destruct Ha' as (q & Hq & Hi & _), Ha as [_ Hn].
    assert (Hs : is_Some (resolved (decls data) q)) by (apply Hiff; by eexists).
    rewrite (Hn q Hq) in Hs. by destruct Hs.
  - destruct Ha as [-> _], Ha' as [-> _]. done.
Qed.

(** Two countries sharing a calling code. *)
Definition nanp_sample : InData :=
  [(str "US", Some (MkCountry (str "1") [MkGroup (str "New York") 1 0 [str "1212"; str "1-646"]]));
   (str "CA", Some (MkCountry (str "1") [MkGroup (str "Toronto") 2 0 [str "1416"]]))].

Lemma NumberInfo_order_witness : ∃ t t' res res',
  NewPhone (N := node NumInfo) nanp_sample = Some t ∧
  NewPhone (N := node NumInfo) (reverse nanp_sample) = Some t' ∧
  NumberInfo t (str "+1 (800) 555") = Some (Ok res) ∧ NumberInfo t' (str "+1 (800) 555") = Some (Ok res') ∧
  Geo res ≡ₚ Geo res' ∧ length (Geo res) = 2%nat.
Proof.
  destruct (NewPhone (N := node NumInfo) nanp_sample) as [t|] eqn:Ht; [|vm_compute in Ht; discriminate Ht].
  destruct (NewPhone (N := node NumInfo) (reverse nanp_sample)) as [t'|] eqn:Ht';
    [|vm_compute in Ht'; discriminate Ht'].
  destruct (NumberInfo_order nanp_sample (reverse nanp_sample) t t' (str "+1 (800) 555")
    (Permutation_sym (reverse_Permutation nanp_sample)) Ht Ht') as (res & res' & Hr & Hr' & Hm).
  vm_compute in Ht. injection Ht as <-. vm_compute in Ht'. injection Ht' as <-.
  vm_compute in Hr. injection Hr as <-. vm_compute in Hr'. injection Hr' as <-.
  eexists _, _, _, _. split; [reflexivity|]. split; [reflexivity|]. split; [vm_compute; reflexivity|].
  split; [vm_compute; reflexivity|]. split; [exact Hm|reflexivity].
Defined.
