(* ===== verification/CountryPhoneData.v ===== *)
(** * [pkg/countryphone]: the embedded numbering dataset

    data.go, entry by entry, in the order of the source. *)

From stdpp Require Import base list gmap.
From Stdlib Require Import String.
From S2P Require Import Prelude GoString Keypad NumTrie CountryPhone.

#[local] Open Scope Z_scope.

(** [{name, type, prefixType, prefixes}] and ["a2": {CC: cc, Groups: gs}]. *)
Definition group (name : String.string) (type prefixType : Z) (prefixes : list String.string) : InPrefixGroup :=
  MkGroup (str name) type prefixType (str <$> prefixes).

Definition country (a2 cc : String.string) (groups : list InPrefixGroup) : gostring * option InCountryData :=
  (str a2, Some (MkCountry (str cc) groups)).

#[local] Open Scope string_scope.

Definition defaultData_1 : InData := [
  country "AC" "247" [];
  country "AD" "376" [];
  country "AE" "971" [];
  country "AF" "93" [];
  country "AG" "1" [
    group "" 0 0 ["1268"]];
  country "AI" "1" [
    group "" 0 0 ["1264"]];
  country "AL" "355" [];
  country "AM" "374" [];
  country "AO" "244" [];
  country "AQ" "672" [];
  country "AR" "54" [];
  country "AS" "1" [
    group "" 0 0 ["1684"]];
  country "AT" "43" [];
  country "AU" "61" [];
  country "AW" "297" [];
  country "AX" "35818" [];
  country "AZ" "994" [];
  country "BA" "387" [];
  country "BB" "1" [
    group "" 0 0 ["1246"]];
  country "BD" "880" [];
  country "BE" "32" [];
  country "BF" "226" [];
  country "BG" "359" [];
  country "BH" "973" [];
  country "BI" "257" [];
  country "BJ" "229" [];
  country "BL" "590" [];
  country "BM" "1" [
    group "" 0 0 ["1441"]];
  country "BN" "673" [];
  country "BO" "591" [];
  country "BQ" "599" [];
  country "BR" "55" [];
  country "BS" "1" [
    group "" 0 0 ["1242"]];
  country "BT" "975" [];
  country "BV" "47" [];
  country "BW" "267" [];
  country "BY" "375" [];
  country "BZ" "501" [];
  country "CA" "1" [
    group "Alberta" 2 1 ["1368"; "1403"; "1568"; "1587"; "1780"; "1825"];
    group "British Columbia" 2 1 ["1236"; "1250"; "1257"; "1604"; "1672"; "1778"];
    group "Manitoba" 2 1 ["1204"; "1431"; "1584"];
    group "New Brunswick" 2 1 ["1428"; "1506"];
    group "Newfoundland and Labrador" 2 1 ["1709"; "1879"];
    group "Northwest Territories" 2 1 ["1867"];
    group "Nova Scotia" 2 1 ["1782"; "1851"; "1902"];
    group "Nunavut" 2 1 ["1867"];
    group "Ontario" 2 1 ["1226"; "1249"; "1289"; "1343"; "1365"; "1382"; "1387"; "1416"; "1437"; "1460"; "1519"; "1537"; "1548"; "1613"; "1647"; "1683"; "1705"; "1742"; "1753"; "1807"; "1905"; "1942"];
    group "Prince Edward Island" 2 1 ["1782"; "1902"];
    group "Quebec" 2 1 ["1263"; "1354"; "1367"; "1418"; "1438"; "1450"; "1468"; "1514"; "1579"; "1581"; "1819"; "1873"];
    group "Saskatchewan" 2 1 ["1306"; "1474"; "1639"];
    group "Yukon" 2 1 ["1867"];
    group "Canada special services" 4 5 ["1600"; "1622"; "1633"; "1644"; "1655"; "1677"; "1688"]];
  country "CC" "61" [];
  country "CD" "243" [];
  country "CF" "236" [];
  country "CG" "242" [];
  country "CH" "41" [];
  country "CI" "225" [];
  country "CK" "682" [];
  country "CL" "56" [];
  country "CM" "237" [];
  country "CN" "86" [];
  country "CO" "57" [];
  country "CR" "506" [];
  country "CU" "53" [];
  country "CV" "238" [];
  country "CW" "599" [];
  country "CX" "61" [];
  country "CY" "357" [];
  country "CZ" "420" [];
  country "DE" "49" [];
  country "DJ" "253" [];
  country "DK" "45" [];
  country "DM" "1" [
    group "" 0 0 ["1767"]];
  country "DO" "1" [
    group "" 0 0 ["1809"; "1829"; "1849"]];
  country "DZ" "213" [];
  country "EC" "593" [];
  country "EE" "372" [];
  country "EG" "20" [];
  country "EH" "212" [];
  country "ER" "291" [];
  country "ES" "34" [];
  country "ET" "251" [];
  country "FI" "358" [];
  country "FJ" "679" [];
  country "FK" "500" [];
  country "FM" "691" [];
  country "FO" "298" [];
  country "FR" "33" [];
  country "GA" "241" [];
  country "GB" "44" [];
  country "GD" "1" [
    group "" 0 0 ["1473"]];
  country "GE" "995" [];
  country "GF" "594" [];
  country "GG" "44" [];
  country "GH" "233" [];
  country "GI" "350" [];
  country "GL" "299" [];
  country "GM" "220" [];
  country "GN" "224" [];
  country "GP" "590" [];
  country "GQ" "240" [];
  country "GR" "30" [];
  country "GS" "500" [];
  country "GT" "502" [];
  country "GU" "1" [
    group "" 0 0 ["1671"]];
  country "GW" "245" [];
  country "GY" "592" [];
  country "HK" "852" []].

Definition defaultData_2 : InData := [
  country "HN" "504" [];
  country "HR" "385" [];
  country "HT" "509" [];
  country "HU" "36" [];
  country "ID" "62" [];
  country "IE" "353" [];
  country "IL" "972" [];
  country "IM" "44" [];
  country "IN" "91" [];
  country "IO" "246" [];
  country "IQ" "964" [];
  country "IR" "98" [];
  country "IS" "354" [];
  country "IT" "39" [];
  country "JE" "44" [];
  country "JM" "1" [
    group "" 0 0 ["1658"; "1876"]];
  country "JO" "962" [];
  country "JP" "81" [];
  country "KE" "254" [];
  country "KG" "996" [];
  country "KH" "855" [];
  country "KI" "686" [];
  country "KM" "269" [];
  country "KN" "1" [
    group "" 0 0 ["1869"]];
  country "KP" "850" [];
  country "KR" "82" [];
  country "KW" "965" [];
  country "KY" "1" [
    group "" 0 0 ["1345"]];
  country "KZ" "7" [
    group "" 0 0 ["76"; "77"]];
  country "LA" "856" [];
  country "LB" "961" [];
  country "LC" "1" [
    group "" 0 0 ["1758"]];
  country "LI" "423" [];
  country "LK" "94" [];
  country "LR" "231" [];
  country "LS" "266" [];
  country "LT" "370" [];
  country "LU" "352" [];
  country "LV" "371" [];
  country "LY" "218" [];
  country "MA" "212" [];
  country "MC" "377" [];
  country "MD" "373" [];
  country "ME" "382" [];
  country "MF" "590" [];
  country "MG" "261" [];
  country "MH" "692" [];
  country "MK" "389" [];
  country "ML" "223" [];
  country "MM" "95" [];
  country "MN" "976" [];
  country "MO" "853" [];
  country "MP" "1" [
    group "" 0 0 ["1670"]];
  country "MQ" "596" [];
  country "MR" "222" [];
  country "MS" "1" [
    group "" 0 0 ["1664"]];
  country "MT" "356" [];
  country "MU" "230" [];
  country "MV" "960" [];
  country "MW" "265" [];
  country "MX" "52" [];
  country "MY" "60" [];
  country "MZ" "258" [];
  country "NA" "264" [];
  country "NC" "687" [];
  country "NE" "227" [];
  country "NF" "672" [];
  country "NG" "234" [];
  country "NI" "505" [];
  country "NL" "31" [];
  country "NO" "47" [];
  country "NP" "977" [];
  country "NR" "674" [];
  country "NU" "683" [];
  country "NZ" "64" [];
  country "OM" "968" [];
  country "PA" "507" [];
  country "PE" "51" [];
  country "PF" "689" [];
  country "PG" "675" [];
  country "PH" "63" [];
  country "PK" "92" [];
  country "PL" "48" [];
  country "PM" "508" [];
  country "PN" "64" [];
  country "PR" "1" [
    group "" 0 0 ["1787"; "1939"]];
  country "PS" "970" [];
  country "PT" "351" [];
  country "PW" "680" [];
  country "PY" "595" [];
  country "QA" "974" [];
  country "RE" "262" [];
  country "RO" "40" [];
  country "RS" "381" [];
  country "RU" "7" [
    group "" 0 0 ["71"; "73"; "74"; "75"; "78"; "79"]];
  country "RW" "250" [];
  country "SA" "966" [];
  country "SB" "677" [];
  country "SC" "248" [];
  country "SD" "249" [];
  country "SE" "46" [];
  country "SG" "65" [];
  country "SH" "290" [];
  country "SI" "386" [];
  country "SJ" "47" [];
  country "SK" "421" [];
  country "SL" "232" [];
  country "SM" "378" [];
  country "SN" "221" [];
  country "SO" "252" [];
  country "SR" "597" [];
  country "SS" "211" [];
  country "ST" "239" []].

Definition defaultData_3 : InData := [
  country "SV" "503" [];
  country "SX" "1" [
    group "" 0 0 ["1721"]];
  country "SY" "963" [];
  country "SZ" "268" [];
  country "TA" "290" [];
  country "TC" "1" [
    group "" 0 0 ["1649"]];
  country "TD" "235" [];
  country "TF" "262" [];
  country "TG" "228" [];
  country "TH" "66" [];
  country "TJ" "992" [];
  country "TK" "690" [];
  country "TL" "670" [];
  country "TM" "993" [];
  country "TN" "216" [];
  country "TO" "676" [];
  country "TR" "90" [];
  country "TT" "1" [
    group "" 0 0 ["1868"]];
  country "TV" "688" [];
  country "TW" "886" [];
  country "TZ" "255" [];
  country "UA" "380" [];
  country "UG" "256" [];
  country "UN" "888" [];
  country "US" "1" [
    group "Alabama" 1 1 ["1205"; "1251"; "1256"; "1334"; "1483"; "1659"; "1938"];
    group "Alaska" 1 1 ["1907"];
    group "Arizona" 1 1 ["1480"; "1520"; "1602"; "1623"; "1928"];
    group "Arkansas" 1 1 ["1327"; "1479"; "1501"; "1870"];
    group "California" 1 1 ["1209"; "1213"; "1279"; "1310"; "1323"; "1341"; "1350"; "1357"; "1369"; "1408"; "1415"; "1424"; "1442"; "1510"; "1530"; "1559"; "1562"; "1619"; "1626"; "1628"; "1650"; "1657"; "1661"; "1669"; "1707"; "1714"; "1738"; "1747"; "1760"; "1805"; "1818"; "1820"; "1831"; "1837"; "1840"; "1858"; "1909"; "1916"; "1925"; "1949"; "1951"];
    group "Colorado" 1 1 ["1303"; "1719"; "1720"; "1748"; "1970"; "1983"];
    group "Connecticut" 1 1 ["1203"; "1475"; "1860"; "1959"];
    group "Delaware" 1 1 ["1302"];
    group "District of Columbia" 1 1 ["1202"; "1771"];
    group "Florida" 1 1 ["1239"; "1305"; "1321"; "1324"; "1352"; "1386"; "1407"; "1448"; "1561"; "1645"; "1656"; "1689"; "1727"; "1728"; "1754"; "1772"; "1786"; "1813"; "1850"; "1863"; "1904"; "1941"; "1954"];
    group "Georgia" 1 1 ["1229"; "1404"; "1470"; "1478"; "1678"; "1706"; "1762"; "1770"; "1912"; "1943"];
    group "Hawaii" 1 1 ["1808"];
    group "Idaho" 1 1 ["1208"; "1986"];
    group "Illinois" 1 1 ["1217"; "1224"; "1309"; "1312"; "1331"; "1447"; "1464"; "1618"; "1630"; "1708"; "1730"; "1773"; "1779"; "1815"; "1847"; "1861"; "1872"];
    group "Indiana" 1 1 ["1219"; "1260"; "1317"; "1463"; "1574"; "1765"; "1812"; "1930"];
    group "Iowa" 1 1 ["1319"; "1515"; "1563"; "1641"; "1712"];
    group "Kansas" 1 1 ["1316"; "1620"; "1785"; "1913"];
    group "Kentucky" 1 1 ["1270"; "1364"; "1502"; "1606"; "1859"];
    group "Louisiana" 1 1 ["1225"; "1318"; "1337"; "1457"; "1504"; "1985"];
    group "Maine" 1 1 ["1207"];
    group "Maryland" 1 1 ["1227"; "1240"; "1301"; "1410"; "1443"; "1667"];
    group "Massachusetts" 1 1 ["1339"; "1351"; "1413"; "1508"; "1617"; "1774"; "1781"; "1857"; "1978"];
    group "Michigan" 1 1 ["1231"; "1248"; "1269"; "1313"; "1517"; "1586"; "1616"; "1679"; "1734"; "1810"; "1906"; "1947"; "1989"];
    group "Minnesota" 1 1 ["1218"; "1320"; "1507"; "1612"; "1651"; "1763"; "1924"; "1952"];
    group "Mississippi" 1 1 ["1228"; "1471"; "1601"; "1662"; "1769"];
    group "Missouri" 1 1 ["1235"; "1314"; "1417"; "1557"; "1573"; "1636"; "1660"; "1816"; "1975"];
    group "Montana" 1 1 ["1406"];
    group "Nebraska" 1 1 ["1308"; "1402"; "1531"];
    group "Nevada" 1 1 ["1702"; "1725"; "1775"];
    group "New Hampshire" 1 1 ["1603"];
    group "New Jersey" 1 1 ["1201"; "1551"; "1609"; "1640"; "1732"; "1848"; "1856"; "1862"; "1908"; "1973"];
    group "New Mexico" 1 1 ["1505"; "1575"];
    group "New York" 1 1 ["1212"; "1315"; "1329"; "1332"; "1347"; "1363"; "1516"; "1518"; "1585"; "1607"; "1624"; "1631"; "1646"; "1680"; "1716"; "1718"; "1838"; "1845"; "1914"; "1917"; "1929"; "1934"];
    group "North Carolina" 1 1 ["1252"; "1336"; "1472"; "1704"; "1743"; "1828"; "1910"; "1919"; "1980"; "1984"];
    group "North Dakota" 1 1 ["1701"];
    group "Ohio" 1 1 ["1216"; "1220"; "1234"; "1283"; "1326"; "1330"; "1380"; "1419"; "1436"; "1440"; "1513"; "1567"; "1614"; "1740"; "1937"];
    group "Oklahoma" 1 1 ["1405"; "1539"; "1572"; "1580"; "1918"];
    group "Oregon" 1 1 ["1458"; "1503"; "1541"; "1971"];
    group "Pennsylvania" 1 1 ["1215"; "1223"; "1267"; "1272"; "1412"; "1445"; "1484"; "1570"; "1582"; "1610"; "1717"; "1724"; "1814"; "1835"; "1878"];
    group "Rhode Island" 1 1 ["1401"];
    group "South Carolina" 1 1 ["1803"; "1821"; "1839"; "1843"; "1854"; "1864"];
    group "South Dakota" 1 1 ["1605"];
    group "Tennessee" 1 1 ["1423"; "1615"; "1629"; "1731"; "1865"; "1901"; "1931"];
    group "Texas" 1 1 ["1210"; "1214"; "1254"; "1281"; "1325"; "1346"; "1361"; "1409"; "1430"; "1432"; "1469"; "1512"; "1621"; "1682"; "1713"; "1726"; "1737"; "1806"; "1817"; "1830"; "1832"; "1903"; "1915"; "1936"; "1940"; "1945"; "1956"; "1972"; "1979"];
    group "Utah" 1 1 ["1385"; "1435"; "1801"];
    group "Vermont" 1 1 ["1802"];
    group "Virginia" 1 1 ["1276"; "1434"; "1540"; "1571"; "1686"; "1703"; "1757"; "1804"; "1826"; "1948"];
    group "Washington" 1 1 ["1206"; "1253"; "1360"; "1425"; "1509"; "1564"];
    group "West Virginia" 1 1 ["1304"; "1681"];
    group "Wisconsin" 1 1 ["1262"; "1274"; "1353"; "1414"; "1534"; "1608"; "1715"; "1920"];
    group "Wyoming" 1 1 ["1307"];
    group "Midway Atoll, Wake Island, Hawaii" 1 1 ["1808"];
    group "US government" 4 5 ["1710"]];
  country "UY" "598" [];
  country "UZ" "998" [];
  country "VA" "39" [
    group "Vatican City" 0 1 ["3906698"];
    group "" 0 0 ["379"]];
  country "VC" "1" [
    group "" 0 0 ["1784"]];
  country "VE" "58" [];
  country "VG" "1" [
    group "" 0 0 ["1284"]];
  country "VI" "1" [
    group "" 0 0 ["1340"]];
  country "VN" "84" [];
  country "VU" "678" [];
  country "WF" "681" [];
  country "WS" "685" [];
  country "XK" "383" [];
  country "YE" "967" [];
  country "YT" "262" [];
  country "ZA" "27" [];
  country "ZM" "260" [];
  country "ZW" "263" [];
  country "__" "" [
    group "Universal International Freephone Service" 4 5 ["800"];
    group "Universal International Shared Cost Number" 4 5 ["808"];
    group "Inmarsat" 4 5 ["870"];
    group "Universal Personal Telecommunications" 4 5 ["878"];
    group "Global Mobile Satellite System" 4 5 ["881"];
    group "International Networks" 4 5 ["882"; "883"];
    group "International premium rate service" 4 5 ["979"];
    group "International Telecommunications Public Correspondence Service" 4 5 ["991"]]].

Definition defaultData : InData :=
  (defaultData_1 ++ defaultData_2 ++ defaultData_3)%list.
(** [New]: a nil map selects the embedded dataset. *)
Definition New {N : Type} `{PI : !PrefixIndex N NumInfo} (data : option InData) : option N :=
  NewPhone (default defaultData data).

#[local] Close Scope string_scope.

(** ** Checks of the dataset, by evaluation *)

Definition keyed : list (list Z * NumInfo) := (fun d => (digits d.1, d.2)) <$> decls defaultData.

Definition in_enum (enum : list String.string) (t : Z) : bool := (0 <=? t) && (t <? Z.of_nat (length enum)).

Definition labels_ok (info : NumInfo) : bool :=
  in_enum enumNumberType (NumType info) && forallb (fun g => in_enum enumAreaType (GeoType g)) (Geo info).

(** Declarations of the same prefix agree on the type of number. *)
Definition type_of : gmap (list Z) Z := list_to_map ((fun d => (d.1, NumType d.2)) <$> keyed).

Definition agree (l : list (list Z * NumInfo)) : bool :=
  forallb (fun d => bool_decide (type_of !! d.1 = Some (NumType d.2))) l.

Lemma default_agree : agree keyed = true.
Proof. vm_compute. reflexivity. Qed.

Lemma default_labels : forallb (fun d => labels_ok d.2) keyed = true.
Proof. vm_compute. reflexivity. Qed.

Lemma default_dialable :
  forallb (fun e => match e.2 with
                    | Some c => bool_decide (CC c = []) || bool_decide (digits (CC c) ≠ [])
                    | None => true
                    end) defaultData = true.
Proof. vm_compute. reflexivity. Qed.

Lemma declared_from l ds i : i ∈ declared l ds → ∃ d, d ∈ l ∧ digits d.1 = ds ∧ d.2 = i ∧ ds ≠ [].
Proof.
  intros (d & Hd & Hi)%list_elem_of_omap. exists d. destruct (decide _) as [[? ?]|]; naive_solver.
Qed.

Lemma declared_to l d : d ∈ l → digits d.1 ≠ [] → d.2 ∈ declared l (digits d.1).
Proof. intros Hd Hne. apply list_elem_of_omap. exists d. by rewrite decide_True. Qed.

(** The entry of a prefix comes from one of its declarations. *)
Lemma resolved_declared l ds i : resolved l ds = Some i →
  ∃ d, d ∈ l ∧ digits d.1 = ds ∧ NumType d.2 = NumType i ∧
    ∀ g, g ∈ Geo i → ∃ d', d' ∈ l ∧ digits d'.1 = ds ∧ g ∈ Geo d'.2.
Proof.
  unfold resolved. destruct (last (declared l ds)) as [i0|] eqn:Hl; [|done]. intros [= <-].
  apply last_Some in Hl as [l0 Hl].
  destruct (declared_from l ds i0) as (d & Hd & Hds & Hi & _); [rewrite Hl; set_solver|].
  exists d. split; [done|]. split; [done|]. split; [by rewrite Hi|]. simpl.
  intros g Hg. apply (proj1 (uniq_elem _ _)) in Hg. apply list_elem_of_join in Hg as (gs & Hgg & (i' & -> & Hi')%list_elem_of_fmap).
  destruct (declared_from l ds i' Hi') as (d' & ? & ? & <- & _). by exists d'.
Qed.

Lemma in_enum_label enum e t : in_enum enum t = true → ∃ s, enum_label enum e t = Ok s.
Proof.
  unfold in_enum, enum_label. intros [H0%Z.leb_le H1%Z.ltb_lt]%andb_true_iff.
  rewrite (proj2 (Z.ltb_ge _ _)), (proj2 (Z.leb_gt _ _)) by lia. simpl.
  destruct (lookup_lt_is_Some_2 enum (Z.to_nat t)) as [s ->]; [lia|]. by exists s.
Qed.

(** The checks carry over to every iteration order of the dataset. *)
Section Sound.
Context (base : InData).
Hypothesis base_types : ∀ d d', d ∈ decls base → d' ∈ decls base →
  digits d.1 = digits d'.1 → NumType d.2 = NumType d'.2.
Hypothesis base_labels : ∀ d, d ∈ decls base → labels_ok d.2 = true.
Hypothesis base_dialable : ∀ a2 c, (a2, Some c) ∈ base → CC c ≠ [] → digits (CC c) ≠ [].

Lemma resolved_iff l l' ds : l ≡ₚ l' → is_Some (resolved l ds) ↔ is_Some (resolved l' ds).
Proof.
  intros Hp. pose proof (resolved_perm _ _ ds Hp) as Hq.
  by destruct (resolved l ds), (resolved l' ds).
Qed.

Lemma resolved_base_type l l' ds i i' :
  l ≡ₚ decls base → l' ≡ₚ decls base →
  resolved l ds = Some i → resolved l' ds = Some i' → NumType i = NumType i'.
Proof.
  intros Hl Hl' (d & Hd & He & <- & _)%resolved_declared (d' & Hd' & He' & <- & _)%resolved_declared.
  rewrite Hl in Hd. rewrite Hl' in Hd'. apply base_types; [done..|congruence].
Qed.

Lemma resolved_base_labels l ds i : l ≡ₚ decls base → resolved l ds = Some i →
  (∃ s, NumberType (NumType i) = Ok s) ∧ ∀ g, g ∈ Geo i → ∃ s, AreaType (GeoType g) = Ok s.
Proof.
  intros Hl (d & Hd & _ & Hty & Hgeo)%resolved_declared.
  assert (Hlab : ∀ d, d ∈ l → labels_ok d.2 = true) by (intros d0; rewrite Hl; apply base_labels).
  split.
  - pose proof (Hlab d Hd) as [Hn _]%andb_true_iff. rewrite <- Hty. by apply in_enum_label.
  - intros g (d' & Hd' & _ & Hg)%Hgeo. pose proof (Hlab d' Hd') as [_ Hgs]%andb_true_iff.
    rewrite forallb_forall in Hgs. apply in_enum_label, Hgs. by apply list_elem_of_In.
Qed.

Lemma answer_agree data t t' num res res' :
  data ≡ₚ base → NewPhone (N := node NumInfo) data = Some t → NewPhone (N := node NumInfo) base = Some t' →
  NumberInfo t num = Some res → NumberInfo t' num = Some res' →
  match res, res' with
  | Ok i, Ok i' => NumType i = NumType i' ∧ Geo i ≡ₚ Geo i' ∧
      (∃ s, NumberType (NumType i) = Ok s) ∧ ∀ g, g ∈ Geo i → ∃ s, AreaType (GeoType g) = Ok s
  | Error e, Error e' => e = e'
  | _, _ => False
  end.
Proof.
  intros Hp Ht Ht' Hr Hr'. pose proof (decls_perm _ _ Hp) as Hpd.
  destruct (NumberInfo_order data base t t' num Hp Ht Ht') as (x0 & x0' & Hx0 & Hx0' & Hm).
  destruct (NumberInfo_spec data t num Ht) as (x & Hx & Ha).
  destruct (NumberInfo_spec base t' num Ht') as (x' & Hx' & Ha').
  rewrite Hr in Hx, Hx0. rewrite Hr' in Hx', Hx0'.
  injection Hx as <-. injection Hx0 as <-. injection Hx' as <-. injection Hx0' as <-.
  destruct res as [i|e], res' as [i'|e']; try done. cbn [answer] in Ha, Ha'.
  destruct Ha as (q & Hq & Hi & Hmax), Ha' as (q' & Hq' & Hi' & Hmax').
  assert (q = q') as <-.
  { apply (anti_symm prefix); [apply Hmax'|apply Hmax]; try done;
      apply (resolved_iff _ _ _ Hpd); by eexists. }
  split; [exact (resolved_base_type _ _ _ _ _ Hpd (Permutation_refl _) Hi Hi')|]. split; [done|].
  exact (resolved_base_labels _ _ _ Hpd Hi).
Qed.

Lemma country_resolves data t a2 c :
  data ≡ₚ base → NewPhone (N := node NumInfo) data = Some t →
  (a2, Some c) ∈ data → CC c ≠ [] →
  ∃ i g, NumberInfo t (CC c) = Some (Ok i) ∧ g ∈ Geo i ∧ Alpha2 g = a2.
Proof.
  intros Hp Ht Hin Hcc. set (g := MkGeoInfo a2 [] 0).
  assert (Hdig : digits (CC c) ≠ []) by (rewrite Hp in Hin; by eapply base_dialable).
  assert (Hdecl : (CC c, MkNumInfo 0 [g]) ∈ decls data).
  { unfold decls. apply list_elem_of_join. exists (country_decls a2 c). split.
    - unfold country_decls. destruct (CC c); [done|]. simpl. left.
    - apply list_elem_of_fmap. by exists (a2, Some c). }
  pose proof (declared_to _ _ Hdecl Hdig) as Hin'. cbn [fst snd] in Hin'.
  destruct (NumberInfo_spec data t (CC c) Ht) as (res & Hr & Ha).
  assert (Hs : ∃ i, resolved (decls data) (digits (CC c)) = Some i ∧ g ∈ Geo i).
  { unfold resolved. destruct (last _) as [i0|] eqn:Hlast.
    - eexists. split; [done|]. simpl. apply uniq_elem, list_elem_of_join. exists [g]. split; [left|].
      apply list_elem_of_fmap. by exists (MkNumInfo 0 [g]).
    - apply last_None in Hlast. rewrite Hlast in Hin'. by apply not_elem_of_nil in Hin'. }
  destruct Hs as (i & Hi & Hg). destruct res as [i'|e]; simpl in Ha.
  - destruct Ha as (q & Hq & Hq' & Hmax). assert (q = digits (CC c)) as ->.
    { apply (anti_symm prefix); [done|]. apply Hmax; [done|by eexists]. }
    assert (i' = i) as -> by congruence. by exists i, g.
  - destruct Ha as [_ Hn]. by rewrite (Hn _ (reflexivity _)) in Hi.
Qed.
End Sound.

Lemma default_types d d' : d ∈ decls defaultData → d' ∈ decls defaultData →
  digits d.1 = digits d'.1 → NumType d.2 = NumType d'.2.
Proof.
  intros Hd Hd' He. pose proof default_agree as Ha. unfold agree in Ha. rewrite forallb_forall in Ha.
  assert (Hin : ∀ d, d ∈ decls defaultData → type_of !! digits d.1 = Some (NumType d.2)).
  { intros d0 Hd0. apply (bool_decide_eq_true_1 (type_of !! (digits d0.1) = Some (NumType d0.2))).
    apply (Ha (digits d0.1, d0.2)), list_elem_of_In, list_elem_of_fmap. by exists d0. }
  pose proof (Hin d Hd) as H1. pose proof (Hin d' Hd') as H2. rewrite He in H1. congruence.
Qed.

Lemma default_labels_ok d : d ∈ decls defaultData → labels_ok d.2 = true.
Proof.
  intros Hd. pose proof default_labels as Hl. rewrite forallb_forall in Hl.
  apply (Hl (digits d.1, d.2)), list_elem_of_In, list_elem_of_fmap. by exists d.
Qed.

Lemma default_codes a2 c : (a2, Some c) ∈ defaultData → CC c ≠ [] → digits (CC c) ≠ [].
Proof.
  intros Hin Hcc. pose proof default_dialable as Hd. rewrite forallb_forall in Hd.
  specialize (Hd _ (proj1 (list_elem_of_In _ _) Hin)). cbn [snd] in Hd.
  rewrite (bool_decide_eq_false_2 (CC c = [])) in Hd by done. by apply bool_decide_eq_true in Hd.
Qed.

(** The embedded dataset: whatever the iteration order, a number has one
    answer, type included (up to the order of its areas); the codes of that
    answer all have labels; and every country's calling code resolves to an
    entry naming the country. *)
Theorem default_dataset_sound (data : InData) :
  data ≡ₚ defaultData →
  ∃ t t' : node NumInfo, NewPhone data = Some t ∧ New None = Some t' ∧
    (∀ num, ∃ res res', NumberInfo t num = Some res ∧ NumberInfo t' num = Some res' ∧
       match res, res' with
       | Ok i, Ok i' => NumType i = NumType i' ∧ Geo i ≡ₚ Geo i' ∧
           (∃ s, NumberType (NumType i) = Ok s) ∧ ∀ g, g ∈ Geo i → ∃ s, AreaType (GeoType g) = Ok s
       | Error e, Error e' => e = e'
       | _, _ => False
       end) ∧
    (∀ a2 c, (a2, Some c) ∈ data → CC c ≠ [] →
       ∃ i g, NumberInfo t (CC c) = Some (Ok i) ∧ g ∈ Geo i ∧ Alpha2 g = a2).
Proof.
  intros Hp. destruct (NewPhone_spec (N := node NumInfo) data) as (t & m & Ht & _).
  destruct (NewPhone_spec (N := node NumInfo) defaultData) as (t' & m' & Ht' & _).
  exists t, t'. split; [exact Ht|]. split; [exact Ht'|]. split.
  - intros num. destruct (NumberInfo_spec data t num Ht) as (res & Hr & _).
    destruct (NumberInfo_spec defaultData t' num Ht') as (res' & Hr' & _).
    exists res, res'. split; [exact Hr|]. split; [exact Hr'|].
    exact (answer_agree defaultData default_types default_labels_ok data t t' num res res' Hp Ht Ht' Hr Hr').
  - intros a2 c. exact (country_resolves defaultData default_codes data t a2 c Hp Ht).
Qed.

Lemma default_dataset_sound_witness : ∃ t : node NumInfo, NewPhone defaultData = Some t ∧
  ∃ i g, NumberInfo t (str "247") = Some (Ok i) ∧ g ∈ Geo i ∧ Alpha2 g = str "AC".
Proof.
  destruct (default_dataset_sound defaultData (Permutation_refl _)) as (t & _ & Ht & _ & _ & Hc).
  exists t. split; [exact Ht|].
  apply (Hc (str "AC") (MkCountry (str "247") [])); [left|discriminate].
Defined.
