(* ===== verification/CountryKey.v ===== *)
(** * [pkg/countrycode]: the packed country key and the code codecs

    countrykey.go. The unsigned integers of the code are [Z]s reduced to
    their width where an operation can leave it. *)

From stdpp Require Import base option list.
From Stdlib Require Import String.
From S2P Require Import Prelude GoString.

#[local] Open Scope Z_scope.

(** ** Layout *)

Definition bitLenChar : Z := 5.
Definition bitLenTLD : Z := 2 * bitLenChar.
Definition bitLenIntRegion : Z := 5.
Definition bitLenSubRegion : Z := 5.
Definition bitLenRegion : Z := 5.
Definition bitLenNumeric : Z := 10.
Definition bitLenAlpha3 : Z := 3 * bitLenChar.
Definition bitLenAlpha2 : Z := 2 * bitLenChar.

Definition bitPosTLD : Z := 0.
Definition bitPosIntRegion : Z := bitPosTLD + bitLenTLD.
Definition bitPosSubRegion : Z := bitPosIntRegion + bitLenIntRegion.
Definition bitPosRegion : Z := bitPosSubRegion + bitLenSubRegion.
Definition bitPosNumeric : Z := bitPosRegion + bitLenRegion.
Definition bitPosAlpha3 : Z := bitPosNumeric + bitLenNumeric.
Definition bitPosAlpha2 : Z := bitPosAlpha3 + bitLenAlpha3.
Definition bitPosStatus : Z := bitPosAlpha2 + bitLenAlpha2.

(** The binary literals of the source. *)
Definition bitMaskTLD : Z := 0x3FF.
Definition bitMaskIntRegion : Z := 0x7C00.
Definition bitMaskSubRegion : Z := 0xF8000.
Definition bitMaskRegion : Z := 0x1F00000.
Definition bitMaskNumeric : Z := 0x7FE000000.
Definition bitMaskAlpha3 : Z := 0x3FFF800000000.
Definition bitMaskAlpha2 : Z := 0xFFC000000000000.
Definition bitMaskStatus : Z := 0x7000000000000000.

Definition bitMaskChar0 : Z := 0x1F.
Definition bitMaskChar1 : Z := 0x3E0.
Definition bitMaskChar2 : Z := 0x7C00.

Definition mask03Bit : Z := 0x7.
Definition mask05Bit : Z := 0x1F.
Definition mask10Bit : Z := 0x3FF.
Definition mask15Bit : Z := 0x7FFF.

Definition bitPosChar0 : Z := 0.
Definition bitPosChar1 : Z := bitPosChar0 + bitLenChar.
Definition bitPosChar2 : Z := bitPosChar1 + bitLenChar.

Definition chrOffsetUpper : Z := 65 - 1.
Definition chrOffsetLower : Z := 97 - 1.

Inductive code_error := ErrInvalidLength | ErrInvalidCharacter | ErrInvalidNumeric | ErrNotFound.

(** ** The key *)

Record countryKeyElem : Type := MkKeyElem {
  k_status : Z;
  k_alpha2 : Z;
  k_alpha3 : Z;
  k_numeric : Z;
  k_region : Z;
  k_subregion : Z;
  k_intregion : Z;
  k_tld : Z
}.

Definition decodeCountryKey (key : Z) : countryKeyElem :=
  MkKeyElem
    (wrapU 8 (Z.shiftr (Z.land key bitMaskStatus) bitPosStatus))
    (wrapU 16 (Z.shiftr (Z.land key bitMaskAlpha2) bitPosAlpha2))
    (wrapU 16 (Z.shiftr (Z.land key bitMaskAlpha3) bitPosAlpha3))
    (wrapU 16 (Z.shiftr (Z.land key bitMaskNumeric) bitPosNumeric))
    (wrapU 8 (Z.shiftr (Z.land key bitMaskRegion) bitPosRegion))
    (wrapU 8 (Z.shiftr (Z.land key bitMaskSubRegion) bitPosSubRegion))
    (wrapU 8 (Z.shiftr (Z.land key bitMaskIntRegion) bitPosIntRegion))
    (wrapU 16 (Z.shiftr (Z.land key bitMaskTLD) bitPosTLD)).

(** [uint64(x & mask) << pos]. *)
Definition packed (x mask pos : Z) : Z := wrapU 64 (Z.shiftl (Z.land x mask) pos).

Definition encodeCountryKey (e : countryKeyElem) : Z :=
  Z.lor (packed (k_status e) mask03Bit bitPosStatus)
  (Z.lor (packed (k_alpha2 e) mask10Bit bitPosAlpha2)
  (Z.lor (packed (k_alpha3 e) mask15Bit bitPosAlpha3)
  (Z.lor (packed (k_numeric e) mask10Bit bitPosNumeric)
  (Z.lor (packed (k_region e) mask05Bit bitPosRegion)
  (Z.lor (packed (k_subregion e) mask05Bit bitPosSubRegion)
  (Z.lor (packed (k_intregion e) mask05Bit bitPosIntRegion)
         (packed (k_tld e) mask10Bit bitPosTLD))))))).

(** ** Codes *)

Definition charOffset (b offset : Z) : result code_error Z :=
  let c := wrapU 16 (b - offset) in
  if (c <? 1) || (26 <? c) then Error ErrInvalidCharacter else Ok c.

Definition charOffsetUpper (b : Z) : result code_error Z := charOffset b chrOffsetUpper.
Definition charOffsetLower (b : Z) : result code_error Z := charOffset b chrOffsetLower.

(** [c << n] on a uint16. *)
Definition shl16 (c n : Z) : Z := wrapU 16 (Z.shiftl c n).

Definition encodeAlpha2 (s : gostring) : result code_error Z :=
  (match s with
   | [s0; s1] =>
       c1 <-? charOffsetUpper s0 ;;
       c0 <-? charOffsetUpper s1 ;;
       Ok (Z.lor (shl16 c1 bitPosChar1) (shl16 c0 bitPosChar0))
   | _ => Error ErrInvalidLength
   end)%go.

Definition encodeAlpha3 (s : gostring) : result code_error Z :=
  (match s with
   | [s0; s1; s2] =>
       c2 <-? charOffsetUpper s0 ;;
       c1 <-? charOffsetUpper s1 ;;
       c0 <-? charOffsetUpper s2 ;;
       Ok (Z.lor (Z.lor (shl16 c2 bitPosChar2) (shl16 c1 bitPosChar1)) (shl16 c0 bitPosChar0))
   | _ => Error ErrInvalidLength
   end)%go.

Definition encodeTLD (s : gostring) : result code_error Z :=
  (match s with
   | [s0; s1] =>
       c1 <-? charOffsetLower s0 ;;
       c0 <-? charOffsetLower s1 ;;
       Ok (Z.lor (shl16 c1 bitPosChar1) (shl16 c0 bitPosChar0))
   | _ => Error ErrInvalidLength
   end)%go.

(** The text of one character of a packed code. *)
Definition charAt (c mask pos offset : Z) : Z :=
  wrapU 8 (wrapU 16 (Z.shiftr (Z.land c mask) pos + offset)).

Definition tabEntry (offset : Z) (code : nat) : gostring :=
  let c := wrapU 16 (Z.of_nat code) in
  [charAt c bitMaskChar1 bitPosChar1 offset; charAt c bitMaskChar0 bitPosChar0 offset].

Definition buildCharTab (offset : Z) : gostring :=
  mjoin (tabEntry offset <$> seq 0 (Z.to_nat (mask10Bit + 1))).

Definition alpha2Tab : gostring := buildCharTab chrOffsetUpper.
Definition tldTab : gostring := buildCharTab chrOffsetLower.

(** [tab[i : j]]; [None] is an index out of range. *)
Definition slice (tab : gostring) (i j : nat) : option gostring :=
  if decide (i ≤ j ∧ j ≤ length tab)%nat then Some (take (j - i) (drop i tab)) else None.

Definition decodeAlpha2 (code : Z) : option gostring :=
  let i := Z.to_nat (Z.land code mask10Bit * 2) in slice alpha2Tab i (i + 2).

Definition decodeTLD (code : Z) : option gostring :=
  let i := Z.to_nat (Z.land code mask10Bit * 2) in slice tldTab i (i + 2).

Definition decodeAlpha3 (code : Z) : gostring :=
  [charAt code bitMaskChar2 bitPosChar2 chrOffsetUpper;
   charAt code bitMaskChar1 bitPosChar1 chrOffsetUpper;
   charAt code bitMaskChar0 bitPosChar0 chrOffsetUpper].

(** [strconv.ParseUint(s, 10, 16)] on a string short enough not to overflow:
    digits only, and at least one. *)
Definition ParseUint10 (s : gostring) : option Z :=
  match s with
  | [] => None
  | _ => foldl (fun acc b => a ← acc; if between 48 b 57 then Some (a * 10 + (b - 48)) else None) (Some 0) s
  end.

Definition encodeNumeric (s : gostring) : result code_error Z :=
  if negb (length s =? 3)%nat then Error ErrInvalidLength
  else match ParseUint10 s with
       | None => Error ErrInvalidNumeric
       | Some v => Ok (wrapU 16 v)
       end.

Definition numericEntry (i : nat) : gostring :=
  let i := Z.of_nat i in [48 + (i / 100) mod 10; 48 + (i / 10) mod 10; 48 + i mod 10].

Definition numeric3Tab : gostring := mjoin (numericEntry <$> seq 0 1000).

Definition numericStr (n : Z) : option gostring :=
  if 999 <? n then Some []
  else let i := Z.to_nat (n * 3) in slice numeric3Tab i (i + 3).

(** ** Bit fields *)

(** The [len] bits of [k] from [pos] on. *)
Definition field (k pos len : Z) : Z := Z.land (Z.shiftr k pos) (Z.ones len).

Lemma field_range k pos len : 0 <= len → 0 <= field k pos len < 2 ^ len.
Proof. intros Hl. unfold field. rewrite Z.land_ones by done. apply Z.mod_pos_bound. apply Z.pow_pos_nonneg; lia. Qed.

Lemma field_lor a b pos len : field (Z.lor a b) pos len = Z.lor (field a pos len) (field b pos len).
Proof. unfold field. by rewrite Z.shiftr_lor, Z.land_lor_distr_l. Qed.

(** Masking in place and shifting down reads a field. *)
Lemma mask_field k mask pos len : 0 <= pos → 0 <= len → mask = Z.shiftl (Z.ones len) pos →
  Z.shiftr (Z.land k mask) pos = field k pos len.
Proof.
  intros Hp Hl ->. unfold field. rewrite Z.shiftr_land, Z.shiftr_shiftl_l by lia.
  by rewrite Z.sub_diag, Z.shiftl_0_r.
Qed.

Lemma packed_eq x len pos : 0 <= len → 0 <= pos → pos + len <= 64 →
  packed x (Z.ones len) pos = Z.shiftl (Z.land x (Z.ones len)) pos.
Proof.
  intros Hl Hp H64. unfold packed. apply wrapU_small. unfold inU.
  rewrite Z.land_ones, Z.shiftl_mul_pow2 by lia.
  assert (0 < 2 ^ pos) by (apply Z.pow_pos_nonneg; lia).
  assert (0 < 2 ^ len) by (apply Z.pow_pos_nonneg; lia).
  pose proof (Z.mod_pos_bound x (2 ^ len) ltac:(lia)).
  split; [apply Z.mul_nonneg_nonneg; lia|].
  apply Z.lt_le_trans with (2 ^ len * 2 ^ pos); [apply Z.mul_lt_mono_pos_r; lia|].
  rewrite <- Z.pow_add_r by lia. apply Z.pow_le_mono_r; lia.
Qed.

(** A packed field read at its own place is itself, elsewhere zero. *)
Lemma field_packed_same x pos len : 0 <= len → 0 <= pos → pos + len <= 64 →
  field (packed x (Z.ones len) pos) pos len = Z.land x (Z.ones len).
Proof.
  intros Hl Hp H64. rewrite packed_eq by done. unfold field.
  rewrite Z.shiftr_shiftl_l by lia. rewrite Z.sub_diag, Z.shiftl_0_r.
  by rewrite <- Z.land_assoc, Z.land_diag.
Qed.

Lemma field_packed_other x lenx posx pos len :
  0 <= lenx → 0 <= posx → posx + lenx <= 64 → 0 <= pos → 0 <= len →
  posx + lenx <= pos ∨ pos + len <= posx →
  field (packed x (Z.ones lenx) posx) pos len = 0.
Proof.
  intros Hlx Hpx H64 Hp Hl Hd. rewrite packed_eq by done. apply Z.bits_inj'; intros n Hn.
  unfold field. rewrite Z.land_spec, Z.shiftr_spec, Z.shiftl_spec, Z.land_spec, Z.testbit_0_l by lia.
  rewrite !Z.testbit_ones by lia.
  destruct (Z.leb_spec 0 (n + pos - posx)), (Z.ltb_spec (n + pos - posx) lenx),
    (Z.leb_spec 0 n), (Z.ltb_spec n len); rewrite ?andb_false_r; try done; lia.
Qed.

Lemma ones_masks : mask03Bit = Z.ones 3 ∧ mask05Bit = Z.ones 5 ∧ mask10Bit = Z.ones 10 ∧ mask15Bit = Z.ones 15.
Proof. done. Qed.

Lemma decode_fields key : decodeCountryKey key =
  MkKeyElem (field key 60 3) (field key 50 10) (field key 35 15) (field key 25 10)
            (field key 20 5) (field key 15 5) (field key 10 5) (field key 0 10).
Proof.
  unfold decodeCountryKey.
  rewrite (mask_field _ bitMaskStatus bitPosStatus 3), (mask_field _ bitMaskAlpha2 bitPosAlpha2 10),
    (mask_field _ bitMaskAlpha3 bitPosAlpha3 15), (mask_field _ bitMaskNumeric bitPosNumeric 10),
    (mask_field _ bitMaskRegion bitPosRegion 5), (mask_field _ bitMaskSubRegion bitPosSubRegion 5),
    (mask_field _ bitMaskIntRegion bitPosIntRegion 5), (mask_field _ bitMaskTLD bitPosTLD 10) by done.
  rewrite !wrapU_small; [done|..];
    match goal with |- inU ?w (field ?k ?p ?l) =>
      unfold inU; pose proof (field_range k p l ltac:(lia)); simpl in *; lia end.
Qed.

(** ** The key is reversible *)

(** The fields as their widths keep them. *)
Definition truncated (e : countryKeyElem) : countryKeyElem :=
  MkKeyElem (Z.land (k_status e) (Z.ones 3)) (Z.land (k_alpha2 e) (Z.ones 10))
    (Z.land (k_alpha3 e) (Z.ones 15)) (Z.land (k_numeric e) (Z.ones 10))
    (Z.land (k_region e) (Z.ones 5)) (Z.land (k_subregion e) (Z.ones 5))
    (Z.land (k_intregion e) (Z.ones 5)) (Z.land (k_tld e) (Z.ones 10)).

Ltac read_field :=
  rewrite !field_lor;
  repeat first [rewrite field_packed_same by lia | rewrite field_packed_other by lia];
  rewrite ?Z.lor_0_r, ?Z.lor_0_l; reflexivity.

Lemma decode_encode e : decodeCountryKey (encodeCountryKey e) = truncated e.
Proof.
  rewrite decode_fields. unfold encodeCountryKey, truncated.
  change mask03Bit with (Z.ones 3). change mask05Bit with (Z.ones 5).
  change mask10Bit with (Z.ones 10). change mask15Bit with (Z.ones 15).
  change bitPosStatus with 60. change bitPosAlpha2 with 50. change bitPosAlpha3 with 35.
  change bitPosNumeric with 25. change bitPosRegion with 20. change bitPosSubRegion with 15.
  change bitPosIntRegion with 10. change bitPosTLD with 0.
  f_equal; read_field.
Qed.

(** Fields that fit their widths. *)
Definition fits (e : countryKeyElem) : Prop :=
  0 <= k_status e < 8 ∧ 0 <= k_alpha2 e < 1024 ∧ 0 <= k_alpha3 e < 32768 ∧ 0 <= k_numeric e < 1024 ∧
  0 <= k_region e < 32 ∧ 0 <= k_subregion e < 32 ∧ 0 <= k_intregion e < 32 ∧ 0 <= k_tld e < 1024.

Lemma truncated_fits e : fits e → truncated e = e.
Proof.
  destruct e; unfold fits, truncated; simpl. intros (?&?&?&?&?&?&?&?).
  rewrite !Z.land_ones by lia. rewrite !Z.mod_small by (simpl; lia). done.
Qed.

Lemma packed_field key pos len : 0 <= len → 0 <= pos → pos + len <= 64 →
  packed (field key pos len) (Z.ones len) pos = Z.land key (Z.shiftl (Z.ones len) pos).
Proof.
  intros Hl Hp H64. rewrite packed_eq by done. unfold field.
  rewrite <- Z.land_assoc, Z.land_diag. rewrite Z.shiftl_land.
  rewrite <- Z.ldiff_ones_r by done. apply Z.bits_inj'; intros n Hn.
  rewrite !Z.land_spec, Z.ldiff_spec, Z.shiftl_spec, !Z.testbit_ones by lia.
  destruct (Z.leb_spec 0 n), (Z.ltb_spec n pos), (Z.leb_spec 0 (n - pos)); try lia;
    simpl; rewrite ?andb_false_r, ?andb_true_r; done.
Qed.

(** The packed key is reversible: decoding an encoded element gives it
    back when its fields fit their widths (and its truncation otherwise), and
    encoding a decoded key gives back every bit but the unused one. *)
Theorem key_roundtrip :
  (∀ e, fits e → decodeCountryKey (encodeCountryKey e) = e) ∧
  (∀ e, decodeCountryKey (encodeCountryKey e) = truncated e) ∧
  (∀ key, encodeCountryKey (decodeCountryKey key) = Z.land key (Z.ones 63)).
Proof.
  split; [|split].
  - intros e He. by rewrite decode_encode, truncated_fits.
  - apply decode_encode.
  - intros key. rewrite decode_fields. unfold encodeCountryKey. simpl k_status.
    cbn [k_status k_alpha2 k_alpha3 k_numeric k_region k_subregion k_intregion k_tld].
    change mask03Bit with (Z.ones 3). change mask05Bit with (Z.ones 5).
    change mask10Bit with (Z.ones 10). change mask15Bit with (Z.ones 15).
    change bitPosStatus with 60. change bitPosAlpha2 with 50. change bitPosAlpha3 with 35.
    change bitPosNumeric with 25. change bitPosRegion with 20. change bitPosSubRegion with 15.
    change bitPosIntRegion with 10. change bitPosTLD with 0.
    rewrite !packed_field by lia. by rewrite <- !Z.land_lor_distr_r.
Qed.

(** ** Codes are reversible *)

Definition upper_letter (b : Z) : Prop := 65 <= b <= 90.
Definition lower_letter (b : Z) : Prop := 97 <= b <= 122.
Definition digit (b : Z) : Prop := 48 <= b <= 57.

Lemma charOffset_spec b offset : is_byte b → 0 <= offset <= 96 →
  charOffset b offset = if decide (offset + 1 <= b <= offset + 26) then Ok (b - offset) else Error ErrInvalidCharacter.
Proof.
  unfold is_byte, charOffset. intros Hb Ho. destruct (Z.le_gt_cases offset b) as [Hle|Hgt].
  - rewrite wrapU_small by (unfold inU; lia).
    destruct (Z.ltb_spec (b - offset) 1), (Z.ltb_spec 26 (b - offset)), (decide _); simpl; try done; lia.
  - replace (wrapU 16 (b - offset)) with (b - offset + 2 ^ 16).
    + rewrite decide_False by lia. by rewrite (proj2 (Z.ltb_lt 26 _)), orb_true_r by lia.
    + unfold wrapU. apply Z.mod_unique with (-1); lia.
Qed.

(** Letters as their indices. *)
Definition letters : list Z := seqZ 1 26.

Lemma letter_index b offset : offset + 1 <= b <= offset + 26 → b - offset ∈ letters.
Proof. intros Hb. apply elem_of_seqZ. lia. Qed.

Lemma forallb_elem {A} (P : A → bool) l x : forallb P l = true → x ∈ l → P x = true.
Proof. rewrite forallb_forall. intros Hp Hx. by apply Hp, list_elem_of_In. Qed.

(** Every two- and three-letter code, checked by evaluation. *)
Definition pack2 (c1 c0 : Z) : Z := Z.lor (shl16 c1 bitPosChar1) (shl16 c0 bitPosChar0).
Definition pack3 (c2 c1 c0 : Z) : Z :=
  Z.lor (Z.lor (shl16 c2 bitPosChar2) (shl16 c1 bitPosChar1)) (shl16 c0 bitPosChar0).

Definition in_range (lo x hi : Z) : bool := (lo <? x) && (x <? hi).

Lemma alpha2_table : forallb (fun c1 => forallb (fun c0 =>
  bool_decide (decodeAlpha2 (pack2 c1 c0) = Some [64 + c1; 64 + c0]) &&
  bool_decide (decodeTLD (pack2 c1 c0) = Some [96 + c1; 96 + c0]) &&
  in_range 0 (pack2 c1 c0) 1024) letters) letters = true.
Proof. vm_compute. reflexivity. Qed.

Lemma alpha3_table : forallb (fun c2 => forallb (fun c1 => forallb (fun c0 =>
  bool_decide (decodeAlpha3 (pack3 c2 c1 c0) = [64 + c2; 64 + c1; 64 + c0]) &&
  in_range 0 (pack3 c2 c1 c0) 32768) letters) letters) letters = true.
Proof. vm_compute. reflexivity. Qed.

Lemma numeric_table : forallb (fun n =>
  let s := numericEntry (Z.to_nat n) in
  bool_decide (ParseUint10 s = Some n) && bool_decide (numericStr n = Some s)) (seqZ 0 1000) = true.
Proof. vm_compute. reflexivity. Qed.

Lemma pack2_spec c1 c0 : c1 ∈ letters → c0 ∈ letters →
  decodeAlpha2 (pack2 c1 c0) = Some [64 + c1; 64 + c0] ∧
  decodeTLD (pack2 c1 c0) = Some [96 + c1; 96 + c0] ∧ 0 < pack2 c1 c0 < 1024.
Proof.
  intros H1 H0. pose proof (forallb_elem _ _ _ (forallb_elem _ _ _ alpha2_table H1) H0) as H.
  apply andb_true_iff in H as [[Ha Hb]%andb_true_iff [Hc Hd]%andb_true_iff].
  apply bool_decide_eq_true in Ha. apply bool_decide_eq_true in Hb.
  split; [done|]. split; [done|]. lia.
Qed.

Lemma pack3_spec c2 c1 c0 : c2 ∈ letters → c1 ∈ letters → c0 ∈ letters →
  decodeAlpha3 (pack3 c2 c1 c0) = [64 + c2; 64 + c1; 64 + c0] ∧ 0 < pack3 c2 c1 c0 < 32768.
Proof.
  intros H2 H1 H0.
  pose proof (forallb_elem _ _ _ (forallb_elem _ _ _ (forallb_elem _ _ _ alpha3_table H2) H1) H0) as H.
  apply andb_true_iff in H as [Ha [Hc Hd]%andb_true_iff]. apply bool_decide_eq_true in Ha.
  split; [done|]. lia.
Qed.

Lemma encodeAlpha2_spec s : List.Forall is_byte s →
  match encodeAlpha2 s with
  | Ok c => length s = 2%nat ∧ List.Forall upper_letter s ∧ 0 < c < 1024 ∧ decodeAlpha2 c = Some s
  | Error _ => ¬ (length s = 2%nat ∧ List.Forall upper_letter s)
  end.
Proof.
  intros Hb. destruct s as [|a [|b [|? ?]]]; try (simpl; intros [? _]; done).
  inversion Hb as [|? ? Ha Hb']; subst. inversion Hb' as [|? ? Hb0 _]; subst.
  unfold encodeAlpha2, charOffsetUpper, chrOffsetUpper. rewrite !charOffset_spec by (done || lia).
  unfold upper_letter. destruct (decide (65 - 1 + 1 <= a <= 65 - 1 + 26)) as [Hla|Hla]; simpl result_bind.
  - destruct (decide (65 - 1 + 1 <= b <= 65 - 1 + 26)) as [Hlb|Hlb]; simpl result_bind.
    + destruct (pack2_spec (a - 64) (b - 64)) as (Hd & _ & Hr); [apply letter_index; lia..|].
      split; [done|]. split; [repeat constructor; lia|]. split; [exact Hr|].
      replace [a; b] with [64 + (a - 64); 64 + (b - 64)] by (repeat f_equal; lia). exact Hd.
    + intros [_ Hf]. apply Hlb. inversion Hf as [|? ? _ Hf']; subst. inversion Hf'; subst. lia.
  - intros [_ Hf]. apply Hla. inversion Hf; subst. lia.
Qed.

Lemma encodeTLD_spec s : List.Forall is_byte s →
  match encodeTLD s with
  | Ok c => length s = 2%nat ∧ List.Forall lower_letter s ∧ 0 < c < 1024 ∧ decodeTLD c = Some s
  | Error _ => ¬ (length s = 2%nat ∧ List.Forall lower_letter s)
  end.
Proof.
  intros Hb. destruct s as [|a [|b [|? ?]]]; try (simpl; intros [? _]; done).
  inversion Hb as [|? ? Ha Hb']; subst. inversion Hb' as [|? ? Hb0 _]; subst.
  unfold encodeTLD, charOffsetLower, chrOffsetLower. rewrite !charOffset_spec by (done || lia).
  unfold lower_letter. destruct (decide (97 - 1 + 1 <= a <= 97 - 1 + 26)) as [Hla|Hla]; simpl result_bind.
  - destruct (decide (97 - 1 + 1 <= b <= 97 - 1 + 26)) as [Hlb|Hlb]; simpl result_bind.
    + destruct (pack2_spec (a - 96) (b - 96)) as (_ & Hd & Hr); [apply letter_index; lia..|].
      split; [done|]. split; [repeat constructor; lia|]. split; [exact Hr|].
      replace [a; b] with [96 + (a - 96); 96 + (b - 96)] by (repeat f_equal; lia). exact Hd.
    + intros [_ Hf]. apply Hlb. inversion Hf as [|? ? _ Hf']; subst. inversion Hf'; subst. lia.
  - intros [_ Hf]. apply Hla. inversion Hf; subst. lia.
Qed.

Lemma encodeAlpha3_spec s : List.Forall is_byte s →
  match encodeAlpha3 s with
  | Ok c => length s = 3%nat ∧ List.Forall upper_letter s ∧ 0 < c < 32768 ∧ decodeAlpha3 c = s
  | Error _ => ¬ (length s = 3%nat ∧ List.Forall upper_letter s)
  end.
Proof.
  intros Hb. destruct s as [|a [|b [|d [|? ?]]]]; try (simpl; intros [? _]; done).
  inversion Hb as [|? ? Ha Hb']; subst. inversion Hb' as [|? ? Hb0 Hb'']; subst.
  inversion Hb'' as [|? ? Hb1 _]; subst.
  unfold encodeAlpha3, charOffsetUpper, chrOffsetUpper. rewrite !charOffset_spec by (done || lia).
  unfold upper_letter. destruct (decide (65 - 1 + 1 <= a <= 65 - 1 + 26)) as [Hla|Hla]; simpl result_bind.
  2:{ intros [_ Hf]. apply Hla. inversion Hf; subst. lia. }
  destruct (decide (65 - 1 + 1 <= b <= 65 - 1 + 26)) as [Hlb|Hlb]; simpl result_bind.
  2:{ intros [_ Hf]. apply Hlb. inversion Hf as [|? ? _ Hf']; subst. inversion Hf'; subst. lia. }
  destruct (decide (65 - 1 + 1 <= d <= 65 - 1 + 26)) as [Hld|Hld]; simpl result_bind.
  2:{ intros [_ Hf]. apply Hld. inversion Hf as [|? ? _ Hf']; subst. inversion Hf' as [|? ? _ Hf'']; subst.
      inversion Hf''; subst. lia. }
  destruct (pack3_spec (a - 64) (b - 64) (d - 64)) as (Hd & Hr); [apply letter_index; lia..|].
  split; [done|]. split; [repeat constructor; lia|]. split; [exact Hr|].
  replace [a; b; d] with [64 + (a - 64); 64 + (b - 64); 64 + (d - 64)] by (repeat f_equal; lia). exact Hd.
Qed.

Lemma numericEntry_digits a b d : digit a → digit b → digit d →
  numericEntry (Z.to_nat ((a - 48) * 100 + (b - 48) * 10 + (d - 48))) = [a; b; d].
Proof.
  unfold digit, numericEntry. intros Ha Hb Hd. rewrite Z2Nat.id by lia.
  set (n := (a - 48) * 100 + (b - 48) * 10 + (d - 48)).
  assert (H1 : n / 100 = a - 48) by (symmetry; apply Z.div_unique with ((b - 48) * 10 + (d - 48)); lia).
  assert (H2 : n / 10 = (a - 48) * 10 + (b - 48)) by (symmetry; apply Z.div_unique with (d - 48); lia).
  assert (H3 : n mod 10 = d - 48) by (symmetry; apply Z.mod_unique with ((a - 48) * 10 + (b - 48)); lia).
  rewrite H1, H2, H3, Z.mod_small by lia.
  rewrite (Z.add_comm ((a - 48) * 10)), Z.mod_add, Z.mod_small by lia.
  repeat f_equal; lia.
Qed.

Lemma encodeNumeric_spec s : List.Forall is_byte s →
  match encodeNumeric s with
  | Ok c => length s = 3%nat ∧ List.Forall digit s ∧ 0 <= c < 1000 ∧ numericStr c = Some s
  | Error _ => ¬ (length s = 3%nat ∧ List.Forall digit s)
  end.
Proof.
  intros Hb. unfold encodeNumeric. destruct (Nat.eqb_spec (length s) 3) as [Hl|Hl]; simpl; [|by intros [? _]].
  destruct s as [|a [|b [|d [|? ?]]]]; simpl in Hl; try lia.
  unfold ParseUint10. cbn [foldl mbind option_bind].
  assert (Hbet : ∀ x, between 48 x 57 = true ↔ digit x) by (intros x; unfold between, digit; rewrite andb_true_iff; lia).
  destruct (between 48 a 57) eqn:Ha; cbn [mbind option_bind].
  2:{ intros [_ Hf]. inversion Hf; subst. apply Hbet in H1. congruence. }
  destruct (between 48 b 57) eqn:Hb'; cbn [mbind option_bind].
  2:{ intros [_ Hf]. inversion Hf as [|? ? _ Hf']; subst. inversion Hf'; subst. apply Hbet in H1. congruence. }
  destruct (between 48 d 57) eqn:Hd; cbn [mbind option_bind].
  2:{ intros [_ Hf]. inversion Hf as [|? ? _ Hf']; subst. inversion Hf' as [|? ? _ Hf'']; subst.
      inversion Hf''; subst. apply Hbet in H1. congruence. }
  apply Hbet in Ha, Hb', Hd. pose proof (numericEntry_digits a b d Ha Hb' Hd) as He. unfold digit in *.
  set (n := (a - 48) * 100 + (b - 48) * 10 + (d - 48)) in *.
  replace (((0 * 10 + (a - 48)) * 10 + (b - 48)) * 10 + (d - 48)) with n by lia.
  rewrite wrapU_small by (unfold inU; lia). split; [done|]. split; [repeat constructor; unfold digit; lia|].
  split; [lia|]. assert (Hn : n ∈ seqZ 0 1000) by (apply elem_of_seqZ; lia).
  pose proof (forallb_elem _ _ _ numeric_table Hn) as Ht. cbv zeta in Ht.
  apply andb_true_iff in Ht as [_ Ht]. apply bool_decide_eq_true in Ht. by rewrite He in Ht.
Qed.

(** The codecs are total and reversible: a code is accepted exactly when
    it has the right length and alphabet, its packed form fits its field and
    decodes back to the same text; everything else is an error. *)
Theorem codes_roundtrip (s : gostring) :
  List.Forall is_byte s →
  match encodeAlpha2 s with
  | Ok c => length s = 2%nat ∧ List.Forall upper_letter s ∧ 0 < c < 1024 ∧ decodeAlpha2 c = Some s
  | Error _ => ¬ (length s = 2%nat ∧ List.Forall upper_letter s)
  end ∧
  match encodeAlpha3 s with
  | Ok c => length s = 3%nat ∧ List.Forall upper_letter s ∧ 0 < c < 32768 ∧ decodeAlpha3 c = s
  | Error _ => ¬ (length s = 3%nat ∧ List.Forall upper_letter s)
  end ∧
  match encodeTLD s with
  | Ok c => length s = 2%nat ∧ List.Forall lower_letter s ∧ 0 < c < 1024 ∧ decodeTLD c = Some s
  | Error _ => ¬ (length s = 2%nat ∧ List.Forall lower_letter s)
  end ∧
  match encodeNumeric s with
  | Ok c => length s = 3%nat ∧ List.Forall digit s ∧ 0 <= c < 1000 ∧ numericStr c = Some s
  | Error _ => ¬ (length s = 3%nat ∧ List.Forall digit s)
  end.
Proof.
  intros Hb. split; [by apply encodeAlpha2_spec|]. split; [by apply encodeAlpha3_spec|].
  split; [by apply encodeTLD_spec|by apply encodeNumeric_spec].
Qed.

Lemma codes_roundtrip_witness : ∃ c, encodeAlpha2 (str "IT") = Ok c ∧ decodeAlpha2 c = Some (str "IT").
Proof.
  assert (Hb : List.Forall is_byte (str "IT")) by (repeat constructor; vm_compute; discriminate).
  destruct (codes_roundtrip (str "IT") Hb) as (H2 & _).
  exists (9 * 32 + 20). split; [reflexivity|]. exact (proj2 (proj2 (proj2 H2))).
Defined.

Lemma key_roundtrip_witness :
  decodeCountryKey (encodeCountryKey (MkKeyElem 1 308 9857 380 5 6 0 308)) = MkKeyElem 1 308 9857 380 5 6 0 308.
Proof. apply (proj1 key_roundtrip). unfold fits. simpl. lia. Defined.
