(* ===== verification/CountryCode.v ===== *)
(** * [pkg/countrycode]: the country records, their indexes and queries

    countrycode.go and the code of data.go. The three geographical catalogs
    of [Data] have the same three fields each, grouped in [Catalog]. Go maps
    are finite maps; where the code iterates over one, the order is given by
    [iter], of which only the permutation law is assumed. *)

From stdpp Require Import base option list gmap sorting.
From Stdlib Require Import String.
From S2P Require Import Prelude GoString CountryKey.

#[local] Open Scope Z_scope.

(** ** Data *)

Record enumData : Type := MkEnum { code : gostring; name : gostring }.

Record Names : Type := MkNames { EN : gostring; FR : gostring }.

(** [dXByID], [dXIDByCode] and [dXIDByName]. *)
Record Catalog : Type := MkCatalog {
  byID : list enumData;
  IDByCode : gmap gostring Z;
  IDByName : gmap gostring Z
}.

Record Data : Type := MkData {
  dStatusByID : list enumData;
  dStatusIDByName : gmap gostring Z;
  dRegion : Catalog;
  dSubRegion : Catalog;
  dIntermediateRegion : Catalog;
  dCountryNamesByAlpha2ID : gmap Z Names;
  dCountryKeyByAlpha2ID : gmap Z Z;
  dAlpha2IDByAlpha3ID : gmap Z Z;
  dAlpha2IDByNumericID : gmap Z Z;
  dAlpha2IDsByRegionID : gmap Z (list Z);
  dAlpha2IDsBySubRegionID : gmap Z (list Z);
  dAlpha2IDsByIntermediateRegionID : gmap Z (list Z);
  dAlpha2IDsByStatusID : gmap Z (list Z);
  dAlpha2IDsByTLD : gmap Z (list Z)
}.

Record CountryData : Type := MkCountryData {
  StatusCode : Z;
  Status : gostring;
  Alpha2Code : gostring;
  Alpha3Code : gostring;
  NumericCode : gostring;
  NameEnglish : gostring;
  NameFrench : gostring;
  Region : gostring;
  SubRegion : gostring;
  IntermediateRegion : gostring;
  RegionCode : gostring;
  SubRegionCode : gostring;
  IntermediateRegionCode : gostring;
  TLD : gostring
}.

(** [strings.ToUpper]: ASCII letters of ASCII strings; what it does to other
    strings is [unicodeUpper]. *)
Definition upperByte (b : Z) : Z := if between 97 b 122 then b - 32 else b.

Section CountryCode.
Context (unicodeUpper : gostring → gostring).
Context (iter : gmap Z Z → list (Z * Z)).

Definition ToUpper (s : gostring) : gostring :=
  if forallb (fun b => b <? 128) s then upperByte <$> s else unicodeUpper s.

(** ** Building the indexes *)

Definition statusByID_table : list enumData :=
  [MkEnum (str "0") (str "Unassigned");
   MkEnum (str "1") (str "Officially assigned");
   MkEnum (str "2") (str "User-assigned");
   MkEnum (str "3") (str "Exceptionally reserved");
   MkEnum (str "4") (str "Transitionally reserved");
   MkEnum (str "5") (str "Indeterminately reserved");
   MkEnum (str "6") (str "Formerly assigned")].

(** [for k, v := range l { m[key v] = uint8(k) }]. *)
Fixpoint index_by (key : enumData → gostring) (k : Z) (l : list enumData) (m : gmap gostring Z)
    : gmap gostring Z :=
  match l with
  | [] => m
  | v :: l => index_by key (k + 1) l (<[key v := wrapU 8 k]> m)
  end.

Definition emptyCatalog : Catalog := MkCatalog [] ∅ ∅.

(** [&Data{}] after [statusMap]. *)
Definition statusMap : Data :=
  MkData statusByID_table (index_by (fun v => ToUpper (name v)) 0 statusByID_table ∅)
    emptyCatalog emptyCatalog emptyCatalog ∅ ∅ ∅ ∅ ∅ ∅ ∅ ∅ ∅.

(** One of the three parts of [genRegionIndexes]. *)
Definition genCatalogIndexes (c : Catalog) : Catalog :=
  MkCatalog (byID c) (index_by code 0 (byID c) ∅) (index_by (fun v => ToUpper (name v)) 0 (byID c) ∅).

Definition genRegionIndexes (d : Data) : Data :=
  MkData (dStatusByID d) (dStatusIDByName d)
    (genCatalogIndexes (dRegion d)) (genCatalogIndexes (dSubRegion d)) (genCatalogIndexes (dIntermediateRegion d))
    (dCountryNamesByAlpha2ID d) (dCountryKeyByAlpha2ID d)
    (dAlpha2IDByAlpha3ID d) (dAlpha2IDByNumericID d) (dAlpha2IDsByRegionID d)
    (dAlpha2IDsBySubRegionID d) (dAlpha2IDsByIntermediateRegionID d) (dAlpha2IDsByStatusID d) (dAlpha2IDsByTLD d).

(** [m[id] = append(m[id], k)]. *)
Definition append_at (id k : Z) (m : gmap Z (list Z)) : gmap Z (list Z) :=
  <[id := default [] (m !! id) ++ [k]]> m.

(** One iteration of the loop over the country keys. *)
Definition indexCountry (kv : Z * Z) (d : Data) : Data :=
  let '(k, v) := kv in
  let ck := decodeCountryKey v in
  MkData (dStatusByID d) (dStatusIDByName d) (dRegion d) (dSubRegion d) (dIntermediateRegion d)
    (dCountryNamesByAlpha2ID d) (dCountryKeyByAlpha2ID d)
    (<[k_alpha3 ck := k]> (dAlpha2IDByAlpha3ID d))
    (<[k_numeric ck := k]> (dAlpha2IDByNumericID d))
    (append_at (k_region ck) k (dAlpha2IDsByRegionID d))
    (append_at (k_subregion ck) k (dAlpha2IDsBySubRegionID d))
    (append_at (k_intregion ck) k (dAlpha2IDsByIntermediateRegionID d))
    (append_at (k_status ck) k (dAlpha2IDsByStatusID d))
    (append_at (k_tld ck) k (dAlpha2IDsByTLD d)).

(** The maps emptied at the start of [genCountryIndexes]. *)
Definition clearIndexes (d : Data) : Data :=
  MkData (dStatusByID d) (dStatusIDByName d) (dRegion d) (dSubRegion d) (dIntermediateRegion d)
    (dCountryNamesByAlpha2ID d) (dCountryKeyByAlpha2ID d) ∅ ∅ ∅ ∅ ∅ ∅ ∅.

Definition sortIDs (m : gmap Z (list Z)) : gmap Z (list Z) := merge_sort Z.le <$> m.

(** The deletions and sorts at its end. *)
Definition finishIndexes (d : Data) : Data :=
  MkData (dStatusByID d) (dStatusIDByName d) (dRegion d) (dSubRegion d) (dIntermediateRegion d)
    (dCountryNamesByAlpha2ID d) (dCountryKeyByAlpha2ID d)
    (delete 0 (dAlpha2IDByAlpha3ID d)) (delete 0 (dAlpha2IDByNumericID d))
    (sortIDs (dAlpha2IDsByRegionID d)) (sortIDs (dAlpha2IDsBySubRegionID d))
    (sortIDs (dAlpha2IDsByIntermediateRegionID d)) (sortIDs (dAlpha2IDsByStatusID d))
    (sortIDs (dAlpha2IDsByTLD d)).

Definition genCountryIndexes (d : Data) : Data :=
  finishIndexes (foldl (fun d kv => indexCountry kv d) (clearIndexes d) (iter (dCountryKeyByAlpha2ID d))).

(** ** Lookups *)

Definition enumByID (l : list enumData) (id : Z) : result code_error enumData :=
  if (id <? 0) || (Z.of_nat (length l) <=? id) then Error ErrNotFound
  else match l !! Z.to_nat id with Some v => Ok v | None => Error ErrNotFound end.

Definition lookup_or {A} (o : option A) : result code_error A :=
  match o with Some v => Ok v | None => Error ErrNotFound end.

Definition catIDByCode (c : Catalog) (code : gostring) : result code_error Z :=
  match code with [] => Error ErrNotFound | _ => lookup_or (IDByCode c !! code) end.

Definition catIDByName (c : Catalog) (name : gostring) : result code_error Z :=
  match name with [] => Error ErrNotFound | _ => lookup_or (IDByName c !! ToUpper name) end.

Definition statusByID (d : Data) (id : Z) : result code_error enumData := enumByID (dStatusByID d) id.
Definition statusIDByName (d : Data) (name : gostring) : result code_error Z :=
  lookup_or (dStatusIDByName d !! ToUpper name).

Definition regionByID (d : Data) (id : Z) : result code_error enumData := enumByID (byID (dRegion d)) id.
Definition regionIDByCode (d : Data) (code : gostring) : result code_error Z := catIDByCode (dRegion d) code.
Definition regionIDByName (d : Data) (name : gostring) : result code_error Z := catIDByName (dRegion d) name.

Definition subRegionByID (d : Data) (id : Z) : result code_error enumData := enumByID (byID (dSubRegion d)) id.
Definition subRegionIDByCode (d : Data) (code : gostring) : result code_error Z := catIDByCode (dSubRegion d) code.
Definition subRegionIDByName (d : Data) (name : gostring) : result code_error Z := catIDByName (dSubRegion d) name.

Definition intermediateRegionByID (d : Data) (id : Z) : result code_error enumData :=
  enumByID (byID (dIntermediateRegion d)) id.
Definition intermediateRegionIDByCode (d : Data) (code : gostring) : result code_error Z :=
  catIDByCode (dIntermediateRegion d) code.
Definition intermediateRegionIDByName (d : Data) (name : gostring) : result code_error Z :=
  catIDByName (dIntermediateRegion d) name.

Definition countryNamesByAlpha2ID (d : Data) (id : Z) : result code_error Names :=
  lookup_or (dCountryNamesByAlpha2ID d !! id).
Definition countryKeyByAlpha2ID (d : Data) (id : Z) : result code_error Z :=
  lookup_or (dCountryKeyByAlpha2ID d !! id).
Definition alpha2IDByAlpha3ID (d : Data) (id : Z) : result code_error Z :=
  lookup_or (dAlpha2IDByAlpha3ID d !! id).
Definition alpha2IDByNumericID (d : Data) (id : Z) : result code_error Z :=
  lookup_or (dAlpha2IDByNumericID d !! id).
Definition alpha2IDsByRegionID (d : Data) (id : Z) : result code_error (list Z) :=
  lookup_or (dAlpha2IDsByRegionID d !! id).
Definition alpha2IDsBySubRegionID (d : Data) (id : Z) : result code_error (list Z) :=
  lookup_or (dAlpha2IDsBySubRegionID d !! id).
Definition alpha2IDsByIntermediateRegionID (d : Data) (id : Z) : result code_error (list Z) :=
  lookup_or (dAlpha2IDsByIntermediateRegionID d !! id).
Definition alpha2IDsByStatusID (d : Data) (id : Z) : result code_error (list Z) :=
  lookup_or (dAlpha2IDsByStatusID d !! id).
Definition alpha2IDsByTLD (d : Data) (id : Z) : result code_error (list Z) :=
  lookup_or (dAlpha2IDsByTLD d !! id).

(** ** Loading a custom dataset *)

(** The loop of [collectCatalog], on [(byCode, keys)]. *)
Fixpoint collect_loop (pairs : list enumData) (st : gmap gostring enumData * list gostring)
    : gmap gostring enumData * list gostring :=
  match pairs with
  | [] => st
  | p :: pairs =>
      collect_loop pairs
        (match st.1 !! code p with
         | Some _ => st
         | None => (<[code p := p]> st.1, st.2 ++ [code p])
         end)
  end.

(** [collectCatalog]; a key without an entry would be a nil pointer, [None]. *)
Definition collectCatalog (pairs : list enumData) : option (list enumData) :=
  let '(byCode, keys) := collect_loop pairs ({[ [] := MkEnum [] [] ]}, [ [] ]) in
  mapM (fun k => byCode !! k) (merge_sort str_le keys).

Definition or_zero (r : result code_error Z) : Z := match r with Ok v => v | Error _ => 0 end.

(** [countryKey]. *)
Definition countryKey (d : Data) (data : CountryData) : result code_error (Z * Z) :=
  (status <-? statusIDByName d (Status data) ;;
   alpha2 <-? encodeAlpha2 (Alpha2Code data) ;;
   let alpha3 := or_zero (encodeAlpha3 (Alpha3Code data)) in
   let numeric := or_zero (encodeNumeric (NumericCode data)) in
   let region := or_zero (regionIDByCode d (RegionCode data)) in
   let subregion := or_zero (subRegionIDByCode d (SubRegionCode data)) in
   let intregion := or_zero (intermediateRegionIDByCode d (IntermediateRegionCode data)) in
   let tld := or_zero (encodeTLD (TLD data)) in
   let ck := MkKeyElem status alpha2 alpha3 numeric region subregion intregion tld in
   Ok (k_alpha2 ck, encodeCountryKey ck))%go.

Fixpoint loadKeys (d : Data) (cdata : list CountryData) (names : gmap Z Names) (keys : gmap Z Z)
    : result code_error (gmap Z Names * gmap Z Z) :=
  (match cdata with
   | [] => Ok (names, keys)
   | country :: cdata =>
       r <-? countryKey d country ;;
       loadKeys d cdata (<[r.1 := MkNames (NameEnglish country) (NameFrench country)]> names)
         (<[r.1 := r.2]> keys)
   end)%go.

Definition set_catalogs (d : Data) (r s i : list enumData) : Data :=
  MkData (dStatusByID d) (dStatusIDByName d) (MkCatalog r ∅ ∅) (MkCatalog s ∅ ∅) (MkCatalog i ∅ ∅)
    (dCountryNamesByAlpha2ID d) (dCountryKeyByAlpha2ID d)
    (dAlpha2IDByAlpha3ID d) (dAlpha2IDByNumericID d) (dAlpha2IDsByRegionID d)
    (dAlpha2IDsBySubRegionID d) (dAlpha2IDsByIntermediateRegionID d) (dAlpha2IDsByStatusID d) (dAlpha2IDsByTLD d).

Definition set_countries (d : Data) (names : gmap Z Names) (keys : gmap Z Z) : Data :=
  MkData (dStatusByID d) (dStatusIDByName d) (dRegion d) (dSubRegion d) (dIntermediateRegion d) names keys
    (dAlpha2IDByAlpha3ID d) (dAlpha2IDByNumericID d) (dAlpha2IDsByRegionID d)
    (dAlpha2IDsBySubRegionID d) (dAlpha2IDsByIntermediateRegionID d) (dAlpha2IDsByStatusID d) (dAlpha2IDsByTLD d).

Definition region_pairs (cdata : list CountryData) : list enumData :=
  (fun c => MkEnum (RegionCode c) (Region c)) <$> cdata.
Definition subregion_pairs (cdata : list CountryData) : list enumData :=
  (fun c => MkEnum (SubRegionCode c) (SubRegion c)) <$> cdata.
Definition intregion_pairs (cdata : list CountryData) : list enumData :=
  (fun c => MkEnum (IntermediateRegionCode c) (IntermediateRegion c)) <$> cdata.

Definition loadData (cdata : list CountryData) (d : Data) : option (result code_error Data) :=
  regions ← collectCatalog (region_pairs cdata);
  subRegions ← collectCatalog (subregion_pairs cdata);
  intRegions ← collectCatalog (intregion_pairs cdata);
  let d := genRegionIndexes (set_catalogs d regions subRegions intRegions) in
  Some (r <-? loadKeys d cdata ∅ ∅ ;; Ok (set_countries d r.1 r.2))%go.

(** [New]; [defaultData] is the method that loads the embedded tables. *)
Definition New (defaultData : Data → Data) (cdata : list CountryData) : option (result code_error Data) :=
  let d := statusMap in
  match cdata with
  | [] => Some (Ok (genCountryIndexes (genRegionIndexes (defaultData d))))
  | _ => (d <?- loadData cdata d ;; Some (Ok (genCountryIndexes d)))%go
  end.

(** ** Queries *)

(** [populateCountryDetails], on a record holding the status and the alpha-2. *)
Definition populateCountryDetails (d : Data) (cd : CountryData) (el : countryKeyElem)
    : option (result code_error CountryData) :=
  let alpha3 := if 0 <? k_alpha3 el then decodeAlpha3 (k_alpha3 el) else Alpha3Code cd in
  numeric ← (if 0 <? k_numeric el then numericStr (k_numeric el) else Some (NumericCode cd));
  let names := match countryNamesByAlpha2ID d (k_alpha2 el) with
               | Ok n => (EN n, FR n)
               | Error _ => (NameEnglish cd, NameFrench cd)
               end in
  tld ← (if 0 <? k_tld el then decodeTLD (k_tld el) else Some (TLD cd));
  Some (region <-? regionByID d (k_region el) ;;
        subregion <-? subRegionByID d (k_subregion el) ;;
        intregion <-? intermediateRegionByID d (k_intregion el) ;;
        Ok (MkCountryData (StatusCode cd) (Status cd) (Alpha2Code cd) alpha3 numeric names.1 names.2
              (name region) (name subregion) (name intregion)
              (code region) (code subregion) (code intregion) tld))%go.

Definition countryByAlpha2ID (d : Data) (a2 : Z) : option (result code_error CountryData) :=
  (ck <?- Some (countryKeyByAlpha2ID d a2) ;;
   let el := decodeCountryKey ck in
   status <?- Some (statusByID d (k_status el)) ;;
   alpha2 <?- (s ← decodeAlpha2 (k_alpha2 el); Some (Ok s)) ;;
   populateCountryDetails d
     (MkCountryData (k_status el) (name status) alpha2 [] [] [] [] [] [] [] [] [] [] []) el)%go.

Definition CountryByAlpha2Code (d : Data) (alpha2 : gostring) : option (result code_error CountryData) :=
  (a2 <?- Some (encodeAlpha2 alpha2) ;; countryByAlpha2ID d a2)%go.

Definition CountryByAlpha3Code (d : Data) (alpha3 : gostring) : option (result code_error CountryData) :=
  (a3 <?- Some (encodeAlpha3 alpha3) ;;
   a2 <?- Some (alpha2IDByAlpha3ID d a3) ;;
   countryByAlpha2ID d a2)%go.

Definition CountryByNumericCode (d : Data) (num : gostring) : option (result code_error CountryData) :=
  (nid <?- Some (encodeNumeric num) ;;
   a2 <?- Some (alpha2IDByNumericID d nid) ;;
   countryByAlpha2ID d a2)%go.

Fixpoint countriesByAlpha2IDs (d : Data) (a2s : list Z) : option (result code_error (list CountryData)) :=
  (match a2s with
   | [] => Some (Ok [])
   | a2 :: a2s =>
       cd <?- countryByAlpha2ID d a2 ;;
       cds <?- countriesByAlpha2IDs d a2s ;;
       Some (Ok (cd :: cds))
   end)%go.

Definition countriesByRegionID (d : Data) (id : Z) : option (result code_error (list CountryData)) :=
  (a2s <?- Some (alpha2IDsByRegionID d id) ;; countriesByAlpha2IDs d a2s)%go.
Definition CountriesByRegionCode (d : Data) (code : gostring) : option (result code_error (list CountryData)) :=
  (id <?- Some (regionIDByCode d code) ;; countriesByRegionID d id)%go.
Definition CountriesByRegionName (d : Data) (name : gostring) : option (result code_error (list CountryData)) :=
  (id <?- Some (regionIDByName d name) ;; countriesByRegionID d id)%go.

Definition countriesBySubRegionID (d : Data) (id : Z) : option (result code_error (list CountryData)) :=
  (a2s <?- Some (alpha2IDsBySubRegionID d id) ;; countriesByAlpha2IDs d a2s)%go.
Definition CountriesBySubRegionCode (d : Data) (code : gostring) : option (result code_error (list CountryData)) :=
  (id <?- Some (subRegionIDByCode d code) ;; countriesBySubRegionID d id)%go.
Definition CountriesBySubRegionName (d : Data) (name : gostring) : option (result code_error (list CountryData)) :=
  (id <?- Some (subRegionIDByName d name) ;; countriesBySubRegionID d id)%go.

Definition countriesByIntermediateRegionID (d : Data) (id : Z) : option (result code_error (list CountryData)) :=
  (a2s <?- Some (alpha2IDsByIntermediateRegionID d id) ;; countriesByAlpha2IDs d a2s)%go.
Definition CountriesByIntermediateRegionCode (d : Data) (code : gostring) : option (result code_error (list CountryData)) :=
  (id <?- Some (intermediateRegionIDByCode d code) ;; countriesByIntermediateRegionID d id)%go.
Definition CountriesByIntermediateRegionName (d : Data) (name : gostring) : option (result code_error (list CountryData)) :=
  (id <?- Some (intermediateRegionIDByName d name) ;; countriesByIntermediateRegionID d id)%go.

Definition CountriesByStatusID (d : Data) (id : Z) : option (result code_error (list CountryData)) :=
  (a2s <?- Some (alpha2IDsByStatusID d id) ;; countriesByAlpha2IDs d a2s)%go.
Definition CountriesByStatusName (d : Data) (name : gostring) : option (result code_error (list CountryData)) :=
  (id <?- Some (statusIDByName d name) ;; CountriesByStatusID d id)%go.

Definition CountriesByTLD (d : Data) (tld : gostring) : option (result code_error (list CountryData)) :=
  (c <?- Some (encodeTLD tld) ;;
   a2s <?- Some (alpha2IDsByTLD d c) ;;
   countriesByAlpha2IDs d a2s)%go.

(** The [Enum] methods. *)
Definition enum_map (skipEmpty : bool) (l : list enumData) : gmap gostring gostring :=
  foldl (fun m v =>
    if skipEmpty && bool_decide (code v = []) && bool_decide (name v = []) then m
    else <[name v := code v]> m) ∅ l.

Definition EnumStatus (d : Data) : gmap gostring gostring := enum_map false (dStatusByID d).
Definition EnumRegion (d : Data) : gmap gostring gostring := enum_map true (byID (dRegion d)).
Definition EnumSubRegion (d : Data) : gmap gostring gostring := enum_map true (byID (dSubRegion d)).
Definition EnumIntermediateRegion (d : Data) : gmap gostring gostring :=
  enum_map true (byID (dIntermediateRegion d)).
End CountryCode.

(** ** Facts about the index maps *)

(** What the loop over the keys does to one grouped index. *)
Definition group_fold (f : countryKeyElem → Z) (l : list (Z * Z)) (m : gmap Z (list Z)) : gmap Z (list Z) :=
  foldl (fun m kv => append_at (f (decodeCountryKey kv.2)) kv.1 m) m l.

(** The alpha-2 IDs whose key has a given field. *)
Definition ids_with (f : countryKeyElem → Z) (id : Z) (l : list (Z * Z)) : list Z :=
  fst <$> filter (fun kv => f (decodeCountryKey kv.2) = id) l.

Lemma group_fold_lookup f id l : ∀ m,
  default [] (group_fold f l m !! id) = default [] (m !! id) ++ ids_with f id l ∧
  (is_Some (group_fold f l m !! id) ↔ is_Some (m !! id) ∨ ids_with f id l ≠ []).
Proof.
  unfold group_fold, ids_with. induction l as [|[k v] l IH]; intros m; simpl.
  { rewrite app_nil_r. naive_solver. }
  destruct (IH (append_at (f (decodeCountryKey v)) k m)) as [H1 H2]. rewrite H1, H2.
  unfold append_at. rewrite filter_cons; simpl. destruct (decide (f (decodeCountryKey v) = id)) as [<-|Hne].
  - rewrite lookup_insert_eq; simpl. rewrite <- app_assoc. split; [done|].
    split; [by right|by left].
  - by rewrite lookup_insert_ne.
Qed.

#[export] Instance Zle_total : Total Z.le.
Proof. intros x y. lia. Qed.

(** A grouped index after sorting: sorted, and complete. *)
Lemma group_sorted f id l :
  match sortIDs (group_fold f l ∅) !! id with
  | Some ids => ids ≠ [] ∧ StronglySorted Z.le ids ∧ ids ≡ₚ ids_with f id l
  | None => ids_with f id l = []
  end.
Proof.
  destruct (group_fold_lookup f id l ∅) as [H1 H2]. rewrite lookup_empty in H1, H2. simpl in H1.
  unfold sortIDs. rewrite lookup_fmap. destruct (group_fold f l ∅ !! id) as [ids|] eqn:Hg; simpl in *.
  - subst ids. destruct (proj1 H2 (mk_is_Some _ _ eq_refl)) as [[? ?]|Hne]; [done|].
    split; [|split].
    + intros Hnil. apply Hne. apply Permutation_nil_r. rewrite <- Hnil. symmetry. apply merge_sort_Permutation.
    + apply StronglySorted_merge_sort; apply _.
    + apply merge_sort_Permutation.
  - done.
Qed.

(** ** Facts about catalogs *)

(** The name first given to a code; the empty code has none. *)
Definition first_name (pairs : list enumData) (c : gostring) : gostring :=
  match c with
  | [] => []
  | _ => match filter (fun p => code p = c) pairs with p :: _ => name p | [] => [] end
  end.

Record collected (pairs : list enumData) (st : gmap gostring enumData * list gostring) : Prop := Collected {
  co_nodup : NoDup st.2;
  co_keys : ∀ c, c ∈ st.2 ↔ c = [] ∨ c ∈ code <$> pairs;
  co_entry : ∀ c, c ∈ st.2 → st.1 !! c = Some (MkEnum c (first_name pairs c));
  co_dom : ∀ c, is_Some (st.1 !! c) → c ∈ st.2
}.

Lemma first_name_app p pairs c : c ∈ code <$> p → first_name (p ++ pairs) c = first_name p c.
Proof.
  intros (e & He & Hin)%list_elem_of_fmap. unfold first_name. destruct c as [|b c]; [done|].
  rewrite filter_app. destruct (filter _ p) as [|e' l] eqn:Hf; [|done].
  assert (He' : e ∈ filter (fun p => code p = b :: c) p) by (apply list_elem_of_filter; done).
  rewrite Hf in He'. by apply not_elem_of_nil in He'.
Qed.

Lemma first_name_fresh p e : code e ≠ [] → code e ∉ code <$> p → first_name (p ++ [e]) (code e) = name e.
Proof.
  intros Hc Hn. unfold first_name. destruct (code e) as [|b c] eqn:He; [done|]. rewrite filter_app.
  destruct (filter _ p) as [|e' l] eqn:Hf; simpl.
  - rewrite filter_cons, decide_True by done. done.
  - exfalso. apply Hn. assert (He' : e' ∈ filter (fun p => code p = b :: c) p) by (rewrite Hf; left).
    apply list_elem_of_filter in He' as [<- Hin]. apply list_elem_of_fmap. by exists e'.
Qed.

Lemma collect_loop_spec pairs : ∀ pre st,
  collected pre st → collected (pre ++ pairs) (collect_loop pairs st).
Proof.
  induction pairs as [|p pairs IH]; intros pre [m keys] Hst; [by rewrite app_nil_r|].
  replace (pre ++ p :: pairs) with ((pre ++ [p]) ++ pairs) by (by rewrite <- app_assoc).
  cbn [collect_loop]. apply IH. destruct Hst as [Hnd Hel Hm Hdom]; simpl in *.
  assert (Hcodes : ∀ c, c ∈ code <$> pre ++ [p] ↔ c ∈ code <$> pre ∨ c = code p).
  { intros c. rewrite fmap_app, elem_of_app. simpl. rewrite list_elem_of_singleton. done. }
  assert (Hold : ∀ c, c ∈ keys → first_name (pre ++ [p]) c = first_name pre c).
  { intros c Hc%Hel. destruct Hc as [-> | Hc]; [done|]. by apply first_name_app. }
  destruct (m !! code p) as [e|] eqn:He.
  - assert (Hin : code p ∈ keys) by (apply Hdom; by eexists).
    constructor; simpl; [done| | |done].
    + intros c. rewrite Hcodes, Hel. split; [naive_solver|].
      intros [?|[? | ->]]; [by left|by right|by apply Hel].
    + intros c Hc. rewrite Hold by done. by apply Hm.
  - assert (Hn : code p ∉ keys) by (intros Hin; rewrite (Hm _ Hin) in He; done).
    assert (Hne : code p ≠ []) by (intros Heq; apply Hn, Hel; by left).
    constructor; simpl.
    + apply NoDup_app. split; [done|]. split; [|apply NoDup_singleton].
      intros c Hc ->%list_elem_of_singleton. done.
    + intros c. rewrite elem_of_app, list_elem_of_singleton, Hcodes, Hel. naive_solver.
    + intros c Hc%elem_of_app; destruct Hc as [Hc|Hc%list_elem_of_singleton]; [|subst c].
      * rewrite lookup_insert_ne by (intros <-; done). rewrite Hold by done. by apply Hm.
      * rewrite lookup_insert_eq, first_name_fresh; [by destruct p|done|]. intros Hin. apply Hn, Hel. by right.
    + intros c Hc. apply elem_of_app. destruct (decide (code p = c)) as [<-|Hd]; [right; by left|left].
      rewrite lookup_insert_ne in Hc by done. by apply Hdom.
Qed.

(** A catalog: distinct codes, the empty one first, each with the name it
    was first given. *)
Lemma collectCatalog_spec pairs : ∃ keys,
  collectCatalog pairs = Some ((fun c => MkEnum c (first_name pairs c)) <$> keys) ∧
  NoDup keys ∧ (∀ c, c ∈ keys ↔ c = [] ∨ c ∈ code <$> pairs) ∧ keys !! 0%nat = Some [].
Proof.
  unfold collectCatalog.
  assert (Hi : collected [] ({[ [] := MkEnum [] [] ]}, [ [] ])).
  { constructor; simpl.
    - apply NoDup_singleton.
    - intros c. rewrite list_elem_of_singleton. split; [by left|]. intros [?|?%not_elem_of_nil]; done.
    - intros c ->%list_elem_of_singleton. by rewrite lookup_singleton_eq.
    - intros c. rewrite lookup_singleton_is_Some. intros <-. left. }
  pose proof (collect_loop_spec pairs [] _ Hi) as Hc. simpl in Hc.
  destruct (collect_loop pairs _) as [m keys]. destruct Hc as [Hnd Hel Hm _]; simpl in *.
  exists (merge_sort str_le keys). pose proof (merge_sort_Permutation str_le keys) as Hp.
  split; [|split; [|split]].
  - apply mapM_Some_2. apply Forall2_fmap_r. apply Forall_Forall2_diag, Forall_forall.
    intros c Hin. rewrite Hp in Hin. by apply Hm.
  - by rewrite Hp.
  - intros c. by rewrite Hp.
  - assert (Hin : ([] : gostring) ∈ merge_sort str_le keys) by (rewrite Hp; apply Hel; by left).
    pose proof (StronglySorted_merge_sort str_le keys) as Hs.
    destruct (merge_sort str_le keys) as [|c l]; [by apply not_elem_of_nil in Hin|]. simpl.
    apply elem_of_cons in Hin as [<- | Hin]; [done|].
    inversion Hs as [|? ? _ Hall]; subst. rewrite List.Forall_forall in Hall.
    specialize (Hall [] (proj1 (list_elem_of_In _ _) Hin)). by destruct c.
Qed.

#[export] Instance encoded_dec a2 c : Decision (encodeAlpha2 (Alpha2Code c) = Ok a2).
Proof. destruct (encodeAlpha2 _) as [x|]; [destruct (decide (x = a2)); [left|right]; congruence|by right]. Defined.

Section Facts.
Context (unicodeUpper : gostring → gostring).
Context (iter : gmap Z Z → list (Z * Z)).
Hypothesis iter_perm : ∀ m, iter m ≡ₚ map_to_list m.

Abbreviation genCountryIndexes := (genCountryIndexes iter).
Abbreviation ToUpper := (ToUpper unicodeUpper).

Lemma fold_groups l : ∀ d,
  let d' := foldl (fun d kv => indexCountry kv d) d l in
  dAlpha2IDsByRegionID d' = group_fold k_region l (dAlpha2IDsByRegionID d) ∧
  dAlpha2IDsBySubRegionID d' = group_fold k_subregion l (dAlpha2IDsBySubRegionID d) ∧
  dAlpha2IDsByIntermediateRegionID d' = group_fold k_intregion l (dAlpha2IDsByIntermediateRegionID d) ∧
  dAlpha2IDsByStatusID d' = group_fold k_status l (dAlpha2IDsByStatusID d) ∧
  dAlpha2IDsByTLD d' = group_fold k_tld l (dAlpha2IDsByTLD d) ∧
  dAlpha2IDByAlpha3ID d' = foldl (fun m kv => <[k_alpha3 (decodeCountryKey kv.2) := kv.1]> m) (dAlpha2IDByAlpha3ID d) l ∧
  dAlpha2IDByNumericID d' = foldl (fun m kv => <[k_numeric (decodeCountryKey kv.2) := kv.1]> m) (dAlpha2IDByNumericID d) l.
Proof.
  induction l as [|[k v] l IH]; intros d; [by repeat split|]. apply (IH (indexCountry (k, v) d)).
Qed.

(** The indexes leave the rest of the data alone. *)
Definition same_tables (d d' : Data) : Prop :=
  dStatusByID d' = dStatusByID d ∧ dStatusIDByName d' = dStatusIDByName d ∧
  dRegion d' = dRegion d ∧ dSubRegion d' = dSubRegion d ∧ dIntermediateRegion d' = dIntermediateRegion d ∧
  dCountryNamesByAlpha2ID d' = dCountryNamesByAlpha2ID d ∧ dCountryKeyByAlpha2ID d' = dCountryKeyByAlpha2ID d.

#[local] Instance same_tables_preorder : PreOrder same_tables.
Proof.
  split; [by repeat split|]. intros d1 d2 d3 (?&?&?&?&?&?&?) (?&?&?&?&?&?&?).
  unfold same_tables. split_and!; congruence.
Qed.

Lemma index_tables kv d : same_tables d (indexCountry kv d).
Proof. destruct kv. unfold same_tables, indexCountry. split_and!; reflexivity. Qed.

Lemma genCountryIndexes_tables d : same_tables d (genCountryIndexes d).
Proof.
  assert (Hf : ∀ l d0, same_tables d0 (foldl (fun d kv => indexCountry kv d) d0 l)).
  { induction l as [|kv l IH]; intros d0; [reflexivity|]. etrans; [apply index_tables|apply IH]. }
  specialize (Hf (iter (dCountryKeyByAlpha2ID d)) (clearIndexes d)).
  unfold same_tables in *. destruct Hf as (?&?&?&?&?&?&?). unfold genCountryIndexes.
  split_and!; assumption.
Qed.

(** The keys with a field, as the specification of the grouped queries. *)
Definition grouped (d : Data) (f : countryKeyElem → Z) (id : Z) (r : option (list Z)) : Prop :=
  match r with
  | Some ids => ids ≠ [] ∧ StronglySorted Z.lt ids ∧
      ∀ k, k ∈ ids ↔ ∃ v, dCountryKeyByAlpha2ID d !! k = Some v ∧ f (decodeCountryKey v) = id
  | None => ∀ k v, dCountryKeyByAlpha2ID d !! k = Some v → f (decodeCountryKey v) ≠ id
  end.

Lemma ids_with_elem d f id k :
  k ∈ ids_with f id (iter (dCountryKeyByAlpha2ID d)) ↔
  ∃ v, dCountryKeyByAlpha2ID d !! k = Some v ∧ f (decodeCountryKey v) = id.
Proof.
  unfold ids_with. rewrite list_elem_of_fmap. split.
  - intros ([k' v] & -> & [Hf Hin]%list_elem_of_filter). exists v. simpl in *. split; [|done].
    rewrite iter_perm in Hin. by apply elem_of_map_to_list.
  - intros (v & Hv & Hf). exists (k, v). split; [done|]. apply list_elem_of_filter. split; [done|].
    rewrite iter_perm. by apply elem_of_map_to_list.
Qed.

Lemma ids_with_NoDup d f id : NoDup (ids_with f id (iter (dCountryKeyByAlpha2ID d))).
Proof.
  unfold ids_with. apply (sublist_NoDup _ (fst <$> iter (dCountryKeyByAlpha2ID d))).
  - rewrite iter_perm. apply NoDup_fst_map_to_list.
  - apply fmap_sublist, sublist_filter.
Qed.

Lemma sorted_strict l : StronglySorted Z.le l → NoDup l → StronglySorted Z.lt l.
Proof.
  induction 1 as [|a l Hs IH Hall]; intros Hnd; [constructor|].
  apply NoDup_cons in Hnd as [Hn Hnd]. constructor; [by apply IH|].
  apply List.Forall_forall. intros x Hx. rewrite List.Forall_forall in Hall. specialize (Hall x Hx).
  assert (x ≠ a) by (intros ->; apply Hn; by apply list_elem_of_In). lia.
Qed.

Lemma grouped_spec d f id :
  grouped d f id (sortIDs (group_fold f (iter (dCountryKeyByAlpha2ID d)) ∅) !! id).
Proof.
  pose proof (group_sorted f id (iter (dCountryKeyByAlpha2ID d))) as Hg.
  pose proof (ids_with_NoDup d f id) as Hnd. unfold grouped.
  destruct (sortIDs _ !! id) as [ids|].
  - destruct Hg as (Hne & Hs & Hp). split; [done|]. split; [apply sorted_strict; [done|by rewrite Hp]|].
    intros k. rewrite Hp. apply ids_with_elem.
  - intros k v Hk Hf. assert (Hin : k ∈ ids_with f id (iter (dCountryKeyByAlpha2ID d))).
    { apply ids_with_elem. by exists v. }
    rewrite Hg in Hin. by apply not_elem_of_nil in Hin.
Qed.

(** A unique-code index: what it returns has the code, and every non-zero
    code held is found. *)
Lemma unique_fold (f : countryKeyElem → Z) (l : list (Z * Z)) id : ∀ m : gmap Z Z,
  match foldl (fun m kv => <[f (decodeCountryKey kv.2) := kv.1]> m) m l !! id with
  | Some k => (∃ v, (k, v) ∈ l ∧ f (decodeCountryKey v) = id) ∨ m !! id = Some k
  | None => m !! id = None ∧ ids_with f id l = []
  end.
Proof.
  unfold ids_with. induction l as [|[k v] l IH]; intros m; simpl.
  { destruct (m !! id); [by right|done]. }
  specialize (IH (<[f (decodeCountryKey v) := k]> m)). rewrite filter_cons; simpl.
  destruct (foldl _ _ l !! id) as [k'|].
  - destruct IH as [(v' & Hin & Hf)|Hm].
    + left. exists v'. split; [by right|done].
    + destruct (decide (f (decodeCountryKey v) = id)) as [<-|Hne].
      * rewrite lookup_insert_eq in Hm. simplify_eq. left. exists v. split; [by left|done].
      * rewrite lookup_insert_ne in Hm by done. by right.
  - destruct IH as [Hm Hl]. destruct (decide (f (decodeCountryKey v) = id)) as [<-|Hne].
    + by rewrite lookup_insert_eq in Hm.
    + by rewrite lookup_insert_ne in Hm.
Qed.

Definition coded (d : Data) (f : countryKeyElem → Z) (id : Z) (r : option Z) : Prop :=
  match r with
  | Some k => ∃ v, dCountryKeyByAlpha2ID d !! k = Some v ∧ f (decodeCountryKey v) = id
  | None => ∀ k v, dCountryKeyByAlpha2ID d !! k = Some v → f (decodeCountryKey v) ≠ id
  end.

Lemma coded_spec d f id :
  coded d f id (foldl (fun (m : gmap Z Z) kv => <[f (decodeCountryKey kv.2) := kv.1]> m) ∅
    (iter (dCountryKeyByAlpha2ID d)) !! id).
Proof.
  pose proof (unique_fold f (iter (dCountryKeyByAlpha2ID d)) id ∅) as Hu. unfold coded.
  destruct (foldl _ _ _ !! id) as [k|].
  - destruct Hu as [(v & Hin & Hf)|Hm]; [|done]. exists v. split; [|done].
    rewrite iter_perm in Hin. by apply elem_of_map_to_list.
  - intros k v Hk Hf. destruct Hu as [_ Hu].
    assert (Hin : k ∈ ids_with f id (iter (dCountryKeyByAlpha2ID d))) by (apply ids_with_elem; by exists v).
    rewrite Hu in Hin. by apply not_elem_of_nil in Hin.
Qed.

Lemma genCountryIndexes_spec d (d' := genCountryIndexes d) id :
  grouped d k_region id (dAlpha2IDsByRegionID d' !! id) ∧
  grouped d k_subregion id (dAlpha2IDsBySubRegionID d' !! id) ∧
  grouped d k_intregion id (dAlpha2IDsByIntermediateRegionID d' !! id) ∧
  grouped d k_status id (dAlpha2IDsByStatusID d' !! id) ∧
  grouped d k_tld id (dAlpha2IDsByTLD d' !! id) ∧
  (id ≠ 0 → coded d k_alpha3 id (dAlpha2IDByAlpha3ID d' !! id)) ∧
  (id ≠ 0 → coded d k_numeric id (dAlpha2IDByNumericID d' !! id)).
Proof.
  subst d'. unfold genCountryIndexes.
  destruct (fold_groups (iter (dCountryKeyByAlpha2ID d)) (clearIndexes d)) as (H1&H2&H3&H4&H5&H6&H7).
  cbv [finishIndexes dAlpha2IDsByRegionID dAlpha2IDsBySubRegionID dAlpha2IDsByIntermediateRegionID
    dAlpha2IDsByStatusID dAlpha2IDsByTLD dAlpha2IDByAlpha3ID dAlpha2IDByNumericID] in *.
  rewrite H1, H2, H3, H4, H5, H6, H7. repeat split; try apply grouped_spec.
  - intros Hid. rewrite lookup_delete_ne by done. apply coded_spec.
  - intros Hid. rewrite lookup_delete_ne by done. apply coded_spec.
Qed.

(** ** Reading back a custom dataset *)

Lemma index_by_notin key s l : ∀ k m, s ∉ key <$> l → index_by key k l m !! s = m !! s.
Proof.
  induction l as [|v l IH]; intros k m Hn; [done|]. cbn [index_by].
  rewrite IH, lookup_insert_ne; [done|set_solver..].
Qed.

Lemma index_by_nodup key l : ∀ k m i e, NoDup (key <$> l) → 0 <= k → k + Z.of_nat (length l) <= 256 →
  l !! i = Some e → index_by key k l m !! key e = Some (k + Z.of_nat i).
Proof.
  induction l as [|v l IH]; intros k m i e Hnd Hk Hl Hi; [done|].
  cbn [fmap list_fmap] in Hnd. apply NoDup_cons in Hnd as [Hn Hnd]. cbn [length] in Hl.
  destruct i as [|i]; simpl in Hi.
  - injection Hi as ->. cbn [index_by]. rewrite index_by_notin, lookup_insert_eq by done.
    rewrite wrapU_small by (unfold inU; lia). f_equal. lia.
  - cbn [index_by]. rewrite (IH (k + 1) _ i e) by (done || lia). f_equal. lia.
Qed.

Lemma index_by_Some key l : ∀ k m s v, index_by key k l m !! s = Some v →
  m !! s = Some v ∨ ∃ i e, l !! i = Some e ∧ key e = s ∧ v = wrapU 8 (k + Z.of_nat i).
Proof.
  induction l as [|w l IH]; intros k m s v Hi; [by left|]. cbn [index_by] in Hi.
  destruct (IH _ _ _ _ Hi) as [Hm|(i & e & He & Hk & ->)].
  - destruct (decide (key w = s)) as [<-|Hne].
    + rewrite lookup_insert_eq in Hm. injection Hm as <-. right. exists O, w.
      split; [done|]. split; [done|]. f_equal. lia.
    + rewrite lookup_insert_ne in Hm by done. by left.
  - right. exists (S i), e. split; [done|]. split; [done|]. f_equal. lia.
Qed.

Lemma enumByID_lookup l (i : nat) e : l !! i = Some e → enumByID l (Z.of_nat i) = Ok e.
Proof.
  intros Hi. pose proof (lookup_lt_Some _ _ _ Hi). unfold enumByID.
  rewrite (proj2 (Z.ltb_ge _ _)), (proj2 (Z.leb_gt _ _)) by lia. simpl. by rewrite Nat2Z.id, Hi.
Qed.

(** At most 31 distinct codes besides the empty one, as many as the five
    bits of a key can number. *)
Definition small (pairs : list enumData) : Prop := (length (remove_dups ([] :: (code <$> pairs))) <= 32)%nat.

Lemma keys_small pairs keys : NoDup keys → (∀ c, c ∈ keys ↔ c = [] ∨ c ∈ code <$> pairs) →
  small pairs → (length keys <= 32)%nat.
Proof.
  intros Hnd Hel Hs. unfold small in Hs. replace (length keys) with (length (remove_dups ([] :: (code <$> pairs)))); [done|].
  apply Permutation_length, NoDup_Permutation; [apply NoDup_remove_dups|done|].
  intros c. rewrite elem_of_remove_dups, elem_of_cons, Hel. done.
Qed.

(** A key keeps five bits of an identifier. *)
Definition low5 (id : Z) : Z := Z.land id (Z.ones 5).

Lemma low5_mod id : low5 id = id mod 32.
Proof. unfold low5. by rewrite Z.land_ones by lia. Qed.

(** The catalog of a custom dataset finds one of its codes again, and that is
    the code given if there are few enough. *)
Lemma catalog_id pairs cat c : collectCatalog pairs = Some cat → c ∈ code <$> pairs →
  ∃ c', (c' = [] ∨ c' ∈ code <$> pairs) ∧ (small pairs → c' = c) ∧
    enumByID cat (low5 (or_zero (catIDByCode (genCatalogIndexes unicodeUpper (MkCatalog cat ∅ ∅)) c))) =
      Ok (MkEnum c' (first_name pairs c')).
Proof.
  intros Hcat Hc. destruct (collectCatalog_spec pairs) as (keys & Hk & Hnd & Hel & H0).
  rewrite Hk in Hcat. injection Hcat as <-.
  set (mk := fun c => MkEnum c (first_name pairs c)).
  assert (Hget : ∀ (i : nat) c', keys !! i = Some c' → enumByID (mk <$> keys) (Z.of_nat i) = Ok (mk c')).
  { intros i c' Hi. apply enumByID_lookup. by rewrite list_lookup_fmap, Hi. }
  destruct c as [|b c].
  { exists []. split; [by left|]. split; [done|]. exact (Hget O [] H0). }
  unfold catIDByCode, genCatalogIndexes. cbn [IDByCode byID].
  assert (Hin : b :: c ∈ keys) by (apply Hel; by right).
  apply list_elem_of_lookup in Hin as [i Hi]. pose proof (lookup_lt_Some _ _ _ Hi) as Hlt.
  destruct (le_lt_dec (length keys) 32) as [Hle|Hgt].
  - exists (b :: c). split; [by right|]. split; [done|].
    change (b :: c) with (code (mk (b :: c))) at 1.
    rewrite (index_by_nodup code (mk <$> keys) 0 ∅ i (mk (b :: c))).
    + simpl. rewrite low5_mod, Z.mod_small by lia. by apply Hget.
    + rewrite <- list_fmap_compose. replace (code ∘ mk <$> keys) with keys; [done|].
      symmetry. apply list_fmap_id.
    + lia.
    + rewrite length_fmap. lia.
    + by rewrite list_lookup_fmap, Hi.
  - assert (Hpos : ∃ j : nat, low5 (or_zero (lookup_or (index_by code 0 (mk <$> keys) ∅ !! (b :: c)))) = Z.of_nat j ∧ (j < length keys)%nat).
    { rewrite low5_mod. set (v := or_zero _). exists (Z.to_nat (v mod 32)).
      pose proof (Z.mod_pos_bound v 32 ltac:(lia)). rewrite Z2Nat.id by lia. split; [done|lia]. }
    destruct Hpos as (j & Hj & Hjl). rewrite Hj.
    destruct (lookup_lt_is_Some_2 keys j Hjl) as [c' Hc']. exists c'. split; [|split].
    + apply Hel. by eapply list_elem_of_lookup_2.
    + intros Hs. pose proof (keys_small _ _ Hnd Hel Hs). lia.
    + by apply Hget.
Qed.

(** A region read back: one of the dataset, under the name its code was first
    given, and the one given, if the dataset names no more regions than a key
    can number. *)
Definition reads_region (pairs : list enumData) (given got nm : gostring) : Prop :=
  (got = [] ∨ got ∈ code <$> pairs) ∧ nm = first_name pairs got ∧ (small pairs → got = given).

(** What a lookup returns for a loaded record: the canonical status, the
    codes that are well formed, the names, and the regions. *)
Record describes (cdata : list CountryData) (c r : CountryData) : Prop := Describes {
  ds_status : ∃ e, statusByID_table !! Z.to_nat (StatusCode r) = Some e ∧ 0 <= StatusCode r ∧
    Status r = name e ∧ ToUpper (name e) = ToUpper (Status c);
  ds_alpha2 : Alpha2Code r = Alpha2Code c;
  ds_alpha3 : Alpha3Code r = match encodeAlpha3 (Alpha3Code c) with Ok _ => Alpha3Code c | _ => [] end;
  ds_numeric : NumericCode r =
    match encodeNumeric (NumericCode c) with Ok n => if 0 <? n then NumericCode c else [] | _ => [] end;
  ds_english : NameEnglish r = NameEnglish c;
  ds_french : NameFrench r = NameFrench c;
  ds_region : reads_region (region_pairs cdata) (RegionCode c) (RegionCode r) (Region r);
  ds_subregion : reads_region (subregion_pairs cdata) (SubRegionCode c) (SubRegionCode r) (SubRegion r);
  ds_intregion : reads_region (intregion_pairs cdata) (IntermediateRegionCode c) (IntermediateRegionCode r) (IntermediateRegion r);
  ds_tld : TLD r = match encodeTLD (TLD c) with Ok _ => TLD c | _ => [] end
}.

(** A record that [New] accepts. *)
Definition acceptable (c : CountryData) : Prop :=
  (∃ e, e ∈ statusByID_table ∧ ToUpper (name e) = ToUpper (Status c)) ∧ ∃ a2, encodeAlpha2 (Alpha2Code c) = Ok a2.

Definition codes_bytes (c : CountryData) : Prop :=
  List.Forall is_byte (Alpha2Code c) ∧ List.Forall is_byte (Alpha3Code c) ∧
  List.Forall is_byte (NumericCode c) ∧ List.Forall is_byte (TLD c).

Lemma status_names : ∀ e, e ∈ statusByID_table →
  is_Some (dStatusIDByName (statusMap unicodeUpper) !! ToUpper (name e)).
Proof.
  intros e He. unfold statusByID_table in He.
  repeat (apply elem_of_cons in He as [-> | He]; [vm_compute; by eexists|]). by apply not_elem_of_nil in He.
Qed.

Lemma status_id s v : dStatusIDByName (statusMap unicodeUpper) !! s = Some v →
  ∃ e, statusByID_table !! Z.to_nat v = Some e ∧ 0 <= v < 7 ∧ ToUpper (name e) = s.
Proof.
  intros Hv. apply index_by_Some in Hv as [Hv|(i & e & He & Hk & ->)]; [by rewrite lookup_empty in Hv|].
  exists e. pose proof (lookup_lt_Some _ _ _ He) as Hi. simpl in Hi.
  rewrite wrapU_small by (unfold inU; lia). rewrite Z.add_0_l, Nat2Z.id. split; [done|]. split; [lia|done].
Qed.

(** The data a custom dataset gives rise to, before the country tables. *)
Definition custom_base (r s i : list enumData) : Data :=
  genRegionIndexes unicodeUpper (set_catalogs (statusMap unicodeUpper) r s i).

Section Custom.
Context (cdata : list CountryData) (rcat scat icat : list enumData).
Hypothesis Hr : collectCatalog (region_pairs cdata) = Some rcat.
Hypothesis Hs : collectCatalog (subregion_pairs cdata) = Some scat.
Hypothesis Hi : collectCatalog (intregion_pairs cdata) = Some icat.
Hypothesis bytes_ok : ∀ c, c ∈ cdata → codes_bytes c.

Abbreviation base := (custom_base rcat scat icat).

(** The element [countryKey] packs. *)
Definition elem_of (c : CountryData) (status alpha2 : Z) : countryKeyElem :=
  MkKeyElem status alpha2 (or_zero (encodeAlpha3 (Alpha3Code c))) (or_zero (encodeNumeric (NumericCode c)))
    (or_zero (regionIDByCode base (RegionCode c))) (or_zero (subRegionIDByCode base (SubRegionCode c)))
    (or_zero (intermediateRegionIDByCode base (IntermediateRegionCode c))) (or_zero (encodeTLD (TLD c))).

(** What the key keeps of it. *)
Definition kept_of (c : CountryData) (status alpha2 : Z) : countryKeyElem :=
  MkKeyElem status alpha2 (or_zero (encodeAlpha3 (Alpha3Code c))) (or_zero (encodeNumeric (NumericCode c)))
    (low5 (or_zero (regionIDByCode base (RegionCode c)))) (low5 (or_zero (subRegionIDByCode base (SubRegionCode c))))
    (low5 (or_zero (intermediateRegionIDByCode base (IntermediateRegionCode c)))) (or_zero (encodeTLD (TLD c))).

Lemma in_pairs c : c ∈ cdata →
  RegionCode c ∈ code <$> region_pairs cdata ∧ SubRegionCode c ∈ code <$> subregion_pairs cdata ∧
  IntermediateRegionCode c ∈ code <$> intregion_pairs cdata.
Proof.
  intros Hc. unfold region_pairs, subregion_pairs, intregion_pairs. rewrite <- !list_fmap_compose.
  split_and!; apply list_elem_of_fmap; by exists c.
Qed.

Lemma region_ids c : c ∈ cdata →
  (∃ e, regionByID base (low5 (or_zero (regionIDByCode base (RegionCode c)))) = Ok e ∧
     reads_region (region_pairs cdata) (RegionCode c) (code e) (name e)) ∧
  (∃ e, subRegionByID base (low5 (or_zero (subRegionIDByCode base (SubRegionCode c)))) = Ok e ∧
     reads_region (subregion_pairs cdata) (SubRegionCode c) (code e) (name e)) ∧
  (∃ e, intermediateRegionByID base (low5 (or_zero (intermediateRegionIDByCode base (IntermediateRegionCode c)))) = Ok e ∧
     reads_region (intregion_pairs cdata) (IntermediateRegionCode c) (code e) (name e)).
Proof.
  intros (H1 & H2 & H3)%in_pairs. split; [|split].
  - destruct (catalog_id (region_pairs cdata) rcat _ Hr H1) as (c' & Hin & Hs' & He). by eexists.
  - destruct (catalog_id (subregion_pairs cdata) scat _ Hs H2) as (c' & Hin & Hs' & He). by eexists.
  - destruct (catalog_id (intregion_pairs cdata) icat _ Hi H3) as (c' & Hin & Hs' & He). by eexists.
Qed.

Lemma countryKey_spec c : c ∈ cdata →
  match countryKey unicodeUpper base c with
  | Ok (a2, ck) => ∃ st, encodeAlpha2 (Alpha2Code c) = Ok a2 ∧ ck = encodeCountryKey (elem_of c st a2) ∧
      truncated (elem_of c st a2) = kept_of c st a2 ∧ acceptable c ∧
      ∃ e, statusByID_table !! Z.to_nat st = Some e ∧ 0 <= st < 7 ∧ ToUpper (name e) = ToUpper (Status c)
  | Error e => ¬ acceptable c
  end.
Proof.
  intros Hc. unfold countryKey, statusIDByName.
  change (dStatusIDByName base) with (dStatusIDByName (statusMap unicodeUpper)).
  destruct (dStatusIDByName (statusMap unicodeUpper) !! ToUpper (Status c)) as [st|] eqn:Hst; simpl result_bind.
  2:{ intros [(e & He & Heq) _]. pose proof (status_names e He) as Hsome. rewrite Heq, Hst in Hsome. by destruct Hsome. }
  destruct (bytes_ok c Hc) as (Hb2 & Hb3 & Hbn & Hbt).
  pose proof (encodeAlpha2_spec (Alpha2Code c) Hb2) as H2.
  destruct (encodeAlpha2 (Alpha2Code c)) as [a2|e2] eqn:Ha2; simpl result_bind.
  2:{ intros [_ [a Ha]]. congruence. }
  destruct (status_id _ _ Hst) as (e & He & Hst7 & Heq). exists st.
  split; [done|]. split; [done|]. split.
  - unfold truncated, elem_of, kept_of, low5.
    cbn [k_status k_alpha2 k_alpha3 k_numeric k_region k_subregion k_intregion k_tld].
    pose proof (encodeAlpha3_spec _ Hb3). pose proof (encodeNumeric_spec _ Hbn). pose proof (encodeTLD_spec _ Hbt).
    rewrite !Z.land_ones by lia. f_equal; try done; apply Z.mod_small; [lia|lia|..].
    + destruct (encodeAlpha3 _); simpl; lia.
    + destruct (encodeNumeric _); simpl; lia.
    + destruct (encodeTLD _); simpl; lia.
  - split; [|by exists e]. split; [|by exists a2]. exists e.
    split; [by eapply list_elem_of_lookup_2|done].
Qed.

(** The tables hold, for each alpha-2 ID, its last record. *)
Definition tables_ok (l : list CountryData) (names : gmap Z Names) (keys : gmap Z Z) : Prop :=
  ∀ a2, match last (filter (fun c => encodeAlpha2 (Alpha2Code c) = Ok a2) l) with
        | Some c => names !! a2 = Some (MkNames (NameEnglish c) (NameFrench c)) ∧
            ∃ st e, keys !! a2 = Some (encodeCountryKey (elem_of c st a2)) ∧
              truncated (elem_of c st a2) = kept_of c st a2 ∧
              statusByID_table !! Z.to_nat st = Some e ∧ 0 <= st < 7 ∧ ToUpper (name e) = ToUpper (Status c)
        | None => keys !! a2 = None
        end.

Lemma loadKeys_spec l : ∀ pre names keys,
  (∀ c, c ∈ l → c ∈ cdata) → tables_ok pre names keys →
  match loadKeys unicodeUpper base l names keys with
  | Ok (names', keys') => tables_ok (pre ++ l) names' keys' ∧ ∀ c, c ∈ l → acceptable c
  | Error e => ∃ c, c ∈ l ∧ ¬ acceptable c
  end.
Proof.
  induction l as [|c l IH]; intros pre names keys Hin Ht; simpl.
  { rewrite app_nil_r. split; [done|]. by intros c ?%not_elem_of_nil. }
  pose proof (countryKey_spec c (Hin c ltac:(left))) as Hk.
  destruct (countryKey unicodeUpper base c) as [[a2 ck]|e]; simpl; [|by exists c; split; [left|]].
  destruct Hk as (st & Ha2 & -> & Hfit & Hacc & e & He & Hst & Heq).
  specialize (IH (pre ++ [c]) (<[a2 := MkNames (NameEnglish c) (NameFrench c)]> names)
    (<[a2 := encodeCountryKey (elem_of c st a2)]> keys) (fun c' H' => Hin c' (list_elem_of_further _ _ _ H'))).
  rewrite <- app_assoc in IH. simpl in IH.
  assert (Ht' : tables_ok (pre ++ [c]) (<[a2 := MkNames (NameEnglish c) (NameFrench c)]> names)
    (<[a2 := encodeCountryKey (elem_of c st a2)]> keys)).
  { intros a. rewrite filter_app. destruct (decide (a2 = a)) as [<-|Hne].
    - rewrite filter_cons_True, filter_nil, last_snoc, !lookup_insert_eq by done. split; [done|].
      exists st, e. done.
    - rewrite filter_cons_False, filter_nil, app_nil_r, !lookup_insert_ne by congruence. apply Ht. }
  specialize (IH Ht'). destruct (loadKeys unicodeUpper base l _ _) as [[names' keys']|e'].
  - destruct IH as [Hok Hall]. split; [done|]. intros c' [-> | Hc']%elem_of_cons; [done|by apply Hall].
  - destruct IH as (c' & Hc' & Hn). exists c'. split; [by right|done].
Qed.

(** Optional codes read back as they were, or empty. *)
Lemma alpha3_back a : List.Forall is_byte a →
  (if 0 <? or_zero (encodeAlpha3 a) then decodeAlpha3 (or_zero (encodeAlpha3 a)) else []) =
  match encodeAlpha3 a with Ok _ => a | Error _ => [] end.
Proof.
  intros Hb. pose proof (encodeAlpha3_spec a Hb) as H. destruct (encodeAlpha3 a) as [v|]; simpl; [|done].
  destruct H as (_ & _ & Hv & Hd). by rewrite (proj2 (Z.ltb_lt _ _)) by lia.
Qed.

Lemma numeric_back a : List.Forall is_byte a →
  (if 0 <? or_zero (encodeNumeric a) then numericStr (or_zero (encodeNumeric a)) else Some []) =
  Some match encodeNumeric a with Ok n => if 0 <? n then a else [] | Error _ => [] end.
Proof.
  intros Hb. pose proof (encodeNumeric_spec a Hb) as H. destruct (encodeNumeric a) as [v|]; simpl; [|done].
  destruct H as (_ & _ & Hv & Hd). by destruct (0 <? v).
Qed.

Lemma tld_back a : List.Forall is_byte a →
  (if 0 <? or_zero (encodeTLD a) then decodeTLD (or_zero (encodeTLD a)) else Some []) =
  Some match encodeTLD a with Ok _ => a | Error _ => [] end.
Proof.
  intros Hb. pose proof (encodeTLD_spec a Hb) as H. destruct (encodeTLD a) as [v|]; simpl; [|done].
  destruct H as (_ & _ & Hv & Hd). by rewrite (proj2 (Z.ltb_lt _ _)) by lia.
Qed.

Abbreviation loaded names keys := (genCountryIndexes (set_countries base names keys)).

(** The lookups of the loaded data read the base tables. *)
Lemma loaded_lookups names keys id :
  countryKeyByAlpha2ID (loaded names keys) id = lookup_or (keys !! id) ∧
  countryNamesByAlpha2ID (loaded names keys) id = lookup_or (names !! id) ∧
  statusByID (loaded names keys) id = enumByID statusByID_table id ∧
  regionByID (loaded names keys) id = regionByID base id ∧
  subRegionByID (loaded names keys) id = subRegionByID base id ∧
  intermediateRegionByID (loaded names keys) id = intermediateRegionByID base id.
Proof.
  destruct (genCountryIndexes_tables (set_countries base names keys)) as (H1&_&H3&H4&H5&H6&H7).
  unfold countryKeyByAlpha2ID, countryNamesByAlpha2ID, statusByID, regionByID, subRegionByID, intermediateRegionByID.
  rewrite H1, H3, H4, H5, H6, H7. repeat split.
Qed.

Lemma read_back names keys a2 : tables_ok cdata names keys →
  match last (filter (fun c => encodeAlpha2 (Alpha2Code c) = Ok a2) cdata) with
  | Some c => ∃ r, countryByAlpha2ID (loaded names keys) a2 = Some (Ok r) ∧ describes cdata c r
  | None => countryByAlpha2ID (loaded names keys) a2 = Some (Error ErrNotFound)
  end.
Proof.
  intros Ht. specialize (Ht a2). unfold countryByAlpha2ID. pose proof (loaded_lookups names keys) as Hlk.
  rewrite (proj1 (Hlk a2)).
  destruct (last _) as [c|] eqn:Hlast; [|by rewrite Ht].
  apply last_Some in Hlast as [l Hl].
  assert (Hc : c ∈ cdata ∧ encodeAlpha2 (Alpha2Code c) = Ok a2).
  { assert (Hin : c ∈ filter (fun c => encodeAlpha2 (Alpha2Code c) = Ok a2) cdata) by (rewrite Hl; set_solver).
    by apply list_elem_of_filter in Hin as [? ?]. }
  destruct Hc as [Hc Ha2]. destruct Ht as (Hnames & st & e & Hk & Hfit & He & Hst & Heq). rewrite Hk.
  cbn [lookup_or or_bind]. rewrite decode_encode, Hfit.
  destruct (bytes_ok c Hc) as (Hb2 & Hb3 & Hbn & Hbt).
  pose proof (encodeAlpha2_spec _ Hb2) as Hd2. rewrite Ha2 in Hd2. destruct Hd2 as (_ & _ & _ & Hd2).
  destruct (region_ids c Hc) as ((er & Hr1 & Hr1') & (es & Hr2 & Hr2') & (ei & Hr3 & Hr3')).
  cbn [kept_of k_status k_alpha2]. rewrite (proj1 (proj2 (proj2 (Hlk st)))).
  assert (Hstat : enumByID statusByID_table st = Ok e).
  { rewrite <- (Z2Nat.id st) by lia. by apply enumByID_lookup. }
  rewrite Hstat. cbn [or_bind].
  rewrite Hd2. cbn [mbind option_bind or_bind]. unfold populateCountryDetails.
  cbn [kept_of k_alpha3 k_numeric k_tld k_region k_subregion k_intregion k_alpha2 Alpha3Code NumericCode TLD].
  pose proof (numeric_back _ Hbn) as Hnum. pose proof (tld_back _ Hbt) as Htld.
  rewrite (alpha3_back _ Hb3). rewrite Hnum. cbn [mbind option_bind].
  rewrite Htld. cbn [mbind option_bind].
  rewrite (proj1 (proj2 (Hlk a2))), Hnames.
  destruct (Hlk (low5 (or_zero (regionIDByCode base (RegionCode c))))) as (_&_&_&-> &_&_).
  destruct (Hlk (low5 (or_zero (subRegionIDByCode base (SubRegionCode c))))) as (_&_&_&_&-> &_).
  destruct (Hlk (low5 (or_zero (intermediateRegionIDByCode base (IntermediateRegionCode c))))) as (_&_&_&_&_&->).
  rewrite Hr1, Hr2, Hr3. cbn [result_bind].
  eexists. split; [reflexivity|]. constructor; simpl; try done. exists e. split; [done|]. split; [lia|done].
Qed.
End Custom.

End Facts.

(** ** The query indexes *)

Lemma grouped_unique d f id r r' : grouped d f id r → grouped d f id r' → r = r'.
Proof.
  destruct r as [ids|], r' as [ids'|]; simpl; [..|done].
  - intros (_ & Hs & He) (_ & Hs' & He'). f_equal.
    assert (Hnd : ∀ l, StronglySorted Z.lt l → NoDup l).
    { induction 1 as [|a l _ IH Hall]; constructor; [|done].
      intros Hin%list_elem_of_In. rewrite List.Forall_forall in Hall. specialize (Hall a Hin). lia. }
    assert (Hle : ∀ l, StronglySorted Z.lt l → StronglySorted Z.le l).
    { induction 1 as [|a l _ IH Hall]; constructor; [done|]. eapply List.Forall_impl; [|done]. simpl. lia. }
    apply (StronglySorted_unique Z.le); [by apply Hle..|].
    apply NoDup_Permutation; [by apply Hnd..|]. intros k. by rewrite He, He'.
  - intros (Hne & _ & He) Hn. destruct ids as [|k ids]; [done|].
    destruct (proj1 (He k) ltac:(left)) as (v & Hv & Hf). by destruct (Hn k v Hv).
  - intros Hn (Hne & _ & He). destruct ids' as [|k ids]; [done|].
    destruct (proj1 (He k) ltac:(left)) as (v & Hv & Hf). by destruct (Hn k v Hv).
Qed.

Definition result_option {A} (r : result code_error A) : option A :=
  match r with Ok a => Some a | Error _ => None end.

Lemma lookup_or_option {A} (o : option A) : result_option (lookup_or o) = o.
Proof. by destruct o. Qed.

(** The lookups of the indexes, as functions of the data. *)
Inductive group := ByRegion | BySubRegion | ByIntermediateRegion | ByStatus | ByTLD.

Definition group_field (g : group) : countryKeyElem → Z :=
  match g with
  | ByRegion => k_region | BySubRegion => k_subregion | ByIntermediateRegion => k_intregion
  | ByStatus => k_status | ByTLD => k_tld
  end.

Definition alpha2IDsBy (g : group) : Data → Z → result code_error (list Z) :=
  match g with
  | ByRegion => alpha2IDsByRegionID | BySubRegion => alpha2IDsBySubRegionID
  | ByIntermediateRegion => alpha2IDsByIntermediateRegionID
  | ByStatus => alpha2IDsByStatusID | ByTLD => alpha2IDsByTLD
  end.

Lemma group_lookup iter (Hit : ∀ m, iter m ≡ₚ map_to_list m) d g id :
  grouped d (group_field g) id (result_option (alpha2IDsBy g (genCountryIndexes iter d) id)).
Proof.
  destruct (genCountryIndexes_spec iter Hit d id) as (H1 & H2 & H3 & H4 & H5 & _).
  destruct g; simpl; unfold alpha2IDsByRegionID, alpha2IDsBySubRegionID, alpha2IDsByIntermediateRegionID,
    alpha2IDsByStatusID, alpha2IDsByTLD; by rewrite lookup_or_option.
Qed.

(** Grouped queries: for each of the five groupings the index returns
    exactly the countries of the group, in strictly increasing order of their
    alpha-2 codes, whatever the iteration order of the country map; the
    alpha-3 and numeric indexes return a country bearing the code whenever
    one does, and that country when it is the only one. *)
Theorem grouped_queries iter iter' (d : Data) g id :
  (∀ m, iter m ≡ₚ map_to_list m) → (∀ m, iter' m ≡ₚ map_to_list m) →
  grouped d (group_field g) id (result_option (alpha2IDsBy g (genCountryIndexes iter d) id)) ∧
  result_option (alpha2IDsBy g (genCountryIndexes iter' d) id) =
    result_option (alpha2IDsBy g (genCountryIndexes iter d) id) ∧
  (id ≠ 0 →
    coded d k_alpha3 id (result_option (alpha2IDByAlpha3ID (genCountryIndexes iter d) id)) ∧
    coded d k_numeric id (result_option (alpha2IDByNumericID (genCountryIndexes iter d) id))).
Proof.
  intros Hit Hit'. split; [by apply group_lookup|]. split.
  - apply (grouped_unique d (group_field g) id); by apply group_lookup.
  - intros Hid. destruct (genCountryIndexes_spec iter Hit d id) as (_ & _ & _ & _ & _ & H6 & H7).
    unfold alpha2IDByAlpha3ID, alpha2IDByNumericID. rewrite !lookup_or_option. split; [by apply H6|by apply H7].
Qed.

(** ** A small dataset *)

Definition record (status a2 a3 num en region rcode tld : String.string) : CountryData :=
  MkCountryData 0 (str status) (str a2) (str a3) (str num) (str en) [] (str region) [] [] (str rcode) [] [] (str tld).

Definition sample : list CountryData :=
  [record "officially assigned" "IT" "ITA" "380" "Italy" "Europe" "150" "it";
   record "Officially Assigned" "FR" "FRA" "250" "France" "Europe!" "150" "fr";
   record "User-assigned" "XA" "" "000" "" "" "" ""].

Definition is_byteb (b : Z) : bool := (0 <=? b) && (b <? 256).

Definition codes_bytesb (c : CountryData) : bool :=
  forallb is_byteb (Alpha2Code c) && forallb is_byteb (Alpha3Code c) &&
  forallb is_byteb (NumericCode c) && forallb is_byteb (TLD c).

Lemma codes_bytesb_spec l : forallb codes_bytesb l = true → ∀ c, c ∈ l → codes_bytes c.
Proof.
  rewrite forallb_forall. intros Hl c Hc%list_elem_of_In. specialize (Hl c Hc).
  unfold codes_bytesb in Hl. rewrite !andb_true_iff, !forallb_forall in Hl.
  assert (Hb : ∀ s, (∀ x, List.In x s → is_byteb x = true) → List.Forall is_byte s).
  { intros s Hs. apply List.Forall_forall. intros x Hx. specialize (Hs x Hx). unfold is_byteb, is_byte in *. lia. }
  destruct Hl as [[[? ?] ?] ?]. unfold codes_bytes. split_and!; by apply Hb.
Qed.


(** The sample before its query indexes are generated; its two European
    countries come back in alpha-2 order, from either iteration order. *)
Definition sample_base : Data :=
  match loadData id sample (statusMap id) with Some (Ok d) => d | _ => statusMap id end.

Lemma grouped_queries_witness :
  result_option (alpha2IDsBy ByRegion (genCountryIndexes (fun m => reverse (map_to_list m)) sample_base) 1) =
    Some [6 * 32 + 18; 9 * 32 + 20] ∧
  grouped sample_base k_region 1 (Some [6 * 32 + 18; 9 * 32 + 20]) ∧
  coded sample_base k_alpha3 20513 (result_option (alpha2IDByAlpha3ID (genCountryIndexes map_to_list sample_base) 20513)).
Proof.
  assert (He : result_option (alpha2IDsBy ByRegion (genCountryIndexes map_to_list sample_base) 1) =
    Some [6 * 32 + 18; 9 * 32 + 20]) by (vm_compute; reflexivity).
  destruct (grouped_queries map_to_list (fun m => reverse (map_to_list m)) sample_base ByRegion 1
    (fun m => Permutation_refl (map_to_list m)) (fun m => reverse_Permutation (map_to_list m))) as (Hg & Hi & _).
  rewrite He in Hg, Hi. split; [exact Hi|]. split; [exact Hg|].
  destruct (grouped_queries map_to_list map_to_list sample_base ByRegion 20513
    (fun m => Permutation_refl (map_to_list m)) (fun m => Permutation_refl (map_to_list m))) as (_ & _ & H3).
  exact (proj1 (H3 ltac:(discriminate))).
Defined.

(** Two records sharing an alpha-3 code: the winner of the lookup is decided
    by the iteration order of the country map, not by the records' order. *)
Definition shared_alpha3 : list CountryData :=
  [record "Officially assigned" "AA" "AAA" "" "first" "" "" "";
   record "Officially assigned" "BB" "AAA" "" "second" "" "" ""].

Definition alpha3_winner (iter : gmap Z Z → list (Z * Z)) : option gostring :=
  match New id iter id shared_alpha3 with
  | Some (Ok d) => match CountryByAlpha3Code d (str "AAA") with Some (Ok r) => Some (Alpha2Code r) | _ => None end
  | _ => None
  end.

Example shared_alpha3_order :
  alpha3_winner map_to_list ≠ alpha3_winner (fun m => reverse (map_to_list m)).
Proof. vm_compute. discriminate. Qed.

(** With more than 31 region codes the identifiers exceed the five bits of
    the key, and a country is reported in another country's region. *)
Definition many_regions : list CountryData :=
  (fun i => MkCountryData 0 (str "Officially assigned") [65 + i / 26; 65 + i mod 26] [] [] [] []
     (str "R") [] [] [50 + i / 10; 48 + i mod 10] [] [] []) <$> seqZ 0 40.

Definition region_of (a2 : gostring) : option gostring :=
  match New id map_to_list id many_regions with
  | Some (Ok d) => match CountryByAlpha2Code d a2 with Some (Ok r) => Some (RegionCode r) | _ => None end
  | _ => None
  end.

Example too_many_regions :
  (RegionCode <$> (filter (fun c => Alpha2Code c = str "BK") many_regions)) = [str "56"] ∧
  region_of (str "BK") = Some (str "24").
Proof. split; vm_compute; reflexivity. Qed.
