(* ===== verification/CountryCodeData.v ===== *)
(** * [pkg/countrycode]: the embedded country tables

    [defaultData] of data.go: the catalogs, the names and the packed keys,
    entry by entry, in the order of the source. *)

From stdpp Require Import base list gmap sorting.
From Stdlib Require Import String.
From S2P Require Import Prelude GoString CountryKey CountryCode.

#[local] Open Scope Z_scope.

Definition enum (code name : String.string) : enumData := MkEnum (str code) (str name).

Definition names (k : Z) (en fr : String.string) : Z * Names := (k, MkNames (str en) (str fr)).

#[local] Open Scope string_scope.

Definition defaultRegions : list enumData := [
  enum "" "";
  enum "002" "Africa";
  enum "009" "Oceania";
  enum "019" "Americas";
  enum "142" "Asia";
  enum "150" "Europe"].

Definition defaultSubRegions : list enumData := [
  enum "" "";
  enum "015" "Northern Africa";
  enum "021" "Northern America";
  enum "030" "Eastern Asia";
  enum "034" "Southern Asia";
  enum "035" "South-eastern Asia";
  enum "039" "Southern Europe";
  enum "053" "Australia and New Zealand";
  enum "054" "Melanesia";
  enum "057" "Micronesia";
  enum "061" "Polynesia";
  enum "143" "Central Asia";
  enum "145" "Western Asia";
  enum "151" "Eastern Europe";
  enum "154" "Northern Europe";
  enum "155" "Western Europe";
  enum "202" "Sub-Saharan Africa";
  enum "419" "Latin America and the Caribbean"].

Definition defaultIntermediateRegions : list enumData := [
  enum "" "";
  enum "005" "South America";
  enum "011" "Western Africa";
  enum "013" "Central America";
  enum "014" "Eastern Africa";
  enum "017" "Middle Africa";
  enum "018" "Southern Africa";
  enum "029" "Caribbean"].

Definition countryNames_1 : list (Z * Names) := [
  names 0x0024 "Andorra" "Andorre (l')";
  names 0x0025 "United Arab Emirates (the)" "Émirats arabes unis (les)";
  names 0x0026 "Afghanistan" "Afghanistan (l')";
  names 0x0027 "Antigua and Barbuda" "Antigua-et-Barbuda";
  names 0x0029 "Anguilla" "Anguilla";
  names 0x002C "Albania" "Albanie (l')";
  names 0x002D "Armenia" "Arménie (l')";
  names 0x002F "Angola" "Angola (l')";
  names 0x0031 "Antarctica" "Antarctique (l')";
  names 0x0032 "Argentina" "Argentine (l')";
  names 0x0033 "American Samoa" "Samoa américaines (les)";
  names 0x0034 "Austria" "Autriche (l')";
  names 0x0035 "Australia" "Australie (l')";
  names 0x0037 "Aruba" "Aruba";
  names 0x0038 "Åland Islands" "Åland(les Îles)";
  names 0x003A "Azerbaijan" "Azerbaïdjan (l')";
  names 0x0041 "Bosnia and Herzegovina" "Bosnie-Herzégovine (la)";
  names 0x0042 "Barbados" "Barbade (la)";
  names 0x0044 "Bangladesh" "Bangladesh (le)";
  names 0x0045 "Belgium" "Belgique (la)";
  names 0x0046 "Burkina Faso" "Burkina Faso (le)";
  names 0x0047 "Bulgaria" "Bulgarie (la)";
  names 0x0048 "Bahrain" "Bahreïn";
  names 0x0049 "Burundi" "Burundi (le)";
  names 0x004A "Benin" "Bénin (le)";
  names 0x004C "Saint Barthélemy" "Saint-Barthélemy";
  names 0x004D "Bermuda" "Bermudes (les)";
  names 0x004E "Brunei Darussalam" "Brunéi Darussalam (le)";
  names 0x004F "Bolivia (Plurinational State of)" "Bolivie (État plurinational de)";
  names 0x0051 "Bonaire, Sint Eustatius and Saba" "Bonaire, Saint-Eustache et Saba";
  names 0x0052 "Brazil" "Brésil (le)";
  names 0x0053 "Bahamas (the)" "Bahamas (les)";
  names 0x0054 "Bhutan" "Bhoutan (le)";
  names 0x0056 "Bouvet Island" "Bouvet (l'Île)";
  names 0x0057 "Botswana" "Botswana (le)";
  names 0x0059 "Belarus" "Bélarus (le)"].

Definition countryNames_2 : list (Z * Names) := [
  names 0x005A "Belize" "Belize (le)";
  names 0x0061 "Canada" "Canada (le)";
  names 0x0063 "Cocos (Keeling) Islands (the)" "Cocos (les Îles)/ Keeling (les Îles)";
  names 0x0064 "Congo (the Democratic Republic of the)" "Congo (la République démocratique du)";
  names 0x0066 "Central African Republic (the)" "République centrafricaine (la)";
  names 0x0067 "Congo (the)" "Congo (le)";
  names 0x0068 "Switzerland" "Suisse (la)";
  names 0x0069 "Côte d'Ivoire" "Côte d'Ivoire (la)";
  names 0x006B "Cook Islands (the)" "Cook (les Îles)";
  names 0x006C "Chile" "Chili (le)";
  names 0x006D "Cameroon" "Cameroun (le)";
  names 0x006E "China" "Chine (la)";
  names 0x006F "Colombia" "Colombie (la)";
  names 0x0072 "Costa Rica" "Costa Rica (le)";
  names 0x0075 "Cuba" "Cuba";
  names 0x0076 "Cabo Verde" "Cabo Verde";
  names 0x0077 "Curaçao" "Curaçao";
  names 0x0078 "Christmas Island" "Christmas (l'Île)";
  names 0x0079 "Cyprus" "Chypre";
  names 0x007A "Czechia" "Tchéquie (la)";
  names 0x0085 "Germany" "Allemagne (l')";
  names 0x008A "Djibouti" "Djibouti";
  names 0x008B "Denmark" "Danemark (le)";
  names 0x008D "Dominica" "Dominique (la)";
  names 0x008F "Dominican Republic (the)" "dominicaine (la République)";
  names 0x009A "Algeria" "Algérie (l')";
  names 0x00A3 "Ecuador" "Équateur (l')";
  names 0x00A5 "Estonia" "Estonie (l')";
  names 0x00A7 "Egypt" "Égypte (l')";
  names 0x00A8 "Western Sahara*" "Sahara occidental (le)*";
  names 0x00B2 "Eritrea" "Érythrée (l')";
  names 0x00B3 "Spain" "Espagne (l')";
  names 0x00B4 "Ethiopia" "Éthiopie (l')";
  names 0x00C9 "Finland" "Finlande (la)";
  names 0x00CA "Fiji" "Fidji (les)";
  names 0x00CB "Falkland Islands (the) [Malvinas]" "Falkland (les Îles)/Malouines (les Îles)"].

Definition countryNames_3 : list (Z * Names) := [
  names 0x00CD "Micronesia (Federated States of)" "Micronésie (États fédérés de)";
  names 0x00CF "Faroe Islands (the)" "Féroé (les Îles)";
  names 0x00D2 "France" "France (la)";
  names 0x00E1 "Gabon" "Gabon (le)";
  names 0x00E2 "United Kingdom of Great Britain and Northern Ireland (the)" "Royaume-Uni de Grande-Bretagne et d'Irlande du Nord (le)";
  names 0x00E4 "Grenada" "Grenade (la)";
  names 0x00E5 "Georgia" "Géorgie (la)";
  names 0x00E6 "French Guiana" "Guyane française (la )";
  names 0x00E7 "Guernsey" "Guernesey";
  names 0x00E8 "Ghana" "Ghana (le)";
  names 0x00E9 "Gibraltar" "Gibraltar";
  names 0x00EC "Greenland" "Groenland (le)";
  names 0x00ED "Gambia (the)" "Gambie (la)";
  names 0x00EE "Guinea" "Guinée (la)";
  names 0x00F0 "Guadeloupe" "Guadeloupe (la)";
  names 0x00F1 "Equatorial Guinea" "Guinée équatoriale (la)";
  names 0x00F2 "Greece" "Grèce (la)";
  names 0x00F3 "South Georgia and the South Sandwich Islands" "Géorgie du Sud-et-les Îles Sandwich du Sud (la)";
  names 0x00F4 "Guatemala" "Guatemala (le)";
  names 0x00F5 "Guam" "Guam";
  names 0x00F7 "Guinea-Bissau" "Guinée-Bissau (la)";
  names 0x00F9 "Guyana" "Guyana (le)";
  names 0x010B "Hong Kong" "Hong Kong";
  names 0x010D "Heard Island and McDonald Islands" "Heard-et-Îles MacDonald (l'Île)";
  names 0x010E "Honduras" "Honduras (le)";
  names 0x0112 "Croatia" "Croatie (la)";
  names 0x0114 "Haiti" "Haïti";
  names 0x0115 "Hungary" "Hongrie (la)";
  names 0x0124 "Indonesia" "Indonésie (l')";
  names 0x0125 "Ireland" "Irlande (l')";
  names 0x012C "Israel" "Israël";
  names 0x012D "Isle of Man" "Île de Man";
  names 0x012E "India" "Inde (l')";
  names 0x012F "British Indian Ocean Territory (the)" "Indien (le Territoire britannique de l'océan)";
  names 0x0131 "Iraq" "Iraq (l')";
  names 0x0132 "Iran (Islamic Republic of)" "Iran (République Islamique d')"].

Definition countryNames_4 : list (Z * Names) := [
  names 0x0133 "Iceland" "Islande (l')";
  names 0x0134 "Italy" "Italie (l')";
  names 0x0145 "Jersey" "Jersey";
  names 0x014D "Jamaica" "Jamaïque (la)";
  names 0x014F "Jordan" "Jordanie (la)";
  names 0x0150 "Japan" "Japon (le)";
  names 0x0165 "Kenya" "Kenya (le)";
  names 0x0167 "Kyrgyzstan" "Kirghizistan (le)";
  names 0x0168 "Cambodia" "Cambodge (le)";
  names 0x0169 "Kiribati" "Kiribati";
  names 0x016D "Comoros (the)" "Comores (les)";
  names 0x016E "Saint Kitts and Nevis" "Saint-Kitts-et-Nevis";
  names 0x0170 "Korea (the Democratic People's Republic of)" "Corée (la République populaire démocratique de)";
  names 0x0172 "Korea (the Republic of)" "Corée (la République de)";
  names 0x0177 "Kuwait" "Koweït (le)";
  names 0x0179 "Cayman Islands (the)" "Caïmans (les Îles)";
  names 0x017A "Kazakhstan" "Kazakhstan (le)";
  names 0x0181 "Lao People's Democratic Republic (the)" "Lao (la République démocratique populaire)";
  names 0x0182 "Lebanon" "Liban (le)";
  names 0x0183 "Saint Lucia" "Sainte-Lucie";
  names 0x0189 "Liechtenstein" "Liechtenstein (le)";
  names 0x018B "Sri Lanka" "Sri Lanka";
  names 0x0192 "Liberia" "Libéria (le)";
  names 0x0193 "Lesotho" "Lesotho (le)";
  names 0x0194 "Lithuania" "Lituanie (la)";
  names 0x0195 "Luxembourg" "Luxembourg (le)";
  names 0x0196 "Latvia" "Lettonie (la)";
  names 0x0199 "Libya" "Libye (la)";
  names 0x01A1 "Morocco" "Maroc (le)";
  names 0x01A3 "Monaco" "Monaco";
  names 0x01A4 "Moldova (the Republic of)" "Moldova (la République de)";
  names 0x01A5 "Montenegro" "Monténégro (le)";
  names 0x01A6 "Saint Martin (French part)" "Saint-Martin (partie française)";
  names 0x01A7 "Madagascar" "Madagascar";
  names 0x01A8 "Marshall Islands (the)" "Marshall (les Îles)";
  names 0x01AB "North Macedonia" "Macédoine du Nord (la)"].

Definition countryNames_5 : list (Z * Names) := [
  names 0x01AC "Mali" "Mali (le)";
  names 0x01AD "Myanmar" "Myanmar (le)";
  names 0x01AE "Mongolia" "Mongolie (la)";
  names 0x01AF "Macao" "Macao";
  names 0x01B0 "Northern Mariana Islands (the)" "Mariannes du Nord (les Îles)";
  names 0x01B1 "Martinique" "Martinique (la)";
  names 0x01B2 "Mauritania" "Mauritanie (la)";
  names 0x01B3 "Montserrat" "Montserrat";
  names 0x01B4 "Malta" "Malte";
  names 0x01B5 "Mauritius" "Maurice";
  names 0x01B6 "Maldives" "Maldives (les)";
  names 0x01B7 "Malawi" "Malawi (le)";
  names 0x01B8 "Mexico" "Mexique (le)";
  names 0x01B9 "Malaysia" "Malaisie (la)";
  names 0x01BA "Mozambique" "Mozambique (le)";
  names 0x01C1 "Namibia" "Namibie (la)";
  names 0x01C3 "New Caledonia" "Nouvelle-Calédonie (la)";
  names 0x01C5 "Niger (the)" "Niger (le)";
  names 0x01C6 "Norfolk Island" "Norfolk (l'Île)";
  names 0x01C7 "Nigeria" "Nigéria (le)";
  names 0x01C9 "Nicaragua" "Nicaragua (le)";
  names 0x01CC "Netherlands (Kingdom of the)" "Pays-Bas (Royaume des)";
  names 0x01CF "Norway" "Norvège (la)";
  names 0x01D0 "Nepal" "Népal (le)";
  names 0x01D2 "Nauru" "Nauru";
  names 0x01D5 "Niue" "Niue";
  names 0x01DA "New Zealand" "Nouvelle-Zélande (la)";
  names 0x01ED "Oman" "Oman";
  names 0x0201 "Panama" "Panama (le)";
  names 0x0205 "Peru" "Pérou (le)";
  names 0x0206 "French Polynesia" "Polynésie française (la)";
  names 0x0207 "Papua New Guinea" "Papouasie-Nouvelle-Guinée (la)";
  names 0x0208 "Philippines (the)" "Philippines (les)";
  names 0x020B "Pakistan" "Pakistan (le)";
  names 0x020C "Poland" "Pologne (la)";
  names 0x020D "Saint Pierre and Miquelon" "Saint-Pierre-et-Miquelon"].

Definition countryNames_6 : list (Z * Names) := [
  names 0x020E "Pitcairn" "Pitcairn";
  names 0x0212 "Puerto Rico" "Porto Rico";
  names 0x0213 "Palestine, State of" "Palestine, État de";
  names 0x0214 "Portugal" "Portugal (le)";
  names 0x0217 "Palau" "Palaos (les)";
  names 0x0219 "Paraguay" "Paraguay (le)";
  names 0x0221 "Qatar" "Qatar (le)";
  names 0x0245 "Réunion" "Réunion (La)";
  names 0x024F "Romania" "Roumanie (la)";
  names 0x0253 "Serbia" "Serbie (la)";
  names 0x0255 "Russian Federation (the)" "Russie (la Fédération de)";
  names 0x0257 "Rwanda" "Rwanda (le)";
  names 0x0261 "Saudi Arabia" "Arabie saoudite (l')";
  names 0x0262 "Solomon Islands" "Salomon (les Îles)";
  names 0x0263 "Seychelles" "Seychelles (les)";
  names 0x0264 "Sudan (the)" "Soudan (le)";
  names 0x0265 "Sweden" "Suède (la)";
  names 0x0267 "Singapore" "Singapour";
  names 0x0268 "Saint Helena, Ascension and Tristan da Cunha" "Sainte-Hélène, Ascension et Tristan da Cunha";
  names 0x0269 "Slovenia" "Slovénie (la)";
  names 0x026A "Svalbard and Jan Mayen" "Svalbard et l'Île Jan Mayen (le)";
  names 0x026B "Slovakia" "Slovaquie (la)";
  names 0x026C "Sierra Leone" "Sierra Leone (la)";
  names 0x026D "San Marino" "Saint-Marin";
  names 0x026E "Senegal" "Sénégal (le)";
  names 0x026F "Somalia" "Somalie (la)";
  names 0x0272 "Suriname" "Suriname (le)";
  names 0x0273 "South Sudan" "Soudan du Sud (le)";
  names 0x0274 "Sao Tome and Principe" "Sao Tomé-et-Principe";
  names 0x0276 "El Salvador" "El Salvador";
  names 0x0278 "Sint Maarten (Dutch part)" "Saint-Martin (partie néerlandaise)";
  names 0x0279 "Syrian Arab Republic (the)" "République arabe syrienne (la)";
  names 0x027A "Eswatini" "Eswatini (l')";
  names 0x0283 "Turks and Caicos Islands (the)" "Turks-et-Caïcos (les Îles)";
  names 0x0284 "Chad" "Tchad (le)";
  names 0x0286 "French Southern Territories (the)" "Terres australes françaises (les)"].

Definition countryNames_7 : list (Z * Names) := [
  names 0x0287 "Togo" "Togo (le)";
  names 0x0288 "Thailand" "Thaïlande (la)";
  names 0x028A "Tajikistan" "Tadjikistan (le)";
  names 0x028B "Tokelau" "Tokelau (les)";
  names 0x028C "Timor-Leste" "Timor-Leste (le)";
  names 0x028D "Turkmenistan" "Turkménistan (le)";
  names 0x028E "Tunisia" "Tunisie (la)";
  names 0x028F "Tonga" "Tonga (les)";
  names 0x0292 "Türkiye" "Türkiye (la)";
  names 0x0294 "Trinidad and Tobago" "Trinité-et-Tobago (la)";
  names 0x0296 "Tuvalu" "Tuvalu (les)";
  names 0x0297 "Taiwan (Province of China)" "Taïwan (Province de Chine)";
  names 0x029A "Tanzania, the United Republic of" "Tanzanie (la République-Unie de)";
  names 0x02A1 "Ukraine" "Ukraine (l')";
  names 0x02A7 "Uganda" "Ouganda (l')";
  names 0x02AD "United States Minor Outlying Islands (the)" "Îles mineures éloignées des États-Unis (les)";
  names 0x02B3 "United States of America (the)" "États-Unis d'Amérique (les)";
  names 0x02B9 "Uruguay" "Uruguay (l')";
  names 0x02BA "Uzbekistan" "Ouzbékistan (l')";
  names 0x02C1 "Holy See (the)" "Saint-Siège (le)";
  names 0x02C3 "Saint Vincent and the Grenadines" "Saint-Vincent-et-les Grenadines";
  names 0x02C5 "Venezuela (Bolivarian Republic of)" "Venezuela (République bolivarienne du)";
  names 0x02C7 "Virgin Islands (British)" "Vierges britanniques (les Îles)";
  names 0x02C9 "Virgin Islands (U.S.)" "Vierges des États-Unis (les Îles)";
  names 0x02CE "Viet Nam" "Viet Nam (le)";
  names 0x02D5 "Vanuatu" "Vanuatu (le)";
  names 0x02E6 "Wallis and Futuna" "Wallis-et-Futuna ";
  names 0x02F3 "Samoa" "Samoa (le)";
  names 0x0325 "Yemen" "Yémen (le)";
  names 0x0334 "Mayotte" "Mayotte";
  names 0x0341 "South Africa" "Afrique du Sud (l')";
  names 0x034D "Zambia" "Zambie (la)";
  names 0x0357 "Zimbabwe" "Zimbabwe (le)"].

Definition countryKeys_1 : list (Z * Z) := [
  (0x0021, 0x2084000000000000);
  (0x0022, 0x0088000000000000);
  (0x0023, 0x308C000000000000);
  (0x0024, 0x10902E2028530024);
  (0x0025, 0x1094322E20460025);
  (0x0026, 0x1098263808420026);
  (0x0027, 0x109C343838389C27);
  (0x0028, 0x00A0000000000000);
  (0x0029, 0x10A4290D28389C29);
  (0x002A, 0x00A8000000000000);
  (0x002B, 0x00AC000000000000);
  (0x002C, 0x10B02C101053002C);
  (0x002D, 0x10B432686646002D);
  (0x002E, 0x40B8000000000000);
  (0x002F, 0x10BC27783018142F);
  (0x0030, 0x50C0000000000000);
  (0x0031, 0x10C4340814000031);
  (0x0032, 0x10C8323840388432);
  (0x0033, 0x10CC336820250033);
  (0x0034, 0x10D035A050578034);
  (0x0035, 0x10D4359848238035);
  (0x0036, 0x00D8000000000000);
  (0x0037, 0x10DC22BC2A389C37);
  (0x0038, 0x10E02C09F0570038);
  (0x0039, 0x00E4000000000000);
  (0x003A, 0x10E83A283E46003A);
  (0x0041, 0x110449408C530041);
  (0x0042, 0x1108521068389C42);
  (0x0043, 0x010C000000000000);
  (0x0044, 0x1110472064420044);
  (0x0045, 0x1114456070578045);
  (0x0046, 0x1118460EAC180846);
  (0x0047, 0x111C4790C8568047);
  (0x0048, 0x1120489060460048);
  (0x0049, 0x11244448D8181049);
  (0x004A, 0x112845719818084A);
  (0x004B, 0x012C000000000000);
  (0x004C, 0x11304C6D18389C4C);
  (0x004D, 0x11344DA87831004D);
  (0x004E, 0x11385270C042804E);
  (0x004F, 0x113C4F608838844F);
  (0x0050, 0x0140000000000000);
  (0x0051, 0x1144459C2E389C51);
  (0x0052, 0x1148520898388452);
  (0x0053, 0x114C489858389C53);
  (0x0054, 0x1150547080420054);
  (0x0055, 0x4154000000000000);
  (0x0056, 0x115856A094388456);
  (0x0057, 0x115C570890181857);
  (0x0058, 0x5160000000000000);
  (0x0059, 0x11644C90E0568059);
  (0x005A, 0x11684CD0A8388C5A);
  (0x0061, 0x11846170F8310061);
  (0x0062, 0x0188000000000000);
  (0x0063, 0x118C63594C238063);
  (0x0064, 0x11906F2168181464);
  (0x0065, 0x0194000000000000);
  (0x0066, 0x1198613118181466);
  (0x0067, 0x119C6F3964181467);
  (0x0068, 0x11A0682DE8578068);
  (0x0069, 0x11A469B300180869);
  (0x006A, 0x01A8000000000000);
  (0x006B, 0x11AC6F597025006B);
  (0x006C, 0x11B068613038846C);
  (0x006D, 0x11B46D90F018146D);
  (0x006E, 0x11B868713841806E);
  (0x006F, 0x11BC6F615438846F);
  (0x0070, 0x31C0000000000000);
  (0x0071, 0x31C4000000000000);
  (0x0072, 0x11C8724978388C72);
  (0x0073, 0x41CC000000000000);
  (0x0074, 0x61D0000000000000);
  (0x0075, 0x11D4751180389C75);
  (0x0076, 0x11D870B108180876);
  (0x0077, 0x11DC75BC26389C77);
  (0x0078, 0x11E0789144238078);
  (0x0079, 0x11E4798188460079);
  (0x007A, 0x11E87A299656807A);
  (0x0081, 0x0204000000000000);
  (0x0082, 0x0208000000000000);
  (0x0083, 0x020C000000000000);
  (0x0084, 0x6210000000000000);
  (0x0085, 0x121485AA28578085);
  (0x0086, 0x0218000000000000);
  (0x0087, 0x321C000000000000);
  (0x0088, 0x0220000000000000);
  (0x0089, 0x0224000000000000);
  (0x008A, 0x12288A4A0C18108A);
  (0x008B, 0x122C8E59A057008B);
  (0x008C, 0x0230000000000000);
  (0x008D, 0x12348D09A8389C8D);
  (0x008E, 0x0238000000000000);
  (0x008F, 0x123C8F69AC389C8F);
  (0x0090, 0x0240000000000000);
  (0x0091, 0x0244000000000000);
  (0x0092, 0x0248000000000000);
  (0x0093, 0x024C000000000000);
  (0x0094, 0x0250000000000000);
  (0x0095, 0x0254000000000000);
  (0x0096, 0x0258000000000000);
  (0x0097, 0x025C000000000000);
  (0x0098, 0x0260000000000000);
  (0x0099, 0x5264000000000000);
  (0x009A, 0x12689A081810809A);
  (0x00A1, 0x3284000000000000);
  (0x00A2, 0x0288000000000000);
  (0x00A3, 0x128CA3A9B43884A3);
  (0x00A4, 0x0290000000000000);
  (0x00A5, 0x1294B3A1D25700A5);
  (0x00A6, 0x5298000000000000);
  (0x00A7, 0x129CA7CE641080A7);
  (0x00A8, 0x12A0B345B81080A8);
  (0x00A9, 0x02A4000000000000);
  (0x00AA, 0x02A8000000000000);
  (0x00AB, 0x02AC000000000000);
  (0x00AC, 0x02B0000000000000);
  (0x00AD, 0x52B4000000000000);
  (0x00AE, 0x02B8000000000000);
  (0x00AF, 0x02BC000000000000);
  (0x00B0, 0x52C0000000000000);
  (0x00B1, 0x02C4000000000000);
  (0x00B2, 0x12C8B249D01810B2);
  (0x00B3, 0x12CCB385A85300B3);
  (0x00B4, 0x12D0B441CE1810B4);
  (0x00B5, 0x32D4000000000000);
  (0x00B6, 0x52D8000000000000);
  (0x00B7, 0x52DC000000000000);
  (0x00B8, 0x02E0000000000000);
  (0x00B9, 0x02E4000000000000);
  (0x00BA, 0x32E8000000000000);
  (0x00C1, 0x0304000000000000);
  (0x00C2, 0x0308000000000000);
  (0x00C3, 0x030C000000000000);
  (0x00C4, 0x0310000000000000);
  (0x00C5, 0x0314000000000000);
  (0x00C6, 0x0318000000000000);
  (0x00C7, 0x031C000000000000);
  (0x00C8, 0x0320000000000000);
  (0x00C9, 0x1324C971EC5700C9);
  (0x00CA, 0x1328CA49E42400CA);
  (0x00CB, 0x132CCC59DC3884CB);
  (0x00CC, 0x5330000000000000);
  (0x00CD, 0x1334D36C8E2480CD);
  (0x00CE, 0x0338000000000000);
  (0x00CF, 0x133CD279D45700CF);
  (0x00D0, 0x0340000000000000);
  (0x00D1, 0x6344000000000000)].

Definition countryKeys_2 : list (Z * Z) := [
  (0x00D2, 0x1348D209F45780D2);
  (0x00D3, 0x034C000000000000);
  (0x00D4, 0x0350000000000000);
  (0x00D5, 0x0354000000000000);
  (0x00D6, 0x0358000000000000);
  (0x00D7, 0x035C000000000000);
  (0x00D8, 0x3360000000000000);
  (0x00D9, 0x0364000000000000);
  (0x00DA, 0x0368000000000000);
  (0x00E1, 0x1384E112141814E1);
  (0x00E2, 0x1388E296745702AB);
  (0x00E3, 0x538C000000000000);
  (0x00E4, 0x1390F22268389CE4);
  (0x00E5, 0x1394E57A184600E5);
  (0x00E6, 0x1398F531FC3884E6);
  (0x00E7, 0x139CE7CE7E5700E7);
  (0x00E8, 0x13A0E80A401808E8);
  (0x00E9, 0x13A4E912485300E9);
  (0x00EA, 0x03A8000000000000);
  (0x00EB, 0x03AC000000000000);
  (0x00EC, 0x13B0F262603100EC);
  (0x00ED, 0x13B4ED121C1808ED);
  (0x00EE, 0x13B8E972881808EE);
  (0x00EF, 0x03BC000000000000);
  (0x00F0, 0x13C0EC8270389CF0);
  (0x00F1, 0x13C4EE89C41814F1);
  (0x00F2, 0x13C8F21A585300F2);
  (0x00F3, 0x13CE6799DE3884F3);
  (0x00F4, 0x13D0F46A80388CF4);
  (0x00F5, 0x13D4F56A782480F5);
  (0x00F6, 0x03D8000000000000);
  (0x00F7, 0x13DCEE14E01808F7);
  (0x00F8, 0x03E0000000000000);
  (0x00F9, 0x13E4F5CA903884F9);
  (0x00FA, 0x03E8000000000000);
  (0x0101, 0x0404000000000000);
  (0x0102, 0x0408000000000000);
  (0x0103, 0x040C000000000000);
  (0x0104, 0x0410000000000000);
  (0x0105, 0x0414000000000000);
  (0x0106, 0x0418000000000000);
  (0x0107, 0x041C000000000000);
  (0x0108, 0x0420000000000000);
  (0x0109, 0x0424000000000000);
  (0x010A, 0x0428000000000000);
  (0x010B, 0x142D0B3AB041810B);
  (0x010C, 0x0430000000000000);
  (0x010D, 0x14350D229C23810D);
  (0x010E, 0x14390E22A8388D0E);
  (0x010F, 0x043C000000000000);
  (0x0110, 0x0440000000000000);
  (0x0111, 0x0444000000000000);
  (0x0112, 0x144912B17E530112);
  (0x0113, 0x044C000000000000);
  (0x0114, 0x1451144A98389D14);
  (0x0115, 0x14551572B8568115);
  (0x0116, 0x6458000000000000);
  (0x0117, 0x045C000000000000);
  (0x0118, 0x0460000000000000);
  (0x0119, 0x0464000000000000);
  (0x011A, 0x0468000000000000);
  (0x0121, 0x0484000000000000);
  (0x0122, 0x5488000000000000);
  (0x0123, 0x348C000000000000);
  (0x0124, 0x14912472D0428124);
  (0x0125, 0x14953262E8570125);
  (0x0126, 0x0498000000000000);
  (0x0127, 0x049C000000000000);
  (0x0128, 0x04A0000000000000);
  (0x0129, 0x04A4000000000000);
  (0x012A, 0x04A8000000000000);
  (0x012B, 0x04AC000000000000);
  (0x012C, 0x14B13392F046012C);
  (0x012D, 0x14B52D768257012D);
  (0x012E, 0x14B92E22C842012E);
  (0x012F, 0x14BD2FA0AC18112F);
  (0x0130, 0x04C0000000000000);
  (0x0131, 0x14C5328AE0460131);
  (0x0132, 0x14C93272D8420132);
  (0x0133, 0x14CD3362C0570133);
  (0x0134, 0x14D1340AF8530134);
  (0x0135, 0x04D4000000000000);
  (0x0136, 0x04D8000000000000);
  (0x0137, 0x04DC000000000000);
  (0x0138, 0x04E0000000000000);
  (0x0139, 0x04E4000000000000);
  (0x013A, 0x04E8000000000000);
  (0x0141, 0x5504000000000000);
  (0x0142, 0x0508000000000000);
  (0x0143, 0x050C000000000000);
  (0x0144, 0x0510000000000000);
  (0x0145, 0x151545CE80570145);
  (0x0146, 0x0518000000000000);
  (0x0147, 0x051C000000000000);
  (0x0148, 0x0520000000000000);
  (0x0149, 0x0524000000000000);
  (0x014A, 0x0528000000000000);
  (0x014B, 0x052C000000000000);
  (0x014C, 0x0530000000000000);
  (0x014D, 0x1535416B08389D4D);
  (0x014E, 0x0538000000000000);
  (0x014F, 0x153D4F932046014F);
  (0x0150, 0x1541507310418150);
  (0x0151, 0x0544000000000000);
  (0x0152, 0x0548000000000000);
  (0x0153, 0x054C000000000000);
  (0x0154, 0x6550000000000000);
  (0x0155, 0x0554000000000000);
  (0x0156, 0x0558000000000000);
  (0x0157, 0x055C000000000000);
  (0x0158, 0x0560000000000000);
  (0x0159, 0x0564000000000000);
  (0x015A, 0x0568000000000000);
  (0x0161, 0x0584000000000000);
  (0x0162, 0x0588000000000000);
  (0x0163, 0x058C000000000000);
  (0x0164, 0x0590000000000000);
  (0x0165, 0x1595657328181165);
  (0x0166, 0x0598000000000000);
  (0x0167, 0x159D67D342458167);
  (0x0168, 0x15A16868E8428168);
  (0x0169, 0x15A5699250248169);
  (0x016A, 0x05A8000000000000);
  (0x016B, 0x05AC000000000000);
  (0x016C, 0x05B0000000000000);
  (0x016D, 0x15B46F695C18116D);
  (0x016E, 0x15B96E0D26389D6E);
  (0x016F, 0x05BC000000000000);
  (0x0170, 0x15C2125B30418170);
  (0x0171, 0x05C4000000000000);
  (0x0172, 0x15C96F9334418172);
  (0x0173, 0x05CC000000000000);
  (0x0174, 0x05D0000000000000);
  (0x0175, 0x05D4000000000000);
  (0x0176, 0x05D8000000000000);
  (0x0177, 0x15DD77A33C460177);
  (0x0178, 0x05E0000000000000);
  (0x0179, 0x15E4796910389D79);
  (0x017A, 0x15E961D31C45817A);
  (0x0181, 0x1605817B44428181);
  (0x0182, 0x160982734C460182);
  (0x0183, 0x160D830D2C389D83);
  (0x0184, 0x0610000000000000);
  (0x0185, 0x0614000000000000);
  (0x0186, 0x5618000000000000);
  (0x0187, 0x061C000000000000);
  (0x0188, 0x0620000000000000)].

Definition countryKeys_3 : list (Z * Z) := [
  (0x0189, 0x1625892B6C578189);
  (0x018A, 0x0628000000000000);
  (0x018B, 0x162D8B092042018B);
  (0x018C, 0x0630000000000000);
  (0x018D, 0x0634000000000000);
  (0x018E, 0x0638000000000000);
  (0x018F, 0x063C000000000000);
  (0x0190, 0x0640000000000000);
  (0x0191, 0x0644000000000000);
  (0x0192, 0x164982935C180992);
  (0x0193, 0x164D937B54181993);
  (0x0194, 0x165194AB70570194);
  (0x0195, 0x165595C374578195);
  (0x0196, 0x1659960B58570196);
  (0x0197, 0x065C000000000000);
  (0x0198, 0x0660000000000000);
  (0x0199, 0x166582CB64108199);
  (0x019A, 0x0668000000000000);
  (0x01A1, 0x1685A193F01081A1);
  (0x01A2, 0x0688000000000000);
  (0x01A3, 0x168DA37BD85781A3);
  (0x01A4, 0x1691A40BE45681A4);
  (0x01A5, 0x1695AE2BE65301A5);
  (0x01A6, 0x1699A1352E389DA6);
  (0x01A7, 0x169DA43B841811A7);
  (0x01A8, 0x16A1A864902481A8);
  (0x01A9, 0x66A4000000000000);
  (0x01AA, 0x06A8000000000000);
  (0x01AB, 0x16ADAB264E5301AB);
  (0x01AC, 0x16B1AC4BA41809AC);
  (0x01AD, 0x16B5AD90D04281AD);
  (0x01AE, 0x16B9AE3BE04181AE);
  (0x01AF, 0x16BDA11B7C4181AF);
  (0x01B0, 0x16C1AE84882481B0);
  (0x01B1, 0x16C5B48BB4389DB1);
  (0x01B2, 0x16C9B2A3BC1809B2);
  (0x01B3, 0x16CDB393E8389DB3);
  (0x01B4, 0x16D1ACA3AC5301B4);
  (0x01B5, 0x16D5B59BC01811B5);
  (0x01B6, 0x16D9A4B39C4201B6);
  (0x01B7, 0x16DDB74B8C1811B7);
  (0x01B8, 0x16E1A5C3C8388DB8);
  (0x01B9, 0x16E5B99B944281B9);
  (0x01BA, 0x16E9AFD3F81811BA);
  (0x01C1, 0x1705C16C081819C1);
  (0x01C2, 0x0708000000000000);
  (0x01C3, 0x170DC364382401C3);
  (0x01C4, 0x0710000000000000);
  (0x01C5, 0x1715C594641809C5);
  (0x01C6, 0x1719C65C7C2381C6);
  (0x01C7, 0x171DC70C6C1809C7);
  (0x01C8, 0x6720000000000000);
  (0x01C9, 0x1725C91C5C388DC9);
  (0x01CA, 0x0728000000000000);
  (0x01CB, 0x072C000000000000);
  (0x01CC, 0x1731CC24205781CC);
  (0x01CD, 0x0734000000000000);
  (0x01CE, 0x0738000000000000);
  (0x01CF, 0x173DCF94845701CF);
  (0x01D0, 0x1741D064184201D0);
  (0x01D1, 0x6744000000000000);
  (0x01D2, 0x1749D2AC102481D2);
  (0x01D3, 0x074C000000000000);
  (0x01D4, 0x4750000000000000);
  (0x01D5, 0x1755C9AC742501D5);
  (0x01D6, 0x0758000000000000);
  (0x01D7, 0x075C000000000000);
  (0x01D8, 0x0760000000000000);
  (0x01D9, 0x0764000000000000);
  (0x01DA, 0x1769DA64542381DA);
  (0x01E1, 0x5784000000000000);
  (0x01E2, 0x0788000000000000);
  (0x01E3, 0x078C000000000000);
  (0x01E4, 0x0790000000000000);
  (0x01E5, 0x0794000000000000);
  (0x01E6, 0x0798000000000000);
  (0x01E7, 0x079C000000000000);
  (0x01E8, 0x07A0000000000000);
  (0x01E9, 0x07A4000000000000);
  (0x01EA, 0x07A8000000000000);
  (0x01EB, 0x07AC000000000000);
  (0x01EC, 0x07B0000000000000);
  (0x01ED, 0x17B5ED74004601ED);
  (0x01EE, 0x07B8000000000000);
  (0x01EF, 0x07BC000000000000);
  (0x01F0, 0x07C0000000000000);
  (0x01F1, 0x07C4000000000000);
  (0x01F2, 0x07C8000000000000);
  (0x01F3, 0x07CC000000000000);
  (0x01F4, 0x07D0000000000000);
  (0x01F5, 0x07D4000000000000);
  (0x01F6, 0x07D8000000000000);
  (0x01F7, 0x07DC000000000000);
  (0x01F8, 0x07E0000000000000);
  (0x01F9, 0x07E4000000000000);
  (0x01FA, 0x07E8000000000000);
  (0x0201, 0x180601749E388E01);
  (0x0202, 0x0808000000000000);
  (0x0203, 0x680C000000000000);
  (0x0204, 0x0810000000000000);
  (0x0205, 0x18160594B8388605);
  (0x0206, 0x181A193204250206);
  (0x0207, 0x181E0E3CAC240207);
  (0x0208, 0x18220864C0428208);
  (0x0209, 0x5824000000000000);
  (0x020A, 0x0828000000000000);
  (0x020B, 0x182E015C9442020B);
  (0x020C, 0x18320F64D056820C);
  (0x020D, 0x1836706D3431020D);
  (0x020E, 0x183A0374C825020E);
  (0x020F, 0x083C000000000000);
  (0x0210, 0x0840000000000000);
  (0x0211, 0x0844000000000000);
  (0x0212, 0x184A124CEC389E12);
  (0x0213, 0x184E132A26460213);
  (0x0214, 0x185212A4D8530214);
  (0x0215, 0x6854000000000000);
  (0x0216, 0x0858000000000000);
  (0x0217, 0x185E0CBC92248217);
  (0x0218, 0x0860000000000000);
  (0x0219, 0x186612CCB0388619);
  (0x021A, 0x6868000000000000);
  (0x0221, 0x188621A4F4460221);
  (0x0222, 0x0888000000000000);
  (0x0223, 0x088C000000000000);
  (0x0224, 0x0890000000000000);
  (0x0225, 0x0894000000000000);
  (0x0226, 0x0898000000000000);
  (0x0227, 0x089C000000000000);
  (0x0228, 0x08A0000000000000);
  (0x0229, 0x08A4000000000000);
  (0x022A, 0x08A8000000000000);
  (0x022B, 0x08AC000000000000);
  (0x022C, 0x08B0000000000000);
  (0x022D, 0x28B4000000000000);
  (0x022E, 0x28B8000000000000);
  (0x022F, 0x28BC000000000000);
  (0x0230, 0x28C0000000000000);
  (0x0231, 0x28C4000000000000);
  (0x0232, 0x28C8000000000000);
  (0x0233, 0x28CC000000000000);
  (0x0234, 0x28D0000000000000);
  (0x0235, 0x28D4000000000000);
  (0x0236, 0x28D8000000000000);
  (0x0237, 0x28DC000000000000);
  (0x0238, 0x28E0000000000000);
  (0x0239, 0x28E4000000000000)].

Definition countryKeys_4 : list (Z * Z) := [
  (0x023A, 0x28E8000000000000);
  (0x0241, 0x5904000000000000);
  (0x0242, 0x5908000000000000);
  (0x0243, 0x590C000000000000);
  (0x0244, 0x0910000000000000);
  (0x0245, 0x191645ACFC181245);
  (0x0246, 0x0918000000000000);
  (0x0247, 0x091C000000000000);
  (0x0248, 0x5920000000000000);
  (0x0249, 0x5924000000000000);
  (0x024A, 0x0928000000000000);
  (0x024B, 0x092C000000000000);
  (0x024C, 0x5930000000000000);
  (0x024D, 0x5934000000000000);
  (0x024E, 0x5938000000000000);
  (0x024F, 0x193E4FAD0456824F);
  (0x0250, 0x5940000000000000);
  (0x0251, 0x0944000000000000);
  (0x0252, 0x0948000000000000);
  (0x0253, 0x194E721560530253);
  (0x0254, 0x0950000000000000);
  (0x0255, 0x1956559D06568255);
  (0x0256, 0x0958000000000000);
  (0x0257, 0x195E570D0C181257);
  (0x0258, 0x0960000000000000);
  (0x0259, 0x0964000000000000);
  (0x025A, 0x0968000000000000);
  (0x0261, 0x198661AD54460261);
  (0x0262, 0x198A6C10B4240262);
  (0x0263, 0x198E791D64181263);
  (0x0264, 0x19926475B2108264);
  (0x0265, 0x1996772DE0570265);
  (0x0266, 0x5998000000000000);
  (0x0267, 0x199E67857C428267);
  (0x0268, 0x19A268751C180A68);
  (0x0269, 0x19A6767582530269);
  (0x026A, 0x19AA6A6DD057026A);
  (0x026B, 0x19AE765D7E56826B);
  (0x026C, 0x19B26C2D6C180A6C);
  (0x026D, 0x19B66D954453026D);
  (0x026E, 0x19BA65755C180A6E);
  (0x026F, 0x19BE6F6D8418126F);
  (0x0270, 0x09C0000000000000);
  (0x0271, 0x09C4000000000000);
  (0x0272, 0x19CA7595C8388672);
  (0x0273, 0x19CE7325B0181273);
  (0x0274, 0x19D274854C181674);
  (0x0275, 0x39D4000000000000);
  (0x0276, 0x19DA6CB1BC388E76);
  (0x0277, 0x09DC000000000000);
  (0x0278, 0x19E2786C2C389E78);
  (0x0279, 0x19E67995F0460279);
  (0x027A, 0x19EA77D5D8181A7A);
  (0x0281, 0x3A04000000000000);
  (0x0282, 0x0A08000000000000);
  (0x0283, 0x1A0E830E38389E83);
  (0x0284, 0x1A12832128181684);
  (0x0285, 0x0A14000000000000);
  (0x0286, 0x1A18343208181286);
  (0x0287, 0x1A1E877E00180A87);
  (0x0288, 0x1A22880DF8428288);
  (0x0289, 0x0A24000000000000);
  (0x028A, 0x1A2A8A5DF445828A);
  (0x028B, 0x1A2E8B660825028B);
  (0x028C, 0x1A328C9CE442828C);
  (0x028D, 0x1A368B6E3645828D);
  (0x028E, 0x1A3A95762810828E);
  (0x028F, 0x1A3E8F761025028F);
  (0x0290, 0x4A40000000000000);
  (0x0291, 0x0A44000000000000);
  (0x0292, 0x1A4A959630460292);
  (0x0293, 0x0A4C000000000000);
  (0x0294, 0x1A52947E18389E94);
  (0x0295, 0x0A54000000000000);
  (0x0296, 0x1A5A95B63C250296);
  (0x0297, 0x1A5E97713C000297);
  (0x0298, 0x0A60000000000000);
  (0x0299, 0x0A64000000000000);
  (0x029A, 0x1A6A9A0E8418129A);
  (0x02A1, 0x1A86AB96485682A1);
  (0x02A2, 0x0A88000000000000);
  (0x02A3, 0x0A8C000000000000);
  (0x02A4, 0x0A90000000000000);
  (0x02A5, 0x0A94000000000000);
  (0x02A6, 0x0A98000000000000);
  (0x02A7, 0x1A9EA70E401812A7);
  (0x02A8, 0x0AA0000000000000);
  (0x02A9, 0x0AA4000000000000);
  (0x02AA, 0x0AA8000000000000);
  (0x02AB, 0x3AAC000000000000);
  (0x02AC, 0x0AB0000000000000);
  (0x02AD, 0x1AB6AD4C8A2482B3);
  (0x02AE, 0x3AB8000000000000);
  (0x02AF, 0x0ABC000000000000);
  (0x02B0, 0x0AC0000000000000);
  (0x02B1, 0x0AC4000000000000);
  (0x02B2, 0x0AC8000000000000);
  (0x02B3, 0x1ACEB30E903102B3);
  (0x02B4, 0x0AD0000000000000);
  (0x02B5, 0x0AD4000000000000);
  (0x02B6, 0x0AD8000000000000);
  (0x02B7, 0x0ADC000000000000);
  (0x02B8, 0x0AE0000000000000);
  (0x02B9, 0x1AE6B2CEB43886B9);
  (0x02BA, 0x1AEABA16B84582BA);
  (0x02C1, 0x1B06C1A2A05302C1);
  (0x02C2, 0x0B08000000000000);
  (0x02C3, 0x1B0EC3A53C389EC3);
  (0x02C4, 0x6B10000000000000);
  (0x02C5, 0x1B16C576BC3886C5);
  (0x02C6, 0x0B18000000000000);
  (0x02C7, 0x1B1EC710B8389EC7);
  (0x02C8, 0x0B20000000000000);
  (0x02C9, 0x1B26C996A4389EC9);
  (0x02CA, 0x0B28000000000000);
  (0x02CB, 0x0B2C000000000000);
  (0x02CC, 0x0B30000000000000);
  (0x02CD, 0x0B34000000000000);
  (0x02CE, 0x1B3ACE6D804282CE);
  (0x02CF, 0x0B3C000000000000);
  (0x02D0, 0x0B40000000000000);
  (0x02D1, 0x0B44000000000000);
  (0x02D2, 0x0B48000000000000);
  (0x02D3, 0x0B4C000000000000);
  (0x02D4, 0x0B50000000000000);
  (0x02D5, 0x1B56D5A4482402D5);
  (0x02D6, 0x0B58000000000000);
  (0x02D7, 0x0B5C000000000000);
  (0x02D8, 0x0B60000000000000);
  (0x02D9, 0x0B64000000000000);
  (0x02DA, 0x0B68000000000000);
  (0x02E1, 0x0B84000000000000);
  (0x02E2, 0x0B88000000000000);
  (0x02E3, 0x0B8C000000000000);
  (0x02E4, 0x0B90000000000000);
  (0x02E5, 0x0B94000000000000);
  (0x02E6, 0x1B9AEC36D82502E6);
  (0x02E7, 0x5B9C000000000000);
  (0x02E8, 0x0BA0000000000000);
  (0x02E9, 0x0BA4000000000000);
  (0x02EA, 0x0BA8000000000000);
  (0x02EB, 0x6BAC000000000000);
  (0x02EC, 0x5BB0000000000000);
  (0x02ED, 0x0BB4000000000000);
  (0x02EE, 0x0BB8000000000000);
  (0x02EF, 0x5BBC000000000000);
  (0x02F0, 0x0BC0000000000000)].

Definition countryKeys_5 : list (Z * Z) := [
  (0x02F1, 0x0BC4000000000000);
  (0x02F2, 0x0BC8000000000000);
  (0x02F3, 0x1BCEF36EE42502F3);
  (0x02F4, 0x0BD0000000000000);
  (0x02F5, 0x0BD4000000000000);
  (0x02F6, 0x5BD8000000000000);
  (0x02F7, 0x0BDC000000000000);
  (0x02F8, 0x0BE0000000000000);
  (0x02F9, 0x0BE4000000000000);
  (0x02FA, 0x0BE8000000000000);
  (0x0301, 0x2C04000000000000);
  (0x0302, 0x2C08000000000000);
  (0x0303, 0x2C0C000000000000);
  (0x0304, 0x2C10000000000000);
  (0x0305, 0x2C14000000000000);
  (0x0306, 0x2C18000000000000);
  (0x0307, 0x2C1C000000000000);
  (0x0308, 0x2C20000000000000);
  (0x0309, 0x2C24000000000000);
  (0x030A, 0x2C28000000000000);
  (0x030B, 0x2C2C00000000016F);
  (0x030C, 0x2C30000000000000);
  (0x030D, 0x2C34000000000000);
  (0x030E, 0x2C38000000000000);
  (0x030F, 0x2C3C000000000000);
  (0x0310, 0x2C40000000000000);
  (0x0311, 0x2C44000000000000);
  (0x0312, 0x2C48000000000000);
  (0x0313, 0x2C4C000000000000);
  (0x0314, 0x2C50000000000000);
  (0x0315, 0x2C54000000000000);
  (0x0316, 0x2C58000000000000);
  (0x0317, 0x2C5C000000000000);
  (0x0318, 0x2C60000000000000);
  (0x0319, 0x2C64000000000000);
  (0x031A, 0x2C68000000000000);
  (0x0321, 0x0C84000000000000);
  (0x0322, 0x0C88000000000000);
  (0x0323, 0x0C8C000000000000);
  (0x0324, 0x6C90000000000000);
  (0x0325, 0x1C97256EEE460325);
  (0x0326, 0x0C98000000000000);
  (0x0327, 0x0C9C000000000000);
  (0x0328, 0x0CA0000000000000);
  (0x0329, 0x0CA4000000000000);
  (0x032A, 0x0CA8000000000000);
  (0x032B, 0x0CAC000000000000);
  (0x032C, 0x0CB0000000000000);
  (0x032D, 0x0CB4000000000000);
  (0x032E, 0x0CB8000000000000);
  (0x032F, 0x0CBC000000000000);
  (0x0330, 0x0CC0000000000000);
  (0x0331, 0x0CC4000000000000);
  (0x0332, 0x0CC8000000000000);
  (0x0333, 0x0CCC000000000000);
  (0x0334, 0x1CD1B9A15E181334);
  (0x0335, 0x4CD4000000000000);
  (0x0336, 0x5CD8000000000000);
  (0x0337, 0x0CDC000000000000);
  (0x0338, 0x0CE0000000000000);
  (0x0339, 0x0CE4000000000000);
  (0x033A, 0x0CE8000000000000);
  (0x0341, 0x1D0741358C181B41);
  (0x0342, 0x0D08000000000000);
  (0x0343, 0x0D0C000000000000);
  (0x0344, 0x0D10000000000000);
  (0x0345, 0x0D14000000000000);
  (0x0346, 0x0D18000000000000);
  (0x0347, 0x0D1C000000000000);
  (0x0348, 0x0D20000000000000);
  (0x0349, 0x0D24000000000000);
  (0x034A, 0x0D28000000000000);
  (0x034B, 0x0D2C000000000000);
  (0x034C, 0x0D30000000000000);
  (0x034D, 0x1D374D16FC18134D);
  (0x034E, 0x0D38000000000000);
  (0x034F, 0x0D3C000000000000);
  (0x0350, 0x0D40000000000000);
  (0x0351, 0x0D44000000000000);
  (0x0352, 0x4D48000000000000);
  (0x0353, 0x0D4C000000000000);
  (0x0354, 0x0D50000000000000);
  (0x0355, 0x0D54000000000000);
  (0x0356, 0x0D58000000000000);
  (0x0357, 0x1D5F572D98181357);
  (0x0358, 0x0D60000000000000);
  (0x0359, 0x0D64000000000000);
  (0x035A, 0x2D68000000000000)].

#[local] Close Scope string_scope.

Definition countryNames : list (Z * Names) :=
  countryNames_1 ++ countryNames_2 ++ countryNames_3 ++ countryNames_4 ++ countryNames_5 ++ countryNames_6 ++ countryNames_7.

Definition countryKeys : list (Z * Z) :=
  countryKeys_1 ++ countryKeys_2 ++ countryKeys_3 ++ countryKeys_4 ++ countryKeys_5.
(** [defaultData]: the map literals have distinct keys. *)
Definition defaultData (d : Data) : Data :=
  set_countries (set_catalogs d defaultRegions defaultSubRegions defaultIntermediateRegions)
    (list_to_map countryNames) (list_to_map countryKeys).

(** ** Checks of the tables, by evaluation *)

Definition letter (c : Z) : bool := (1 <=? c) && (c <=? 26).

(** A key is consistent: it is filed under its own alpha-2 code, its IDs are
    in range of the catalogs, its codes are well formed. *)
Definition entry_ok (kv : Z * Z) : bool :=
  let el := decodeCountryKey kv.2 in
  (k_alpha2 el =? kv.1) && (k_status el <? 7) && (k_region el <? 6) && (k_subregion el <? 18) &&
  (k_intregion el <? 8) &&
  ((k_alpha3 el =? 0) || bool_decide (result_option (encodeAlpha3 (decodeAlpha3 (k_alpha3 el))) = Some (k_alpha3 el))) &&
  ((k_numeric el =? 0) ||
     match numericStr (k_numeric el) with
     | Some s => bool_decide (result_option (encodeNumeric s) = Some (k_numeric el))
     | None => false
     end) &&
  ((k_tld el =? 0) || match decodeTLD (k_tld el) with Some _ => true | None => false end) &&
  match decodeAlpha2 (k_alpha2 el) with
  | Some s => bool_decide (result_option (encodeAlpha2 s) = Some kv.1)
  | None => false
  end.

Lemma entries_ok : forallb entry_ok countryKeys = true.
Proof. vm_compute. reflexivity. Qed.

Lemma keys_distinct : NoDup countryKeys.*1.
Proof. apply (bool_decide_eq_true_1 (NoDup _)). vm_compute. reflexivity. Qed.

Definition nonzero (f : countryKeyElem → Z) : list Z :=
  filter (fun x => x ≠ 0) ((fun kv => f (decodeCountryKey kv.2)) <$> countryKeys).

Lemma alpha3_distinct : NoDup (nonzero k_alpha3).
Proof. apply (bool_decide_eq_true_1 (NoDup _)). vm_compute. reflexivity. Qed.

Lemma numeric_distinct : NoDup (nonzero k_numeric).
Proof. apply (bool_decide_eq_true_1 (NoDup _)). vm_compute. reflexivity. Qed.

(** Every two-letter code is in the table. *)
Lemma all_codes : forallb (fun c1 => forallb (fun c0 =>
  bool_decide (is_Some ((list_to_map countryKeys : gmap Z Z) !! pack2 c1 c0))) letters) letters = true.
Proof. vm_compute. reflexivity. Qed.

Lemma unique_code (f : countryKeyElem → Z) (l : list (Z * Z)) k v k' v' :
  NoDup (filter (fun x => x ≠ 0) ((fun kv : Z * Z => f (decodeCountryKey kv.2)) <$> l)) →
  (k, v) ∈ l → (k', v') ∈ l → f (decodeCountryKey v) = f (decodeCountryKey v') →
  f (decodeCountryKey v) ≠ 0 → (k, v) = (k', v').
Proof.
  intros Hnd Hin Hin' He Hz. induction l as [|[k0 v0] l IH]; [by apply not_elem_of_nil in Hin|].
  cbn [fmap list_fmap snd] in Hnd.
  assert (Hrest : ∀ k v, (k, v) ∈ l → f (decodeCountryKey v) ≠ 0 → f (decodeCountryKey v0) ≠ f (decodeCountryKey v)).
  { intros k1 v1 Hl Hz1 Heq. rewrite filter_cons, decide_True in Hnd by congruence.
    apply NoDup_cons in Hnd as [Hn _]. apply Hn, list_elem_of_filter. split; [congruence|].
    rewrite Heq. apply list_elem_of_fmap. by exists (k1, v1). }
  assert (Hnd' : NoDup (filter (fun x => x ≠ 0) ((fun kv : Z * Z => f (decodeCountryKey kv.2)) <$> l))).
  { rewrite filter_cons in Hnd. destruct (decide _); [by apply NoDup_cons in Hnd as [_ ?]|done]. }
  apply elem_of_cons in Hin as [Hin|Hin]; apply elem_of_cons in Hin' as [Hin'|Hin'].
  - congruence.
  - injection Hin as -> ->. destruct (Hrest k' v' Hin'); congruence.
  - injection Hin' as -> ->. destruct (Hrest k v Hin); congruence.
  - by apply IH.
Qed.

(** The optional texts of a consistent key. *)
Lemma numeric_text el : 0 <= k_numeric el →
  (k_numeric el =? 0) ||
     match numericStr (k_numeric el) with
     | Some s => bool_decide (result_option (encodeNumeric s) = Some (k_numeric el))
     | None => false
     end = true →
  ∃ sn, (if 0 <? k_numeric el then numericStr (k_numeric el) else Some []) = Some sn ∧
    (k_numeric el = 0 → sn = []) ∧ (k_numeric el ≠ 0 → encodeNumeric sn = Ok (k_numeric el)).
Proof.
  intros Hn Hnum. destruct (Z.eqb_spec (k_numeric el) 0) as [Hz|Hz].
  { rewrite Hz. exists []. by split_and!. }
  rewrite (proj2 (Z.ltb_lt _ _)) by lia. cbn [orb] in Hnum.
  destruct (numericStr (k_numeric el)) as [sn|]; [|done]. exists sn. split; [done|]. split; [done|].
  intros _. apply bool_decide_eq_true in Hnum. destruct (encodeNumeric sn); cbn [result_option] in Hnum; congruence.
Qed.

Lemma tld_text el :
  (k_tld el =? 0) || match decodeTLD (k_tld el) with Some _ => true | None => false end = true →
  ∃ st, (if 0 <? k_tld el then decodeTLD (k_tld el) else Some []) = Some st.
Proof.
  intros Ht. destruct (Z.eqb_spec (k_tld el) 0) as [->|Hz]; [by eexists|]. cbn [orb] in Ht.
  destruct (decodeTLD (k_tld el)) as [st|]; [|done]. destruct (0 <? k_tld el); by eexists.
Qed.

Section Default.
Context (unicodeUpper : gostring → gostring) (iter : gmap Z Z → list (Z * Z)).
Hypothesis iter_perm : ∀ m, iter m ≡ₚ map_to_list m.

Definition default_base : Data := genRegionIndexes unicodeUpper (defaultData (statusMap unicodeUpper)).
Abbreviation d := (genCountryIndexes iter default_base).

Lemma default_keys k v : dCountryKeyByAlpha2ID default_base !! k = Some v ↔ (k, v) ∈ countryKeys.
Proof. symmetry. apply elem_of_list_to_map, keys_distinct. Qed.

Lemma entry_of k v : (k, v) ∈ countryKeys → entry_ok (k, v) = true.
Proof. intros Hin. exact (forallb_elem _ _ _ entries_ok Hin). Qed.

Lemma default_lookups id :
  countryKeyByAlpha2ID d id = lookup_or (dCountryKeyByAlpha2ID default_base !! id) ∧
  statusByID d id = enumByID statusByID_table id ∧
  regionByID d id = enumByID defaultRegions id ∧
  subRegionByID d id = enumByID defaultSubRegions id ∧
  intermediateRegionByID d id = enumByID defaultIntermediateRegions id.
Proof.
  destruct (genCountryIndexes_tables iter default_base) as (H1&_&H3&H4&H5&_&H7).
  unfold countryKeyByAlpha2ID, statusByID, regionByID, subRegionByID, intermediateRegionByID.
  rewrite H1, H3, H4, H5, H7. repeat split.
Qed.

Lemma enum_in l n id : Z.of_nat (length l) = n → 0 <= id → (id <? n) = true → ∃ e, enumByID l id = Ok e.
Proof.
  intros Hl Hid Hlt. apply Z.ltb_lt in Hlt.
  destruct (lookup_lt_is_Some_2 l (Z.to_nat id)) as [e He]; [lia|].
  exists e. rewrite <- (Z2Nat.id id) by lia. by apply enumByID_lookup.
Qed.

Lemma decoded_nonneg v : let el := decodeCountryKey v in
  0 <= k_status el ∧ 0 <= k_region el ∧ 0 <= k_subregion el ∧ 0 <= k_intregion el ∧ 0 <= k_alpha3 el ∧ 0 <= k_numeric el.
Proof.
  rewrite decode_fields. cbn [k_status k_region k_subregion k_intregion k_alpha3 k_numeric].
  repeat split; apply field_range; lia.
Qed.

(** A listed country has a full record, bearing the codes of its key. *)
Lemma default_record k v : (k, v) ∈ countryKeys → ∃ r s,
  countryByAlpha2ID d k = Some (Ok r) ∧ decodeAlpha2 k = Some s ∧ Alpha2Code r = s ∧ encodeAlpha2 s = Ok k ∧
  (k_alpha3 (decodeCountryKey v) = 0 → Alpha3Code r = []) ∧
  (k_alpha3 (decodeCountryKey v) ≠ 0 → encodeAlpha3 (Alpha3Code r) = Ok (k_alpha3 (decodeCountryKey v))) ∧
  (k_numeric (decodeCountryKey v) = 0 → NumericCode r = []) ∧
  (k_numeric (decodeCountryKey v) ≠ 0 → encodeNumeric (NumericCode r) = Ok (k_numeric (decodeCountryKey v))).
Proof.
  intros Hin. pose proof (entry_of k v Hin) as He. unfold entry_ok in He. cbn [fst snd] in He.
  pose proof (decoded_nonneg v) as Hn. cbv zeta in Hn. set (el := decodeCountryKey v) in *.
  destruct Hn as (Hn1 & Hn2 & Hn3 & Hn4 & Hn5 & Hn6).
  rewrite !andb_true_iff in He. destruct He as [[[[[[[[Ha2 Hst] Hr] Hs] Hi] H3] Hnum] Htld] Hd2].
  apply Z.eqb_eq in Ha2. unfold countryByAlpha2ID. pose proof default_lookups as Hlk.
  rewrite (proj1 (Hlk k)), (proj2 (default_keys k v) Hin). cbn [lookup_or or_bind]. fold el.
  destruct (enum_in statusByID_table 7 (k_status el) eq_refl Hn1 Hst) as [es Hes].
  rewrite (proj1 (proj2 (Hlk _))), Hes. cbn [or_bind]. rewrite Ha2 in *.
  destruct (decodeAlpha2 k) as [s|] eqn:Hs2; [|done]. cbn [mbind option_bind or_bind].
  apply bool_decide_eq_true in Hd2.
  unfold populateCountryDetails. cbn [Alpha3Code NumericCode TLD].
  destruct (enum_in defaultRegions 6 (k_region el) eq_refl Hn2 Hr) as [er Her].
  destruct (enum_in defaultSubRegions 18 (k_subregion el) eq_refl Hn3 Hs) as [eu Heu].
  destruct (enum_in defaultIntermediateRegions 8 (k_intregion el) eq_refl Hn4 Hi) as [ei Hei].
  destruct (numeric_text el Hn6 Hnum) as (sn & Hsn & Hsn0 & Hsn1).
  destruct (tld_text el Htld) as (st & Hst').
  rewrite Hsn. cbn [mbind option_bind]. rewrite Hst'. cbn [mbind option_bind].
  rewrite (proj1 (proj2 (proj2 (Hlk (k_region el))))), Her.
  rewrite (proj1 (proj2 (proj2 (proj2 (Hlk (k_subregion el)))))), Heu.
  rewrite (proj2 (proj2 (proj2 (proj2 (Hlk (k_intregion el)))))), Hei. cbn [result_bind].
  eexists _, s. split; [reflexivity|]. cbn [Alpha2Code Alpha3Code NumericCode].
  split; [done|]. split; [done|].
  split; [destruct (encodeAlpha2 s); cbn [result_option] in Hd2; congruence|].
  split; [intros Hz; by rewrite Hz|]. split; [|by split].
  intros Hz. rewrite (proj2 (Z.ltb_lt 0 _)) by lia. rewrite (proj2 (Z.eqb_neq _ _) Hz) in H3. cbn [orb] in H3.
  apply bool_decide_eq_true in H3. destruct (encodeAlpha3 _); cbn [result_option] in H3; congruence.
Qed.

Lemma listed k v : dCountryKeyByAlpha2ID default_base !! k = Some v → (k, v) ∈ countryKeys.
Proof. apply default_keys. Qed.

Lemma letters_listed s a2 : List.Forall is_byte s → encodeAlpha2 s = Ok a2 → ∃ v, (a2, v) ∈ countryKeys.
Proof.
  intros Hb Ha. pose proof (encodeAlpha2_spec s Hb) as Hs. rewrite Ha in Hs. destruct Hs as (Hl & Hu & _ & _).
  destruct s as [|x [|y [|? ?]]]; try done. inversion Hu as [|? ? Hx Hu']; subst. inversion Hu' as [|? ? Hy _]; subst.
  assert (Hp : a2 = pack2 (x - 64) (y - 64)).
  { unfold encodeAlpha2, charOffsetUpper in Ha. inversion Hb as [|? ? Hbx Hb']; subst. inversion Hb' as [|? ? Hby _]; subst.
    unfold upper_letter, chrOffsetUpper in *. rewrite !charOffset_spec, !decide_True in Ha by (done || lia).
    cbn [result_bind] in Ha. unfold pack2. by injection Ha as <-. }
  unfold upper_letter in *.
  pose proof (forallb_elem _ _ _ (forallb_elem _ _ _ all_codes (letter_index x 64 ltac:(lia))) (letter_index y 64 ltac:(lia))) as Hin.
  apply bool_decide_eq_true in Hin as [v Hv]. exists v. rewrite Hp.
  apply (elem_of_list_to_map countryKeys _ _ keys_distinct). exact Hv.
Qed.

(** An index on a code that at most one country bears finds that country. *)
Lemma coded_unique f k v r : NoDup (nonzero f) → (k, v) ∈ countryKeys → f (decodeCountryKey v) ≠ 0 →
  coded default_base f (f (decodeCountryKey v)) r → r = Some k.
Proof.
  intros Hnd Hin Hz Hc. destruct r as [k'|]; unfold coded in Hc.
  - destruct Hc as (v' & Hv' & Hf). apply listed in Hv'.
    pose proof (unique_code f countryKeys k' v' k v Hnd Hv' Hin Hf) as He.
    rewrite Hf in He. specialize (He Hz). injection He as He _. exact (f_equal Some He).
  - exfalso. exact (Hc k v (proj2 (default_keys k v) Hin) eq_refl).
Qed.
End Default.

(** The embedded dataset is complete and consistent: with it [New] never
    fails and every two-letter code has a record, bearing that code; and
    looking a record up by its alpha-3 or numeric code gives the same record
    back, whatever the iteration order of the country map. *)
Theorem default_countries_resolve unicodeUpper iter (s : gostring) a2 :
  (∀ m, iter m ≡ₚ map_to_list m) → List.Forall is_byte s → encodeAlpha2 s = Ok a2 →
  ∃ d r, New unicodeUpper iter defaultData [] = Some (Ok d) ∧ CountryByAlpha2Code d s = Some (Ok r) ∧
    Alpha2Code r = s ∧
    (Alpha3Code r ≠ [] → CountryByAlpha3Code d (Alpha3Code r) = Some (Ok r)) ∧
    (NumericCode r ≠ [] → CountryByNumericCode d (NumericCode r) = Some (Ok r)).
Proof.
  intros Hit Hb Ha. destruct (letters_listed s a2 Hb Ha) as [v Hin].
  destruct (default_record unicodeUpper iter a2 v Hin) as (r & s' & Hr & Hd & Hs' & He & H30 & H3 & Hn0 & Hn).
  eexists _, r. split; [reflexivity|].
  change (genRegionIndexes _ _) with (default_base unicodeUpper).
  assert (s' = s) as ->.
  { pose proof (encodeAlpha2_spec s Hb) as Hs. rewrite Ha in Hs. destruct Hs as (_ & _ & _ & Hs). congruence. }
  unfold CountryByAlpha2Code. rewrite Ha. cbn [or_bind]. split; [exact Hr|]. split; [exact Hs'|].
  destruct (genCountryIndexes_spec iter Hit (default_base unicodeUpper) (k_alpha3 (decodeCountryKey v)))
    as (_ & _ & _ & _ & _ & Hc3 & _).
  destruct (genCountryIndexes_spec iter Hit (default_base unicodeUpper) (k_numeric (decodeCountryKey v)))
    as (_ & _ & _ & _ & _ & _ & Hcn).
  split.
  - intros Hne. assert (Hz : k_alpha3 (decodeCountryKey v) ≠ 0) by (intros Hz; by apply Hne, H30).
    unfold CountryByAlpha3Code. rewrite (H3 Hz). cbn [or_bind]. unfold alpha2IDByAlpha3ID.
    rewrite (coded_unique _ k_alpha3 a2 v _ alpha3_distinct Hin Hz (Hc3 Hz)). exact Hr.
  - intros Hne. assert (Hz : k_numeric (decodeCountryKey v) ≠ 0) by (intros Hz; by apply Hne, Hn0).
    unfold CountryByNumericCode. rewrite (Hn Hz). cbn [or_bind]. unfold alpha2IDByNumericID.
    rewrite (coded_unique _ k_numeric a2 v _ numeric_distinct Hin Hz (Hcn Hz)). exact Hr.
Qed.

Lemma default_countries_resolve_witness : ∃ d r,
  New id map_to_list defaultData [] = Some (Ok d) ∧ CountryByAlpha2Code d (str "IT") = Some (Ok r) ∧
  Alpha2Code r = str "IT".
Proof.
  destruct (default_countries_resolve id map_to_list (str "IT") (9 * 32 + 20)
    (fun m => Permutation_refl (map_to_list m))) as (d & r & Hd & Hr & Ha & _).
  - repeat constructor; vm_compute; discriminate.
  - vm_compute. reflexivity.
  - exists d, r. split; [exact Hd|]. split; [exact Hr|exact Ha].
Defined.
