(* ===== verification/EnumBitmap.v ===== *)
(** * [pkg/enumbitmap]: enumeration names packed in a bitmap

    enumbitmap.go. An [int] has 64 bits, as the package's documentation asks
    for; the bits of a negative one are those of its two's complement. The
    slice returned next to an error and the offenders the error lists are
    both results. *)

From stdpp Require Import base option list gmap sorting.
From Stdlib Require Import String.
From S2P Require Import Prelude GoString.

#[local] Open Scope Z_scope.

Definition maxBit : nat := 32.

(** One iteration of [for bit := range maxBit]. *)
Definition scanBit (enum : gmap Z gostring) (v : Z) (st : list gostring * list Z) (bit : nat)
    : list gostring * list Z :=
  let mask := wrapS 64 (Z.shiftl 1 (Z.of_nat bit)) in
  if Z.land v mask =? 0 then st
  else match enum !! mask with
       | Some name => (st.1 ++ [name], st.2)
       | None => (st.1, st.2 ++ [mask])
       end.

(** [if len(bad) > 0 { err = ... }] *)
Definition listed {A} (bad : list A) : option (list A) :=
  match bad with [] => None | _ => Some bad end.

Definition BitMapToStrings (enum : gmap Z gostring) (v : Z) : list gostring * option (list Z) :=
  if v =? 0 then ([], None)
  else let '(s, errBits) := foldl (scanBit enum v) ([], []) (seq 0 maxBit) in (s, listed errBits).

Definition addString (enum : gmap gostring Z) (st : Z * list gostring) (key : gostring) : Z * list gostring :=
  match enum !! key with
  | Some id => (Z.lor st.1 id, st.2)
  | None => (st.1, st.2 ++ [key])
  end.

Definition StringsToBitMap (enum : gmap gostring Z) (s : list gostring) : Z * option (list gostring) :=
  let '(v, errStrings) := foldl (addString enum) (0, []) s in (v, listed errStrings).

(** ** What the loops compute *)

(** The masks of the bits of [v] below 32, in increasing order. *)
Definition masks (v : Z) : list Z := (fun b => 2 ^ b) <$> filter (fun b => Z.testbit v b = true) (seqZ 0 32).

Definition unknown {K A} `{Countable K} (m : gmap K A) (l : list K) : list K := filter (fun k => m !! k = None) l.

Lemma land_mask v b : 0 <= b → (Z.land v (2 ^ b) =? 0) = negb (Z.testbit v b).
Proof.
  intros Hb. destruct (Z.testbit v b) eqn:Ht; simpl.
  - apply Z.eqb_neq. intros H0. apply (f_equal (fun z => Z.testbit z b)) in H0.
    by rewrite Z.land_spec, Ht, Z.pow2_bits_true, Z.bits_0 in H0.
  - apply Z.eqb_eq, Z.bits_inj'. intros n Hn. rewrite Z.land_spec, Z.pow2_bits_eqb, Z.bits_0 by done.
    destruct (Z.eqb_spec b n) as [<-|]; [by rewrite Ht|by rewrite andb_false_r].
Qed.

Lemma scanBit_spec enum v st (bit : nat) : (bit < 32)%nat →
  scanBit enum v st bit =
    if Z.testbit v (Z.of_nat bit) then
      match enum !! (2 ^ Z.of_nat bit) with
      | Some name => (st.1 ++ [name], st.2)
      | None => (st.1, st.2 ++ [2 ^ Z.of_nat bit])
      end
    else st.
Proof.
  intros Hb. unfold scanBit. rewrite Z.shiftl_1_l.
  assert (Hp : 0 < 2 ^ Z.of_nat bit < 2 ^ 32).
  { split; [apply Z.pow_pos_nonneg; lia|apply Z.pow_lt_mono_r; lia]. }
  rewrite wrapS_small by (unfold inS; lia). rewrite land_mask by lia. by destruct (Z.testbit _ _).
Qed.

Lemma scan_spec enum v (bits : list nat) : (∀ b, b ∈ bits → (b < 32)%nat) → ∀ st,
  let ms := (fun b => 2 ^ b) <$> filter (fun b => Z.testbit v b = true) (Z.of_nat <$> bits) in
  foldl (scanBit enum v) st bits = (st.1 ++ omap (enum !!.) ms, st.2 ++ unknown enum ms).
Proof.
  unfold unknown. induction bits as [|b bits IH]; intros Hb st; cbn zeta; [by rewrite !app_nil_r; destruct st|].
  cbn [foldl fmap list_fmap]. rewrite IH by (intros; apply Hb; by right).
  rewrite scanBit_spec by (apply Hb; by left). rewrite filter_cons.
  destruct (Z.testbit v (Z.of_nat b)) eqn:Ht; [|by rewrite decide_False].
  rewrite decide_True by done. cbn [fmap list_fmap omap list_omap]. rewrite filter_cons.
  destruct (enum !! (2 ^ Z.of_nat b)) as [name|] eqn:He; cbn [fst snd].
  - rewrite decide_False by done. by rewrite <- app_assoc.
  - rewrite decide_True by done. by rewrite <- app_assoc.
Qed.

Lemma masks_0 : masks 0 = [].
Proof. unfold masks. vm_compute. reflexivity. Qed.

Lemma BitMapToStrings_spec enum v :
  BitMapToStrings enum v = (omap (enum !!.) (masks v), listed (unknown enum (masks v))).
Proof.
  unfold BitMapToStrings. destruct (Z.eqb_spec v 0) as [->|_]; [by rewrite masks_0|].
  rewrite scan_spec; [done|]. intros b Hb%elem_of_seq. unfold maxBit in Hb. lia.
Qed.

Lemma StringsToBitMap_spec enum s :
  StringsToBitMap enum s = (foldl Z.lor 0 (omap (enum !!.) s), listed (unknown enum s)).
Proof.
  unfold StringsToBitMap, unknown.
  assert (Hf : ∀ st, foldl (addString enum) st s =
    (foldl Z.lor st.1 (omap (enum !!.) s), st.2 ++ filter (fun k => enum !! k = None) s)).
  { induction s as [|k s IH]; intros st; [by rewrite app_nil_r; destruct st|].
    cbn [foldl omap list_omap]. rewrite IH, filter_cons. unfold addString.
    destruct (enum !! k) as [id|] eqn:He; cbn [fst snd]; [by rewrite decide_False|].
    rewrite decide_True by done. by rewrite <- app_assoc. }
  by rewrite Hf.
Qed.

Lemma elem_of_masks v m : m ∈ masks v ↔ ∃ b, 0 <= b < 32 ∧ m = 2 ^ b ∧ Z.testbit v b = true.
Proof.
  unfold masks. rewrite list_elem_of_fmap. split.
  - intros (b & -> & [Ht Hb%elem_of_seqZ]%list_elem_of_filter). exists b. split; [lia|done].
  - intros (b & Hb & -> & Ht). exists b. split; [done|]. apply list_elem_of_filter. split; [done|].
    apply elem_of_seqZ. lia.
Qed.

Lemma StronglySorted_filter {A} (R : A → A → Prop) (P : A → Prop) `{!∀ x, Decision (P x)} l :
  StronglySorted R l → StronglySorted R (filter P l).
Proof.
  induction 1 as [|a l _ IH Hall]; [constructor|]. rewrite filter_cons. destruct (decide _); [|done].
  constructor; [done|]. apply List.Forall_forall. intros x [_ Hx]%list_elem_of_In%list_elem_of_filter.
  apply (proj1 (List.Forall_forall _ _) Hall). by apply list_elem_of_In.
Qed.

Lemma masks_sorted v : StronglySorted Z.lt (masks v).
Proof.
  unfold masks.
  assert (Hs : StronglySorted Z.lt (seqZ 0 32)).
  { unfold seqZ. generalize (Z.to_nat 32) as n, 0 as z. intros n. generalize O as k.
    induction n as [|n IH]; intros k z; [constructor|]. cbn [seq fmap list_fmap]. constructor; [apply IH|].
    apply List.Forall_forall. intros x (i & -> & Hi%elem_of_seq)%list_elem_of_In%list_elem_of_fmap. cbn beta. lia. }
  assert (Hp : List.Forall (fun b => 0 <= b) (seqZ 0 32)).
  { apply List.Forall_forall. intros x Hx%list_elem_of_In%elem_of_seqZ. lia. }
  induction Hs as [|b l _ IH Hall]; [constructor|]. inversion Hp as [|? ? Hb Hp']; subst.
  rewrite filter_cons. destruct (decide _); [|by apply IH]. cbn [fmap list_fmap].
  constructor; [by apply IH|]. apply List.Forall_forall.
  intros x (c & -> & [_ Hc]%list_elem_of_filter)%list_elem_of_In%list_elem_of_fmap.
  apply list_elem_of_In in Hc. assert (0 <= c) by exact (proj1 (List.Forall_forall _ _) Hp' c Hc).
  apply Z.pow_lt_mono_r; [lia..|]. by apply (proj1 (List.Forall_forall _ _) Hall).
Qed.

Lemma lor_fold_bits l n acc : Z.testbit (foldl Z.lor acc l) n = Z.testbit acc n || existsb (fun i => Z.testbit i n) l.
Proof.
  revert acc. induction l as [|i l IH]; intros acc; simpl; [by rewrite orb_false_r|].
  by rewrite IH, Z.lor_spec, orb_assoc.
Qed.

(** ** Round trips *)

Section RoundTrip.
(** A bidirectional enumeration whose identifiers are single bits. *)
Context (ids : gmap gostring Z) (names : gmap Z gostring).
Hypothesis inverse : ∀ n i, ids !! n = Some i ↔ names !! i = Some n.
Hypothesis single_bits : ∀ n i, ids !! n = Some i → ∃ b, 0 <= b < 32 ∧ i = 2 ^ b.

Lemma unknown_nil {K A} `{Countable K} (m : gmap K A) l : (∀ k, k ∈ l → is_Some (m !! k)) → unknown m l = [].
Proof.
  intros Hl. unfold unknown. induction l as [|k l IH]; [done|]. rewrite filter_cons.
  destruct (Hl k) as [a Ha]; [by left|]. rewrite decide_False by congruence. apply IH. intros; apply Hl. by right.
Qed.

(** The masks of known names, and the names back. *)
Lemma omap_inverse (l : list Z) : Forall (fun i => is_Some (names !! i)) l → omap (ids !!.) (omap (names !!.) l) = l.
Proof.
  induction 1 as [|i l [n Hn] _ IH]; [done|]. cbn [omap list_omap]. rewrite Hn. cbn [omap list_omap].
  by rewrite (proj2 (inverse n i) Hn), IH.
Qed.

Lemma pow2_bit b n : 0 <= b → Z.testbit (2 ^ b) n = (b =? n).
Proof. intros Hb. by rewrite Z.pow2_bits_eqb. Qed.

(** The bits of an encoding are those of the identifiers of its names. *)
Lemma encode_bits s n : 0 <= n →
  Z.testbit (StringsToBitMap ids s).1 n = true ↔ ∃ k, k ∈ s ∧ ids !! k = Some (2 ^ n).
Proof.
  intros Hn. rewrite StringsToBitMap_spec. cbn [fst]. rewrite lor_fold_bits, Z.bits_0. cbn [orb].
  rewrite existsb_exists. split.
  - intros (i & Hi%list_elem_of_In & Ht). apply list_elem_of_omap in Hi as (k & Hk & Hi). exists k. split; [done|].
    destruct (single_bits k i Hi) as (b & Hb & ->). rewrite pow2_bit in Ht by lia.
    apply Z.eqb_eq in Ht as ->. done.
  - intros (k & Hk & Hi). exists (2 ^ n). split; [|by rewrite pow2_bit, Z.eqb_refl by done].
    apply list_elem_of_In, list_elem_of_omap. by exists k.
Qed.

Lemma encode_range s : 0 <= (StringsToBitMap ids s).1 < 2 ^ 32.
Proof.
  set (v := (StringsToBitMap ids s).1).
  assert (H0 : 0 <= v).
  { unfold v. rewrite StringsToBitMap_spec. cbn [fst].
    assert (Hp : ∀ l acc, 0 <= acc → Forall (fun i => 0 <= i) l → 0 <= foldl Z.lor acc l).
    { induction l as [|i l IH]; intros acc Ha Hl; [done|]. inversion Hl; subst. apply IH; [|done].
      by apply Z.lor_nonneg. }
    apply Hp; [done|]. apply Forall_forall. intros i Hi. apply list_elem_of_omap in Hi as (k & _ & Hi).
    destruct (single_bits k i Hi) as (b & _ & ->). apply Z.pow_nonneg. lia. }
  split; [done|]. destruct (Z.eq_dec v 0) as [->|Hz]; [done|].
  apply Z.log2_lt_pow2; [lia|]. destruct (Z.lt_ge_cases (Z.log2 v) 32) as [|Hge]; [done|]. exfalso.
  pose proof (Z.bit_log2 v ltac:(lia)) as Hb. apply encode_bits in Hb as (k & _ & Hk); [|lia].
  destruct (single_bits k _ Hk) as (b & Hb & Heq). apply Z.pow_inj_r in Heq; lia.
Qed.

(** Decoding an encoding gives each known name once, in identifier order. *)
Lemma bitmap_decode_encode s :
  let r := BitMapToStrings names (StringsToBitMap ids s).1 in
  r.2 = None ∧ (∀ k, k ∈ r.1 ↔ k ∈ s ∧ is_Some (ids !! k)) ∧
  StronglySorted Z.lt (omap (ids !!.) r.1) ∧ length (omap (ids !!.) r.1) = length r.1.
Proof.
  cbn zeta. rewrite BitMapToStrings_spec. cbn [fst snd]. set (ms := masks _).
  assert (Hms : ∀ m, m ∈ ms ↔ ∃ k, k ∈ s ∧ ids !! k = Some m).
  { intros m. unfold ms. rewrite elem_of_masks. split.
    - intros (b & Hb & -> & Ht). apply encode_bits in Ht; [done|lia].
    - intros (k & Hk & Hm). destruct (single_bits k m Hm) as (b & Hb & ->). exists b. split_and!; [lia..|done|].
      apply encode_bits; [lia|]. by exists k. }
  assert (Hall : Forall (fun i => is_Some (names !! i)) ms).
  { apply Forall_forall. intros i (k & _ & Hk%inverse)%Hms. by exists k. }
  split; [by rewrite unknown_nil by (by apply Forall_forall)|].
  rewrite (omap_inverse ms Hall). split_and!; [|apply masks_sorted|].
  - intros k. rewrite list_elem_of_omap. split.
    + intros (i & (k' & Hk' & Hi)%Hms & Hn). apply inverse in Hn as Hn'. apply inverse in Hi as Hi'.
      assert (k' = k) as -> by congruence. split; [done|]. by exists i.
    + intros [Hk [i Hi]]. exists i. split; [apply Hms; by exists k|]. by apply inverse.
  - clear Hms. induction Hall as [|i l [n Hn] _ IH]; [done|]. cbn [omap list_omap]. rewrite Hn. simpl. by rewrite IH.
Qed.

(** Encoding a decoding gives the known bits below 32 back. *)
Lemma bitmap_encode_decode v n : 0 <= n →
  (StringsToBitMap ids (BitMapToStrings names v).1).2 = None ∧
  Z.testbit (StringsToBitMap ids (BitMapToStrings names v).1).1 n =
    Z.testbit v n && (n <? 32) && bool_decide (is_Some (names !! (2 ^ n))).
Proof.
  intros Hn. rewrite BitMapToStrings_spec. cbn [fst]. split.
  - rewrite StringsToBitMap_spec, unknown_nil; [done|]. intros k (i & _ & Hk%inverse)%list_elem_of_omap. by exists i.
  - apply eq_true_iff_eq. rewrite encode_bits, !andb_true_iff, Z.ltb_lt, bool_decide_eq_true by done. split.
    + intros (k & Hk & Hi). apply list_elem_of_omap in Hk as (i & Hm & Hk). apply inverse in Hk.
      assert (i = 2 ^ n) as -> by congruence. apply elem_of_masks in Hm as (b & Hb & Heq & Ht).
      apply Z.pow_inj_r in Heq as ->; [|lia..]. split_and!; [done|lia|]. exists k. by apply inverse.
    + intros [[Ht Hlt] [k Hk]]. exists k. apply inverse in Hk as Hk'. split; [|done].
      apply list_elem_of_omap. exists (2 ^ n). split; [|done]. apply elem_of_masks. exists n. split_and!; by try lia.
Qed.
End RoundTrip.

(** Enumeration bitmaps round trip. Decoding lists the names of the
    known bits in increasing order and reports exactly the unknown masks
    below 2^32; encoding names and decoding the bitmap gives each known name
    once, in identifier order; decoding any integer and encoding the names
    gives back its known bits, hence the integer itself when it has no other. *)
Theorem bitmap_roundtrip (ids : gmap gostring Z) (names : gmap Z gostring) :
  (∀ n i, ids !! n = Some i ↔ names !! i = Some n) →
  (∀ n i, ids !! n = Some i → ∃ b, 0 <= b < 32 ∧ i = 2 ^ b) →
  (∀ v, BitMapToStrings names v = (omap (names !!.) (masks v), listed (unknown names (masks v)))) ∧
  (∀ s, (StringsToBitMap ids s).2 = listed (unknown ids s) ∧ 0 <= (StringsToBitMap ids s).1 < 2 ^ 32 ∧
     let r := BitMapToStrings names (StringsToBitMap ids s).1 in
     r.2 = None ∧ (∀ k, k ∈ r.1 ↔ k ∈ s ∧ is_Some (ids !! k)) ∧
     StronglySorted Z.lt (omap (ids !!.) r.1) ∧ length (omap (ids !!.) r.1) = length r.1) ∧
  (∀ v, (BitMapToStrings names v).2 = None → 0 <= v < 2 ^ 32 →
     StringsToBitMap ids (BitMapToStrings names v).1 = (v, None)).
Proof.
  intros Hinv Hbits. split; [by intros; apply BitMapToStrings_spec|]. split.
  - intros s. split; [by rewrite StringsToBitMap_spec|]. split; [by apply (encode_range ids)|].
    by apply (bitmap_decode_encode ids names).
  - intros v Hknown Hv. destruct (StringsToBitMap ids _) as [w e] eqn:Hw.
    assert (He := bitmap_encode_decode ids names Hinv Hbits v). rewrite Hw in He. cbn [fst snd] in He.
    f_equal; [|by destruct (He 0)]. apply Z.bits_inj'. intros n Hn. rewrite (proj2 (He n Hn)).
    destruct (Z.testbit v n) eqn:Ht; [cbn [andb]|done].
    assert (Hn32 : n < 32).
    { apply Z.nle_gt. intros Hge. rewrite Z.bits_above_log2 in Ht; [done|lia|].
      destruct (Z.eq_dec v 0) as [->|]; [simpl; lia|]. assert (Z.log2 v < 32) by (apply Z.log2_lt_pow2; lia). lia. }
    rewrite (proj2 (Z.ltb_lt _ _) Hn32). cbn [andb]. apply bool_decide_eq_true.
    rewrite BitMapToStrings_spec in Hknown. cbn [snd] in Hknown.
    destruct (names !! (2 ^ n)) as [name|] eqn:Hnm; [by exists name|]. exfalso.
    assert (Hin : 2 ^ n ∈ unknown names (masks v)).
    { apply list_elem_of_filter. split; [done|]. apply elem_of_masks. exists n. split_and!; by try lia. }
    destruct (unknown names (masks v)); [by apply not_elem_of_nil in Hin|done].
Qed.

Definition sampleIDs : gmap gostring Z := <[str "FIRST" := 1]> (<[str "FOURTH" := 8]> ∅).
Definition sampleNames : gmap Z gostring := <[1 := str "FIRST"]> (<[8 := str "FOURTH"]> ∅).

Lemma bitmap_roundtrip_witness :
  StringsToBitMap sampleIDs [str "FOURTH"; str "FIRST"; str "FOURTH"] = (9, None) ∧
  BitMapToStrings sampleNames 9 = ([str "FIRST"; str "FOURTH"], None) ∧
  (BitMapToStrings sampleNames 11).2 = Some [2] ∧
  StringsToBitMap sampleIDs (BitMapToStrings sampleNames 9).1 = (9, None).
Proof.
  assert (Hinv : ∀ n i, sampleIDs !! n = Some i ↔ sampleNames !! i = Some n).
  { intros n i. unfold sampleIDs, sampleNames. rewrite !lookup_insert_Some, !lookup_empty.
    assert (str "FIRST" ≠ str "FOURTH") by discriminate. assert (1 ≠ 8) by lia. naive_solver. }
  assert (Hbits : ∀ n i, sampleIDs !! n = Some i → ∃ b, 0 <= b < 32 ∧ i = 2 ^ b).
  { intros n i. unfold sampleIDs. rewrite !lookup_insert_Some, lookup_empty.
    intros [[_ <-]|[_ [[_ <-]|[_ ?]]]]; [exists 0|exists 3|discriminate]; (split; [lia|reflexivity]). }
  destruct (bitmap_roundtrip sampleIDs sampleNames Hinv Hbits) as (Hd & _ & He).
  split; [vm_compute; reflexivity|]. split; [vm_compute; reflexivity|]. split.
  - rewrite Hd. vm_compute. reflexivity.
  - apply He; [vm_compute; reflexivity|lia].
Defined.
