(* ===== verification/EnumCache.v ===== *)
(** * [pkg/enumcache]: a bidirectional enumeration cache

    enumcache.go. Each method runs under the mutex, so a method is one step.
    A Go map iterated over is visited in the order of [iterID] or [iterName],
    of which only the permutation law is assumed. The abstract contents of a
    cache is a set of pairs of an identifier and a name. *)

From stdpp Require Import base option list gmap sorting.
From Stdlib Require Import String.
From S2P Require Import Prelude GoString EnumBitmap.

#[local] Open Scope Z_scope.

Inductive enum_error := ErrNameNotFound | ErrIDNotFound.

Record EnumCache : Type := MkEnumCache {
  ec_id : gmap gostring Z;
  ec_name : gmap Z gostring
}.

Section EnumCache.
Context (iterID : gmap gostring Z → list (gostring * Z)) (iterName : gmap Z gostring → list (Z * gostring)).

Definition New : EnumCache := MkEnumCache ∅ ∅.

Definition set (id : Z) (name : gostring) (ec : EnumCache) : EnumCache :=
  let ids := match ec_name ec !! id with
             | Some oldName => if decide (oldName = name) then ec_id ec else delete oldName (ec_id ec)
             | None => ec_id ec
             end in
  let names := match ids !! name with
               | Some oldID => if decide (oldID = id) then ec_name ec else delete oldID (ec_name ec)
               | None => ec_name ec
               end in
  MkEnumCache (<[name := id]> ids) (<[id := name]> names).

Definition Set_ (id : Z) (name : gostring) (ec : EnumCache) : EnumCache := set id name ec.

Definition Delete (id : Z) (ec : EnumCache) : EnumCache :=
  match ec_name ec !! id with
  | None => ec
  | Some name => MkEnumCache (delete name (ec_id ec)) (delete id (ec_name ec))
  end.

Definition SetAllIDByName (enum : gmap gostring Z) (ec : EnumCache) : EnumCache :=
  foldl (fun ec kv => set kv.2 kv.1 ec) ec (iterID enum).

Definition SetAllNameByID (enum : gmap Z gostring) (ec : EnumCache) : EnumCache :=
  foldl (fun ec kv => set kv.1 kv.2 ec) ec (iterName enum).

Definition ID (name : gostring) (ec : EnumCache) : result enum_error Z :=
  match ec_id ec !! name with Some id => Ok id | None => Error ErrNameNotFound end.

Definition Name (id : Z) (ec : EnumCache) : result enum_error gostring :=
  match ec_name ec !! id with Some name => Ok name | None => Error ErrIDNotFound end.

Definition SortNames (ec : EnumCache) : list gostring := merge_sort str_le (iterID (ec_id ec)).*1.
Definition SortIDs (ec : EnumCache) : list Z := merge_sort Z.le (iterName (ec_name ec)).*1.
Definition Len (ec : EnumCache) : nat := size (ec_id ec).
Definition Has (name : gostring) (ec : EnumCache) : bool := bool_decide (is_Some (ec_id ec !! name)).
Definition HasID (id : Z) (ec : EnumCache) : bool := bool_decide (is_Some (ec_name ec !! id)).
Definition DecodeBinaryMap (v : Z) (ec : EnumCache) : list gostring * option (list Z) := BitMapToStrings (ec_name ec) v.
Definition EncodeBinaryMap (s : list gostring) (ec : EnumCache) : Z * option (list gostring) := StringsToBitMap (ec_id ec) s.

(** The writes of a cache. *)
Inductive op :=
| OpSet (id : Z) (name : gostring)
| OpDelete (id : Z)
| OpSetAllIDByName (enum : gmap gostring Z)
| OpSetAllNameByID (enum : gmap Z gostring).

Definition apply_op (ec : EnumCache) (o : op) : EnumCache :=
  match o with
  | OpSet id name => Set_ id name ec
  | OpDelete id => Delete id ec
  | OpSetAllIDByName enum => SetAllIDByName enum ec
  | OpSetAllNameByID enum => SetAllNameByID enum ec
  end.

(** ** The specification: a set of pairs, one per identifier and per name *)

Definition pairs (ec : EnumCache) : gset (Z * gostring) := map_to_set pair (ec_name ec).

Definition consistent (ec : EnumCache) : Prop := ∀ n i, ec_id ec !! n = Some i ↔ ec_name ec !! i = Some n.

(** The new pair replaces those sharing its identifier or its name. *)
Definition put (P : gset (Z * gostring)) (kv : Z * gostring) : gset (Z * gostring) :=
  {[ kv ]} ∪ filter (fun p => p.1 ≠ kv.1 ∧ p.2 ≠ kv.2) P.

Definition apply_spec (P : gset (Z * gostring)) (o : op) : gset (Z * gostring) :=
  match o with
  | OpSet id name => put P (id, name)
  | OpDelete id => filter (fun p => p.1 ≠ id) P
  | OpSetAllIDByName enum => foldl put P (prod_swap <$> iterID enum)
  | OpSetAllNameByID enum => foldl put P (iterName enum)
  end.

Lemma elem_of_pairs ec i n : (i, n) ∈ pairs ec ↔ ec_name ec !! i = Some n.
Proof.
  unfold pairs. rewrite elem_of_map_to_set. split; [|by exists i, n].
  intros (i' & n' & Hl & Heq). by simplify_eq.
Qed.

Lemma elem_of_put P kv p : p ∈ put P kv ↔ p = kv ∨ (p ∈ P ∧ p.1 ≠ kv.1 ∧ p.2 ≠ kv.2).
Proof. unfold put. set_solver. Qed.

(** The names map after a [set] of a consistent cache. *)
Lemma set_names i0 n0 ec i n : consistent ec →
  ec_name (set i0 n0 ec) !! i = Some n ↔
    (i = i0 ∧ n = n0) ∨ (ec_name ec !! i = Some n ∧ i ≠ i0 ∧ n ≠ n0).
Proof.
  intros Hc. unfold consistent in Hc. unfold set. cbn [ec_name]. rewrite lookup_insert_Some.
  set (ids := match ec_name ec !! i0 with Some _ => _ | None => _ end).
  assert (Hids : ids !! n0 = ec_id ec !! n0).
  { unfold ids. destruct (ec_name ec !! i0) as [old|]; [|done]. case_decide; [done|].
    by rewrite lookup_delete_ne. }
  rewrite Hids. clear ids Hids.
  assert (Hn : ∀ old, old ≠ i0 → ec_id ec !! n0 = Some old →
    (ec_name ec !! i = Some n ∧ i ≠ old ↔ ec_name ec !! i = Some n ∧ n ≠ n0)).
  { intros old Hne Ho. split; intros [Hi H]; (split; [done|]); intros ->; apply H.
    - apply Hc in Hi. congruence.
    - apply Hc in Ho. congruence. }
  destruct (ec_id ec !! n0) as [old|] eqn:Ho.
  - case_decide as Hd.
    + subst old. split; [|naive_solver]. intros [[<- <-]|[Hne Hi]]; [by left|]. right. split_and!; [done..|].
      intros ->. apply Hc in Hi. congruence.
    + rewrite lookup_delete_Some. specialize (Hn old Hd eq_refl). naive_solver.
  - split; [|naive_solver]. intros [[<- <-]|[Hne Hi]]; [by left|]. right. split_and!; [done..|].
    intros ->. apply Hc in Hi. congruence.
Qed.

Lemma set_ids i0 n0 ec n i : consistent ec →
  ec_id (set i0 n0 ec) !! n = Some i ↔
    (i = i0 ∧ n = n0) ∨ (ec_name ec !! i = Some n ∧ i ≠ i0 ∧ n ≠ n0).
Proof.
  intros Hc. unfold consistent in Hc. unfold set. cbn [ec_id]. rewrite lookup_insert_Some.
  destruct (ec_name ec !! i0) as [old|] eqn:Ho.
  - apply Hc in Ho as Ho'. case_decide as Hd; [subst old|]; rewrite ?lookup_delete_Some, ?Hc.
    + split; [|naive_solver]. intros [[<- <-]|[Hne Hi]]; [by left|]. right. split_and!; [done| |done].
      intros ->. congruence.
    + split.
      * intros [[<- <-]|(Hne & Hne' & Hi)]; [by left|]. right. split_and!; [done| |done]. intros ->. congruence.
      * intros [[-> ->]|(Hi & Hne & Hne')]; [by left|]. right. split_and!; [done| |done]. intros <-. apply Hc in Hi. congruence.
  - rewrite Hc. split; [|naive_solver]. intros [[<- <-]|[Hne Hi]]; [by left|]. right. split_and!; [done| |done].
    intros ->. congruence.
Qed.

Lemma set_refines i n ec : consistent ec → consistent (set i n ec) ∧ pairs (set i n ec) = put (pairs ec) (i, n).
Proof.
  intros Hc. split; [intros n' i'; by rewrite set_ids, set_names|].
  apply set_eq. intros [i' n']. rewrite elem_of_put, !elem_of_pairs, set_names by done. naive_solver.
Qed.

Lemma Delete_refines i ec : consistent ec →
  consistent (Delete i ec) ∧ pairs (Delete i ec) = filter (fun p => p.1 ≠ i) (pairs ec).
Proof.
  intros Hc. unfold consistent in *. unfold Delete. destruct (ec_name ec !! i) as [name|] eqn:Hi.
  - split.
    + intros n' i'. cbn [ec_id ec_name]. rewrite !lookup_delete_Some, Hc. apply Hc in Hi as Hn.
      split; intros [Hne Hl]; (split; [|done]); intros <-; apply Hne; [congruence|]. apply Hc in Hl. congruence.
    + apply set_eq. intros [i' n']. rewrite elem_of_filter, !elem_of_pairs. cbn [ec_name fst].
      rewrite lookup_delete_Some. naive_solver.
  - split; [done|]. apply set_eq. intros [i' n']. rewrite elem_of_filter, !elem_of_pairs. cbn [fst].
    split; [|naive_solver]. intros Hl. split; [congruence|done].
Qed.

Lemma sets_refine {A} (f : A → Z * gostring) l ec : consistent ec →
  let ec' := foldl (fun ec kv => set (f kv).1 (f kv).2 ec) ec l in
  consistent ec' ∧ pairs ec' = foldl put (pairs ec) (f <$> l).
Proof.
  revert ec. induction l as [|kv l IH]; intros ec Hc; [done|]. cbn [foldl fmap list_fmap].
  destruct (set_refines (f kv).1 (f kv).2 ec Hc) as [Hc' Hp]. destruct (IH _ Hc') as [Hc'' Hp'].
  split; [done|]. rewrite Hp', Hp. by destruct (f kv).
Qed.

Lemma apply_refines ec o : consistent ec →
  consistent (apply_op ec o) ∧ pairs (apply_op ec o) = apply_spec (pairs ec) o.
Proof.
  intros Hc. destruct o as [i n|i|enum|enum]; simpl.
  - by apply set_refines.
  - by apply Delete_refines.
  - by apply (sets_refine prod_swap).
  - destruct (sets_refine (fun kv => kv) (iterName enum) ec Hc) as [H1 H2]. rewrite list_fmap_id in H2. by split.
Qed.

(** Loading pairs no two of which share an identifier or a name. *)
Definition separate (l : list (Z * gostring)) : Prop :=
  ∀ p q, p ∈ l → q ∈ l → p.1 = q.1 ∨ p.2 = q.2 → p = q.

Lemma puts_spec l : separate l → ∀ P p,
  p ∈ foldl put P l ↔ p ∈ l ∨ (p ∈ P ∧ ∀ q, q ∈ l → p.1 ≠ q.1 ∧ p.2 ≠ q.2).
Proof.
  intros Hs. induction l as [|kv l IH]; intros P p; cbn [foldl].
  { split; [intros; right|intros [?%not_elem_of_nil|[? _]]]; try done. split; [done|]. by intros q ?%not_elem_of_nil. }
  assert (Hs' : separate l) by (intros q r Hq Hr; apply Hs; by right).
  rewrite IH by done. setoid_rewrite elem_of_put. setoid_rewrite elem_of_cons. split.
  - intros [?|[[->|(Hp & H1 & H2)] Hq]]; [by left; right|by left; left|]. right. split; [done|].
    intros q [->|?]; [done|by apply Hq].
  - intros [[->|?]|[Hp Hq]]; [|by left|right; split; [right; split; [done|]; apply Hq; by left|intros; apply Hq; by right]].
    destruct (decide (kv ∈ l)) as [|Hn]; [by left|]. right. split; [by left|].
    intros q Hq. split; intros Heq; apply Hn; rewrite (Hs kv q); first [done|by left|by right|by auto].
Qed.
End EnumCache.

(** ** Queries *)

(** What the queries answer when the contents are [P]. *)
Record answers (iterID : gmap gostring Z → list (gostring * Z)) (iterName : gmap Z gostring → list (Z * gostring))
    (ec : EnumCache) (P : gset (Z * gostring)) : Prop := Answers {
  an_unique : ∀ p q, p ∈ P → q ∈ P → p.1 = q.1 ∨ p.2 = q.2 → p = q;
  an_ID : ∀ n, match ID n ec with
               | Ok i => (i, n) ∈ P
               | Error e => e = ErrNameNotFound ∧ ∀ i, (i, n) ∉ P
               end;
  an_Name : ∀ i, match Name i ec with
                 | Ok n => (i, n) ∈ P
                 | Error e => e = ErrIDNotFound ∧ ∀ n, (i, n) ∉ P
                 end;
  an_Has : ∀ n, Has n ec = true ↔ ∃ i, (i, n) ∈ P;
  an_HasID : ∀ i, HasID i ec = true ↔ ∃ n, (i, n) ∈ P;
  an_Len : Len ec = size P;
  an_SortNames : SortNames iterID ec ≡ₚ (elements P).*2 ∧ StronglySorted str_le (SortNames iterID ec);
  an_SortIDs : SortIDs iterName ec ≡ₚ (elements P).*1 ∧ StronglySorted Z.le (SortIDs iterName ec)
}.

Section Queries.
Context (iterID : gmap gostring Z → list (gostring * Z)) (iterName : gmap Z gostring → list (Z * gostring)).
Hypothesis iterID_perm : ∀ m, iterID m ≡ₚ map_to_list m.
Hypothesis iterName_perm : ∀ m, iterName m ≡ₚ map_to_list m.

Lemma elements_pairs ec : elements (pairs ec) ≡ₚ map_to_list (ec_name ec).
Proof.
  apply NoDup_Permutation; [apply NoDup_elements|apply NoDup_map_to_list|].
  intros [i n]. by rewrite elem_of_elements, elem_of_pairs, elem_of_map_to_list.
Qed.

Lemma ids_names ec : consistent ec → prod_swap <$> map_to_list (ec_id ec) ≡ₚ map_to_list (ec_name ec).
Proof.
  intros Hc. apply NoDup_Permutation.
  - apply (NoDup_fmap_2 (prod_swap (A:=gostring) (B:=Z))), NoDup_map_to_list.
  - apply NoDup_map_to_list.
  - intros [i n]. rewrite list_elem_of_fmap, elem_of_map_to_list, <- (Hc n i). split.
    + intros ([n' i'] & Heq & Hl). simpl in Heq. simplify_eq. by apply elem_of_map_to_list.
    + intros Hl. exists (n, i). split; [done|]. by apply elem_of_map_to_list.
Qed.

Lemma queries_answer ec : consistent ec → answers iterID iterName ec (pairs ec).
Proof.
  intros Hc. unfold consistent in Hc. constructor.
  - intros [i n] [i' n']. rewrite !elem_of_pairs. cbn [fst snd]. intros Hi Hi' [<-|<-]; [congruence|].
    apply Hc in Hi, Hi'. congruence.
  - intros n. unfold ID. destruct (ec_id ec !! n) as [i|] eqn:Hn; [by apply elem_of_pairs, Hc|].
    split; [done|]. intros i Hi%elem_of_pairs%Hc. congruence.
  - intros i. unfold Name. destruct (ec_name ec !! i) as [n|] eqn:Hi; [by apply elem_of_pairs|].
    split; [done|]. intros n Hn%elem_of_pairs. congruence.
  - intros n. unfold Has. rewrite bool_decide_eq_true. setoid_rewrite elem_of_pairs.
    split; intros [i Hi]; exists i; by apply Hc.
  - intros i. unfold HasID. rewrite bool_decide_eq_true. by setoid_rewrite elem_of_pairs.
  - unfold Len, size at 2, set_size. simpl. rewrite (Permutation_length (elements_pairs ec)).
    rewrite <- (Permutation_length (ids_names ec Hc)), length_fmap. by rewrite length_map_to_list.
  - unfold SortNames. split; [|apply StronglySorted_merge_sort; apply _].
    rewrite merge_sort_Permutation, iterID_perm, elements_pairs, <- (ids_names ec Hc).
    rewrite <- list_fmap_compose. reflexivity.
  - unfold SortIDs. split; [|apply StronglySorted_merge_sort; apply _].
    by rewrite merge_sort_Permutation, iterName_perm, elements_pairs.
Qed.

Lemma ops_refine ops ec : consistent ec →
  consistent (foldl (apply_op iterID iterName) ec ops) ∧
  pairs (foldl (apply_op iterID iterName) ec ops) = foldl (apply_spec iterID iterName) (pairs ec) ops.
Proof.
  revert ec. induction ops as [|o ops IH]; intros ec Hc; [done|]. cbn [foldl].
  destruct (apply_refines iterID iterName ec o Hc) as [Hc' Hp]. rewrite <- Hp. by apply IH.
Qed.

(** Loading a table in which no identifier is repeated. *)
Lemma bulk_load enum ec i n : consistent ec →
  (∀ n n' i, enum !! n = Some i → enum !! n' = Some i → n = n') →
  (i, n) ∈ pairs (SetAllIDByName iterID enum ec) ↔
    enum !! n = Some i ∨ ((i, n) ∈ pairs ec ∧ enum !! n = None ∧ ∀ n', enum !! n' ≠ Some i).
Proof.
  intros Hc Hinj. destruct (sets_refine prod_swap (iterID enum) ec Hc) as [_ Hp].
  change (pairs (SetAllIDByName iterID enum ec) = foldl put (pairs ec) (prod_swap <$> iterID enum)) in Hp.
  rewrite Hp.
  assert (Hel : ∀ i n, (i, n) ∈ prod_swap <$> iterID enum ↔ enum !! n = Some i).
  { intros i' n'. rewrite iterID_perm, list_elem_of_fmap. split.
    - intros ([n1 i1] & Heq & Hl%elem_of_map_to_list). simpl in Heq. by simplify_eq.
    - intros Hl. exists (n', i'). split; [done|]. by apply elem_of_map_to_list. }
  rewrite puts_spec, Hel.
  - split; (intros [?|[Hin Hq]]; [by left|right]).
    + split; [done|]. split.
      * destruct (enum !! n) as [i'|] eqn:Hn; [|done]. apply Hel in Hn. by destruct (Hq _ Hn) as [_ ?].
      * intros n' Hn'%Hel. by destruct (Hq _ Hn') as [? _].
    + split; [done|]. destruct Hq as [Hn Hi]. intros [i' n'] Hq%Hel. cbn [fst snd].
      split; intros Heq; subst; [by apply (Hi n')|congruence].
  - intros [i1 n1] [i2 n2] H1%Hel H2%Hel. cbn [fst snd]. intros [Heq | Heq]; subst; [|congruence].
    by rewrite (Hinj _ _ _ H1 H2).
Qed.
End Queries.

(** C26. The cache implements a partial bijection. After any sequence of
    writes its contents is the set of pairs the specification computes
    ([Set] replaces the pairs sharing the identifier or the name), every
    query answers from that set, and loading a table without repeated
    identifiers gives the same contents whatever the iteration order. *)
Theorem cache_refines_bijection iterID iterName (ops : list op) :
  (∀ m, iterID m ≡ₚ map_to_list m) → (∀ m, iterName m ≡ₚ map_to_list m) →
  let ec := foldl (apply_op iterID iterName) New ops in
  let P := foldl (apply_spec iterID iterName) ∅ ops in
  answers iterID iterName ec P ∧
  ∀ enum, (∀ n n' i, enum !! n = Some i → enum !! n' = Some i → n = n') →
    ∀ i n, ID n (SetAllIDByName iterID enum ec) = Ok i ↔
      enum !! n = Some i ∨ ((i, n) ∈ P ∧ enum !! n = None ∧ ∀ n', enum !! n' ≠ Some i).
Proof.
  intros Hid Hname ec P.
  assert (Hc0 : consistent New) by (intros n i; simpl; by rewrite !lookup_empty).
  assert (HP0 : pairs New = ∅).
  { apply set_eq. intros [i n]. rewrite elem_of_pairs. simpl. rewrite lookup_empty. set_solver. }
  destruct (ops_refine iterID iterName ops New Hc0) as [Hc Hp]. fold ec in Hc, Hp. rewrite HP0 in Hp.
  fold P in Hp. rewrite <- Hp. split; [by apply queries_answer|].
  intros enum Hinj i n. rewrite <- bulk_load by done.
  assert (Hc' : consistent (SetAllIDByName iterID enum ec)) by (apply (sets_refine prod_swap); done).
  rewrite elem_of_pairs. unfold consistent in Hc'. rewrite <- Hc'. unfold ID.
  destruct (ec_id _ !! n); split; congruence.
Qed.

Lemma cache_refines_bijection_witness :
  ID (str "B") (foldl (apply_op map_to_list map_to_list) New [OpSet 1 (str "A"); OpSet 2 (str "B"); OpSet 1 (str "B")]) = Ok 1 ∧
  Name 2 (foldl (apply_op map_to_list map_to_list) New [OpSet 1 (str "A"); OpSet 2 (str "B"); OpSet 1 (str "B")]) =
    Error ErrIDNotFound ∧
  Len (foldl (apply_op map_to_list map_to_list) New [OpSet 1 (str "A"); OpSet 2 (str "B"); OpSet 1 (str "B")]) = 1%nat.
Proof.
  destruct (cache_refines_bijection map_to_list map_to_list [OpSet 1 (str "A"); OpSet 2 (str "B"); OpSet 1 (str "B")]
    (fun m => Permutation_refl (map_to_list m)) (fun m => Permutation_refl (map_to_list m))) as [Ha _].
  split; [vm_compute; reflexivity|]. split; [vm_compute; reflexivity|].
  rewrite (an_Len _ _ _ _ Ha). vm_compute. reflexivity.
Defined.
