(* ===== verification/Paging.v ===== *)
(** * [pkg/paging]: pagination metadata

    paging.go. A [uint] has 64 bits: sums and products wrap. *)

From S2P Require Import Prelude.

#[local] Open Scope Z_scope.

Definition MaxUint : Z := 2 ^ 64 - 1.

Record Paging : Type := MkPaging {
  CurrentPage : Z;
  PageSize : Z;
  TotalItems : Z;
  TotalPages : Z;
  PreviousPage : Z;
  NextPage : Z;
  Offset : Z;
  HasPreviousPage : bool;
  HasNextPage : bool
}.

Definition computeOffset (currentPage pageSize : Z) : Z :=
  let offset := wrapU 64 (pageSize * wrapU 64 (currentPage - 1)) in
  if (1 <? currentPage) && negb (offset / pageSize =? wrapU 64 (currentPage - 1)) then MaxUint else offset.

Definition computeTotalPages (totalItems pageSize : Z) : Z :=
  if totalItems <=? pageSize then 1
  else
    let pages := totalItems / pageSize in
    if negb (totalItems mod pageSize =? 0) then wrapU 64 (pages + 1) else pages.

Definition computePreviousPage (currentPage : Z) : Z :=
  if currentPage <=? 1 then 1 else wrapU 64 (currentPage - 1).

Definition computeNextPage (currentPage totalPages : Z) : Z :=
  if totalPages <=? currentPage then totalPages else wrapU 64 (currentPage + 1).

Definition New (currentPage pageSize totalItems : Z) : Paging :=
  let pageSize := Z.max pageSize 1 in
  let totalPages := computeTotalPages totalItems pageSize in
  let currentPage := Z.min (Z.max currentPage 1) totalPages in
  MkPaging currentPage pageSize totalItems totalPages
    (computePreviousPage currentPage) (computeNextPage currentPage totalPages)
    (computeOffset currentPage pageSize) (1 <? currentPage) (currentPage <? totalPages).

Definition ComputeOffsetAndLimit (currentPage pageSize : Z) : Z * Z :=
  let currentPage := Z.max currentPage 1 in
  let pageSize := Z.max pageSize 1 in
  (computeOffset currentPage pageSize, pageSize).

(** ** Facts *)

(** The division detects the overflow of the product: a wrapped product is
    smaller by a multiple of 2^64, so its quotient is smaller. *)
Lemma computeOffset_spec c s : 1 <= c <= MaxUint → 1 <= s <= MaxUint →
  computeOffset c s = Z.min (s * (c - 1)) MaxUint.
Proof.
  intros Hc Hs. unfold computeOffset, MaxUint in *. rewrite (wrapU_small 64 (c - 1)) by (unfold inU; lia).
  destruct (Z.ltb_spec 1 c) as [H1|H1]; cbn [andb].
  2:{ replace (c - 1) with 0 by lia. rewrite Z.mul_0_r, wrapU_small by (unfold inU; lia). lia. }
  destruct (Z.lt_ge_cases (s * (c - 1)) (2 ^ 64)) as [Hlt|Hge].
  - rewrite wrapU_small by (unfold inU; nia). rewrite Z.mul_comm, Z.div_mul, Z.eqb_refl by lia. simpl. lia.
  - assert (Hw : wrapU 64 (s * (c - 1)) < s * (c - 1)).
    { pose proof (wrapU_range 64 (s * (c - 1)) ltac:(lia)) as Hr. unfold inU in Hr. lia. }
    rewrite (proj2 (Z.eqb_neq _ _)); [simpl; lia|].
    intros He. pose proof (Z.mul_div_le (wrapU 64 (s * (c - 1))) s ltac:(lia)). nia.
Qed.

(** The number of pages is the rounded-up quotient, at least one. *)
Lemma computeTotalPages_spec t s : 0 <= t <= MaxUint → 1 <= s →
  computeTotalPages t s = Z.max 1 ((t + s - 1) / s) ∧ 1 <= computeTotalPages t s <= MaxUint.
Proof.
  intros Ht Hs. unfold computeTotalPages, MaxUint in *. destruct (Z.leb_spec t s) as [Hle|Hgt].
  - split; [|lia]. assert ((t + s - 1) / s < 2) by (apply Z.div_lt_upper_bound; lia). lia.
  - pose proof (Z.div_mod t s ltac:(lia)) as Hdm. pose proof (Z.mod_pos_bound t s ltac:(lia)) as Hm.
    assert (Hq : 1 <= t / s) by (apply Z.div_le_lower_bound; lia).
    assert (Hqt : t / s <= t) by (apply Z.div_le_upper_bound; nia).
    destruct (Z.eqb_spec (t mod s) 0) as [H0|H0]; simpl.
    + assert (He : (t + s - 1) / s = t / s) by (symmetry; apply (Z.div_unique_pos _ _ _ (s - 1)); lia).
      rewrite He. lia.
    + assert (He : (t + s - 1) / s = t / s + 1) by (symmetry; apply (Z.div_unique_pos _ _ _ (t mod s - 1)); lia).
      assert (t / s < t) by (apply Z.div_lt; nia). rewrite wrapU_small by (unfold inU; lia). rewrite He. lia.
Qed.

(** Pagination is exact and in range: for every 64-bit input [New]
    clamps the page to an existing one, its offset is the exact product,
    without overflow, and designates a stored item unless there is none; the
    pages' ranges [offset, offset + size) cover every item; the neighbours
    exist exactly when announced. Without a total, the offset is the product
    or, when it does not fit in a [uint], the largest one. *)
Theorem paging_exact currentPage pageSize totalItems :
  0 <= currentPage <= MaxUint → 0 <= pageSize <= MaxUint → 0 <= totalItems <= MaxUint →
  let p := New currentPage pageSize totalItems in
  PageSize p = Z.max 1 pageSize ∧
  TotalPages p = Z.max 1 ((totalItems + PageSize p - 1) / PageSize p) ∧
  CurrentPage p = Z.min (Z.max 1 currentPage) (TotalPages p) ∧
  Offset p = PageSize p * (CurrentPage p - 1) ∧ 0 <= Offset p <= MaxUint ∧
  (Offset p < totalItems ∨ (totalItems = 0 ∧ Offset p = 0)) ∧
  (∀ i, 0 <= i < totalItems → ∃ c, 1 <= c <= TotalPages p ∧
     let q := New c pageSize totalItems in CurrentPage q = c ∧ Offset q <= i < Offset q + PageSize q) ∧
  PreviousPage p = Z.max 1 (CurrentPage p - 1) ∧ NextPage p = Z.min (TotalPages p) (CurrentPage p + 1) ∧
  (HasPreviousPage p = true ↔ PreviousPage p <> CurrentPage p) ∧
  (HasNextPage p = true ↔ NextPage p <> CurrentPage p) ∧
  ComputeOffsetAndLimit currentPage pageSize =
    (Z.min (PageSize p * (Z.max 1 currentPage - 1)) MaxUint, PageSize p).
Proof.
  intros Hc Hs Ht. cbn zeta. unfold ComputeOffsetAndLimit.
  rewrite computeOffset_spec by (unfold MaxUint in *; lia).
  unfold New. cbn [CurrentPage PageSize TotalItems TotalPages PreviousPage NextPage Offset HasPreviousPage HasNextPage].
  set (s := Z.max pageSize 1) in *.
  destruct (computeTotalPages_spec totalItems s Ht ltac:(lia)) as [Htp Htr]. set (tp := computeTotalPages _ _) in *.
  assert (Hlast : s * (tp - 1) < totalItems ∨ (totalItems = 0 ∧ tp = 1)).
  { pose proof (Z.mul_div_le (totalItems + s - 1) s ltac:(lia)). destruct (Z.eq_dec totalItems 0) as [->|].
    - right. split; [done|]. rewrite Z.div_small in Htp by lia. lia.
    - left. destruct (Z.le_gt_cases tp 1); [nia|]. assert (tp = (totalItems + s - 1) / s) by lia. nia. }
  assert (Hoff : ∀ c, 1 <= c <= tp → computeOffset c s = s * (c - 1) ∧ 0 <= s * (c - 1) <= MaxUint).
  { intros c Hct. assert (0 <= s * (c - 1) <= MaxUint) by nia.
    rewrite computeOffset_spec by (unfold MaxUint in *; lia). lia. }
  set (c := Z.min (Z.max currentPage 1) tp) in *. destruct (Hoff c ltac:(lia)) as [Ho Hob]. rewrite Ho.
  split; [lia|]. split; [done|]. split; [lia|]. split; [done|]. split; [done|]. split.
  { destruct Hlast as [?|[? ?]]; [left; nia|right]. split; [done|]. assert (c = 1) by lia. nia. }
  split.
  { intros i Hi. exists (i / s + 1).
    assert (Hq : 0 <= i / s) by (apply Z.div_pos; lia).
    assert (Hqt : i / s + 1 <= tp).
    { assert (Hle : i / s <= (totalItems - 1) / s) by (apply Z.div_le_mono; lia).
      assert ((totalItems + s - 1) / s = (totalItems - 1) / s + 1).
      { replace (totalItems + s - 1) with (totalItems - 1 + 1 * s) by lia. by rewrite Z.div_add by lia. } lia. }
    split; [lia|]. rewrite Z.min_l, Z.max_l by lia. split; [done|].
    rewrite (proj1 (Hoff (i / s + 1) ltac:(lia))).
    pose proof (Z.div_mod i s ltac:(lia)). pose proof (Z.mod_pos_bound i s ltac:(lia)). lia. }
  unfold computePreviousPage, computeNextPage.
  assert (Hw : ∀ z, 0 <= z <= MaxUint → wrapU 64 z = z) by (intros z Hz; apply wrapU_small; unfold inU, MaxUint in *; lia).
  destruct (Z.leb_spec c 1), (Z.leb_spec tp c); rewrite ?Hw by lia; rewrite !Z.ltb_lt;
    (split; [lia|]; split; [lia|]; split; [lia|]; split; [lia|]; by rewrite (Z.max_comm 1 currentPage)).
Qed.

Lemma paging_exact_witness :
  New 3 5 17 = MkPaging 3 5 17 4 2 4 10 true true ∧
  Offset (New MaxUint 3 MaxUint) = MaxUint - 3 ∧
  (ComputeOffsetAndLimit MaxUint MaxUint).1 = MaxUint.
Proof.
  split; [vm_compute; reflexivity|].
  destruct (paging_exact MaxUint 3 MaxUint) as (_ & _ & Hc & Ho & _); [unfold MaxUint; lia..|].
  split; [rewrite Ho, Hc; vm_compute; reflexivity|vm_compute; reflexivity].
Defined.
