(* ===== verification/EditDistance.v ===== *)
(** * Edit sequences and alignments

    The mathematics behind [pkg/stringmetric]. An edit substitutes, inserts
    or deletes one element, or swaps two adjacent ones; the distance of two
    sequences is the least number of edits leading from one to the other.
    Dynamic programming cannot search edit sequences; it searches alignments,
    which account for each element once. This file shows that both have the
    same least cost, and the recurrence that alignments satisfy. *)

From stdpp Require Import base option list relations.
From S2P Require Import Prelude.

Section Edit.
Context {A : Type} `{EqDecision A}.
Implicit Types (a b c p s u v : list A) (x y z w : A) (n m : nat).

Inductive edit : list A → list A → Prop :=
| ed_sub x y s : edit (x :: s) (y :: s)
| ed_ins y s : edit s (y :: s)
| ed_del x s : edit (x :: s) s
| ed_swap x y s : edit (x :: y :: s) (y :: x :: s)
| ed_cons z s t : edit s t → edit (z :: s) (z :: t).

(** The least number of edits leading from [a] to [b] is [d]. *)
Definition distance a b (d : nat) : Prop := nsteps edit d a b ∧ ∀ n, nsteps edit n a b → d <= n.

(** The cost of aligning two elements. *)
Definition differ x y : nat := if decide (x = y) then 0 else 1.

(** [al a b n]: there is an alignment of [a] and [b] of cost at most [n]. A
    swap aligns [x] and [y] crosswise and gives up what lies between them. *)
Inductive al : list A → list A → nat → Prop :=
| al_nil n : al [] [] n
| al_sub x y a b n m : al a b n → n + differ x y <= m → al (x :: a) (y :: b) m
| al_ins y a b n m : al a b n → S n <= m → al a (y :: b) m
| al_del x a b n m : al a b n → S n <= m → al (x :: a) b m
| al_swap x y u v a b n m : al a b n → n + length u + 1 + length v <= m →
    al (y :: u ++ x :: a) (x :: v ++ y :: b) m.

Lemma differ_sym x y : differ x y = differ y x.
Proof. unfold differ. repeat case_decide; congruence. Qed.

Lemma differ_same x : differ x x = 0.
Proof. unfold differ. by case_decide. Qed.

Lemma differ_le x y : differ x y <= 1.
Proof. unfold differ. case_decide; lia. Qed.

Lemma al_mono a b n m : al a b n → n <= m → al a b m.
Proof.
  intros [k|x y a' b' k k' Ha Hk|y a' b' k k' Ha Hk|x a' b' k k' Ha Hk|x y u v a' b' k k' Ha Hk] Hm.
  - constructor.
  - eapply al_sub; [done|lia].
  - eapply al_ins; [done|lia].
  - eapply al_del; [done|lia].
  - eapply al_swap; [done|lia].
Qed.

Lemma al_sym a b n : al a b n → al b a n.
Proof.
  induction 1.
  - constructor.
  - eapply al_sub; [done|]. rewrite differ_sym. lia.
  - by eapply al_del.
  - by eapply al_ins.
  - eapply al_swap; [done|lia].
Qed.

Lemma al_refl a : al a a 0.
Proof. induction a as [|x a IH]; [constructor|]. eapply al_sub; [done|]. rewrite differ_same. lia. Qed.

Lemma al_match x a b n : al a b n → al (x :: a) (x :: b) n.
Proof. intros H. eapply al_sub; [done|]. rewrite differ_same. lia. Qed.

Lemma al_inss v a b n : al a b n → al a (v ++ b) (n + length v).
Proof.
  intros H. induction v as [|y v IH]; simpl; [eapply al_mono; [done|lia]|].
  eapply al_ins; [done|lia].
Qed.

Lemma al_inss_nil b : al [] b (length b).
Proof. pose proof (al_inss b [] [] 0 (al_nil 0)) as H. by rewrite app_nil_r in H. Qed.

Lemma al_dels u a b n : al a b n → al (u ++ a) b (n + length u).
Proof. intros H. by apply al_sym, al_inss, al_sym. Qed.

(** Inserting anywhere costs one. *)
Lemma al_ins_mid z a b n : al a b n → ∀ p s, b = p ++ s → al a (p ++ z :: s) (S n).
Proof.
  induction 1 as [n|x y a b n m Ha IH Hm|y a b n m Ha IH Hm|x a b n m Ha IH Hm|x y u v a b n m Ha IH Hm];
    intros p s Heq.
  - symmetry in Heq. apply app_eq_nil in Heq as [-> ->]. eapply al_ins; [constructor|done].
  - destruct p as [|? p]; simplify_eq/=.
    + eapply al_ins; [by eapply al_sub|lia].
    + eapply al_sub; [by apply IH|lia].
  - destruct p as [|? p]; simplify_eq/=.
    + eapply al_ins; [by eapply al_ins|lia].
    + eapply al_ins; [by apply IH|lia].
  - eapply al_del; [by apply IH|lia].
  - destruct p as [|? p]; simplify_eq/=.
    { eapply al_ins; [by eapply al_swap|lia]. }
    match goal with H : _ ++ _ = _ ++ _ |- _ => rename H into Heq end.
    apply app_eq_app in Heq as (l & [[-> Hs]|[-> Hs]]).
    + subst s. replace (p ++ z :: l ++ y :: b) with ((p ++ z :: l) ++ y :: b) by by rewrite <- app_assoc.
      eapply al_swap; [done|]. rewrite !length_app in *. simpl. lia.
    + rewrite <- app_assoc. destruct l as [|? l]; simplify_eq/=.
      * replace (v ++ z :: y :: b) with ((v ++ [z]) ++ y :: b) by by rewrite <- app_assoc.
        eapply al_swap; [done|]. rewrite length_app. simpl. lia.
      * eapply al_swap; [by apply (IH l)|lia].
Qed.

Lemma al_del_mid z p s b n : al (p ++ s) b n → al (p ++ z :: s) b (S n).
Proof. intros H%al_sym. apply al_sym. by eapply al_ins_mid. Qed.

(** Swapping the last aligned element with the one before it. *)
Lemma al_swap_sub x y a b n w : al a (w :: b) n → al (x :: a) (w :: y :: b) (S (n + differ x y)).
Proof.
  remember (w :: b) as wb eqn:Hwb. intros H. revert b Hwb.
  induction H as [n|x' w' a b n m Ha IH Hm|w' a b n m Ha IH Hm|x' a b n m Ha IH Hm|x' y' u v a b n m Ha IH Hm];
    intros b0 Hwb; simplify_eq/=.
  - unfold differ in *. repeat case_decide; subst.
    + eapply (al_swap _ _ [] []); [done|simpl; lia].
    + eapply al_sub; [eapply al_sub; [done|reflexivity]|]. unfold differ. repeat case_decide; lia.
    + eapply al_sub; [eapply al_sub; [done|reflexivity]|]. unfold differ. repeat case_decide; lia.
    + eapply al_sub; [eapply al_sub; [done|reflexivity]|]. unfold differ. repeat case_decide; lia.
  - eapply al_ins; [by eapply al_sub|lia].
  - eapply al_mono; [apply (al_del_mid x' [x] a); by apply IH|]. lia.
  - unfold differ. case_decide; subst.
    + eapply al_ins; [apply al_match, (al_inss v), al_match, (al_dels u); eapply al_del; [done|reflexivity]|lia].
    + eapply al_del; [eapply (al_swap _ _ u (y :: v)); [done|reflexivity]|simpl; lia].
Qed.

(** Swapping the outer element of an alignment's swap with its successor. *)
Lemma al_swap_swap x y u v a b n w : al a (w :: b) n →
  al (y :: u ++ x :: a) (x :: v ++ w :: y :: b) (S (n + length u + 1 + length v)).
Proof.
  remember (w :: b) as wb eqn:Hwb. intros H. revert b Hwb.
  induction H as [n|z w' a b n m Ha IH Hm|w' a b n m Ha IH Hm|z a b n m Ha IH Hm|p q r s a b n m Ha IH Hm];
    intros b0 Hwb; simplify_eq/=.
  - unfold differ in Hm. case_decide as Hz; subst.
    + eapply al_del; [apply al_dels, al_match, al_inss, al_match; by eapply al_ins|lia].
    + replace (v ++ w :: y :: b0) with ((v ++ [w]) ++ y :: b0) by by rewrite <- app_assoc.
      eapply al_swap; [by eapply al_del|]. rewrite length_app. simpl. lia.
  - replace (v ++ w :: y :: b0) with ((v ++ [w]) ++ y :: b0) by by rewrite <- app_assoc.
    eapply al_swap; [done|]. rewrite length_app. simpl. lia.
  - replace (y :: u ++ x :: z :: a) with ((y :: u ++ [x]) ++ z :: a) by (simpl; by rewrite <- app_assoc).
    eapply al_mono; [apply al_del_mid; simpl; rewrite <- app_assoc; by apply IH|]. lia.
  - replace (v ++ w :: y :: s ++ q :: b) with ((v ++ [w]) ++ y :: s ++ q :: b) by by rewrite <- app_assoc.
    eapply al_swap; [apply (al_inss s), (al_match q), (al_dels r); by eapply al_del|].
    rewrite length_app. simpl. lia.
Qed.

Lemma edit_cons_inv y b c : edit (y :: b) c →
  (∃ z, c = z :: b) ∨ (∃ z, c = z :: y :: b) ∨ c = b ∨
  (∃ w t, b = w :: t ∧ c = w :: y :: t) ∨ (∃ t, c = y :: t ∧ edit b t).
Proof. intros H. inversion H; subst; eauto 10. Qed.

(** An edit of a concatenation is one of its parts, or a swap across. *)
Lemma edit_app p s c : edit (p ++ s) c →
  (∃ p', c = p' ++ s ∧ length p' <= S (length p)) ∨ (∃ s', c = p ++ s' ∧ edit s s') ∨
  (∃ p1 w z s1, p = p1 ++ [w] ∧ s = z :: s1 ∧ c = p1 ++ z :: w :: s1).
Proof.
  revert c. induction p as [|x p IH]; intros c Hc; simpl in *; [right; left; by exists c|].
  inversion Hc as [? y ?|y ?|? ?|? y t Heq|? ? t Ht]; subst.
  - left. exists (y :: p). simpl. split; [done|lia].
  - left. exists (y :: x :: p). split; [done|simpl; lia].
  - left. exists p. split; [done|lia].
  - match goal with H : _ :: _ = p ++ s |- _ => rename H into He end. destruct p as [|w p]; simplify_eq/=.
    + right; right. by exists [], x, y, t.
    + left. exists (w :: x :: p). split; [done|simpl; lia].
  - destruct (IH t Ht) as [(p' & -> & Hl)|[(s' & -> & Hs)|(p1 & w & z & s1 & -> & -> & ->)]].
    + left. exists (x :: p'). split; [done|simpl; lia].
    + right; left. by exists s'.
    + right; right. by exists (x :: p1), w, z, s1.
Qed.

(** Swapping the first two elements of an aligned sequence. *)
Lemma al_swap_head a b n : al a b n → ∀ y w s, b = y :: w :: s → al a (w :: y :: s) (S n).
Proof.
  induction 1 as [n|x y' a b n m Ha IH Hm|y' a b n m Ha IH Hm|x a b n m Ha IH Hm|x y' u v a b n m Ha IH Hm];
    intros y w s Heq; simplify_eq/=.
  - eapply al_mono; [by apply al_swap_sub|lia].
  - eapply al_mono; [by apply (al_ins_mid y a (w :: s) n Ha [w])|lia].
  - eapply al_del; [by apply IH|lia].
  - destruct v as [|z v]; simplify_eq/=.
    + eapply al_mono; [apply al_match, (al_dels u), al_match; exact Ha|lia].
    + eapply al_ins; [by eapply al_swap|lia].
Qed.

(** An edit of what an alignment's swap covers. *)
Lemma al_edit_swap x y u v a b n c : al a b n → (∀ c, edit b c → al a c (S n)) →
  edit (x :: v ++ y :: b) c → al (y :: u ++ x :: a) c (S (n + length u + 1 + length v)).
Proof.
  intros Ha IH Hc.
  assert (Hab : al (y :: u ++ x :: a) (x :: v ++ y :: b) (n + length u + 1 + length v)) by by eapply al_swap.
  assert (Hy : al (y :: u ++ x :: a) (v ++ y :: b) (n + 1 + length u + length v)).
  { apply al_inss, al_match, al_dels. eapply al_del; [done|lia]. }
  assert (Hx : ∀ v' m, al (y :: u ++ x :: a) (x :: v' ++ b) (S (n + length v' + length u))).
  { intros v' m. eapply al_del; [apply al_dels, al_match, al_inss, Ha|lia]. }
  destruct (edit_cons_inv _ _ _ Hc) as [[z ->]|[[z ->]|[->|[(w0 & t0 & Heq & ->)|(t & -> & Ht)]]]].
  - eapply al_ins; [done|lia].
  - eapply al_ins; [done|lia].
  - eapply al_mono; [done|lia].
  - destruct v as [|w v]; simplify_eq/=.
    + eapply al_mono; [apply al_match, al_dels, al_match, Ha|lia].
    + eapply al_ins; [by eapply al_swap|lia].
  - apply edit_app in Ht as [(v' & -> & Hl)|[(s' & -> & Hs)|(p1 & w & z & s1 & -> & Hs & ->)]].
    + eapply al_swap; [done|lia].
    + destruct (edit_cons_inv _ _ _ Hs) as [[z ->]|[[z ->]|[->|[(w & t & -> & ->)|(t & -> & Ht)]]]].
      * rewrite (app_assoc v [z] b : v ++ z :: b = _). eapply al_mono; [by apply Hx|].
        rewrite length_app. simpl. lia.
      * rewrite (app_assoc v [z] (y :: b) : v ++ z :: y :: b = _). eapply al_swap; [done|].
        rewrite length_app. simpl. lia.
      * eapply al_mono; [by apply Hx|]. lia.
      * by apply al_swap_swap.
      * eapply al_swap; [by apply IH|lia].
    + simplify_eq. eapply al_swap; [by apply (al_ins_mid w a _ n Ha [])|]. rewrite length_app. simpl. lia.
Qed.

(** An edit on one side costs an alignment at most one more. *)
Lemma al_edit a b n : al a b n → ∀ c, edit b c → al a c (S n).
Proof.
  induction 1 as [n|x y a b n m Ha IH Hm|y a b n m Ha IH Hm|x a b n m Ha IH Hm|x y u v a b n m Ha IH Hm]; intros c Hc.
  - inversion Hc; subst. eapply al_ins; [constructor|done].
  - assert (Hab : al (x :: a) (y :: b) m) by by eapply al_sub.
    destruct (edit_cons_inv _ _ _ Hc) as [[z ->]|[[z ->]|[->|[(w & t & -> & ->)|(t & -> & Ht)]]]].
    + eapply al_sub; [done|]. pose proof (differ_le x z). lia.
    + by eapply al_ins.
    + eapply al_del; [done|lia].
    + by eapply al_swap_head.
    + eapply al_sub; [by apply IH|lia].
  - assert (Hab : al a (y :: b) m) by by eapply al_ins.
    destruct (edit_cons_inv _ _ _ Hc) as [[z ->]|[[z ->]|[->|[(w & t & -> & ->)|(t & -> & Ht)]]]].
    + eapply al_ins; [done|lia].
    + by eapply al_ins.
    + eapply al_mono; [done|lia].
    + by eapply al_swap_head.
    + eapply al_ins; [by apply IH|lia].
  - eapply al_del; [by apply IH|lia].
  - eapply al_mono; [by eapply al_edit_swap|lia].
Qed.

(** ** Alignments and edit sequences have the same costs *)

Lemma edits_cons z n a b : nsteps edit n a b → nsteps edit n (z :: a) (z :: b).
Proof. induction 1; [constructor|]. econstructor; [by constructor|done]. Qed.

Lemma edits_app p n a b : nsteps edit n a b → nsteps edit n (p ++ a) (p ++ b).
Proof. intros H. induction p as [|z p IH]; [done|]. by apply edits_cons. Qed.

Lemma edits_dels u a : nsteps edit (length u) (u ++ a) a.
Proof. induction u as [|x u IH]; [constructor|]. econstructor; [constructor|done]. Qed.

Lemma edits_inss v a : nsteps edit (length v) a (v ++ a).
Proof. induction v as [|x v IH]; [constructor|]. eapply nsteps_r; [done|constructor]. Qed.

Lemma al_edits a b n : al a b n → ∃ m, m <= n ∧ nsteps edit m a b.
Proof.
  induction 1 as [n|x y a b n m Ha (k & Hk & Hs) Hm|y a b n m Ha (k & Hk & Hs) Hm
                 |x a b n m Ha (k & Hk & Hs) Hm|x y u v a b n m Ha (k & Hk & Hs) Hm].
  - exists 0. split; [lia|constructor].
  - unfold differ in Hm. case_decide; subst.
    + exists k. split; [lia|by apply edits_cons].
    + exists (S k). split; [lia|]. econstructor; [constructor|by apply edits_cons].
  - exists (S k). split; [lia|]. eapply nsteps_r; [done|constructor].
  - exists (S k). split; [lia|]. econstructor; [constructor|done].
  - exists (length u + (1 + (length v + k))). split; [lia|].
    eapply nsteps_trans; [apply edits_cons, edits_dels|].
    econstructor; [apply ed_swap|]. apply edits_cons.
    eapply nsteps_trans; [apply edits_inss|]. by apply edits_app, edits_cons.
Qed.

Lemma edits_al n a b : nsteps edit n a b → al a b n.
Proof.
  revert b. induction n as [|n IH]; intros b H.
  - inversion H; subst. apply al_refl.
  - apply nsteps_inv_r in H as (c & Hc & He). eapply al_edit; [by apply IH|done].
Qed.

(** [d] is the least cost of an alignment. *)
Definition best a b (d : nat) : Prop := ∀ n, al a b n ↔ d <= n.

Lemma best_distance a b d : best a b d ↔ distance a b d.
Proof.
  split.
  - intros Hb. assert (Ha : al a b d) by by apply Hb. apply al_edits in Ha as (m & Hm & Hs).
    assert (d <= m) by (apply Hb; by apply edits_al). assert (m = d) as -> by lia.
    split; [done|]. intros n Hn%edits_al. by apply Hb.
  - intros [Hs Hmin] n. split.
    + intros (m & Hm & Hs')%al_edits. specialize (Hmin m Hs'). lia.
    + intros Hn. eapply al_mono; [by apply edits_al|done].
Qed.

(** ** The distance is a metric *)

Lemma al_symmetric a b d : best a b d → best b a d.
Proof. intros Hb n. split; [intros H%al_sym; by apply Hb|intros H; by apply al_sym, Hb]. Qed.

Lemma distance_sym a b d : distance a b d → distance b a d.
Proof. rewrite <- !best_distance. apply al_symmetric. Qed.

Lemma distance_zero a b d : distance a b d → d = 0 ↔ a = b.
Proof.
  intros [Hs Hmin]. split.
  - intros ->. by inversion Hs.
  - intros ->. specialize (Hmin 0 ltac:(constructor)). lia.
Qed.

Lemma distance_triangle a b c d e f : distance a b d → distance b c e → distance a c f → f <= d + e.
Proof. intros [Hab _] [Hbc _] [_ Hmin]. apply Hmin. by eapply nsteps_trans. Qed.

Lemma distance_bound a b d : distance a b d → d <= length a `max` length b.
Proof.
  intros Hd%best_distance. apply (proj1 (Hd _)). clear Hd. revert b. induction a as [|x a IH]; intros [|y b]; simpl.
  - constructor.
  - apply (al_inss_nil (y :: b)).
  - apply al_sym, (al_inss_nil (x :: a)).
  - eapply al_sub; [apply IH|]. pose proof (differ_le x y). lia.
Qed.

Lemma distance_unique a b d e : distance a b d → distance a b e → d = e.
Proof. intros [Hs Hm] [Hs' Hm']. specialize (Hm _ Hs'). specialize (Hm' _ Hs). lia. Qed.

(** Edits do not care about direction. *)
Lemma edit_snoc q s t : edit s t → edit (s ++ q) (t ++ q).
Proof. induction 1; simpl; by constructor. Qed.

Lemma edit_prefix p s t : edit s t → edit (p ++ s) (p ++ t).
Proof. intros H. induction p as [|z p IH]; [done|]. by constructor. Qed.

Lemma edit_reverse s t : edit s t → edit (reverse s) (reverse t).
Proof.
  induction 1; rewrite ?reverse_cons, <- ?app_assoc.
  - apply edit_prefix, ed_sub.
  - rewrite <- (app_nil_r (reverse s)) at 1. apply edit_prefix, ed_ins.
  - rewrite <- (app_nil_r (reverse s)) at 2. apply edit_prefix, ed_del.
  - apply edit_prefix, ed_swap.
  - by apply edit_snoc.
Qed.

Lemma edits_reverse n s t : nsteps edit n s t → nsteps edit n (reverse s) (reverse t).
Proof. induction 1; [constructor|]. econstructor; [by apply edit_reverse|done]. Qed.

Lemma distance_reverse a b d : distance (reverse a) (reverse b) d → distance a b d.
Proof.
  intros [Hs Hmin]. split.
  - apply edits_reverse in Hs. by rewrite !reverse_involutive in Hs.
  - intros n Hn. by apply Hmin, edits_reverse.
Qed.

(** ** The recurrence *)

Lemma al_nil_length b n : al [] b n → length b <= n.
Proof.
  remember [] as a eqn:Ha. induction 1 as [| |y a b n m Hab IH Hm| |]; simplify_eq/=; [lia|].
  specialize (IH eq_refl). lia.
Qed.

Lemma best_nil_l b : best [] b (length b).
Proof.
  intros n. split; [apply al_nil_length|]. intros Hn. eapply al_mono; [apply al_inss_nil|done].
Qed.

Lemma best_nil_r a : best a [] (length a).
Proof. apply al_symmetric, best_nil_l. Qed.

(** A sequence whose last element before [x] equal to [y] is at distance [k]:
    [Some] of what precedes it and of the elements in between. *)
Definition last_seen y a (r : option (list A * list A)) : Prop :=
  match r with
  | Some (u, a') => a = u ++ y :: a' ∧ y ∉ u
  | None => y ∉ a
  end.

Lemma last_seen_swap y a r u a' : last_seen y a r → a = u ++ y :: a' →
  ∃ u0 a0, r = Some (u0, a0) ∧ ((u0 = u ∧ a0 = a') ∨ ∃ u1, u = u0 ++ y :: u1 ∧ a0 = u1 ++ y :: a').
Proof.
  destruct r as [[u0 a0]|]; simpl; [|intros Hn ->; exfalso; apply Hn; set_solver].
  intros [-> Hn] Heq. exists u0, a0. split; [done|].
  apply app_eq_app in Heq as (l & [[-> Hl]|[-> Hl]]); destruct l as [|z l]; simplify_eq/=.
  - left. by rewrite app_nil_r.
  - exfalso. apply Hn. set_solver.
  - left. by rewrite app_nil_r.
  - right. by exists l.
Qed.

(** The cost of an alignment swapping the last elements, as read from the
    best cost before the latest candidates. *)
Definition swap_cost (ra rb : option (list A * list A)) (dt : nat) (n : nat) : Prop :=
  match ra, rb with
  | Some (u, _), Some (v, _) => dt + length u + 1 + length v <= n
  | _, _ => False
  end.

Lemma best_cons x y a b ra rb ds di dd dt :
  best a b ds → best (x :: a) b di → best a (y :: b) dd →
  last_seen y a ra → last_seen x b rb →
  (∀ u a' v b', ra = Some (u, a') → rb = Some (v, b') → best a' b' dt) →
  ∀ n, al (x :: a) (y :: b) n ↔
    ds + differ x y <= n ∨ S di <= n ∨ S dd <= n ∨ swap_cost ra rb dt n.
Proof.
  intros Hs Hi Hd Hra Hrb Ht n. split.
  - intros H. inversion H as [|? ? ? ? k ? Ha Hk|? ? ? k ? Ha Hk|? ? ? k ? Ha Hk|x0 y0 u v a' b' k ? Ha Hk]; subst.
    + left. apply Hs in Ha. lia.
    + right; left. apply Hi in Ha. lia.
    + right; right; left. apply Hd in Ha. lia.
    + right; right; right.
      destruct (last_seen_swap _ _ _ _ _ Hra eq_refl) as (u0 & a0 & -> & Hu).
      destruct (last_seen_swap _ _ _ _ _ Hrb eq_refl) as (v0 & b0 & -> & Hv).
      specialize (Ht _ _ _ _ eq_refl eq_refl). unfold swap_cost.
      assert (Hal : al a0 b0 (k + (length u - length u0) + (length v - length v0))).
      { destruct Hu as [[-> ->]|(u1 & -> & ->)], Hv as [[-> ->]|(v1 & -> & ->)]; rewrite ?length_app; simpl.
        - eapply al_mono; [done|lia].
        - eapply al_mono; [apply al_inss; by eapply al_ins|lia].
        - eapply al_mono; [apply al_dels; by eapply al_del|lia].
        - eapply al_mono; [apply al_dels; eapply al_del; [apply al_inss; by eapply al_ins|done]|lia]. }
      apply Ht in Hal.
      assert (length u0 <= length u) by (destruct Hu as [[-> _]|(? & -> & _)]; rewrite ?length_app; lia).
      assert (length v0 <= length v) by (destruct Hv as [[-> _]|(? & -> & _)]; rewrite ?length_app; lia).
      lia.
  - intros [H|[H|[H|H]]].
    + eapply al_sub; [by apply Hs|done].
    + eapply al_ins; [by apply Hi|done].
    + eapply al_del; [by apply Hd|done].
    + unfold swap_cost in H. destruct ra as [[u a']|], rb as [[v b']|]; try done.
      destruct Hra as [-> _], Hrb as [-> _]. eapply al_swap; [by eapply Ht|done].
Qed.
End Edit.
