(* ===== verification/StringMetric.v ===== *)
(** * [pkg/stringmetric]: the Damerau-Levenshtein distance

    stringmetric.go. The matrix is one slice in row-major order, every index
    checked; ints do not overflow, being at most the number of cells of a
    matrix in memory. The theory of edit distances is EditDistance. *)

From stdpp Require Import base option list gmap relations.
From Stdlib Require Import String.
From S2P Require Import Prelude GoString EditDistance.

#[local] Open Scope Z_scope.

Definition initDLAlphabet (ra rb : list Z) : gmap Z Z :=
  let da := foldl (fun (da : gmap Z Z) c => <[c := 1]> da) ∅ ra in
  foldl (fun (da : gmap Z Z) c => <[c := 1]> da) da rb.

(** The two loops of [initDLMatrix]. *)
Definition initColumns (ncols maxdist : Z) (dist : list Z) (i : Z) : option (list Z) :=
  dist ← aput dist (i * ncols) maxdist;
  aput dist (i * ncols + 1) (i - 1).

Definition initRows (ncols maxdist : Z) (dist : list Z) (j : Z) : option (list Z) :=
  dist ← aput dist j maxdist;
  aput dist (ncols + j) (j - 1).

Definition initDLMatrix (nrows ncols maxdist : Z) : option (list Z) :=
  let dist := replicate (Z.to_nat (nrows * ncols)) 0 in
  dist ← for_each (initColumns ncols maxdist) (seqZ 0 nrows) dist;
  dist ← aput dist 1 maxdist;
  for_each (initRows ncols maxdist) (seqZ 2 (ncols - 2)) dist.

Section Fill.
Context (ra rb : list Z) (ncols : Z).

(** The body of the inner loop, over the matrix and [db]. *)
Definition fillCell (da : gmap Z Z) (i : Z) (st : list Z * Z) (j : Z) : option (list Z * Z) :=
  let '(dist, db) := st in
  let row := i * ncols in
  let prev := row - ncols in
  y ← aget rb (j - 2);
  let k := default 0 (da !! y) in
  let l := db in
  let tcost := (i - k - 1) + 1 + (j - l - 1) in
  x ← aget ra (i - 2);
  let '(scost, db) := if x =? y then (0, j) else (1, db) in
  sub ← aget dist (prev + j - 1);
  ins ← aget dist (row + j - 1);
  del ← aget dist (prev + j);
  swp ← aget dist ((k - 1) * ncols + (l - 1));
  dist ← aput dist (row + j) (Z.min (Z.min (Z.min (sub + scost) (ins + 1)) (del + 1)) (swp + tcost));
  Some (dist, db).

(** The body of the outer loop, over the matrix and the alphabet. *)
Definition fillRow (st : list Z * gmap Z Z) (i : Z) : option (list Z * gmap Z Z) :=
  let '(dist, da) := st in
  r ← for_each (fillCell da i) (seqZ 2 (ncols - 2)) (dist, 1);
  x ← aget ra (i - 2);
  Some (r.1, <[x := i]> da).
End Fill.

(** [DLDistance]; [None] is an index out of range. *)
Definition DLDistance (sa sb : gostring) : option Z :=
  if decide (sa = sb) then Some 0
  else
    let ra := runes sa in
    let rb := runes sb in
    let ralen := Z.of_nat (length ra) in
    let rblen := Z.of_nat (length rb) in
    let maxdist := ralen + rblen in
    if (ralen =? 0) || (rblen =? 0) then Some maxdist
    else
      let da := initDLAlphabet ra rb in
      let nrows := ralen + 2 in
      let ncols := rblen + 2 in
      dist ← initDLMatrix nrows ncols maxdist;
      r ← for_each (fillRow ra rb ncols) (seqZ 2 (nrows - 2)) (dist, da);
      aget r.1 (nrows * ncols - 1).

(** The example of the source. *)
Example a_cat : DLDistance (str "a cat") (str "a abct") = Some 2.
Proof. vm_compute. reflexivity. Qed.

(** ** Facts *)

Section Matrix.
Context (ra rb : list Z).
Abbreviation nrows := (Z.of_nat (length ra) + 2).
Abbreviation ncols := (Z.of_nat (length rb) + 2).
Abbreviation maxdist := (Z.of_nat (length ra) + Z.of_nat (length rb)).

(** Prefixes are aligned from their ends: a matrix row or column [r >= 1]
    stands for the reversed prefix of length [r - 1]. *)
Definition pre (l : list Z) (r : Z) : list Z := reverse (take (Z.to_nat (r - 1)) l).

Definition cell (r c z : Z) : Prop :=
  if (r =? 0) || (c =? 0) then z = maxdist
  else 0 <= z ∧ best (pre ra r) (pre rb c) (Z.to_nat z).

Definition filled (d : list Z) (P : Z → Z → Prop) : Prop :=
  Z.of_nat (length d) = nrows * ncols ∧
  ∀ r c, 0 <= r < nrows → 0 <= c < ncols → P r c →
    ∃ z, aget d (r * ncols + c) = Some z ∧ cell r c z.

Lemma filled_weaken d (P Q : Z → Z → Prop) :
  filled d P → (∀ r c, 0 <= r < nrows → 0 <= c < ncols → Q r c → P r c) → filled d Q.
Proof. intros [Hl Hf] HQ. split; [done|]. intros r c Hr Hc Hq. apply Hf; auto. Qed.

Lemma index_inj r c r' c' : 0 <= c < ncols → 0 <= c' < ncols →
  r * ncols + c = r' * ncols + c' → r = r' ∧ c = c'.
Proof. intros Hc Hc' He. assert (r = r') by nia. split; [done|]. nia. Qed.

(** Writing a cell. *)
Lemma filled_put d P r c z : filled d P → 0 <= r < nrows → 0 <= c < ncols → cell r c z →
  ∃ d', aput d (r * ncols + c) z = Some d' ∧ filled d' (fun r' c' => P r' c' ∨ (r' = r ∧ c' = c)).
Proof.
  intros [Hl Hf] Hr Hc Hz. destruct (aput_spec d (r * ncols + c) z) as (d' & Hd & Hl' & Hg & Ho); [nia|].
  exists d'. split; [done|]. split; [lia|]. intros r' c' Hr' Hc' HP.
  destruct (decide (r' = r ∧ c' = c)) as [[-> ->]|Hne]; [by exists z|].
  destruct HP as [HP|?]; [|done]. destruct (Hf r' c' Hr' Hc' HP) as (z' & Hz' & Hcell). exists z'.
  split; [|done]. rewrite Ho; [done|]. intros He. apply index_inj in He; [|done..]. by apply Hne.
Qed.

(** Writing a cell that is not needed. *)
Lemma filled_scratch d P r c z : filled d P → 0 <= r < nrows → 0 <= c < ncols → ¬ P r c →
  ∃ d', aput d (r * ncols + c) z = Some d' ∧ filled d' P.
Proof.
  intros [Hl Hf] Hr Hc Hz. destruct (aput_spec d (r * ncols + c) z) as (d' & Hd & Hl' & Hg & Ho); [nia|].
  exists d'. split; [done|]. split; [lia|]. intros r' c' Hr' Hc' HP.
  destruct (Hf r' c' Hr' Hc' HP) as (z' & Hz' & Hcell). exists z'.
  split; [|done]. rewrite Ho; [done|]. intros He. apply index_inj in He as [-> ->]; done.
Qed.

Lemma length_pre l r : 1 <= r <= Z.of_nat (length l) + 1 → Z.of_nat (length (pre l r)) = r - 1.
Proof. intros Hr. unfold pre. rewrite length_reverse, length_take. lia. Qed.

Lemma pre_1 l : pre l 1 = [].
Proof. done. Qed.

Lemma cell_border_l r : 1 <= r < nrows → cell r 1 (r - 1).
Proof.
  intros Hr. unfold cell. rewrite (proj2 (Z.eqb_neq r 0)) by lia. simpl. split; [lia|].
  rewrite pre_1. rewrite <- (length_pre ra r) by lia. rewrite Nat2Z.id. apply best_nil_r.
Qed.

Lemma cell_border_r c : 1 <= c < ncols → cell 1 c (c - 1).
Proof.
  intros Hc. unfold cell. rewrite (proj2 (Z.eqb_neq c 0)) by lia. simpl. split; [lia|].
  rewrite pre_1. rewrite <- (length_pre rb c) by lia. rewrite Nat2Z.id. apply best_nil_l.
Qed.

Lemma cell_sentinel r c : r = 0 ∨ c = 0 → cell r c maxdist.
Proof. intros H. unfold cell. destruct (Z.eqb_spec r 0), (Z.eqb_spec c 0); simpl; try done. lia. Qed.

(** The borders: the first two rows and columns. *)
Lemma initDLMatrix_spec :
  ∃ d, initDLMatrix nrows ncols maxdist = Some d ∧ filled d (fun r c => r <= 1 ∨ c <= 1).
Proof.
  unfold initDLMatrix.
  assert (H0 : filled (replicate (Z.to_nat (nrows * ncols)) 0) (fun r c => r < 0)).
  { split; [rewrite length_replicate; nia|]. intros; lia. }
  destruct (for_each_inv (fun i d => filled d (fun r c => r < i ∧ c <= 1 ∧ (r, c) ≠ (0, 1)))
    (initColumns ncols maxdist) 0 nrows (replicate (Z.to_nat (nrows * ncols)) 0)) as (d1 & -> & H1).
  { intros i d Hi Hd. unfold initColumns. replace (i * ncols) with (i * ncols + 0) by lia.
    destruct (filled_put d _ i 0 maxdist Hd) as (d' & -> & Hd'); [lia|lia|by apply cell_sentinel; right|].
    cbn [mbind option_bind]. rewrite Z.add_0_r. destruct (Z.eq_dec i 0) as [->|Hne].
    - destruct (filled_scratch d' (fun r c => r < 1 ∧ c <= 1 ∧ (r, c) ≠ (0, 1)) 0 1 (0 - 1))
        as (d'' & Hp & Hd''); [|lia|lia|naive_solver|].
      + eapply filled_weaken; [done|]. intros r c Hr Hc (? & ? & ?). right. split; [lia|].
        assert (c ≠ 1) by (intros ->; replace r with 0 in * by lia; done). lia.
      + by exists d''.
    - destruct (filled_put d' _ i 1 (i - 1) Hd') as (d'' & Hp & Hd''); [lia|lia|apply cell_border_l; lia|].
      exists d''. split; [done|]. eapply filled_weaken; [done|]. intros r c Hr Hc (? & ? & ?).
      destruct (Z.eq_dec r i), (Z.eq_dec c 0), (Z.eq_dec c 1); subst; try lia; auto.
      left. left. split_and!; [lia|lia|done]. left; left; split_and!; [lia|lia|done]. }
  { lia. }
  { eapply filled_weaken; [done|]. intros; lia. }
  cbn [mbind option_bind].
  destruct (filled_put d1 _ 0 1 maxdist H1) as (d2 & Hp2 & H2); [lia|lia|by apply cell_sentinel; left|].
  rewrite Z.mul_0_l, Z.add_0_l in Hp2. rewrite Hp2. cbn [mbind option_bind].
  destruct (for_each_inv (fun j d => filled d (fun r c => c <= 1 ∨ (r <= 1 ∧ c < j)))
    (initRows ncols maxdist) 2 (ncols - 2) d2) as (d3 & Hd3 & H3).
  { intros j d Hj Hd. unfold initRows.
    destruct (filled_put d _ 0 j maxdist Hd) as (d' & Hp & Hd'); [lia|lia|by apply cell_sentinel; left|].
    rewrite Z.mul_0_l, Z.add_0_l in Hp. rewrite Hp. cbn [mbind option_bind].
    destruct (filled_put d' _ 1 j (j - 1) Hd') as (d'' & Hp' & Hd''); [lia|lia|apply cell_border_r; lia|].
    rewrite Z.mul_1_l in Hp'. exists d''. split; [done|]. eapply filled_weaken; [done|].
    intros r c Hr Hc [?|[? ?]]; [auto|]. destruct (Z.eq_dec c j); [subst|left; left; right; lia].
    destruct (Z.eq_dec r 0); [left; right; lia|right; lia]. }
  { lia. }
  { eapply filled_weaken; [done|]. intros r c Hr Hc [?|[? ?]].
    - destruct (decide ((r, c) = (0, 1))); [right; naive_solver|left]. split_and!; [lia|lia|done].
    - destruct (decide ((r, c) = (0, 1))); [right; naive_solver|left]. split_and!; [lia|lia|done]. }
  exists d3. split; [done|]. eapply filled_weaken; [done|]. intros r c Hr Hc H. cbn beta in *. lia.
Qed.

(** ** The loops that fill the matrix *)

(** [k] is the row (or column) of the last [c] of a prefix, 1 if none. *)
Definition occ (p : list Z) (c k : Z) : Prop :=
  (k = 1 ∧ c ∉ p) ∨ ∃ q u, p = q ++ c :: u ∧ c ∉ u ∧ k = Z.of_nat (length q) + 2.

Lemma occ_snoc p c k c' : occ p c k → occ (p ++ [c']) c (if c' =? c then Z.of_nat (length p) + 2 else k).
Proof.
  intros Ho. destruct (Z.eqb_spec c' c) as [->|Hne].
  - right. exists p, []. split; [done|]. split; [apply not_elem_of_nil|done].
  - destruct Ho as [[-> Hn]|(q & u & -> & Hn & ->)]; [left|right].
    + split; [done|]. set_solver.
    + exists q, (u ++ [c']). rewrite <- app_assoc. split; [done|]. split; [set_solver|done].
Qed.

Lemma occ_seen l i c k : 2 <= i <= Z.of_nat (length l) + 2 → occ (take (Z.to_nat (i - 2)) l) c k →
  1 <= k < i ∧ ∃ r, last_seen c (pre l (i - 1)) r ∧
    match r with
    | None => k = 1
    | Some (u, a') => 2 <= k ∧ Z.of_nat (length u) = i - k - 1 ∧ a' = pre l (k - 1)
    end.
Proof.
  intros Hi. unfold pre. replace (i - 1 - 1) with (i - 2) by lia.
  assert (Hl : Z.of_nat (length (take (Z.to_nat (i - 2)) l)) = i - 2) by (rewrite length_take; lia).
  intros [[-> Hn]|(q & u & Hp & Hn & ->)].
  - split; [lia|]. exists None. split; [|done]. simpl. by rewrite elem_of_reverse.
  - rewrite Hp in Hl |- *. rewrite length_app in Hl. simpl in Hl. split; [lia|].
    exists (Some (reverse u, reverse q)). split.
    + simpl. split; [|by rewrite elem_of_reverse]. by rewrite reverse_app, reverse_cons, <- app_assoc.
    + split; [lia|]. split; [rewrite length_reverse; lia|]. f_equal.
      replace (Z.to_nat (Z.of_nat (length q) + 2 - 1 - 1)) with (length q) by lia.
      transitivity (take (length q) (take (Z.to_nat (i - 2)) l)).
      * by rewrite Hp, take_app_length.
      * rewrite take_take. f_equal. lia.
Qed.

Lemma pre_S l i x : 2 <= i → aget l (i - 2) = Some x → pre l i = x :: pre l (i - 1) ∧ i < Z.of_nat (length l) + 2 ∧
  take (Z.to_nat (i + 1 - 2)) l = take (Z.to_nat (i - 2)) l ++ [x].
Proof.
  intros Hi Hx. rewrite aget_nth in Hx by lia. unfold pre. pose proof (lookup_lt_Some _ _ _ Hx) as Hl.
  replace (Z.to_nat (i - 1)) with (S (Z.to_nat (i - 2))) by lia.
  replace (Z.to_nat (i + 1 - 2)) with (S (Z.to_nat (i - 2))) by lia.
  rewrite (take_S_r _ _ _ Hx). replace (i - 1 - 1) with (i - 2) by lia.
  split; [by rewrite reverse_snoc|]. split; [lia|done].
Qed.

(** The value written in a cell is the best cost of its prefixes. *)
Lemma cell_step i j x y k l ds di dd dt :
  2 <= i → 2 <= j → aget ra (i - 2) = Some x → aget rb (j - 2) = Some y →
  occ (take (Z.to_nat (i - 2)) ra) y k → occ (take (Z.to_nat (j - 2)) rb) x l →
  cell (i - 1) (j - 1) ds → cell i (j - 1) di → cell (i - 1) j dd → cell (k - 1) (l - 1) dt →
  cell i j (Z.min (Z.min (Z.min (ds + (if x =? y then 0 else 1)) (di + 1)) (dd + 1))
                  (dt + ((i - k - 1) + 1 + (j - l - 1)))).
Proof.
  intros Hi Hj Hx Hy Hk Hl Hs Hins Hdel Ht.
  destruct (pre_S ra i x Hi Hx) as (Hpi & Hi' & _). destruct (pre_S rb j y Hj Hy) as (Hpj & Hj' & _).
  destruct (occ_seen ra i y k ltac:(lia) Hk) as (Hkr & rx & Hrx & Hkx).
  destruct (occ_seen rb j x l ltac:(lia) Hl) as (Hlr & ry & Hry & Hly).
  unfold cell in Hs, Hins, Hdel |- *.
  rewrite (proj2 (Z.eqb_neq (i - 1) 0)) in Hs, Hdel by lia. rewrite (proj2 (Z.eqb_neq i 0)) in Hins |- * by lia.
  rewrite (proj2 (Z.eqb_neq (j - 1) 0)) in Hs, Hins by lia. rewrite (proj2 (Z.eqb_neq j 0)) in Hdel |- * by lia.
  cbn [orb] in *. rewrite Hpi in Hins |- *. rewrite Hpj in Hdel |- *.
  destruct Hs as [Hs0 Hs], Hins as [Hi0 Hins], Hdel as [Hd0 Hdel].
  assert (Hsb : ds <= maxdist).
  { pose proof (distance_bound _ _ _ (proj1 (best_distance _ _ _) Hs)) as Hb.
    pose proof (length_pre ra (i - 1) ltac:(lia)). pose proof (length_pre rb (j - 1) ltac:(lia)). lia. }
  assert (Hdt : 0 <= dt ∧ (rx = None ∨ ry = None → dt = maxdist) ∧
    ∀ u a' v b', rx = Some (u, a') → ry = Some (v, b') → best a' b' (Z.to_nat dt)).
  { unfold cell in Ht. destruct rx as [[u a']|], ry as [[v b']|]; destruct (Z.eqb_spec (k - 1) 0), (Z.eqb_spec (l - 1) 0);
      cbn [orb] in Ht; try lia; (split; [lia|]); (split; [by intros [?|?]|]); try done.
    destruct Ht as [_ Ht]. destruct Hkx as (_ & _ & ->), Hly as (_ & _ & ->). intros ? ? ? ? Hq Hq'. by simplify_eq. }
  destruct Hdt as (Hdt0 & Hnone & Hbt).
  pose proof (best_cons x y _ _ rx ry _ _ _ _ Hs Hins Hdel Hrx Hry Hbt) as Hbest.
  assert (Hdiff : Z.of_nat (differ x y) = if x =? y then 0 else 1).
  { unfold differ. case_decide; subst; [by rewrite Z.eqb_refl|by rewrite (proj2 (Z.eqb_neq x y))]. }
  rewrite <- Hdiff. pose proof (differ_le x y). split; [lia|].
  intros n. rewrite Hbest. unfold swap_cost. destruct rx as [[u a']|], ry as [[v b']|].
  - lia.
  - specialize (Hnone ltac:(by right)). lia.
  - specialize (Hnone ltac:(by left)). lia.
  - specialize (Hnone ltac:(by left)). lia.
Qed.

(** The alphabet knows the last row of every rune. *)
Definition rows_of (da : gmap Z Z) (i : Z) : Prop :=
  ∀ c, c ∈ ra ∨ c ∈ rb → ∃ k, da !! c = Some k ∧ occ (take (Z.to_nat (i - 2)) ra) c k.

Lemma initDLAlphabet_spec : rows_of (initDLAlphabet ra rb) 2.
Proof.
  intros c Hc. exists 1. split; [|left; split; [done|apply not_elem_of_nil]].
  unfold initDLAlphabet.
  assert (Hf : ∀ l (m : gmap Z Z), (c ∈ l ∨ m !! c = Some 1) → foldl (fun (da : gmap Z Z) c => <[c := 1]> da) m l !! c = Some 1).
  { induction l as [|c' l IH]; intros m Hm; simpl; [by destruct Hm as [?%not_elem_of_nil|]|]. apply IH.
    rewrite elem_of_cons in Hm. destruct (decide (c' = c)) as [->|Hne].
    - right. apply lookup_insert_eq.
    - rewrite lookup_insert_ne by done. naive_solver. }
  apply Hf. destruct Hc as [Hc|Hc]; [right; apply Hf; by left|by left].
Qed.

Lemma aget_in (l : list Z) i : 2 <= i < Z.of_nat (length l) + 2 → ∃ x, aget l (i - 2) = Some x ∧ x ∈ l.
Proof.
  intros Hi. rewrite aget_nth by lia. destruct (lookup_lt_is_Some_2 l (Z.to_nat (i - 2))) as [x Hx]; [lia|].
  exists x. split; [done|]. by eapply list_elem_of_lookup_2.
Qed.

(** One row. *)
Lemma fillRow_spec i dist da : 2 <= i < nrows →
  filled dist (fun r c => r < i ∨ c <= 1) → rows_of da i →
  ∃ dist' da', fillRow ra rb ncols (dist, da) i = Some (dist', da') ∧
    filled dist' (fun r c => r < i + 1 ∨ c <= 1) ∧ rows_of da' (i + 1).
Proof.
  intros Hi Hd Hda. unfold fillRow. destruct (aget_in ra i Hi) as (x & Hx & Hxin).
  destruct (for_each_inv (fun j st => filled st.1 (fun r c => r < i ∨ c <= 1 ∨ (r = i ∧ c < j)) ∧
      occ (take (Z.to_nat (j - 2)) rb) x st.2)
    (fillCell ra rb ncols da i) 2 (ncols - 2) (dist, 1)) as ([dist' db'] & -> & Hd' & _).
  - intros j [d db] Hj [Hf Hdb]. cbn [fst snd] in Hf, Hdb. unfold fillCell.
    destruct (aget_in rb j ltac:(lia)) as (y & Hy & Hyin). rewrite Hy. cbn [mbind option_bind].
    destruct (Hda y ltac:(by right)) as (k & Hk & Ho). rewrite Hk. change (default 0 (Some k)) with k. rewrite Hx. cbn [mbind option_bind].
    destruct (occ_seen ra i y k ltac:(lia) Ho) as [Hkr _].
    destruct (occ_seen rb j x db ltac:(lia) Hdb) as [Hlr _].
    destruct (pre_S rb j y ltac:(lia) Hy) as (_ & _ & Htake).
    assert (Hdb' : occ (take (Z.to_nat (j + 1 - 2)) rb) x (if x =? y then j else db)).
    { rewrite Htake. pose proof (occ_snoc _ _ _ y Hdb) as Hsn. rewrite Z.eqb_sym in Hsn.
      replace (Z.of_nat (length (take (Z.to_nat (j - 2)) rb)) + 2) with j in Hsn by (rewrite length_take; lia).
      done. }
    destruct Hf as [Hlen Hf].
    destruct (Hf (i - 1) (j - 1) ltac:(lia) ltac:(lia) ltac:(lia)) as (ds & Hgs & Hs).
    destruct (Hf i (j - 1) ltac:(lia) ltac:(lia) ltac:(lia)) as (di & Hgi & Hins).
    destruct (Hf (i - 1) j ltac:(lia) ltac:(lia) ltac:(lia)) as (dd & Hgd & Hdel).
    destruct (Hf (k - 1) (db - 1) ltac:(lia) ltac:(lia) ltac:(lia)) as (dt & Hgt & Ht).
    pose proof (cell_step i j x y k db ds di dd dt ltac:(lia) ltac:(lia) Hx Hy Ho Hdb Hs Hins Hdel Ht) as Hcell.
    destruct (filled_put d _ i j _ (conj Hlen Hf) ltac:(lia) ltac:(lia) Hcell) as (d' & Hput & Hfill).
    replace (i * ncols - ncols + j - 1) with ((i - 1) * ncols + (j - 1)) by lia.
    replace (i * ncols + j - 1) with (i * ncols + (j - 1)) by lia.
    replace (i * ncols - ncols + j) with ((i - 1) * ncols + j) by lia.
    exists (d', if x =? y then j else db). cbn [fst snd]. split; [|split; [|done]].
    + destruct (x =? y); rewrite Hgs, Hgi, Hgd; cbn [mbind option_bind]; rewrite Hgt; cbn [mbind option_bind]; by rewrite Hput.
    + eapply filled_weaken; [exact Hfill|]. intros r c Hr Hc [?|[?|[-> ?]]]; [auto..|].
      destruct (Z.eq_dec c j); [by right|left; right; right; lia].
  - lia.
  - cbn [fst snd]. split.
    + eapply filled_weaken; [done|]. intros r c Hr Hc H. cbn beta in *. lia.
    + left. split; [done|apply not_elem_of_nil].
  - rewrite Hx. cbn [mbind option_bind fst]. eexists _, _. split; [done|]. split.
    + eapply filled_weaken; [done|]. intros r c Hr Hc H. cbn [fst]. lia.
    + intros c Hc. destruct (pre_S ra i x ltac:(lia) Hx) as (_ & _ & ->).
      destruct (Hda c Hc) as (k & Hk & Ho). pose proof (occ_snoc _ _ _ x Ho) as Hsn.
      exists (if x =? c then i else k). split.
      * destruct (Z.eqb_spec x c) as [->|Hne]; [apply lookup_insert_eq|by rewrite lookup_insert_ne].
      * replace (Z.of_nat (length (take (Z.to_nat (i - 2)) ra)) + 2) with i in Hsn by (rewrite length_take; lia).
        done.
Qed.

(** The bottom-right cell. *)
Lemma matrix_distance :
  ∃ d st, initDLMatrix nrows ncols maxdist = Some d ∧
    for_each (fillRow ra rb ncols) (seqZ 2 (nrows - 2)) (d, initDLAlphabet ra rb) = Some st ∧
    ∃ z, aget st.1 (nrows * ncols - 1) = Some (Z.of_nat z) ∧ distance ra rb z.
Proof.
  destruct initDLMatrix_spec as (d & Hd & Hf). exists d.
  destruct (for_each_inv (fun i st => filled st.1 (fun r c => r < i ∨ c <= 1) ∧ rows_of st.2 i)
    (fillRow ra rb ncols) 2 (nrows - 2) (d, initDLAlphabet ra rb)) as (st & Hst & [_ Hfill] & _).
  - intros i [dist da] Hi [Hfi Hda]. destruct (fillRow_spec i dist da ltac:(lia) Hfi Hda) as (d' & da' & ? & ? & ?).
    by exists (d', da').
  - lia.
  - split; [|apply initDLAlphabet_spec]. eapply filled_weaken; [done|]. intros r c Hr Hc H. cbn beta in *. lia.
  - exists st. split; [done|]. split; [done|].
    destruct (Hfill (nrows - 1) (ncols - 1) ltac:(lia) ltac:(lia) ltac:(lia)) as (z & Hz & Hc).
    replace (nrows * ncols - 1) with ((nrows - 1) * ncols + (ncols - 1)) by lia.
    unfold cell in Hc. rewrite (proj2 (Z.eqb_neq (nrows - 1) 0)), (proj2 (Z.eqb_neq (ncols - 1) 0)) in Hc by lia.
    destruct Hc as [Hz0 Hb]. exists (Z.to_nat z). rewrite Z2Nat.id by done. split; [done|].
    apply best_distance in Hb. unfold pre in Hb. rewrite !take_ge in Hb by lia. by apply distance_reverse.
Qed.
End Matrix.

Lemma DLDistance_distance sa sb : ∃ d, DLDistance sa sb = Some (Z.of_nat d) ∧ distance (runes sa) (runes sb) d.
Proof.
  unfold DLDistance. case_decide as Heq; [subst|].
  - exists O. split; [done|]. split; [constructor|lia].
  - destruct (Z.eqb_spec (Z.of_nat (length (runes sa))) 0) as [Ha|Ha]; cbn [orb].
    { assert (runes sa = []) as -> by (apply nil_length_inv; lia). exists (length (runes sb)).
      split; [f_equal; simpl; lia|]. apply best_distance, best_nil_l. }
    destruct (Z.eqb_spec (Z.of_nat (length (runes sb))) 0) as [Hb|Hb].
    { assert (runes sb = []) as -> by (apply nil_length_inv; lia). exists (length (runes sa)).
      split; [f_equal; simpl; lia|]. apply best_distance, best_nil_r. }
    destruct (matrix_distance (runes sa) (runes sb)) as (d & st & -> & Hst & z & Hz & Hdist).
    cbn [mbind option_bind]. rewrite Hst. cbn [mbind option_bind]. by exists z.
Qed.

(** [DLDistance] is a metric on rune sequences: symmetric, zero exactly
    on equal ones, bounded by the longer one and satisfying the triangle
    inequality. *)
Theorem DLDistance_metric (sa sb sc : gostring) :
  ∃ ab bc ac, DLDistance sa sb = Some ab ∧ DLDistance sb sc = Some bc ∧ DLDistance sa sc = Some ac ∧
    DLDistance sb sa = Some ab ∧ 0 <= ab ∧ (ab = 0 ↔ runes sa = runes sb) ∧
    ab <= Z.of_nat (length (runes sa) `max` length (runes sb)) ∧ ac <= ab + bc.
Proof.
  destruct (DLDistance_distance sa sb) as (ab & -> & Hab), (DLDistance_distance sb sc) as (bc & -> & Hbc),
    (DLDistance_distance sa sc) as (ac & -> & Hac), (DLDistance_distance sb sa) as (ba & -> & Hba).
  exists (Z.of_nat ab), (Z.of_nat bc), (Z.of_nat ac).
  pose proof (distance_unique _ _ _ _ (distance_sym _ _ _ Hab) Hba) as <-. pose proof (distance_zero _ _ _ Hab). pose proof (distance_bound _ _ _ Hab).
  pose proof (distance_triangle _ _ _ _ _ _ Hab Hbc Hac).
  do 4 (split; [done|]). split; [lia|]. split; [|split; lia].
  rewrite <- (distance_zero _ _ _ Hab). lia.
Qed.

(** C28. [DLDistance] never indexes out of range and returns the least number
    of insertions, deletions, substitutions and adjacent transpositions, in
    any order and number, leading from the runes of one string to those of
    the other: a metric on rune sequences, symmetric, zero exactly on equal
    ones, bounded by the longer one and with the triangle inequality. *)
Theorem DLDistance_correct (sa sb : gostring) :
  ∃ d, DLDistance sa sb = Some (Z.of_nat d) ∧
    nsteps edit d (runes sa) (runes sb) ∧ (∀ n, nsteps edit n (runes sa) (runes sb) → (d <= n)%nat) ∧
    DLDistance sb sa = Some (Z.of_nat d) ∧ (d = 0%nat ↔ runes sa = runes sb) ∧
    (d <= length (runes sa) `max` length (runes sb))%nat ∧
    ∀ sc, ∃ bc ac, DLDistance sb sc = Some bc ∧ DLDistance sa sc = Some ac ∧ ac <= Z.of_nat d + bc.
Proof.
  destruct (DLDistance_distance sa sb) as (d & Hd & Hs & Hmin). exists d.
  destruct (DLDistance_metric sa sb sb) as (ab & _ & _ & Hab & _ & _ & Hba & _ & Hz & Hb & _).
  assert (ab = Z.of_nat d) as -> by congruence. split_and!; try done; [rewrite <- Hz; lia|lia|].
  intros sc. destruct (DLDistance_metric sa sb sc) as (ab & bc & ac & Hab' & Hbc & Hac & _ & _ & _ & _ & Ht).
  exists bc, ac. assert (ab = Z.of_nat d) as -> by congruence. done.
Qed.

(** Distinct strings that decode to the same runes are at distance zero. *)
Example malformed_zero : DLDistance [255] [254] = Some 0.
Proof. vm_compute. reflexivity. Qed.
