(* ===== verification/RedactBytes.v ===== *)
(** * [pkg/redact]: bytes, scans and slices shared by the rules

    The byte-class predicates of scan.go, header.go, jwt.go, keycache.go and
    xml.go, [hasPrefixAt] and [equalsASCIIFold]. A scan
    [for i < len(src) && p(src[i]) { i++ }] is [scan p src i]. Slices and
    indexes out of range are [None]. *)

From stdpp Require Import base option list.
From Stdlib Require Import String.
From S2P Require Import Prelude GoString.

#[local] Open Scope Z_scope.

(** ** Byte literals *)

Abbreviation cTab := 9 (only parsing).
Abbreviation cNL := 10 (only parsing).
Abbreviation cCR := 13 (only parsing).
Abbreviation cSpace := 32 (only parsing).
Abbreviation cQuote := 34 (only parsing).
Abbreviation cHash := 35 (only parsing).
Abbreviation cAmp := 38 (only parsing).
Abbreviation cApos := 39 (only parsing).
Abbreviation cPlus := 43 (only parsing).
Abbreviation cComma := 44 (only parsing).
Abbreviation cDash := 45 (only parsing).
Abbreviation cDot := 46 (only parsing).
Abbreviation cSlash := 47 (only parsing).
Abbreviation c0 := 48 (only parsing).
Abbreviation c9 := 57 (only parsing).
Abbreviation cColon := 58 (only parsing).
Abbreviation cSemi := 59 (only parsing).
Abbreviation cLt := 60 (only parsing).
Abbreviation cEq := 61 (only parsing).
Abbreviation cGt := 62 (only parsing).
Abbreviation cQuery := 63 (only parsing).
Abbreviation cAt := 64 (only parsing).
Abbreviation cUpA := 65 (only parsing).
Abbreviation cUpZ := 90 (only parsing).
Abbreviation cLBracket := 91 (only parsing).
Abbreviation cBackslash := 92 (only parsing).
Abbreviation cRBracket := 93 (only parsing).
Abbreviation cUnder := 95 (only parsing).
Abbreviation cLoA := 97 (only parsing).
Abbreviation cLoZ := 122 (only parsing).
Abbreviation cLBrace := 123 (only parsing).
Abbreviation cRBrace := 125 (only parsing).

(** ** Byte classes *)

Definition isWordChar (c : Z) : bool :=
  (c =? cUnder) || between c0 c c9 || between cUpA c cUpZ || between cLoA c cLoZ.

Definition isDigitByte (c : Z) : bool := between c0 c c9.

Definition isASCIIAlphaNum (c : Z) : bool := between cLoA c cLoZ || between cUpA c cUpZ || between c0 c c9.

Definition isASCIIAlpha (c : Z) : bool := between cLoA c cLoZ || between cUpA c cUpZ.

Definition isHeaderNameByte (c : Z) : bool := isASCIIAlphaNum c || (c =? cDash) || (c =? cUnder).

Definition isBase64URLByte (c : Z) : bool := isASCIIAlphaNum c || (c =? cDash) || (c =? cUnder).

Definition isXMLNameByte (c : Z) : bool := isHeaderNameByte c || (c =? cColon) || (c =? cDot).

Definition isInlineSpace (c : Z) : bool := (c =? cSpace) || (c =? cTab).

Definition lowerASCIIByte (c : Z) : Z := if between cUpA c cUpZ then c + 32 else c.

Fixpoint equalsASCIIFold (tok lit : gostring) : bool :=
  match tok, lit with
  | [], [] => true
  | c :: tok, l :: lit => (lowerASCIIByte c =? l) && equalsASCIIFold tok lit
  | _, _ => false
  end.

(** ** Scans *)

(** The number of leading bytes that satisfy [p]. *)
Fixpoint run_len (p : Z → bool) (l : gostring) : nat :=
  match l with
  | c :: l => if p c then S (run_len p l) else O
  | [] => O
  end.

Definition scan (p : Z → bool) (src : gostring) (i : nat) : nat := (i + run_len p (drop i src))%nat.

Definition scanDigits : gostring → nat → nat := scan isDigitByte.
Definition skipInlineSpaces : gostring → nat → nat := scan isInlineSpace.
Definition scanBase64URL : gostring → nat → nat := scan isBase64URLByte.
Definition scanToLineFeed : gostring → nat → nat := scan (fun c => negb (c =? cNL)).

(** [src[lo:hi]]. *)
Definition cut (src : gostring) (lo hi : nat) : option gostring :=
  if (Nat.leb lo hi && Nat.leb hi (length src))%bool then Some (take (hi - lo) (drop lo src)) else None.

Fixpoint is_prefix (lit l : gostring) : bool :=
  match lit, l with
  | [], _ => true
  | c :: lit, d :: l => (d =? c) && is_prefix lit l
  | _, _ => false
  end.

Definition hasPrefixAt (src : gostring) (i : nat) (lit : gostring) : bool := is_prefix lit (drop i src).

(** [bytes.Index]. *)
Fixpoint Index (s sep : gostring) : option nat :=
  if is_prefix sep s then Some O
  else match s with
       | [] => None
       | _ :: s => S <$> Index s sep
       end.

(** [i < len(src) && p(src[i])] *)
Definition byteIs (src : gostring) (i : nat) (p : Z → bool) : bool :=
  match src !! i with Some c => p c | None => false end.

(** ** Facts *)

Lemma run_len_le p l : (run_len p l <= length l)%nat.
Proof. induction l as [|c l IH]; simpl; [lia|]. destruct (p c); lia. Qed.

Lemma run_len_take p l : Forall (fun c => p c = true) (take (run_len p l) l).
Proof. induction l as [|c l IH]; simpl; [constructor|]. destruct (p c) eqn:Hc; constructor; done. Qed.

Lemma run_len_stop p l c : l !! run_len p l = Some c → p c = false.
Proof. induction l as [|d l IH]; simpl; [done|]. destruct (p d) eqn:Hd; simpl; [done|congruence]. Qed.

Lemma scan_ge p src i : (i <= scan p src i)%nat.
Proof. unfold scan. lia. Qed.

Lemma scan_le p src i : (i <= length src)%nat → (scan p src i <= length src)%nat.
Proof. intros Hi. unfold scan. pose proof (run_len_le p (drop i src)) as H. rewrite length_drop in H. lia. Qed.

Lemma scan_stop p src i c : src !! scan p src i = Some c → p c = false.
Proof. unfold scan. rewrite <- lookup_drop. apply run_len_stop. Qed.

Lemma scan_all p src i k c : (i <= k < scan p src i)%nat → src !! k = Some c → p c = true.
Proof.
  unfold scan. intros Hk Hc. pose proof (run_len_take p (drop i src)) as Hall.
  apply (Forall_lookup_1 _ _ (k - i)%nat c Hall). rewrite lookup_take, decide_True by lia.
  rewrite lookup_drop. by replace (i + (k - i))%nat with k by lia.
Qed.

Lemma scan_hit p src i c : src !! i = Some c → p c = true → (i < scan p src i)%nat.
Proof.
  intros Hc Hp. unfold scan. rewrite (drop_S _ _ _ Hc). simpl. rewrite Hp. lia.
Qed.

Lemma scan_over p src i : (length src <= i)%nat → scan p src i = i.
Proof. intros Hi. unfold scan. rewrite drop_ge by done. simpl. lia. Qed.

Lemma scan_unfold p src i : scan p src i = if byteIs src i p then scan p src (S i) else i.
Proof.
  unfold scan, byteIs. destruct (src !! i) as [c|] eqn:Hc.
  - rewrite (drop_S _ _ _ Hc). simpl. destruct (p c); lia.
  - apply lookup_ge_None in Hc. rewrite drop_ge by done. simpl. lia.
Qed.

Lemma cut_Some src lo hi : (lo <= hi <= length src)%nat → cut src lo hi = Some (take (hi - lo) (drop lo src)).
Proof.
  intros H. unfold cut. by rewrite (proj2 (Nat.leb_le lo hi)), (proj2 (Nat.leb_le hi _)) by lia.
Qed.

Lemma cut_inv src lo hi s : cut src lo hi = Some s →
  (lo <= hi <= length src)%nat ∧ s = take (hi - lo) (drop lo src).
Proof.
  unfold cut. destruct (Nat.leb_spec lo hi), (Nat.leb_spec hi (length src)); simpl; try done.
  intros [= <-]. split; [lia|done].
Qed.

Lemma is_prefix_spec lit l : is_prefix lit l = true ↔ ∃ r, l = lit ++ r.
Proof.
  revert l. induction lit as [|c lit IH]; intros l; simpl; [split; [by exists l|done]|].
  destruct l as [|d l]; [split; [done|by intros [? ?]]|]. rewrite andb_true_iff, Z.eqb_eq, IH. split.
  - intros [-> [r ->]]. by exists r.
  - intros [r Hr]. simplify_eq. split; [done|by exists r].
Qed.

Lemma hasPrefixAt_spec src i lit : hasPrefixAt src i lit = true ↔ take (length lit) (drop i src) = lit.
Proof.
  unfold hasPrefixAt. rewrite is_prefix_spec. split.
  - intros [r ->]. by rewrite take_app_length.
  - intros Ht. exists (drop (length lit) (drop i src)). by rewrite <- Ht at 1; rewrite take_drop.
Qed.

Lemma hasPrefixAt_length src i lit : lit ≠ [] → hasPrefixAt src i lit = true → (i + length lit <= length src)%nat.
Proof.
  intros Hne Hp%hasPrefixAt_spec. apply (f_equal length) in Hp. rewrite length_take, length_drop in Hp.
  assert (0 < length lit)%nat by (destruct lit; [done|simpl; lia]). lia.
Qed.

Lemma hasPrefixAt_lookup src i lit k c : hasPrefixAt src i lit = true → lit !! k = Some c → src !! (i + k)%nat = Some c.
Proof.
  intros Hp%hasPrefixAt_spec Hk. pose proof (lookup_lt_Some _ _ _ Hk) as Hl.
  rewrite <- Hp in Hk. rewrite lookup_take, decide_True in Hk by lia. by rewrite lookup_drop in Hk.
Qed.

Lemma Index_spec s sep k : Index s sep = Some k → (k + length sep <= length s)%nat ∧ is_prefix sep (drop k s) = true.
Proof.
  revert k. induction s as [|c s IH]; intros k; simpl.
  - destruct (is_prefix sep []) eqn:Hp; [|done]. intros [= <-]. split; [|done].
    apply is_prefix_spec in Hp as [r Hr]. symmetry in Hr. apply app_eq_nil in Hr as [-> _]. done.
  - destruct (is_prefix sep (c :: s)) eqn:Hp.
    + intros [= <-]. split; [|done]. apply is_prefix_spec in Hp as [r Hr]. apply (f_equal length) in Hr.
      rewrite length_app in Hr. simpl in *. lia.
    + destruct (Index s sep) as [k'|]; [|done]. intros [= <-]. destruct (IH k' eq_refl). simpl. split; [lia|done].
Qed.

Lemma byteIs_lookup src i p : byteIs src i p = true ↔ ∃ c, src !! i = Some c ∧ p c = true.
Proof. unfold byteIs. destruct (src !! i) as [c|]; naive_solver. Qed.

Lemma byteIs_lt src i p : byteIs src i p = true → (i < length src)%nat.
Proof. rewrite byteIs_lookup. intros (c & Hc & _). by eapply lookup_lt_Some. Qed.
