(* ===== verification/RedactCards.v ===== *)
(** * [pkg/redact]: card numbers (creditcard.go)

    Recognition of card numbers in runs of digits, contiguous or grouped, and
    the Luhn checksum. An index out of range is [None]; [scanGroupedCardSpan]
    joins the groups in an array of [maxCardDigits] bytes, the length -1 of
    the source being [None] for the joined digits. *)

From stdpp Require Import base option list.
From Stdlib Require Import String.
From S2P Require Import Prelude GoString RedactBytes.

#[local] Open Scope Z_scope.

Definition maxCardDigits : nat := 19.
Definition minShortMaestroDigits : nat := 12.

(** A literal digit. *)
Abbreviation dig n := (48 + n) (only parsing).

Definition matchesCard15 (digits : gostring) : option bool :=
  d0 ← digits !! 0%nat;
  if d0 =? dig 3 then d1 ← digits !! 1%nat; Some ((d1 =? dig 4) || (d1 =? dig 7))
  else if d0 =? dig 2 then
    d1 ← digits !! 1%nat; d2 ← digits !! 2%nat; d3 ← digits !! 3%nat;
    Some ((d1 =? dig 1) && (d2 =? dig 3) && (d3 =? dig 1))
  else if d0 =? dig 1 then
    d1 ← digits !! 1%nat; d2 ← digits !! 2%nat; d3 ← digits !! 3%nat;
    Some ((d1 =? dig 8) && (d2 =? dig 0) && (d3 =? dig 0))
  else Some false.

Definition matchesCard14 (digits : gostring) : option bool :=
  d0 ← digits !! 0%nat; d1 ← digits !! 1%nat; d2 ← digits !! 2%nat;
  Some ((d0 =? dig 3) && (((d1 =? dig 0) && between (dig 0) d2 (dig 5)) || (d1 =? dig 6) || (d1 =? dig 8))).

Definition matchesCard6Series (digits : gostring) : option bool :=
  d1 ← digits !! 1%nat; d2 ← digits !! 2%nat; d3 ← digits !! 3%nat;
  Some ((d1 =? dig 2) || (d1 =? dig 5) || ((d1 =? dig 0) && (d2 =? dig 1) && (d3 =? dig 1)) ||
        ((d1 =? dig 4) && between (dig 4) d2 (dig 9))).

Definition maestroIINs : list Z := [5018; 5020; 5038; 5893; 6304; 6759; 6761; 6762; 6763].

Definition matchesMaestroIIN (digits : gostring) : option bool :=
  d0 ← digits !! 0%nat; d1 ← digits !! 1%nat; d2 ← digits !! 2%nat; d3 ← digits !! 3%nat;
  let iin := (d0 - c0) * 1000 + (d1 - c0) * 100 + (d2 - c0) * 10 + (d3 - c0) in
  Some (bool_decide (iin ∈ maestroIINs)).

Definition matchesCard16To19 (digits : gostring) (n : nat) : option bool :=
  d0 ← digits !! 0%nat; d1 ← digits !! 1%nat;
  if Nat.eqb n 16 && ((d0 =? dig 2) || (d0 =? dig 5)) && between (dig 1) d1 (dig 7) then Some true
  else if d0 =? dig 3 then Some (d1 =? dig 5)
  else
    maestro ← matchesMaestroIIN digits;
    if maestro : bool then Some true
    else if d0 =? dig 6 then matchesCard6Series digits else Some false.

Definition matchesCardPattern (digits : gostring) : option bool :=
  let n := length digits in
  if Nat.ltb n 13 || Nat.ltb maxCardDigits n then Some false
  else
    d0 ← digits !! 0%nat;
    if d0 =? dig 4 then Some (Nat.eqb n 13 || Nat.eqb n 16 || Nat.eqb n 19)
    else if Nat.leb 16 n then matchesCard16To19 digits n
    else if Nat.eqb n 15 then matchesCard15 digits
    else if Nat.eqb n 14 then matchesCard14 digits
    else Some false.

(** The loop of [passesLuhn], from the last digit backwards. *)
Fixpoint luhn_loop (rev : gostring) (double : bool) (sum : Z) : Z :=
  match rev with
  | [] => sum
  | c :: rev =>
      let d := c - c0 in
      let d := if double then (let d := d * 2 in if 9 <? d then d - 9 else d) else d in
      luhn_loop rev (negb double) (sum + d)
  end.

Definition passesLuhn (digits : gostring) : bool := luhn_loop (reverse digits) false 0 mod 10 =? 0.

Section Cards.
(** [re.luhn] *)
Context (luhn : bool).

Definition isCreditCard (digits : gostring) : option bool :=
  known ← matchesCardPattern digits;
  if known : bool then Some (negb luhn || passesLuhn digits)
  else if luhn && Nat.leb minShortMaestroDigits (length digits) && Nat.ltb (length digits) 16 then
    maestro ← matchesMaestroIIN digits;
    Some (maestro && passesLuhn digits)
  else Some false.

Definition isGroupedCardCandidate (digits : gostring) : option bool :=
  let n := length digits in
  if Nat.eqb n 14 then Some false
  else if Nat.eqb n 15 then
    d0 ← digits !! 0%nat;
    if negb (d0 =? dig 3) then Some false else isCreditCard digits
  else isCreditCard digits.

Definition hasSeparatedDigit (src : gostring) (i : nat) : bool :=
  byteIs src i (fun c => (c =? cSpace) || (c =? cDash)) && byteIs src (S i) isDigitByte.

(** [copyDigits] and [appendDigits] on the first [n] bytes of the array. *)
Definition copyDigits (src : gostring) : option gostring :=
  if Nat.ltb maxCardDigits (length src) then None else Some src.

Definition appendDigits (digits group : gostring) : option gostring :=
  if Nat.ltb (maxCardDigits - length digits) (length group) then None else Some (digits ++ group).

(** The loop of [scanGroupedCardSpan]; every group has a digit, so that
    [maxCardDigits] rounds fill the array. *)
Fixpoint grouped_loop (fuel : nat) (src : gostring) (digits : gostring) (end_ best : nat) : option nat :=
  if hasSeparatedDigit src end_ then
    match fuel with
    | O => None
    | S fuel =>
        let groupEnd := scanDigits src (S end_) in
        group ← cut src (S end_) groupEnd;
        match appendDigits digits group with
        | None => Some best
        | Some digits =>
            card ← (if byteIs src groupEnd isWordChar then Some false else isGroupedCardCandidate digits);
            grouped_loop fuel src digits groupEnd (if card : bool then groupEnd else best)
        end
    end
  else Some best.

Definition scanGroupedCardSpan (src : gostring) (start firstGroupEnd : nat) : option (option nat) :=
  first ← cut src start firstGroupEnd;
  best ← match copyDigits first with
         | None => Some O
         | Some digits => grouped_loop (S maxCardDigits) src digits firstGroupEnd O
         end;
  Some (if Nat.eqb best 0 then None else Some best).
End Cards.

Example cards : (fun s => isCreditCard false (str s)) <$>
  ["4012888888881881"; "378282246310005"; "6759649826438453"; "1234567890123456"; "401288888888188"]%string =
  [Some true; Some true; Some true; Some false; Some false].
Proof. vm_compute. reflexivity. Qed.

Example grouped_card : scanGroupedCardSpan false (str "4012 8888-8888 1881 12 26.") 0 4 = Some (Some 19%nat).
Proof. vm_compute. reflexivity. Qed.

(** ** Totality *)

Ltac index_in_range :=
  repeat match goal with
    | |- context [@lookup nat Z (list Z) _ ?k ?l] =>
        let d := fresh "d" in let Hd := fresh in
        assert (Hd : is_Some (l !! k)) by (apply lookup_lt_is_Some_2; unfold maxCardDigits in *; lia);
        destruct Hd as [d Hd]; rewrite !Hd; cbn [mbind option_bind]
    end.

Lemma matchesMaestroIIN_total digits : (4 <= length digits)%nat → is_Some (matchesMaestroIIN digits).
Proof. intros Hn. unfold matchesMaestroIIN. index_in_range. done. Qed.

Lemma matchesCardPattern_total digits : is_Some (matchesCardPattern digits).
Proof.
  unfold matchesCardPattern. destruct (Nat.ltb_spec (length digits) 13); [done|].
  destruct (Nat.ltb _ _); [done|]. simpl orb. cbn iota. index_in_range. destruct (d =? _); [done|].
  destruct (Nat.leb_spec 16 (length digits)).
  - unfold matchesCard16To19. index_in_range. destruct (_ && _); [done|].
    destruct (_ =? _); [done|]. destruct (matchesMaestroIIN_total digits) as [[] ->]; [lia|done|].
    simpl. destruct (_ =? _); [|done]. unfold matchesCard6Series. index_in_range. done.
  - unfold matchesCard15, matchesCard14. destruct (Nat.eqb _ _); index_in_range.
    + by repeat case_match.
    + destruct (Nat.eqb _ _); [|done]. done.
Qed.

Lemma isCreditCard_total luhn digits : is_Some (isCreditCard luhn digits).
Proof.
  unfold isCreditCard. destruct (matchesCardPattern_total digits) as [[] ->]; cbn [mbind option_bind]; [by eexists|].
  destruct (luhn && _) eqn:E; cbn [andb]; [|by eexists]. destruct (Nat.ltb _ _); [|by eexists].
  apply andb_true_iff in E as [_ E%Nat.leb_le]. unfold minShortMaestroDigits in E.
  destruct (matchesMaestroIIN_total digits) as [b ->]; [lia|by eexists].
Qed.

Lemma isGroupedCardCandidate_total luhn digits : is_Some (isGroupedCardCandidate luhn digits).
Proof.
  unfold isGroupedCardCandidate. destruct (Nat.eqb _ 14); [by eexists|].
  destruct (Nat.eqb_spec (length digits) 15); [|apply isCreditCard_total]. index_in_range.
  destruct (negb _); [done|apply isCreditCard_total].
Qed.

Lemma hasSeparatedDigit_next src e : hasSeparatedDigit src e = true →
  (S e < scanDigits src (S e) <= length src)%nat.
Proof.
  unfold hasSeparatedDigit. rewrite andb_true_iff. intros [_ H].
  pose proof (byteIs_lt _ _ _ H). apply byteIs_lookup in H as (c & Hc & Hd).
  split; [by eapply scan_hit|apply scan_le; lia].
Qed.

Lemma grouped_loop_spec luhn fuel src digits e best :
  (maxCardDigits < length digits + fuel)%nat → (length digits <= maxCardDigits)%nat →
  (e <= length src)%nat → (best <= e)%nat →
  ∃ b, grouped_loop luhn fuel src digits e best = Some b ∧ (b = best ∨ (e < b)%nat) ∧ (b <= length src)%nat.
Proof.
  revert digits e best. induction fuel as [|fuel IH]; intros digits e best Hf Hd He Hb; [lia|].
  cbn [grouped_loop]. destruct (hasSeparatedDigit src e) eqn:Hs; [|exists best; split; [done|]; split; [by left|lia]].
  apply hasSeparatedDigit_next in Hs. rewrite cut_Some by lia. cbn [mbind option_bind]. unfold appendDigits.
  destruct (Nat.ltb_spec (maxCardDigits - length digits)
    (length (take (scanDigits src (S e) - S e) (drop (S e) src)))) as [|Hle];
    [exists best; split; [done|]; split; [by left|lia]|].
  rewrite length_take, length_drop in Hle.
  set (card := if byteIs _ _ _ then _ else _). assert (Hc : is_Some card).
  { unfold card. destruct (byteIs _ _ _); [done|apply isGroupedCardCandidate_total]. }
  destruct Hc as [c ->]. cbn [mbind option_bind].
  edestruct (IH (digits ++ take (scanDigits src (S e) - S e) (drop (S e) src)) (scanDigits src (S e))
    (if c then scanDigits src (S e) else best)) as (b & Hb' & Hcase & Hle').
  { rewrite length_app, length_take, length_drop. lia. }
  { rewrite length_app, length_take, length_drop. lia. }
  { lia. }
  { destruct c; lia. }
  exists b. split; [done|]. split; [|done]. destruct Hcase as [->|]; [destruct c; [right; lia|by left]|right; lia].
Qed.

(** The span found starts with the first group and reaches beyond it. *)
Lemma scanGroupedCardSpan_spec luhn src i j : (i <= j <= length src)%nat →
  ∃ r, scanGroupedCardSpan luhn src i j = Some r ∧ ∀ e, r = Some e → (j < e <= length src)%nat.
Proof.
  intros Hij. unfold scanGroupedCardSpan. rewrite cut_Some by lia. cbn [mbind option_bind]. unfold copyDigits.
  destruct (Nat.ltb_spec maxCardDigits (length (take (j - i) (drop i src)))) as [|Hle].
  { eexists. split; [done|]. done. }
  edestruct (grouped_loop_spec luhn (S maxCardDigits) src (take (j - i) (drop i src)) j 0) as (b & -> & Hcase & Hb);
    [lia..|]. cbn [mbind option_bind]. eexists. split; [done|].
  intros e He. destruct (Nat.eqb_spec b 0); simplify_eq. lia.
Qed.

(** ** The checksum *)

Definition is_digit (c : Z) : Prop := 48 <= c <= 57.

(** What a digit weighs. *)
Definition luhn_weight (double : bool) (c : Z) : Z :=
  let d := c - 48 in if double then (if 9 <? d * 2 then d * 2 - 9 else d * 2) else d.

Fixpoint luhn_sum (rev : gostring) (double : bool) : Z :=
  match rev with
  | [] => 0
  | c :: rev => luhn_weight double c + luhn_sum rev (negb double)
  end.

Lemma luhn_loop_sum rev : ∀ double sum, luhn_loop rev double sum = sum + luhn_sum rev double.
Proof.
  induction rev as [|c rev IH]; intros double sum; simpl; [lia|]. rewrite IH. unfold luhn_weight.
  destruct double; [destruct (9 <? _)|]; lia.
Qed.

Lemma luhn_sum_app l1 l2 double :
  luhn_sum (l1 ++ l2) double = luhn_sum l1 double + luhn_sum l2 (xorb double (Nat.odd (length l1))).
Proof.
  revert double. induction l1 as [|c l1 IH]; intros double; simpl length; [by rewrite xorb_false_r|].
  cbn [app luhn_sum]. rewrite IH, Nat.odd_succ, <- Nat.negb_odd.
  replace (xorb double (negb (Nat.odd (length l1)))) with (xorb (negb double) (Nat.odd (length l1))); [lia|].
  by destruct double, (Nat.odd (length l1)).
Qed.

Lemma passesLuhn_sum digits : passesLuhn digits = (luhn_sum (reverse digits) false mod 10 =? 0).
Proof. unfold passesLuhn. by rewrite luhn_loop_sum. Qed.

Lemma mod10_apart a b : a mod 10 = 0 → b mod 10 = 0 → -9 <= a - b <= 9 → a = b.
Proof. intros. pose proof (Z.div_mod a 10). pose proof (Z.div_mod b 10). lia. Qed.

Lemma luhn_weight_inj double c d : is_digit c → is_digit d → luhn_weight double c = luhn_weight double d → c = d.
Proof.
  unfold is_digit, luhn_weight. intros Hc Hd. destruct double; [|lia].
  destruct (Z.ltb_spec 9 ((c - 48) * 2)), (Z.ltb_spec 9 ((d - 48) * 2)); lia.
Qed.

Lemma luhn_weight_range double c : is_digit c → 0 <= luhn_weight double c <= 9.
Proof. unfold is_digit, luhn_weight. intros Hc. destruct double; [destruct (Z.ltb_spec 9 ((c - 48) * 2))|]; lia. Qed.

Lemma luhn_weight_swap double c d : is_digit c → is_digit d →
  luhn_weight double c + luhn_weight (negb double) d = luhn_weight double d + luhn_weight (negb double) c →
  c = d ∨ (c = 48 ∧ d = 57) ∨ (c = 57 ∧ d = 48).
Proof.
  unfold is_digit, luhn_weight. intros Hc Hd.
  destruct double; cbn [negb]; destruct (Z.ltb_spec 9 ((c - 48) * 2)), (Z.ltb_spec 9 ((d - 48) * 2)); lia.
Qed.

Lemma luhn_substitution l1 l2 c d : is_digit c → is_digit d →
  passesLuhn (l1 ++ c :: l2) = true → passesLuhn (l1 ++ d :: l2) = true → c = d.
Proof.
  intros Hc Hd. rewrite !passesLuhn_sum, !reverse_app, !reverse_cons, <- !app_assoc, !Z.eqb_eq.
  cbn [app]. rewrite !luhn_sum_app. cbn [luhn_sum]. intros H1 H2.
  set (b := xorb false (Nat.odd (length (reverse l2)))) in *. apply (luhn_weight_inj b); [done..|].
  pose proof (luhn_weight_range b c Hc). pose proof (luhn_weight_range b d Hd).
  pose proof (mod10_apart _ _ H1 H2). lia.
Qed.

Lemma luhn_transposition l1 l2 c d : is_digit c → is_digit d →
  passesLuhn (l1 ++ c :: d :: l2) = true → passesLuhn (l1 ++ d :: c :: l2) = true →
  c = d ∨ (c = 48 ∧ d = 57) ∨ (c = 57 ∧ d = 48).
Proof.
  intros Hc Hd. rewrite !passesLuhn_sum, !reverse_app, !reverse_cons, <- !app_assoc, !Z.eqb_eq.
  cbn [app]. rewrite !luhn_sum_app. cbn [luhn_sum]. rewrite !negb_involutive. intros H1 H2.
  set (b := xorb false (Nat.odd (length (reverse l2)))) in *.
  enough (luhn_weight b d + luhn_weight (negb b) c = luhn_weight b c + luhn_weight (negb b) d)
    by (edestruct (luhn_weight_swap b d c) as [|[|]]; naive_solver).
  pose proof (mod10_apart _ _ H1 H2) as H. clear H1 H2. revert H. unfold is_digit, luhn_weight in *.
  destruct b; cbn [negb]; destruct (Z.ltb_spec 9 ((c - 48) * 2)), (Z.ltb_spec 9 ((d - 48) * 2)); lia.
Qed.

(** Every number has one check digit. *)
Lemma luhn_check_digit l : ∃ c, is_digit c ∧ passesLuhn (l ++ [c]) = true.
Proof.
  set (s := luhn_sum (reverse l) true). exists (48 + (- s) mod 10). pose proof (Z.mod_pos_bound (- s) 10 ltac:(lia)) as Hr.
  split; [unfold is_digit; lia|]. rewrite passesLuhn_sum, reverse_app. cbn [app reverse rev_append luhn_sum negb].
  fold s. unfold luhn_weight. apply Z.eqb_eq.
  replace (48 + (- s) mod 10 - 48) with ((- s) mod 10) by lia. fold (reverse l). rewrite Zplus_mod_idemp_l.
  by replace (- s + s) with 0 by lia.
Qed.

(** Lengths of card numbers. *)
Lemma matchesCardPattern_length digits : matchesCardPattern digits = Some true → (13 <= length digits <= 19)%nat.
Proof.
  unfold matchesCardPattern, maxCardDigits. destruct (Nat.ltb_spec (length digits) 13), (Nat.ltb_spec 19 (length digits)); simpl; try done.
Qed.

Lemma isCreditCard_inv luhn digits : isCreditCard luhn digits = Some true →
  (12 <= length digits <= 19)%nat ∧ (if luhn then passesLuhn digits = true else (13 <= length digits)%nat).
Proof.
  unfold isCreditCard, minShortMaestroDigits.
  destruct (matchesCardPattern digits) as [[]|] eqn:Hm; cbn [mbind option_bind]; [| |done].
  - apply matchesCardPattern_length in Hm. destruct luhn; simpl; [intros [= H]; split; [lia|done]|intros _; lia].
  - destruct luhn; [|done]. destruct (Nat.leb_spec 12 (length digits)), (Nat.ltb_spec (length digits) 16);
      cbn [andb]; try done.
    destruct (matchesMaestroIIN digits) as [[]|]; cbn [mbind option_bind andb]; try done.
    intros [= Hl]. split; [lia|done].
Qed.

Lemma isGroupedCardCandidate_inv luhn digits : isGroupedCardCandidate luhn digits = Some true →
  isCreditCard luhn digits = Some true.
Proof.
  unfold isGroupedCardCandidate. destruct (Nat.eqb _ 14); [done|]. destruct (Nat.eqb _ 15); [|done].
  destruct (digits !! 0%nat); cbn [mbind option_bind]; [|done]. by destruct (negb _).
Qed.

(** The digits of [src[i:e]]. *)
Definition digits_of (src : gostring) (i e : nat) : gostring :=
  filter (fun c => isDigitByte c = true) (take (e - i) (drop i src)).

Lemma digits_of_scan src i : digits_of src i (scanDigits src i) = take (scanDigits src i - i) (drop i src).
Proof.
  unfold digits_of. apply filter_all. unfold scanDigits, scan. replace (i + _ - i)%nat with (run_len isDigitByte (drop i src)) by lia.
  apply run_len_take.
Qed.

Lemma digits_of_app src i m e : (i <= m <= e)%nat → digits_of src i e = digits_of src i m ++ digits_of src m e.
Proof.
  intros Hm. unfold digits_of. rewrite <- filter_app. f_equal.
  replace (e - i)%nat with ((m - i) + (e - m))%nat by lia. rewrite <- take_take_drop, drop_drop.
  by replace (i + (m - i))%nat with m by lia.
Qed.

Lemma separator_not_digit src e : hasSeparatedDigit src e = true → digits_of src e (S e) = [].
Proof.
  unfold hasSeparatedDigit. rewrite andb_true_iff, byteIs_lookup. intros [(c & Hc & Hs) _]. unfold digits_of.
  rewrite (drop_S _ _ _ Hc). replace (S e - e)%nat with 1%nat by lia. cbn [take]. rewrite filter_cons_False; [done|].
  unfold isDigitByte, between. rewrite orb_true_iff, !Z.eqb_eq in Hs. rewrite andb_true_iff, !Z.leb_le. lia.
Qed.

Lemma grouped_loop_card luhn fuel src i digits e best b : (i <= e)%nat →
  digits = digits_of src i e →
  (best ≠ 0%nat → isCreditCard luhn (digits_of src i best) = Some true ∧ byteIs src best isWordChar = false) →
  grouped_loop luhn fuel src digits e best = Some b →
  b ≠ 0%nat → isCreditCard luhn (digits_of src i b) = Some true ∧ byteIs src b isWordChar = false.
Proof.
  revert digits e best. induction fuel as [|fuel IH]; intros digits e best Hie Hd Hbest; cbn [grouped_loop];
    destruct (hasSeparatedDigit src e) eqn:Hs; try done; try (intros [= <-]; done).
  pose proof (hasSeparatedDigit_next _ _ Hs) as Hn. rewrite cut_Some by lia. cbn [mbind option_bind]. unfold appendDigits.
  destruct (Nat.ltb _ _); [intros [= <-]; done|].
  set (g := scanDigits src (S e)) in *.
  assert (Hd' : digits ++ take (g - S e) (drop (S e) src) = digits_of src i g).
  { rewrite (digits_of_app src i e g), (digits_of_app src e (S e) g), (separator_not_digit _ _ Hs) by lia.
    unfold g at 2. by rewrite digits_of_scan, Hd. }
  destruct (byteIs src g isWordChar) eqn:Hw; cbn [mbind option_bind].
  - by apply IH; [lia| |].
  - destruct (isGroupedCardCandidate luhn _) as [[]|] eqn:Hc; cbn [mbind option_bind]; [| |done].
    + apply IH; [lia|done|]. intros _. rewrite <- Hd'. split; [by apply isGroupedCardCandidate_inv|done].
    + by apply IH; [lia| |].
Qed.

(** Card recognition never reads out of range, for every run of digits,
    and accepts only 12 to 19 of them, at least 13 without the Luhn gate. With the gate, one mistyped digit or two
    exchanged neighbours other than 0 and 9 are never accepted in place of an
    accepted number, and the gate rejects no issuer outright: every prefix has
    a check digit. A grouped span is found only where its digits, the
    separators removed, are a card number not glued to a word, and it extends
    the first group. *)
Theorem cards_recognized luhn digits : Forall is_digit digits →
  (∃ b, isCreditCard luhn digits = Some b) ∧
  (isCreditCard luhn digits = Some true →
    (12 <= length digits <= 19)%nat ∧ (luhn = false → (13 <= length digits)%nat) ∧
    (luhn = true →
      (∀ l1 c l2 d, digits = l1 ++ c :: l2 → is_digit d → d ≠ c →
        isCreditCard luhn (l1 ++ d :: l2) = Some false) ∧
      (∀ l1 c d l2, digits = l1 ++ c :: d :: l2 → c ≠ d → ¬ (c = 48 ∧ d = 57) → ¬ (c = 57 ∧ d = 48) →
        isCreditCard luhn (l1 ++ d :: c :: l2) = Some false))) ∧
  (∃ c, is_digit c ∧ passesLuhn (digits ++ [c]) = true) ∧
  (∀ src i j, (i <= j <= length src)%nat → digits = take (j - i) (drop i src) →
    ∃ r, scanGroupedCardSpan luhn src i j = Some r ∧ ∀ e, r = Some e →
      (j < e <= length src)%nat ∧ isCreditCard luhn (digits_of src i e) = Some true ∧ byteIs src e isWordChar = false).
Proof.
  intros Hd. split; [destruct (isCreditCard_total luhn digits) as [b Hb]; by exists b|]. split; [|split].
  - intros Hc. destruct (isCreditCard_inv _ _ Hc) as [Hl Hp]. split; [done|]. split; [by intros ->|]. intros ->.
    assert (Hno : ∀ l, passesLuhn l = false → isCreditCard true l = Some false).
    { intros l Hl'. destruct (isCreditCard_total true l) as [[] Hb]; [|done].
      apply isCreditCard_inv in Hb as [_ Hb]. congruence. }
    split.
    + intros l1 c l2 d -> Hdd Hne. apply Hno. destruct (passesLuhn (l1 ++ d :: l2)) eqn:E; [|done]. exfalso. apply Hne. symmetry.
      apply Forall_app in Hd as [_ [Hcc _]%Forall_cons]. by apply (luhn_substitution l1 l2).
    + intros l1 c d l2 -> Hne H09 H90. apply Hno. destruct (passesLuhn (l1 ++ d :: c :: l2)) eqn:E; [|done]. exfalso.
      apply Forall_app in Hd as [_ [Hcc [Hdd _]%Forall_cons]%Forall_cons].
      destruct (luhn_transposition l1 l2 c d Hcc Hdd Hp E) as [|[|]]; naive_solver.
  - apply luhn_check_digit.
  - intros src i j Hij Hdig. destruct (scanGroupedCardSpan_spec luhn src i j Hij) as (r & Hr & Hspan).
    exists r. split; [done|]. intros e ->. split; [by apply Hspan|].
    revert Hr. unfold scanGroupedCardSpan. rewrite cut_Some by lia. cbn [mbind option_bind]. rewrite <- Hdig.
    unfold copyDigits. destruct (Nat.ltb _ _); [done|].
    destruct (grouped_loop _ _ _ _ _ _) as [b|] eqn:Hg; [|done]. cbn [mbind option_bind].
    destruct (Nat.eqb_spec b 0); [done|]. intros [= <-].
    apply (grouped_loop_card luhn (S maxCardDigits) src i digits j 0%nat b); [lia| |done|done|done].
    unfold digits_of. rewrite <- Hdig. symmetry. apply filter_all. eapply Forall_impl; [exact Hd|].
    intros c Hc. unfold is_digit in Hc. unfold isDigitByte, between. rewrite andb_true_iff, !Z.leb_le. cbn beta. lia.
Qed.

Lemma cards_recognized_witness :
  let digits := str "4012888888881881" in
  isCreditCard true digits = Some true ∧ isCreditCard true (str "4012888888881818") = Some false ∧
  (∃ r, scanGroupedCardSpan true digits 0 16 = Some r ∧ ∀ e, r = Some e →
    (16 < e <= 16)%nat ∧ isCreditCard true (digits_of digits 0 e) = Some true ∧ byteIs digits e isWordChar = false).
Proof.
  assert (Hd : Forall is_digit (str "4012888888881881")).
  { apply Forall_forall. intros c Hc. unfold is_digit.
    assert (Ha : forallb (fun c => (48 <=? c) && (c <=? 57)) (str "4012888888881881") = true) by (vm_compute; reflexivity).
    rewrite forallb_forall in Ha. apply list_elem_of_In in Hc. apply Ha in Hc.
    apply andb_true_iff in Hc as [H1%Z.leb_le H2%Z.leb_le]. split; assumption. }
  destruct (cards_recognized true (str "4012888888881881") Hd) as (_ & Hacc & _ & Hspan).
  assert (Hc : isCreditCard true (str "4012888888881881") = Some true) by (vm_compute; reflexivity).
  split; [exact Hc|]. split.
  - destruct (Hacc Hc) as (_ & _ & Hluhn). destruct (Hluhn eq_refl) as [_ Hswap].
    apply (Hswap (str "40128888888818") 56 49 []); [vm_compute; reflexivity|lia..].
  - apply (Hspan (str "4012888888881881") 0%nat 16%nat); [split; [lia|vm_compute; lia]|vm_compute; reflexivity].
Defined.
