(* ===== verification/RedactKeys.v ===== *)
(** * [pkg/redact]: classifying key names (keycache.go)

    A key is sensitive when one of its tokens is a keyword. ASCII keys are
    tokenized in place by [sensitiveKeyASCIIFast]; the others are normalized
    by [normalizeKey] and their classification memoized. A token
    [key[start:i]] is accumulated as it is scanned, an empty one standing for
    [start < 0]. What Go's Unicode tables say of the non-ASCII runes is a
    parameter; the memo is evicted in the order of [iter]. *)

From stdpp Require Import base option list gmap.
From Stdlib Require Import String.
From S2P Require Import Prelude GoString RedactBytes.

#[local] Open Scope Z_scope.

(** [unicode.IsLetter], ... on the runes outside ASCII. *)
Record unicode : Type := MkUnicode {
  uLetter : Z → bool;
  uDigit : Z → bool;
  uUpper : Z → bool;
  uLower : Z → bool;
  uToLower : Z → Z
}.

Definition sensitiveTokens : list gostring := str <$> [
  "acc"; "accesskey"; "accesstoken"; "account"; "address"; "amount"; "apikey"; "apisecret"; "appsecret";
  "attestation"; "auth"; "authcookie"; "authenticate"; "authkey"; "authorization"; "authtoken";
  "autograph"; "bal"; "balance"; "bearer"; "bearertoken"; "bill"; "birth"; "card"; "cardnumber"; "cc";
  "cell"; "cert"; "checksum"; "clientsecret"; "connectionstring"; "cookie"; "cred"; "credential";
  "credentials"; "creditcard"; "csc"; "csrf"; "csrftoken"; "cv2"; "cvc"; "cvn"; "cvv"; "dbpassword";
  "debitcard"; "deploykey"; "dob"; "dsa"; "dsn"; "ecdsa"; "email"; "encryptionkey"; "endorse"; "expiry";
  "fingerprint"; "gpgkey"; "hash"; "hmac"; "holder"; "hostkey"; "htpasswd"; "iban"; "idtoken";
  "jsessionid"; "jwt"; "key"; "login"; "mail"; "masterkey"; "mfa"; "nationalid"; "nonce"; "otp"; "pass";
  "passcode"; "passphrase"; "passport"; "passportnumber"; "passwd"; "password"; "pay"; "payment";
  "pgpassword"; "phone"; "phpsessid"; "pin"; "pkcs"; "pkcs12"; "postal"; "privatekey"; "privkey"; "proof";
  "pwd"; "refreshtoken"; "rootkey"; "rsa"; "salt"; "seal"; "secret"; "secretkey"; "security"; "sess";
  "session"; "sessioncookie"; "sessionid"; "sessionkey"; "sessiontoken"; "sgn"; "sid"; "sig"; "signature";
  "signingkey"; "signkey"; "social"; "sshkey"; "ssn"; "swift"; "tax"; "tel"; "telephone"; "token"; "totp";
  "xsrf"; "xsrftoken"]%string.

(** Keys that tokenize to a keyword yet never carry a secret, normalized. *)
Definition nonSensitiveKeys : list gostring := str <$> [
  "content_security_policy"; "content_security_policy_report_only"; "x_content_security_policy";
  "strict_transport_security"; "access_control_allow_credentials"; "www_authenticate";
  "proxy_authenticate"; "security_context"; "security_group"; "security_groups"]%string.

Definition strongSecretTokens : list gostring := str <$> [
  "apikey"; "apisecret"; "appsecret"; "accesskey"; "accesstoken"; "authkey"; "authorization"; "authtoken";
  "bearer"; "bearertoken"; "clientsecret"; "connectionstring"; "cred"; "credential"; "credentials"; "csrf";
  "csrftoken"; "dbpassword"; "deploykey"; "encryptionkey"; "gpgkey"; "hmac"; "hostkey"; "htpasswd";
  "idtoken"; "jsessionid"; "jwt"; "key"; "masterkey"; "mfa"; "otp"; "pass"; "passcode"; "passphrase";
  "passwd"; "password"; "pgpassword"; "phpsessid"; "pkcs"; "pkcs12"; "privatekey"; "privkey"; "pwd";
  "refreshtoken"; "rootkey"; "secret"; "secretkey"; "session"; "sessionid"; "sessionkey"; "sessiontoken";
  "signature"; "signingkey"; "signkey"; "sshkey"; "token"; "totp"; "xsrf"; "xsrftoken"]%string.

Definition sensitiveRoots : list gostring := str <$> [
  "accesskey"; "apikey"; "authkey"; "cardnumber"; "credential"; "creditcard"; "debitcard"; "encryptionkey";
  "passcode"; "passphrase"; "passwd"; "password"; "privatekey"; "privkey"; "pwd"; "secret"; "secretkey";
  "sessionkey"; "signature"; "signingkey"; "sshkey"; "token"]%string.

Definition minGluedCompoundLen : nat := 5.
Definition maxSensitiveTokenLen : nat := 32.
Definition sensitiveKeyCacheMaxEntries : nat := 4096.
Definition sensitiveKeyCacheEvictBatch : nat := 512.

Definition in_set (tok : gostring) (set : list gostring) : bool := bool_decide (tok ∈ set).

(** [newSensitiveRootIndex]: the roots ending in a byte. *)
Definition sensitiveRootsByLastByte (b : Z) : list gostring :=
  filter (fun root => last root = Some b) sensitiveRoots.

(** [strings.HasSuffix]. *)
Definition HasSuffix (s suffix : gostring) : bool := is_prefix (reverse suffix) (reverse s).

(** The configuration of a [Redactor] that matters to keys. *)
Record tokenConfig : Type := MkTokenConfig {
  extraTokens : list gostring;
  dropTokens : list gostring
}.

Inductive pairHead := pairNone | pairFirstLastName | pairNationalID | pairConnectionStr.

Definition pairHeadKind (tok : gostring) : pairHead :=
  match length tok with
  | 4%nat => if equalsASCIIFold tok (str "last") then pairFirstLastName else pairNone
  | 5%nat => if equalsASCIIFold tok (str "first") then pairFirstLastName else pairNone
  | 8%nat => if equalsASCIIFold tok (str "national") then pairNationalID else pairNone
  | 10%nat => if equalsASCIIFold tok (str "connection") then pairConnectionStr else pairNone
  | _ => pairNone
  end.

Definition matchesPairTail (kind : pairHead) (tok : gostring) : bool :=
  match kind with
  | pairFirstLastName => equalsASCIIFold tok (str "name")
  | pairNationalID => equalsASCIIFold tok (str "id")
  | pairConnectionStr => equalsASCIIFold tok (str "string")
  | pairNone => false
  end.

Definition matchesPairString (prev tok : gostring) : bool :=
  if bool_decide (prev = str "first") || bool_decide (prev = str "last") then bool_decide (tok = str "name")
  else if bool_decide (prev = str "national") then bool_decide (tok = str "id")
  else if bool_decide (prev = str "connection") then bool_decide (tok = str "string")
  else false.

Section Tokens.
Context (re : tokenConfig).

Definition dropped (tok : gostring) : bool := in_set tok (dropTokens re).

(** [tok] is not empty: [tok[len(tok)-1]] is [last tok]. *)
Definition hasSensitiveRootSuffix (tok : gostring) : bool :=
  match last tok with
  | None => false
  | Some b =>
      existsb (fun root => Nat.ltb (length root) (length tok) && HasSuffix tok root && negb (dropped root))
        (sensitiveRootsByLastByte b)
  end.

Definition glued (tok : gostring) : bool := Nat.leb minGluedCompoundLen (length tok) && hasSensitiveRootSuffix tok.

Definition matchesTokenOrRoot (tok : gostring) : bool :=
  if dropped tok then false
  else in_set tok sensitiveTokens || in_set tok (extraTokens re) || glued tok.

Definition matchesRoot (tok : gostring) : bool :=
  match tok with
  | [] => false
  | _ => if dropped tok then false else in_set tok sensitiveRoots || glued tok
  end.

(** [base = base[:len(base)-1]] while it ends in a digit. *)
Definition stripDigits (s : gostring) : gostring := reverse (drop (run_len isDigitByte (reverse s)) (reverse s)).

Definition sensitiveTokenSuffix (lowered : gostring) : bool :=
  if bool_decide (last lowered = Some 115) then matchesRoot (take (length lowered - 1) lowered)
  else
    let base := stripDigits lowered in
    negb (bool_decide (base = [])) && matchesTokenOrRoot base.

Definition sensitiveToken (lowered : gostring) : bool :=
  match last lowered with
  | None => false
  | Some lst =>
      if dropped lowered then false
      else if in_set lowered sensitiveTokens then true
      else if in_set lowered (extraTokens re) then true
      else if glued lowered then true
      else if isDigitByte lst || ((lst =? 115) && Nat.leb 2 (length lowered)) then sensitiveTokenSuffix lowered
      else false
  end.

(** Both branches on the token's length lower its ASCII letters. *)
Definition sensitiveTokenASCII (tok : gostring) : bool :=
  match tok with
  | [] => false
  | _ => sensitiveToken (lowerASCIIByte <$> tok)
  end.

Definition closeSensitiveToken (tok : gostring) (prevPairHead : pairHead) : bool * pairHead :=
  if sensitiveTokenASCII tok then (true, pairNone)
  else if matchesPairTail prevPairHead tok then (true, pairNone)
  else (false, pairHeadKind tok).

Definition isUpperASCII (c : Z) : bool := between cUpA c cUpZ.
Definition isLowerASCII (c : Z) : bool := between cLoA c cLoZ.

(** [sensitiveKeyASCIIFast] from byte [i] on, the open token being
    [tok = key[start:i]]; [None] is the [(_, false)] return. *)
Fixpoint fast_loop (rest tok : gostring) (prevIsLowerOrDigit prevIsUpper prevIsUnderscore : bool)
    (prevPairHead : pairHead) : option bool :=
  match rest with
  | [] => Some (if decide (tok = []) then false else (closeSensitiveToken tok prevPairHead).1)
  | c :: rest =>
      if 128 <=? c then None
      else if isASCIIAlphaNum c then
        let isUpper := isUpperASCII c in
        let isLower := isLowerASCII c in
        let next tok ph := fast_loop rest tok (isLower || isDigitByte c) isUpper false ph in
        if isUpper && prevIsLowerOrDigit && negb prevIsUnderscore && negb (bool_decide (tok = [])) then
          let '(sensitive, ph) := closeSensitiveToken tok prevPairHead in
          if sensitive then Some true else next [c] ph
        else if isLower && prevIsUpper && Nat.ltb 1 (length tok) then
          let '(sensitive, ph) := closeSensitiveToken (take (length tok - 1) tok) prevPairHead in
          if sensitive then Some true else next (drop (length tok - 1) tok ++ [c]) ph
        else next (tok ++ [c]) prevPairHead
      else if decide (tok = []) then fast_loop rest [] false false true prevPairHead
      else
        let '(sensitive, ph) := closeSensitiveToken tok prevPairHead in
        if sensitive then Some true else fast_loop rest [] false false true ph
  end.

Definition sensitiveKeyASCIIFast (key : gostring) : option bool := fast_loop key [] false false true pairNone.

(** The loop of [isSensitiveNormalizedKeyTokens]; [prev] is the token before. *)
Fixpoint tokens_loop (rest tok : gostring) (prev : option gostring) : bool :=
  let check (k : option gostring → bool) :=
    if decide (tok = []) then k prev
    else if sensitiveToken tok then true
    else match prev with
         | Some p => if matchesPairString p tok then true else k (Some tok)
         | None => k (Some tok)
         end in
  match rest with
  | [] => check (fun _ => false)
  | c :: rest => if c =? cUnder then check (tokens_loop rest []) else tokens_loop rest (tok ++ [c]) prev
  end.

Definition isSensitiveNormalizedKeyTokens (normalized : gostring) : bool := tokens_loop normalized [] None.

Definition isStrongSecretToken (tok : gostring) : bool :=
  if dropped tok then false else in_set tok strongSecretTokens || glued tok.

(** The loop of [isStrongSecretName]. *)
Fixpoint strong_loop (rest tok : gostring) : bool :=
  let found := negb (bool_decide (tok = [])) && isStrongSecretToken tok in
  match rest with
  | [] => found
  | c :: rest => if c =? cUnder then found || strong_loop rest [] else strong_loop rest (tok ++ [c])
  end.
End Tokens.

Abbreviation memo := (gmap gostring bool).

(** ** Normalization *)

Section Normalize.
Context (uc : unicode).

Definition IsLetter (r : Z) : bool := if r <? 128 then isASCIIAlpha r else uLetter uc r.
Definition IsDigit (r : Z) : bool := if r <? 128 then isDigitByte r else uDigit uc r.
Definition IsUpper (r : Z) : bool := if r <? 128 then isUpperASCII r else uUpper uc r.
Definition IsLower (r : Z) : bool := if r <? 128 then isLowerASCII r else uLower uc r.
Definition ToLower (r : Z) : Z := if r <? 128 then lowerASCIIByte r else uToLower uc r.

(** The loop of [normalizeKey], over the builder [b]. *)
Fixpoint normalize_loop (rs : list Z) (b : gostring) (prevIsLowerOrDigit prevIsUpper prevIsUnderscore : bool)
    : gostring :=
  match rs with
  | [] => b
  | r :: rs =>
      if IsLetter r || IsDigit r then
        let isUpper := IsUpper r in
        let nextIsLower := match rs with r' :: _ => IsLower r' | [] => false end in
        let b := if isUpper && negb prevIsUnderscore && (prevIsLowerOrDigit || (prevIsUpper && nextIsLower))
                 then b ++ [cUnder] else b in
        normalize_loop rs (b ++ encodeRune (ToLower r)) (IsLower r || IsDigit r) isUpper false
      else
        let b := if negb prevIsUnderscore then b ++ [cUnder] else b in
        normalize_loop rs b false false true
  end.

(** [strings.Trim(s, "_")]. *)
Definition trimUnder (s : gostring) : gostring :=
  let l := drop (run_len (fun c => c =? cUnder) s) s in
  reverse (drop (run_len (fun c => c =? cUnder) (reverse l)) (reverse l)).

Definition normalizeKey (s : gostring) : gostring := trimUnder (normalize_loop (runes s) [] false false true).

Definition isNonSensitiveNormalizedKey (normalized : gostring) : bool := in_set normalized nonSensitiveKeys.

(** The double loop of [containsFold]. *)
Fixpoint prefixFold (key sub : gostring) : bool :=
  match sub, key with
  | [], _ => true
  | s :: sub, c :: key => (lowerASCIIByte c =? s) && prefixFold key sub
  | _ :: _, [] => false
  end.

Fixpoint containsFold (key sub : gostring) : bool :=
  if prefixFold key sub then true else match key with [] => false | _ :: key => containsFold key sub end.

Definition mightBeNonSensitiveKey (key : gostring) : bool :=
  containsFold key (str "secur") || containsFold key (str "authenticat") || containsFold key (str "credential").

Definition isNonSensitiveKey (key : gostring) : bool :=
  if negb (mightBeNonSensitiveKey key) then false else isNonSensitiveNormalizedKey (normalizeKey key).

Definition isStrongSecretName (re : tokenConfig) (key : gostring) : bool := strong_loop re (normalizeKey key) [].

(** ** The memo *)

Context (iter : memo → list (gostring * bool)).

Definition memo_get (m : memo) (k : gostring) : option bool := m !! k.

Definition memo_evict (m : memo) : memo :=
  foldl (fun m kv => delete kv.1 m) m (take sensitiveKeyCacheEvictBatch (iter m)).

Definition memo_set (m : memo) (k : gostring) (v : bool) : memo :=
  let m := if Nat.leb sensitiveKeyCacheMaxEntries (size m) then memo_evict m else m in
  <[k := v]> m.

(** [isSensitiveKey], and the memo it leaves. *)
Definition isSensitiveKey (re : tokenConfig) (m : memo) (key : gostring) : bool * memo :=
  match sensitiveKeyASCIIFast re key with
  | Some result => (result && negb (isNonSensitiveKey key), m)
  | None =>
      match memo_get m key with
      | Some v => (v, m)
      | None =>
          let normalized := normalizeKey key in
          let result := isSensitiveNormalizedKeyTokens re normalized && negb (isNonSensitiveNormalizedKey normalized) in
          (result, memo_set m key result)
      end
  end.
End Normalize.

(** The runes of Latin-1: enough to run examples. *)
Definition noUnicode : unicode := MkUnicode (fun _ => false) (fun _ => false) (fun _ => false) (fun _ => false) (fun r => r).

Definition sensitive_example (key : String.string) : bool :=
  (isSensitiveKey noUnicode map_to_list (MkTokenConfig [] []) ∅ (str key)).1.

Example sensitive_keys : forallb sensitive_example
  ["apiKey"; "APIKey"; "api-key"; "password2"; "cvv2"; "tokens"; "firstName"; "national_id"; "connectionString";
   "awssecretkey"; "newpassword"; "CCNumber"; "x_dbpwd"]%string = true.
Proof. vm_compute. reflexivity. Qed.

Example ordinary_keys : existsb sensitive_example
  ["monkey"; "wildcard"; "keys"; "accounts"; "international"; "connectionTimeout"; "Content-Security-Policy";
   "securityContext"; "WWW-Authenticate"; "name"]%string = false.
Proof. vm_compute. reflexivity. Qed.

(** ** The two classifiers agree

    [tokens_loop] on a buffer that ends a token stands where the fast loop
    stands. The fast loop notices the end of an acronym one byte late, when it
    sees the lower-case letter: until then its open token is one letter
    longer. *)

Lemma equalsASCIIFold_eq tok lit : equalsASCIIFold tok lit = bool_decide (lowerASCIIByte <$> tok = lit).
Proof.
  revert lit. induction tok as [|c tok IH]; intros [|l lit]; simpl; [done..|]. rewrite IH.
  destruct (Z.eqb_spec (lowerASCIIByte c) l) as [->|Hne]; simpl; [apply bool_decide_ext; naive_solver|].
  symmetry. apply bool_decide_eq_false_2. naive_solver.
Qed.

Lemma pairHeadKind_eq tok : pairHeadKind tok =
  let l := lowerASCIIByte <$> tok in
  if bool_decide (l = str "first") || bool_decide (l = str "last") then pairFirstLastName
  else if bool_decide (l = str "national") then pairNationalID
  else if bool_decide (l = str "connection") then pairConnectionStr
  else pairNone.
Proof.
  unfold pairHeadKind. rewrite !equalsASCIIFold_eq. cbn zeta.
  remember (lowerASCIIByte <$> tok) as l eqn:Hl.
  assert (Hlen : length tok = length l) by (by rewrite Hl, length_fmap). rewrite Hlen. clear.
  repeat (case_bool_decide; simplify_eq/=; try done).
  all: repeat (destruct l as [|? l]; simpl; try done).
Qed.

Lemma pair_agree t tok :
  matchesPairTail (pairHeadKind t) tok = matchesPairString (lowerASCIIByte <$> t) (lowerASCIIByte <$> tok).
Proof.
  rewrite pairHeadKind_eq. unfold matchesPairString. cbn zeta. destruct (_ || _); [by apply equalsASCIIFold_eq|].
  destruct (bool_decide _); [by apply equalsASCIIFold_eq|].
  destruct (bool_decide _); [by apply equalsASCIIFold_eq|done].
Qed.

Section Agreement.
Context (re : tokenConfig) (uc : unicode).

(** What [tokens_loop] does at the end of the token [tok]. *)
Definition token_hit (tok : gostring) (prev : option gostring) : bool :=
  sensitiveToken re tok || match prev with Some p => matchesPairString p tok | None => false end.

Lemma tokens_loop_word c s tok prev : c ≠ cUnder → tokens_loop re (c :: s) tok prev = tokens_loop re s (tok ++ [c]) prev.
Proof. intros Hc. simpl. by rewrite (proj2 (Z.eqb_neq _ _)). Qed.

Lemma tokens_loop_close s tok prev : tok ≠ [] →
  tokens_loop re (cUnder :: s) tok prev = token_hit tok prev || tokens_loop re s [] (Some tok).
Proof.
  intros Ht. simpl. destruct (decide (tok = [])); [done|]. unfold token_hit.
  destruct (sensitiveToken re tok); [done|]. destruct prev as [p|]; [|done]. by destruct (matchesPairString p tok).
Qed.

Lemma tokens_loop_skip s prev : tokens_loop re (cUnder :: s) [] prev = tokens_loop re s [] prev.
Proof. done. Qed.

Lemma tokens_loop_end tok prev : tokens_loop re [] tok prev = negb (bool_decide (tok = [])) && token_hit tok prev.
Proof.
  simpl. unfold token_hit. destruct (decide (tok = [])) as [->|Ht].
  { done. }
  rewrite bool_decide_eq_false_2 by done. simpl. destruct (sensitiveToken re tok); [done|].
  destruct prev as [p|]; [|done]. by destruct (matchesPairString p tok).
Qed.

(** A trailing underscore closes nothing more than the end does. *)
Lemma tokens_loop_snoc s : ∀ tok prev, tokens_loop re (s ++ [cUnder]) tok prev = tokens_loop re s tok prev.
Proof.
  induction s as [|c s IH]; intros tok prev.
  - simpl. destruct (decide (tok = [])); [done|]. destruct (sensitiveToken re tok); [done|].
    destruct prev as [p|]; [|done]. by destruct (matchesPairString p tok).
  - simpl. destruct (c =? cUnder); [|apply IH]. rewrite !IH. done.
Qed.

Lemma tokens_loop_trim s : tokens_loop re (trimUnder s) [] None = tokens_loop re s [] None.
Proof.
  assert (Hl : ∀ t, tokens_loop re (drop (run_len (fun c => c =? cUnder) t) t) [] None = tokens_loop re t [] None).
  { induction t as [|c t IH]; [done|]. simpl run_len. destruct (c =? cUnder) eqn:Hc; [|done].
    simpl drop. rewrite IH. simpl. by rewrite Hc. }
  unfold trimUnder. rewrite <- (Hl s). generalize (drop (run_len (fun c => c =? cUnder) s) s). clear Hl s. intros t.
  rewrite <- (reverse_involutive t) at 3. generalize (reverse t). clear t. intros t.
  induction t as [|c t IH]; [done|]. simpl run_len. destruct (Z.eqb_spec c cUnder) as [->|Hc]; [|done].
  simpl drop. rewrite IH, reverse_cons. symmetry. apply tokens_loop_snoc.
Qed.

Lemma lower_not_under c : isASCIIAlphaNum c = true → lowerASCIIByte c ≠ cUnder.
Proof.
  unfold isASCIIAlphaNum, lowerASCIIByte, between. rewrite !orb_true_iff, !andb_true_iff, !Z.leb_le.
  destruct (_ && _) eqn:E; rewrite ?andb_true_iff, ?Z.leb_le in E; lia.
Qed.

Lemma encode_ascii c : 0 <= c < 128 → encodeRune c = [c].
Proof.
  intros Hc. unfold encodeRune, between. by rewrite (proj2 (Z.leb_le 0 c)), (proj2 (Z.leb_le c 127)) by lia.
Qed.

Lemma lower_range c : 0 <= c < 128 → 0 <= lowerASCIIByte c < 128.
Proof.
  unfold lowerASCIIByte, between. destruct (_ && _) eqn:E; rewrite ?andb_true_iff, ?Z.leb_le in E; lia.
Qed.

(** The normalizing loop on an ASCII letter or digit, and on another ASCII
    character. *)
Lemma normalize_word c rs b pl pu und : 0 <= c < 128 → isASCIIAlphaNum c = true →
  normalize_loop uc (c :: rs) b pl pu und =
  normalize_loop uc rs
    ((if isUpperASCII c && negb und && (pl || (pu && match rs with r :: _ => IsLower uc r | [] => false end))
      then b ++ [cUnder] else b) ++ [lowerASCIIByte c])
    (isLowerASCII c || isDigitByte c) (isUpperASCII c) false.
Proof.
  intros Hc Ha. cbn [normalize_loop]. unfold IsLetter, IsDigit, IsUpper at 1 2, IsLower at 2, ToLower.
  rewrite !(proj2 (Z.ltb_lt c 128)) by lia.
  assert (Hw : isASCIIAlpha c || isDigitByte c = true).
  { revert Ha. unfold isASCIIAlphaNum, isASCIIAlpha, isDigitByte. by rewrite !orb_true_iff. }
  rewrite Hw, encode_ascii by (apply lower_range; lia). done.
Qed.

Lemma normalize_junk c rs b pl pu und : 0 <= c < 128 → isASCIIAlphaNum c = false →
  normalize_loop uc (c :: rs) b pl pu und =
  normalize_loop uc rs (if negb und then b ++ [cUnder] else b) false false true.
Proof.
  intros Hc Ha. cbn [normalize_loop]. unfold IsLetter, IsDigit.
  rewrite !(proj2 (Z.ltb_lt c 128)) by lia.
  assert (Hw : isASCIIAlpha c || isDigitByte c = false).
  { revert Ha. unfold isASCIIAlphaNum, isASCIIAlpha, isDigitByte. by rewrite !orb_false_iff. }
  by rewrite Hw.
Qed.

(** The loop only appends to its buffer. *)
Lemma normalize_buffer rs : ∀ b pl pu und, normalize_loop uc rs b pl pu und = b ++ normalize_loop uc rs [] pl pu und.
Proof.
  induction rs as [|r rs IH]; intros b pl pu und; simpl; [by rewrite app_nil_r|].
  destruct (_ || _); rewrite IH; symmetry; rewrite IH; symmetry; destruct (_ && _) || destruct und;
    simpl; rewrite <- ?app_assoc; done.
Qed.

Abbreviation lower := (fmap lowerASCIIByte).

Lemma lower_snoc (tok : list Z) c : lower tok ++ [lowerASCIIByte c] = lower (tok ++ [c]).
Proof. by rewrite fmap_app. Qed.

(** The pair head that the fast loop remembers is that of the token before. *)
Definition pair_sync (ph : pairHead) (prev : option gostring) : Prop :=
  match prev with
  | None => ph = pairNone
  | Some p => ∃ t, p = lower t ∧ ph = pairHeadKind t
  end.

Lemma close_agree tok ph prev : tok ≠ [] → pair_sync ph prev →
  closeSensitiveToken re tok ph =
    if token_hit (lower tok) prev then (true, pairNone) else (false, pairHeadKind tok).
Proof.
  intros Ht Hs. unfold closeSensitiveToken, token_hit, sensitiveTokenASCII. destruct tok as [|c tok]; [done|].
  destruct (sensitiveToken re _); simpl; [done|]. destruct prev as [p|]; simpl in Hs.
  - destruct Hs as (t & -> & ->). by rewrite pair_agree.
  - by rewrite Hs.
Qed.

Lemma pair_sync_next tok : pair_sync (pairHeadKind tok) (Some (lower tok)).
Proof. by exists tok. Qed.

(** What the flags say of the open token. *)
Definition flags_ok (tok : gostring) (pl pu und : bool) : Prop :=
  und = bool_decide (tok = []) ∧ (if decide (tok = []) then pl = false ∧ pu = false else pl || pu = true).

(** The last letter will turn out to end an acronym. *)
Definition splits_next (rest tok : gostring) (pu : bool) : bool :=
  pu && Nat.ltb 1 (length tok) && match rest with d :: _ => (d <? 128) && isLowerASCII d | [] => false end.

Lemma flags_word tok c : isASCIIAlphaNum c = true →
  flags_ok (tok ++ [c]) (isLowerASCII c || isDigitByte c) (isUpperASCII c) false.
Proof.
  intros Ha. split.
  - rewrite bool_decide_eq_false_2; [done|]. by destruct tok.
  - destruct (decide _) as [He|_]; [by destruct tok|]. revert Ha.
    unfold isASCIIAlphaNum, isLowerASCII, isDigitByte, isUpperASCII.
    destruct (between cLoA c cLoZ), (between cUpA c cUpZ), (between c0 c c9); done.
Qed.

Lemma upper_not_lower c : isUpperASCII c = true → isLowerASCII c = false ∧ isDigitByte c = false.
Proof.
  unfold isUpperASCII, isLowerASCII, isDigitByte, between.
  rewrite andb_true_iff, !andb_false_iff, !Z.leb_gt, !Z.leb_le. lia.
Qed.

Abbreviation norm rest pl pu und := (normalize_loop uc (runes rest) [] pl pu und).

Definition in_step (rest : gostring) : Prop :=
  ∀ tok pl pu und ph prev res, flags_ok tok pl pu und → pair_sync ph prev →
    splits_next rest tok pu = false →
    fast_loop re rest tok pl pu und ph = Some res →
    tokens_loop re (norm rest pl pu und) (lower tok) prev = res.

(** The tokenizers in step, one letter of [tok ++ [u]] having been set apart
    by the normalizing one. *)
Definition one_late (rest : gostring) : Prop :=
  ∀ tok u ph prev res, tok ≠ [] → pair_sync ph prev → isASCIIAlphaNum u = true →
    match rest with d :: _ => d <? 128 = true → isLowerASCII d = true | [] => False end →
    fast_loop re rest (tok ++ [u]) false true false ph = Some res →
    token_hit (lower tok) prev || tokens_loop re (norm rest false true false) [lowerASCIIByte u] (Some (lower tok)) = res.

Lemma late_step d rest : 0 <= d → in_step rest → one_late (d :: rest).
Proof.
  intros Hd IH tok u ph prev res Ht Hs Hu Hlow Hf. cbn [fast_loop] in Hf.
  destruct (Z.leb_spec 128 d) as [|Hd2]; [done|].
  specialize (Hlow (proj2 (Z.ltb_lt _ _) Hd2)).
  assert (Ha : isASCIIAlphaNum d = true) by (revert Hlow; unfold isASCIIAlphaNum, isLowerASCII; by intros ->).
  assert (Hup : isUpperASCII d = false).
  { destruct (isUpperASCII d) eqn:E; [|done]. apply upper_not_lower in E as [E _]. congruence. }
  rewrite Ha, Hup, Hlow in Hf. rewrite length_app in Hf. simpl length in Hf.
  rewrite (proj2 (Nat.ltb_lt 1 _)) in Hf by (destruct tok; simpl; [done|lia]). cbn [andb] in Hf.
  rewrite Nat.add_sub, take_app_length, drop_app_length in Hf.
  rewrite (close_agree tok ph prev) in Hf by done. destruct (token_hit (lower tok) prev) eqn:Hhit; [by simplify_eq|].
  cbn [orb]. rewrite runes_ascii_cons, normalize_word by (done || lia). rewrite Hup, normalize_buffer. cbn [andb app].
  rewrite tokens_loop_word by (by apply lower_not_under).
  pose proof (flags_word [u] d Ha) as Hfl. rewrite Hup, Hlow in Hfl. rewrite Hlow.
  apply (IH [u; d] _ _ _ _ (Some (lower tok)) res Hfl (pair_sync_next tok)); [done|done].
Qed.

Lemma agree_upper c rest tok pl pu und ph prev res : isUpperASCII c = true → 0 <= c < 128 →
  Forall is_byte rest → in_step rest → one_late rest → flags_ok tok pl pu und → pair_sync ph prev →
  fast_loop re (c :: rest) tok pl pu und ph = Some res →
  tokens_loop re (norm (c :: rest) pl pu und) (lower tok) prev = res.
Proof.
  intros Hup Hc Hb IH IHl [Hund Hfl] Hs Hf. destruct (upper_not_lower c Hup) as [Hlow Hdig].
  assert (Ha : isASCIIAlphaNum c = true).
  { unfold isASCIIAlphaNum. unfold isUpperASCII in Hup. by rewrite Hup, orb_true_r. }
  pose proof (lower_not_under c Ha) as Hnu.
  cbn [fast_loop] in Hf. rewrite (proj2 (Z.leb_gt 128 c)), Ha, Hup, Hlow, Hdig in Hf by lia.
  rewrite runes_ascii_cons, normalize_word, Hup, Hlow, Hdig by (done || lia).
  pose proof (flags_word tok c Ha) as Hfl1. pose proof (flags_word [] c Ha) as Hfl2.
  rewrite Hup, Hlow, Hdig in Hfl1, Hfl2. cbn [andb orb app] in *. rewrite normalize_buffer.
  destruct (decide (tok = [])) as [->|Ht].
  - destruct Hfl as [-> ->]. rewrite bool_decide_eq_true_2 in Hund by done. subst und. cbn [negb andb app] in Hf |- *.
    rewrite tokens_loop_word by done. by apply (IH [c] _ _ _ ph).
  - rewrite (bool_decide_eq_false_2 _ Ht) in Hf, Hund. subst und. cbn [negb andb] in *.
    destruct pl; cbn [orb andb] in *.
    + rewrite (close_agree tok ph prev) in Hf by done.
      rewrite <- app_assoc. cbn [app]. rewrite tokens_loop_close by (by destruct tok).
      destruct (token_hit (lower tok) prev); [by simplify_eq|]. cbn [orb].
      rewrite tokens_loop_word by done. apply (IH [c] _ _ _ (pairHeadKind tok)); [done| |done|done].
      apply pair_sync_next.
    + subst pu. cbn [andb] in *. destruct rest as [|d rest'].
      * cbn [runes runes_loop length app]. rewrite tokens_loop_word by done.
        rewrite lower_snoc. apply (IH (tok ++ [c]) _ _ _ ph); [done..| |done].
        unfold splits_next. by rewrite andb_false_r.
      * inversion_clear Hb as [|?? Hd Hb'].
        destruct (match runes (d :: rest') with r :: _ => IsLower uc r | [] => false end) eqn:Hnext.
        -- rewrite <- app_assoc. cbn [app]. rewrite tokens_loop_close by (by destruct tok).
           rewrite tokens_loop_word by done.
           apply (IHl tok c ph prev); [done..| |done].
           intros Hlt. pose proof Hlt as Hlt'%Z.ltb_lt. revert Hnext. rewrite runes_ascii_cons by done.
           unfold IsLower. by rewrite Hlt.
        -- cbn [app]. rewrite tokens_loop_word by done.
           rewrite lower_snoc. apply (IH (tok ++ [c]) _ _ _ ph); [done..| |done].
           unfold splits_next. destruct (Z.ltb_spec d 128) as [Hlt|]; [|by rewrite andb_false_r].
           revert Hnext. rewrite runes_ascii_cons by done. unfold IsLower.
           rewrite (proj2 (Z.ltb_lt d 128)) by done. intros ->. by rewrite andb_false_r.
Qed.

Lemma agree_word c rest tok pl pu und ph prev res : isASCIIAlphaNum c = true → isUpperASCII c = false →
  0 <= c < 128 → in_step rest → flags_ok tok pl pu und → pair_sync ph prev →
  splits_next (c :: rest) tok pu = false →
  fast_loop re (c :: rest) tok pl pu und ph = Some res →
  tokens_loop re (norm (c :: rest) pl pu und) (lower tok) prev = res.
Proof.
  intros Ha Hup Hc IH Hfl Hs Hsp Hf. unfold splits_next in Hsp.
  rewrite (proj2 (Z.ltb_lt c 128)), andb_true_l in Hsp by lia.
  cbn [fast_loop] in Hf. rewrite (proj2 (Z.leb_gt 128 c)), Ha, Hup in Hf by lia. cbn [andb] in Hf.
  rewrite (andb_comm (isLowerASCII c) pu), <- andb_assoc, (andb_comm (isLowerASCII c)), andb_assoc, Hsp in Hf.
  rewrite runes_ascii_cons, normalize_word, Hup by (done || lia). rewrite normalize_buffer. cbn [andb app].
  rewrite tokens_loop_word by (by apply lower_not_under).
  rewrite lower_snoc. pose proof (flags_word tok c Ha) as Hfl1. rewrite Hup in Hfl1.
  by apply (IH (tok ++ [c]) _ _ _ ph).
Qed.

Lemma agree_junk c rest tok pl pu und ph prev res : isASCIIAlphaNum c = false →
  0 <= c < 128 → in_step rest → flags_ok tok pl pu und → pair_sync ph prev →
  fast_loop re (c :: rest) tok pl pu und ph = Some res →
  tokens_loop re (norm (c :: rest) pl pu und) (lower tok) prev = res.
Proof.
  intros Ha Hc IH [Hund Hfl] Hs Hf. cbn [fast_loop] in Hf. rewrite (proj2 (Z.leb_gt 128 c)), Ha in Hf by lia.
  rewrite runes_ascii_cons, normalize_junk by (done || lia). rewrite Hund.
  assert (Hfl0 : flags_ok [] false false true) by (by split).
  destruct (decide (tok = [])) as [->|Ht].
  - cbn. by apply (IH [] _ _ _ ph).
  - rewrite (bool_decide_eq_false_2 _ Ht). cbn [negb app]. rewrite normalize_buffer. cbn [app].
    rewrite (close_agree tok ph prev) in Hf by done. rewrite tokens_loop_close by (by destruct tok).
    destruct (token_hit (lower tok) prev); [by simplify_eq|]. cbn [orb].
    apply (IH [] _ _ _ (pairHeadKind tok)); [done|apply pair_sync_next|done|done].
Qed.

Lemma fast_agree rest : Forall is_byte rest → in_step rest ∧ one_late rest.
Proof.
  induction 1 as [|c rest Hc Hb [IH IHl]].
  { split; [|by intros ? **]. intros tok pl pu und ph prev res _ Hs _ Hf. cbn [fast_loop] in Hf.
    cbn [runes runes_loop length normalize_loop]. rewrite tokens_loop_end.
    destruct (decide (tok = [])) as [->|Ht]; [by simplify_eq|]. rewrite (close_agree tok ph prev) in Hf by done.
    rewrite bool_decide_eq_false_2 by (by destruct tok). cbn [negb andb].
    destruct (token_hit _ _); by simplify_eq. }
  unfold is_byte in Hc. split; [|apply late_step; [lia|done]].
  intros tok pl pu und ph prev res Hfl Hs Hsp Hf.
  destruct (Z.leb_spec 128 c) as [Hge|Hlt].
  { cbn [fast_loop] in Hf. rewrite (proj2 (Z.leb_le _ _)) in Hf by done. done. }
  destruct (isASCIIAlphaNum c) eqn:Ha; [|eapply agree_junk; eauto; lia].
  destruct (isUpperASCII c) eqn:Hup; [eapply agree_upper; eauto; lia|eapply agree_word; eauto; lia].
Qed.

(** The two classifiers agree on every key that the fast one decides. *)
Lemma fast_correct key b : Forall is_byte key → sensitiveKeyASCIIFast re key = Some b →
  isSensitiveNormalizedKeyTokens re (normalizeKey uc key) = b.
Proof.
  intros Hb Hf. unfold isSensitiveNormalizedKeyTokens, normalizeKey. rewrite tokens_loop_trim.
  destruct (fast_agree key Hb) as [Hin _]. apply (Hin [] false false true pairNone None); done.
Qed.
End Agreement.

(** ** The prescreen *)

Fixpoint infix (sub l : gostring) : bool :=
  is_prefix sub l || match l with [] => false | _ :: l => infix sub l end.

Lemma infix_app sub l1 l2 l3 : infix sub l2 = true → infix sub (l1 ++ l2 ++ l3) = true.
Proof.
  intros Hi. induction l1 as [|c l1 IH]; simpl; [|by rewrite IH, orb_true_r].
  induction l2 as [|c l2 IH]; simpl in *.
  - destruct sub; [by destruct l3|done].
  - apply orb_true_iff in Hi as [Hp|Hi]; [|by rewrite IH, orb_true_r].
    apply is_prefix_spec in Hp as [r Hr]. apply orb_true_iff. left.
    apply is_prefix_spec. exists (r ++ l3). by rewrite app_comm_cons, Hr, <- app_assoc.
Qed.

Lemma trimUnder_split s : ∃ l1 l3, s = l1 ++ trimUnder s ++ l3.
Proof.
  unfold trimUnder. set (n := run_len _ s). set (l := drop n s). set (m := run_len _ _).
  exists (take n s), (reverse (take m (reverse l))). rewrite <- reverse_app, take_drop, reverse_involutive.
  symmetry. apply take_drop.
Qed.

Lemma infix_skip s sub x l : x ≠ s → infix (s :: sub) (x :: l) = infix (s :: sub) l.
Proof. intros Hx. simpl. by rewrite (proj2 (Z.eqb_neq _ _)). Qed.

Lemma infix_skip_all s sub xs l : Forall (fun x => x ≠ s) xs → infix (s :: sub) (xs ++ l) = infix (s :: sub) l.
Proof. induction 1 as [|x xs Hx _ IH]; [done|]. cbn [app]. by rewrite infix_skip, IH. Qed.

Lemma encodeRune_high r : 128 <= r → Forall (fun x => 128 <= x) (encodeRune r) ∧ encodeRune r ≠ [].
Proof.
  intros Hr. unfold encodeRune, between. rewrite (proj2 (Z.leb_gt r 127)), andb_false_r by lia.
  assert (∀ y, 0 <= y mod 64) by (intros; apply Z.mod_pos_bound; lia).
  repeat match goal with
    | |- context [if ?c then _ else _] => destruct c eqn:?; rewrite ?orb_true_iff, ?andb_true_iff, ?Z.leb_le in *
    end; (split; [|done]); repeat constructor; try lia.
  all: try (apply Z.le_trans with (192 + 0); [lia|apply Zplus_le_compat_l, Z.div_pos; lia]).
  all: try (apply Z.le_trans with (224 + 0); [lia|apply Zplus_le_compat_l, Z.div_pos; lia]).
  all: try (apply Z.le_trans with (240 + 0); [lia|apply Zplus_le_compat_l, Z.div_pos; lia]).
  all: match goal with |- _ <= 128 + ?y mod 64 => pose proof (Z.mod_pos_bound y 64 ltac:(lia)); lia end.
Qed.

Section Prescreen.
Context (uc : unicode).

(** The only letters outside ASCII whose lowercase is in ASCII are the dotted
    capital I, U+0130, and the Kelvin sign, U+212A: so Go's tables have it. *)
Definition two_fall : Prop := ∀ r, 128 <= r → r ≠ 304 → r ≠ 8490 → 128 <= uToLower uc r.

(** No letter of this key lowers into ASCII from outside it. *)
Definition lowers_apart (key : gostring) : Prop :=
  Forall (fun r => 128 <= r → 128 <= uToLower uc r) (runes key).

Lemma two_fall_apart key : two_fall → 304 ∉ runes key → 8490 ∉ runes key → lowers_apart key.
Proof. intros Hlaw H1 H2. apply Forall_forall. intros r Hr Hge. apply Hlaw; [done|by intros ->..]. Qed.

Definition is_lower (c : Z) : Prop := 97 <= c <= 122.

Lemma lowers_apart_tail c key : 0 <= c < 128 → lowers_apart (c :: key) → lowers_apart key.
Proof. intros Hc. unfold lowers_apart. rewrite runes_ascii_cons by lia. by intros [_ H]%Forall_cons. Qed.

Abbreviation norm key pl pu und := (normalize_loop uc (runes key) [] pl pu und).

(** A rune outside ASCII yields nothing but an underscore and high bytes. *)
Lemma norm_high c key pl pu und : 128 <= c → lowers_apart (c :: key) →
  ∃ xs pl' pu' und' n, (0 < n)%nat ∧ Forall (fun x => ¬ is_lower x) xs ∧ (und = false → xs ≠ []) ∧
    norm (c :: key) pl pu und = xs ++ norm (drop n (c :: key)) pl' pu' und' ∧
    lowers_apart (drop n (c :: key)).
Proof.
  unfold lowers_apart at 1. intros Hc Hla. rewrite runes_cons in *. pose proof (decodeRune_width (c :: key) ltac:(done)) as Hw.
  destruct (decodeRune (c :: key)) as [r n] eqn:Hd. cbn [fst snd] in *.
  destruct (decodeRune_nonascii _ _ _ _ Hc Hd) as [Hr _]. cbn [normalize_loop]. unfold ToLower.
  apply Forall_cons in Hla as [Hlow Hla].
  rewrite (proj2 (Z.ltb_ge r 128)) by done. destruct (encodeRune_high _ (Hlow Hr)) as [Henc Hne].
  assert (Henc' : Forall (fun x => ¬ is_lower x) (encodeRune (uToLower uc r))).
  { eapply Forall_impl; [exact Henc|]. unfold is_lower. intros; simpl in *; lia. }
  destruct (_ || _).
  - rewrite normalize_buffer. eexists _, _, _, _, n. split; [lia|]. split; [|split; [|done]].
    + apply Forall_app. split; [|done]. destruct (_ && _); repeat constructor. unfold is_lower. lia.
    + intros _ He%app_eq_nil. naive_solver.
  - rewrite normalize_buffer. eexists _, _, _, _, n. split; [lia|]. split; [|split; [|done]].
    + destruct und; repeat constructor. unfold is_lower. lia.
    + by intros ->.
Qed.

(** Inside a word nothing comes between two letters. *)
Lemma prefix_kept sub : ∀ key pl pu, Forall is_byte key → lowers_apart key → Forall is_lower sub →
  is_prefix sub (norm key pl pu false) = true → prefixFold key sub = true.
Proof.
  induction sub as [|s sub IH]; intros key pl pu Hb Hla Hs Hp; [by destruct key|].
  inversion_clear Hs as [|?? Hs0 Hs']. destruct key as [|c key]; [done|].
  inversion_clear Hb as [|?? Hc Hb']. unfold is_byte in Hc.
  destruct (Z.lt_ge_cases c 128) as [Hlt|Hge].
  - rewrite runes_ascii_cons in Hp by done. unfold is_lower in Hs0.
    destruct (isASCIIAlphaNum c) eqn:Ha.
    + rewrite normalize_word, normalize_buffer in Hp by (done || lia). destruct (_ && _).
      * cbn [app is_prefix] in Hp. rewrite (proj2 (Z.eqb_neq cUnder s)) in Hp by lia. done.
      * cbn [app is_prefix] in Hp. apply andb_true_iff in Hp as [Hce Hp]. cbn [prefixFold]. rewrite Hce.
        eapply IH; [done|apply (lowers_apart_tail c); [lia|done]|done|done].
    + rewrite normalize_junk, normalize_buffer in Hp by (done || lia). cbn [negb app is_prefix] in Hp.
      rewrite (proj2 (Z.eqb_neq cUnder s)) in Hp by lia. done.
  - destruct (norm_high c key pl pu false Hge Hla) as (xs & pl' & pu' & und' & n & _ & Hxs & Hne & Heq & _).
    rewrite Heq in Hp. destruct xs as [|x xs]; [by specialize (Hne eq_refl)|].
    inversion_clear Hxs as [|?? Hx _]. cbn [app is_prefix] in Hp. apply andb_true_iff in Hp as [->%Z.eqb_eq _]. done.
Qed.

Lemma containsFold_tail c key sub : containsFold key sub = true → containsFold (c :: key) sub = true.
Proof. intros H. cbn [containsFold]. rewrite H. by destruct (prefixFold (c :: key) sub). Qed.

Lemma containsFold_drop n key sub : containsFold (drop n key) sub = true → containsFold key sub = true.
Proof.
  revert key. induction n as [|n IH]; intros key H; [done|]. destruct key as [|c key]; [done|].
  apply containsFold_tail, IH, H.
Qed.

Lemma containsFold_here key sub : prefixFold key sub = true → containsFold key sub = true.
Proof. intros H. destruct key; cbn [containsFold]; by rewrite H. Qed.

Lemma infix_kept s sub n : Forall is_lower (s :: sub) → ∀ key pl pu und, (length key <= n)%nat →
  Forall is_byte key → lowers_apart key →
  infix (s :: sub) (norm key pl pu und) = true → containsFold key (s :: sub) = true.
Proof.
  intros Hs. inversion Hs as [|?? Hs0 Hs']; subst. unfold is_lower in Hs0.
  induction n as [|n IH]; intros key pl pu und Hn Hb Hla Hi; (destruct key as [|c key]; [done|simpl in Hn]); [lia|].
  inversion_clear Hb as [|?? Hc Hb']. unfold is_byte in Hc.
  destruct (Z.lt_ge_cases c 128) as [Hlt|Hge].
  - pose proof (lowers_apart_tail c key ltac:(lia) Hla) as Hla'.
    rewrite runes_ascii_cons in Hi by done. destruct (isASCIIAlphaNum c) eqn:Ha.
    + rewrite normalize_word, normalize_buffer, <- app_assoc, infix_skip_all in Hi
        by (done || lia || (destruct (_ && _); repeat constructor; lia)).
      cbn [app infix] in Hi. apply orb_true_iff in Hi as [Hp|Hi].
      * cbn [is_prefix] in Hp. apply andb_true_iff in Hp as [Hce Hp]. apply containsFold_here.
        cbn [prefixFold]. rewrite Hce. by eapply prefix_kept.
      * apply containsFold_tail. eapply IH; [lia|done..].
    + rewrite normalize_junk, normalize_buffer, infix_skip_all in Hi
        by (done || lia || (destruct und; repeat constructor; lia)).
      apply containsFold_tail. eapply IH; [lia|done..].
  - destruct (norm_high c key pl pu und Hge Hla) as (xs & pl' & pu' & und' & k & Hk & Hxs & _ & Heq & Hla').
    rewrite Heq, infix_skip_all in Hi
      by (eapply Forall_impl; [exact Hxs|]; intros x Hx ->; by apply Hx).
    apply (containsFold_drop k). eapply IH; [| | |exact Hi].
    + rewrite length_drop. simpl. lia.
    + apply Forall_drop. by constructor.
    + exact Hla'.
Qed.

Lemma allowlist_screened e : e ∈ nonSensitiveKeys →
  infix (str "secur") e || infix (str "authenticat") e || infix (str "credential") e = true.
Proof.
  intros He. assert (Hall : forallb (fun e => infix (str "secur") e || infix (str "authenticat") e ||
    infix (str "credential") e) nonSensitiveKeys = true) by (vm_compute; reflexivity).
  rewrite forallb_forall in Hall. apply Hall. by apply list_elem_of_In.
Qed.

Lemma isNonSensitiveKey_eq key : Forall is_byte key → lowers_apart key →
  isNonSensitiveKey uc key = isNonSensitiveNormalizedKey (normalizeKey uc key).
Proof.
  intros Hb Hla. unfold isNonSensitiveKey. destruct (mightBeNonSensitiveKey key) eqn:Hm; [done|].
  simpl. symmetry. unfold isNonSensitiveNormalizedKey, in_set. apply bool_decide_eq_false_2.
  intros Hin%allowlist_screened. destruct (trimUnder_split (norm key false false true)) as (l1 & l3 & Heq).
  assert (Hk : ∀ w, Forall is_lower w → w ≠ [] → infix w (normalizeKey uc key) = true → containsFold key w = true).
  { intros [|s sub] Hw Hne Hi; [done|]. eapply infix_kept; [done|reflexivity|done|done|].
    rewrite Heq. by apply infix_app. }
  revert Hm. unfold mightBeNonSensitiveKey. rewrite !orb_true_iff in Hin. rewrite !orb_false_iff.
  intros [[H1 H2] H3]. unfold is_lower in Hk.
  destruct Hin as [[Hi|Hi]|Hi]; apply Hk in Hi; try congruence; try done; repeat constructor; done.
Qed.
End Prescreen.

(** ** The classification *)

Section Classification.
Context (uc : unicode) (re : tokenConfig) (iter : memo → list (gostring * bool)).

(** What a key is worth, memo and fast path aside. *)
Definition classify (key : gostring) : bool :=
  isSensitiveNormalizedKeyTokens re (normalizeKey uc key) && negb (isNonSensitiveNormalizedKey (normalizeKey uc key)).

Definition memo_sound (m : memo) : Prop := ∀ k v, m !! k = Some v → v = classify k.

Lemma memo_evict_sound m : memo_sound m → memo_sound (memo_evict iter m).
Proof.
  unfold memo_evict. generalize (take sensitiveKeyCacheEvictBatch (iter m)). intros l. revert m.
  induction l as [|[k v] l IH]; intros m Hm; [done|]. simpl. apply IH.
  intros k' v'. rewrite lookup_delete_Some. intros [_ Hk]. by apply Hm.
Qed.

Lemma delete_all_size (l : list (gostring * bool)) : ∀ m : memo, NoDup l.*1 → (∀ k, k ∈ l.*1 → is_Some (m !! k)) →
  (size (foldl (fun m kv => delete kv.1 m) m l) + length l = size m)%nat.
Proof.
  induction l as [|[k v] l IH]; intros m Hnd Hin; simpl; [lia|].
  apply NoDup_cons in Hnd as [Hni Hnd]. cbn in Hni, Hnd.
  destruct (Hin k) as [w Hw]; [left|].
  assert (Hsz : size m = S (size (delete k m))).
  { rewrite <- (insert_delete_id m k w Hw) at 1. rewrite map_size_insert_None; [done|apply lookup_delete_eq]. }
  rewrite Hsz, <- (IH (delete k m)); [lia|done|].
  intros k' Hk'. rewrite lookup_delete_ne; [apply Hin; by right|]. by intros ->.
Qed.

Lemma memo_set_sound m key : memo_sound m → memo_sound (memo_set iter m key (classify key)).
Proof.
  intros Hm. unfold memo_set. intros k v. rewrite lookup_insert_Some. intros [[<- <-]|[_ Hk]]; [done|].
  revert Hk. destruct (Nat.leb _ _); [apply memo_evict_sound|]; done || apply Hm.
Qed.

Lemma memo_set_size m k v : (∀ m, iter m ≡ₚ map_to_list m) → (size m <= sensitiveKeyCacheMaxEntries)%nat →
  (size (memo_set iter m k v) <= sensitiveKeyCacheMaxEntries)%nat.
Proof.
  intros Hiter Hm. unfold memo_set.
  assert (Hins : ∀ m' : memo, (size (<[k:=v]> m') <= S (size m'))%nat).
  { intros m'. rewrite map_size_insert. destruct (m' !! k); simpl; lia. }
  destruct (Nat.leb_spec sensitiveKeyCacheMaxEntries (size m)) as [Hge|Hlt].
  - assert (Hev : (size (memo_evict iter m) + length (take sensitiveKeyCacheEvictBatch (iter m)) = size m)%nat).
    { apply delete_all_size.
      - rewrite fmap_take. apply (sublist_NoDup _ (iter m).*1); [|apply sublist_take].
        rewrite Hiter. apply NoDup_fst_map_to_list.
      - intros k' Hk'. rewrite fmap_take in Hk'. apply elem_of_take in Hk' as (i & Hi & _).
        apply list_elem_of_lookup_2 in Hi. rewrite Hiter in Hi. apply list_elem_of_fmap in Hi as ([k1 v1] & -> & Hi).
        apply elem_of_map_to_list in Hi. by exists v1. }
    rewrite length_take, (Permutation_length (Hiter m)), length_map_to_list in Hev.
    specialize (Hins (memo_evict iter m)). unfold sensitiveKeyCacheMaxEntries, sensitiveKeyCacheEvictBatch in *. lia.
  - specialize (Hins m). lia.
Qed.

(** The answer for a key is that of an empty memo. *)
Lemma memo_transparent m key iter' : memo_sound m →
  (isSensitiveKey uc iter re m key).1 = (isSensitiveKey uc iter' re ∅ key).1.
Proof.
  intros Hm. unfold isSensitiveKey, memo_get. destruct (sensitiveKeyASCIIFast re key); [done|].
  rewrite lookup_empty. destruct (m !! key) as [v|] eqn:Hk; [by apply Hm|done].
Qed.

(** The prescreen only ever makes a key more sensitive. *)
Lemma prescreen_errs_sensitive key : isNonSensitiveKey uc key = true →
  isNonSensitiveNormalizedKey (normalizeKey uc key) = true.
Proof. unfold isNonSensitiveKey. by destruct (mightBeNonSensitiveKey key). Qed.

(** C30. Key classification, whichever path computes it. From any memo whose
    entries are right, [isSensitiveKey] leaves a memo whose entries are right
    and within its bound, whatever it evicts. No path misses a key that
    normalizing and matching finds sensitive. A key the ASCII tokenizer does
    not settle, which is answered from the memo or put there, gets exactly
    what normalizing and matching would answer; so does any other key, though
    the tokenizer finds the end of an acronym one byte later and the allowlist
    is prescreened byte by byte, unless it holds U+0130 or U+212A, the two
    letters outside ASCII whose lowercase is an ASCII letter, for which the
    prescreen can keep an allowlisted key sensitive ([prescreen_limit]). *)
Theorem isSensitiveKey_correct m key r m' :
  Forall is_byte key → (∀ m, iter m ≡ₚ map_to_list m) →
  memo_sound m → (size m <= sensitiveKeyCacheMaxEntries)%nat →
  isSensitiveKey uc iter re m key = (r, m') →
  (memo_sound m' ∧ (size m' <= sensitiveKeyCacheMaxEntries)%nat) ∧
  (classify key = true → r = true) ∧
  (sensitiveKeyASCIIFast re key = None → r = classify key) ∧
  (two_fall uc → 304 ∉ runes key → 8490 ∉ runes key → r = classify key).
Proof.
  intros Hb Hiter Hm Hsz. unfold isSensitiveKey.
  destruct (sensitiveKeyASCIIFast re key) as [b|] eqn:Hf.
  - intros [= <- <-]. unfold classify. rewrite <- (fast_correct re uc key b Hb Hf).
    split; [done|]. split; [|split; [done|]].
    + rewrite !andb_true_iff, !negb_true_iff. intros [-> Hn]. split; [done|].
      destruct (isNonSensitiveKey uc key) eqn:He; [|done]. apply prescreen_errs_sensitive in He. congruence.
    + intros Hlaw H1 H2. by rewrite isNonSensitiveKey_eq by (done || by apply two_fall_apart).
  - unfold memo_get. destruct (m !! key) as [v|] eqn:Hk; intros [= <- <-].
    + rewrite <- (Hm _ _ Hk). done.
    + split; [|done]. split; [by apply memo_set_sound|by apply memo_set_size].
Qed.
End Classification.

(** Some rows of Go's tables: the two letters that fall into ASCII, and the
    capital E with an acute accent. *)
Definition someTables : unicode :=
  let upper r := (r =? 304) || (r =? 8490) || (r =? 201) in
  MkUnicode (fun r => upper r || (r =? 233)) (fun _ => false) upper (fun r => r =? 233)
    (fun r => if r =? 304 then 105 else if r =? 8490 then 107 else if r =? 201 then 233 else r).

Lemma isSensitiveKey_correct_witness :
  let key := str "CL" ++ [195; 137] ++ str "_DBPwd" in
  let re := MkTokenConfig [str "badge"] [str "pin"] in
  let res := isSensitiveKey someTables map_to_list re ∅ key in
  sensitiveKeyASCIIFast re key = None ∧ res.2 = {[ key := true ]} ∧
  (memo_sound someTables re res.2 ∧ (size res.2 <= sensitiveKeyCacheMaxEntries)%nat) ∧
  (classify someTables re key = true → res.1 = true) ∧
  (sensitiveKeyASCIIFast re key = None → res.1 = classify someTables re key) ∧
  (two_fall someTables → 304 ∉ runes key → 8490 ∉ runes key → res.1 = classify someTables re key) ∧
  two_fall someTables ∧ 304 ∉ runes key ∧ 8490 ∉ runes key.
Proof.
  intros key re res. split; [vm_compute; reflexivity|]. split; [vm_compute; reflexivity|].
  assert (Hc : (memo_sound someTables re res.2 ∧ (size res.2 <= sensitiveKeyCacheMaxEntries)%nat) ∧
    (classify someTables re key = true → res.1 = true) ∧
    (sensitiveKeyASCIIFast re key = None → res.1 = classify someTables re key) ∧
    (two_fall someTables → 304 ∉ runes key → 8490 ∉ runes key → res.1 = classify someTables re key)).
  { apply (isSensitiveKey_correct someTables re map_to_list ∅ key).
    - repeat (constructor; [unfold is_byte; vm_compute; split; congruence|]). constructor.
    - intros m. reflexivity.
    - intros k v Hk. exfalso. by rewrite lookup_empty in Hk.
    - vm_compute. lia.
    - apply surjective_pairing. }
  destruct Hc as (H1 & H2 & H3 & H4). split; [exact H1|]. split; [exact H2|]. split; [exact H3|]. split; [exact H4|].
  split; [|split; apply (bool_decide_unpack _); vm_compute; exact I].
  intros r Hr Hi Hk. unfold someTables. cbn [uToLower]. rewrite (proj2 (Z.eqb_neq r 304) Hi), (proj2 (Z.eqb_neq r 8490) Hk).
  destruct (r =? 201); [discriminate|exact Hr].
Defined.

(** The letter U+0130 lowers to [i]: an allowlisted header spelled with it
    escapes the byte-wise prescreen when an extra token has matched first, and
    stays sensitive. *)
Example prescreen_limit :
  let key := str "ACCESS-CONTROL-ALLOW-CREDENT" ++ [196; 176] ++ str "ALS" in
  let re := MkTokenConfig [str "access"] [] in
  mightBeNonSensitiveKey key = false ∧ isNonSensitiveNormalizedKey (normalizeKey someTables key) = true ∧
  (isSensitiveKey someTables map_to_list re ∅ key).1 = true ∧ classify someTables re key = false.
Proof. vm_compute. done. Qed.
