(* ===== verification/RedactRender.v ===== *)
(** * [pkg/redact]: what a redaction may do to a text

    [renders marker src out]: [out] is [src] with some of its spans replaced by
    the marker, bare or quoted. [rule_ok]: a rule tried at an index does not
    panic and, where it matches, consumes a byte or more and renders what it
    consumes. *)

From stdpp Require Import base option list.
From Stdlib Require Import String.
From S2P Require Import Prelude GoString RedactBytes.

#[local] Open Scope Z_scope.

(** [src[i:j]], within the source. *)
Definition span (src : gostring) (i j : nat) : gostring := take (j - i) (drop i src).

Lemma cut_span src i j : (i <= j <= length src)%nat → cut src i j = Some (span src i j).
Proof. apply cut_Some. Qed.

Lemma span_app src i m j : (i <= m <= j)%nat → span src i j = span src i m ++ span src m j.
Proof.
  intros H. unfold span. replace (j - i)%nat with ((m - i) + (j - m))%nat by lia.
  rewrite <- take_take_drop, drop_drop. by replace (i + (m - i))%nat with m by lia.
Qed.

Lemma span_nil src i j : (j <= i)%nat → span src i j = [].
Proof. intros H. unfold span. by replace (j - i)%nat with 0%nat by lia. Qed.

Lemma span_one src i c : src !! i = Some c → span src i (S i) = [c].
Proof. intros H. unfold span. rewrite (drop_S _ _ _ H). by replace (S i - i)%nat with 1%nat by lia. Qed.

Lemma span_cons src i j c : src !! i = Some c → (i < j)%nat → span src i j = c :: span src (S i) j.
Proof. intros Hc Hij. rewrite (span_app src i (S i) j) by lia. by rewrite (span_one _ _ _ Hc). Qed.

Lemma span_all src j : (length src <= j)%nat → span src 0 j = src.
Proof. intros H. unfold span. rewrite drop_0. apply take_ge. lia. Qed.

Section Renders.
Context (mk : gostring).

Definition hides (w : gostring) : Prop :=
  w = mk ∨ w = [cQuote] ++ mk ++ [cQuote] ∨ w = [cBackslash; cQuote] ++ mk ++ [cBackslash; cQuote].

Inductive renders : gostring → gostring → Prop :=
| renders_nil : renders [] []
| renders_keep c s t : renders s t → renders (c :: s) (c :: t)
| renders_hide h w s t : hides w → renders s t → renders (h ++ s) (w ++ t).

Lemma renders_refl s : renders s s.
Proof. induction s; by constructor. Qed.

Lemma renders_app s1 t1 s2 t2 : renders s1 t1 → renders s2 t2 → renders (s1 ++ s2) (t1 ++ t2).
Proof.
  intros H1 H2. induction H1 as [|c s t _ IH|h w s t Hw _ IH]; [done|by constructor|].
  rewrite <- !app_assoc. by constructor.
Qed.

Lemma renders_hidden h w : hides w → renders h w.
Proof. intros Hw. rewrite <- (app_nil_r h), <- (app_nil_r w). apply renders_hide; [done|constructor]. Qed.

Lemma renders_marker h : renders h mk.
Proof. apply renders_hidden. by left. Qed.

(** Kept, then hidden. *)
Lemma renders_kept src i m j w : (i <= m <= j)%nat → hides w → renders (span src i j) (span src i m ++ w).
Proof.
  intros H Hw. rewrite (span_app src i m j) by lia.
  apply renders_app; [apply renders_refl|by apply renders_hidden].
Qed.

Definition rule_ok (src : gostring) (i : nat) (r : option (option (nat * gostring))) : Prop :=
  ∃ o, r = Some o ∧ ∀ next out, o = Some (next, out) → (i < next)%nat ∧ renders (span src i next) out.

Lemma rule_none src i : rule_ok src i (Some None).
Proof. by exists None. Qed.

Lemma rule_some src i next out : (i < next)%nat → renders (span src i next) out →
  rule_ok src i (Some (Some (next, out))).
Proof. intros H1 H2. eexists. split; [done|]. by intros ? ? [= <- <-]. Qed.

(** Sound, or a panic on a source that ends in a backslash. *)
Definition rule_may (src : gostring) (i : nat) (r : option (option (nat * gostring))) : Prop :=
  rule_ok src i r ∨ (last src = Some cBackslash ∧ r = None).

Lemma rule_may_none src i : rule_may src i (Some None).
Proof. left. apply rule_none. Qed.
End Renders.

#[export] Hint Resolve rule_none rule_may_none renders_refl renders_marker : redact.

(** The bounds of the scans of the goal and of the bytes that were tested. *)
Ltac scan_facts :=
  unfold skipInlineSpaces, scanBase64URL, scanDigits, scanToLineFeed in *;
  repeat match goal with
    | H : negb _ = false |- _ => apply negb_false_iff in H
    | H : _ && _ = true |- _ => apply andb_true_iff in H as [? ?]
    | H : byteIs ?s ?i ?p = true |- _ =>
        lazymatch goal with
        | _ : (i < length s)%nat |- _ => fail
        | _ => pose proof (byteIs_lt _ _ _ H)
        end
    end;
  repeat match goal with
    | |- context [scan ?p ?s ?i] =>
        lazymatch goal with
        | _ : (i <= scan p s i)%nat |- _ => fail
        | _ => pose proof (scan_ge p s i); pose proof (scan_le p s i)
        end
    | H : context [scan ?p ?s ?i] |- _ =>
        lazymatch goal with
        | _ : (i <= scan p s i)%nat |- _ => fail
        | _ => pose proof (scan_ge p s i); pose proof (scan_le p s i)
        end
    end.
