(* ===== verification/RedactRules.v ===== *)
(** * [pkg/redact]: configuration and the token-shaped rules

    options.go, marker.go, header.go, jwt.go, tokenprefix.go, userinfo.go. A
    rule is tried at an index [i] of the source: [Some (Some (next, out))] is a
    match that appends [out] and resumes at [next], [Some None] no match and
    [None] a panic. Sentinel indexes (0 or -1) are [None]s of the inner type. *)

From stdpp Require Import base option list gmap.
From Stdlib Require Import String.
From S2P Require Import Prelude GoString RedactBytes RedactKeys RedactCards RedactRender.

#[local] Open Scope Z_scope.

(** ** Configuration *)

Definition RuleHeaders : Z := 1.
Definition RuleJSON : Z := 2.
Definition RuleURLEncoded : Z := 4.
Definition RuleXML : Z := 8.
Definition RuleUserinfo : Z := 16.
Definition RuleJWT : Z := 32.
Definition RuleVendorTokens : Z := 64.
Definition RulePEM : Z := 128.
Definition RuleCards : Z := 256.

Record Redactor : Type := MkRedactor {
  marker : gostring;
  disabled : Z;
  luhn : bool;
  tokens : tokenConfig
}.

Definition RedactionMarker : gostring := str "***".

Definition enabled (re : Redactor) (r : Z) : bool := Z.land (disabled re) r =? 0.

Inductive Option_ : Type :=
| WithMarker (marker : gostring)
| WithLuhnCheck (enabled : bool)
| WithExtraTokens (tokens : list gostring)
| WithoutTokens (tokens : list gostring)
| WithoutRules (rules : list Z).

Definition normalizeConfigToken (tok : gostring) : option gostring :=
  if bool_decide (tok = []) || Nat.ltb maxSensitiveTokenLen (length tok) then None
  else if forallb (fun c => isASCIIAlphaNum (lowerASCIIByte c)) tok then Some (lowerASCIIByte <$> tok)
  else None.

Definition apply_option (re : Redactor) (opt : Option_) : Redactor :=
  match opt with
  | WithMarker m => if decide (m = []) then re else MkRedactor m (disabled re) (luhn re) (tokens re)
  | WithLuhnCheck b => MkRedactor (marker re) (disabled re) b (tokens re)
  | WithExtraTokens toks =>
      let t := tokens re in
      MkRedactor (marker re) (disabled re) (luhn re)
        (MkTokenConfig (extraTokens t ++ omap normalizeConfigToken toks) (dropTokens t))
  | WithoutTokens toks =>
      let t := tokens re in
      MkRedactor (marker re) (disabled re) (luhn re)
        (MkTokenConfig (extraTokens t) (dropTokens t ++ omap normalizeConfigToken toks))
  | WithoutRules rules => MkRedactor (marker re) (foldl Z.lor (disabled re) rules) (luhn re) (tokens re)
  end.

(** [New]; [None] is a nil option. *)
Definition New (opts : list (option Option_)) : Redactor :=
  foldl (fun re opt => match opt with Some opt => apply_option re opt | None => re end)
    (MkRedactor RedactionMarker 0 false (MkTokenConfig [] [])) opts.

Section Rules.
Context (uc : unicode) (re : Redactor).

(** [re.isSensitiveKey]: [RedactKeys.memo_transparent] shows that the memo does not
    matter. *)
Definition sensitive (key : gostring) : bool := (isSensitiveKey uc map_to_list (tokens re) ∅ key).1.

Definition strongSecret (key : gostring) : bool := isStrongSecretName uc (tokens re) key.

(** ** marker.go *)

Definition markerAt (src : gostring) (i : nat) : bool := hasPrefixAt src i (marker re).

(** [start < 0] is [j + 1 < len(marker)]. *)
Definition markerEndsAt (src : gostring) (j : nat) : option bool :=
  if Nat.ltb (S j) (length (marker re)) then Some false
  else
    c ← src !! j; m ← last (marker re);
    if negb (c =? m) then Some false
    else Some (hasPrefixAt src (S j - length (marker re)) (marker re)).

(** ** header.go *)

Definition sensitiveHeaderValueStart (src : gostring) (i : nat) : option (option nat) :=
  let nameEnd := scan isHeaderNameByte src i in
  if Nat.eqb nameEnd i then Some None
  else
    let colon := skipInlineSpaces src nameEnd in
    if negb (byteIs src colon (fun c => c =? cColon)) then Some None
    else
      name ← cut src i nameEnd;
      if negb (sensitive name) then Some None else Some (Some (skipInlineSpaces src (S colon))).

Definition skipHeaderLinePrefix (src : gostring) (i : nat) : nat :=
  let j := skipInlineSpaces src i in
  if byteIs src j (fun c => (c =? cGt) || (c =? cLt)) then skipInlineSpaces src (S j) else j.

Definition headerValueEnd (src : gostring) (valueStart : nat) : nat :=
  let end_ := scanToLineFeed src valueStart in
  if Nat.ltb end_ (length src) && Nat.ltb valueStart end_ && byteIs src (end_ - 1) (fun c => c =? cCR)
  then (end_ - 1)%nat else end_.

(** ** jwt.go *)

Definition jwtPrefix : gostring := str "eyJ".
Definition minJWTHeaderLen : nat := 12.
Definition minJWTSegmentLen : nat := 3.

(** [src[i] == '.'] and a base64url byte follows. *)
Definition nextSegment (src : gostring) (i : nat) : bool :=
  byteIs src i (fun c => c =? cDot) && byteIs src (S i) isBase64URLByte.

Fixpoint jwt_segments (fuel : nat) (src : gostring) (end_ : nat) : option nat :=
  if nextSegment src end_ then
    match fuel with
    | O => None
    | S fuel => jwt_segments fuel src (scanBase64URL src (S end_))
    end
  else Some end_.

Definition jwtTokenEnd (src : gostring) (i : nat) : option (option nat) :=
  if negb (hasPrefixAt src i jwtPrefix) then Some None
  else
    let seg1End := scanBase64URL src i in
    if Nat.ltb (seg1End - i) minJWTHeaderLen || negb (byteIs src seg1End (fun c => c =? cDot)) then Some None
    else
      let seg2End := scanBase64URL src (S seg1End) in
      let seg2Len := (seg2End - S seg1End)%nat in
      let hasNextSegment := nextSegment src seg2End in
      if negb (Nat.leb minJWTSegmentLen seg2Len || (Nat.eqb seg2Len 0 && hasNextSegment)) then Some None
      else end_ ← jwt_segments (length src) src seg2End; Some (Some end_).

(** [i > 0 && isWordChar(src[i-1])] *)
Definition afterWord (src : gostring) (i : nat) : bool :=
  match i with S j => byteIs src j isWordChar | O => false end.

Definition appendRedactedJWTAt (src : gostring) (i : nat) : option (option (nat * gostring)) :=
  if afterWord src i then Some None
  else
    r ← jwtTokenEnd src i;
    match r with
    | None => Some None
    | Some end_ => Some (Some (end_, marker re))
    end.

(** ** tokenprefix.go *)

Record vendorPrefix : Type := MkVendorPrefix {
  prefix : gostring;
  minTail : nat;
  dotBody : bool;
  noDash : bool
}.

#[local] Abbreviation vp s n := (MkVendorPrefix (str s%string) n false false).

Definition vendorTokenPrefixes (c : Z) : list vendorPrefix :=
  if c =? 103 then (* g *)
    [vp "github_pat_" 20; vp "ghp_" 20; vp "gho_" 20; vp "ghu_" 20; vp "ghs_" 20; vp "ghr_" 20; vp "glpat-" 16]
  else if c =? 120 then (* x *)
    [vp "xoxb-" 10; vp "xoxp-" 10; vp "xoxa-" 10; vp "xoxs-" 10; vp "xoxe-" 10]
  else if c =? 115 then (* s *)
    [vp "sk_live_" 16; vp "sk_test_" 16; vp "sk-proj-" 16; vp "sk-ant-" 16;
     MkVendorPrefix (str "sk-") 20 false true; vp "shpat_" 24; vp "shpss_" 24]
  else if c =? 83 then (* S *) [MkVendorPrefix (str "SG.") 16 true false]
  else if c =? 104 then (* h *) [vp "hf_" 20]
  else if c =? 114 then (* r *) [vp "rk_live_" 16; vp "rk_test_" 16]
  else if c =? 119 then (* w *) [vp "whsec_" 16]
  else if c =? 100 then (* d *) [vp "dop_v1_" 32; vp "dckr_pat_" 20]
  else if c =? 65 then (* A *) [vp "AKIA" 16; vp "ASIA" 16; vp "AIza" 30]
  else [].

Definition vendorStarts : list gostring := str <$>
  ["ghp"; "gho"; "ghu"; "ghs"; "ghr"; "git"; "glp"; "xox"; "sk_"; "sk-"; "shp"; "SG."; "hf_"; "rk_"; "whs"; "dop";
   "dck"; "AKI"; "ASI"; "AIz"]%string.

Definition isVendorTokenStart (src : gostring) (i : nat) : option bool :=
  if Nat.leb (length src) (i + 2) then Some false
  else w ← cut src i (i + 3); Some (bool_decide (w ∈ vendorStarts)).

Fixpoint trim_dots (src : gostring) (i : nat) : nat :=
  match i with
  | S j => if byteIs src j (fun c => c =? cDot) then trim_dots src j else i
  | O => O
  end.

Definition scanVendorTokenBody (src : gostring) (i : nat) (v : vendorPrefix) : nat :=
  let i := scan (fun c => isWordChar c || (dotBody v && (c =? cDot)) || (negb (noDash v) && (c =? cDash))) src i in
  if dotBody v then trim_dots src i else i.

(** The end may fall before the body when the dots of the prefix are trimmed:
    the comparison is then of a negative length. *)
Fixpoint vendor_loop (src : gostring) (i : nat) (vps : list vendorPrefix) : option nat :=
  match vps with
  | [] => None
  | v :: vps =>
      if negb (hasPrefixAt src i (prefix v)) then vendor_loop src i vps
      else
        let body := (i + length (prefix v))%nat in
        let end_ := scanVendorTokenBody src body v in
        if Z.of_nat end_ - Z.of_nat body <? Z.of_nat (minTail v) then vendor_loop src i vps else Some end_
  end.

Definition appendRedactedVendorTokenAt (src : gostring) (i : nat) : option (option (nat * gostring)) :=
  if afterWord src i then Some None
  else
    c ← src !! i;
    match vendor_loop src i (vendorTokenPrefixes c) with
    | None => Some None
    | Some end_ => Some (Some (end_, marker re))
    end.

(** ** userinfo.go *)

Definition maxUserinfoScan : nat := 256.

Definition isUserinfoBoundary (c : Z) : bool :=
  bool_decide (c ∈ [cSlash; cQuery; cHash; cSpace; cTab; cNL; cCR; cQuote; cApos; cLt; cGt]).

Definition userinfoResult (pwColon lastAt : option nat) : option nat * option nat :=
  match pwColon with
  | Some p => if (match lastAt with Some a => Nat.ltb a p | None => true end) then (None, lastAt) else (pwColon, lastAt)
  | None => (pwColon, lastAt)
  end.

(** The loop of [findUserinfoPassword] over the bytes up to the limit;
    [atEnd] tells that the limit is the end of the input. *)
Fixpoint userinfo_loop (bytes : gostring) (j : nat) (pwColon lastAt : option nat) (atEnd : bool)
    : option nat * option nat :=
  match bytes with
  | [] => if atEnd then userinfoResult pwColon lastAt else (None, None)
  | c :: bytes =>
      if c =? cAt then userinfo_loop bytes (S j) pwColon (Some j) atEnd
      else if isUserinfoBoundary c then userinfoResult pwColon lastAt
      else
        let pwColon := match pwColon with None => if c =? cColon then Some j else None | Some _ => pwColon end in
        userinfo_loop bytes (S j) pwColon lastAt atEnd
  end.

Definition findUserinfoPassword (src : gostring) (uiStart : nat) : option nat * option nat :=
  let limit := Nat.min (length src) (uiStart + maxUserinfoScan) in
  userinfo_loop (take (limit - uiStart) (drop uiStart src)) uiStart None None (Nat.eqb limit (length src)).

Definition appendRedactedURLPasswordAt (src : gostring) (colon : nat) : option (option (nat * gostring)) :=
  if negb (byteIs src (colon + 1) (fun c => c =? cSlash) && byteIs src (colon + 2) (fun c => c =? cSlash))
  then Some None
  else
    match findUserinfoPassword src (colon + 3) with
    | (Some pwColon, Some at_) =>
        kept ← cut src colon (S pwColon);
        Some (Some (at_, kept ++ marker re))
    | _ => Some None
    end.
End Rules.

(** ** The rules are sound *)

Section Sound.
Context (uc : unicode) (re : Redactor).

Lemma headerValueEnd_ge src v : (v <= headerValueEnd src v)%nat.
Proof.
  unfold headerValueEnd, scanToLineFeed. pose proof (scan_ge (fun c => negb (c =? cNL)) src v).
  destruct (_ && _) eqn:E; [|done]. rewrite !andb_true_iff, !Nat.ltb_lt in E. lia.
Qed.

Lemma skipHeaderLinePrefix_ge src i : (i <= skipHeaderLinePrefix src i)%nat.
Proof. unfold skipHeaderLinePrefix. destruct (byteIs _ _ _); scan_facts; lia. Qed.

Lemma sensitiveHeaderValueStart_ok src i :
  ∃ o, sensitiveHeaderValueStart uc re src i = Some o ∧ ∀ v, o = Some v → (i < v <= length src)%nat.
Proof.
  unfold sensitiveHeaderValueStart. destruct (Nat.eqb_spec (scan isHeaderNameByte src i) i); [by exists None|].
  destruct (negb (byteIs _ _ _)) eqn:Hc; [by exists None|]. scan_facts.
  rewrite cut_Some by lia. cbn [mbind option_bind]. destruct (negb _); [by exists None|].
  eexists. split; [done|]. intros v [= <-]. scan_facts. lia.
Qed.

Lemma nextSegment_lt src e : nextSegment src e = true → (S e < scanBase64URL src (S e) <= length src)%nat.
Proof.
  unfold nextSegment, scanBase64URL. rewrite andb_true_iff. intros [_ H]. pose proof (byteIs_lt _ _ _ H).
  apply byteIs_lookup in H as (c & Hc & Hp). split; [by eapply scan_hit|apply scan_le; lia].
Qed.

Lemma jwt_segments_ok src fuel : ∀ e, (e <= length src)%nat → (length src <= e + fuel)%nat →
  ∃ e', jwt_segments fuel src e = Some e' ∧ (e <= e')%nat.
Proof.
  induction fuel as [|fuel IH]; intros e He Hf; cbn [jwt_segments];
    destruct (nextSegment src e) eqn:Hn; try (by exists e); apply nextSegment_lt in Hn; [lia|].
  destruct (IH (scanBase64URL src (S e))) as (e' & -> & He'); [lia..|]. exists e'. split; [done|lia].
Qed.

Lemma appendRedactedJWTAt_ok src i : rule_ok (marker re) src i (appendRedactedJWTAt re src i).
Proof.
  unfold appendRedactedJWTAt. destruct (afterWord src i); [auto with redact|].
  unfold jwtTokenEnd. destruct (negb (hasPrefixAt _ _ _)); [auto with redact|].
  destruct (Nat.ltb_spec (scanBase64URL src i - i) minJWTHeaderLen) as [|Hmin]; [auto with redact|].
  destruct (byteIs src (scanBase64URL src i) _) eqn:Hb; [|auto with redact]. cbn [orb negb].
  destruct (negb _); [auto with redact|]. unfold minJWTHeaderLen in Hmin. scan_facts.
  edestruct (jwt_segments_ok src (length src)) as (e' & -> & He'); [|lia|].
  { apply scan_le. lia. }
  cbn [mbind option_bind]. apply rule_some; [scan_facts; lia|auto with redact].
Qed.

Lemma trim_dots_le src i : (trim_dots src i <= i)%nat.
Proof. induction i as [|i IH]; [done|]. cbn [trim_dots]. destruct (byteIs _ _ _); lia. Qed.

Lemma vendor_loop_gt src i vps e : Forall (fun v => 0 < minTail v)%nat vps → vendor_loop src i vps = Some e → (i < e)%nat.
Proof.
  induction 1 as [|v vps Hv _ IH]; [done|]. cbn [vendor_loop]. destruct (negb _); [done|].
  destruct (Z.ltb_spec (Z.of_nat (scanVendorTokenBody src (i + length (prefix v)) v) -
    Z.of_nat (i + length (prefix v))) (Z.of_nat (minTail v))); [done|]. intros [= <-]. lia.
Qed.

Lemma vendorTokenPrefixes_tails c : Forall (fun v => 0 < minTail v)%nat (vendorTokenPrefixes c).
Proof. unfold vendorTokenPrefixes. repeat case_match; repeat constructor; simpl; lia. Qed.

Lemma appendRedactedVendorTokenAt_ok src i : (i < length src)%nat →
  rule_ok (marker re) src i (appendRedactedVendorTokenAt re src i).
Proof.
  intros Hi. unfold appendRedactedVendorTokenAt. destruct (afterWord src i); [auto with redact|].
  destruct (lookup_lt_is_Some_2 src i Hi) as [c ->]. cbn [mbind option_bind].
  destruct (vendor_loop _ _ _) as [e|] eqn:Hv; [|auto with redact].
  apply rule_some; [|auto with redact]. eapply vendor_loop_gt, Hv. apply vendorTokenPrefixes_tails.
Qed.

Lemma userinfoResult_inv pw at_ p a : pw ≠ at_ → userinfoResult pw at_ = (Some p, Some a) →
  pw = Some p ∧ at_ = Some a ∧ (p < a)%nat.
Proof.
  unfold userinfoResult. intros Hne. destruct pw as [p'|]; [|done]. destruct at_ as [a'|]; [|done].
  destruct (Nat.ltb_spec a' p'); [done|]. intros [= -> ->]. assert (p ≠ a) by congruence.
  split; [done|]. split; [done|lia].
Qed.

Lemma userinfo_loop_ok bytes atEnd p a : ∀ j pw at_,
  (∀ q, pw = Some q → q < j)%nat → (∀ q, at_ = Some q → q < j)%nat → pw ≠ at_ ∨ pw = None →
  userinfo_loop bytes j pw at_ atEnd = (Some p, Some a) →
  (p < a < j + length bytes)%nat ∧ (pw = None → j <= p)%nat ∧ (∀ q, pw = Some q → q = p).
Proof.
  assert (Hend : ∀ j n pw at_, (∀ q, at_ = Some q → q < j)%nat → pw ≠ at_ ∨ pw = None →
    userinfoResult pw at_ = (Some p, Some a) →
    (p < a < j + n)%nat ∧ (pw = None → j <= p)%nat ∧ (∀ q, pw = Some q → q = p)).
  { intros j n pw at_ Hat Hne Hr. destruct Hne as [Hne|Hne]; [|by subst pw].
    apply userinfoResult_inv in Hr as (-> & -> & Hlt); [|done]. specialize (Hat _ eq_refl).
    split; [lia|]. split; [done|by intros q [= ->]]. }
  induction bytes as [|c bytes IH]; intros j pw at_ Hpw Hat Hne; cbn [userinfo_loop].
  - destruct atEnd; [|done]. by apply Hend.
  - destruct (c =? cAt).
    { intros H. apply IH in H as (H1 & H2 & H3).
      - simpl. split; [lia|]. split; [intros He; specialize (H2 He); lia|done].
      - intros q Hq. specialize (Hpw _ Hq). lia.
      - intros q [= <-]. lia.
      - left. intros ->. specialize (Hpw _ eq_refl). lia. }
    destruct (isUserinfoBoundary c); [by apply Hend|].
    intros H. apply IH in H as (H1 & H2 & H3).
    + simpl. split; [lia|]. destruct pw as [q|]; [split; [done|]; intros q' [= <-]; by apply H3|].
      split; [|done]. intros _. destruct (c =? cColon); [specialize (H3 _ eq_refl); lia|specialize (H2 eq_refl); lia].
    + intros q Hq. destruct pw as [q'|]; [specialize (Hpw _ Hq); lia|]. destruct (c =? cColon); simplify_eq; lia.
    + intros q Hq. specialize (Hat _ Hq). lia.
    + destruct pw as [q'|]; [destruct Hne; [by left|done]|]. destruct (c =? cColon); [|by right]. left.
      intros <-. specialize (Hat _ eq_refl). lia.
Qed.

Lemma appendRedactedURLPasswordAt_ok src i : rule_ok (marker re) src i (appendRedactedURLPasswordAt re src i).
Proof.
  unfold appendRedactedURLPasswordAt. destruct (negb _) eqn:Hb; [auto with redact|].
  destruct (findUserinfoPassword src (i + 3)) as [[p|] [a|]] eqn:Hf; try auto with redact.
  scan_facts. unfold findUserinfoPassword in Hf. apply userinfo_loop_ok in Hf as (Hpa & Hip & _); [|done..|by right].
  specialize (Hip eq_refl). rewrite length_take, length_drop in Hpa.
  rewrite cut_span by lia. cbn [mbind option_bind]. apply rule_some; [lia|].
  apply renders_kept; [lia|by left].
Qed.
End Sound.
