(* ===== verification/RedactMarkup.v ===== *)
(** * [pkg/redact]: URL-encoded pairs, attributes, XML elements and PEM blocks

    urlencoded.go, xml.go and pem.go, in the conventions of RedactRules. *)

From stdpp Require Import base option list gmap.
From Stdlib Require Import String.
From S2P Require Import Prelude GoString RedactBytes RedactKeys RedactRender RedactRules.

#[local] Open Scope Z_scope.

Section Markup.
Context (uc : unicode) (re : Redactor).

(** ** urlencoded.go *)

Definition isURLKeyBoundary (c : Z) : bool :=
  bool_decide (c ∈ [cAmp; cQuery; cHash; cNL; cSpace; cTab; cSemi; cComma; cQuote; cEq; cLt; cGt; cCR]).

Definition isURLValueBoundary (c : Z) : bool :=
  bool_decide (c ∈ [cAmp; cQuote; cCR; cNL; cLt; cGt; cComma; cSemi]).

Definition isAttrQuote (c : Z) : bool := (c =? cQuote) || (c =? cApos).

(** The backward scan for the start of the key that ends before [k]. *)
Fixpoint urlKeyStart (src : gostring) (k : nat) : nat :=
  match k with
  | O => O
  | S k' => if byteIs src k' isURLKeyBoundary then k else urlKeyStart src k'
  end.

Fixpoint attr_loop (bytes : gostring) (j : nat) (quote : Z) : option nat :=
  match bytes with
  | [] => None
  | c :: bytes =>
      if c =? quote then Some j
      else if bool_decide (c ∈ [cNL; cCR; cLt; cGt]) then None
      else attr_loop bytes (S j) quote
  end.

Definition attrQuotedValueEnd (src : gostring) (q : nat) : option (option nat) :=
  quote ← src !! q; Some (attr_loop (drop (S q) src) (S q) quote).

Definition isAttrValueName (name : gostring) : bool :=
  equalsASCIIFold name (str "value") || equalsASCIIFold name (str "val").

Definition siblingValueAttrQuote (src : gostring) (from : nat) : option (option nat) :=
  let j := skipInlineSpaces src from in
  if Nat.eqb j from then Some None
  else
    let nameStart := j in
    let j := scan isHeaderNameByte src j in
    name ← cut src nameStart j;
    if negb (isAttrValueName name) then Some None
    else
      let j := skipInlineSpaces src j in
      if negb (byteIs src j (fun c => c =? cEq)) then Some None
      else
        let j := skipInlineSpaces src (S j) in
        if negb (byteIs src j isAttrQuote) then Some None else Some (Some j).

Definition findSiblingAttrValue (src : gostring) (from : nat) : option (option (nat * nat)) :=
  open ← siblingValueAttrQuote src from;
  match open with
  | None => Some None
  | Some open =>
      closeQuote ← attrQuotedValueEnd src open;
      match closeQuote with
      | None => Some None
      | Some closeQuote => Some (Some (open, closeQuote))
      end
  end.

Definition appendLabeledSecretAttr (src : gostring) (eq : nat) : option (option (nat * gostring)) :=
  let labelOpen := S eq in
  if negb (byteIs src labelOpen isAttrQuote) then Some None
  else
    labelClose ← attrQuotedValueEnd src labelOpen;
    match labelClose with
    | None => Some None
    | Some labelClose =>
        label ← cut src (S labelOpen) labelClose;
        if negb (strongSecret uc re label) then Some None
        else
          sib ← findSiblingAttrValue src (S labelClose);
          match sib with
          | None => Some None
          | Some (sibOpen, sibClose) =>
              kept ← cut src eq (S sibOpen);
              closing ← src !! sibClose;
              Some (Some (S sibClose, kept ++ marker re ++ [closing]))
          end
    end.

(** 0 stands for "not a lone marker": the marker is not empty. *)
Definition redactedMarkerEnd (src : gostring) (i : nat) : nat :=
  let end_ := (i + length (marker re))%nat in
  if negb (markerAt re src i) || byteIs src end_ isWordChar then 0%nat else end_.

Definition quotedValueEnd (src : gostring) (i : nat) : nat :=
  let j := scan (fun c => negb (c =? cQuote) && negb (c =? cCR) && negb (c =? cNL)) src (S i) in
  if byteIs src j (fun c => c =? cQuote) then scan isWordChar src (S j) else j.

Definition urlEncodedValueEnd (src : gostring) (i : nat) : nat :=
  if byteIs src i (fun c => c =? cQuote) then quotedValueEnd src i
  else
    let end_ := redactedMarkerEnd src i in
    if Nat.ltb 0 end_ then end_ else scan (fun c => negb (isURLValueBoundary c)) src i.

Definition appendRedactedURLEncodedValueAt (src : gostring) (eq : nat) : option (option (nat * gostring)) :=
  rawKey ← cut src (urlKeyStart src eq) eq;
  if bool_decide (cSlash ∈ rawKey) then Some None
  else if sensitive uc re rawKey then Some (Some (urlEncodedValueEnd src (S eq), cEq :: marker re))
  else if equalsASCIIFold rawKey (str "name") then appendLabeledSecretAttr src eq
  else Some None.

(** ** xml.go *)

Definition xmlCDATAPrefix : gostring := str "<![CDATA[".
Definition maxXMLContentScan : nat := 2 ^ 13.

Definition skipToXMLTerminator (src : gostring) (start : nat) (term : gostring) : option nat :=
  window ← cut src start (Nat.min (length src) (start + maxXMLContentScan));
  match Index window term with
  | Some idx => Some (start + idx + length term)%nat
  | None => Some (length src)
  end.

(** [Some None]: neither a comment nor a CDATA section. *)
Definition skipXMLCommentOrCDATA (src : gostring) (i : nat) : option (option nat) :=
  if hasPrefixAt src i (str "<!--") then
    e ← skipToXMLTerminator src (i + 4) (str "-->"); Some (Some e)
  else if hasPrefixAt src i xmlCDATAPrefix then
    e ← skipToXMLTerminator src (i + length xmlCDATAPrefix) (str "]]>"); Some (Some e)
  else Some None.

(** The loop of [xmlFlatContentEnd]; every round advances. *)
Fixpoint content_loop (fuel : nat) (src : gostring) (contentEnd : nat) : option nat :=
  match src !! contentEnd with
  | None => Some contentEnd
  | Some c =>
      match fuel with
      | O => None
      | S fuel =>
          if negb (c =? cLt) then content_loop fuel src (S contentEnd)
          else
            skip ← skipXMLCommentOrCDATA src contentEnd;
            match skip with
            | Some skipTo => content_loop fuel src skipTo
            | None => Some contentEnd
            end
      end
  end.

(** [Some None]: no closing ['>']. *)
Definition xmlOpenTagClose (src : gostring) (nameEnd : nat) : option (option nat) :=
  let gt := scan (fun c => negb (c =? cGt) && negb (c =? cNL) && negb (c =? cLt)) src nameEnd in
  if negb (byteIs src gt (fun c => c =? cGt)) then Some None
  else
    before ← (match gt with S j => src !! j | O => None end);
    if before =? cSlash then Some None else Some (Some gt).

Definition isMatchingXMLClosingTag (src : gostring) (i : nat) (name : gostring) : bool :=
  if negb (hasPrefixAt src i (str "</")) then false
  else
    let nameStart := (i + 2)%nat in
    if Nat.ltb (length src) (nameStart + length name) then false
    else if negb (bool_decide (lowerASCIIByte <$> take (length name) (drop nameStart src) = lowerASCIIByte <$> name))
    then false
    else
      let gt := skipInlineSpaces src (nameStart + length name) in
      byteIs src gt (fun c => c =? cGt).

Definition xmlFlatContentEnd (src : gostring) (contentStart : nat) (name : gostring) : option (option nat) :=
  contentEnd ← content_loop (length src) src contentStart;
  if Nat.eqb contentEnd contentStart || Nat.leb (length src) contentEnd ||
     negb (isMatchingXMLClosingTag src contentEnd name)
  then Some None else Some (Some contentEnd).

Definition appendRedactedXMLValueAt (src : gostring) (i : nat) : option (option (nat * gostring)) :=
  let nameStart := S i in
  if negb (byteIs src nameStart isASCIIAlpha) then Some None
  else
    let nameEnd := scan isXMLNameByte src nameStart in
    gt ← xmlOpenTagClose src nameEnd;
    match gt with
    | None => Some None
    | Some gt =>
        name ← cut src nameStart nameEnd;
        if negb (sensitive uc re name) then Some None
        else
          let contentStart := S gt in
          contentEnd ← xmlFlatContentEnd src contentStart name;
          match contentEnd with
          | None => Some None
          | Some contentEnd => kept ← cut src i contentStart; Some (Some (contentEnd, kept ++ marker re))
          end
    end.

(** ** pem.go *)

Definition pemBeginPrefix : gostring := str "-----BEGIN ".
Definition pemEndPrefix : gostring := str "-----END ".
Definition pemPrivateKeyLabels : list gostring := str <$> ["PRIVATE KEY-----"; "PRIVATE KEY BLOCK-----"]%string.
Definition maxPEMBeginScan : nat := 64.
Definition maxPEMBodyScan : nat := 2 ^ 14.

Definition pemBeginLineIsPrivateKey (line : gostring) : bool :=
  existsb (fun label =>
    match Index line label with Some idx => Nat.eqb (idx + length label) (length line) | None => false end)
    pemPrivateKeyLabels.

(** The nearest label end, of those present in the window. *)
Definition inlinePEMPrivateKeyLabelEnd (src : gostring) (i : nat) : option (option nat) :=
  window ← cut src i (Nat.min (length src) (i + maxPEMBeginScan));
  Some (foldl (fun best label =>
    match Index window label with
    | None => best
    | Some idx =>
        let e := (i + idx + length label)%nat in
        match best with Some b => if Nat.ltb e b then Some e else best | None => Some e end
    end) None pemPrivateKeyLabels).

(** The loop of [findPEMEndLine]; every round advances past a line. *)
Fixpoint pem_end_loop (fuel : nat) (src : gostring) (endLine : nat) : option nat :=
  if Nat.ltb endLine (length src) && negb (hasPrefixAt src endLine pemEndPrefix) then
    match fuel with
    | O => None
    | S fuel =>
        let nl := scanToLineFeed src endLine in
        if Nat.leb (length src) nl then Some (length src) else pem_end_loop fuel src (S nl)
    end
  else Some endLine.

Definition findPEMEndLine (src : gostring) (bodyStart : nat) : option nat := pem_end_loop (length src) src bodyStart.

Definition pemBodyTerminator (src : gostring) (endLine : nat) : option gostring :=
  match endLine with
  | O => Some []
  | S e =>
      if Nat.ltb (length src) endLine then Some []
      else
        c ← src !! e;
        if negb (c =? cNL) then Some []
        else match e with
             | S e' => d ← src !! e'; Some (if d =? cCR then [cCR; cNL] else [cNL])
             | O => Some [cNL]
             end
  end.

Definition appendRedactedPEMKeyAt (src : gostring) (i : nat) : option (option (nat * gostring)) :=
  if negb (hasPrefixAt src i pemBeginPrefix) then Some None
  else
    let lineEnd := scanToLineFeed src i in
    line ← cut src i lineEnd;
    let line := if decide (last line = Some cCR) then take (length line - 1) line else line in
    if negb (pemBeginLineIsPrivateKey line) then Some None
    else
      let bodyStart := if Nat.ltb lineEnd (length src) then S lineEnd else lineEnd in
      endLine ← findPEMEndLine src bodyStart;
      if Nat.eqb endLine bodyStart then Some None
      else
        begin ← cut src i bodyStart;
        terminator ← pemBodyTerminator src endLine;
        Some (Some (endLine, begin ++ marker re ++ terminator)).

Definition isWhitespaceOnly (b : gostring) : bool :=
  forallb (fun c => bool_decide (c ∈ [cSpace; cTab; cCR; cNL])) b.

Definition inlinePEMBodyEnd (src : gostring) (markerEnd : nat) : option nat :=
  window ← cut src markerEnd (Nat.min (length src) (markerEnd + maxPEMBodyScan));
  match Index window pemEndPrefix with
  | Some idx => Some (markerEnd + idx)%nat
  | None => Some (scan (fun c => negb (c =? cQuote) && negb (c =? cNL)) src markerEnd)
  end.

Definition appendRedactedInlinePEMKeyAt (src : gostring) (i : nat) : option (option (nat * gostring)) :=
  if negb (hasPrefixAt src i pemBeginPrefix) then Some None
  else
    markerEnd ← inlinePEMPrivateKeyLabelEnd src i;
    match markerEnd with
    | None => Some None
    | Some markerEnd =>
        end_ ← inlinePEMBodyEnd src markerEnd;
        body ← cut src markerEnd end_;
        if isWhitespaceOnly body then Some None
        else kept ← cut src i markerEnd; Some (Some (end_, kept ++ marker re))
    end.
End Markup.

(** ** The rules are sound *)

Section Sound.
Context (uc : unicode) (re : Redactor).

Lemma urlKeyStart_le src k : (urlKeyStart src k <= k)%nat.
Proof. induction k as [|k IH]; [done|]. cbn [urlKeyStart]. destruct (byteIs _ _ _); lia. Qed.

Lemma attr_loop_inv bytes quote j e : attr_loop bytes j quote = Some e → (j <= e < j + length bytes)%nat.
Proof.
  revert j. induction bytes as [|c bytes IH]; intros j; [done|]. cbn [attr_loop length].
  destruct (c =? quote); [intros [= <-]; lia|]. case_bool_decide; [done|]. intros Hr%IH. lia.
Qed.

Lemma attrQuotedValueEnd_ok src q : (q < length src)%nat →
  ∃ o, attrQuotedValueEnd src q = Some o ∧ ∀ e, o = Some e → (q < e < length src)%nat.
Proof.
  intros Hq. unfold attrQuotedValueEnd. destruct (lookup_lt_is_Some_2 src q Hq) as [c ->]. cbn [mbind option_bind].
  eexists. split; [done|]. intros e He%attr_loop_inv. rewrite length_drop in He. lia.
Qed.

Lemma siblingValueAttrQuote_ok src i : (i <= length src)%nat →
  ∃ o, siblingValueAttrQuote src i = Some o ∧ ∀ e, o = Some e → (i < e < length src)%nat.
Proof.
  intros Hi. unfold siblingValueAttrQuote. destruct (Nat.eqb_spec (skipInlineSpaces src i) i) as [|Hne]; [by exists None|].
  scan_facts. rewrite cut_Some by (scan_facts; lia). cbn [mbind option_bind].
  destruct (negb (isAttrValueName _)); [by exists None|].
  destruct (negb _) eqn:Heq; [by exists None|]. destruct (negb (byteIs _ _ isAttrQuote)) eqn:Hq; [by exists None|].
  eexists. split; [done|]. intros e [= <-]. scan_facts. lia.
Qed.

Lemma findSiblingAttrValue_ok src i : (i <= length src)%nat →
  ∃ o, findSiblingAttrValue src i = Some o ∧ ∀ e f, o = Some (e, f) → (i < e < f)%nat ∧ (f < length src)%nat.
Proof.
  intros Hi. unfold findSiblingAttrValue. destruct (siblingValueAttrQuote_ok src i Hi) as ([e|] & -> & He);
    cbn [mbind option_bind]; [|by exists None]. specialize (He _ eq_refl).
  destruct (attrQuotedValueEnd_ok src e) as ([f|] & -> & Hf); [lia|..]; cbn [mbind option_bind]; [|by exists None].
  specialize (Hf _ eq_refl). eexists. split; [done|]. intros ? ? [= <- <-]. lia.
Qed.

Lemma appendLabeledSecretAttr_ok src i : rule_ok (marker re) src i (appendLabeledSecretAttr uc re src i).
Proof.
  unfold appendLabeledSecretAttr. destruct (negb _) eqn:Hq; [auto with redact|]. scan_facts.
  destruct (attrQuotedValueEnd_ok src (S i)) as ([lc|] & -> & Hlc); [done|..]; cbn [mbind option_bind]; [|auto with redact].
  specialize (Hlc _ eq_refl). rewrite cut_Some by lia. cbn [mbind option_bind]. destruct (negb _); [auto with redact|].
  destruct (findSiblingAttrValue_ok src (S lc)) as ([[so sc]|] & -> & Hs); [lia|..]; cbn [mbind option_bind];
    [|auto with redact]. destruct (Hs _ _ eq_refl) as [Hs1 Hs2].
  rewrite cut_span by lia. cbn [mbind option_bind].
  destruct (lookup_lt_is_Some_2 src sc Hs2) as [c Hc]. rewrite Hc. cbn [mbind option_bind].
  apply rule_some; [lia|]. rewrite app_assoc, (span_app src i sc (S sc)) by lia. apply renders_app.
  - apply renders_kept; [lia|by left].
  - rewrite (span_one _ _ _ Hc). apply renders_refl.
Qed.

Lemma urlEncodedValueEnd_ge src i : (i <= urlEncodedValueEnd re src i)%nat.
Proof.
  unfold urlEncodedValueEnd. destruct (byteIs _ _ _).
  - unfold quotedValueEnd. destruct (byteIs _ _ _); scan_facts; lia.
  - unfold redactedMarkerEnd. destruct (_ || _); simpl; [scan_facts; lia|].
    destruct (Nat.ltb_spec 0 (i + length (marker re))); [|scan_facts]; lia.
Qed.

Lemma appendRedactedURLEncodedValueAt_ok src i : src !! i = Some cEq →
  rule_ok (marker re) src i (appendRedactedURLEncodedValueAt uc re src i).
Proof.
  intros Hi. pose proof (lookup_lt_Some _ _ _ Hi). unfold appendRedactedURLEncodedValueAt.
  pose proof (urlKeyStart_le src i). rewrite cut_Some by lia. cbn [mbind option_bind].
  case_bool_decide; [auto with redact|]. destruct (sensitive _ _ _).
  - pose proof (urlEncodedValueEnd_ge src (S i)). apply rule_some; [lia|].
    rewrite (span_cons _ _ _ _ Hi) by lia. constructor. auto with redact.
  - destruct (equalsASCIIFold _ _); [apply appendLabeledSecretAttr_ok|auto with redact].
Qed.

(** *** XML *)

Lemma skipToXMLTerminator_ok src i term : (i <= length src)%nat →
  ∃ e, skipToXMLTerminator src i term = Some e ∧ (i <= e <= length src)%nat.
Proof.
  intros Hi. unfold skipToXMLTerminator. rewrite cut_Some by lia. cbn [mbind option_bind].
  destruct (Index _ _) as [k|] eqn:Hk; eexists; (split; [done|]); [|lia].
  apply Index_spec in Hk as [Hk _]. rewrite length_take, length_drop in Hk. lia.
Qed.

Lemma skipXMLCommentOrCDATA_ok src i :
  ∃ o, skipXMLCommentOrCDATA src i = Some o ∧ ∀ e, o = Some e → (i < e <= length src)%nat.
Proof.
  unfold skipXMLCommentOrCDATA. destruct (hasPrefixAt src i (str "<!--")) eqn:H1; [|destruct (hasPrefixAt src i xmlCDATAPrefix) eqn:H2].
  - apply hasPrefixAt_length in H1; [|done]. change (length (str "<!--")) with 4%nat in H1.
    destruct (skipToXMLTerminator_ok src (i + 4) (str "-->")) as (e & -> & He); [lia|]. cbn [mbind option_bind].
    eexists. split; [done|]. intros ? [= <-]. lia.
  - apply hasPrefixAt_length in H2; [|done]. change (length xmlCDATAPrefix) with 9%nat in *.
    destruct (skipToXMLTerminator_ok src (i + 9) (str "]]>")) as (e & -> & He); [lia|]. cbn [mbind option_bind].
    eexists. split; [done|]. intros ? [= <-]. lia.
  - by exists None.
Qed.

Lemma content_loop_ok src fuel : ∀ i, (length src <= i + fuel)%nat →
  ∃ e, content_loop fuel src i = Some e ∧ (i <= e)%nat.
Proof.
  induction fuel as [|fuel IH]; intros i Hf; cbn [content_loop].
  - rewrite (lookup_ge_None_2 src i) by lia. by exists i.
  - destruct (src !! i) as [c|] eqn:Hc; [|by exists i]. destruct (negb _).
    { destruct (IH (S i)) as (e & -> & He); [lia|]. exists e. split; [done|lia]. }
    destruct (skipXMLCommentOrCDATA_ok src i) as ([k|] & -> & Hk); cbn [mbind option_bind]; [|by exists i].
    specialize (Hk _ eq_refl). destruct (IH k) as (e & -> & He); [lia|]. exists e. split; [done|lia].
Qed.

Lemma xmlFlatContentEnd_ok src i name :
  ∃ o, xmlFlatContentEnd src i name = Some o ∧ ∀ e, o = Some e → (i < e < length src)%nat.
Proof.
  unfold xmlFlatContentEnd. destruct (content_loop_ok src (length src) i) as (e & -> & He); [lia|].
  cbn [mbind option_bind]. destruct (Nat.eqb_spec e i); [by exists None|].
  destruct (Nat.leb_spec (length src) e); [by exists None|]. cbn [orb]. destruct (negb _); [by exists None|].
  eexists. split; [done|]. intros ? [= <-]. lia.
Qed.

Lemma xmlOpenTagClose_ok src i : (0 < i)%nat →
  ∃ o, xmlOpenTagClose src i = Some o ∧ ∀ e, o = Some e → (i <= e < length src)%nat.
Proof.
  intros Hi. unfold xmlOpenTagClose. destruct (negb (byteIs _ _ _)) eqn:Hb; [by exists None|]. scan_facts.
  destruct (scan _ src i) as [|j] eqn:Hj; [lia|]. destruct (lookup_lt_is_Some_2 src j) as [c ->]; [lia|].
  cbn [mbind option_bind]. destruct (c =? cSlash); [by exists None|]. eexists. split; [done|]. intros ? [= <-]. lia.
Qed.

Lemma appendRedactedXMLValueAt_ok src i : rule_ok (marker re) src i (appendRedactedXMLValueAt uc re src i).
Proof.
  unfold appendRedactedXMLValueAt. destruct (negb _) eqn:Hb; [auto with redact|]. scan_facts.
  destruct (xmlOpenTagClose_ok src (scan isXMLNameByte src (S i))) as ([gt|] & -> & Hgt); [lia|..];
    cbn [mbind option_bind]; [|auto with redact]. specialize (Hgt _ eq_refl).
  rewrite (cut_Some src (S i)) by lia. cbn [mbind option_bind]. destruct (negb _); [auto with redact|].
  edestruct (xmlFlatContentEnd_ok src (S gt)) as ([ce|] & -> & Hce); cbn [mbind option_bind]; [|auto with redact].
  specialize (Hce _ eq_refl). rewrite cut_span by lia. cbn [mbind option_bind].
  apply rule_some; [lia|]. apply renders_kept; [lia|by left].
Qed.

(** *** PEM *)

Lemma pem_end_loop_ok src fuel : ∀ i, (i <= length src)%nat → (length src <= i + fuel)%nat →
  ∃ e, pem_end_loop fuel src i = Some e ∧ (i <= e <= length src)%nat.
Proof.
  induction fuel as [|fuel IH]; intros i Hi Hf; cbn [pem_end_loop].
  - rewrite (proj2 (Nat.ltb_ge i (length src))) by lia. exists i. split; [done|lia].
  - destruct (_ && _) eqn:E; [|exists i; split; [done|lia]]. apply andb_true_iff in E as [Hlt%Nat.ltb_lt _].
    destruct (Nat.leb_spec (length src) (scanToLineFeed src i)); [exists (length src); split; [done|lia]|].
    scan_facts. destruct (IH (S (scan (fun c => negb (c =? cNL)) src i))) as (e & -> & He); [lia..|].
    exists e. split; [done|lia].
Qed.

(** The terminator kept after the marker is the end of the body. *)
Lemma pemBodyTerminator_ok src b e : (b < e <= length src)%nat → byteIs src (b - 1) (fun c => c =? cCR) = false →
  ∃ t, pemBodyTerminator src e = Some t ∧ ∃ h, span src b e = h ++ t.
Proof.
  intros Hbe Hb. unfold pemBodyTerminator. destruct e as [|e]; [lia|].
  rewrite (proj2 (Nat.ltb_ge _ _)) by lia. destruct (lookup_lt_is_Some_2 src e) as [c Hc]; [lia|]. rewrite Hc.
  cbn [mbind option_bind]. destruct (Z.eqb_spec c cNL) as [->|]; cbn [negb];
    [|eexists; split; [done|]; eexists; by rewrite app_nil_r].
  destruct e as [|e].
  { exists [cNL]. split; [done|]. exists []. replace b with 0%nat by lia. by rewrite (span_one _ _ _ Hc). }
  destruct (lookup_lt_is_Some_2 src e) as [d Hd]; [lia|]. rewrite Hd. cbn [mbind option_bind]. eexists. split; [done|].
  rewrite (span_app src b (S e) (S (S e))), (span_one _ _ _ Hc) by lia.
  destruct (Z.eqb_spec d cCR) as [->|]; [|by eexists].
  assert (Hlt : (b <= e)%nat).
  { destruct (Nat.le_gt_cases b e) as [|Hgt]; [done|]. assert (b = S e) as -> by lia.
    revert Hb. unfold byteIs. replace (S e - 1)%nat with e by lia. rewrite Hd. done. }
  rewrite (span_app src b e (S e)), (span_one _ _ _ Hd) by lia. exists (span src b e). by rewrite <- app_assoc.
Qed.

Lemma appendRedactedPEMKeyAt_ok src i : rule_ok (marker re) src i (appendRedactedPEMKeyAt re src i).
Proof.
  unfold appendRedactedPEMKeyAt. destruct (negb _) eqn:Hp; [auto with redact|].
  apply negb_false_iff, hasPrefixAt_length in Hp; [|done]. change (length pemBeginPrefix) with 11%nat in Hp.
  rewrite (cut_Some src i (scanToLineFeed src i)) by (scan_facts; lia). cbn [mbind option_bind].
  destruct (negb _); [auto with redact|].
  set (le := scanToLineFeed src i). set (bs := if Nat.ltb le (length src) then S le else le).
  assert (Hle : (i <= le <= length src)%nat) by (unfold le; scan_facts; lia).
  assert (Hbs : (le <= bs <= length src)%nat) by (unfold bs; destruct (Nat.ltb_spec le (length src)); lia).
  destruct (pem_end_loop_ok src (length src) bs) as (e & He & Hbe); [lia..|]. unfold findPEMEndLine. rewrite He.
  cbn [mbind option_bind]. destruct (Nat.eqb_spec e bs) as [|Hne]; [auto with redact|].
  rewrite cut_span by lia. cbn [mbind option_bind].
  assert (Hnl : byteIs src (bs - 1) (fun c => c =? cCR) = false).
  { unfold bs. destruct (Nat.ltb_spec le (length src)) as [Hlt|]; [|lia].
    replace (S le - 1)%nat with le by lia. unfold byteIs. destruct (src !! le) as [c|] eqn:Hc; [|done].
    apply scan_stop, negb_false_iff, Z.eqb_eq in Hc. by subst c. }
  destruct (pemBodyTerminator_ok src bs e) as (t & -> & h & Hh); [lia|done|]. cbn [mbind option_bind].
  apply rule_some; [lia|]. rewrite (span_app src i bs e) by lia. apply renders_app; [apply renders_refl|].
  rewrite Hh. constructor; [by left|apply renders_refl].
Qed.

Lemma inlinePEMPrivateKeyLabelEnd_ok src i : (i <= length src)%nat →
  ∃ o, inlinePEMPrivateKeyLabelEnd src i = Some o ∧ ∀ e, o = Some e → (i < e <= length src)%nat.
Proof.
  intros Hi. unfold inlinePEMPrivateKeyLabelEnd. rewrite cut_Some by lia. cbn [mbind option_bind].
  eexists. split; [done|]. set (w := take _ _).
  assert (Hw : ∀ label k, label ≠ [] → Index w label = Some k → (i < i + k + length label <= length src)%nat).
  { intros label k Hne Hk. apply Index_spec in Hk as [Hk _]. unfold w in Hk. rewrite length_take, length_drop in Hk.
    assert (0 < length label)%nat by (destruct label; [done|simpl; lia]). lia. }
  unfold pemPrivateKeyLabels. cbn [fmap list_fmap foldl].
  destruct (Index w (str "PRIVATE KEY-----")) as [k1|] eqn:H1, (Index w (str "PRIVATE KEY BLOCK-----")) as [k2|] eqn:H2;
    try apply Hw in H1; try apply Hw in H2; try done; intros e; [case_match|..]; by intros [= <-].
Qed.

Lemma inlinePEMBodyEnd_ok src i : (i <= length src)%nat → ∃ e, inlinePEMBodyEnd src i = Some e ∧ (i <= e <= length src)%nat.
Proof.
  intros Hi. unfold inlinePEMBodyEnd. rewrite cut_Some by lia. cbn [mbind option_bind].
  destruct (Index _ _) as [k|] eqn:Hk; eexists; (split; [done|]); [|scan_facts; lia].
  apply Index_spec in Hk as [Hk _]. rewrite length_take, length_drop in Hk. lia.
Qed.

Lemma appendRedactedInlinePEMKeyAt_ok src i : (i <= length src)%nat →
  rule_ok (marker re) src i (appendRedactedInlinePEMKeyAt re src i).
Proof.
  intros Hi. unfold appendRedactedInlinePEMKeyAt. destruct (negb _); [auto with redact|].
  destruct (inlinePEMPrivateKeyLabelEnd_ok src i Hi) as ([m|] & -> & Hm); cbn [mbind option_bind]; [|auto with redact].
  specialize (Hm _ eq_refl). destruct (inlinePEMBodyEnd_ok src m) as (e & -> & He); [lia|]. cbn [mbind option_bind].
  rewrite (cut_Some src m e) by lia. cbn [mbind option_bind]. destruct (isWhitespaceOnly _); [auto with redact|].
  rewrite cut_span by lia. cbn [mbind option_bind]. apply rule_some; [lia|]. apply renders_kept; [lia|by left].
Qed.
End Sound.
