(* ===== verification/RedactJSON.v ===== *)
(** * [pkg/redact]: JSON members (json.go)

    Keys and values of JSON objects, escaped objects inside strings, and
    labelled secrets, in the conventions of RedactRules. An index past the end
    of the source is kept as the code computes it: an unterminated string that
    ends in a backslash ends one byte past the source. *)

From stdpp Require Import base option list gmap.
From Stdlib Require Import String.
From S2P Require Import Prelude GoString RedactBytes RedactKeys RedactRender RedactRules.

#[local] Open Scope Z_scope.

Definition isJSONSpace (c : Z) : bool := (c =? cSpace) || (c =? cTab) || (c =? cNL) || (c =? cCR).

Definition skipJSONWhitespace : gostring → nat → nat := scan isJSONSpace.

(** [parseJSONStringEnd] from [vEnd] on: [bytes] is [src[vEnd:]]. *)
Fixpoint string_loop (bytes : gostring) (vEnd : nat) : nat :=
  match bytes with
  | [] => vEnd
  | c :: bytes =>
      if c =? cBackslash then
        match bytes with
        | [] => S (S vEnd)
        | _ :: bytes => string_loop bytes (S (S vEnd))
        end
      else if c =? cQuote then S vEnd
      else string_loop bytes (S vEnd)
  end.

Definition parseJSONStringEnd (src : gostring) (j : nat) : nat := string_loop (drop (S j) src) (S j).

(** The loop of [parseJSONContainerEnd]; every round advances. *)
Fixpoint container_loop (fuel : nat) (src : gostring) (j : nat) (depth : Z) : option nat :=
  match src !! j with
  | None => Some (length src)
  | Some c =>
      match fuel with
      | O => None
      | S fuel =>
          if (c =? cLBrace) || (c =? cLBracket) then container_loop fuel src (S j) (depth + 1)
          else if (c =? cRBrace) || (c =? cRBracket) then
            if depth - 1 =? 0 then Some (S j) else container_loop fuel src (S j) (depth - 1)
          else if c =? cQuote then container_loop fuel src (parseJSONStringEnd src j) depth
          else container_loop fuel src (S j) depth
      end
  end.

Definition parseJSONContainerEnd (src : gostring) (j : nat) : option nat := container_loop (length src) src j 0.

(** 0 for no literal. *)
Definition jsonLiteralEnd (src : gostring) (j : nat) : nat :=
  if hasPrefixAt src j (str "true") then j + 4
  else if hasPrefixAt src j (str "false") then j + 5
  else if hasPrefixAt src j (str "null") then j + 4
  else 0.

Definition isJSONValueDelimiter (c : Z) : bool :=
  bool_decide (c ∈ [cComma; cRBrace; cRBracket; cSpace; cTab; cNL; cCR]).

Definition delimitedValueEnd (src : gostring) (end_ : nat) : nat :=
  if byteIs src end_ (fun c => negb (isJSONValueDelimiter c)) then 0%nat else end_.

Definition parseJSONNumberEnd (src : gostring) (j : nat) : nat :=
  scan (fun c => (c =? cDash) || (c =? cPlus) || (c =? cDot) || (c =? 101) || (c =? 69) || isDigitByte c) src j.

(** 0 for no value. *)
Definition jsonValueEnd (src : gostring) (j : nat) : option nat :=
  c ← src !! j;
  if c =? cQuote then Some (parseJSONStringEnd src j)
  else if (c =? cLBrace) || (c =? cLBracket) then parseJSONContainerEnd src j
  else
    let literalEnd := jsonLiteralEnd src j in
    if Nat.ltb 0 literalEnd then Some (delimitedValueEnd src literalEnd)
    else if (c =? cDash) || isDigitByte c then Some (delimitedValueEnd src (parseJSONNumberEnd src j))
    else Some 0%nat.

(** [findJSONStringClosingQuote] over [src[i:]]. *)
Fixpoint closing_loop (bytes : gostring) (i : nat) : option nat :=
  match bytes with
  | [] => None
  | c :: bytes =>
      if c =? cBackslash then
        match bytes with [] => None | _ :: bytes => closing_loop bytes (S (S i)) end
      else if c =? cQuote then Some i
      else if (c =? cNL) || (c =? cCR) then None
      else closing_loop bytes (S i)
  end.

Definition findJSONStringClosingQuote (src : gostring) (i : nat) : option nat := closing_loop (drop i src) i.

(** [None] for the two failing returns, which the callers do not tell apart. *)
Definition findJSONValueStart (src : gostring) (q2 : nat) : option nat :=
  let j := skipJSONWhitespace src (S q2) in
  if negb (byteIs src j (fun c => c =? cColon)) then None
  else
    let valueStart := skipJSONWhitespace src (S j) in
    if Nat.leb (length src) valueStart then None else Some valueStart.

Definition isJSONLabelKey (key : gostring) : bool :=
  equalsASCIIFold key (str "name") || equalsASCIIFold key (str "key") || equalsASCIIFold key (str "id").

Definition isJSONValueKey (key : gostring) : bool :=
  equalsASCIIFold key (str "value") || equalsASCIIFold key (str "val").

Definition findSiblingValueMember (src : gostring) (labelValEnd : nat) : option (option (nat * nat)) :=
  let j := skipJSONWhitespace src labelValEnd in
  if negb (byteIs src j (fun c => c =? cComma)) then Some None
  else
    let j := skipJSONWhitespace src (S j) in
    if negb (byteIs src j (fun c => c =? cQuote)) then Some None
    else
      match findJSONStringClosingQuote src (S j) with
      | None => Some None
      | Some vq2 =>
          key ← cut src (S j) vq2;
          if negb (isJSONValueKey key) then Some None
          else
            match findJSONValueStart src vq2 with
            | None => Some None
            | Some sibValStart =>
                sibValEnd ← jsonValueEnd src sibValStart;
                if Nat.eqb sibValEnd 0 then Some None else Some (Some (sibValStart, sibValEnd))
            end
      end.

(** ** Escaped keys *)

(** [escapedJSONKeyContext] with [k = p + 1]; [None] is -1. *)
Fixpoint escapedJSONKeyContext (src : gostring) (k : nat) : option nat :=
  match k with
  | O => None
  | S p =>
      if byteIs src p isInlineSpace then escapedJSONKeyContext src p
      else
        match p with
        | S p' =>
            if byteIs src p (fun c => (c =? 110) || (c =? 116) || (c =? 114)) &&
               byteIs src p' (fun c => c =? cBackslash)
            then escapedJSONKeyContext src p'
            else Some p
        | O => Some p
        end
  end.

(** [simpleEscapedStringEnd] over [src[p:]]. *)
Fixpoint escaped_loop (bytes : gostring) (p : nat) : option nat :=
  match bytes with
  | c :: ((d :: _) as bytes) =>
      if c =? cBackslash then (if d =? cQuote then Some p else None)
      else if (c =? cQuote) || (c =? cNL) || (c =? cCR) then None
      else escaped_loop bytes (S p)
  | _ => None
  end.

Definition simpleEscapedStringEnd (src : gostring) (p : nat) : option nat := escaped_loop (drop p src) p.

Section Members.
Context (uc : unicode) (re : Redactor).

(** [likelyJSONKeyStart] from [j = k - 1] down. *)
Fixpoint likelyJSONKeyStart (src : gostring) (k : nat) : option bool :=
  match k with
  | O => Some true
  | S j =>
      c ← src !! j;
      if isJSONSpace c then likelyJSONKeyStart src j
      else if (c =? cLBrace) || (c =? cComma) then Some true
      else markerEndsAt re src j
  end.

Definition quotedMarker : gostring := cQuote :: marker re ++ [cQuote].

Definition appendLabeledSecretJSON (src : gostring) (i : nat) (labelKey : gostring) (labelValStart : nat)
    : option (option (nat * gostring)) :=
  c ← src !! labelValStart;
  if negb (c =? cQuote) then Some None
  else
    let labelValEnd := parseJSONStringEnd src labelValStart in
    if Nat.leb labelValEnd (S labelValStart) then Some None
    else
      closing ← src !! (labelValEnd - 1)%nat;
      if negb (closing =? cQuote) then Some None
      else
        label ← cut src (S labelValStart) (labelValEnd - 1);
        if negb (strongSecret uc re label) then Some None
        else
          sib ← findSiblingValueMember src labelValEnd;
          match sib with
          | None => Some None
          | Some (sibValStart, sibValEnd) =>
              head ← cut src i labelValStart;
              value ← (if sensitive uc re labelKey then Some quotedMarker else cut src labelValStart labelValEnd);
              middle ← cut src labelValEnd sibValStart;
              Some (Some (sibValEnd, head ++ value ++ middle ++ quotedMarker))
          end.

Definition appendRedactedSensitiveJSONAt (src : gostring) (i : nat) : option (option (nat * gostring)) :=
  match findJSONStringClosingQuote src (S i) with
  | None => Some None
  | Some q2 =>
      key ← cut src (S i) q2;
      if bool_decide (cEq ∈ key) then Some None
      else
        match findJSONValueStart src q2 with
        | None => Some None
        | Some valueStart =>
            labeled ← (if isJSONLabelKey key then appendLabeledSecretJSON src i key valueStart else Some None);
            match labeled with
            | Some r => Some (Some r)
            | None =>
                if negb (sensitive uc re key) then Some None
                else
                  valueEnd ← jsonValueEnd src valueStart;
                  if Nat.eqb valueEnd 0 then Some None
                  else
                    sep ← cut src (S q2) valueStart;
                    Some (Some (valueEnd, [cQuote] ++ key ++ [cQuote] ++ sep ++ quotedMarker))
            end
        end
  end.

Definition appendRedactedEscapedJSONAt (src : gostring) (i : nat) : option (option (nat * gostring)) :=
  if match escapedJSONKeyContext src (i - 1) with
     | Some p => negb (byteIs src p (fun c => (c =? cLBrace) || (c =? cComma)))
     | None => false
     end
  then Some None
  else
    let keyStart := S i in
    match simpleEscapedStringEnd src keyStart with
    | None => Some None
    | Some keyClose =>
        let j := skipJSONWhitespace src (keyClose + 2) in
        if negb (byteIs src j (fun c => c =? cColon)) then Some None
        else
          let valStart := skipJSONWhitespace src (S j) in
          if negb (byteIs src valStart (fun c => c =? cBackslash) && byteIs src (S valStart) (fun c => c =? cQuote))
          then Some None
          else
            match simpleEscapedStringEnd src (valStart + 2) with
            | None => Some None
            | Some valClose =>
                key ← cut src keyStart keyClose;
                if negb (sensitive uc re key) then Some None
                else
                  kept ← cut src i valStart;
                  Some (Some ((valClose + 2)%nat,
                    kept ++ [cBackslash; cQuote] ++ marker re ++ [cBackslash; cQuote]))
            end
    end.
End Members.

(** ** The rules are sound *)

Section Sound.
Context (uc : unicode) (re : Redactor).

Lemma string_loop_range n : ∀ bytes v, (length bytes <= n)%nat →
  (v <= string_loop bytes v <= S (v + length bytes))%nat ∧
  (last bytes ≠ Some cBackslash → string_loop bytes v <= v + length bytes)%nat.
Proof.
  induction n as [|n IH]; intros bytes v Hn; (destruct bytes as [|c bytes]; [simpl; split; lia|simpl in Hn]); [lia|].
  cbn [string_loop]. destruct (Z.eqb_spec c cBackslash) as [->|].
  - destruct bytes as [|d bytes]; [simpl; split; [lia|done]|]. simpl in Hn.
    destruct (IH bytes (S (S v)) ltac:(lia)) as [H1 H2]. simpl length. split; [lia|]. intros Hl.
    destruct bytes as [|d' bytes]; [simpl; lia|]. specialize (H2 Hl). simpl in *. lia.
  - destruct (c =? cQuote); [simpl; split; lia|]. destruct (IH bytes (S v) ltac:(lia)) as [H1 H2]. simpl length.
    split; [lia|]. intros Hl. destruct bytes as [|d' bytes]; [simpl; lia|]. specialize (H2 Hl). simpl in *. lia.
Qed.

Lemma last_drop {A} (l : list A) k : (k < length l)%nat → last (drop k l) = last l.
Proof.
  intros Hk. rewrite <- (take_drop k l) at 2. destruct (drop k l) as [|x r] eqn:Hd.
  - apply (f_equal length) in Hd. rewrite length_drop in Hd. simpl in Hd. lia.
  - rewrite last_app, last_cons. by destruct (last r).
Qed.

Lemma parseJSONStringEnd_range src j : (j < length src)%nat →
  (j < parseJSONStringEnd src j <= S (length src))%nat ∧
  (last src ≠ Some cBackslash → parseJSONStringEnd src j <= length src)%nat.
Proof.
  intros Hj. unfold parseJSONStringEnd.
  destruct (string_loop_range (length (drop (S j) src)) (drop (S j) src) (S j) ltac:(lia)) as [H1 H2].
  rewrite length_drop in *. split; [lia|]. intros Hl.
  destruct (Nat.eq_dec (S j) (length src)) as [Heq|]; [|rewrite last_drop in H2 by lia; specialize (H2 Hl); lia].
  rewrite drop_ge by lia. simpl. lia.
Qed.

Lemma container_loop_ok src fuel : ∀ j depth, (length src <= j + fuel)%nat →
  ∃ e, container_loop fuel src j depth = Some e ∧ (j < length src → j < e)%nat.
Proof.
  induction fuel as [|fuel IH]; intros j depth Hf; cbn [container_loop].
  - rewrite (lookup_ge_None_2 src j) by lia. eexists. split; [done|lia].
  - destruct (src !! j) as [c|] eqn:Hc; [|apply lookup_ge_None in Hc; eexists; split; [done|lia]].
    apply lookup_lt_Some in Hc. pose proof (parseJSONStringEnd_range src j Hc) as [Hs _].
    assert (Hstep : ∀ k d, (j < k)%nat → (∃ e, container_loop fuel src k d = Some e ∧ (j < length src → j < e)%nat)).
    { intros k d Hk. destruct (IH k d ltac:(lia)) as (e & He & Hlt). exists e. split; [done|]. intros _.
      destruct (Nat.lt_ge_cases k (length src)) as [Hk2|Hk2]; [specialize (Hlt Hk2); lia|].
      destruct fuel; cbn [container_loop] in He; rewrite (lookup_ge_None_2 src k) in He by lia; injection He as <-; lia. }
    repeat match goal with
      | |- context [if ?b then _ else _] => destruct b
      end; try (apply Hstep; lia). eexists. split; [done|lia].
Qed.

Lemma delimitedValueEnd_cases src e : delimitedValueEnd src e = e ∨ delimitedValueEnd src e = 0%nat.
Proof. unfold delimitedValueEnd. destruct (byteIs _ _ _); auto. Qed.

Lemma jsonLiteralEnd_cases src j : jsonLiteralEnd src j = 0%nat ∨ (j < jsonLiteralEnd src j)%nat.
Proof. unfold jsonLiteralEnd. repeat case_match; lia. Qed.

(** A value that is found has a byte. *)
Lemma jsonValueEnd_ok src j : (j < length src)%nat →
  ∃ e, jsonValueEnd src j = Some e ∧ (e ≠ 0%nat → j < e)%nat.
Proof.
  intros Hj. unfold jsonValueEnd. destruct (lookup_lt_is_Some_2 src j Hj) as [c Hc]. rewrite Hc. cbn [mbind option_bind].
  destruct (c =? cQuote).
  { eexists. split; [done|]. pose proof (parseJSONStringEnd_range src j Hj). lia. }
  destruct (_ || _).
  { unfold parseJSONContainerEnd. destruct (container_loop_ok src (length src) j 0 ltac:(lia)) as (e & -> & He).
    exists e. split; [done|]. intros _. by apply He. }
  destruct (Nat.ltb_spec 0 (jsonLiteralEnd src j)) as [Hl|Hl].
  { eexists. split; [done|]. destruct (jsonLiteralEnd_cases src j), (delimitedValueEnd_cases src (jsonLiteralEnd src j)); lia. }
  destruct ((c =? cDash) || isDigitByte c) eqn:Hn; [|by exists 0%nat]. eexists. split; [done|].
  assert (j < parseJSONNumberEnd src j)%nat.
  { eapply scan_hit; [done|]. apply orb_true_iff in Hn as [Hn|Hn]; rewrite Hn; by rewrite ?orb_true_r. }
  destruct (delimitedValueEnd_cases src (parseJSONNumberEnd src j)); lia.
Qed.

Lemma closing_loop_range n : ∀ bytes i q, (length bytes <= n)%nat → closing_loop bytes i = Some q →
  (i <= q < i + length bytes)%nat.
Proof.
  induction n as [|n IH]; intros bytes i q Hn; (destruct bytes as [|c bytes]; [done|simpl in Hn]); [lia|].
  cbn [closing_loop]. destruct (c =? cBackslash).
  - destruct bytes as [|d bytes]; [done|]. simpl in Hn |- *. intros Hq%IH; [|lia]. lia.
  - destruct (c =? cQuote); [intros [= <-]; simpl; lia|]. destruct (_ || _); [done|].
    intros Hq%IH; [|lia]. simpl. lia.
Qed.

Lemma findJSONStringClosingQuote_range src i q : findJSONStringClosingQuote src i = Some q → (i <= q < length src)%nat.
Proof. intros Hq. eapply closing_loop_range in Hq; [|done]. rewrite length_drop in Hq. lia. Qed.

Lemma findJSONValueStart_range src q v : findJSONValueStart src q = Some v → (S q < v < length src)%nat.
Proof.
  unfold findJSONValueStart, skipJSONWhitespace. destruct (negb _) eqn:Hb; [done|].
  destruct (Nat.leb_spec (length src) (scan isJSONSpace src (S (scan isJSONSpace src (S q))))); [done|].
  intros [= <-]. scan_facts. lia.
Qed.

Lemma findSiblingValueMember_ok src i :
  ∃ o, findSiblingValueMember src i = Some o ∧ ∀ s e, o = Some (s, e) → (i < s < length src)%nat ∧ (s < e)%nat.
Proof.
  unfold findSiblingValueMember, skipJSONWhitespace. destruct (negb _) eqn:Hb1; [by exists None|].
  destruct (negb (byteIs _ _ (fun c => c =? cQuote))) eqn:Hb2; [by exists None|].
  destruct (findJSONStringClosingQuote _ _) as [q|] eqn:Hq; [|by exists None].
  apply findJSONStringClosingQuote_range in Hq. rewrite cut_Some by lia. cbn [mbind option_bind].
  destruct (negb (isJSONValueKey _)); [by exists None|].
  destruct (findJSONValueStart src q) as [v|] eqn:Hv; [|by exists None]. apply findJSONValueStart_range in Hv.
  destruct (jsonValueEnd_ok src v) as (e & -> & He); [lia|]. cbn [mbind option_bind].
  destruct (Nat.eqb_spec e 0) as [|Hne]; [by exists None|]. specialize (He Hne). eexists. split; [done|].
  intros ? ? [= <- <-]. scan_facts. lia.
Qed.

Lemma quotedMarker_hides : hides (marker re) (quotedMarker re).
Proof. right. left. done. Qed.

(** Without a trailing backslash the label is read within the source. *)
Lemma appendLabeledSecretJSON_ok src i key v : (i < v < length src)%nat →
  rule_may (marker re) src i (appendLabeledSecretJSON uc re src i key v).
Proof.
  intros Hv. unfold appendLabeledSecretJSON. destruct (lookup_lt_is_Some_2 src v) as [c ->]; [lia|].
  cbn [mbind option_bind]. destruct (negb _); [auto with redact|].
  destruct (parseJSONStringEnd_range src v) as [Hr Hle]; [lia|].
  set (e := parseJSONStringEnd src v) in *. destruct (Nat.leb_spec e (S v)); [auto with redact|].
  destruct (src !! (e - 1)%nat) as [d|] eqn:Hd; cbn [mbind option_bind];
    [apply lookup_lt_Some in Hd; left|right; split; [|done]; apply lookup_ge_None in Hd;
     destruct (decide (last src = Some cBackslash)) as [|Hno]; [done|specialize (Hle Hno); lia]].
  destruct (negb _); [auto with redact|]. rewrite (cut_Some src (S v)) by lia. cbn [mbind option_bind].
  destruct (negb _); [auto with redact|].
  destruct (findSiblingValueMember_ok src e) as ([[s f]|] & -> & Hs); cbn [mbind option_bind]; [|auto with redact].
  destruct (Hs _ _ eq_refl) as [Hs1 Hs2]. rewrite (cut_span src i v) by lia. cbn [mbind option_bind].
  set (val := if sensitive _ _ _ then _ else _).
  assert (Hval : ∃ w, val = Some w ∧ renders (marker re) (span src v e) w).
  { unfold val. destruct (sensitive _ _ _).
    - eexists. split; [done|]. apply renders_hidden, quotedMarker_hides.
    - rewrite cut_span by lia. eexists. split; [done|apply renders_refl]. }
  destruct Hval as (w & -> & Hw). cbn [mbind option_bind]. rewrite (cut_span src e s) by lia. cbn [mbind option_bind].
  apply rule_some; [lia|]. rewrite (span_app src i v f), (span_app src v e f), (span_app src e s f) by lia.
  repeat apply renders_app; try apply renders_refl; [done|]. apply renders_hidden, quotedMarker_hides.
Qed.

Lemma closing_loop_quote n : ∀ bytes i q, (length bytes <= n)%nat → closing_loop bytes i = Some q →
  bytes !! (q - i)%nat = Some cQuote.
Proof.
  induction n as [|n IH]; intros bytes i q Hn; (destruct bytes as [|c bytes]; [done|simpl in Hn]); [lia|].
  cbn [closing_loop]. destruct (c =? cBackslash).
  - destruct bytes as [|d bytes]; [done|]. simpl in Hn. intros Hq. pose proof Hq as Hr.
    eapply closing_loop_range in Hr; [|done]. apply IH in Hq; [|lia].
    by replace (q - i)%nat with (S (S (q - S (S i)))) by lia.
  - destruct (Z.eqb_spec c cQuote) as [->|]; [intros [= <-]; by rewrite Nat.sub_diag|]. destruct (_ || _); [done|].
    intros Hq. pose proof Hq as Hr. eapply closing_loop_range in Hr; [|done]. apply IH in Hq; [|lia].
    by replace (q - i)%nat with (S (q - S i)) by lia.
Qed.

Lemma findJSONStringClosingQuote_quote src i q : findJSONStringClosingQuote src i = Some q → src !! q = Some cQuote.
Proof.
  intros Hq. pose proof (findJSONStringClosingQuote_range _ _ _ Hq). eapply closing_loop_quote in Hq; [|done].
  rewrite lookup_drop in Hq. by replace (i + (q - i))%nat with q in Hq by lia.
Qed.

Lemma appendRedactedSensitiveJSONAt_ok src i : src !! i = Some cQuote →
  rule_may (marker re) src i (appendRedactedSensitiveJSONAt uc re src i).
Proof.
  intros Hi. unfold appendRedactedSensitiveJSONAt.
  destruct (findJSONStringClosingQuote src (S i)) as [q|] eqn:Hq; [|auto with redact].
  pose proof (findJSONStringClosingQuote_quote _ _ _ Hq) as Hqq. apply findJSONStringClosingQuote_range in Hq.
  rewrite (cut_span src (S i) q) by lia. cbn [mbind option_bind]. case_bool_decide; [auto with redact|].
  destruct (findJSONValueStart src q) as [v|] eqn:Hv; [|auto with redact]. apply findJSONValueStart_range in Hv.
  set (lab := if isJSONLabelKey _ then _ else _).
  assert (Hlab : rule_may (marker re) src i lab).
  { unfold lab. destruct (isJSONLabelKey _); [apply appendLabeledSecretJSON_ok; lia|auto with redact]. }
  destruct Hlab as [([[n out]|] & -> & Hlab)|[Hbs ->]]; cbn [mbind option_bind];
    [left; exists (Some (n, out)); by split|left|by right].
  destruct (negb _); [auto with redact|].
  destruct (jsonValueEnd_ok src v) as (e & -> & He); [lia|]. cbn [mbind option_bind].
  destruct (Nat.eqb_spec e 0) as [|Hne]; [auto with redact|]. specialize (He Hne).
  rewrite cut_span by lia. cbn [mbind option_bind]. apply rule_some; [lia|].
  rewrite (span_cons src i e _ Hi), (span_app src (S i) q e), (span_cons src q e _ Hqq), (span_app src (S q) v e) by lia.
  cbn [app]. constructor. apply renders_app; [apply renders_refl|]. constructor.
  apply renders_app; [apply renders_refl|]. apply renders_hidden, quotedMarker_hides.
Qed.

Lemma escaped_loop_range bytes p q : escaped_loop bytes p = Some q → (p <= q ∧ q + 1 < p + length bytes)%nat.
Proof.
  revert p. induction bytes as [|c [|d bytes] IH]; intros p; [done..|]. cbn [escaped_loop].
  destruct (c =? cBackslash); [destruct (d =? cQuote); [intros [= <-]; simpl; lia|done]|].
  destruct (_ || _); [done|]. intros Hq%IH. simpl in *. lia.
Qed.

Lemma simpleEscapedStringEnd_range src p q : simpleEscapedStringEnd src p = Some q → (p <= q ∧ q + 1 < length src)%nat.
Proof. intros Hq%escaped_loop_range. rewrite length_drop in Hq. lia. Qed.

Lemma appendRedactedEscapedJSONAt_ok src i : rule_ok (marker re) src i (appendRedactedEscapedJSONAt uc re src i).
Proof.
  unfold appendRedactedEscapedJSONAt, skipJSONWhitespace.
  destruct (match escapedJSONKeyContext _ _ with Some _ => _ | None => _ end); [auto with redact|].
  destruct (simpleEscapedStringEnd src (S i)) as [k|] eqn:Hk; [|auto with redact].
  apply simpleEscapedStringEnd_range in Hk. destruct (negb _) eqn:Hb; [auto with redact|].
  destruct (negb (_ && _)) eqn:Hb2; [auto with redact|].
  destruct (simpleEscapedStringEnd src _) as [v|] eqn:Hv; [|auto with redact].
  apply simpleEscapedStringEnd_range in Hv. rewrite (cut_Some src (S i) k) by lia. cbn [mbind option_bind].
  destruct (negb (sensitive _ _ _)); [auto with redact|]. scan_facts.
  rewrite cut_span by lia. cbn [mbind option_bind]. apply rule_some; [lia|].
  apply renders_kept; [lia|]. right. by right.
Qed.

Lemma markerEndsAt_ok src j : marker re ≠ [] → (j < length src)%nat → is_Some (markerEndsAt re src j).
Proof.
  intros Hm Hj. unfold markerEndsAt. destruct (Nat.ltb _ _); [by eexists|].
  destruct (lookup_lt_is_Some_2 src j Hj) as [c ->]. cbn [mbind option_bind].
  destruct (last (marker re)) as [m|] eqn:Hl; [|by apply last_None in Hl]. cbn [mbind option_bind].
  destruct (negb _); by eexists.
Qed.

Lemma likelyJSONKeyStart_ok src k : marker re ≠ [] → (k <= length src)%nat → is_Some (likelyJSONKeyStart re src k).
Proof.
  intros Hm. induction k as [|j IH]; intros Hk; cbn [likelyJSONKeyStart]; [by eexists|].
  destruct (lookup_lt_is_Some_2 src j Hk) as [c ->]. cbn [mbind option_bind].
  destruct (isJSONSpace c); [apply IH; lia|]. destruct (_ || _); [by eexists|by apply markerEndsAt_ok].
Qed.
End Sound.
