(* ===== verification/RedactEngine.v ===== *)
(** * [pkg/redact]: the engine (engine.go, scan.go, redactor.go)

    The dispatch of the rules and the main loop with its bulk copy. The loop
    is given one round per byte: every round consumes one. [String], [Bytes],
    [AppendTo] and [Pooled] differ in where the output goes: they are
    [redactInto]. *)

From stdpp Require Import base option list gmap.
From Stdlib Require Import String.
From S2P Require Import Prelude GoString RedactBytes RedactKeys RedactCards RedactRender RedactRules RedactMarkup RedactJSON.

#[local] Open Scope Z_scope.

(** ** Dispatch *)

Definition isVendorTrigger (c : Z) : bool := bool_decide (c ∈ [103; 120; 115; 114; 119; 100; 65; 104; 83]).

(** 0 for no rule. *)
Definition triggerRule (c : Z) : Z :=
  if c =? cQuote then RuleJSON
  else if c =? cEq then RuleURLEncoded
  else if c =? cColon then RuleUserinfo
  else if c =? 101 then RuleJWT
  else if c =? cLt then RuleXML
  else if c =? cDash then RulePEM
  else if isVendorTrigger c then RuleVendorTokens
  else 0.

(** ** The bulk scan *)

Inductive trig := trigNone | trigStop | trigColon | trigJWT | trigDash | trigVendor.

Definition bulkTrigger (c : Z) : trig :=
  if (c =? cQuote) || (c =? cEq) || (c =? cNL) || (c =? cLt) || isDigitByte c then trigStop
  else if c =? cColon then trigColon
  else if c =? 101 then trigJWT
  else if c =? cDash then trigDash
  else if isVendorTrigger c then trigVendor
  else trigNone.

(** Whether the scan stops at [src[j]]. *)
Definition bulkStops (src : gostring) (j : nat) : option bool :=
  c ← src !! j;
  match bulkTrigger c with
  | trigNone => Some false
  | trigStop => Some true
  | trigColon => Some (byteIs src (j + 1) (fun c => c =? cSlash) && byteIs src (j + 2) (fun c => c =? cSlash))
  | trigJWT => Some (byteIs src (j + 1) (fun c => c =? 121) && byteIs src (j + 2) (fun c => c =? 74) && negb (afterWord src j))
  | trigDash => Some (hasPrefixAt src j (str "-----B"))
  | trigVendor => if afterWord src j then Some false else isVendorTokenStart src j
  end.

(** [n] bytes are left from [j] on. *)
Fixpoint bulk_loop (n : nat) (src : gostring) (j : nat) : option nat :=
  match n with
  | O => Some j
  | S n => stop ← bulkStops src j; if stop : bool then Some j else bulk_loop n src (S j)
  end.

Definition bulkTextEnd (src : gostring) (i : nat) : option nat := bulk_loop (length src - S i) src (S i).

Section Engine.
Context (uc : unicode) (re : Redactor).

Definition appendLineStartRedactionAt (src : gostring) (i : nat) : option (option (nat * gostring)) :=
  c ← src !! i;
  pem ← (if (c =? cDash) && enabled re RulePEM then appendRedactedPEMKeyAt re src i else Some None);
  match pem with
  | Some r => Some (Some r)
  | None =>
      if enabled re RuleHeaders then
        let nameStart := skipHeaderLinePrefix src i in
        valueStart ← sensitiveHeaderValueStart uc re src nameStart;
        match valueStart with
        | None => Some None
        | Some valueStart => kept ← cut src i valueStart; Some (Some (headerValueEnd src valueStart, kept ++ marker re))
        end
      else Some None
  end.

Definition appendTriggeredRedactionAt (src : gostring) (i : nat) : option (option (nat * gostring)) :=
  c ← src !! i;
  let rule := triggerRule c in
  if (rule =? 0) || negb (enabled re rule) then Some None
  else if c =? cQuote then
    key ← likelyJSONKeyStart re src i;
    if key : bool then appendRedactedSensitiveJSONAt uc re src i
    else
      match i with
      | S j => if byteIs src j (fun c => c =? cBackslash) then appendRedactedEscapedJSONAt uc re src i else Some None
      | O => Some None
      end
  else if c =? cEq then appendRedactedURLEncodedValueAt uc re src i
  else if c =? cColon then appendRedactedURLPasswordAt re src i
  else if c =? 101 then appendRedactedJWTAt re src i
  else if c =? cLt then appendRedactedXMLValueAt uc re src i
  else if c =? cDash then appendRedactedInlinePEMKeyAt re src i
  else appendRedactedVendorTokenAt re src i.

Definition appendDigitRunAt (src : gostring) (i : nat) : option (nat * gostring) :=
  let j := scanDigits src i in
  run ← cut src i j;
  if afterWord src i then Some (j, run)
  else if negb (enabled re RuleCards) || byteIs src j isWordChar then Some (j, run)
  else
    card ← isCreditCard (luhn re) run;
    if card : bool then Some (j, marker re)
    else
      span ← scanGroupedCardSpan (luhn re) src i j;
      match span with
      | Some end_ => Some (end_, marker re)
      | None => Some (j, run)
      end.

(** [i == 0 || src[i-1] == '\n'] *)
Definition lineStart (src : gostring) (i : nat) : bool :=
  match i with O => true | S j => byteIs src j (fun c => c =? cNL) end.

(** One round of the loop of [redactInto], [copyEnd] telling where plain text
    that starts at [i] may be copied to. *)
Definition round (copyEnd : gostring → nat → option nat) (src : gostring) (i : nat) : option (nat * gostring) :=
  line ← (if lineStart src i then appendLineStartRedactionAt src i else Some None);
  match line with
  | Some r => Some r
  | None =>
      c ← src !! i;
      if isDigitByte c then appendDigitRunAt src i
      else
        triggered ← appendTriggeredRedactionAt src i;
        match triggered with
        | Some r => Some r
        | None =>
            if c =? cNL then Some (S i, [c])
            else j ← copyEnd src i; text ← cut src i j; Some (j, text)
        end
  end.

Fixpoint redact_loop (copyEnd : gostring → nat → option nat) (fuel : nat) (src : gostring) (i : nat) (dst : gostring)
    : option gostring :=
  if Nat.ltb i (length src) then
    match fuel with
    | O => None
    | S fuel => '(next, out) ← round copyEnd src i; redact_loop copyEnd fuel src next (dst ++ out)
    end
  else Some dst.
End Engine.

(** The zero value redacts with the default marker. *)
Definition usableRedactor (re : Redactor) : Redactor :=
  if decide (marker re = []) then MkRedactor RedactionMarker (disabled re) (luhn re) (tokens re) else re.

Definition redactInto (uc : unicode) (re : Redactor) (src : gostring) : option gostring :=
  redact_loop uc (usableRedactor re) bulkTextEnd (length src) src 0 [].

(** The engine without its bulk copy. *)
Definition redactBytewise (uc : unicode) (re : Redactor) (src : gostring) : option gostring :=
  redact_loop uc (usableRedactor re) (fun _ i => Some (S i)) (length src) src 0 [].

Definition redact_example (src : String.string) : option gostring := redactInto noUnicode (New []) (str src).

(** ** The engine is total *)

Section Total.
Context (uc : unicode) (re : Redactor).

Lemma rule_ok_line src i : (i < length src)%nat → rule_ok (marker re) src i (appendLineStartRedactionAt uc re src i).
Proof.
  intros Hi. unfold appendLineStartRedactionAt. destruct (lookup_lt_is_Some_2 src i Hi) as [c ->]. cbn [mbind option_bind].
  set (pem := if _ && _ then _ else _). assert (Hpem : rule_ok (marker re) src i pem).
  { unfold pem. destruct (_ && _); [apply appendRedactedPEMKeyAt_ok|auto with redact]. }
  destruct Hpem as ([[n out]|] & -> & Hpem); cbn [mbind option_bind]; [exists (Some (n, out)); by split|].
  destruct (enabled re RuleHeaders); [|auto with redact]. pose proof (skipHeaderLinePrefix_ge src i).
  destruct (sensitiveHeaderValueStart_ok uc re src (skipHeaderLinePrefix src i)) as ([v|] & -> & Hv);
    cbn [mbind option_bind]; [|auto with redact]. specialize (Hv _ eq_refl). pose proof (headerValueEnd_ge src v).
  rewrite cut_span by lia. cbn [mbind option_bind]. apply rule_some; [lia|]. apply renders_kept; [lia|by left].
Qed.

Lemma rule_may_triggered src i : marker re ≠ [] → (i < length src)%nat →
  rule_may (marker re) src i (appendTriggeredRedactionAt uc re src i).
Proof.
  intros Hm Hi. unfold appendTriggeredRedactionAt. destruct (lookup_lt_is_Some_2 src i Hi) as [c Hc]. rewrite Hc.
  cbn [mbind option_bind]. destruct (_ || negb _); [auto with redact|].
  destruct (Z.eqb_spec c cQuote) as [->|].
  { destruct (likelyJSONKeyStart_ok re src i Hm ltac:(lia)) as [[] ->]; cbn [mbind option_bind];
      [by apply appendRedactedSensitiveJSONAt_ok|].
    destruct i as [|j]; [auto with redact|].
    destruct (byteIs _ _ _); [left; apply appendRedactedEscapedJSONAt_ok|auto with redact]. }
  left. destruct (Z.eqb_spec c cEq) as [->|]; [by apply appendRedactedURLEncodedValueAt_ok|].
  destruct (c =? cColon); [apply appendRedactedURLPasswordAt_ok|].
  destruct (c =? 101); [apply appendRedactedJWTAt_ok|].
  destruct (c =? cLt); [apply appendRedactedXMLValueAt_ok|].
  destruct (c =? cDash); [apply appendRedactedInlinePEMKeyAt_ok; lia|by apply appendRedactedVendorTokenAt_ok].
Qed.

Lemma appendDigitRunAt_ok src i : byteIs src i isDigitByte = true →
  ∃ n out, appendDigitRunAt re src i = Some (n, out) ∧ (i < n <= length src)%nat ∧ renders (marker re) (span src i n) out.
Proof.
  intros Hd. pose proof (byteIs_lt _ _ _ Hd) as Hi. apply byteIs_lookup in Hd as (c & Hc & Hd).
  pose proof (scan_hit isDigitByte src i c Hc Hd) as Hj. pose proof (scan_le isDigitByte src i ltac:(lia)) as Hl.
  fold (scanDigits src i) in Hj, Hl. unfold appendDigitRunAt. rewrite cut_span by lia. cbn [mbind option_bind].
  assert (Hrun : ∃ n out, Some (scanDigits src i, span src i (scanDigits src i)) = Some (n, out) ∧
    (i < n <= length src)%nat ∧ renders (marker re) (span src i n) out).
  { eexists _, _. split; [done|]. split; [lia|apply renders_refl]. }
  destruct (afterWord src i); [done|]. destruct (negb _ || _); [done|].
  destruct (isCreditCard_total (luhn re) (span src i (scanDigits src i))) as [[] ->]; cbn [mbind option_bind].
  - eexists _, _. split; [done|]. split; [lia|apply renders_marker].
  - destruct (scanGroupedCardSpan_spec (luhn re) src i (scanDigits src i)) as (r & -> & Hr); [lia|].
    cbn [mbind option_bind]. destruct r as [e|]; [|done]. specialize (Hr _ eq_refl).
    eexists _, _. split; [done|]. split; [lia|apply renders_marker].
Qed.

(** Where plain text may be copied to. *)
Definition copies (copyEnd : gostring → nat → option nat) (src : gostring) : Prop :=
  ∀ i, (i < length src)%nat → ∃ j, copyEnd src i = Some j ∧ (i < j <= length src)%nat.

(** A round consumes a byte and renders what it consumes, or panics on a
    source that ends in a backslash. *)
Lemma round_ok copyEnd src i : marker re ≠ [] → copies copyEnd src → (i < length src)%nat →
  (∃ n out, round uc re copyEnd src i = Some (n, out) ∧ (i < n)%nat ∧ renders (marker re) (span src i n) out) ∨
  (last src = Some cBackslash ∧ round uc re copyEnd src i = None).
Proof.
  intros Hm Hcopy Hi. unfold round. set (line := if lineStart src i then _ else _).
  assert (Hline : rule_ok (marker re) src i line).
  { unfold line. destruct (lineStart src i); [by apply rule_ok_line|auto with redact]. }
  destruct Hline as ([[n out]|] & -> & Hline); cbn [mbind option_bind];
    [left; eexists _, _; split; [done|by apply Hline]|].
  destruct (lookup_lt_is_Some_2 src i Hi) as [c Hc]. rewrite Hc. cbn [mbind option_bind].
  destruct (isDigitByte c) eqn:Hd.
  { destruct (appendDigitRunAt_ok src i) as (n & out & Hn & Hlt & Hr); [by apply byteIs_lookup; exists c|].
    left. exists n, out. split; [done|]. split; [lia|done]. }
  destruct (rule_may_triggered src i Hm Hi) as [([[n out]|] & -> & Htr)|[Hbs ->]]; cbn [mbind option_bind];
    [left; eexists _, _; split; [done|by apply Htr]|left|by right].
  destruct (c =? cNL).
  - eexists _, _. split; [done|]. split; [lia|]. rewrite (span_one _ _ _ Hc). apply renders_refl.
  - destruct (Hcopy i Hi) as (j & -> & Hj). cbn [mbind option_bind]. rewrite cut_span by lia. cbn [mbind option_bind].
    eexists _, _. split; [done|]. split; [lia|apply renders_refl].
Qed.

Lemma redact_loop_ok copyEnd src : marker re ≠ [] → last src ≠ Some cBackslash → copies copyEnd src →
  ∀ fuel i dst, (length src <= i + fuel)%nat →
  ∃ out, redact_loop uc re copyEnd fuel src i dst = Some (dst ++ out) ∧ renders (marker re) (drop i src) out.
Proof.
  intros Hm Hbs Hcopy. induction fuel as [|fuel IH]; intros i dst Hf; cbn [redact_loop];
    (destruct (Nat.ltb_spec i (length src)) as [Hi|Hi];
      [|exists []; rewrite app_nil_r, drop_ge by done; split; [done|constructor]]); [lia|].
  destruct (round_ok copyEnd src i Hm Hcopy Hi) as [(n & out & -> & Hlt & Hr)|[Hno _]]; [|done]. cbn [mbind option_bind].
  destruct (IH n (dst ++ out)) as (rest & -> & Hrest); [lia|]. exists (out ++ rest). split; [by rewrite app_assoc|].
  rewrite <- (take_drop (n - i) (drop i src)), drop_drop. apply renders_app; [exact Hr|].
  by replace (i + (n - i))%nat with n by lia.
Qed.
End Total.

(** ** The bulk copy *)

Lemma bulkStops_total src j : (j < length src)%nat → is_Some (bulkStops src j).
Proof.
  intros Hj. unfold bulkStops. destruct (lookup_lt_is_Some_2 src j Hj) as [c ->]. cbn [mbind option_bind].
  destruct (bulkTrigger c); try by eexists. destruct (afterWord src j); [by eexists|]. unfold isVendorTokenStart.
  destruct (Nat.leb_spec (length src) (j + 2)); [by eexists|]. rewrite cut_Some by lia. by eexists.
Qed.

Lemma bulk_loop_spec n src j : (j + n <= length src)%nat →
  ∃ e, bulk_loop n src j = Some e ∧ (j <= e <= j + n)%nat ∧ ∀ k, (j <= k < e)%nat → bulkStops src k = Some false.
Proof.
  revert j. induction n as [|n IH]; intros j Hj; cbn [bulk_loop].
  { exists j. split; [done|]. split; [lia|]. intros k. lia. }
  destruct (bulkStops_total src j) as [b Hb]; [lia|]. rewrite Hb. cbn [mbind option_bind]. destruct b.
  { exists j. split; [done|]. split; [lia|]. intros k. lia. }
  destruct (IH (S j)) as (e & -> & He & Hk); [lia|]. exists e. split; [done|]. split; [lia|].
  intros k Hjk. destruct (Nat.eq_dec k j) as [->|]; [done|apply Hk; lia].
Qed.

Lemma bulkTextEnd_spec src i : (i < length src)%nat →
  ∃ e, bulkTextEnd src i = Some e ∧ (i < e <= length src)%nat ∧ ∀ k, (i < k < e)%nat → bulkStops src k = Some false.
Proof.
  intros Hi. unfold bulkTextEnd. destruct (bulk_loop_spec (length src - S i) src (S i)) as (e & -> & He & Hk); [lia|].
  exists e. split; [done|]. split; [lia|]. intros k Hik. apply Hk. lia.
Qed.

Lemma bulk_copies src : copies bulkTextEnd src.
Proof. intros i Hi. destruct (bulkTextEnd_spec src i Hi) as (e & -> & He & _). by exists e. Qed.

Lemma bytewise_copies src : copies (fun _ i => Some (S i)) src.
Proof. intros i Hi. exists (S i). split; [done|lia]. Qed.

(** Every prefix of the table passes the prescreen. *)
Lemma vendor_prescreen c : Forall (fun v => (3 <= length (prefix v))%nat ∧ take 3 (prefix v) ∈ vendorStarts) (vendorTokenPrefixes c).
Proof.
  assert (Hall : ∀ l, forallb (fun v => Nat.leb 3 (length (prefix v)) && bool_decide (take 3 (prefix v) ∈ vendorStarts)) l = true →
    Forall (fun v => (3 <= length (prefix v))%nat ∧ take 3 (prefix v) ∈ vendorStarts) l).
  { intros l. rewrite forallb_forall, Forall_forall. intros Hl v Hv%list_elem_of_In%Hl.
    by apply andb_true_iff in Hv as [?%Nat.leb_le ?%bool_decide_eq_true]. }
  apply Hall. unfold vendorTokenPrefixes. repeat case_match; vm_compute; reflexivity.
Qed.

Lemma take_prefix_at src i lit n : hasPrefixAt src i lit = true → (n <= length lit)%nat →
  take n (drop i src) = take n lit.
Proof.
  intros Hp%hasPrefixAt_spec Hn. rewrite <- Hp at 1. rewrite take_take. by rewrite Nat.min_l by lia.
Qed.

Lemma no_vendor_token src i c : isVendorTokenStart src i = Some false → vendor_loop src i (vendorTokenPrefixes c) = None.
Proof.
  intros Hv. induction (vendor_prescreen c) as [|v vps [Hlen Hin] _ IH]; [done|]. cbn [vendor_loop].
  destruct (hasPrefixAt src i (prefix v)) eqn:Hp; [|done]. exfalso. revert Hv. unfold isVendorTokenStart.
  pose proof Hp as Hl. apply hasPrefixAt_length in Hl; [|by intros He; rewrite He in Hlen; simpl in Hlen; lia].
  rewrite (proj2 (Nat.leb_gt (length src) (i + 2))) by lia. rewrite cut_Some by lia. cbn [mbind option_bind].
  replace (i + 3 - i)%nat with 3%nat by lia. rewrite (take_prefix_at _ _ _ 3 Hp) by lia.
  by rewrite bool_decide_eq_true_2.
Qed.

Section Skip.
Context (uc : unicode) (re : Redactor).

(** At a byte that the bulk scan passes over, no rule matches. *)
Lemma skipped_quiet src k c : src !! k = Some c → bulkStops src k = Some false →
  isDigitByte c = false ∧ c ≠ cNL ∧ appendTriggeredRedactionAt uc re src k = Some None.
Proof.
  intros Hc Hs. unfold bulkStops in Hs. rewrite Hc in Hs. cbn [mbind option_bind] in Hs.
  unfold bulkTrigger in Hs. destruct (_ || isDigitByte c) eqn:Hstop; [done|].
  rewrite !orb_false_iff in Hstop. destruct Hstop as [[[[Hq He] Hn] Hlt] Hd]. split; [done|].
  apply Z.eqb_neq in Hn. split; [done|]. unfold appendTriggeredRedactionAt. rewrite Hc. cbn [mbind option_bind].
  destruct (_ || negb _) eqn:Hen; [done|]. apply orb_false_iff in Hen as [Hrule _].
  rewrite Hq, He, Hlt. destruct (c =? cColon) eqn:Hcol.
  { unfold appendRedactedURLPasswordAt. injection Hs as Hs. by rewrite Hs. }
  destruct (c =? 101) eqn:Hjwt.
  { unfold appendRedactedJWTAt. destruct (afterWord src k); [done|]. injection Hs as Hs. rewrite andb_true_r in Hs.
    unfold jwtTokenEnd. destruct (hasPrefixAt src k jwtPrefix) eqn:Hp; [|done]. exfalso.
    pose proof (hasPrefixAt_lookup _ _ _ 1 121 Hp eq_refl) as H1. pose proof (hasPrefixAt_lookup _ _ _ 2 74 Hp eq_refl) as H2.
    revert Hs. unfold byteIs. by rewrite H1, H2. }
  destruct (c =? cDash) eqn:Hdash.
  { unfold appendRedactedInlinePEMKeyAt. destruct (hasPrefixAt src k pemBeginPrefix) eqn:Hp; [|done]. exfalso.
    injection Hs as Hs. enough (hasPrefixAt src k (str "-----B") = true) by congruence.
    apply hasPrefixAt_spec. rewrite (take_prefix_at _ _ _ _ Hp); [done|vm_compute; lia]. }
  unfold triggerRule in Hrule. rewrite Hq, He, Hcol, Hjwt, Hlt, Hdash in Hrule.
  destruct (isVendorTrigger c); [|done]. unfold appendRedactedVendorTokenAt.
  destruct (afterWord src k); [done|]. rewrite Hc. cbn [mbind option_bind]. by rewrite no_vendor_token.
Qed.

Lemma skipped_round src k c : src !! k = Some c → bulkStops src k = Some false → lineStart src k = false →
  round uc re (fun _ i => Some (S i)) src k = Some (S k, [c]).
Proof.
  intros Hc Hs Hl. destruct (skipped_quiet src k c Hc Hs) as (Hd & Hn & Ht). unfold round. rewrite Hl, Hc.
  cbn [mbind option_bind]. rewrite Hd, Ht. cbn [mbind option_bind]. rewrite (proj2 (Z.eqb_neq _ _)) by done.
  pose proof (lookup_lt_Some _ _ _ Hc). rewrite cut_span by lia. cbn [mbind option_bind]. by rewrite (span_one _ _ _ Hc).
Qed.

(** The bytewise engine gets through a stretch that the bulk scan skips. *)
Lemma skipped_stretch src e fuel : ∀ n k dst, (k + n = e)%nat → (e <= length src)%nat → (n <= fuel)%nat →
  (∀ j, (k <= j < e)%nat → bulkStops src j = Some false ∧ lineStart src j = false) →
  redact_loop uc re (fun _ i => Some (S i)) fuel src k dst =
  redact_loop uc re (fun _ i => Some (S i)) (fuel - n) src e (dst ++ span src k e).
Proof.
  intros n. revert fuel. induction n as [|n IH]; intros fuel k dst Hk He Hf Hq.
  { replace k with e by lia. rewrite span_nil, app_nil_r, Nat.sub_0_r by lia. done. }
  destruct fuel as [|fuel]; [lia|]. cbn [redact_loop]. rewrite (proj2 (Nat.ltb_lt k _)) by lia.
  destruct (lookup_lt_is_Some_2 src k) as [c Hc]; [lia|]. destruct (Hq k) as [Hs Hl]; [lia|].
  rewrite (skipped_round src k c Hc Hs Hl). cbn [mbind option_bind].
  rewrite (IH fuel (S k)); [|lia|lia|lia|intros j Hj; apply Hq; lia]. rewrite <- app_assoc.
  by rewrite (span_cons src k e c Hc) by lia.
Qed.

(** Where the bulk scan passes, no line starts. *)
Lemma skipped_line src i e c k : src !! i = Some c → c ≠ cNL → (∀ k, (i < k < e)%nat → bulkStops src k = Some false) →
  (i < k < e)%nat → lineStart src k = false.
Proof.
  intros Hc Hn Hs Hk. destruct k as [|j]; [lia|]. unfold lineStart, byteIs.
  destruct (Nat.eq_dec j i) as [->|]; [rewrite Hc; by apply Z.eqb_neq|].
  destruct (src !! j) as [d|] eqn:Hd; [|done]. apply Z.eqb_neq.
  apply (skipped_quiet src j d Hd). apply Hs. lia.
Qed.

(** The two loops differ in their plain text only. *)
Lemma round_copy src i : (i < length src)%nat →
  let byte := round uc re (fun _ i => Some (S i)) src i in
  round uc re bulkTextEnd src i = byte ∨
  (∃ e c, round uc re bulkTextEnd src i = Some (e, span src i e) ∧ byte = Some (S i, [c]) ∧
     src !! i = Some c ∧ c ≠ cNL ∧ (i < e <= length src)%nat ∧ ∀ k, (i < k < e)%nat → bulkStops src k = Some false).
Proof.
  intros Hi. cbv zeta. unfold round. destruct (if lineStart src i then _ else _) as [[r|]|]; cbn [mbind option_bind];
    [by left| |by left].
  destruct (lookup_lt_is_Some_2 src i Hi) as [c Hc]. rewrite Hc. cbn [mbind option_bind].
  destruct (isDigitByte c); [by left|].
  destruct (appendTriggeredRedactionAt _ _ _ _) as [[r|]|]; cbn [mbind option_bind]; [by left| |by left].
  destruct (Z.eqb_spec c cNL) as [|Hn]; [by left|]. right.
  destruct (bulkTextEnd_spec src i Hi) as (e & -> & He & Hk). exists e, c. cbn [mbind option_bind].
  rewrite !cut_span by lia. cbn [mbind option_bind]. rewrite (span_one _ _ _ Hc). done.
Qed.

Lemma loops_agree src : marker re ≠ [] → ∀ n fuel fuel' i dst, (length src - i <= n)%nat →
  (length src <= i + fuel)%nat → (length src <= i + fuel')%nat →
  redact_loop uc re bulkTextEnd fuel src i dst = redact_loop uc re (fun _ i => Some (S i)) fuel' src i dst.
Proof.
  intros Hm. induction n as [|n IH]; intros fuel fuel' i dst Hn Hf Hf'.
  { destruct fuel, fuel'; cbn [redact_loop]; by rewrite (proj2 (Nat.ltb_ge i _)) by lia. }
  destruct (Nat.lt_ge_cases i (length src)) as [Hi|Hi];
    [|destruct fuel, fuel'; cbn [redact_loop]; by rewrite (proj2 (Nat.ltb_ge i _)) by lia].
  destruct fuel as [|fuel]; [lia|]. destruct fuel' as [|fuel']; [lia|]. cbn [redact_loop].
  rewrite (proj2 (Nat.ltb_lt i _)) by done.
  destruct (round_copy src i Hi) as [->|(e & c & -> & -> & Hc & Hnl & He & Hk)].
  - destruct (round_ok uc re _ src i Hm (bytewise_copies src) Hi) as [(m & out & -> & Hlt & _)|[_ ->]];
      cbn [mbind option_bind]; [apply IH; lia|done].
  - cbn [mbind option_bind]. rewrite (IH fuel (fuel' - (e - S i))%nat) by lia.
    rewrite (skipped_stretch src e fuel' (e - S i) (S i)); [|lia..|].
    + rewrite <- app_assoc. by rewrite (span_cons src i e c Hc) by lia.
    + intros j Hj. split; [apply Hk; lia|]. eapply (skipped_line src i e c); [done..|lia].
Qed.
End Skip.
