(* ===== verification/RedactProps.v ===== *)
(** * [pkg/redact]: properties of the engine

    C32, C33 and C34: what the engine does to any text, that its bulk copy
    loses nothing, and that the plain forms of a secret are hidden whatever
    the secret is. *)

From stdpp Require Import base option list gmap.
From Stdlib Require Import String.
From S2P Require Import Prelude GoString RedactBytes RedactKeys RedactCards RedactRender RedactRules RedactMarkup RedactJSON RedactEngine.

#[local] Open Scope Z_scope.

Lemma usable_marker re : marker (usableRedactor re) ≠ [].
Proof. unfold usableRedactor. by destruct (decide (marker re = [])). Qed.

(** A label whose unterminated value ends in a backslash. *)
Definition unterminated_label : gostring := [cLBrace; cQuote; 110; 97; 109; 101; cQuote; cColon; cQuote; cBackslash].

(** C32. The engine is total and only ever hides: on every text that does not
    end in a backslash, for every configuration, it neither panics nor runs
    on, and its output is the text with some of its spans replaced by the
    marker, bare or in (escaped) quotes; nothing else is added, dropped or
    moved. The backslash matters: on an object whose name member is an
    unterminated string ending in one, the code reads past the end. *)
Theorem redactInto_renders uc re src :
  (last src ≠ Some cBackslash →
    ∃ out, redactInto uc re src = Some out ∧ renders (marker (usableRedactor re)) src out) ∧
  redactInto uc (New []) unterminated_label = None.
Proof.
  split; [|vm_compute; reflexivity]. intros Hbs. unfold redactInto.
  destruct (redact_loop_ok uc (usableRedactor re) bulkTextEnd src (usable_marker re) Hbs (bulk_copies src)
    (length src) 0 []) as (out & Hout & Hr); [lia|]. exists out. split; [exact Hout|exact Hr].
Qed.

Lemma redactInto_renders_witness :
  last (str "token=abc") ≠ Some cBackslash ∧
  ∃ out, redactInto noUnicode (New []) (str "token=abc") = Some out ∧
    renders (marker (usableRedactor (New []))) (str "token=abc") out.
Proof. split; [vm_compute; congruence|]. apply redactInto_renders. vm_compute. congruence. Defined.

(** C33. The bulk copy is an optimisation: for every configuration and every
    text, panics included, the engine that skips over plain text with the
    prefilters of [bulkTextEnd] (the byte classes, ["://"], ["eyJ"],
    ["-----B"] and the three-byte screen of the vendor prefixes) does exactly
    what the engine that offers every byte to the rules does. *)
Theorem bulk_copy_transparent uc re src : redactInto uc re src = redactBytewise uc re src.
Proof. unfold redactInto, redactBytewise. apply (loops_agree uc _ src (usable_marker re) (length src)); lia. Qed.

(** ** Reading a text at an index *)

Lemma at_app (src : gostring) i a b : drop i src = a ++ b → span src i (i + length a) = a ∧ drop (i + length a) src = b.
Proof.
  intros H. unfold span. replace (i + length a - i)%nat with (length a) by lia. rewrite H, take_app_length. split; [done|].
  by rewrite <- drop_drop, H, drop_app_length.
Qed.

Lemma at_cons (src : gostring) i c b : drop i src = c :: b → src !! i = Some c ∧ drop (S i) src = b ∧ (i < length src)%nat.
Proof.
  intros H. pose proof (lookup_drop src i 0) as Hl. rewrite H, Nat.add_0_r in Hl. cbn in Hl. split; [done|].
  split; [|by eapply lookup_lt_Some]. replace (S i) with (i + 1)%nat by lia. by rewrite <- drop_drop, H.
Qed.

Lemma at_byteIs src i c b p : drop i src = c :: b → byteIs src i p = p c.
Proof. intros H. unfold byteIs. by rewrite (proj1 (at_cons _ _ _ _ H)). Qed.

(** The text stops satisfying [p]. *)
Definition stops (p : Z → bool) (rest : gostring) : Prop := match rest with c :: _ => p c = false | [] => True end.

Lemma scan_run p src i run rest : drop i src = run ++ rest → Forall (fun c => p c = true) run → stops p rest →
  scan p src i = (i + length run)%nat.
Proof.
  intros Hat Hrun Hrest. unfold scan. f_equal. rewrite Hat. clear Hat. induction Hrun as [|c run Hc _ IH]; simpl.
  - destruct rest as [|c rest]; [done|]. simpl. by rewrite Hrest.
  - by rewrite Hc, IH.
Qed.

Lemma scan_stay p src i rest : drop i src = rest → stops p rest → scan p src i = i.
Proof. intros Hat Hs. rewrite (scan_run p src i [] rest); [simpl; lia|done|constructor|done]. Qed.

Lemma cut_at src i a b : drop i src = a ++ b → (i <= length src)%nat → cut src i (i + length a) = Some a.
Proof.
  intros H Hi. pose proof (at_app _ _ _ _ H) as [Hs _]. rewrite cut_span; [by rewrite Hs|].
  assert (length a <= length (drop i src))%nat by (rewrite H, length_app; lia). rewrite length_drop in *. lia.
Qed.

(** ** The forms of a secret *)

Definition json_escape (s : gostring) : gostring :=
  s ≫= fun c => if (c =? cQuote) || (c =? cBackslash) then [cBackslash; c] else [c].

Lemma string_loop_escaped s rest v : string_loop (json_escape s ++ cQuote :: rest) v = (v + length (json_escape s) + 1)%nat.
Proof.
  revert v. induction s as [|c s IH]; intros v; [simpl; lia|].
  change (json_escape (c :: s)) with ((if (c =? cQuote) || (c =? cBackslash) then [cBackslash; c] else [c]) ++ json_escape s).
  rewrite <- app_assoc, length_app. destruct (Z.eqb_spec c cQuote) as [->|Hq].
  { cbn [orb app string_loop length]. simpl (cBackslash =? cBackslash). cbn iota. rewrite IH. lia. }
  destruct (Z.eqb_spec c cBackslash) as [->|Hb]; cbn [orb app string_loop length].
  - simpl (cBackslash =? cBackslash). cbn iota. rewrite IH. lia.
  - rewrite (proj2 (Z.eqb_neq c cBackslash)), (proj2 (Z.eqb_neq c cQuote)), IH by done. lia.
Qed.

Definition json_key_byte (c : Z) : bool :=
  negb ((c =? cBackslash) || (c =? cQuote) || (c =? cNL) || (c =? cCR) || (c =? cEq)).

Lemma closing_loop_key key rest i : Forall (fun c => json_key_byte c = true) key →
  closing_loop (key ++ cQuote :: rest) i = Some (i + length key)%nat.
Proof.
  intros Hk. revert i. induction Hk as [|c key Hc _ IH]; intros i; cbn [app closing_loop length]; [f_equal; simpl; lia|].
  unfold json_key_byte in Hc. rewrite negb_true_iff, !orb_false_iff in Hc. destruct Hc as [[[[H1 H2] H3] H4] _].
  rewrite H1, H2, H3, H4. cbn [orb]. rewrite IH. f_equal. lia.
Qed.

Lemma no_byte (p : Z → bool) c l : Forall (fun c => p c = true) l → p c = false → c ∉ l.
Proof. intros Hl Hc Hin. rewrite Forall_forall in Hl. specialize (Hl c Hin). simpl in Hl. congruence. Qed.

Section Forms.
Context (uc : unicode) (re : Redactor) (copyEnd : gostring → nat → option nat).

Abbreviation round := (round uc re copyEnd).

(** No line rule applies where neither a header name nor a PEM block starts. *)
Lemma no_line_rule src i c rest : drop i src = c :: rest → isHeaderNameByte c = false → isInlineSpace c = false →
  (c =? cGt) || (c =? cLt) = false → (if lineStart src i then appendLineStartRedactionAt uc re src i else Some None) = Some None.
Proof.
  intros Hat Hh Hs Hg. destruct (lineStart src i); [|done]. destruct (at_cons _ _ _ _ Hat) as (Hc & _ & _).
  unfold appendLineStartRedactionAt. rewrite Hc. cbn [mbind option_bind].
  assert (Hd : (c =? cDash) = false).
  { apply Z.eqb_neq. intros ->. revert Hh. vm_compute. done. }
  rewrite Hd. cbn [andb mbind option_bind]. destruct (enabled re RuleHeaders); [|done].
  assert (Hpre : skipHeaderLinePrefix src i = i).
  { unfold skipHeaderLinePrefix, skipInlineSpaces. rewrite (scan_stay _ _ _ _ Hat) by done.
    by rewrite (at_byteIs _ _ _ _ _ Hat), Hg. }
  rewrite Hpre. unfold sensitiveHeaderValueStart. rewrite (scan_stay isHeaderNameByte src i (c :: rest)) by done.
  by rewrite Nat.eqb_refl.
Qed.

(** How a line ends: by a terminator, or with the text. *)
Definition line_end (eol rest : gostring) : Prop := eol = [cNL] ∨ eol = [cCR; cNL] ∨ (eol = [] ∧ rest = []).

(** The end of a header value, before the line terminator. *)
Lemma headerValueEnd_at src vs value eol rest : drop vs src = value ++ eol ++ rest →
  Forall (fun c => negb (c =? cNL) = true) value → last value ≠ Some cCR → line_end eol rest → (vs <= length src)%nat →
  headerValueEnd src vs = (vs + length value)%nat.
Proof.
  intros Hat3 Hv Hcr Heol Hvs. unfold headerValueEnd, scanToLineFeed.
  destruct (at_app _ _ _ _ Hat3) as [_ Hat4].
  destruct Heol as [-> | [-> | [-> ->]]].
  - rewrite (scan_run (fun c => negb (c =? cNL)) src vs value ([cNL] ++ rest)) by (done || by rewrite Hat3).
    destruct (at_cons _ _ _ _ Hat4) as (_ & _ & Hlt).
    destruct (Nat.ltb_spec vs (vs + length value)) as [Hlt2|]; [|by rewrite andb_false_r].
    assert (Hlast : byteIs src (vs + length value - 1) (fun c => c =? cCR) = false).
    { unfold byteIs. destruct (src !! (vs + length value - 1)%nat) as [d|] eqn:Hd; [|done].
      assert (Hdv : value !! (length value - 1)%nat = Some d).
      { rewrite <- Hd. replace (vs + length value - 1)%nat with (vs + (length value - 1))%nat by lia.
        rewrite <- lookup_drop, Hat3. symmetry. apply lookup_app_l. lia. }
      apply Z.eqb_neq. intros ->. apply Hcr. rewrite last_lookup. by replace (pred (length value)) with (length value - 1)%nat by lia. }
    rewrite Hlast. by rewrite andb_false_r.
  - rewrite (scan_run (fun c => negb (c =? cNL)) src vs (value ++ [cCR]) ([cNL] ++ rest));
      [|by rewrite Hat3, <- app_assoc|by apply Forall_app; split; [|repeat constructor]|done].
    rewrite length_app. cbn [length]. destruct (at_cons _ _ _ _ Hat4) as (_ & Hat5 & _).
    destruct (at_cons _ _ _ _ Hat5) as (_ & _ & Hlt).
    rewrite (proj2 (Nat.ltb_lt (vs + (length value + 1)) (length src))) by lia.
    rewrite (proj2 (Nat.ltb_lt vs _)) by lia.
    replace (vs + (length value + 1) - 1)%nat with (vs + length value)%nat by lia.
    rewrite (at_byteIs _ _ _ _ _ Hat4). done.
  - rewrite (scan_run (fun c => negb (c =? cNL)) src vs value []) by (done || by rewrite Hat3, app_nil_r).
    apply (f_equal length) in Hat3. rewrite length_drop, !app_nil_r in Hat3. rewrite (proj2 (Nat.ltb_ge _ (length src))) by lia. done.
Qed.

(** A header line: the value is hidden up to the end of the line. *)
Lemma header_hidden src i name sp value eol rest :
  drop i src = name ++ cColon :: sp ++ value ++ eol ++ rest →
  lineStart src i = true → enabled re RuleHeaders = true →
  name ≠ [] → head name ≠ Some cDash → Forall (fun c => isHeaderNameByte c = true) name → sensitive uc re name = true →
  Forall (fun c => isInlineSpace c = true) sp → stops isInlineSpace value →
  Forall (fun c => negb (c =? cNL) = true) value → last value ≠ Some cCR → line_end eol rest →
  round src i = Some ((i + length (name ++ cColon :: sp ++ value))%nat, name ++ cColon :: sp ++ marker re).
Proof.
  intros Hat Hl Hen Hne Hdash Hname Hsens Hsp Hvs Hval Hcr Heol.
  assert (Hi : (i < length src)%nat) by (destruct name; [done|]; by eapply at_cons).
  destruct (at_app _ _ _ _ Hat) as [Hspn Hat1]. destruct (at_cons _ _ _ _ Hat1) as (_ & Hat2 & Hcol).
  destruct (at_app _ _ _ _ Hat2) as [_ Hat3].
  unfold round. rewrite Hl. unfold appendLineStartRedactionAt.
  destruct name as [|c name]; [done|]. destruct (at_cons _ _ _ _ Hat) as (Hc & _ & _). rewrite Hc.
  cbn [mbind option_bind]. rewrite (proj2 (Z.eqb_neq c cDash)) by (intros ->; by apply Hdash).
  cbn [andb mbind option_bind]. rewrite Hen. inversion_clear Hname as [|?? Hhc Hname'].
  assert (Hcs : isInlineSpace c = false ∧ (c =? cGt) || (c =? cLt) = false).
  { revert Hhc. unfold isHeaderNameByte, isASCIIAlphaNum, isInlineSpace, between.
    rewrite !orb_true_iff, !orb_false_iff, !andb_true_iff, !Z.leb_le, !Z.eqb_eq, !Z.eqb_neq. lia. }
  destruct Hcs as [Hcs1 Hcs2].
  assert (Hpre : skipHeaderLinePrefix src i = i).
  { unfold skipHeaderLinePrefix, skipInlineSpaces. rewrite (scan_stay _ _ _ _ Hat) by done.
    by rewrite (at_byteIs _ _ _ _ _ Hat), Hcs2. }
  rewrite Hpre. unfold sensitiveHeaderValueStart.
  rewrite (scan_run isHeaderNameByte src i (c :: name) _ Hat) by (done || by constructor).
  destruct (Nat.eqb_spec (i + length (c :: name)) i) as [Hbad|_]; [simpl in Hbad; lia|].
  unfold skipInlineSpaces. rewrite (scan_stay isInlineSpace _ _ _ Hat1) by done.
  rewrite (at_byteIs _ _ _ _ _ Hat1). cbn [negb Z.eqb Pos.eqb].
  rewrite (cut_at _ _ _ _ Hat) by lia. cbn [mbind option_bind]. rewrite Hsens. cbn [negb mbind option_bind].
  assert (Hstop : stops isInlineSpace (value ++ eol ++ rest)).
  { destruct value; [|done]. by destruct Heol as [-> | [-> | [-> ->]]]. }
  rewrite (scan_run isInlineSpace src _ sp _ Hat2 Hsp Hstop).
  set (vs := (S (i + length (c :: name)) + length sp)%nat) in *.
  assert (Hkept : drop i src = ((c :: name) ++ cColon :: sp) ++ value ++ eol ++ rest) by (rewrite Hat, <- app_assoc; done).
  assert (Hvs' : vs = (i + length ((c :: name) ++ cColon :: sp))%nat) by (unfold vs; rewrite length_app; simpl; lia).
  assert (Hcut : cut src i vs = Some ((c :: name) ++ cColon :: sp)) by (rewrite Hvs'; apply (cut_at _ _ _ _ Hkept); lia).
  rewrite Hcut. cbn [mbind option_bind].
  assert (Hvlen : (vs <= length src)%nat).
  { apply (f_equal length) in Hkept. rewrite length_drop, length_app in Hkept. rewrite Hvs'. lia. }
  rewrite (headerValueEnd_at src vs value eol rest) by done. f_equal. f_equal; [|by rewrite <- app_assoc].
  rewrite Hvs', !length_app. cbn [length]. rewrite !length_app. lia.
Qed.
Lemma round_json src i r : drop i src = cQuote :: r → enabled re RuleJSON = true →
  likelyJSONKeyStart re src i = Some true →
  round src i =
    triggered ← appendRedactedSensitiveJSONAt uc re src i;
    match triggered with
    | Some r => Some r
    | None => j ← copyEnd src i; text ← cut src i j; Some (j, text)
    end.
Proof.
  intros Hat Hen Hkey. unfold round. rewrite (no_line_rule src i _ _ Hat) by done. cbn [mbind option_bind].
  destruct (at_cons _ _ _ _ Hat) as (Hc & _ & _). rewrite Hc. cbn [mbind option_bind].
  change (isDigitByte cQuote) with false. cbn iota. unfold appendTriggeredRedactionAt. rewrite Hc. cbn [mbind option_bind].
  change (triggerRule cQuote) with RuleJSON. rewrite Hen. cbn [RuleJSON Z.eqb orb negb Pos.eqb]. rewrite Hkey. done.
Qed.

Lemma skip_to_colon src q sp1 sp2 r : drop (S q) src = sp1 ++ cColon :: sp2 ++ cQuote :: r →
  Forall (fun c => isJSONSpace c = true) sp1 → Forall (fun c => isJSONSpace c = true) sp2 →
  findJSONValueStart src q = Some (S q + length sp1 + 1 + length sp2)%nat ∧
  drop (S q + length sp1 + 1 + length sp2) src = cQuote :: r.
Proof.
  intros Hat H1 H2. destruct (at_app _ _ _ _ Hat) as [_ Hat1]. destruct (at_cons _ _ _ _ Hat1) as (_ & Hat2 & _).
  destruct (at_app _ _ _ _ Hat2) as [_ Hat3]. destruct (at_cons _ _ _ _ Hat3) as (_ & _ & Hlt).
  unfold findJSONValueStart, skipJSONWhitespace.
  rewrite (scan_run isJSONSpace src (S q) sp1 _ Hat) by done. rewrite (at_byteIs _ _ _ _ _ Hat1). cbn [negb Z.eqb Pos.eqb].
  rewrite (scan_run isJSONSpace src _ sp2 _ Hat2) by done. rewrite (proj2 (Nat.leb_gt _ _)) by lia.
  replace (S q + length sp1 + 1 + length sp2)%nat with (S (S q + length sp1) + length sp2)%nat by lia. done.
Qed.

(** A string member of an object. *)
Lemma json_hidden src i key sp1 sp2 secret rest :
  drop i src = cQuote :: key ++ cQuote :: sp1 ++ cColon :: sp2 ++ cQuote :: json_escape secret ++ cQuote :: rest →
  likelyJSONKeyStart re src i = Some true → enabled re RuleJSON = true →
  Forall (fun c => json_key_byte c = true) key → sensitive uc re key = true → isJSONLabelKey key = false →
  Forall (fun c => isJSONSpace c = true) sp1 → Forall (fun c => isJSONSpace c = true) sp2 →
  round src i = Some ((i + length (cQuote :: key ++ cQuote :: sp1 ++ cColon :: sp2 ++ cQuote :: json_escape secret ++ [cQuote]))%nat,
    cQuote :: key ++ cQuote :: sp1 ++ cColon :: sp2 ++ quotedMarker re).
Proof.
  intros Hat Hkey Hen Hkb Hsens Hlab H1 H2. rewrite (round_json src i _ Hat) by done.
  destruct (at_cons _ _ _ _ Hat) as (_ & Hat1 & Hlt). destruct (at_app _ _ _ _ Hat1) as [_ Hat2].
  destruct (at_cons _ _ _ _ Hat2) as (_ & Hat3 & _). unfold appendRedactedSensitiveJSONAt, findJSONStringClosingQuote.
  rewrite Hat1, closing_loop_key by done. rewrite (cut_at _ _ _ _ Hat1) by lia. cbn [mbind option_bind].
  rewrite bool_decide_eq_false_2 by (by apply (no_byte json_key_byte)).
  destruct (skip_to_colon src (S i + length key) sp1 sp2 _ Hat3 H1 H2) as [-> Hat4].
  rewrite Hlab. cbn [mbind option_bind]. rewrite Hsens. cbn [negb].
  set (v := (S (S i + length key) + length sp1 + 1 + length sp2)%nat) in *.
  destruct (at_cons _ _ _ _ Hat4) as (Hq & Hat5 & Hv). unfold jsonValueEnd. rewrite Hq. cbn [mbind option_bind Z.eqb Pos.eqb].
  unfold parseJSONStringEnd. rewrite Hat5, string_loop_escaped.
  destruct (Nat.eqb_spec (S v + length (json_escape secret) + 1) 0) as [|_]; [lia|].
  assert (Hsep : drop (S (S i + length key)) src = (sp1 ++ cColon :: sp2) ++ cQuote :: json_escape secret ++ cQuote :: rest)
    by (rewrite Hat3, <- app_assoc; done).
  assert (Hcut : cut src (S (S i + length key)) v = Some (sp1 ++ cColon :: sp2)).
  { replace v with (S (S i + length key) + length (sp1 ++ cColon :: sp2))%nat by (unfold v; rewrite length_app; simpl; lia).
    apply (cut_at _ _ _ _ Hsep). unfold v in Hv. lia. }
  rewrite Hcut. cbn [mbind option_bind]. f_equal. f_equal.
  - unfold v. cbn [length]. rewrite !length_app. cbn [length]. rewrite !length_app. cbn [length].
    rewrite !length_app. cbn [length]. rewrite length_app. simpl. lia.
  - cbn [app]. f_equal. f_equal. f_equal. by rewrite <- app_assoc.
Qed.

Lemma urlKeyStart_at src p key r : src = p ++ key ++ r → Forall (fun c => negb (isURLKeyBoundary c) = true) key →
  (p = [] ∨ ∃ b, last p = Some b ∧ isURLKeyBoundary b = true) → urlKeyStart src (length (p ++ key)) = length p.
Proof.
  intros -> Hkey Hp. revert r. induction key as [|c key IH] using rev_ind; intros r.
  - rewrite app_nil_r. destruct p as [|b p _] using rev_ind; [done|]. destruct Hp as [Hp|(b' & Hl & Hb)]; [by destruct p|].
    rewrite last_snoc in Hl. simplify_eq. rewrite length_app, Nat.add_1_r. cbn [urlKeyStart].
    unfold byteIs. rewrite <- app_assoc, lookup_app_r, Nat.sub_diag by lia. cbn. by rewrite Hb.
  - apply Forall_app in Hkey as [Hkey [Hc _]%Forall_cons]. rewrite !length_app, Nat.add_1_r, Nat.add_succ_r.
    cbn [urlKeyStart]. unfold byteIs. rewrite <- app_assoc, app_assoc, lookup_app_r by (rewrite length_app; lia).
    rewrite length_app, Nat.sub_diag. cbn. apply negb_true_iff in Hc. rewrite Hc, <- app_assoc.
    specialize (IH Hkey ([c] ++ r)). rewrite length_app in IH. exact IH.
Qed.

(** A pair of a query string, a form body or a log line: its value is hidden up
    to where it is taken to end. *)
Lemma url_pair_round p key value :
  let src := p ++ key ++ cEq :: value in
  (p = [] ∨ ∃ b, last p = Some b ∧ isURLKeyBoundary b = true) →
  enabled re RuleURLEncoded = true →
  Forall (fun c => negb (isURLKeyBoundary c) = true) key → cSlash ∉ key → sensitive uc re key = true →
  round src (length (p ++ key)) = Some (urlEncodedValueEnd re src (S (length (p ++ key))), cEq :: marker re).
Proof.
  intros src Hp Hen Hkey Hslash Hsens. set (i := length (p ++ key)).
  assert (Hat : drop i src = cEq :: value).
  { unfold src, i. rewrite app_assoc. apply drop_app_length. }
  destruct (at_cons _ _ _ _ Hat) as (Hc & Hat1 & Hlt). unfold round. rewrite (no_line_rule src i _ _ Hat) by done.
  cbn [mbind option_bind]. rewrite Hc. cbn [mbind option_bind]. change (isDigitByte cEq) with false. cbn iota.
  unfold appendTriggeredRedactionAt. rewrite Hc. cbn [mbind option_bind].
  change (triggerRule cEq) with RuleURLEncoded. rewrite Hen. cbn [RuleURLEncoded Z.eqb orb negb Pos.eqb].
  unfold appendRedactedURLEncodedValueAt. 
  assert (Hks : urlKeyStart src i = length p) by (by apply (urlKeyStart_at src p key (cEq :: value))).
  rewrite Hks.
  assert (Hcut : cut src (length p) i = Some key).
  { unfold i. rewrite length_app. apply (cut_at src (length p) key (cEq :: value)); [by unfold src; rewrite drop_app_length|].
    unfold src. rewrite length_app. lia. }
  rewrite Hcut. cbn [mbind option_bind]. rewrite bool_decide_eq_false_2 by done. rewrite Hsens. cbn [mbind option_bind].
  done.
Qed.

(** The value is the marker and then something else than a word: a text that
    was redacted before. *)
Definition lone_marker (value : gostring) : bool := hasPrefixAt value 0 (marker re) && negb (byteIs value (length (marker re)) isWordChar).

Lemma byteIs_drop src i n l p : drop i src = l → byteIs src (i + n) p = byteIs l n p.
Proof. intros <-. unfold byteIs. by rewrite lookup_drop. Qed.

Lemma redactedMarkerEnd_at src i value : drop i src = value → redactedMarkerEnd re src i = if lone_marker value then (i + length (marker re))%nat else 0%nat.
Proof.
  intros Hat. unfold redactedMarkerEnd, lone_marker, markerAt. rewrite (byteIs_drop _ _ _ _ _ Hat). assert (Hp : hasPrefixAt src i (marker re) = hasPrefixAt value 0 (marker re)) by (unfold hasPrefixAt; by rewrite Hat).
  rewrite Hp. destruct (hasPrefixAt value 0 (marker re)), (byteIs value _ isWordChar); done.
Qed.

Lemma url_value_hidden src i secret rest : drop i src = secret ++ rest → Forall (fun c => negb (isURLValueBoundary c) = true) secret → lone_marker (secret ++ rest) = false →
  stops (fun c => negb (isURLValueBoundary c)) rest → (secret = [] → head rest ≠ Some cQuote) → urlEncodedValueEnd re src i = (i + length secret)%nat.
Proof.
  intros Hat Hsec Hmk Hrest Hq. unfold urlEncodedValueEnd. rewrite (redactedMarkerEnd_at src i _ Hat), Hmk. rewrite (scan_run _ _ _ _ _ Hat Hsec Hrest).
  assert (Hnq : byteIs src i (fun c => c =? cQuote) = false); [|by rewrite Hnq].
  rewrite <- (Nat.add_0_r i), (byteIs_drop _ _ _ _ _ Hat). unfold byteIs. destruct secret as [|s secret]; cbn.
  - destruct rest as [|c rest]; [done|]. cbn. apply Z.eqb_neq. intros ->. by apply Hq.
  - apply Forall_cons in Hsec as [Hs _]. apply Z.eqb_neq. intros ->. revert Hs. by vm_compute.
Qed.

(** What [WithMarker] asks of a marker, as far as a value is concerned. *)
Definition inert_marker : Prop := ∃ c m, marker re = c :: m ∧ c ≠ cQuote.

Lemma url_value_spared src i tail : drop (S i) src = marker re ++ tail → inert_marker → stops isWordChar tail → urlEncodedValueEnd re src (S i) = (S i + length (marker re))%nat.
Proof.
  intros Hat (c & m & Hm & Hc) Ht. assert (Hl : lone_marker (marker re ++ tail) = true).
  { unfold lone_marker, hasPrefixAt. apply andb_true_iff. split; [apply is_prefix_spec; by exists tail|]. unfold byteIs. rewrite lookup_app_r, Nat.sub_diag by done.
    destruct tail as [|d tail]; [done|]. cbn in *. by rewrite Ht. }
  unfold urlEncodedValueEnd. rewrite (redactedMarkerEnd_at src (S i) _ Hat), Hl.
  assert (Hnq : byteIs src (S i) (fun c => c =? cQuote) = false); [|by rewrite Hnq].
  rewrite <- (Nat.add_0_r (S i)), (byteIs_drop _ _ _ _ _ Hat), Hm. unfold byteIs. cbn. by apply Z.eqb_neq.
Qed.

Lemma content_loop_text src fuel : ∀ i secret r, drop i src = secret ++ cLt :: cSlash :: r →
  Forall (fun c => negb (c =? cLt) = true) secret → (length secret < fuel)%nat →
  content_loop fuel src i = Some (i + length secret)%nat.
Proof.
  induction fuel as [|fuel IH]; intros i secret r Hat Hs Hf; [lia|]. cbn [content_loop].
  destruct Hs as [|c secret Hc Hs].
  - destruct (at_cons _ _ _ _ Hat) as (Hl & _ & _). rewrite Hl. cbn [negb Z.eqb Pos.eqb]. unfold skipXMLCommentOrCDATA, hasPrefixAt.
    rewrite Hat. cbn. by rewrite Nat.add_0_r.
  - destruct (at_cons _ _ _ _ Hat) as (Hl & Hat' & _). rewrite Hl, Hc.
    rewrite (IH (S i) secret r Hat' Hs); [|simpl in Hf; lia]. f_equal. simpl. lia.
Qed.

Lemma closing_tag_at src i name r : drop i src = cLt :: cSlash :: name ++ cGt :: r →
  isMatchingXMLClosingTag src i name = true.
Proof.
  intros Hat. destruct (at_cons _ _ _ _ Hat) as (_ & Hat1 & _). destruct (at_cons _ _ _ _ Hat1) as (_ & Hat2 & _).
  destruct (at_app _ _ _ _ Hat2) as [_ Hat3]. destruct (at_cons _ _ _ _ Hat3) as (_ & _ & Hlt).
  unfold isMatchingXMLClosingTag. unfold hasPrefixAt. rewrite Hat. cbn [is_prefix str negb Z.eqb Pos.eqb andb].
  change (is_prefix (str "</") (cLt :: cSlash :: name ++ cGt :: r)) with true. cbn [negb].
  replace (i + 2)%nat with (S (S i)) by lia. rewrite (proj2 (Nat.ltb_ge _ _)) by lia.
  rewrite Hat2, take_app_length, bool_decide_eq_true_2 by done. cbn [negb]. unfold skipInlineSpaces.
  rewrite (scan_stay isInlineSpace _ _ _ Hat3) by done. by rewrite (at_byteIs _ _ _ _ _ Hat3).
Qed.

(** A header name that stops at no colon makes no header. *)
Lemma no_header_tag src i name r : drop i src = cLt :: name ++ cGt :: r →
  Forall (fun c => isHeaderNameByte c = true) name → name ≠ [] →
  (if lineStart src i then appendLineStartRedactionAt uc re src i else Some None) = Some None.
Proof.
  intros Hat Hn Hne. destruct (lineStart src i); [|done]. destruct (at_cons _ _ _ _ Hat) as (Hc & Hat1 & _).
  destruct (at_app _ _ _ _ Hat1) as [_ Hat2]. unfold appendLineStartRedactionAt. rewrite Hc. cbn [mbind option_bind].
  change (cLt =? cDash) with false. cbn [andb mbind option_bind]. destruct (enabled re RuleHeaders); [|done].
  destruct name as [|c name]; [done|]. inversion_clear Hn as [|?? Hhc Hn'].
  assert (Hcs : isInlineSpace c = false).
  { revert Hhc. unfold isHeaderNameByte, isASCIIAlphaNum, isInlineSpace, between.
    rewrite !orb_true_iff, !orb_false_iff, !andb_true_iff, !Z.leb_le, !Z.eqb_eq, !Z.eqb_neq. lia. }
  assert (Hpre : skipHeaderLinePrefix src i = S i).
  { unfold skipHeaderLinePrefix, skipInlineSpaces. rewrite (scan_stay _ _ _ _ Hat) by done.
    rewrite (at_byteIs _ _ _ _ _ Hat). cbn [orb Z.eqb Pos.eqb]. by rewrite (scan_stay _ _ _ _ Hat1). }
  rewrite Hpre. unfold sensitiveHeaderValueStart, skipInlineSpaces.
  rewrite (scan_run isHeaderNameByte src (S i) (c :: name) _ Hat1) by (done || by constructor).
  destruct (Nat.eqb_spec (S i + length (c :: name)) (S i)) as [Hbad|_]; [simpl in Hbad; lia|].
  rewrite (scan_stay isInlineSpace _ _ _ Hat2) by done. by rewrite (at_byteIs _ _ _ _ _ Hat2).
Qed.

(** The text of an element. *)
Lemma xml_hidden src i name secret rest :
  drop i src = cLt :: name ++ cGt :: secret ++ cLt :: cSlash :: name ++ cGt :: rest →
  enabled re RuleXML = true → stops (fun c => negb (isASCIIAlpha c)) name → name ≠ [] →
  Forall (fun c => isHeaderNameByte c = true) name → sensitive uc re name = true →
  secret ≠ [] → Forall (fun c => negb (c =? cLt) = true) secret →
  round src i = Some ((i + length (cLt :: name ++ cGt :: secret))%nat, cLt :: name ++ cGt :: marker re).
Proof.
  intros Hat Hen Hal Hne Hn Hsens Hsne Hsec. destruct (at_cons _ _ _ _ Hat) as (Hc & Hat1 & Hlt).
  destruct (at_app _ _ _ _ Hat1) as [_ Hat2]. destruct (at_cons _ _ _ _ Hat2) as (_ & Hat3 & Hlt3).
  destruct (at_app _ _ _ _ Hat3) as [_ Hat4]. destruct (at_cons _ _ _ _ Hat4) as (_ & _ & Hlt4).
  unfold round. rewrite (no_header_tag src i name _ Hat) by done. cbn [mbind option_bind]. rewrite Hc. cbn [mbind option_bind].
  change (isDigitByte cLt) with false. cbn iota. unfold appendTriggeredRedactionAt. rewrite Hc. cbn [mbind option_bind].
  change (triggerRule cLt) with RuleXML. rewrite Hen. cbn [RuleXML Z.eqb orb negb Pos.eqb].
  unfold appendRedactedXMLValueAt.
  assert (Hb : byteIs src (S i) isASCIIAlpha = true).
  { destruct name as [|c name]; [done|]. rewrite (at_byteIs _ _ _ _ _ Hat1). by apply negb_false_iff in Hal. }
  rewrite Hb. cbn [negb].
  rewrite (scan_run isXMLNameByte src (S i) name _ Hat1); [|eapply Forall_impl; [exact Hn|];
    intros c Hx; simpl in Hx; unfold isXMLNameByte; by rewrite Hx|done].
  unfold xmlOpenTagClose. set (gt := (S i + length name)%nat) in *.
  rewrite (scan_stay _ src gt _ Hat2) by done. rewrite (at_byteIs _ _ _ _ _ Hat2). cbn [negb Z.eqb Pos.eqb].
  assert (Hprev : (match gt with S j => src !! j | O => None end) ≠ Some cSlash ∧ is_Some (match gt with S j => src !! j | O => None end)).
  { unfold gt. cbn [Nat.add]. destruct name as [|c name _] using rev_ind; [done|].
    apply Forall_app in Hn as [_ [Hc' _]%Forall_cons]. rewrite length_app, Nat.add_1_r, Nat.add_succ_r.
    assert (Hl : src !! S (i + length name) = Some c).
    { change (S (i + length name))%nat with (S i + length name)%nat. rewrite <- lookup_drop, Hat1, <- app_assoc.
      rewrite lookup_app_r, Nat.sub_diag by lia. done. }
    rewrite Hl. split; [|done]. intros [= ->]. revert Hc'. vm_compute. done. }
  destruct Hprev as [Hns [b Hb']]. rewrite Hb' in *. cbn [mbind option_bind].
  rewrite (proj2 (Z.eqb_neq b cSlash)) by congruence. cbn [mbind option_bind].
  assert (Hcut : cut src (S i) gt = Some name) by (apply (cut_at _ _ _ _ Hat1); lia).
  rewrite Hcut. cbn [mbind option_bind]. rewrite Hsens. cbn [negb]. unfold xmlFlatContentEnd.
  assert (Hfuel : (length secret < length src)%nat) by lia.
  rewrite (content_loop_text src (length src) (S gt) secret _ Hat3 Hsec Hfuel). cbn [mbind option_bind].
  destruct (Nat.eqb_spec (S gt + length secret) (S gt)) as [Hbad|_]; [destruct secret; [done|simpl in Hbad; lia]|].
  rewrite (proj2 (Nat.leb_gt _ _)) by lia. rewrite (closing_tag_at src _ name rest Hat4). cbn [orb negb mbind option_bind].
  assert (Hkept : drop i src = (cLt :: name ++ [cGt]) ++ secret ++ cLt :: cSlash :: name ++ cGt :: rest)
    by (rewrite Hat; cbn [app]; by rewrite <- app_assoc).
  assert (Hcut2 : cut src i (S gt) = Some (cLt :: name ++ [cGt])).
  { replace (S gt) with (i + length (cLt :: name ++ [cGt]))%nat by (unfold gt; cbn [length]; rewrite length_app; simpl; lia).
    apply (cut_at _ _ _ _ Hkept). lia. }
  rewrite Hcut2. cbn [mbind option_bind]. f_equal. f_equal.
  - unfold gt. cbn [length]. rewrite !length_app. simpl. lia.
  - cbn [app]. by rewrite <- app_assoc.
Qed.

(** *** User information *)

Definition ui_byte (c : Z) : bool := negb (isUserinfoBoundary c).

Lemma userinfo_user l rest j atEnd : Forall (fun c => ui_byte c && negb (c =? cAt) && negb (c =? cColon) = true) l →
  userinfo_loop (l ++ rest) j None None atEnd = userinfo_loop rest (j + length l) None None atEnd.
Proof.
  intros Hl. revert j. induction Hl as [|c l Hc _ IH]; intros j; [simpl; by rewrite Nat.add_0_r|].
  rewrite !andb_true_iff, !negb_true_iff in Hc. destruct Hc as [[Hb Ha] Hcol]. unfold ui_byte in Hb. apply negb_true_iff in Hb.
  cbn [app userinfo_loop length]. rewrite Ha, Hb, Hcol, IH. f_equal. lia.
Qed.

(** Past the colon only the last at sign moves. *)
Lemma userinfo_secret l rest j p at_ atEnd : Forall (fun c => ui_byte c = true) l →
  ∃ at', userinfo_loop (l ++ rest) j (Some p) at_ atEnd = userinfo_loop rest (j + length l) (Some p) at' atEnd ∧
    (Forall (fun c => negb (c =? cAt) = true) l → at' = at_).
Proof.
  intros Hl. revert j at_. induction Hl as [|c l Hc _ IH]; intros j at_; [exists at_; simpl; by rewrite Nat.add_0_r|].
  unfold ui_byte in Hc. apply negb_true_iff in Hc. cbn [app userinfo_loop length].
  replace (j + S (length l))%nat with (S j + length l)%nat by lia. destruct (c =? cAt) eqn:Ha.
  - destruct (IH (S j) (Some j)) as (at' & -> & _). exists at'. split; [done|].
    intros Hno. inversion_clear Hno as [|?? Hbad _]. by rewrite Ha in Hbad.
  - rewrite Hc. destruct (IH (S j) at_) as (at' & -> & Hat'). exists at'. split; [done|].
    intros Hno. inversion_clear Hno. by apply Hat'.
Qed.

Lemma userinfo_end rest j p a atEnd : (p < a)%nat → stops ui_byte rest → (rest = [] → atEnd = true) →
  userinfo_loop rest j (Some p) (Some a) atEnd = (Some p, Some a).
Proof.
  intros Hpa Hst Hend. assert (Hr : userinfoResult (Some p) (Some a) = (Some p, Some a)).
  { unfold userinfoResult. by rewrite (proj2 (Nat.ltb_ge a p)) by lia. }
  destruct rest as [|c rest]; cbn [userinfo_loop]; [by rewrite Hend|].
  unfold stops, ui_byte in Hst. apply negb_false_iff in Hst. rewrite Hst.
  destruct (Z.eqb_spec c cAt) as [->|]; [revert Hst; vm_compute; done|done].
Qed.

(** The password of a URL, whatever it contains short of a boundary. *)
Lemma userinfo_hidden src i user secret host rest :
  drop i src = cColon :: cSlash :: cSlash :: user ++ cColon :: secret ++ cAt :: host ++ rest →
  enabled re RuleUserinfo = true →
  Forall (fun c => ui_byte c && negb (c =? cAt) && negb (c =? cColon) = true) user →
  Forall (fun c => ui_byte c = true) secret → Forall (fun c => ui_byte c && negb (c =? cAt) = true) host →
  stops ui_byte rest → (length (user ++ cColon :: secret ++ cAt :: host) <= maxUserinfoScan)%nat →
  (rest ≠ [] → (length (user ++ cColon :: secret ++ cAt :: host) < maxUserinfoScan)%nat) →
  round src i = Some ((i + length (cColon :: cSlash :: cSlash :: user ++ cColon :: secret))%nat,
    cColon :: cSlash :: cSlash :: user ++ cColon :: marker re).
Proof.
  intros Hat Hen Hu Hs Hh Hst Hlen Hlen'. destruct (at_cons _ _ _ _ Hat) as (Hc & Hat1 & Hlt).
  destruct (at_cons _ _ _ _ Hat1) as (_ & Hat2 & _). destruct (at_cons _ _ _ _ Hat2) as (_ & Hat3 & Hlt3).
  destruct (at_app _ _ _ _ Hat3) as [_ Hat4]. destruct (at_cons _ _ _ _ Hat4) as (_ & _ & Hlt4).
  unfold round. rewrite (no_line_rule src i _ _ Hat) by done. cbn [mbind option_bind]. rewrite Hc. cbn [mbind option_bind].
  change (isDigitByte cColon) with false. cbn iota. unfold appendTriggeredRedactionAt. rewrite Hc. cbn [mbind option_bind].
  change (triggerRule cColon) with RuleUserinfo. rewrite Hen. cbn [RuleUserinfo Z.eqb orb negb Pos.eqb].
  unfold appendRedactedURLPasswordAt. replace (i + 1)%nat with (S i) by lia. replace (i + 2)%nat with (S (S i)) by lia.
  replace (i + 3)%nat with (S (S (S i))) by lia.
  rewrite (at_byteIs _ _ _ _ _ Hat1), (at_byteIs _ _ _ _ _ Hat2). cbn [andb negb Z.eqb Pos.eqb].
  set (ui := S (S (S i))) in *. set (pw := (ui + length user)%nat) in *. set (a := (S pw + length secret)%nat).
  assert (Hf : findUserinfoPassword src ui = (Some pw, Some a)).
  { unfold findUserinfoPassword. set (limit := Nat.min _ _). set (atEnd := Nat.eqb _ _).
    set (form := user ++ cColon :: secret ++ cAt :: host) in *.
    assert (Hform : drop ui src = form ++ rest) by (rewrite Hat3; unfold form; by rewrite <- !app_assoc, <- !app_comm_cons, <- app_assoc).
    assert (Hsrc : length src = (ui + length form + length rest)%nat).
    { apply (f_equal length) in Hform. rewrite length_drop, length_app in Hform. lia. }
    assert (Hwin : take (limit - ui) (drop ui src) = form ++ take (limit - ui - length form) rest).
    { rewrite Hform, take_app. f_equal. apply take_ge. unfold limit. lia. }
    rewrite Hwin. set (tl := take (limit - ui - length form) rest). unfold form. rewrite <- app_assoc, <- app_comm_cons. rewrite userinfo_user by done. fold pw.
    cbn [userinfo_loop]. change (cColon =? cAt) with false. change (isUserinfoBoundary cColon) with false.
    cbn [Z.eqb Pos.eqb]. rewrite <- app_assoc, <- app_comm_cons.
    destruct (userinfo_secret secret (cAt :: host ++ tl) (S pw) pw None atEnd Hs) as (at' & -> & _).
    fold a. cbn [userinfo_loop Z.eqb Pos.eqb].
    destruct (userinfo_secret host tl (S a) pw (Some a) atEnd) as (at2 & -> & Hat').
    { eapply Forall_impl; [exact Hh|]. intros c [Hx _]%andb_true_iff. done. }
    rewrite Hat' by (eapply Forall_impl; [exact Hh|]; intros c [_ Hx]%andb_true_iff; done).
    apply userinfo_end; unfold tl; [unfold a; lia| |].
    - destruct rest; [by rewrite take_nil|]. by destruct (limit - ui - length form)%nat.
    - intros Hnil. apply Nat.eqb_eq. apply (f_equal length) in Hnil. rewrite length_take in Hnil. simpl in Hnil.
      unfold limit in *. destruct rest as [|b rest]; [simpl in *; lia|]. specialize (Hlen' ltac:(done)). simpl in *. lia. }
  rewrite Hf.
  assert (Hkept : drop i src = (cColon :: cSlash :: cSlash :: user ++ [cColon]) ++ secret ++ cAt :: host ++ rest)
    by (rewrite Hat; cbn [app]; by rewrite <- app_assoc).
  assert (Hcut : cut src i (S pw) = Some (cColon :: cSlash :: cSlash :: user ++ [cColon])).
  { replace (S pw) with (i + length (cColon :: cSlash :: cSlash :: user ++ [cColon]))%nat
      by (unfold pw, ui; cbn [length]; rewrite length_app; simpl; lia). apply (cut_at _ _ _ _ Hkept). lia. }
  rewrite Hcut. cbn [mbind option_bind]. f_equal. f_equal.
  - unfold a, pw, ui. cbn [length]. rewrite length_app. simpl. lia.
  - cbn [app]. by rewrite <- app_assoc.
Qed.

(** An authority that does not end within the bound is left. *)
Lemma userinfo_endless l : ∀ j p a, Forall (fun c => ui_byte c = true) l → userinfo_loop l j p a false = (None, None).
Proof.
  induction l as [|c l IH]; intros j p a Hl; [done|]. apply Forall_cons in Hl as [Hc Hl]. unfold ui_byte in Hc. apply negb_true_iff in Hc.
  cbn [userinfo_loop]. destruct (c =? cAt); [by apply IH|]. rewrite Hc. by apply IH.
Qed.

Lemma userinfo_spared src i authority rest : drop i src = cColon :: cSlash :: cSlash :: authority ++ rest →
  Forall (fun c => ui_byte c = true) authority → length authority = maxUserinfoScan → rest ≠ [] → copies copyEnd src →
  ∃ j, (i < j)%nat ∧ round src i = Some (j, span src i j).
Proof.
  intros Hat Hu Hlen Hne Hcp. destruct (at_cons _ _ _ _ Hat) as (Hc & Hat1 & Hlt).
  destruct (at_cons _ _ _ _ Hat1) as (_ & Hat2 & _). destruct (at_cons _ _ _ _ Hat2) as (_ & Hat3 & Hlt3).
  destruct (Hcp i Hlt) as (j & Hj & Hij). exists j. split; [lia|].
  assert (Hno : appendTriggeredRedactionAt uc re src i = Some None).
  { unfold appendTriggeredRedactionAt. rewrite Hc. cbn [mbind option_bind]. change (triggerRule cColon) with RuleUserinfo. destruct (_ || _); [done|].
    change (cColon =? cQuote) with false. change (cColon =? cEq) with false. change (cColon =? cColon) with true. cbn iota.
    unfold appendRedactedURLPasswordAt. replace (i + 1)%nat with (S i) by lia. replace (i + 2)%nat with (S (S i)) by lia. replace (i + 3)%nat with (S (S (S i))) by lia.
    rewrite (at_byteIs _ _ _ _ _ Hat1), (at_byteIs _ _ _ _ _ Hat2). cbn [andb negb Z.eqb Pos.eqb]. unfold findUserinfoPassword.
    assert (Hsrc : length src = (S (S (S i)) + maxUserinfoScan + length rest)%nat) by (apply (f_equal length) in Hat3; rewrite length_drop, length_app in Hat3; lia).
    assert (0 < length rest)%nat by (destruct rest; [done|simpl; lia]). rewrite Nat.min_r by lia. rewrite (proj2 (Nat.eqb_neq _ _)) by lia.
    replace (S (S (S i)) + maxUserinfoScan - S (S (S i)))%nat with (length authority) by lia. rewrite Hat3, take_app_length, userinfo_endless by done. done. }
  unfold round. rewrite (no_line_rule src i _ _ Hat) by done. cbn [mbind option_bind]. rewrite Hc. cbn [mbind option_bind]. change (isDigitByte cColon) with false. cbn iota.
  rewrite Hno. cbn [mbind option_bind]. change (cColon =? cNL) with false. cbn iota. rewrite Hj. cbn [mbind option_bind]. rewrite cut_span by lia. done.
Qed.

(** What follows a name that is not a header's: past the rest of the name and
    spaces, no colon. *)
Definition names_no_header (rest : gostring) : Prop := byteIs rest (skipInlineSpaces rest (scan isHeaderNameByte rest 0)) (fun c => c =? cColon) = false.

Lemma run_len_app p l rest : Forall (fun c => p c = true) l → run_len p (l ++ rest) = (length l + run_len p rest)%nat.
Proof. induction 1 as [|c l Hc _ IH]; [done|]. cbn. by rewrite Hc, IH. Qed.

Lemma no_header_number src i digits rest : drop i src = digits ++ rest → Forall (fun c => isDigitByte c = true) digits → digits ≠ [] →
  (lineStart src i = true → names_no_header rest) → (if lineStart src i then appendLineStartRedactionAt uc re src i else Some None) = Some None.
Proof.
  intros Hat Hd Hne Hno. destruct (lineStart src i); [|done]. specialize (Hno eq_refl). pose proof (at_app _ _ _ _ Hat) as [_ Hr].
  destruct digits as [|c digits]; [done|]. cbn [app] in Hat. destruct (at_cons _ _ _ _ Hat) as (Hc & _ & _). pose proof (Forall_inv Hd) as Hcd. cbn beta in Hcd.
  assert (Hc' : (c =? cDash) = false ∧ isInlineSpace c = false ∧ (c =? cGt) || (c =? cLt) = false).
  { revert Hcd. unfold isDigitByte, isInlineSpace, between. rewrite !andb_true_iff, !orb_false_iff, !Z.leb_le, !Z.eqb_neq. lia. }
  destruct Hc' as (Hc1 & Hc2 & Hc3). unfold appendLineStartRedactionAt. rewrite Hc. cbn [mbind option_bind]. rewrite Hc1. cbn [andb mbind option_bind]. destruct (enabled re RuleHeaders); [|done].
  assert (Hpre : skipHeaderLinePrefix src i = i).
  { unfold skipHeaderLinePrefix, skipInlineSpaces. rewrite (scan_stay _ _ _ _ Hat) by done. by rewrite (at_byteIs _ _ _ _ _ Hat), Hc3. }
  rewrite Hpre. unfold sensitiveHeaderValueStart.
  assert (Hname : scan isHeaderNameByte src i = (i + length (c :: digits) + scan isHeaderNameByte rest 0)%nat).
  { unfold scan at 1. rewrite Hat. change (c :: digits ++ rest) with ((c :: digits) ++ rest). rewrite run_len_app; [unfold scan; rewrite drop_0; lia|].
    eapply Forall_impl; [exact Hd|]. intros x. unfold isDigitByte, isHeaderNameByte, isASCIIAlphaNum. intros Hx. rewrite !orb_true_iff. tauto. }
  rewrite Hname. destruct (Nat.eqb_spec (i + length (c :: digits) + scan isHeaderNameByte rest 0) i) as [Hbad|_]; [simpl in Hbad; lia|].
  assert (Hsp : skipInlineSpaces src (i + length (c :: digits) + scan isHeaderNameByte rest 0) = (i + length (c :: digits) + skipInlineSpaces rest (scan isHeaderNameByte rest 0))%nat).
  { unfold skipInlineSpaces. unfold scan at 1 3. rewrite <- drop_drop, Hr. lia. }
  rewrite Hsp, (byteIs_drop _ _ _ _ _ Hr). unfold names_no_header in Hno. by rewrite Hno.
Qed.

(** A free-standing card number. *)
Lemma card_hidden src i digits rest :
  drop i src = digits ++ rest → afterWord src i = false → (lineStart src i = true → names_no_header rest) → enabled re RuleCards = true →
  Forall (fun c => isDigitByte c = true) digits → stops isWordChar rest → isCreditCard (luhn re) digits = Some true →
  round src i = Some ((i + length digits)%nat, marker re).
Proof.
  intros Hat Hw Hl Hen Hdig Hst Hcard. pose proof (isCreditCard_inv _ _ Hcard) as [Hlen _].
  assert (Hne : digits ≠ []) by (intros ->; simpl in Hlen; lia). unfold round. rewrite (no_header_number src i digits rest Hat Hdig Hne Hl).
  destruct Hdig as [|c digits Hd Hdig]; [done|]. destruct (at_cons _ _ _ _ Hat) as (Hc & _ & Hi). cbn [mbind option_bind]. rewrite Hc. cbn [mbind option_bind]. rewrite Hd.
  unfold appendDigitRunAt, scanDigits.
  assert (Hst' : stops isDigitByte rest).
  { destruct rest as [|d rest]; [done|]. revert Hst. unfold stops, isWordChar, isDigitByte.
    rewrite !orb_false_iff. by intros [[[_ ?] _] _]. }
  rewrite (scan_run isDigitByte src i (c :: digits) rest Hat) by (done || by constructor).
  rewrite (cut_at _ _ _ _ Hat) by lia. cbn [mbind option_bind]. rewrite Hw, Hen. cbn [negb orb].
  destruct (at_app _ _ _ _ Hat) as [_ Hr].
  assert (Hb : byteIs src (i + length (c :: digits)) isWordChar = false).
  { destruct rest as [|d rest]; [|by rewrite (at_byteIs _ _ _ _ _ Hr)]. unfold byteIs.
    rewrite <- (Nat.add_0_r (i + _)), <- lookup_drop, Hr. done. }
  by rewrite Hb, Hcard.
Qed.
End Forms.

(** At [src[i]] the equals sign of a pair whose key is sensitive. *)
Definition sensitive_pair (uc : unicode) (re : Redactor) (src : gostring) (i : nat) (p key value : gostring) : Prop :=
  src = p ++ key ++ cEq :: value ∧ i = length (p ++ key) ∧ (p = [] ∨ ∃ b, last p = Some b ∧ isURLKeyBoundary b = true) ∧ enabled re RuleURLEncoded = true ∧
  Forall (fun c => negb (isURLKeyBoundary c) = true) key ∧ cSlash ∉ key ∧ sensitive uc re key = true.

Lemma sensitive_pair_at uc re src i p key value : sensitive_pair uc re src i p key value → drop (S i) src = value.
Proof. intros (-> & -> & _). rewrite app_assoc. change (cEq :: value) with ([cEq] ++ value). rewrite app_assoc. apply drop_app_length'. rewrite !length_app. simpl. lia. Qed.

(** A secret written in one of its plain forms at [src[i]], an index that the
    loop may reach: the index after the hidden text, and what replaces it. The
    secret itself is arbitrary up to the bytes that end it. *)
Inductive form (uc : unicode) (re : Redactor) (src : gostring) (i : nat) : nat → gostring → Prop :=
| form_header name sp secret eol rest :
    drop i src = name ++ cColon :: sp ++ secret ++ eol ++ rest →
    lineStart src i = true → enabled re RuleHeaders = true →
    name ≠ [] → head name ≠ Some cDash → Forall (fun c => isHeaderNameByte c = true) name → sensitive uc re name = true →
    Forall (fun c => isInlineSpace c = true) sp → stops isInlineSpace secret →
    Forall (fun c => negb (c =? cNL) = true) secret → last secret ≠ Some cCR → line_end eol rest →
    form uc re src i (i + length (name ++ cColon :: sp ++ secret)) (name ++ cColon :: sp ++ marker re)
| form_json key sp1 sp2 secret rest :
    drop i src = cQuote :: key ++ cQuote :: sp1 ++ cColon :: sp2 ++ cQuote :: json_escape secret ++ cQuote :: rest →
    likelyJSONKeyStart re src i = Some true → enabled re RuleJSON = true →
    Forall (fun c => json_key_byte c = true) key → sensitive uc re key = true → isJSONLabelKey key = false →
    Forall (fun c => isJSONSpace c = true) sp1 → Forall (fun c => isJSONSpace c = true) sp2 →
    form uc re src i
      (i + length (cQuote :: key ++ cQuote :: sp1 ++ cColon :: sp2 ++ cQuote :: json_escape secret ++ [cQuote]))
      (cQuote :: key ++ cQuote :: sp1 ++ cColon :: sp2 ++ quotedMarker re)
| form_url p key secret rest :
    sensitive_pair uc re src i p key (secret ++ rest) →
    Forall (fun c => negb (isURLValueBoundary c) = true) secret → lone_marker re (secret ++ rest) = false →
    stops (fun c => negb (isURLValueBoundary c)) rest → (secret = [] → head rest ≠ Some cQuote) →
    form uc re src i (i + length (cEq :: secret)) (cEq :: marker re)
| form_xml name secret rest :
    drop i src = cLt :: name ++ cGt :: secret ++ cLt :: cSlash :: name ++ cGt :: rest →
    enabled re RuleXML = true → stops (fun c => negb (isASCIIAlpha c)) name → name ≠ [] →
    Forall (fun c => isHeaderNameByte c = true) name → sensitive uc re name = true →
    secret ≠ [] → Forall (fun c => negb (c =? cLt) = true) secret →
    form uc re src i (i + length (cLt :: name ++ cGt :: secret)) (cLt :: name ++ cGt :: marker re)
| form_userinfo user secret host rest :
    drop i src = cColon :: cSlash :: cSlash :: user ++ cColon :: secret ++ cAt :: host ++ rest →
    enabled re RuleUserinfo = true →
    Forall (fun c => ui_byte c && negb (c =? cAt) && negb (c =? cColon) = true) user →
    Forall (fun c => ui_byte c = true) secret → Forall (fun c => ui_byte c && negb (c =? cAt) = true) host →
    stops ui_byte rest → (length (user ++ cColon :: secret ++ cAt :: host) <= maxUserinfoScan)%nat →
    (rest ≠ [] → (length (user ++ cColon :: secret ++ cAt :: host) < maxUserinfoScan)%nat) →
    form uc re src i (i + length (cColon :: cSlash :: cSlash :: user ++ cColon :: secret))
      (cColon :: cSlash :: cSlash :: user ++ cColon :: marker re)
| form_card digits rest :
    drop i src = digits ++ rest → afterWord src i = false → (lineStart src i = true → names_no_header rest) → enabled re RuleCards = true →
    Forall (fun c => isDigitByte c = true) digits → stops isWordChar rest → isCreditCard (luhn re) digits = Some true →
    form uc re src i (i + length digits) (marker re).


