(* ===== verification/MySQLLock.v ===== *)
(** * [pkg/mysqllock]: named locks held on a dedicated connection

    mysqllock.go and options.go. [Acquire] is a function of what the driver
    answers, with the calls it makes on the connection. Once the lock is held
    two kinds of goroutines share that connection: the keep-alive loop, and
    any number of callers of the release function, handlers of a lost lock
    among them. They interleave by the relation [step], one rule per
    operation on the shared state: the context, the channel [done], the
    [sync.Once] and the connection. *)

From stdpp Require Import base option list relations.
From Stdlib Require Import String.
From S2P Require Import Prelude GoString.

#[local] Open Scope Z_scope.

(** ** Configuration *)

Definition Second : Z := 10 ^ 9.

(** Errors of the driver: those [errors.Is] finds a context error in, and the
    others. *)
Inductive dberror : Type := ContextError (code : Z) | DriverError (code : Z).

Inductive lerror : Type :=
| ErrTimeout | ErrFailed | ErrNilDB | ErrInvalidKey | ErrInvalidTimeout
| ErrLockLost (key : gostring) (res : Z)
| NoConnection (e : dberror)
| ScanLock (e : dberror)
| ScanRelease (e : dberror)
| Join (e : option lerror) (cerr : dberror).

Definition resLockError : Z := -1.
Definition resLockTimeout : Z := 0.
Definition resLockAcquired : Z := 1.
Definition maxKeyLen : Z := 64.
Definition defaultKeepAliveInterval : Z := 30 * Second.
Definition defaultKeepAlivePingTimeout : Z := 10 * Second.
Definition defaultReleaseTimeout : Z := 10 * Second.
Definition bestEffortReleaseTimeout : Z := 2 * Second.

(** [MySQLLock]; of a handler only whether it is set. *)
Record MySQLLock : Type := MkLock {
  db : bool;
  keepAliveErrHandler : bool;
  keepAliveInterval : Z;
  keepAlivePingTimeout : Z;
  releaseTimeout : Z
}.

Definition LOption : Type := MySQLLock → MySQLLock.

Definition WithKeepAliveErrorHandler (handler : bool) : LOption := fun l =>
  MkLock (db l) handler (keepAliveInterval l) (keepAlivePingTimeout l) (releaseTimeout l).
Definition WithKeepAliveInterval (interval : Z) : LOption := fun l =>
  if 0 <? interval then MkLock (db l) (keepAliveErrHandler l) interval (keepAlivePingTimeout l) (releaseTimeout l) else l.
Definition WithKeepAlivePingTimeout (timeout : Z) : LOption := fun l =>
  if 0 <? timeout then MkLock (db l) (keepAliveErrHandler l) (keepAliveInterval l) timeout (releaseTimeout l) else l.
Definition WithReleaseTimeout (timeout : Z) : LOption := fun l =>
  if 0 <? timeout then MkLock (db l) (keepAliveErrHandler l) (keepAliveInterval l) (keepAlivePingTimeout l) timeout else l.

(** [acquireConfig] and its option: whether the handler is set. *)
Definition acquireConfig : Type := bool.
Definition AcquireOption : Type := acquireConfig → acquireConfig.
Definition WithLostLockHandler (handler : bool) : AcquireOption := fun _ => handler.

Definition New (db : bool) (opts : list LOption) : MySQLLock :=
  fold_left (fun l opt => opt l) opts
    (MkLock db false defaultKeepAliveInterval defaultKeepAlivePingTimeout defaultReleaseTimeout).

(** ** Acquisition *)

(** What the driver answers. *)
Record Driver : Type := MkDriver {
  Conn : option dberror;
  GetLock : result dberror Z;
  ReleaseLock : result dberror Z;
  Close : option dberror
}.

(** The calls made on the connection; a timeout of GET_LOCK, a bound on
    RELEASE_LOCK. *)
Inductive call : Type :=
| CallGetLock (key : gostring) (timeout : Z)
| CallReleaseLock (key : gostring) (bound : Z)
| CallClose.

Definition validateKey (key : gostring) : option lerror :=
  if (length key =? 0)%nat || (maxKeyLen <? Z.of_nat (length (runes key))) then Some ErrInvalidKey else None.

Definition isContextError (e : dberror) : bool := match e with ContextError _ => true | DriverError _ => false end.

(** [closeConnection]: the error with what closing adds to it. *)
Definition closeConnection (close : option dberror) (err : option lerror) : option lerror :=
  match close with None => err | Some cerr => Some (Join err cerr) end.

Definition bestEffortRelease (l : MySQLLock) (key : gostring) : list call :=
  [CallReleaseLock key (Z.min (releaseTimeout l) bestEffortReleaseTimeout)].

(** [getLockedConn]: the error, if any, and the calls. *)
Definition getLockedConn (l : MySQLLock) (d : Driver) (key : gostring) (timeout : Z) : option lerror * list call :=
  match Conn d with
  | Some cerr => (Some (NoConnection cerr), [])
  | None =>
      let calls := [CallGetLock key timeout] in
      match GetLock d with
      | Error serr =>
          (closeConnection (Close d) (Some (ScanLock serr)),
           calls ++ (if isContextError serr then bestEffortRelease l key else []) ++ [CallClose])
      | Ok res =>
          if negb (res =? resLockAcquired) then
            (closeConnection (Close d) (Some (if res =? resLockTimeout then ErrTimeout else ErrFailed)), calls ++ [CallClose])
          else (None, calls)
      end
  end.

(** The handlers of a lost lock, in the order [makeLostNotifier] calls them. *)
Inductive handler : Type := Instance | Acquisition.

(** What the goroutines share about the lock. *)
Record Held : Type := MkHeld {
  h_key : gostring;
  h_releaseTimeout : Z;
  h_handlers : list handler
}.

(** [makeLostNotifier]: the handlers that are set. *)
Definition lostHandlers (l : MySQLLock) (onLost : bool) : list handler :=
  (if keepAliveErrHandler l then [Instance] else []) ++ (if onLost then [Acquisition] else []).

Definition Acquire (l : MySQLLock) (d : Driver) (key : gostring) (timeout : Z) (opts : list AcquireOption)
    : result lerror Held * list call :=
  if negb (db l) then (Error ErrNilDB, [])
  else match validateKey key with
  | Some verr => (Error verr, [])
  | None =>
      if timeout <=? 0 then (Error ErrInvalidTimeout, [])
      else
        let onLost := fold_left (fun acfg opt => opt acfg) opts false in
        let '(err, calls) := getLockedConn l d key timeout in
        match err with
        | Some e => (Error e, calls)
        | None => (Ok (MkHeld key (releaseTimeout l) (lostHandlers l onLost)), calls)
        end
  end.

(** The error [releaseLock] returns for the answers to RELEASE_LOCK and to
    closing. *)
Definition releaseError (key : gostring) (answer : result dberror Z) : option lerror :=
  match answer with
  | Error serr => Some (ScanRelease serr)
  | Ok res => if negb (res =? resLockAcquired) then Some (ErrLockLost key res) else None
  end.

Definition releaseLock (key : gostring) (answer : result dberror Z) (close : option dberror) : option lerror :=
  closeConnection close (releaseError key answer).

(** ** The goroutines of a held lock *)

(** The keep-alive goroutine: in the select of [waitForKeepAliveFailure]; in a
    ping, which was begun before or after the context ended; about to decide
    whether the lock is lost; about to close [done]; calling the remaining
    handlers; inside one, which may itself be waiting for a call of the release
    function; gone. *)
Inductive keeper : Type :=
| KSelect
| KPing (ended : bool)
| KVerdict (kerr : option dberror)
| KClose (lost : option dberror)
| KNotify (e : dberror) (pending : list handler)
| KHandler (e : dberror) (pending : list handler) (waiting : option nat)
| KExit.

(** A call of the release function: about to enter [once.Do]; running it, up
    to the connection being closed; returned. *)
Inductive releaser : Type :=
| REntering
| RCancelling
| RAwaiting
| RReleasing
| RClosing (err : option lerror)
| RReturned (result : option lerror).

Inductive once : Type := OFresh | OBusy (t : nat) | ODone (result : option lerror).

(** Statements begun on the connection. *)
Inductive statement : Type := Ping | Release | CloseConn.

(** [w_lost] is a ghost: the failure the keep-alive goroutine found while the
    context had not ended. *)
Record world : Type := World {
  w_cancelled : bool;
  w_done : bool;
  w_once : once;
  w_keeper : keeper;
  w_callers : list releaser;
  w_conn : list statement;
  w_notified : list (handler * dberror);
  w_lost : option dberror
}.

Definition initial : world := World false false OFresh KSelect [] [] [] None.

Definition keeper_to (k : keeper) (w : world) : world :=
  World (w_cancelled w) (w_done w) (w_once w) k (w_callers w) (w_conn w) (w_notified w) (w_lost w).
Definition caller_to (t : nat) (r : releaser) (w : world) : world :=
  World (w_cancelled w) (w_done w) (w_once w) (w_keeper w) (<[t := r]> (w_callers w)) (w_conn w) (w_notified w) (w_lost w).
Definition run_statement (s : statement) (w : world) : world :=
  World (w_cancelled w) (w_done w) (w_once w) (w_keeper w) (w_callers w) (w_conn w ++ [s]) (w_notified w) (w_lost w).
Definition add_caller (w : world) : world :=
  World (w_cancelled w) (w_done w) (w_once w) (w_keeper w) (w_callers w ++ [REntering]) (w_conn w) (w_notified w) (w_lost w).
Definition set_once (o : once) (w : world) : world :=
  World (w_cancelled w) (w_done w) o (w_keeper w) (w_callers w) (w_conn w) (w_notified w) (w_lost w).
Definition cancel (w : world) : world :=
  World true (w_done w) (w_once w) (w_keeper w) (w_callers w) (w_conn w) (w_notified w) (w_lost w).
Definition close_done (w : world) : world :=
  World (w_cancelled w) true (w_once w) (w_keeper w) (w_callers w) (w_conn w) (w_notified w) (w_lost w).
Definition lose (lost : option dberror) (w : world) : world :=
  World (w_cancelled w) (w_done w) (w_once w) (w_keeper w) (w_callers w) (w_conn w) (w_notified w) lost.
Definition notify (h : handler) (e : dberror) (w : world) : world :=
  World (w_cancelled w) (w_done w) (w_once w) (w_keeper w) (w_callers w) (w_conn w) (w_notified w ++ [(h, e)]) (w_lost w).

(** [lost := kerr != nil && ctx.Err() == nil]. *)
Definition verdict (kerr : option dberror) (cancelled : bool) : option dberror := if cancelled then None else kerr.

(** What comes from outside: a call of the release function, and the ticker
    before the context ended. The rest is work under way. *)
Inductive origin : Type := Outside | Work.

Section Goroutines.
Context (h : Held).

Inductive step : origin → world → world → Prop :=
(** [waitForKeepAliveFailure]: either case of the select, when ready. A ping
    begun after the context ended cannot succeed. *)
| step_tick w :
    w_keeper w = KSelect → w_cancelled w = false →
    step Outside w (run_statement Ping (keeper_to (KPing false) w))
| step_late_tick w :
    w_keeper w = KSelect → w_cancelled w = true →
    step Work w (run_statement Ping (keeper_to (KPing true) w))
| step_ctx_done w :
    w_keeper w = KSelect → w_cancelled w = true →
    step Work w (keeper_to (KVerdict None) w)
| step_ping_ok w :
    w_keeper w = KPing false → step Work w (keeper_to KSelect w)
| step_ping_failed w ended e :
    w_keeper w = KPing ended → step Work w (keeper_to (KVerdict (Some e)) w)
(** [keepConnectionAlive]. *)
| step_verdict w kerr :
    w_keeper w = KVerdict kerr →
    let lost := verdict kerr (w_cancelled w) in
    step Work w (lose lost (keeper_to (KClose lost) w))
| step_close_done w lost :
    w_keeper w = KClose lost →
    step Work w (close_done (keeper_to (match lost with Some e => KNotify e (h_handlers h) | None => KExit end) w))
| step_notify w e hd pending :
    w_keeper w = KNotify e (hd :: pending) →
    step Work w (notify hd e (keeper_to (KHandler e pending None) w))
| step_notified w e :
    w_keeper w = KNotify e [] → step Work w (keeper_to KExit w)
(** A handler may call the release function; it returns or panics. *)
| step_handler_release w e pending :
    w_keeper w = KHandler e pending None →
    step Outside w (add_caller (keeper_to (KHandler e pending (Some (length (w_callers w)))) w))
| step_handler_released w e pending t r :
    w_keeper w = KHandler e pending (Some t) → w_callers w !! t = Some (RReturned r) →
    step Work w (keeper_to (KHandler e pending None) w)
| step_handler_ends w e pending :
    w_keeper w = KHandler e pending None → step Work w (keeper_to (KNotify e pending) w)
(** The release function. *)
| step_call w : step Outside w (add_caller w)
| step_enter w t :
    w_callers w !! t = Some REntering → w_once w = OFresh →
    step Work w (set_once (OBusy t) (caller_to t RCancelling w))
| step_already w t r :
    w_callers w !! t = Some REntering → w_once w = ODone r →
    step Work w (caller_to t (RReturned r) w)
| step_cancel w t :
    w_callers w !! t = Some RCancelling →
    step Work w (cancel (caller_to t RAwaiting w))
| step_await w t :
    w_callers w !! t = Some RAwaiting → w_done w = true →
    step Work w (run_statement Release (caller_to t RReleasing w))
| step_released w t answer :
    w_callers w !! t = Some RReleasing →
    step Work w (caller_to t (RClosing (releaseError (h_key h) answer)) w)
| step_close w t err close :
    w_callers w !! t = Some (RClosing err) →
    let result := closeConnection close err in
    step Work w (run_statement CloseConn (set_once (ODone result) (caller_to t (RReturned result) w))).

Definition steps (w w' : world) : Prop := ∃ o, step o w w'.
Definition reachable (w : world) : Prop := rtc steps initial w.
Definition works (w w' : world) : Prop := step Work w w'.

(** ** Users of the connection *)

Inductive user : Type := Keeper | Caller (t : nat).

Definition uses (w : world) (u : user) : Prop :=
  match u with
  | Keeper => ∃ ended, w_keeper w = KPing ended
  | Caller t => w_callers w !! t = Some RReleasing ∨ ∃ err, w_callers w !! t = Some (RClosing err)
  end.

(** ** The invariant *)

Definition finished (k : keeper) : bool := match k with KNotify _ _ | KHandler _ _ _ | KExit => true | _ => false end.

(** What the release function has begun on the connection. *)
Definition release_part (w : world) : list statement :=
  match w_once w with
  | OFresh => []
  | OBusy t => match w_callers w !! t with Some RReleasing | Some (RClosing _) => [Release] | _ => [] end
  | ODone _ => [Release; CloseConn]
  end.

Definition caller_ok (w : world) (t : nat) (r : releaser) : Prop :=
  match r with
  | REntering => True
  | RCancelling => w_once w = OBusy t ∧ w_cancelled w = false
  | RAwaiting => w_once w = OBusy t ∧ w_cancelled w = true
  | RReleasing => w_once w = OBusy t ∧ w_cancelled w = true ∧ w_done w = true
  | RClosing err => w_once w = OBusy t ∧ w_cancelled w = true ∧ w_done w = true ∧ ∃ answer, err = releaseError (h_key h) answer
  | RReturned res => w_once w = ODone res
  end.

Definition once_ok (w : world) : Prop :=
  match w_once w with
  | OFresh => w_cancelled w = false
  | OBusy t => ∃ r, w_callers w !! t = Some r ∧ r ≠ REntering ∧ ∀ res, r ≠ RReturned res
  | ODone res => w_cancelled w = true ∧ w_done w = true ∧ ∃ answer close, res = releaseLock (h_key h) answer close
  end.

Definition notices (e : dberror) (hs : list handler) : list (handler * dberror) := (fun hd => (hd, e)) <$> hs.

Definition keeper_ok (w : world) : Prop :=
  match w_keeper w with
  | KSelect | KPing false | KVerdict (Some _) => w_lost w = None ∧ w_notified w = []
  | KPing true | KVerdict None => w_cancelled w = true ∧ w_lost w = None ∧ w_notified w = []
  | KClose lost => w_lost w = lost ∧ w_notified w = [] ∧ (lost = None → w_cancelled w = true)
  | KNotify e pending | KHandler e pending _ =>
      w_lost w = Some e ∧ ∃ called, h_handlers h = called ++ pending ∧ w_notified w = notices e called
  | KExit => w_notified w = match w_lost w with Some e => notices e (h_handlers h) | None => [] end
  end.

Record inv (w : world) : Prop := {
  i_done : w_done w = finished (w_keeper w);
  i_callers t r : w_callers w !! t = Some r → caller_ok w t r;
  i_once : once_ok w;
  i_keeper : keeper_ok w;
  i_conn : ∃ n, w_conn w = replicate n Ping ++ release_part w
}.

Lemma inv_initial : inv initial.
Proof. split; try done. by exists 0%nat. Qed.

(** While the keep-alive goroutine may ping, nothing was released. *)
Lemma no_release w : inv w → finished (w_keeper w) = false → release_part w = [].
Proof.
  intros [Hd Hc Ho _ _] Hf. unfold release_part, once_ok in *. rewrite Hf in Hd. destruct (w_once w) as [|t|res]; [done| |].
  - destruct Ho as (r & Hr & _). rewrite Hr. pose proof (Hc t r Hr) as Hok. destruct r; cbn in Hok; try done.
    + destruct Hok as (_ & _ & ?). congruence.
    + destruct Hok as (_ & _ & ? & _). congruence.
  - destruct Ho as (_ & ? & _). congruence.
Qed.

(** A step of the keep-alive goroutine that leaves the callers, the context,
    [sync.Once] and the connection alone. *)
Lemma inv_keeper w k w' : inv w → w_callers w' = w_callers w → w_once w' = w_once w → w_cancelled w' = w_cancelled w →
  w_conn w' = w_conn w → w_keeper w' = k → w_done w' = finished k → (w_done w = true → w_done w' = true) → keeper_ok w' → inv w'.
Proof.
  intros [Hd Hc Ho Hk [n Hn]] Ec Eo Ex En Ek Ed Hmono Hk'. split.
  - congruence.
  - intros t r Hr. rewrite Ec in Hr. specialize (Hc t r Hr). destruct r; cbn in *; rewrite ?Eo, ?Ex; try done.
    + destruct Hc as (? & ? & ?). auto.
    + destruct Hc as (? & ? & ? & ?). auto.
  - unfold once_ok in *. rewrite Eo, Ec, Ex. destruct (w_once w); try done. destruct Ho as (? & ? & ?). auto.
  - done.
  - exists n. rewrite En, Hn. unfold release_part. by rewrite Eo, Ec.
Qed.

Lemma inv_ping w : inv w → finished (w_keeper w) = false → inv (run_statement Ping w).
Proof.
  intros Hi Hf. pose proof (no_release w Hi Hf) as Hr. destruct Hi as [Hd Hc Ho Hk [n Hn]].
  split; [done|done|done|done|]. exists (S n). change (release_part (run_statement Ping w)) with (release_part w).
  rewrite Hr, app_nil_r in *. cbn. rewrite Hn. by rewrite <- replicate_cons_app.
Qed.

Lemma inv_add_caller w : inv w → inv (add_caller w).
Proof.
  intros [Hd Hc Ho Hk Hn]. split; [done| | |done|].
  - intros t r Hr. cbn in Hr. apply lookup_app_Some in Hr as [Hr|[_ Hr]]; [by apply (Hc t r)|].
    apply list_lookup_singleton_Some in Hr as [_ <-]. done.
  - unfold once_ok in *. cbn. destruct (w_once w); try done. destruct Ho as (r & Hr & ?). exists r. split; [|done].
    by apply lookup_app_l_Some.
  - destruct Hn as [n Hn]. exists n. cbn. rewrite Hn. f_equal. unfold release_part, once_ok in *. cbn.
    destruct (w_once w) as [|t|]; try done. destruct Ho as (r & Hr & _). by rewrite Hr, (lookup_app_l_Some _ _ _ _ Hr).
Qed.

(** A caller that is running [once.Do] is the one it is busy with. *)
Lemma running_caller w t r : inv w → w_callers w !! t = Some r → r ≠ REntering → (∀ res, r ≠ RReturned res) → w_once w = OBusy t.
Proof.
  intros [_ Hc _ _ _] Hr Hne Hnr. specialize (Hc t r Hr). destruct r; cbn in Hc; try done; try tauto. by destruct (Hnr result).
Qed.

(** The callers after one of them moved. *)
Lemma callers_after w t r t' r' : w_callers (caller_to t r w) !! t' = Some r' →
  t' = t ∧ r' = r ∨ t' ≠ t ∧ w_callers w !! t' = Some r'.
Proof.
  cbn. destruct (decide (t' = t)) as [->|Hne].
  - rewrite list_lookup_insert_Some. intros [(_ & <- & _)|(? & _)]; [by left|done].
  - rewrite list_lookup_insert_ne by done. auto.
Qed.

Lemma caller_moved w t r0 r : w_callers w !! t = Some r0 → <[t := r]> (w_callers w) !! t = Some r.
Proof. intros Hr. apply list_lookup_insert_eq. by apply lookup_lt_is_Some_1; eexists. Qed.

Lemma others_entering w t t' r : inv w → w_once w = OFresh ∨ w_once w = OBusy t → t' ≠ t → w_callers w !! t' = Some r → r = REntering.
Proof.
  intros [_ Hc _ _ _] Ho Hne Hr. specialize (Hc t' r Hr). destruct r; cbn in Hc; try done;
    destruct Ho as [Ho|Ho]; rewrite Ho in Hc; destruct_and?; by simplify_eq.
Qed.

(** The step of a caller that runs [once.Do], all the others being at its
    door. *)
Lemma inv_runs w t r0 r w' : inv w → w_callers w !! t = Some r0 → w_once w = OFresh ∨ w_once w = OBusy t →
  w_callers w' = <[t := r]> (w_callers w) → w_done w' = w_done w → w_keeper w' = w_keeper w → w_lost w' = w_lost w →
  w_notified w' = w_notified w → (w_cancelled w = true → w_cancelled w' = true) →
  caller_ok w' t r → once_ok w' → (∃ n, w_conn w' = replicate n Ping ++ release_part w') → inv w'.
Proof.
  intros Hi Hr0 Ho Ec Ed Ek El En Hx Hok Ho' Hn. split; try done.
  - rewrite Ed, Ek. by destruct Hi.
  - intros t' r' Hr'. rewrite Ec in Hr'. destruct (callers_after w t r t' r' Hr') as [[-> ->]|[Hne Hr]]; [done|].
    by rewrite (others_entering w t t' r' Hi Ho Hne Hr).
  - destruct Hi as [_ _ _ Hk _]. unfold keeper_ok in *. rewrite Ek, El, En.
    destruct (w_keeper w) as [|[]|[]|lost| | |]; try done; destruct_and?; split_and?; auto.
Qed.

Lemma inv_step o w w' : step o w w' → inv w → inv w'.
Proof.
  intros Hs Hi. pose proof Hi as [Hd Hc Ho Hk [n Hn]]. destruct Hs as [w Hp Hx|w Hp Hx|w Hp Hx|w Hp|w ended e Hp|w kerr Hp lost|w lost Hp
    |w e hd pending Hp|w e Hp|w e pending Hp|w e pending t r Hp Hr|w e pending Hp|w|w t Hr Hf|w t r Hr Hf|w t Hr|w t Hr Hdone|w t answer Hr|w t err close Hr result];
    unfold keeper_ok in Hk; try rewrite Hp in Hk; try rewrite Hp in Hd.
  - apply inv_ping; [|done]. by apply (inv_keeper w (KPing false)).
  - apply inv_ping; [|done]. destruct Hk. by apply (inv_keeper w (KPing true)).
  - destruct Hk. by apply (inv_keeper w (KVerdict None)).
  - by apply (inv_keeper w KSelect).
  - apply (inv_keeper w (KVerdict (Some e))); try done. destruct ended; by destruct_and?.
  - apply (inv_keeper w (KClose lost)); try done. subst lost. cbn. split; [done|].
    destruct kerr; destruct_and?; (split; [done|]); unfold verdict; by destruct (w_cancelled w).
  - destruct Hk as (Hl & Hno & _). apply (inv_keeper w (match lost with Some e => KNotify e (h_handlers h) | None => KExit end)); try done; [by destruct lost|].
    destruct lost as [e|]; cbn; [|by rewrite Hl, Hno]. split; [done|]. by exists [].
  - destruct Hk as (Hl & called & Hh & Hno). apply (inv_keeper w (KHandler e pending None)); try done. cbn. split; [done|].
    exists (called ++ [hd]). rewrite <- app_assoc. split; [done|]. unfold notices. by rewrite fmap_app, Hno.
  - destruct Hk as (Hl & called & Hh & Hno). apply (inv_keeper w KExit); try done. cbn. rewrite Hl, Hh, app_nil_r. done.
  - apply inv_add_caller. by apply (inv_keeper w (KHandler e pending (Some (length (w_callers w))))).
  - by apply (inv_keeper w (KHandler e pending None)).
  - by apply (inv_keeper w (KNotify e pending)).
  - by apply inv_add_caller.
  - unfold once_ok in Ho. rewrite Hf in Ho. apply (inv_runs w t REntering RCancelling); try done; [by left| |].
    + exists RCancelling. split; [by eapply (caller_moved w)|done].
    + exists n. cbn. rewrite Hn. unfold release_part. cbn. rewrite Hf. by rewrite (caller_moved w t REntering RCancelling Hr).
  - unfold once_ok in Ho. rewrite Hf in Ho. split; try done.
    + intros t' r' Hr'. destruct (callers_after w t _ t' r' Hr') as [[-> ->]|[Hne Hr'']]; [done|]. by apply (Hc t' r').
    + unfold once_ok. cbn. by rewrite Hf.
    + exists n. cbn. rewrite Hn. unfold release_part. cbn. by rewrite Hf.
  - pose proof (running_caller w t RCancelling Hi Hr ltac:(done) ltac:(done)) as Hb.
    apply (inv_runs w t RCancelling RAwaiting); try done; [by right| |].
    + unfold once_ok. cbn. rewrite Hb. exists RAwaiting. split; [by eapply (caller_moved w)|done].
    + exists n. cbn. rewrite Hn. unfold release_part. cbn. by rewrite Hb, Hr, (caller_moved w t RCancelling RAwaiting Hr).
  - pose proof (running_caller w t RAwaiting Hi Hr ltac:(done) ltac:(done)) as Hb. destruct (Hc t _ Hr) as [_ Hx].
    apply (inv_runs w t RAwaiting RReleasing); try done; [by right| |].
    + unfold once_ok. cbn. rewrite Hb. exists RReleasing. split; [by eapply (caller_moved w)|done].
    + exists n. cbn. rewrite Hn. unfold release_part. cbn. by rewrite Hb, Hr, (caller_moved w t RAwaiting RReleasing Hr), app_nil_r.
  - pose proof (running_caller w t RReleasing Hi Hr ltac:(done) ltac:(done)) as Hb. destruct (Hc t _ Hr) as (_ & Hx & Hdn).
    apply (inv_runs w t RReleasing (RClosing (releaseError (h_key h) answer))); try done; [by right|by cbn; eauto 6| |].
    + unfold once_ok. cbn. rewrite Hb. eexists. split; [by eapply (caller_moved w)|done].
    + exists n. cbn. rewrite Hn. unfold release_part. cbn. by rewrite Hb, Hr, (caller_moved w t RReleasing _ Hr).
  - pose proof (running_caller w t (RClosing err) Hi Hr ltac:(done) ltac:(done)) as Hb. destruct (Hc t _ Hr) as (_ & Hx & Hdn & answer & ->).
    apply (inv_runs w t (RClosing (releaseError (h_key h) answer)) (RReturned result)); try done; [by right| |].
    + unfold once_ok. cbn. split_and!; [done|done|]. by exists answer, close.
    + exists n. cbn. rewrite Hn. unfold release_part. cbn. by rewrite Hb, Hr, <- app_assoc.
Qed.

Lemma inv_steps w w' : rtc steps w w' → inv w → inv w'.
Proof. induction 1 as [|w1 w2 w3 [o Hs] _ IH]; [done|]. intros Hi. apply IH. by eapply inv_step. Qed.

Lemma lock_reachable_inv w : reachable w → inv w.
Proof. intros Hr. by apply (inv_steps initial); [|apply inv_initial]. Qed.

(** ** The work under way *)

Definition keeper_work (k : keeper) : nat :=
  match k with
  | KPing false => 6 + 3 * length (h_handlers h)
  | KSelect => 5 + 3 * length (h_handlers h)
  | KPing true => 4 + 3 * length (h_handlers h)
  | KVerdict _ => 3 + 3 * length (h_handlers h)
  | KClose _ => 2 + 3 * length (h_handlers h)
  | KNotify _ pending => 1 + 3 * length pending
  | KHandler _ pending None => 2 + 3 * length pending
  | KHandler _ pending (Some _) => 3 + 3 * length pending
  | KExit => 0
  end.

Definition caller_work (r : releaser) : nat :=
  match r with REntering => 5 | RCancelling => 4 | RAwaiting => 3 | RReleasing => 2 | RClosing _ => 1 | RReturned _ => 0 end.

Definition work (w : world) : nat := keeper_work (w_keeper w) + sum_list_with caller_work (w_callers w).

Lemma caller_works w t r0 r : w_callers w !! t = Some r0 → (caller_work r < caller_work r0)%nat →
  (sum_list_with caller_work (<[t := r]> (w_callers w)) < sum_list_with caller_work (w_callers w))%nat.
Proof. intros Hr Hlt. pose proof (sum_list_insert caller_work _ t r0 r Hr). lia. Qed.

(** Work does not go on for ever: only calls and ticks bring more. *)
Lemma work_decreases w w' : works w w' → (work w' < work w)%nat.
Proof.
  intros Hs. unfold works in Hs. remember Work as o eqn:Ho. unfold work.
  destruct Hs; try done; cbn [w_keeper w_callers keeper_to caller_to run_statement set_once cancel close_done lose notify];
    try (match goal with Hk : w_keeper _ = _ |- _ => rewrite Hk end; cbn [keeper_work length]; repeat case_match; simplify_eq/=; lia);
    apply Nat.add_lt_mono_l; (eapply caller_works; [eassumption|cbn; lia]).
Qed.

Lemma works_on w t r : inv w → w_callers w !! t = Some r → (∀ res, r ≠ RReturned res) → ∃ w', works w w'.
Proof.
  intros Hi Hr Hn. pose proof Hi as [Hd Hc Ho Hk _].
  destruct (w_once w) as [|b|res] eqn:Hb.
  - rewrite (others_entering w (S t) t r Hi (or_introl Hb) ltac:(lia) Hr) in Hr. eexists. by eapply step_enter.
  - unfold once_ok in Ho. rewrite Hb in Ho. destruct Ho as (r' & Hr' & Hne & Hnr).
    pose proof (Hc b r' Hr') as Hok. destruct r'; cbn in Hok; try done.
    + eexists. by eapply step_cancel.
    + destruct Hok as [_ Hx]. destruct (w_done w) eqn:Hdn; [eexists; by eapply step_await|].
      rewrite Hd in Hdn. destruct (w_keeper w) eqn:Hkp; try done; eexists.
      * by apply step_ctx_done.
      * eapply (step_ping_failed w ended (ContextError 0)). done.
      * by eapply step_verdict.
      * by eapply step_close_done.
    + eexists. by eapply (step_released w b (Ok 1)).
    + eexists. by eapply (step_close w b err None).
    + by destruct (Hnr result).
  - pose proof (Hc t r Hr) as Hok. destruct r; cbn in Hok; rewrite ?Hb in Hok; destruct_and?; try done.
    + eexists. by eapply step_already.
    + by destruct (Hn result).
Qed.

Lemma uses_caller w t : inv w → uses w (Caller t) → w_once w = OBusy t ∧ w_done w = true.
Proof.
  intros [_ Hc _ _ _] [Hr|[err Hr]]; specialize (Hc t _ Hr); cbn in Hc; destruct_and?; done.
Qed.

Lemma uses_unique w u u' : inv w → uses w u → uses w u' → u = u'.
Proof.
  intros Hi Hu Hu'. pose proof Hi as [Hd _ _ _ _].
  destruct u as [|t], u' as [|t']; try done.
  - destruct Hu as [x Hk], (uses_caller w t' Hi Hu') as [_ Hdn]. rewrite Hk in Hd. cbn in Hd. congruence.
  - destruct Hu' as [x Hk], (uses_caller w t Hi Hu) as [_ Hdn]. rewrite Hk in Hd. cbn in Hd. congruence.
  - destruct (uses_caller w t Hi Hu) as [Hb _], (uses_caller w t' Hi Hu') as [Hb' _]. f_equal. congruence.
Qed.

Lemma release_part_prefix w : release_part w `prefix_of` [Release; CloseConn].
Proof.
  unfold release_part. destruct (w_once w) as [|t|]; [apply prefix_nil| |done].
  repeat case_match; try apply prefix_nil; by exists [CloseConn].
Qed.

(** Only a failure of a ping found while the context had not ended loses the
    lock. *)
Lemma lost_step o w w' : step o w w' → w_lost w' ≠ w_lost w →
  inv w → w_cancelled w = false ∧ ∃ e, w_keeper w = KVerdict (Some e) ∧ w_lost w' = Some e.
Proof.
  intros Hs Hne [_ _ _ Hk _]. destruct Hs as [| | | | |w kerr Hp lost| | | | | | | | | | | | |]; try done.
  unfold keeper_ok in Hk. rewrite Hp in Hk. cbn in Hne. unfold verdict in lost. subst lost.
  destruct kerr as [e|]; destruct (w_cancelled w); destruct_and?; try congruence. split; [done|]. by exists e.
Qed.

(** Whether anything is under way is decided by the callers and by where the
    keep-alive goroutine is. *)
Definition is_returned (r : releaser) : bool := match r with RReturned _ => true | _ => false end.

Lemma works_or_rests w : inv w → (∃ w', works w w') ∨ nf works w.
Proof.
  intros Hi. destruct (forallb is_returned (w_callers w)) eqn:Hall.
  - assert (Hret : ∀ t r, w_callers w !! t = Some r → is_returned r = true).
    { intros t r Ht. rewrite forallb_forall in Hall. apply Hall, list_elem_of_In. by eapply list_elem_of_lookup_2. }
    destruct (w_keeper w) as [|ended|kerr|lost|e [|hd pending]|e pending [t|]|] eqn:Hk.
    2: left; eexists; by apply (step_ping_failed w ended (DriverError 0)).
    2-5,7: left; unfold works; eauto using step_verdict, step_close_done, step_notify, step_notified, step_handler_ends.
    + destruct (w_cancelled w) eqn:Hx; [left; eexists; by apply step_ctx_done|].
      right. intros [w' Hs]. unfold works in Hs. inversion Hs; simplify_eq/=; try congruence;
        match goal with Ht : w_callers _ !! _ = Some _ |- _ => by specialize (Hret _ _ Ht) end.
    + destruct (w_callers w !! t) as [[| | | | |r]|] eqn:Ht; try (by specialize (Hret _ _ Ht)); [left; eexists; by eapply step_handler_released|].
      right. intros [w' Hs]. unfold works in Hs. inversion Hs; simplify_eq/=; try congruence;
        match goal with Ht : w_callers _ !! _ = Some _ |- _ => by specialize (Hret _ _ Ht) end.
    + right. intros [w' Hs]. unfold works in Hs. inversion Hs; simplify_eq/=; try congruence;
        match goal with Ht : w_callers _ !! _ = Some _ |- _ => by specialize (Hret _ _ Ht) end.
  - left. assert (∃ t r, w_callers w !! t = Some r ∧ is_returned r = false) as (t & r & Ht & Hr).
    { induction (w_callers w) as [|r l IH]; [done|]. cbn in Hall. apply andb_false_iff in Hall as [Hr|Hl]; [by exists 0%nat, r|].
      destruct (IH Hl) as (t & r' & Ht & Hr'). by exists (S t), r'. }
    apply (works_on w t r Hi Ht). by intros res ->.
Qed.
End Goroutines.

(** ** The theorems *)

(** What [Acquire] checks before it asks for a connection. *)
Definition valid_request (l : MySQLLock) (key : gostring) (timeout : Z) : Prop :=
  db l = true ∧ key ≠ [] ∧ Z.of_nat (length (runes key)) <= 64 ∧ 0 < timeout.

Lemma validateKey_ok key : validateKey key = None ↔ key ≠ [] ∧ Z.of_nat (length (runes key)) <= 64.
Proof.
  unfold validateKey, maxKeyLen. destruct (Nat.eqb_spec (length key) 0) as [Hl|Hl]; cbn [orb].
  - split; [done|]. intros [Hne _]. by destruct key.
  - destruct (Z.ltb_spec 64 (Z.of_nat (length (runes key)))); (split; [|lia || done]); [done|].
    intros _. split; [by intros ->|lia].
Qed.

(** The error of an acquisition refused by the server. *)
Definition refused (d : Driver) (res : Z) : option lerror :=
  closeConnection (Close d) (Some (if res =? resLockTimeout then ErrTimeout else ErrFailed)).

(** What a failed acquisition did on the connection, if it got one: the
    connection is closed last, once the lock has perhaps been released. *)
Definition abandoned (d : Driver) (key : gostring) (timeout : Z) (e : lerror) (calls : list call) : Prop :=
  ∃ cleanup, calls = CallGetLock key timeout :: cleanup ++ [CallClose] ∧
    match GetLock d with
    | Ok res => res ≠ 1 ∧ cleanup = [] ∧ refused d res = Some e
    | Error (ContextError _) => ∃ bound, cleanup = [CallReleaseLock key bound] ∧ bound <= 2 * Second
    | Error (DriverError _) => cleanup = []
    end.

Lemma Acquire_spec l d key timeout opts :
  match Acquire l d key timeout opts with
  | (Ok held, calls) =>
      valid_request l key timeout ∧ Conn d = None ∧ GetLock d = Ok 1 ∧ calls = [CallGetLock key timeout] ∧ h_key held = key
  | (Error e, calls) =>
      ¬ (valid_request l key timeout ∧ Conn d = None) ∧ calls = [] ∨
      valid_request l key timeout ∧ Conn d = None ∧ abandoned d key timeout e calls
  end.
Proof.
  unfold Acquire, valid_request, abandoned, refused. destruct (db l); cbn [negb]; [|left; by split; [intros [[? _] _]|]].
  destruct (validateKey key) as [e|] eqn:Hv.
  { left. split; [|done]. intros [(_ & H1 & H2 & _) _]. by rewrite (proj2 (validateKey_ok key)) in Hv. }
  apply validateKey_ok in Hv as [Hne Hl]. destruct (Z.leb_spec timeout 0); [left; split; [lia|done]|].
  unfold getLockedConn. destruct (Conn d) as [ce|]; [left; by split; [intros [_ ?]|]|].
  destruct (GetLock d) as [res|serr].
  - unfold resLockAcquired. destruct (Z.eqb_spec res 1) as [->|Hr]; cbn [negb]; [done|].
    unfold closeConnection. destruct (Close d); right; (do 2 (split; [done|])); by exists [].
  - unfold closeConnection. destruct (Close d), serr; cbn [isContextError]; right; (do 2 (split; [done|])).
    all: try (by exists []). all: eexists; (split; [done|]); eexists; split; [done|]; unfold bestEffortReleaseTimeout; lia.
Qed.

(** C8. The life of a lock. [Acquire] succeeds exactly when the request is
    valid, a connection is to be had and GET_LOCK answers 1; a failure closes
    the connection it got, after a release bounded by two seconds when the
    context ended meanwhile. Of a held lock, in every interleaving of the
    keep-alive loop, of callers of the release function and of handlers that
    call it: the connection has one user at a time; its statements are pings,
    then at most one RELEASE_LOCK, then at most one close; every call of the
    release function returns the one outcome of that release. The handlers
    that are set are called in order, each at most once, and only after a ping
    failed while the context had not ended. *)
Theorem lock_lifecycle l d key timeout opts :
  match Acquire l d key timeout opts with
  | (Error e, calls) =>
      ¬ (valid_request l key timeout ∧ Conn d = None) ∧ calls = [] ∨
      valid_request l key timeout ∧ Conn d = None ∧ abandoned d key timeout e calls
  | (Ok held, calls) =>
      valid_request l key timeout ∧ Conn d = None ∧ GetLock d = Ok 1 ∧ calls = [CallGetLock key timeout] ∧
      ∀ w, reachable held w →
        (∀ u u', uses w u → uses w u' → u = u') ∧
        (∃ n tail, w_conn w = replicate n Ping ++ tail ∧ tail `prefix_of` [Release; CloseConn]) ∧
        (∀ t res, w_callers w !! t = Some (RReturned res) →
          (∃ answer close, res = releaseLock key answer close) ∧ (∃ n, w_conn w = replicate n Ping ++ [Release; CloseConn]) ∧
          ∀ t' res', w_callers w !! t' = Some (RReturned res') → res' = res) ∧
        match w_lost w with
        | None => w_notified w = []
        | Some e => w_notified w `prefix_of` notices e (h_handlers held) ∧
            (w_keeper w = KExit → w_notified w = notices e (h_handlers held))
        end ∧
        ∀ w', steps held w w' → w_lost w' ≠ w_lost w →
          w_cancelled w = false ∧ ∃ e, w_keeper w = KVerdict (Some e) ∧ w_lost w' = Some e
  end.
Proof.
  pose proof (Acquire_spec l d key timeout opts) as Ha. destruct (Acquire l d key timeout opts) as [[held|e] calls]; [|done].
  destruct Ha as (Hv & Hc & Hg & Hcalls & <-). do 4 (split; [done|]). intros w Hr. apply lock_reachable_inv in Hr as Hi.
  split; [intros u u'; by apply (uses_unique held)|]. pose proof Hi as [Hd Hca Ho Hk [n Hn]].
  split; [exists n, (release_part w); by split; [|apply release_part_prefix]|]. split; [|split].
  - intros t res Ht. pose proof (Hca t _ Ht) as Hb. cbn in Hb. unfold once_ok in Ho. rewrite Hb in Ho.
    destruct Ho as (_ & _ & Hres). split; [done|]. split.
    + exists n. rewrite Hn. unfold release_part. by rewrite Hb.
    + intros t' res' Ht'. pose proof (Hca t' _ Ht') as Hb'. cbn in Hb'. congruence.
  - unfold keeper_ok in Hk. destruct (w_keeper w) as [|[]|[]|lost|e pending|e pending wt|].
    all: try (destruct_and?; match goal with H1 : w_lost ?x = _, H2 : w_notified ?x = _ |- _ => rewrite H1, H2 end; done).
    + destruct Hk as (-> & -> & _). destruct lost; [|done]. split; [apply prefix_nil|done].
    + destruct Hk as (-> & called & Hh & ->). split; [|done]. rewrite Hh. unfold notices. rewrite fmap_app. by apply prefix_app_r.
    + destruct Hk as (-> & called & Hh & ->). split; [|done]. rewrite Hh. unfold notices. rewrite fmap_app. by apply prefix_app_r.
    + rewrite Hk. by destruct (w_lost w).
  - intros w' [o Hs] Hne. by apply (lost_step held o w w').
Qed.

(** C13. Releasing terminates. From any reachable point, whatever the
    answers of the driver and the order of the steps, the work under way is
    bounded: without new calls it stops, and when it has stopped every call of
    the release function has returned, those made by handlers included. *)
Theorem release_terminates held w (Hr : reachable held w) :
  (∀ n w', nsteps (works held) n w w' → (n + work held w' <= work held w)%nat) ∧
  (∀ w', rtc (works held) w w' → nf (works held) w' →
    ∀ t r, w_callers w' !! t = Some r → ∃ res, r = RReturned res ∧ w_once w' = ODone res) ∧
  ∃ w', rtc (works held) w w' ∧ nf (works held) w'.
Proof.
  apply lock_reachable_inv in Hr as Hi. split; [intros n w'; apply (work_bounded _ (work held) (work_decreases held))|]. split.
  - intros w' Hs Hnf t r Ht. assert (Hi' : inv held w').
    { apply (inv_steps held w); [|done]. clear -Hs. induction Hs as [|w1 w2 w3 H1 _ IH]; [done|]. eapply rtc_l; [by exists Work|done]. }
    destruct r as [| | | |err|res]; [| | | | |exists res; split; [done|apply (i_callers held w' Hi' t _ Ht)]].
    all: destruct Hnf; eapply (works_on held w' t); [done|done|done].
  - apply (work_until _ (work held) (work_decreases held) (reachable held)); [| |done].
    + intros x Hx. destruct (works_or_rests held x (lock_reachable_inv held x Hx)); auto.
    + intros x y Hx Hs. eapply rtc_r; [exact Hx|by exists Work].
Qed.

(** ** A run: a lock lost, whose handler releases it *)

Definition sample_lock : MySQLLock := New true [WithKeepAliveInterval Second; WithReleaseTimeout 0].
Definition sample_driver : Driver := MkDriver None (Ok 1) (Ok 1) None.
Definition sample_held : Held := MkHeld (str "job") (10 * Second) [Acquisition].

Tactic Notation "run" uconstr(rule) := eapply rtc_l; [eexists; eapply rule; reflexivity|]; cbn.

Lemma sample_run : ∃ w, reachable sample_held w ∧ w_callers w !! 0%nat = Some (RReturned None) ∧
  w_notified w = [(Acquisition, DriverError 7)] ∧ w_keeper w = KExit ∧ w_lost w = Some (DriverError 7) ∧
  w_conn w = [Ping; Ping; Release; CloseConn].
Proof.
  eexists. split.
  - unfold reachable, initial.
    run step_tick. run step_ping_ok. run step_tick. run (step_ping_failed sample_held _ false (DriverError 7)). run step_verdict. run step_close_done.
    run step_notify. run step_handler_release. run (step_enter sample_held _ 0). run (step_cancel sample_held _ 0). run (step_await sample_held _ 0).
    run (step_released sample_held _ 0 (Ok 1)). run (step_close sample_held _ 0 None None). run (step_handler_released sample_held _ _ _ 0 None). run step_handler_ends. run step_notified.
    apply rtc_refl.
  - done.
Qed.

Lemma lock_lifecycle_witness : ∃ calls w,
  Acquire sample_lock sample_driver (str "job") Second [WithLostLockHandler true] = (Ok sample_held, calls) ∧
  reachable sample_held w ∧ w_callers w !! 0%nat = Some (RReturned None) ∧
  w_notified w = notices (DriverError 7) [Acquisition] ∧ (∀ u u', uses w u → uses w u' → u = u').
Proof.
  destruct sample_run as (w & Hr & Hret & Hno & Hk & Hl & _).
  exists [CallGetLock (str "job") Second], w. split; [vm_compute; reflexivity|]. split; [exact Hr|]. split; [exact Hret|].
  pose proof (lock_lifecycle sample_lock sample_driver (str "job") Second [WithLostLockHandler true]) as H.
  change (Acquire sample_lock sample_driver (str "job") Second [WithLostLockHandler true])
    with (@Ok lerror Held sample_held, [CallGetLock (str "job") Second]) in H. cbv iota beta in H.
  destruct H as (_ & _ & _ & _ & H). destruct (H w Hr) as (Hu & _ & _ & Hn & _). rewrite Hl in Hn. destruct Hn as [_ Hn].
  split; [exact (Hn Hk)|exact Hu].
Defined.

Lemma release_terminates_witness : reachable sample_held (add_caller initial) ∧
  ∃ w', rtc (works sample_held) (add_caller initial) w' ∧ nf (works sample_held) w'.
Proof.
  assert (Hr : reachable sample_held (add_caller initial)) by (eapply rtc_once; exists Outside; apply step_call).
  split; [exact Hr|]. exact (proj2 (proj2 (release_terminates sample_held (add_caller initial) Hr))).
Defined.
