(* ===== verification/Jwt.v ===== *)
(** * [pkg/jwt]: signed tokens

    jwt.go, options.go, claims.go, token.go and the logic of handlers.go: the
    configuration and its checks, claims and their JSON, the compact form,
    signing, verification, and the login, renewal and authorization handlers
    as functions from a request to a response. Times are nanoseconds since the
    Unix epoch; a handler that reads the clock several times is given a clock
    that numbers its readings. HMAC and the JSON decoders are parameters;
    logging is left out. *)

From stdpp Require Import base option list.
From Stdlib Require Import String Floats.
From S2P Require Import Prelude Binary64 GoString GoText Base64.

#[local] Open Scope Z_scope.

Definition Second : Z := 10 ^ 9.

(** ** Signing methods *)

(** [SigningMethod], a [uint8]. *)
Definition SigningMethod : Type := Z.
Definition SigningMethodHS256 : SigningMethod := 0.
Definition SigningMethodHS384 : SigningMethod := 1.
Definition SigningMethodHS512 : SigningMethod := 2.

Definition Alg (m : SigningMethod) : gostring :=
  if m =? SigningMethodHS256 then str "HS256"
  else if m =? SigningMethodHS384 then str "HS384"
  else if m =? SigningMethodHS512 then str "HS512"
  else [].

Definition hashSize (m : SigningMethod) : Z :=
  if m =? SigningMethodHS256 then 32
  else if m =? SigningMethodHS384 then 48
  else if m =? SigningMethodHS512 then 64
  else 0.

(** crypto/hmac over the hash of a method. *)
Class HMAC : Type := {
  Mac : SigningMethod → gostring → gostring → gostring;
  Mac_bytes m key input : Forall is_byte (Mac m key input)
}.

(** [hashNew]: whether the method has a hash. *)
Definition hashNew (m : SigningMethod) : bool :=
  (m =? SigningMethodHS256) || (m =? SigningMethodHS384) || (m =? SigningMethodHS512).

(** ** Errors *)

Inductive jerror : Type :=
| ErrEmptyKey | ErrWeakKey (index : option nat) | ErrNilVerifyFn | ErrInvalidSigningMethod
| ErrInvalidExpirationTime | ErrShortExpirationTime | ErrInvalidRenewTime | ErrInvalidMaxBodyBytes
| ErrInvalidMaxTokenBytes | ErrInvalidMaxSessionLifetime | ErrShortMaxSessionLifetime | ErrInvalidClockSkewLeeway
| ErrMalformedToken | ErrTokenTooLarge | ErrUnexpectedSigningMethod | ErrUnsupportedCritHeader
| ErrDuplicateHeaderParameter | ErrInvalidSignature | ErrMissingExpiration | ErrTokenExpired
| ErrTokenNotYetValid | ErrInvalidIssuer | ErrInvalidAudience | ErrInvalidNumericDate
| ErrMissingAuthHeader | ErrMissingToken | ErrSessionExpired.

(** ** Configuration *)

(** [JWT]; a credential check answers, or fails with a code. *)
Record JWT : Type := MkJWT {
  key : gostring;
  previousKeys : list gostring;
  verifyKeys : list gostring;
  encodedHeader : gostring;
  expirationTime : Z;
  renewTime : Z;
  maxSessionLifetime : Z;
  clockSkewLeeway : Z;
  maxBodyBytes : Z;
  maxTokenBytes : Z;
  verifyCredentialsFn : option (gostring → gostring → result Z bool);
  signingMethod : SigningMethod;
  authorizationHeader : gostring;
  issuer : gostring;
  audience : list gostring
}.

Definition DefaultExpirationTime : Z := 5 * 60 * Second.
Definition DefaultRenewTime : Z := 30 * Second.
Definition DefaultAuthorizationHeader : gostring := str "Authorization".
Definition DefaultMaxBodyBytes : Z := 2 ^ 13.
Definition DefaultMaxTokenBytes : Z := 2 ^ 13.

Definition defaultJWT : JWT :=
  MkJWT [] [] [] [] DefaultExpirationTime DefaultRenewTime 0 0 DefaultMaxBodyBytes DefaultMaxTokenBytes None
    SigningMethodHS256 DefaultAuthorizationHeader [] [].

Definition JOption : Type := JWT → JWT.

Definition WithExpirationTime (v : Z) : JOption := fun c =>
  MkJWT (key c) (previousKeys c) (verifyKeys c) (encodedHeader c) v (renewTime c) (maxSessionLifetime c) (clockSkewLeeway c)
    (maxBodyBytes c) (maxTokenBytes c) (verifyCredentialsFn c) (signingMethod c) (authorizationHeader c) (issuer c) (audience c).
Definition WithRenewTime (v : Z) : JOption := fun c =>
  MkJWT (key c) (previousKeys c) (verifyKeys c) (encodedHeader c) (expirationTime c) v (maxSessionLifetime c) (clockSkewLeeway c)
    (maxBodyBytes c) (maxTokenBytes c) (verifyCredentialsFn c) (signingMethod c) (authorizationHeader c) (issuer c) (audience c).
Definition WithMaxSessionLifetime (v : Z) : JOption := fun c =>
  MkJWT (key c) (previousKeys c) (verifyKeys c) (encodedHeader c) (expirationTime c) (renewTime c) v (clockSkewLeeway c)
    (maxBodyBytes c) (maxTokenBytes c) (verifyCredentialsFn c) (signingMethod c) (authorizationHeader c) (issuer c) (audience c).
Definition WithClockSkewLeeway (v : Z) : JOption := fun c =>
  MkJWT (key c) (previousKeys c) (verifyKeys c) (encodedHeader c) (expirationTime c) (renewTime c) (maxSessionLifetime c) v
    (maxBodyBytes c) (maxTokenBytes c) (verifyCredentialsFn c) (signingMethod c) (authorizationHeader c) (issuer c) (audience c).
Definition WithMaxBodyBytes (v : Z) : JOption := fun c =>
  MkJWT (key c) (previousKeys c) (verifyKeys c) (encodedHeader c) (expirationTime c) (renewTime c) (maxSessionLifetime c) (clockSkewLeeway c)
    v (maxTokenBytes c) (verifyCredentialsFn c) (signingMethod c) (authorizationHeader c) (issuer c) (audience c).
Definition WithMaxTokenBytes (v : Z) : JOption := fun c =>
  MkJWT (key c) (previousKeys c) (verifyKeys c) (encodedHeader c) (expirationTime c) (renewTime c) (maxSessionLifetime c) (clockSkewLeeway c)
    (maxBodyBytes c) v (verifyCredentialsFn c) (signingMethod c) (authorizationHeader c) (issuer c) (audience c).
Definition WithAuthorizationHeader (v : gostring) : JOption := fun c =>
  MkJWT (key c) (previousKeys c) (verifyKeys c) (encodedHeader c) (expirationTime c) (renewTime c) (maxSessionLifetime c) (clockSkewLeeway c)
    (maxBodyBytes c) (maxTokenBytes c) (verifyCredentialsFn c) (signingMethod c) v (issuer c) (audience c).
Definition WithSigningMethod (v : SigningMethod) : JOption := fun c =>
  MkJWT (key c) (previousKeys c) (verifyKeys c) (encodedHeader c) (expirationTime c) (renewTime c) (maxSessionLifetime c) (clockSkewLeeway c)
    (maxBodyBytes c) (maxTokenBytes c) (verifyCredentialsFn c) v (authorizationHeader c) (issuer c) (audience c).
Definition WithPreviousKeys (v : list gostring) : JOption := fun c =>
  MkJWT (key c) v (verifyKeys c) (encodedHeader c) (expirationTime c) (renewTime c) (maxSessionLifetime c) (clockSkewLeeway c)
    (maxBodyBytes c) (maxTokenBytes c) (verifyCredentialsFn c) (signingMethod c) (authorizationHeader c) (issuer c) (audience c).
Definition WithClaimIssuer (v : gostring) : JOption := fun c =>
  MkJWT (key c) (previousKeys c) (verifyKeys c) (encodedHeader c) (expirationTime c) (renewTime c) (maxSessionLifetime c) (clockSkewLeeway c)
    (maxBodyBytes c) (maxTokenBytes c) (verifyCredentialsFn c) (signingMethod c) (authorizationHeader c) v (audience c).
Definition WithClaimAudience (v : list gostring) : JOption := fun c =>
  MkJWT (key c) (previousKeys c) (verifyKeys c) (encodedHeader c) (expirationTime c) (renewTime c) (maxSessionLifetime c) (clockSkewLeeway c)
    (maxBodyBytes c) (maxTokenBytes c) (verifyCredentialsFn c) (signingMethod c) (authorizationHeader c) (issuer c) v.

Definition normalizeOptionals (c : JWT) : JWT :=
  if (length (authorizationHeader c) =? 0)%nat then WithAuthorizationHeader DefaultAuthorizationHeader c else c.

(** The table of checks of [validate], in order. *)
Definition checks (c : JWT) : list (bool * jerror) :=
  [((length (key c) =? 0)%nat, ErrEmptyKey);
   (match verifyCredentialsFn c with None => true | Some _ => false end, ErrNilVerifyFn);
   (str_eqb (Alg (signingMethod c)) [], ErrInvalidSigningMethod);
   (expirationTime c <=? 0, ErrInvalidExpirationTime);
   ((0 <? expirationTime c) && (expirationTime c <? Second), ErrShortExpirationTime);
   (renewTime c <=? 0, ErrInvalidRenewTime);
   (maxBodyBytes c <=? 0, ErrInvalidMaxBodyBytes);
   (maxTokenBytes c <=? 0, ErrInvalidMaxTokenBytes);
   (maxSessionLifetime c <? 0, ErrInvalidMaxSessionLifetime);
   ((0 <? maxSessionLifetime c) && (maxSessionLifetime c <? Second), ErrShortMaxSessionLifetime);
   (clockSkewLeeway c <? 0, ErrInvalidClockSkewLeeway)].

Fixpoint first_failure (l : list (bool * jerror)) : option jerror :=
  match l with
  | [] => None
  | (invalid, err) :: l => if invalid then Some err else first_failure l
  end.

Fixpoint weak_previous (minLen : Z) (i : nat) (keys : list gostring) : option jerror :=
  match keys with
  | [] => None
  | k :: keys => if Z.of_nat (length k) <? minLen then Some (ErrWeakKey (Some i)) else weak_previous minLen (S i) keys
  end.

Definition validate (c : JWT) : option jerror :=
  match first_failure (checks c) with
  | Some e => Some e
  | None =>
      let minLen := hashSize (signingMethod c) in
      if Z.of_nat (length (key c)) <? minLen then Some (ErrWeakKey None) else weak_previous minLen 0 (previousKeys c)
  end.

Definition quoted (s : gostring) : gostring := 34 :: s ++ [34].

(** The JOSE header of a method. *)
Definition header_text (m : SigningMethod) : gostring :=
  str "{" ++ quoted (str "alg") ++ str ":" ++ quoted (Alg m) ++ str "," ++ quoted (str "typ") ++ str ":" ++ quoted (str "JWT") ++ str "}".

Definition initTokenConfig (c : JWT) : JWT :=
  MkJWT (key c) (previousKeys c) (key c :: previousKeys c) (encode64url (header_text (signingMethod c)))
    (expirationTime c) (renewTime c) (maxSessionLifetime c) (clockSkewLeeway c)
    (maxBodyBytes c) (maxTokenBytes c) (verifyCredentialsFn c) (signingMethod c) (authorizationHeader c) (issuer c) (audience c).

Definition New (k : gostring) (verifyFn : option (gostring → gostring → result Z bool)) (opts : list JOption) : result jerror JWT :=
  let c := MkJWT k [] [] [] (expirationTime defaultJWT) (renewTime defaultJWT) 0 0 (maxBodyBytes defaultJWT) (maxTokenBytes defaultJWT)
             verifyFn (signingMethod defaultJWT) (authorizationHeader defaultJWT) [] [] in
  let c := normalizeOptionals (fold_left (fun c applyOpt => applyOpt c) opts c) in
  match validate c with
  | Some e => Error e
  | None => Ok (initTokenConfig c)
  end.

(** ** Claims *)

Definition maxNumericDateSec : Z := 2 ^ 53.

(** [Claims]: an unset date is [None]. *)
Record Claims : Type := MkClaims {
  Issuer : gostring;
  Subject : gostring;
  Audience : list gostring;
  ExpiresAt : option Z;
  NotBefore : option Z;
  IssuedAt : option Z;
  ID : gostring;
  Username : gostring;
  AuthTime : option Z
}.

Definition no_claims : Claims := MkClaims [] [] [] None None None [] [] None.

(** [Time.Unix]. *)
Definition Unix (t : Z) : Z := t / Second.

(** [NumericDate.MarshalJSON]. *)
Definition date_MarshalJSON (t : Z) : result jerror gostring :=
  let sec := Unix t in
  if (sec <? 0) || (maxNumericDateSec <? sec) then Error ErrInvalidNumericDate else Ok (FormatUint sec).

Definition float_trunc (f : float) : option Z := v ← scaled f; Some (Z.quot v (2 ^ 1074)).

(** [NumericDate.UnmarshalJSON] on the float the text stands for; [math.Modf]
    is exact. *)
Definition date_UnmarshalJSON (parsed : option float) : result jerror Z :=
  match parsed with
  | None => Error ErrInvalidNumericDate
  | Some f =>
      if PrimFloat.ltb f (PrimFloat.opp (of_int maxNumericDateSec)) || PrimFloat.ltb (of_int maxNumericDateSec) f then Error ErrInvalidNumericDate
      else match float_trunc f with
      | None => Error ErrInvalidNumericDate
      | Some sec =>
          match float_trunc (PrimFloat.mul (PrimFloat.sub f (of_int sec)) (of_int Second)) with
          | None => Error ErrInvalidNumericDate
          | Some nsec => Ok (sec * Second + nsec)
          end
      end
  end.

(** encoding/json: quoting a string, and decoding a string, an array of
    strings, the members of a JOSE header and the raw members of a claims
    object. The members of a header are those the decoder delivers, a value
    that does not decode being [None], and whether it then finds the end of
    the object and of the text; [None] when the text does not open an object. Of a claims object that does not decode
    [partial_claims] is what was set. *)
Record RawClaims : Type := MkRaw {
  r_iss : gostring;
  r_sub : gostring;
  r_aud : option gostring;
  r_exp : option gostring;
  r_nbf : option gostring;
  r_iat : option gostring;
  r_jti : gostring;
  r_username : gostring;
  r_auth_time : option gostring
}.

Class JSON : Type := {
  json_quote : gostring → gostring;
  json_string : gostring → option gostring;
  json_strings : gostring → option (list gostring);
  json_members : gostring → option (list (gostring * option gostring) * bool);
  json_claims : gostring → option RawClaims;
  partial_claims : gostring → Claims;
  ParseFloat : gostring → option float
}.

Section Tokens.
Context `{JS : JSON} `{HM : HMAC}.

(** [Audience.UnmarshalJSON]. *)
Definition audience_UnmarshalJSON (data : gostring) : option (list gostring) :=
  match data with
  | 34 :: _ => single ← json_string data; Some [single]
  | _ => json_strings data
  end.

Definition date_field (data : option gostring) : option (option Z) :=
  match data with
  | None => Some None
  | Some data => match date_UnmarshalJSON (ParseFloat data) with Ok t => Some (Some t) | Error _ => None end
  end.

(** [json.Unmarshal] into a [Claims]. *)
Definition unmarshalClaims (payload : gostring) : option Claims :=
  r ← json_claims payload;
  aud ← match r_aud r with None => Some [] | Some data => audience_UnmarshalJSON data end;
  exp ← date_field (r_exp r); nbf ← date_field (r_nbf r); iat ← date_field (r_iat r); auth ← date_field (r_auth_time r);
  Some (MkClaims (r_iss r) (r_sub r) aud exp nbf iat (r_jti r) (r_username r) auth).

(** [json.Marshal] of a [Claims], in the order of the fields; all but the user
    name are omitted when empty. *)
Definition member (name value : gostring) : gostring := quoted name ++ str ":" ++ value.
Definition string_member (name value : gostring) : list gostring :=
  match value with [] => [] | _ => [member name (json_quote value)] end.
Definition array_text (values : list gostring) : gostring := str "[" ++ Join 44 (json_quote <$> values) ++ str "]".
Definition date_member (name : gostring) (t : option Z) : result jerror (list gostring) :=
  match t with
  | None => Ok []
  | Some t => (text <-? date_MarshalJSON t;; Ok [member name text])%go
  end.

Definition marshalClaims (c : Claims) : result jerror gostring :=
  (exp <-? date_member (str "exp") (ExpiresAt c);;
   nbf <-? date_member (str "nbf") (NotBefore c);;
   iat <-? date_member (str "iat") (IssuedAt c);;
   auth <-? date_member (str "auth_time") (AuthTime c);;
   Ok (str "{" ++ Join 44 (string_member (str "iss") (Issuer c) ++ string_member (str "sub") (Subject c) ++
         (match Audience c with [] => [] | aud => [member (str "aud") (array_text aud)] end) ++
         exp ++ nbf ++ iat ++ string_member (str "jti") (ID c) ++ [member (str "username") (json_quote (Username c))] ++ auth) ++ str "}"))%go.

(** [newClaims] at the time [tnow], with the identifier [jti]. *)
Definition newClaims (c : JWT) (tnow : Z) (jti username : gostring) (authTime : option Z) : Claims :=
  let authTime := default tnow authTime in
  let exp := tnow + expirationTime c in
  let exp :=
    if 0 <? maxSessionLifetime c then
      let hard := authTime + maxSessionLifetime c in
      if hard <? exp then hard else exp
    else exp in
  MkClaims (issuer c) username (audience c) (Some exp) (Some tnow) (Some tnow) jti username (Some authTime).

(** ** Signing and verification *)

Definition computeSignature (c : JWT) (signingInput key : gostring) : result jerror gostring :=
  if hashNew (signingMethod c) then Ok (Mac (signingMethod c) key signingInput) else Error ErrInvalidSigningMethod.

Definition signToken (c : JWT) (claims : Claims) : result jerror gostring :=
  (payload <-? marshalClaims claims;;
   let signingInput := encodedHeader c ++ str "." ++ encode64url payload in
   sig <-? computeSignature c signingInput (key c);;
   let token := signingInput ++ str "." ++ encode64url sig in
   if maxTokenBytes c <? Z.of_nat (length token) then Error ErrTokenTooLarge else Ok token)%go.

(** [joseHeader]; the raw value of [crit]. *)
Record joseHeader : Type := MkHeader { alg : gostring; crit : gostring }.

(** The loop of [decodeJOSEHeader] over [readMember]. *)
Fixpoint readMembers (members : list (gostring * option gostring)) (seen : list gostring) (h : joseHeader) : result jerror joseHeader :=
  match members with
  | [] => Ok h
  | (name, value) :: members =>
      if bool_decide (name ∈ seen) then Error ErrDuplicateHeaderParameter
      else match value with
      | None => Error ErrMalformedToken
      | Some value =>
          if str_eqb name (str "alg") then
            match json_string value with
            | None => Error ErrMalformedToken
            | Some a => readMembers members (name :: seen) (MkHeader a (crit h))
            end
          else if str_eqb name (str "crit") then readMembers members (name :: seen) (MkHeader (alg h) value)
          else readMembers members (name :: seen) h
      end
  end.

Definition decodeJOSEHeader (headerJSON : gostring) : result jerror joseHeader :=
  match json_members headerJSON with
  | None => Error ErrMalformedToken
  | Some (members, ends) =>
      (header <-? readMembers members [] (MkHeader [] []);;
       if ends then Ok header else Error ErrMalformedToken)%go
  end.

Definition checkHeader (c : JWT) (headerSeg : gostring) : result jerror unit :=
  match decode64url true headerSeg with
  | None => Error ErrMalformedToken
  | Some headerJSON =>
      (header <-? decodeJOSEHeader headerJSON;;
       if (0 <? length (crit header))%nat then Error ErrUnsupportedCritHeader
       else if negb (str_eqb (alg header) (Alg (signingMethod c))) then Error ErrUnexpectedSigningMethod
       else Ok ())%go
  end.

Fixpoint verify_loop (c : JWT) (keys : list gostring) (signingInput sig : gostring) : bool :=
  match keys with
  | [] => false
  | k :: keys =>
      match computeSignature c signingInput k with
      | Error _ => false
      | Ok expected => if str_eqb sig expected then true else verify_loop c keys signingInput sig
      end
  end.

Definition verifySignature (c : JWT) (signingInput sig : gostring) : bool := verify_loop c (verifyKeys c) signingInput sig.

Definition validateClaims (c : JWT) (now : Z) (claims : Claims) : option jerror :=
  match ExpiresAt claims with
  | None => Some ErrMissingExpiration
  | Some exp =>
      if negb (now <? exp + clockSkewLeeway c) then Some ErrTokenExpired
      else if (match NotBefore claims with Some nbf => now + clockSkewLeeway c <? nbf | None => false end) then Some ErrTokenNotYetValid
      else if negb (str_eqb (issuer c) []) && negb (str_eqb (Issuer claims) (issuer c)) then Some ErrInvalidIssuer
      else if negb (forallb (fun aud => bool_decide (aud ∈ Audience claims)) (audience c)) then Some ErrInvalidAudience
      else None
  end.

(** [parseToken] at the time [now]: the claims, and the error if any. *)
Definition parseToken (c : JWT) (now : Z) (tokenString : gostring) : Claims * option jerror :=
  if maxTokenBytes c <? Z.of_nat (length tokenString) then (no_claims, Some ErrTokenTooLarge)
  else match Cut 46 tokenString with
  | None => (no_claims, Some ErrMalformedToken)
  | Some (headerSeg, rest) =>
      match Cut 46 rest with
      | None => (no_claims, Some ErrMalformedToken)
      | Some (payloadSeg, sigSeg) =>
          if Contains sigSeg (str ".") then (no_claims, Some ErrMalformedToken)
          else match checkHeader c headerSeg with
          | Error e => (no_claims, Some e)
          | Ok _ =>
              match decode64url true sigSeg with
              | None => (no_claims, Some ErrMalformedToken)
              | Some sig =>
                  let signingInput := take (length headerSeg + 1 + length payloadSeg) tokenString in
                  if negb (verifySignature c signingInput sig) then (no_claims, Some ErrInvalidSignature)
                  else match decode64url true payloadSeg with
                  | None => (no_claims, Some ErrMalformedToken)
                  | Some payload =>
                      match unmarshalClaims payload with
                      | None => (partial_claims payload, Some ErrMalformedToken)
                      | Some claims => (claims, validateClaims c now claims)
                      end
                  end
              end
          end
      end
  end.

Definition IssueToken (c : JWT) (tnow : Z) (jti username : gostring) : result jerror gostring :=
  signToken c (newClaims c tnow jti username None).

Definition VerifyToken (c : JWT) (now : Z) (token : gostring) : Claims * option jerror := parseToken c now token.

Definition expiredOnIssue (c : JWT) (now : Z) (exp : option Z) : bool :=
  match exp with
  | None => false
  | Some exp => negb (now <? Unix exp * Second + clockSkewLeeway c)
  end.

(** ** Handlers *)

(** A response: status, the challenge header if set, the text. *)
Record Response : Type := MkResponse { status : Z; challenge : option gostring; body : gostring }.

Definition challengeBearer : gostring := str "Bearer".
Definition challengeInvalidToken : gostring := str "Bearer error=" ++ quoted (str "invalid_token").
Definition HeaderAuthBearer : gostring := str "Bearer ".

Definition respond (status : Z) (text : gostring) : Response := MkResponse status None text.

Definition writeUnauthorized (err : jerror) : Response :=
  MkResponse 401 (Some (match err with ErrMissingAuthHeader | ErrMissingToken => challengeBearer | _ => challengeInvalidToken end))
    (str "unauthorized").

(** [strings.TrimLeft(s, " ")]; [strings.EqualFold] of an ASCII pattern
    without the letters other runes fold to. *)
Fixpoint TrimSpaces (s : gostring) : gostring :=
  match s with
  | c :: s' => if c =? 32 then TrimSpaces s' else s
  | [] => []
  end.

Definition EqualFold (s t : gostring) : bool := str_eqb (lowerASCII <$> s) (lowerASCII <$> t).

(** [checkToken] of a request, given by its headers. *)
Definition checkToken (c : JWT) (now : Z) (header : gostring → gostring) : Claims * option jerror :=
  let headAuth := header (authorizationHeader c) in
  if (length headAuth =? 0)%nat then (no_claims, Some ErrMissingAuthHeader)
  else
    let prefixLen := length HeaderAuthBearer in
    if (length headAuth <=? prefixLen)%nat || negb (EqualFold (take prefixLen headAuth) HeaderAuthBearer) then (no_claims, Some ErrMissingToken)
    else
      let signedToken := TrimSpaces (drop prefixLen headAuth) in
      if (length signedToken =? 0)%nat then (no_claims, Some ErrMissingToken) else parseToken c now signedToken.

Definition sendTokenResponse (c : JWT) (claims : Claims) : Response :=
  match signToken c claims with
  | Error _ => respond 500 (str "unable to sign the JWT token")
  | Ok signedToken => respond 200 signedToken
  end.

(** The body of a login: too large, not the expected object, or credentials
    with or without trailing data. *)
Inductive LoginBody : Type :=
| BodyTooLarge
| BodyInvalid
| BodyCredentials (username password : gostring) (more : bool).

(** [sendDecodeError]. *)
Definition sendDecodeError (tooLarge : bool) : Response :=
  if tooLarge then respond 413 (str "request body too large") else respond 400 (str "invalid request body").

(** [LoginHandler]; without a credential check it panics. *)
Definition LoginHandler (c : JWT) (tnow : Z) (jti : gostring) (b : LoginBody) : option Response :=
  match b with
  | BodyTooLarge => Some (sendDecodeError true)
  | BodyInvalid => Some (sendDecodeError false)
  | BodyCredentials username password more =>
      if more then Some (respond 400 (str "invalid request body"))
      else
        verify ← verifyCredentialsFn c;
        Some (match verify username password with
              | Error _ => respond 500 (str "unable to verify credentials")
              | Ok false => respond 401 (str "invalid authentication credentials")
              | Ok true => sendTokenResponse c (newClaims c tnow jti username None)
              end)
  end.

Definition maxDuration : Z := 2 ^ 63 - 1.

(** [Time.Sub] saturates. *)
Definition Sub (t u : Z) : Z := Z.max (- 2 ^ 63) (Z.min maxDuration (t - u)).

(** [RenewHandler]; the clock is read in [parseToken], [time.Until],
    [time.Since], [newClaims] and [expiredOnIssue]. A verified token has an
    expiration. *)
Definition RenewHandler (c : JWT) (clock : nat → Z) (jti : gostring) (header : gostring → gostring) : option Response :=
  match checkToken c (clock 0%nat) header with
  | (_, Some err) => Some (writeUnauthorized err)
  | (claims, None) =>
      exp ← ExpiresAt claims;
      Some (
        if renewTime c <? Sub exp (clock 1%nat) then
          respond 400 (str "the JWT token can be renewed only when it is close to expiration")
        else
          let sessionStart := match AuthTime claims with Some t => Some t | None => IssuedAt claims end in
          if (0 <? maxSessionLifetime c) &&
             (match sessionStart with None => true | Some t => maxSessionLifetime c <? Sub (clock 2%nat) t end)
          then writeUnauthorized ErrSessionExpired
          else
            let renewed := newClaims c (clock 3%nat) jti (Username claims) sessionStart in
            if expiredOnIssue c (clock 4%nat) (ExpiresAt renewed) then writeUnauthorized ErrSessionExpired
            else sendTokenResponse c renewed)
  end.

(** [IsAuthorized]: the refusal, if any. *)
Definition IsAuthorized (c : JWT) (now : Z) (header : gostring → gostring) : option Response :=
  match checkToken c now header with
  | (_, Some err) => Some (writeUnauthorized err)
  | (_, None) => None
  end.

(** [Authenticate]. *)
Definition Authenticate (c : JWT) (now : Z) (header : gostring → gostring) : Claims * option jerror := checkToken c now header.

(** [Middleware] around a handler that reads the claims from its context. *)
Definition Middleware (c : JWT) (now : Z) (next : Claims → Response) (header : gostring → gostring) : Response :=
  match checkToken c now header with
  | (_, Some err) => writeUnauthorized err
  | (claims, None) => next claims
  end.
End Tokens.
