(* ===== verification/JwtProps.v ===== *)
(** * [pkg/jwt]: what is issued verifies, what verifies was issued

    Issued tokens verify under every instance that accepts their key, with
    the claims they were issued for (C15); a token is accepted only with a
    signature and claims that justify it (C18); sessions end (C21). *)

From stdpp Require Import base option list.
From Stdlib Require Import String Floats.
From S2P Require Import Prelude Binary64 GoString GoText Base64 Jwt.

#[local] Open Scope Z_scope.

(** ** Numeric dates *)

Lemma scaled_of_int n : 0 <= n <= 2 ^ 53 → scaled (of_int n) = Some (n * 2 ^ 1074).
Proof. intros Hn. destruct (of_int_spec n) as (x & Hx & He & _); [lia|]. rewrite Hx, He; [done|lia]. Qed.

Lemma sub_self f x : scaled f = Some x → - beyond < x < beyond → ∃ s, PrimFloat.sub f f = SF2Prim (S754_zero s).
Proof.
  intros Hf Hx. unfold scaled in *.
  assert (Hz : ∃ s, SFsub prec emax (Prim2SF f) (Prim2SF f) = S754_zero s).
  { destruct (Prim2SF f) as [s|s| |s m e]; try done; [by destruct s; eexists|destruct s; cbn in Hf; simplify_eq; lia|].
    cbn. rewrite Z.min_id, Z.sub_diag. destruct s; cbn; by eexists. }
  destruct Hz as [s Hs]. exists s.
  rewrite <- (SF2Prim_Prim2SF (PrimFloat.sub f f)), sub_spec. unfold SF64sub. by rewrite Hs.
Qed.

Lemma date_roundtrip n : 0 <= n <= maxNumericDateSec → date_UnmarshalJSON (Some (of_int n)) = Ok (n * Second).
Proof.
  intros Hn. unfold maxNumericDateSec in Hn. pose proof (scaled_of_int n Hn) as Hs. unfold date_UnmarshalJSON.
  assert (Hmax : scaled (of_int maxNumericDateSec) = Some (2 ^ 53 * 2 ^ 1074)) by (by apply scaled_of_int).
  assert (Hopp : scaled (PrimFloat.opp (of_int maxNumericDateSec)) = Some (- (2 ^ 53 * 2 ^ 1074))).
  { unfold scaled in *. rewrite opp_spec. by apply scaledSF_opp. }
  assert (Hlt : 2 ^ 53 * 2 ^ 1074 < beyond) by done.
  assert (HP : 0 < 2 ^ 1074) by done.
  rewrite !ltb_scaled, Hs, Hmax, Hopp. unfold float_trunc. rewrite Hs. cbn [mbind option_bind].
  destruct (sub_self (of_int n) _ Hs) as [s Hsub]; [nia|].
  rewrite (proj2 (Z.ltb_ge (n * 2 ^ 1074) _)), (proj2 (Z.ltb_ge _ (n * 2 ^ 1074))) by nia. cbn [orb].
  rewrite Z.quot_mul by (by apply Z.neq_sym, Z.lt_neq). rewrite Hsub.
  assert (Hz : scaled (PrimFloat.mul (SF2Prim (S754_zero s)) (of_int Second)) = Some 0) by (destruct s; vm_compute; reflexivity).
  rewrite Hz. cbn [mbind option_bind]. by rewrite Z.quot_0_l, Z.add_0_r by (by apply Z.neq_sym, Z.lt_neq).
Qed.

(** ** What encoding/json promises *)

(** What quoting keeps of a string: an invalid byte becomes U+FFFD. *)
Definition sanitize (s : gostring) : gostring := runes s ≫= encodeRune.

Definition date_raw (t : option Z) : option gostring := (fun t => FormatUint (Unix t)) <$> t.

Class JSONLaws `{JSON} : Prop := {
  quote_bytes s : Forall is_byte (json_quote s);
  members_header m : hashNew m = true →
    json_members (header_text m) = Some ([(str "alg", Some (quoted (Alg m))); (str "typ", Some (quoted (str "JWT")))], true);
  string_alg m : hashNew m = true → json_string (quoted (Alg m)) = Some (Alg m);
  strings_array l : json_strings (array_text l) = Some (sanitize <$> l);
  float_digits n : 0 <= n <= maxNumericDateSec → ParseFloat (FormatUint n) = Some (of_int n);
  claims_marshal c text : marshalClaims c = Ok text →
    json_claims text = Some (MkRaw (sanitize (Issuer c)) (sanitize (Subject c))
      (match Audience c with [] => None | aud => Some (array_text aud) end)
      (date_raw (ExpiresAt c)) (date_raw (NotBefore c)) (date_raw (IssuedAt c))
      (sanitize (ID c)) (sanitize (Username c)) (date_raw (AuthTime c)))
}.

(** A time in the whole seconds a token carries, and claims as they are read
    back. *)
Definition floor (t : Z) : Z := Unix t * Second.

Definition received (c : Claims) : Claims :=
  MkClaims (sanitize (Issuer c)) (sanitize (Subject c)) (sanitize <$> Audience c)
    (floor <$> ExpiresAt c) (floor <$> NotBefore c) (floor <$> IssuedAt c) (sanitize (ID c)) (sanitize (Username c)) (floor <$> AuthTime c).

Definition representable (t : Z) : Prop := 0 <= Unix t <= maxNumericDateSec.

Lemma floor_le t : floor t <= t < floor t + Second.
Proof. unfold floor, Unix, Second. pose proof (Z.div_mod t (10 ^ 9)). pose proof (Z.mod_pos_bound t (10 ^ 9)). lia. Qed.

Lemma date_MarshalJSON_spec t :
  (representable t ∧ date_MarshalJSON t = Ok (FormatUint (Unix t))) ∨ (¬ representable t ∧ date_MarshalJSON t = Error ErrInvalidNumericDate).
Proof.
  unfold date_MarshalJSON, representable. destruct (Z.ltb_spec (Unix t) 0); cbn [orb]; [right; split; [lia|done]|].
  destruct (Z.ltb_spec maxNumericDateSec (Unix t)); [right|left]; (split; [lia|done]).
Qed.

Section Wire.
Context `{JSONLaws} `{HMAC}.

Lemma date_field_raw t : (∀ u, t = Some u → representable u) → date_field (date_raw t) = Some (floor <$> t).
Proof.
  intros Ht. destruct t as [t|]; [|done]. specialize (Ht t eq_refl). unfold date_field, date_raw.
  cbn [fmap option_fmap option_map]. by rewrite float_digits, date_roundtrip.
Qed.

Lemma date_member_ok name t l : date_member name t = Ok l → ∀ u, t = Some u → representable u.
Proof.
  intros Hd u ->. cbn in Hd. destruct (date_MarshalJSON_spec u) as [[Hr _]|[_ Hm]]; [done|]. by rewrite Hm in Hd.
Qed.

Lemma marshalClaims_dates c text : marshalClaims c = Ok text →
  ∀ u, u ∈ [ExpiresAt c; NotBefore c; IssuedAt c; AuthTime c] → ∀ t, u = Some t → representable t.
Proof.
  unfold marshalClaims. intros Hm u Hu t ->.
  destruct (date_member (str "exp") (ExpiresAt c)) eqn:E1; [|done]. destruct (date_member (str "nbf") (NotBefore c)) eqn:E2; [|done].
  destruct (date_member (str "iat") (IssuedAt c)) eqn:E3; [|done]. destruct (date_member (str "auth_time") (AuthTime c)) eqn:E4; [|done].
  rewrite !elem_of_cons in Hu. destruct Hu as [Hu|[Hu|[Hu|[Hu|Hu%not_elem_of_nil]]]]; [..|done];
    symmetry in Hu; (eapply date_member_ok; [|exact Hu]; eassumption).
Qed.

Lemma unmarshal_marshal c text : marshalClaims c = Ok text → unmarshalClaims text = Some (received c).
Proof.
  intros Hm. pose proof (marshalClaims_dates c text Hm) as Hd. unfold unmarshalClaims. rewrite (claims_marshal c text Hm).
  cbn [mbind option_bind r_iss r_sub r_aud r_exp r_nbf r_iat r_jti r_username r_auth_time].
  assert (Haud : match (match Audience c with [] => None | aud => Some (array_text aud) end) with
                 | None => Some [] | Some data => audience_UnmarshalJSON data end = Some (sanitize <$> Audience c)).
  { destruct (Audience c) as [|a aud]; [done|]. by rewrite <- strings_array. }
  rewrite Haud. cbn [mbind option_bind]. rewrite !date_field_raw; [done|apply Hd..]; set_solver.
Qed.
End Wire.

(** ** Configurations *)

Record wf (c : JWT) : Prop := {
  wf_keys : verifyKeys c = key c :: previousKeys c;
  wf_header : encodedHeader c = encode64url (header_text (signingMethod c));
  wf_method : hashNew (signingMethod c) = true;
  wf_weak : ∀ k, k ∈ verifyKeys c → hashSize (signingMethod c) <= Z.of_nat (length k);
  wf_expiration : Second <= expirationTime c;
  wf_renew : 0 < renewTime c;
  wf_token : 0 < maxTokenBytes c;
  wf_session : maxSessionLifetime c = 0 ∨ Second <= maxSessionLifetime c;
  wf_leeway : 0 <= clockSkewLeeway c;
  wf_verify : verifyCredentialsFn c ≠ None;
  wf_authorization : authorizationHeader c ≠ []
}.

Lemma Alg_hashNew m : Alg m ≠ [] → hashNew m = true.
Proof. unfold Alg, hashNew. repeat case_match; done. Qed.

Lemma weak_previous_none minLen i keys : weak_previous minLen i keys = None → ∀ k, k ∈ keys → minLen <= Z.of_nat (length k).
Proof.
  revert i. induction keys as [|k0 keys IH]; intros i Hw k Hk; [by apply not_elem_of_nil in Hk|]. cbn in Hw.
  destruct (Z.ltb_spec (Z.of_nat (length k0)) minLen); [done|]. apply elem_of_cons in Hk as [->|Hk]; [lia|by eapply IH].
Qed.

Lemma New_jwt_wf k fn opts c : New k fn opts = Ok c → wf c.
Proof.
  unfold New. set (c1 := normalizeOptionals _). assert (Hauth : authorizationHeader c1 ≠ []).
  { subst c1. unfold normalizeOptionals. destruct (Nat.eqb_spec (length (authorizationHeader (fold_left (λ c0 applyOpt, applyOpt c0) opts
      (MkJWT k [] [] [] (expirationTime defaultJWT) (renewTime defaultJWT) 0 0 (maxBodyBytes defaultJWT) (maxTokenBytes defaultJWT)
        fn (signingMethod defaultJWT) (authorizationHeader defaultJWT) [] [])))) 0) as [|Hl]; [done|]. intros H0. by rewrite H0 in Hl. }
  clearbody c1. unfold validate, checks. cbn [first_failure].
  destruct (Nat.eqb_spec (length (key c1)) 0) as [|Hk0]; [done|]. destruct (verifyCredentialsFn c1) eqn:Hfn; [|done].
  destruct (str_eqb (Alg (signingMethod c1)) []) eqn:Halg; [done|]. apply bool_decide_eq_false, Alg_hashNew in Halg.
  destruct (Z.leb_spec (expirationTime c1) 0); [done|]. destruct (Z.ltb_spec 0 (expirationTime c1)); [|lia].
  destruct (Z.ltb_spec (expirationTime c1) Second); [done|]. cbn [andb]. destruct (Z.leb_spec (renewTime c1) 0); [done|].
  destruct (Z.leb_spec (maxBodyBytes c1) 0); [done|]. destruct (Z.leb_spec (maxTokenBytes c1) 0); [done|].
  destruct (Z.ltb_spec (maxSessionLifetime c1) 0); [done|].
  destruct (Z.ltb_spec 0 (maxSessionLifetime c1)); cbn [andb].
  all: try (destruct (Z.ltb_spec (maxSessionLifetime c1) Second); [done|]).
  all: destruct (Z.ltb_spec (clockSkewLeeway c1) 0); [done|].
  all: destruct (Z.ltb_spec (Z.of_nat (length (key c1))) (hashSize (signingMethod c1))); [done|].
  all: destruct (weak_previous _ _ _) eqn:Hw; [done|]; intros; simplify_eq.
  all: split; cbn; try done; try lia; try congruence.
  all: intros k' Hk'; apply elem_of_cons in Hk' as [->|Hk']; [lia|by eapply weak_previous_none].
Qed.

(** ** The compact form *)

Definition dotless (s : gostring) : Prop := Forall (fun c => c ≠ 46) s.

Lemma url64_dotless l : Forall is_byte l → dotless (encode64url l).
Proof. intros Hl. eapply Forall_impl; [by apply encode64url_text|]. unfold is_url64. cbn. lia. Qed.

Lemma Contains_dot s : dotless s → Contains s (str ".") = false.
Proof.
  intros Hs. destruct (Contains s (str ".")) eqn:Hc; [|done]. apply Contains_spec in Hc as (l & r & ->).
  apply Forall_app in Hs as [_ Hs]. by apply Forall_cons in Hs as [Hs _].
Qed.

Lemma header_bytes m : Forall is_byte (header_text m).
Proof.
  assert (Ha : Forall is_byte (Alg m)) by (unfold Alg; repeat case_match; repeat constructor; done).
  unfold header_text, quoted. repeat first [apply Forall_app; split | apply Forall_cons; split]; try done; repeat constructor; done.
Qed.

Section Signed.
Context `{JSONLaws} `{HMAC}.

Lemma member_bytes name value : Forall is_byte name → Forall is_byte value → Forall is_byte (member name value).
Proof.
  intros Hn Hv. unfold member, quoted. rewrite !Forall_app, Forall_cons, Forall_app. split_and!; try done; repeat constructor; done.
Qed.

Lemma string_member_bytes name value : Forall is_byte name → Forall (Forall is_byte) (string_member name value).
Proof. intros Hn. unfold string_member. destruct value; [constructor|]. constructor; [|constructor]. apply member_bytes; [done|apply quote_bytes]. Qed.

Lemma date_member_bytes name t l : Forall is_byte name → date_member name t = Ok l → Forall (Forall is_byte) l.
Proof.
  intros Hn Hd. destruct t as [t|]; cbn in Hd; [|by simplify_eq; constructor].
  destruct (date_MarshalJSON_spec t) as [[Hr Hm]|[_ Hm]]; rewrite Hm in Hd; simplify_eq/=. constructor; [|constructor].
  apply member_bytes; [done|]. apply FormatUint_bytes. unfold representable, maxNumericDateSec in Hr. lia.
Qed.

Lemma array_bytes l : Forall is_byte (array_text l).
Proof.
  unfold array_text. rewrite !Forall_app. split_and!; try (repeat constructor; done).
  apply Forall_Join; [done|]. apply Forall_fmap, Forall_true. apply quote_bytes.
Qed.

Lemma marshalClaims_bytes c text : marshalClaims c = Ok text → Forall is_byte text.
Proof.
  unfold marshalClaims. intros Hm.
  destruct (date_member (str "exp") (ExpiresAt c)) eqn:E1; [|done]. destruct (date_member (str "nbf") (NotBefore c)) eqn:E2; [|done].
  destruct (date_member (str "iat") (IssuedAt c)) eqn:E3; [|done]. destruct (date_member (str "auth_time") (AuthTime c)) eqn:E4; [|done].
  cbn [result_bind] in Hm. injection Hm as <-. rewrite Forall_cons, Forall_app. split_and!; try (repeat constructor; done).
  assert (Hb : ∀ s, forallb (fun b => (0 <=? b) && (b <? 256)) s = true → Forall is_byte s).
  { intros s. rewrite forallb_forall. intros Hf. apply Forall_forall. intros b Hin%list_elem_of_In. specialize (Hf b Hin). unfold is_byte. lia. }
  apply Forall_Join; [done|]. rewrite !Forall_app, Forall_cons.
  split_and!; try (apply string_member_bytes; by apply Hb); try (eapply date_member_bytes; [|eassumption]; by apply Hb).
  - destruct (Audience c); [constructor|]. constructor; [|constructor]. apply member_bytes; [by apply Hb|apply array_bytes].
  - apply member_bytes; [by apply Hb|apply quote_bytes].
Qed.

(** A signed token taken apart. *)
Lemma signToken_shape c claims token : wf c → signToken c claims = Ok token →
  ∃ payload, marshalClaims claims = Ok payload ∧ Z.of_nat (length token) <= maxTokenBytes c ∧
    let input := encodedHeader c ++ str "." ++ encode64url payload in
    token = input ++ str "." ++ encode64url (Mac (signingMethod c) (key c) input).
Proof.
  intros Hwf. unfold signToken, computeSignature. rewrite (wf_method c Hwf). destruct (marshalClaims claims) as [payload|]; [|done].
  cbn [result_bind]. destruct (Z.ltb_spec (maxTokenBytes c) (Z.of_nat (length ((encodedHeader c ++ str "." ++ encode64url payload) ++ str "." ++ encode64url (Mac (signingMethod c) (key c) (encodedHeader c ++ str "." ++ encode64url payload)))))); [done|].
  intros [= <-]. by exists payload.
Qed.

Lemma checkHeader_own c c' : wf c → signingMethod c' = signingMethod c → checkHeader c' (encodedHeader c) = Ok ().
Proof.
  intros Hwf Hm. unfold checkHeader. rewrite (wf_header c Hwf), decode64url_encode64url by apply header_bytes.
  unfold decodeJOSEHeader. rewrite members_header by apply (wf_method c Hwf). cbn [readMembers].
  rewrite bool_decide_eq_false_2 by apply not_elem_of_nil. change (str_eqb (str "alg") (str "alg")) with true. cbv iota.
  rewrite string_alg by apply (wf_method c Hwf). rewrite bool_decide_eq_false_2 by (by apply (bool_decide_unpack _)).
  change (str_eqb (str "typ") (str "alg")) with false. change (str_eqb (str "typ") (str "crit")) with false. cbv iota. cbn [result_bind crit alg length].
  rewrite Hm. unfold str_eqb. by rewrite bool_decide_eq_true_2.
Qed.

Lemma verify_loop_in c keys input sig : hashNew (signingMethod c) = true →
  verify_loop c keys input sig = true ↔ ∃ k, k ∈ keys ∧ sig = Mac (signingMethod c) k input.
Proof.
  intros Hm. induction keys as [|k keys IH]; cbn [verify_loop].
  - split; [done|]. by intros (k & Hk%not_elem_of_nil & _).
  - unfold computeSignature. rewrite Hm. unfold str_eqb. case_bool_decide as Hs.
    + split; [|done]. intros _. exists k. split; [left|done].
    + rewrite IH. split; intros (k' & Hk & Heq).
      * exists k'. split; [by right|done].
      * apply elem_of_cons in Hk as [->|Hk]; [done|]. by exists k'.
Qed.

(** A token signed with a key that [c'] accepts is parsed to the claims it was
    signed for, whose validity at the time decides. *)
Lemma signed_parses c c' claims token now : wf c → wf c' → signingMethod c' = signingMethod c → key c ∈ verifyKeys c' →
  maxTokenBytes c <= maxTokenBytes c' → signToken c claims = Ok token →
  parseToken c' now token = (received claims, validateClaims c' now (received claims)).
Proof.
  intros Hwf Hwf' Hm Hk Hmax Hs. destruct (signToken_shape c claims token Hwf Hs) as (payload & Hp & Hl & ->).
  set (input := encodedHeader c ++ str "." ++ encode64url payload) in *. unfold parseToken.
  rewrite (proj2 (Z.ltb_ge _ _)) by lia. pose proof (marshalClaims_bytes claims payload Hp) as Hb.
  assert (Hh : dotless (encodedHeader c)) by (rewrite (wf_header c Hwf); apply url64_dotless, header_bytes).
  assert (Hcut : Cut 46 (input ++ str "." ++ encode64url (Mac (signingMethod c) (key c) input)) =
    Some (encodedHeader c, encode64url payload ++ 46 :: encode64url (Mac (signingMethod c) (key c) input))).
  { subst input. rewrite <- !app_assoc. by apply Cut_first. }
  rewrite Hcut, Cut_first by (by apply url64_dotless).
  rewrite Contains_dot by (apply url64_dotless, Mac_bytes). rewrite checkHeader_own by done.
  rewrite decode64url_encode64url by apply Mac_bytes.
  assert (Htake : take (length (encodedHeader c) + 1 + length (encode64url payload)) (input ++ str "." ++ encode64url (Mac (signingMethod c) (key c) input)) = input).
  { rewrite take_app_length'; [done|]. subst input. rewrite !length_app. cbn [str length fmap list_fmap]. simpl length. lia. }
  rewrite Htake. unfold verifySignature.
  rewrite (proj2 (verify_loop_in c' _ _ _ (wf_method c' Hwf'))) by (exists (key c); by rewrite Hm). cbn [negb].
  rewrite decode64url_encode64url by done. by rewrite (unmarshal_marshal claims payload Hp).
Qed.
End Signed.

(** ** Verification *)

(** A header without a critical extension, naming the configured algorithm
    once. *)
Definition honest_header `{JSON} (c : JWT) (headerSeg : gostring) : Prop :=
  ∃ text members value, decode64url true headerSeg = Some text ∧ json_members text = Some (members, true) ∧
    NoDup (fst <$> members) ∧ (str "alg", Some value) ∈ members ∧ json_string value = Some (Alg (signingMethod c)) ∧
    ∀ v, (str "crit", Some v) ∈ members → v = [].

(** A signature of the first two segments under an accepted key. *)
Definition signed_by `{HMAC} (c : JWT) (h p s : gostring) : Prop :=
  ∃ sig k, decode64url true s = Some sig ∧ k ∈ verifyKeys c ∧ sig = Mac (signingMethod c) k (h ++ 46 :: p).

Definition segments (token h p s : gostring) : Prop := token = h ++ 46 :: p ++ 46 :: s ∧ dotless h ∧ dotless p ∧ dotless s.

(** Claims that hold at [now]. *)
Definition timely (c : JWT) (now : Z) (claims : Claims) : Prop :=
  (∃ exp, ExpiresAt claims = Some exp ∧ now < exp + clockSkewLeeway c) ∧
  (∀ nbf, NotBefore claims = Some nbf → nbf <= now + clockSkewLeeway c) ∧
  (issuer c = [] ∨ Issuer claims = issuer c) ∧ ∀ a, a ∈ audience c → a ∈ Audience claims.

Lemma validateClaims_timely c now claims : validateClaims c now claims = None ↔ timely c now claims.
Proof.
  unfold validateClaims, timely. destruct (ExpiresAt claims) as [exp|]; [|split; [done|]; by intros [(? & ? & _) _]].
  destruct (Z.ltb_spec now (exp + clockSkewLeeway c)) as [He|He]; cbn [negb]; [|split; [done|]; intros [(? & ? & ?) _]; simplify_eq; lia].
  assert (Hnbf : (match NotBefore claims with Some nbf => now + clockSkewLeeway c <? nbf | None => false end) = false ↔
    ∀ nbf, NotBefore claims = Some nbf → nbf <= now + clockSkewLeeway c).
  { destruct (NotBefore claims) as [nbf|]; [|done]. rewrite Z.ltb_ge. split; [by intros ? ? [= <-]|auto]. }
  destruct (match NotBefore claims with Some nbf => _ | None => false end).
  { split; [done|]. intros (_ & Hn & _). by apply Hnbf in Hn. }
  destruct (negb (str_eqb (issuer c) []) && negb (str_eqb (Issuer claims) (issuer c))) eqn:Hi.
  { split; [done|]. apply andb_true_iff in Hi as [H1 H2]. apply negb_true_iff, bool_decide_eq_false in H1, H2. by intros (_ & _ & [?|?] & _). }
  assert (Hi' : issuer c = [] ∨ Issuer claims = issuer c).
  { apply andb_false_iff in Hi as [Hi|Hi]; apply negb_false_iff, bool_decide_eq_true in Hi; auto. }
  destruct (forallb _ (audience c)) eqn:Ha; cbn [negb].
  - split; [|done]. intros _. split_and!; [by exists exp|by apply Hnbf|done|]. rewrite forallb_forall in Ha.
    intros a Hin%list_elem_of_In. specialize (Ha a Hin). by apply bool_decide_eq_true in Ha.
  - split; [done|]. intros (_ & _ & _ & Hall). assert (Ht : forallb (fun aud => bool_decide (aud ∈ Audience claims)) (audience c) = true); [|congruence].
    apply forallb_forall. intros a Hin%list_elem_of_In. by apply bool_decide_eq_true, Hall.
Qed.

Section Verify.
Context `{JSON} `{HMAC}.

Lemma readMembers_sound members : ∀ seen h h', readMembers members seen h = Ok h' →
  NoDup (fst <$> members) ∧ (∀ n, n ∈ fst <$> members → n ∉ seen) ∧
  (alg h' = alg h ∨ ∃ value, (str "alg", Some value) ∈ members ∧ json_string value = Some (alg h')) ∧
  ((∃ v, (str "crit", Some v) ∈ members ∧ crit h' = v) ∨ crit h' = crit h ∧ ∀ v, (str "crit", Some v) ∉ members).
Proof.
  induction members as [|[name value] members IH]; intros seen h h' Hr; cbn [readMembers] in Hr.
  { simplify_eq. split_and!; [constructor|by intros n ?%not_elem_of_nil|by left|right; split; [done|by intros v ?%not_elem_of_nil]]. }
  case_bool_decide as Hseen; [done|]. destruct value as [value|]; [|done].
  assert (Hgen : ∀ h1, readMembers members (name :: seen) h1 = Ok h' →
    (alg h1 = alg h ∨ name = str "alg" ∧ json_string value = Some (alg h1)) →
    (name = str "crit" ∧ crit h1 = value ∨ name ≠ str "crit" ∧ crit h1 = crit h) →
    NoDup (fst <$> (name, Some value) :: members) ∧ (∀ n, n ∈ fst <$> (name, Some value) :: members → n ∉ seen) ∧
    (alg h' = alg h ∨ ∃ value0, (str "alg", Some value0) ∈ (name, Some value) :: members ∧ json_string value0 = Some (alg h')) ∧
    ((∃ v, (str "crit", Some v) ∈ (name, Some value) :: members ∧ crit h' = v) ∨
     crit h' = crit h ∧ ∀ v, (str "crit", Some v) ∉ (name, Some value) :: members)).
  { intros h1 Hr1 Ha Hc. destruct (IH _ _ _ Hr1) as (Hnd & Hns & Ha' & Hc'). cbn [fmap list_fmap fst]. split_and!.
    - apply NoDup_cons. split; [|done]. intros Hin. apply (Hns name Hin). left.
    - intros n [->|Hn]%elem_of_cons; [done|]. intros Hs. apply (Hns n Hn). by right.
    - destruct Ha' as [Ha'|(v & Hv & Hj)]; [|right; exists v; split; [by right|done]].
      destruct Ha as [Ha|[-> Hj]]; [left; congruence|]. right. exists value. split; [left|congruence].
    - destruct Hc' as [(v & Hv & Hcv)|[Hcv Hno]]; [left; exists v; split; [by right|done]|].
      destruct Hc as [[-> Hc]|[Hne Hc]]; [left; exists value; split; [left|congruence]|].
      right. split; [congruence|]. intros v [Hv|Hv]%elem_of_cons; [by simplify_eq|by apply (Hno v)]. }
  destruct (str_eqb name (str "alg")) eqn:Ealg.
  { apply bool_decide_eq_true in Ealg as ->. destruct (json_string value) as [a|] eqn:Hj; [|done].
    apply (Hgen _ Hr); [by right|by right]. }
  destruct (str_eqb name (str "crit")) eqn:Ecrit.
  { apply bool_decide_eq_true in Ecrit as ->. apply (Hgen _ Hr); [by left|by left]. }
  apply bool_decide_eq_false in Ecrit. apply (Hgen _ Hr); [by left|by right].
Qed.

Lemma checkHeader_honest c h : hashNew (signingMethod c) = true → checkHeader c h = Ok () → honest_header c h.
Proof.
  intros Hm. unfold checkHeader, decodeJOSEHeader. destruct (decode64url true h) as [text|] eqn:Ht; [|done].
  destruct (json_members text) as [[members ends]|] eqn:Hj; [|done].
  destruct (readMembers members [] (MkHeader [] [])) as [hd|] eqn:Hr; [|done]. cbn [result_bind].
  destruct ends; [|done]. cbn [result_bind]. destruct (Nat.ltb_spec 0 (length (crit hd))) as [|Hcrit]; [done|].
  destruct (str_eqb (alg hd) (Alg (signingMethod c))) eqn:Ha; [|done]. intros _. apply bool_decide_eq_true in Ha.
  destruct (readMembers_sound _ _ _ _ Hr) as (Hnd & _ & Halg & Hc). cbn [alg crit] in *.
  destruct Halg as [Halg|(v & Hin & Hv)].
  { exfalso. rewrite Halg in Ha. unfold Alg, hashNew in *. repeat case_match; done. }
  exists text, members, v. split_and!; try done; [by rewrite <- Ha|].
  intros v' Hv'. destruct Hc as [(v0 & Hv0 & Hcv)|[_ Hno]]; [|by apply Hno in Hv'].
  destruct (crit hd) as [|? ?] eqn:Hcd; [|simpl in Hcrit; lia]. 
  apply list_elem_of_split in Hv' as (l1 & l2 & ->). rewrite fmap_app, fmap_cons in Hnd. cbn in Hnd.
  apply elem_of_app in Hv0 as [Hv0|[Hv0|Hv0]%elem_of_cons]; [|by simplify_eq|].
  - exfalso. apply NoDup_app in Hnd as (_ & Hd & _). eapply Hd; [by apply (list_elem_of_fmap_2 fst _ _ Hv0)|left].
  - exfalso. apply NoDup_app in Hnd as (_ & _ & Hd). apply NoDup_cons in Hd as [Hd _]. apply Hd. by apply (list_elem_of_fmap_2 fst _ _ Hv0).
Qed.
End Verify.

(** Where the two cuts fall. *)
Lemma cut_segments token h p s : Cut 46 token = Some (h, p ++ 46 :: s) → dotless p → dotless s → segments token h p s.
Proof. intros Hc Hp Hs. apply Cut_join in Hc as [-> Hh]. by split. Qed.

Lemma take_input h p s : take (length h + 1 + length p) (h ++ 46 :: p ++ 46 :: s) = h ++ 46 :: p.
Proof.
  rewrite cons_middle, app_assoc, app_assoc. rewrite take_app_length'; [by rewrite <- app_assoc|]. rewrite !length_app. simpl. lia.
Qed.

Lemma dotless_Contains s : Contains s (str ".") = false → dotless s.
Proof.
  intros Hc. apply Forall_forall. intros c Hin ->. apply list_elem_of_split in Hin as (l & r & ->).
  assert (Ht : Contains (l ++ 46 :: r) (str ".") = true) by (apply Contains_spec; by exists l, r). congruence.
Qed.

Section Soundness.
Context `{JSON} `{HMAC}.

(** C18. What verification accepts. A token is accepted with some claims
    exactly when it fits the size bound and is three segments, of which the
    third is the strict encoding of a signature of the first two, as they
    stand, under an accepted key and the configured method, the first decodes
    to a header that passes the check, and the second to claims that hold at
    the time. A header that passes names the configured algorithm, repeats no
    member and carries no critical extension. When a token is rejected, no
    claims are handed out unless its signature verified. *)
Theorem verification_sound c now token (Hwf : wf c) :
  (∀ claims, parseToken c now token = (claims, None) ↔
    Z.of_nat (length token) <= maxTokenBytes c ∧ timely c now claims ∧
    ∃ h p s payload, segments token h p s ∧ checkHeader c h = Ok () ∧ signed_by c h p s ∧
      decode64url true p = Some payload ∧ unmarshalClaims payload = Some claims) ∧
  (∀ h, checkHeader c h = Ok () → honest_header c h) ∧
  (∀ claims e, parseToken c now token = (claims, Some e) →
    claims = no_claims ∨ ∃ h p s, segments token h p s ∧ signed_by c h p s).
Proof.
  assert (Hm := wf_method c Hwf).
  assert (Hparse : ∀ h p s sig, segments token h p s → checkHeader c h = Ok () → decode64url true s = Some sig →
    verifySignature c (take (length h + 1 + length p) token) sig = true → signed_by c h p s).
  { intros h p s sig (-> & _) _ Hs Hv. rewrite take_input in Hv. apply verify_loop_in in Hv as (k & Hk & ->); [|done].
    eexists _, k. by split_and!. }
  split; [|split; [intros h; by apply checkHeader_honest|]].
  - intros claims. unfold parseToken. destruct (Z.ltb_spec (maxTokenBytes c) (Z.of_nat (length token))) as [Hl|Hl]; [split; [done|lia]|].
    split.
    + destruct (Cut 46 token) as [[h rest]|] eqn:H1; [|done]. destruct (Cut 46 rest) as [[p s]|] eqn:H2; [|done].
      destruct (Contains s (str ".")) eqn:H3; [done|]. destruct (checkHeader c h) as [[]|] eqn:H4; [|done].
      destruct (decode64url true s) as [sig|] eqn:H5; [|done]. destruct (verifySignature c _ sig) eqn:H6; [|done]. cbn [negb].
      destruct (decode64url true p) as [payload|] eqn:H7; [|done]. destruct (unmarshalClaims payload) as [cl|] eqn:H8; [|done].
      intros [= -> Hv]. apply validateClaims_timely in Hv. split; [done|]. split; [done|].
      apply Cut_join in H2 as [-> Hp]. pose proof (cut_segments token h p s H1 Hp (dotless_Contains s H3)) as Hseg.
      exists h, p, s, payload. split_and!; try done. by eapply Hparse.
    + intros (_ & Hti & h & p & s & payload & (-> & Hh & Hp & Hs) & Hc & (sig & k & Hsig & Hk & Heq) & Hpl & Hcl).
      rewrite (Cut_first 46 h (p ++ 46 :: s)) by done. rewrite (Cut_first 46 p s) by done. rewrite Contains_dot, Hc, Hsig by done.
      rewrite take_input. unfold verifySignature. rewrite (proj2 (verify_loop_in c _ _ _ Hm)) by (by exists k). cbn [negb].
      rewrite Hpl, Hcl. by rewrite (proj2 (validateClaims_timely c now claims)).
  - intros claims e. unfold parseToken. destruct (Z.ltb_spec (maxTokenBytes c) (Z.of_nat (length token))) as [Hl|Hl]; [intros; simplify_eq; by left|].
    destruct (Cut 46 token) as [[h rest]|] eqn:H1; [|intros; simplify_eq; by left].
    destruct (Cut 46 rest) as [[p s]|] eqn:H2; [|intros; simplify_eq; by left].
    destruct (Contains s (str ".")) eqn:H3; [intros; simplify_eq; by left|].
    destruct (checkHeader c h) as [[]|] eqn:H4; [|intros; simplify_eq; by left].
    destruct (decode64url true s) as [sig|] eqn:H5; [|intros; simplify_eq; by left].
    destruct (verifySignature c _ sig) eqn:H6; [|intros; simplify_eq/=; by left]. intros _. right.
    apply Cut_join in H2 as [-> Hp]. pose proof (cut_segments token h p s H1 Hp (dotless_Contains s H3)) as Hseg.
    exists h, p, s. split; [done|]. by eapply Hparse.
Qed.
End Soundness.

(** ** Issuing *)

Section Issue.
Context `{JSONLaws} `{HMAC}.

(** When the claims of [newClaims] expire. *)
Definition expiry (c : JWT) (tnow start : Z) : Z :=
  if 0 <? maxSessionLifetime c then Z.min (tnow + expirationTime c) (start + maxSessionLifetime c) else tnow + expirationTime c.

Lemma newClaims_expiry c tnow jti user auth :
  ExpiresAt (newClaims c tnow jti user auth) = Some (expiry c tnow (default tnow auth)).
Proof.
  unfold newClaims, expiry. cbn [ExpiresAt]. destruct (0 <? maxSessionLifetime c); [|done].
  f_equal. destruct (Z.ltb_spec (default tnow auth + maxSessionLifetime c) (tnow + expirationTime c)); lia.
Qed.

(** A fresh token is not born expired. *)
Lemma expiry_fresh c tnow : wf c → tnow + Second <= expiry c tnow tnow.
Proof. intros Hwf. destruct Hwf. unfold expiry. destruct (Z.ltb_spec 0 (maxSessionLifetime c)); lia. Qed.

(** An instance that enforces no more of the issuer and the audience than
    tokens of [c] carry. *)
Definition lenient (c c' : JWT) : Prop :=
  (issuer c' = [] ∨ sanitize (issuer c) = issuer c') ∧ ∀ a, a ∈ audience c' → ∃ b, b ∈ audience c ∧ sanitize b = a.

Lemma received_valid c c' now tnow jti user auth : lenient c c' →
  validateClaims c' now (received (newClaims c tnow jti user auth)) =
    if negb (now <? floor (expiry c tnow (default tnow auth)) + clockSkewLeeway c') then Some ErrTokenExpired
    else if now + clockSkewLeeway c' <? floor tnow then Some ErrTokenNotYetValid else None.
Proof.
  intros [Hi Ha]. unfold validateClaims. cbn [received ExpiresAt NotBefore]. rewrite newClaims_expiry. cbn [fmap option_fmap option_map newClaims NotBefore].
  case_match; [done|]. case_match; [done|].
  assert (Hi' : negb (str_eqb (issuer c') []) && negb (str_eqb (Issuer (received (newClaims c tnow jti user auth))) (issuer c')) = false).
  { unfold str_eqb. destruct Hi as [->|Hi]; [done|]. cbn. rewrite (bool_decide_eq_true_2 (sanitize (issuer c) = issuer c')) by done. apply andb_false_r. }
  assert (Ha' : forallb (fun aud => bool_decide (aud ∈ Audience (received (newClaims c tnow jti user auth)))) (audience c') = true).
  { apply forallb_forall. intros a Hin%list_elem_of_In. apply bool_decide_eq_true. cbn. destruct (Ha a Hin) as (b & Hb & <-). by apply list_elem_of_fmap_2. }
  by rewrite Hi', Ha'.
Qed.

Lemma marshalClaims_ok c : (∀ u, u ∈ [ExpiresAt c; NotBefore c; IssuedAt c; AuthTime c] → ∀ t, u = Some t → representable t) →
  ∃ text, marshalClaims c = Ok text.
Proof.
  intros Hr. assert (Hd : ∀ name u, u ∈ [ExpiresAt c; NotBefore c; IssuedAt c; AuthTime c] → ∃ l, date_member name u = Ok l).
  { intros name [t|] Hu; [|by eexists]. cbn. destruct (date_MarshalJSON_spec t) as [[_ ->]|[Hn _]]; [by eexists|].
    destruct Hn. by apply (Hr _ Hu). }
  unfold marshalClaims.
  destruct (Hd (str "exp") (ExpiresAt c)) as [? ->]; [set_solver|]. destruct (Hd (str "nbf") (NotBefore c)) as [? ->]; [set_solver|].
  destruct (Hd (str "iat") (IssuedAt c)) as [? ->]; [set_solver|]. destruct (Hd (str "auth_time") (AuthTime c)) as [? ->]; [set_solver|].
  by eexists.
Qed.

Lemma marshalClaims_error c e : marshalClaims c = Error e → e = ErrInvalidNumericDate.
Proof.
  assert (Hd : ∀ name u e, date_member name u = Error e → e = ErrInvalidNumericDate).
  { intros name [t|] e'; [|done]. cbn. destruct (date_MarshalJSON_spec t) as [[_ ->]|[_ ->]]; [done|]. by intros [= <-]. }
  unfold marshalClaims. destruct (date_member (str "exp") (ExpiresAt c)) eqn:E1; [|intros; simplify_eq/=; by eapply Hd].
  destruct (date_member (str "nbf") (NotBefore c)) eqn:E2; [|intros; simplify_eq/=; by eapply Hd].
  destruct (date_member (str "iat") (IssuedAt c)) eqn:E3; [|intros; simplify_eq/=; by eapply Hd].
  destruct (date_member (str "auth_time") (AuthTime c)) eqn:E4; [done|intros; simplify_eq/=; by eapply Hd].
Qed.
End Issue.

Section Theorems.
Context `{JSONLaws} `{HMAC}.

(** C15. What is issued verifies. Of two instances built by [New], the second
    accepting the signing key of the first as its own or a previous one, with
    the same method, a token bound no smaller, and enforcing only what the
    first puts in its tokens: a token issued by the first is read back by the
    second, at any time, as the claims it was issued for, in whole seconds;
    it is rejected only before its issue or from its expiry on, give or take
    the leeway, and never at the instant of its issue. Issuing fails only for
    a token over the size bound or a date that cannot be written. *)
Theorem issued_verifies k fn opts k' fn' opts' c c' tnow jti user
    (Hc : New k fn opts = Ok c) (Hc' : New k' fn' opts' = Ok c') (Hm : signingMethod c' = signingMethod c)
    (Hk : key c ∈ key c' :: previousKeys c') (Hmax : maxTokenBytes c <= maxTokenBytes c') (Hlen : lenient c c') :
  let claims := newClaims c tnow jti user None in
  match IssueToken c tnow jti user with
  | Ok token =>
      (∀ now, VerifyToken c' now token =
        (received claims,
         if negb (now <? floor (expiry c tnow tnow) + clockSkewLeeway c') then Some ErrTokenExpired
         else if now + clockSkewLeeway c' <? floor tnow then Some ErrTokenNotYetValid else None)) ∧
      VerifyToken c' tnow token = (received claims, None)
  | Error e =>
      e = ErrTokenTooLarge ∨ e = ErrInvalidNumericDate ∧ ¬ (representable tnow ∧ representable (expiry c tnow tnow))
  end.
Proof.
  intros claims. apply New_jwt_wf in Hc as Hwf, Hc' as Hwf'. unfold IssueToken. fold claims.
  destruct (signToken c claims) as [token|e] eqn:Hs.
  - assert (Hall : ∀ now, VerifyToken c' now token = (received claims,
      if negb (now <? floor (expiry c tnow tnow) + clockSkewLeeway c') then Some ErrTokenExpired
      else if now + clockSkewLeeway c' <? floor tnow then Some ErrTokenNotYetValid else None)).
    { intros now. unfold VerifyToken. rewrite (signed_parses c c' claims token now Hwf Hwf' Hm); [|by rewrite (wf_keys c' Hwf')|done|done].
      f_equal. by apply received_valid. }
    split; [done|]. rewrite Hall. f_equal. pose proof (wf_leeway c' Hwf'). pose proof (expiry_fresh c tnow Hwf).
    pose proof (floor_le (expiry c tnow tnow)). pose proof (floor_le tnow).
    rewrite (proj2 (Z.ltb_lt _ _)) by lia. cbn [negb]. by rewrite (proj2 (Z.ltb_ge _ _)) by lia.
  - unfold signToken, computeSignature in Hs. rewrite (wf_method c Hwf) in Hs. destruct (marshalClaims claims) as [payload|e'] eqn:Hp.
    + left. cbn [result_bind] in Hs. destruct (_ <? _) in Hs; by simplify_eq.
    + right. cbn [result_bind] in Hs. simplify_eq. split; [by eapply marshalClaims_error|]. intros [Hr1 Hr2].
      destruct (marshalClaims_ok claims) as [text Ht]; [|congruence].
      intros u Hu t ->. rewrite !elem_of_cons in Hu. subst claims. rewrite newClaims_expiry in Hu. cbn in Hu.
      destruct Hu as [Hu|[Hu|[Hu|[Hu|Hu%not_elem_of_nil]]]]; by simplify_eq.
Qed.

(** ** Sessions *)

(** The tokens of a session of [user]: that of the login at [t0], and those
    renewed with a token of the session, presented as a bearer token. *)
Inductive session (c : JWT) (t0 : Z) (user : gostring) : gostring → Prop :=
| session_login jti password token :
    LoginHandler c t0 jti (BodyCredentials user password false) = Some (respond 200 token) → session c t0 user token
| session_renewed token clock jti header token' :
    session c t0 user token → header (authorizationHeader c) = HeaderAuthBearer ++ token →
    (∀ i j, (i <= j)%nat → clock i <= clock j) →
    RenewHandler c clock jti header = Some (respond 200 token') → session c t0 user token'.

Lemma sendTokenResponse_ok c claims token : sendTokenResponse c claims = respond 200 token → signToken c claims = Ok token.
Proof. unfold sendTokenResponse, respond. destruct (signToken c claims); [by intros [= ->]|done]. Qed.

(** A signed token begins with a letter. *)
Lemma signed_bearer c claims token now header : wf c → signToken c claims = Ok token →
  header (authorizationHeader c) = HeaderAuthBearer ++ token → checkToken c now header = parseToken c now token.
Proof.
  intros Hwf Hs Hh. destruct (signToken_shape c claims token Hwf Hs) as (payload & _ & _ & Htok).
  assert (Hhead : ∃ rest, token = 101 :: rest).
  { rewrite Htok, (wf_header c Hwf). by eexists. }
  destruct Hhead as [rest ->]. unfold checkToken. rewrite Hh. clear Htok Hs Hh.
  assert (Hl : length (HeaderAuthBearer ++ 101 :: rest) = S (7 + length rest)) by done. rewrite Hl. cbn [Nat.eqb].
  change (length HeaderAuthBearer) with 7%nat. rewrite (proj2 (Nat.leb_gt _ _)) by lia.
  rewrite take_app_length', drop_app_length' by done. done.
Qed.

(** The claims a token of a session was signed for. *)
Definition of_session (c : JWT) (t0 : Z) (user token : gostring) : Prop :=
  ∃ claims start exp, signToken c claims = Ok token ∧ AuthTime claims = Some start ∧ floor start = floor t0 ∧ start <= t0 ∧
    ExpiresAt claims = Some exp ∧ (0 < maxSessionLifetime c → exp <= start + maxSessionLifetime c) ∧
    Username claims = user ∧ Subject claims = user.

Lemma newClaims_session c tnow start : 0 < maxSessionLifetime c →
  expiry c tnow start <= start + maxSessionLifetime c.
Proof. intros Hs. unfold expiry. rewrite (proj2 (Z.ltb_lt _ _)) by done. lia. Qed.

Lemma floor_floor t : floor (floor t) = floor t.
Proof. unfold floor at 1. unfold Unix, floor. by rewrite Z.div_mul. Qed.

Lemma parse_own c claims token now : wf c → signToken c claims = Ok token →
  parseToken c now token = (received claims, validateClaims c now (received claims)).
Proof. intros Hwf Hs. apply (signed_parses c c); try done. rewrite (wf_keys c Hwf). left. Qed.

(** What a renewal that succeeds has checked and signs. *)
Lemma RenewHandler_ok c clock jti header token : RenewHandler c clock jti header = Some (respond 200 token) →
  ∃ claims exp, checkToken c (clock 0%nat) header = (claims, None) ∧ ExpiresAt claims = Some exp ∧
    Sub exp (clock 1%nat) <= renewTime c ∧
    let start := match AuthTime claims with Some t => Some t | None => IssuedAt claims end in
    (0 < maxSessionLifetime c → ∃ s, start = Some s ∧ Sub (clock 2%nat) s <= maxSessionLifetime c) ∧
    let renewed := newClaims c (clock 3%nat) jti (Username claims) start in
    expiredOnIssue c (clock 4%nat) (ExpiresAt renewed) = false ∧ signToken c renewed = Ok token.
Proof.
  unfold RenewHandler. destruct (checkToken c (clock 0%nat) header) as [claims [e|]]; [by intros [= ]|].
  destruct (ExpiresAt claims) as [exp|] eqn:He; [|done]. cbn [mbind option_bind]. intros Heq. apply (inj Some) in Heq.
  destruct (Z.ltb_spec (renewTime c) (Sub exp (clock 1%nat))); [done|].
  destruct (_ && _) eqn:Hcap in Heq; [done|]. destruct (expiredOnIssue _ _ _) eqn:Hborn in Heq; [done|].
  exists claims, exp. split_and!; try done; [|by apply sendTokenResponse_ok].
  intros Hpos. rewrite (proj2 (Z.ltb_lt _ _)) in Hcap by done. cbn [andb] in Hcap.
  destruct (match AuthTime claims with Some t => Some t | None => IssuedAt claims end) as [s|]; [|done].
  exists s. split; [done|]. by apply Z.ltb_ge.
Qed.

Lemma session_of_session c t0 user token : wf c → sanitize user = user → session c t0 user token → of_session c t0 user token.
Proof.
  intros Hwf Hu. induction 1 as [jti password token Hl|token clock jti header token' _ (claims & start & exp & Hs & Ha & Hf & Hle & He & Hcap & Hun & Hsub) Hh _ Hr].
  - unfold LoginHandler in Hl. destruct (verifyCredentialsFn c) as [verify|]; [|done]. cbn [mbind option_bind] in Hl.
    destruct (verify user password) as [[]|]; try done. injection Hl as Hl. apply sendTokenResponse_ok in Hl.
    exists (newClaims c t0 jti user None), t0, (expiry c t0 t0). split_and!; try done; [apply newClaims_expiry|].
    intros Hpos. by apply newClaims_session.
  - apply RenewHandler_ok in Hr as (cl & exp' & Hck & He' & _ & _ & _ & Hs'). rewrite (signed_bearer c claims token _ _ Hwf Hs Hh) in Hck.
    rewrite (parse_own c claims token _ Hwf Hs) in Hck. injection Hck as <- _. cbn [AuthTime received] in Hs'. rewrite Ha in Hs'. cbn [fmap option_fmap option_map] in Hs'.
    exists (newClaims c (clock 3%nat) jti (Username (received claims)) (Some (floor start))), (floor start), (expiry c (clock 3%nat) (floor start)).
    pose proof (floor_le start). split_and!; try done; [by rewrite floor_floor|lia|apply newClaims_expiry|..].
    + intros Hpos. by apply newClaims_session.
    + cbn. by rewrite Hun.
    + cbn. by rewrite Hun.
Qed.

(** C21. Sessions end. Under a configured session lifetime, every token of a
    session that verifies does so strictly before the login plus that lifetime
    and the leeway, however often it was renewed; it names the user who logged
    in and, in whole seconds, the time of the login. A renewal succeeds only
    with a token that verifies, inside the renewal window and the session
    lifetime, and returns a token that verifies when it is returned. *)
Theorem sessions_end k fn opts c t0 user (Hc : New k fn opts = Ok c) (Hcap : 0 < maxSessionLifetime c)
    (Huser : sanitize user = user) :
  (∀ token now claims, session c t0 user token → VerifyToken c now token = (claims, None) →
    now < t0 + maxSessionLifetime c + clockSkewLeeway c ∧ AuthTime claims = Some (floor t0) ∧
    Username claims = user ∧ Subject claims = user) ∧
  ∀ clock jti header token, (∀ i j, (i <= j)%nat → clock i <= clock j) → lenient c c →
    RenewHandler c clock jti header = Some (respond 200 token) →
    ∃ claims exp, checkToken c (clock 0%nat) header = (claims, None) ∧ ExpiresAt claims = Some exp ∧
      Sub exp (clock 1%nat) <= renewTime c ∧ (VerifyToken c (clock 4%nat) token).2 = None.
Proof.
  apply New_jwt_wf in Hc as Hwf. split.
  - intros token now claims Hs Hv. apply session_of_session in Hs as (cl & start & exp & Hsig & Ha & Hf & Hle & He & Hexp & Hun & Hsub); [|done..].
    unfold VerifyToken in Hv. rewrite (parse_own c cl token now Hwf Hsig) in Hv. injection Hv as <- Hv.
    apply validateClaims_timely in Hv as ((exp' & He' & Hnow) & _). cbn in He'. rewrite He in He'. cbn in He'. injection He' as <-.
    specialize (Hexp Hcap). split_and!.
    + pose proof (floor_le exp). lia.
    + cbn [received AuthTime]. rewrite Ha. cbn [fmap option_fmap option_map]. by rewrite Hf.
    + cbn. congruence.
    + cbn. congruence.
  - intros clock jti header token Hmono Hlen Hr. apply RenewHandler_ok in Hr as (claims & exp & Hck & He & Hren & Hs & Hborn & Hsig).
    exists claims, exp. split_and!; try done.
    unfold VerifyToken. rewrite (parse_own c _ token _ Hwf Hsig), received_valid by done. cbn [snd].
    rewrite newClaims_expiry in Hborn. cbn [expiredOnIssue] in Hborn. apply negb_false_iff in Hborn. unfold floor. rewrite Hborn. cbn [negb].
    pose proof (floor_le (clock 3%nat)). pose proof (wf_leeway c Hwf). pose proof (Hmono 3%nat 4%nat ltac:(lia)).
    unfold floor in *. by rewrite (proj2 (Z.ltb_ge _ _)) by lia.
Qed.
End Theorems.
