(* ===== verification/JwtJSON.v ===== *)
(** * [pkg/jwt]: the JSON it relies on can be had

    A quoting and a scanner of JSON strings, arrays of strings, numbers and
    flat objects, with the laws the theorems assume, a toy message
    authentication code, and the theorems applied to them. *)

From stdpp Require Import base option list.
From Stdlib Require Import String Floats.
From S2P Require Import Prelude Binary64 GoString GoText Base64 Jwt JwtProps.

#[local] Open Scope Z_scope.

(** ** Strings *)

Definition hex (d : Z) : Z := if d <? 10 then 48 + d else 87 + d.
Definition unhex (c : Z) : option Z :=
  if between 48 c 57 then Some (c - 48) else if between 97 c 102 then Some (c - 87) else None.

Definition escape (c : Z) : gostring :=
  if (c =? 34) || (c =? 92) then [92; c]
  else if c <? 32 then [92; 117; 48; 48; hex (c / 16); hex (c mod 16)]
  else [c].

Definition quote (s : gostring) : gostring := quoted (sanitize s ≫= escape).

(** After the opening quote: the contents, and what follows the closing one. *)
Fixpoint scan_string (s : gostring) : option (gostring * gostring) :=
  match s with
  | [] => None
  | c :: s =>
      if c =? 34 then Some ([], s)
      else if c =? 92 then
        match s with
        | [] => None
        | d :: s =>
            if d =? 117 then
              match s with
              | _ :: _ :: a :: b :: s => x ← unhex a; y ← unhex b; '(v, rest) ← scan_string s; Some (16 * x + y :: v, rest)
              | _ => None
              end
            else '(v, rest) ← scan_string s; Some (d :: v, rest)
        end
      else '(v, rest) ← scan_string s; Some (c :: v, rest)
  end.

Lemma unhex_hex d : 0 <= d < 16 → unhex (hex d) = Some d.
Proof.
  intros Hd. unfold unhex, hex, between. destruct (Z.ltb_spec d 10).
  - rewrite (proj2 (Z.leb_le 48 _)), (proj2 (Z.leb_le _ 57)) by lia. cbn. f_equal. lia.
  - rewrite (proj2 (Z.leb_gt _ 57)), andb_false_r by lia. rewrite (proj2 (Z.leb_le 97 _)), (proj2 (Z.leb_le _ 102)) by lia. cbn. f_equal. lia.
Qed.

Lemma encodeRune_bytes r : Forall is_byte (encodeRune r).
Proof.
  unfold encodeRune, between.
  repeat match goal with |- context [?a <=? ?b] => destruct (Z.leb_spec a b); cbn [andb orb] end;
    repeat constructor; unfold is_byte; Z.to_euclidean_division_equations; lia.
Qed.

Lemma sanitize_bytes s : Forall is_byte (sanitize s).
Proof. unfold sanitize. apply Forall_bind, Forall_true. intros r. apply encodeRune_bytes. Qed.

Lemma escape_bytes c : is_byte c → Forall is_byte (escape c).
Proof.
  intros Hc. unfold escape, hex, is_byte in *. destruct (_ || _); [repeat constructor; lia|]. destruct (Z.ltb_spec c 32); [|repeat constructor; lia].
  destruct (c / 16 <? 10) eqn:?, (c mod 16 <? 10) eqn:?; repeat constructor; Z.to_euclidean_division_equations; lia.
Qed.

Lemma quote_is_bytes s : Forall is_byte (quote s).
Proof.
  unfold quote, quoted. rewrite Forall_cons, Forall_app. split_and!; [unfold is_byte; lia| |repeat constructor; unfold is_byte; lia].
  apply Forall_bind. eapply Forall_impl; [apply sanitize_bytes|]. apply escape_bytes.
Qed.

Lemma scan_string_escape s rest : Forall is_byte s → scan_string ((s ≫= escape) ++ 34 :: rest) = Some (s, rest).
Proof.
  induction 1 as [|c s Hc _ IH]; [done|]. cbn [mbind list_bind]. unfold escape at 1.
  destruct (Z.eqb_spec c 34) as [->|H34]; [cbn in *; by rewrite IH|].
  destruct (Z.eqb_spec c 92) as [->|H92]; [cbn in *; by rewrite IH|]. cbn [orb]. destruct (Z.ltb_spec c 32).
  - cbn [app scan_string]. change (92 =? 34) with false. change (92 =? 92) with true. change (117 =? 117) with true. cbv iota.
    unfold is_byte in Hc. rewrite !unhex_hex by (Z.to_euclidean_division_equations; lia). cbn [mbind option_bind].
    rewrite IH. cbn [mbind option_bind]. do 3 f_equal. Z.to_euclidean_division_equations; lia.
  - cbn [app scan_string]. rewrite !(proj2 (Z.eqb_neq _ _)) by done. by rewrite IH.
Qed.

(** ** Values and objects *)

(** The elements of an array of strings after its bracket, and what follows. *)
Fixpoint scan_items (fuel : nat) (s : gostring) : option (list gostring * gostring) :=
  match fuel, s with
  | S fuel, 34 :: s =>
      '(v, s) ← scan_string s;
      match s with
      | 44 :: s => '(vs, rest) ← scan_items fuel s; Some (v :: vs, rest)
      | 93 :: rest => Some ([v], rest)
      | _ => None
      end
  | _, _ => None
  end.

Definition scan_array (s : gostring) : option (list gostring * gostring) :=
  match s with
  | 93 :: rest => Some ([], rest)
  | _ => scan_items (length s) s
  end.

Fixpoint scan_digits (s : gostring) : gostring :=
  match s with
  | c :: s' => if between 48 c 57 then scan_digits s' else s
  | [] => []
  end.

(** What follows a value. *)
Definition after_value (s : gostring) : option gostring :=
  match s with
  | 34 :: r => snd <$> scan_string r
  | 91 :: r => snd <$> scan_array r
  | _ => Some (scan_digits s)
  end.

(** The members of a flat object after its brace, with the raw texts of their
    values, and whether the object ends the text. *)
Fixpoint scan_members (fuel : nat) (s : gostring) : option (list (gostring * option gostring) * bool) :=
  match fuel, s with
  | S fuel, 34 :: s =>
      '(name, s) ← scan_string s;
      match s with
      | 58 :: s =>
          rest ← after_value s;
          let raw := take (length s - length rest) s in
          match rest with
          | 44 :: rest => '(ms, ends) ← scan_members fuel rest; Some ((name, Some raw) :: ms, ends)
          | [125] => Some ([(name, Some raw)], true)
          | _ => None
          end
      | _ => None
      end
  | _, _ => None
  end.

Definition scan_object (s : gostring) : option (list (gostring * option gostring) * bool) :=
  match s with
  | 123 :: s => scan_members (length s) s
  | _ => None
  end.

Definition unquote (s : gostring) : option gostring :=
  match s with
  | 34 :: s => '(v, rest) ← scan_string s; if (length rest =? 0)%nat then Some v else None
  | _ => None
  end.

Definition unarray (s : gostring) : option (list gostring) :=
  match s with
  | 91 :: s => '(vs, rest) ← scan_array s; if (length rest =? 0)%nat then Some vs else None
  | _ => None
  end.

(** The raw value of a member. *)
Fixpoint get (name : gostring) (ms : list (gostring * option gostring)) : option gostring :=
  match ms with
  | [] => None
  | (n, v) :: ms => if str_eqb n name then v else get name ms
  end.

Definition get_string (name : gostring) (ms : list (gostring * option gostring)) : gostring := default [] (get name ms ≫= unquote).

#[export] Instance scanner : JSON := {|
  json_quote := quote;
  json_string := unquote;
  json_strings := unarray;
  json_members := scan_object;
  json_claims text :=
    '(ms, ends) ← scan_object text;
    Some (MkRaw (get_string (str "iss") ms) (get_string (str "sub") ms) (get (str "aud") ms) (get (str "exp") ms)
            (get (str "nbf") ms) (get (str "iat") ms) (get_string (str "jti") ms) (get_string (str "username") ms) (get (str "auth_time") ms));
  partial_claims _ := no_claims;
  ParseFloat text := of_int <$> number_value text
|}.

(** ** Scanning what was written *)

Lemma scan_items_join l : ∀ fuel rest, l ≠ [] → (length l <= fuel)%nat →
  scan_items fuel (Join 44 (quote <$> l) ++ 93 :: rest) = Some (sanitize <$> l, rest).
Proof.
  induction l as [|s l IH]; intros fuel rest Hne Hf; [done|]. destruct fuel as [|fuel]; [simpl in Hf; lia|].
  destruct l as [|s' l].
  - cbn [fmap list_fmap Join]. unfold quote at 1, quoted. cbn [app scan_items]. rewrite <- app_assoc. cbn [app].
    by rewrite scan_string_escape by apply sanitize_bytes.
  - change (Join 44 (quote <$> s :: s' :: l)) with (quote s ++ 44 :: Join 44 (quote <$> s' :: l)).
    unfold quote at 1, quoted. cbn [app scan_items]. rewrite <- !app_assoc. cbn [app].
    rewrite scan_string_escape by apply sanitize_bytes. cbn [mbind option_bind].
    rewrite IH; [done|done|simpl in *; lia].
Qed.

Lemma Join_length_ge {A} (f : A → gostring) l : (∀ a, (0 < length (f a))%nat) → (length l <= length (Join 44 (f <$> l)))%nat.
Proof.
  intros Hf. induction l as [|a [|b l] IH]; [done|cbn; specialize (Hf a); lia|].
  change (Join 44 (f <$> a :: b :: l)) with (f a ++ 44 :: Join 44 (f <$> b :: l)). rewrite length_app. cbn [length] in *. lia.
Qed.

Lemma scan_array_text l rest : scan_array (Join 44 (quote <$> l) ++ 93 :: rest) = Some (sanitize <$> l, rest).
Proof.
  destruct l as [|s l]; [done|]. assert (Hs : scan_array (Join 44 (quote <$> s :: l) ++ 93 :: rest) =
    scan_items (length (Join 44 (quote <$> s :: l) ++ 93 :: rest)) (Join 44 (quote <$> s :: l) ++ 93 :: rest)) by (destruct l; done).
  rewrite Hs. apply scan_items_join; [done|]. rewrite length_app.
  pose proof (Join_length_ge quote (s :: l) ltac:(intros; unfold quote, quoted; simpl; lia)). lia.
Qed.

(** A text that scans as a value, whatever follows it in an object. *)
Definition is_value (v : gostring) : Prop := ∀ c rest, c = 44 ∨ c = 125 → after_value (v ++ c :: rest) = Some (c :: rest).

Lemma quote_value s : is_value (quote s).
Proof.
  intros c rest _. unfold quote, quoted. cbn [app after_value]. rewrite <- app_assoc. cbn [app].
  by rewrite scan_string_escape by apply sanitize_bytes.
Qed.

Lemma array_value l : is_value (array_text l).
Proof.
  intros c rest _. unfold array_text. change (str "[") with [91]. change (str "]") with [93]. rewrite <- !app_assoc. cbn [app after_value].
  change (json_quote <$> l) with (quote <$> l). by rewrite scan_array_text.
Qed.

Lemma scan_digits_end s c rest : Forall (fun b => 48 <= b <= 57) s → c = 44 ∨ c = 125 → scan_digits (s ++ c :: rest) = c :: rest.
Proof.
  intros Hs Hc. induction Hs as [|b s Hb _ IH]; cbn [app scan_digits]; unfold between in *.
  - by destruct Hc as [-> | ->].
  - by rewrite (proj2 (Z.leb_le 48 b)), (proj2 (Z.leb_le b 57)) by lia.
Qed.

Lemma digits_value_scan n : 0 <= n < 2 ^ 64 → is_value (FormatUint n).
Proof.
  intros Hn c rest Hc. apply FormatUint_spec in Hn as [[Hne Hd] _]. destruct (FormatUint n) as [|b s]; [done|].
  apply Forall_cons in Hd as [Hb Hd]. assert (Ha : after_value ((b :: s) ++ c :: rest) = Some (scan_digits ((b :: s) ++ c :: rest))).
  { cbn [app]. unfold after_value. destruct (decide (b = 34)) as [->|]; [lia|]. destruct (decide (b = 91)) as [->|]; [lia|].
    destruct b as [|p|p]; try lia; repeat (destruct p as [p|p|]; try done; try lia). }
  rewrite Ha, (scan_digits_end (b :: s)); [done|by constructor|done].
Qed.

Definition is_name (name : gostring) : Prop := Forall (fun c => 97 <= c <= 122 ∨ c = 95) name.

Lemma scan_name name rest : is_name name → scan_string (name ++ 34 :: rest) = Some (name, rest).
Proof.
  induction 1 as [|c name Hc _ IH]; [done|]. cbn [app scan_string]. rewrite !(proj2 (Z.eqb_neq _ _)) by lia. by rewrite IH.
Qed.

Definition shown (p : gostring * gostring) : gostring := member p.1 p.2.

Lemma scan_members_join ms : ∀ fuel, ms ≠ [] → (length ms <= fuel)%nat →
  Forall (fun p => is_name p.1 ∧ is_value p.2) ms →
  scan_members fuel (Join 44 (shown <$> ms) ++ [125]) = Some ((fun p => (p.1, Some p.2)) <$> ms, true).
Proof.
  induction ms as [|[name v] ms IH]; intros fuel Hne Hf Hms; [done|]. apply Forall_cons in Hms as [[Hn Hv] Hms].
  destruct fuel as [|fuel]; [simpl in Hf; lia|]. cbn [fst snd] in *.
  assert (Htake : ∀ rest, take (length (v ++ rest) - length rest) (v ++ rest) = v).
  { intros rest. rewrite length_app, Nat.add_sub. by rewrite take_app_length. }
  destruct ms as [|p ms].
  - cbn [fmap list_fmap Join]. unfold shown, member, quoted. cbn [fst snd]. change (str ":") with [58].
    rewrite <- !app_assoc. cbn [app scan_members]. rewrite <- !app_assoc. cbn [app]. rewrite scan_name by done. cbn [mbind option_bind].
    rewrite (Hv 125 []) by auto. cbn [mbind option_bind]. by rewrite Htake.
  - change (Join 44 (shown <$> (name, v) :: p :: ms)) with (shown (name, v) ++ 44 :: Join 44 (shown <$> p :: ms)).
    unfold shown at 1, member, quoted. cbn [fst snd]. change (str ":") with [58].
    rewrite <- !app_assoc. cbn [app scan_members]. rewrite <- !app_assoc. cbn [app]. rewrite scan_name by done. cbn [mbind option_bind].
    rewrite Hv by auto. cbn [mbind option_bind]. rewrite Htake.
    rewrite IH; [done|done|simpl in *; lia|done].
Qed.

(** ** The members of claims *)

Definition string_pair (name value : gostring) : list (gostring * gostring) :=
  match value with [] => [] | _ => [(name, quote value)] end.
Definition date_pair (name : gostring) (t : option Z) : list (gostring * gostring) :=
  match t with None => [] | Some t => [(name, FormatUint (Unix t))] end.
Definition array_pair (name : gostring) (l : list gostring) : list (gostring * gostring) :=
  match l with [] => [] | _ => [(name, array_text l)] end.

Definition pairs (c : Claims) : list (gostring * gostring) :=
  string_pair (str "iss") (Issuer c) ++ string_pair (str "sub") (Subject c) ++ array_pair (str "aud") (Audience c) ++
  date_pair (str "exp") (ExpiresAt c) ++ date_pair (str "nbf") (NotBefore c) ++ date_pair (str "iat") (IssuedAt c) ++
  string_pair (str "jti") (ID c) ++ [(str "username", quote (Username c))] ++ date_pair (str "auth_time") (AuthTime c).

Lemma date_member_pair name t l : date_member name t = Ok l → l = shown <$> date_pair name t ∧ Forall (fun p => is_value p.2) (date_pair name t).
Proof.
  destruct t as [t|]; cbn; [|intros; by simplify_eq]. destruct (date_MarshalJSON_spec t) as [[Hr ->]|[_ ->]]; [|done].
  intros [= <-]. split; [done|]. constructor; [|constructor]. apply digits_value_scan. unfold representable, maxNumericDateSec in Hr. lia.
Qed.

Lemma marshalClaims_pairs c text : marshalClaims c = Ok text →
  text = str "{" ++ Join 44 (shown <$> pairs c) ++ str "}" ∧ Forall (fun p => is_name p.1 ∧ is_value p.2) (pairs c).
Proof.
  unfold marshalClaims. intros Hm.
  destruct (date_member (str "exp") (ExpiresAt c)) eqn:E1; [|done]. destruct (date_member (str "nbf") (NotBefore c)) eqn:E2; [|done].
  destruct (date_member (str "iat") (IssuedAt c)) eqn:E3; [|done]. destruct (date_member (str "auth_time") (AuthTime c)) eqn:E4; [|done].
  cbn [result_bind] in Hm. assert (Htext : ∀ a b : gostring, @Ok jerror _ a = Ok b → b = a) by congruence. apply Htext in Hm as ->.
  apply date_member_pair in E1 as [-> V1], E2 as [-> V2], E3 as [-> V3], E4 as [-> V4].
  assert (Hsp : ∀ name v, string_member name v = shown <$> string_pair name v) by (by intros ? []).
  assert (Hap : (match Audience c with [] => [] | aud => [member (str "aud") (array_text aud)] end) = shown <$> array_pair (str "aud") (Audience c))
    by (by destruct (Audience c)).
  split.
  - unfold pairs. rewrite !fmap_app, !Hsp, Hap. done.
  - assert (Hname : ∀ name, forallb (fun c => between 97 c 122 || (c =? 95)) name = true → is_name name).
    { intros name Hf. rewrite forallb_forall in Hf. apply Forall_forall. intros x Hx%list_elem_of_In. specialize (Hf x Hx). unfold between in Hf. lia. }
    assert (Hs : ∀ name v, is_name name → Forall (fun p => is_name p.1 ∧ is_value p.2) (string_pair name v)).
    { intros name [|b v] Hn; [constructor|]. constructor; [|constructor]. split; [done|apply quote_value]. }
    assert (Hd : ∀ name t, is_name name → Forall (fun p => is_value p.2) (date_pair name t) → Forall (fun p => is_name p.1 ∧ is_value p.2) (date_pair name t)).
    { intros name [t|] Hn Hv; [|constructor]. apply Forall_cons in Hv as [Hv _]. by repeat constructor. }
    unfold pairs. rewrite !Forall_app. split_and!; try (apply Hs; by apply Hname); try (apply Hd; [by apply Hname|done]).
    + destruct (Audience c); [constructor|]. constructor; [|constructor]. split; [by apply Hname|apply array_value].
    + constructor; [|constructor]. split; [by apply Hname|apply quote_value].
Qed.

Definition raw (ms : list (gostring * gostring)) : list (gostring * option gostring) := (fun p => (p.1, Some p.2)) <$> ms.

Lemma get_app name l1 l2 : get name (raw (l1 ++ l2)) = match get name (raw l1) with Some v => Some v | None => get name (raw l2) end.
Proof. induction l1 as [|[n v] l1 IH]; [done|]. cbn. by destruct (str_eqb n name). Qed.

Lemma get_string_pair name n v : get name (raw (string_pair n v)) = if str_eqb n name then match v with [] => None | _ => Some (quote v) end else None.
Proof. destruct v; cbn; by destruct (str_eqb n name). Qed.

Lemma get_date_pair name n t : get name (raw (date_pair n t)) = if str_eqb n name then date_raw t else None.
Proof. destruct t; cbn; by destruct (str_eqb n name). Qed.

Lemma get_array_pair name n l : get name (raw (array_pair n l)) = if str_eqb n name then match l with [] => None | _ => Some (array_text l) end else None.
Proof. destruct l; cbn; by destruct (str_eqb n name). Qed.

Lemma unquote_quote s : unquote (quote s) = Some (sanitize s).
Proof. unfold quote, quoted. cbn [unquote]. by rewrite scan_string_escape by apply sanitize_bytes. Qed.

#[export] Instance scanner_laws : JSONLaws.
Proof.
  split.
  - apply quote_is_bytes.
  - intros m Hm. assert (m = 0 ∨ m = 1 ∨ m = 2) as [-> |[-> | ->]] by (unfold hashNew, SigningMethodHS256, SigningMethodHS384, SigningMethodHS512 in Hm; lia);
      vm_compute; reflexivity.
  - intros m Hm. assert (m = 0 ∨ m = 1 ∨ m = 2) as [-> |[-> | ->]] by (unfold hashNew, SigningMethodHS256, SigningMethodHS384, SigningMethodHS512 in Hm; lia);
      vm_compute; reflexivity.
  - intros l. cbn [json_strings scanner]. unfold array_text. change (str "[") with [91]. change (str "]") with [93]. cbn [app unarray].
    change (json_quote <$> l) with (quote <$> l). by rewrite scan_array_text.
  - intros n Hn. cbn [ParseFloat scanner]. unfold maxNumericDateSec in Hn. destruct (FormatUint_spec n) as [Hd Hv]; [lia|].
    by rewrite number_value_spec, Hv.
  - intros c text Hm. apply marshalClaims_pairs in Hm as [-> Hp]. cbn [json_claims scanner].
    change (str "{") with [123]. change (str "}") with [125]. cbn [app scan_object].
    rewrite scan_members_join; [|by unfold pairs; destruct (string_pair (str "iss") (Issuer c)), (string_pair (str "sub") (Subject c)), (array_pair (str "aud") (Audience c)), (date_pair (str "exp") (ExpiresAt c)), (date_pair (str "nbf") (NotBefore c)), (date_pair (str "iat") (IssuedAt c)), (string_pair (str "jti") (ID c))| |done].
    2:{ rewrite length_app. pose proof (Join_length_ge shown (pairs c) ltac:(intros; unfold shown, member, quoted; simpl; lia)). lia. }
    cbn [mbind option_bind]. fold (raw (pairs c)). unfold get_string, pairs.
    assert (Hs : ∀ v, default [] ((match v with [] => None | _ => Some (quote v) end) ≫= unquote) = sanitize v).
    { intros [|b v]; [done|]. cbn [mbind option_bind]. by rewrite unquote_quote. }
    assert (Huser : ∀ name, get name (raw [(str "username", quote (Username c))]) = if str_eqb (str "username") name then Some (quote (Username c)) else None)
      by (intros name; unfold raw; cbn [fmap list_fmap get fst snd]; by destruct (str_eqb (str "username") name)).
    assert (Hnone : ∀ o : option gostring, match o with Some v => Some v | None => None end = o) by (by intros []).
    rewrite !get_app, !Huser, !get_string_pair, !get_array_pair, !get_date_pair.
    repeat match goal with |- context [str_eqb ?a ?b] => let r := eval vm_compute in (str_eqb a b) in change (str_eqb a b) with r end.
    cbv iota. rewrite !Hnone, !Hs. cbn [mbind option_bind]. rewrite unquote_quote. by destruct (Audience c).
Qed.

(** ** A toy message authentication code, and the theorems applied *)

#[export] Instance toy_hmac : HMAC.
Proof.
  refine {| Mac m key input := (fun i => foldl (fun acc b => 31 * acc + b + i) m (key ++ input) mod 256) <$> seqZ 0 8 |}.
  intros m key input. apply Forall_fmap, Forall_true. intros i. by apply Z.mod_pos_bound.
Defined.

Definition valid_credentials (user password : gostring) : result Z bool := Ok (str_eqb password (str "correct horse")).

Definition first_key : gostring := replicate 32 7.
Definition second_key : gostring := replicate 32 9.

Definition issuing_options : list JOption :=
  [WithMaxSessionLifetime (3600 * Second); WithClaimIssuer (str "issuer"); WithClaimAudience [str "api"; str "web"]].
Definition rotated_options : list JOption :=
  [WithPreviousKeys [first_key]; WithClockSkewLeeway Second; WithClaimIssuer (str "issuer"); WithClaimAudience [str "api"]].

(** An instance, and the one that replaces it when the key is rotated. *)
Definition issuing : JWT := match New first_key (Some valid_credentials) issuing_options with Ok c => c | Error _ => defaultJWT end.
Definition rotated : JWT := match New second_key (Some valid_credentials) rotated_options with Ok c => c | Error _ => defaultJWT end.

Definition login_time : Z := 1700000000 * Second + 5.
Definition user : gostring := str "alice".

Definition token : gostring := match IssueToken issuing login_time (str "id1") user with Ok t => t | Error _ => [] end.

Lemma rotated_lenient : lenient issuing rotated.
Proof. split; [by right|]. intros a Ha. exists a. apply elem_of_cons in Ha as [->|[]%not_elem_of_nil]. split; [left|done]. Qed.

Lemma issuing_lenient : lenient issuing issuing.
Proof.
  split; [by right|]. intros a Ha. exists a. split; [done|]. change (a ∈ [str "api"; str "web"]) in Ha.
  rewrite !elem_of_cons in Ha. by destruct Ha as [->|[->|[]%not_elem_of_nil]].
Qed.

Lemma issued_verifies_witness :
  IssueToken issuing login_time (str "id1") user = Ok token ∧
  VerifyToken rotated login_time token = (received (newClaims issuing login_time (str "id1") user None), None).
Proof.
  assert (Ht : IssueToken issuing login_time (str "id1") user = Ok token) by (vm_compute; reflexivity). split; [exact Ht|].
  pose proof (issued_verifies first_key (Some valid_credentials) issuing_options second_key (Some valid_credentials) rotated_options
    issuing rotated login_time (str "id1") user eq_refl eq_refl eq_refl
    (list_elem_of_further _ _ _ (list_elem_of_here _ _)) ltac:(by vm_compute) rotated_lenient) as Hiv.
  cbn zeta in Hiv. rewrite Ht in Hiv. apply Hiv.
Defined.

(** What [verification_sound] says of the token above. *)
Lemma verification_sound_witness :
  parseToken issuing login_time token = (received (newClaims issuing login_time (str "id1") user None), None) ∧
  ∃ h p s, segments token h p s ∧ signed_by issuing h p s.
Proof.
  assert (Hwf : wf issuing) by (by apply (New_jwt_wf first_key (Some valid_credentials) issuing_options)).
  assert (Hp : parseToken issuing login_time token = (received (newClaims issuing login_time (str "id1") user None), None)) by (vm_compute; reflexivity).
  split; [exact Hp|]. destruct (verification_sound issuing login_time token Hwf) as [Hiff _].
  apply Hiff in Hp as (_ & _ & h & p & s & payload & Hseg & _ & Hsig & _). by exists h, p, s.
Defined.

(** The token renewed with the token above when it nears its expiration. *)
Definition renewal_clock (i : nat) : Z := login_time + 280 * Second + Z.of_nat i.
Definition bearer (_ : gostring) : gostring := HeaderAuthBearer ++ token.
Definition renewed : gostring := from_option body [] (RenewHandler issuing renewal_clock (str "id2") bearer).

Lemma sessions_end_witness :
  RenewHandler issuing renewal_clock (str "id2") bearer = Some (respond 200 renewed) ∧
  (∀ now claims, VerifyToken issuing now renewed = (claims, None) → now < login_time + 3600 * Second ∧ Username claims = user) ∧
  (VerifyToken issuing (renewal_clock 4) renewed).2 = None.
Proof.
  assert (Hr : RenewHandler issuing renewal_clock (str "id2") bearer = Some (respond 200 renewed)) by (vm_compute; reflexivity).
  assert (Hmono : ∀ i j, (i <= j)%nat → renewal_clock i <= renewal_clock j) by (unfold renewal_clock; lia).
  assert (Hlogin : session issuing login_time user token).
  { apply (session_login issuing login_time user (str "id1") (str "correct horse")). vm_compute. reflexivity. }
  destruct (sessions_end first_key (Some valid_credentials) issuing_options issuing login_time user eq_refl ltac:(by vm_compute) ltac:(vm_compute; reflexivity))
    as [Hend Hren].
  split; [exact Hr|]. split.
  - intros now claims Hv. destruct (Hend renewed now claims) as (Hnow & _ & Hu & _); [|exact Hv|].
    { apply (session_renewed issuing login_time user token renewal_clock (str "id2") bearer renewed); [exact Hlogin|reflexivity|exact Hmono|exact Hr]. }
    split; [|done]. change (maxSessionLifetime issuing) with (3600 * Second) in Hnow. change (clockSkewLeeway issuing) with 0 in Hnow. lia.
  - destruct (Hren renewal_clock (str "id2") bearer renewed Hmono issuing_lenient Hr) as (claims & exp & _ & _ & _ & Hok). exact Hok.
Defined.

(** A newline in the signature segment does not make a token malformed: the
    base64 decoder skips it. *)
Example newline_in_signature :
  VerifyToken issuing login_time (token ++ [10]) = VerifyToken issuing login_time token ∧
  (VerifyToken issuing login_time (token ++ [10])).2 = None.
Proof. vm_compute. done. Qed.
