(* ===== verification/DNSDial.v ===== *)
(** * [pkg/dnscache]: host names, and dialing their addresses

    dnscache.go below the cache: host names as cache keys, the ordering of the
    addresses of a host for a network, and the loop that dials them. The
    parser and the printer of addresses and the dialer are parameters. *)

From stdpp Require Import base option list.
From Stdlib Require Import String.
From S2P Require Import Prelude GoString GoText.

#[local] Open Scope Z_scope.

(** ** Addresses *)

(** [netip.Addr]: the zero value, 32 bits, or 128 bits and a zone. *)
Inductive Addr : Type :=
| Invalid
| IPv4 (bits : Z)
| IPv6 (bits : Z) (zone : gostring).

#[export] Instance Addr_eq_dec : EqDecision Addr.
Proof. solve_decision. Defined.

Definition IsValid (a : Addr) : bool := match a with Invalid => false | _ => true end.
Definition Is6 (a : Addr) : bool := match a with IPv6 _ _ => true | _ => false end.
Definition Is4In6 (a : Addr) : bool := match a with IPv6 bits _ => bits / 2 ^ 32 =? 65535 | _ => false end.
Definition Unmap (a : Addr) : Addr :=
  match a with IPv6 bits _ => if Is4In6 a then IPv4 (bits mod 2 ^ 32) else a | _ => a end.

(** Packages net and netip: [ParseAddr], [Invalid] where it fails, the text of
    an address, and the host and the port of an authority. *)
Class Net : Type := {
  ParseAddr : gostring → Addr;
  AddrString : Addr → gostring;
  SplitHostPort : gostring → option (gostring * gostring);
  JoinHostPort : gostring → gostring → gostring
}.

Definition isIPv6Addr (a : Addr) : bool := Is6 a && negb (Is4In6 a).

(** ** Host names *)

(** The loop of [asciiLower]; the buffer is made at the first capital. *)
Fixpoint asciiLower_loop (host : gostring) (i : nat) (rest : gostring) (b : option gostring) : option gostring :=
  match rest with
  | [] => b
  | c :: rest =>
      if (c <? 65) || (90 <? c) then asciiLower_loop host (S i) rest b
      else asciiLower_loop host (S i) rest (Some (<[i := c + 32]> (default host b)))
  end.

Definition asciiLower (host : gostring) : gostring := default host (asciiLower_loop host 0 host None).

Definition normalizeHost (host : gostring) : gostring :=
  let n := length host in
  asciiLower (if (1 <? n)%nat && bool_decide (host !! (n - 1)%nat = Some 46) then take (n - 1) host else host).

(** ** Candidates *)

Record dialCandidate : Type := Candidate { raw : gostring; addr : Addr }.

Definition sameDestination (a b : dialCandidate) : bool :=
  if IsValid (addr a) && IsValid (addr b) then bool_decide (addr a = addr b)
  else negb (IsValid (addr a)) && negb (IsValid (addr b)) && str_eqb (raw a) (raw b).

Definition containsCandidate (cands : list dialCandidate) (cand : dialCandidate) : bool :=
  existsb (fun c => sameDestination c cand) cands.

Definition filterByFamily (cands : list dialCandidate) (v6 : bool) : list dialCandidate :=
  filter (fun c => negb (IsValid (addr c)) || Bool.eqb (isIPv6Addr (addr c)) v6) cands.

Definition filterByNetwork (cands : list dialCandidate) (network : gostring) : list dialCandidate :=
  match last network with
  | None => cands
  | Some c => if c =? 52 then filterByFamily cands false else if c =? 54 then filterByFamily cands true else cands
  end.

Definition isMixedFamily (cands : list dialCandidate) (lead : bool) : bool :=
  existsb (fun c => negb (Bool.eqb (isIPv6Addr (addr c)) lead)) cands.

Definition splitByFamily (cands : list dialCandidate) (lead : bool) : list dialCandidate * list dialCandidate :=
  (filter (fun c => Bool.eqb (isIPv6Addr (addr c)) lead) cands, filter (fun c => negb (Bool.eqb (isIPv6Addr (addr c)) lead)) cands).

(** [None] is an index out of range. *)
Definition rotateCandidates (cands : list dialCandidate) (offset : Z) : option (list dialCandidate) :=
  let n := length cands in
  if (n <? 2)%nat then Some cands
  else
    let start := Z.to_nat (offset mod Z.of_nat n) in
    mapM (fun i => cands !! ((start + i) mod n)%nat) (seq 0 n).

Fixpoint interleave (first second : list dialCandidate) : list dialCandidate :=
  match first, second with
  | [], _ => second
  | _, [] => first
  | a :: first, b :: second => a :: b :: interleave first second
  end.

(** ** The cache *)

(** [Cache] without its sfcache: the settings of the dialing and the counter. *)
Record Cache : Type := MkCache { dialTimeout : Z; rotate : bool; dialSeq : Z }.

Definition nextDialOffset (c : Cache) : Z * Cache :=
  let s := wrapU 64 (dialSeq c + 1) in (wrapU 64 (s - 1), MkCache (dialTimeout c) (rotate c) s).

Section Dial.
Context `{Net}.

Definition newCandidates (ips : list gostring) : list dialCandidate :=
  fold_left (fun cands ip =>
    let cand := Candidate ip (Unmap (ParseAddr ip)) in
    if containsCandidate cands cand then cands else cands ++ [cand]) ips [].

Definition orderCandidates (c : Cache) (network : gostring) (ips : list gostring) : option (list dialCandidate * Cache) :=
  let cands := filterByNetwork (newCandidates ips) network in
  if (length cands <? 2)%nat then Some (cands, c)
  else
    c0 ← head cands;
    let lead := isIPv6Addr (addr c0) in
    if negb (isMixedFamily cands lead) then
      if rotate c then let '(offset, c) := nextDialOffset c in cands ← rotateCandidates cands offset; Some (cands, c)
      else Some (cands, c)
    else
      let '(first, second) := splitByFamily cands lead in
      if rotate c then
        let '(offset, c) := nextDialOffset c in
        first ← rotateCandidates first offset; second ← rotateCandidates second offset; Some (interleave first second, c)
      else Some (interleave first second, c).

(** ** Dialing *)

(** Errors of the resolver, of contexts and of the dialer are codes. *)
Inductive dialError : Type :=
| CtxErr (e : Z)
| ErrInvalidIP (raw : gostring)
| DialErr (e : Z).

(** What the surroundings answer: the caller's context before attempt [i],
    and attempt [i] at dialing an address under a bound, if any. *)
Record dialer : Type := {
  ctx_err : nat → option Z;
  dialCtx : nat → option Z → gostring → gostring → result Z Z
}.

Definition attemptContext (c : Cache) : option Z := if dialTimeout c <=? 0 then None else Some (dialTimeout c).

(** The loop of [dialAddrs] from attempt [i]: the connection or the errors,
    and the addresses dialed. *)
Fixpoint dial_loop (c : Cache) (d : dialer) (network port : gostring) (i : nat) (cands : list dialCandidate) (errs : list dialError)
    : result (list dialError) Z * list gostring :=
  match cands with
  | [] => (Error errs, [])
  | cand :: cands =>
      match ctx_err d i with
      | Some e => (Error (errs ++ [CtxErr e]), [])
      | None =>
          if negb (IsValid (addr cand)) then dial_loop c d network port (S i) cands (errs ++ [ErrInvalidIP (raw cand)])
          else
            let address := JoinHostPort (AddrString (addr cand)) port in
            match dialCtx d i (attemptContext c) network address with
            | Ok conn => (Ok conn, [address])
            | Error e =>
                let '(r, dialed) := dial_loop c d network port (S i) cands (errs ++ [DialErr e]) in
                (r, address :: dialed)
            end
      end
  end.

Definition dialAddrs (c : Cache) (d : dialer) (network port : gostring) (cands : list dialCandidate) : result (list dialError) Z * list gostring :=
  dial_loop c d network port 0 cands [].

(** ** Resolution *)

Definition isIPLiteral (host : gostring) : bool := IsValid (ParseAddr host).

(** What a lookup of the cache below answers for a key. *)
Inductive lookupError : Type := LookupErr (e : Z).

Definition lookup (cached : gostring → result lookupError (list gostring)) (host : gostring) : result lookupError (list gostring) :=
  if isIPLiteral host then Ok [host] else cached (normalizeHost host).

(** [LookupHost] answers with a copy. *)
Definition LookupHost (cached : gostring → result lookupError (list gostring)) (host : gostring) : result lookupError (list gostring) :=
  lookup cached host.

Inductive derror : Type :=
| ErrAddress
| ErrResolve (e : lookupError)
| ErrNoAddresses (network : option gostring)
| ErrDial (errs : list dialError).

(** [DialContext]; [None] would be a panic. *)
Definition DialContext (c : Cache) (cached : gostring → result lookupError (list gostring)) (d : dialer) (network address : gostring)
    : option (result derror Z * list gostring * Cache) :=
  match SplitHostPort address with
  | None => Some (Error ErrAddress, [], c)
  | Some (host, port) =>
      match lookup cached host with
      | Error e => Some (Error (ErrResolve e), [], c)
      | Ok ips =>
          if (length ips =? 0)%nat then Some (Error (ErrNoAddresses None), [], c)
          else
            '(cands, c) ← orderCandidates c network ips;
            if (length cands =? 0)%nat then Some (Error (ErrNoAddresses (Some network)), [], c)
            else
              let '(r, dialed) := dialAddrs c d network port cands in
              Some (match r with Ok conn => Ok conn | Error errs => Error (ErrDial errs) end, dialed, c)
      end
  end.
End Dial.

(** ** Facts *)

(** The destination a candidate stands for. *)
Definition dest (c : dialCandidate) : Addr + gostring := if IsValid (addr c) then inl (addr c) else inr (raw c).

Lemma sameDestination_dest a b : sameDestination a b = bool_decide (dest a = dest b).
Proof.
  unfold sameDestination, dest, str_eqb. destruct (IsValid (addr a)), (IsValid (addr b)); cbn; try done.
  - apply bool_decide_ext. split; [by intros ->|congruence].
  - apply bool_decide_ext. split; [by intros ->|congruence].
Qed.

Lemma asciiLower_map host : asciiLower host = lowerASCII <$> host.
Proof.
  unfold asciiLower.
  assert (Hl : ∀ rest pre b, default (pre ++ rest) b = (lowerASCII <$> pre) ++ rest →
    default (pre ++ rest) (asciiLower_loop (pre ++ rest) (length pre) rest b) = lowerASCII <$> (pre ++ rest)).
  { intros rest. induction rest as [|c rest IH]; intros pre b Hb; cbn [asciiLower_loop]; [by rewrite !app_nil_r in *|].
    specialize (IH (pre ++ [c])). rewrite length_app, Nat.add_1_r, <- app_assoc in IH. cbn [app] in IH.
    destruct ((c <? 65) || (90 <? c)) eqn:Hc.
    - assert (Hlc : lowerASCII c = c) by (unfold lowerASCII, between; by replace ((65 <=? c) && (c <=? 90)) with false by lia).
      apply IH. by rewrite Hb, fmap_app, <- app_assoc, <- Hlc at 1.
    - assert (Hlc : lowerASCII c = c + 32) by (unfold lowerASCII, between; by replace ((65 <=? c) && (c <=? 90)) with true by lia).
      apply IH. rewrite Hb, fmap_app, <- app_assoc. replace (length pre) with (length (lowerASCII <$> pre) + 0)%nat by (rewrite length_fmap; lia).
      rewrite insert_app_r. cbn [fmap list_fmap app]. by rewrite Hlc. }
  apply (Hl host [] None). done.
Qed.

(** Capital letters and a trailing dot do not matter. *)
Lemma normalizeHost_lower host : normalizeHost (lowerASCII <$> host) = normalizeHost host.
Proof.
  assert (Hll : ∀ s : gostring, lowerASCII <$> (lowerASCII <$> s) = lowerASCII <$> s).
  { intros s. rewrite <- list_fmap_compose. apply list_fmap_ext. intros _ c _. unfold compose, lowerASCII, between. repeat case_match; lia. }
  unfold normalizeHost. rewrite !asciiLower_map, length_fmap, list_lookup_fmap.
  assert (Hd : bool_decide (lowerASCII <$> host !! (length host - 1)%nat = Some 46) = bool_decide (host !! (length host - 1)%nat = Some 46)).
  { apply bool_decide_ext. destruct (host !! _) as [c|]; cbn; [|done]. unfold lowerASCII, between.
    split; intros [= Hc]; f_equal; repeat case_match; lia. }
  rewrite Hd. destruct (_ && _); rewrite <- ?fmap_take, Hll; done.
Qed.

Lemma normalizeHost_dot host : host ≠ [] → normalizeHost (host ++ [46]) = lowerASCII <$> host.
Proof.
  intros Hne. unfold normalizeHost. rewrite length_app. cbn [length]. rewrite Nat.add_sub, asciiLower_map.
  rewrite list_lookup_middle by done. rewrite bool_decide_eq_true_2 by done. rewrite (proj2 (Nat.ltb_lt 1 _)) by (destruct host; simpl in *; [done|lia]).
  cbn [andb]. by rewrite take_app_length.
Qed.

(** *** Candidates *)

Section Facts.
Context `{Net}.

Definition candidate (ip : gostring) : dialCandidate := Candidate ip (Unmap (ParseAddr ip)).

Lemma containsCandidate_dest cands cand : containsCandidate cands cand = true ↔ dest cand ∈ dest <$> cands.
Proof.
  unfold containsCandidate. rewrite existsb_exists, list_elem_of_fmap. split.
  - intros (c & Hin%list_elem_of_In & Hs). rewrite sameDestination_dest in Hs. apply bool_decide_eq_true in Hs. by exists c.
  - intros (c & Hs & Hin). exists c. rewrite <- list_elem_of_In. split; [done|]. rewrite sameDestination_dest. by apply bool_decide_eq_true.
Qed.

(** The candidates are the resolved addresses in order, the first of each
    destination. *)
Lemma newCandidates_spec ips :
  newCandidates ips `sublist_of` (candidate <$> ips) ∧ NoDup (dest <$> newCandidates ips) ∧
  ∀ ip, ip ∈ ips → dest (candidate ip) ∈ dest <$> newCandidates ips.
Proof.
  unfold newCandidates. rewrite <- fold_left_rev_right. remember (rev ips) as l eqn:Hl.
  assert (Hips : ips = rev l) by (by rewrite Hl, rev_involutive). clear Hl. subst ips. induction l as [|ip l IH]; cbn [foldr rev].
  { split_and!; [done|constructor|by intros ip ?%not_elem_of_nil]. }
  destruct IH as (Hs & Hnd & Hall). fold (candidate ip). rewrite fmap_app. set (cands := foldr _ [] l) in *.
  destruct (containsCandidate cands (candidate ip)) eqn:Hc.
  - split_and!; [by apply sublist_inserts_r|done|]. intros ip' [Hin|Hin]%elem_of_app; [by apply Hall|].
    apply list_elem_of_singleton in Hin as ->. by apply containsCandidate_dest.
  - split_and!.
    + by apply sublist_app.
    + rewrite fmap_app. apply NoDup_app. split_and!; [done| |apply NoDup_singleton].
      intros x Hx ->%list_elem_of_singleton. apply containsCandidate_dest in Hx. congruence.
    + rewrite fmap_app. intros ip' [Hin|Hin]%elem_of_app; apply elem_of_app; [left; by apply Hall|right].
      apply list_elem_of_singleton in Hin as ->. left.
Qed.

(** The addresses a network admits, and those that are no address. *)
Definition admits (network : gostring) (a : Addr) : Prop :=
  IsValid a = false ∨ (last network = Some 52 → isIPv6Addr a = false) ∧ (last network = Some 54 → isIPv6Addr a = true).

#[export] Instance admits_dec network a : Decision (admits network a).
Proof. unfold admits. apply _. Defined.

Lemma filterByNetwork_admits cands network : filterByNetwork cands network = filter (fun c => admits network (addr c)) cands.
Proof.
  assert (Hf : ∀ v6 : bool, filterByFamily cands v6 = filter (fun c => IsValid (addr c) = false ∨ isIPv6Addr (addr c) = v6) cands).
  { intros v6. unfold filterByFamily. apply list_filter_iff. intros c. rewrite Is_true_true, orb_true_iff, negb_true_iff, eqb_true_iff. done. }
  unfold filterByNetwork. destruct (last network) as [c|] eqn:Hl.
  - destruct (Z.eqb_spec c 52) as [->|H4].
    { rewrite Hf. apply list_filter_iff. intros cd. unfold admits. rewrite Hl. naive_solver. }
    destruct (Z.eqb_spec c 54) as [->|H6].
    { rewrite Hf. apply list_filter_iff. intros cd. unfold admits. rewrite Hl. naive_solver. }
    symmetry. apply filter_all. apply Forall_true. intros cd. right. rewrite Hl. split; intros ?; simplify_eq.
  - symmetry. apply filter_all. apply Forall_true. intros cd. right. by rewrite Hl.
Qed.

(** *** Rotation and interleaving *)

Definition rot {A} (k : nat) (l : list A) : list A := drop k l ++ take k l.

Lemma rot_lookup {A} k (l : list A) i : (k < length l)%nat → (i < length l)%nat → rot k l !! i = l !! ((k + i) mod length l)%nat.
Proof.
  intros Hk Hi. unfold rot. destruct (decide (i < length (drop k l))%nat) as [Hlt|Hge].
  - rewrite lookup_app_l, lookup_drop by done. rewrite length_drop in Hlt. by rewrite Nat.mod_small by lia.
  - rewrite lookup_app_r by lia. rewrite length_drop in *. rewrite lookup_take_lt by lia. f_equal.
    apply (Nat.mod_unique _ _ 1); lia.
Qed.

Lemma rotateCandidates_rot cands offset : 0 <= offset →
  rotateCandidates cands offset = Some (rot (Z.to_nat (offset mod Z.of_nat (length cands))) cands).
Proof.
  intros Ho. unfold rotateCandidates. destruct (Nat.ltb_spec (length cands) 2) as [Hl|Hl].
  { destruct cands as [|c [|]]; [unfold rot; by rewrite drop_nil, take_nil| |simpl in Hl; lia]. cbn [length]. change (Z.of_nat 1) with 1. by rewrite Z.mod_1_r. }
  set (k := Z.to_nat _). assert (Hk : (k < length cands)%nat) by (subst k; pose proof (Z.mod_pos_bound offset (Z.of_nat (length cands))); lia).
  apply mapM_Some. apply Forall2_same_length_lookup_2.
  { unfold rot. rewrite length_seq, length_app, length_drop, length_take. lia. }
  intros i j x Hj Hx. apply lookup_seq in Hj as [-> Hi]. cbn in *. by rewrite <- rot_lookup.
Qed.

Lemma rot_perm {A} k (l : list A) : rot k l ≡ₚ l.
Proof. unfold rot. rewrite Permutation_app_comm. by rewrite take_drop. Qed.

Lemma interleave_perm first : ∀ second, interleave first second ≡ₚ first ++ second.
Proof.
  induction first as [|a first IH]; intros [|b second]; cbn; [done..|by rewrite app_nil_r|]. constructor. rewrite IH. by rewrite Permutation_middle.
Qed.

Lemma interleave_nil first : interleave first [] = first.
Proof. by destruct first. Qed.

(** While both families last they alternate. *)
Lemma interleave_alternates first : ∀ second i a b, first !! i = Some a → second !! i = Some b →
  interleave first second !! (2 * i)%nat = Some a ∧ interleave first second !! (2 * i + 1)%nat = Some b.
Proof.
  induction first as [|a0 first IH]; intros [|b0 second] i a b Ha Hb; try done.
  destruct i as [|i]; cbn [interleave]; [done|]. replace (2 * S i)%nat with (S (S (2 * i))) by lia. by apply IH.
Qed.

Lemma filter_partition {A} (P : A → Prop) `{!∀ x, Decision (P x)} (l : list A) : filter P l ++ filter (fun x => ¬ P x) l ≡ₚ l.
Proof.
  induction l as [|x l IH]; [done|]. destruct (decide (P x)).
  - rewrite filter_cons_True, filter_cons_False by auto. cbn. by rewrite IH.
  - rewrite filter_cons_False, filter_cons_True by auto. by rewrite <- Permutation_middle, IH.
Qed.

(** The usable candidates, the family of the first, and the two groups. *)
Definition usable_candidates (network : gostring) (ips : list gostring) : list dialCandidate := filterByNetwork (newCandidates ips) network.
Definition leading (cands : list dialCandidate) : bool := from_option (fun c => isIPv6Addr (addr c)) false (head cands).
Definition family (v6 : bool) (cands : list dialCandidate) : list dialCandidate := filter (fun c => isIPv6Addr (addr c) = v6) cands.
Definition turn (c : Cache) (cands : list dialCandidate) : list dialCandidate :=
  if rotate c then rot (Z.to_nat (dialSeq c mod Z.of_nat (length cands))) cands else cands.
Lemma turn_nil c : turn c [] = [].
Proof. unfold turn, rot. rewrite drop_nil, take_nil. by destruct (rotate c). Qed.

Lemma turn_one c x : turn c [x] = [x].
Proof. unfold turn. cbn [length]. change (Z.of_nat 1) with 1. rewrite Z.mod_1_r. by destruct (rotate c). Qed.

Definition dial_order (c : Cache) (cands : list dialCandidate) : list dialCandidate :=
  interleave (turn c (family (leading cands) cands)) (turn c (family (negb (leading cands)) cands)).
Definition turned (c : Cache) (cands : list dialCandidate) : Cache :=
  if rotate c && (2 <=? length cands)%nat then MkCache (dialTimeout c) (rotate c) (wrapU 64 (dialSeq c + 1)) else c.

Lemma splitByFamily_family cands lead : splitByFamily cands lead = (family lead cands, family (negb lead) cands).
Proof.
  unfold splitByFamily, family. f_equal; apply list_filter_iff; intros c; rewrite Is_true_true.
  - apply eqb_true_iff.
  - rewrite negb_true_iff, eqb_false_iff. by destruct (isIPv6Addr (addr c)), lead.
Qed.

Lemma family_single cands lead : isMixedFamily cands lead = false → family lead cands = cands ∧ family (negb lead) cands = [].
Proof.
  intros Hm. assert (Hall : Forall (fun c => isIPv6Addr (addr c) = lead) cands).
  { apply Forall_forall. intros c Hin%list_elem_of_In. destruct (Bool.eqb (isIPv6Addr (addr c)) lead) eqn:He; [by apply eqb_true_iff|].
    assert (Ht : isMixedFamily cands lead = true); [|congruence]. apply existsb_exists. exists c. by rewrite He. }
  split; [by apply filter_all|]. apply filter_none. eapply Forall_impl; [exact Hall|]. cbn. intros c ->. by destruct lead.
Qed.

Lemma nextDialOffset_eq c : inU 64 (dialSeq c) → nextDialOffset c = (dialSeq c, MkCache (dialTimeout c) (rotate c) (wrapU 64 (dialSeq c + 1))).
Proof.
  intros Hr. unfold nextDialOffset. f_equal. unfold wrapU, inU in *.
  rewrite Zminus_mod_idemp_l. replace (dialSeq c + 1 - 1) with (dialSeq c) by lia. by apply Z.mod_small.
Qed.

Lemma orderCandidates_order c network ips : inU 64 (dialSeq c) →
  let cands := usable_candidates network ips in
  orderCandidates c network ips = Some (dial_order c cands, turned c cands).
Proof.
  intros Hr cands. unfold orderCandidates. fold (usable_candidates network ips). fold cands. clearbody cands. unfold turned, dial_order.
  assert (H0 : 0 <= dialSeq c) by apply Hr.
  destruct (Nat.ltb_spec (length cands) 2) as [Hl|Hl].
  { rewrite (proj2 (Nat.leb_gt _ _)), andb_false_r by lia. do 2 f_equal. destruct cands as [|x [|]]; [|..|simpl in Hl; lia].
    - change (family _ []) with (@nil dialCandidate). by rewrite !turn_nil.
    - assert (Hf : family (leading [x]) [x] = [x]) by (unfold family; by rewrite filter_cons_True).
      assert (Hg : family (negb (leading [x])) [x] = []) by (unfold family; rewrite filter_cons_False; [done|cbn; by destruct (isIPv6Addr (addr x))]).
      by rewrite Hf, Hg, turn_nil, turn_one. }
  rewrite (proj2 (Nat.leb_le _ _)), andb_true_r by lia. unfold leading.
  destruct cands as [|x cands]; [simpl in Hl; lia|]. cbn [head mbind option_bind from_option]. set (lead := isIPv6Addr (addr x)).
  destruct (isMixedFamily (x :: cands) lead) eqn:Hm; cbn [negb].
  - rewrite splitByFamily_family. unfold turn. destruct (rotate c) eqn:Hrot; [|done]. rewrite nextDialOffset_eq by done.
    rewrite !rotateCandidates_rot by done. by rewrite Hrot.
  - destruct (family_single _ _ Hm) as [-> ->]. unfold turn. destruct (rotate c) eqn:Hrot.
    + rewrite nextDialOffset_eq, rotateCandidates_rot by done. cbn [mbind option_bind]. rewrite Hrot. do 2 f_equal.
      unfold rot at 3. by rewrite drop_nil, take_nil, interleave_nil.
    + by rewrite interleave_nil.
Qed.

Lemma turn_perm c cands : turn c cands ≡ₚ cands.
Proof. unfold turn. destruct (rotate c); [apply rot_perm|done]. Qed.

Lemma dial_order_perm c cands : dial_order c cands ≡ₚ cands.
Proof.
  unfold dial_order. rewrite interleave_perm, !turn_perm. unfold family. rewrite <- (filter_partition (fun x => isIPv6Addr (addr x) = leading cands) cands) at 3.
  apply Permutation_app; [done|]. apply Permutation_refl'. apply list_filter_iff. intros x. by destruct (isIPv6Addr (addr x)), (leading cands).
Qed.

(** Over as many consecutive turns as a group has members, each leads once. *)
Lemma turns_fair {A} (l : list A) s : 0 <= s →
  (fun i => head (rot (Z.to_nat ((s + Z.of_nat i) mod Z.of_nat (length l))) l)) <$> seq 0 (length l) ≡ₚ Some <$> l.
Proof.
  intros Hs. set (n := length l). set (k := Z.to_nat (s mod Z.of_nat n)).
  assert (Heq : (fun i => head (rot (Z.to_nat ((s + Z.of_nat i) mod Z.of_nat n)) l)) <$> seq 0 n = Some <$> rot k l).
  { apply list_eq. intros i. rewrite !list_lookup_fmap. destruct (decide (i < n)%nat) as [Hi|Hi].
    - assert (Hn : (0 < n)%nat) by lia. assert (Hk : (k < n)%nat) by (subst k; pose proof (Z.mod_pos_bound s (Z.of_nat n)); lia).
      rewrite lookup_seq_lt by done. cbn [fmap option_fmap option_map]. rewrite Nat.add_0_l.
      set (k' := Z.to_nat ((s + Z.of_nat i) mod Z.of_nat n)).
      assert (Hk' : (k' < n)%nat) by (subst k'; pose proof (Z.mod_pos_bound (s + Z.of_nat i) (Z.of_nat n)); lia).
      assert (Hkk : ((k + i) mod n)%nat = k').
      { subst k k'. apply Nat2Z.inj. rewrite Nat2Z.inj_mod, Nat2Z.inj_add, !Z2Nat.id by (apply Z.mod_pos_bound; lia).
        by rewrite Z.add_mod_idemp_l by lia. }
      rewrite rot_lookup by (subst n; lia). fold n. rewrite Hkk.
      destruct (lookup_lt_is_Some_2 l k' Hk') as [x Hx]. rewrite Hx. cbn. f_equal.
      pose proof (rot_lookup k' l 0 Hk' Hn) as Hr. rewrite Nat.add_0_r, Nat.mod_small in Hr by done. rewrite Hx in Hr.
      by destruct (rot k' l) as [|y ?]; simplify_eq/=.
    - rewrite lookup_seq_ge by lia. rewrite (lookup_ge_None_2 (rot k l)); [done|]. rewrite (Permutation_length (rot_perm k l)). lia. }
  rewrite Heq. by rewrite rot_perm.
Qed.

(** *** Dialing *)

Definition target (port : gostring) (cand : dialCandidate) : gostring := JoinHostPort (AddrString (addr cand)) port.

(** Attempt [i] at a candidate comes to nothing. *)
Definition fails (c : Cache) (d : dialer) (network port : gostring) (i : nat) (cand : dialCandidate) : Prop :=
  IsValid (addr cand) = true → ∃ e, dialCtx d i (attemptContext c) network (target port cand) = Error e.

(** The outcome of the loop over candidates of which the first is attempt [i]. *)
Definition dialed_to (c : Cache) (d : dialer) (network port : gostring) (i : nat) (cands : list dialCandidate) (errs : list dialError)
    (r : result (list dialError) Z) (dialed : list gostring) : Prop :=
  match r with
  | Ok conn => ∃ pre cand post, cands = pre ++ cand :: post ∧ IsValid (addr cand) = true ∧
      (∀ j, (j <= length pre)%nat → ctx_err d (i + j) = None) ∧
      (∀ j x, pre !! j = Some x → fails c d network port (i + j) x) ∧
      dialCtx d (i + length pre) (attemptContext c) network (target port cand) = Ok conn ∧
      dialed = target port <$> filter (fun x => IsValid (addr x) = true) (pre ++ [cand])
  | Error errs' => ∃ pre post more, cands = pre ++ post ∧
      (∀ j, (j < length pre)%nat → ctx_err d (i + j) = None) ∧
      (∀ j x, pre !! j = Some x → fails c d network port (i + j) x) ∧
      dialed = target port <$> filter (fun x => IsValid (addr x) = true) pre ∧ errs' = errs ++ more ∧
      match post with
      | [] => length more = length cands
      | _ => ∃ e, ctx_err d (i + length pre) = Some e ∧ last more = Some (CtxErr e)
      end
  end.

Lemma dial_loop_spec c d network port cands : ∀ i errs,
  let '(r, dialed) := dial_loop c d network port i cands errs in dialed_to c d network port i cands errs r dialed.
Proof.
  induction cands as [|x cands IH]; intros i errs; cbn [dial_loop].
  { exists [], [], []. split_and!; try done; [intros; simpl in *; lia|by rewrite app_nil_r]. }
  destruct (ctx_err d i) as [e|] eqn:Hctx.
  { exists [], (x :: cands), [CtxErr e]. split_and!; try done; [intros; simpl in *; lia|]. exists e. by rewrite Nat.add_0_r. }
  (* A step that fails is put before what the rest of the loop does. *)
  assert (Hcons : ∀ err r dialed, fails c d network port i x →
    dialed_to c d network port (S i) cands (errs ++ [err]) r dialed →
    dialed_to c d network port i (x :: cands) errs r (if IsValid (addr x) then target port x :: dialed else dialed)).
  { intros err r dialed Hf Hd.
    assert (Hdial : ∀ l : list dialCandidate, (if IsValid (addr x) then target port x :: (target port <$> filter (fun x => IsValid (addr x) = true) l)
      else target port <$> filter (fun x => IsValid (addr x) = true) l) = target port <$> filter (fun x => IsValid (addr x) = true) (x :: l)).
    { intros l. destruct (IsValid (addr x)) eqn:Hv; [by rewrite filter_cons_True|by rewrite filter_cons_False by congruence]. }
    assert (Hpre : ∀ (pre : list dialCandidate) j, (∀ j, (j < length pre)%nat → ctx_err d (S i + j) = None) → (j < length (x :: pre))%nat → ctx_err d (i + j) = None).
    { intros pre [|j] Hj Hl; [by rewrite Nat.add_0_r|]. rewrite <- Nat.add_succ_comm. apply Hj. simpl in Hl. lia. }
    assert (Hfail : ∀ (pre : list dialCandidate) j y, (∀ j y, pre !! j = Some y → fails c d network port (S i + j) y) → (x :: pre) !! j = Some y → fails c d network port (i + j) y).
    { intros pre [|j] y Hj Hy; cbn in Hy; [simplify_eq; by rewrite Nat.add_0_r|]. rewrite <- Nat.add_succ_comm. by apply Hj. }
    destruct r as [conn|errs'].
    - destruct Hd as (pre & cand & post & -> & Hv & Hc & Hfs & Hdc & ->). exists (x :: pre), cand, post. split_and!; try done.
      + intros j Hj. destruct j as [|j]; [by rewrite Nat.add_0_r|]. rewrite <- Nat.add_succ_comm. apply Hc. simpl in Hj. lia.
      + intros j y Hy. by apply (Hfail pre).
      + cbn [length]. by rewrite <- Nat.add_succ_comm.
    - destruct Hd as (pre & post & more & -> & Hc & Hfs & -> & -> & Hp). exists (x :: pre), post, (err :: more). split_and!; try done.
      + intros j Hj. by apply (Hpre pre).
      + intros j y Hy. by apply (Hfail pre).
      + by rewrite <- app_assoc.
      + destruct post; [cbn [length app]; by rewrite Hp|]. destruct Hp as (e & He & Hm). exists e. cbn [length]. rewrite <- Nat.add_succ_comm.
        split; [done|]. by rewrite last_cons, Hm. }
  destruct (IsValid (addr x)) eqn:Hv; cbn [negb].
  - fold (target port x). destruct (dialCtx d i (attemptContext c) network (target port x)) as [conn|e] eqn:Hd.
    + exists [], x, cands. split_and!; try done; [intros j Hj; simpl in Hj; by replace (i + j)%nat with i by lia|by rewrite Nat.add_0_r|].
      cbn [app]. by rewrite filter_cons_True.
    + specialize (IH (S i) (errs ++ [DialErr e])). destruct (dial_loop c d network port (S i) cands (errs ++ [DialErr e])) as [r dialed].
      eapply Hcons; [|exact IH]. intros _. by exists e.
  - specialize (IH (S i) (errs ++ [ErrInvalidIP (raw x)])). destruct (dial_loop c d network port (S i) cands (errs ++ [ErrInvalidIP (raw x)])) as [r dialed].
    eapply Hcons; [|exact IH]. unfold fails. by rewrite Hv.
Qed.
End Facts.

(** ** What dialing does *)

(** The order in which the addresses [ips] are tried: those the network
    admits, one per destination, the two families alternating while both
    last, that of the resolver's first usable address in front, each in the
    resolver's order or, with rotation, turned so that over as many dials as
    a family has members each of them leads it once. *)
Record tried `{Net} (c : Cache) (network : gostring) (ips : list gostring) (cands : list dialCandidate) : Prop := {
  tried_once : NoDup (dest <$> cands);
  tried_all x : x ∈ dest <$> cands ↔ ∃ ip, ip ∈ ips ∧ admits network (addr (candidate ip)) ∧ x = dest (candidate ip);
  tried_resolved x : x ∈ cands → ∃ ip, ip ∈ ips ∧ x = candidate ip;
  tried_order v6 : family v6 cands = turn c (family v6 (usable_candidates network ips));
  tried_alternating i a b :
    let lead := leading (usable_candidates network ips) in
    family lead cands !! i = Some a → family (negb lead) cands !! i = Some b →
    cands !! (2 * i)%nat = Some a ∧ cands !! (2 * i + 1)%nat = Some b;
  tried_fairly v6 : rotate c = true →
    let group := family v6 (usable_candidates network ips) in
    (fun i => head (turn (MkCache (dialTimeout c) true (dialSeq c + Z.of_nat i)) group)) <$> seq 0 (length group) ≡ₚ Some <$> group
}.

Section Tried.
Context `{Net}.

Lemma sublist_fmap {A B} (f : A → B) l k : l `sublist_of` k → f <$> l `sublist_of` f <$> k.
Proof. by induction 1; cbn; constructor. Qed.

Lemma admits_dest network a b : dest a = dest b → admits network (addr a) → admits network (addr b).
Proof.
  unfold dest, admits. destruct (IsValid (addr a)) eqn:Ha, (IsValid (addr b)) eqn:Hb; intros Hd; simplify_eq; [by rewrite Hd|by auto].
Qed.

Lemma usable_spec network ips :
  let usable := usable_candidates network ips in
  NoDup (dest <$> usable) ∧ (∀ x, x ∈ usable → ∃ ip, ip ∈ ips ∧ x = candidate ip) ∧
  ∀ x, x ∈ dest <$> usable ↔ ∃ ip, ip ∈ ips ∧ admits network (addr (candidate ip)) ∧ x = dest (candidate ip).
Proof.
  intros usable. destruct (newCandidates_spec ips) as (Hsub & Hnd & Hall).
  assert (Hin : ∀ x, x ∈ newCandidates ips → ∃ ip, ip ∈ ips ∧ x = candidate ip).
  { intros x Hx. apply (sublist_subseteq _ _ Hsub), list_elem_of_fmap in Hx as (ip & -> & Hx). by exists ip. }
  subst usable. unfold usable_candidates. rewrite filterByNetwork_admits. split_and!.
  - eapply sublist_NoDup; [exact Hnd|]. apply sublist_fmap, sublist_filter.
  - intros x [_ Hx]%list_elem_of_filter. by apply Hin.
  - intros x. rewrite list_elem_of_fmap. split.
    + intros (y & -> & [Ha Hy]%list_elem_of_filter). destruct (Hin y Hy) as (ip & Hip & ->). by exists ip.
    + intros (ip & Hip & Ha & ->). specialize (Hall ip Hip). apply list_elem_of_fmap in Hall as (y & Hd & Hy).
      exists y. split; [done|]. apply list_elem_of_filter. split; [|done]. by eapply admits_dest.
Qed.

Lemma family_turn v6 w6 c cands : family v6 (turn c (family w6 cands)) = if Bool.eqb v6 w6 then turn c (family w6 cands) else [].
Proof.
  assert (Hall : Forall (fun x => isIPv6Addr (addr x) = w6) (turn c (family w6 cands))).
  { rewrite turn_perm. apply Forall_forall. intros x [Hx _]%list_elem_of_filter. done. }
  unfold family at 1. destruct (Bool.eqb v6 w6) eqn:He.
  - apply eqb_true_iff in He as ->. by apply filter_all.
  - apply eqb_false_iff in He. apply filter_none. eapply Forall_impl; [exact Hall|]. cbn. congruence.
Qed.

Lemma family_interleave v6 first : ∀ second, family v6 first = [] ∨ family v6 second = [] →
  family v6 (interleave first second) = family v6 first ++ family v6 second.
Proof.
  unfold family. induction first as [|a first IH]; intros [|b second] Hf; cbn [interleave]; [done|done|by rewrite filter_nil, app_nil_r|].
  rewrite !filter_cons in *. destruct (decide (isIPv6Addr (addr a) = v6)), (decide (isIPv6Addr (addr b) = v6)).
  - by destruct Hf.
  - destruct Hf as [|Hf]; [done|]. cbn [app]. f_equal. apply IH. by right.
  - destruct Hf as [Hf|]; [|done]. rewrite Hf. cbn [app]. f_equal. rewrite IH by (by left). by rewrite Hf.
  - apply IH. by destruct Hf; [left|right].
Qed.

Lemma dial_order_family c cands v6 : family v6 (dial_order c cands) = turn c (family v6 cands).
Proof.
  unfold dial_order. rewrite family_interleave by (rewrite !family_turn; destruct v6, (leading cands); cbn; auto).
  rewrite !family_turn. destruct v6, (leading cands); cbn; by rewrite ?app_nil_r.
Qed.

Lemma dial_order_tried c network ips : inU 64 (dialSeq c) → tried c network ips (dial_order c (usable_candidates network ips)).
Proof.
  intros Hr. destruct (usable_spec network ips) as (Hnd & Hin & Hall). split.
  - by rewrite dial_order_perm.
  - intros x. by rewrite dial_order_perm.
  - intros x. rewrite dial_order_perm. apply Hin.
  - apply dial_order_family.
  - intros i a b lead. rewrite !dial_order_family. apply interleave_alternates.
  - intros v6 Hrot group. unfold turn. cbn [rotate dialSeq]. apply turns_fair, Hr.
Qed.

(** C20. [DialContext] once the name is resolved. It never panics, and ends with
    the connection to the first candidate that answers, in the order above,
    every one before it being invalid or failing; or without any address for
    the network; or with one error per candidate, unless the caller's context
    ended first, whose error is then the last. Each destination is dialed at
    most once, under the configured bound, and never once the context has
    ended. *)
Theorem DialContext_correct c cached d network address host port ips
    (Hsplit : SplitHostPort address = Some (host, port)) (Hlookup : lookup cached host = Ok ips) (Hseq : inU 64 (dialSeq c)) :
  let cands := dial_order c (usable_candidates network ips) in
  tried c network ips cands ∧
  ∃ r dialed, DialContext c cached d network address = Some (r, dialed, turned c (usable_candidates network ips)) ∧
    match r with
    | Ok conn => dialed_to c d network port 0 cands [] (Ok conn) dialed
    | Error (ErrDial errs) => cands ≠ [] ∧ errs ≠ [] ∧ dialed_to c d network port 0 cands [] (Error errs) dialed
    | Error (ErrNoAddresses n) => dialed = [] ∧ cands = [] ∧ n = (match ips with [] => None | _ => Some network end)
    | Error _ => False
    end.
Proof.
  intros cands. split; [by apply dial_order_tried|]. unfold DialContext. rewrite Hsplit, Hlookup.
  destruct (Nat.eqb_spec (length ips) 0) as [H0|H0].
  { destruct ips; [|done]. assert (Hu : usable_candidates network [] = []) by (unfold usable_candidates; by rewrite filterByNetwork_admits).
    exists (Error (ErrNoAddresses None)), []. subst cands. rewrite Hu. unfold turned, dial_order. cbn [length Nat.leb]. rewrite andb_false_r.
    change (family _ []) with (@nil dialCandidate). by rewrite turn_nil. }
  rewrite orderCandidates_order by done. cbn [mbind option_bind]. fold cands.
  assert (Hd : dialTimeout (turned c (usable_candidates network ips)) = dialTimeout c) by (unfold turned; by case_match).
  destruct (Nat.eqb_spec (length cands) 0) as [Hc|Hc].
  { eexists _, _. split; [done|]. destruct cands; [|done]. by destruct ips. }
  pose proof (dial_loop_spec (turned c (usable_candidates network ips)) d network port cands 0 []) as Hs. unfold dialAddrs.
  destruct (dial_loop (turned c (usable_candidates network ips)) d network port 0 cands []) as [r dialed].
  assert (Hs' : dialed_to c d network port 0 cands [] r dialed).
  { revert Hs. unfold dialed_to, fails, attemptContext. by rewrite Hd. }
  clear Hs. eexists _, _. split; [done|]. destruct r as [conn|errs]; [done|]. split; [by intros ->|]. split; [|done].
  destruct Hs' as (pre & post & more & Hpp & _ & _ & _ & -> & Hm). intros Hnil. cbn in Hnil. subst more.
  destruct post; [by rewrite Hpp in *|]. by destruct Hm as (e & _ & ?).
Qed.
End Tried.

(** ** A host with both families, dialed *)

(** Addresses are spelled in a toy notation: [4] or [6] and digits. *)
Definition toy_digits (s : gostring) : Z := foldl (fun n c => 10 * n + (c - 48)) 0 s.

#[export] Instance toy_net : Net := {|
  ParseAddr s := match s with 52 :: s => IPv4 (toy_digits s) | 54 :: s => IPv6 (2 ^ 100 + toy_digits s) [] | _ => Invalid end;
  AddrString a := match a with IPv4 n => 52 :: FormatUint n | IPv6 n _ => 54 :: FormatUint (n - 2 ^ 100) | Invalid => [] end;
  SplitHostPort s := Cut 58 s;
  JoinHostPort h p := h ++ [58] ++ p
|}.

(** A dialer that reaches one address. *)
Definition reaching (address : gostring) : dialer := {|
  ctx_err _ := None;
  dialCtx _ _ _ a := if str_eqb a address then Ok 7 else Error 1
|}.

Definition toy_cache : Cache := MkCache 0 true 1.
Definition toy_ips : list gostring := [str "61"; str "41"; str "062"; str "bad"; str "62"; str "42"].

Lemma DialContext_correct_witness :
  tried toy_cache (str "tcp") toy_ips (dial_order toy_cache (usable_candidates (str "tcp") toy_ips)) ∧
  DialContext toy_cache (fun _ => Ok toy_ips) (reaching (str "42:80")) (str "tcp") (str "host:80") =
    Some (Ok 7, [str "62:80"; str "61:80"; str "42:80"], MkCache 0 true 2).
Proof.
  destruct (DialContext_correct toy_cache (fun _ => Ok toy_ips) (reaching (str "42:80")) (str "tcp") (str "host:80") (str "host") (str "80") toy_ips
    ltac:(by vm_compute) ltac:(by vm_compute) ltac:(by vm_compute)) as [Ht (r & dialed & Hd & _)].
  split; [exact Ht|]. rewrite Hd. symmetry. etrans; [|exact Hd]. vm_compute. reflexivity.
Defined.
