(* ===== verification/DNSCache.v ===== *)
(** * [pkg/dnscache]: resolution through the single-flight cache

    The options and the operations of dnscache.go as those of the cache of
    SFLookup they become, in the worlds of concurrent callers it defines; the
    resolver is any relation from names to answers. *)

From stdpp Require Import gmap list relations functions.
From Stdlib Require Import String.
From S2P Require Import Prelude GoString GoText SFQueue SFEvict SFCache SFLookup SFSource DNSDial.

#[local] Open Scope Z_scope.

Record config : Type := MkConfig { c_dialTimeout : Z; c_maxStale : Z; c_maxStaleOnFailure : Z; c_rotate : bool }.

Definition DOption : Type := config → config.
Definition WithDialTimeout (timeout : Z) : DOption := fun cfg => MkConfig timeout (c_maxStale cfg) (c_maxStaleOnFailure cfg) (c_rotate cfg).
Definition WithAddressRotation : DOption := fun cfg => MkConfig (c_dialTimeout cfg) (c_maxStale cfg) (c_maxStaleOnFailure cfg) true.
Definition WithStaleIfError (maxStale : Z) : DOption := fun cfg => MkConfig (c_dialTimeout cfg) maxStale (c_maxStaleOnFailure cfg) (c_rotate cfg).
Definition WithStaleOnFailure (maxStaleOnFailure : Z) : DOption := fun cfg => MkConfig (c_dialTimeout cfg) (c_maxStale cfg) maxStaleOnFailure (c_rotate cfg).

(** [New]: the configuration of the cache below, and the rest. *)
Definition New (sz ttl : Z) (opts : list DOption) : SFCache.Config * Cache :=
  let cfg := fold_left (fun cfg opt => opt cfg) opts (MkConfig 0 0 0 false) in
  (SFCache.MkConfig sz ttl (c_maxStale cfg) (c_maxStaleOnFailure cfg), MkCache (c_dialTimeout cfg) (c_rotate cfg) 0).

Section Resolution.
Context `{Net} {CE : Type} (errorsIs : lookupError → CE → bool) (clock : nat → Z).
(** What the resolver may answer for a name. *)
Context (resolves : gostring → result Z (list gostring) → Prop).

Abbreviation world := (@SFLookup.world gostring (list gostring) lookupError _ _ CE).

(** The lookup function given to the cache: an error comes without
    addresses. *)
Definition lookupFn (host : gostring) (addrs : list gostring) (err : option lookupError) : Prop :=
  match err with
  | None => resolves host (Ok addrs)
  | Some (LookupErr e) => addrs = [] ∧ resolves host (Error e)
  end.

Abbreviation step := (SFLookup.step (fun _ => true) errorsIs lookupFn clock).

(** A call of [LookupHost] or [DialContext] that needs the cache, of [Remove],
    [Reset] or [PurgeExpired], or a step of the cache itself, which calls
    nothing. *)
Inductive dns_step : world → world → Prop :=
| dns_LookupHost w t host :
    isIPLiteral host = false → w_pc w t = Idle → dns_step w (goto w t (AtLookup (normalizeHost host)) (w_cache w))
| dns_Remove w t host : w_pc w t = Idle → dns_step w (goto w t (AtRemove (normalizeHost host)) (w_cache w))
| dns_Reset w t : w_pc w t = Idle → dns_step w (goto w t AtReset (w_cache w))
| dns_PurgeExpired w t : w_pc w t = Idle → dns_step w (goto w t AtPurge (w_cache w))
| dns_cache w w' : step w w' → (∀ t, w_pc w t = Idle → w_pc w' t = Idle) → dns_step w w'.

Definition dns_reachable (sz ttl : Z) (opts : list DOption) (w : world) : Prop :=
  ∃ ctxs, rtc dns_step (initial (New sz ttl opts).1 None ctxs) w.

(** ** Facts *)

(** The operations are those of the cache. *)
Lemma dns_step_step w w' : dns_step w w' → step w w'.
Proof.
  destruct 1; [..|done]; (apply step_call; [|done]).
  - left. eexists. by left.
  - left. eexists. by right.
  - right. by left.
  - right. by right.
Qed.

Lemma dns_reachable_reachable sz ttl opts w : dns_reachable sz ttl opts w →
  reachable (fun _ => true) errorsIs lookupFn clock (New sz ttl opts).1 None w.
Proof. intros [ctxs Hr]. exists ctxs. eapply rtc_subrel; [|exact Hr]. apply dns_step_step. Qed.

(** The key a step leaves a thread asking for is the one it was asking for. *)
Lemma step_asks w w' t k : (∀ i, 0 <= clock i) → world_inv w → step w w' → (∀ t, w_pc w t = Idle → w_pc w' t = Idle) →
  asks (w_pc w' t) = Some k → asks (w_pc w t) = Some k.
Proof.
  intros Hclk Hw Hs Hidle Ha. pose proof (wi_cache _ Hw) as Hi.
  assert (Hmove : ∀ t0 p, asks p = None ∨ asks p = asks (w_pc w t0) →
    asks ((<[t0 := p]> (w_pc w) : nat → pc) t) = Some k → asks (w_pc w t) = Some k).
  { intros t0 p Hp. rewrite pc_lookup. case_decide; [|done]. subst. destruct Hp as [-> | ->]; done. }
  destruct Hs as
    [w t0 p Hp Ht|w t0 e Ht|w t0 ce Ht|w t0 k0 Ht _|w t0 k0 val err c Ht _ Hf|w t0 k0 c Ht _ Hf
    |w t0 k0 wt Ht|w t0 k0 wt ce p c Ht Hit|w t0 k0 fl ce Ht _|w t0 k0 fl Ht _
    |w t0 k0 fl st val d Ht Hl _|w t0 k0 fl st val err Ht Hl|w t0 k0 fl st Ht
    |w t0 k0 fl val err st ci d r c Ht Hpub|w t0 k0 fl c Ht Hab|w t0 fl fls e Ht|w t0 e Ht
    |w t0 k0 r c Ht Hr|w t0 m c Ht Hr|w t0 n c Ht Hr]; unfold goto in *; cbn [w_pc] in *;
    try (eapply Hmove; [|exact Ha]; rewrite ?Ht; cbn; auto; fail).
  - specialize (Hidle t0 Ht). rewrite pc_lookup, decide_True in Hidle by done. subst p. by destruct Hp as [[? [? | ?]]|[? | ?]].
  - done.
  - eapply Hmove; [|exact Ha]. rewrite Ht.
    destruct (lookupIteration_spec clock (w_cache w) k0 wt ce (w_next w) Hclk Hi) as (p' & c' & Hlk & Hit').
    rewrite Hit in Hlk. simplify_eq. destruct Hit'; cbn; auto.
Qed.

(** Every key asked for is a normalised name that is not a literal. *)
Lemma dns_reachable_keys sz ttl opts w : (∀ i, 0 <= clock i) → dns_reachable sz ttl opts w →
  ∀ t k, asks (w_pc w t) = Some k → ∃ host, isIPLiteral host = false ∧ k = normalizeHost host.
Proof.
  intros Hclk [ctxs Hr]. remember (initial _ _ _) as w0 eqn:H0.
  assert (Hi : world_inv w0) by (subst; apply initial_inv).
  assert (Hk : ∀ t k, asks (w_pc w0 t) = Some k → ∃ host, isIPLiteral host = false ∧ k = normalizeHost host) by (by subst).
  clear H0. induction Hr as [|w1 w2 w3 Hs _ IH]; [done|]. apply IH; [eapply step_inv; [done|done|by apply dns_step_step]|].
  intros t k Ha. destruct Hs as [w t0 host Hl Ht|w t0 host Ht|w t0 Ht|w t0 Ht|w w' Hs Hidle].
  1-4: unfold goto in Ha; cbn [w_pc] in Ha; rewrite pc_lookup in Ha; case_decide; [|by eapply Hk]; simplify_eq/=.
  - by exists host.
  - eapply Hk. by eapply step_asks.
Qed.

Lemma normalizeHost_fold a b : lowerASCII <$> a = lowerASCII <$> b → normalizeHost a = normalizeHost b.
Proof. intros Hab. rewrite <- (normalizeHost_lower a), <- (normalizeHost_lower b). by rewrite Hab. Qed.

Lemma normalizeHost_plain host : last host ≠ Some 46 → normalizeHost host = lowerASCII <$> host.
Proof.
  intros Hl. unfold normalizeHost. rewrite asciiLower_map. rewrite bool_decide_eq_false_2; [by rewrite andb_false_r|].
  rewrite last_lookup in Hl. by rewrite Nat.sub_1_r.
Qed.

(** C23. Resolution is shared. Names that differ in the case of ASCII letters or in
    a trailing dot have one key; the resolver is only asked for normalised
    names that are not IP literals, and by two callers at once for one key
    only if [Remove] or [Reset] invalidated one of the two resolutions; and
    whatever a caller gets for a name, cached or stale, the resolver answered
    for its normal form. *)
Theorem resolution_shared sz ttl opts w (Hclk : ∀ i, 0 <= clock i) (Hr : dns_reachable sz ttl opts w) :
  (∀ a b, lowerASCII <$> a = lowerASCII <$> b → normalizeHost a = normalizeHost b) ∧
  (∀ host, host ≠ [] → last host ≠ Some 46 → normalizeHost (host ++ [46]) = normalizeHost host) ∧
  (∀ t k fl st, w_pc w t = AtFetch k fl st → ∃ host, isIPLiteral host = false ∧ k = normalizeHost host) ∧
  (∀ t t' k fl fl' st st', w_pc w t = AtFetch k fl st → w_pc w t' = AtFetch k fl' st' → t ≠ t' →
    fl ∈ w_invalid w ∨ fl' ∈ w_invalid w) ∧
  ∀ w' t host addrs err, dns_step w w' → asks (w_pc w t) = Some (normalizeHost host) → ends (w_pc w' t) = Some (Returned addrs err) →
    match err with
    | None => resolves (normalizeHost host) (Ok addrs)
    | Some (LookupErr e) => resolves (normalizeHost host) (Error e)
    end.
Proof.
  pose proof (dns_reachable_reachable _ _ _ _ Hr) as Hreach. pose proof (reachable_inv _ _ _ _ _ _ _ Hclk Hreach) as Hw. split_and!.
  - apply normalizeHost_fold.
  - intros host Hne Hl. by rewrite normalizeHost_dot, normalizeHost_plain.
  - intros t k fl st Ht. apply (dns_reachable_keys _ _ _ _ Hclk Hr t). by rewrite Ht.
  - intros t t' k fl fl' st st' Ht Ht' Hne.
    destruct (wi_producing _ Hw t k fl) as [_ [Hf|?]]; [by rewrite Ht| |by left].
    destruct (wi_producing _ Hw t' k fl') as [_ [Hf'|?]]; [by rewrite Ht'| |by right].
    exfalso. apply Hne. apply (wi_unique _ Hw t t' k k fl); [by rewrite Ht|rewrite Ht'; simpl; congruence].
  - intros w' t host addrs err Hs Ha He.
    pose proof (answers_are_sourced _ _ _ _ _ _ _ _ _ _ _ _ Hclk Hreach (dns_step_step _ _ Hs) Ha He) as Hl.
    destruct err as [[e]|]; [by destruct Hl|done].
Qed.
End Resolution.

(** ** A resolution *)

Definition toy_name : gostring := str "example.com".
Definition toy_resolves (name : gostring) (r : result Z (list gostring)) : Prop := name = toy_name ∧ r = Ok [str "4192"].
Definition toy_clock (i : nat) : Z := Z.of_nat i.
Definition no_abort (_ : lookupError) (_ : unit) : bool := false.

Abbreviation toy_reachable := (dns_reachable no_abort toy_clock toy_resolves 4 10 []).
Abbreviation toy_step := (dns_step no_abort toy_clock toy_resolves).

Lemma toy_reachable_step w w' : toy_reachable w → toy_step w w' → toy_reachable w'.
Proof. intros [ctxs Hr] Hs. exists ctxs. by eapply rtc_r. Qed.

(** A step of the cache taken by thread 0 alone. *)
Lemma toy_cache_step (w w' : @SFLookup.world gostring (list gostring) lookupError _ _ unit) p : toy_reachable w →
  SFLookup.step (fun _ => true) no_abort (lookupFn toy_resolves) toy_clock w w' →
  w_pc w' = <[0%nat := p]> (w_pc w) → w_pc w 0%nat ≠ Idle → toy_reachable w' ∧ toy_step w w'.
Proof.
  intros Hr Hs Hp Hne. assert (Hd : toy_step w w').
  { apply dns_cache; [done|]. intros t Ht. rewrite Hp, pc_lookup. case_decide; [by subst|done]. }
  split; [by eapply toy_reachable_step|done].
Qed.

Definition toy_new : cache gostring (list gostring) lookupError := SFCache.New (New 4 10 []).1 None.

#[local] Ltac thread_at := cbn [w_pc goto]; rewrite pc_lookup, decide_True by done; reflexivity.
#[local] Ltac thread_off := cbn [w_pc goto]; rewrite pc_lookup, decide_True by done; discriminate.

Lemma toy_publishing : ∃ w, toy_reachable w ∧
  w_pc w 0%nat = AtPublish toy_name 1%positive [str "4192"] None staleNone false 10 ∧ w_cache w = set_flights {[toy_name := 1%positive]} toy_new.
Proof.
  assert (Hr : toy_reachable (initial (New 4 10 []).1 None (fun _ => None))) by (exists (fun _ => None); apply rtc_refl).
  eapply toy_reachable_step in Hr; [|apply (dns_LookupHost _ _ _ _ 0%nat (str "Example.COM.")); [by vm_compute|done]].
  eapply toy_cache_step in Hr as [Hr _]; [|eapply (step_miss _ _ _ _ _ 0%nat toy_name); [thread_at|done|reflexivity]|reflexivity|thread_off].
  eapply toy_cache_step in Hr as [Hr _]; [|eapply (step_read_ctx _ _ _ _ _ 0%nat toy_name false); thread_at|reflexivity|thread_off].
  eapply toy_cache_step in Hr as [Hr _]; [|eapply (step_iteration _ _ _ _ _ 0%nat toy_name false None); [thread_at|reflexivity]|reflexivity|thread_off].
  eapply toy_cache_step in Hr as [Hr _]; [|eapply (step_fetched_value _ _ _ _ _ 0%nat toy_name 1%positive staleNone [str "4192"] 10); [thread_at|done|reflexivity]|reflexivity|thread_off].
  eexists. split; [exact Hr|]. split; [thread_at|reflexivity].
Qed.

Lemma resolution_shared_witness : ∃ w w', toy_reachable w ∧ toy_step w w' ∧
  ends (w_pc w' 0%nat) = Some (Returned [str "4192"] None) ∧ toy_resolves (normalizeHost (str "EXAMPLE.com")) (Ok [str "4192"]).
Proof.
  destruct toy_publishing as (w & Hr & Hp & Hc).
  assert (Hpub : ∃ c, publish toy_clock toy_name 1%positive [str "4192"] (None : option lookupError) staleNone false 10 (w_cache w) = Some (([str "4192"], None), c)).
  { rewrite Hc. eexists. vm_compute. reflexivity. }
  destruct Hpub as [c Hpub].
  destruct (toy_cache_step w (goto w 0%nat (AtFinish [1%positive] (Some (Returned [str "4192"] None))) c) (AtFinish [1%positive] (Some (Returned [str "4192"] None))) Hr) as [_ Hs];
    [by apply (step_publish _ _ _ _ w 0%nat toy_name 1%positive [str "4192"] None staleNone false 10 ([str "4192"], None) c Hp Hpub)|done|by rewrite Hp|].
  exists w, (goto w 0%nat (AtFinish [1%positive] (Some (Returned [str "4192"] None))) c).
  assert (Hends : ends (w_pc (goto w 0%nat (AtFinish [1%positive] (Some (Returned [str "4192"] None))) c) 0%nat) = Some (Returned (V := list gostring) (E := lookupError) (CE := unit) [str "4192"] None)).
  { thread_at. }
  destruct (resolution_shared no_abort toy_clock toy_resolves 4 10 [] w ltac:(unfold toy_clock; lia) Hr) as (_ & _ & _ & _ & Hans).
  split; [exact Hr|]. split; [exact Hs|]. split; [exact Hends|].
  refine (Hans _ 0%nat (str "EXAMPLE.com") [str "4192"] None Hs _ Hends). rewrite Hp. by vm_compute.
Defined.
