(* ===== verification/SqlUtil.v ===== *)
(** * [pkg/sqlutil]: quoting and IN clauses

    sqlutil.go, options.go and sqlinclause.go. What they write is read back
    by the lexical rules MySQL documents for its default mode: a reader of
    string literals, of quoted identifiers and of the clauses. *)

From stdpp Require Import base option list.
From Stdlib Require Import String.
From S2P Require Import Prelude GoString GoText.

#[local] Open Scope Z_scope.

(** ** Quoting *)

(** [defaultQuoteID]; [ReplaceAll] doubles the backquotes. *)
Definition double_backquotes (s : gostring) : gostring := s ≫= (fun c => if c =? 96 then [96; 96] else [c]).

Definition defaultQuoteID (s : gostring) : gostring :=
  match s with
  | [] => s
  | _ => Join 46 ((fun v => 96 :: double_backquotes v ++ [96]) <$> Split 46 s)
  end.

Definition escapeByte (c : Z) : gostring :=
  if c =? 0 then [92; 48]
  else if c =? 10 then [92; 110]
  else if c =? 13 then [92; 114]
  else if c =? 92 then [92; 92]
  else if c =? 26 then [92; 90]
  else if c =? 39 then [39; 39]
  else [c].

Definition special (c : Z) : bool := bool_decide (c ∈ [39; 0; 10; 13; 92; 26]).

Definition escapeValue (s : gostring) : gostring :=
  if negb (existsb special s) then s else fold_left (fun dest c => dest ++ escapeByte c) s [].

Definition defaultQuoteValue (s : gostring) : gostring := str "'" ++ escapeValue s ++ str "'".

(** ** Configuration *)

(** A nil function is [None]. *)
Definition SQLQuoteFunc : Type := option (gostring → gostring).
Record SQLUtil : Type := MkSQLUtil { quoteIDFunc : SQLQuoteFunc; quoteValueFunc : SQLQuoteFunc }.

Inductive sqlerror : Type := ErrNilQuoteIDFunc | ErrNilQuoteValueFunc.

Definition defaultSQLUtil : SQLUtil := MkSQLUtil (Some defaultQuoteID) (Some defaultQuoteValue).

Definition SOption : Type := SQLUtil → SQLUtil.
Definition WithQuoteIDFunc (fn : SQLQuoteFunc) : SOption := fun c => MkSQLUtil fn (quoteValueFunc c).
Definition WithQuoteValueFunc (fn : SQLQuoteFunc) : SOption := fun c => MkSQLUtil (quoteIDFunc c) fn.

Definition validate (c : SQLUtil) : option sqlerror :=
  match quoteIDFunc c with
  | None => Some ErrNilQuoteIDFunc
  | Some _ => match quoteValueFunc c with None => Some ErrNilQuoteValueFunc | Some _ => None end
  end.

Definition New (opts : list SOption) : result sqlerror SQLUtil :=
  let c := fold_left (fun c applyOpt => applyOpt c) opts defaultSQLUtil in
  match validate c with Some e => Error e | None => Ok c end.

(** Calling a nil function panics. *)
Definition QuoteID (c : SQLUtil) (s : gostring) : option gostring := f ← quoteIDFunc c; Some (f s).
Definition QuoteValue (c : SQLUtil) (s : gostring) : option gostring := f ← quoteValueFunc c; Some (f s).

(** ** IN clauses *)

Definition sqlConditionIn : gostring := str "IN".
Definition sqlConditionNotIn : gostring := str "NOT IN".
Definition sqlMatchNone : gostring := str "1 = 0".
Definition sqlMatchAll : gostring := str "1 = 1".

Definition composeInClause (c : SQLUtil) (condition field : gostring) (values : list gostring) : option gostring :=
  if (length values =? 0)%nat then Some (if str_eqb condition sqlConditionNotIn then sqlMatchAll else sqlMatchNone)
  else id ← QuoteID c field; Some (id ++ str " " ++ condition ++ str " (" ++ Join 44 values ++ str ")").

Definition formatStrings (c : SQLUtil) (values : list gostring) : option (list gostring) := mapM (QuoteValue c) values.
Definition formatInts (values : list Z) : list gostring := FormatInt <$> values.
Definition formatInt64s (values : list Z) : list gostring := FormatInt <$> values.
Definition formatUints (values : list Z) : list gostring := FormatUint <$> values.

Definition BuildInClauseString (c : SQLUtil) (field : gostring) (values : list gostring) : option gostring :=
  values ← formatStrings c values; composeInClause c sqlConditionIn field values.
Definition BuildNotInClauseString (c : SQLUtil) (field : gostring) (values : list gostring) : option gostring :=
  values ← formatStrings c values; composeInClause c sqlConditionNotIn field values.
Definition BuildInClauseInt (c : SQLUtil) (field : gostring) (values : list Z) : option gostring :=
  composeInClause c sqlConditionIn field (formatInts values).
Definition BuildNotInClauseInt (c : SQLUtil) (field : gostring) (values : list Z) : option gostring :=
  composeInClause c sqlConditionNotIn field (formatInts values).
Definition BuildInClauseInt64 (c : SQLUtil) (field : gostring) (values : list Z) : option gostring :=
  composeInClause c sqlConditionIn field (formatInt64s values).
Definition BuildNotInClauseInt64 (c : SQLUtil) (field : gostring) (values : list Z) : option gostring :=
  composeInClause c sqlConditionNotIn field (formatInt64s values).
Definition BuildInClauseUint (c : SQLUtil) (field : gostring) (values : list Z) : option gostring :=
  composeInClause c sqlConditionIn field (formatUints values).
Definition BuildNotInClauseUint (c : SQLUtil) (field : gostring) (values : list Z) : option gostring :=
  composeInClause c sqlConditionNotIn field (formatUints values).

(** ** Reading SQL *)

(** The escapes of a string literal; before [%] and [_] the backslash stays,
    and another escaped byte is itself. *)
Definition unescape (c : Z) : gostring :=
  if c =? 48 then [0] else if c =? 98 then [8] else if c =? 110 then [10] else if c =? 114 then [13]
  else if c =? 116 then [9] else if c =? 90 then [26] else if (c =? 37) || (c =? 95) then [92; c] else [c].

(** The text of a literal or of an identifier after its opening quote [q], up
    to a quote that is not doubled, and what follows; a backslash escapes in
    literals. *)
Fixpoint read_quoted (q : Z) (escapes : bool) (s : gostring) : option (gostring * gostring) :=
  match s with
  | [] => None
  | c :: s =>
      if c =? q then
        match s with
        | d :: s' => if d =? q then '(v, rest) ← read_quoted q escapes s'; Some (q :: v, rest) else Some ([], s)
        | [] => Some ([], [])
        end
      else if escapes && (c =? 92) then
        match s with
        | [] => None
        | d :: s => '(v, rest) ← read_quoted q escapes s; Some (unescape d ++ v, rest)
        end
      else '(v, rest) ← read_quoted q escapes s; Some (c :: v, rest)
  end.

Definition read_string (s : gostring) : option (gostring * gostring) :=
  match s with 39 :: s => read_quoted 39 true s | _ => None end.

(** A dotted path of quoted identifiers. *)
Fixpoint read_path (fuel : nat) (s : gostring) : option (list gostring * gostring) :=
  match fuel, s with
  | S fuel, 96 :: s =>
      '(v, rest) ← read_quoted 96 false s;
      match rest with
      | 46 :: rest => '(vs, rest) ← read_path fuel rest; Some (v :: vs, rest)
      | _ => Some ([v], rest)
      end
  | _, _ => None
  end.

Definition read_id (s : gostring) : option (list gostring * gostring) := read_path (length s) s.

Fixpoint read_digits (s : gostring) : gostring * gostring :=
  match s with
  | c :: s' => if between 48 c 57 then let '(d, rest) := read_digits s' in (c :: d, rest) else ([], s)
  | [] => ([], [])
  end.

Definition read_number (s : gostring) : option (Z * gostring) :=
  let neg := bool_decide (head s = Some 45) in
  let s := if neg then tail s else s in
  let '(d, rest) := read_digits s in
  n ← number_value d; Some (if neg then - n else n, rest).

(** A list of values up to the closing parenthesis that ends the text. *)
Fixpoint read_values {A} (read : gostring → option (A * gostring)) (fuel : nat) (s : gostring) : option (list A) :=
  match fuel with
  | O => None
  | S fuel =>
      '(v, rest) ← read s;
      match rest with
      | 44 :: rest => vs ← read_values read fuel rest; Some (v :: vs)
      | [41] => Some [v]
      | _ => None
      end
  end.

(** A predicate on the rows: constant, or the membership of a column, or its
    negation. *)
Inductive predicate (A : Type) : Type :=
| Always (holds : bool)
| Member (column : list gostring) (negated : bool) (values : list A).
Arguments Always {A} _.
Arguments Member {A} _ _ _.

Definition read_clause {A} (read : gostring → option (A * gostring)) (s : gostring) : option (predicate A) :=
  if str_eqb s (str "1 = 0") then Some (Always false)
  else if str_eqb s (str "1 = 1") then Some (Always true)
  else
    '(column, rest) ← read_id s;
    match CutPrefix rest (str " IN (") with
    | Some rest => vs ← read_values read (length rest) rest; Some (Member column false vs)
    | None =>
        rest ← CutPrefix rest (str " NOT IN (");
        vs ← read_values read (length rest) rest; Some (Member column true vs)
    end.

(** The rows a predicate on the value [v] of a column selects. *)
Definition selects {A} `{EqDecision A} (p : predicate A) (v : A) : bool :=
  match p with Always b => b | Member _ negated vs => xorb negated (bool_decide (v ∈ vs)) end.

(** ** Facts *)

Lemma escapeValue_bind s : escapeValue s = s ≫= escapeByte.
Proof.
  assert (Hl : ∀ dest, fold_left (fun dest c => dest ++ escapeByte c) s dest = dest ++ (s ≫= escapeByte)).
  { induction s as [|c s IH]; intros dest; cbn [fold_left mbind list_bind]; [by rewrite app_nil_r|]. by rewrite IH, <- app_assoc. }
  unfold escapeValue. destruct (existsb special s) eqn:He; cbn [negb]; [apply Hl|]. clear Hl.
  induction s as [|c s IH]; [done|]. cbn [existsb] in He. apply orb_false_iff in He as [Hc He]. cbn [mbind list_bind].
  assert (Hb : escapeByte c = [c]).
  { unfold special in Hc. apply bool_decide_eq_false in Hc. rewrite !elem_of_cons in Hc. unfold escapeByte.
    rewrite !(proj2 (Z.eqb_neq _ _)) by (intros ->; apply Hc; tauto). done. }
  rewrite Hb. cbn. f_equal. by apply IH.
Qed.

Definition ends (q : Z) (rest : gostring) : Prop := head rest ≠ Some q.

Lemma read_quoted_end q escapes rest : ends q rest → read_quoted q escapes (q :: rest) = Some ([], rest).
Proof.
  intros Hr. cbn [read_quoted]. rewrite Z.eqb_refl. destruct rest as [|d rest]; [done|]. rewrite (proj2 (Z.eqb_neq d q)); [done|].
  intros ->. by apply Hr.
Qed.

(** A literal is read back, whatever it holds. *)
Lemma read_string_quoted s rest : ends 39 rest → read_string (defaultQuoteValue s ++ rest) = Some (s, rest).
Proof.
  intros Hr. unfold defaultQuoteValue. rewrite escapeValue_bind. change (str "'") with [39]. rewrite <- !app_assoc. cbn [app read_string].
  induction s as [|c s IH]; cbn [mbind list_bind app]; [by apply read_quoted_end|].
  unfold escapeByte at 1.
  destruct (Z.eqb_spec c 0) as [->|]; [cbn [app read_quoted]; rewrite IH; done|].
  destruct (Z.eqb_spec c 10) as [->|]; [cbn [app read_quoted]; rewrite IH; done|].
  destruct (Z.eqb_spec c 13) as [->|]; [cbn [app read_quoted]; rewrite IH; done|].
  destruct (Z.eqb_spec c 92) as [->|]; [cbn [app read_quoted]; rewrite IH; done|].
  destruct (Z.eqb_spec c 26) as [->|]; [cbn [app read_quoted]; rewrite IH; done|].
  destruct (Z.eqb_spec c 39) as [->|]; [cbn [app read_quoted]; rewrite IH; done|].
  cbn [app read_quoted]. rewrite !(proj2 (Z.eqb_neq c _)) by done. cbn [andb]. by rewrite IH.
Qed.

Lemma read_quoted_id v rest : ends 96 rest → read_quoted 96 false (double_backquotes v ++ 96 :: rest) = Some (v, rest).
Proof.
  intros Hr. unfold double_backquotes. induction v as [|c v IH]; cbn [mbind list_bind app]; [by apply read_quoted_end|].
  destruct (Z.eqb_spec c 96) as [->|]; [cbn [app read_quoted]; by rewrite IH|].
  cbn [app read_quoted]. rewrite (proj2 (Z.eqb_neq c 96)) by done. cbn [andb]. by rewrite IH.
Qed.

Definition quoted_part (v : gostring) : gostring := 96 :: double_backquotes v ++ [96].

Lemma read_path_parts parts : ∀ fuel rest, parts ≠ [] → (length parts <= fuel)%nat → ends 96 rest → ends 46 rest →
  read_path fuel (Join 46 (quoted_part <$> parts) ++ rest) = Some (parts, rest).
Proof.
  induction parts as [|v parts IH]; intros fuel rest Hne Hf H96 H46; [done|]. destruct fuel as [|fuel]; [simpl in Hf; lia|].
  destruct parts as [|v' parts].
  - cbn [fmap list_fmap Join]. unfold quoted_part. cbn [app read_path]. rewrite <- app_assoc. cbn [app]. rewrite read_quoted_id by done.
    cbn [mbind option_bind]. destruct rest as [|d rest]; [done|]. destruct (decide (d = 46)) as [->|]; [by destruct H46|].
    destruct d as [|p|p]; try done; repeat (destruct p as [p|p|]; try done).
  - change (Join 46 (quoted_part <$> v :: v' :: parts)) with (quoted_part v ++ 46 :: Join 46 (quoted_part <$> v' :: parts)).
    unfold quoted_part at 1. cbn [app read_path]. rewrite <- !app_assoc. cbn [app]. rewrite read_quoted_id by done.
    cbn [mbind option_bind]. rewrite IH; [done|done|simpl in *; lia|done|done].
Qed.

Lemma Split_ne c s : Split c s ≠ [].
Proof. intros H. pose proof (Split_length c s) as Hl. rewrite H in Hl. pose proof (Count_nonneg c s). simpl in Hl. lia. Qed.

Lemma Join_parts_length parts : (length parts <= length (Join 46 (quoted_part <$> parts)))%nat.
Proof.
  induction parts as [|v [|v' parts] IH]; [done|cbn; lia|].
  change (Join 46 (quoted_part <$> v :: v' :: parts)) with (quoted_part v ++ 46 :: Join 46 (quoted_part <$> v' :: parts)). rewrite length_app. cbn [length] in *. lia.
Qed.

(** An identifier is read back as the parts between its dots. *)
Lemma read_id_quoted s rest : s ≠ [] → ends 96 rest → ends 46 rest → read_id (defaultQuoteID s ++ rest) = Some (Split 46 s, rest).
Proof.
  intros Hs H96 H46. unfold read_id, defaultQuoteID. destruct s as [|c s]; [done|]. fold quoted_part.
  apply read_path_parts; [apply Split_ne| |done|done]. rewrite length_app. pose proof (Join_parts_length (Split 46 (c :: s))). lia.
Qed.

(** *** Lists of values *)

Lemma Forall2_fmap_self {A B} (R : B → A → Prop) (f : A → B) l : (∀ v, v ∈ l → R (f v) v) → Forall2 R (f <$> l) l.
Proof. induction l as [|v l IH]; intros Hf; constructor; [apply Hf; left|]. apply IH. intros w Hw. apply Hf. by right. Qed.

(** A text that [read] reads back, when no digit and no quote follows. *)
Definition readable {A} (read : gostring → option (A * gostring)) (text : gostring) (v : A) : Prop :=
  ∀ c rest, c = 44 ∨ c = 41 → read (text ++ c :: rest) = Some (v, c :: rest).

Lemma read_values_join {A} (read : gostring → option (A * gostring)) texts vs : Forall2 (readable read) texts vs →
  ∀ fuel, vs ≠ [] → (length vs <= fuel)%nat → read_values read fuel (Join 44 texts ++ [41]) = Some vs.
Proof.
  induction 1 as [|text v texts vs Hv Hvs IH]; intros fuel Hne Hf; [done|]. destruct fuel as [|fuel]; [simpl in Hf; lia|].
  destruct Hvs as [|text' v' texts vs Hv' Hvs].
  - cbn [Join read_values]. by rewrite Hv by auto.
  - change (Join 44 (text :: text' :: texts)) with (text ++ 44 :: Join 44 (text' :: texts)). cbn [read_values]. rewrite <- app_assoc. cbn [app].
    rewrite Hv by auto. cbn [mbind option_bind]. rewrite IH; [done|done|simpl in *; lia].
Qed.

Lemma quoted_readable s : readable read_string (defaultQuoteValue s) s.
Proof. intros c rest Hc. apply read_string_quoted. by intros [= ->]; destruct Hc. Qed.

Lemma read_digits_app d c rest : Forall (fun b => 48 <= b <= 57) d → c = 44 ∨ c = 41 → read_digits (d ++ c :: rest) = (d, c :: rest).
Proof.
  intros Hd Hc. induction Hd as [|b d Hb _ IH]; cbn [app read_digits]; unfold between in *; [by destruct Hc as [-> | ->]|].
  rewrite IH. by rewrite (proj2 (Z.leb_le 48 b)), (proj2 (Z.leb_le b 57)) by lia.
Qed.

Lemma uint_readable n : 0 <= n < 2 ^ 64 → readable read_number (FormatUint n) n.
Proof.
  intros Hn c rest Hc. destruct (FormatUint_spec n Hn) as [[Hne Hd] Hv]. unfold read_number.
  destruct (FormatUint n) as [|b d] eqn:Ht; [done|]. pose proof (Forall_inv Hd) as Hb. cbn beta in Hb. cbn [app].
  cbn [head]. rewrite bool_decide_eq_false_2 by (intros [= ->]; lia). cbn [tail].
  change (b :: d ++ c :: rest) with ((b :: d) ++ c :: rest).
  rewrite (read_digits_app (b :: d) c rest) by done. rewrite number_value_spec by done. cbn [mbind option_bind]. by rewrite Hv.
Qed.

Lemma int_readable n : - 2 ^ 63 <= n < 2 ^ 63 → readable read_number (FormatInt n) n.
Proof.
  intros Hn. unfold FormatInt. destruct (Z.ltb_spec n 0); [|apply uint_readable; lia].
  intros c rest Hc. pose proof (uint_readable (- n) ltac:(lia) c rest Hc) as Hu. destruct (FormatUint_spec (- n)) as [[Hne Hd] Hv]; [lia|].
  cbn [app]. unfold read_number. cbn [head]. rewrite bool_decide_eq_true_2 by done. cbn [tail]. rewrite read_digits_app by done. rewrite number_value_spec by done. cbn [mbind option_bind]. rewrite Hv. do 2 f_equal. lia.
Qed.

(** *** Clauses *)

Lemma read_clause_member {A} (read : gostring → option (A * gostring)) field (negated : bool) texts vs :
  field ≠ [] → vs ≠ [] → Forall2 (readable read) texts vs →
  read_clause read (defaultQuoteID field ++ str " " ++ (if negated then sqlConditionNotIn else sqlConditionIn) ++ str " (" ++ Join 44 texts ++ str ")")
    = Some (Member (Split 46 field) negated vs).
Proof.
  intros Hf Hne Hvs. unfold read_clause. set (rest := str " " ++ _).
  assert (Hhead : ∃ t, defaultQuoteID field ++ rest = 96 :: t).
  { unfold defaultQuoteID. destruct field as [|c field]; [done|]. destruct (Split 46 (c :: field)) as [|v l] eqn:Hs; [by apply Split_ne in Hs|].
    destruct l; by eexists. }
  destruct Hhead as [t Ht]. unfold str_eqb. rewrite !bool_decide_eq_false_2 by (by rewrite Ht).
  rewrite read_id_quoted by done. cbn [mbind option_bind].
  assert (Hval : ∀ p : gostring, rest = p ++ Join 44 texts ++ [41] → read_values read (length (Join 44 texts ++ [41])) (Join 44 texts ++ [41]) = Some vs).
  { intros p _. apply read_values_join; [done|done|]. rewrite length_app. pose proof (Forall2_length _ _ _ Hvs).
    assert (length texts <= length (Join 44 texts) + 1)%nat; [|simpl; lia]. clear. induction texts as [|a [|b l] IH]; [simpl; lia|simpl; lia|].
    change (Join 44 (a :: b :: l)) with (a ++ 44 :: Join 44 (b :: l)). rewrite length_app. cbn [length] in *. lia. }
  subst rest. destruct negated.
  - change (str " " ++ sqlConditionNotIn ++ str " (" ++ Join 44 texts ++ str ")") with (str " NOT IN (" ++ Join 44 texts ++ [41]) in *.
    assert (H1 : CutPrefix (str " NOT IN (" ++ Join 44 texts ++ [41]) (str " IN (") = None) by done. rewrite H1.
    assert (H2 : CutPrefix (str " NOT IN (" ++ Join 44 texts ++ [41]) (str " NOT IN (") = Some (Join 44 texts ++ [41])) by done. rewrite H2.
    cbn [mbind option_bind]. by rewrite (Hval (str " NOT IN (")).
  - change (str " " ++ sqlConditionIn ++ str " (" ++ Join 44 texts ++ str ")") with (str " IN (" ++ Join 44 texts ++ [41]) in *.
    assert (H1 : CutPrefix (str " IN (" ++ Join 44 texts ++ [41]) (str " IN (") = Some (Join 44 texts ++ [41])) by done. rewrite H1.
    cbn [mbind option_bind]. by rewrite (Hval (str " IN (")).
Qed.

(** A configuration that keeps the default quoting. *)
Definition default_quoting (c : SQLUtil) : Prop := quoteIDFunc c = Some defaultQuoteID ∧ quoteValueFunc c = Some defaultQuoteValue.

Lemma composeInClause_reads {A} `{EqDecision A} (read : gostring → option (A * gostring)) c (negated : bool) field texts vs :
  default_quoting c → field ≠ [] → Forall2 (readable read) texts vs →
  ∃ clause p, composeInClause c (if negated then sqlConditionNotIn else sqlConditionIn) field texts = Some clause ∧ read_clause read clause = Some p ∧
    (vs ≠ [] → p = Member (Split 46 field) negated vs) ∧ ∀ v, selects p v = xorb negated (bool_decide (v ∈ vs)).
Proof.
  intros [Hid _] Hf Hvs. unfold composeInClause. destruct Hvs as [|text v texts vs Hv Hvs].
  - exists (if negated then sqlMatchAll else sqlMatchNone), (Always negated). destruct negated; (split; [done|]; split; [done|]; split; [done|]; done).
  - cbn [length Nat.eqb]. unfold QuoteID. rewrite Hid. cbn [mbind option_bind]. eexists _, _. split; [done|].
    rewrite (read_clause_member read field negated (text :: texts) (v :: vs)); [|done|done|by constructor]. split; [done|]. by split.
Qed.

(** C25. What is quoted is read back. With the default quoting, whatever the
    bytes of a value or of an identifier, MySQL's rules read its quoted form
    as that value, or as the parts of the identifier between its dots, and go
    on after it; and each clause is read as the membership of the column in
    the very values given, of strings and of integers, or its negation, and
    selects the rows it should, an empty list included. *)
Theorem quoting_reads_back c field (negated : bool) (Hc : default_quoting c) (Hfield : field ≠ []) :
  (∀ s rest, ends 39 rest → (t ← QuoteValue c s; read_string (t ++ rest)) = Some (s, rest)) ∧
  (∀ s rest, s ≠ [] → ends 96 rest → ends 46 rest → (t ← QuoteID c s; read_id (t ++ rest)) = Some (Split 46 s, rest)) ∧
  (∀ values, ∃ clause p,
    (if negated then BuildNotInClauseString c field values else BuildInClauseString c field values) = Some clause ∧
    read_clause read_string clause = Some p ∧ (values ≠ [] → p = Member (Split 46 field) negated values) ∧
    ∀ v, selects p v = xorb negated (bool_decide (v ∈ values))) ∧
  (∀ values, Forall (fun v => - 2 ^ 63 <= v < 2 ^ 63) values → ∃ clause p,
    (if negated then BuildNotInClauseInt64 c field values else BuildInClauseInt64 c field values) = Some clause ∧
    (if negated then BuildNotInClauseInt c field values else BuildInClauseInt c field values) = Some clause ∧
    read_clause read_number clause = Some p ∧ (values ≠ [] → p = Member (Split 46 field) negated values) ∧
    ∀ v, selects p v = xorb negated (bool_decide (v ∈ values))) ∧
  ∀ values, Forall (fun v => 0 <= v < 2 ^ 64) values → ∃ clause p,
    (if negated then BuildNotInClauseUint c field values else BuildInClauseUint c field values) = Some clause ∧
    read_clause read_number clause = Some p ∧ (values ≠ [] → p = Member (Split 46 field) negated values) ∧
    ∀ v, selects p v = xorb negated (bool_decide (v ∈ values)).
Proof.
  destruct Hc as [Hid Hval]. split_and!.
  - intros s rest Hr. unfold QuoteValue. rewrite Hval. by apply read_string_quoted.
  - intros s rest Hs H96 H46. unfold QuoteID. rewrite Hid. by apply read_id_quoted.
  - intros values. assert (Hf : formatStrings c values = Some (defaultQuoteValue <$> values)).
    { unfold formatStrings. apply mapM_Some, Forall2_flip, Forall2_fmap_self. intros v _. unfold flip, QuoteValue. by rewrite Hval. }
    destruct (composeInClause_reads read_string c negated field (defaultQuoteValue <$> values) values) as (clause & p & Hcl & Hp); [done|done| |].
    { apply Forall2_fmap_self. intros v _. apply quoted_readable. }
    exists clause, p. split; [|done]. unfold BuildNotInClauseString, BuildInClauseString. rewrite Hf. cbn [mbind option_bind]. by destruct negated.
  - intros values Hr. destruct (composeInClause_reads read_number c negated field (FormatInt <$> values) values) as (clause & p & Hcl & Hp); [done|done| |].
    { apply Forall2_fmap_self. intros v Hv. apply int_readable. rewrite Forall_forall in Hr. by apply Hr. }
    exists clause, p. by destruct negated.
  - intros values Hr. destruct (composeInClause_reads read_number c negated field (FormatUint <$> values) values) as (clause & p & Hcl & Hp); [done|done| |].
    { apply Forall2_fmap_self. intros v Hv. apply uint_readable. rewrite Forall_forall in Hr. by apply Hr. }
    exists clause, p. by destruct negated.
Qed.

(** A value that would end its literal, and a clause over it. *)
Lemma quoting_reads_back_witness : ∃ clause,
  New [] = Ok defaultSQLUtil ∧ default_quoting defaultSQLUtil ∧
  BuildInClauseString defaultSQLUtil (str "t.name") [str "x') OR 1=1 --"; str "back"] = Some clause ∧
  read_clause read_string clause = Some (Member [str "t"; str "name"] false [str "x') OR 1=1 --"; str "back"]).
Proof.
  assert (Hc : default_quoting defaultSQLUtil) by done.
  destruct (quoting_reads_back defaultSQLUtil (str "t.name") false Hc ltac:(done)) as (_ & _ & Hs & _).
  destruct (Hs [str "x') OR 1=1 --"; str "back"]) as (clause & p & Hcl & Hp & Hm & _). exists clause.
  rewrite (Hm ltac:(done)) in Hp. by split_and!.
Defined.
