(* ===== verification/DecInt.v ===== *)
(** * [pkg/decint]: decimals as scaled integers

    decint.go, int64.go and uint64.go: conversions between float64, int64 or
    uint64 scaled by a million, and text. Floats are those of the language,
    with their rounding; [ParseFloat] is a parameter. *)

From stdpp Require Import base option list.
From Stdlib Require Import String Floats.
From S2P Require Import Prelude Binary64 FloatRound GoString GoText.

#[local] Open Scope Z_scope.

Definition scale : Z := 1000000.
Definition precision : float := of_int scale.
Definition MaxInt : Z := 8589934592000000.
Definition MaxFloat : Z := 8589934592.

(** [math.Round]: to an integer, half away from zero; then to 64 bits, [None]
    where the conversion is not defined. *)
Definition half_away (unit x : Z) : Z := Z.sgn x * ((2 * Z.abs x + unit) / (2 * unit)).

Definition Round (f : float) : option Z :=
  x ← scaled f; if Z.abs x <? beyond then Some (half_away (2 ^ 1074) x) else None.

Definition int64 (z : Z) : option Z := if (- 2 ^ 63 <=? z) && (z <? 2 ^ 63) then Some z else None.
Definition uint64 (z : Z) : option Z := if (0 <=? z) && (z <? 2 ^ 64) then Some z else None.

Definition FloatToInt (v : float) : option Z :=
  if PrimFloat.is_nan v then Some 0
  else if PrimFloat.leb (of_int MaxFloat) v then Some MaxInt
  else if PrimFloat.leb v (PrimFloat.opp (of_int MaxFloat)) then Some (- MaxInt)
  else r ← Round (PrimFloat.mul v precision); int64 r.

Definition IntToFloat (v : Z) : float := PrimFloat.div (of_int v) precision.

Definition FloatToUint (v : float) : option Z :=
  if PrimFloat.is_nan v then Some 0
  else if PrimFloat.leb v (of_int 0) then Some 0
  else if PrimFloat.leb (of_int MaxFloat) v then Some MaxInt
  else r ← Round (PrimFloat.mul v precision); uint64 r.

Definition UintToFloat (v : Z) : float := PrimFloat.div (of_int v) precision.

(** [%06d]. *)
Definition pad6 (s : gostring) : gostring := replicate (6 - length s) 48 ++ s.

Definition fixed_text (u : Z) : gostring := FormatUint (u / scale) ++ str "." ++ pad6 (FormatUint (u mod scale)).

Definition IntToString (v : Z) : gostring :=
  let u := wrapU 64 v in
  if v <? 0 then str "-" ++ fixed_text (wrapU 64 (- u)) else fixed_text u.

Definition UintToString (v : Z) : gostring := fixed_text v.

Inductive dec_error : Type := ErrInvalidNumber | ErrOutOfRange.

(** [strconv.ParseFloat], [None] where it fails. *)
Class FloatParser : Type := parse_float : gostring → option float.

Section Parsing.
Context `{FloatParser}.

Definition StringToInt (s : gostring) : option (result dec_error Z) :=
  match parse_float s with
  | None => Some (Error ErrInvalidNumber)
  | Some v =>
      if PrimFloat.is_nan v || PrimFloat.is_infinity v then Some (Error ErrInvalidNumber)
      else if PrimFloat.ltb (of_int MaxFloat) v || PrimFloat.ltb v (PrimFloat.opp (of_int MaxFloat)) then Some (Error ErrOutOfRange)
      else z ← FloatToInt v; Some (Ok z)
  end.

Definition StringToUint (s : gostring) : option (result dec_error Z) :=
  match parse_float s with
  | None => Some (Error ErrInvalidNumber)
  | Some v =>
      if PrimFloat.is_nan v || PrimFloat.is_infinity v then Some (Error ErrInvalidNumber)
      else if PrimFloat.ltb (of_int MaxFloat) v then Some (Error ErrOutOfRange)
      else z ← FloatToUint v; Some (Ok z)
  end.
End Parsing.

(** ** Facts *)

(** One, in units of the least float. *)
Definition unit1 : Z := 2 ^ 1074.

Lemma unit1_split k : 0 <= k <= 1074 → unit1 = 2 ^ (1074 - k) * 2 ^ k.
Proof. intros. unfold unit1. rewrite <- Z.pow_add_r by lia. f_equal. lia. Qed.

Lemma scaled_int z : - 2 ^ 53 <= z <= 2 ^ 53 → scaled (of_int z) = Some (z * unit1).
Proof. intros Hz. destruct (of_int_spec z) as (x & Hx & He & _); [lia|]. by rewrite Hx, He. Qed.

Lemma scaled_opp f x : scaled f = Some x → scaled (PrimFloat.opp f) = Some (- x).
Proof. unfold scaled. rewrite FloatAxioms.opp_spec. apply scaledSF_opp. Qed.

(** Rounding what lies within a bound of an integer. *)
Lemma half_away_near unit x z : 0 < unit → 0 <= x → 2 * Z.abs (x - z * unit) < unit → half_away unit x = z.
Proof.
  intros Hu Hx Hz. unfold half_away. rewrite Z.abs_eq by done.
  assert (Hd : (2 * x + unit) / (2 * unit) = z) by (symmetry; apply (Z.div_unique_pos _ _ _ (2 * x + unit - 2 * unit * z)); nia).
  rewrite Hd. destruct (Z.sgn_spec x) as [[Hp ->]|[[<- ->]|[? ?]]]; nia.
Qed.

Lemma half_away_le unit x z : 0 < unit → 0 <= x → 0 <= z → 2 * x < (2 * z + 1) * unit → 0 <= half_away unit x <= z.
Proof.
  intros Hu Hx Hz Hlt. unfold half_away. rewrite Z.abs_eq by done.
  assert (Hd : 0 <= (2 * x + unit) / (2 * unit) < z + 1) by (split; [apply Z.div_pos|apply Z.div_lt_upper_bound]; lia).
  destruct (Z.sgn_spec x) as [[Hp ->]|[[<- ->]|[? ?]]]; lia.
Qed.

Lemma half_away_close unit x z : 0 < unit → 0 <= x → Z.abs (x - z * unit) <= unit → - 1 <= half_away unit x - z <= 1.
Proof.
  intros Hu Hx Hz. unfold half_away. rewrite Z.abs_eq by done.
  assert (Hd : z - 1 <= (2 * x + unit) / (2 * unit) < z + 2) by (split; [apply Z.div_le_lower_bound|apply Z.div_lt_upper_bound]; lia).
  destruct (Z.sgn_spec x) as [[Hp ->]|[[<- ->]|[? ?]]]; [lia| |lia]. 
  assert (-1 <= z <= 1) by nia. lia.
Qed.

Lemma half_away_opp unit x : half_away unit (- x) = - half_away unit x.
Proof. unfold half_away. rewrite Z.abs_opp, Z.sgn_opp. lia. Qed.

(** *** The product of a float in range by a million *)

Lemma precision_scaled : scaled precision = Some (scale * unit1).
Proof. by apply scaled_int. Qed.

Lemma maxfloat_scaled : scaled (of_int MaxFloat) = Some (MaxFloat * unit1).
Proof. by apply scaled_int. Qed.

Lemma unit1_pos : 0 < unit1.
Proof. done. Qed.

Lemma product_near f x : scaled f = Some x → 0 < x < MaxFloat * unit1 →
  ∃ k s, 0 <= k ∧ scaled (PrimFloat.mul f precision) = Some s ∧ 0 <= s < beyond ∧ (2 ^ k | s) ∧
    2 * Z.abs (s - x * scale) <= 2 ^ k ∧ x * scale < 2 ^ (k + 53) ∧ (s = x * scale ∨ k = 0 ∨ 2 ^ (k + 52) <= x * scale).
Proof.
  intros Hf Hx. pose proof unit1_pos as HU.
  destruct (mul_near f precision x (scale * unit1) Hf precision_scaled) as (k & s & Hk & Hs & Hs0 & Hdiv & Herr & Hup & Hor).
  - split; [lia|]. eapply Z.lt_trans; [apply Hx|done].
  - done.
  - apply Z.lt_trans with (MaxFloat * unit1 * (scale * unit1)); [apply Z.mul_lt_mono_pos_r; [done|lia]|done].
  - fold unit1 in *. exists k, s.
    assert (Hxu : x * (scale * unit1) = x * scale * unit1) by ring. rewrite Hxu in *.
    assert (H1 : 2 * Z.abs (s - x * scale) <= 2 ^ k).
    { rewrite <- Z.mul_sub_distr_r, Z.abs_mul, (Z.abs_eq unit1), Z.mul_assoc in Herr by (by apply Z.lt_le_incl).
      by apply Z.mul_le_mono_pos_r in Herr. }
    assert (H2 : x * scale < 2 ^ (k + 53)) by (by apply Z.mul_lt_mono_pos_r in Hup).
    assert (H3 : s = x * scale ∨ k = 0 ∨ 2 ^ (k + 52) <= x * scale).
    { destruct Hor as [He|[H0|Hle]]; [left|by right; left|right; right].
      - apply Z.mul_reg_r in He; [done|lia].
      - by apply Z.mul_le_mono_pos_r in Hle. }
    assert (Hb : s < beyond).
    { assert (Hxs : x * scale < MaxInt * unit1) by (unfold MaxInt, scale, MaxFloat in *; lia).
      assert (Hmb : 2 * (MaxInt * unit1) < beyond) by done.
      destruct H3 as [-> |[-> |Hle]]; [lia| |].
      - assert (2 ^ 0 = 1) as H20 by done. rewrite H20 in H1. assert (2 < MaxInt * unit1) by done. lia.
      - assert (2 ^ k <= 2 ^ (k + 52)) by (apply Z.pow_le_mono_r; lia). lia. }
    split_and!; done.
Qed.

(** *** The quotient of an integer by a million *)

Lemma units v : 0 < v < MaxInt → unit1 <= v * unit1 <= 8589934591999999 * unit1.
Proof.
  intros Hv. unfold MaxInt in Hv. pose proof unit1_pos. rewrite <- (Z.mul_1_l unit1) at 1.
  split; apply Z.mul_le_mono_nonneg_r; lia.
Qed.

Lemma quotient_near v : 0 < v < MaxInt →
  ∃ p s, scaled (IntToFloat v) = Some s ∧ 0 < s < MaxFloat * unit1 ∧ 0 < p ∧ 2 * Z.abs (s * scale - v * unit1) <= p * scale ∧
    p * 2 ^ 20 <= unit1 ∧ (v < scale * 2 ^ 32 → p * 2 ^ 21 <= unit1).
Proof.
  intros Hv0. pose proof (units v Hv0) as Hvu. pose proof Hv0 as Hv. pose proof unit1_pos as HU. unfold MaxInt in Hv.
  destruct (div_near (of_int v) precision (v * unit1) (scale * unit1)) as (k & s & Hk & Hs & Hs0 & _ & Herr & Hlow).
  - apply scaled_int. lia.
  - apply precision_scaled.
  - fold unit1. split; [nia|]. apply Z.lt_trans with (MaxInt * unit1); [unfold MaxInt; nia|done].
  - by split.
  - fold unit1 in *. assert (Hp : 0 < 2 ^ k) by (apply Z.pow_pos_nonneg; lia).
    assert (Hsu : s * (scale * unit1) - v * unit1 * unit1 = (s * scale - v * unit1) * unit1) by ring.
    assert (H1 : 2 * Z.abs (s * scale - v * unit1) <= 2 ^ k * scale).
    { rewrite Hsu, Z.abs_mul, (Z.abs_eq unit1), Z.mul_assoc, (Z.mul_assoc (2 ^ k)) in Herr by (by apply Z.lt_le_incl).
      by apply Z.mul_le_mono_pos_r in Herr. }
    assert (H2 : 2 ^ (k + 52) * scale <= v * unit1).
    { rewrite Z.mul_assoc in Hlow. by apply Z.mul_le_mono_pos_r in Hlow. }
    assert (Hk1 : ∀ j, 0 <= j → v < scale * 2 ^ j → k + 52 < j + 1074).
    { intros j Hj Hvj. apply (Z.pow_lt_mono_r_iff 2); [lia|lia|]. rewrite (Z.pow_add_r 2 j 1074) by lia. fold unit1.
      apply (Z.mul_lt_mono_pos_r scale); [done|]. eapply Z.le_lt_trans; [exact H2|].
      replace (2 ^ j * unit1 * scale) with (scale * 2 ^ j * unit1) by ring. by apply Z.mul_lt_mono_pos_r. }
    assert (Hle : ∀ j, 0 <= j <= 33 → k + 52 < j + 1074 → 2 ^ k * 2 ^ (53 - j) <= unit1).
    { intros j Hj Hkj. unfold unit1. rewrite <- Z.pow_add_r by lia. apply Z.pow_le_mono_r; lia. }
    assert (H20 : 2 ^ k * 2 ^ 20 <= unit1) by (apply (Hle 33); [lia|apply Hk1; unfold scale; lia]).
    exists (2 ^ k), s.
    assert (Hs2 : 0 < s < MaxFloat * unit1) by (unfold scale, MaxFloat in *; lia).
    split_and!; try done; try lia.
    intros H32. apply (Hle 32); [lia|]. by apply Hk1.
Qed.

Lemma FloatToInt_range f x : scaled f = Some x → 0 < x < MaxFloat * unit1 → FloatToInt f = (r ← Round (PrimFloat.mul f precision); int64 r) ∧
  FloatToUint f = (r ← Round (PrimFloat.mul f precision); uint64 r).
Proof.
  intros Hf Hx. pose proof maxfloat_scaled as Hm. pose proof (scaled_opp _ _ Hm) as Hmo. assert (H0 : scaled (of_int 0) = Some (0 * unit1)) by (by apply scaled_int).
  unfold FloatToInt, FloatToUint. rewrite is_nan_scaled, bool_decide_eq_false_2, !leb_scaled, Hf, Hm, Hmo, H0 by congruence.
  rewrite (proj2 (Z.leb_gt (MaxFloat * unit1) x)), (proj2 (Z.leb_gt x _)), (proj2 (Z.leb_gt x (0 * unit1))) by lia. done.
Qed.

Lemma Round_scaled f s : scaled f = Some s → 0 <= s < beyond → Round f = Some (half_away unit1 s).
Proof. intros Hf Hs. unfold Round. rewrite Hf. cbn [mbind option_bind]. rewrite Z.abs_eq by lia. by rewrite (proj2 (Z.ltb_lt _ _)) by lia. Qed.

(** A float in range becomes an integer in range. *)
Lemma FloatToInt_inside f x : scaled f = Some x → 0 < x < MaxFloat * unit1 →
  ∃ s, 0 <= half_away unit1 s <= MaxInt ∧ scaled (PrimFloat.mul f precision) = Some s ∧
    FloatToInt f = Some (half_away unit1 s) ∧ FloatToUint f = Some (half_away unit1 s).
Proof.
  intros Hf Hx. destruct (product_near f x Hf Hx) as (k & s & Hk & Hs & Hs0 & _ & Herr & _ & Hor). pose proof unit1_pos as HU.
  assert (Hxs : x * scale < MaxInt * unit1) by (unfold MaxInt, scale, MaxFloat in *; lia).
  assert (Hr : 0 <= half_away unit1 s <= MaxInt).
  { apply half_away_le; [done|lia|done|]. destruct Hor as [He|[->|Hle]]; [lia| |].
    - assert (1 <= unit1) by done. change (2 ^ 0) with 1 in Herr. lia.
    - assert (Hku : 2 ^ k <= unit1); [|lia]. unfold unit1. apply Z.pow_le_mono_r; [lia|].
      assert (k + 52 < 53 + 1074); [|lia]. apply (Z.pow_lt_mono_r_iff 2); [lia|lia|]. rewrite (Z.pow_add_r 2 53 1074) by lia. fold unit1.
      eapply Z.le_lt_trans; [exact Hle|]. eapply Z.lt_trans; [exact Hxs|]. by apply Z.mul_lt_mono_pos_r. }
  exists s. split; [done|]. split; [done|]. destruct (FloatToInt_range f x Hf Hx) as [-> ->]. rewrite (Round_scaled _ s) by done. cbn [mbind option_bind].
  unfold int64, uint64. unfold MaxInt in Hr. rewrite (proj2 (Z.leb_le (- 2 ^ 63) _)), (proj2 (Z.ltb_lt _ (2 ^ 63))), (proj2 (Z.leb_le 0 _)), (proj2 (Z.ltb_lt _ (2 ^ 64))) by lia. done.
Qed.

(** The scaled integers that come back exactly. *)
Definition survives (v : Z) : Prop := Z.abs v <= scale * 2 ^ 32 ∨ 2 ^ 52 <= Z.abs v <= MaxInt.

(** From an integer to a float and back, for a positive one. *)
Lemma roundtrip_pos v : 0 < v < MaxInt →
  ∃ z, FloatToInt (IntToFloat v) = Some z ∧ FloatToUint (IntToFloat v) = Some z ∧ -1 <= z - v <= 1 ∧ (v < scale * 2 ^ 32 ∨ 2 ^ 52 < v → z = v).
Proof.
  intros Hv. pose proof unit1_pos as HU. destruct (quotient_near v Hv) as (p & x & Hx & Hxr & Hp & Herr1 & Hp20 & Hp21).
  destruct (product_near _ x Hx Hxr) as (k & s & Hk & Hs & Hs0 & Hdiv & Herr2 & Hup & Hor).
  destruct (FloatToInt_inside _ x Hx Hxr) as (s' & _ & Hs' & Hi & Hui). rewrite Hs in Hs'. injection Hs' as <-.
  pose proof (units v Hv) as Hvu.
  (* The power of two of the product, bounded by a bound of the product. *)
  assert (Hku : ∀ j, 0 <= j <= 53 → x * scale < 2 ^ j * unit1 → s = x * scale ∨ 2 ^ k * 2 ^ (53 - j) <= unit1).
  { intros j Hj Hlt. destruct Hor as [He|[->|Hle]]; [by left|right|right].
    - change (2 ^ 0) with 1. rewrite Z.mul_1_l. unfold unit1. apply Z.pow_le_mono_r; lia.
    - assert (k + 52 < j + 1074).
      { apply (Z.pow_lt_mono_r_iff 2); [lia|lia|]. rewrite (Z.pow_add_r 2 j 1074) by lia. eapply Z.le_lt_trans; [exact Hle|exact Hlt]. }
      unfold unit1. rewrite <- Z.pow_add_r by lia. apply Z.pow_le_mono_r; lia. }
  assert (Hk53 : s = x * scale ∨ 2 ^ k <= unit1).
  { destruct (Hku 53) as [?|H53]; [lia|unfold scale in *; lia|by left|right]. change (2 ^ (53 - 53)) with 1 in H53. lia. }
  exists (half_away unit1 s). split; [done|]. split; [done|]. split.
  - apply half_away_close; [done|lia|]. unfold scale in *. destruct Hk53; lia.
  - intros [Hsmall|Hbig].
    + specialize (Hp21 Hsmall). assert (Hvs : v * unit1 <= 4294967295999999 * unit1) by (unfold scale in Hsmall; apply Z.mul_le_mono_nonneg_r; lia).
      assert (H52 : s = x * scale ∨ 2 ^ k * 2 <= unit1).
      { destruct (Hku 52) as [?|H52]; [lia|unfold scale in *; lia|by left|by right]. }
      apply half_away_near; [done|lia|]. unfold scale in *. destruct H52; lia.
    + assert (Hvb : 4503599627370497 * unit1 <= v * unit1) by (apply Z.mul_le_mono_nonneg_r; lia).
      assert (Hk74 : 1074 <= k).
      { assert (52 + 1074 < k + 53); [|lia]. apply (Z.pow_lt_mono_r_iff 2); [lia|lia|]. rewrite (Z.pow_add_r 2 52 1074) by lia. fold unit1.
        eapply Z.le_lt_trans; [|exact Hup]. unfold scale in *. lia. }
      assert (Hint : (unit1 | s)).
      { eapply Z.divide_trans; [|exact Hdiv]. exists (2 ^ (k - 1074)). unfold unit1. rewrite <- Z.pow_add_r by lia. f_equal. lia. }
      destruct Hint as [j ->]. assert (Hj : j = v).
      { assert (Z.abs (j - v) < 1); [|lia]. apply (Z.mul_lt_mono_pos_r unit1); [done|]. rewrite <- (Z.abs_eq unit1) at 1 by lia. rewrite <- Z.abs_mul, Z.mul_sub_distr_r.
        unfold scale in *. destruct Hk53; lia. }
      subst j. apply half_away_near; [done|lia|]. rewrite Z.sub_diag. done.
Qed.

(** *** Signs *)

Lemma Round_opposite f g : opposite f g → Round g = Z.opp <$> Round f.
Proof.
  intros Ho%opposite_scaled. unfold Round. rewrite Ho. destruct (scaled f) as [x|]; [|done]. cbn [fmap option_fmap option_map mbind option_bind].
  rewrite Z.abs_opp, half_away_opp. by case_match.
Qed.

(** [FloatToInt] is odd; its results are in range. *)
Lemma FloatToInt_opposite f g x : opposite f g → scaled f = Some x → 0 < x → FloatToInt g = Z.opp <$> FloatToInt f.
Proof.
  intros Ho Hf Hx. pose proof (opposite_scaled _ _ Ho) as Hg. rewrite Hf in Hg. cbn in Hg. pose proof unit1_pos as HU.
  pose proof maxfloat_scaled as Hm. pose proof (scaled_opp _ _ Hm) as Hmo.
  destruct (Z.lt_ge_cases x (MaxFloat * unit1)) as [Hlt|Hge].
  - destruct (FloatToInt_inside f x Hf) as (s & Hr & Hs & Hi & _); [lia|]. destruct (FloatToInt_range f x Hf) as [Hfi _]; [lia|].
    rewrite Hi. rewrite Hi in Hfi. unfold FloatToInt. rewrite is_nan_scaled, bool_decide_eq_false_2, !leb_scaled, Hg, Hm, Hmo by congruence.
    rewrite (proj2 (Z.leb_gt (MaxFloat * unit1) _)), (proj2 (Z.leb_gt (- x) _)) by lia.
    rewrite (Round_opposite _ _ (mul_opposite _ _ precision Ho)). destruct (Round (PrimFloat.mul f precision)) as [r|]; [|done].
    cbn [fmap option_fmap option_map mbind option_bind] in *. unfold int64 in *. destruct (_ && _) eqn:Hb in Hfi; [|done].
    injection Hfi as <-. unfold MaxInt in Hr. rewrite (proj2 (Z.leb_le (- 2 ^ 63) _)), (proj2 (Z.ltb_lt _ (2 ^ 63))) by lia. done.
  - assert (0 < MaxFloat * unit1) by done.
    unfold FloatToInt. rewrite !is_nan_scaled, !bool_decide_eq_false_2, !leb_scaled, Hg, Hf, Hm, Hmo by congruence.
    rewrite (proj2 (Z.leb_le (MaxFloat * unit1) x)), (proj2 (Z.leb_gt (MaxFloat * unit1) (- x))), (proj2 (Z.leb_le (- x) _)) by lia. done.
Qed.

(** *** Every float *)

Definition in_range (o : option Z) : Prop := ∃ z, o = Some z ∧ - MaxInt <= z <= MaxInt.
Definition in_urange (o : option Z) : Prop := ∃ z, o = Some z ∧ 0 <= z <= MaxInt.

Lemma zero_product f : scaled f = Some 0 → Round (PrimFloat.mul f precision) = Some 0.
Proof.
  intros Hf. pose proof (Prim2SF_valid f) as Hv. unfold Round, scaled in *. rewrite FloatAxioms.mul_spec.
  change (Prim2SF precision) with (S754_finite false 8589934592000000 (-33)).
  destruct (Prim2SF f) as [b|b| |b m e]; cbn in Hf; [done|by destruct b|done|].
  pose proof (finite_scaled m e Hv) as Hp. injection Hf as Hf. destruct b; cbn in Hf; lia.
Qed.

Lemma FloatToInt_total f : in_range (FloatToInt f).
Proof.
  assert (Hpos : ∀ f x, scaled f = Some x → 0 < x → in_range (FloatToInt f)).
  { clear f. intros f x Hf Hx. destruct (Z.lt_ge_cases x (MaxFloat * unit1)) as [Hlt|Hge].
    - destruct (FloatToInt_inside f x Hf) as (s & Hr & _ & Hi & _); [done|]. eexists. split; [exact Hi|]. lia.
    - exists MaxInt. split; [|done]. unfold FloatToInt. rewrite is_nan_scaled, bool_decide_eq_false_2, !leb_scaled, Hf, maxfloat_scaled by congruence.
      by rewrite (proj2 (Z.leb_le _ x)). }
  destruct (scaled f) as [x|] eqn:Hf.
  - destruct (Z.lt_trichotomy x 0) as [Hx|[->|Hx]].
    + assert (Ho : scaled (PrimFloat.opp f) = Some (- x)) by (by apply scaled_opp).
      rewrite (FloatToInt_opposite _ f (- x) (opposite_opp f) Ho) by lia.
      destruct (Hpos _ _ Ho) as (z & -> & Hz); [lia|]. exists (- z). split; [done|lia].
    + exists 0. split; [|done]. unfold FloatToInt. rewrite is_nan_scaled, bool_decide_eq_false_2, !leb_scaled, Hf, maxfloat_scaled by congruence.
      rewrite (scaled_opp _ _ maxfloat_scaled). by rewrite zero_product.
    + by apply (Hpos f x).
  - exists 0. split; [|done]. unfold FloatToInt. by rewrite is_nan_scaled, bool_decide_eq_true_2.
Qed.

Lemma FloatToUint_total f : in_urange (FloatToUint f).
Proof.
  destruct (scaled f) as [x|] eqn:Hf.
  - assert (H0 : scaled (of_int 0) = Some 0) by done. destruct (Z.le_gt_cases x 0) as [Hx|Hx].
    + exists 0. split; [|done]. unfold FloatToUint. rewrite is_nan_scaled, bool_decide_eq_false_2, !leb_scaled, Hf, H0 by congruence.
      by rewrite (proj2 (Z.leb_le x 0)).
    + destruct (Z.lt_ge_cases x (MaxFloat * unit1)) as [Hlt|Hge].
      * destruct (FloatToInt_inside f x Hf) as (s & Hr & _ & _ & Hi); [done|]. eexists. split; [exact Hi|done].
      * exists MaxInt. split; [|done]. unfold FloatToUint. rewrite is_nan_scaled, bool_decide_eq_false_2, !leb_scaled, Hf, H0, maxfloat_scaled by congruence.
        by rewrite (proj2 (Z.leb_gt x 0)), (proj2 (Z.leb_le _ x)).
  - exists 0. split; [|done]. unfold FloatToUint. by rewrite is_nan_scaled, bool_decide_eq_true_2.
Qed.

(** *** From an integer to a float and back *)

Lemma of_int_opposite v : 0 < v < 2 ^ 64 → opposite (of_int v) (of_int (- v)).
Proof.
  intros Hv. destruct v as [|m|m]; [lia| |lia]. change (- Zpos m) with (Zneg m). destruct (normalize_spec m) as (mm & e & r & Hn & Hd & He & _); [lia|].
  unfold opposite, of_int. rewrite normalize_opp, Hn. rewrite !Prim2SF_SF2Prim; [done|..]; apply digits_bounded; (done || lia).
Qed.

(** What comes back, and the float on the way. *)
Definition comes_back (v : Z) (z : Z) : Prop := - 1 <= z - v <= 1 ∧ (survives v → z = v).

Lemma roundtrip_from0 v : 0 <= v <= MaxInt →
  ∃ z, FloatToInt (IntToFloat v) = Some z ∧ FloatToUint (IntToFloat v) = Some z ∧ comes_back v z.
Proof.
  intros Hv. assert (Hedge : ∀ w, FloatToInt (IntToFloat w) = Some w ∧ FloatToUint (IntToFloat w) = Some w →
    ∃ z, FloatToInt (IntToFloat w) = Some z ∧ FloatToUint (IntToFloat w) = Some z ∧ comes_back w z).
  { intros w [H1 H2]. exists w. split; [done|]. split; [done|]. split; [lia|done]. }
  destruct (Z.eq_dec v 0) as [->|H0]; [by apply Hedge|]. destruct (Z.eq_dec v MaxInt) as [->|HM]; [by apply Hedge|].
  destruct (Z.eq_dec v (scale * 2 ^ 32)) as [->|H32]; [by apply Hedge|]. destruct (Z.eq_dec v (2 ^ 52)) as [->|H52]; [by apply Hedge|].
  destruct (roundtrip_pos v) as (z & Hz & Hu & Hc & He); [lia|]. exists z. split; [done|]. split; [done|]. split; [done|].
  intros Hv'. apply He. unfold survives in Hv'. lia.
Qed.

Lemma roundtrip_int v : - MaxInt <= v <= MaxInt → ∃ z, FloatToInt (IntToFloat v) = Some z ∧ comes_back v z.
Proof.
  intros Hv. destruct (Z.le_gt_cases 0 v) as [Hp|Hn].
  - destruct (roundtrip_from0 v) as (z & Hz & _ & Hc); [lia|]. eauto.
  - destruct (roundtrip_from0 (- v)) as (z & Hz & _ & Hc & He); [lia|]. exists (- z).
    assert (Ho : opposite (of_int (- v)) (of_int v)).
    { rewrite <- (Z.opp_involutive v) at 2. apply of_int_opposite. unfold MaxInt in Hv. lia. }
    apply (div_opposite _ _ precision) in Ho. fold (IntToFloat (- v)) (IntToFloat v) in Ho.
    assert (Hs : ∃ x, scaled (IntToFloat (- v)) = Some x ∧ 0 < x).
    { destruct (Z.eq_dec (- v) MaxInt) as [->|]; [by eexists|]. destruct (quotient_near (- v)) as (p & x & Hx & Hx0 & _); [lia|]. exists x. split; [done|lia]. }
    destruct Hs as (x & Hx & Hx0). rewrite (FloatToInt_opposite _ _ x Ho Hx Hx0), Hz. split; [done|]. split; [lia|].
    intros Hv'. rewrite He; [lia|]. unfold survives in *. by rewrite Z.abs_opp.
Qed.

(** *** Text *)

(** The specification's reader: an optional sign, digits, a point and six
    digits. *)
Definition read_digits (s : gostring) : option Z :=
  '(whole, part) ← Cut 46 s;
  if (length part =? 6)%nat then n ← number_value whole; m ← number_value part; Some (n * scale + m) else None.

Definition read_fixed (s : gostring) : option Z :=
  match s with
  | 45 :: s => Z.opp <$> read_digits s
  | _ => read_digits s
  end.

Lemma pad6_spec n : 0 <= n < scale → is_digits (pad6 (FormatUint n)) ∧ decimal (pad6 (FormatUint n)) = n ∧ length (pad6 (FormatUint n)) = 6%nat.
Proof.
  intros Hn. destruct (FormatUint_spec n) as [[Hne Hd] Hv]; [unfold scale in Hn; lia|].
  assert (Hl : (length (FormatUint n) <= 6)%nat) by (apply (format_loop_short 20 6 n []); [done|lia]).
  unfold pad6. split; [split|split].
  - by destruct (replicate _ _).
  - apply Forall_app. split; [|done]. by apply Forall_replicate.
  - rewrite decimal_app, Hv. assert (H0 : ∀ k, decimal (replicate k 48) = 0) by (induction k; cbn [replicate decimal]; lia). rewrite H0. lia.
  - rewrite length_app, length_replicate. lia.
Qed.

Lemma read_fixed_text u : 0 <= u < 2 ^ 64 → read_digits (fixed_text u) = Some u.
Proof.
  intros Hu. assert (Hq : 0 <= u / scale < 2 ^ 64).
  { unfold scale. split; [apply Z.div_pos; lia|]. apply Z.div_lt_upper_bound; lia. }
  destruct (FormatUint_spec _ Hq) as [Hd Hv]. destruct (pad6_spec (u mod scale)) as (Hd6 & Hv6 & Hl); [by apply Z.mod_pos_bound|].
  unfold read_digits, fixed_text. change (str ".") with [46]. cbn [app]. rewrite Cut_first.
  - cbn [mbind option_bind]. rewrite Hl, !number_value_spec, Hv, Hv6 by done. cbn [Nat.eqb mbind option_bind]. f_equal.
    rewrite (Z.div_mod u scale) at 3 by done. lia.
  - destruct Hd as [_ Hd]. eapply Forall_impl; [exact Hd|]. cbn. lia.
Qed.

(** No sign in front of the digits. *)
Lemma fixed_text_digit u : 0 <= u < 2 ^ 64 → read_fixed (fixed_text u) = read_digits (fixed_text u).
Proof.
  intros Hu. assert (Hq : 0 <= u / scale < 2 ^ 64).
  { unfold scale. split; [apply Z.div_pos; lia|]. apply Z.div_lt_upper_bound; lia. }
  destruct (FormatUint_spec _ Hq) as [[Hne Hd] _]. unfold fixed_text. destruct (FormatUint (u / scale)) as [|c t]; [done|].
  apply Forall_cons in Hd as [Hc _]. cbn [app]. unfold read_fixed. repeat case_match; done || lia.
Qed.

Lemma UintToString_read v : inU 64 v → read_fixed (UintToString v) = Some v.
Proof. intros Hv. unfold UintToString. by rewrite fixed_text_digit, read_fixed_text. Qed.

Lemma IntToString_read v : inS 64 v → read_fixed (IntToString v) = Some v.
Proof.
  unfold inS. change (64 - 1) with 63. intros Hv. unfold IntToString, wrapU. destruct (Z.ltb_spec v 0) as [Hn|Hp].
  - assert (Hu : - (v mod 2 ^ 64) mod 2 ^ 64 = - v).
    { rewrite <- (Z.mod_unique v (2 ^ 64) (-1) (v + 2 ^ 64)) by lia. symmetry. apply (Z.mod_unique _ _ (-1)); lia. }
    rewrite Hu. change (str "-") with [45]. cbn [app read_fixed]. rewrite read_fixed_text by lia. cbn. f_equal. lia.
  - rewrite Z.mod_small by lia. by rewrite fixed_text_digit, read_fixed_text by lia.
Qed.

Lemma UintToString_IntToString v : 0 <= v < 2 ^ 63 → UintToString v = IntToString v.
Proof. intros Hv. unfold IntToString, wrapU. rewrite (proj2 (Z.ltb_ge v 0)), Z.mod_small by lia. done. Qed.

(** *** Parsing *)

Lemma finite_float f x : scaled f = Some x → Z.abs x < beyond → PrimFloat.is_nan f || PrimFloat.is_infinity f = false.
Proof.
  intros Hf Hx. rewrite is_nan_scaled, Hf, bool_decide_eq_false_2 by done. unfold PrimFloat.is_infinity. cbn [orb].
  rewrite eqb_scaled. assert (Ha : scaled (PrimFloat.abs f) = Some (Z.abs x)).
  { pose proof (Prim2SF_valid f) as Hv. unfold scaled in *. rewrite FloatAxioms.abs_spec. destruct (Prim2SF f) as [b|b| |b m e]; cbn in *; simplify_eq; [done|by destruct b|].
    pose proof (finite_scaled m e Hv) as Hp. destruct b; cbn; f_equal; lia. }
  rewrite Ha. replace (scaled infinity) with (Some beyond) by done. apply Z.eqb_neq. lia.
Qed.

(** The float of a scaled integer is in the safe range. *)
Lemma IntToFloat_range v : - MaxInt <= v <= MaxInt → ∃ x, scaled (IntToFloat v) = Some x ∧ - (MaxFloat * unit1) <= x <= MaxFloat * unit1 ∧ (0 <= v → 0 <= x).
Proof.
  assert (Hpos : ∀ w, 0 <= w <= MaxInt → ∃ x, scaled (IntToFloat w) = Some x ∧ 0 <= x <= MaxFloat * unit1).
  { intros w Hw. destruct (Z.eq_dec w 0) as [->|]; [by eexists|]. destruct (Z.eq_dec w MaxInt) as [->|]; [by eexists|].
    destruct (quotient_near w) as (p & x & Hx & Hx0 & _); [lia|]. exists x. split; [done|lia]. }
  intros Hv. destruct (Z.le_gt_cases 0 v) as [Hp|Hn].
  - destruct (Hpos v) as (x & Hx & Hx0); [lia|]. exists x. split; [done|]. lia.
  - destruct (Hpos (- v)) as (x & Hx & Hx0); [lia|]. exists (- x). split; [|lia].
    assert (Ho : opposite (of_int (- v)) (of_int v)).
    { rewrite <- (Z.opp_involutive v) at 2. apply of_int_opposite. unfold MaxInt in Hv. lia. }
    apply (div_opposite _ _ precision), opposite_scaled in Ho. fold (IntToFloat (- v)) (IntToFloat v) in Ho. by rewrite Ho, Hx.
Qed.

(** What a parse gives. *)
Definition StringToInt_spec (r : option (result dec_error Z)) : Prop :=
  ∃ o, r = Some o ∧ match o with Ok z => - MaxInt <= z <= MaxInt | Error _ => True end.
Definition StringToUint_spec (r : option (result dec_error Z)) : Prop :=
  ∃ o, r = Some o ∧ match o with Ok z => 0 <= z <= MaxInt | Error _ => True end.

Section Parsed.
Context `{FloatParser}.

Lemma StringToInt_total s : StringToInt_spec (StringToInt s).
Proof.
  unfold StringToInt_spec, StringToInt. destruct (parse_float s) as [f|]; [|by eexists]. destruct (_ || _); [by eexists|]. destruct (_ || _); [by eexists|].
  destruct (FloatToInt_total f) as (z & -> & Hz). eexists. split; [done|exact Hz].
Qed.

Lemma StringToUint_total s : StringToUint_spec (StringToUint s).
Proof.
  unfold StringToUint_spec, StringToUint. destruct (parse_float s) as [f|]; [|by eexists]. destruct (_ || _); [by eexists|]. destruct (PrimFloat.ltb _ _); [by eexists|].
  destruct (FloatToUint_total f) as (z & -> & Hz). eexists. split; [done|exact Hz].
Qed.

(** The parser rounds correctly: what [IntToString] writes becomes the float
    nearest to it, which is the quotient [IntToFloat] computes. *)
Definition reads_decimals : Prop := ∀ v, - MaxInt <= v <= MaxInt → parse_float (IntToString v) = Some (IntToFloat v).

Lemma StringToInt_text v : reads_decimals → - MaxInt <= v <= MaxInt →
  StringToInt (IntToString v) = (z ← FloatToInt (IntToFloat v); Some (Ok z)) ∧
  (0 <= v → StringToUint (IntToString v) = (z ← FloatToUint (IntToFloat v); Some (Ok z))).
Proof.
  intros Hp Hv. unfold StringToInt, StringToUint. rewrite Hp by done. destruct (IntToFloat_range v Hv) as (x & Hx & Hr & Hr0).
  assert (Hb : MaxFloat * unit1 < beyond) by done. rewrite (finite_float _ x Hx) by lia.
  rewrite !ltb_scaled, Hx, maxfloat_scaled, (scaled_opp _ _ maxfloat_scaled).
  rewrite (proj2 (Z.ltb_ge _ x)), (proj2 (Z.ltb_ge x _)) by lia. done.
Qed.
End Parsed.

(** C12. Decimals kept as scaled integers. [IntToString] and [UintToString] are
    exact: an optional sign, the whole part, a point and six digits that read
    back as the same integer, for every 64-bit value, the least one included.
    Within [MaxInt], converting a scaled integer to a float, or to text that a
    correctly rounding [ParseFloat] reads, and back gives the integer again up
    to 2^32 units (six exact decimals up to 4294967296) and from 2^52 scaled
    on, and one of its neighbours at worst in between. Every float, NaN and
    the infinities included, becomes an integer within [MaxInt], and every text
    gives such an integer or an error. *)
Theorem fixed_point_exact `{FloatParser} v : reads_decimals →
  (inS 64 v → read_fixed (IntToString v) = Some v) ∧ (inU 64 v → read_fixed (UintToString v) = Some v) ∧
  (- MaxInt <= v <= MaxInt → ∃ z, comes_back v z ∧ FloatToInt (IntToFloat v) = Some z ∧ StringToInt (IntToString v) = Some (Ok z) ∧
    (0 <= v → FloatToUint (UintToFloat v) = Some z ∧ StringToUint (UintToString v) = Some (Ok z))) ∧
  (∀ f, in_range (FloatToInt f) ∧ in_urange (FloatToUint f)) ∧ (∀ s, StringToInt_spec (StringToInt s) ∧ StringToUint_spec (StringToUint s)).
Proof.
  intros Hp. split; [apply IntToString_read|]. split; [apply UintToString_read|]. split.
  - intros Hv. destruct (StringToInt_text v Hp Hv) as [Hs Hu]. destruct (roundtrip_int v Hv) as (z & Hz & Hc).
    exists z. rewrite Hs, Hz. split_and!; [done|done|done|]. intros H0. rewrite UintToString_IntToString, Hu by (unfold MaxInt in Hv; lia).
    destruct (roundtrip_from0 v) as (z' & Hz' & Huz & _); [lia|]. change (UintToFloat v) with (IntToFloat v). rewrite Huz. assert (z' = z) as -> by congruence. done.
  - split; intros; split; auto using FloatToInt_total, FloatToUint_total, StringToInt_total, StringToUint_total.
Qed.

(** A parser that reads such texts. *)
Definition fixed_parser : FloatParser := fun s => IntToFloat <$> read_fixed s.

Lemma fixed_parser_reads : @reads_decimals fixed_parser.
Proof. intros v Hv. unfold parse_float, fixed_parser. rewrite IntToString_read; [done|]. unfold inS, MaxInt in *. lia. Qed.

(** -1.234567 as text and back. *)
Lemma fixed_point_exact_witness :
  @reads_decimals fixed_parser ∧ IntToString (-1234567) = str "-1.234567" ∧
  ∃ z, comes_back (-1234567) z ∧ @StringToInt fixed_parser (IntToString (-1234567)) = Some (Ok z).
Proof.
  split; [exact fixed_parser_reads|]. split; [vm_compute; reflexivity|].
  destruct (@fixed_point_exact fixed_parser (-1234567) fixed_parser_reads) as (_ & _ & Hb & _).
  destruct Hb as (z & Hc & _ & Hs & _); [unfold MaxInt; lia|]. exists z. split; [exact Hc|exact Hs].
Defined.

(** The last units of the safe range do not all survive: 4444469772.104511. *)
Example six_decimals_lost : FloatToInt (IntToFloat 4444469772104511) = Some 4444469772104512.
Proof. vm_compute. reflexivity. Qed.

Example six_decimals_lost_text : @StringToInt fixed_parser (str "4444469772.104511") = Some (Ok 4444469772104512).
Proof. vm_compute. reflexivity. Qed.

(** Halves go away from zero; out-of-range values are clamped. *)
Example half_up : FloatToInt (PrimFloat.div (of_int 5) (of_int 2000000)) = Some 3 ∧ FloatToInt (of_int (2 ^ 40)) = Some MaxInt.
Proof. vm_compute. done. Qed.
