(* ===== verification/HTTPRetrier.v ===== *)
(** * [pkg/httpretrier]: retrying HTTP requests

    options.go and httpretrier.go. The environment of a call (what the client
    answers at each attempt, whether bodies can be closed and reopened, when
    the request's context ends, the clock and the random draws) is given as
    functions of the attempt; the call itself is a deterministic function of
    it. Bodies are known by the attempt they belong to, so that what happens
    to each is in the trace of the calls made. *)

From stdpp Require Import base option list.
From Stdlib Require Import Floats String.
From S2P Require Import Prelude Backoff GoString GoText.

#[local] Open Scope Z_scope.

(** ** Responses and requests *)

(** What the package reads of a response: its status, its Retry-After header
    (empty if absent) and whether it has a body. *)
Record Response : Type := MkResponse {
  StatusCode : Z;
  RetryAfter : gostring;
  HasBody : bool
}.

(** A body of the request: the one it came with, or the one [GetBody] opened
    for an attempt. *)
Inductive stream := Original | Fresh (i : nat).

Section HTTPRetrier.
(** Errors of the client, of bodies and of [GetBody]; errors of a context. *)
Context {E CE : Type}.

Inductive do_error :=
| ClientError (e : E)
| ErrReopenBody (e : E)
| ErrCloseBody (e : E)
| ErrBodyNotReplayable.

(** [RetryIfFn]. *)
Definition RetryIfFn : Type := option Response → option do_error → bool.

(** [HTTPRetrier], but for its client, which is part of the environment; of
    the observability callback only its presence is kept, its calls are in
    the trace. *)
Record HTTPRetrier : Type := MkHTTPRetrier {
  delayFactor : float;
  delay : Z;
  jitter : Z;
  maxDelay : Z;
  attempts : Z;
  strategy : JitterStrategy;
  respectRetryAfter : bool;
  maxRetryAfter : Z;
  retryIfFn : RetryIfFn;
  onRetry : bool
}.

Definition Second : Z := 1000000000.
Definition DefaultAttempts : Z := 4.
Definition DefaultDelay : Z := 1 * Second.
Definition DefaultDelayFactor : float := 2%float.
Definition DefaultJitter : Z := 100000000.
Definition DefaultMaxDelay : Z := 30 * Second.
Definition DefaultMaxRetryAfter : Z := 24 * 3600 * Second.

(** ** Retry policies *)

Definition defaultRetryIf : RetryIfFn := fun _ err => match err with Some _ => true | None => false end.

Definition retry_on (codes : list Z) : RetryIfFn := fun r err =>
  match err, r with
  | Some _, _ => true
  | None, None => false
  | None, Some r => bool_decide (StatusCode r ∈ codes)
  end.

Definition RetryIfForWriteRequests : RetryIfFn := retry_on [429; 502; 503].

Definition RetryIfForReadRequests : RetryIfFn := retry_on [404; 408; 409; 423; 425; 429; 500; 502; 503; 504; 507].

Definition RetryIfFnByHTTPMethod (httpMethod : gostring) : RetryIfFn :=
  if str_eqb httpMethod (str "GET") then RetryIfForReadRequests else RetryIfForWriteRequests.

Definition defaultHTTPRetrier : HTTPRetrier :=
  MkHTTPRetrier DefaultDelayFactor DefaultDelay DefaultJitter DefaultMaxDelay DefaultAttempts JitterAdditive
    false DefaultMaxRetryAfter defaultRetryIf false.

(** ** Options *)

Inductive option_error :=
| ErrRetryFnRequired | ErrAttempts | ErrDelay | ErrDelayFactor | ErrJitter | ErrMaxDelay | ErrStrategy | ErrMaxRetryAfter | ErrOnRetryRequired.

Definition Option : Type := HTTPRetrier → result option_error HTTPRetrier.

(** A nil function is [None]. *)
Definition WithRetryIfFn (f : option RetryIfFn) : Option := fun c =>
  match f with
  | None => Error ErrRetryFnRequired
  | Some f => Ok (MkHTTPRetrier (delayFactor c) (delay c) (jitter c) (maxDelay c) (attempts c) (strategy c)
                    (respectRetryAfter c) (maxRetryAfter c) f (onRetry c))
  end.

Definition WithAttempts (n : Z) : Option := fun c =>
  if n <? 1 then Error ErrAttempts
  else Ok (MkHTTPRetrier (delayFactor c) (delay c) (jitter c) (maxDelay c) n (strategy c)
             (respectRetryAfter c) (maxRetryAfter c) (retryIfFn c) (onRetry c)).

Definition WithDelay (d : Z) : Option := fun c =>
  if d <? 1 then Error ErrDelay
  else Ok (MkHTTPRetrier (delayFactor c) d (jitter c) (maxDelay c) (attempts c) (strategy c)
             (respectRetryAfter c) (maxRetryAfter c) (retryIfFn c) (onRetry c)).

Definition WithDelayFactor (f : float) : Option := fun c =>
  if PrimFloat.ltb f 1 then Error ErrDelayFactor
  else Ok (MkHTTPRetrier f (delay c) (jitter c) (maxDelay c) (attempts c) (strategy c)
             (respectRetryAfter c) (maxRetryAfter c) (retryIfFn c) (onRetry c)).

Definition WithJitter (j : Z) : Option := fun c =>
  if j <? 1 then Error ErrJitter
  else Ok (MkHTTPRetrier (delayFactor c) (delay c) j (maxDelay c) (attempts c) (strategy c)
             (respectRetryAfter c) (maxRetryAfter c) (retryIfFn c) (onRetry c)).

Definition WithMaxDelay (m : Z) : Option := fun c =>
  if m <? 1 then Error ErrMaxDelay
  else Ok (MkHTTPRetrier (delayFactor c) (delay c) (jitter c) m (attempts c) (strategy c)
             (respectRetryAfter c) (maxRetryAfter c) (retryIfFn c) (onRetry c)).

Definition WithJitterStrategy (s : JitterStrategy) : Option := fun c =>
  if negb (Valid s) then Error ErrStrategy
  else Ok (MkHTTPRetrier (delayFactor c) (delay c) (jitter c) (maxDelay c) (attempts c) s
             (respectRetryAfter c) (maxRetryAfter c) (retryIfFn c) (onRetry c)).

Definition WithRespectRetryAfter : Option := fun c =>
  Ok (MkHTTPRetrier (delayFactor c) (delay c) (jitter c) (maxDelay c) (attempts c) (strategy c)
        true (maxRetryAfter c) (retryIfFn c) (onRetry c)).

Definition WithMaxRetryAfter (m : Z) : Option := fun c =>
  if m <? 1 then Error ErrMaxRetryAfter
  else Ok (MkHTTPRetrier (delayFactor c) (delay c) (jitter c) (maxDelay c) (attempts c) (strategy c)
             (respectRetryAfter c) m (retryIfFn c) (onRetry c)).

Definition WithOnRetry (set : bool) : Option := fun c =>
  if negb set then Error ErrOnRetryRequired
  else Ok (MkHTTPRetrier (delayFactor c) (delay c) (jitter c) (maxDelay c) (attempts c) (strategy c)
             (respectRetryAfter c) (maxRetryAfter c) (retryIfFn c) true).

Fixpoint apply_opts (opts : list Option) (c : HTTPRetrier) : result option_error HTTPRetrier :=
  (match opts with
   | [] => Ok c
   | o :: opts => c' <-? o c ;; apply_opts opts c'
   end)%go.

Definition New (opts : list Option) : result option_error HTTPRetrier := apply_opts opts defaultHTTPRetrier.

(** ** A call *)

(** The calls a [Do] makes. *)
Inductive event :=
| Sent (i : nat) (b : option stream)  (** the client's [Do], with the request's body *)
| Closed (i : nat)                    (** [Close] of the body of the response to attempt [i] *)
| Notified (n d : Z) (r : option Response) (e : option do_error)
| Wait (i : nat) (d : Z).             (** the timer is set for the next attempt *)

(** The environment, by attempt: the context's error at each instant (instant
    [0] is the entry of [Do], [2 i + 1] the [i]-th select, [2 i + 2] the end of
    the [i]-th attempt), the client's answer, the errors of [Close] and of
    [GetBody], whether a select with both channels ready takes the context's,
    the random draws of the schedule and of the jitter on Retry-After, the
    clock; and [http.ParseTime]. *)
Record env : Type := Env {
  ctxErr : nat → option CE;
  client : nat → option Response * option E;
  closeErr : nat → option E;
  getBodyErr : nat → option E;
  pickDone : nat → bool;
  draw : nat → Z → Z;
  drawRetryAfter : nat → Z → Z;
  now : nat → Z;
  ParseTime : gostring → option Z
}.

(** [doState], with the request's body and the calls made so far. [timer]
    tells whether it is armed or has fired undrained; the number next to a
    response is its attempt. *)
Record doState : Type := DoState {
  sched : Schedule;
  timer : bool;
  doResponse : option (nat * Response);
  doError : option do_error;
  remainingAttempts : Z;
  body : option stream;
  events : list event
}.

(** [Sub] of two times saturates. *)
Definition Sub (t u : Z) : Z := Z.max (- 2 ^ 63) (Z.min (2 ^ 63 - 1) (t - u)).

Definition retryAfterDelay (ev : env) (resp : option Response) (now maxRA : Z) : option Z :=
  match resp with
  | None => None
  | Some resp =>
      if str_eqb (RetryAfter resp) [] then None
      else match ParseInt (RetryAfter resp) with
           | Some secs =>
               if secs <=? 0 then None
               else if Z.quot maxRA Second <? secs then Some maxRA
               else Some (wrapS 64 (secs * Second))
           | None =>
               t ← ParseTime ev (RetryAfter resp);
               let d := Sub t now in
               if d <=? 0 then None else if maxRA <? d then Some maxRA else Some d
           end
  end.

Definition response (s : doState) : option Response := snd <$> doResponse s.

(** [Close] of the response's body, if there is one. *)
Definition closing (s : doState) : list event :=
  match doResponse s with
  | Some (i, r) => if HasBody r then [Closed i] else []
  | None => []
  end.

Definition dropResponse (s : doState) : doState :=
  DoState (sched s) (timer s) None (doError s) (remainingAttempts s) (body s) (events s ++ closing s).

(** It fails with the error of [Close]; [getBody] is [r.GetBody != nil]. *)
Definition closeAndCheckReplay (ev : env) (getBody : bool) (s : doState) : bool * doState :=
  let s' := DoState (sched s) (timer s) (doResponse s) (doError s) (remainingAttempts s) (body s) (events s ++ closing s) in
  let fail err := (false, DoState (sched s) (timer s) None (Some err) (remainingAttempts s) (body s) (events s')) in
  let cerr := match doResponse s with Some (i, r) => if HasBody r then closeErr ev i else None | None => None end in
  match cerr, getBody, body s with
  | Some e, _, _ => fail (ErrCloseBody e)
  | None, false, Some _ => fail ErrBodyNotReplayable
  | None, _, _ => (true, s')
  end.

Definition reopenBodyForRetry (ev : env) (c : HTTPRetrier) (getBody : bool) (i : nat) (s : doState) : bool * doState :=
  if (remainingAttempts s =? attempts c) || negb getBody then (true, s)
  else match getBodyErr ev i with
       | Some e => (false, DoState (sched s) (timer s) None (Some (ErrReopenBody e)) (remainingAttempts s) (body s) (events s))
       | None => (true, DoState (sched s) (timer s) (doResponse s) (doError s) (remainingAttempts s) (Some (Fresh i)) (events s))
       end.

(** [None] only if the schedule's conversion is out of range. *)
Definition scheduleRetry (ev : env) (c : HTTPRetrier) (i : nat) (s : doState) : option doState :=
  match ctxErr ev (2 * i + 2) with
  | Some _ => Some s
  | None =>
      '(d, sched') ← Next (draw ev i) (sched s);
      let d :=
        match (if respectRetryAfter c then retryAfterDelay ev (response s) (now ev i) (maxRetryAfter c) else None) with
        | Some ra => if d <? ra then AddJitter (drawRetryAfter ev i) ra (jitter c) else d
        | None => d
        end in
      let notified := if onRetry c then [Notified (wrapU 64 (attempts c - remainingAttempts s)) d (response s) (doError s)] else [] in
      Some (DoState sched' true (doResponse s) (doError s) (remainingAttempts s) (body s) (events s ++ notified ++ [Wait i d]))
  end.

(** [run]: whether the call is over. *)
Definition run (ev : env) (c : HTTPRetrier) (getBody : bool) (i : nat) (s : doState) : option (bool * doState) :=
  let '(ok, s) := reopenBodyForRetry ev c getBody i s in
  if negb ok then Some (true, s)
  else
    let '(resp, err) := client ev i in
    let s := DoState (sched s) (timer s) (pair i <$> resp) (ClientError <$> err) (wrapU 64 (remainingAttempts s - 1)) (body s)
               (events s ++ [Sent i (body s)]) in
    if (remainingAttempts s =? 0) || negb (retryIfFn c (response s) (doError s)) then
      Some (true, match doError s with Some _ => dropResponse s | None => s end)
    else
      let '(ok, s) := closeAndCheckReplay ev getBody s in
      if negb ok then Some (true, s) else s ← scheduleRetry ev c i s; Some (false, s).

Inductive outcome :=
| BeforeFirst (ce : CE)  (** the context had ended before the first attempt *)
| ContextEnded (ce : CE)
| Returned (r : option (nat * Response)) (e : option do_error)
| Blocked.               (** a select that no channel will ever release *)

(** The timer's channel is drained when the select takes it. *)
Definition drained (s : doState) : doState :=
  DoState (sched s) false (doResponse s) (doError s) (remainingAttempts s) (body s) (events s).

Fixpoint do_loop (fuel : nat) (ev : env) (c : HTTPRetrier) (getBody : bool) (i : nat) (s : doState) : option (outcome * doState) :=
  match fuel with
  | O => None
  | S fuel =>
      let attempt :=
        '(stop, s) ← run ev c getBody i (drained s);
        if stop : bool then Some (Returned (doResponse s) (doError s), s) else do_loop fuel ev c getBody (S i) s in
      match ctxErr ev (2 * i + 1), timer s with
      | Some ce, true => if pickDone ev i then Some (ContextEnded ce, s) else attempt
      | Some ce, false => Some (ContextEnded ce, s)
      | None, true => attempt
      | None, false => Some (Blocked, s)
      end
  end.

(** A request whose body is [b] and whose [GetBody] is set or not. *)
Definition start_do (c : HTTPRetrier) (b : option stream) : doState :=
  DoState (NewSchedule (MkBackoffConfig (delay c) (delayFactor c) (jitter c) (maxDelay c) (strategy c))) true None None (attempts c) b [].

Definition Do (fuel : nat) (ev : env) (c : HTTPRetrier) (getBody : bool) (hasBody : bool) : option (outcome * doState) :=
  let s := start_do c (if hasBody then Some Original else None) in
  match ctxErr ev 0 with
  | Some ce => Some (BeforeFirst ce, s)
  | None => do_loop fuel ev c getBody 0 s
  end.

(** ** Facts *)

(** The configurations the options produce. *)
Record valid (c : HTTPRetrier) : Prop := HTTPRetrierValid {
  v_attempts : 1 <= attempts c < 2 ^ 64;
  v_delay : 1 <= delay c;
  v_factor : PrimFloat.ltb (delayFactor c) 1 = false;
  v_jitter : 1 <= jitter c <= MaxInt64;
  v_maxDelay : 1 <= maxDelay c;
  v_strategy : Valid (strategy c) = true;
  v_maxRetryAfter : 1 <= maxRetryAfter c <= MaxInt64
}.

(** The package's options, on arguments in the range of their types. *)
Inductive package_option : Option → Prop :=
| po_retry f : package_option (WithRetryIfFn f)
| po_attempts n : inU 64 n → package_option (WithAttempts n)
| po_delay d : package_option (WithDelay d)
| po_factor f : package_option (WithDelayFactor f)
| po_jitter j : inS 64 j → package_option (WithJitter j)
| po_maxDelay m : package_option (WithMaxDelay m)
| po_strategy s : package_option (WithJitterStrategy s)
| po_respect : package_option WithRespectRetryAfter
| po_maxRetryAfter m : inS 64 m → package_option (WithMaxRetryAfter m)
| po_onRetry b : package_option (WithOnRetry b).

Lemma default_http_valid : valid defaultHTTPRetrier.
Proof. constructor; simpl; try lia; done. Qed.

Lemma http_option_valid o c c' : package_option o → valid c → o c = Ok c' → valid c'.
Proof.
  intros Ho [] Hc. destruct Ho; cbv [WithRetryIfFn WithAttempts WithDelay WithDelayFactor WithJitter WithMaxDelay
    WithJitterStrategy WithRespectRetryAfter WithMaxRetryAfter WithOnRetry] in Hc; repeat case_match; simplify_eq;
    try done; constructor; simpl; try done; try lia; unfold inU, inS, MaxInt64 in *; try lia.
  by apply negb_false_iff.
Qed.

Lemma http_New_valid opts c : Forall package_option opts → New opts = Ok c → valid c.
Proof.
  unfold New. generalize default_http_valid. generalize defaultHTTPRetrier.
  induction opts as [|o opts IH]; intros c0 Hc0 Ho Hc; cbn [apply_opts] in Hc; [by simplify_eq|].
  apply Forall_cons in Ho as [Ho Hos]. destruct (o c0) as [c1|e] eqn:Hoc; cbn in Hc; [|done].
  eapply IH; [|exact Hos|exact Hc]. by eapply http_option_valid.
Qed.

(** The delay a server asked for is positive and within the cap. *)
Lemma retryAfterDelay_range ev resp t maxRA ra : 1 <= maxRA <= MaxInt64 → retryAfterDelay ev resp t maxRA = Some ra → 0 < ra <= maxRA.
Proof.
  intros Hm Hra. unfold retryAfterDelay in Hra. destruct resp as [resp|]; [|done]. destruct (str_eqb _ _); [done|].
  destruct (ParseInt _) as [secs|].
  - destruct (Z.leb_spec secs 0); [done|]. destruct (Z.ltb_spec (Z.quot maxRA Second) secs) as [Hlt|Hge]; simplify_eq; [lia|].
    rewrite Z.quot_div_nonneg in Hge by (unfold Second; lia). assert (secs * Second <= maxRA).
    { pose proof (Z.mul_div_le maxRA Second ltac:(done)). unfold Second in *. nia. }
    rewrite wrapS_small by (done || unfold inS, MaxInt64, Second in *; lia). unfold Second in *. lia.
  - destruct (ParseTime _ _) as [w|]; [|done]. cbn [mbind option_bind] in Hra. destruct (Z.leb_spec (Sub w t) 0); [done|].
    destruct (Z.ltb_spec maxRA (Sub w t)); simplify_eq; lia.
Qed.

Section Call.
Variables (ev : env) (c : HTTPRetrier) (getBody : bool) (orig : option stream).
Hypothesis (Hc : valid c).
Hypothesis (Hdraw : ∀ i, draws (draw ev i)).
Hypothesis (HdrawRA : ∀ i, draws (drawRetryAfter ev i)).
(** The context stays ended once it has ended. *)
Hypothesis (Hctx : ∀ i j ce, (i <= j)%nat → ctxErr ev i = Some ce → ctxErr ev j = Some ce).

(** The answer to attempt [k]. *)
Definition answer (k : nat) : option Response := (client ev k).1.
Definition failure (k : nat) : option do_error := ClientError <$> (client ev k).2.
Definition retryable (k : nat) : Prop := retryIfFn c (answer k) (failure k) = true.
Definition has_body (k : nat) : bool := match answer k with Some r => HasBody r | None => false end.
Definition body_of (k : nat) : option stream := if (k =? 0)%nat || negb getBody then orig else Some (Fresh k).
Definition asked (k : nat) : option Z := if respectRetryAfter c then retryAfterDelay ev (answer k) (now ev k) (maxRetryAfter c) else None.

(** The calls of an attempt that is retried after the delay [d]. *)
Definition closes (k : nat) : list event := if has_body k then [Closed k] else [].
Definition sent (k : nat) : list event := Sent k (body_of k) :: closes k.
Definition waits (k : nat) (d : Z) : list event := (if onRetry c then [Notified (Z.of_nat k + 1) d (answer k) (failure k)] else []) ++ [Wait k d].
Definition round (k : nat) (d : Z) : list event := sent k ++ waits k d.
Definition rounds (ds : list Z) : list event := concat (imap round ds).

(** The delay before the attempt after [k]. *)
Definition delay_ok (k : nat) (d : Z) : Prop := 0 <= d <= MaxInt64 ∧ ∀ ra, asked k = Some ra → ra <= d.
Definition retried (ds : list Z) : Prop := ∀ k d, ds !! k = Some d → retryable k ∧ delay_ok k d.

Lemma rounds_snoc ds d : rounds (ds ++ [d]) = rounds ds ++ round (length ds) d.
Proof. unfold rounds. rewrite imap_app, concat_app. cbn. by rewrite app_nil_r, Nat.add_0_r. Qed.

Lemma retried_snoc ds d : retried ds → retryable (length ds) → delay_ok (length ds) d → retried (ds ++ [d]).
Proof.
  intros Hds Hr Hd k d' [Hk|[Hk Hk']]%lookup_app_Some; [by apply Hds|]. apply list_lookup_singleton_Some in Hk' as [Hk0 <-].
  by assert (k = length ds) as -> by lia.
Qed.

(** What a finished call guarantees: the calls it made, in order, and why it
    ended. *)
Definition do_result (out : outcome) (l : list event) : Prop :=
  ∃ ds, retried ds ∧ Z.of_nat (length ds) < attempts c ∧ ((0 < length ds)%nat → getBody = true ∨ orig = None) ∧ let k := length ds in
    match out with
    | BeforeFirst ce => l = [] ∧ ctxErr ev 0 = Some ce
    | ContextEnded ce => (l = rounds ds ∧ ctxErr ev (2 * k + 1) = Some ce) ∨ (l = rounds ds ++ sent k ∧ retryable k ∧ ctxErr ev (2 * S k + 1) = Some ce)
    | Returned r e =>
        (e = failure k ∧ (Z.of_nat (S k) = attempts c ∨ ¬ retryable k) ∧
           match e with
           | Some _ => r = None ∧ l = rounds ds ++ sent k
           | None => r = pair k <$> answer k ∧ l = rounds ds ++ [Sent k (body_of k)]
           end) ∨
        (r = None ∧ l = rounds ds ++ sent k ∧ retryable k ∧
           ((has_body k = true ∧ e = ErrCloseBody <$> closeErr ev k ∧ is_Some e) ∨ (k = O ∧ getBody = false ∧ is_Some orig ∧ e = Some ErrBodyNotReplayable))) ∨
        (r = None ∧ l = rounds ds ∧ (0 < k)%nat ∧ getBody = true ∧ e = ErrReopenBody <$> getBodyErr ev k ∧ is_Some e)
    | Blocked => False
    end.

(** The state of a call between two attempts. *)
Record between (i : nat) (s : doState) : Prop := Between {
  bt_remaining : remainingAttempts s = attempts c - Z.of_nat i;
  bt_left : Z.of_nat i < attempts c;
  bt_body : (i = O ∨ getBody = false) → body s = orig;
  bt_replay : (0 < i)%nat → getBody = true ∨ orig = None;
  bt_jitter : s_jitter (sched s) = jitter c;
  bt_calls : ∃ ds, retried ds ∧
    if timer s then length ds = i ∧ events s = rounds ds
    else i = S (length ds) ∧ events s = rounds ds ++ sent (length ds) ∧ retryable (length ds) ∧ is_Some (ctxErr ev (2 * i))
}.

Lemma scheduleRetry_spec i s ds :
  timer s = false → events s = rounds ds ++ sent i → length ds = i → retried ds → retryable i → response s = answer i → doError s = failure i →
  remainingAttempts s = attempts c - Z.of_nat (S i) → Z.of_nat (S i) < attempts c → (getBody = false → body s = orig) → getBody = true ∨ orig = None →
  s_jitter (sched s) = jitter c → ∃ s', scheduleRetry ev c i s = Some s' ∧ between (S i) s'.
Proof.
  intros Ht Hev Hi Hds Hri Hresp Herr Hrem Hleft Hbody Hrep Hj. pose proof (v_attempts _ Hc) as Hat. pose proof (v_jitter _ Hc) as Hjit.
  unfold scheduleRetry. destruct (ctxErr ev (2 * i + 2)) as [ce|] eqn:Hce.
  - exists s. split; [done|]. constructor; try done; [intros [|]; auto; lia|].
    exists ds. rewrite Ht, Hi. split_and!; try done. exists ce. rewrite <- Hce. f_equal. lia.
  - destruct (Next_spec (draw ev i) (sched s) (Hdraw i)) as (dl & d & -> & _ & _ & _ & Hd); [lia|]. cbn [mbind option_bind].
    rewrite Hresp, Herr, Hrem, wrapU_small by (unfold inU; lia). fold (asked i).
    set (d' := match asked i with Some ra => if d <? ra then AddJitter (drawRetryAfter ev i) ra (jitter c) else d | None => d end).
    assert (Hd' : delay_ok i d').
    { subst d'. unfold delay_ok. destruct (asked i) as [ra|] eqn:Hra; [|split; [done|by intros]].
      assert (0 < ra <= maxRetryAfter c).
      { unfold asked in Hra. destruct (respectRetryAfter c); [|done]. eapply retryAfterDelay_range; [apply (v_maxRetryAfter _ Hc)|exact Hra]. }
      pose proof (v_maxRetryAfter _ Hc). destruct (Z.ltb_spec d ra).
      - rewrite AddJitter_spec by (done || lia). rewrite (proj2 (Z.leb_gt (jitter c) 0)) by lia. pose proof (HdrawRA i (jitter c) ltac:(lia)).
        split; [lia|]. intros ? [= <-]. lia.
      - split; [done|]. intros ? [= <-]. lia. }
    clearbody d'. eexists. split; [done|]. constructor; cbn [remainingAttempts body sched timer events]; try done; [intros [|]; auto; lia|].
    exists (ds ++ [d']). split; [apply retried_snoc; by rewrite ?Hi|]. split; [rewrite length_app; cbn; lia|].
    rewrite rounds_snoc, Hev, Hi. unfold round, waits. rewrite <- !app_assoc. do 4 f_equal. destruct (onRetry c); [|done]. do 2 f_equal. lia.
Qed.

Lemma body_of_orig i : getBody = false → body_of i = orig.
Proof. intros Hg. unfold body_of. rewrite Hg. cbn [negb]. by rewrite orb_true_r. Qed.

Lemma run_spec i s : between i s → timer s = true →
  ∃ stop s', run ev c getBody i (drained s) = Some (stop, s') ∧
    if stop : bool then do_result (Returned (doResponse s') (doError s')) (events s') else between (S i) s'.
Proof.
  intros [Hrem Hleft Hbody Hrep Hj (ds & Hds & Hcalls)] Ht. rewrite Ht in Hcalls. destruct Hcalls as [Hi Hev].
  pose proof (v_attempts _ Hc) as Hat. unfold run.
  assert (Hreopen : (∃ e, reopenBodyForRetry ev c getBody i (drained s) = (false, DoState (sched s) false None (Some (ErrReopenBody e)) (remainingAttempts s) (body s) (events s))
      ∧ getBodyErr ev i = Some e ∧ (0 < i)%nat ∧ getBody = true) ∨
    ∃ r e, reopenBodyForRetry ev c getBody i (drained s) = (true, DoState (sched s) false r e (remainingAttempts s) (body_of i) (events s))).
  { unfold reopenBodyForRetry, body_of, drained. cbn [remainingAttempts sched timer body events doResponse doError]. rewrite Hrem.
    destruct (Nat.eqb_spec i 0) as [->|Hi0]; cbn [orb].
    - right. rewrite (proj2 (Z.eqb_eq _ _)) by lia. rewrite <- Hbody by auto. cbn [orb]. eauto.
    - rewrite (proj2 (Z.eqb_neq _ _)) by lia. cbn [orb]. destruct getBody; cbn [negb]; [|right; rewrite Hbody by auto; eauto].
      destruct (getBodyErr ev i) as [e|] eqn:He; [left|right; eauto]. exists e. split_and!; try done. lia. }
  destruct Hreopen as [(e & -> & He & Hi0 & Hgb)|(r0 & e0 & ->)]; cbn [negb].
  { eexists _, _. split; [done|]. exists ds. split; [done|]. split; [lia|]. split; [rewrite Hi; intros Hlt; destruct (Hrep Hlt); [left; congruence|by right]|]. right. right. cbn [events doResponse doError].
    rewrite Hi, He. split_and!; try done; by exists (ErrReopenBody e). }
  cbn [sched timer remainingAttempts body events]. 
  destruct (client ev i) as [resp err] eqn:Hcl. assert (Ha : answer i = resp) by (unfold answer; by rewrite Hcl). assert (Hf : failure i = ClientError <$> err) by (unfold failure; by rewrite Hcl).
  rewrite Hrem, wrapU_small by (unfold inU; lia).
  set (s1 := DoState _ _ _ _ _ _ _). assert (Hresp : response s1 = answer i) by (unfold response; subst s1; cbn; rewrite Ha; by destruct resp).
  assert (Hdr : doResponse s1 = pair i <$> answer i) by (by rewrite Ha). assert (Herr : doError s1 = failure i) by done.
  assert (Hclosing : closing s1 = closes i) by (unfold closing, closes, has_body; rewrite Hdr; by destruct (answer i)).
  assert (Hev1 : events s1 = rounds ds ++ [Sent i (body_of i)]) by (subst s1; cbn; by rewrite Hev).
  rewrite Hresp, Herr. destruct ((attempts c - Z.of_nat i - 1 =? 0) || negb (retryIfFn c (answer i) (failure i))) eqn:Hstop.
  - eexists _, _. split; [done|]. exists ds. split; [done|]. split; [lia|]. split; [rewrite Hi; intros Hlt; destruct (Hrep Hlt); [left; congruence|by right]|]. rewrite Hi. left.
    assert (Hlast : Z.of_nat (S i) = attempts c ∨ ¬ retryable i).
    { apply orb_true_iff in Hstop as [H0|H0]; [left|right].
      - apply Z.eqb_eq in H0. lia.
      - unfold retryable. apply negb_true_iff in H0. by rewrite H0. }
    destruct (failure i) as [e|] eqn:Hfi.
    + change (doError (dropResponse s1)) with (doError s1). rewrite Herr. split; [done|]. split; [done|].
      cbn [dropResponse doResponse events]. rewrite Hclosing, Hev1, <- app_assoc. done.
    + rewrite Herr. done.
  - apply orb_false_iff in Hstop as [H0 Hre%negb_false_iff]. apply Z.eqb_neq in H0.
    assert (Hev2 : events s1 ++ closing s1 = rounds ds ++ sent i) by (by rewrite Hclosing, Hev1, <- app_assoc).
    unfold closeAndCheckReplay. cbn [events]. rewrite Hdr, Hev2.
    change (body s1) with (body_of i).
    destruct (match pair i <$> answer i with Some (i0, r) => if HasBody r then closeErr ev i0 else None | None => None end) as [e|] eqn:Hcerr; cbn [negb].
    { eexists _, _. split; [done|]. exists ds. split; [done|]. split; [lia|]. split; [rewrite Hi; intros Hlt; destruct (Hrep Hlt); [left; congruence|by right]|]. right. left. cbn [events doResponse doError]. rewrite Hi. split_and!; try done.
      left. unfold has_body. destruct (answer i) as [rr|]; [|done]. cbn in Hcerr. destruct (HasBody rr); [|done]. rewrite Hcerr. split_and!; done. }
    assert (Hgo : (getBody = true ∨ body_of i = None) → ∃ s', scheduleRetry ev c i (DoState (sched s1) (timer s1) (doResponse s1) (doError s1) (remainingAttempts s1) (body_of i) (rounds ds ++ sent i)) = Some s' ∧ between (S i) s').
    { intros Hb. apply (scheduleRetry_spec _ _ ds); try done.
      - cbn. lia.
      - lia.
      - cbn [body]. apply body_of_orig.
      - destruct Hb as [->|Hb]; [by left|]. destruct getBody eqn:Hg; [by left|right]. by rewrite <- (body_of_orig i Hg). }
    destruct getBody eqn:Hgb; [|destruct (body_of i) as [b|] eqn:Hbi].
    + destruct Hgo as (s' & Hs' & Hb'); [by left|]. rewrite <- Hdr. cbn [negb]. 
      replace (match body_of i with Some _ | _ => _ end) with (true, DoState (sched s1) (timer s1) (doResponse s1) (doError s1) (remainingAttempts s1) (body_of i) (rounds ds ++ sent i)) by (by destruct (body_of i)).
      cbn [negb]. rewrite Hs'. cbn [mbind option_bind]. eauto.
    + cbn [negb]. eexists _, _. split; [done|]. exists ds. split; [done|]. split; [lia|]. split; [rewrite Hi; intros Hlt; destruct (Hrep Hlt); [left; congruence|by right]|]. right. left. cbn [events doResponse doError]. rewrite Hi. split_and!; try done.
      right. assert (Ho : orig = Some b) by (by rewrite <- (body_of_orig i Hgb)).
      assert (i = O) as -> by (destruct i; [done|destruct Hrep as [|]; [lia|congruence|congruence]]). split_and!; done.
    + destruct Hgo as (s' & Hs' & Hb'); [by right|]. rewrite <- Hdr. cbn [negb]. rewrite Hs'. cbn [mbind option_bind]. eauto.
Qed.

Lemma do_loop_spec fuel : ∀ i s, between i s → attempts c < Z.of_nat (fuel + i) →
  ∃ out s', do_loop fuel ev c getBody i s = Some (out, s') ∧ do_result out (events s').
Proof.
  induction fuel as [|fuel IH]; intros i s Hs Hf; [pose proof (bt_left _ _ Hs); lia|]. cbn [do_loop].
  assert (Hgo : timer s = true → ∃ out s', ('(stop, s) ← run ev c getBody i (drained s);
      if stop : bool then Some (Returned (doResponse s) (doError s), s) else do_loop fuel ev c getBody (S i) s) = Some (out, s') ∧ do_result out (events s')).
  { intros Ht. destruct (run_spec i s Hs Ht) as ([] & s' & -> & Hs'); cbn [mbind option_bind]; [eauto|]. apply IH; [done|lia]. }
  assert (Hend : ∀ ce, ctxErr ev (2 * i + 1) = Some ce → do_result (ContextEnded ce) (events s)).
  { intros ce Hce. destruct Hs as [_ Hleft _ Hrep _ (ds & Hds & Hcalls)]. exists ds. split; [done|]. destruct (timer s).
    - destruct Hcalls as [Hi Hev]. rewrite Hi. split; [done|]. split; [done|]. by left.
    - destruct Hcalls as (Hi & Hev & Hr & _). split; [lia|]. split; [intros; apply Hrep; lia|]. right. by rewrite <- Hi. }
  destruct (ctxErr ev (2 * i + 1)) as [ce|] eqn:Hce; destruct (timer s) eqn:Ht; [| | |].
  - destruct (pickDone ev i); [eauto|by apply Hgo].
  - eauto.
  - by apply Hgo.
  - destruct (bt_calls _ _ Hs) as (ds & _ & Hcalls). rewrite Ht in Hcalls. destruct Hcalls as (_ & _ & _ & ce & Hc0).
    rewrite (Hctx (2 * i)%nat (2 * i + 1)%nat ce ltac:(lia) Hc0) in Hce. done.
Qed.

Lemma between_start : between 0 (start_do c orig).
Proof.
  pose proof (v_attempts _ Hc). constructor; cbn [start_do remainingAttempts body sched timer events]; try done; try lia.
  exists []. split; [|done]. intros k d Hk. done.
Qed.

(** The attempts made and the bodies closed. *)
Definition sent_by (l : list event) : list (nat * option stream) := omap (fun e => match e with Sent i b => Some (i, b) | _ => None end) l.
Definition closed_by (l : list event) : list nat := omap (fun e => match e with Closed i => Some i | _ => None end) l.

Lemma sent_by_app l k : sent_by (l ++ k) = sent_by l ++ sent_by k.
Proof. apply omap_app. Qed.

Lemma closed_by_app l k : closed_by (l ++ k) = closed_by l ++ closed_by k.
Proof. apply omap_app. Qed.

Lemma sent_by_sent k : sent_by (sent k) = [(k, body_of k)] ∧ closed_by (sent k) = filter (fun j => has_body j = true) [k].
Proof. unfold sent, closes. rewrite filter_cons. by destruct (has_body k). Qed.

Lemma calls_of_rounds ds :
  sent_by (rounds ds) = (fun j => (j, body_of j)) <$> seq 0 (length ds) ∧ closed_by (rounds ds) = filter (fun j => has_body j = true) (seq 0 (length ds)).
Proof.
  induction ds as [|d ds [IHs IHc]] using rev_ind; [done|]. rewrite rounds_snoc, length_app, Nat.add_1_r, seq_S, fmap_app, filter_app.
  unfold round. destruct (sent_by_sent (length ds)) as [Hs Hcl]. rewrite !sent_by_app, !closed_by_app, IHs, IHc, Hs, Hcl.
  unfold waits. by destruct (onRetry c); rewrite !app_nil_r.
Qed.

Lemma calls_of_last ds : let n := S (length ds) in
  sent_by (rounds ds ++ sent (length ds)) = (fun j => (j, body_of j)) <$> seq 0 n ∧
  closed_by (rounds ds ++ sent (length ds)) = filter (fun j => has_body j = true) (seq 0 n).
Proof.
  cbn zeta. destruct (calls_of_rounds ds) as [Hs Hcl], (sent_by_sent (length ds)) as [Hs' Hcl'].
  rewrite seq_S, fmap_app, filter_app, sent_by_app, closed_by_app, Hs, Hcl, Hs', Hcl'. done.
Qed.

(** The response given to the caller. *)
Definition given (out : outcome) (j : nat) : bool := match out with Returned (Some (i, _)) _ => (i =? j)%nat | _ => false end.

(** No response leaks, none is closed twice, and none is closed and given. *)
Definition bodies_accounted (out : outcome) (l : list event) (n : nat) : Prop :=
  sent_by l = (fun j => (j, body_of j)) <$> seq 0 n ∧ Z.of_nat n <= attempts c ∧
  closed_by l = filter (fun j => has_body j = true ∧ given out j = false) (seq 0 n) ∧
  NoDup (omap snd (sent_by l)) ∧
  match out with Returned (Some _) (Some _) => False | _ => True end.

Lemma not_given_all out n : (∀ j, (j < n)%nat → given out j = false) →
  filter (fun j => has_body j = true ∧ given out j = false) (seq 0 n) = filter (fun j => has_body j = true) (seq 0 n).
Proof. intros Hg. apply filter_ext_in, Forall_forall. intros j Hj%elem_of_seq. rewrite Hg by lia. tauto. Qed.

Lemma bodies_distinct n : orig = None ∨ orig = Some Original → ((1 < n)%nat → getBody = true ∨ orig = None) →
  NoDup (omap snd ((fun j => (j, body_of j)) <$> seq 0 n)).
Proof.
  intros Ho Hn. assert (Hgen : ∀ m, (m <= n)%nat → NoDup (omap snd ((fun j => (j, body_of j)) <$> seq 0 m)) ∧
    ∀ k, Fresh k ∈ omap snd ((fun j => (j, body_of j)) <$> seq 0 m) → (k < m)%nat).
  { induction m as [|m IH]; intros Hm; [split; [constructor|]; intros k Hk; by apply elem_of_nil in Hk|]. destruct IH as [IHn IHf]; [lia|].
    rewrite seq_S, fmap_app, omap_app. cbn [fmap list_fmap omap list_omap Nat.add snd]. unfold body_of at 2 4.
    destruct (Nat.eqb_spec m 0) as [->|Hm0]; cbn [orb].
    - destruct Ho as [-> | ->]; cbn; (split; [repeat constructor; set_solver|]); intros k Hk; set_solver.
    - destruct Hn as [-> | Hno]; [lia| |].
      + cbn [negb]. split; [|intros k Hk; apply elem_of_app in Hk as [Hk|Hk]; [apply IHf in Hk; lia|apply list_elem_of_singleton in Hk; injection Hk as ->; lia]].
        apply NoDup_app. split; [done|]. split; [|apply NoDup_singleton]. intros x Hx Hx'%list_elem_of_singleton. subst x. apply IHf in Hx. lia.
      + rewrite Hno. destruct (negb getBody) eqn:Hg.
        * rewrite app_nil_r. split; [done|]. intros k Hk%IHf. lia.
        * split; [|intros k Hk; apply elem_of_app in Hk as [Hk|Hk]; [apply IHf in Hk; lia|apply list_elem_of_singleton in Hk; injection Hk as ->; lia]].
          apply NoDup_app. split; [done|]. split; [|apply NoDup_singleton]. intros x Hx Hx'%list_elem_of_singleton. subst x. apply IHf in Hx. lia. }
  by apply Hgen.
Qed.

Lemma result_accounted out l : orig = None ∨ orig = Some Original → do_result out l → ∃ n, bodies_accounted out l n.
Proof.
  intros Ho (ds & _ & Hlen & Hrep & Hout). pose proof (calls_of_rounds ds) as [Hs Hcl]. pose proof (calls_of_last ds) as [Hs' Hcl']. cbn zeta in *.
  assert (Hd : ∀ n, (n <= S (length ds))%nat → NoDup (omap snd ((fun j => (j, body_of j)) <$> seq 0 n))) by (intros n Hn; apply bodies_distinct; [done|intros; apply Hrep; lia]).
  assert (Hg : ∀ n e, filter (fun j => has_body j = true ∧ given (Returned None e) j = false) (seq 0 n) = filter (fun j => has_body j = true) (seq 0 n)) by (intros; by apply not_given_all).
  assert (Hrounds : ∀ e, bodies_accounted (Returned None e) (rounds ds) (length ds)) by (intros e; unfold bodies_accounted; rewrite Hs, Hcl, Hg; split_and!; auto; lia).
  assert (Hlast : ∀ e, bodies_accounted (Returned None e) (rounds ds ++ sent (length ds)) (S (length ds))) by (intros e; unfold bodies_accounted; rewrite Hs', Hcl', Hg; split_and!; auto; lia).
  destruct out as [ce|ce|r e|]; [| | |done].
  - destruct Hout as [-> _]. exists O. unfold bodies_accounted. split_and!; try done; [lia|constructor].
  - destruct Hout as [[-> _]|[-> _]]; eexists; [exact (Hrounds None)|exact (Hlast None)].
  - destruct Hout as [(He & _ & Hr)|[(-> & -> & _)|(-> & -> & _)]]; [|by eexists|by eexists]. destruct e as [e|].
    + destruct Hr as [-> ->]. by eexists.
    + destruct Hr as [-> ->]. exists (S (length ds)). set (l := rounds ds ++ [Sent (length ds) (body_of (length ds))]).
      assert (Hsl : sent_by l = (fun j => (j, body_of j)) <$> seq 0 (S (length ds))) by (subst l; by rewrite sent_by_app, Hs, seq_S, fmap_app).
      assert (Hcll : closed_by l = filter (fun j => has_body j = true) (seq 0 (length ds))) by (subst l; rewrite closed_by_app, Hcl; apply app_nil_r).
      unfold bodies_accounted. rewrite Hsl, Hcll. split; [done|]. split; [lia|]. split; [|split; [by apply Hd|by destruct (answer (length ds))]].
      rewrite seq_S, filter_app, (not_given_all _ (length ds)).
      * rewrite <- (app_nil_r (filter _ _)) at 1. f_equal. rewrite filter_cons, decide_False; [done|]. cbn [Nat.add]. unfold has_body.
        intros [Hb Hgv]. destruct (answer (length ds)); [|done]. cbn in Hgv. by rewrite Nat.eqb_refl in Hgv.
      * intros j Hj. destruct (answer (length ds)); [|done]. cbn. apply Nat.eqb_neq. lia.
Qed.
End Call.

(** C27. [Do] terminates, never waiting for a timer nobody armed, within the
    configured attempts: each is sent with a body of its own, the request's
    first and a reopened one afterwards; every attempt but the last was
    retryable, and the wait after it is a duration no shorter than the
    Retry-After delay its response asked for, up to the cap. It ends with the
    answer to the last attempt (when that needs no retry, or attempts are
    exhausted), with the error of a body that could not be closed, reopened or
    replayed, or with the context's. It never returns a response with an error,
    and every response body is closed exactly once, but for the one it returns. *)
Theorem Do_correct (ev : env) (c : HTTPRetrier) (getBody hasBody : bool) fuel :
  valid c → (∀ i, draws (draw ev i)) → (∀ i, draws (drawRetryAfter ev i)) →
  (∀ i j ce, (i <= j)%nat → ctxErr ev i = Some ce → ctxErr ev j = Some ce) → attempts c < Z.of_nat fuel →
  let orig := if hasBody then Some Original else None in
  ∃ out s n, Do fuel ev c getBody hasBody = Some (out, s) ∧ do_result ev c getBody orig out (events s) ∧ bodies_accounted ev c getBody orig out (events s) n.
Proof.
  intros Hc Hd Hra Hctx Hf orig. assert (Ho : orig = None ∨ orig = Some Original) by (subst orig; destruct hasBody; auto).
  assert (Hrun : ∃ out s, Do fuel ev c getBody hasBody = Some (out, s) ∧ do_result ev c getBody orig out (events s)).
  { unfold Do. fold orig. pose proof (v_attempts _ Hc). destruct (ctxErr ev 0) as [ce|] eqn:H0.
    - eexists _, _. split; [done|]. exists []. split; [by intros k d Hk|]. split; [cbn; lia|]. split; [cbn; lia|]. done.
    - apply do_loop_spec; try done; [by apply between_start|lia]. }
  destruct Hrun as (out & s & Hs & Hres). edestruct result_accounted as (n & Hn); [..|exact Hres|by exists out, s, n]; done.
Qed.
End HTTPRetrier.

(** Two failures, then a page: the first answer asks for five seconds. *)
Definition flaky : @env nat unit :=
  Env (fun _ => None)
    (fun i => match i with O => (Some (MkResponse 503 (str "5") true), None) | 1%nat => (None, Some 7%nat) | _ => (Some (MkResponse 200 [] true), None) end)
    (fun _ => None) (fun _ => None) (fun _ => false) (fun _ _ => 0) (fun _ _ => 0) (fun _ => 0) (fun _ => None).

Definition careful : @HTTPRetrier nat :=
  MkHTTPRetrier 2%float (1 * Second) 1 (30 * Second) 4 JitterAdditive true (60 * Second) RetryIfForReadRequests false.

Lemma Do_correct_witness : ∃ s n,
  Do 5 flaky careful true true = Some (Returned (Some (2%nat, MkResponse 200 [] true)) None, s) ∧
  events s = [Sent 0 (Some Original); Closed 0; Wait 0 (5 * Second); Sent 1 (Some (Fresh 1)); Wait 1 (2 * Second); Sent 2 (Some (Fresh 2))] ∧
  bodies_accounted flaky careful true (Some Original) (Returned (Some (2%nat, MkResponse 200 [] true)) None) (events s) n.
Proof.
  destruct (Do_correct flaky careful true true 5) as (out & s & n & Hdo & _ & Hacc).
  - constructor; vm_compute; (split; congruence) || congruence.
  - intros i m Hm. simpl. lia.
  - intros i m Hm. simpl. lia.
  - intros i j ce _ Hc. discriminate Hc.
  - reflexivity.
  - exists s, n. vm_compute in Hdo. injection Hdo as <- <-. split; [reflexivity|]. split; [reflexivity|]. exact Hacc.
Defined.

(** A status a write is retried on, a read is retried on too. *)
Lemma writes_are_pickier {E : Type} r (err : option (@do_error E)) : RetryIfForWriteRequests r err = true → RetryIfForReadRequests r err = true.
Proof.
  unfold RetryIfForWriteRequests, RetryIfForReadRequests, retry_on. destruct err; [done|]. destruct r as [r|]; [|done].
  rewrite !bool_decide_eq_true. set_solver.
Qed.
