(* ===== verification/Periodic.v ===== *)
(** * [pkg/periodic]: a task run at intervals

    periodic.go and options.go. The goroutine of [loop], the callers of
    [Start] and [Stop] and the timer are the relation [step] over what they
    share; a section under the mutex is one step. *)

From stdpp Require Import base option list relations.
From S2P Require Import Prelude Backoff.

#[local] Open Scope Z_scope.

(** ** Configuration *)

(** [Periodic], but for the task, which is an event of the model, and for the
    fields [Start] and [Stop] share, which are those of [world]. *)
Record Periodic : Type := MkPeriodic {
  interval : Z;
  jitter : Z;
  timeout : Z;
  jitterFirst : bool
}.

Inductive config_error := ErrInterval | ErrJitter | ErrTimeout | ErrNilTask.

Definition Option : Type := Periodic → Periodic.

Definition WithInitialJitter : Option := fun p => MkPeriodic (interval p) (jitter p) (timeout p) true.

(** [task] is [task != nil]. *)
Definition New (interval jitter timeout : Z) (task : bool) (opts : list Option) : result config_error Periodic :=
  if interval <? 1 then Error ErrInterval
  else if jitter <? 0 then Error ErrJitter
  else if timeout <? 1 then Error ErrTimeout
  else if negb task then Error ErrNilTask
  else Ok (fold_left (fun p opt => opt p) opts (MkPeriodic interval jitter timeout false)).

Definition firstDelay (draw : Z → Z) (p : Periodic) : Z :=
  if negb (jitterFirst p) || (jitter p <=? 0) then 1 else AddJitter draw 0 (jitter p).

Definition nextDelay (draw : Z → Z) (p : Periodic) : Z := AddJitter draw (interval p) (jitter p).

(** ** Goroutines *)

(** The loop: launched; in its select, its timer running or fired; in the
    task; leaving by its deferred calls, [cancel] and the closing of [done];
    gone. *)
Inductive loop : Type :=
| LStart
| LSelect (fired : bool)
| LTask
| LCancel
| LClose
| LExit.

(** A call of [Stop]: entering; past its critical section, where it saw
    [p.cancel] nil or not; waiting for [done]; returned. *)
Inductive stopper : Type :=
| SEntering
| SCancelling (cancel : bool)
| SAwaiting
| SReturned.

#[local] Instance stopper_eq_dec : EqDecision stopper.
Proof. solve_decision. Defined.

Record world : Type := World {
  w_stopped : bool;
  w_cancel : bool;       (** [p.cancel != nil], and so [p.done] *)
  w_ended : bool;        (** the context of the loop has ended *)
  w_done : bool;         (** [done] is closed *)
  w_loops : list loop;   (** the goroutines launched *)
  w_stops : list stopper;
  w_runs : nat;          (** invocations of the task *)
  w_delays : list Z      (** what the timer was set to *)
}.

Definition initial : world := World false false false false [] [] 0 [].

Definition loop_to (i : nat) (l : loop) (w : world) : world :=
  World (w_stopped w) (w_cancel w) (w_ended w) (w_done w) (<[i := l]> (w_loops w)) (w_stops w) (w_runs w) (w_delays w).
Definition stop_to (t : nat) (s : stopper) (w : world) : world :=
  World (w_stopped w) (w_cancel w) (w_ended w) (w_done w) (w_loops w) (<[t := s]> (w_stops w)) (w_runs w) (w_delays w).
Definition end_context (w : world) : world :=
  World (w_stopped w) (w_cancel w) true (w_done w) (w_loops w) (w_stops w) (w_runs w) (w_delays w).
Definition close_done (w : world) : world :=
  World (w_stopped w) (w_cancel w) (w_ended w) true (w_loops w) (w_stops w) (w_runs w) (w_delays w).
Definition set_timer (d : Z) (w : world) : world :=
  World (w_stopped w) (w_cancel w) (w_ended w) (w_done w) (w_loops w) (w_stops w) (w_runs w) (w_delays w ++ [d]).
Definition begin_task (w : world) : world :=
  World (w_stopped w) (w_cancel w) (w_ended w) (w_done w) (w_loops w) (w_stops w) (S (w_runs w)) (w_delays w).

(** The critical sections of [Start] and of [Stop]. *)
Definition Start (w : world) : world :=
  if w_cancel w || w_stopped w then w
  else World (w_stopped w) true (w_ended w) (w_done w) (w_loops w ++ [LStart]) (w_stops w) (w_runs w) (w_delays w).

Definition Stop_enter (t : nat) (w : world) : world :=
  stop_to t (SCancelling (w_cancel w))
    (World true (w_cancel w) (w_ended w) (w_done w) (w_loops w) (w_stops w) (w_runs w) (w_delays w)).

(** What comes from outside (calls of [Start] and [Stop], the caller's
    context, time), and the work under way. *)
Inductive origin : Type := Outside | Work.

Section Steps.
Context (p : Periodic).

Inductive step : origin → world → world → Prop :=
| step_start w : step Outside w (Start w)
| step_stop w :
    step Outside w (World (w_stopped w) (w_cancel w) (w_ended w) (w_done w) (w_loops w) (w_stops w ++ [SEntering]) (w_runs w) (w_delays w))
| step_parent_ends w : w_cancel w = true → step Outside w (end_context w)
| step_fires w i : w_loops w !! i = Some (LSelect false) → step Outside w (loop_to i (LSelect true) w)
(** [Stop]. *)
| step_enter w t : w_stops w !! t = Some SEntering → step Work w (Stop_enter t w)
| step_nothing_to_stop w t : w_stops w !! t = Some (SCancelling false) → step Work w (stop_to t SReturned w)
| step_cancel w t : w_stops w !! t = Some (SCancelling true) → step Work w (end_context (stop_to t SAwaiting w))
| step_await w t : w_stops w !! t = Some SAwaiting → w_done w = true → step Work w (stop_to t SReturned w)
(** [loop] and [run]. *)
| step_timer w i draw : w_loops w !! i = Some LStart → draws draw → step Work w (set_timer (firstDelay draw p) (loop_to i (LSelect false) w))
| step_ctx_done w i fired : w_loops w !! i = Some (LSelect fired) → w_ended w = true → step Work w (loop_to i LCancel w)
| step_tick w i : w_loops w !! i = Some (LSelect true) → step Work w (begin_task (loop_to i LTask w))
| step_task_returns w i draw : w_loops w !! i = Some LTask → draws draw → step Work w (set_timer (nextDelay draw p) (loop_to i (LSelect false) w))
| step_loop_cancels w i : w_loops w !! i = Some LCancel → step Work w (end_context (loop_to i LClose w))
| step_loop_closes w i : w_loops w !! i = Some LClose → step Work w (close_done (loop_to i LExit w)).

Definition steps (w w' : world) : Prop := ∃ o, step o w w'.
Definition reachable (w : world) : Prop := rtc steps initial w.
Definition works (w w' : world) : Prop := step Work w w'.

(** ** The invariant *)

Definition delay_ok (first : bool) (d : Z) : Prop :=
  if first then d = 1 ∨ 0 <= d < jitter p else interval p <= d <= Z.min MaxInt64 (interval p + Z.max 0 (jitter p - 1)).

Definition delays_ok (ds : list Z) : Prop := ∀ k d, ds !! k = Some d → delay_ok (k =? 0)%nat d.

Definition stop_ok (w : world) (s : stopper) : Prop :=
  match s with
  | SEntering => True
  | SCancelling b => w_stopped w = true ∧ b = w_cancel w
  | SAwaiting => w_stopped w = true ∧ w_cancel w = true ∧ w_ended w = true
  | SReturned => w_stopped w = true ∧ (w_cancel w = true → w_done w = true)
  end.

(** The loop is set going once. *)
Definition loop_ok (w : world) (l : loop) : Prop :=
  match l with
  | LStart => w_delays w = []
  | LSelect _ | LTask => w_delays w ≠ []
  | LCancel => w_delays w ≠ [] ∧ w_ended w = true
  | LClose => w_ended w = true
  | LExit => w_ended w = true ∧ w_done w = true
  end ∧ (w_done w = true → l = LExit).

Record inv (w : world) : Prop := Inv {
  inv_loops : if w_cancel w then ∃ l, w_loops w = [l] ∧ loop_ok w l else w_loops w = [] ∧ w_done w = false ∧ w_delays w = [] ∧ w_runs w = 0%nat;
  inv_stops : ∀ t s, w_stops w !! t = Some s → stop_ok w s;
  inv_delays : delays_ok (w_delays w)
}.

(** Only the loop, only the callers of [Stop]. *)
Lemma stop_ok_mono w w' s : w_stopped w' = w_stopped w → w_cancel w' = w_cancel w → (w_ended w = true → w_ended w' = true) → (w_done w = true → w_done w' = true) →
  stop_ok w s → stop_ok w' s.
Proof. intros Hs Hc He Hd. destruct s as [|b| |]; cbn; rewrite ?Hs, ?Hc; [done|done| |]; intuition. Qed.

Lemma delays_snoc ds d : delays_ok ds → delay_ok (length ds =? 0)%nat d → delays_ok (ds ++ [d]).
Proof.
  intros Hds Hd k d' [Hk|[Hk Hk']]%lookup_app_Some; [by apply Hds|]. apply list_lookup_singleton_Some in Hk' as [Hk0 <-].
  by assert (k = length ds) as -> by lia.
Qed.

Record configured : Prop := Configured { cf_interval : 1 <= interval p <= MaxInt64; cf_jitter : 0 <= jitter p <= MaxInt64 }.

Lemma firstDelay_ok draw : configured → draws draw → delay_ok true (firstDelay draw p).
Proof.
  intros [_ Hj] Hd. unfold firstDelay. destruct (_ || _) eqn:Hb; [by left|]. apply orb_false_iff in Hb as [_ H0%Z.leb_gt].
  right. rewrite AddJitter_spec by (done || lia || (unfold MaxInt64; lia)). rewrite (proj2 (Z.leb_gt _ _)) by done. specialize (Hd (jitter p)). lia.
Qed.

Lemma nextDelay_ok draw : configured → draws draw → delay_ok false (nextDelay draw p).
Proof.
  intros [Hi Hj] Hd. unfold nextDelay. cbn [delay_ok]. rewrite AddJitter_spec by (done || lia).
  destruct (Z.leb_spec (jitter p) 0); [lia|]. specialize (Hd (jitter p)). lia.
Qed.

Lemma periodic_inv_initial : inv initial.
Proof. split; [done|intros t s Hs; done|intros k d Hk; done]. Qed.

(** A step of the loop, which keeps what the callers rely on. *)
Lemma inv_loop w w' i l l' : inv w → w_loops w !! i = Some l → w_loops w' = <[i := l']> (w_loops w) → w_stopped w' = w_stopped w → w_cancel w' = w_cancel w →
  w_stops w' = w_stops w → (w_ended w = true → w_ended w' = true) → (w_done w = true → w_done w' = true) → (loop_ok w l → loop_ok w' l') → delays_ok (w_delays w') → inv w'.
Proof.
  intros [Hl Hs _] Hi Hl' Hst Hc Hst' He Hd Hok Hdel. split; [| |done].
  - rewrite Hc, Hl'. destruct (w_cancel w); [|destruct Hl as (H0 & _); by rewrite H0 in Hi]. destruct Hl as (l0 & H0 & Hl0). rewrite H0 in *.
    destruct i as [|i]; [|done]. injection Hi as ->. exists l'. split; [done|by apply Hok].
  - intros t s Ht. rewrite Hst' in Ht. eapply stop_ok_mono; [done..|by eapply Hs].
Qed.

(** A step of a caller of [Stop]. *)
Lemma inv_stop w t s s' : inv w → w_stops w !! t = Some s → stop_ok w s' → inv (stop_to t s' w).
Proof.
  intros [Hl Hs Hd] Ht Hs'. split; [done| |done]. cbn [stop_to w_stops]. intros u r Hu.
  apply list_lookup_insert_Some in Hu as [(-> & -> & _)|[_ Hu]]; [done|by apply (Hs u)].
Qed.

Lemma inv_ended w : inv w → w_cancel w = true → inv (end_context w).
Proof.
  intros [Hl Hs Hd] Hc. split; [| |done].
  - cbn [end_context w_cancel w_loops]. rewrite Hc in *. destruct Hl as (l & Hll & Hl). exists l. split; [done|].
    destruct l; unfold loop_ok in *; cbn in *; intuition.
  - intros t s Ht. eapply stop_ok_mono; [..|by apply (Hs t)]; done.
Qed.

Lemma periodic_inv_step o w w' : configured → inv w → step o w w' → inv w'.
Proof.
  intros Hc Hw Hstep. destruct Hstep as [w|w|w Hp|w i Hi|w t Ht|w t Ht|w t Ht|w t Ht Hdn|w i draw Hi Hdr|w i fired Hi He|w i Hi|w i draw Hi Hdr|w i Hi|w i Hi].
  - unfold Start. destruct (w_cancel w || w_stopped w) eqn:Hb; [done|]. apply orb_false_iff in Hb as [Hcn Hst]. destruct Hw as [Hl Hs Hd].
    rewrite Hcn in Hl. destruct Hl as (Hl & Hdn & Hdel & _). split; [| |done].
    + cbn [w_cancel w_loops]. rewrite Hl. exists LStart. split; [done|]. unfold loop_ok. cbn. split; [done|]. congruence.
    + intros t s Ht. cbn [w_stops] in Ht. specialize (Hs t s Ht). destruct s as [|b| |]; cbn in *; intuition congruence.
  - destruct Hw as [Hl Hs Hd]. split; [done| |done]. cbn [w_stops]. intros t s [Ht|[_ Ht]]%lookup_app_Some; [by apply (Hs t)|].
    by apply list_lookup_singleton_Some in Ht as [_ <-].
  - by apply inv_ended.
  - eapply inv_loop; try done; [..|exact (inv_delays _ Hw)]; unfold loop_ok; cbn; intuition congruence.
  - unfold Stop_enter. apply (inv_stop _ _ SEntering); [|done|done]. destruct Hw as [Hl Hs Hd]. split; [done| |done].
    intros u s Hu. specialize (Hs u s Hu). destruct s as [|b| |]; cbn in *; intuition.
  - apply (inv_stop _ _ _ _ Hw Ht). destruct (inv_stops _ Hw t _ Ht) as [Hst Hcn]. cbn. split; [done|]. congruence.
  - destruct (inv_stops _ Hw t _ Ht) as [Hst Hcn]. change (end_context (stop_to t SAwaiting w)) with (stop_to t SAwaiting (end_context w)).
    apply (inv_stop _ _ (SCancelling true)); [by apply inv_ended|done|]. cbn. done.
  - apply (inv_stop _ _ _ _ Hw Ht). destruct (inv_stops _ Hw t _ Ht) as (Hst & Hcn & _). cbn. done.
  - eapply inv_loop; try done; cbn [w_delays set_timer loop_to].
    + unfold loop_ok; cbn. intuition (try congruence). by destruct (w_delays w).
    + apply delays_snoc; [by apply inv_delays|]. pose proof (inv_loops _ Hw) as H0. destruct (w_cancel w); [|destruct H0 as (H0 & _); by rewrite H0 in Hi].
      destruct H0 as (l & Hll & Hl). rewrite Hll in Hi. destruct i; [|done]. injection Hi as ->. unfold loop_ok in Hl. destruct Hl as [-> _]. by apply firstDelay_ok.
  - eapply inv_loop; try done; [..|exact (inv_delays _ Hw)]. destruct fired; unfold loop_ok; cbn; intuition congruence.
  - eapply inv_loop; try done; [..|exact (inv_delays _ Hw)]; unfold loop_ok; cbn; intuition congruence.
  - eapply inv_loop; try done; cbn [w_delays set_timer loop_to].
    + unfold loop_ok; cbn. intuition (try congruence). by destruct (w_delays w).
    + apply delays_snoc; [by apply inv_delays|]. pose proof (inv_loops _ Hw) as H0. destruct (w_cancel w); [|destruct H0 as (H0 & _); by rewrite H0 in Hi].
      destruct H0 as (l & Hll & Hl). rewrite Hll in Hi. destruct i; [|done]. injection Hi as ->. unfold loop_ok in Hl. destruct Hl as [Hne _].
      destruct (w_delays w); [done|]. by apply nextDelay_ok.
  - eapply inv_loop; try done; [..|exact (inv_delays _ Hw)]; unfold loop_ok; cbn; intuition congruence.
  - eapply inv_loop; try done; [..|exact (inv_delays _ Hw)]; unfold loop_ok; cbn; intuition congruence.
Qed.

Lemma inv_reachable w : configured → reachable w → inv w.
Proof.
  intros Hc Hr. unfold reachable in Hr. revert Hr. generalize periodic_inv_initial. generalize initial. intros w0 Hw0 Hr.
  induction Hr as [w|w1 w2 w3 [o Hs] _ IH]; [done|]. apply IH. by eapply periodic_inv_step.
Qed.

(** ** A stopped scheduler *)

Definition over (w : world) : Prop := w_stopped w = true ∧ Forall (fun l => l = LExit) (w_loops w).

Lemma over_returned w t : inv w → w_stops w !! t = Some SReturned → over w.
Proof.
  intros [Hl Hs _] Ht. destruct (Hs t _ Ht) as [Hst Hd]. split; [done|]. destruct (w_cancel w).
  - destruct Hl as (l & -> & _ & Hx). constructor; [auto|constructor].
  - destruct Hl as [-> _]. constructor.
Qed.

Lemma over_step o w w' : over w → step o w w' → over w' ∧ w_loops w' = w_loops w ∧ w_runs w' = w_runs w.
Proof.
  intros [Hst Hl] Hs. assert (Hno : ∀ i l, w_loops w !! i = Some l → l = LExit) by (intros i l Hi; by apply (Forall_lookup_1 _ _ _ _ Hl Hi)).
  destruct Hs; try (match goal with H : w_loops _ !! _ = Some _ |- _ => apply Hno in H; done end); try by (split_and!; done).
  unfold Start. rewrite Hst, orb_true_r. done.
Qed.

Lemma over_forever w w' : over w → rtc steps w w' → over w' ∧ w_loops w' = w_loops w ∧ w_runs w' = w_runs w.
Proof.
  intros Ho Hs. induction Hs as [w|w1 w2 w3 [o H1] _ IH]; [done|]. destruct (over_step o w1 w2 Ho H1) as (H2 & Hl & Hr).
  destruct (IH H2) as (H3 & Hl' & Hr'). split; [done|]. by rewrite Hl', Hr'.
Qed.

(** ** Stopping *)

(** What is left to do without new calls and without time passing. *)
Definition loop_work (l : loop) : nat :=
  match l with LStart => 6 | LSelect true => 5 | LTask => 4 | LSelect false => 3 | LCancel => 2 | LClose => 1 | LExit => 0 end.
Definition stop_work (s : stopper) : nat := match s with SEntering => 3 | SCancelling _ => 2 | SAwaiting => 1 | SReturned => 0 end.
Definition work (w : world) : nat := (sum_list_with loop_work (w_loops w) + sum_list_with stop_work (w_stops w))%nat.

Lemma periodic_work_decreases w w' : works w w' → (work w' < work w)%nat.
Proof.
  intros Hs. unfold works in Hs. remember Work as o eqn:Ho. unfold work. destruct Hs; try done;
    cbn [w_loops w_stops loop_to stop_to end_context close_done set_timer begin_task Stop_enter];
    match goal with
    | H : w_loops ?w !! ?i = Some ?l |- context [<[?i := ?l']> (w_loops ?w)] => pose proof (sum_list_insert loop_work _ i l l' H)
    | H : w_stops ?w !! ?t = Some ?s |- context [<[?t := ?s']> (w_stops ?w)] => pose proof (sum_list_insert stop_work _ t s s' H)
    end; cbn [loop_work stop_work] in *; try case_match; lia.
Qed.

Definition all_returned (w : world) : Prop := Forall (fun s => s = SReturned) (w_stops w).

(** Unless every call of [Stop] has returned there is work to do. *)
Lemma periodic_works_on w : inv w → all_returned w ∨ ∃ w', works w w'.
Proof.
  intros [Hl Hs _]. unfold all_returned. destruct (decide (Forall (fun s => s = SReturned) (w_stops w))) as [|Hn]; [by left|right].
  apply not_Forall_Exists, Exists_exists in Hn as (s & Hin & Hs'); [|apply _]. apply list_elem_of_lookup in Hin as [t Ht]. pose proof (Hs t s Ht) as Hok.
  destruct s as [|[]| |]; [| | | |by destruct Hs'].
  1: by eexists; eapply step_enter.
  1: by eexists; eapply step_cancel.
  1: by eexists; eapply step_nothing_to_stop.
  destruct Hok as (_ & Hc & He). rewrite Hc in Hl. destruct Hl as (l & Hll & Hx). assert (H0 : w_loops w !! 0%nat = Some l) by (by rewrite Hll).
  assert (Hdraw : draws (fun _ => 0)) by (intros n Hn; lia).
  destruct (w_done w) eqn:Hd; [by eexists; eapply step_await|]. destruct l as [|fired| | | |].
  - eexists. by eapply (step_timer _ 0 (fun _ => 0)).
  - eexists. by eapply (step_ctx_done _ 0).
  - eexists. by eapply (step_task_returns _ 0 (fun _ => 0)).
  - eexists. by eapply (step_loop_cancels _ 0).
  - eexists. by eapply (step_loop_closes _ 0).
  - destruct Hx as [[_ Hx] _]. congruence.
Qed.

Lemma inv_works w w' : configured → inv w → rtc works w w' → inv w'.
Proof. intros Hc Hw Hs. induction Hs as [|w1 w2 w3 H1 _ IH]; [done|]. apply IH. by eapply periodic_inv_step. Qed.

Lemma one_loop w : inv w → (length (w_loops w) <= 1)%nat.
Proof. intros [Hl _ _]. destruct (w_cancel w); [destruct Hl as (l & -> & _)|destruct Hl as (-> & _)]; cbn; lia. Qed.
End Steps.

(** What [New] accepts, on arguments in the range of their types. *)
Lemma New_configured i j t task opts p : inS 64 i → inS 64 j → Forall (fun o => o = WithInitialJitter) opts → New i j t task opts = Ok p →
  configured p ∧ interval p = i ∧ jitter p = j.
Proof.
  unfold New, inS. intros Hi Hj Ho Hn. destruct (Z.ltb_spec i 1); [done|]. destruct (Z.ltb_spec j 0); [done|]. destruct (Z.ltb_spec t 1); [done|].
  destruct (negb task); [done|]. injection Hn as <-. assert (Hp : ∀ q, interval (fold_left (fun p opt => opt p) opts q) = interval q ∧ jitter (fold_left (fun p opt => opt p) opts q) = jitter q).
  { induction Ho as [|o opts -> _ IH]; intros q; [done|]. cbn [fold_left]. exact (IH (WithInitialJitter q)). }
  destruct (Hp (MkPeriodic i j t false)) as [Hpi Hpj]. split; [|done]. split; rewrite ?Hpi, ?Hpj; cbn; unfold MaxInt64; lia.
Qed.

(** C5. Whatever the calls of [Start] and [Stop] and their interleaving with
    the loop, the timer and the end of the caller's context: one goroutine at
    most is ever launched, so that the task never overlaps itself; the first
    delay is a nanosecond, or below the jitter, and the others are the interval
    and less than the jitter on top of it; once a call of [Stop] has returned
    the goroutine is gone and, for ever, none is launched and the task does not
    run. [Stop] does return: provided the task does, the work under way is
    bounded and it can always go on until every call has returned. *)
Theorem stop_is_final i j t task opts p w :
  inS 64 i → inS 64 j → Forall (fun o => o = WithInitialJitter) opts → New i j t task opts = Ok p → reachable p w →
  (length (w_loops w) <= 1)%nat ∧
  (∀ k d, w_delays w !! k = Some d → if (k =? 0)%nat then d = 1 ∨ 0 <= d < j else i <= d <= i + Z.max 0 (j - 1)) ∧
  (∀ k w', w_stops w !! k = Some SReturned → rtc (steps p) w w' →
    Forall (fun l => l = LExit) (w_loops w') ∧ w_loops w' = w_loops w ∧ w_runs w' = w_runs w) ∧
  (∀ n w', nsteps (works p) n w w' → (n <= work w)%nat) ∧
  (∀ w', rtc (works p) w w' → all_returned w' ∨ ∃ w'', works p w' w'') ∧
  ∃ w', rtc (works p) w w' ∧ all_returned w'.
Proof.
  intros Hi Hj Ho Hn Hr. destruct (New_configured i j t task opts p Hi Hj Ho Hn) as (Hc & <- & <-).
  pose proof (inv_reachable p w Hc Hr) as Hw. split; [by eapply one_loop|]. split; [|split; [|split; [|split]]].
  - intros k d Hk. pose proof (inv_delays p w Hw k d Hk) as Hd. unfold delay_ok in Hd. destruct (k =? 0)%nat; [done|lia].
  - intros k w' Hk Hs. destruct (over_forever p w w' (over_returned p w k Hw Hk) Hs) as ([_ Hl] & Hl' & Hrn). done.
  - intros n w' Hs. pose proof (work_bounded (works p) work (periodic_work_decreases p) n w w' Hs). lia.
  - intros w' Hs. apply periodic_works_on. by eapply inv_works.
  - apply (work_until (works p) work (periodic_work_decreases p) (inv p)); [by apply periodic_works_on| |done]. intros x y Hx Hs. by eapply periodic_inv_step.
Qed.

(** A scheduler started, ticking once and stopped while its task runs. *)
Definition sample : Periodic := MkPeriodic 100 10 5 false.

Lemma periodic_sample_run : ∃ w, reachable sample w ∧ w_stops w = [SAwaiting] ∧ w_loops w = [LTask] ∧ w_runs w = 1%nat.
Proof.
  eexists. split.
  - eapply rtc_l; [exists Outside; apply step_start|]. eapply rtc_l; [exists Work; eapply (step_timer sample _ 0 (fun _ => 0)); [done|intros n Hn; lia]|].
    eapply rtc_l; [exists Outside; eapply (step_fires sample _ 0); done|]. eapply rtc_l; [exists Work; eapply (step_tick sample _ 0); done|].
    eapply rtc_l; [exists Outside; apply step_stop|]. eapply rtc_l; [exists Work; eapply (step_enter sample _ 0); done|].
    eapply rtc_l; [exists Work; eapply (step_cancel sample _ 0); done|]. apply rtc_refl.
  - done.
Qed.

Lemma stop_is_final_witness : New 100 10 5 true [] = Ok sample ∧
  ∃ w, reachable sample w ∧ w_stops w = [SAwaiting] ∧ w_runs w = 1%nat ∧ ∃ w', rtc (works sample) w w' ∧ all_returned w'.
Proof.
  split; [reflexivity|]. destruct periodic_sample_run as (w & Hr & Hst & _ & Hrun). exists w. split; [exact Hr|]. split; [exact Hst|]. split; [exact Hrun|].
  destruct (stop_is_final 100 10 5 true [] sample w) as (_ & _ & _ & _ & _ & H); [unfold inS; lia|unfold inS; lia|constructor|reflexivity|exact Hr|exact H].
Defined.
