(* ===== verification/Slog.v ===== *)
(** * log/slog: attributes, the fields they stand for, and the JSON handler

    The parts of the standard library's structured logging that [pkg/logutil]
    and [pkg/logsrv] build on: values, attributes and records, the interface
    of handlers, and the JSON handler as a writer of tokens, with the state it
    does not restore when it takes back a group that turned out empty. What
    the two packages must agree on, the fields a list of attributes stands
    for, is [attrs_fields] and [chain_fields]. *)

From stdpp Require Import base option list.
From Stdlib Require Import String.
From S2P Require Import Prelude GoString GoText.

#[local] Open Scope Z_scope.

(** ** Values *)

(** The types of the standard library and of callers that a value can hold:
    times with their year and their RFC 3339 form, floats, errors, the objects
    that marshal themselves for zerolog, and everything else. *)
Class GoValues : Type := {
  gotime : Type;
  Year : gotime → Z;
  RFC3339Nano : gotime → gostring;
  IsZeroTime : gotime → bool;
  gofloat : Type;
  goerror : Type;
  goobject : Type;
  goother : Type
}.

(** [slog.Source]. *)
Record Source : Type := MkSource {
  Function : gostring;
  File : gostring;
  Line : Z
}.

Section Values.
Context `{GoValues}.

(** What an [any] holds, as far as the packages look: errors and objects say
    whether they are a nil pointer; an error may marshal itself as well. *)
Inductive any : Type :=
| AnyNil
| AnySource (src : option Source)
| AnyError (nil_pointer : bool) (e : goerror)
| AnyObject (nil_pointer : bool) (o : goobject)
| AnyLevel (l : Z)
| AnyOther (x : goother).

(** [slog.Value]: a scalar of some kind, or a group of attributes, each a
    key, whether its value is a LogValuer, and the value, which for a
    LogValuer is what [Resolve] makes of it. *)
Inductive scalar : Type :=
| StringV (s : gostring)
| Int64V (z : Z)
| Uint64V (z : Z)
| Float64V (f : gofloat)
| BoolV (b : bool)
| DurationV (d : Z)
| TimeV (t : gotime)
| AnyV (a : any).

Inductive value : Type :=
| Scalar (s : scalar)
| Group (l : list (gostring * bool * value)).

Definition attr : Type := gostring * bool * value.

Definition a_key (a : attr) : gostring := a.1.1.
Definition a_valuer (a : attr) : bool := a.1.2.
(** [a.Value.Resolve()]. *)
Definition a_value (a : attr) : value := a.2.
Definition Attr (key : gostring) (v : value) : attr := (key, false, v).

Record record : Type := MkRecord {
  r_time : gotime;
  r_level : Z;
  r_message : gostring;
  r_source : option Source;  (** the frame of a known program counter *)
  r_attrs : list attr
}.

Lemma value_ind' (P : value → Prop) : (∀ s, P (Scalar s)) → (∀ l, Forall (fun a => P (a_value a)) l → P (Group l)) → ∀ v, P v.
Proof.
  intros Hs Hg. fix IH 1. intros [s|l]; [apply Hs|]. apply Hg. induction l as [|a l IHl]; constructor; [apply IH|exact IHl].
Qed.

(** ** The fields attributes stand for *)

(** A leaf; an [any] is rendered by each back end in its own way. *)
Inductive leaf : Type :=
| LString (s : gostring)
| LInt (z : Z)
| LUint (z : Z)
| LFloat (f : gofloat)
| LBool (b : bool)
| LAny (a : any).

Inductive node : Type :=
| NLeaf (l : leaf)
| NObj (fs : list (gostring * node)).

Definition field : Type := gostring * node.

Definition leaf_of (s : scalar) : leaf :=
  match s with
  | StringV s => LString s
  | Int64V z => LInt z
  | Uint64V z => LUint z
  | Float64V f => LFloat f
  | BoolV b => LBool b
  | DurationV d => LInt d
  | TimeV t => LString (RFC3339Nano t)
  | AnyV a => LAny a
  end.

(** A group without fields is left out; one without a key is inlined. *)
Definition nest (key : gostring) (fs : list field) : list field :=
  match fs with
  | [] => []
  | _ => if decide (key = []) then fs else [(key, NObj fs)]
  end.

(** The group of a source, without its zero components. *)
Definition source_group (src : Source) : list (gostring * scalar) :=
  (if decide (Function src = []) then [] else [(str "function", StringV (Function src))]) ++
  (if decide (File src = []) then [] else [(str "file", StringV (File src))]) ++
  (if Line src =? 0 then [] else [(str "line", Int64V (Line src))]).

(** A callback that may replace a scalar, given the groups open around it. *)
Definition replacer : Type := list gostring → gostring → scalar → scalar.
Definition no_replacer : replacer := fun _ _ s => s.

Definition leaf_field (rep : replacer) (gs : list gostring) (a : gostring * scalar) : field := (a.1, NLeaf (leaf_of (rep gs a.1 a.2))).

Definition inside (gs : list gostring) (key : gostring) : list gostring := if decide (key = []) then gs else gs ++ [key].

(** The zero attribute, an empty source and a nil pointer held as an error
    stand for nothing. *)
Definition scalar_fields (rep : replacer) (gs : list gostring) (key : gostring) (s : scalar) : list field :=
  match rep gs key s with
  | AnyV (AnySource None) => []
  | AnyV (AnySource (Some src)) => nest key (leaf_field rep (inside gs key) <$> source_group src)
  | AnyV (AnyError true _) => []
  | AnyV AnyNil => if decide (key = []) then [] else [(key, NLeaf (LAny AnyNil))]
  | s => [(key, NLeaf (leaf_of s))]
  end.

Fixpoint value_fields (rep : replacer) (v : value) (gs : list gostring) (key : gostring) : list field :=
  match v with
  | Scalar s => scalar_fields rep gs key s
  | Group l => nest key (concat (map (fun a => value_fields rep (a_value a) (inside gs key) (a_key a)) l))
  end.

Definition attrs_fields (rep : replacer) (gs : list gostring) (l : list attr) : list field :=
  concat (map (fun a => value_fields rep (a_value a) gs (a_key a)) l).

(** A logger is derived by adding attributes and opening groups. *)
Inductive op : Type :=
| OpAttrs (l : list attr)
| OpGroup (name : gostring).

Fixpoint chain_fields (rep : replacer) (gs : list gostring) (ops : list op) (attrs : list attr) : list field :=
  match ops with
  | [] => attrs_fields rep gs attrs
  | OpAttrs l :: ops => attrs_fields rep gs l ++ chain_fields rep gs ops attrs
  | OpGroup name :: ops => nest name (chain_fields rep (inside gs name) ops attrs)
  end.

(** ** The JSON handler *)

(** A value that the encoder cannot write is followed by itself. *)
Inductive token : Type := Comma | Key (k : gostring) | Open | Close | Val (l : leaf).

Definition encodable (t : gotime) : bool := (0 <=? Year t) && (Year t <? 10000).

Definition time_error : gostring := str "!ERROR:time.Time year outside of range [0,9999]".

Definition value_tokens (s : scalar) : list token :=
  match s with
  | TimeV t => if encodable t then [Val (leaf_of s)] else [Val (LString time_error); Val (leaf_of s)]
  | _ => [Val (leaf_of s)]
  end.

(** [handleState]. *)
Record sstate : Type := MkState { s_buf : list token; s_sep : bool; s_groups : list gostring }.

Definition appendKey (k : gostring) (st : sstate) : sstate :=
  MkState (s_buf st ++ (if s_sep st then [Comma] else []) ++ [Key k]) true (s_groups st).
Definition openGroup (k : gostring) (st : sstate) : sstate :=
  let st := appendKey k st in MkState (s_buf st ++ [Open]) false (s_groups st ++ [k]).
Definition closeGroup (st : sstate) : sstate := MkState (s_buf st ++ [Close]) true (removelast (s_groups st)).
Definition appendValue (s : scalar) (st : sstate) : sstate := MkState (s_buf st ++ value_tokens s) (s_sep st) (s_groups st).
(** [SetLen] restores the buffer, and nothing else. *)
Definition setLen (buf : list token) (st : sstate) : sstate := MkState buf (s_sep st) (s_groups st).

(** The members of a group, written unless none writes anything. *)
Definition append_group (members : sstate → bool * sstate) (key : gostring) (st : sstate) : bool * sstate :=
  let '(wrote, st') := members (if decide (key = []) then st else openGroup key st) in
  if negb wrote then (false, setLen (s_buf st) st')
  else (true, if decide (key = []) then st' else closeGroup st').

Section Handler.
Context (rep : replacer).

Fixpoint append_leaves (l : list (gostring * scalar)) (st : sstate) : bool * sstate :=
  match l with
  | [] => (false, st)
  | a :: l => (true, (append_leaves l (appendValue (rep (s_groups st) a.1 a.2) (appendKey a.1 st))).2)
  end.

Definition append_scalar (key : gostring) (s : scalar) (st : sstate) : bool * sstate :=
  match rep (s_groups st) key s with
  | AnyV AnyNil => if decide (key = []) then (false, st) else (true, appendValue (AnyV AnyNil) (appendKey key st))
  | AnyV (AnySource None) => (false, st)
  | AnyV (AnySource (Some src)) =>
      match source_group src with
      | [] => (false, st)
      | l => append_group (append_leaves l) key st
      end
  | s => (true, appendValue s (appendKey key st))
  end.

(** [appendAttr]; an empty group counts as written. *)
Fixpoint appendAttr (v : value) (key : gostring) (st : sstate) : bool * sstate :=
  match v with
  | Scalar s => append_scalar key s st
  | Group [] => (true, st)
  | Group l =>
      append_group (fun st => fold_left (fun (acc : bool * sstate) a =>
        let '(wrote, st) := appendAttr (a_value a) (a_key a) acc.2 in (acc.1 || wrote, st)) l (false, st)) key st
  end.

Definition appendAttrs (l : list attr) (st : sstate) : bool * sstate :=
  fold_left (fun (acc : bool * sstate) a => let '(wrote, st) := appendAttr (a_value a) (a_key a) acc.2 in (acc.1 || wrote, st)) l (false, st).

(** [JSONHandler], its writer apart. *)
Record json_handler : Type := MkJSON {
  h_level : Z;
  h_source : bool;
  h_preformatted : list token;
  h_groups : list gostring;
  h_nOpen : nat
}.

Definition NewJSONHandler (level : Z) (source : bool) : json_handler := MkJSON level source [] [] 0.

Definition openGroups (names : list gostring) (st : sstate) : sstate := fold_left (fun st n => openGroup n st) names st.

Definition isEmptyGroup (a : attr) : bool := match a with (_, false, Group []) => true | _ => false end.

(** Whether a separator is due after the preformatted attributes. *)
Definition sep_after (buf : list token) (before : bool) : bool :=
  match last buf with
  | None => before
  | Some Open => false
  | Some _ => true
  end.

Definition json_WithAttrs (l : list attr) (h : json_handler) : json_handler :=
  if forallb isEmptyGroup l then h
  else
    let st := MkState (h_preformatted h) (sep_after (h_preformatted h) false) (take (h_nOpen h) (h_groups h)) in
    let '(wrote, st) := appendAttrs l (openGroups (drop (h_nOpen h) (h_groups h)) st) in
    if negb wrote then h
    else MkJSON (h_level h) (h_source h) (s_buf st) (h_groups h) (length (h_groups h)).

Definition json_WithGroup (name : gostring) (h : json_handler) : json_handler :=
  if decide (name = []) then h else MkJSON (h_level h) (h_source h) (h_preformatted h) (h_groups h ++ [name]) (h_nOpen h).

(** The built-in attributes, for a handler with a callback. *)
Definition builtins (source : bool) (r : record) : list attr :=
  (if IsZeroTime (r_time r) then [] else [Attr (str "time") (Scalar (TimeV (r_time r)))]) ++
  [Attr (str "level") (Scalar (AnyV (AnyLevel (r_level r))))] ++
  (if source then [Attr (str "source") (Scalar (AnyV (AnySource (r_source r))))] else []) ++
  [Attr (str "msg") (Scalar (StringV (r_message r)))].

Definition json_Handle (h : json_handler) (r : record) : list token :=
  let st := (appendAttrs (builtins (h_source h) r) (MkState [Open] false [])).2 in
  let st := MkState (s_buf st) (s_sep st) (take (h_nOpen h) (h_groups h)) in
  let st :=
    match h_preformatted h with
    | [] => st
    | pre => MkState (s_buf st ++ (if s_sep st then [Comma] else []) ++ pre) (sep_after pre true) (s_groups st)
    end in
  let '(st, nOpen) :=
    match r_attrs r with
    | [] => (st, h_nOpen h)
    | attrs =>
        let '(wrote, st') := appendAttrs attrs (openGroups (drop (h_nOpen h) (h_groups h)) st) in
        if negb wrote then (setLen (s_buf st) st', h_nOpen h) else (st', length (h_groups h))
    end in
  s_buf st ++ replicate nOpen Close ++ [Close].
End Handler.

(** ** Facts *)

(** Fields as tokens, a separator in front of each but the first unless one
    is due. *)
Fixpoint node_tokens (n : node) : list token :=
  match n with
  | NLeaf l => [Val l]
  | NObj fs =>
      Open :: (fix go (sep : bool) (fs : list (gostring * node)) : list token :=
        match fs with
        | [] => []
        | f :: fs => (if sep then [Comma] else []) ++ Key f.1 :: node_tokens f.2 ++ go true fs
        end) false fs ++ [Close]
  end.

Fixpoint fields_tokens (sep : bool) (fs : list field) : list token :=
  match fs with
  | [] => []
  | f :: fs => (if sep then [Comma] else []) ++ Key f.1 :: node_tokens f.2 ++ fields_tokens true fs
  end.

(** A line: one object. *)
Definition line (fs : list field) : list token := [Open] ++ fields_tokens false fs ++ [Close].

Lemma node_tokens_obj fs : node_tokens (NObj fs) = Open :: fields_tokens false fs ++ [Close].
Proof. done. Qed.

Definition is_empty {A} (l : list A) : bool := match l with [] => true | _ => false end.

Lemma is_empty_app {A} (l k : list A) : is_empty (l ++ k) = is_empty l && is_empty k.
Proof. by destruct l. Qed.

Lemma fields_tokens_app sep fs gs : fields_tokens sep (fs ++ gs) = fields_tokens sep fs ++ fields_tokens (sep || negb (is_empty fs)) gs.
Proof.
  revert sep. induction fs as [|f fs IH]; intros sep; [by rewrite orb_false_r|]. cbn [app fields_tokens is_empty negb]. rewrite IH, orb_true_r.
  rewrite <- !app_assoc. cbn [app]. by rewrite <- !app_assoc.
Qed.

Lemma nest_named key fs : key ≠ [] → fs ≠ [] → nest key fs = [(key, NObj fs)].
Proof. intros Hk Hf. destruct fs; [done|]. unfold nest. by rewrite decide_False. Qed.

Lemma nest_inline fs : nest [] fs = fs.
Proof. by destruct fs. Qed.

Lemma nest_empty key fs : is_empty (nest key fs) = is_empty fs.
Proof. destruct fs; [done|]. unfold nest. by destruct (decide _). Qed.

Lemma attrs_fields_cons rep gs a l : attrs_fields rep gs (a :: l) = value_fields rep (a_value a) gs (a_key a) ++ attrs_fields rep gs l.
Proof. done. Qed.

Lemma attrs_fields_app rep gs l k : attrs_fields rep gs (l ++ k) = attrs_fields rep gs l ++ attrs_fields rep gs k.
Proof. unfold attrs_fields. by rewrite map_app, concat_app. Qed.

Lemma value_fields_group rep l gs key : value_fields rep (Group l) gs key = nest key (attrs_fields rep (inside gs key) l).
Proof. done. Qed.

(** *** Writing *)

(** A state after some fields. *)
Definition wrote_fields (st : sstate) (fs : list field) (st' : sstate) : Prop :=
  s_buf st' = s_buf st ++ fields_tokens (s_sep st) fs ∧ s_sep st' = s_sep st || negb (is_empty fs) ∧ s_groups st' = s_groups st.

Lemma wrote_nil st : wrote_fields st [] st.
Proof. split_and!; [by rewrite app_nil_r|by rewrite orb_false_r|done]. Qed.

Lemma wrote_app st fs st' gs st'' : wrote_fields st fs st' → wrote_fields st' gs st'' → wrote_fields st (fs ++ gs) st''.
Proof.
  intros (Hb & Hs & Hg) (Hb' & Hs' & Hg'). split_and!; [|rewrite Hs', Hs, is_empty_app; by destruct (s_sep st), (is_empty fs), (is_empty gs)|congruence].
  by rewrite Hb', Hb, Hs, fields_tokens_app, app_assoc.
Qed.

(** The values that the encoder writes as the fields they stand for: not the
    times it rejects, nor a nil pointer held as an error. *)
Definition scalar_encodable (s : scalar) : bool :=
  match s with TimeV t => encodable t | AnyV (AnyError true _) => false | _ => true end.

Lemma wrote_leaf st key s : scalar_encodable s = true → wrote_fields st [(key, NLeaf (leaf_of s))] (appendValue s (appendKey key st)).
Proof.
  intros Hs. assert (Hv : value_tokens s = [Val (leaf_of s)]) by (destruct s; cbn in *; rewrite ?Hs; done).
  split_and!; cbn; [|by destruct (s_sep st)|done]. rewrite Hv, <- !app_assoc. done.
Qed.

(** A group whose members write something. *)
Lemma wrote_group members key st fs : fs ≠ [] → (∀ st0, s_groups st0 = inside (s_groups st) key → ∃ st', members st0 = (true, st') ∧ wrote_fields st0 fs st') →
  ∃ st', append_group members key st = (true, st') ∧ wrote_fields st (nest key fs) st'.
Proof.
  intros Hfs Hm. unfold append_group. destruct (decide (key = [])) as [->|Hk].
  - destruct (Hm st) as (st' & -> & Hw); [done|]. rewrite nest_inline. by exists st'.
  - destruct (Hm (openGroup key st)) as (st' & -> & Hb & Hs & Hg); [unfold inside; by rewrite decide_False|]. cbn [negb]. eexists. split; [done|].
    rewrite nest_named by done. split_and!.
    + cbn [closeGroup s_buf]. rewrite Hb. cbn [openGroup appendKey s_buf s_sep fields_tokens fst snd]. rewrite node_tokens_obj, app_nil_r, <- !app_assoc. done.
    + cbn. by rewrite orb_true_r.
    + cbn [closeGroup s_groups]. rewrite Hg. cbn. apply removelast_last.
Qed.

Section Writer.
Context (rep : replacer).

(** What the handler writes as the fields it stands for: encodable scalars,
    and groups of such that have fields. *)
Fixpoint value_ok (v : value) (gs : list gostring) (key : gostring) : bool :=
  match v with
  | Scalar s => scalar_encodable (rep gs key s)
  | Group l => negb (is_empty (attrs_fields rep (inside gs key) l)) && forallb (fun a => value_ok (a_value a) (inside gs key) (a_key a)) l
  end.

Definition attrs_ok (gs : list gostring) (l : list attr) : bool := forallb (fun a => value_ok (a_value a) gs (a_key a)) l.

(** The callback breaks nothing. *)
Hypothesis rep_encodable : ∀ gs key s, scalar_encodable s = true → scalar_encodable (rep gs key s) = true.

Lemma append_leaves_spec l : ∀ st, (∀ a, a ∈ l → scalar_encodable a.2 = true) → ∃ st', append_leaves rep l st = (negb (is_empty l), st') ∧
  wrote_fields st (leaf_field rep (s_groups st) <$> l) st'.
Proof.
  induction l as [|a l IH]; intros st Hl; [exists st; split; [done|apply wrote_nil]|]. cbn [append_leaves is_empty negb].
  set (st1 := appendValue (rep (s_groups st) a.1 a.2) (appendKey a.1 st)).
  assert (H1 : wrote_fields st [leaf_field rep (s_groups st) a] st1).
  { apply wrote_leaf, rep_encodable, Hl. by left. }
  destruct (IH st1) as (st' & Hst & Hw); [intros b Hb; apply Hl; by right|]. rewrite Hst. cbn [snd]. eexists. split; [done|].
  change (leaf_field rep (s_groups st) <$> a :: l) with ([leaf_field rep (s_groups st) a] ++ (leaf_field rep (s_groups st) <$> l)).
  eapply wrote_app; [exact H1|]. destruct H1 as (_ & _ & Hg). by rewrite <- Hg.
Qed.

Lemma source_group_plain src a : a ∈ source_group src → scalar_encodable a.2 = true.
Proof. unfold source_group. repeat case_match; cbn [app]; intros Ha; set_unfold; naive_solver. Qed.

Lemma append_scalar_spec key s st : scalar_encodable (rep (s_groups st) key s) = true →
  ∃ st', append_scalar rep key s st = (negb (is_empty (scalar_fields rep (s_groups st) key s)), st') ∧ wrote_fields st (scalar_fields rep (s_groups st) key s) st'.
Proof.
  intros He. unfold append_scalar, scalar_fields. destruct (rep (s_groups st) key s) as [x|x|x|x|x|x|x|x] eqn:Hr;
    try (eexists; split; [done|by apply wrote_leaf]).
  destruct x as [|src|np e|np o|l|x]; [| |destruct np; [done|]|..]; try (eexists; split; [done|by apply wrote_leaf]).
  - destruct (decide (key = [])); [eexists; split; [done|apply wrote_nil]|]. eexists. split; [done|]. by apply (wrote_leaf st key (AnyV AnyNil)).
  - destruct src as [src|]; [|eexists; split; [done|apply wrote_nil]]. rewrite nest_empty.
    pose proof (source_group_plain src) as Hpl. destruct (source_group src) as [|a l] eqn:Hsrc; [eexists; split; [done|apply wrote_nil]|].
    destruct (wrote_group (append_leaves rep (a :: l)) key st (leaf_field rep (inside (s_groups st) key) <$> a :: l)) as (st' & Hst & Hw); [done| |].
    + intros st0 Hg. destruct (append_leaves_spec (a :: l) st0 Hpl) as (st' & Hst & Hw). rewrite Hg in Hw. by exists st'.
    + exists st'. split; [|done]. exact Hst.
Qed.
(** A list of attributes written one after the other. *)
Lemma append_each l gs : Forall (fun a => ∀ st, s_groups st = gs → ∃ st', appendAttr rep (a_value a) (a_key a) st =
    (negb (is_empty (value_fields rep (a_value a) gs (a_key a))), st') ∧ wrote_fields st (value_fields rep (a_value a) gs (a_key a)) st') l →
  ∀ st w, s_groups st = gs → ∃ st',
    fold_left (fun (acc : bool * sstate) a => let '(wrote, st) := appendAttr rep (a_value a) (a_key a) acc.2 in (acc.1 || wrote, st)) l (w, st) =
      (w || negb (is_empty (attrs_fields rep gs l)), st') ∧ wrote_fields st (attrs_fields rep gs l) st'.
Proof.
  induction 1 as [|a l Ha _ IH]; intros st w Hg; [exists st; split; [by rewrite orb_false_r|apply wrote_nil]|].
  destruct (Ha st Hg) as (st1 & H1 & Hw1). cbn [fold_left snd fst]. rewrite H1. destruct (IH st1 (w || negb (is_empty (value_fields rep (a_value a) gs (a_key a))))) as (st' & -> & Hw).
  - destruct Hw1 as (_ & _ & Hg1). congruence.
  - exists st'. rewrite attrs_fields_cons. split; [|by eapply wrote_app]. f_equal. rewrite is_empty_app. by destruct w, (is_empty _).
Qed.

Lemma appendAttr_spec v : ∀ key st, value_ok v (s_groups st) key = true → ∃ st',
  appendAttr rep v key st = (negb (is_empty (value_fields rep v (s_groups st) key)), st') ∧ wrote_fields st (value_fields rep v (s_groups st) key) st'.
Proof.
  induction v as [s|l IH] using value_ind'; intros key st Hok; cbn [value_ok] in Hok.
  - by apply append_scalar_spec.
  - apply andb_true_iff in Hok as [Hne%negb_true_iff Hall]. rewrite value_fields_group, nest_empty, Hne. cbn [negb].
    destruct l as [|a l]; [done|]. apply (wrote_group _ key st (attrs_fields rep (inside (s_groups st) key) (a :: l))); [by intros H0; rewrite H0 in Hne|].
    intros st0 Hg. destruct (append_each (a :: l) (inside (s_groups st) key)) with (st := st0) (w := false) as (st' & Hst & Hw); [|done|].
    + rewrite forallb_forall in Hall. apply Forall_forall. intros b Hb st1 Hg1. rewrite Forall_forall in IH. rewrite <- Hg1. apply (IH b Hb). rewrite Hg1. apply Hall. by apply list_elem_of_In.
    + exists st'. rewrite Hne in Hst. done.
Qed.

Lemma appendAttrs_spec l st : attrs_ok (s_groups st) l = true → ∃ st',
  appendAttrs rep l st = (negb (is_empty (attrs_fields rep (s_groups st) l)), st') ∧ wrote_fields st (attrs_fields rep (s_groups st) l) st'.
Proof.
  intros Hok. unfold attrs_ok in Hok. rewrite forallb_forall in Hok. apply (append_each l (s_groups st)); [|done].
  apply Forall_forall. intros a Ha st1 Hg. rewrite <- Hg. apply appendAttr_spec. rewrite Hg. apply Hok. by apply list_elem_of_In.
Qed.
End Writer.

(** ** A derived handler *)

Section Chain.
Context (rep : replacer).
Hypothesis rep_encodable : ∀ gs key s, scalar_encodable s = true → scalar_encodable (rep gs key s) = true.

Definition names (ops : list op) : list gostring := omap (fun o => match o with OpGroup n => Some n | _ => None end) ops.

Fixpoint chain_ok (gs : list gostring) (ops : list op) : Prop :=
  match ops with
  | [] => True
  | OpAttrs l :: ops => attrs_ok rep gs l = true ∧ attrs_fields rep gs l ≠ [] ∧ chain_ok gs ops
  | OpGroup n :: ops => n ≠ [] ∧ chain_ok (inside gs n) ops
  end.

Definition group_tokens (sep : bool) (n : gostring) : list token := (if sep then [Comma] else []) ++ [Key n; Open].

Fixpoint open_tokens (sep : bool) (ns : list gostring) : list token :=
  match ns with
  | [] => []
  | n :: ns => group_tokens sep n ++ open_tokens false ns
  end.

Definition after (sep : bool) (ns : list gostring) : bool := match ns with [] => sep | _ => false end.

Lemma open_tokens_snoc sep ns n : open_tokens sep (ns ++ [n]) = open_tokens sep ns ++ group_tokens (after sep ns) n.
Proof.
  revert sep. induction ns as [|m ns IH]; intros sep; [cbn [app open_tokens after]; by rewrite app_nil_r|]. cbn [app open_tokens]. rewrite IH, <- app_assoc. by destruct ns.
Qed.

Lemma openGroups_spec ns : ∀ st, openGroups ns st = MkState (s_buf st ++ open_tokens (s_sep st) ns) (after (s_sep st) ns) (s_groups st ++ ns).
Proof.
  induction ns as [|n ns IH]; intros [buf sep gs]; cbn [s_buf s_sep s_groups open_tokens after].
  - cbn. by rewrite !app_nil_r.
  - change (openGroups (n :: ns) ?st) with (openGroups ns (openGroup n st)). rewrite IH. cbn [openGroup appendKey s_buf s_sep s_groups]. unfold group_tokens.
    rewrite <- !app_assoc. by destruct ns.
Qed.

(** What is preformatted, which groups are pending, and how many are open,
    [pend] pending ones before the operations. *)
Fixpoint pre (sep : bool) (pend gs : list gostring) (ops : list op) : list token :=
  match ops with
  | [] => []
  | OpAttrs l :: ops => open_tokens sep pend ++ fields_tokens (after sep pend) (attrs_fields rep gs l) ++ pre true [] gs ops
  | OpGroup n :: ops => pre sep (pend ++ [n]) (inside gs n) ops
  end.

Fixpoint pending (pend : list gostring) (ops : list op) : list gostring :=
  match ops with
  | [] => pend
  | OpAttrs _ :: ops => pending [] ops
  | OpGroup n :: ops => pending (pend ++ [n]) ops
  end.

Definition nest_all (pend : list gostring) (fs : list field) : list field := foldr nest fs pend.

Lemma nest_all_empty pend fs : is_empty (nest_all pend fs) = is_empty fs.
Proof. induction pend as [|n pend IH]; [done|]. cbn. by rewrite nest_empty. Qed.

Lemma nest_all_tokens pend : ∀ sep fs, Forall (fun n => n ≠ []) pend → fs ≠ [] →
  fields_tokens sep (nest_all pend fs) = open_tokens sep pend ++ fields_tokens (after sep pend) fs ++ replicate (length pend) Close.
Proof.
  induction pend as [|n pend IH]; intros sep fs Hp Hfs; [by rewrite app_nil_r|]. apply Forall_cons in Hp as [Hn Hp].
  assert (Hne : nest_all pend fs ≠ []).
  { intros He. pose proof (nest_all_empty pend fs) as H0. rewrite He in H0. by destruct fs. }
  change (nest_all (n :: pend) fs) with (nest n (nest_all pend fs)). rewrite nest_named by done. cbn [fields_tokens fst snd]. rewrite node_tokens_obj, IH, app_nil_r by done.
  cbn [open_tokens after length]. unfold group_tokens. rewrite replicate_S_end, <- !app_assoc. destruct pend; cbn [app after]; rewrite <- ?app_assoc; done.
Qed.

(** The handler's tokens are those of the fields. *)
Lemma chain_tokens ops attrs : ∀ sep pend gs, chain_ok gs ops → Forall (fun n => n ≠ []) pend → 
  let rec := attrs_fields rep (foldl inside gs (names ops)) attrs in
  let fs := nest_all pend (chain_fields rep gs ops attrs) in
  let sep' := sep || negb (is_empty (pre sep pend gs ops)) in
  fields_tokens sep fs = pre sep pend gs ops ++ 
    (if is_empty rec then replicate (length (pend ++ names ops) - length (pending pend ops)) Close
     else open_tokens sep' (pending pend ops) ++ fields_tokens (after sep' (pending pend ops)) rec ++ replicate (length (pend ++ names ops)) Close).
Proof.
  induction ops as [|[l|n] ops IH]; intros sep pend gs Hok Hp; cbn zeta.
  - cbn [names omap list_omap foldl chain_fields pre pending app is_empty negb]. rewrite app_nil_r, orb_false_r. destruct (attrs_fields rep gs attrs) as [|f fs] eqn:Hfs; cbn [is_empty].
    + rewrite Nat.sub_diag. assert (H0 : nest_all pend [] = []) by (pose proof (nest_all_empty pend []) as H0; by destruct (nest_all pend [])). by rewrite H0.
    + by apply nest_all_tokens.
  - destruct Hok as (Hl & Hne & Hok). cbn [chain_fields names omap list_omap pre pending]. rewrite nest_all_tokens; [|done|by destruct (attrs_fields rep gs l)].
    specialize (IH true [] gs Hok (Forall_nil_2 _)). cbn zeta in IH. cbn [nest_all foldr app] in IH. rewrite fields_tokens_app.
    replace (after sep pend || negb (is_empty (attrs_fields rep gs l))) with true by (destruct (attrs_fields rep gs l); [done|by rewrite orb_true_r]).
    rewrite IH, <- !app_assoc. f_equal. f_equal. f_equal.
    replace (sep || negb (is_empty (open_tokens sep pend ++ fields_tokens (after sep pend) (attrs_fields rep gs l) ++ pre true [] gs ops))) with true.
    2:{ rewrite !is_empty_app. destruct (attrs_fields rep gs l); [done|]. cbn. destruct (after sep pend); cbn; by rewrite ?andb_false_r, orb_true_r. }
    cbn [orb]. change (omap _ ops) with (names ops). rewrite length_app. destruct (is_empty _).
    + rewrite <- replicate_add. f_equal. assert (length (pending [] ops) <= length (names ops))%nat; [|lia].
      clear. assert (Hg : ∀ p, (length (pending p ops) <= length p + length (names ops))%nat); [|apply (Hg [])].
      induction ops as [|[l|n] ops IH]; intros p; cbn; [lia|specialize (IH []); cbn in IH; unfold names in IH; lia|]. specialize (IH (p ++ [n])). rewrite length_app in IH. unfold names in IH. cbn in IH. lia.
    + rewrite <- !app_assoc, <- replicate_add. do 3 f_equal. lia.
  - destruct Hok as (Hn & Hok). cbn [chain_fields names omap list_omap pre pending foldl]. change (omap _ ops) with (names ops).
    specialize (IH sep (pend ++ [n]) (inside gs n) Hok). cbn zeta in IH. rewrite <- app_assoc in IH. cbn [app] in IH. rewrite <- IH.
    + unfold nest_all. by rewrite foldr_app.
    + apply Forall_app. split; [done|by constructor].
Qed.

(** *** The handler against its operations *)

Definition settled (l : list token) : Prop := l = [] ∨ ∃ l' t, l = l' ++ [t] ∧ t ≠ Open.

Lemma settled_app l k : settled l → settled k → settled (l ++ k).
Proof.
  intros Hl [->|(k' & t & -> & Ht)]; [by rewrite app_nil_r|]. right. exists (l ++ k'), t. by rewrite app_assoc.
Qed.

Lemma node_settled n : ∃ l t, node_tokens n = l ++ [t] ∧ t ≠ Open.
Proof. destruct n as [l|fs]; [by exists [], (Val l)|]. rewrite node_tokens_obj. by exists (Open :: fields_tokens false fs), Close. Qed.

Lemma fields_settled fs : ∀ sep, settled (fields_tokens sep fs).
Proof.
  induction fs as [|f fs IH]; intros sep; [by left|]. cbn [fields_tokens].
  destruct (node_settled f.2) as (l & t & Hn & Ht).
  replace (_ ++ Key f.1 :: _) with (((if sep then [Comma] else []) ++ Key f.1 :: node_tokens f.2) ++ fields_tokens true fs) by (by rewrite <- app_assoc).
  apply settled_app; [|apply IH]. right. rewrite Hn. eexists (_ ++ Key f.1 :: l), t. by rewrite <- app_assoc.
Qed.

Lemma pre_settled ops : ∀ sep pend gs, chain_ok gs ops → settled (pre sep pend gs ops).
Proof.
  induction ops as [|[l|n] ops IH]; intros sep pend gs Hok; [by left| |apply IH, Hok].
  destruct Hok as (_ & Hne & Hok). cbn [pre]. rewrite app_assoc. apply settled_app; [|by apply IH].
  destruct (fields_settled (attrs_fields rep gs l) (after sep pend)) as [He|(k & t & -> & Ht)].
  - destruct (attrs_fields rep gs l); [done|]. cbn in He. by destruct (after sep pend).
  - right. exists (open_tokens sep pend ++ k), t. by rewrite app_assoc.
Qed.

Lemma sep_after_settled l b : settled l → sep_after l b = b || negb (is_empty l) ∨ is_empty l = false.
Proof. intros [->|(k & t & -> & Ht)]; [left; cbn; by rewrite orb_false_r|right]. by destruct k. Qed.

Lemma sep_after_spec l b : settled l → sep_after l b = if is_empty l then b else true.
Proof.
  intros [->|(k & t & -> & Ht)]; [done|]. unfold sep_after. rewrite last_snoc. replace (is_empty (k ++ [t])) with false by (by destruct k). by destruct t.
Qed.

Lemma pending_app ops : ∀ pend ops', pending pend (ops ++ ops') = pending (pending pend ops) ops'.
Proof. induction ops as [|[l|n] ops IH]; intros pend ops'; [done|apply IH|apply IH]. Qed.

Lemma names_app ops ops' : names (ops ++ ops') = names ops ++ names ops'.
Proof. apply omap_app. Qed.

Lemma pending_names ops : ∀ pend, ∃ o, pend ++ names ops = o ++ pending pend ops.
Proof.
  induction ops as [|[l|n] ops IH]; intros pend; [by exists []; rewrite app_nil_r| |].
  - destruct (IH []) as [o Ho]. exists (pend ++ o). cbn [names omap list_omap pending]. change (omap _ ops) with (names ops). rewrite <- app_assoc. by f_equal.
  - destruct (IH (pend ++ [n])) as [o Ho]. exists o. cbn [pending]. rewrite <- Ho, <- app_assoc. done.
Qed.

Lemma inside_names ops : ∀ gs, chain_ok gs ops → foldl inside gs (names ops) = gs ++ names ops.
Proof.
  induction ops as [|[l|n] ops IH]; intros gs Hok; [by rewrite app_nil_r|by apply IH, Hok|]. destruct Hok as [Hn Hok].
  cbn [names omap list_omap foldl]. change (omap _ ops) with (names ops). rewrite IH by done. unfold inside. rewrite decide_False by done. by rewrite <- app_assoc.
Qed.

Lemma names_named ops : ∀ gs, chain_ok gs ops → Forall (fun n => n ≠ []) (names ops).
Proof. induction ops as [|[l|n] ops IH]; intros gs Hok; [constructor|apply (IH gs), Hok|]. destruct Hok as [Hn Hok]. constructor; [done|by eapply IH]. Qed.

Lemma chain_ok_app ops : ∀ gs ops', chain_ok gs (ops ++ ops') ↔ chain_ok gs ops ∧ chain_ok (foldl inside gs (names ops)) ops'.
Proof. induction ops as [|[l|n] ops IH]; intros gs ops'; cbn [chain_ok app names omap list_omap foldl]; [tauto| |]; change (omap _ ops) with (names ops); rewrite IH; tauto. Qed.

Lemma fields_tokens_empty sep fs : is_empty (fields_tokens sep fs) = is_empty fs.
Proof. destruct fs as [|f fs]; [done|]. by destruct sep. Qed.

Lemma pre_attrs ops l : ∀ sep pend gs, chain_ok gs ops → pre sep pend gs (ops ++ [OpAttrs l]) =
  let sep' := sep || negb (is_empty (pre sep pend gs ops)) in
  pre sep pend gs ops ++ open_tokens sep' (pending pend ops) ++ fields_tokens (after sep' (pending pend ops)) (attrs_fields rep (foldl inside gs (names ops)) l).
Proof.
  induction ops as [|[l'|n] ops IH]; intros sep pend gs Hok; cbn zeta.
  - cbn [app pre pending is_empty negb names omap list_omap foldl]. by rewrite app_nil_r, orb_false_r.
  - destruct Hok as (_ & Hne & Hok). cbn [app pre pending names omap list_omap]. change (omap _ ops) with (names ops). rewrite IH by done. cbn zeta. rewrite <- !app_assoc.
    rewrite !is_empty_app, fields_tokens_empty. destruct (attrs_fields rep gs l'); [done|]. cbn [is_empty]. by rewrite andb_false_r, orb_true_r.
  - cbn [app pre pending names omap list_omap foldl]. change (omap _ ops) with (names ops). by rewrite IH by apply Hok.
Qed.

(** A separator in front. *)
Lemma fields_tokens_comma fs : fields_tokens true fs = if is_empty fs then [] else Comma :: fields_tokens false fs.
Proof. by destruct fs. Qed.

Lemma pre_comma ops : ∀ pend gs, chain_ok gs ops → pre true pend gs ops = if is_empty (pre false pend gs ops) then [] else Comma :: pre false pend gs ops.
Proof.
  induction ops as [|[l|n] ops IH]; intros pend gs Hok; [done| |by apply IH, Hok]. destruct Hok as (_ & Hne & _).
  cbn [pre]. destruct pend as [|n pend]; [|done]. cbn [open_tokens after app].
  rewrite fields_tokens_comma, is_empty_app, fields_tokens_empty. by destruct (attrs_fields rep gs l).
Qed.

Lemma pre_group ops n : ∀ sep pend gs, pre sep pend gs (ops ++ [OpGroup n]) = pre sep pend gs ops.
Proof. induction ops as [|[l|m] ops IH]; intros sep pend gs; cbn [app pre]; [done|by rewrite IH|apply IH]. Qed.

Record tracks (h : json_handler) (ops : list op) : Prop := Tracks {
  tr_ok : chain_ok [] ops;
  tr_groups : h_groups h = names ops;
  tr_pre : h_preformatted h = pre false [] [] ops;
  tr_open : ∃ o, names ops = o ++ pending [] ops ∧ h_nOpen h = length o
}.

Lemma tracks_new level source : tracks (NewJSONHandler level source) [].
Proof. split; try done. by exists []. Qed.

Lemma tracks_take h ops : tracks h ops → ∃ o, names ops = o ++ pending [] ops ∧ h_nOpen h = length o ∧ take (h_nOpen h) (h_groups h) = o ∧ drop (h_nOpen h) (h_groups h) = pending [] ops.
Proof. intros [_ Hg _ (o & Ho & Hn)]. exists o. rewrite Hg, Hn, Ho. by rewrite take_app_length, drop_app_length. Qed.

(** An empty group is no field. *)
Lemma all_empty_groups l gs : forallb isEmptyGroup l = true → attrs_fields rep gs l = [].
Proof. induction l as [|[[k b] [s|[|]]] l IH]; [done|..]; cbn [forallb isEmptyGroup]; [by destruct b| |by destruct b]. destruct b; [done|]. intros Hl. rewrite attrs_fields_cons. cbn. by apply IH. Qed.

Lemma tracks_WithAttrs h ops l : tracks h ops → attrs_ok rep (names ops) l = true → attrs_fields rep (names ops) l ≠ [] →
  tracks (json_WithAttrs rep l h) (ops ++ [OpAttrs l]).
Proof.
  intros Ht Hok Hne. pose proof Ht as [Hc Hg Hp _]. destruct (tracks_take h ops Ht) as (o & Ho & Hn & Htk & Hdr). unfold json_WithAttrs.
  destruct (forallb isEmptyGroup l) eqn:He; [by rewrite (all_empty_groups l) in Hne|]. rewrite Htk, Hdr, openGroups_spec. cbn [s_buf s_sep s_groups]. rewrite <- Ho.
  pose proof (pre_settled ops false [] [] Hc) as Hs. rewrite <- Hp in Hs. rewrite sep_after_spec by done.
  destruct (appendAttrs_spec rep rep_encodable l (MkState (h_preformatted h ++ open_tokens (if is_empty (h_preformatted h) then false else true) (pending [] ops))
    (after (if is_empty (h_preformatted h) then false else true) (pending [] ops)) (names ops)) Hok) as (st' & -> & Hb & _).
  cbn [s_buf s_sep s_groups] in *. replace (is_empty (attrs_fields rep (names ops) l)) with false by (by destruct (attrs_fields rep (names ops) l)). cbn [negb].
  split; cbn [h_groups h_preformatted h_nOpen].
  - apply chain_ok_app. rewrite inside_names by done. by split.
  - rewrite names_app. cbn. by rewrite app_nil_r.
  - rewrite Hb, pre_attrs, inside_names, Hp by done. cbn zeta. rewrite <- app_assoc. by destruct (is_empty (pre false [] [] ops)).
  - exists (names ops). rewrite names_app, pending_app. cbn. split; [done|]. by rewrite Hg.
Qed.

Lemma tracks_WithGroup h ops n : tracks h ops → n ≠ [] → tracks (json_WithGroup n h) (ops ++ [OpGroup n]).
Proof.
  intros [Hc Hg Hp (o & Ho & Hn)] Hne. unfold json_WithGroup. rewrite decide_False by done. split; cbn [h_groups h_preformatted h_nOpen].
  - apply chain_ok_app. split; [done|]. by split.
  - rewrite names_app, Hg. done.
  - by rewrite pre_group.
  - exists o. rewrite names_app, pending_app, Ho. cbn. by rewrite <- app_assoc.
Qed.

(** What a handler writes for a record, the callback having mended the
    built-in attributes. *)
Lemma json_Handle_spec h ops r : tracks h ops → attrs_ok rep (names ops) (r_attrs r) = true →
  attrs_ok rep [] (builtins (h_source h) r) = true → is_empty (attrs_fields rep [] (builtins (h_source h) r)) = false →
  json_Handle rep h r = line (attrs_fields rep [] (builtins (h_source h) r) ++ chain_fields rep [] ops (r_attrs r)).
Proof.
  intros Ht Hok Hbi Hne. pose proof Ht as [Hc Hg Hp _]. destruct (tracks_take h ops Ht) as (o & Ho & Hn & Htk & Hdr). unfold json_Handle.
  destruct (appendAttrs_spec rep rep_encodable (builtins (h_source h) r) (MkState [Open] false []) Hbi) as (st & Hst & Hb & Hs & _). rewrite Hst. cbn [snd s_buf s_sep s_groups] in *.
  rewrite Hne in Hs. cbn in Hs. rewrite Hs, Htk.
  pose proof (chain_tokens ops (r_attrs r) true [] [] Hc (Forall_nil_2 _)) as Hch. cbn zeta in Hch. rewrite inside_names in Hch by done. cbn [app nest_all foldr orb] in Hch.
  unfold line. rewrite fields_tokens_app, Hne, orb_true_r, Hch, <- (app_assoc (fields_tokens false _)), (app_assoc [Open]), <- Hb, Hg, Hn. clear Hb Hst Hbi Hch.
  assert (Hlen : (length (names ops) - length (pending [] ops))%nat = length o) by (rewrite Ho, length_app; lia).
  set (st1 := match h_preformatted h with [] => _ | _ => _ end).
  assert (Hst1 : st1 = MkState (s_buf st ++ pre true [] [] ops) true o).
  { subst st1. rewrite pre_comma, <- Hp by done. pose proof (pre_settled ops false [] [] Hc) as Hse. rewrite <- Hp in Hse. pose proof (sep_after_spec _ true Hse) as Hsa.
    destruct (h_preformatted h) as [|t l]; [by rewrite app_nil_r|]. by rewrite Hsa. }
  rewrite Hst1. clear st1 Hst1. destruct (r_attrs r) as [|a attrs] eqn:Hr.
  - cbn [attrs_fields map concat is_empty s_buf]. rewrite Hlen, <- !app_assoc. done.
  - rewrite Hn in Hdr. rewrite Hg in Hdr. rewrite Hdr, openGroups_spec. cbn [s_buf s_sep s_groups]. rewrite <- Ho.
    destruct (appendAttrs_spec rep rep_encodable (a :: attrs) (MkState ((s_buf st ++ pre true [] [] ops) ++ open_tokens true (pending [] ops)) (after true (pending [] ops)) (names ops)) Hok) as (st' & -> & Hb & _).
    rewrite negb_involutive. cbn [s_buf s_sep s_groups] in *. destruct (is_empty (attrs_fields rep (names ops) (a :: attrs))).
    + cbn [setLen s_buf]. rewrite Hlen, <- !app_assoc. done.
    + rewrite Hb, <- !app_assoc. done.
Qed.
End Chain.
End Values.
