(* ===== verification/LogSanitize.v ===== *)
(** * [pkg/logutil]: attributes mended before they are written

    sanitize.go: the handler that resolves every value once, drops what
    renders nothing and rewrites the times the JSON encoder cannot write. It
    changes none of the fields and leaves only what that encoder writes as it
    stands. *)

From stdpp Require Import base option list.
From Stdlib Require Import String.
From S2P Require Import Prelude GoString GoText Slog.

#[local] Open Scope Z_scope.

Section Sanitize.
Context `{GoValues}.

Definition encodableJSONTime (t : gotime) : bool := let y := Year t in (0 <=? y) && (y <? 10000).

Definition emptySource (src : option Source) : bool :=
  match src with
  | None => true
  | Some src => str_eqb (Function src) [] && str_eqb (File src) [] && (Line src =? 0)
  end.

(** [Attr{Key: key, Value: v}.Equal(slog.Attr{})]. *)
Definition isZeroAttr (key : gostring) (v : value) : bool :=
  match key, v with
  | [], Scalar (AnyV AnyNil) => true
  | _, _ => false
  end.

Fixpoint valueRenders (v : value) : bool :=
  match v with
  | Group l => existsb (fun a => negb (isZeroAttr (a_key a) (a_value a)) && valueRenders (a_value a)) l
  | Scalar (AnyV (AnySource src)) => negb (emptySource src)
  | Scalar (AnyV (AnyError nilPointer _)) => negb nilPointer
  | Scalar _ => true
  end.

Definition attrRenders (a : attr) : bool := negb (isZeroAttr (a_key a) (a_value a)) && valueRenders (a_value a).

Definition attrsRender (attrs : list attr) : bool := existsb attrRenders attrs.

Definition recordRenders (r : record) : bool := existsb attrRenders (r_attrs r).

(** The loop of [sanitizeAttrs]: the attributes passed, and [out], nil until
    one changed. *)
Definition sanitize_step (sanitize : attr → attr * bool * bool) (acc : list attr * option (list attr)) (a : attr) : list attr * option (list attr) :=
  let '(seen, out) := acc in
  let '(clean, keep, dirty) := sanitize a in
  (seen ++ [a],
   match out with
   | None => if keep && negb dirty then None else Some (if keep then seen ++ [clean] else seen)
   | Some out => Some (if keep then out ++ [clean] else out)
   end).

Definition sanitize_loop (sanitize : attr → attr * bool * bool) (attrs : list attr) : list attr * bool :=
  match (fold_left (sanitize_step sanitize) attrs ([], None)).2 with
  | None => (attrs, false)
  | Some out => (out, true)
  end.

(** [sanitizeAttr]: what to write, whether to keep it, whether it changed. *)
Fixpoint sanitizeValue (v : value) (key : gostring) (valuer : bool) : attr * bool * bool :=
  match v with
  | Scalar (TimeV t) =>
      if negb (encodableJSONTime t) then (Attr key (Scalar (StringV (RFC3339Nano t))), true, true)
      else (Attr key v, attrRenders (Attr key v), valuer)
  | Scalar _ => (Attr key v, attrRenders (Attr key v), valuer)
  | Group l =>
      let '(members, membersDirty) := sanitize_loop (fun a => sanitizeValue (a_value a) (a_key a) (a_valuer a)) l in
      match members with
      | [] => ((key, valuer, v), false, true)
      | _ => if negb valuer && negb membersDirty then ((key, valuer, v), true, false) else (Attr key (Group members), true, true)
      end
  end.

Definition sanitizeAttr (a : attr) : attr * bool * bool := sanitizeValue (a_value a) (a_key a) (a_valuer a).

Definition sanitizeAttrs (attrs : list attr) : list attr * bool := sanitize_loop sanitizeAttr attrs.

Definition attrMayNeedSanitize (a : attr) : bool :=
  match a with
  | (_, true, _) | (_, _, Group _) => true
  | (_, _, Scalar (TimeV t)) => negb (encodableJSONTime t)
  | (_, _, Scalar (AnyV x)) => negb (valueRenders (Scalar (AnyV x)))
  | _ => false
  end.

Definition recordMayNeedSanitize (r : record) : bool := existsb attrMayNeedSanitize (r_attrs r).

Definition with_attrs (r : record) (attrs : list attr) : record := MkRecord (r_time r) (r_level r) (r_message r) (r_source r) attrs.

(** [AddAttrs] on a new record leaves out the empty groups. *)
Definition AddAttrs (attrs : list attr) (r : record) : record := with_attrs r (r_attrs r ++ filter (fun a => isEmptyGroup a = false) attrs).

Definition NewRecord (r : record) : record := with_attrs r [].

Definition sanitizeRecord (r : record) : record :=
  if negb (recordMayNeedSanitize r) then r
  else
    let '(attrs, changed) := fold_left (fun (acc : list attr * bool) a =>
      let '(clean, keep, dirty) := sanitizeAttr a in
      (if keep then acc.1 ++ [clean] else acc.1, acc.2 || dirty || negb keep)) (r_attrs r) ([], false) in
    if negb changed then r else AddAttrs attrs (NewRecord r).

(** ** Facts *)

(** A callback that leaves out nothing more and can write the times. *)
Class Mends (rep : replacer) : Prop := {
  mends_encodable gs key s : scalar_encodable s = true → scalar_encodable (rep gs key s) = true;
  mends_time gs key t : scalar_fields rep gs key (TimeV t) = scalar_fields rep gs key (StringV (RFC3339Nano t));
  mends_keys gs key s : map fst (scalar_fields rep gs key s) = map fst (scalar_fields no_replacer gs key s)
}.

#[global] Instance no_replacer_mends : Mends no_replacer.
Proof. by split. Qed.

Lemma plain_renders gs key s : is_empty (scalar_fields no_replacer gs key s) = negb (attrRenders (Attr key (Scalar s))).
Proof.
  destruct s as [x|x|x|x|x|x|t|x]; try by destruct key. destruct x as [|[[fn fl ln]|]|[] e|np o|z|x]; try by destruct key.
  unfold scalar_fields, no_replacer, source_group, attrRenders. cbn [Function File Line].
  replace (isZeroAttr _ _) with false by (by destruct key). cbn [Attr a_value fst snd valueRenders negb andb emptySource Function File Line].
  rewrite nest_empty. destruct fn, fl; cbn; by destruct (ln =? 0).
Qed.

Context (rep : replacer) `{!Mends rep}.

Lemma mends_renders gs key s : is_empty (scalar_fields rep gs key s) = negb (attrRenders (Attr key (Scalar s))).
Proof. rewrite <- (plain_renders gs). pose proof (mends_keys gs key s) as Hk. by destruct (scalar_fields rep gs key s), (scalar_fields no_replacer gs key s). Qed.

Lemma value_fields_renders v : ∀ gs key, is_empty (value_fields rep v gs key) = negb (attrRenders (Attr key v)).
Proof.
  induction v as [s|l IH] using value_ind'; intros gs key; [apply mends_renders|]. rewrite value_fields_group, nest_empty.
  assert (Ha : attrRenders (Attr key (Group l)) = existsb attrRenders l) by (unfold attrRenders; by destruct key). rewrite Ha.
  generalize (inside gs key). intros gs'. clear Ha. induction IH as [|a l Ha _ IHl]; [done|].
  rewrite attrs_fields_cons, is_empty_app, Ha, IHl. cbn [existsb]. by rewrite negb_orb.
Qed.

Lemma attrs_fields_render l gs : is_empty (attrs_fields rep gs l) = negb (attrsRender l).
Proof.
  induction l as [|a l IH]; [done|]. rewrite attrs_fields_cons, is_empty_app, value_fields_renders, IH. cbn [attrsRender existsb]. by rewrite negb_orb.
Qed.

(** What becomes of an attribute. *)
Definition mended (a clean : attr) (keep dirty : bool) : Prop :=
  (if keep then ∀ gs, value_fields rep (a_value clean) gs (a_key clean) = value_fields rep (a_value a) gs (a_key a) ∧
      value_ok rep (a_value clean) gs (a_key clean) = true ∧ is_empty (value_fields rep (a_value a) gs (a_key a)) = false
   else ∀ gs, value_fields rep (a_value a) gs (a_key a) = []) ∧
  (keep = true → dirty = false → clean = a).

Definition mends_with (f : attr → attr * bool * bool) (a : attr) : Prop := let '(clean, keep, dirty) := f a in mended a clean keep dirty.

Definition all_rendered (l : list attr) : Prop := ∀ gs, Forall (fun a => is_empty (value_fields rep (a_value a) gs (a_key a)) = false) l.

(** The same fields, all written as they stand, none of them empty. *)
Definition mended_all (l l' : list attr) : Prop :=
  (∀ gs, attrs_fields rep gs l' = attrs_fields rep gs l ∧ attrs_ok rep gs l' = true) ∧ all_rendered l'.

Lemma attrs_ok_app gs l k : attrs_ok rep gs (l ++ k) = attrs_ok rep gs l && attrs_ok rep gs k.
Proof. apply forallb_app. Qed.

Lemma mended_app l l' k k' : mended_all l l' → mended_all k k' → mended_all (l ++ k) (l' ++ k').
Proof.
  intros [H1 H1'] [H2 H2']. split; [intros gs|intros gs; by apply Forall_app]. destruct (H1 gs) as [E1 K1], (H2 gs) as [E2 K2].
  by rewrite !attrs_fields_app, E1, E2, attrs_ok_app, K1, K2.
Qed.

Lemma mended_one a clean keep dirty : mended a clean keep dirty → mended_all [a] (if keep then [clean] else []).
Proof.
  intros [Hm _]. destruct keep; (split; [intros gs|intros gs]).
  - destruct (Hm gs) as (He & Hok & _). split; [|cbn; by rewrite Hok]. unfold attrs_fields. cbn. by rewrite He.
  - destruct (Hm gs) as (He & _ & Hne). constructor; [by rewrite He|constructor].
  - split; [|done]. unfold attrs_fields. cbn. by rewrite (Hm gs).
  - constructor.
Qed.

Lemma sanitize_loop_spec f l : Forall (mends_with f) l → mended_all l (sanitize_loop f l).1 ∧ ((sanitize_loop f l).2 = false → (sanitize_loop f l).1 = l).
Proof.
  intros Hf. unfold sanitize_loop.
  assert (Hg : ∀ seen out, mended_all seen (default seen out) → let acc := fold_left (sanitize_step f) l (seen, out) in
    acc.1 = seen ++ l ∧ mended_all (seen ++ l) (default (seen ++ l) acc.2)).
  { induction Hf as [|a l Ha _ IH]; intros seen out Hs; [cbn; by rewrite app_nil_r|]. cbn [fold_left]. unfold mends_with in Ha.
    unfold sanitize_step at 2 4. destruct (f a) as [[clean keep] dirty]. pose proof (mended_one _ _ _ _ Ha) as H1. destruct Ha as [_ Hsame].
    replace (seen ++ a :: l) with ((seen ++ [a]) ++ l) by (by rewrite <- app_assoc). apply IH.
    destruct out as [out|]; cbn [default] in *; [|destruct keep, dirty; cbn [andb negb default]].
    - replace (if keep then out ++ [clean] else out) with (out ++ (if keep then [clean] else [])) by (destruct keep; [done|by rewrite app_nil_r]). by apply mended_app.
    - by apply mended_app.
    - apply mended_app; [done|]. by rewrite (Hsame eq_refl eq_refl) in H1.
    - rewrite <- (app_nil_r seen) at 2. by apply mended_app.
    - rewrite <- (app_nil_r seen) at 2. by apply mended_app. }
  destruct (Hg [] None) as [_ Hl]; [split; [done|intros gs; constructor]|]. destruct (fold_left _ _ _) as [seen [out|]]; cbn [snd default] in *; (split; [done|by intros]).
Qed.

Lemma sanitizeValue_spec v : ∀ key valuer, let '(clean, keep, dirty) := sanitizeValue v key valuer in mended (key, valuer, v) clean keep dirty.
Proof.
  assert (Hscalar : ∀ s key valuer, scalar_encodable s = true ∨ attrRenders (Attr key (Scalar s)) = false →
    mended (key, valuer, Scalar s) (Attr key (Scalar s)) (attrRenders (Attr key (Scalar s))) valuer).
  { intros s key valuer Hs. split; [|by intros _ ->]. destruct (attrRenders (Attr key (Scalar s))) eqn:Hr; intros gs; cbn [a_value a_key Attr fst snd value_fields value_ok].
    - split; [done|]. split; [destruct Hs; [by apply mends_encodable|done]|]. by rewrite mends_renders, Hr.
    - pose proof (mends_renders gs key s) as He. rewrite Hr in He. by destruct (scalar_fields rep gs key s). }
  induction v as [s|l IH] using value_ind'; intros key valuer.
  - cbn [sanitizeValue]. destruct s as [x|x|x|x|x|x|t|x]; try (apply Hscalar; by left).
    + destruct (encodableJSONTime t) eqn:Ht; cbn [negb]; [apply Hscalar; by left|]. split; [|done]. intros gs. cbn [a_value a_key Attr fst snd value_fields value_ok].
      rewrite <- mends_time. split; [done|]. split; [by apply mends_encodable|]. rewrite mends_time, mends_renders. by destruct key.
    + apply Hscalar. destruct x as [|src|[] e|np o|z|x]; try (by left). right. by destruct key.
  - cbn [sanitizeValue]. pose proof (sanitize_loop_spec (fun a => sanitizeValue (a_value a) (a_key a) (a_valuer a)) l) as Hl.
    destruct (sanitize_loop _ l) as [members dirty]. destruct Hl as [[Hm Hren] Hsame].
    { eapply Forall_impl; [exact IH|]. intros [[k b] w] Hw. exact (Hw k b). }
    cbn [fst snd] in *. destruct members as [|m members].
    + split; [|done]. intros gs. cbn [a_value a_key fst snd]. rewrite value_fields_group. destruct (Hm (inside gs key)) as [<- _]. done.
    + assert (Hmem : ∀ gs, value_fields rep (Group (m :: members)) gs key = value_fields rep (Group l) gs key ∧ value_ok rep (Group (m :: members)) gs key = true ∧
        is_empty (value_fields rep (Group l) gs key) = false).
      { intros gs. destruct (Hm (inside gs key)) as [He Hok]. rewrite !value_fields_group, nest_empty, <- He. split; [done|].
        assert (Hne : is_empty (attrs_fields rep (inside gs key) (m :: members)) = false).
        { rewrite attrs_fields_cons, is_empty_app. specialize (Hren (inside gs key)). apply Forall_cons in Hren as [-> _]. done. }
        cbn [value_ok]. fold (attrs_ok rep (inside gs key) (m :: members)). by rewrite Hne, Hok. }
      destruct valuer, dirty; cbn [negb andb]; split; try done. intros gs. cbn [a_value a_key fst snd]. rewrite <- (Hsame eq_refl) at 1 2. rewrite (Hsame eq_refl) in *. by destruct (Hmem gs) as (_ & ? & ?).
Qed.

Lemma sanitizeAttr_spec a : mends_with sanitizeAttr a.
Proof. destruct a as [[key valuer] v]. exact (sanitizeValue_spec v key valuer). Qed.

Lemma sanitizeAttrs_spec l : mended_all l (sanitizeAttrs l).1.
Proof. apply sanitize_loop_spec, Forall_forall. intros a _. apply sanitizeAttr_spec. Qed.

Lemma mended_all_nil l : mended_all l [] → ∀ gs, attrs_fields rep gs l = [].
Proof. intros [Hm _] gs. by destruct (Hm gs) as [<- _]. Qed.

Lemma mended_all_fields l l' gs : mended_all l l' → l' ≠ [] → attrs_fields rep gs l' ≠ [].
Proof.
  intros [_ Hr] Hne. destruct l' as [|a l']; [done|]. specialize (Hr gs). apply Forall_cons in Hr as [Ha _]. rewrite attrs_fields_cons.
  by destruct (value_fields rep _ _ _).
Qed.

(** Leaving out empty groups. *)
Lemma emptyGroup_fields a gs : isEmptyGroup a = true → value_fields rep (a_value a) gs (a_key a) = [].
Proof. by destruct a as [[key []] [s|[|]]]. Qed.

Lemma filter_emptyGroups l gs : attrs_fields rep gs (filter (fun a => isEmptyGroup a = false) l) = attrs_fields rep gs l.
Proof.
  induction l as [|a l IH]; [done|]. rewrite filter_cons. case_decide as Ha; rewrite !attrs_fields_cons, ?IH; [done|].
  rewrite emptyGroup_fields; [done|]. by destruct (isEmptyGroup a).
Qed.

Lemma filter_attrs_ok P `{∀ a, Decision (P a)} l gs : attrs_ok rep gs l = true → attrs_ok rep gs (filter P l) = true.
Proof.
  unfold attrs_ok. rewrite !forallb_forall. intros Hl a Ha. apply Hl. apply list_elem_of_In in Ha. apply list_elem_of_filter in Ha as [_ Ha]. by apply list_elem_of_In.
Qed.

(** An attribute that needs no sanitizing. *)
Lemma untouched_ok a gs : attrMayNeedSanitize a = false → value_ok rep (a_value a) gs (a_key a) = true.
Proof.
  destruct a as [[key valuer] v]. unfold attrMayNeedSanitize. destruct valuer; [done|]. cbn [a_value a_key fst snd]. destruct v as [s|l]; [|done]. intros Hs. cbn [value_ok].
  apply mends_encodable. destruct s as [x|x|x|x|x|x|t|x]; try done; [by apply negb_false_iff|]. by destruct x as [|src|[] e|np o|z|x].
Qed.

(** The record written stands for the fields of the one given, and can be
    written as it stands. *)
Lemma sanitizeRecord_spec r gs : attrs_fields rep gs (r_attrs (sanitizeRecord r)) = attrs_fields rep gs (r_attrs r) ∧ attrs_ok rep gs (r_attrs (sanitizeRecord r)) = true.
Proof.
  unfold sanitizeRecord. destruct (recordMayNeedSanitize r) eqn:Hneed; cbn [negb].
  - set (step := fun (acc : list attr * bool) a => _).
    assert (Hf : ∀ l seen acc, mended_all seen acc.1 → (acc.2 = false → acc.1 = seen) →
      mended_all (seen ++ l) (fold_left step l acc).1 ∧ ((fold_left step l acc).2 = false → (fold_left step l acc).1 = seen ++ l)).
    { induction l as [|a l IH]; intros seen acc Hm Hs; [by rewrite app_nil_r|]. cbn [fold_left]. replace (seen ++ a :: l) with ((seen ++ [a]) ++ l) by (by rewrite <- app_assoc).
      subst step. cbn beta in *. pose proof (sanitizeAttr_spec a) as Ha. unfold mends_with in Ha. destruct (sanitizeAttr a) as [[clean keep] dirty]. pose proof (mended_one _ _ _ _ Ha) as H1. destruct Ha as [_ Hsame].
      apply IH; cbn [fst snd].
      - replace (if keep then acc.1 ++ [clean] else acc.1) with (acc.1 ++ (if keep then [clean] else [])) by (destruct keep; [done|by rewrite app_nil_r]). by apply mended_app.
      - intros [[Hacc Hd]%orb_false_iff Hk]%orb_false_iff. destruct keep, dirty; try done. by rewrite Hs, (Hsame eq_refl eq_refl). }
    destruct (Hf (r_attrs r) [] ([], false)) as [Hm Hs]; [split; [done|intros g; constructor]|done|]. cbn [app] in *. destruct (fold_left step (r_attrs r) ([], false)) as [attrs changed]. cbn [fst snd] in *.
    destruct (proj1 Hm gs) as [He Hok]. destruct changed; cbn [negb].
    + cbn [AddAttrs NewRecord with_attrs r_attrs app]. by rewrite filter_emptyGroups, filter_attrs_ok.
    + by rewrite (Hs eq_refl) in Hok.
  - split; [done|]. unfold attrs_ok. apply forallb_forall. intros a Ha. apply untouched_ok. unfold recordMayNeedSanitize in Hneed.
    apply not_true_is_false. intros Ht. apply not_true_iff_false in Hneed. apply Hneed, existsb_exists. by exists a.
Qed.

(** *** A chain of operations *)

(** The operations that pass the filter. *)
Definition clean_op (o : op) : list op :=
  match o with
  | OpAttrs l => let clean := (sanitizeAttrs l).1 in if is_empty clean then [] else [OpAttrs clean]
  | OpGroup n => if decide (n = []) then [] else [OpGroup n]
  end.

Definition clean_ops (ops : list op) : list op := flat_map clean_op ops.

Lemma clean_ops_fields ops : ∀ gs attrs, chain_fields rep gs (clean_ops ops) attrs = chain_fields rep gs ops attrs.
Proof.
  induction ops as [|[l|n] ops IH]; intros gs attrs; [done|..]; cbn [clean_ops flat_map clean_op chain_fields]; fold (clean_ops ops).
  - pose proof (sanitizeAttrs_spec l) as Hl. destruct (sanitizeAttrs l).1 as [|a clean]; cbn [is_empty app].
    + by rewrite (mended_all_nil l Hl), IH.
    + cbn [chain_fields]. rewrite IH. by destruct (proj1 Hl gs) as [-> _].
  - destruct (decide (n = [])) as [->|Hn]; cbn [app]; [by rewrite nest_inline, IH|]. cbn [chain_fields]. by rewrite IH.
Qed.

Lemma clean_ops_ok ops : ∀ gs, chain_ok rep gs (clean_ops ops).
Proof.
  induction ops as [|[l|n] ops IH]; intros gs; [done|..]; cbn [clean_ops flat_map clean_op]; fold (clean_ops ops).
  - pose proof (sanitizeAttrs_spec l) as Hl. destruct (sanitizeAttrs l).1 as [|a clean] eqn:Hc; cbn [is_empty app]; [apply IH|]. cbn [chain_ok]. split_and!; [apply Hl|by eapply mended_all_fields|apply IH].
  - destruct (decide (n = [])) as [->|Hn]; cbn [app]; [apply IH|]. split; [done|apply IH].
Qed.

Lemma clean_ops_app ops ops' : clean_ops (ops ++ ops') = clean_ops ops ++ clean_ops ops'.
Proof. apply flat_map_app. Qed.
End Sanitize.
