(* ===== verification/LogHandler.v ===== *)
(** * [pkg/logutil]: handlers, and the names of levels

    The interface of handlers and what one does with a record, stated against
    the operations that derived it ([behaves]); the JSON handler behind it;
    and level.go: the levels, their names, and the callback that writes them. *)

From stdpp Require Import base option list.
From Stdlib Require Import String.
From S2P Require Import Prelude GoString GoText Slog LogSanitize.

#[local] Open Scope Z_scope.

(** ** Handlers *)

(** [slog.Handler]. What handling does is in what it outputs: lines written
    and calls of the hook. *)
Inductive output `{GoValues} : Type :=
| Written (l : list token)
| Hooked (level : Z) (message : gostring).

Class Handler `{G : GoValues} (context H : Type) : Type := {
  Enabled : H → context → Z → bool;
  Handle : H → context → record → list output;
  WithAttrs : H → list attr → H;
  WithGroup : H → gostring → H
}.

Section Behaviour.
Context `{G : GoValues} {context : Type}.

Definition apply_op {H} `{!Handler context H} (h : H) (o : op) : H :=
  match o with
  | OpAttrs l => WithAttrs h l
  | OpGroup n => WithGroup h n
  end.

Definition derive {H} `{!Handler context H} (h : H) (ops : list op) : H := fold_left apply_op ops h.

(** The operations that change a handler: the others return the receiver. *)
Definition op_empty (o : op) : bool :=
  match o with
  | OpAttrs l => is_empty l
  | OpGroup n => is_empty n
  end.

(** [slog.Logger.log]: the record is built only if the handler is enabled for
    its level. *)
Definition log {H} `{!Handler context H} (h : H) (ctx : context) (r : record) : list output :=
  if Enabled h ctx (r_level r) then Handle h ctx r else [].

Lemma derive_app {H} `{!Handler context H} (h : H) ops ops' : derive h (ops ++ ops') = derive (derive h ops) ops'.
Proof. apply fold_left_app. Qed.

(** What a handler derived by some operations does with a record, given that
    those are fit for the JSON handler. *)
Definition fit (rep : replacer) (ops : list op) (r : record) : Prop := chain_ok rep [] ops ∧ attrs_ok rep (names ops) (r_attrs r) = true.

Definition behaves {H} `{!Handler context H} (rep : replacer) (h : H) (does : list op → context → record → list output) : Prop :=
  ∀ ops ctx r, fit rep ops r → Handle (derive h ops) ctx r = does ops ctx r.

Definition enabled_from {H} `{!Handler context H} (h : H) (level : Z) : Prop := ∀ ops ctx l, Enabled (derive h ops) ctx l = (level <=? l).
End Behaviour.

(** [slog.JSONHandler] writing to a writer that may discard. *)
Record json_to `{GoValues} (rep : replacer) : Type := JSONTo { j_handler : json_handler; j_discard : bool }.

Arguments JSONTo {_} rep _ _.
Arguments j_handler {_ rep}.
Arguments j_discard {_ rep}.

Section JSON.
Context `{G : GoValues} {context : Type} (rep : replacer) `{!Mends rep}.

#[global] Instance json_to_handler : Handler context (json_to rep) := {
  Enabled h _ level := h_level (j_handler h) <=? level;
  Handle h _ r := let l := json_Handle rep (j_handler h) r in if j_discard h then [] else [Written l];
  WithAttrs h l := JSONTo rep (json_WithAttrs rep l (j_handler h)) (j_discard h);
  WithGroup h n := JSONTo rep (json_WithGroup n (j_handler h)) (j_discard h)
}.

Definition written (discard : bool) (source : bool) (r : record) (fs : list field) : list output :=
  if discard then [] else [Written (line (attrs_fields rep [] (builtins source r) ++ fs))].

Lemma derive_json ops : ∀ h ops0, tracks rep (j_handler h) ops0 → chain_ok rep [] (ops0 ++ ops) →
  tracks rep (j_handler (derive h ops)) (ops0 ++ ops) ∧ j_discard (derive h ops) = j_discard h ∧ h_source (j_handler (derive h ops)) = h_source (j_handler h) ∧
  h_level (j_handler (derive h ops)) = h_level (j_handler h).
Proof.
  induction ops as [|o ops IH]; intros h ops0 Ht Hok; [by rewrite app_nil_r|]. cbn [derive fold_left]. fold (derive (apply_op h o) ops).
  replace (ops0 ++ o :: ops) with ((ops0 ++ [o]) ++ ops) in * by (by rewrite <- app_assoc).
  apply chain_ok_app in Hok as [Hok0 Hok]. pose proof Hok0 as [Hop Ho]%chain_ok_app. rewrite (inside_names rep) in Ho by (apply Ht). destruct (IH (apply_op h o) (ops0 ++ [o])) as (Ht' & -> & Hs & Hl).
  - destruct o as [l|n]; cbn in Ho.
    + apply tracks_WithAttrs; [apply mends_encodable|done|apply Ho|apply Ho].
    + apply tracks_WithGroup; [done|apply Ho].
  - apply chain_ok_app. by split.
  - split_and!; [done| | |]; [by destruct o|rewrite Hs|rewrite Hl].
    + destruct o as [l|n]; cbn.
      * unfold json_WithAttrs. destruct (forallb _ _); [done|]. by destruct (appendAttrs _ _ _) as [[] ?].
      * unfold json_WithGroup. by destruct (decide _).
    + destruct o as [l|n]; cbn.
      * unfold json_WithAttrs. destruct (forallb _ _); [done|]. by destruct (appendAttrs _ _ _) as [[] ?].
      * unfold json_WithGroup. by destruct (decide _).
Qed.
End JSON.

(** ** Levels *)

Definition LevelEmergency : Z := 64.
Definition LevelAlert : Z := 32.
Definition LevelCritical : Z := 16.
Definition LevelError : Z := 8.
Definition LevelWarning : Z := 4.
Definition LevelNotice : Z := 2.
Definition LevelInfo : Z := 0.
Definition LevelDebug : Z := -4.
Definition LevelTrace : Z := -8.

Definition one_of (l : list string) (s : gostring) : bool := existsb (fun x => str_eqb (str x) s) l.

(** The level, and whether the name is valid. *)
Definition ParseLevel (unicodeLower : Z → Z) (l : gostring) : Z * bool :=
  let l := strToLower unicodeLower l in
  if one_of ["0"; "emerg"; "emergency"]%string l then (LevelEmergency, true)
  else if one_of ["1"; "alert"]%string l then (LevelAlert, true)
  else if one_of ["2"; "crit"; "critical"]%string l then (LevelCritical, true)
  else if one_of ["3"; "err"; "error"]%string l then (LevelError, true)
  else if one_of ["4"; "warn"; "warning"]%string l then (LevelWarning, true)
  else if one_of ["5"; "notice"]%string l then (LevelNotice, true)
  else if one_of ["6"; "info"]%string l then (LevelInfo, true)
  else if one_of ["7"; "debug"]%string l then (LevelDebug, true)
  else if one_of ["trace"]%string l then (LevelTrace, true)
  else (LevelInfo, false).

Definition levels : list Z := [LevelEmergency; LevelAlert; LevelCritical; LevelError; LevelWarning; LevelNotice; LevelInfo; LevelDebug; LevelTrace].

Definition ValidLevel (l : Z) : bool := existsb (Z.eqb l) levels.

(** [slog.Level.String]. *)
Definition Level_String (l : Z) : gostring :=
  let name (base : string) (val : Z) := if val =? 0 then str base else str base ++ (if val <? 0 then [] else str "+") ++ FormatInt val in
  if l <? 0 then name "DEBUG"%string (l - -4)
  else if l <? 4 then name "INFO"%string (l - 0)
  else if l <? 8 then name "WARN"%string (l - 4)
  else name "ERROR"%string (l - 8).

Definition LevelName (l : Z) : gostring :=
  if l =? LevelEmergency then str "emergency"
  else if l =? LevelAlert then str "alert"
  else if l =? LevelCritical then str "critical"
  else if l =? LevelError then str "error"
  else if l =? LevelWarning then str "warning"
  else if l =? LevelNotice then str "notice"
  else if l =? LevelInfo then str "info"
  else if l =? LevelDebug then str "debug"
  else if l =? LevelTrace then str "trace"
  else Level_String l.

Lemma ParseLevel_LevelName U l : ValidLevel l = true → ParseLevel U (LevelName l) = (l, true).
Proof.
  unfold ValidLevel. intros (x & Hx & ->%Z.eqb_eq)%existsb_exists. repeat (destruct Hx as [<-|Hx]; [vm_compute; reflexivity|]). done.
Qed.

Lemma ParseLevel_valid U s : ValidLevel (ParseLevel U s).1 = true.
Proof. unfold ParseLevel. by repeat case_match. Qed.

(** ** The callback *)

Section Callback.
Context `{G : GoValues}.

Definition replaceLevelName : replacer := fun groups key s =>
  match groups with
  | _ :: _ => s
  | [] =>
      if str_eqb key (str "level") then
        match s with AnyV (AnyLevel level) => if ValidLevel level then StringV (LevelName level) else s | _ => s end
      else if str_eqb key (str "time") then
        match s with TimeV t => if encodableJSONTime t then s else StringV (RFC3339Nano t) | _ => s end
      else s
  end.

Lemma replaceLevelName_cases gs key s : replaceLevelName gs key s = s ∨
  (∃ l, s = AnyV (AnyLevel l) ∧ ValidLevel l = true ∧ key = str "level" ∧ replaceLevelName gs key s = StringV (LevelName l)) ∨
  (∃ t, s = TimeV t ∧ encodableJSONTime t = false ∧ key = str "time" ∧ replaceLevelName gs key s = StringV (RFC3339Nano t)).
Proof.
  unfold replaceLevelName. destruct gs; [|by left]. destruct (str_eqb key (str "level")) eqn:Hl; [|destruct (str_eqb key (str "time")) eqn:Ht; [|by left]].
  - apply bool_decide_eq_true in Hl. destruct s as [| | | | | | |[]]; try by left. case_match; [|by left]. right; left. eauto.
  - apply bool_decide_eq_true in Ht. destruct s; try by left. case_match; [by left|]. right; right. eauto.
Qed.

#[export] Instance replaceLevelName_mends : Mends replaceLevelName.
Proof.
  split; intros gs key s.
  - by destruct (replaceLevelName_cases gs key s) as [->|[(l & -> & _ & _ & ->)|(t & -> & _ & _ & ->)]].
  - assert (Hs : scalar_fields replaceLevelName gs key (StringV (RFC3339Nano s)) = [(key, NLeaf (LString (RFC3339Nano s)))]).
    { unfold scalar_fields. destruct (replaceLevelName_cases gs key (StringV (RFC3339Nano s))) as [->|[(l & ? & _)|(t & ? & _)]]; done. }
    rewrite Hs. unfold scalar_fields. destruct (replaceLevelName_cases gs key (TimeV s)) as [->|[(l & ? & _)|(t & [= ->] & _ & _ & ->)]]; done.
  - unfold scalar_fields. destruct (replaceLevelName_cases gs key s) as [->|[(l & -> & _ & _ & ->)|(t & -> & _ & _ & ->)]]; try done.
    unfold no_replacer. destruct s as [| | | | | | |[|[src|]|[]| | |]]; try done. unfold nest. generalize (source_group src). intros l.
    destruct l as [|a l]; [done|]. cbn [fmap list_fmap]. destruct (decide (key = [])); [|done]. cbn [map fst leaf_field].
    f_equal. induction l as [|b l IH]; [done|]. cbn. by f_equal.
Qed.

(** It mends every built-in attribute. *)
Lemma replaceLevelName_builtins source r : attrs_ok replaceLevelName [] (builtins source r) = true.
Proof.
  unfold builtins. rewrite !attrs_ok_app, !andb_true_iff. split_and!.
  - destruct (IsZeroTime (r_time r)); [done|]. cbn. rewrite andb_true_r. destruct (encodableJSONTime (r_time r)) eqn:Ht; [exact Ht|done].
  - cbn [attrs_ok forallb value_ok a_value Attr snd]. rewrite andb_true_r. apply mends_encodable. done.
  - destruct source; [|done]. cbn [attrs_ok forallb value_ok a_value Attr snd]. rewrite andb_true_r. by apply mends_encodable.
  - cbn [attrs_ok forallb value_ok a_value Attr snd]. rewrite andb_true_r. by apply mends_encodable.
Qed.
End Callback.
