(* ===== verification/LogTrace.v ===== *)
(** * [pkg/logutil]: the trace ID

    trace.go: the handler that puts a trace ID at the root of every line,
    which replays the operations of a logger with an open group. Over any
    handler with a known behaviour it adds the trace ID exactly to the lines
    that carry none at the root. *)

From stdpp Require Import base option list.
From Stdlib Require Import String.
From S2P Require Import Prelude GoString GoText Slog LogSanitize LogHandler.

#[local] Open Scope Z_scope.

(** ** The trace ID *)

Definition TraceIDKey : gostring := str "trace_id".

Section Trace.
Context `{G : GoValues} {context : Type}.

(** [attrHasRootKey]: members of a group without a key are at the root. *)
Fixpoint valueHasRootKey (v : value) (a_key key : gostring) : bool :=
  if negb (str_eqb a_key key) && negb (str_eqb a_key []) then false
  else if str_eqb a_key key then valueRenders v
  else match v with
  | Group l => existsb (fun ga => valueHasRootKey (a_value ga) (Slog.a_key ga) key) l
  | Scalar _ => false
  end.

Definition attrHasRootKey (a : attr) (key : gostring) : bool := valueHasRootKey (a_value a) (a_key a) key.

Definition hasRootKey (attrs : list attr) (key : gostring) : bool := existsb (fun a => attrHasRootKey a key) attrs.

Definition recordHasAttr (r : record) (key : gostring) : bool := existsb (fun a => attrHasRootKey a key) (r_attrs r).

Definition leadRecord (r : record) (lead : attr) : record := AddAttrs (r_attrs r) (AddAttrs [lead] (NewRecord r)).

(** [slogTraceIDHandler]. *)
Record trace_handler (H : Type) : Type := MkTrace {
  t_inner : H;
  t_root : H;
  t_ops : list op;
  t_grouped : bool;
  t_traceAttr : bool;
  t_traceGroup : bool;
  t_traceFilled : bool;
  t_traceIDFn : context → gostring  (** what a call returns, by the context of the record *)
}.

#[global] Arguments MkTrace {H}.
#[global] Arguments t_inner {H}.
#[global] Arguments t_root {H}.
#[global] Arguments t_ops {H}.
#[global] Arguments t_grouped {H}.
#[global] Arguments t_traceAttr {H}.
#[global] Arguments t_traceGroup {H}.
#[global] Arguments t_traceFilled {H}.
#[global] Arguments t_traceIDFn {H}.

Definition newSlogTraceIDHandler {H} (h : H) (f : context → gostring) (traceAttr : bool) : trace_handler H := MkTrace h h [] false traceAttr false false f.

Definition carriesRootTraceID {H} (h : trace_handler H) (r : record) : bool :=
  t_traceAttr h || (t_traceGroup h && (t_traceFilled h || recordRenders r)).

Definition trace_attr (id : gostring) : attr := Attr TraceIDKey (Scalar (StringV id)).

Definition trace_Handle {H} `{!Handler context H} (h : trace_handler H) (ctx : context) (r : record) : list output :=
  if negb (t_grouped h) then
    if t_traceAttr h || ((0 <? length (r_attrs r))%nat && recordHasAttr r TraceIDKey) then Handle (t_inner h) ctx r
    else Handle (t_inner h) ctx (leadRecord r (trace_attr (t_traceIDFn h ctx)))
  else
    let target := if carriesRootTraceID h r then t_root h else WithAttrs (t_root h) [trace_attr (t_traceIDFn h ctx)] in
    Handle (fold_left apply_op (t_ops h) target) ctx r.

Definition trace_WithAttrs {H} `{!Handler context H} (h : trace_handler H) (attrs : list attr) : trace_handler H :=
  if (length attrs =? 0)%nat then h
  else MkTrace (WithAttrs (t_inner h) attrs) (t_root h) (t_ops h ++ [OpAttrs attrs]) (t_grouped h)
    (t_traceAttr h || (negb (t_grouped h) && hasRootKey attrs TraceIDKey)) (t_traceGroup h)
    (t_traceFilled h || (t_traceGroup h && attrsRender attrs)) (t_traceIDFn h).

Definition trace_WithGroup {H} `{!Handler context H} (h : trace_handler H) (name : gostring) : trace_handler H :=
  if str_eqb name [] then h
  else MkTrace (WithGroup (t_inner h) name) (t_root h) (t_ops h ++ [OpGroup name]) true (t_traceAttr h)
    (t_traceGroup h || (negb (t_grouped h) && str_eqb name TraceIDKey)) (t_traceFilled h) (t_traceIDFn h).

#[export] Instance trace_handler_Handler H `{!Handler context H} : Handler context (trace_handler H) := {
  Enabled h := Enabled (t_inner h);
  Handle := trace_Handle;
  WithAttrs := trace_WithAttrs;
  WithGroup := trace_WithGroup
}.

(** *** Facts *)

Definition has_key (key : gostring) (fs : list field) : bool := existsb (fun f => str_eqb f.1 key) fs.

Definition is_group (o : op) : bool := match o with OpGroup n => negb (is_empty n) | _ => false end.

Definition grouped (ops : list op) : bool := existsb is_group ops.

Lemma has_key_app key fs gs : has_key key (fs ++ gs) = has_key key fs || has_key key gs.
Proof. apply existsb_app. Qed.

Lemma has_key_nest key name fs : has_key key (nest name fs) = if is_empty name then has_key key fs else str_eqb name key && negb (is_empty fs).
Proof.
  destruct fs as [|f fs]; [destruct name; [done|]; by rewrite andb_false_r|]. unfold nest. destruct name as [|c name]; [done|]. rewrite decide_False by done. cbn [is_empty negb].
  by rewrite andb_true_r; cbn; rewrite orb_false_r.
Qed.

(** A key that no empty-key source inlines. *)
Definition plain_key (key : gostring) : Prop := key ∉ [[]; str "function"; str "file"; str "line"].

Lemma has_key_map key fs gs : map fst fs = map fst gs → has_key key fs = has_key key gs.
Proof.
  intros Hm. unfold has_key. enough (∀ l : list field, existsb (fun f => str_eqb f.1 key) l = existsb (fun k => str_eqb k key) (map fst l)) as He by by rewrite !He, Hm.
  induction l as [|f l IH]; [done|]. cbn. by rewrite IH.
Qed.

Lemma source_group_keys src (a : gostring * scalar) : a ∈ source_group src → a.1 ∈ [[]; str "function"; str "file"; str "line"].
Proof. unfold source_group. repeat case_match; cbn [app]; intros Ha; set_unfold; naive_solver. Qed.

Context (rep : replacer) `{!Mends rep}.

Lemma valueHasRootKey_spec v : ∀ a_key key, plain_key key → valueHasRootKey v a_key key = has_key key (value_fields rep v [] a_key).
Proof.
  induction v as [s|l IH] using value_ind'; intros ak key Hk; cbn [valueHasRootKey].
  - cbn [value_fields]. rewrite (has_key_map _ _ _ (mends_keys (rep := rep) [] ak s)).
    assert (Hak : str_eqb ak key = true → ak ≠ []) by (intros ->%bool_decide_eq_true ->; apply Hk; left).
    assert (Hc : (if str_eqb ak key then valueRenders (Scalar s) else false) = has_key key (scalar_fields no_replacer [] ak s)).
    { destruct (str_eqb ak key) eqn:He.
      - specialize (Hak eq_refl). apply bool_decide_eq_true in He as ->. pose proof (plain_renders [] key s) as Hr. 
        assert (Hone : ∀ f, f ∈ scalar_fields no_replacer [] key s → f.1 = key).
        { unfold scalar_fields, no_replacer, nest. rewrite !(decide_False (P := key = [])) by done. intros f Hf. repeat case_match; set_unfold; naive_solver. }
        unfold attrRenders in Hr. replace (isZeroAttr _ _) with false in Hr by (by destruct key). cbn [negb andb Attr a_value snd] in Hr.
        destruct (valueRenders (Scalar s)), (scalar_fields no_replacer [] key s) as [|f fs]; try done.
        cbn [has_key existsb]. rewrite (Hone f) by by left. unfold str_eqb. by rewrite bool_decide_eq_true_2.
      - symmetry. apply not_true_is_false. intros (f & Hf%list_elem_of_In & Hfk%bool_decide_eq_true)%existsb_exists. apply not_true_iff_false in He. apply He, bool_decide_eq_true.
        revert Hf. unfold scalar_fields, no_replacer. destruct s as [| | | | | | |[|[src|]|[]| | |]]; try (intros Hf; set_unfold; naive_solver).
        + destruct (decide (ak = [])); intros Hf; set_unfold; naive_solver.
        + destruct (decide (ak = [])) as [->|Hne]; [rewrite nest_inline|unfold nest; rewrite decide_False by done].
          * intros ([k x] & -> & Hx)%list_elem_of_fmap. exfalso. apply Hk. rewrite <- Hfk. cbn [leaf_field fst]. by apply source_group_keys in Hx.
          * destruct (_ <$> _); intros Hf; set_unfold; naive_solver. }
    rewrite <- Hc. destruct (str_eqb ak key), (str_eqb ak []); done.
  - rewrite value_fields_group, has_key_nest, (attrs_fields_render rep).
    assert (Ha : negb (negb (attrsRender l)) = valueRenders (Group l)) by apply negb_involutive. rewrite Ha.
    destruct ak as [|c ak]; cbn [is_empty].
    + assert (Hne : str_eqb [] key = false) by (apply bool_decide_eq_false; intros <-; apply Hk; left). rewrite Hne. cbn [negb andb].
      replace (str_eqb [] []) with true by (symmetry; by apply bool_decide_eq_true). cbn [negb].
      unfold inside. rewrite decide_True by done. induction IH as [|a l Hal _ IHl]; [done|]. cbn [existsb]. rewrite attrs_fields_cons, has_key_app, Hal by done. f_equal. apply IHl.
      apply negb_involutive.
    + assert (Hne : str_eqb (c :: ak) [] = false) by (by apply bool_decide_eq_false). rewrite Hne. by destruct (str_eqb (c :: ak) key).
Qed.

Lemma hasRootKey_spec l key : plain_key key → hasRootKey l key = has_key key (attrs_fields rep [] l).
Proof.
  intros Hk. induction l as [|a l IH]; [done|]. rewrite attrs_fields_cons, has_key_app. cbn [hasRootKey existsb]. unfold hasRootKey in IH. rewrite IH. f_equal. by apply valueHasRootKey_spec.
Qed.

(** *** Any chain of operations is a list of attributes *)

Lemma chain_attrs ops l attrs : ∀ gs, chain_fields rep gs (ops ++ [OpAttrs l]) attrs = chain_fields rep gs ops (l ++ attrs).
Proof. induction ops as [|[l'|n] ops IH]; intros gs; cbn [app chain_fields]; [by rewrite attrs_fields_app|by rewrite IH|by rewrite IH]. Qed.

Lemma chain_group ops n attrs : ∀ gs, chain_fields rep gs (ops ++ [OpGroup n]) attrs = chain_fields rep gs ops [Attr n (Group attrs)].
Proof.
  induction ops as [|[l'|m] ops IH]; intros gs; cbn [app chain_fields]; [|by rewrite IH|by rewrite IH].
  rewrite attrs_fields_cons. cbn [a_value a_key Attr fst snd]. rewrite value_fields_group. cbn. by rewrite app_nil_r.
Qed.

(** With no group open, the attributes come last. *)
Lemma chain_ungrouped ops attrs : grouped ops = false → ∀ gs, chain_fields rep gs ops attrs = chain_fields rep gs ops [] ++ attrs_fields rep gs attrs.
Proof.
  induction ops as [|[l|n] ops IH]; intros Hg gs; [done|..]; cbn [grouped existsb is_group orb] in Hg; cbn [chain_fields].
  - by rewrite IH, app_assoc.
  - destruct n; [|done]. rewrite !nest_inline. by apply IH.
Qed.

(** *** The handler after some operations *)

Context {H : Type} `{HH : !Handler context H}.

Lemma trace_id_plain : plain_key TraceIDKey.
Proof. unfold plain_key. apply (bool_decide_unpack _). vm_compute. exact I. Qed.

(** Whether the lines of a record carry a trace ID already. *)
Definition carries (t : trace_handler H) (attrs : list attr) : bool :=
  if t_grouped t then t_traceAttr t || (t_traceGroup t && (t_traceFilled t || attrsRender attrs))
  else t_traceAttr t || hasRootKey attrs TraceIDKey.

Record traced (h : H) (f : context → gostring) (baked : bool) (ops : list op) (t : trace_handler H) : Prop := Traced {
  td_inner : t_inner t = derive h ops;
  td_root : t_root t = h;
  td_ops : t_ops t = ops;
  td_fn : t_traceIDFn t = f;
  td_grouped : t_grouped t = grouped ops;
  td_none : t_grouped t = false → t_traceGroup t = false ∧ t_traceFilled t = false;
  td_carries : ∀ attrs, carries t attrs = baked || has_key TraceIDKey (chain_fields rep [] ops attrs)
}.

Lemma traced_new h f baked : traced h f baked [] (newSlogTraceIDHandler h f baked).
Proof. split; try done. intros attrs. cbn. f_equal. apply hasRootKey_spec, trace_id_plain. Qed.

Lemma attrsRender_app l k : attrsRender (l ++ k) = attrsRender l || attrsRender k.
Proof. apply existsb_app. Qed.

Lemma grouped_app ops ops' : grouped (ops ++ ops') = grouped ops || grouped ops'.
Proof. apply existsb_app. Qed.

Lemma traced_WithAttrs h f baked ops t l : traced h f baked ops t → l ≠ [] → traced h f baked (ops ++ [OpAttrs l]) (WithAttrs t l).
Proof.
  intros [Hi Hr Ho Hf Hg Hn Hc] Hl. cbn. unfold trace_WithAttrs. replace (length l =? 0)%nat with false by (by destruct l).
  split; cbn [t_inner t_root t_ops t_traceIDFn t_grouped t_traceGroup t_traceFilled].
  - by rewrite derive_app, Hi.
  - done.
  - by rewrite Ho.
  - done.
  - by rewrite grouped_app, orb_false_r.
  - intros Hf'. destruct (Hn Hf') as [-> ->]. done.
  - intros attrs. rewrite chain_attrs, <- Hc. unfold carries. cbn [t_traceAttr t_grouped t_traceGroup t_traceFilled]. destruct (t_grouped t); cbn [negb andb].
    + rewrite attrsRender_app, orb_false_r. by destruct (t_traceAttr t), (t_traceGroup t), (t_traceFilled t).
    + unfold hasRootKey. by rewrite existsb_app, orb_assoc.
Qed.

Lemma traced_WithGroup h f baked ops t n : traced h f baked ops t → n ≠ [] → traced h f baked (ops ++ [OpGroup n]) (WithGroup t n).
Proof.
  intros [Hi Hr Ho Hf Hg Hn Hc] Hne. cbn. unfold trace_WithGroup. replace (str_eqb n []) with false by (symmetry; by apply bool_decide_eq_false).
  split; cbn [t_inner t_root t_ops t_traceIDFn t_grouped t_traceGroup t_traceFilled].
  - by rewrite derive_app, Hi.
  - done.
  - by rewrite Ho.
  - done.
  - rewrite grouped_app. destruct n; [done|]. cbn. by rewrite orb_true_r.
  - done.
  - intros attrs. rewrite chain_group, <- Hc. unfold carries. cbn [t_traceAttr t_grouped t_traceGroup t_traceFilled].
    assert (Hz : attrRenders (Attr n (Group attrs)) = attrsRender attrs) by (by destruct n).
    destruct (t_grouped t); cbn [negb andb].
    + rewrite orb_false_r. unfold attrsRender at 2. cbn [existsb]. by rewrite orb_false_r, Hz.
    + destruct (Hn eq_refl) as [-> ->]. cbn [orb]. f_equal. unfold hasRootKey, attrHasRootKey. cbn [existsb valueHasRootKey a_value a_key Attr fst snd]. rewrite orb_false_r.
      replace (str_eqb n []) with false by (symmetry; by apply bool_decide_eq_false). by destruct (str_eqb n TraceIDKey).
Qed.

Lemma traced_derive h f baked ops : chain_ok rep [] ops → traced h f baked ops (derive (newSlogTraceIDHandler h f baked) ops).
Proof.
  induction ops as [|o ops IH] using rev_ind; intros Hok; [apply traced_new|]. apply chain_ok_app in Hok as [Hok Ho]. rewrite derive_app. destruct o as [l|n]; cbn in Ho.
  - apply traced_WithAttrs; [by apply IH|]. intros ->. by destruct Ho as (_ & Hne & _).
  - apply traced_WithGroup; [by apply IH|apply Ho].
Qed.

Lemma derive_ops (h : H) ops : fold_left apply_op ops h = derive h ops.
Proof. done. Qed.

Definition lead_op (id : gostring) : op := OpAttrs [trace_attr id].

Lemma fit_lead ops r id : fit rep ops r → fit rep (lead_op id :: ops) r.
Proof.
  intros [Hok Hr]. split; [|done]. split_and!; [|intros Hnil; pose proof (attrs_fields_render rep [trace_attr id] []) as He; by rewrite Hnil in He|done].
  cbn [attrs_ok forallb trace_attr value_ok a_value a_key Attr fst snd]. rewrite andb_true_r. by apply mends_encodable.
Qed.

Lemma leadRecord_fields r id gs : attrs_fields rep gs (r_attrs (leadRecord r (trace_attr id))) = attrs_fields rep gs (trace_attr id :: r_attrs r).
Proof.
  change (trace_attr id :: r_attrs r) with ([trace_attr id] ++ r_attrs r). cbn [leadRecord AddAttrs NewRecord with_attrs r_attrs]. by rewrite app_nil_l, !attrs_fields_app, !(filter_emptyGroups rep).
Qed.

Lemma fit_leadRecord ops r id : fit rep ops r → fit rep ops (leadRecord r (trace_attr id)).
Proof.
  intros [Hok Hr]. split; [done|].
  cbn [leadRecord AddAttrs NewRecord with_attrs r_attrs]. rewrite app_nil_l, attrs_ok_app, !(filter_attrs_ok rep); [done|done|].
  cbn [attrs_ok forallb trace_attr value_ok a_value a_key Attr fst snd]. rewrite andb_true_r. by apply mends_encodable.
Qed.

(** A line carries the injected trace ID exactly if it has none otherwise. *)
Definition with_trace (does : list op → context → record → list output) (f : context → gostring) (baked : bool) (ops : list op) (ctx : context) (r : record) : list output :=
  if baked || has_key TraceIDKey (chain_fields rep [] ops (r_attrs r)) then does ops ctx r
  else if grouped ops then does (lead_op (f ctx) :: ops) ctx r
  else does ops ctx (leadRecord r (trace_attr (f ctx))).

Lemma trace_behaves h f baked does : behaves rep h does → behaves rep (newSlogTraceIDHandler h f baked) (with_trace does f baked).
Proof.
  intros Hh ops ctx r Hfit. destruct (traced_derive h f baked ops) as [Hi Hr Ho Hf Hg Hn Hc]; [apply Hfit|].
  unfold with_trace. rewrite <- Hc. unfold carries. cbn [Handle trace_handler_Handler]. unfold trace_Handle. rewrite <- Hg, Hf, Hi, Ho, Hr. destruct (t_grouped _) eqn:Hgr; cbn [negb].
  - unfold carriesRootTraceID, recordRenders, attrsRender. destruct (_ || _); rewrite derive_ops; [by apply Hh|].
    change (derive (WithAttrs h [trace_attr (f ctx)]) ops) with (derive h (lead_op (f ctx) :: ops)). by apply Hh, fit_lead.
  - unfold recordHasAttr, hasRootKey. replace ((0 <? length (r_attrs r))%nat && existsb (fun a => attrHasRootKey a TraceIDKey) (r_attrs r)) with (existsb (fun a => attrHasRootKey a TraceIDKey) (r_attrs r)) by (by destruct (r_attrs r)).
    destruct (_ || _); [by apply Hh|]. by apply Hh, fit_leadRecord.
Qed.
End Trace.
