(* ===== verification/LogConfig.v ===== *)
(** * [pkg/logutil]: the handler of a configuration

    hook.go, format.go, options.go and config.go, and the filter of
    sanitize.go as a handler: the configuration, and the stack that
    [Config.SlogHandler] builds, verified against the fields that the
    attributes of its loggers and records stand for. *)

From stdpp Require Import base option list.
From Stdlib Require Import String.
From S2P Require Import Prelude GoString GoText Slog LogSanitize LogHandler LogTrace.

#[local] Open Scope Z_scope.

(** ** The other handlers *)

Section Layers.
Context `{G : GoValues} {context : Type}.

(** [slogSanitizeHandler]. *)
Record sanitize_handler (H : Type) : Type := newSlogSanitizeHandler { sn_inner : H }.

#[global] Arguments newSlogSanitizeHandler {H}.
#[global] Arguments sn_inner {H}.

#[export] Instance sanitize_handler_Handler H `{!Handler context H} : Handler context (sanitize_handler H) := {
  Enabled h := Enabled (sn_inner h);
  Handle h ctx r := Handle (sn_inner h) ctx (sanitizeRecord r);
  WithAttrs h attrs :=
    let clean := (sanitizeAttrs attrs).1 in
    if (length clean =? 0)%nat then h else newSlogSanitizeHandler (WithAttrs (sn_inner h) clean);
  WithGroup h name := if str_eqb name [] then h else newSlogSanitizeHandler (WithGroup (sn_inner h) name)
}.

(** [SlogHookHandler]; the calls of the hook are outputs. *)
Record hook_handler (H : Type) : Type := MkHook { hk_inner : H; hk_set : bool }.

#[global] Arguments MkHook {H}.
#[global] Arguments hk_inner {H}.
#[global] Arguments hk_set {H}.

Definition NewSlogHookHandler {H} (h : H) (set : bool) : hook_handler H := MkHook h set.

#[export] Instance hook_handler_Handler H `{!Handler context H} : Handler context (hook_handler H) := {
  Enabled h := Enabled (hk_inner h);
  Handle h ctx r := (if hk_set h then [Hooked (r_level r) (r_message r)] else []) ++ Handle (hk_inner h) ctx r;
  WithAttrs h attrs := if (length attrs =? 0)%nat then h else MkHook (WithAttrs (hk_inner h) attrs) (hk_set h);
  WithGroup h name := if str_eqb name [] then h else MkHook (WithGroup (hk_inner h) name) (hk_set h)
}.

(** [slog.DiscardHandler]. *)
#[export] Instance discard_Handler : Handler context unit := {
  Enabled _ _ _ := false;
  Handle _ _ _ := [];
  WithAttrs h _ := h;
  WithGroup h _ := h
}.

(** A value of the interface is one of several handlers. *)
#[export] Instance sum_Handler A B `{!Handler context A} `{!Handler context B} : Handler context (A + B) := {
  Enabled h := match h with inl h => Enabled h | inr h => Enabled h end;
  Handle h := match h with inl h => Handle h | inr h => Handle h end;
  WithAttrs h l := match h with inl h => inl (WithAttrs h l) | inr h => inr (WithAttrs h l) end;
  WithGroup h n := match h with inl h => inl (WithGroup h n) | inr h => inr (WithGroup h n) end
}.

Section Derived.
Context {A B : Type} `{!Handler context A} `{!Handler context B}.

Lemma derive_inl (h : A) ops : derive (inl h : A + B) ops = inl (derive h ops).
Proof. revert h. induction ops as [|[l|n] ops IH]; intros h; [done|apply IH|apply IH]. Qed.

Lemma derive_inr (h : B) ops : derive (inr h : A + B) ops = inr (derive h ops).
Proof. revert h. induction ops as [|[l|n] ops IH]; intros h; [done|apply IH|apply IH]. Qed.

Lemma derive_discard ops : derive tt ops = tt.
Proof. induction ops as [|[l|n] ops IH]; [done|apply IH|apply IH]. Qed.

Lemma derive_sanitize (h : A) ops : derive (newSlogSanitizeHandler h) ops = newSlogSanitizeHandler (derive h (clean_ops ops)).
Proof.
  revert h. induction ops as [|[l|n] ops IH]; intros h; [done|..]; cbn [derive fold_left apply_op WithAttrs WithGroup sanitize_handler_Handler clean_ops flat_map clean_op].
  - destruct (sanitizeAttrs l).1 as [|a clean]; cbn [length Nat.eqb is_empty app]; apply IH.
  - unfold str_eqb. destruct (decide (n = [])) as [->|Hn]; [rewrite bool_decide_eq_true_2 by done|rewrite bool_decide_eq_false_2 by done]; apply IH.
Qed.

Lemma derive_hook (h : A) set ops : derive (MkHook h set) ops = MkHook (derive h (filter (fun o => op_empty o = false) ops)) set.
Proof.
  revert h. induction ops as [|o ops IH]; intros h; [done|]. rewrite filter_cons. destruct o as [[|a l]|[|c n]]; cbn [op_empty is_empty]; case_decide; try done; apply IH.
Qed.

Lemma clean_nonempty ops : clean_ops (filter (fun o => op_empty o = false) ops) = clean_ops ops.
Proof. induction ops as [|o ops IH]; [done|]. rewrite filter_cons. destruct o as [[|a l]|[|c n]]; cbn [op_empty is_empty]; case_decide; try done; cbn [clean_ops flat_map]; fold (clean_ops (filter (fun o => op_empty o = false) ops)); by rewrite IH. Qed.

End Derived.
End Layers.

(** ** The configuration *)

Definition FormatNone : Z := -1.
Definition FormatJSON : Z := 0.
Definition FormatConsole : Z := 1.

Definition ParseFormat (unicodeLower : Z → Z) (f : gostring) : Z * bool :=
  let f := strToLower unicodeLower f in
  if one_of ["json"]%string f then (FormatJSON, true)
  else if one_of ["console"]%string f then (FormatConsole, true)
  else if one_of ["none"; "discard"; "noop"]%string f then (FormatNone, true)
  else (FormatJSON, false).

Definition ValidFormat (f : Z) : bool := existsb (Z.eqb f) [FormatNone; FormatJSON; FormatConsole].

Section Config.
Context `{G : GoValues} {context : Type}.

(** The writer apart, which is always usable ([OutWriter]). *)
Record Config : Type := MkConfig {
  Format : Z;
  Level : Z;
  CommonAttr : list attr;
  HookFn : bool;  (** whether one is set *)
  TraceIDFn : option (context → gostring);
  AddSource : bool
}.

Definition defaultTraceID : context → gostring := fun _ => [].

Definition DefaultConfig : Config := MkConfig FormatJSON LevelInfo [] false (Some defaultTraceID) false.

Definition Option : Type := Config → option Config.

Definition WithFormat (f : Z) : Option := fun c =>
  if negb (ValidFormat f) then None else Some (MkConfig f (Level c) (CommonAttr c) (HookFn c) (TraceIDFn c) (AddSource c)).
Definition WithFormatStr (U : Z → Z) (f : gostring) : Option := fun c =>
  let '(lf, ok) := ParseFormat U f in if negb ok then None else Some (MkConfig lf (Level c) (CommonAttr c) (HookFn c) (TraceIDFn c) (AddSource c)).
Definition WithLevel (l : Z) : Option := fun c =>
  if negb (ValidLevel l) then None else Some (MkConfig (Format c) l (CommonAttr c) (HookFn c) (TraceIDFn c) (AddSource c)).
Definition WithLevelStr (U : Z → Z) (l : gostring) : Option := fun c =>
  let '(ll, ok) := ParseLevel U l in if negb ok then None else Some (MkConfig (Format c) ll (CommonAttr c) (HookFn c) (TraceIDFn c) (AddSource c)).
Definition WithCommonAttr (a : list attr) : Option := fun c => Some (MkConfig (Format c) (Level c) a (HookFn c) (TraceIDFn c) (AddSource c)).
Definition WithHookFn (set : bool) : Option := fun c => Some (MkConfig (Format c) (Level c) (CommonAttr c) set (TraceIDFn c) (AddSource c)).
Definition WithTraceIDFn (f : option (context → gostring)) : Option := fun c => Some (MkConfig (Format c) (Level c) (CommonAttr c) (HookFn c) f (AddSource c)).
Definition WithSource (enabled : bool) : Option := fun c => Some (MkConfig (Format c) (Level c) (CommonAttr c) (HookFn c) (TraceIDFn c) enabled).

Definition NewConfig (opts : list Option) : option Config := fold_left (fun c applyOpt => c ≫= applyOpt) opts (Some DefaultConfig).

(** Whatever the options, the level and the format are valid ones. *)
Inductive logutil_option : Option → Prop :=
| option_format f : logutil_option (WithFormat f)
| option_format_str U f : logutil_option (WithFormatStr U f)
| option_level l : logutil_option (WithLevel l)
| option_level_str U l : logutil_option (WithLevelStr U l)
| option_common a : logutil_option (WithCommonAttr a)
| option_hook set : logutil_option (WithHookFn set)
| option_trace f : logutil_option (WithTraceIDFn f)
| option_source b : logutil_option (WithSource b).

Definition config_valid (c : Config) : bool := ValidFormat (Format c) && ValidLevel (Level c).

Lemma ParseFormat_valid U f : ValidFormat (ParseFormat U f).1 = true.
Proof. unfold ParseFormat. by repeat case_match. Qed.

Lemma NewConfig_valid opts c : Forall logutil_option opts → NewConfig opts = Some c → config_valid c = true.
Proof.
  intros Ho. unfold NewConfig. assert (Hg : ∀ oc, (∀ c0, oc = Some c0 → config_valid c0 = true) → ∀ c0, fold_left (fun c applyOpt => c ≫= applyOpt) opts oc = Some c0 → config_valid c0 = true).
  { induction Ho as [|o opts Ho _ IH]; intros oc Hoc; [done|]. cbn [fold_left]. apply IH. intros c1 Hc1. destruct oc as [c0|]; [|done]. cbn in Hc1. specialize (Hoc c0 eq_refl).
    unfold config_valid in *. apply andb_true_iff in Hoc as [Hf Hl].
    destruct Ho as [f|U f|l|U l|a|set|f|b]; cbn in Hc1; unfold WithFormat, WithFormatStr, WithLevel, WithLevelStr, WithCommonAttr, WithHookFn, WithTraceIDFn, WithSource in Hc1;
      [destruct (ValidFormat f) eqn:E; [|done]|pose proof (ParseFormat_valid U f) as E; destruct (ParseFormat U f) as [x []]; [|done]
      |destruct (ValidLevel l) eqn:E; [|done]|pose proof (ParseLevel_valid U l) as E; destruct (ParseLevel U l) as [x []]; [|done]|..];
      injection Hc1 as <-; cbn in *; by rewrite ?E, ?Hf, ?Hl. }
  apply Hg. by intros c0 [= <-].
Qed.
End Config.
Arguments Config {G} context.

(** ** [Config.SlogHandler] *)

Section SlogHandler.
Context `{G : GoValues} {context : Type}.
(** [slog.NewTextHandler], given the level and whether to add the source. *)
Context {text : Type} `{HT : !Handler context text} (NewTextHandler : Z → bool → text).

Notation rep := replaceLevelName.

Definition base : Type := json_to rep + text.
Definition core : Type := sanitize_handler (base + trace_handler (context := context) base).

Definition format_handler (c : Config context) : base :=
  let json discard := inl (JSONTo rep (NewJSONHandler (Level c) (AddSource c)) discard) in
  if Format c =? FormatJSON then json false
  else if Format c =? FormatConsole then inr (NewTextHandler (Level c) (AddSource c))
  else if Format c =? FormatNone then json true
  else json false.

Definition SlogHandler (c : Config context) : unit + (core + hook_handler core) :=
  if (Format c =? FormatNone) && negb (HookFn c) then inl tt
  else
    let common := (sanitizeAttrs (CommonAttr c)).1 in
    let h := WithAttrs (format_handler c) common in
    let h := newSlogSanitizeHandler (match TraceIDFn c with
      | Some f => inr (newSlogTraceIDHandler h f (hasRootKey common TraceIDKey))
      | None => inl h
      end) in
    inr (if HookFn c then inr (NewSlogHookHandler h true) else inl h).

(** The fields of a line after the built-in ones: those of the common
    attributes, of the logger's and of the record's, and among them the trace
    ID, unless there is one at the root: after the common attributes if a
    group is open, and otherwise in front of the record's. *)
Definition trace_field (id : gostring) : field := (TraceIDKey, NLeaf (LString id)).

Definition traced_fields (id : option gostring) (common : list attr) (ops : list op) (attrs : list attr) : list field :=
  let fs := chain_fields rep [] (OpAttrs common :: ops) attrs in
  match id with
  | None => fs
  | Some id =>
      if has_key TraceIDKey fs then fs
      else if grouped ops then attrs_fields rep [] common ++ [trace_field id] ++ chain_fields rep [] ops attrs
      else chain_fields rep [] (OpAttrs common :: ops) [] ++ [trace_field id] ++ attrs_fields rep [] attrs
  end.

(** *** Facts *)

Lemma chain_fields_ext ops a b : (∀ gs, attrs_fields rep gs a = attrs_fields rep gs b) → ∀ gs, chain_fields rep gs ops a = chain_fields rep gs ops b.
Proof. intros Hab. induction ops as [|[l|n] ops IH]; intros gs; cbn [chain_fields]; [apply Hab|by rewrite IH|by rewrite IH]. Qed.

Lemma json_behaves level source discard : behaves rep (JSONTo rep (NewJSONHandler level source) discard)
  (fun ops (ctx : context) r => written rep discard source r (chain_fields rep [] ops (r_attrs r))).
Proof.
  intros ops ctx r [Hok Hr]. destruct (derive_json (context := context) rep ops (JSONTo rep (NewJSONHandler level source) discard) []) as (Ht & Hd & Hs & _); [apply tracks_new|done|].
  cbn [Handle json_to_handler]. unfold written. rewrite Hd. cbn [j_discard]. destruct discard; [done|]. do 2 f_equal. cbn [app] in Ht. 
  pose proof (json_Handle_spec rep (mends_encodable (rep := rep)) _ ops r Ht Hr) as Hh. rewrite Hs in Hh. cbn in Hh. apply Hh; [apply replaceLevelName_builtins|].
  rewrite (attrs_fields_render rep). unfold builtins. rewrite !attrsRender_app. apply negb_false_iff. cbn. by rewrite orb_true_r.
Qed.

Lemma behaves_inl {A B} `{!Handler context A} `{!Handler context B} (h : A) does : behaves rep h does → behaves rep (inl h : A + B) does.
Proof. intros Hh ops ctx r Hfit. rewrite derive_inl. by apply Hh. Qed.

(** A handler with attributes. *)
Lemma behaves_common {A} `{!Handler context A} (h : A) does l0 l : behaves rep h does → WithAttrs h [] = h → mended_all rep l0 l →
  (∀ ops ctx r, does (OpAttrs [] :: ops) ctx r = does ops ctx r) → behaves rep (WithAttrs h l) (fun ops => does (OpAttrs l :: ops)).
Proof.
  intros Hh Hnil [Hl Hr] Hdoes ops ctx r [Hok Hrok]. destruct l as [|a l]; [rewrite Hnil, Hdoes; by apply Hh|].
  change (derive (WithAttrs h (a :: l)) ops) with (derive h (OpAttrs (a :: l) :: ops)). apply Hh. split; [|done]. split_and!; [apply Hl|by eapply mended_all_fields|done].
Qed.

(** What a handler below the filter does, above it. *)
Lemma sanitize_behaves {A} `{!Handler context A} (h : A) does ops ctx r : behaves rep h does →
  Handle (derive (newSlogSanitizeHandler h) ops) ctx r = does (clean_ops ops) ctx (sanitizeRecord r).
Proof. intros Hh. rewrite derive_sanitize. apply Hh. split; [apply (clean_ops_ok rep)|]. by apply (sanitizeRecord_spec rep r). Qed.

Lemma grouped_clean ops : grouped (clean_ops ops) = grouped ops.
Proof.
  induction ops as [|[l|n] ops IH]; [done|..]; cbn [clean_ops flat_map clean_op]; fold (clean_ops ops).
  - by destruct (is_empty _).
  - destruct (decide (n = [])) as [->|Hn]; [done|]. destruct n; done.
Qed.

Lemma chain_nonempty rep0 `{!Mends rep0} ops gs l : chain_fields rep0 gs (filter (fun o => op_empty o = false) ops) l = chain_fields rep0 gs ops l.
Proof. by rewrite <- (clean_ops_fields rep0), clean_nonempty, (clean_ops_fields rep0). Qed.

Lemma grouped_nonempty ops : grouped (filter (fun o => op_empty o = false) ops) = grouped ops.
Proof. by rewrite <- grouped_clean, clean_nonempty, grouped_clean. Qed.

(** The record that reaches the encoder. *)
Lemma sanitizeRecord_same r : let r' := sanitizeRecord r in (r_time r', r_level r', r_message r', r_source r') = (r_time r, r_level r, r_message r, r_source r).
Proof. unfold sanitizeRecord. destruct (recordMayNeedSanitize r); [|done]. cbn [negb]. by destruct (fold_left _ _ _) as [attrs []]. Qed.

Lemma builtins_same source r r' : (r_time r', r_level r', r_message r', r_source r') = (r_time r, r_level r, r_message r, r_source r) → builtins source r' = builtins source r.
Proof. intros [= H1 H2 H3 H4]. unfold builtins. by rewrite H1, H2, H3, H4. Qed.

Lemma written_same discard source r r' fs : (r_time r', r_level r', r_message r', r_source r') = (r_time r, r_level r, r_message r, r_source r) →
  written rep discard source r' fs = written rep discard source r fs.
Proof. intros Hr. unfold written. by rewrite (builtins_same _ r r'). Qed.

Lemma clean_chain ops r gs : chain_fields rep gs (clean_ops ops) (r_attrs (sanitizeRecord r)) = chain_fields rep gs ops (r_attrs r).
Proof. rewrite (clean_ops_fields rep). apply chain_fields_ext. intros gs'. apply (sanitizeRecord_spec rep). Qed.

(** The stack below the hook, for the JSON encoder. *)
Definition json_core (c : Config context) (discard : bool) : core :=
  let common := (sanitizeAttrs (CommonAttr c)).1 in
  let h : base := WithAttrs (inl (JSONTo rep (NewJSONHandler (Level c) (AddSource c)) discard)) common in
  newSlogSanitizeHandler (match TraceIDFn c with
    | Some f => inr (newSlogTraceIDHandler h f (hasRootKey common TraceIDKey))
    | None => inl h
    end).

Lemma common_behaves (c : Config context) discard : let common := (sanitizeAttrs (CommonAttr c)).1 in
  behaves rep (WithAttrs (inl (JSONTo rep (NewJSONHandler (Level c) (AddSource c)) discard) : base) common)
    (fun ops (ctx : context) r => written rep discard (AddSource c) r (chain_fields rep [] (OpAttrs common :: ops) (r_attrs r))).
Proof.
  intros common. apply (behaves_common (inl _ : base) (fun ops ctx r => written rep discard (AddSource c) r (chain_fields rep [] ops (r_attrs r))) (CommonAttr c)).
  - apply behaves_inl, json_behaves.
  - done.
  - apply (sanitizeAttrs_spec rep).
  - done.
Qed.

Lemma json_core_lines c discard ops ctx r :
  Handle (derive (json_core c discard) ops) ctx r = written rep discard (AddSource c) r (traced_fields ((fun f => f ctx) <$> TraceIDFn c) (CommonAttr c) ops (r_attrs r)).
Proof.
  unfold json_core. pose proof (common_behaves c discard) as Hc. cbn zeta in Hc. set (common := (sanitizeAttrs (CommonAttr c)).1) in *.
  assert (Hcommon : attrs_fields rep [] common = attrs_fields rep [] (CommonAttr c)) by (apply (sanitizeAttrs_spec rep)).
  assert (Hwrite : ∀ r' fs fs', (r_time r', r_level r', r_message r', r_source r') = (r_time r, r_level r, r_message r, r_source r) → fs = fs' →
    written rep discard (AddSource c) r' fs = written rep discard (AddSource c) r fs') by (intros r' fs fs' Hr ->; by apply written_same).
  pose proof (sanitizeRecord_same r) as Hsame. destruct (TraceIDFn c) as [f|]; cbn [fmap option_fmap option_map].
  - set (does := fun ops (ctx : context) r => _) in Hc. assert (Hin : behaves rep (inr (newSlogTraceIDHandler (WithAttrs (inl (JSONTo rep (NewJSONHandler (Level c) (AddSource c)) discard) : base) common) f (hasRootKey common TraceIDKey)) : base + trace_handler base)
      (with_trace rep does f (hasRootKey common TraceIDKey))).
    { intros ops' ctx' r' Hfit. rewrite derive_inr. by apply (trace_behaves rep _ f _ does Hc). }
    rewrite (sanitize_behaves _ _ _ _ _ Hin). unfold with_trace, traced_fields. rewrite (hasRootKey_spec rep) by apply trace_id_plain.
    rewrite clean_chain, grouped_clean. cbn [chain_fields]. rewrite <- has_key_app, Hcommon. destruct (has_key _ _); [|destruct (grouped ops) eqn:Hg]; subst does; cbn beta; apply Hwrite; try done; cbn [chain_fields].
    + by rewrite clean_chain, Hcommon.
    + by rewrite clean_chain, Hcommon.
    + rewrite Hcommon, <- app_assoc. f_equal. rewrite (chain_ungrouped rep (clean_ops ops)) by (by rewrite grouped_clean). rewrite (clean_ops_fields rep). f_equal.
      rewrite (leadRecord_fields rep), attrs_fields_cons. cbn [app]. f_equal. apply (sanitizeRecord_spec rep).
  - assert (Hin : behaves rep (inl (WithAttrs (inl (JSONTo rep (NewJSONHandler (Level c) (AddSource c)) discard) : base) common) : base + trace_handler (context := context) base) _) by (apply behaves_inl, Hc).
    rewrite (sanitize_behaves _ _ _ _ _ Hin). unfold traced_fields. apply Hwrite; [done|]. cbn [chain_fields]. by rewrite clean_chain, Hcommon.
Qed.

(** *** Enablement, which no operation changes *)

Definition enabled_by {H} `{!Handler context H} (level : Z) (Q : H → Prop) : Prop :=
  (∀ h o, Q h → Q (apply_op h o)) ∧ (∀ h ctx l, Q h → Enabled h ctx l = (level <=? l)).

Lemma enabled_derive {H} `{!Handler context H} level (Q : H → Prop) h ops ctx l : enabled_by level Q → Q h → Enabled (derive h ops) ctx l = (level <=? l).
Proof. intros [Hop He] Hq. apply He. revert h Hq. induction ops as [|o ops IH]; intros h Hq; [done|]. by apply IH, Hop. Qed.

Lemma enabled_json level : enabled_by level (fun h : json_to rep => h_level (j_handler h) = level).
Proof.
  split; [|by intros h ctx l <-]. intros h [l|n] <-; cbn.
  - unfold json_WithAttrs. destruct (forallb _ _); [done|]. by destruct (appendAttrs _ _ _) as [[] ?].
  - unfold json_WithGroup. by destruct (decide _).
Qed.

Lemma enabled_sum {A B} `{!Handler context A} `{!Handler context B} level (Q : A → Prop) (R : B → Prop) : enabled_by level Q → enabled_by level R →
  enabled_by level (fun s : A + B => match s with inl h => Q h | inr h => R h end).
Proof. intros [Hq1 Hq2] [Hr1 Hr2]. split; [intros [h|h] [l|n] Hh; first [by apply (Hq1 h (OpAttrs l))|by apply (Hq1 h (OpGroup n))|by apply (Hr1 h (OpAttrs l))|by apply (Hr1 h (OpGroup n))]|intros [h|h] ctx l Hh; [by apply Hq2|by apply Hr2]]. Qed.

Lemma enabled_trace {A} `{!Handler context A} level (Q : A → Prop) : enabled_by level Q → enabled_by level (fun t : trace_handler (context := context) A => Q (t_inner t)).
Proof.
  intros [H1 H2]. split; [|intros t ctx l Hq; by apply H2]. intros t [l|n] Hq; cbn.
  - unfold trace_WithAttrs. destruct (_ =? 0)%nat; [done|]. by apply (H1 _ (OpAttrs l)).
  - unfold trace_WithGroup. destruct (str_eqb n []); [done|]. by apply (H1 _ (OpGroup n)).
Qed.

Lemma enabled_sanitize {A} `{!Handler context A} level (Q : A → Prop) : enabled_by level Q → enabled_by level (fun h : sanitize_handler A => Q (sn_inner h)).
Proof.
  intros [H1 H2]. split; [|intros t ctx l Hq; by apply H2]. intros h [l|n] Hq; cbn.
  - destruct (_ =? 0)%nat; [done|]. by apply (H1 _ (OpAttrs _)).
  - destruct (str_eqb n []); [done|]. by apply (H1 _ (OpGroup n)).
Qed.

Definition leveled (level : Z) (h : base) : Prop := match h with inl h => h_level (j_handler h) = level | inr _ => False end.

Lemma enabled_base level : enabled_by level (leveled level).
Proof. apply (enabled_sum level _ (fun _ : text => False) (enabled_json level)). by split. Qed.

Lemma json_core_enabled c discard ops (ctx : context) l : Enabled (derive (json_core c discard) ops) ctx l = (Level c <=? l).
Proof.
  eapply enabled_derive; [apply enabled_sanitize, enabled_sum; [apply (enabled_base (Level c))|apply enabled_trace, (enabled_base (Level c))]|]. cbn.
  assert (Hb : leveled (Level c) (apply_op (inl (JSONTo rep (NewJSONHandler (Level c) (AddSource c)) discard) : base) (OpAttrs (sanitizeAttrs (CommonAttr c)).1))) by by apply enabled_base.
  destruct (TraceIDFn c); exact Hb.
Qed.

(** *** The whole handler *)

Lemma SlogHandler_json c : Format c ≠ FormatConsole → SlogHandler c =
  if (Format c =? FormatNone) && negb (HookFn c) then inl tt
  else inr (if HookFn c then inr (MkHook (json_core c (Format c =? FormatNone)) true) else inl (json_core c (Format c =? FormatNone))).
Proof.
  intros Hf. unfold SlogHandler, json_core, format_handler. destruct (_ && _); [done|]. destruct (Z.eqb_spec (Format c) FormatJSON) as [->|]; [done|].
  destruct (Z.eqb_spec (Format c) FormatConsole); [done|]. by destruct (Z.eqb_spec (Format c) FormatNone).
Qed.

Lemma traced_fields_nonempty id common ops attrs : traced_fields id common (filter (fun o => op_empty o = false) ops) attrs = traced_fields id common ops attrs.
Proof. unfold traced_fields. cbn [chain_fields]. by rewrite !(chain_nonempty rep), grouped_nonempty. Qed.

Lemma SlogHandler_writes c ops ctx r : Format c ≠ FormatConsole →
  log (derive (SlogHandler c) ops) ctx r =
    if r_level r <? Level c then []
    else (if HookFn c then [Hooked (r_level r) (r_message r)] else []) ++
      (if Format c =? FormatNone then []
       else [Written (line (attrs_fields rep [] (builtins (AddSource c) r) ++ traced_fields ((fun f => f ctx) <$> TraceIDFn c) (CommonAttr c) ops (r_attrs r)))]).
Proof.
  intros Hf. rewrite (SlogHandler_json c Hf), Z.ltb_antisym. unfold log. destruct (HookFn c), (Format c =? FormatNone); cbn [andb negb];
    rewrite ?derive_inl, ?derive_inr, ?derive_inl, ?derive_inr, ?derive_discard, ?derive_hook; cbn [Enabled Handle sum_Handler discard_Handler hook_handler_Handler hk_inner hk_set app];
    rewrite ?json_core_enabled, ?json_core_lines, ?traced_fields_nonempty; by destruct (_ <=? _).
Qed.

Lemma traced_fields_keep id common ops attrs : chain_fields rep [] (OpAttrs common :: ops) attrs `sublist_of` traced_fields id common ops attrs.
Proof.
  unfold traced_fields. destruct id as [id|]; [|done]. destruct (has_key _ _); [done|]. destruct (grouped ops) eqn:Hg.
  - cbn [chain_fields]. apply sublist_app; [done|]. by apply sublist_cons.
  - rewrite (chain_ungrouped rep (OpAttrs common :: ops)) by done. apply sublist_app; [done|]. by apply sublist_cons.
Qed.

Lemma traced_fields_traced id common ops attrs : has_key TraceIDKey (traced_fields (Some id) common ops attrs) = true.
Proof.
  unfold traced_fields. destruct (has_key _ (chain_fields _ _ _ _)) eqn:Hk; [done|]. destruct (grouped ops); rewrite !has_key_app; cbn [has_key existsb]; apply orb_true_iff; right; apply orb_true_iff; left; vm_compute; reflexivity. Qed.

(** C19. What a logger of [SlogHandler] writes. Whatever attributes it was
    given and groups opened, whatever the record carries (groups that render
    nothing, zero attributes, nil errors, times the encoder cannot write,
    values that resolve themselves), a record below the level is dropped, and
    one at it or above calls the hook once, if there is one, with the level
    and the message it was logged with, and then writes one line, a
    well-formed object: the built-in fields, then the fields the attributes
    stand for, all of them and in their order, and among these a trace ID at
    the root, if it is to be traced: the injected one unless the attributes
    carry one themselves. *)
Theorem SlogHandler_lines c ops ctx r : Format c ≠ FormatConsole →
  let fs := traced_fields ((fun f => f ctx) <$> TraceIDFn c) (CommonAttr c) ops (r_attrs r) in
  log (derive (SlogHandler c) ops) ctx r =
    (if r_level r <? Level c then []
     else (if HookFn c then [Hooked (r_level r) (r_message r)] else []) ++
       (if Format c =? FormatNone then [] else [Written (line (attrs_fields rep [] (builtins (AddSource c) r) ++ fs))])) ∧
  chain_fields rep [] (OpAttrs (CommonAttr c) :: ops) (r_attrs r) `sublist_of` fs ∧
  (is_Some (TraceIDFn c) → has_key TraceIDKey fs = true).
Proof.
  intros Hf. split; [by apply SlogHandler_writes|]. split; [apply traced_fields_keep|].
  intros [f ->]. apply traced_fields_traced.
Qed.
End SlogHandler.

(** ** A configuration in use *)

Definition sample_values : GoValues :=
  {| gotime := bool; Year t := if t then 2026 else 20000; RFC3339Nano t := if t then str "2026-01-01" else str "20000-01-01"; IsZeroTime _ := false;
     gofloat := unit; goerror := unit; goobject := unit; goother := unit |}.

#[local] Existing Instance sample_values.

Definition sample_config (trace : gostring) : Config unit :=
  MkConfig FormatJSON LevelNotice [Attr (str "app") (Scalar (StringV (str "x")))] true (Some (fun _ => trace)) false.

(** A group that renders nothing, first; then a time that JSON cannot hold. *)
Definition sample_attrs : list attr :=
  [Attr (str "g") (Group [Attr [] (Group []); Attr (str "e") (Scalar (AnyV (AnyError true (tt : goerror))))]);
   Attr (str "t") (Scalar (TimeV (false : gotime)))].

Definition sample_record : record := MkRecord (true : gotime) LevelWarning (str "m") None sample_attrs.

Definition sample_line (fs : list field) : list output :=
  [Hooked LevelWarning (str "m");
   Written (line ([(str "time", NLeaf (LString (str "2026-01-01"))); (str "level", NLeaf (LString (str "warning"))); (str "msg", NLeaf (LString (str "m")));
     (str "app", NLeaf (LString (str "x")))] ++ fs))].

Lemma SlogHandler_lines_witness :
  let h := SlogHandler (text := unit) (fun _ _ => tt) (sample_config (str "i")) in
  log (derive h []) tt sample_record = sample_line [(TraceIDKey, NLeaf (LString (str "i"))); (str "t", NLeaf (LString (str "20000-01-01")))] ∧
  log (derive h [OpGroup TraceIDKey]) tt sample_record = sample_line [(TraceIDKey, NObj [(str "t", NLeaf (LString (str "20000-01-01")))])].
Proof. split; refine (eq_trans (proj1 (SlogHandler_lines _ _ _ _ _ _)) _); [done|vm_compute; reflexivity|done|vm_compute; reflexivity]. Defined.

(** What the filter is there for: the JSON handler alone leaves out the
    separator after a group it takes back. *)
Example unfiltered : json_Handle replaceLevelName (NewJSONHandler 0 false)
    (with_attrs sample_record [Attr (str "g") (Group [Attr [] (Scalar (AnyV AnyNil))]); Attr (str "n") (Scalar (Int64V 1))]) =
  [Open; Key (str "time"); Val (LString (str "2026-01-01")); Comma; Key (str "level"); Val (LString (str "warning")); Comma; Key (str "msg"); Val (LString (str "m"));
   Key (str "n"); Val (LInt 1); Close].
Proof. vm_compute. reflexivity. Qed.
