(* ===== verification/Zerolog.v ===== *)
(** * [pkg/logsrv]: the zerolog back end

    encode.go, handler.go and logsrv.go: attributes written onto zerolog
    events and contexts, the handler with its replayed groups, and
    [NewHandler]. zerolog is a parameter: events and contexts to which fields
    are appended, and what its callbacks into the caller's values produce,
    which may panic. *)

From stdpp Require Import base option list.
From Stdlib Require Import String.
From S2P Require Import Prelude GoString GoText Slog LogSanitize LogHandler LogTrace LogConfig.

#[local] Open Scope Z_scope.

(** ** zerolog *)

(** Caller code returns or panics, with the panic value as text. *)
Inductive outcome (A : Type) : Type :=
| Ok (a : A)
| Panicked (value : gostring).

Arguments Ok {A} _.
Arguments Panicked {A} _.

Section Types.
Context `{G : GoValues}.

(** What [ErrorMarshalFunc] returns. *)
Inductive marshalled : Type :=
| MNil
| MObject (o : goobject)
| MError (nil_pointer : bool) (e : goerror)
| MString (s : gostring)
| MOther (a : any).

(** The methods that [zerolog.Event] and [zerolog.Context] share; [E] is the
    type of dictionaries, themselves events. *)
Class Appender (D E : Type) : Type := {
  Str : E → gostring → gostring → E;
  Int64 : E → gostring → Z → E;
  Uint64 : E → gostring → Z → E;
  Float64 : E → gostring → gofloat → E;
  Bool : E → gostring → bool → E;
  RawJSON : E → gostring → gostring → E;
  Interface : E → gostring → any → outcome E;
  Dict : E → gostring → D → E
}.

Class Zerolog : Type := {
  Event : Type;
  ZContext : Type;
  Logger : Type;
  NewDict : Event;
  event_appender :: Appender Event Event;
  context_appender :: Appender Event ZContext;
  With : Logger → ZContext;
  of_context : ZContext → Logger;  (** [Context.Logger] *)
  WithLevel : Logger → Event;  (** at [NoLevel] *)
  Msg : Event → gostring → list token;  (** the line written *)
  NewLogger : Logger;
  LevelFieldName : gostring;
  TimestampFieldName : gostring;
  MessageFieldName : gostring;
  ErrorMarshalFunc : goerror → outcome marshalled;
  Error : goerror → outcome gostring;
  MarshalZerologObject : goobject → Event → outcome Event
}.

(** What zerolog documents: each method appends one field, a logger's context
    comes first in its events, and sending writes the fields and the message.
    The process-global level does not disable logging. *)
Class ZerologLaws (Z : Zerolog) : Type := {
  fields : Event → list field;
  context_fields : ZContext → list field;
  float_node : gofloat → node;
  raw_node : gostring → node;
  interface_node : any → outcome node;
  object_fields : goobject → outcome (list field);
  fields_NewDict : fields NewDict = [];
  fields_Str e k s : fields (Str e k s) = fields e ++ [(k, NLeaf (LString s))];
  fields_Int64 e k z : fields (Int64 e k z) = fields e ++ [(k, NLeaf (LInt z))];
  fields_Uint64 e k z : fields (Uint64 e k z) = fields e ++ [(k, NLeaf (LUint z))];
  fields_Float64 e k f : fields (Float64 e k f) = fields e ++ [(k, float_node f)];
  fields_Bool e k b : fields (Bool e k b) = fields e ++ [(k, NLeaf (LBool b))];
  fields_RawJSON e k s : fields (RawJSON e k s) = fields e ++ [(k, raw_node s)];
  fields_Dict e k d : fields (Dict e k d) = fields e ++ [(k, NObj (fields d))];
  fields_Interface (e : Event) k a : match Interface e k a, interface_node a with
    | Ok e', Ok n => fields e' = fields e ++ [(k, n)]
    | Panicked v, Panicked v' => v = v'
    | _, _ => False
    end;
  fields_Object e o : match MarshalZerologObject o e, object_fields o with
    | Ok e', Ok fs => fields e' = fields e ++ fs
    | Panicked v, Panicked v' => v = v'
    | _, _ => False
    end;
  context_Str c k s : context_fields (Str c k s) = context_fields c ++ [(k, NLeaf (LString s))];
  context_Int64 c k z : context_fields (Int64 c k z) = context_fields c ++ [(k, NLeaf (LInt z))];
  context_Uint64 c k z : context_fields (Uint64 c k z) = context_fields c ++ [(k, NLeaf (LUint z))];
  context_Float64 c k f : context_fields (Float64 c k f) = context_fields c ++ [(k, float_node f)];
  context_Bool c k b : context_fields (Bool c k b) = context_fields c ++ [(k, NLeaf (LBool b))];
  context_RawJSON c k s : context_fields (RawJSON c k s) = context_fields c ++ [(k, raw_node s)];
  context_Dict c k d : context_fields (Dict c k d) = context_fields c ++ [(k, NObj (fields d))];
  context_Interface (c : ZContext) k a : match Interface c k a, interface_node a with
    | Ok c', Ok n => context_fields c' = context_fields c ++ [(k, n)]
    | Panicked v, Panicked v' => v = v'
    | _, _ => False
    end;
  fields_WithLevel l : fields (WithLevel l) = context_fields (With l);
  context_of_context c : context_fields (With (of_context c)) = context_fields c;
  context_NewLogger : context_fields (With NewLogger) = [];
  Msg_line e s : Msg e s = line (fields e ++ [(MessageFieldName, NLeaf (LString s))]);
  (** A quoted text without quotes, backslashes and control characters. *)
  raw_quoted s : Forall (fun b => 32 <= b ∧ b ≠ 34 ∧ b ≠ 92) s → raw_node (34 :: s ++ [34]) = NLeaf (LString s)
}.
End Types.

(** ** encode.go *)

Section Encode.
Context `{G : GoValues} `{ZL : !Zerolog}.

Definition isEmptySource (src : option Source) : bool :=
  match src with
  | None => true
  | Some src => str_eqb (Function src) [] && str_eqb (File src) [] && (Line src =? 0)
  end.

Definition sourceAttrs (src : Source) : list (gostring * scalar) :=
  (if str_eqb (Function src) [] then [] else [(str "function", StringV (Function src))]) ++
  (if str_eqb (File src) [] then [] else [(str "file", StringV (File src))]) ++
  (if Line src =? 0 then [] else [(str "line", Int64V (Line src))]).

(** [resolveAttr], on what is not a group: a scalar, a source as its group,
    or nothing. *)
Definition resolveAttr (key : gostring) (s : scalar) : option (scalar + list (gostring * scalar)) :=
  match s with
  | AnyV x =>
      if str_eqb key [] && (match x with AnyNil => true | _ => false end) then None
      else match x with
      | AnySource None => None
      | AnySource (Some src) => if isEmptySource (Some src) then None else Some (inr (sourceAttrs src))
      | _ => Some (inl s)
      end
  | _ => Some (inl s)
  end.

Definition panicSentinel (value : gostring) : gostring := str "!PANIC: " ++ value.

(** [timeLayout]: RFC 3339 in quotes. *)
Definition time_raw (t : gotime) : gostring := 34 :: RFC3339Nano t ++ [34].

Definition addObjectEvent (e : Event) (key : gostring) (obj : goobject) : Event * bool :=
  match MarshalZerologObject obj NewDict with
  | Ok d => (Dict e key d, true)
  | Panicked r => (Str e key (panicSentinel r), true)
  end.

Definition done_any (o : outcome Event) : outcome (Event * bool) :=
  match o with Ok e => Ok (e, true) | Panicked r => Panicked r end.

Definition addErrEvent (e : Event) (key : gostring) (nilError : bool) (err : goerror) : outcome (Event * bool) :=
  if nilError then Ok (e, false)
  else match ErrorMarshalFunc err with
  | Panicked r => Panicked r
  | Ok MNil => Ok (e, false)
  | Ok (MObject m) => Ok (addObjectEvent e key m)
  | Ok (MError nilError m) =>
      if nilError then Ok (e, false)
      else match Error m with Ok s => Ok (Str e key s, true) | Panicked r => Panicked r end
  | Ok (MString m) => Ok (Str e key m, true)
  | Ok (MOther m) => done_any (Interface e key m)
  end.

Definition addAnyEvent (e : Event) (key : gostring) (x : any) : Event * bool :=
  match
    match x with
    | AnyError nil_pointer err => addErrEvent e key nil_pointer err
    | AnyObject nil_pointer obj => if nil_pointer then done_any (Interface e key AnyNil) else Ok (addObjectEvent e key obj)
    | _ => done_any (Interface e key x)
    end
  with
  | Ok r => r
  | Panicked r => (Str e key (panicSentinel r), true)
  end.

(** [addValueEvent] on what is not a group. *)
Definition addScalarEvent (e : Event) (key : gostring) (s : scalar) : Event * bool :=
  match s with
  | AnyV x => addAnyEvent e key x
  | StringV s => (Str e key s, true)
  | Int64V z => (Int64 e key z, true)
  | Uint64V z => (Uint64 e key z, true)
  | Float64V f => (Float64 e key f, true)
  | BoolV b => (Bool e key b, true)
  | DurationV d => (Int64 e key d, true)
  | TimeV t => (RawJSON e key (time_raw t), true)
  end.

(** Attributes added one after the other. *)
Definition add_each {A} (add : Event → A → Event * bool) (e : Event) (attrs : list A) : Event * bool :=
  fold_left (fun acc ga => let '(e, wrote) := add acc.1 ga in (e, acc.2 || wrote)) attrs (e, false).

Definition addGroupEvent {A} (add : Event → A → Event * bool) (e : Event) (key : gostring) (attrs : list A) : Event * bool :=
  if str_eqb key [] then add_each add e attrs
  else
    let '(d, wrote) := add_each add NewDict attrs in
    if negb wrote then (e, false) else (Dict e key d, true).

Definition addLeafEvent (e : Event) (a : gostring * scalar) : Event * bool := addScalarEvent e a.1 a.2.

Fixpoint addAttrValue (v : value) (key : gostring) (e : Event) : Event * bool :=
  match v with
  | Group l => addGroupEvent (fun e a => addAttrValue (a_value a) (a_key a) e) e key l
  | Scalar s =>
      match resolveAttr key s with
      | None => (e, false)
      | Some (inl s) => addScalarEvent e key s
      | Some (inr attrs) => addGroupEvent addLeafEvent e key attrs
      end
  end.

Definition addAttrEvent (e : Event) (a : attr) : Event * bool := addAttrValue (a_value a) (a_key a) e.

(** Attributes at the root: whether one was written, and whether one was a
    trace ID. *)
Definition root_each {A} (add : Event → A → Event * bool * bool) (e : Event) (attrs : list A) : Event * bool * bool :=
  fold_left (fun acc ga => let '(e, wrote, trace) := add acc.1.1 ga in (e, acc.1.2 || wrote, acc.2 || trace)) attrs (e, false, false).

Definition rooted (r : Event * bool) (key : gostring) : Event * bool * bool := (r.1, r.2, r.2 && str_eqb key TraceIDKey).

Definition addRootLeafEvent (e : Event) (a : gostring * scalar) : Event * bool * bool := rooted (addLeafEvent e a) a.1.

Fixpoint addRootAttrValue (v : value) (key : gostring) (e : Event) : Event * bool * bool :=
  match v with
  | Group l =>
      if str_eqb key [] then root_each (fun e a => addRootAttrValue (a_value a) (a_key a) e) e l
      else rooted (addGroupEvent addAttrEvent e key l) key
  | Scalar s =>
      match resolveAttr key s with
      | None => (e, false, false)
      | Some (inl s) => rooted (addScalarEvent e key s) key
      | Some (inr attrs) => if str_eqb key [] then root_each addRootLeafEvent e attrs else rooted (addGroupEvent addLeafEvent e key attrs) key
      end
  end.

Definition addRootAttrEvent (e : Event) (a : attr) : Event * bool * bool := addRootAttrValue (a_value a) (a_key a) e.

(** *** On a context *)

Definition applyObjectContext (c : ZContext) (key : gostring) (obj : goobject) : ZContext * bool :=
  match MarshalZerologObject obj NewDict with
  | Ok d => (Dict c key d, true)
  | Panicked r => (Str c key (panicSentinel r), true)
  end.

Definition baked_any (o : outcome ZContext) : outcome (ZContext * bool) :=
  match o with Ok c => Ok (c, true) | Panicked r => Panicked r end.

Definition applyErrContext (c : ZContext) (key : gostring) (nilError : bool) (err : goerror) : outcome (ZContext * bool) :=
  if nilError then Ok (c, false)
  else match ErrorMarshalFunc err with
  | Panicked r => Panicked r
  | Ok MNil => Ok (c, false)
  | Ok (MObject m) => Ok (applyObjectContext c key m)
  | Ok (MError nilError m) =>
      if nilError then Ok (c, false)
      else match Error m with Ok s => Ok (Str c key s, true) | Panicked r => Panicked r end
  | Ok (MString m) => Ok (Str c key m, true)
  | Ok (MOther m) => baked_any (Interface c key m)
  end.

Definition applyAnyContext (c : ZContext) (key : gostring) (x : any) : ZContext * bool :=
  match
    match x with
    | AnyError nil_pointer err => applyErrContext c key nil_pointer err
    | AnyObject nil_pointer obj => if nil_pointer then baked_any (Interface c key AnyNil) else Ok (applyObjectContext c key obj)
    | _ => baked_any (Interface c key x)
    end
  with
  | Ok r => r
  | Panicked r => (Str c key (panicSentinel r), true)
  end.

Definition applyScalarContext (c : ZContext) (key : gostring) (s : scalar) : ZContext * bool :=
  match s with
  | AnyV x => applyAnyContext c key x
  | StringV s => (Str c key s, true)
  | Int64V z => (Int64 c key z, true)
  | Uint64V z => (Uint64 c key z, true)
  | Float64V f => (Float64 c key f, true)
  | BoolV b => (Bool c key b, true)
  | DurationV d => (Int64 c key d, true)
  | TimeV t => (RawJSON c key (time_raw t), true)
  end.

Definition applyGroupContext {A} (add : Event → A → Event * bool) (c : ZContext) (key : gostring) (attrs : list A) : ZContext * bool :=
  let '(d, wrote) := add_each add NewDict attrs in
  if negb wrote then (c, false) else (Dict c key d, true).

Definition context_each {A} (apply : ZContext → A → ZContext * bool) (c : ZContext) (attrs : list A) (trace : bool) : ZContext * bool :=
  fold_left (fun acc a => let '(c, baked) := apply acc.1 a in (c, acc.2 || baked)) attrs (c, trace).

Definition baked_trace (r : ZContext * bool) (key : gostring) : ZContext * bool := (r.1, r.2 && str_eqb key TraceIDKey).

Definition applyRootLeaf (c : ZContext) (a : gostring * scalar) : ZContext * bool := baked_trace (applyScalarContext c a.1 a.2) a.1.

Fixpoint applyRootValue (v : value) (key : gostring) (c : ZContext) : ZContext * bool :=
  match v with
  | Group l =>
      if str_eqb key [] then context_each (fun c a => applyRootValue (a_value a) (a_key a) c) c l false
      else baked_trace (applyGroupContext addAttrEvent c key l) key
  | Scalar s =>
      match resolveAttr key s with
      | None => (c, false)
      | Some (inl s) => baked_trace (applyScalarContext c key s) key
      | Some (inr attrs) => if str_eqb key [] then context_each applyRootLeaf c attrs false else baked_trace (applyGroupContext addLeafEvent c key attrs) key
      end
  end.

Definition applyRootContext (c : ZContext) (a : attr) : ZContext * bool := applyRootValue (a_value a) (a_key a) c.

(** [sourceDictOf]. *)
Definition sourceDictOf (src : option Source) : option Event :=
  match src with
  | None => None
  | Some s =>
      if isEmptySource src then None
      else
        let d := NewDict in
        let d := if str_eqb (Function s) [] then d else Str d (str "function") (Function s) in
        let d := if str_eqb (File s) [] then d else Str d (str "file") (File s) in
        Some (if Line s =? 0 then d else Int64 d (str "line") (Line s))
  end.

(** ** handler.go *)

Context {context : Type}.

(** [writerByFormat]: what becomes of a line. [console] is zerolog's
    [ConsoleWriter]. *)
Definition writerByFormat (console : list token → list output) (format : Z) : list token → list output :=
  if format =? FormatJSON then fun l => [Written l]
  else if format =? FormatConsole then console
  else if format =? FormatNone then fun _ => []
  else fun l => [Written l].

Record zerologHandler : Type := MkZerolog {
  z_logger : Logger;
  z_out : list token → list output;
  z_groups : list (gostring * list attr);
  z_traceIDFn : option (context → gostring);
  z_minLevel : Z;
  z_source : bool;
  z_traceAttr : bool
}.

Definition inject (f : option (context → gostring)) (ctx : context) (has : bool) (e : Event) : Event :=
  match f with
  | Some f => if has then e else Str e TraceIDKey (f ctx)
  | None => e
  end.

Definition writeRoot (h : zerologHandler) (ctx : context) (e : Event) (r : record) : Event :=
  let '(e, hasTrace) := fold_left (fun acc a => let '(e, _, trace) := addRootAttrEvent acc.1 a in (e, acc.2 || trace)) (r_attrs r) (e, z_traceAttr h) in
  inject (z_traceIDFn h) ctx hasTrace e.

(** [buildGroupDict] on the frames after the first one. *)
Fixpoint buildGroupDict (frame : gostring * list attr) (frames : list (gostring * list attr)) (r : record) : Event * bool :=
  let '(d, wrote) := add_each addAttrEvent NewDict frame.2 in
  match frames with
  | next :: frames =>
      let '(child, childWrote) := buildGroupDict next frames r in
      if childWrote then (Dict d next.1 child, true) else (d, wrote)
  | [] => fold_left (fun acc ga => let '(e, wrote) := addAttrEvent acc.1 ga in (e, acc.2 || wrote)) (r_attrs r) (d, wrote)
  end.

Definition zerolog_Handle (h : zerologHandler) (ctx : context) (r : record) : list output :=
  z_out h
  (
  let e := WithLevel (z_logger h) in
  let e := Str e LevelFieldName (LevelName (r_level r)) in
  let e := if IsZeroTime (r_time r) then e else RawJSON e TimestampFieldName (time_raw (r_time r)) in
  let e := if z_source h then match sourceDictOf (r_source r) with Some d => Dict e (str "source") d | None => e end else e in
  match z_groups h with
  | [] => Msg (writeRoot h ctx e r) (r_message r)
  | frame :: frames =>
      let '(dict, wrote) := buildGroupDict frame frames r in
      let rootIsTrace := wrote && str_eqb frame.1 TraceIDKey in
      let e := inject (z_traceIDFn h) ctx (z_traceAttr h || rootIsTrace) e in
      let e := if wrote then Dict e frame.1 dict else e in
      Msg e (r_message r)
  end).

(** Attributes in the innermost frame. *)
Fixpoint add_last (frame : gostring * list attr) (frames : list (gostring * list attr)) (attrs : list attr) : list (gostring * list attr) :=
  match frames with
  | [] => [(frame.1, frame.2 ++ attrs)]
  | next :: frames => frame :: add_last next frames attrs
  end.

Definition zerolog_WithAttrs (h : zerologHandler) (attrs : list attr) : zerologHandler :=
  if (length attrs =? 0)%nat then h
  else match z_groups h with
  | [] =>
      let '(c, trace) := context_each applyRootContext (With (z_logger h)) attrs (z_traceAttr h) in
      MkZerolog (of_context c) (z_out h) [] (z_traceIDFn h) (z_minLevel h) (z_source h) trace
  | frame :: frames => MkZerolog (z_logger h) (z_out h) (add_last frame frames attrs) (z_traceIDFn h) (z_minLevel h) (z_source h) (z_traceAttr h)
  end.

Definition zerolog_WithGroup (h : zerologHandler) (name : gostring) : zerologHandler :=
  if str_eqb name [] then h
  else MkZerolog (z_logger h) (z_out h) (z_groups h ++ [(name, [])]) (z_traceIDFn h) (z_minLevel h) (z_source h) (z_traceAttr h).

#[export] Instance zerologHandler_Handler : Handler context zerologHandler := {
  Enabled h _ level := z_minLevel h <=? level;
  Handle := zerolog_Handle;
  WithAttrs := zerolog_WithAttrs;
  WithGroup := zerolog_WithGroup
}.

(** [NewHandler]. *)
Definition NewHandler (console : list token → list output) (c : Config context) : unit + (zerologHandler + hook_handler zerologHandler) :=
  if (Format c =? FormatNone) && negb (HookFn c) then inl tt
  else
    let h := MkZerolog NewLogger (writerByFormat console (Format c)) [] (TraceIDFn c) (Level c) (AddSource c) false in
    let h := WithAttrs h (CommonAttr c) in
    inr (if HookFn c then inr (NewSlogHookHandler h true) else inl h).
End Encode.
