(* ===== verification/LogSrv.v ===== *)
(** * [pkg/logsrv]: what the zerolog back end writes

    Each event holds the fields its attributes stand for, each rendered once;
    the handler's state against the operations that derived it; and the lines
    of [NewHandler]. *)

From stdpp Require Import base option list.
From Stdlib Require Import String.
From S2P Require Import Prelude GoString GoText Slog LogSanitize LogHandler LogTrace LogConfig Zerolog.

#[local] Open Scope Z_scope.

(** ** What is written *)

Section Written.
Context `{G : GoValues} {Z : Zerolog} `{!ZerologLaws Z}.

(** The text of a time needs no escaping, and no error is mapped to
    nothing. *)
Hypothesis time_plain : ∀ t, Forall (fun b => 32 <= b ∧ b ≠ 34 ∧ b ≠ 92) (RFC3339Nano t).
Hypothesis errors_kept : ∀ e, match ErrorMarshalFunc e with Ok MNil | Ok (MError true _) => False | _ => True end.

Definition text_node (s : gostring) : node := NLeaf (LString s).
Definition panic_node (r : gostring) : node := text_node (panicSentinel r).

Definition object_node (o : goobject) : node :=
  match object_fields o with Ok fs => NObj fs | Panicked r => panic_node r end.

Definition interface_value (a : any) : node :=
  match interface_node a with Ok n => n | Panicked r => panic_node r end.

Definition error_node (e : goerror) : node :=
  match ErrorMarshalFunc e with
  | Panicked r => panic_node r
  | Ok (MObject o) => object_node o
  | Ok (MError _ m) => match Error m with Ok s => text_node s | Panicked r => panic_node r end
  | Ok (MString s) => text_node s
  | Ok (MOther a) => interface_value a
  | Ok MNil => text_node []
  end.

(** How a leaf is rendered. *)
Definition any_node (a : any) : node :=
  match a with
  | AnyError _ e => error_node e
  | AnyObject true _ => interface_value AnyNil
  | AnyObject false o => object_node o
  | _ => interface_value a
  end.

Fixpoint render (n : node) : node :=
  match n with
  | NLeaf (LAny a) => any_node a
  | NLeaf (LFloat f) => float_node f
  | NLeaf l => NLeaf l
  | NObj fs => NObj (map (fun f => (f.1, render f.2)) fs)
  end.

Definition render_all (fs : list field) : list field := map (fun f => (f.1, render f.2)) fs.

Lemma render_all_app fs gs : render_all (fs ++ gs) = render_all fs ++ render_all gs.
Proof. apply map_app. Qed.

Lemma render_all_empty fs : is_empty (render_all fs) = is_empty fs.
Proof. by destruct fs. Qed.

Lemma render_nest key fs : render_all (nest key fs) = nest key (render_all fs).
Proof. destruct fs; [done|]. unfold nest. cbn [render_all map]. by destruct (decide (key = [])). Qed.

Lemma has_key_render key fs : has_key key (render_all fs) = has_key key fs.
Proof. apply has_key_map. unfold render_all. by rewrite map_map. Qed.

(** *** Events *)

(** An event after some fields, and whether there were any. *)
Definition adds (e : Event) (fs : list field) (r : Event * bool) : Prop := fields r.1 = fields e ++ render_all fs ∧ r.2 = negb (is_empty fs).

Lemma adds_object e key o : fields (addObjectEvent e key o).1 = fields e ++ [(key, object_node o)] ∧ (addObjectEvent e key o).2 = true.
Proof.
  unfold addObjectEvent, object_node. pose proof (fields_Object NewDict o) as Ho. destruct (MarshalZerologObject o NewDict), (object_fields o); try done; cbn [fst snd].
  - by rewrite fields_Dict, Ho, fields_NewDict.
  - by rewrite fields_Str, Ho.
Qed.

Lemma adds_interface e key a : let r := match done_any (Interface e key a) with Ok r => r | Panicked p => (Str e key (panicSentinel p), true) end in
  fields r.1 = fields e ++ [(key, interface_value a)] ∧ r.2 = true.
Proof.
  unfold interface_value. pose proof (fields_Interface e key a) as Hi. destruct (Interface e key a), (interface_node a); try done; cbn [done_any fst snd].
  by rewrite fields_Str, Hi.
Qed.

Lemma adds_any e key a : (∀ x, a ≠ AnyError true x) → fields (addAnyEvent e key a).1 = fields e ++ [(key, any_node a)] ∧ (addAnyEvent e key a).2 = true.
Proof.
  intros Hn. unfold addAnyEvent. destruct a as [|src|[] x|[] o|l|x]; try apply adds_interface; [by destruct (Hn x)| |apply adds_object].
  unfold addErrEvent, any_node, error_node. pose proof (errors_kept x) as Hk. destruct (ErrorMarshalFunc x) as [[|o|[] m|s|a]|r]; try done; cbn [fst snd].
  - apply adds_object.
  - destruct (Error m) as [s|r]; cbn [fst snd]; by rewrite fields_Str.
  - by rewrite fields_Str.
  - apply adds_interface.
  - by rewrite fields_Str.
Qed.

Lemma raw_time t : raw_node (time_raw t) = NLeaf (LString (RFC3339Nano t)).
Proof. apply raw_quoted, time_plain. Qed.

(** What is not a source, a nil error or the zero attribute. *)
Definition plain (s : scalar) : Prop :=
  match s with AnyV (AnySource _) | AnyV (AnyError true _) => False | _ => True end.

Lemma adds_scalar e key s : plain s → adds e [(key, NLeaf (leaf_of s))] (addScalarEvent e key s).
Proof.
  intros Hs. unfold adds. cbn [is_empty negb render_all map fst snd].
  destruct s as [x|x|x|x|x|x|t|a]; cbn [addScalarEvent leaf_of fst snd render];
    rewrite ?fields_Str, ?fields_Int64, ?fields_Uint64, ?fields_Float64, ?fields_Bool, ?fields_RawJSON, ?raw_time; try done.
  apply adds_any. by intros x ->.
Qed.

Lemma add_each_spec {A} (add : Event → A → Event * bool) (f : A → list field) l : Forall (fun a => ∀ e, adds e (f a) (add e a)) l →
  ∀ e, adds e (concat (map f l)) (add_each add e l).
Proof.
  intros Hl e. unfold add_each. assert (Hg : ∀ e fs acc, adds e fs acc → adds e (fs ++ concat (map f l)) (fold_left (fun acc ga => let '(e, wrote) := add acc.1 ga in (e, acc.2 || wrote)) l acc)).
  { induction Hl as [|a l Ha _ IH]; intros e0 fs acc Hacc; [by rewrite app_nil_r|]. cbn [fold_left map concat]. rewrite app_assoc. apply IH. destruct Hacc as [H1 H2], (Ha acc.1) as [H3 H4].
    destruct (add acc.1 a) as [e1 w]. cbn [fst snd] in *. split; cbn [fst snd]; [by rewrite H3, H1, render_all_app, app_assoc|]. rewrite H2, H4, is_empty_app. by destruct (is_empty fs), (is_empty (f a)). }
  apply (Hg e [] (e, false)). split; [by rewrite app_nil_r|done].
Qed.

Lemma add_group_spec {A} (add : Event → A → Event * bool) (f : A → list field) l key e : Forall (fun a => ∀ e, adds e (f a) (add e a)) l →
  adds e (nest key (concat (map f l))) (addGroupEvent add e key l).
Proof.
  intros Hl. unfold addGroupEvent, str_eqb. case_bool_decide as Hk; [subst; rewrite nest_inline; by apply add_each_spec|].
  destruct (add_each_spec add f l Hl NewDict) as [Hf Hw]. destruct (add_each add NewDict l) as [d w]. cbn [fst snd] in *. rewrite Hw, negb_involutive.
  unfold adds. rewrite nest_empty, render_nest. destruct (concat (map f l)) as [|x xs] eqn:He; cbn [is_empty fst snd]; [by rewrite app_nil_r|].
  rewrite fields_Dict, Hf, fields_NewDict. cbn [app]. by rewrite nest_named.
Qed.

(** The leaves of a source. *)
Definition leaf_fields (a : gostring * scalar) : list field := [(a.1, NLeaf (leaf_of a.2))].

Lemma sourceAttrs_group src : sourceAttrs src = source_group src.
Proof. unfold sourceAttrs, source_group, str_eqb. by repeat case_bool_decide; repeat case_decide; try done; repeat case_match. Qed.

Lemma source_leaf_fields src gs : concat (map leaf_fields (sourceAttrs src)) = leaf_field no_replacer gs <$> source_group src.
Proof. rewrite sourceAttrs_group. induction (source_group src) as [|a l IH]; [done|]. cbn. by rewrite IH. Qed.

Lemma source_empty src : isEmptySource (Some src) = is_empty (source_group src).
Proof. unfold isEmptySource, source_group, str_eqb. destruct (Function src), (File src); cbn; by destruct (Line src =? 0). Qed.

Lemma source_leaves_plain src : Forall (fun a => plain a.2) (sourceAttrs src).
Proof. unfold sourceAttrs. rewrite !Forall_app. repeat split; case_match; by repeat constructor. Qed.

(** A scalar, resolved. *)
Lemma resolveAttr_spec key s gs : match resolveAttr key s with
  | None => scalar_fields no_replacer gs key s = []
  | Some (inl s') => s' = s ∧ ((plain s ∧ scalar_fields no_replacer gs key s = [(key, NLeaf (leaf_of s))]) ∨ (∃ x, s = AnyV (AnyError true x) ∧ scalar_fields no_replacer gs key s = []))
  | Some (inr attrs) => Forall (fun a => plain a.2) attrs ∧ scalar_fields no_replacer gs key s = nest key (concat (map leaf_fields attrs))
  end.
Proof.
  destruct s as [x|x|x|x|x|x|t|a]; try by (split; [|left]). cbn [resolveAttr]. unfold str_eqb, scalar_fields, no_replacer.
  destruct a as [|src|[] x|np o|l|x]; rewrite ?andb_false_r, ?andb_true_r; try by (split; [|left]).
  - case_bool_decide; [by rewrite decide_True|]. split; [done|left]. by rewrite decide_False.
  - destruct src as [src|]; [|done]. rewrite source_empty. destruct (is_empty (source_group src)) eqn:He; [by destruct (source_group src)|].
    split; [apply source_leaves_plain|]. by rewrite (source_leaf_fields src (inside gs key)).
  - split; [done|right]. by exists x.
Qed.

(** Without a callback the groups around do not matter. *)
Lemma plain_groups w : ∀ gs key, value_fields no_replacer w gs key = value_fields no_replacer w [] key.
Proof.
  induction w as [s|l IH] using value_ind'; intros gs key; [done|]. rewrite !value_fields_group. f_equal. unfold attrs_fields. f_equal. apply map_ext_in.
  intros a Ha%list_elem_of_In. rewrite Forall_forall in IH. by rewrite (IH a Ha), (IH a Ha (inside [] key)).
Qed.

Lemma plain_group l key : value_fields no_replacer (Group l) [] key = nest key (attrs_fields no_replacer [] l).
Proof. rewrite value_fields_group. f_equal. unfold attrs_fields. f_equal. apply map_ext. intros a. apply plain_groups. Qed.

Lemma addAttr_spec v : ∀ key e, adds e (value_fields no_replacer v [] key) (addAttrValue v key e).
Proof.
  induction v as [s|l IH] using value_ind'; intros key e; cbn [addAttrValue].
  - cbn [value_fields]. pose proof (resolveAttr_spec key s []) as Hr. destruct (resolveAttr key s) as [[s'|attrs]|].
    + destruct Hr as (-> & [(Hp & ->)|(x & -> & ->)]); [by apply adds_scalar|]. split; cbn; [by rewrite app_nil_r|done].
    + destruct Hr as (Hp & ->). apply add_group_spec. eapply Forall_impl; [exact Hp|]. intros a Ha e'. by apply adds_scalar.
    + rewrite Hr. split; [by rewrite app_nil_r|done].
  - rewrite plain_group. apply (add_group_spec _ (fun a => value_fields no_replacer (a_value a) [] (a_key a))).
    eapply Forall_impl; [exact IH|]. intros a Ha e'. apply Ha.
Qed.

Lemma addAttrs_spec l e : adds e (attrs_fields no_replacer [] l) (add_each addAttrEvent e l).
Proof. apply add_each_spec. apply Forall_forall. intros a _ e'. apply addAttr_spec. Qed.

(** *** At the root *)

Definition adds_root (e : Event) (fs : list field) (r : Event * bool * bool) : Prop := adds e fs r.1 ∧ r.2 = has_key TraceIDKey fs.

Lemma root_each_spec {A} (add : Event → A → Event * bool * bool) (f : A → list field) l e : Forall (fun a => ∀ e, adds_root e (f a) (add e a)) l →
  adds_root e (concat (map f l)) (root_each add e l).
Proof.
  intros Hl. unfold root_each. assert (Hg : ∀ fs acc, adds_root e fs acc →
    adds_root e (fs ++ concat (map f l)) (fold_left (fun acc ga => let '(e, wrote, trace) := add acc.1.1 ga in (e, acc.1.2 || wrote, acc.2 || trace)) l acc)).
  { induction Hl as [|a l Ha _ IH]; intros fs acc Hacc; [by rewrite app_nil_r|]. cbn [fold_left map concat]. rewrite app_assoc. apply IH. destruct Hacc as [[H1 H2] H3], (Ha acc.1.1) as [[H4 H5] H6].
    destruct (add acc.1.1 a) as [[e1 w] t]. cbn [fst snd] in *. repeat split; cbn [fst snd]; [by rewrite H4, H1, render_all_app, app_assoc| |by rewrite has_key_app, H3, H6].
    rewrite H2, H5, is_empty_app. by destruct (is_empty fs), (is_empty (f a)). }
  apply (Hg [] (e, false, false)). repeat split. by rewrite app_nil_r.
Qed.

(** One field under a key, or none. *)
Lemma single_key (fs : list field) key : (∀ f, f ∈ fs → f.1 = key) → negb (is_empty fs) && str_eqb key TraceIDKey = has_key TraceIDKey fs.
Proof.
  intros Hk. destruct fs as [|f fs]; [done|]. cbn [is_empty negb andb has_key existsb]. rewrite (Hk f) by by left. destruct (str_eqb key TraceIDKey) eqn:He; [done|].
  symmetry. apply not_true_is_false. intros (g & Hg%list_elem_of_In & Hgk)%existsb_exists. rewrite (Hk g) in Hgk by by right. congruence.
Qed.

Lemma rooted_spec e fs r key : adds e fs r → (∀ f, f ∈ fs → f.1 = key) → adds_root e fs (rooted r key).
Proof.
  intros [H1 H2] Hk. repeat split; cbn [rooted fst snd]; [done|done|]. rewrite H2. by apply single_key.
Qed.

Lemma nest_key key fs f : key ≠ [] → f ∈ nest key fs → f.1 = key.
Proof. intros Hk. unfold nest. rewrite decide_False by done. destruct fs; intros Hf; set_unfold; naive_solver. Qed.

Lemma source_keys src : Forall (fun a => str_eqb a.1 TraceIDKey = false) (sourceAttrs src).
Proof. unfold sourceAttrs. rewrite !Forall_app. repeat split; case_match; repeat constructor. Qed.

Lemma addRoot_spec v : ∀ key e, adds_root e (value_fields no_replacer v [] key) (addRootAttrValue v key e).
Proof.
  induction v as [s|l IH] using value_ind'; intros key e; cbn [addRootAttrValue].
  - cbn [value_fields]. pose proof (resolveAttr_spec key s []) as Hr. destruct (resolveAttr key s) as [[s'|attrs]|].
    + destruct Hr as (-> & [(Hp & ->)|(x & -> & ->)]); apply rooted_spec; [by apply adds_scalar|intros f Hf; set_unfold; naive_solver| |intros f Hf; set_unfold; naive_solver].
      split; cbn; [by rewrite app_nil_r|done].
    + destruct Hr as (Hp & ->). assert (Hl : Forall (fun a => ∀ e, adds e (leaf_fields a) (addLeafEvent e a)) attrs) by (eapply Forall_impl; [exact Hp|]; intros a Ha e'; by apply adds_scalar).
      unfold str_eqb. case_bool_decide as Hk.
      * subst. rewrite nest_inline. apply root_each_spec. eapply Forall_impl; [exact Hl|]. intros a Ha e'. apply rooted_spec; [apply Ha|]. intros f Hf. unfold leaf_fields in Hf. set_unfold. naive_solver.
      * apply rooted_spec; [by apply add_group_spec|]. intros f. by apply nest_key.
    + rewrite Hr. repeat split. by rewrite app_nil_r.
  - rewrite plain_group. unfold str_eqb. case_bool_decide as Hk.
    + subst. rewrite nest_inline. apply (root_each_spec _ (fun a => value_fields no_replacer (a_value a) [] (a_key a))). eapply Forall_impl; [exact IH|]. intros a Ha e'. apply Ha.
    + apply rooted_spec; [|intros f; by apply nest_key]. apply (add_group_spec _ (fun a => value_fields no_replacer (a_value a) [] (a_key a))). apply Forall_forall. intros a _ e'. apply addAttr_spec.
Qed.

(** *** On a context *)

Definition bakes (c : ZContext) (fs : list field) (r : ZContext * bool) : Prop := context_fields r.1 = context_fields c ++ render_all fs ∧ r.2 = negb (is_empty fs).
Definition bakes_root (c : ZContext) (fs : list field) (r : ZContext * bool) : Prop := context_fields r.1 = context_fields c ++ render_all fs ∧ r.2 = has_key TraceIDKey fs.

Lemma bakes_object c key o : context_fields (applyObjectContext c key o).1 = context_fields c ++ [(key, object_node o)] ∧ (applyObjectContext c key o).2 = true.
Proof.
  unfold applyObjectContext, object_node. pose proof (fields_Object NewDict o) as Ho. destruct (MarshalZerologObject o NewDict), (object_fields o); try done; cbn [fst snd].
  - by rewrite context_Dict, Ho, fields_NewDict.
  - by rewrite context_Str, Ho.
Qed.

Lemma bakes_interface c key a : let r := match baked_any (Interface c key a) with Ok r => r | Panicked p => (Str c key (panicSentinel p), true) end in
  context_fields r.1 = context_fields c ++ [(key, interface_value a)] ∧ r.2 = true.
Proof.
  unfold interface_value. pose proof (context_Interface c key a) as Hi. destruct (Interface c key a), (interface_node a); try done; cbn [baked_any fst snd].
  by rewrite context_Str, Hi.
Qed.

Lemma bakes_any c key a : (∀ x, a ≠ AnyError true x) → context_fields (applyAnyContext c key a).1 = context_fields c ++ [(key, any_node a)] ∧ (applyAnyContext c key a).2 = true.
Proof.
  intros Hn. unfold applyAnyContext. destruct a as [|src|[] x|[] o|l|x]; try apply bakes_interface; [by destruct (Hn x)| |apply bakes_object].
  unfold applyErrContext, any_node, error_node. pose proof (errors_kept x) as Hk. destruct (ErrorMarshalFunc x) as [[|o|[] m|s|a]|r]; try done; cbn [fst snd].
  - apply bakes_object.
  - destruct (Error m) as [s|r]; cbn [fst snd]; by rewrite context_Str.
  - by rewrite context_Str.
  - apply bakes_interface.
  - by rewrite context_Str.
Qed.

Lemma bakes_scalar c key s : plain s → bakes c [(key, NLeaf (leaf_of s))] (applyScalarContext c key s).
Proof.
  intros Hs. unfold bakes. cbn [is_empty negb render_all map fst snd].
  destruct s as [x|x|x|x|x|x|t|a]; cbn [applyScalarContext leaf_of fst snd render];
    rewrite ?context_Str, ?context_Int64, ?context_Uint64, ?context_Float64, ?context_Bool, ?context_RawJSON, ?raw_time; try done.
  apply bakes_any. by intros x ->.
Qed.

Lemma bakes_group {A} (add : Event → A → Event * bool) (f : A → list field) l key c : key ≠ [] → Forall (fun a => ∀ e, adds e (f a) (add e a)) l →
  bakes c (nest key (concat (map f l))) (applyGroupContext add c key l).
Proof.
  intros Hk Hl. unfold applyGroupContext. destruct (add_each_spec add f l Hl NewDict) as [Hf Hw]. destruct (add_each add NewDict l) as [d w]. cbn [fst snd] in *. rewrite Hw, negb_involutive.
  unfold bakes. rewrite nest_empty, render_nest. destruct (concat (map f l)) as [|x xs] eqn:He; cbn [is_empty fst snd]; [by rewrite app_nil_r|].
  rewrite context_Dict, Hf, fields_NewDict. cbn [app]. by rewrite nest_named.
Qed.

Lemma baked_spec c fs r key : bakes c fs r → (∀ f, f ∈ fs → f.1 = key) → bakes_root c fs (baked_trace r key).
Proof.
  intros [H1 H2] Hk. split; [done|]. cbn [baked_trace snd]. rewrite H2. by apply single_key.
Qed.

Lemma context_each_spec {A} (apply : ZContext → A → ZContext * bool) (f : A → list field) l c t : Forall (fun a => ∀ c, bakes_root c (f a) (apply c a)) l →
  let r := context_each apply c l t in context_fields r.1 = context_fields c ++ render_all (concat (map f l)) ∧ r.2 = t || has_key TraceIDKey (concat (map f l)).
Proof.
  intros Hl. revert c t. induction Hl as [|a l Ha _ IH]; intros c t; cbn zeta; [by rewrite app_nil_r, orb_false_r|]. unfold context_each. cbn [fold_left map concat].
  destruct (Ha c) as [H1 H2]. cbn [fst snd]. destruct (apply c a) as [c1 b]. cbn [fst snd] in *. destruct (IH c1 (t || b)) as [H3 H4]. unfold context_each in H3, H4. split.
  - by rewrite H3, H1, render_all_app, app_assoc.
  - by rewrite H4, H2, has_key_app, orb_assoc.
Qed.

Lemma applyRoot_spec v : ∀ key c, bakes_root c (value_fields no_replacer v [] key) (applyRootValue v key c).
Proof.
  induction v as [s|l IH] using value_ind'; intros key c; cbn [applyRootValue].
  - cbn [value_fields]. pose proof (resolveAttr_spec key s []) as Hr. destruct (resolveAttr key s) as [[s'|attrs]|].
    + destruct Hr as (-> & [(Hp & ->)|(x & -> & ->)]); apply baked_spec; [by apply bakes_scalar|intros f Hf; set_unfold; naive_solver| |intros f Hf; set_unfold; naive_solver].
      split; cbn; [by rewrite app_nil_r|done].
    + destruct Hr as (Hp & ->). unfold str_eqb. case_bool_decide as Hk.
      * subst. rewrite nest_inline. apply (context_each_spec applyRootLeaf leaf_fields). eapply Forall_impl; [exact Hp|]. intros a Ha c'. apply baked_spec; [by apply bakes_scalar|].
        intros f Hf. unfold leaf_fields in Hf. set_unfold. naive_solver.
      * apply baked_spec; [|intros f; by apply nest_key]. apply bakes_group; [done|]. eapply Forall_impl; [exact Hp|]. intros a Ha e'. by apply adds_scalar.
    + rewrite Hr. split; [by rewrite app_nil_r|done].
  - rewrite plain_group. unfold str_eqb. case_bool_decide as Hk.
    + subst. rewrite nest_inline. apply (context_each_spec _ (fun a => value_fields no_replacer (a_value a) [] (a_key a)) l c false). eapply Forall_impl; [exact IH|]. intros a Ha c'. apply Ha.
    + apply baked_spec; [|intros f; by apply nest_key]. apply (bakes_group _ (fun a => value_fields no_replacer (a_value a) [] (a_key a))); [done|]. apply Forall_forall. intros a _ e'. apply addAttr_spec.
Qed.

Lemma applyRoots_spec l c t : let r := context_each applyRootContext c l t in
  context_fields r.1 = context_fields c ++ render_all (attrs_fields no_replacer [] l) ∧ r.2 = t || has_key TraceIDKey (attrs_fields no_replacer [] l).
Proof. apply context_each_spec, Forall_forall. intros a _ c'. apply applyRoot_spec. Qed.

(** *** The handler *)

Context {context : Type}.

(** The fields at the root before the first group is opened, and those from
    it on. *)
Fixpoint before_group (ops : list op) : list field :=
  match ops with
  | [] => []
  | OpAttrs l :: ops => attrs_fields no_replacer [] l ++ before_group ops
  | OpGroup n :: ops => if decide (n = []) then before_group ops else []
  end.

Fixpoint from_group (ops : list op) (attrs : list attr) : list field :=
  match ops with
  | [] => attrs_fields no_replacer [] attrs
  | OpAttrs _ :: ops => from_group ops attrs
  | OpGroup n :: ops => if decide (n = []) then from_group ops attrs else nest n (chain_fields no_replacer [] ops attrs)
  end.

Lemma plain_chain ops attrs : ∀ gs, chain_fields no_replacer gs ops attrs = chain_fields no_replacer [] ops attrs.
Proof.
  assert (Hl : ∀ l gs, attrs_fields no_replacer gs l = attrs_fields no_replacer [] l) by (intros l gs; unfold attrs_fields; f_equal; apply map_ext; intros a; apply plain_groups).
  induction ops as [|[l|n] ops IH]; intros gs; cbn [chain_fields]; [apply Hl|by rewrite Hl, IH|]. by rewrite IH, (IH (inside [] n)).
Qed.

Lemma chain_split ops attrs : chain_fields no_replacer [] ops attrs = before_group ops ++ from_group ops attrs.
Proof.
  induction ops as [|[l|n] ops IH]; [done|cbn; by rewrite IH, app_assoc|]. cbn [chain_fields before_group from_group]. rewrite plain_chain.
  destruct (decide (n = [])) as [->|Hn]; [by rewrite nest_inline|done].
Qed.

Lemma before_group_snoc ops o : before_group (ops ++ [o]) = before_group ops ++ (if grouped ops then [] else match o with OpAttrs l => attrs_fields no_replacer [] l | OpGroup _ => [] end).
Proof.
  induction ops as [|[l|n] ops IH]; cbn [app before_group grouped existsb is_group orb].
  - destruct o as [l|n]; cbn; [by rewrite app_nil_r|by destruct (decide _)].
  - by rewrite IH, app_assoc.
  - destruct n; [exact IH|done].
Qed.

Lemma from_group_snoc ops o attrs : from_group (ops ++ [o]) attrs =
  match o with
  | OpAttrs l => if grouped ops then from_group ops (l ++ attrs) else attrs_fields no_replacer [] attrs
  | OpGroup n => from_group ops [Attr n (Group attrs)]
  end.
Proof.
  induction ops as [|[l|n] ops IH]; cbn [app from_group grouped existsb is_group orb].
  - destruct o as [l|n]; [done|]. rewrite attrs_fields_cons. cbn [a_value a_key Attr fst snd attrs_fields map concat]. rewrite plain_group, app_nil_r.
    destruct (decide (n = [])) as [->|Hn]; [by rewrite nest_inline|]. done.
  - exact IH.
  - destruct n as [|x n]; cbn [is_empty negb orb]; [exact IH|]. rewrite !decide_False by done. destruct o as [l|m]; [by rewrite (chain_attrs no_replacer)|by rewrite (chain_group no_replacer)].
Qed.

Lemma ungrouped_from ops attrs : grouped ops = false → from_group ops attrs = attrs_fields no_replacer [] attrs.
Proof. induction ops as [|[l|[|x n]] ops IH]; [done|exact IH|exact IH|done]. Qed.

(** Frames as operations. *)
Definition frame_ops (frames : list (gostring * list attr)) : list op := flat_map (fun f => [OpGroup f.1; OpAttrs f.2]) frames.

Lemma frame_ops_app fs gs : frame_ops (fs ++ gs) = frame_ops fs ++ frame_ops gs.
Proof. apply flat_map_app. Qed.

Lemma add_last_frames frames : ∀ frame attrs gs l, chain_fields no_replacer gs (frame_ops (add_last frame frames l)) attrs = chain_fields no_replacer gs (frame_ops (frame :: frames)) (l ++ attrs).
Proof.
  induction frames as [|next frames IH]; intros frame attrs gs l; cbn [add_last]; [cbn [frame_ops flat_map app chain_fields fst snd]; by rewrite !attrs_fields_app, app_assoc|].
  cbn [frame_ops flat_map app chain_fields]. specialize (IH next attrs (inside gs frame.1) l). unfold frame_ops in IH. by rewrite IH.
Qed.

Record holds (ops : list op) (h : zerologHandler (context := context)) : Prop := Holds {
  zh_logger : context_fields (With (z_logger h)) = render_all (before_group ops);
  zh_trace : z_traceAttr h = has_key TraceIDKey (before_group ops);
  zh_grouped : grouped ops = negb (is_empty (z_groups h));
  zh_groups : ∀ attrs, chain_fields no_replacer [] (frame_ops (z_groups h)) attrs = from_group ops attrs;
  zh_named : Forall (fun f => f.1 ≠ []) (z_groups h)
}.

Lemma add_last_named frames l : ∀ frame, Forall (fun f => f.1 ≠ []) (frame :: frames) → Forall (fun f => f.1 ≠ []) (add_last frame frames l).
Proof. induction frames as [|next frames IH]; intros frame Hf; apply Forall_cons in Hf as [H1 H2]; constructor; [done|done|done|by apply IH]. Qed.

Lemma holds_WithAttrs ops h l : holds ops h → l ≠ [] → holds (ops ++ [OpAttrs l]) (WithAttrs h l).
Proof.
  intros [Hl Ht Hg Hgs Hn] Hne. cbn [WithAttrs zerologHandler_Handler]. unfold zerolog_WithAttrs. replace (length l =? 0)%nat with false by (by destruct l).
  destruct (z_groups h) as [|frame frames] eqn:Hz; cbn [is_empty negb] in Hg.
  - pose proof (applyRoots_spec l (With (z_logger h)) (z_traceAttr h)) as [Hc Hb]. destruct (context_each _ _ _ _) as [c b]. cbn [fst snd] in *. split; cbn [z_logger z_traceAttr z_groups].
    + by rewrite context_of_context, Hc, Hl, before_group_snoc, Hg, render_all_app.
    + by rewrite Hb, Ht, before_group_snoc, Hg, has_key_app.
    + by rewrite grouped_app, Hg.
    + intros attrs. by rewrite from_group_snoc, Hg.
    + done.
  - split; cbn [z_logger z_traceAttr z_groups].
    + by rewrite before_group_snoc, Hg, app_nil_r.
    + by rewrite before_group_snoc, Hg, app_nil_r.
    + rewrite grouped_app, Hg. destruct frames; done.
    + intros attrs. by rewrite from_group_snoc, Hg, <- Hgs, add_last_frames.
    + by apply add_last_named.
Qed.

Lemma holds_WithGroup ops h n : holds ops h → n ≠ [] → holds (ops ++ [OpGroup n]) (WithGroup h n).
Proof.
  intros [Hl Ht Hg Hgs Hn] Hne. cbn [WithGroup zerologHandler_Handler]. unfold zerolog_WithGroup, str_eqb. rewrite bool_decide_eq_false_2 by done. split; cbn [z_logger z_traceAttr z_groups].
  - rewrite before_group_snoc. by destruct (grouped ops); rewrite app_nil_r.
  - rewrite before_group_snoc. by destruct (grouped ops); rewrite app_nil_r.
  - rewrite grouped_app. destruct n; [done|]. cbn. rewrite orb_true_r. by destruct (z_groups h).
  - intros attrs. rewrite from_group_snoc, frame_ops_app. cbn [frame_ops flat_map app fst snd]. change [OpGroup n; OpAttrs []] with ([OpGroup n] ++ [OpAttrs []]).
    rewrite app_assoc, (chain_attrs no_replacer), (chain_group no_replacer). apply Hgs.
  - apply Forall_app. split; [done|by repeat constructor].
Qed.

(** *** A record *)

Lemma buildGroupDict_spec frames r : Forall (fun f => f.1 ≠ []) frames → ∀ frame, adds NewDict (chain_fields no_replacer [] (OpAttrs frame.2 :: frame_ops frames) (r_attrs r)) (buildGroupDict frame frames r).
Proof.
  induction frames as [|next frames IH]; intros Hn frame; cbn [buildGroupDict]; pose proof (addAttrs_spec frame.2 NewDict) as Hd; destruct (add_each addAttrEvent NewDict frame.2) as [d w]; destruct Hd as [Hf Hw]; cbn [fst snd] in Hf, Hw.
  - cbn [frame_ops flat_map chain_fields]. set (step := fun acc ga => _).
    assert (Hg : ∀ l fs acc, adds NewDict fs acc → adds NewDict (fs ++ attrs_fields no_replacer [] l) (fold_left step l acc)).
    { induction l as [|a l IHl]; intros fs acc Hacc; [by rewrite app_nil_r|]. cbn [fold_left]. rewrite attrs_fields_cons, app_assoc. apply IHl. destruct Hacc as [H1 H2], (addAttr_spec (a_value a) (a_key a) acc.1) as [H3 H4].
      subst step. cbn beta. change (addAttrEvent acc.1 a) with (addAttrValue (a_value a) (a_key a) acc.1). destruct (addAttrValue (a_value a) (a_key a) acc.1) as [e1 w1]. cbn [fst snd] in *.
      split; cbn [fst snd]; [by rewrite H3, H1, render_all_app, app_assoc|]. rewrite H2, H4, is_empty_app. by destruct (is_empty fs), (is_empty _). }
    by apply Hg.
  - apply Forall_cons in Hn as [Hn1 Hn]. specialize (IH Hn next). destruct (buildGroupDict next frames r) as [child cw]. destruct IH as [Hc Hcw]. cbn [fst snd] in Hc, Hcw.
    cbn [frame_ops flat_map app chain_fields]. fold (frame_ops frames). change (attrs_fields no_replacer (inside [] next.1) next.2 ++ chain_fields no_replacer (inside [] next.1) (frame_ops frames) (r_attrs r))
      with (chain_fields no_replacer (inside [] next.1) (OpAttrs next.2 :: frame_ops frames) (r_attrs r)). rewrite plain_chain.
    set (X := chain_fields no_replacer [] (OpAttrs next.2 :: frame_ops frames) (r_attrs r)) in *. rewrite Hcw. destruct X as [|x X]; cbn [is_empty negb].
    + split; cbn [fst snd]; [by rewrite Hf, app_nil_r|]. by rewrite Hw, app_nil_r.
    + split; cbn [fst snd]; [by rewrite fields_Dict, Hc, Hf, fields_NewDict, render_all_app, render_nest, nest_named|].
      by rewrite is_empty_app, nest_empty, andb_false_r.
Qed.

Lemma writeRoot_spec (h : zerologHandler (context := context)) ctx e r : let fs := attrs_fields no_replacer [] (r_attrs r) in
  fields (writeRoot h ctx e r) = fields e ++ render_all fs ++ match z_traceIDFn h with Some f => if z_traceAttr h || has_key TraceIDKey fs then [] else [trace_field (f ctx)] | None => [] end.
Proof.
  cbn zeta. unfold writeRoot. set (step := fun acc a => _).
  assert (Hg : ∀ l e t, let acc := fold_left step l (e, t) in fields acc.1 = fields e ++ render_all (attrs_fields no_replacer [] l) ∧ acc.2 = t || has_key TraceIDKey (attrs_fields no_replacer [] l)).
  { induction l as [|a l IH]; intros e0 t; cbn zeta; [by rewrite app_nil_r, orb_false_r|]. cbn [fold_left]. rewrite attrs_fields_cons. destruct (addRoot_spec (a_value a) (a_key a) e0) as [[H1 _] H2].
    subst step. cbn beta. change (addRootAttrEvent (e0, t).1 a) with (addRootAttrValue (a_value a) (a_key a) e0). destruct (addRootAttrValue _ _ _) as [[e1 w] b]. cbn [fst snd] in *.
    destruct (IH e1 (t || b)) as [H3 H4]. cbn zeta in *. by rewrite H3, H4, H1, H2, render_all_app, has_key_app, app_assoc, orb_assoc. }
  destruct (Hg (r_attrs r) e (z_traceAttr h)) as [H1 H2]. destruct (fold_left _ _ _) as [e1 t]. cbn [fst snd] in *. subst t. unfold inject.
  destruct (z_traceIDFn h) as [f|]; [destruct (_ || _)|]; rewrite ?fields_Str, H1, ?app_nil_r, <- ?app_assoc; done.
Qed.

(** The built-in fields. *)
Definition source_node (src : Source) : node := NObj (leaf_field no_replacer [] <$> source_group src).

Definition builtin_fields (source : bool) (r : record) : list field :=
  [(LevelFieldName, NLeaf (LString (LevelName (r_level r))))] ++
  (if IsZeroTime (r_time r) then [] else [(TimestampFieldName, NLeaf (LString (RFC3339Nano (r_time r))))]) ++
  (if source then match r_source r with
    | Some src => if is_empty (source_group src) then [] else [(str "source", source_node src)]
    | None => [] end else []).

Lemma sourceDictOf_spec src : match sourceDictOf src with
  | Some d => ∃ s, src = Some s ∧ is_empty (source_group s) = false ∧ fields d = leaf_field no_replacer [] <$> source_group s
  | None => match src with Some s => is_empty (source_group s) = true | None => True end
  end.
Proof.
  destruct src as [s|]; [|done]. cbn [sourceDictOf]. rewrite source_empty. destruct (is_empty (source_group s)) eqn:He; [done|]. exists s. split; [done|]. split; [done|].
  rewrite <- sourceAttrs_group. unfold sourceAttrs, str_eqb. repeat case_bool_decide; destruct (Line s =? 0); cbn [app fmap list_fmap]; rewrite ?fields_Int64, ?fields_Str, ?fields_Str, ?fields_NewDict; done.
Qed.

(** All the fields of a line. *)
Definition zerolog_fields (id : option gostring) (source : bool) (ops : list op) (r : record) : list field :=
  let trace := match id with
    | Some id => if has_key TraceIDKey (chain_fields no_replacer [] ops (r_attrs r)) then [] else [trace_field id]
    | None => [] end in
  let rest := render_all (from_group ops (r_attrs r)) in
  render_all (before_group ops) ++ builtin_fields source r ++ (if grouped ops then trace ++ rest else rest ++ trace) ++ [(MessageFieldName, NLeaf (LString (r_message r)))].

Lemma inject_fields (f : option (context → gostring)) ctx has e : fields (inject f ctx has e) = fields e ++ match f with Some f => if has : bool then [] else [trace_field (f ctx)] | None => [] end.
Proof. destruct f as [f|], has; cbn [inject]; by rewrite ?fields_Str, ?app_nil_r. Qed.

Lemma holds_Handle ops h ctx r : holds ops h → Handle h ctx r = z_out h (line (zerolog_fields ((fun f => f ctx) <$> z_traceIDFn h) (z_source h) ops r)).
Proof.
  intros [Hl Ht Hg Hgs Hn]. cbn [Handle zerologHandler_Handler]. unfold zerolog_Handle. f_equal.
  set (e0 := Str (WithLevel (z_logger h)) LevelFieldName (LevelName (r_level r))). set (e1 := if IsZeroTime (r_time r) then e0 else _). set (e2 := if z_source h then _ else e1).
  assert (He2 : fields e2 = render_all (before_group ops) ++ builtin_fields (z_source h) r).
  { assert (He1 : fields e1 = render_all (before_group ops) ++ [(LevelFieldName, NLeaf (LString (LevelName (r_level r))))] ++ (if IsZeroTime (r_time r) then [] else [(TimestampFieldName, NLeaf (LString (RFC3339Nano (r_time r))))])).
    { subst e1 e0. destruct (IsZeroTime (r_time r)); rewrite ?fields_RawJSON, ?raw_time, fields_Str, fields_WithLevel, Hl, <- ?app_assoc; done. }
    subst e2. unfold builtin_fields. rewrite (app_assoc [_]), (app_assoc (render_all (before_group ops))), <- He1. pose proof (sourceDictOf_spec (r_source r)) as Hs. destruct (z_source h); [|by rewrite app_nil_r].
    destruct (sourceDictOf (r_source r)) as [d|].
    - destruct Hs as (s & -> & He & Hd). by rewrite He, fields_Dict, Hd.
    - destruct (r_source r) as [s|]; [rewrite Hs|]; by rewrite app_nil_r. }
  unfold zerolog_fields. rewrite chain_split, has_key_app, <- Ht, app_assoc, <- He2. clearbody e2. destruct (z_groups h) as [|frame frames] eqn:Hz; cbn [is_empty negb] in Hg; rewrite Hg.
  - rewrite Msg_line, writeRoot_spec, ungrouped_from by done. rewrite <- !app_assoc. by destruct (z_traceIDFn h).
  - apply Forall_cons in Hn as [Hn1 Hn]. pose proof (buildGroupDict_spec frames r Hn frame) as Hd. destruct (buildGroupDict frame frames r) as [d w]. destruct Hd as [Hd Hw]. cbn [fst snd] in Hd, Hw.
    assert (Hfrom : from_group ops (r_attrs r) = nest frame.1 (chain_fields no_replacer [] (OpAttrs frame.2 :: frame_ops frames) (r_attrs r))) by (rewrite <- Hgs; exact (f_equal (nest frame.1) (plain_chain (OpAttrs frame.2 :: frame_ops frames) (r_attrs r) (inside [] frame.1)))).
    rewrite Hfrom, Msg_line. set (X := chain_fields no_replacer [] (OpAttrs frame.2 :: frame_ops frames) (r_attrs r)) in *.
    rewrite has_key_nest, render_nest. replace (is_empty frame.1) with false by (by destruct frame.1). rewrite <- Hw, (andb_comm w). f_equal.
    destruct w; rewrite ?fields_Dict, inject_fields.
    + rewrite Hd, fields_NewDict. cbn [app]. rewrite nest_named by (try done; by destruct X). rewrite <- !app_assoc. by destruct (z_traceIDFn h).
    + replace X with ([] : list field) by (by destruct X). cbn [render_all map nest]. rewrite app_nil_r, <- !app_assoc. by destruct (z_traceIDFn h).
Qed.

(** *** The whole handler *)

Notation nonempty := (filter (fun o => op_empty o = false)).

Lemma before_group_nonempty ops : before_group (nonempty ops) = before_group ops.
Proof.
  induction ops as [|o ops IH]; [done|]. rewrite filter_cons. destruct o as [[|a l]|[|x n]]; cbn [op_empty is_empty]; case_decide; try done; cbn [before_group]; by rewrite IH.
Qed.

Lemma from_group_nonempty ops attrs : from_group (nonempty ops) attrs = from_group ops attrs.
Proof.
  induction ops as [|o ops IH]; [done|]. rewrite filter_cons. destruct o as [[|a l]|[|x n]]; cbn [op_empty is_empty]; case_decide; try done; cbn [from_group].
  by rewrite (chain_nonempty no_replacer).
Qed.

Lemma zerolog_fields_nonempty id source ops r : zerolog_fields id source (nonempty ops) r = zerolog_fields id source ops r.
Proof. unfold zerolog_fields. by rewrite before_group_nonempty, from_group_nonempty, (chain_nonempty no_replacer), grouped_nonempty. Qed.

Definition same_setup (h h' : zerologHandler (context := context)) : Prop :=
  z_out h' = z_out h ∧ z_traceIDFn h' = z_traceIDFn h ∧ z_minLevel h' = z_minLevel h ∧ z_source h' = z_source h.

Lemma apply_setup h o : same_setup h (apply_op h o).
Proof.
  destruct o as [l|n]; cbn; [unfold zerolog_WithAttrs|unfold zerolog_WithGroup].
  - destruct (_ =? 0)%nat; [done|]. destruct (z_groups h); [|done]. by destruct (context_each _ _ _ _).
  - by destruct (str_eqb n []).
Qed.

Lemma derive_setup ops : ∀ h, same_setup h (derive h ops).
Proof.
  induction ops as [|o ops IH]; intros h; [done|]. destruct (IH (apply_op h o)) as (H1 & H2 & H3 & H4), (apply_setup h o) as (H5 & H6 & H7 & H8).
  unfold same_setup. change (derive h (o :: ops)) with (derive (apply_op h o) ops). by rewrite H1, H2, H3, H4.
Qed.

Lemma derive_holds ops : ∀ h, holds [] h → holds (nonempty ops) (derive h ops).
Proof.
  induction ops as [|o ops IH] using rev_ind; intros h Hh; [done|]. rewrite derive_app, filter_app. specialize (IH h Hh). cbn [derive fold_left] in *. rewrite filter_cons, filter_nil.
  destruct o as [[|a l]|[|x n]]; cbn [op_empty is_empty]; case_decide; try done.
  - by rewrite app_nil_r.
  - by apply holds_WithAttrs.
  - rewrite app_nil_r. exact IH.
  - by apply holds_WithGroup.
Qed.

Context (console : list token → list output).

Definition base_handler (c : Config context) : zerologHandler (context := context) :=
  WithAttrs (MkZerolog NewLogger (writerByFormat console (Format c)) [] (TraceIDFn c) (Level c) (AddSource c) false) (CommonAttr c).

Lemma base_handler_lines (c : Config context) ops ctx r :
  Handle (derive (base_handler c) ops) ctx r =
    writerByFormat console (Format c) (line (zerolog_fields ((fun f => f ctx) <$> TraceIDFn c) (AddSource c) (OpAttrs (CommonAttr c) :: ops) r)).
Proof.
  unfold base_handler. set (h0 := MkZerolog NewLogger _ _ _ _ _ _). change (derive (WithAttrs h0 (CommonAttr c)) ops) with (derive h0 (OpAttrs (CommonAttr c) :: ops)).
  destruct (derive_setup (OpAttrs (CommonAttr c) :: ops) h0) as (H1 & H2 & _ & H4). erewrite holds_Handle.
  - rewrite zerolog_fields_nonempty, H1, H2, H4. done.
  - apply derive_holds. split; try done. cbn [z_logger h0]. by rewrite context_NewLogger.
Qed.

Lemma base_handler_enabled (c : Config context) ops (ctx : context) l : Enabled (derive (base_handler c) ops) ctx l = (Level c <=? l).
Proof.
  unfold base_handler. set (h0 := MkZerolog NewLogger _ _ _ _ _ _). destruct (derive_setup (OpAttrs (CommonAttr c) :: ops) h0) as (_ & _ & H3 & _).
  change (derive (WithAttrs h0 (CommonAttr c)) ops) with (derive h0 (OpAttrs (CommonAttr c) :: ops)). cbn [Enabled zerologHandler_Handler]. by rewrite H3.
Qed.

(** What a logger of the zerolog back end writes, whatever values its
    attributes hold and whatever these do when asked to render themselves,
    panics included: a record below the level is dropped, and one at it or
    above calls the hook once, if there is one, and hands one line to the
    writer: the built-in fields, each field the attributes stand for, rendered
    as zerolog renders it and in their order, the injected trace ID at the
    root unless the attributes put one there, and the message. *)
Lemma NewHandler_writes (c : Config context) ops ctx r :
  log (derive (NewHandler console c) ops) ctx r =
    if r_level r <? Level c then []
    else (if HookFn c then [Hooked (r_level r) (r_message r)] else []) ++
      writerByFormat console (Format c) (line (zerolog_fields ((fun f => f ctx) <$> TraceIDFn c) (AddSource c) (OpAttrs (CommonAttr c) :: ops) r)).
Proof.
  rewrite Z.ltb_antisym. unfold log, NewHandler. cbn zeta. fold (base_handler c).
  destruct (HookFn c); cbn [negb]; rewrite ?andb_false_r, ?andb_true_r.
  - rewrite derive_inr, derive_inr. unfold NewSlogHookHandler. rewrite derive_hook. cbn [Enabled Handle sum_Handler hook_handler_Handler hk_inner hk_set].
    rewrite base_handler_enabled, base_handler_lines. replace (zerolog_fields _ _ (OpAttrs (CommonAttr c) :: nonempty ops) r) with (zerolog_fields ((fun f => f ctx) <$> TraceIDFn c) (AddSource c) (OpAttrs (CommonAttr c) :: ops) r); [by destruct (_ <=? _)|].
    rewrite <- zerolog_fields_nonempty, <- (zerolog_fields_nonempty _ _ (OpAttrs _ :: nonempty ops)), !filter_cons. case_decide; by rewrite ?list_filter_filter_l.
  - destruct (Z.eqb_spec (Format c) FormatNone) as [->|]; rewrite ?derive_inl, ?derive_inr, ?derive_inl, ?derive_discard; cbn [Enabled Handle sum_Handler discard_Handler]; [by destruct (_ <=? _)|].
    rewrite base_handler_enabled, base_handler_lines. by destruct (_ <=? _).
Qed.
End Written.
