(* ===== verification/LogAgree.v ===== *)
(** * The two logging back ends agree

    Whatever is logged through the handlers of [logutil.Config.SlogHandler]
    and [logsrv.NewHandler] for one configuration, their lines hold the same
    fields, nested alike, the trace ID included; they differ in the built-in
    names, in where the trace ID stands, and in how a value is rendered. *)

From stdpp Require Import base option list.
From Stdlib Require Import String.
From S2P Require Import Prelude GoString GoText Slog LogSanitize LogHandler LogTrace LogConfig Zerolog LogSrv.

#[local] Open Scope Z_scope.

Section Agree.
Context `{G : GoValues} {Z : Zerolog} `{!ZerologLaws Z}.
Hypothesis time_plain : ∀ t, Forall (fun b => 32 <= b ∧ b ≠ 34 ∧ b ≠ 92) (RFC3339Nano t).
Hypothesis errors_kept : ∀ e, match ErrorMarshalFunc e with Ok MNil | Ok (MError true _) => False | _ => True end.

Notation rep := replaceLevelName.

(** One value in the two lines: a leaf is rendered by each back end in its
    own way, which for a level under its reserved key is its name and what
    zerolog makes of it. *)
Inductive renders : node → node → Prop :=
| renders_leaf l : renders (NLeaf l) (render (NLeaf l))
| renders_level l : ValidLevel l = true → renders (NLeaf (LString (LevelName l))) (render (NLeaf (LAny (AnyLevel l))))
| renders_obj fs gs : Forall2 (fun f g => f.1 = g.1 ∧ renders f.2 g.2) fs gs → renders (NObj fs) (NObj gs).

Definition same_field (f g : field) : Prop := f.1 = g.1 ∧ renders f.2 g.2.
Definition same_fields : list field → list field → Prop := Forall2 same_field.

Lemma same_nest key fs gs : same_fields fs (render_all gs) → same_fields (nest key fs) (render_all (nest key gs)).
Proof.
  intros Hs. rewrite render_nest. unfold nest. inversion Hs as [|f g fs' gs' Hf Hs' E1 E2]; [constructor|]. destruct (decide (key = [])); [by constructor|].
  constructor; [|constructor]. split; [done|]. apply renders_obj. by constructor.
Qed.

Lemma same_app fs fs' gs gs' : same_fields fs (render_all gs) → same_fields fs' (render_all gs') → same_fields (fs ++ fs') (render_all (gs ++ gs')).
Proof. intros H1 H2. rewrite render_all_app. by apply Forall2_app. Qed.

Lemma same_leaf key l : same_fields [(key, NLeaf l)] (render_all [(key, NLeaf l)]).
Proof. constructor; [|constructor]. split; [done|]. apply renders_leaf. Qed.

Lemma source_group_strings src a gs gs' : a ∈ source_group src → leaf_field rep gs a = leaf_field no_replacer gs' a.
Proof.
  intros Ha. unfold leaf_field, no_replacer. destruct (replaceLevelName_cases gs a.1 a.2) as [->|[(l & Hl & _)|(t & Ht & _)]]; [done|..]; exfalso; revert Ha;
    unfold source_group; repeat case_match; cbn [app]; intros Ha; set_unfold; naive_solver.
Qed.

Lemma same_scalar s gs key : same_fields (scalar_fields rep gs key s) (render_all (scalar_fields no_replacer [] key s)).
Proof.
  assert (Hs : same_fields (match s with AnyV (AnySource None) => [] | AnyV (AnySource (Some src)) => nest key (leaf_field rep (inside gs key) <$> source_group src)
      | AnyV (AnyError true _) => [] | AnyV AnyNil => if decide (key = []) then [] else [(key, NLeaf (LAny AnyNil))] | s => [(key, NLeaf (leaf_of s))] end)
    (render_all (scalar_fields no_replacer [] key s))).
  { unfold scalar_fields, no_replacer. destruct s as [x|x|x|x|x|x|x|[|[src|]|[] x|np o|l|x]]; try apply same_leaf; try constructor.
    - destruct (decide (key = [])); [constructor|apply same_leaf].
    - apply same_nest. assert (He : leaf_field rep (inside gs key) <$> source_group src = leaf_field (fun _ _ s => s) (inside [] key) <$> source_group src) by (apply list_fmap_ext; intros i a Ha%list_elem_of_lookup_2; by eapply source_group_strings).
      rewrite He. generalize (source_group src). intros l. induction l as [|a l IH]; [constructor|]. cbn. constructor; [|done]. split; [done|]. apply renders_leaf. }
  unfold scalar_fields at 1. destruct (replaceLevelName_cases gs key s) as [->|[(l & -> & Hv & -> & ->)|(t & -> & _ & -> & ->)]]; [by destruct s as [| | | | | | |[|[]|[]| | |]]| |apply same_leaf].
  constructor; [|constructor]. split; [done|]. by apply renders_level.
Qed.

Lemma same_value v : ∀ gs key, same_fields (value_fields rep v gs key) (render_all (value_fields no_replacer v [] key)).
Proof.
  induction v as [s|l IH] using value_ind'; intros gs key; [apply same_scalar|]. rewrite value_fields_group, plain_group. apply same_nest.
  induction IH as [|a l Ha _ IHl]; [constructor|]. rewrite !attrs_fields_cons. by apply same_app.
Qed.

Lemma same_attrs l gs : same_fields (attrs_fields rep gs l) (render_all (attrs_fields no_replacer [] l)).
Proof. induction l as [|a l IH]; [constructor|]. rewrite !attrs_fields_cons. apply same_app; [apply same_value|exact IH]. Qed.

Lemma same_chain ops attrs : ∀ gs, same_fields (chain_fields rep gs ops attrs) (render_all (chain_fields no_replacer [] ops attrs)).
Proof.
  induction ops as [|[l|n] ops IH]; intros gs; cbn [chain_fields]; [apply same_attrs|apply same_app; [apply same_attrs|apply IH]|]. rewrite plain_chain. by apply same_nest.
Qed.

Lemma same_has_key key fs gs : same_fields fs gs → has_key key fs = has_key key gs.
Proof. intros Hs. apply has_key_map. induction Hs as [|f g fs gs [Hf _] _ IH]; [done|]. cbn. by rewrite Hf, IH. Qed.

(** *** The order of the fields *)

(** The injected trace ID, if there is one. *)
Definition trace_of (id : option gostring) (common : list attr) (ops : list op) (attrs : list attr) : list field :=
  match id with
  | Some id => if has_key TraceIDKey (chain_fields rep [] (OpAttrs common :: ops) attrs) then [] else [trace_field id]
  | None => []
  end.

(** What slog writes in front of it and after it. *)
Definition ahead (common : list attr) (ops : list op) : list field :=
  if grouped ops then attrs_fields rep [] common else chain_fields rep [] (OpAttrs common :: ops) [].

Definition behind (ops : list op) (attrs : list attr) : list field :=
  if grouped ops then chain_fields rep [] ops attrs else attrs_fields rep [] attrs.

Lemma ahead_behind common ops attrs : chain_fields rep [] (OpAttrs common :: ops) attrs = ahead common ops ++ behind ops attrs.
Proof. unfold ahead, behind. destruct (grouped ops) eqn:Hg; [done|]. by apply (chain_ungrouped rep). Qed.

Lemma traced_order id common ops attrs :
  traced_fields id common ops attrs = ahead common ops ++ trace_of id common ops attrs ++ behind ops attrs.
Proof.
  unfold traced_fields, trace_of. destruct id as [id|]; [destruct (has_key _ _)|]; [apply ahead_behind| |apply ahead_behind].
  unfold ahead, behind. by destruct (grouped ops).
Qed.

(** What zerolog writes of them in front of the built-in fields and after. *)
Definition front (common : list attr) (ops : list op) : list field := render_all (before_group (OpAttrs common :: ops)).
Definition back (common : list attr) (ops : list op) (attrs : list attr) : list field :=
  render_all (from_group (OpAttrs common :: ops) attrs).

Lemma front_back common ops attrs :
  render_all (chain_fields no_replacer [] (OpAttrs common :: ops) attrs) = front common ops ++ back common ops attrs.
Proof. by rewrite chain_split, render_all_app. Qed.

Lemma same_order common ops attrs : same_fields (ahead common ops ++ behind ops attrs) (front common ops ++ back common ops attrs).
Proof. rewrite <- ahead_behind, <- front_back. apply same_chain. Qed.

Lemma zerolog_order id common ops source r : let t := trace_of id common ops (r_attrs r) in
  zerolog_fields id source (OpAttrs common :: ops) r = front common ops ++ builtin_fields source r ++
    (if grouped ops then t ++ back common ops (r_attrs r) else back common ops (r_attrs r) ++ t) ++
    [(MessageFieldName, NLeaf (LString (r_message r)))].
Proof.
  cbn zeta. unfold zerolog_fields, trace_of. 
  by rewrite <- (has_key_render _ (chain_fields no_replacer _ _ _)), <- (same_has_key _ _ _ (same_chain _ _ [])).
Qed.

Context {context text : Type} `{HT : !Handler context text} (NewTextHandler : BinNums.Z → bool → text) (console : list token → list output).

(** C24. The two back ends are interchangeable, if zerolog is left to render
    every error. For one configuration, neither console nor none, one
    chain of derived attributes and groups and one record, both drop the
    record or both write one line after the same calls of the hook. The line
    of slog is the built-in fields and the attributes in order, the trace ID
    among them; that of zerolog is the attributes outside any group, the
    built-in fields, the other attributes, the trace ID in front of them when
    a group is open and after them otherwise, and the message. The attributes
    are the same fields in the same order, nested under the same groups, each
    leaf rendered by its back end, and the trace ID is injected into both or
    into neither. *)
Theorem backends_agree (c : Config context) ops ctx r : Format c ≠ FormatConsole → Format c ≠ FormatNone →
  let slog := log (derive (SlogHandler NewTextHandler c) ops) ctx r in
  let zerolog := log (derive (NewHandler console c) ops) ctx r in
  let t := trace_of ((fun f => f ctx) <$> TraceIDFn c) (CommonAttr c) ops (r_attrs r) in
  let x := ahead (CommonAttr c) ops in
  let y := behind ops (r_attrs r) in
  let b := front (CommonAttr c) ops in
  let f := back (CommonAttr c) ops (r_attrs r) in
  (slog = [] ∧ zerolog = [] ∧ r_level r < Level c) ∨
  ∃ hooked, slog = hooked ++ [Written (line (attrs_fields rep [] (builtins (AddSource c) r) ++ x ++ t ++ y))] ∧
    zerolog = hooked ++ [Written (line (b ++ builtin_fields (AddSource c) r ++ (if grouped ops then t ++ f else f ++ t) ++
      [(MessageFieldName, NLeaf (LString (r_message r)))]))] ∧
    same_fields (x ++ y) (b ++ f).
Proof.
  intros Hc Hn. cbn zeta. rewrite (SlogHandler_writes NewTextHandler c ops ctx r Hc), (NewHandler_writes time_plain errors_kept console c ops ctx r).
  destruct (Z.ltb_spec (r_level r) (Level c)) as [Hl|_]; [by left|right]. rewrite traced_order, zerolog_order.
  eexists. rewrite (proj2 (Z.eqb_neq _ _) Hn). unfold writerByFormat. rewrite (proj2 (Z.eqb_neq (Format c) FormatConsole) Hc), (proj2 (Z.eqb_neq _ _) Hn).
  split; [done|]. split; [by destruct (Format c =? FormatJSON)|]. apply same_order.
Qed.
End Agree.

(** ** In use *)

Section InUse.
#[local] Existing Instance sample_values.

(** zerolog as lists of fields. An error renders as a text, other values
    panic. *)
Definition app_field (e : list field) (k : gostring) (n : node) : list field := e ++ [(k, n)].

#[local] Instance list_appender : Appender (list field) (list field) := {
  Str e k s := app_field e k (NLeaf (LString s));
  Int64 e k z := app_field e k (NLeaf (LInt z));
  Uint64 e k z := app_field e k (NLeaf (LUint z));
  Float64 e k f := app_field e k (NLeaf (LFloat f));
  Bool e k b := app_field e k (NLeaf (LBool b));
  RawJSON e k s := app_field e k (NLeaf (LString (removelast (tail s))));
  Interface e k a := match a with AnyOther _ => Panicked (str "boom") | _ => Ok (app_field e k (NLeaf (LAny a))) end;
  Dict e k d := app_field e k (NObj d)
}.

#[local] Instance list_zerolog : Zerolog := {
  Event := list field;
  ZContext := list field;
  Logger := list field;
  NewDict := [];
  With l := l;
  of_context c := c;
  WithLevel l := l;
  Msg e s := line (app_field e (str "message") (NLeaf (LString s)));
  NewLogger := [];
  LevelFieldName := str "level";
  TimestampFieldName := str "time";
  MessageFieldName := str "message";
  ErrorMarshalFunc _ := Ok (MString (str "failed"));
  Error _ := Ok (str "failed");
  MarshalZerologObject _ e := Ok (app_field e (str "x") (NLeaf (LInt 1)))
}.

#[local] Program Instance list_laws : ZerologLaws list_zerolog := {
  fields e := e;
  context_fields c := c;
  float_node f := NLeaf (LFloat f);
  raw_node s := NLeaf (LString (removelast (tail s)));
  interface_node a := match a with AnyOther _ => Panicked (str "boom") | _ => Ok (NLeaf (LAny a)) end;
  object_fields _ := Ok [(str "x", NLeaf (LInt 1))]
}.
Solve Obligations with done.
Next Obligation. by intros e k []. Qed.
Next Obligation. by intros c k []. Qed.
Next Obligation. intros s _. cbn [tail]. by rewrite removelast_last. Qed.

Lemma list_times : ∀ t, Forall (fun b => 32 <= b ∧ b ≠ 34 ∧ b ≠ 92) (RFC3339Nano t).
Proof. by intros []; repeat constructor. Qed.

Lemma list_errors : ∀ e, match ErrorMarshalFunc e with Ok MNil | Ok (MError true _) => False | _ => True end.
Proof. done. Qed.

(** An object that zerolog writes, an error, and a value that panics. *)
Definition agree_record : record := with_attrs sample_record (sample_attrs ++
  [Attr (str "o") (Scalar (AnyV (AnyObject false (tt : goobject)))); Attr (str "e") (Scalar (AnyV (AnyError false (tt : goerror)))); Attr (str "p") (Scalar (AnyV (AnyOther (tt : goother))))]).

Lemma backends_agree_witness :
  let c := sample_config (str "i") in
  let slog := log (derive (SlogHandler (text := unit) (fun _ _ => tt) c) [OpGroup (str "g")]) tt agree_record in
  let zerolog := log (derive (NewHandler (fun _ => []) c) [OpGroup (str "g")]) tt agree_record in
  zerolog = [Hooked LevelWarning (str "m"); Written (line [(str "app", NLeaf (LString (str "x"))); (str "level", NLeaf (LString (str "warning"))); (str "time", NLeaf (LString (str "2026-01-01")));
    (TraceIDKey, NLeaf (LString (str "i"))); (str "g", NObj [(str "t", NLeaf (LString (str "20000-01-01"))); (str "o", NObj [(str "x", NLeaf (LInt 1))]);
      (str "e", NLeaf (LString (str "failed"))); (str "p", NLeaf (LString (str "!PANIC: boom")))]); (str "message", NLeaf (LString (str "m")))])] ∧
  let t := trace_of (Some (str "i")) (CommonAttr c) [OpGroup (str "g")] (r_attrs agree_record) in
  let x := ahead (CommonAttr c) [OpGroup (str "g")] in
  let y := behind [OpGroup (str "g")] (r_attrs agree_record) in
  let b := front (CommonAttr c) [OpGroup (str "g")] in
  let f := back (CommonAttr c) [OpGroup (str "g")] (r_attrs agree_record) in
  ∃ hooked, slog = hooked ++ [Written (line (attrs_fields replaceLevelName [] (builtins false agree_record) ++ x ++ t ++ y))] ∧
    zerolog = hooked ++ [Written (line (b ++ builtin_fields false agree_record ++ (t ++ f) ++
      [(MessageFieldName, NLeaf (LString (r_message agree_record)))]))] ∧
    same_fields (x ++ y) (b ++ f).
Proof.
  cbn zeta. split; [vm_compute; reflexivity|].
  destruct (backends_agree (Z := list_zerolog) list_times list_errors (fun _ _ => tt) (fun _ => []) (sample_config (str "i")) [OpGroup (str "g")] tt agree_record) as [(_ & _ & Hl)|H]; [done|done|by vm_compute in Hl|exact H].
Defined.
End InUse.
