(* ===== verification/HTTPServer.v ===== *)
(** * [pkg/httpserver]: the life of a server

    httpserver.go: the callers of [StartServerCtx] and [Shutdown], the
    goroutine that monitors the shutdown signal and the one that serves, as
    the relation [sstep] over what one server holds. What they do to the wait
    group is the difference in its counter; a section under the mutex is one
    step. [http.Server] is known by what it documents: [Serve] returns once
    [Shutdown] has been called, or fails, and [Shutdown] returns when its
    context ends. *)

From stdpp Require Import base option list relations.
From S2P Require Import Prelude.

#[local] Open Scope Z_scope.

(** ** State *)

(** Who runs [Shutdown]: a caller, the monitor or the goroutine that serves;
    and how far it is: before and in [http.Server.Shutdown], at the [Once],
    in its body before the channel is closed and before the critical section,
    and past it. *)
Inductive kind : Type := KCaller | KMonitor | KServe.
Inductive phase : Type := PShut | PDrain | POnce | PClose | PMark | PAfter.

Inductive thread : Type :=
| TStart       (** in [StartServerCtx], before its critical section *)
| TMonitor     (** in the select *)
| TServe       (** in [http.Server.Serve] *)
| TPublish     (** which has failed *)
| TCall (k : kind) (p : phase)
| TExit.

#[local] Instance kind_eq_dec : EqDecision kind.
Proof. solve_decision. Defined.
#[local] Instance phase_eq_dec : EqDecision phase.
Proof. solve_decision. Defined.
#[local] Instance thread_eq_dec : EqDecision thread.
Proof. solve_decision. Defined.

Inductive once : Type := ONever | ODoing | ODone.

Record server : Type := Server {
  s_started : bool;
  s_stopped : bool;
  s_once : once;
  s_done : bool;          (** [shutdownDone] is closed *)
  s_monitorDone : bool;   (** [monitorDone] is closed *)
  s_serveErr : bool;      (** [serveErr] holds an error *)
  s_closing : bool;       (** [http.Server.Shutdown] has been called *)
  s_listener : bool;      (** the listener of a server never started is closed *)
  s_ctx : bool;           (** the context given to [StartServerCtx] has ended *)
  s_panicked : bool;      (** a closed channel was closed again *)
  s_launched : nat;       (** goroutines that serve *)
  s_threads : list thread
}.

(** [New]. *)
Definition new_server : server := Server false false ONever false false false false false false false 0 [].

Definition run_to (t : nat) (x : thread) (s : server) : server :=
  Server (s_started s) (s_stopped s) (s_once s) (s_done s) (s_monitorDone s) (s_serveErr s) (s_closing s) (s_listener s) (s_ctx s) (s_panicked s) (s_launched s) (<[t := x]> (s_threads s)).
Definition spawn (l : list thread) (s : server) : server :=
  Server (s_started s) (s_stopped s) (s_once s) (s_done s) (s_monitorDone s) (s_serveErr s) (s_closing s) (s_listener s) (s_ctx s) (s_panicked s) (s_launched s) (s_threads s ++ l).
Definition set_once (o : once) (s : server) : server :=
  Server (s_started s) (s_stopped s) o (s_done s) (s_monitorDone s) (s_serveErr s) (s_closing s) (s_listener s) (s_ctx s) (s_panicked s) (s_launched s) (s_threads s).
Definition set_closing (s : server) : server :=
  Server (s_started s) (s_stopped s) (s_once s) (s_done s) (s_monitorDone s) (s_serveErr s) true (s_listener s) (s_ctx s) (s_panicked s) (s_launched s) (s_threads s).
Definition end_ctx (s : server) : server :=
  Server (s_started s) (s_stopped s) (s_once s) (s_done s) (s_monitorDone s) (s_serveErr s) (s_closing s) (s_listener s) true (s_panicked s) (s_launched s) (s_threads s).
(** The error is kept if the channel is empty. *)
Definition publish_err (s : server) : server :=
  Server (s_started s) (s_stopped s) (s_once s) (s_done s) (s_monitorDone s) true (s_closing s) (s_listener s) (s_ctx s) (s_panicked s) (s_launched s) (s_threads s).
Definition close_done (s : server) : server :=
  Server (s_started s) (s_stopped s) (s_once s) true (s_monitorDone s) (s_serveErr s) (s_closing s) (s_listener s) (s_ctx s) (s_panicked s || s_done s) (s_launched s) (s_threads s).
Definition close_monitorDone (s : server) : server :=
  Server (s_started s) (s_stopped s) (s_once s) (s_done s) true (s_serveErr s) (s_closing s) (s_listener s) (s_ctx s) (s_panicked s || s_monitorDone s) (s_launched s) (s_threads s).

(** ** Operations *)

(** The critical section of [StartServerCtx], with the goroutines it is
    followed by, and what it adds to the wait group. *)
Definition StartServerCtx (t : nat) (s : server) : server * Z :=
  if s_started s || s_stopped s then (run_to t TExit s, 0)
  else
    let s := run_to t TExit s in
    (Server true (s_stopped s) (s_once s) (s_done s) (s_monitorDone s) (s_serveErr s) (s_closing s) (s_listener s) (s_ctx s) (s_panicked s) (S (s_launched s)) (s_threads s ++ [TMonitor; TServe]), 1).

(** The critical section of [Shutdown], in the body of its [Once]. *)
Definition mark_stopped (s : server) : server * Z :=
  (Server (s_started s) true ODone (s_done s) (s_monitorDone s) (s_serveErr s) (s_closing s) (if s_started s then s_listener s else true) (s_ctx s) (s_panicked s) (s_launched s) (s_threads s),
   if s_started s then -1 else 0).

(** What comes from outside (calls, contexts, failures of [Serve], and how
    long a caller's own [Shutdown] takes), and the work under way. *)
Inductive origin : Type := Outside | Work.

(** [signal]: the shutdown signal channel is closed. *)
Inductive sstep (signal : bool) : origin → server → Z → server → Prop :=
| s_call_start s : sstep signal Outside s 0 (spawn [TStart] s)
| s_call_shutdown s : sstep signal Outside s 0 (spawn [TCall KCaller PShut] s)
| s_ctx_ends s : sstep signal Outside s 0 (end_ctx s)
| s_serve_fails s t : s_threads s !! t = Some TServe → sstep signal Outside s 0 (run_to t TPublish s)
| s_caller_drained s t : s_threads s !! t = Some (TCall KCaller PDrain) → sstep signal Outside s 0 (run_to t (TCall KCaller POnce) s)
(** [StartServerCtx] and the monitor. *)
| s_start s t s' d : s_threads s !! t = Some TStart → StartServerCtx t s = (s', d) → sstep signal Work s d s'
| s_notified s t : s_threads s !! t = Some TMonitor → signal = true ∨ s_ctx s = true → sstep signal Work s 0 (run_to t (TCall KMonitor PShut) s)
| s_unblocked s t : s_threads s !! t = Some TMonitor → s_done s = true → sstep signal Work s 0 (close_monitorDone (run_to t TExit s))
(** [serve]. *)
| s_served s t : s_threads s !! t = Some TServe → s_closing s = true → sstep signal Work s 0 (run_to t TExit s)
| s_publish s t : s_threads s !! t = Some TPublish → sstep signal Work s 0 (publish_err (run_to t (TCall KServe PShut) s))
(** [Shutdown]; the goroutines give [http.Server.Shutdown] a timeout. *)
| s_shut s t k : s_threads s !! t = Some (TCall k PShut) → sstep signal Work s 0 (set_closing (run_to t (TCall k PDrain) s))
| s_drained s t k : s_threads s !! t = Some (TCall k PDrain) → k ≠ KCaller → sstep signal Work s 0 (run_to t (TCall k POnce) s)
| s_once_first s t k : s_threads s !! t = Some (TCall k POnce) → s_once s = ONever → sstep signal Work s 0 (set_once ODoing (run_to t (TCall k PClose) s))
| s_once_after s t k : s_threads s !! t = Some (TCall k POnce) → s_once s = ODone → sstep signal Work s 0 (run_to t (TCall k PAfter) s)
| s_close s t k : s_threads s !! t = Some (TCall k PClose) → sstep signal Work s 0 (close_done (run_to t (TCall k PMark) s))
| s_mark s t k s' d : s_threads s !! t = Some (TCall k PMark) → mark_stopped (run_to t (TCall k PAfter) s) = (s', d) → sstep signal Work s d s'
| s_return s t k : s_threads s !! t = Some (TCall k PAfter) →
    sstep signal Work s 0 (let s' := run_to t TExit s in match k with KMonitor => close_monitorDone s' | _ => s' end).

(** ** The invariant *)

Definition count (f : thread → bool) (s : server) : nat := sum_list_with (fun t => if f t then 1%nat else 0%nat) (s_threads s).

Definition is_monitor (t : thread) : bool := match t with TMonitor | TCall KMonitor _ => true | _ => false end.
Definition is_serve (t : thread) : bool := match t with TServe | TPublish | TCall KServe _ => true | _ => false end.
Definition is_closing (t : thread) : bool := match t with TCall _ PClose => true | _ => false end.
Definition is_marking (t : thread) : bool := match t with TCall _ PMark => true | _ => false end.
Definition is_after (t : thread) : bool := match t with TCall _ PAfter => true | _ => false end.

(** What the server owes the wait group. *)
Definition owed (s : server) : Z := if s_started s && negb (s_stopped s) then 1 else 0.

Record sinv (s : server) : Prop := SInv {
  si_once : (count is_closing s + count is_marking s = match s_once s with ODoing => 1 | _ => 0 end)%nat;
  si_done : s_done s = match s_once s with ONever => false | ODoing => (count is_marking s =? 1)%nat | ODone => true end;
  si_stopped : s_stopped s = match s_once s with ODone => true | _ => false end;
  si_after : (0 < count is_after s)%nat → s_once s = ODone;
  si_monitor : count is_monitor s = if s_started s && negb (s_monitorDone s) then 1%nat else 0%nat;
  si_monitorDone : s_monitorDone s = true → s_started s = true ∧ s_done s = true;
  si_serve : (count is_serve s <= if s_started s then 1 else 0)%nat;
  si_launched : s_launched s = if s_started s then 1%nat else 0%nat;
  si_listener : s_stopped s = true → s_started s = false → s_listener s = true;
  si_panicked : s_panicked s = false
}.

Lemma count_to f t x y s s' : s_threads s !! t = Some x → s_threads s' = <[t := y]> (s_threads s) →
  (count f s' + (if f x then 1 else 0) = count f s + (if f y then 1 else 0))%nat.
Proof. intros Hx Hs. unfold count. rewrite Hs. by apply (sum_list_insert (fun t => if f t then 1%nat else 0%nat)). Qed.

Lemma count_spawn f l s s' : s_threads s' = s_threads s ++ l → count f s' = (count f s + sum_list_with (fun t => if f t then 1 else 0) l)%nat.
Proof. intros Hs. unfold count. by rewrite Hs, sum_list_with_app. Qed.

Lemma count_in f s t x : s_threads s !! t = Some x → f x = true → (0 < count f s)%nat.
Proof. intros Hx Hf. unfold count. revert t Hx. induction (s_threads s) as [|y l IH]; intros [|t] Hx; try done; simpl in *; [simplify_eq; rewrite Hf; lia|]. specialize (IH t Hx). lia. Qed.

Lemma count_out f s : (0 < count f s)%nat → ∃ t x, s_threads s !! t = Some x ∧ f x = true.
Proof.
  unfold count. induction (s_threads s) as [|x l IH]; cbn; [lia|]. destruct (f x) eqn:Hx; [by exists 0%nat, x|]. intros Hf. destruct (IH Hf) as (u & y & Hu & Hy). by exists (S u), y.
Qed.

Lemma sinv_new : sinv new_server.
Proof. split; try done; cbn; lia. Qed.

(** The five counts after a thread has moved. *)
Ltac moved H :=
  lazymatch type of H with s_threads ?s !! ?t = Some ?x =>
    lazymatch goal with |- sinv ?s' =>
      pose proof (count_to is_closing t x _ s s' H eq_refl); pose proof (count_to is_marking t x _ s s' H eq_refl); pose proof (count_to is_after t x _ s s' H eq_refl);
      pose proof (count_to is_monitor t x _ s s' H eq_refl); pose proof (count_to is_serve t x _ s s' H eq_refl)
    end
  end.

#[local] Arguments count : simpl never.

(** The counts of a state after a thread has moved. *)
Ltac count_after H :=
  lazymatch type of H with s_threads ?s !! ?t = Some ?x =>
    lazymatch goal with |- sinv ?s' =>
      pose proof (count_to is_closing _ _ _ s s' H eq_refl) as Nclosing; pose proof (count_to is_marking _ _ _ s s' H eq_refl) as Nmarking;
      pose proof (count_to is_after _ _ _ s s' H eq_refl) as Nafter; pose proof (count_to is_monitor _ _ _ s s' H eq_refl) as Nmonitor;
      pose proof (count_to is_serve _ _ _ s s' H eq_refl) as Nserve
    end
  end; cbn [is_closing is_marking is_after is_monitor is_serve] in *.

(** A server whose threads alone have moved. *)
Lemma sinv_moved s s' : sinv s → s_started s' = s_started s → s_stopped s' = s_stopped s → s_once s' = s_once s → s_done s' = s_done s → s_monitorDone s' = s_monitorDone s →
  s_launched s' = s_launched s → s_listener s' = s_listener s → s_panicked s' = s_panicked s →
  count is_closing s' = count is_closing s → count is_marking s' = count is_marking s → count is_monitor s' = count is_monitor s → (count is_serve s' <= count is_serve s)%nat →
  ((0 < count is_after s')%nat → (0 < count is_after s)%nat ∨ s_once s = ODone) → sinv s'.
Proof.
  intros [H1 H2 H3 H4 H5 H6 H7 H8 H9 H10] E1 E2 E3 E4 E5 E6 E7 E8 C1 C2 C3 C4 C5.
  split; rewrite ?E1, ?E2, ?E3, ?E4, ?E5, ?E6, ?E7, ?E8, ?C1, ?C2, ?C3; try done; [|lia]. intros Hc. destruct (C5 Hc); auto.
Qed.

Lemma sinv_spawn l s : Forall (fun t => t = TStart ∨ t = TCall KCaller PShut) l → sinv s → sinv (spawn l s).
Proof.
  intros Hl Hs. assert (Hc : ∀ f, f TStart = false → f (TCall KCaller PShut) = false → count f (spawn l s) = count f s).
  { intros f F1 F2. rewrite (count_spawn f l s) by done. assert (H0 : sum_list_with (fun t => if f t then 1%nat else 0%nat) l = 0%nat); [|lia].
    induction Hl as [|t l [->| ->] _ IH]; [done|..]; cbn; rewrite ?F1, ?F2; exact IH. }
  apply (sinv_moved s); rewrite ?(Hc is_serve), ?(Hc is_after) by done; try done; [by apply Hc..|by left].
Qed.

(** The threads and what changes with them, one operation at a time. *)
Lemma sinv_start s t s' d : sinv s → s_threads s !! t = Some TStart → StartServerCtx t s = (s', d) → sinv s'.
Proof.
  intros Hs Ht Hst. unfold StartServerCtx in Hst. assert (Hrun : sinv (run_to t TExit s)) by (count_after Ht; apply (sinv_moved s); try done; lia).
  destruct (s_started s || s_stopped s) eqn:Hb; injection Hst as <- <-; [done|]. apply orb_false_iff in Hb as [Hstarted Hstopped].
  set (s0 := run_to t TExit s) in *. match goal with |- sinv ?s' => assert (Hc : ∀ f, count f s' = (count f s0 + sum_list_with (fun t => if f t then 1 else 0) [TMonitor; TServe])%nat) by (intros f; by apply count_spawn) end.
  destruct Hrun as [H1 H2 H3 H4 H5 H6 H7 H8 H9 H10]. cbn [s0 run_to s_started s_stopped s_once s_done s_monitorDone s_launched s_listener s_panicked] in *. rewrite Hstarted, ?Hstopped in *.
  split; cbn [s_started s_stopped s_once s_done s_monitorDone s_launched s_listener s_panicked]; rewrite ?Hc; cbn [sum_list_with is_closing is_marking is_after is_monitor is_serve]; rewrite ?Nat.add_0_r; try done.
  - destruct (s_monitorDone s); [by destruct (H6 eq_refl)|]. cbn in *. lia.
  - intros Hm. by destruct (H6 Hm).
  - lia.
  - by rewrite H8.
Qed.

Lemma sinv_monitor_exits s t x : sinv s → s_threads s !! t = Some x → x = TMonitor ∨ x = TCall KMonitor PAfter → s_done s = true → sinv (close_monitorDone (run_to t TExit s)).
Proof.
  intros Hs Ht Hx Hd. assert (Hmon : is_monitor x = true) by (by destruct Hx as [-> | ->]). pose proof (count_in is_monitor s t x Ht Hmon) as Hpos.
  count_after Ht. destruct Hs as [H1 H2 H3 H4 H5 H6 H7 H8 H9 H10].
  assert (Hcl : is_closing x = false ∧ is_marking x = false ∧ is_serve x = false) by (by destruct Hx as [-> | ->]). destruct Hcl as (Hcl & Hmk & Hsv). rewrite Hcl in Nclosing. rewrite Hmk in Nmarking. rewrite Hsv in Nserve. rewrite Hmon in Nmonitor.
  rewrite H5 in Hpos, Nmonitor. destruct (s_started s) eqn:Hst, (s_monitorDone s) eqn:Hm; cbn [andb negb] in *; try lia.
  split; cbn [close_monitorDone run_to s_started s_stopped s_once s_done s_monitorDone s_launched s_listener s_panicked]; rewrite ?Hst, ?Hm, ?H10; cbn [andb negb orb] in *; try done; try lia.
  - by replace (count is_marking _) with (count is_marking s) by lia.
  - intros Hc. apply H4. destruct (is_after x); lia.
Qed.

Lemma sinv_once s t k : sinv s → s_threads s !! t = Some (TCall k POnce) → s_once s = ONever → sinv (set_once ODoing (run_to t (TCall k PClose) s)).
Proof.
  intros Hs Ht Ho. count_after Ht. destruct Hs as [H1 H2 H3 H4 H5 H6 H7 H8 H9 H10]. rewrite Ho in *.
  split; cbn [set_once run_to s_started s_stopped s_once s_done s_monitorDone s_launched s_listener s_panicked] in *; try done; try (destruct k; lia).
  - rewrite H2. symmetry. apply Nat.eqb_neq. lia.
  - intros Hc. assert (0 < count is_after s)%nat as Hp by lia. by apply H4 in Hp.
Qed.

Lemma sinv_close s t k : sinv s → s_threads s !! t = Some (TCall k PClose) → sinv (close_done (run_to t (TCall k PMark) s)).
Proof.
  intros Hs Ht. pose proof (count_in is_closing s t _ Ht eq_refl) as Hpos. count_after Ht. destruct Hs as [H1 H2 H3 H4 H5 H6 H7 H8 H9 H10].
  assert (Ho : s_once s = ODoing) by (destruct (s_once s); lia || done). rewrite Ho in *. assert (Hd : s_done s = false) by (rewrite H2; apply Nat.eqb_neq; lia).
  split; cbn [close_done run_to s_started s_stopped s_once s_done s_monitorDone s_launched s_listener s_panicked] in *; rewrite ?Ho in *; try done; try (destruct k; lia).
  - symmetry. apply Nat.eqb_eq. lia.
  - intros Hc. apply H4. lia.
  - intros Hm. by destruct (H6 Hm).
  - by rewrite H10, Hd.
Qed.

Lemma sinv_mark s t k s' d : sinv s → s_threads s !! t = Some (TCall k PMark) → mark_stopped (run_to t (TCall k PAfter) s) = (s', d) → sinv s'.
Proof.
  intros Hs Ht Hm. injection Hm as <- <-. pose proof (count_in is_marking s t _ Ht eq_refl) as Hpos. count_after Ht. destruct Hs as [H1 H2 H3 H4 H5 H6 H7 H8 H9 H10].
  assert (Ho : s_once s = ODoing) by (destruct (s_once s); lia || done). rewrite Ho in *. assert (Hd : s_done s = true) by (rewrite H2; apply Nat.eqb_eq; lia).
  split; cbn [run_to s_started s_stopped s_once s_done s_monitorDone s_launched s_listener s_panicked] in *; try done; try (destruct k; lia).
  intros _ ->. done.
Qed.

Lemma after_done s t k : sinv s → s_threads s !! t = Some (TCall k PAfter) → s_once s = ODone ∧ s_done s = true.
Proof. intros Hs Ht. pose proof (count_in is_after s t _ Ht eq_refl) as Hpos. pose proof (si_after s Hs Hpos) as Ho. split; [done|]. rewrite (si_done s Hs). by rewrite Ho. Qed.

Lemma sinv_step signal o s d s' : sinv s → sstep signal o s d s' → sinv s'.
Proof.
  intros Hs Hstep. destruct Hstep as [s|s|s|s t Ht|s t Ht|s t s' d Ht Hst|s t Ht Hn|s t Ht Hd|s t Ht Hc|s t Ht|s t k Ht|s t k Ht Hk|s t k Ht Ho|s t k Ht Ho|s t k Ht|s t k s' d Ht Hm|s t k Ht].
  - apply sinv_spawn; [|done]. repeat constructor.
  - apply sinv_spawn; [|done]. constructor; [by right|constructor].
  - by destruct Hs.
  - count_after Ht. apply (sinv_moved s); try done; try lia.
  - count_after Ht. apply (sinv_moved s); try done; try lia.
  - by eapply sinv_start.
  - count_after Ht. apply (sinv_moved s); try done; try lia.
  - by apply (sinv_monitor_exits _ _ TMonitor); auto.
  - count_after Ht. apply (sinv_moved s); try done; try lia.
  - count_after Ht. apply (sinv_moved s); try done; try lia.
  - count_after Ht. apply (sinv_moved s); try done; destruct k; lia.
  - count_after Ht. apply (sinv_moved s); try done; destruct k; lia.
  - by apply sinv_once.
  - count_after Ht. apply (sinv_moved s); try done; try (destruct k; lia). by right.
  - by apply sinv_close.
  - by eapply sinv_mark.
  - destruct (after_done s t k Hs Ht) as [Ho Hd]. destruct k; [count_after Ht; apply (sinv_moved s); try done; lia|by apply (sinv_monitor_exits _ _ (TCall KMonitor PAfter)); auto|count_after Ht; apply (sinv_moved s); try done; lia].
Qed.

(** *** [http.Server.Shutdown] comes first *)

Definition is_past (t : thread) : bool := match t with TCall _ PShut => false | TCall _ _ => true | _ => false end.

Definition closing_first (s : server) : Prop := (0 < count is_past s)%nat ∨ s_once s ≠ ONever → s_closing s = true.

Lemma past_moves s s' t x y : closing_first s → s_threads s !! t = Some x → s_threads s' = <[t := y]> (s_threads s) → implb (is_past y) (is_past x) = true →
  s_once s' = s_once s → s_closing s' = s_closing s → closing_first s'.
Proof.
  intros Hs Hx Hs' Hxy Ho Hc [Hp|Hp]; rewrite Hc; apply Hs; [left|right; by rewrite <- Ho]. pose proof (count_to is_past t x y s s' Hx Hs') as Hn.
  destruct (is_past x) eqn:Ex; [by eapply count_in|]. destruct (is_past y); [done|lia].
Qed.

Lemma closing_first_step signal o s d s' : closing_first s → sstep signal o s d s' → closing_first s'.
Proof.
  intros Hs Hstep. destruct Hstep as [s|s|s|s t Ht|s t Ht|s t s' d Ht Hst|s t Ht Hn|s t Ht Hd|s t Ht Hc|s t Ht|s t k Ht|s t k Ht Hk|s t k Ht Ho|s t k Ht Ho|s t k Ht|s t k s' d Ht Hm|s t k Ht];
    try (eapply past_moves; [exact Hs|exact Ht|reflexivity..]).
  - unfold closing_first. rewrite (count_spawn is_past [TStart] s) by done. cbn [sum_list_with is_past s_once spawn s_closing]. by rewrite !Nat.add_0_r.
  - unfold closing_first. rewrite (count_spawn is_past [TCall KCaller PShut] s) by done. cbn [sum_list_with is_past s_once spawn s_closing]. by rewrite !Nat.add_0_r.
  - exact Hs.
  - assert (Hr : closing_first (run_to t TExit s)) by (by eapply past_moves). unfold StartServerCtx in Hst. destruct (_ || _); injection Hst as <- <-; [done|].
    unfold closing_first. rewrite (count_spawn is_past [TMonitor; TServe] (run_to t TExit s)) by done. cbn [sum_list_with is_past]. rewrite !Nat.add_0_r. exact Hr.
  - done.
  - intros _. cbn. apply Hs. left. by eapply count_in.
  - injection Hm as <- <-. intros _. cbn. apply Hs. left. by eapply count_in.
  - destruct k; (eapply past_moves; [exact Hs|exact Ht|reflexivity..]).
Qed.

(** *** The wait group *)

Lemma owed_step signal o s d s' : sinv s → sstep signal o s d s' → owed s' = owed s + d.
Proof.
  intros Hs Hstep. destruct Hstep as [s|s|s|s t Ht|s t Ht|s t s' d Ht Hst|s t Ht Hn|s t Ht Hd|s t Ht Hc|s t Ht|s t k Ht|s t k Ht Hk|s t k Ht Ho|s t k Ht Ho|s t k Ht|s t k s' d Ht Hm|s t k Ht];
    try (unfold owed; cbn; lia).
  - unfold StartServerCtx in Hst. destruct (s_started s) eqn:H1; [injection Hst as <- <-; unfold owed; cbn; lia|]. destruct (s_stopped s) eqn:H2; injection Hst as <- <-; unfold owed; cbn; rewrite ?H1, ?H2; done.
  - injection Hm as <- <-. pose proof (count_in is_marking s t _ Ht eq_refl) as Hpos. pose proof (si_once s Hs) as Ho. pose proof (si_stopped s Hs) as Hst.
    unfold owed. cbn. destruct (s_once s); [lia| |lia]. rewrite Hst. by destruct (s_started s).
  - unfold owed. destruct k; cbn; lia.
Qed.

Lemma owed_range s : 0 <= owed s <= 1.
Proof. unfold owed. destruct (_ && _); lia. Qed.

(** *** The work under way *)

Definition thread_work (t : thread) : nat :=
  match t with
  | TStart => 10 | TMonitor => 7 | TPublish => 7 | TServe => 1
  | TCall _ PShut => 6 | TCall _ PDrain => 5 | TCall _ POnce => 4 | TCall _ PClose => 3 | TCall _ PMark => 2 | TCall _ PAfter => 1
  | TExit => 0
  end.

Definition server_work (s : server) : nat := sum_list_with thread_work (s_threads s).

Lemma work_moves s s' t x y : s_threads s !! t = Some x → s_threads s' = <[t := y]> (s_threads s) → (thread_work y < thread_work x)%nat → (server_work s' < server_work s)%nat.
Proof. intros Hx Hs' Hw. unfold server_work. rewrite Hs'. pose proof (sum_list_insert thread_work _ t x y Hx). lia. Qed.

Lemma server_work_decreases signal s d s' : sstep signal Work s d s' → (server_work s' < server_work s)%nat.
Proof.
  intros Hs. remember Work as o eqn:Ho. destruct Hs as [s|s|s|s t Ht|s t Ht|s t s' d Ht Hst|s t Ht Hn|s t Ht Hd|s t Ht Hc|s t Ht|s t k Ht|s t k Ht Hk|s t k Ht Ho'|s t k Ht Ho'|s t k Ht|s t k s' d Ht Hm|s t k Ht]; try done;
    try (eapply work_moves; [exact Ht|reflexivity|cbn; lia]).
  - unfold StartServerCtx in Hst. destruct (_ || _); injection Hst as <- <-; [eapply work_moves; [exact Ht|reflexivity|cbn; lia]|].
    unfold server_work. cbn [s_threads run_to]. rewrite sum_list_with_app. pose proof (sum_list_insert thread_work _ t _ TExit Ht) as Hn. cbn in *. lia.
  - injection Hm as <- <-. eapply work_moves; [exact Ht|reflexivity|cbn; lia].
  - destruct k; (eapply work_moves; [exact Ht|reflexivity|cbn; lia]).
Qed.

(** A server that has been told to stop: all its goroutines have ended, but
    for callers whose own [http.Server.Shutdown] is still waiting. *)
Definition gone (t : thread) : Prop := t = TExit ∨ t = TCall KCaller PDrain.
Definition shut_down (s : server) : Prop := Forall gone (s_threads s) ∧ owed s = 0.

Lemma once_moves s signal t k : sinv s → s_threads s !! t = Some (TCall k POnce) → ∃ d s', sstep signal Work s d s'.
Proof.
  intros Hs Ht. destruct (s_once s) eqn:Ho; [by eexists _, _; eapply s_once_first| |by eexists _, _; eapply s_once_after].
  pose proof (si_once s Hs) as Hc. rewrite Ho in Hc.
  assert (Hex : ∃ u x, s_threads s !! u = Some x ∧ (is_closing x = true ∨ is_marking x = true)).
  { destruct (decide (0 < count is_closing s)%nat) as [Hp|Hp]; [destruct (count_out _ _ Hp) as (u & x & ? & ?); eauto|].
    destruct (count_out is_marking s) as (u & x & ? & ?); [lia|eauto]. }
  destruct Hex as (u & x & Hu & [Hx|Hx]); destruct x as [| | | |k' []|]; try done; [by eexists _, _; eapply s_close|]. eexists _, _. eapply s_mark; [exact Hu|]. unfold mark_stopped. done.
Qed.

Lemma server_works_on s : sinv s → closing_first s → shut_down s ∨ ∃ d s', sstep true Work s d s'.
Proof.
  intros Hs Hcl. destruct (decide (Forall (fun t => t = TExit ∨ t = TCall KCaller PDrain ∨ t = TServe) (s_threads s))) as [Hall|Hn].
  - assert (Hno : ∀ f, f TExit = false → f (TCall KCaller PDrain) = false → f TServe = false → count f s = 0%nat).
    { intros f F1 F2 F3. unfold count. induction Hall as [|t l Ht _ IH]; [done|]. cbn. destruct Ht as [->|[->| ->]]; rewrite ?F1, ?F2, ?F3; exact IH. }
    pose proof (si_monitor s Hs) as Hm. rewrite Hno in Hm by done. pose proof (si_once s Hs) as Ho. rewrite !Hno in Ho by done.
    destruct (s_started s) eqn:Hst; cbn [andb] in Hm.
    + destruct (s_monitorDone s) eqn:Hmd; cbn in Hm; [|done]. destruct (si_monitorDone s Hs Hmd) as [_ Hd]. pose proof (si_done s Hs) as Hd'. rewrite Hd in Hd'.
      destruct (s_once s) eqn:Hon; [done|done|]. assert (Hclosing : s_closing s = true) by (apply Hcl; right; by rewrite Hon).
      destruct (decide (TServe ∈ s_threads s)) as [Hin|Hnin].
      * apply list_elem_of_lookup in Hin as [t Ht]. right. eexists _, _. by eapply s_served.
      * left. split; [|unfold owed; rewrite (si_stopped s Hs), Hon, Hst; done]. apply Forall_forall. intros t Ht. rewrite Forall_forall in Hall. destruct (Hall t Ht) as [->|[->| ->]]; [by left|by right|done].
    + left. split; [|unfold owed; by rewrite Hst]. apply Forall_forall. intros t Ht. rewrite Forall_forall in Hall. destruct (Hall t Ht) as [->|[->| ->]]; [by left|by right|].
      apply list_elem_of_lookup in Ht as [i Hi]. pose proof (count_in is_serve s i _ Hi eq_refl). pose proof (si_serve s Hs) as Hse. rewrite Hst in Hse. lia.
  - right. apply not_Forall_Exists, Exists_exists in Hn as (x & Hin & Hx); [|apply _]. apply list_elem_of_lookup in Hin as [t Ht].
    destruct x as [| | | |k p|]; try (exfalso; apply Hx; by auto).
    + unfold StartServerCtx. destruct (StartServerCtx t s) as [s' d] eqn:Hst. eexists _, _. by eapply s_start.
    + eexists _, _. eapply s_notified; [exact Ht|by left].
    + eexists _, _. by eapply s_publish.
    + destruct p; [by eexists _, _; eapply s_shut| |by eapply once_moves|by eexists _, _; eapply s_close|eexists _, _; by eapply s_mark|by eexists _, _; eapply s_return].
      destruct k; [exfalso; apply Hx; auto|by eexists _, _; eapply s_drained|by eexists _, _; eapply s_drained].
Qed.
