(* ===== verification/Bootstrap.v ===== *)
(** * [pkg/bootstrap]: the life of a service

    bootstrap.go, config.go and options.go, with the servers of
    [pkg/httpserver] that share its wait group and its shutdown channel: the
    run of [Bootstrap] next to the goroutines of every server, as the relation
    [step]. Whatever the interleaving, nothing is closed twice and the wait
    group never runs below zero; once the shutdown is broadcast every server
    started is shut down, and [Bootstrap] returns. *)

From stdpp Require Import base option list relations.
From S2P Require Import Prelude HTTPServer.

#[local] Open Scope Z_scope.

(** ** Configuration *)

Inductive boot_error : Type :=
| ErrNilBindFunc
| ErrNilContext
| ErrNilCreateLoggerFunc
| ErrNilLogConfig
| ErrNilCreateMetricsClientFunc
| ErrInvalidShutdownTimeout
| ErrNilShutdownWaitGroup
| ErrNilShutdownSignalChan
| ErrMetricsClient
| ErrBind
| ErrShutdownTimeout.

(** [config]: for what is only checked, whether it is not nil. *)
Record config : Type := MkConfig {
  c_context : bool;
  c_logConfig : bool;
  c_logConfigSet : bool;
  c_createLoggerFunc : bool;
  c_createMetricsClientFunc : bool;
  c_shutdownTimeout : Z;
  c_shutdownWaitGroup : bool;
  c_shutdownSignalChan : bool
}.

Definition defaultConfig : config := MkConfig true false false true true (30 * 1000000000) true true.

Definition Option : Type := config → config.

Definition WithContext (ctx : bool) : Option := fun c =>
  MkConfig ctx (c_logConfig c) (c_logConfigSet c) (c_createLoggerFunc c) (c_createMetricsClientFunc c) (c_shutdownTimeout c) (c_shutdownWaitGroup c) (c_shutdownSignalChan c).
Definition WithLogConfig (l : bool) : Option := fun c =>
  MkConfig (c_context c) l true true (c_createMetricsClientFunc c) (c_shutdownTimeout c) (c_shutdownWaitGroup c) (c_shutdownSignalChan c).
Definition WithLogger : Option := fun c =>
  MkConfig (c_context c) (c_logConfig c) (c_logConfigSet c) true (c_createMetricsClientFunc c) (c_shutdownTimeout c) (c_shutdownWaitGroup c) (c_shutdownSignalChan c).
Definition WithCreateLoggerFunc (fn : bool) : Option := fun c =>
  MkConfig (c_context c) (c_logConfig c) (c_logConfigSet c) fn (c_createMetricsClientFunc c) (c_shutdownTimeout c) (c_shutdownWaitGroup c) (c_shutdownSignalChan c).
Definition WithCreateMetricsClientFunc (fn : bool) : Option := fun c =>
  MkConfig (c_context c) (c_logConfig c) (c_logConfigSet c) (c_createLoggerFunc c) fn (c_shutdownTimeout c) (c_shutdownWaitGroup c) (c_shutdownSignalChan c).
Definition WithShutdownTimeout (timeout : Z) : Option := fun c =>
  MkConfig (c_context c) (c_logConfig c) (c_logConfigSet c) (c_createLoggerFunc c) (c_createMetricsClientFunc c) timeout (c_shutdownWaitGroup c) (c_shutdownSignalChan c).
Definition WithShutdownWaitGroup (wg : bool) : Option := fun c =>
  MkConfig (c_context c) (c_logConfig c) (c_logConfigSet c) (c_createLoggerFunc c) (c_createMetricsClientFunc c) (c_shutdownTimeout c) wg (c_shutdownSignalChan c).
Definition WithShutdownSignalChan (ch : bool) : Option := fun c =>
  MkConfig (c_context c) (c_logConfig c) (c_logConfigSet c) (c_createLoggerFunc c) (c_createMetricsClientFunc c) (c_shutdownTimeout c) (c_shutdownWaitGroup c) ch.

Definition validate (c : config) : result boot_error unit :=
  if negb (c_context c) then Error ErrNilContext
  else if negb (c_createLoggerFunc c) then Error ErrNilCreateLoggerFunc
  else if c_logConfigSet c && negb (c_logConfig c) then Error ErrNilLogConfig
  else if negb (c_createMetricsClientFunc c) then Error ErrNilCreateMetricsClientFunc
  else if c_shutdownTimeout c <=? 0 then Error ErrInvalidShutdownTimeout
  else if negb (c_shutdownWaitGroup c) then Error ErrNilShutdownWaitGroup
  else if negb (c_shutdownSignalChan c) then Error ErrNilShutdownSignalChan
  else Ok tt.

(** ** A run *)

(** [Bootstrap]: creating the metrics client; in [bindFn]; waiting for the
    shutdown; about to close the channel, and to cancel the context; in
    [syncWaitGroupTimeout]; about to close the metrics client; returned. *)
Inductive phase : Type :=
| BMetrics
| BBinding
| BWaiting
| BBroadcast
| BCancel
| BSync
| BClosing (err : option boot_error)
| BReturned (err : option boot_error).

Record world : Type := World {
  w_phase : phase;
  w_signal : bool;     (** the shutdown channel is closed *)
  w_quit : bool;       (** a termination signal has arrived *)
  w_ctx : bool;        (** the application context has ended *)
  w_wg : Z;            (** the counter of the wait group *)
  w_others : nat;      (** what other dependants have added to it *)
  w_created : bool;    (** there is a metrics client *)
  w_closed : nat;      (** how often it was closed *)
  w_panicked : bool;
  w_servers : list server
}.

(** The start of [Bootstrap], until the metrics client is created. *)
Definition enter (bind : bool) (opts : list Option) : phase :=
  if negb bind then BReturned (Some ErrNilBindFunc)
  else match validate (fold_left (fun c opt => opt c) opts defaultConfig) with
  | Error e => BReturned (Some e)
  | Ok _ => BMetrics
  end.

Definition initial (bind : bool) (opts : list Option) : world := World (enter bind opts) false false false 0 0 false 0 false [].

Definition phase_to (p : phase) (w : world) : world :=
  World p (w_signal w) (w_quit w) (w_ctx w) (w_wg w) (w_others w) (w_created w) (w_closed w) (w_panicked w) (w_servers w).
Definition created (w : world) : world :=
  World (w_phase w) (w_signal w) (w_quit w) (w_ctx w) (w_wg w) (w_others w) true (w_closed w) (w_panicked w) (w_servers w).
Definition arrive (quit ctx : bool) (w : world) : world :=
  World (w_phase w) (w_signal w) (w_quit w || quit) (w_ctx w || ctx) (w_wg w) (w_others w) (w_created w) (w_closed w) (w_panicked w) (w_servers w).
(** Closing a closed channel panics. *)
Definition close_signal (w : world) : world :=
  World (w_phase w) true (w_quit w) (w_ctx w) (w_wg w) (w_others w) (w_created w) (w_closed w) (w_panicked w || w_signal w) (w_servers w).
Definition closeMetricsClient (w : world) : world :=
  World (w_phase w) (w_signal w) (w_quit w) (w_ctx w) (w_wg w) (w_others w) (w_created w) (S (w_closed w)) (w_panicked w) (w_servers w).
(** So does a negative counter. *)
Definition wg_add (d : Z) (w : world) : world :=
  World (w_phase w) (w_signal w) (w_quit w) (w_ctx w) (w_wg w + d) (w_others w) (w_created w) (w_closed w) (w_panicked w || (w_wg w + d <? 0)) (w_servers w).
Definition set_others (n : nat) (w : world) : world :=
  World (w_phase w) (w_signal w) (w_quit w) (w_ctx w) (w_wg w) n (w_created w) (w_closed w) (w_panicked w) (w_servers w).
Definition set_servers (l : list server) (w : world) : world :=
  World (w_phase w) (w_signal w) (w_quit w) (w_ctx w) (w_wg w) (w_others w) (w_created w) (w_closed w) (w_panicked w) l.

Inductive step : origin → world → world → Prop :=
(** The servers, and other dependants. *)
| step_new w : step Outside w (set_servers (w_servers w ++ [new_server]) w)
| step_server w o i s d s' : w_servers w !! i = Some s → sstep (w_signal w) o s d s' → step o w (wg_add d (set_servers (<[i := s']> (w_servers w)) w))
| step_other_adds w : step Outside w (wg_add 1 (set_others (S (w_others w)) w))
| step_other_done w n : w_others w = S n → step Outside w (wg_add (-1) (set_others n w))
(** [Bootstrap]. *)
| step_metrics_fails w : w_phase w = BMetrics → step Outside w (phase_to (BReturned (Some ErrMetricsClient)) w)
| step_metrics w : w_phase w = BMetrics → step Outside w (created (phase_to BBinding w))
| step_bind_fails w : w_phase w = BBinding → step Outside w (phase_to (BClosing (Some ErrBind)) w)
| step_bound w : w_phase w = BBinding → step Outside w (phase_to BWaiting w)
| step_quit w : step Outside w (arrive true false w)
| step_ctx_ends w : step Outside w (arrive false true w)
| step_waitForShutdown w : w_phase w = BWaiting → w_quit w = true ∨ w_ctx w = true → step Work w (phase_to BBroadcast w)
| step_broadcast w : w_phase w = BBroadcast → step Work w (close_signal (phase_to BCancel w))
| step_cancel w : w_phase w = BCancel → step Work w (arrive false true (phase_to BSync w))
| step_completed w : w_phase w = BSync → w_wg w = 0 → step Work w (phase_to (BClosing None) w)
| step_timeout w : w_phase w = BSync → step Outside w (phase_to (BClosing (Some ErrShutdownTimeout)) w)
| step_close_metrics w e : w_phase w = BClosing e → step Work w (closeMetricsClient (phase_to (BReturned e) w)).

Definition steps (w w' : world) : Prop := ∃ o, step o w w'.
Definition works (w w' : world) : Prop := step Work w w'.

(** ** The invariant *)

Fixpoint all_owed (l : list server) : Z :=
  match l with [] => 0 | s :: l => owed s + all_owed l end.

Definition phase_ok (w : world) : Prop :=
  match w_phase w with
  | BMetrics => w_signal w = false ∧ w_created w = false ∧ w_closed w = 0%nat
  | BBinding | BWaiting | BBroadcast => w_signal w = false ∧ w_created w = true ∧ w_closed w = 0%nat
  | BCancel | BSync => w_signal w = true ∧ w_created w = true ∧ w_closed w = 0%nat
  | BClosing e => w_created w = true ∧ w_closed w = 0%nat ∧ (w_signal w = true ↔ e = None ∨ e = Some ErrShutdownTimeout)
  | BReturned e => w_closed w = (if w_created w then 1 else 0)%nat ∧ (w_signal w = true ↔ e = None ∨ e = Some ErrShutdownTimeout)
  end.

Record winv (w : world) : Prop := WInv {
  wi_servers : Forall (fun s => sinv s ∧ closing_first s) (w_servers w);
  wi_wg : w_wg w = Z.of_nat (w_others w) + all_owed (w_servers w);
  wi_phase : phase_ok w;
  wi_panicked : w_panicked w = false
}.

Lemma all_owed_app l k : all_owed (l ++ k) = all_owed l + all_owed k.
Proof. induction l as [|s l IH]; [done|]. cbn in *. rewrite IH. lia. Qed.

Lemma all_owed_nonneg l : 0 <= all_owed l.
Proof. induction l as [|s l IH]; [done|]. cbn. pose proof (owed_range s). lia. Qed.

Lemma all_owed_insert l i s s' d : l !! i = Some s → owed s' = owed s + d → all_owed (<[i := s']> l) = all_owed l + d.
Proof. revert i. induction l as [|x l IH]; intros [|i] Hi Hd; try done; [cbn in *; simplify_eq; lia|]. change (owed x + all_owed (<[i:=s']> l) = owed x + all_owed l + d). rewrite (IH i Hi Hd). lia. Qed.

Lemma all_owed_zero l : all_owed l = 0 → Forall (fun s => owed s = 0) l.
Proof. induction l as [|s l IH]; [constructor|]. cbn. pose proof (owed_range s). pose proof (all_owed_nonneg l). intros Hz. constructor; [lia|apply IH; lia]. Qed.

Lemma enter_error bind opts e : enter bind opts = BReturned e → ∃ x, e = Some x ∧ x ≠ ErrShutdownTimeout.
Proof.
  unfold enter. destruct bind; cbn [negb]; [|intros [= <-]; by eexists]. unfold validate. repeat (case_match; try discriminate); simplify_eq; intros [= <-]; by eexists.
Qed.

Lemma winv_initial bind opts : winv (initial bind opts).
Proof.
  split; try done. unfold phase_ok. cbn [initial w_phase w_signal w_created w_closed]. destruct (enter bind opts) eqn:He; try done; try (unfold enter in He; destruct bind; [destruct (validate _)|]; done).
  split; [done|]. destruct (enter_error _ _ _ He) as (x & -> & Hx). split; [done|]. intros [?|[= ->]]; done.
Qed.

Lemma winv_step o w w' : winv w → step o w w' → winv w'.
Proof.
  intros [Hs Hwg Hp Hpan] Hstep. destruct Hstep as [w|w o i s d s' Hi Hss|w|w n Hn|w Hph|w Hph|w Hph|w Hph|w|w|w Hph Hq|w Hph|w Hph|w Hph H0|w Hph|w e Hph].
  - split; [|cbn; rewrite all_owed_app; cbn; lia|exact Hp|done]. apply Forall_app. split; [done|]. constructor; [|constructor]. split; [apply sinv_new|]. intros [Hc|Hc]; [cbn in Hc; lia|done].
  - assert (Hsi : sinv s ∧ closing_first s) by (by apply (Forall_lookup_1 _ _ _ _ Hs Hi)). destruct Hsi as [H1 H2]. pose proof (owed_step _ _ _ _ _ H1 Hss) as Hd.
    pose proof (all_owed_insert _ _ _ _ _ Hi Hd) as Ha. pose proof (all_owed_nonneg (<[i:=s']> (w_servers w))) as Hn. split; cbn.
    + apply Forall_insert; [done|]. split; [by eapply sinv_step|by eapply closing_first_step].
    + lia.
    + exact Hp.
    + rewrite Hpan. apply Z.ltb_ge. lia.
  - split; cbn; [done|lia|exact Hp|]. rewrite Hpan. apply Z.ltb_ge. pose proof (all_owed_nonneg (w_servers w)). lia.
  - split; cbn; [done|lia|exact Hp|]. rewrite Hpan. apply Z.ltb_ge. pose proof (all_owed_nonneg (w_servers w)). lia.
  - split; cbn; try done. unfold phase_ok in *. rewrite Hph in Hp. cbn. destruct Hp as (H1 & H2 & H3). rewrite H1, H2. split; [done|]. split; [done|]. by intros [?|?].
  - split; cbn; try done. unfold phase_ok in *. rewrite Hph in Hp. cbn. by destruct Hp as (H1 & H2 & H3).
  - split; cbn; try done. unfold phase_ok in *. rewrite Hph in Hp. cbn. destruct Hp as (H1 & H2 & H3). rewrite H1. split_and!; [done..|]. split; [done|]. by intros [?|?].
  - split; cbn; try done. unfold phase_ok in *. rewrite Hph in Hp. cbn. by destruct Hp as (H1 & H2 & H3).
  - split; cbn; done.
  - split; cbn; done.
  - split; cbn; try done. unfold phase_ok in *. rewrite Hph in Hp. cbn. by destruct Hp as (H1 & H2 & H3).
  - unfold phase_ok in Hp. rewrite Hph in Hp. destruct Hp as (H1 & H2 & H3). split; cbn; try done. by rewrite H1, Hpan.
  - split; cbn; try done. unfold phase_ok in *. rewrite Hph in Hp. cbn. by destruct Hp as (H1 & H2 & H3).
  - split; cbn; try done. unfold phase_ok in *. rewrite Hph in Hp. cbn. destruct Hp as (H1 & H2 & H3). rewrite H1. split_and!; [done..|]. split; [by left|done].
  - split; cbn; try done. unfold phase_ok in *. rewrite Hph in Hp. cbn. destruct Hp as (H1 & H2 & H3). rewrite H1. split_and!; [done..|]. split; [by right|done].
  - split; cbn; try done. unfold phase_ok in *. rewrite Hph in Hp. cbn. destruct Hp as (H1 & H2 & H3). by rewrite H1, H2.
Qed.

Lemma winv_reachable bind opts w : rtc steps (initial bind opts) w → winv w.
Proof.
  generalize (winv_initial bind opts). generalize (initial bind opts). intros w0 Hw0 Hr.
  induction Hr as [w|w1 w2 w3 [o Hs] _ IH]; [done|]. apply IH. by eapply winv_step.
Qed.

(** ** Shutting down *)

Definition phase_work (p : phase) : nat :=
  match p with BWaiting => 5 | BBroadcast => 4 | BCancel => 3 | BSync => 2 | BClosing _ => 1 | _ => 0 end.
Definition work (w : world) : nat := (phase_work (w_phase w) + sum_list_with server_work (w_servers w))%nat.

Lemma works_lighter w w' : works w w' → (work w' < work w)%nat.
Proof.
  unfold works. intros Hs. remember Work as o eqn:Ho. unfold work. destruct Hs as [w|w o i s d s' Hi Hss|w|w n Hn|w Hph|w Hph|w Hph|w Hph|w|w|w Hph Hq|w Hph|w Hph|w Hph H0|w Hph|w e Hph]; try done; subst;
    cbn [w_phase w_servers wg_add set_servers phase_to close_signal arrive closeMetricsClient]; rewrite ?Hph; cbn [phase_work]; try lia.
  pose proof (sum_list_insert server_work _ i s s' Hi). pose proof (server_work_decreases _ _ _ _ Hss). lia.
Qed.

(** What work changes of what the goal is about. *)
Lemma works_keep w w' : works w w' → (w_signal w = true → w_signal w' = true) ∧ w_others w' = w_others w.
Proof. unfold works. intros Hs. remember Work as o. by destruct Hs. Qed.

Definition finished (w : world) : Prop := Forall shut_down (w_servers w) ∧ (w_others w = 0%nat → ∃ e, w_phase w = BReturned e).

Lemma servers_work_on w : winv w → w_signal w = true → Forall shut_down (w_servers w) ∨ ∃ w', works w w'.
Proof.
  intros [Hs _ _ _] Hsig. assert (Hl : Forall shut_down (w_servers w) ∨ ∃ i s d s', w_servers w !! i = Some s ∧ sstep true Work s d s').
  { induction Hs as [|s l [H1 H2] _ IH]; [by left|]. destruct (server_works_on s H1 H2) as [Hd|(d & s' & Hd)]; [|right; by exists 0%nat, s, d, s'].
    destruct IH as [IH|(i & x & d & x' & Hi & Hx)]; [left; by constructor|right; by exists (S i), x, d, x']. }
  destruct Hl as [Hl|(i & s & d & s' & Hi & Hss)]; [by left|right]. eexists. eapply step_server; [exact Hi|]. rewrite Hsig. exact Hss.
Qed.

Lemma service_works_on w : winv w → w_signal w = true → finished w ∨ ∃ w', works w w'.
Proof.
  intros Hw Hsig. destruct (servers_work_on w Hw Hsig) as [Hall|]; [|by right]. pose proof (wi_phase w Hw) as Hp. unfold phase_ok in Hp.
  destruct (w_phase w) as [| | | | | |e|e] eqn:Hph; [destruct Hp; congruence..|right; eexists; by eapply step_cancel| |right; eexists; by eapply step_close_metrics|left; split; [done|by exists e]].
  destruct (decide (w_others w = 0%nat)) as [H0|H0]; [|left; split; [done|done]]. right. eexists. eapply step_completed; [done|]. rewrite (wi_wg w Hw), H0. cbn.
  clear -Hall. induction Hall as [|s l [_ Ho] _ IH]; [done|]. cbn. lia.
Qed.

Lemma stopped_launches_nothing signal o s d s' : s_stopped s = true → sstep signal o s d s' → s_launched s' = s_launched s ∧ s_stopped s' = true.
Proof.
  intros Hst Hs. destruct Hs as [s|s|s|s t Ht|s t Ht|s t s' d Ht Hst'|s t Ht Hn|s t Ht Hd|s t Ht Hc|s t Ht|s t k Ht|s t k Ht Hk|s t k Ht Ho|s t k Ht Ho|s t k Ht|s t k s' d Ht Hm|s t k Ht]; try done.
  - unfold StartServerCtx in Hst'. rewrite Hst, orb_true_r in Hst'. by injection Hst' as <- <-.
  - by injection Hm as <- <-.
  - by destruct k.
Qed.

Lemma winv_works w w' : winv w → rtc works w w' → winv w'.
Proof. intros Hw Hs. induction Hs as [w|w1 w2 w3 H1 _ IH]; [done|]. apply IH. by eapply winv_step. Qed.

(** C7. The life of a service. Whatever the configuration, the calls, the
    failures and the interleaving of [Bootstrap] with the goroutines of the
    servers that share its channel and its wait group: no channel is closed
    twice and the counter never runs below zero, a server serves at most once
    and not once it is stopped; [Bootstrap] completes its wait only when every
    server started has been shut down and no dependant is left, and returns
    with its metrics client closed exactly once, the shutdown broadcast
    exactly if it ran to its end. Once the shutdown is broadcast the work
    under way is bounded, and always can go on until every goroutine of every
    server has ended and, other dependants allowing, [Bootstrap] has
    returned. *)
Theorem service_lifecycle bind opts w : rtc steps (initial bind opts) w →
  (w_panicked w = false ∧ Forall (fun s => s_panicked s = false ∧ (s_launched s <= 1)%nat) (w_servers w)) ∧
  (∀ i s o d s', w_servers w !! i = Some s → s_stopped s = true → sstep (w_signal w) o s d s' → s_launched s' = s_launched s ∧ s_stopped s' = true) ∧
  (w_phase w = BSync → w_wg w = 0 → w_others w = 0%nat ∧ Forall (fun s => s_started s = true → s_stopped s = true) (w_servers w)) ∧
  (∀ e, w_phase w = BReturned e → w_closed w = (if w_created w then 1 else 0)%nat ∧ (w_signal w = true ↔ e = None ∨ e = Some ErrShutdownTimeout)) ∧
  (w_signal w = true → (∀ n w', nsteps works n w w' → (n <= work w)%nat) ∧ ∃ w', rtc works w w' ∧ finished w').
Proof.
  intros Hr%winv_reachable. pose proof Hr as [Hs Hwg Hp Hpan]. split; [|split; [|split; [|split]]].
  - split; [done|]. eapply Forall_impl; [exact Hs|]. intros s [H1 _]. split; [apply H1|]. rewrite (si_launched s H1). destruct (s_started s); lia.
  - intros i s o d s' _. apply stopped_launches_nothing.
  - intros _ H0. pose proof (all_owed_nonneg (w_servers w)). split; [lia|]. eapply Forall_impl; [apply (all_owed_zero (w_servers w)); lia|].
    unfold owed. intros s Hso Hst. rewrite Hst in Hso. by destruct (s_stopped s).
  - intros e He. unfold phase_ok in Hp. rewrite He in Hp. exact Hp.
  - intros Hsig. split.
    + intros n w' Hn. pose proof (work_bounded works work works_lighter n w w' Hn). lia.
    + apply (work_until works work works_lighter (fun w => winv w ∧ w_signal w = true)); [|intros x y [Hx1 Hx2] Hxy; split; [by eapply winv_step|by apply (works_keep x y Hxy)]|done].
      intros x [Hx1 Hx2]. by apply service_works_on.
Qed.

(** A server started while binding, and then a termination signal. *)
Definition sample_server : server := Server true false ONever false false false false false false false 1 [TExit; TMonitor; TServe].
Definition sample_world : world := World BCancel true true false 1 0 true 0 false [sample_server].

Lemma sample_reached : rtc steps (initial true [WithShutdownTimeout 1]) sample_world.
Proof.
  eapply rtc_l; [exists Outside; by apply step_metrics|]. eapply rtc_l; [exists Outside; apply step_new|]. cbn.
  eapply rtc_l; [exists Outside; eapply (step_server _ _ 0); [done|apply s_call_start]|]. cbn.
  eapply rtc_l; [exists Work; eapply (step_server _ _ 0); [done|by apply (s_start _ _ 0)]|]. cbn.
  eapply rtc_l; [exists Outside; by apply step_bound|]. eapply rtc_l; [exists Outside; apply step_quit|]. cbn.
  eapply rtc_l; [exists Work; apply step_waitForShutdown; [done|by left]|]. eapply rtc_l; [exists Work; by apply step_broadcast|]. cbn. apply rtc_refl.
Qed.

Lemma service_lifecycle_witness : rtc steps (initial true [WithShutdownTimeout 1]) sample_world ∧
  ∃ w', rtc works sample_world w' ∧ Forall shut_down (w_servers w') ∧ (w_others w' = 0%nat → ∃ e, w_phase w' = BReturned e).
Proof. split; [exact sample_reached|]. destruct (service_lifecycle _ _ _ sample_reached) as (_ & _ & _ & _ & H). by destruct (H eq_refl) as [_ Hw]. Defined.
