(* ===== verification/UHex.v ===== *)
(** * [pkg/uhex]: fixed-width hexadecimal

    The unrolled encoders over their table of digit pairs, against positional
    notation: what they write has the value they were given, and compares as
    it does. *)

From stdpp Require Import base option list.
From Stdlib Require Import String.
From S2P Require Import Prelude GoString.

#[local] Open Scope Z_scope.

(** ** The encoders *)

Definition hexTable : gostring := str "0123456789abcdef".

(** [buildHex16]: the two digits of each byte, the first one in the low half. *)
Definition buildHex16 : list Z :=
  map (fun i => Z.lor (hexTable !!! Z.to_nat (Z.shiftr i 4)) (Z.shiftl (hexTable !!! Z.to_nat (Z.land i 15)) 8)) (seqZ 0 256).
Definition hex16 : list Z := Eval vm_compute in buildHex16.

(** [binary.LittleEndian.PutUint16] of a table entry. *)
Definition putByte (b : Z) : gostring := let n := hex16 !!! Z.to_nat b in [Z.land n 255; Z.shiftr n 8].

Definition byte (n : Z) : Z := Z.land n 255.

Definition Hex64UB (n : Z) : gostring :=
  putByte (byte (Z.shiftr n 56)) ++ putByte (byte (Z.shiftr n 48)) ++ putByte (byte (Z.shiftr n 40)) ++ putByte (byte (Z.shiftr n 32)) ++
  putByte (byte (Z.shiftr n 24)) ++ putByte (byte (Z.shiftr n 16)) ++ putByte (byte (Z.shiftr n 8)) ++ putByte (byte n).
Definition Hex64 (n : Z) : gostring := Hex64UB n.

Definition Hex64BB (src : list Z) : gostring :=
  putByte (src !!! 0%nat) ++ putByte (src !!! 1%nat) ++ putByte (src !!! 2%nat) ++ putByte (src !!! 3%nat) ++
  putByte (src !!! 4%nat) ++ putByte (src !!! 5%nat) ++ putByte (src !!! 6%nat) ++ putByte (src !!! 7%nat).
Definition Hex64B (src : list Z) : gostring := Hex64BB src.

Definition Hex32UB (n : Z) : gostring :=
  putByte (byte (Z.shiftr n 24)) ++ putByte (byte (Z.shiftr n 16)) ++ putByte (byte (Z.shiftr n 8)) ++ putByte (byte n).
Definition Hex32 (n : Z) : gostring := Hex32UB n.
Definition Hex32BB (src : list Z) : gostring := putByte (src !!! 0%nat) ++ putByte (src !!! 1%nat) ++ putByte (src !!! 2%nat) ++ putByte (src !!! 3%nat).
Definition Hex32B (src : list Z) : gostring := Hex32BB src.

Definition Hex16UB (n : Z) : gostring := putByte (byte (Z.shiftr n 8)) ++ putByte (byte n).
Definition Hex16 (n : Z) : gostring := Hex16UB n.
Definition Hex16BB (src : list Z) : gostring := putByte (src !!! 0%nat) ++ putByte (src !!! 1%nat).
Definition Hex16B (src : list Z) : gostring := Hex16BB src.

Definition Hex8UB (n : Z) : gostring := putByte (byte n).
Definition Hex8 (n : Z) : gostring := Hex8UB n.
Definition Hex8BB (src : list Z) : gostring := putByte (src !!! 0%nat).
Definition Hex8B (src : list Z) : gostring := Hex8BB src.

(** ** Positional notation *)

(** The [k] lowest digits of [n] to a base, the highest first. *)
Fixpoint digits (base : Z) (k : nat) (n : Z) : list Z :=
  match k with
  | O => []
  | S k => digits base k (n / base) ++ [n mod base]
  end.

Definition value (base : Z) (ds : list Z) : Z := fold_left (fun v d => base * v + d) ds 0.

(** The comparison of strings. *)
Fixpoint text_lt (s t : list Z) : bool :=
  match s, t with
  | _, [] => false
  | [], _ => true
  | a :: s, b :: t => (a <? b) || ((a =? b) && text_lt s t)
  end.

Definition hex_digit (d : Z) : Z := hexTable !!! Z.to_nat d.

(** The digit of a character, if it is one. *)
Definition unhex (c : Z) : option Z :=
  if (48 <=? c) && (c <=? 57) then Some (c - 48) else if (97 <=? c) && (c <=? 102) then Some (c - 87) else None.

Lemma digits_length base k : ∀ n, length (digits base k n) = k.
Proof. induction k as [|k IH]; intros n; [done|]. cbn. rewrite length_app, IH. cbn. lia. Qed.

Lemma digits_in_base base k : ∀ n, 0 < base → Forall (fun d => 0 <= d < base) (digits base k n).
Proof. induction k as [|k IH]; intros n Hb; [constructor|]. cbn. apply Forall_app. split; [by apply IH|]. constructor; [|constructor]. by apply Z.mod_pos_bound. Qed.

Lemma value_snoc base ds d : value base (ds ++ [d]) = base * value base ds + d.
Proof. unfold value. by rewrite fold_left_app. Qed.

Lemma digits_value base k : ∀ n, 1 < base → value base (digits base k n) = n mod base ^ Z.of_nat k.
Proof.
  induction k as [|k IH]; intros n Hb; [by rewrite Z.mod_1_r|]. cbn [digits]. rewrite value_snoc, IH by done.
  rewrite Nat2Z.inj_succ, Z.pow_succ_r by lia. rewrite Z.rem_mul_r by (lia || (apply Z.pow_nonzero; lia)). lia.
Qed.

Lemma digits_mod base k j : ∀ n, 1 < base → (k <= j)%nat → digits base k (n mod base ^ Z.of_nat j) = digits base k n.
Proof.
  revert j. induction k as [|k IH]; intros j n Hb Hk; [done|]. destruct j as [|j]; [lia|]. cbn [digits]. rewrite Nat2Z.inj_succ, Z.pow_succ_r by lia.
  assert (0 < base ^ Z.of_nat j) by (apply Z.pow_pos_nonneg; lia). f_equal.
  - rewrite Z.rem_mul_r by lia. replace (n mod base + base * (n / base mod base ^ Z.of_nat j)) with ((n / base mod base ^ Z.of_nat j) * base + n mod base) by lia.
    rewrite Z.div_add_l by lia. rewrite (Z.div_small (n mod base)) by (apply Z.mod_pos_bound; lia). rewrite Z.add_0_r. apply IH; lia.
  - f_equal. rewrite Z.rem_mul_r by lia. replace (n mod base + base * (n / base mod base ^ Z.of_nat j)) with (n mod base + (n / base mod base ^ Z.of_nat j) * base) by lia.
    rewrite Z.mod_add by lia. apply Z.mod_mod. lia.
Qed.

Lemma digits_app base k j : ∀ n, 1 < base → digits base (k + j) n = digits base k (n / base ^ Z.of_nat j) ++ digits base j n.
Proof.
  induction j as [|j IH]; intros n Hb; [by rewrite Nat.add_0_r, Z.div_1_r, app_nil_r|]. rewrite Nat.add_succ_r. cbn [digits]. rewrite IH, app_assoc by done.
  rewrite Nat2Z.inj_succ, Z.pow_succ_r, Z.div_div by (lia || (apply Z.pow_pos_nonneg; lia)). done.
Qed.

Lemma text_lt_app s t : ∀ s' t', length s = length s' → text_lt (s ++ t) (s' ++ t') = text_lt s s' || (bool_decide (s = s') && text_lt t t').
Proof.
  induction s as [|a s IH]; intros [|b s'] t' Hl; try done. injection Hl as Hl. cbn [app text_lt]. rewrite IH by done.
  destruct (a <? b); [done|]. cbn [orb]. destruct (Z.eqb_spec a b) as [->|Hne]; cbn [andb]; [|by rewrite bool_decide_eq_false_2 by congruence].
  f_equal. f_equal. apply bool_decide_ext. split; congruence.
Qed.

Lemma text_lt_same c s t s' t' : length s = length s' → text_lt (s ++ c :: t) (s' ++ c :: t') = text_lt (s ++ t) (s' ++ t').
Proof. intros Hl. rewrite !text_lt_app by done. cbn [text_lt]. by rewrite Z.ltb_irrefl, Z.eqb_refl. Qed.

Lemma digits_inj base k : ∀ n m, 1 < base → 0 <= n < base ^ Z.of_nat k → 0 <= m < base ^ Z.of_nat k → digits base k n = digits base k m → n = m.
Proof.
  intros n m Hb Hn Hm He. pose proof (digits_value base k n Hb) as H1. pose proof (digits_value base k m Hb) as H2. rewrite He, H2 in H1.
  rewrite !Z.mod_small in H1 by done. done.
Qed.

(** Texts of one length compare as the numbers do. *)
Lemma digits_lt base k : ∀ n m, 1 < base → 0 <= n < base ^ Z.of_nat k → 0 <= m < base ^ Z.of_nat k → text_lt (digits base k n) (digits base k m) = (n <? m).
Proof.
  induction k as [|k IH]; intros n m Hb Hn Hm; [cbn in *; symmetry; apply Z.ltb_ge; lia|]. rewrite Nat2Z.inj_succ, Z.pow_succ_r in Hn, Hm by lia. cbn [digits].
  assert (Hdiv : ∀ x, 0 <= x < base * base ^ Z.of_nat k → 0 <= x / base < base ^ Z.of_nat k).
  { intros x Hx. split; [apply Z.div_pos; lia|]. apply Z.div_lt_upper_bound; lia. }
  rewrite text_lt_app by (by rewrite !digits_length). rewrite IH by auto.
  pose proof (Z.div_mod n base ltac:(lia)). pose proof (Z.div_mod m base ltac:(lia)). pose proof (Z.mod_pos_bound n base ltac:(lia)). pose proof (Z.mod_pos_bound m base ltac:(lia)).
  cbn [text_lt]. rewrite andb_false_r, orb_false_r. destruct (decide (n / base = m / base)) as [He|He].
  - rewrite He, Z.ltb_irrefl, bool_decide_eq_true_2 by done. cbn [orb andb]. destruct (Z.ltb_spec (n mod base) (m mod base)), (Z.ltb_spec n m); try done; nia.
  - rewrite bool_decide_eq_false_2 by (intros Hd; by apply digits_inj in Hd; auto). cbn [andb]. rewrite orb_false_r. destruct (Z.ltb_spec (n / base) (m / base)), (Z.ltb_spec n m); try done; nia.
Qed.

(** ** What the encoders write *)

Lemma check_range (P : Z → Prop) `{∀ z, Decision (P z)} lo n : forallb (fun z => bool_decide (P z)) (seqZ lo n) = true → ∀ z, lo <= z < lo + n → P z.
Proof. intros Hall z Hz. rewrite forallb_forall in Hall. apply (bool_decide_eq_true_1 (P z)), Hall, list_elem_of_In, elem_of_seqZ. lia. Qed.

Lemma put_digits b : 0 <= b < 256 → putByte b = [hex_digit (b / 16); hex_digit (b mod 16)].
Proof. apply (check_range (fun b => putByte b = [hex_digit (b / 16); hex_digit (b mod 16)]) 0 256). vm_compute. reflexivity. Qed.

Lemma byte_mod n : byte n = n mod 256.
Proof. unfold byte. change 255 with (Z.ones 8). by rewrite Z.land_ones by lia. Qed.

Lemma byte_shift n k : 0 <= k → byte (Z.shiftr n k) = (n / 2 ^ k) mod 256.
Proof. intros Hk. by rewrite byte_mod, Z.shiftr_div_pow2. Qed.

(** The text of a number: its digits to base 16. *)
Definition hex_text (k : nat) (n : Z) : gostring := map hex_digit (digits 16 k n).

Lemma hex_text_byte k n : hex_text (k + 2) n = hex_text k (n / 256) ++ putByte (n mod 256).
Proof.
  unfold hex_text. rewrite digits_app, map_app by lia. change (16 ^ Z.of_nat 2) with 256. f_equal. rewrite put_digits by (apply Z.mod_pos_bound; lia).
  cbn [digits app map]. change 256 with (16 * 16). rewrite Z.rem_mul_r, Z.add_comm, Z.mul_comm by lia.
  rewrite Z.div_add_l, (Z.div_small (n mod 16)), Z.add_0_r by (lia || (apply Z.mod_pos_bound; lia)). f_equal. f_equal. f_equal.
  rewrite Z.add_comm, Z.mod_add, Z.mod_mod by lia. done.
Qed.

Lemma Hex16_text n : Hex16 n = hex_text 4 n.
Proof. unfold Hex16, Hex16UB. rewrite byte_shift, byte_mod by lia. by rewrite (hex_text_byte 2), (hex_text_byte 0). Qed.

Lemma Hex32_text n : Hex32 n = hex_text 8 n.
Proof.
  unfold Hex32, Hex32UB. rewrite !byte_shift, byte_mod by lia. rewrite (hex_text_byte 6), (hex_text_byte 4), (hex_text_byte 2), (hex_text_byte 0), !Z.div_div by lia.
  rewrite <- !app_assoc. done.
Qed.

Lemma Hex64_text n : Hex64 n = hex_text 16 n.
Proof.
  unfold Hex64, Hex64UB. rewrite !byte_shift, byte_mod by lia.
  rewrite (hex_text_byte 14), (hex_text_byte 12), (hex_text_byte 10), (hex_text_byte 8), (hex_text_byte 6), (hex_text_byte 4), (hex_text_byte 2), (hex_text_byte 0), !Z.div_div by lia.
  rewrite <- !app_assoc. done.
Qed.

(** Reading it back. *)
Fixpoint unhex_all (s : gostring) : option (list Z) :=
  match s with
  | [] => Some []
  | c :: s => d ← unhex c; ds ← unhex_all s; Some (d :: ds)
  end.

Lemma unhex_digit d : 0 <= d < 16 → unhex (hex_digit d) = Some d.
Proof. apply (check_range (fun d => unhex (hex_digit d) = Some d) 0 16). vm_compute. reflexivity. Qed.

Lemma unhex_digits ds : Forall (fun d => 0 <= d < 16) ds → unhex_all (map hex_digit ds) = Some ds.
Proof. induction 1 as [|d ds Hd _ IH]; [done|]. cbn [map unhex_all]. by rewrite unhex_digit, IH. Qed.

Lemma unhex_hex_text k n : value 16 <$> unhex_all (hex_text k n) = Some (n mod 16 ^ Z.of_nat k).
Proof. unfold hex_text. rewrite unhex_digits by (by apply digits_in_base). cbn. by rewrite digits_value. Qed.

Lemma hex_digit_lt a b : 0 <= a < 16 → 0 <= b < 16 → (hex_digit a <? hex_digit b) = (a <? b) ∧ (hex_digit a =? hex_digit b) = (a =? b).
Proof.
  intros Ha. revert b. apply (check_range (fun a => Forall (fun b => (hex_digit a <? hex_digit b) = (a <? b) ∧ (hex_digit a =? hex_digit b) = (a =? b)) (seqZ 0 16)) 0 16) in Ha; [|vm_compute; reflexivity].
  rewrite Forall_forall in Ha. intros b Hb. apply Ha, elem_of_seqZ. lia.
Qed.

Lemma hex_digits_lt ds : ∀ es, Forall (fun d => 0 <= d < 16) ds → Forall (fun d => 0 <= d < 16) es → text_lt (map hex_digit ds) (map hex_digit es) = text_lt ds es.
Proof.
  induction ds as [|d ds IH]; intros [|e es] Hd He; try done. apply Forall_cons in Hd as [Hd Hds], He as [He Hes]. cbn [map text_lt].
  destruct (hex_digit_lt d e Hd He) as [-> ->]. by rewrite IH.
Qed.

(** The texts of two numbers compare as the numbers do. *)
Lemma hex_text_lt k n m : 0 <= n < 16 ^ Z.of_nat k → 0 <= m < 16 ^ Z.of_nat k → text_lt (hex_text k n) (hex_text k m) = (n <? m).
Proof. intros Hn Hm. unfold hex_text. rewrite hex_digits_lt by (by apply digits_in_base). by apply digits_lt. Qed.

(** Bytes, two digits each. *)
Definition hex_bytes (l : list Z) : gostring := concat (map putByte l).

Lemma put_lt b c : 0 <= b < 256 → 0 <= c < 256 → text_lt (putByte b) (putByte c) = (b <? c).
Proof.
  intros Hb Hc. change (text_lt (putByte b) (putByte c)) with (text_lt (putByte b ++ []) (putByte c ++ [])).
  assert (Hput : ∀ x, 0 <= x < 256 → putByte x = hex_text 2 x) by (intros x Hx; rewrite (hex_text_byte 0), Z.mod_small by done; done).
  rewrite !app_nil_r, !Hput by done. by apply hex_text_lt.
Qed.

Lemma put_inj b c : 0 <= b < 256 → 0 <= c < 256 → putByte b = putByte c → b = c.
Proof. intros Hb Hc He. pose proof (put_lt b c Hb Hc) as H1. pose proof (put_lt c b Hc Hb) as H2. rewrite He in H1, H2. destruct (Z.ltb_spec b c), (Z.ltb_spec c b); congruence || lia. Qed.

Lemma hex_bytes_lt l : ∀ k, length l = length k → Forall is_byte l → Forall is_byte k → text_lt (hex_bytes l) (hex_bytes k) = text_lt l k.
Proof.
  induction l as [|b l IH]; intros [|c k] Hl Hb Hc; try done. apply Forall_cons in Hb as [Hb Hbs], Hc as [Hc Hcs]. injection Hl as Hl.
  cbn [hex_bytes map concat text_lt]. rewrite text_lt_app by done. fold (hex_bytes l) (hex_bytes k). rewrite IH, put_lt by done. f_equal. f_equal.
  destruct (Z.eqb_spec b c) as [->|Hne]; [by apply bool_decide_eq_true_2|apply bool_decide_eq_false_2; intros He; by apply put_inj in He].
Qed.

Lemma hex_bytes_length l : length (hex_bytes l) = (2 * length l)%nat.
Proof. induction l as [|b l IH]; [done|]. cbn [hex_bytes map concat]. rewrite length_app. fold (hex_bytes l). rewrite IH. cbn. lia. Qed.

(** The bytes that two digits each stand for. *)
Fixpoint pairs (ds : list Z) : list Z :=
  match ds with
  | a :: b :: ds => 16 * a + b :: pairs ds
  | _ => []
  end.

Lemma unhex_bytes l : Forall is_byte l → pairs <$> unhex_all (hex_bytes l) = Some l.
Proof.
  intros Hl. assert (Hg : ∃ ds, unhex_all (hex_bytes l) = Some ds ∧ pairs ds = l); [|destruct Hg as (ds & -> & Hp); cbn; by rewrite Hp].
  induction Hl as [|b l Hb _ (ds & Hds & Hp)]; [by exists []|]. exists (b / 16 :: b mod 16 :: ds). cbn [hex_bytes map concat]. rewrite put_digits by done. cbn [app unhex_all]. fold (hex_bytes l).
  assert (0 <= b / 16 < 16) by (split; [apply Z.div_pos; unfold is_byte in Hb; lia|apply Z.div_lt_upper_bound; unfold is_byte in Hb; lia]).
  rewrite !unhex_digit, Hds by (done || (apply Z.mod_pos_bound; lia)). split; [done|]. cbn [pairs]. rewrite Hp. f_equal. pose proof (Z.div_mod b 16). lia.
Qed.

(** The encoders of arrays write two digits for each byte. *)
Lemma HexB_bytes l :
  (length l = 8%nat → Hex64B l = hex_bytes l) ∧ (length l = 4%nat → Hex32B l = hex_bytes l) ∧
  (length l = 2%nat → Hex16B l = hex_bytes l) ∧ (length l = 1%nat → Hex8B l = hex_bytes l).
Proof. split_and!; intros Hl; do 9 (destruct l as [|? l]; [first [discriminate Hl|reflexivity]|]); discriminate Hl. Qed.

Lemma Hex8_text n : 0 <= n < 256 → Hex8 n = hex_text 2 n.
Proof. intros Hn. unfold Hex8, Hex8UB. rewrite byte_mod. by rewrite (hex_text_byte 0). Qed.
