(* ===== verification/RandomID.v ===== *)
(** * [pkg/random]: identifiers

    The integers of random.go, uid64.go, uid128.go and uuid.go, over the
    entropy of [Random] and the encoders of [UHex]. Version 7 UUIDs have their
    layout and their canonical text, which sorts by the time of their making.
    The values of math/rand, which stands in for a failing reader, are
    arguments. *)

From stdpp Require Import base option list.
From Stdlib Require Import String.
From S2P Require Import Prelude GoString Random UHex.

#[local] Open Scope Z_scope.

Section Identifiers.
Context {R : Type} `{RD : Reader R}.

(** [binary.LittleEndian.Uint32] and [Uint64]. *)
Definition little_endian (b : list Z) : Z := value 256 (rev b).

(** The value, whether [notifyFallback] was called, and the reader. *)
Definition RandUint32 (mrand : Z) (r : R) : option (Z * bool * R) :=
  '(res, r) ← RandomBytes 4 r;
  Some (match res with Ok b => (little_endian b, false) | Error _ => (mrand, true) end, r).

Definition RandUint64 (mrand : Z) (r : R) : option (Z * bool * R) :=
  '(res, r) ← RandomBytes 8 r;
  Some (match res with Ok b => (little_endian b, false) | Error _ => (mrand, true) end, r).

Definition RandHex64 (mrand : Z) (r : R) : option (gostring * bool * R) :=
  '(n, fb, r) ← RandUint64 mrand r; Some (Hex64 n, fb, r).

(** [strconv.FormatUint] to base 36. *)
Fixpoint format36_loop (fuel : nat) (n : Z) (acc : gostring) : gostring :=
  let d := n mod 36 in
  let acc := (if d <? 10 then 48 + d else 87 + d) :: acc in
  match fuel with
  | O => acc
  | S fuel => if n <? 36 then acc else format36_loop fuel (n / 36) acc
  end.
Definition FormatUint36 (n : Z) : gostring := format36_loop 13 n [].

Definition RandString64 (mrand : Z) (r : R) : option (gostring * bool * R) :=
  '(n, fb, r) ← RandUint64 mrand r; Some (FormatUint36 n, fb, r).

(** ** [TUID64] and [TUID128] *)

(** [unix] is the time in seconds and [offset] the start of its decade. *)
Definition UID64 (unix offset : Z) (mrand : Z) (r : R) : option (Z * bool * R) :=
  '(n, fb, r) ← RandUint32 mrand r;
  Some (wrapU 64 (wrapU 64 (Z.shiftl (wrapU 64 (unix - offset)) 32) + n), fb, r).

Definition UID64_Format (u : Z) : gostring := Hex64UB u.
Definition UID64_Hex (u : Z) : gostring := UID64_Format u.
Definition UID64_String (u : Z) : gostring := FormatUint36 u.

Record TUID128 : Type := MkTUID128 { u_t : Z; u_r : Z }.

(** [now] is the time in nanoseconds. *)
Definition UID128 (now : Z) (mrand : Z) (r : R) : option (TUID128 * bool * R) :=
  '(n, fb, r) ← RandUint64 mrand r; Some (MkTUID128 (wrapU 64 now) n, fb, r).

Definition UID128_Format (u : TUID128) : gostring := Hex64UB (u_t u) ++ Hex64UB (u_r u).
Definition UID128_Hex (u : TUID128) : gostring := UID128_Format u.
Definition UID128_String (u : TUID128) : gostring := FormatUint36 (u_t u) ++ FormatUint36 (u_r u).

(** ** [UUID] *)

Definition uuidSep : Z := 45.

(** The time in milliseconds, and the fraction below as twelve bits. *)
Definition UnixMilli (now : Z) : Z := now / 1000000.
Definition Nanosecond (now : Z) : Z := now mod 1000000000.
Definition sub_ms (now : Z) : Z := Z.shiftr ((Nanosecond now mod 1000000) * 4294) 20.

Definition UUIDv7_bytes (now : Z) (rb : list Z) : list Z :=
  let ms := UnixMilli now in
  let ns := sub_ms now in
  [byte (Z.shiftr ms 40); byte (Z.shiftr ms 32); byte (Z.shiftr ms 24); byte (Z.shiftr ms 16); byte (Z.shiftr ms 8); byte ms;
   Z.lor 112 (Z.land 15 (byte (Z.shiftr ns 8))); byte ns;
   Z.lor 128 (Z.land 63 (rb !!! 0%nat))] ++ take 7 (drop 1 rb).

Definition UUIDv7 (now : Z) (mrand : Z) (r : R) : option (list Z * bool * R) :=
  '(res, r) ← readFull 8 r;
  let '(rb, fb) := match res with Ok rb => (rb, false) | Error _ => (rev (digits 256 8 mrand), true) end in
  Some (UUIDv7_bytes now rb, fb, r).

Definition UUID_Format (u : list Z) : gostring :=
  Hex32BB (take 4 u) ++ [uuidSep] ++ Hex16BB (take 2 (drop 4 u)) ++ [uuidSep] ++ Hex16BB (take 2 (drop 6 u)) ++ [uuidSep] ++
  Hex16BB (take 2 (drop 8 u)) ++ [uuidSep] ++ Hex32BB (take 4 (drop 10 u)) ++ Hex16BB (take 2 (drop 14 u)).
Definition UUID_String (u : list Z) : gostring := UUID_Format u.

(** Reading a canonical text: hyphens in their places, and hexadecimal. *)
Definition parse_uuid (s : gostring) : option (list Z) :=
  if (length s =? 36)%nat && forallb (fun i => (s !!! i) =? uuidSep) [8; 13; 18; 23]%nat then
    pairs <$> unhex_all (take 8 s ++ take 4 (drop 9 s) ++ take 4 (drop 14 s) ++ take 4 (drop 19 s) ++ drop 24 s)
  else None.
End Identifiers.

(** ** Facts *)

(** The first eight bytes of a UUID, as a number. *)
Definition prefix (now : Z) : Z := UnixMilli now * 65536 + 28672 + sub_ms now.

Lemma sub_ms_spec now : sub_ms now = now mod 1000000 * 4294 / 1048576 ∧ 0 <= sub_ms now < 4096.
Proof.
  unfold sub_ms, Nanosecond. rewrite Z.shiftr_div_pow2 by lia. change (2 ^ 20) with 1048576.
  assert (Hm : (now mod 1000000000) mod 1000000 = now mod 1000000).
  { change 1000000000 with (1000000 * 1000). rewrite Z.rem_mul_r by lia. rewrite Z.mul_comm, Z.mod_add by lia. apply Z.mod_mod. lia. }
  rewrite Hm. split; [done|]. pose proof (Z.mod_pos_bound now 1000000 ltac:(lia)). split; [apply Z.div_pos; lia|apply Z.div_lt_upper_bound; lia].
Qed.

Lemma prefix_bytes now rb : take 8 (UUIDv7_bytes now rb) = digits 256 8 (prefix now).
Proof.
  destruct (sub_ms_spec now) as [_ Hs]. unfold prefix. rewrite (digits_app 256 6 2) by lia. change (256 ^ Z.of_nat 2) with 65536.
  replace (UnixMilli now * 65536 + 28672 + sub_ms now) with (28672 + sub_ms now + UnixMilli now * 65536) by lia.
  rewrite Z.div_add, (Z.div_small (28672 + sub_ms now)), Z.add_0_l by lia. rewrite <- (digits_mod 256 2 2 (28672 + sub_ms now + UnixMilli now * 65536)) by lia. change (256 ^ Z.of_nat 2) with 65536.
  rewrite Z.mod_add, Z.mod_small by lia. unfold UUIDv7_bytes. rewrite !byte_shift, !byte_mod by lia. cbn [digits app take]. rewrite !Z.div_div by lia.
  assert (Hlo : Z.lor 112 (Z.land 15 ((sub_ms now / 2 ^ 8) mod 256)) = (28672 + sub_ms now) / 256 mod 256 ∧ sub_ms now mod 256 = (28672 + sub_ms now) mod 256).
  { revert Hs. generalize (sub_ms now). apply (check_range (fun s => Z.lor 112 (Z.land 15 ((s / 2 ^ 8) mod 256)) = (28672 + s) / 256 mod 256 ∧ s mod 256 = (28672 + s) mod 256) 0 4096). vm_compute. reflexivity. }
  destruct Hlo as [-> ->]. done.
Qed.

Lemma UUIDv7_bytes_ok now rb : Forall is_byte rb → length rb = 8%nat → Forall is_byte (UUIDv7_bytes now rb) ∧ length (UUIDv7_bytes now rb) = 16%nat ∧
  UUIDv7_bytes now rb !!! 8%nat / 64 = 2 ∧ UUIDv7_bytes now rb !!! 8%nat mod 64 = (rb !!! 0%nat) mod 64 ∧ drop 9 (UUIDv7_bytes now rb) = drop 1 rb.
Proof.
  intros Hrb Hl. destruct rb as [|r0 rb]; [done|]. apply Forall_cons in Hrb as [Hr0 Hrb]. injection Hl as Hl.
  assert (Hvar : is_byte (Z.lor 128 (Z.land 63 r0)) ∧ Z.lor 128 (Z.land 63 r0) / 64 = 2 ∧ Z.lor 128 (Z.land 63 r0) mod 64 = r0 mod 64).
  { revert Hr0. unfold is_byte. apply (check_range (fun r => (0 <= Z.lor 128 (Z.land 63 r) < 256) ∧ Z.lor 128 (Z.land 63 r) / 64 = 2 ∧ Z.lor 128 (Z.land 63 r) mod 64 = r mod 64) 0 256). vm_compute. reflexivity. }
  destruct Hvar as (Hv1 & Hv2 & Hv3). pose proof (prefix_bytes now (r0 :: rb)) as Hp.
  assert (Hsplit : UUIDv7_bytes now (r0 :: rb) = digits 256 8 (prefix now) ++ Z.lor 128 (Z.land 63 r0) :: rb).
  { rewrite <- Hp. unfold UUIDv7_bytes. cbn [app take drop lookup_total list_lookup_total]. rewrite (firstn_all2 rb) by lia. done. }
  rewrite Hsplit. split_and!.
  - apply Forall_app. split; [by apply digits_in_base|by constructor].
  - rewrite length_app, digits_length. cbn. lia.
  - rewrite lookup_total_app_r by (by rewrite digits_length). rewrite digits_length. exact Hv2.
  - rewrite lookup_total_app_r by (by rewrite digits_length). rewrite digits_length. exact Hv3.
  - rewrite drop_app_ge by (rewrite digits_length; lia). rewrite digits_length. done.
Qed.

(** *** The canonical text *)

Ltac sixteen u Hl := do 16 (destruct u as [|? u]; [discriminate Hl|]); destruct u as [|? u]; [|discriminate Hl].

Lemma UUID_Format_bytes u : length u = 16%nat →
  UUID_Format u = hex_bytes (take 4 u) ++ uuidSep :: hex_bytes (take 2 (drop 4 u)) ++ uuidSep :: hex_bytes (take 2 (drop 6 u)) ++
    uuidSep :: hex_bytes (take 2 (drop 8 u)) ++ uuidSep :: hex_bytes (drop 10 u).
Proof. intros Hl. sixteen u Hl. reflexivity. Qed.

Lemma UUID_String_length u : length u = 16%nat → length (UUID_String u) = 36%nat.
Proof. intros Hl. sixteen u Hl. reflexivity. Qed.

Lemma parse_uuid_String u : length u = 16%nat → Forall is_byte u → parse_uuid (UUID_String u) = Some u.
Proof.
  intros Hl Hu. unfold parse_uuid. rewrite UUID_String_length by done. unfold UUID_String. rewrite UUID_Format_bytes by done.
  rewrite <- (unhex_bytes _ Hu). sixteen u Hl. reflexivity.
Qed.

(** Texts compare as the bytes do. *)
Lemma UUID_String_lt u v : length u = 16%nat → length v = 16%nat → Forall is_byte u → Forall is_byte v →
  text_lt (UUID_String u) (UUID_String v) = text_lt u v.
Proof.
  intros Hu Hv Hbu Hbv. rewrite <- (hex_bytes_lt u v) by congruence. unfold UUID_String. rewrite !UUID_Format_bytes by done.
  assert (Hsplit : ∀ w : list Z, length w = 16%nat → hex_bytes w = hex_bytes (take 4 w) ++ hex_bytes (take 2 (drop 4 w)) ++ hex_bytes (take 2 (drop 6 w)) ++ hex_bytes (take 2 (drop 8 w)) ++ hex_bytes (drop 10 w)).
  { intros w Hw. sixteen w Hw. reflexivity. }
  rewrite (Hsplit u Hu), (Hsplit v Hv).
  assert (Hcons : ∀ s t : list Z, text_lt (uuidSep :: s) (uuidSep :: t) = text_lt s t) by (intros s t; exact (text_lt_same uuidSep [] s [] t eq_refl)).
  repeat (rewrite text_lt_app by (rewrite !hex_bytes_length, ?length_take, ?length_drop; lia)). rewrite !Hcons.
  repeat (rewrite text_lt_app by (rewrite !hex_bytes_length, ?length_take, ?length_drop; lia); rewrite ?Hcons). reflexivity.
Qed.

(** *** The order of the texts *)

Lemma prefix_range now : 0 <= now < 2 ^ 48 * 1000000 → 0 <= prefix now < 256 ^ Z.of_nat 8.
Proof.
  intros Hn. destruct (sub_ms_spec now) as [_ Hs]. unfold prefix, UnixMilli. change (256 ^ Z.of_nat 8) with (2 ^ 48 * 65536).
  assert (0 <= now / 1000000 < 2 ^ 48) by (split; [apply Z.div_pos; lia|apply Z.div_lt_upper_bound; lia]). lia.
Qed.

(** A step of the clock fraction is at most 245 nanoseconds. *)
Lemma prefix_lt now now' : now + 245 <= now' → prefix now < prefix now'.
Proof.
  intros Hn. destruct (sub_ms_spec now) as [Hs Hr], (sub_ms_spec now') as [Hs' Hr']. unfold prefix, UnixMilli.
  pose proof (Z.div_mod now 1000000 ltac:(lia)). pose proof (Z.div_mod now' 1000000 ltac:(lia)).
  pose proof (Z.mod_pos_bound now 1000000 ltac:(lia)). pose proof (Z.mod_pos_bound now' 1000000 ltac:(lia)).
  destruct (Z.lt_trichotomy (now / 1000000) (now' / 1000000)) as [Hlt|[He|Hgt]]; [lia| |lia].
  enough (sub_ms now < sub_ms now') by lia. rewrite Hs, Hs'.
  assert (Hm : now mod 1000000 + 245 <= now' mod 1000000) by lia. apply Z.lt_le_trans with (now mod 1000000 * 4294 / 1048576 + 1); [lia|].
  rewrite <- Z.div_add by lia. apply Z.div_le_mono; lia.
Qed.

Lemma prefix_le now now' : now <= now' → prefix now <= prefix now'.
Proof.
  intros Hn. destruct (sub_ms_spec now) as [Hs Hr], (sub_ms_spec now') as [Hs' Hr']. unfold prefix, UnixMilli.
  pose proof (Z.div_mod now 1000000 ltac:(lia)). pose proof (Z.div_mod now' 1000000 ltac:(lia)).
  pose proof (Z.mod_pos_bound now 1000000 ltac:(lia)). pose proof (Z.mod_pos_bound now' 1000000 ltac:(lia)).
  destruct (Z.lt_trichotomy (now / 1000000) (now' / 1000000)) as [Hlt|[He|Hgt]]; [lia| |lia].
  enough (sub_ms now <= sub_ms now') by lia. rewrite Hs, Hs'. apply Z.div_le_mono; lia.
Qed.

Lemma UUIDv7_bytes_lt now rb now' rb' : 0 <= now < 2 ^ 48 * 1000000 → 0 <= now' < 2 ^ 48 * 1000000 →
  prefix now < prefix now' → text_lt (UUIDv7_bytes now rb) (UUIDv7_bytes now' rb') = true.
Proof.
  intros Hn Hn' Hlt. rewrite <- (take_drop 8 (UUIDv7_bytes now rb)), <- (take_drop 8 (UUIDv7_bytes now' rb')), !prefix_bytes.
  rewrite text_lt_app, digits_lt by (done || (by rewrite !digits_length) || by apply prefix_range). by rewrite (proj2 (Z.ltb_lt _ _) Hlt).
Qed.

Lemma UUIDv7_fields now rb : 0 <= now < 2 ^ 48 * 1000000 →
  value 256 (take 6 (UUIDv7_bytes now rb)) = UnixMilli now ∧
  value 256 (take 2 (drop 6 (UUIDv7_bytes now rb))) = 7 * 4096 + (now mod 1000000) * 4294 / 1048576.
Proof.
  intros Hn. destruct (sub_ms_spec now) as [Hs Hr]. pose proof (prefix_range now Hn) as Hp. rewrite <- Hs.
  assert (Ht : take 8 (UUIDv7_bytes now rb) = digits 256 6 (UnixMilli now) ++ digits 256 2 (28672 + sub_ms now)).
  { rewrite prefix_bytes, (digits_app 256 6 2) by lia. unfold prefix. change (256 ^ Z.of_nat 2) with 65536. f_equal.
    - f_equal. symmetry. apply (Z.div_unique _ _ _ (28672 + sub_ms now)); lia.
    - rewrite <- (digits_mod 256 2 2 (UnixMilli now * 65536 + 28672 + sub_ms now)) by lia. change (256 ^ Z.of_nat 2) with 65536. f_equal.
      symmetry. apply (Z.mod_unique _ _ (UnixMilli now)); lia. }
  assert (Hm : 0 <= UnixMilli now < 2 ^ 48) by (unfold UnixMilli; split; [apply Z.div_pos; lia|apply Z.div_lt_upper_bound; lia]).
  change (take 6 (UUIDv7_bytes now rb)) with (take 6 (take 8 (UUIDv7_bytes now rb))). change (take 2 (drop 6 (UUIDv7_bytes now rb))) with (drop 6 (take 8 (UUIDv7_bytes now rb))).
  rewrite Ht, take_app_length', drop_app_length', !digits_value by (done || by rewrite digits_length). rewrite !Z.mod_small; [split; [done|lia]| |]; change (256 ^ Z.of_nat 2) with 65536; change (256 ^ Z.of_nat 6) with (2 ^ 48); lia.
Qed.

(** What [UUIDv7] returns, whatever the reader does. *)
Lemma UUIDv7_total {R} `{Reader R} now mrand r : 0 <= mrand < 2 ^ 64 → ∃ rb fb r',
  UUIDv7 now mrand r = Some (UUIDv7_bytes now rb, fb, r') ∧ Forall is_byte rb ∧ length rb = 8%nat ∧
  if fb then rb = rev (digits 256 8 mrand) else delivers r rb r'.
Proof.
  intros Hm. unfold UUIDv7. destruct (readFull_spec 8 r) as (res & r' & bs & -> & Hd & Hres). cbn [mbind option_bind].
  destruct res as [out|e].
  - destruct Hres as (-> & Hl & Hb). by exists bs, false, r'.
  - exists (rev (digits 256 8 mrand)), true, r'. split; [done|]. split; [|by rewrite length_rev, digits_length].
    apply Forall_rev. by apply (digits_in_base 256 8 mrand).
Qed.

(** *** The other identifiers *)

(** Base 36 read back. *)
Definition unchar36 (c : Z) : Z := if c <? 58 then c - 48 else c - 87.

Lemma format36_value fuel : ∀ n acc, 0 <= n < 36 ^ Z.of_nat (S fuel) →
  ∃ ds, format36_loop fuel n acc = ds ++ acc ∧ value 36 (map unchar36 ds) = n.
Proof.
  induction fuel as [|fuel IH]; intros n acc Hn; cbn [format36_loop]; set (c := if n mod 36 <? 10 then 48 + n mod 36 else 87 + n mod 36).
  all: assert (Hc : unchar36 c = n mod 36).
  1,3: unfold c, unchar36; pose proof (Z.mod_pos_bound n 36 ltac:(lia)); destruct (Z.ltb_spec (n mod 36) 10); [rewrite (proj2 (Z.ltb_lt _ _)) by lia|rewrite (proj2 (Z.ltb_ge _ _)) by lia]; lia.
  - exists [c]. split; [done|]. unfold value. cbn [map fold_left]. rewrite Hc. change (36 ^ Z.of_nat 1) with 36 in Hn. rewrite Z.mod_small; lia.
  - rewrite Nat2Z.inj_succ, Z.pow_succ_r in Hn by lia. destruct (Z.ltb_spec n 36) as [Hlt|Hge].
    + exists [c]. split; [done|]. unfold value. cbn [map fold_left]. rewrite Hc, Z.mod_small; lia.
    + destruct (IH (n / 36) (c :: acc)) as (ds & -> & Hv); [split; [apply Z.div_pos; lia|apply Z.div_lt_upper_bound; lia]|].
      exists (ds ++ [c]). split; [by rewrite <- app_assoc|]. rewrite map_app. cbn [map]. rewrite value_snoc, Hv, Hc. pose proof (Z.div_mod n 36). lia.
Qed.

(** A single value is not ambiguous in base 36. *)
Lemma FormatUint36_reads n : 0 <= n < 2 ^ 64 → value 36 (map unchar36 (FormatUint36 n)) = n.
Proof. intros Hn. destruct (format36_value 13 n []) as (ds & He & Hv); [change (36 ^ Z.of_nat 14) with 6140942214464815497216; lia|]. unfold FormatUint36. by rewrite He, app_nil_r. Qed.

Lemma FormatUint36_inj n m : 0 <= n < 2 ^ 64 → 0 <= m < 2 ^ 64 → FormatUint36 n = FormatUint36 m → n = m.
Proof. intros Hn Hm He. rewrite <- (FormatUint36_reads n Hn), <- (FormatUint36_reads m Hm). by rewrite He. Qed.

(** Two values in a row are, as uid128.go says. *)
Lemma UID128_String_ambiguous : ∃ u v, u ≠ v ∧ UID128_String u = UID128_String v ∧ UID128_Hex u ≠ UID128_Hex v.
Proof. exists (MkTUID128 1 37), (MkTUID128 37 1). by vm_compute. Qed.

Lemma Hex64UB_lt n m : 0 <= n < 2 ^ 64 → 0 <= m < 2 ^ 64 → text_lt (Hex64UB n) (Hex64UB m) = (n <? m).
Proof. intros Hn Hm. change Hex64UB with Hex64. rewrite !Hex64_text. by apply hex_text_lt. Qed.

(** Identifiers of 128 bits sort as the nanosecond they were made in. *)
Lemma UID128_sorted u v : 0 <= u_t u < 2 ^ 64 → 0 <= u_t v < 2 ^ 64 → u_t u < u_t v → text_lt (UID128_Hex u) (UID128_Hex v) = true.
Proof.
  intros Hu Hv Hlt. unfold UID128_Hex, UID128_Format. rewrite text_lt_app by done. rewrite Hex64UB_lt by done. by rewrite (proj2 (Z.ltb_lt _ _) Hlt).
Qed.

Lemma little_endian_range out : Forall is_byte out → 0 <= little_endian out < 256 ^ Z.of_nat (length out).
Proof.
  intros Hb. unfold little_endian. rewrite <- length_rev. apply Forall_rev in Hb. generalize dependent (rev out). clear out.
  intros l. induction l as [|x l IH] using rev_ind; intros Hb; [done|]. apply Forall_app in Hb as [Hb Hx]. apply Forall_cons in Hx as [Hx _].
  rewrite value_snoc, length_app. cbn [length]. rewrite Nat.add_1_r, Nat2Z.inj_succ, Z.pow_succ_r by lia. specialize (IH Hb). unfold is_byte in Hx. lia.
Qed.

Lemma UID64_packed d n : 0 <= d < 2 ^ 32 → 0 <= n < 2 ^ 32 → wrapU 64 (wrapU 64 (Z.shiftl (wrapU 64 d) 32) + n) = d * 2 ^ 32 + n.
Proof.
  intros Hd Hn. unfold wrapU. rewrite Z.shiftl_mul_pow2, (Z.mod_small d) by lia. rewrite (Z.mod_small (d * _)) by lia. apply Z.mod_small. lia.
Qed.

Lemma RandUint32_spec {R} `{Reader R} mrand r : 0 <= mrand < 2 ^ 32 → ∃ n fb r', RandUint32 mrand r = Some (n, fb, r') ∧ 0 <= n < 2 ^ 32.
Proof.
  intros Hm. unfold RandUint32. destruct (RandomBytes_spec 4 r ltac:(done)) as (res & r2 & -> & Hout). destruct res as [out|e].
  - exists (little_endian out), false, r2. split; [done|]. destruct Hout as [Hl Hb]. pose proof (little_endian_range out Hb) as Hle. by rewrite Hl in Hle.
  - by exists mrand, true, r2.
Qed.

Lemma UID64_spec {R} `{Reader R} unix offset mrand r : 0 <= unix - offset < 2 ^ 32 → 0 <= mrand < 2 ^ 32 →
  ∃ n fb r', UID64 unix offset mrand r = Some ((unix - offset) * 2 ^ 32 + n, fb, r') ∧ 0 <= n < 2 ^ 32.
Proof.
  intros Hd Hm. unfold UID64. destruct (RandUint32_spec mrand r Hm) as (n & fb & r' & -> & Hn). exists n, fb, r'. cbn [mbind option_bind].
  by rewrite UID64_packed.
Qed.

(** Those of 64 bits, as the second, within a decade. *)
Lemma UID64_sorted {R} `{Reader R} unix unix' offset mrand r mrand' r' :
  0 <= unix - offset < 2 ^ 32 → 0 <= unix' - offset < 2 ^ 32 → 0 <= mrand < 2 ^ 32 → 0 <= mrand' < 2 ^ 32 → unix < unix' →
  ∃ u fb r1 u' fb' r1', UID64 unix offset mrand r = Some (u, fb, r1) ∧ UID64 unix' offset mrand' r' = Some (u', fb', r1') ∧
    text_lt (UID64_Hex u) (UID64_Hex u') = true.
Proof.
  intros Hd Hd' Hm Hm' Hlt. destruct (UID64_spec _ _ _ r Hd Hm) as (n & fb & r1 & Hu & Hn), (UID64_spec _ _ _ r' Hd' Hm') as (n' & fb' & r1' & Hu' & Hn').
  eexists _, _, _, _, _, _. split; [exact Hu|]. split; [exact Hu'|]. unfold UID64_Hex, UID64_Format. rewrite Hex64UB_lt by lia. apply Z.ltb_lt. lia.
Qed.

(** C38. Version 7 UUIDs. Whatever the reader does - short reads, errors, no
    progress - [UUIDv7] returns sixteen bytes: the milliseconds of the clock in
    the first six, big-endian, then version 7 with the fraction of the
    millisecond, then variant 2 with 62 bits that come from what the reader
    delivered or, when it failed and the hook is called, from the fallback. The
    canonical text has 36 characters and reads back as the same bytes. Texts
    sort, character by character, as the bytes do: two UUIDs made at least 245
    nanoseconds apart are in the order of their making, whatever their random
    bits, and of two made closer than that the later never has the smaller first half. *)
Theorem UUIDv7_sortable {R} `{Reader R} now mrand r now' mrand' r'
    (Hnow : 0 <= now < 2 ^ 48 * 1000000) (Hnow' : 0 <= now' < 2 ^ 48 * 1000000)
    (Hm : 0 <= mrand < 2 ^ 64) (Hm' : 0 <= mrand' < 2 ^ 64) :
  ∃ u fb r1 u' fb' r1', UUIDv7 now mrand r = Some (u, fb, r1) ∧ UUIDv7 now' mrand' r' = Some (u', fb', r1') ∧
    length u = 16%nat ∧ Forall is_byte u ∧
    value 256 (take 6 u) = UnixMilli now ∧
    value 256 (take 2 (drop 6 u)) = 7 * 4096 + (now mod 1000000) * 4294 / 1048576 ∧
    u !!! 8%nat / 64 = 2 ∧
    (∃ rb, length rb = 8%nat ∧ u !!! 8%nat mod 64 = (rb !!! 0%nat) mod 64 ∧ drop 9 u = drop 1 rb ∧
      if fb then rb = rev (digits 256 8 mrand) else delivers r rb r1) ∧
    length (UUID_String u) = 36%nat ∧ parse_uuid (UUID_String u) = Some u ∧
    text_lt (UUID_String u) (UUID_String u') = text_lt u u' ∧
    (now + 245 <= now' → text_lt (UUID_String u) (UUID_String u') = true) ∧
    (now <= now' → text_lt (take 8 u') (take 8 u) = false).
Proof.
  destruct (UUIDv7_total now mrand r Hm) as (rb & fb & r1 & Hu & Hb & Hl & Hfb).
  destruct (UUIDv7_total now' mrand' r' Hm') as (rb' & fb' & r1' & Hu' & Hb' & Hl' & _).
  destruct (UUIDv7_bytes_ok now rb Hb Hl) as (Hub & Hul & Hvar & Hlow & Hrest). destruct (UUIDv7_bytes_ok now' rb' Hb' Hl') as (Hub' & Hul' & _).
  destruct (UUIDv7_fields now rb Hnow) as [Hms Hns].
  exists (UUIDv7_bytes now rb), fb, r1, (UUIDv7_bytes now' rb'), fb', r1'.
  pose proof (UUID_String_lt _ _ Hul Hul' Hub Hub') as Htext.
  do 7 (split; [done|]). split; [by exists rb|]. split; [by apply UUID_String_length|]. split; [by apply parse_uuid_String|]. split; [done|].
  split; [intros Hlt; rewrite Htext; by apply UUIDv7_bytes_lt, prefix_lt|].
  intros Hle. rewrite !prefix_bytes, digits_lt by (done || by apply prefix_range). apply Z.ltb_ge. by apply prefix_le.
Qed.

Lemma UUIDv7_sortable_witness :
  0 <= 1700000000123456789 < 2 ^ 48 * 1000000 ∧ 0 <= 1700000000123457034 < 2 ^ 48 * 1000000 ∧
  ∃ u u', (λ x, x.1.1) <$> UUIDv7 (R := Z) (RD := counting) 1700000000123456789 5 250 = Some u ∧
    (λ x, x.1.1) <$> UUIDv7 (R := Z) (RD := counting) 1700000000123457034 6 0 = Some u' ∧
    UUID_String u = str "018bcfe5-687b-774e-bafb-fcfdfeff0001" ∧ text_lt (UUID_String u) (UUID_String u') = true.
Proof.
  split; [lia|]. split; [lia|].
  destruct (UUIDv7_sortable (H := counting) 1700000000123456789 5 250 1700000000123457034 6 0) as (u & fb & r1 & u' & fb' & r1' & Hu & Hu' & _ & _ & _ & _ & _ & _ & _ & _ & _ & Hlt & _); try lia.
  exists u, u'. split; [by rewrite Hu|]. split; [by rewrite Hu'|]. split; [|apply Hlt; lia].
  vm_compute in Hu. injection Hu as <- <- <-. vm_compute. reflexivity.
Defined.
