(* ===== verification/Utf8.v ===== *)
(** * Cutting text between runes

    What packages strings and unicode/utf8 do at the ends of a text: decoding
    the last rune, searching backwards, trimming. Text is any bytes; a cut
    before a byte that can begin a rune, or after a whole rune, separates the
    runes of the text as well. *)

From stdpp Require Import base option list.
From S2P Require Import Prelude GoString.

#[local] Open Scope Z_scope.

Definition RuneStart (b : Z) : bool := negb (between 128 b 191).

(** The byte [utf8.DecodeLastRuneInString] decodes from, below [start]. *)
Fixpoint lastStart (steps : nat) (s : gostring) (start : nat) : nat :=
  match steps, start with
  | S steps, S start => match s !! start with Some b => if RuneStart b then start else lastStart steps s start | None => start end
  | _, O => O
  | O, S start => start
  end.

(** The rune at the end of a non-empty string and its width. *)
Definition decodeLastRune (s : gostring) : Z * nat :=
  match last s with
  | None => (RuneError, O)
  | Some c =>
      if c <? 128 then (c, 1%nat)
      else
        let start := lastStart 3 s (length s - 1) in
        let '(r, size) := decodeRune (drop start s) in
        if (start + size =? length s)%nat then (r, size) else (RuneError, 1%nat)
  end.

(** [unicode.IsSpace]. *)
Definition IsSpace (r : Z) : bool :=
  between 9 r 13 || bool_decide (r ∈ [32; 133; 160; 5760; 8232; 8233; 8239; 8287; 12288]) || between 8192 r 8202.

Section Func.
Variable f : Z → bool.

(** [lastIndexFunc]: from the end, the first rune on which [f] is [truth]. *)
Fixpoint lastIndexFunc_loop (fuel : nat) (truth : bool) (s : gostring) : option nat :=
  match fuel, s with
  | S fuel, _ :: _ =>
      let '(r, size) := decodeLastRune s in
      let i := (length s - size)%nat in
      if Bool.eqb (f r) truth then Some i else lastIndexFunc_loop fuel truth (take i s)
  | _, _ => None
  end.
Definition lastIndexFunc (truth : bool) (s : gostring) : option nat := lastIndexFunc_loop (length s) truth s.
Definition LastIndexFunc (s : gostring) : option nat := lastIndexFunc true s.

Fixpoint TrimLeftFunc_loop (fuel : nat) (s : gostring) : gostring :=
  match fuel, s with
  | S fuel, _ :: _ => let '(r, size) := decodeRune s in if f r then TrimLeftFunc_loop fuel (drop size s) else s
  | _, _ => s
  end.
Definition TrimLeftFunc (s : gostring) : gostring := TrimLeftFunc_loop (length s) s.

Definition TrimRightFunc (s : gostring) : gostring :=
  match lastIndexFunc false s with
  | Some i => take (i + (decodeRune (drop i s)).2) s
  | None => []
  end.

Definition TrimFunc (s : gostring) : gostring := TrimRightFunc (TrimLeftFunc s).
End Func.

Definition TrimSpace (s : gostring) : gostring := TrimFunc IsSpace s.

(** ** Where runes begin *)

(** Nothing, or a byte that does not continue a rune. *)
Definition boundary (s : gostring) : Prop := match s with [] => True | b :: _ => RuneStart b = true end.

(** A whole rune, not an invalid byte. *)
Definition rune_text (w : gostring) (r : Z) : Prop := w ≠ [] ∧ decodeRune w = (r, length w) ∧ (length w = 1%nat → r ≠ RuneError).

Lemma continuation_false b lo hi : RuneStart b = true → 128 <= lo → hi <= 191 → between lo b hi = false.
Proof. unfold RuneStart, between. rewrite negb_true_iff, !andb_false_iff, !Z.leb_gt. lia. Qed.

Ltac no_continuation Hb :=
  repeat match goal with |- context [between ?lo ?b ?hi] => rewrite (continuation_false b lo hi Hb) by lia end;
  rewrite ?andb_false_r, ?andb_false_l; repeat match goal with |- context [if ?c then false else false] => destruct c end.

Lemma decodeRune_app a b : a ≠ [] → boundary b → decodeRune (a ++ b) = decodeRune a.
Proof.
  intros Ha Hb. destruct b as [|c b]; [by rewrite app_nil_r|]. cbn in Hb. destruct a as [|a0 a]; [done|].
  unfold decodeRune. cbn [app]. destruct (a0 <? 128); [done|].
  destruct a as [|a1 a]; cbn [app]; [no_continuation Hb; by destruct b as [|? [|? ?]]|]. destruct (_ && between 128 a1 191); [done|].
  destruct a as [|a2 a]; cbn [app]; [no_continuation Hb; by destruct b|]. destruct (_ && between 128 a2 191); [done|].
  destruct a as [|a3 a]; cbn [app]; [by no_continuation Hb|]. done.
Qed.

Lemma runes_app a b : boundary b → runes (a ++ b) = runes a ++ runes b.
Proof.
  intros Hb. remember (length a) as n eqn:Hn. revert a Hn. induction (lt_wf n) as [n _ IH]. intros [|c a] ->; [done|].
  pose proof (decodeRune_width (c :: a) ltac:(done)) as Hw. change ((c :: a) ++ b) with (c :: (a ++ b)). rewrite !runes_cons.
  change (c :: (a ++ b)) with ((c :: a) ++ b). rewrite decodeRune_app by done. rewrite drop_app_le by lia. cbn [app]. f_equal.
  apply (IH (length (drop (decodeRune (c :: a)).2 (c :: a)))); [rewrite length_drop; cbn [length] in *; lia|done].
Qed.

Lemma rune_text_app w r b : rune_text w r → decodeRune (w ++ b) = (r, length w).
Proof.
  intros (Hne & Hd & Hv). destruct w as [|w0 w]; [done|]. unfold decodeRune in *. cbn [app].
  destruct (w0 <? 128); [exact Hd|]. destruct w as [|w1 w]; [injection Hd as <-; by specialize (Hv eq_refl)|]. cbn [app].
  destruct (_ && between 128 w1 191); [exact Hd|]. destruct w as [|w2 w]; [by simplify_eq/=|]. cbn [app]. cbn zeta in *.
  destruct (_ && between 128 w2 191); [exact Hd|]. destruct w as [|w3 w]; [by simplify_eq/=|]. exact Hd.
Qed.

Lemma rune_text_fresh w r b : rune_text w r → boundary (w ++ b).
Proof.
  intros (Hne & Hd & Hv). destruct w as [|w0 w]; [done|]. cbn. unfold RuneStart, between. rewrite negb_true_iff, andb_false_iff, !Z.leb_gt.
  destruct (Z.lt_ge_cases w0 128) as [|Hlo]; [by left|]. right. destruct (Z.le_gt_cases w0 191) as [Hhi|]; [exfalso|done].
  unfold decodeRune in Hd. rewrite (proj2 (Z.ltb_ge _ _)) in Hd by done.
  assert (Hlead : ∀ lo hi, 192 <= lo → between lo w0 hi = false) by (intros; unfold between; apply andb_false_iff; left; apply Z.leb_gt; lia).
  rewrite !Hlead in Hd by lia. rewrite !(proj2 (Z.eqb_neq w0 _)) in Hd by lia. cbn [andb] in Hd.
  destruct w as [|w1 [|w2 [|w3 w]]]; injection Hd; try done. intros <-. by apply Hv.
Qed.

Lemma runes_rune w r b : rune_text w r → runes (w ++ b) = r :: runes b.
Proof.
  intros Hw. pose proof (rune_text_app w r b Hw) as Hd. destruct w as [|w0 w]; [by destruct Hw|]. cbn [app]. rewrite runes_cons.
  change (w0 :: w ++ b) with ((w0 :: w) ++ b). rewrite Hd. cbn [fst snd]. by rewrite drop_app_length.
Qed.

Lemma runes_around a w r b : rune_text w r → runes (a ++ w ++ b) = runes a ++ r :: runes b.
Proof. intros Hw. rewrite runes_app by (by eapply rune_text_fresh). by rewrite (runes_rune w r). Qed.

(** The head of a text, decoded. *)
Lemma decodeRune_head s r n : s ≠ [] → decodeRune s = (r, n) → (1 <= n <= length s)%nat ∧ (rune_text (take n s) r ∨ (r = RuneError ∧ n = 1%nat)).
Proof.
  intros Hs Hd. pose proof (decodeRune_width s Hs) as Hw. rewrite Hd in Hw. cbn [snd] in Hw. split; [done|].
  destruct (decide (r = RuneError ∧ n = 1%nat)) as [|Hv]; [by right|]. left. split; [by destruct s, n; try done; lia|].
  assert (Htake : decodeRune (take n s) = (r, n)); [|rewrite length_take, Nat.min_l by lia; split; [done|]; intros -> ->; by apply Hv].
  clear Hw. destruct s as [|s0 s]; [done|]. unfold decodeRune in Hd. destruct (s0 <? 128) eqn:H0; [injection Hd as <- <-; cbn; by rewrite H0|].
  destruct s as [|s1 s]; [injection Hd as <- <-; by destruct Hv|]. destruct (between 194 s0 223 && between 128 s1 191) eqn:H1; [injection Hd as <- <-; cbn; by rewrite H0, H1|].
  destruct s as [|s2 s]; [injection Hd as <- <-; by destruct Hv|]. cbn zeta in Hd. destruct (_ && between 128 s2 191) eqn:H2; [injection Hd as <- <-; cbn; by rewrite H0, H1, H2|].
  destruct s as [|s3 s]; [injection Hd as <- <-; by destruct Hv|]. destruct (_ && between 128 s3 191) eqn:H3; [injection Hd as <- <-; cbn; by rewrite H0, H1, H2, H3|].
  injection Hd as <- <-. by destruct Hv.
Qed.

(** Its end. *)
Lemma decodeLastRune_spec s r n : s ≠ [] → decodeLastRune s = (r, n) → (1 <= n <= length s)%nat ∧ (rune_text (drop (length s - n) s) r ∨ (r = RuneError ∧ n = 1%nat)).
Proof.
  intros Hs Hd. assert (Hlen : (1 <= length s)%nat) by (destruct s; [done|cbn; lia]). unfold decodeLastRune in Hd.
  destruct (last s) as [c|] eqn:Hc; [|by apply last_None in Hc]. apply last_Some in Hc as [s' ->]. rewrite length_app in *. cbn [length] in *.
  destruct (Z.ltb_spec c 128) as [Hlt|Hge].
  - injection Hd as <- <-. split; [lia|]. left. replace (length s' + 1 - 1)%nat with (length s') by lia. rewrite drop_app_length. split; [done|].
    cbn. rewrite (proj2 (Z.ltb_lt _ _)) by done. split; [done|]. unfold RuneError. lia.
  - set (start := lastStart 3 (s' ++ [c]) (length s' + 1 - 1)) in Hd. destruct (decodeRune (drop start (s' ++ [c]))) as [r0 size] eqn:Hr.
    destruct (Nat.eqb_spec (start + size) (length s' + 1)) as [He|]; [|injection Hd as <- <-; split; [lia|by right]]. injection Hd as <- <-.
    assert (Hstart : (start <= length s')%nat).
    { assert (Hle : ∀ k i, (lastStart k (s' ++ [c]) i <= i)%nat); [|subst start; specialize (Hle 3%nat (length s' + 1 - 1)%nat); lia].
      induction k as [|k IHk]; intros [|i]; cbn; try lia. case_match; [|lia]. case_match; [lia|]. specialize (IHk i). lia. }
    destruct (decodeRune_head (drop start (s' ++ [c])) r0 size) as [Hw Hv]; [|done|].
    { intros Hnil. apply (f_equal length) in Hnil. rewrite length_drop, length_app in Hnil. cbn [length] in Hnil. lia. }
    split; [lia|]. rewrite length_drop, length_app in Hw. cbn [length] in Hw. replace (length s' + 1 - size)%nat with start by lia.
    rewrite take_ge in Hv by (rewrite length_drop, length_app; cbn [length]; lia). done.
Qed.

(** ** Searching and trimming *)

Section FuncFacts.
Variable f : Z → bool.
Hypothesis Hferr : f RuneError = false.

(** The last rune of a kind is a whole rune, and none follows it. *)
Lemma lastIndexFunc_true fuel : ∀ s i, (length s <= fuel)%nat → lastIndexFunc_loop f fuel true s = Some i →
  ∃ a w r b, s = a ++ w ++ b ∧ length a = i ∧ rune_text w r ∧ f r = true.
Proof.
  induction fuel as [|fuel IH]; intros s i Hl Hi; [done|]. cbn [lastIndexFunc_loop] in Hi. destruct s as [|c s]; [done|].
  destruct (decodeLastRune (c :: s)) as [r n] eqn:Hd. apply decodeLastRune_spec in Hd as [Hn Hv]; [|done].
  set (t := c :: s) in *. clearbody t. destruct (f r) eqn:Hf; cbn [Bool.eqb] in Hi.
  - injection Hi as <-. destruct Hv as [Hv|[-> _]]; [|congruence]. exists (take (length t - n) t), (drop (length t - n) t), r, [].
    rewrite app_nil_r, take_drop, length_take. split_and!; try done. lia.
  - destruct (IH (take (length t - n) t) i) as (a & w & r' & b & Ht & Ha & Hw & Hr); [rewrite length_take; lia|done|].
    exists a, w, r', (b ++ drop (length t - n) t). split; [|done].
    rewrite <- (take_drop (length t - n) t) at 1. by rewrite Ht, <- !app_assoc.
Qed.

(** Trimmed on the right: what goes is runes of the kind. *)
Lemma lastIndexFunc_false fuel : ∀ s, (length s <= fuel)%nat →
  match lastIndexFunc_loop f fuel false s with
  | Some i => ∃ n, (1 <= n)%nat ∧ (i + n <= length s)%nat ∧ f (decodeLastRune (take (i + n) s)).1 = false ∧ (decodeLastRune (take (i + n) s)).2 = n ∧
      boundary (drop (i + n) s) ∧ Forall (fun r => f r = true) (runes (drop (i + n) s))
  | None => boundary s ∧ Forall (fun r => f r = true) (runes s)
  end.
Proof.
  induction fuel as [|fuel IH]; intros s Hl; [by destruct s; [|cbn in Hl; lia]|]. cbn [lastIndexFunc_loop]. destruct s as [|c s]; [by split|].
  destruct (decodeLastRune (c :: s)) as [r n] eqn:Hd. pose proof Hd as Hspec. apply decodeLastRune_spec in Hspec as [Hn Hv]; [|done].
  set (t := c :: s) in *. clearbody t. destruct (f r) eqn:Hf; cbn [Bool.eqb].
  - destruct Hv as [Hv|[-> _]]; [|congruence]. specialize (IH (take (length t - n) t)). rewrite length_take in IH.
    assert (Hfr : boundary (drop (length t - n) t)) by (rewrite <- (app_nil_r (drop _ _)); by eapply rune_text_fresh).
    assert (Hrs : runes (drop (length t - n) t) = [r]) by (rewrite <- (app_nil_r (drop _ _)); by rewrite (runes_rune _ r)).
    destruct (lastIndexFunc_loop f fuel false _) as [i|] eqn:Hi.
    + destruct IH as (m & Hm1 & Hm2 & Hm3 & Hm4 & Hm5 & Hm6); [lia|]. exists m. split; [done|]. split; [lia|].
      rewrite take_take, Nat.min_l in Hm3, Hm4 by lia. split; [done|]. split; [done|].
      assert (Hsplit : drop (i + m) t = drop (i + m) (take (length t - n) t) ++ drop (length t - n) t).
      { rewrite <- (take_drop (length t - n) t) at 1. rewrite drop_app_le by (rewrite length_take; lia). done. }
      rewrite Hsplit. split; [destruct (drop (i + m) (take _ t)); done|]. rewrite runes_app, Hrs by done. apply Forall_app. split; [done|by constructor].
    + destruct IH as [H1 H2]; [lia|]. rewrite <- (take_drop (length t - n) t). split; [destruct (take _ t); done|].
      rewrite runes_app, Hrs by done. apply Forall_app. split; [done|by constructor].
  - exists n. replace (length t - n + n)%nat with (length t) by lia. rewrite take_ge, drop_ge, Hd by lia. split_and!; try done. lia.
Qed.

(** The width found backwards is the width found forwards. *)
Lemma widths_agree s i n : (1 <= n)%nat → (i + n <= length s)%nat → (decodeLastRune (take (i + n) s)).2 = n → boundary (drop (i + n) s) →
  (decodeRune (drop i s)).2 = n.
Proof.
  intros Hn Hin Hw Hfr. set (t := take (i + n) s) in *. assert (Hlt : length t = (i + n)%nat) by (subst t; rewrite length_take; lia).
  destruct (decodeLastRune t) as [r k] eqn:Hd. cbn [snd] in Hw. subst k. pose proof Hd as Hspec. apply decodeLastRune_spec in Hspec as [_ Hv]; [|intros Ht; rewrite Ht in Hlt; cbn in Hlt; lia].
  rewrite Hlt in Hv. replace (i + n - n)%nat with i in Hv by lia.
  assert (Hsplit : drop i s = drop i t ++ drop (i + n) s).
  { rewrite <- (take_drop (i + n) s) at 1. fold t. by rewrite drop_app_le by lia. }
  assert (Hln : length (drop i t) = n) by (rewrite length_drop; lia). rewrite Hsplit.
  destruct Hv as [Hv|[_ ->]]; [by rewrite (rune_text_app _ r), Hln|]. rewrite decodeRune_app; [|by intros Hnil; rewrite Hnil in Hln|done].
  pose proof (decodeRune_width (drop i t)) as Hw. assert (drop i t ≠ []) by (intros Hnil; by rewrite Hnil in Hln). specialize (Hw ltac:(done)). lia.
Qed.

Lemma TrimRightFunc_spec s : ∃ u, s = TrimRightFunc f s ++ u ∧ boundary u ∧ Forall (fun r => f r = true) (runes u) ∧
  (TrimRightFunc f s = [] ∨ f (decodeLastRune (TrimRightFunc f s)).1 = false).
Proof.
  unfold TrimRightFunc, lastIndexFunc. pose proof (lastIndexFunc_false (length s) s ltac:(lia)) as Hspec.
  destruct (lastIndexFunc_loop f (length s) false s) as [i|].
  - destruct Hspec as (n & Hn & Hin & Hf & Hw & Hfr & Hall). rewrite (widths_agree s i n) by done.
    exists (drop (i + n) s). rewrite take_drop. split_and!; try done. by right.
  - exists s. destruct Hspec. split_and!; try done. by left.
Qed.

Lemma TrimLeftFunc_loop_spec fuel : ∀ s, (length s <= fuel)%nat → ∃ u, s = u ++ TrimLeftFunc_loop f fuel s ∧
  runes s = runes u ++ runes (TrimLeftFunc_loop f fuel s) ∧ Forall (fun r => f r = true) (runes u) ∧
  (TrimLeftFunc_loop f fuel s = [] ∨ f (decodeRune (TrimLeftFunc_loop f fuel s)).1 = false).
Proof.
  induction fuel as [|fuel IH]; intros s Hl.
  { exists []. destruct s; [|cbn in Hl; lia]. split_and!; try done. by left. }
  cbn [TrimLeftFunc_loop]. destruct s as [|c s]; [exists []; split_and!; try done; by left|].
  destruct (decodeRune (c :: s)) as [r n] eqn:Hd. pose proof Hd as Hspec. apply decodeRune_head in Hspec as [Hn Hv]; [|done].
  destruct (f r) eqn:Hf.
  - destruct Hv as [Hv|[-> _]]; [|congruence]. set (t := c :: s) in *. destruct (IH (drop n t)) as (u & Hu & Hru & Hall & Hend); [rewrite length_drop; lia|].
    exists (take n t ++ u). rewrite <- app_assoc, <- Hu, take_drop, (runes_rune _ r) by done. split; [done|].
    rewrite <- (take_drop n t) at 1. rewrite (runes_rune _ r), Hru by done. split; [done|]. split; [by constructor|done].
  - exists []. split_and!; try done. right. by rewrite Hd.
Qed.

Lemma TrimLeftFunc_spec s : ∃ u, s = u ++ TrimLeftFunc f s ∧ runes s = runes u ++ runes (TrimLeftFunc f s) ∧
  Forall (fun r => f r = true) (runes u) ∧ (TrimLeftFunc f s = [] ∨ f (decodeRune (TrimLeftFunc f s)).1 = false).
Proof. by apply TrimLeftFunc_loop_spec. Qed.

(** Nothing to trim. *)
Definition trimmed (s : gostring) : Prop := s = [] ∨ f (decodeRune s).1 = false ∧ f (decodeLastRune s).1 = false.

Lemma trimmed_id s : trimmed s → TrimFunc f s = s.
Proof.
  unfold TrimFunc. intros [->|[Hl Hr]]; [done|]. destruct s as [|c s]; [done|].
  assert (HL : TrimLeftFunc f (c :: s) = c :: s).
  { unfold TrimLeftFunc. cbn [TrimLeftFunc_loop length]. destruct (decodeRune (c :: s)) as [r n]. cbn [fst] in Hl. by rewrite Hl. }
  rewrite HL. unfold TrimRightFunc, lastIndexFunc. cbn [length lastIndexFunc_loop]. destruct (decodeLastRune (c :: s)) as [r n] eqn:Hd. cbn [fst] in Hr. rewrite Hr. cbn [Bool.eqb].
  pose proof Hd as Hspec. apply decodeLastRune_spec in Hspec as [Hn _]; [|done]. set (t := c :: s) in *. change (S (length s)) with (length t).
  assert (Hend : (length t - n + n)%nat = length t) by lia.
  rewrite (widths_agree t (length t - n) n); rewrite ?Hend; [by rewrite take_ge|lia|lia|by rewrite take_ge, Hd|by rewrite drop_ge].
Qed.

(** [TrimFunc] removes runes of the kind from the ends, and all of them. *)
Lemma TrimFunc_spec s : ∃ l u, s = l ++ TrimFunc f s ++ u ∧ runes s = runes l ++ runes (TrimFunc f s) ++ runes u ∧
  Forall (fun r => f r = true) (runes l) ∧ Forall (fun r => f r = true) (runes u) ∧ trimmed (TrimFunc f s).
Proof.
  destruct (TrimLeftFunc_spec s) as (l & Hl & Hrl & Hal & Hel). unfold TrimFunc. set (t := TrimLeftFunc f s) in *.
  destruct (TrimRightFunc_spec t) as (u & Hu & Hfr & Hau & Heu). set (m := TrimRightFunc f t) in *.
  exists l, u. rewrite <- Hu, <- runes_app, <- Hu by done. split_and!; try done. destruct Heu as [->|Heu]; [by left|]. unfold trimmed.
  destruct (decide (m = [])) as [|Hm]; [by left|]. right. split; [|done]. destruct Hel as [Ht|Hel]; [exfalso; rewrite Ht in Hu; by destruct m|].
  rewrite Hu in Hel. by rewrite decodeRune_app in Hel.
Qed.

Lemma TrimFunc_length s : (length (TrimFunc f s) <= length s)%nat.
Proof. destruct (TrimFunc_spec s) as (l & u & Hs & _). apply (f_equal length) in Hs. rewrite !length_app in Hs. lia. Qed.
End FuncFacts.
