(* ===== verification/StrSplit.v ===== *)
(** * [pkg/strsplit]: splitting text into chunks

    strsplit.go, over any bytes: lines first, then separators, never inside a
    rune. [unicode.IsPunct] is an argument; slicing out of range is [None]. *)

From stdpp Require Import base option list.
From Stdlib Require Import String.
From S2P Require Import Prelude GoString GoText Utf8.

#[local] Open Scope Z_scope.

Definition len (s : gostring) : Z := Z.of_nat (length s).

(** [s[:n]]. *)
Definition slice_to (s : gostring) (n : nat) : option gostring := if (n <=? length s)%nat then Some (take n s) else None.

(** [limitReached]. *)
Definition limitReached (n : Z) (count : nat) : bool := (0 <? n) && (n <=? Z.of_nat count).

Definition appendChunk (ret : list gostring) (s : gostring) : list gostring :=
  let chunk := TrimSpace s in if str_eqb chunk [] then ret else ret ++ [chunk].

(** The loop of [runeSafeEnd]. *)
Fixpoint runeSafeEnd_loop (s : gostring) (stop : nat) : option nat :=
  match stop with
  | O => Some O
  | S below => b ← s !! stop; if RuneStart b then Some stop else runeSafeEnd_loop s below
  end.

Definition runeSafeEnd (s : gostring) (size : nat) : option nat :=
  stop ← runeSafeEnd_loop s size;
  Some (if (stop =? 0)%nat then (decodeRune s).2 else stop).

Section StrSplit.
Variable IsPunct : Z → bool.

Definition separatorEnd (s : gostring) (stop : nat) : option nat :=
  p ← slice_to s stop;
  match LastIndexFunc IsSpace p with
  | Some i => Some i
  | None =>
      match LastIndexFunc IsPunct p with
      | Some i => Some (i + (decodeRune (drop i s)).2)%nat
      | None => Some stop
      end
  end.

(** The loop of [ChunkLine] and what follows it. *)
Fixpoint ChunkLine_loop (fuel : nat) (s : gostring) (size n : Z) (ret : list gostring) : option (list gostring) :=
  if (size <? len s) && negb (limitReached n (length ret)) then
    match fuel with
    | O => None
    | S fuel =>
        stop ← runeSafeEnd s (Z.to_nat size);
        stop ← separatorEnd s stop;
        p ← slice_to s stop;
        ChunkLine_loop fuel (TrimSpace (drop stop s)) size n (appendChunk ret p)
    end
  else Some (if negb (limitReached n (length ret)) then appendChunk ret s else ret).

(** A nil slice is [Some None]. *)
Definition ChunkLine (s : gostring) (size n : Z) : option (option (list gostring)) :=
  if (size <? 1) || (n =? 0) then Some None else Some <$> ChunkLine_loop (length s) s size n [].

Definition appendLine (ret : list gostring) (line : gostring) (size n : Z) : option (list gostring) :=
  if str_eqb line [] then Some ret
  else if len line <=? size then Some (ret ++ [line])
  else
    let ns := if 0 <? n then n - Z.of_nat (length ret) else n in
    chunks ← ChunkLine line size ns;
    Some (ret ++ default [] chunks).

(** The loop of [Chunk]. *)
Fixpoint Chunk_loop (lines : list gostring) (size n : Z) (ret : list gostring) : option (list gostring) :=
  match lines with
  | [] => Some ret
  | line :: lines =>
      if limitReached n (length ret) then Some ret
      else ret ← appendLine ret (TrimSpace line) size n; Chunk_loop lines size n ret
  end.

Definition Chunk (s : gostring) (size n : Z) : option (option (list gostring)) :=
  if (size <? 1) || (n =? 0) then Some None else Some <$> Chunk_loop (Split 10 s) size n [].

(** ** Specification *)

(** The runes of a text that are not space. *)
Definition words (s : gostring) : list Z := filter (fun r => IsSpace r = false) (runes s).

(** A chunk: not blank, nothing to trim, and within the size but for a rune
    that is wider. *)
Definition chunk_ok (size : Z) (c : gostring) : Prop :=
  c ≠ [] ∧ trimmed IsSpace c ∧ (len c <= size ∨ ∃ r, runes c = [r]).

(** The chunks of a text. *)
Record chunks_of (size : Z) (s : gostring) (cs : list gostring) : Prop := ChunksOf {
  co_words : words s = concat (words <$> cs);
  co_ok : Forall (chunk_ok size) cs;
  co_bytes : ∀ c b, c ∈ cs → b ∈ c → b ∈ s
}.

(** The first [n], or all of them. *)
Definition limit (n : Z) (l : list gostring) : list gostring := if n <? 0 then l else take (Z.to_nat n) l.

Lemma IsSpace_error : IsSpace RuneError = false.
Proof. done. Qed.

Lemma words_trim s : words (TrimSpace s) = words s.
Proof.
  destruct (TrimFunc_spec IsSpace IsSpace_error s) as (l & u & _ & Hr & Hl & Hu & _). unfold words, TrimSpace. rewrite Hr, !filter_app.
  assert (Hnone : ∀ t, Forall (fun r => IsSpace r = true) t → filter (fun r => IsSpace r = false) t = []).
  { intros t Ht. apply filter_none. eapply Forall_impl; [exact Ht|]. cbn. intros x Hx. by rewrite Hx. }
  by rewrite (Hnone _ Hl), (Hnone _ Hu), app_nil_r.
Qed.

Lemma trim_bytes s b : b ∈ TrimSpace s → b ∈ s.
Proof. destruct (TrimFunc_spec IsSpace IsSpace_error s) as (l & u & Hs & _). intros Hb. rewrite Hs. set_solver. Qed.

Lemma trim_trimmed s : trimmed IsSpace (TrimSpace s).
Proof. by destruct (TrimFunc_spec IsSpace IsSpace_error s) as (l & u & _ & _ & _ & _ & Ht). Qed.

Lemma runes_nonempty s : s ≠ [] → runes s ≠ [].
Proof. destruct s as [|c s]; [done|]. by rewrite runes_cons. Qed.

(** What [appendChunk] appends. *)
Lemma appendChunk_chunks size s ret : len s <= size ∨ (∃ r, runes s = [r]) → ∃ cs, appendChunk ret s = ret ++ cs ∧ chunks_of size s cs ∧ (length cs <= 1)%nat.
Proof.
  intros Hs. unfold appendChunk, str_eqb. case_bool_decide as Hc.
  - exists []. rewrite app_nil_r. split; [done|]. split; [|cbn; lia]. constructor; [by rewrite <- words_trim, Hc|constructor|set_solver].
  - exists [TrimSpace s]. split; [done|]. split; [|cbn; lia]. constructor.
    + cbn. by rewrite words_trim, app_nil_r.
    + constructor; [|constructor]. split; [done|]. split; [apply trim_trimmed|]. destruct Hs as [Hs|[r Hr]].
      * left. pose proof (TrimFunc_length IsSpace IsSpace_error s). unfold len, TrimSpace in *. lia.
      * right. exists r. destruct (TrimFunc_spec IsSpace IsSpace_error s) as (l & u & _ & Hru & _). rewrite Hr in Hru. unfold TrimSpace in *.
        pose proof (runes_nonempty _ Hc) as Hne. destruct (runes l) as [|a l']; [|injection Hru as _ Hru; symmetry in Hru; apply app_eq_nil in Hru as [_ Hru]; by apply app_eq_nil in Hru as [Hru _]].
        destruct (runes (TrimFunc IsSpace s)) as [|a t]; [done|]. injection Hru as <- Hru. symmetry in Hru. by apply app_eq_nil in Hru as [-> _].
    + intros c b ->%list_elem_of_singleton Hb. by apply trim_bytes.
Qed.

Lemma limitReached_spec n k : n ≠ 0 → (0 < n → Z.of_nat k <= n) → limitReached n k = true ↔ 0 < n ∧ n = Z.of_nat k.
Proof. intros Hn Hk. unfold limitReached. rewrite andb_true_iff, Z.ltb_lt, Z.leb_le. lia. Qed.

Lemma limit_full n l cs : 0 < n → n = Z.of_nat (length l) → limit n (l ++ cs) = l.
Proof. intros Hn Hl. unfold limit. rewrite (proj2 (Z.ltb_ge _ _)) by lia. rewrite Hl, Nat2Z.id. by rewrite take_app_length. Qed.

Lemma limit_fits n l : (0 < n → Z.of_nat (length l) <= n) → n ≠ 0 → limit n l = l.
Proof. intros Hl Hn. unfold limit. destruct (Z.ltb_spec n 0); [done|]. apply take_ge. lia. Qed.

(** ** One line *)

Hypothesis IsPunct_error : IsPunct RuneError = false.

Lemma runeSafeEnd_loop_spec s : ∀ stop, (stop < length s)%nat → ∃ k, runeSafeEnd_loop s stop = Some k ∧ (k <= stop)%nat ∧ ((0 < k)%nat → boundary (drop k s)).
Proof.
  induction stop as [|below IH]; intros Hl; cbn [runeSafeEnd_loop]; [exists O; split; [done|]; lia|].
  destruct (lookup_lt_is_Some_2 s (S below) Hl) as [b Hb]. rewrite Hb. cbn [mbind option_bind]. destruct (RuneStart b) eqn:Hr.
  - exists (S below). split; [done|]. split; [lia|]. intros _. by rewrite (drop_S _ _ _ Hb).
  - destruct IH as (k & Hk & Hle & Hf); [lia|]. exists k. split; [done|]. split; [lia|done].
Qed.

(** A cut: at a boundary of runes, within the size but for a wide one. *)
Definition cut_ok (size : nat) (s : gostring) (k : nat) : Prop :=
  (k <= length s)%nat ∧ runes s = runes (take k s) ++ runes (drop k s) ∧ ((k <= size)%nat ∨ ∃ r, runes (take k s) = [r]).

Lemma boundary_cut size s k : boundary (drop k s) → (k <= length s)%nat → (k <= size)%nat → cut_ok size s k.
Proof. intros Hf Hl Hk. split; [done|]. split; [|by left]. rewrite <- (take_drop k s) at 1. by apply runes_app. Qed.

Lemma runeSafeEnd_spec s size : (1 <= size < length s)%nat → ∃ k, runeSafeEnd s size = Some k ∧ (1 <= k)%nat ∧ cut_ok size s k.
Proof.
  intros Hs. unfold runeSafeEnd. destruct (runeSafeEnd_loop_spec s size) as (k & -> & Hk & Hf); [lia|]. cbn [mbind option_bind].
  destruct (Nat.eqb_spec k 0) as [->|Hne].
  - assert (Hns : s ≠ []) by (intros ->; cbn in Hs; lia). destruct (decodeRune s) as [r n] eqn:Hd. destruct (decodeRune_head s r n Hns Hd) as [Hn Hv].
    exists n. split; [done|]. split; [lia|]. split; [lia|]. destruct s as [|c s]; [done|]. rewrite (runes_cons c s), Hd. cbn [fst snd].
    assert (Hone : runes (take n (c :: s)) = [r]).
    { destruct Hv as [Hv|[-> ->]]; [rewrite <- (app_nil_r (take _ _)); by rewrite (runes_rune _ r)|]. cbn [take]. destruct (Z.lt_ge_cases c 128) as [Hc|Hc].
      - unfold decodeRune in Hd. rewrite (proj2 (Z.ltb_lt _ _)) in Hd by done. injection Hd as ->. unfold RuneError in Hc. lia.
      - rewrite runes_cons. unfold decodeRune. by rewrite (proj2 (Z.ltb_ge _ _)). }
    rewrite Hone. split; [done|]. right. by exists r.
  - exists k. split; [done|]. split; [lia|]. apply boundary_cut; [apply Hf|..]; lia.
Qed.

(** The cut at a separator, and the text that is left, which is shorter. *)
Lemma separatorEnd_spec s size k : (1 <= k)%nat → cut_ok size s k →
  ∃ j, separatorEnd s k = Some j ∧ cut_ok size s j ∧ (length (TrimSpace (drop j s)) < length s)%nat.
Proof.
  intros Hk (Hl & Hr & Hb). unfold separatorEnd, slice_to. rewrite (proj2 (Nat.leb_le _ _)) by done. cbn [mbind option_bind].
  assert (Hless : ∀ j, (0 < j <= length s)%nat → (length (TrimSpace (drop j s)) < length s)%nat).
  { intros j Hj. pose proof (TrimFunc_length IsSpace IsSpace_error (drop j s)) as Ht. rewrite length_drop in Ht. unfold TrimSpace. lia. }
  assert (Hsub : ∀ a w r b, rune_text w r → take k s = a ++ w ++ b → s = a ++ w ++ b ++ drop k s ∧ (length a + length w <= k)%nat).
  { intros a w r b _ Ht. pose proof (f_equal length Ht) as Hlt. rewrite length_take, !length_app in Hlt. split; [|lia].
    rewrite <- (take_drop k s) at 1. by rewrite Ht, <- !app_assoc. }
  assert (Hw1 : ∀ w r, rune_text w r → (1 <= length w)%nat) by (intros [|c w] r Hw; [by destruct Hw|cbn; lia]).
  unfold LastIndexFunc, lastIndexFunc. destruct (lastIndexFunc_loop IsSpace _ true _) as [i|] eqn:Hsp.
  - apply (lastIndexFunc_true IsSpace IsSpace_error) in Hsp as (a & w & r & b & Ht & <- & Hw & Hspace); [|lia]. destruct (Hsub a w r b Hw Ht) as [Hs Hlen].
    pose proof (Hw1 w r Hw) as Hww. exists (length a). split; [done|]. assert (Hd : drop (length a) s = w ++ b ++ drop k s) by (rewrite Hs at 1; by rewrite drop_app_length).
    split.
    + destruct Hb as [Hb|[r1 Hr1]].
      * apply boundary_cut; [rewrite Hd; by eapply rune_text_fresh|lia|lia].
      * rewrite Ht, (runes_around a w r b Hw) in Hr1. assert (Ha : a = []).
        { destruct a as [|c a]; [done|]. rewrite runes_cons in Hr1. injection Hr1 as _ Hr1. by apply app_eq_nil in Hr1 as [_ Hr1]. }
        subst a. apply boundary_cut; [rewrite Hd; by eapply rune_text_fresh|cbn;lia|cbn;lia].
    + destruct a as [|c a]; [|apply Hless; cbn in *; lia]. rewrite Hd. unfold TrimSpace, TrimFunc. clear Hless.
      assert (Hleft : (length (TrimLeftFunc IsSpace (w ++ b ++ drop k s)) < length s)%nat).
      { cbn [app] in Hs. rewrite Hs at 2. pose proof (rune_text_app w r (b ++ drop k s) Hw) as Hdec. destruct w as [|w0 w]; [by destruct Hw|].
        unfold TrimLeftFunc. cbn [app length TrimLeftFunc_loop]. change (w0 :: w ++ b ++ drop k s) with ((w0 :: w) ++ b ++ drop k s) at 1. rewrite Hdec, Hspace.
        destruct (TrimLeftFunc_loop_spec IsSpace IsSpace_error (length (w ++ b ++ drop k s)) (drop (length (w0 :: w)) (w0 :: w ++ b ++ drop k s))) as (u & Hu & _).
        { rewrite length_drop. cbn. lia. }
        set (L := TrimLeftFunc_loop _ _ _) in *. clearbody L. apply (f_equal length) in Hu. rewrite (length_app u L), length_drop in Hu. cbn [length] in Hu. lia. }
      destruct (TrimRightFunc_spec IsSpace IsSpace_error (TrimLeftFunc IsSpace (w ++ b ++ drop k s))) as (u & Hu & _). apply (f_equal length) in Hu. rewrite length_app in Hu. lia.
  - destruct (lastIndexFunc_loop IsPunct _ true _) as [i|] eqn:Hpu; [|exists k; split; [done|]; split; [done|apply Hless; lia]].
    apply (lastIndexFunc_true IsPunct IsPunct_error) in Hpu as (a & w & r & b & Ht & <- & Hw & _); [|lia]. destruct (Hsub a w r b Hw Ht) as [Hs Hlen].
    pose proof (Hw1 w r Hw) as Hww. assert (Hd : drop (length a) s = w ++ b ++ drop k s) by (rewrite Hs at 1; by rewrite drop_app_length).
    rewrite Hd, (rune_text_app w r) by done. cbn [snd]. exists (length a + length w)%nat. split; [done|].
    assert (Htk : take (length a + length w) s = a ++ w) by (rewrite Hs at 1; rewrite app_assoc, take_app_length' by (by rewrite length_app); done).
    assert (Hdk : drop (length a + length w) s = b ++ drop k s) by (rewrite Hs at 1; rewrite app_assoc, drop_app_length' by (by rewrite length_app); done).
    assert (Haw : runes (a ++ w) = runes a ++ [r]) by (rewrite <- (app_nil_r w); by rewrite (runes_around a w r)).
    split; [|apply Hless; lia]. split; [lia|]. rewrite Htk, Hdk, Haw. split.
    + rewrite Hs at 1. rewrite (runes_around a w r) by done. by rewrite <- app_assoc.
    + destruct Hb as [Hb|[r1 Hr1]]; [left; lia|right]. rewrite Ht, (runes_around a w r b Hw) in Hr1. exists r.
      destruct (runes a) as [|x l]; [done|]. injection Hr1 as _ Hr1. by apply app_eq_nil in Hr1 as [_ Hr1].
Qed.

Lemma words_app a b : runes (a ++ b) = runes a ++ runes b → words (a ++ b) = words a ++ words b.
Proof. intros Hr. unfold words. by rewrite Hr, filter_app. Qed.

(** The chunks of the part that is cut off, then those of the rest. *)
Lemma chunks_of_cut size s k c1 c2 : cut_ok (Z.to_nat size) s k → 0 <= size → chunks_of size (take k s) c1 → chunks_of size (TrimSpace (drop k s)) c2 → chunks_of size s (c1 ++ c2).
Proof.
  intros (Hl & Hr & Hb) Hs [H1w H1o H1b] [H2w H2o H2b]. constructor.
  - rewrite <- (take_drop k s), words_app by (by rewrite take_drop). rewrite H1w, <- (words_trim (drop k s)), H2w. by rewrite fmap_app, concat_app.
  - by apply Forall_app.
  - intros c b [Hc|Hc]%elem_of_app Hb'; [eapply subseteq_take; by eapply H1b|]. apply (subseteq_drop k), trim_bytes. by eapply H2b.
Qed.

Lemma ChunkLine_loop_spec size (Hsize : 1 <= size) fuel : ∀ s, (length s <= fuel)%nat → ∃ cs, chunks_of size s cs ∧
  ∀ n ret, n ≠ 0 → (0 < n → Z.of_nat (length ret) <= n) → ChunkLine_loop fuel s size n ret = Some (limit n (ret ++ cs)).
Proof.
  induction fuel as [|fuel IH]; intros s Hf.
  { destruct s; [|cbn in Hf; lia]. exists []. split; [constructor; [done|constructor|set_solver]|]. intros n ret Hn Hret. cbn [ChunkLine_loop]. unfold len. cbn [length].
    rewrite (proj2 (Z.ltb_ge _ _)) by lia. cbn [andb]. rewrite app_nil_r, limit_fits by done. by case_match. }
  destruct (Z.lt_ge_cases size (len s)) as [Hlong|Hfit].
  - destruct (runeSafeEnd_spec s (Z.to_nat size)) as (k & Hk & Hk1 & Hcut); [unfold len in Hlong; lia|].
    destruct (separatorEnd_spec s (Z.to_nat size) k Hk1 Hcut) as (j & Hj & Hjcut & Hless). destruct (IH (TrimSpace (drop j s))) as (cs & Hcs & Hloop); [lia|].
    destruct (appendChunk_chunks size (take j s) []) as (c1 & Hc1 & Hc1s & Hc1l).
    { destruct Hjcut as (_ & _ & [Hle|Hone]); [left|by right]. unfold len. rewrite length_take. lia. }
    assert (Happ : ∀ ret, appendChunk ret (take j s) = ret ++ c1).
    { intros ret. unfold appendChunk in *. destruct (str_eqb _ _); cbn [app] in Hc1; rewrite <- Hc1; [by rewrite app_nil_r|done]. }
    exists (c1 ++ cs). split; [eapply chunks_of_cut; [done|lia|done|done]|]. intros n ret Hn Hret. cbn [ChunkLine_loop].
    rewrite (proj2 (Z.ltb_lt _ _)) by done. cbn [andb]. destruct (limitReached n (length ret)) eqn:Hlim; cbn [negb].
    + apply limitReached_spec in Hlim as [Hpos Hfull]; [|done|done]. by rewrite limit_full.
    + rewrite Hk. cbn [mbind option_bind]. rewrite Hj. cbn [mbind option_bind]. unfold slice_to. destruct Hjcut as (Hjl & _). rewrite (proj2 (Nat.leb_le _ _)) by done. cbn [mbind option_bind].
      rewrite Happ, Hloop, <- app_assoc; [done|done|]. intros Hpos. specialize (Hret Hpos). rewrite length_app.
      unfold limitReached in Hlim. rewrite (proj2 (Z.ltb_lt _ _)) in Hlim by done. cbn [andb] in Hlim. apply Z.leb_gt in Hlim. lia.
  - destruct (appendChunk_chunks size s []) as (c1 & Hc1 & Hc1s & Hc1l); [by left|].
    assert (Happ : ∀ ret, appendChunk ret s = ret ++ c1).
    { intros ret. unfold appendChunk in *. destruct (str_eqb _ _); cbn [app] in Hc1; rewrite <- Hc1; [by rewrite app_nil_r|done]. }
    exists c1. split; [done|]. intros n ret Hn Hret. cbn [ChunkLine_loop]. rewrite (proj2 (Z.ltb_ge _ _)) by done. cbn [andb].
    destruct (limitReached n (length ret)) eqn:Hlim; cbn [negb].
    + apply limitReached_spec in Hlim as [Hpos Hfull]; [|done|done]. by rewrite limit_full.
    + rewrite Happ, limit_fits; [done| |done]. intros Hpos. unfold limitReached in Hlim. rewrite (proj2 (Z.ltb_lt _ _)) in Hlim by done. cbn [andb] in Hlim. apply Z.leb_gt in Hlim.
      rewrite length_app. lia.
Qed.

(** ** A block *)

Lemma limit_more n l cs : n ≠ 0 → (0 < n → Z.of_nat (length l) <= n) → limit n (l ++ cs) = l ++ limit (if 0 <? n then n - Z.of_nat (length l) else n) cs.
Proof.
  intros Hn Hl. unfold limit. destruct (Z.ltb_spec n 0).
  - rewrite (proj2 (Z.ltb_ge 0 n)), (proj2 (Z.ltb_lt n 0)) by lia. done.
  - rewrite (proj2 (Z.ltb_lt 0 n)) by lia. rewrite (proj2 (Z.ltb_ge _ 0)) by lia. rewrite take_app_ge by lia. do 2 f_equal. lia.
Qed.

Lemma appendLine_spec size (Hsize : 1 <= size) line : trimmed IsSpace line → ∃ cs, chunks_of size line cs ∧
  ∀ n ret, n ≠ 0 → (0 < n → Z.of_nat (length ret) < n) → appendLine ret line size n = Some (limit n (ret ++ cs)).
Proof.
  intros Htrim. unfold appendLine, str_eqb. case_bool_decide as Hnil.
  { exists []. subst line. split; [constructor; [done|constructor|set_solver]|]. intros n ret Hn Hret. rewrite app_nil_r, limit_fits; [done|lia|done]. }
  destruct (Z.leb_spec (len line) size) as [Hfit|Hlong].
  - exists [line]. split; [constructor|].
    + cbn. by rewrite app_nil_r.
    + constructor; [|constructor]. split_and!; [done|done|by left].
    + by intros c b ->%list_elem_of_singleton.
    + intros n ret Hn Hret. rewrite limit_fits; [done| |done]. rewrite length_app. cbn. lia.
  - destruct (ChunkLine_loop_spec size Hsize (length line) line ltac:(lia)) as (cs & Hcs & Hloop). exists cs. split; [done|]. intros n ret Hn Hret.
    set (ns := if 0 <? n then n - Z.of_nat (length ret) else n). assert (Hns : ns ≠ 0) by (subst ns; destruct (Z.ltb_spec 0 n); lia).
    unfold ChunkLine. rewrite (proj2 (Z.ltb_ge _ _)), (proj2 (Z.eqb_neq _ _)) by done. cbn [orb].
    rewrite Hloop; [|done|cbn; lia]. cbn [fmap option_fmap option_map mbind option_bind default from_option app id].
    rewrite limit_more; [done|done|lia].
Qed.

Lemma limit_again n l cs : limit n (limit n l ++ cs) = limit n (l ++ cs).
Proof.
  unfold limit. destruct (n <? 0); [done|]. generalize (Z.to_nat n). intros k. revert k. induction l as [|x l IH]; intros [|k]; [done..|]. cbn. by rewrite IH.
Qed.

Lemma words_line line rest : words (line ++ 10 :: rest) = words line ++ words rest.
Proof.
  unfold words. change (10 :: rest) with ([10] ++ rest). rewrite (runes_around line [10] 10 rest) by (by repeat split). by rewrite filter_app, filter_cons, decide_False.
Qed.

Lemma Chunk_loop_spec size (Hsize : 1 <= size) lines : ∃ cs, words (Join 10 lines) = concat (words <$> cs) ∧ Forall (chunk_ok size) cs ∧
  (∀ c b, c ∈ cs → b ∈ c → ∃ line, line ∈ lines ∧ b ∈ line) ∧
  ∀ n ret, n ≠ 0 → (0 < n → Z.of_nat (length ret) <= n) → Chunk_loop lines size n ret = Some (limit n (ret ++ cs)).
Proof.
  induction lines as [|line lines (cs & Hw & Hok & Hb & Hloop)].
  { exists []. split; [done|]. split; [constructor|]. split; [set_solver|]. intros n ret Hn Hret. by rewrite app_nil_r, limit_fits. }
  destruct (appendLine_spec size Hsize (TrimSpace line) (trim_trimmed line)) as (c1 & [H1w H1o H1b] & Happ). exists (c1 ++ cs). split; [|split; [by apply Forall_app|split]].
  - rewrite fmap_app, concat_app, <- H1w, words_trim, <- Hw. destruct lines as [|l2 lines]; [cbn; by rewrite app_nil_r|]. cbn [Join]. fold (Join 10 (l2 :: lines)).
    apply words_line.
  - intros c b [Hc|Hc]%elem_of_app Hb'; [exists line; split; [by left|]; eapply trim_bytes; by eapply H1b|]. destruct (Hb c b Hc Hb') as (l & Hl & Hbl). exists l. split; [by right|done].
  - intros n ret Hn Hret. cbn [Chunk_loop]. destruct (limitReached n (length ret)) eqn:Hlim.
    + apply limitReached_spec in Hlim as [Hpos Hfull]; [|done|done]. by rewrite limit_full.
    + assert (Hroom : 0 < n → Z.of_nat (length ret) < n).
      { intros Hpos. unfold limitReached in Hlim. rewrite (proj2 (Z.ltb_lt _ _)) in Hlim by done. cbn [andb] in Hlim. by apply Z.leb_gt in Hlim. }
      rewrite Happ by done. cbn [mbind option_bind]. rewrite Hloop; [|done|].
      * by rewrite limit_again, app_assoc.
      * intros Hpos. unfold limit. rewrite (proj2 (Z.ltb_ge _ _)) by lia. rewrite length_take. lia.
Qed.

Lemma Split_no_sep c s l : l ∈ Split c s → c ∉ l.
Proof.
  revert l. induction s as [|d s IH]; intros l; cbn [Split]; [intros ->%list_elem_of_singleton; apply not_elem_of_nil|]. destruct (Z.eqb_spec d c) as [->|Hd].
  { intros [->|Hl]%elem_of_cons; [apply not_elem_of_nil|by apply IH]. }
  destruct (Split c s) as [|w ws].
  - intros ->%list_elem_of_singleton [Hc|Hc]%elem_of_cons; [congruence|by apply elem_of_nil in Hc].
  - intros [->|Hl]%elem_of_cons; [|apply IH; by right]. intros [Hc|Hc]%elem_of_cons; [congruence|]. revert Hc. apply IH. by left.
Qed.
End StrSplit.

(** C37. Splitting a text, whatever its bytes. [Chunk] and [ChunkLine] return
    for every argument, nil exactly when the size or the limit is invalid. A
    limit keeps the first chunks of the unlimited answer. The runes of the
    chunks that are not space are, in order, those of the text: nothing is
    lost, doubled or cut inside a rune. Each chunk is not blank, has nothing to
    trim, and is within the size, but for a single rune that is wider; and no
    chunk of a block reaches over the end of a line. *)
Theorem Chunk_correct IsPunct s size n (HP : IsPunct RuneError = false) (Hsize : 1 <= size) (Hn : n ≠ 0) :
  (∃ cs, ChunkLine IsPunct s size (-1) = Some (Some cs) ∧ ChunkLine IsPunct s size n = Some (Some (limit n cs)) ∧
    words s = concat (words <$> cs) ∧ Forall (chunk_ok size) cs) ∧
  (∃ cs, Chunk IsPunct s size (-1) = Some (Some cs) ∧ Chunk IsPunct s size n = Some (Some (limit n cs)) ∧
    words s = concat (words <$> cs) ∧ Forall (chunk_ok size) cs ∧ Forall (fun c => 10 ∉ c) cs) ∧
  ∀ m k, m < 1 ∨ k = 0 → ChunkLine IsPunct s m k = Some None ∧ Chunk IsPunct s m k = Some None.
Proof.
  split; [|split].
  - destruct (ChunkLine_loop_spec IsPunct HP size Hsize (length s) s ltac:(lia)) as (cs & [Hw Ho _] & Hloop). exists cs. unfold ChunkLine.
    rewrite (proj2 (Z.ltb_ge _ _)), (proj2 (Z.eqb_neq n 0)) by done. cbn [orb Z.eqb]. rewrite !Hloop by (done || cbn; lia). done.
  - destruct (Chunk_loop_spec IsPunct HP size Hsize (Split 10 s)) as (cs & Hw & Ho & Hb & Hloop). exists cs. unfold Chunk.
    rewrite (proj2 (Z.ltb_ge _ _)), (proj2 (Z.eqb_neq n 0)) by done. cbn [orb Z.eqb]. rewrite !Hloop by (done || cbn; lia). rewrite Join_Split in Hw. split_and!; try done.
    apply Forall_forall. intros c Hc H10. destruct (Hb c 10 Hc H10) as (l & Hl & Hbl). by apply (Split_no_sep 10 s l).
  - intros m k Hmk. unfold ChunkLine, Chunk. assert (Hg : (m <? 1) || (k =? 0) = true) by (rewrite orb_true_iff, Z.ltb_lt, Z.eqb_eq; lia). by rewrite Hg.
Qed.

(** The ASCII punctuation. *)
Definition asciiPunct (r : Z) : bool := bool_decide (r ∈ str "!#%&'()*,-./:;?@[\]_{}").

Definition sample_text : gostring := str " one two,three" ++ [10; 9; 10] ++ str "fo-urfivesix  ".

Lemma Chunk_correct_witness : asciiPunct RuneError = false ∧ 1 <= 10 ∧ 3 ≠ 0 ∧ ∃ cs,
  Chunk asciiPunct sample_text 10 (-1) = Some (Some cs) ∧ Chunk asciiPunct sample_text 10 3 = Some (Some (limit 3 cs)) ∧
  limit 3 cs = [str "one"; str "two,three"; str "fo-"] ∧ words sample_text = concat (words <$> cs).
Proof.
  split; [reflexivity|]. split; [lia|]. split; [lia|].
  destruct (Chunk_correct asciiPunct sample_text 10 3) as (_ & (cs & Hcs & H3 & Hw & _) & _); [reflexivity|lia|lia|].
  exists cs. split; [exact Hcs|]. split; [exact H3|]. split; [|exact Hw]. vm_compute in H3. vm_compute. by injection H3 as <-.
Defined.
