(* ===== verification/Pwned.v ===== *)
(** * [pkg/passwordpwned]: looking a password up in a breach database

    passwordpwned.go, client.go and options.go over [HTTPRetrier]: only the
    first five digits of a hash leave the process, the answer is bounded,
    checked and searched for the others. SHA-1, the decompressors, URL parsing
    and what the server answers are arguments. *)

From stdpp Require Import base option list.
From Stdlib Require Import Floats String.
From S2P Require Import Prelude Backoff GoString GoText Utf8 UHex RedactBytes HTTPRetrier.

#[local] Open Scope Z_scope.

Definition prefixLen : nat := 5.
Definition suffixLen : nat := 35.
Definition StatusOK : Z := 200.

Definition defaultTimeout : Z := 30 * Second.
Definition defaultAPIURL : gostring := str "https://api.pwnedpasswords.com".
Definition rangePath : gostring := str "range".
Definition defaultUserAgent : gostring := str "nurago.passwordpwned/1".
Definition defaultMaxResponseBytes : Z := Z.shiftl 8 20.
Definition defaultMaxRetryAfter : Z := 60 * Second.
Definition defaultPingTimeout : Z := 5 * Second.
Definition healthCheckPrefix : gostring := str "00000".

(** ** Checking and searching a range *)

(** [hex.EncodeToString] and [strings.ToUpper] of what it returns. *)
Definition EncodeToString (bs : list Z) : gostring := concat (map (fun b => [hex_digit (b / 16); hex_digit (b mod 16)]) bs).
Definition upperASCII (b : Z) : Z := if GoString.between 97 b 122 then b - 32 else b.
Definition ToUpper (s : gostring) : gostring := map upperASCII s.

(** The loop of [readRangeBody] over the letters of hexadecimal. *)
Definition upperHex (b : Z) : Z := if GoString.between 97 b 102 then b - 32 else b.

Definition isUpperHex (b : Z) : bool := negb (((b <? 48) || (57 <? b)) && ((b <? 65) || (70 <? b))).

Definition validRangeStart (data : gostring) : bool :=
  if (length data <? suffixLen + 2)%nat then false
  else forallb isUpperHex (take suffixLen data) && (data !!! suffixLen =? 58) && (48 <=? data !!! S suffixLen) && (data !!! S suffixLen <=? 57).

(** The loop of [parseCount]. *)
Fixpoint countDigits (data : gostring) : gostring :=
  match data with
  | b :: data => if (48 <=? b) && (b <=? 57) then b :: countDigits data else []
  | [] => []
  end.

Inductive perror (E CE : Type) : Type :=
| ErrInvalidURL
| ErrInvalidUserAgent
| ErrMalformedResponse
| ErrUnexpectedStatus (code : Z)
| ErrResponseTooLarge
| ErrUnsupportedEncoding (enc : gostring)
| ErrRetryConfiguration (e : option_error)
| ErrCreateRequest
| ErrExecute (e : @do_error E + CE)
| ErrGzip (e : E)
| ErrDecode (e : E).
Arguments ErrInvalidURL {E CE}. Arguments ErrInvalidUserAgent {E CE}. Arguments ErrMalformedResponse {E CE}. Arguments ErrUnexpectedStatus {E CE} code.
Arguments ErrResponseTooLarge {E CE}. Arguments ErrUnsupportedEncoding {E CE} enc. Arguments ErrRetryConfiguration {E CE} e. Arguments ErrCreateRequest {E CE}.
Arguments ErrExecute {E CE} e. Arguments ErrGzip {E CE} e. Arguments ErrDecode {E CE} e.

Section Pwned.
Context {E CE : Type}.

(** [strconv.Atoi] on digits is [ParseInt]. *)
Definition parseCount (data : gostring) (start : nat) : result (perror E CE) Z :=
  match ParseInt (countDigits (drop start data)) with
  | Some n => Ok n
  | None => Error ErrMalformedResponse
  end.

Definition matchCount (data suffix : gostring) : result (perror E CE) Z :=
  match Index data suffix with
  | None => Ok 0
  | Some idx =>
      let sep := (idx + suffixLen)%nat in
      if (length data <=? sep + 1)%nat || negb (data !!! sep =? 58) then Error ErrMalformedResponse
      else parseCount data (sep + 1)
  end.

(** A reader: what it delivers, and the error that follows if it is not the
    end. *)
Record reader : Type := MkReader { r_data : gostring; r_err : option E }.

(** [io.ReadAll(io.LimitReader(r, n))]. *)
Definition ReadAllLimit (r : reader) (n : Z) : gostring * option E :=
  if n <=? 0 then ([], None)
  else if Z.of_nat (length (r_data r)) <? n then (r_data r, r_err r)
  else (take (Z.to_nat n) (r_data r), None).

Definition readRangeBody (r : reader) (limit : Z) : result (perror E CE) gostring :=
  let '(data, rerr) := ReadAllLimit r (wrapS 64 (limit + 1)) in
  match rerr with
  | Some e => Error (ErrDecode e)
  | None =>
      if limit <? Z.of_nat (length data) then Error ErrResponseTooLarge
      else
        let data := map upperHex data in
        if negb (validRangeStart data) then Error ErrMalformedResponse else Ok data
  end.

(** ** The client *)

(** Of [httpClient] only whether it is set. *)
Record Client : Type := MkClient {
  c_timeout : Z;
  c_pingTimeout : Z;
  c_retryDelay : Z;
  c_retryAttempts : Z;
  c_apiURL : gostring;
  c_userAgent : gostring;
  c_maxResponseBytes : Z;
  c_httpClient : bool
}.

Definition defaultClient : Client :=
  MkClient defaultTimeout defaultPingTimeout DefaultDelay DefaultAttempts defaultAPIURL defaultUserAgent defaultMaxResponseBytes false.

Definition POption : Type := Client → Client.
Definition WithURL (addr : gostring) : POption := fun c =>
  MkClient (c_timeout c) (c_pingTimeout c) (c_retryDelay c) (c_retryAttempts c) addr (c_userAgent c) (c_maxResponseBytes c) (c_httpClient c).
Definition WithUserAgent (s : gostring) : POption := fun c =>
  MkClient (c_timeout c) (c_pingTimeout c) (c_retryDelay c) (c_retryAttempts c) (c_apiURL c) s (c_maxResponseBytes c) (c_httpClient c).
Definition WithTimeout (timeout : Z) : POption := fun c =>
  if 0 <? timeout then MkClient timeout (c_pingTimeout c) (c_retryDelay c) (c_retryAttempts c) (c_apiURL c) (c_userAgent c) (c_maxResponseBytes c) (c_httpClient c) else c.
Definition WithHTTPClient (set : bool) : POption := fun c =>
  MkClient (c_timeout c) (c_pingTimeout c) (c_retryDelay c) (c_retryAttempts c) (c_apiURL c) (c_userAgent c) (c_maxResponseBytes c) set.
Definition WithRetryAttempts (n : Z) : POption := fun c =>
  MkClient (c_timeout c) (c_pingTimeout c) (c_retryDelay c) n (c_apiURL c) (c_userAgent c) (c_maxResponseBytes c) (c_httpClient c).
Definition WithRetryDelay (d : Z) : POption := fun c =>
  MkClient (c_timeout c) (c_pingTimeout c) d (c_retryAttempts c) (c_apiURL c) (c_userAgent c) (c_maxResponseBytes c) (c_httpClient c).
Definition WithResponseSizeLimit (limit : Z) : POption := fun c =>
  if 0 <? limit then MkClient (c_timeout c) (c_pingTimeout c) (c_retryDelay c) (c_retryAttempts c) (c_apiURL c) (c_userAgent c) limit (c_httpClient c) else c.
Definition WithPingTimeout (timeout : Z) : POption := fun c =>
  if 0 <? timeout then MkClient (c_timeout c) timeout (c_retryDelay c) (c_retryAttempts c) (c_apiURL c) (c_userAgent c) (c_maxResponseBytes c) (c_httpClient c) else c.

Definition validateUserAgent (s : gostring) : result (perror E CE) unit :=
  if str_eqb s [] then Error ErrInvalidUserAgent
  else if existsb (fun r => (r <? 32) || (r =? 127)) (runes s) then Error ErrInvalidUserAgent
  else Ok tt.

(** [strings.TrimRight(s, "/")]. *)
Fixpoint trimSlashes (rev_s : gostring) : gostring :=
  match rev_s with
  | b :: s => if b =? 47 then trimSlashes s else rev_s
  | [] => []
  end.
Definition TrimRightSlash (s : gostring) : gostring := rev (trimSlashes (rev s)).

(** What the package reads of a [url.URL]. *)
Record URL : Type := MkURL { Scheme : gostring; Host : gostring; RawQuery : gostring; Fragment : gostring }.

(** What is outside the module. *)
Variable sha1 : gostring → list Z.
Variable brotli : reader → reader.
Variable gunzip : reader → result E reader.
Variable unicodeLower : Z → Z.
Variable ParseRequestURI : gostring → option URL.

Definition New (opts : list POption) : result (perror E CE) (Client * @HTTPRetrier E) :=
  (let c := fold_left (fun c o => o c) opts defaultClient in
   let c := if c_httpClient c then c else WithHTTPClient true c in
   _ <-? validateUserAgent (c_userAgent c) ;;
   match ParseRequestURI (c_apiURL c) with
   | None => Error ErrInvalidURL
   | Some u =>
       if str_eqb (Scheme u) [] || str_eqb (Host u) [] then Error ErrInvalidURL
       else if negb (str_eqb (RawQuery u) []) || negb (str_eqb (Fragment u) []) then Error ErrInvalidURL
       else
         let c := WithURL (TrimRightSlash (c_apiURL c)) c in
         match HTTPRetrier.New [WithRetryIfFn (Some RetryIfForReadRequests); WithAttempts (c_retryAttempts c); WithDelay (c_retryDelay c);
                                WithRespectRetryAfter; WithMaxRetryAfter defaultMaxRetryAfter] with
         | Ok r => Ok (c, r)
         | Error e => Error (ErrRetryConfiguration e)
         end
   end)%go.

(** ** A lookup *)

(** A server, as seen from one URL: whether a request for it can be built, how
    it answers, and the encoding and the body of each answer. *)
Record site : Type := MkSite {
  s_valid : bool;
  s_env : @env E CE;
  s_encoding : nat → gostring;
  s_body : nat → reader
}.

Definition decodeBody (encoding : gostring) (body : reader) : result (perror E CE) reader :=
  let enc := strToLower unicodeLower (TrimSpace encoding) in
  if str_eqb enc (str "br") then Ok (brotli body)
  else if str_eqb enc (str "gzip") then match gunzip body with Ok gz => Ok gz | Error e => Error (ErrGzip e) end
  else if str_eqb enc [] || str_eqb enc (str "identity") then Ok body
  else Error (ErrUnsupportedEncoding enc).

Definition rangeURL (c : Client) (prefix : gostring) : gostring := c_apiURL c ++ str "/" ++ rangePath ++ str "/" ++ prefix.

(** [fetchRange], with the calls made; the body is closed when it returns. *)
Definition fetchRange (fuel : nat) (server : gostring → site) (c : Client) (r : @HTTPRetrier E) (prefix : gostring)
    : option (result (perror E CE) gostring * list (@event E)) :=
  let s := server (rangeURL c prefix) in
  if negb (s_valid s) then Some (Error ErrCreateRequest, [])
  else
    '(out, st) ← Do fuel (s_env s) r false false;
    match out with
    | BeforeFirst ce | ContextEnded ce => Some (Error (ErrExecute (inr ce)), events st)
    | Blocked => None
    | Returned _ (Some e) => Some (Error (ErrExecute (inl e)), events st)
    | Returned None None => None
    | Returned (Some (i, resp)) None =>
        if negb (HasBody resp) then Some (Error ErrMalformedResponse, events st)
        else
          let res := (if negb (StatusCode resp =? StatusOK) then Error (ErrUnexpectedStatus (StatusCode resp))
                      else rd <-? decodeBody (s_encoding s i) (s_body s i) ;; readRangeBody rd (c_maxResponseBytes c))%go in
          Some (res, events st ++ [Closed i])
    end.

Definition hashOf (password : gostring) : gostring := ToUpper (EncodeToString (sha1 password)).

Definition PwnedCount (fuel : nat) (server : gostring → site) (c : Client) (r : @HTTPRetrier E) (password : gostring)
    : option (result (perror E CE) Z * list (@event E)) :=
  let hash := hashOf password in
  '(res, tr) ← fetchRange fuel server c r (take prefixLen hash);
  Some ((data <-? res ;; matchCount data (drop prefixLen hash))%go, tr).

(** The boolean next to the error. *)
Definition IsPwnedPassword (fuel : nat) (server : gostring → site) (c : Client) (r : @HTTPRetrier E) (password : gostring)
    : option (bool * option (perror E CE)) :=
  '(res, _) ← PwnedCount fuel server c r password;
  Some (match res with Ok count => (0 <? count, None) | Error e => (false, Some e) end).

(** [HealthCheck]: one request, its error, and whether a body was closed. *)
Definition HealthCheck (server : gostring → site) (c : Client) : option (option (perror E CE) * bool) :=
  let s := server (rangeURL c healthCheckPrefix) in
  if negb (s_valid s) then Some (Some ErrCreateRequest, false)
  else match client (s_env s) 0 with
       | (_, Some e) => Some (Some (ErrExecute (inl (ClientError e))), false)
       | (None, None) => None
       | (Some resp, None) =>
           Some (if negb (StatusCode resp =? StatusOK) then Some (ErrUnexpectedStatus (StatusCode resp)) else None, HasBody resp)
       end.

(** ** Texts of hexadecimal *)

Lemma isUpperHex_spec b : isUpperHex b = true ↔ 48 <= b <= 57 ∨ 65 <= b <= 70.
Proof. unfold isUpperHex. rewrite negb_true_iff, andb_false_iff, !orb_false_iff, !Z.ltb_ge. lia. Qed.

Definition upper_hex (s : gostring) : Prop := Forall (fun b => isUpperHex b = true) s.

Lemma no_prefix suf pre x post : upper_hex suf → isUpperHex x = false → (length pre < length suf)%nat → is_prefix suf (pre ++ x :: post) = false.
Proof.
  intros Hs Hx Hl. apply not_true_iff_false. intros [r Hr]%is_prefix_spec. apply (f_equal (lookup (length pre))) in Hr.
  rewrite list_lookup_middle in Hr by done. rewrite lookup_app_l in Hr by done. symmetry in Hr. pose proof (Forall_lookup_1 _ _ _ _ Hs Hr) as Hh. cbn in Hh. congruence.
Qed.

(** What follows the first occurrence. *)
Definition after (data suf : gostring) : option gostring := (fun k => drop (k + length suf) data) <$> Index data suf.

Lemma after_skip suf pre x post : upper_hex suf → isUpperHex x = false → (length pre < length suf)%nat → after (pre ++ x :: post) suf = after post suf.
Proof.
  intros Hs Hx. unfold after. induction pre as [|p pre IH]; intros Hl; cbn [app Index].
  - pose proof (no_prefix suf [] x post Hs Hx Hl) as Hn. cbn [app] in Hn. rewrite Hn. by destruct (Index post suf).
  - pose proof (no_prefix suf (p :: pre) x post Hs Hx Hl) as Hn. cbn [app] in Hn. rewrite Hn. cbn [length] in Hl. rewrite <- IH by lia. by destruct (Index (pre ++ x :: post) suf).
Qed.

Lemma after_short data suf : (length data < length suf)%nat → after data suf = None.
Proof.
  intros Hl. unfold after. destruct (Index data suf) as [k|] eqn:Hk; [|done]. apply Index_spec in Hk as [Hk _]. lia.
Qed.

Lemma after_here suf post : after (suf ++ post) suf = Some post.
Proof.
  unfold after. destruct (suf ++ post) as [|c s] eqn:Hc.
  - apply app_eq_nil in Hc as [-> ->]. done.
  - cbn [Index]. rewrite (proj2 (is_prefix_spec suf (c :: s))) by (exists post; by rewrite <- Hc). cbn. rewrite <- Hc. by rewrite drop_app_length.
Qed.

(** A line of 35 digits and a colon is a match or is skipped. *)
Lemma after_line suf s post : upper_hex suf → length suf = suffixLen → length s = suffixLen →
  after (s ++ 58 :: post) suf = if str_eqb s suf then Some (58 :: post) else after post suf.
Proof.
  intros Hs Hl1 Hl2. unfold str_eqb. case_bool_decide as He; [subst s; apply after_here|].
  destruct s as [|c s]; [done|]. assert (Hne : is_prefix suf ((c :: s) ++ 58 :: post) = false).
  { apply not_true_iff_false. intros [r Hr]%is_prefix_spec. apply He. apply app_inj_1 in Hr as [Hr _]; [done|congruence]. }
  rewrite <- (after_skip suf s 58 post Hs); [|done|cbn in Hl2; unfold suffixLen in *; lia]. unfold after. cbn [app Index]. cbn [app] in Hne. rewrite Hne.
  by destruct (Index (s ++ 58 :: post) suf).
Qed.

Lemma matchCount_after data suf : length suf = suffixLen →
  matchCount data suf = match after data suf with
                        | None => Ok 0
                        | Some rest =>
                            if (length rest <=? 1)%nat || negb (rest !!! 0%nat =? 58) then Error ErrMalformedResponse
                            else match ParseInt (countDigits (drop 1 rest)) with Some n => Ok n | None => Error ErrMalformedResponse end
                        end.
Proof.
  intros Hl. unfold matchCount, after. destruct (Index data suf) as [k|] eqn:Hk; [|done]. cbn [fmap option_fmap option_map]. apply Index_spec in Hk as [Hk _].
  rewrite length_drop, lookup_total_drop, Nat.add_0_r, Hl. unfold parseCount. rewrite drop_drop, <- Hl.
  assert (Hb : (length data <=? k + length suf + 1)%nat = (length data - (k + length suf) <=? 1)%nat) by (destruct (Nat.leb_spec (length data) (k + length suf + 1)), (Nat.leb_spec (length data - (k + length suf)) 1); lia).
  by rewrite Hb.
Qed.

Lemma countDigits_spec s : ∃ rest, s = countDigits s ++ rest ∧ Forall (fun b => 48 <= b <= 57) (countDigits s).
Proof.
  induction s as [|b s (rest & Hs & Hd)]; [by exists []|]. cbn [countDigits]. destruct ((48 <=? b) && (b <=? 57)) eqn:Hb; [|by exists (b :: s)].
  exists rest. cbn. rewrite <- Hs. split; [done|]. constructor; [|done]. apply andb_true_iff in Hb as [H1%Z.leb_le H2%Z.leb_le]. lia.
Qed.

Lemma countDigits_digits ds rest : Forall (fun b => 48 <= b <= 57) ds → match rest with [] => True | b :: _ => isUpperHex b = false end → countDigits (ds ++ rest) = ds.
Proof.
  intros Hds Hr. induction Hds as [|b ds Hb _ IH]; cbn [app countDigits].
  - destruct rest as [|b rest]; [done|]. cbn [countDigits]. destruct ((48 <=? b) && (b <=? 57)) eqn:Hb; [|done]. exfalso.
    apply andb_true_iff in Hb as [H1%Z.leb_le H2%Z.leb_le]. assert (isUpperHex b = true) by (apply isUpperHex_spec; lia). congruence.
  - by rewrite (proj2 (Z.leb_le 48 b)), (proj2 (Z.leb_le b 57)), IH by lia.
Qed.

Lemma ParseInt_digits ds : Forall (fun b => 48 <= b <= 57) ds → ParseInt ds = (n ← number_value ds; if n <? 2 ^ 63 then Some n else None).
Proof.
  intros Hd. destruct ds as [|b ds]; [done|]. apply Forall_cons in Hd as [Hb _]. unfold ParseInt. 
  destruct b as [|p|p]; [done| |done]. do 6 (destruct p as [p|p|]; try done; try lia).
Qed.

(** ** A range *)

Section Range.
(** The end of a line, and of the text. *)
Variables eol tail : gostring.
Hypothesis Heol : eol ≠ [] ∧ Forall (fun b => isUpperHex b = false) eol.
Hypothesis Htail : Forall (fun b => isUpperHex b = false) tail.

Definition range_line (l : gostring * Z) : gostring := l.1 ++ 58 :: FormatUint l.2.

Fixpoint range_text (lines : list (gostring * Z)) : gostring :=
  match lines with
  | [] => tail
  | [l] => range_line l ++ tail
  | l :: lines => range_line l ++ eol ++ range_text lines
  end.

(** The count a range gives for a suffix: the first one. *)
Fixpoint listed (suf : gostring) (lines : list (gostring * Z)) : option Z :=
  match lines with
  | [] => None
  | (s, n) :: lines => if str_eqb s suf then Some n else listed suf lines
  end.

Definition line_ok (l : gostring * Z) : Prop := length l.1 = suffixLen ∧ upper_hex l.1 ∧ 0 <= l.2 < 2 ^ 63.

Lemma format_loop_len fuel : ∀ n acc, (length (format_loop fuel n acc) <= fuel + length acc)%nat.
Proof. induction fuel as [|fuel IH]; intros n acc; cbn [format_loop]; [lia|]. case_match; [cbn; lia|]. specialize (IH (n / 10) (48 + n mod 10 :: acc)). cbn [length] in IH. lia. Qed.

Lemma FormatUint_len n : (length (FormatUint n) <= 20)%nat.
Proof. pose proof (format_loop_len 20 n []) as Hl. cbn [length] in Hl. unfold FormatUint. lia. Qed.

Lemma after_marks suf marks post : upper_hex suf → length suf = suffixLen → Forall (fun b => isUpperHex b = false) marks → after (marks ++ post) suf = after post suf.
Proof. intros Hs Hl. induction 1 as [|x m Hx _ IH]; [done|]. rewrite <- IH. apply (after_skip suf [] x (m ++ post) Hs Hx). rewrite Hl. cbn. unfold suffixLen. lia. Qed.

Lemma after_count suf ds marks post : upper_hex suf → length suf = suffixLen → (length ds <= 20)%nat → Forall (fun b => isUpperHex b = false) marks → marks ≠ [] ∨ post = [] →
  after (ds ++ marks ++ post) suf = after post suf.
Proof.
  intros Hs Hl Hd Hm Hne. destruct marks as [|x m].
  - destruct Hne as [ | ->]; [done|]. rewrite !app_nil_r, !after_short; [done|cbn; unfold suffixLen in *; lia|unfold suffixLen in *; lia].
  - apply Forall_cons in Hm as [Hx Hm]. cbn [app]. rewrite (after_skip suf ds x) by (done || unfold suffixLen in *; lia). by apply after_marks.
Qed.

Lemma after_range suf lines : upper_hex suf → length suf = suffixLen → Forall line_ok lines →
  match listed suf lines with
  | None => after (range_text lines) suf = None
  | Some n => 0 <= n < 2 ^ 63 ∧ ∃ rest, after (range_text lines) suf = Some (58 :: FormatUint n ++ rest) ∧ match rest with [] => True | b :: _ => isUpperHex b = false end
  end.
Proof.
  intros Hs Hl Hlines. assert (Hnil : after [] suf = None) by (apply after_short; rewrite Hl; cbn; unfold suffixLen; lia).
  assert (Hend : after tail suf = None) by (rewrite <- (app_nil_r tail); by rewrite after_marks).
  induction Hlines as [|[s n] lines (Hls & Hus & Hn) _ IH]; [done|]. cbn [fst snd] in *. cbn [listed].
  assert (Hsplit : ∃ marks post, range_text ((s, n) :: lines) = s ++ 58 :: FormatUint n ++ marks ++ post ∧ Forall (fun b => isUpperHex b = false) marks ∧
    (marks ≠ [] ∨ post = []) ∧ after post suf = after (range_text lines) suf).
  { destruct lines as [|l lines]; [exists tail, []|exists eol, (range_text (l :: lines))]; cbn [range_text]; unfold range_line; cbn [fst snd]; rewrite <- ?app_assoc, ?app_nil_r.
    - rewrite Hnil, Hend. split_and!; try done. by right.
    - destruct Heol. split_and!; try done. by left. }
  destruct Hsplit as (marks & post & -> & Hm & Hne & Hpost). rewrite after_line by done. destruct (str_eqb s suf).
  - split; [done|]. exists (marks ++ post). split; [done|]. destruct marks as [|b m]; [by destruct Hne as [ | ->]|]. by apply Forall_cons in Hm as [Hb _].
  - rewrite after_count, Hpost by (done || apply FormatUint_len). exact IH.
Qed.

(** The count of a well-formed range is the one it lists. *)
Lemma matchCount_range suf lines : upper_hex suf → length suf = suffixLen → Forall line_ok lines → matchCount (range_text lines) suf = Ok (default 0 (listed suf lines)).
Proof.
  intros Hs Hl Hlines. rewrite matchCount_after by done. pose proof (after_range suf lines Hs Hl Hlines) as Ha. destruct (listed suf lines) as [n|]; [|by rewrite Ha].
  destruct Ha as (Hn & rest & -> & Hrest). destruct (FormatUint_spec n ltac:(lia)) as [[Hne Hd] Hv].
  assert (Hlen : (length (58%Z :: FormatUint n ++ rest) <=? 1)%nat = false) by (apply Nat.leb_gt; destruct (FormatUint n); [done|cbn; lia]).
  rewrite Hlen. cbn [lookup_total list_lookup_total Z.eqb Pos.eqb negb orb]. change (drop 1 (58 :: FormatUint n ++ rest)) with (FormatUint n ++ rest). rewrite countDigits_digits by done. rewrite ParseInt_digits by done.
  rewrite number_value_spec, Hv by done. cbn [mbind option_bind]. by rewrite (proj2 (Z.ltb_lt _ _)) by lia.
Qed.

Lemma validRangeStart_range l lines : Forall line_ok (l :: lines) → validRangeStart (range_text (l :: lines)) = true.
Proof.
  intros Hall. apply Forall_cons in Hall as [Hline _]. destruct l as [s n], Hline as (Hl & Hu & Hn). cbn [fst snd] in *.
  assert (Hshape : ∃ rest, range_text ((s, n) :: lines) = s ++ 58 :: FormatUint n ++ rest).
  { destruct lines as [|l lines]; cbn [range_text]; unfold range_line; cbn [fst snd]; rewrite <- ?app_assoc; by eexists. }
  destruct Hshape as [rest ->]. destruct (FormatUint_spec n ltac:(lia)) as [[Hne Hd] _]. destruct (FormatUint n) as [|d ds]; [done|]. apply Forall_cons in Hd as [Hd _].
  unfold validRangeStart. rewrite length_app, Hl, (proj2 (Nat.ltb_ge _ _)) by (cbn; lia). rewrite take_app_length' by done.
  rewrite (proj2 (forallb_forall _ _)) by (intros x Hx; by apply (proj1 (Forall_forall _ _) Hu), list_elem_of_In).
  rewrite !lookup_total_app_r by (rewrite Hl; lia). rewrite Hl. unfold suffixLen. cbn. by rewrite (proj2 (Z.leb_le 48 d)), (proj2 (Z.leb_le d 57)) by lia.
Qed.
End Range.

(** ** What a lookup shows *)

Lemma readRangeBody_spec rd limit data : 0 < limit < 2 ^ 63 - 1 →
  readRangeBody rd limit = Ok data ↔ r_err rd = None ∧ Z.of_nat (length (r_data rd)) <= limit ∧ data = map upperHex (r_data rd) ∧ validRangeStart data = true.
Proof.
  intros Hl. unfold readRangeBody, ReadAllLimit. rewrite wrapS_small by (done || unfold inS; lia). rewrite (proj2 (Z.leb_gt _ _)) by lia.
  destruct (Z.ltb_spec (Z.of_nat (length (r_data rd))) (limit + 1)) as [Hin|Hout].
  - rewrite (proj2 (Z.ltb_ge _ _)) by lia. destruct (r_err rd) as [e|]; [split; [done|by intros [? _]]|].
    destruct (validRangeStart (map upperHex (r_data rd))) eqn:Hv; cbn [negb].
    + split; [intros [= <-]|intros (_ & _ & -> & _); done]. split_and!; try done. lia.
    + split; [done|]. intros (_ & _ & -> & Hv'). congruence.
  - rewrite length_take, Nat.min_l by lia. rewrite (proj2 (Z.ltb_lt _ _)) by lia. split; [done|]. intros (_ & Hle & _). lia.
Qed.

(** The largest limit of the type leaves nothing to read: every answer is
    rejected. *)
Lemma unlimited_rejects rd : readRangeBody rd (2 ^ 63 - 1) = Error ErrMalformedResponse.
Proof. done. Qed.

Lemma matchCount_evidence data suf k : length suf = suffixLen → matchCount data suf = Ok k →
  (k = 0 ∧ Index data suf = None) ∨ ∃ a ds b, data = a ++ suf ++ 58 :: ds ++ b ∧ is_digits ds ∧ decimal ds = k.
Proof.
  intros Hl Hm. rewrite matchCount_after in Hm by done. unfold after in Hm. destruct (Index data suf) as [i|] eqn:Hi; [right|left; by injection Hm as <-].
  cbn [fmap option_fmap option_map] in Hm. apply Index_spec in Hi as [Hlen Hp]. apply is_prefix_spec in Hp as [rest Hrest].
  assert (Hdata : data = take i data ++ suf ++ rest) by (rewrite <- Hrest; by rewrite take_drop). 
  assert (Hr : drop (i + length suf) data = rest) by (rewrite <- drop_drop, Hrest; by rewrite drop_app_length). rewrite Hr in Hm.
  destruct ((length rest <=? 1)%nat || negb (rest !!! 0%nat =? 58)) eqn:Hb; [done|]. apply orb_false_iff in Hb as [H1 H2]. destruct rest as [|c rest]; [done|].
  apply negb_false_iff, Z.eqb_eq in H2. cbn in H2. subst c. change (drop 1 (58 :: rest)) with rest in Hm. destruct (countDigits_spec rest) as (b & Hc & Hd).
  rewrite ParseInt_digits in Hm by done. destruct (countDigits rest) as [|d ds] eqn:Hds; [done|]. assert (Hdig : is_digits (d :: ds)) by done.
  rewrite number_value_spec in Hm by done. cbn [mbind option_bind] in Hm. destruct (decimal (d :: ds) <? 2 ^ 63); [|done]. injection Hm as Hk.
  exists (take i data), (d :: ds), b. rewrite <- Hc. done.
Qed.

(** The client of an attempt never answers with neither a response nor an
    error; the rest is what [Do] relies on. *)
Record env_ok (ev : @env E CE) : Prop := EnvOk {
  ok_draw : ∀ i, draws (draw ev i);
  ok_drawRetryAfter : ∀ i, draws (drawRetryAfter ev i);
  ok_ctx : ∀ i j ce, (i <= j)%nat → ctxErr ev i = Some ce → ctxErr ev j = Some ce;
  ok_client : ∀ i, client ev i ≠ (None, None)
}.

(** Every attempt is made without a body, and every body it brings is closed. *)
Definition no_leak (ev : @env E CE) (r : @HTTPRetrier E) (tr : list (@event E)) : Prop :=
  ∃ n, Z.of_nat n <= attempts r ∧ sent_by tr = (fun j => (j, None)) <$> seq 0 n ∧ closed_by tr = filter (fun j => has_body ev j = true) (seq 0 n).

Lemma get_attempts n : (fun j => (j, body_of false None j)) <$> seq 0 n = (fun j => (j, None)) <$> seq 0 n.
Proof. apply list_fmap_ext. intros _ j _. by rewrite body_of_orig. Qed.

Lemma Do_get fuel (ev : @env E CE) r : valid r → env_ok ev → attempts r < Z.of_nat fuel → ∃ out st, Do fuel ev r false false = Some (out, st) ∧
  match out with
  | Blocked | Returned None None | Returned (Some _) (Some _) => False
  | Returned (Some (k, resp)) None => client ev k = (Some resp, None) ∧ no_leak ev r (events st ++ if HasBody resp then [Closed k] else [])
  | _ => no_leak ev r (events st)
  end.
Proof.
  intros Hr [Hd Hra Hctx Hcl] Hf.
  assert (Hrun : ∃ out st, Do fuel ev r false false = Some (out, st) ∧ do_result ev r false None out (events st)).
  { unfold Do. pose proof (v_attempts _ Hr). destruct (ctxErr ev 0) as [ce|] eqn:H0.
    - eexists _, _. split; [done|]. exists []. split; [by intros k d Hk|]. split; [cbn; lia|]. split; [cbn; lia|]. done.
    - apply do_loop_spec; try done; [by apply between_start|lia]. }
  destruct Hrun as (out & st & -> & Hres). exists out, st. split; [done|].
  assert (Hall : (∀ j, given out j = false) → no_leak ev r (events st)).
  { intros Hg. destruct (result_accounted ev r false None Hr Hd Hra Hctx out (events st) ltac:(by left) Hres) as (n & Hs & Hn & Hcb & _). exists n. split; [done|].
    rewrite Hs, get_attempts, Hcb by done. split; [done|]. by apply not_given_all. }
  destruct Hres as (ds & _ & Hlen & _ & Hout). cbn zeta in Hout. destruct out as [ce|ce|resp e|]; [by apply Hall|by apply Hall| |done].
  destruct Hout as [(He & _ & Hl)|[(-> & _ & _ & Hl)|(-> & _ & _ & _ & Hl)]].
  - destruct e as [e|]; [destruct Hl as [-> _]; by apply Hall|]. destruct Hl as [-> Hl]. unfold answer, failure in *. specialize (Hcl (length ds)).
    destruct (client ev (length ds)) as [[resp|] [err|]] eqn:Hans; try done. cbn [fst fmap option_fmap option_map]. split; [done|].
    exists (S (length ds)). split; [lia|]. rewrite Hl, !sent_by_app, !closed_by_app. destruct (calls_of_rounds ev r false None ds) as [-> ->].
    assert (Hb : has_body ev (length ds) = HasBody resp) by (unfold has_body, answer; by rewrite Hans).
    rewrite get_attempts, seq_S, fmap_app, filter_app, filter_cons. cbn [Nat.add]. rewrite Hb, body_of_orig by done.
    destruct (HasBody resp); cbn; rewrite ?app_nil_r; done.
  - destruct e as [e|]; [by apply Hall|]. destruct Hl as [(_ & _ & [? Hx])|(_ & _ & [? Hx] & _)]; done.
  - destruct e as [e|]; [by apply Hall|]. destruct Hl as [_ [? Hx]]. done.
Qed.

(** The options of the package, on arguments in the range of their types; a
    limit is not the largest of its. *)
Inductive pwned_option : POption → Prop :=
| po_url addr : pwned_option (WithURL addr)
| po_agent s : pwned_option (WithUserAgent s)
| po_timeout t : pwned_option (WithTimeout t)
| po_client set : pwned_option (WithHTTPClient set)
| po_retries n : inU 64 n → pwned_option (WithRetryAttempts n)
| po_retryDelay d : pwned_option (WithRetryDelay d)
| po_limit l : l < 2 ^ 63 - 1 → pwned_option (WithResponseSizeLimit l)
| po_ping t : pwned_option (WithPingTimeout t).

Lemma New_pwned opts c r : Forall pwned_option opts → New opts = Ok (c, r) → valid r ∧ attempts r = c_retryAttempts c ∧ 0 < c_maxResponseBytes c < 2 ^ 63 - 1.
Proof.
  intros Ho. unfold New. assert (Hgen : ∀ c0, inU 64 (c_retryAttempts c0) ∧ 0 < c_maxResponseBytes c0 < 2 ^ 63 - 1 →
    inU 64 (c_retryAttempts (fold_left (fun c o => o c) opts c0)) ∧ 0 < c_maxResponseBytes (fold_left (fun c o => o c) opts c0) < 2 ^ 63 - 1).
  { induction Ho as [|o opts Ho _ IH]; intros c0 Hc0; [done|]. cbn [fold_left]. apply IH. destruct Hc0.
    destruct Ho; unfold WithTimeout, WithResponseSizeLimit, WithPingTimeout; try (destruct (Z.ltb_spec 0 t)); try (destruct (Z.ltb_spec 0 l)); cbn; split; done || lia. }
  specialize (Hgen defaultClient ltac:(split; [by unfold inU; cbn; unfold DefaultAttempts; lia|by vm_compute])).
  set (c0 := fold_left (fun c o => o c) opts defaultClient) in *. clearbody c0. set (c1 := if c_httpClient c0 then c0 else WithHTTPClient true c0).
  assert (Hc1 : inU 64 (c_retryAttempts c1) ∧ 0 < c_maxResponseBytes c1 < 2 ^ 63 - 1) by (subst c1; by destruct (c_httpClient c0)).
  clearbody c1. intros Hnew. destruct (validateUserAgent (c_userAgent c1)) as [[]|]; [|done]. cbn [result_bind] in Hnew.
  destruct (ParseRequestURI (c_apiURL c1)) as [u|]; [|done]. destruct (_ || _); [done|]. destruct (_ || _); [done|].
  destruct (HTTPRetrier.New _) as [r'|e] eqn:Hr; [|done]. injection Hnew as <- <-. destruct Hc1 as [Ha Hl].
  assert (Hv : valid r'); [|split; [done|]; split; [|done]].
  - eapply http_New_valid; [|exact Hr]. repeat (apply Forall_cons; split); [apply po_retry|by apply po_attempts|apply po_delay|apply po_respect|by apply po_maxRetryAfter|constructor].
  - unfold HTTPRetrier.New in Hr. cbn [apply_opts result_bind WithRetryIfFn] in Hr. unfold WithAttempts, WithDelay, WithRespectRetryAfter, WithMaxRetryAfter in Hr.
    repeat (case_match; cbn [result_bind] in Hr; try done). by injection Hr as <-.
Qed.

Lemma hashOf_hex pw : length (sha1 pw) = 20%nat → Forall is_byte (sha1 pw) → length (hashOf pw) = 40%nat ∧ upper_hex (hashOf pw).
Proof.
  unfold hashOf, ToUpper, EncodeToString. intros Hl Hb. rewrite length_map. change 40%nat with (2 * 20)%nat. rewrite <- Hl. clear Hl.
  induction Hb as [|b l Hb _ [IHl IHu]]; [by split; [|constructor]|]. cbn [map concat app]. cbn [length]. rewrite IHl. split; [lia|]. 
  assert (Hd : ∀ d, 0 <= d < 16 → isUpperHex (upperASCII (hex_digit d)) = true) by (apply (check_range (fun d => isUpperHex (upperASCII (hex_digit d)) = true) 0 16); vm_compute; reflexivity).
  unfold is_byte in Hb. constructor; [apply Hd; split; [apply Z.div_pos; lia|apply Z.div_lt_upper_bound; lia]|]. constructor; [|exact IHu]. apply Hd, Z.mod_pos_bound. lia.
Qed.
(** How a lookup ends. *)
Lemma PwnedCount_cases c r fuel (server : gostring → site) pw :
  let s := server (rangeURL c (take prefixLen (hashOf pw))) in
  valid r → env_ok (s_env s) → attempts r < Z.of_nat fuel →
  ∃ res tr, PwnedCount fuel server c r pw = Some (res, tr) ∧ no_leak (s_env s) r tr ∧
    ((∃ i resp, client (s_env s) i = (Some resp, None) ∧ HasBody resp = true ∧ StatusCode resp = StatusOK ∧
       res = (rd <-? decodeBody (s_encoding s i) (s_body s i) ;; data <-? readRangeBody rd (c_maxResponseBytes c) ;; matchCount data (drop prefixLen (hashOf pw)))%go) ∨
     (∃ e, res = Error e ∧ ((∃ x, e = ErrExecute x) ∨ (∃ code, e = ErrUnexpectedStatus code ∧ code ≠ StatusOK) ∨ (e = ErrCreateRequest ∧ s_valid s = false) ∨
        ∃ i resp, client (s_env s) i = (Some resp, None) ∧ HasBody resp = false))).
Proof.
  intros s Hvalid Henv Hfuel.
  unfold PwnedCount, fetchRange. fold s. destruct (s_valid s) eqn:Hvs; cbn [negb].
  2:{ eexists _, []. split; [done|]. split; [exists O; split; [pose proof (v_attempts _ Hvalid); lia|done]|]. right. exists ErrCreateRequest. split; [done|]. right. right. by left. }
  destruct (Do_get fuel (s_env s) r Hvalid Henv Hfuel) as (out & st & -> & Hout). cbn [mbind option_bind].
  destruct out as [ce|ce|[[i resp]|] [e|]|]; try done.
  - eexists _, _. split; [done|]. split; [done|]. right. eexists. split; [done|]. left. by eexists.
  - eexists _, _. split; [done|]. split; [done|]. right. eexists. split; [done|]. left. by eexists.
  - destruct Hout as [Hcl Hleak]. destruct (HasBody resp) eqn:Hb; cbn [negb].
    + eexists _, _. split; [done|]. split; [done|]. destruct (Z.eqb_spec (StatusCode resp) StatusOK) as [Hst|Hst]; cbn [negb].
      * left. exists i, resp. split_and!; try done. by destruct (decodeBody (s_encoding s i) (s_body s i)).
      * right. eexists. split; [done|]. right. left. by eexists.
    + rewrite app_nil_r in Hleak. eexists _, _. split; [done|]. split; [done|]. right. eexists. split; [done|]. right. right. right. by exists i, resp.
  - eexists _, _. split; [done|]. split; [done|]. right. eexists. split; [done|]. left. by eexists.
Qed.
End Pwned.

(** C36. Looking a password up. Under any options [New] accepts and whatever
    the server does, a lookup returns, asks for one URL only, which names the
    first five digits of the hash and no others, and closes every response
    body, within the configured attempts. It returns a count, 0 included, only
    from a response of status 200 whose body decodes without error, within the
    limit, to a range, and where the other digits are absent or have that count
    behind them. When the responses of status 200 are ranges, whatever the case
    of their letters and the ends of their lines, the count is the one listed
    for those digits and never one read across two lines; and the only errors
    are those of the request and of other statuses. *)
Theorem PwnedCount_correct {E CE} (sha1 : gostring → list Z) (brotli : reader → reader) (gunzip : reader → result E reader)
    (unicodeLower : Z → Z) (ParseRequestURI : gostring → option URL) opts c r fuel (server : gostring → @site E CE) pw
    (Hopts : Forall pwned_option opts) (Hnew : New (CE := CE) ParseRequestURI opts = Ok (c, r))
    (Hsha : length (sha1 pw) = 20%nat ∧ Forall is_byte (sha1 pw)) :
  let url := rangeURL c (take prefixLen (hashOf sha1 pw)) in
  let suffix := drop prefixLen (hashOf sha1 pw) in
  let s := server url in
  env_ok (s_env s) → attempts r < Z.of_nat fuel →
  ∃ res tr, PwnedCount sha1 brotli gunzip unicodeLower fuel server c r pw = Some (res, tr) ∧
    (∀ server', server' url = server url → PwnedCount sha1 brotli gunzip unicodeLower fuel server' c r pw = Some (res, tr)) ∧
    no_leak (s_env s) r tr ∧
    (∀ k, res = Ok k → ∃ i resp data, client (s_env s) i = (Some resp, None) ∧ StatusCode resp = StatusOK ∧
      decodeBody brotli gunzip unicodeLower (CE := CE) (s_encoding s i) (s_body s i) = Ok (MkReader data None) ∧
      Z.of_nat (length data) <= c_maxResponseBytes c ∧ validRangeStart (map upperHex data) = true ∧
      ((k = 0 ∧ Index (map upperHex data) suffix = None) ∨
       ∃ a ds b, map upperHex data = a ++ suffix ++ 58 :: ds ++ b ∧ is_digits ds ∧ decimal ds = k)) ∧
    (∀ eol tail lines, eol ≠ [] ∧ Forall (fun b => isUpperHex b = false) eol → Forall (fun b => isUpperHex b = false) tail →
      lines ≠ [] → Forall line_ok lines →
      (∀ i resp, client (s_env s) i = (Some resp, None) → HasBody resp = true ∧ (StatusCode resp = StatusOK →
        ∃ data, decodeBody brotli gunzip unicodeLower (CE := CE) (s_encoding s i) (s_body s i) = Ok (MkReader data None) ∧
          Z.of_nat (length data) <= c_maxResponseBytes c ∧ map upperHex data = range_text eol tail lines)) →
      match res with
      | Ok k => k = default 0 (listed suffix lines)
      | Error e => (∃ x, e = ErrExecute x) ∨ (∃ code, e = ErrUnexpectedStatus code ∧ code ≠ StatusOK) ∨ (e = ErrCreateRequest ∧ s_valid s = false)
      end).
Proof.
  intros url suffix s Henv Hfuel. destruct (New_pwned _ _ _ _ Hopts Hnew) as (Hvalid & Hatt & Hlim).
  destruct (hashOf_hex sha1 pw) as [Hlen Hhex]; [apply Hsha..|].
  assert (Hsl : length suffix = suffixLen) by (subst suffix; by rewrite length_drop, Hlen).
  assert (Hsh : upper_hex suffix) by (by apply Forall_drop).
  assert (Hsame : ∀ server', server' url = server url → PwnedCount sha1 brotli gunzip unicodeLower fuel server' c r pw = PwnedCount sha1 brotli gunzip unicodeLower fuel server c r pw).
  { intros server' Hs. unfold PwnedCount, fetchRange. fold url. by rewrite Hs. }
  destruct (PwnedCount_cases sha1 brotli gunzip unicodeLower c r fuel server pw Hvalid Henv Hfuel) as (res & tr & Hrun & Hleak & Hres). fold url suffix s in Hleak, Hres. exists res, tr. split; [done|]. split; [intros server' Hs; by rewrite Hsame|]. split; [done|]. split.
  - intros k ->. destruct Hres as [(i & resp & Hcl & _ & Hst & Hk)|(e & [=] & _)]. exists i, resp.
    destruct (decodeBody brotli gunzip unicodeLower (s_encoding s i) (s_body s i)) as [rd|e] eqn:Hdec; [|done]. cbn [result_bind] in Hk.
    destruct (readRangeBody rd (c_maxResponseBytes c)) as [data|e] eqn:Hread; [|done]. cbn [result_bind] in Hk.
    apply (readRangeBody_spec rd _ data Hlim) in Hread as (He & Hle & -> & Hv). destruct rd as [data err]. cbn in He, Hle, Hv, Hk. subst err. exists data.
    split_and!; try done. symmetry in Hk. by apply (matchCount_evidence _ suffix k Hsl Hk).
  - intros eol tail lines Heol Htail Hne Hlines Hserved. destruct Hres as [(i & resp & Hcl & _ & Hst & ->)|(e & -> & He)].
    + destruct (Hserved i resp Hcl) as [_ Hok]. destruct (Hok Hst) as (data & -> & Hle & Hdata). cbn [result_bind].
      assert (Hread : readRangeBody (E := E) (CE := CE) (MkReader data None) (c_maxResponseBytes c) = Ok (map upperHex data)).
      { apply (readRangeBody_spec (E := E) (CE := CE) _ _ _ Hlim). split_and!; try done. rewrite Hdata. destruct lines as [|l lines]; [done|]. by apply validRangeStart_range. }
      rewrite Hread. cbn [result_bind]. rewrite Hdata. by rewrite matchCount_range.
    + destruct He as [Hx|[Hx|[Hx|(i & resp & Hcl & Hb)]]]; [by left|by right; left|by right; right|]. destruct (Hserved i resp Hcl) as [Hb' _]. congruence.
Qed.

(** A server with one range, in lower case, and a hash that it lists. *)
Definition some_hash (pw : gostring) : list Z := [0x5B; 0xAA; 0x61; 0xE4; 0xC9; 0xB9; 0x3F; 0x3F; 0x06; 0x82; 0x25; 0x0B; 0x6C; 0xF8; 0x33; 0x1B; 0x7E; 0xE6; 0x8F; 0xD8].

Definition sample_lines : list (gostring * Z) :=
  [(str "1D2DA4053E34E76F6576ED1DA63134B5E2A", 2); (str "1E4C9B93F3F0682250B6CF8331B7EE68FD8", 10437277); (str "1E4F9AA1E2D7D6B5D9A0C1E4C9B93F3F068", 0)].

Definition lower (b : Z) : Z := if GoString.between 65 b 70 then b + 32 else b.

Definition one_range : @site nat unit :=
  MkSite true (Env (fun _ => None) (fun i => (Some (MkResponse 200 [] true), None)) (fun _ => None) (fun _ => None) (fun _ => false) (fun _ _ => 0) (fun _ _ => 0) (fun _ => 0) (fun _ => None))
    (fun _ => str "identity") (fun _ => MkReader (map lower (range_text [13; 10] [] sample_lines)) None).

Definition any_url (s : gostring) : option URL := Some (MkURL (str "https") s [] []).

Lemma PwnedCount_correct_witness : ∃ c r tr, New (E := nat) (CE := unit) any_url [] = Ok (c, r) ∧
  PwnedCount some_hash id Ok id 5 (fun _ => one_range) c r (str "password") = Some (Ok 10437277, tr) ∧ closed_by tr = [0%nat] ∧
  10437277 = default 0 (listed (drop prefixLen (hashOf some_hash (str "password"))) sample_lines).
Proof.
  destruct (New (E := nat) (CE := unit) any_url []) as [[c r]|e] eqn:Hnew; [|discriminate Hnew]. pose proof Hnew as Hn. vm_compute in Hn. injection Hn as <- <-.
  match type of Hnew with _ = Ok (?c0, ?r0) => exists c0, r0 end.
  edestruct (PwnedCount_correct some_hash id Ok id any_url [] _ _ 5 (fun _ => one_range) (str "password") ltac:(constructor) Hnew) as (res & tr & Hrun & _ & _ & _ & Hlisted).
  - split; [reflexivity|]. repeat constructor; lia.
  - constructor; cbn; try done; intros i m Hm; cbn; lia.
  - reflexivity.
  - exists tr. split; [reflexivity|]. specialize (Hlisted [13; 10] [] sample_lines). vm_compute in Hrun. injection Hrun as <- <-.
    split; [vm_compute; reflexivity|]. split; [reflexivity|]. apply Hlisted; [by repeat constructor|constructor|done| |].
    + repeat (constructor; [split; [reflexivity|split; [repeat constructor|cbn; lia]]|]). constructor.
    + intros i resp [= <-]. split; [done|]. intros _. eexists. split; [vm_compute; reflexivity|]. by vm_compute.
Defined.
