(* ===== verification/TraceID.v ===== *)
(** * [pkg/traceid]: the trace ID of a request

    traceid.go: which identifiers are accepted, how they travel in a context
    and in a header. A context is the identifier stored in it, if any; a header
    is its map from canonical names. *)

From stdpp Require Import base option list gmap.
From Stdlib Require Import String.
From S2P Require Import Prelude GoString GoText UHex RandomID.

#[local] Open Scope Z_scope.

Definition DefaultHeader : gostring := str "X-Request-ID".
Definition DefaultValue : gostring := [].
Definition DefaultLogKey : gostring := str "traceid".
Definition MaxIDLen : nat := 64.

Definition isIDByte (c : Z) : bool :=
  ((48 <=? c) && (c <=? 57)) || ((65 <=? c) && (c <=? 90)) || ((97 <=? c) && (c <=? 122)) || (c =? 45) || (c =? 95) || (c =? 46).

Definition Valid (id : gostring) : bool :=
  if (length id =? 0)%nat || (MaxIDLen <? length id)%nat then false else forallb isIDByte id.

Definition NewContext (ctx : option gostring) (id : gostring) : option gostring :=
  if str_eqb id [] then ctx else match ctx with Some _ => ctx | None => Some id end.

Definition ForceContext (ctx : option gostring) (id : gostring) : option gostring :=
  if str_eqb id [] then ctx else Some id.

Definition FromContext (ctx : option gostring) (defaultValue : gostring) : gostring := default defaultValue ctx.

Section Header.
(** [textproto.CanonicalMIMEHeaderKey]. *)
Variable canonical : gostring → gostring.

#[local] Abbreviation header := (gmap gostring gostring) (only parsing).
Definition Get (h : header) (name : gostring) : gostring := default [] (h !! canonical name).
Definition Set_ (h : header) (name value : gostring) : header := <[canonical name := value]> h.

(** A nil request is [None]; the header of the result is that of the request
    afterwards. *)
Definition SetHTTPRequestHeaderFromContext (ctx : option gostring) (r : option header) (name defaultValue : gostring) : gostring * option header :=
  match r with
  | None => ([], None)
  | Some h =>
      let id := FromContext ctx defaultValue in
      let id := if negb (Valid id) then defaultValue else id in
      if negb (Valid id) then ([], Some h) else (id, Some (Set_ h name id))
  end.

Definition FromHTTPRequestHeader (r : option header) (name defaultValue : gostring) : gostring :=
  match r with
  | None => defaultValue
  | Some h => let id := Get h name in if negb (Valid id) then defaultValue else id
  end.

(** ** Facts *)

Lemma Valid_spec id : Valid id = true ↔ (1 <= length id <= MaxIDLen)%nat ∧ Forall (fun c => isIDByte c = true) id.
Proof.
  unfold Valid. destruct (Nat.eqb_spec (length id) 0) as [|Hne]; cbn [orb]; [split; [done|lia]|].
  destruct (Nat.ltb_spec MaxIDLen (length id)); [split; [done|lia]|]. rewrite forallb_forall, Forall_forall.
  split; [intros Hall; split; [lia|]; intros c Hc; by apply Hall, list_elem_of_In|intros [_ Hall] c Hc; by apply Hall, list_elem_of_In].
Qed.

(** No byte of an identifier can end a header or a field of a log. *)
Lemma Valid_safe id c : Valid id = true → c ∈ id → 33 <= c < 127 ∧ c ≠ 58 ∧ c ≠ 34 ∧ c ≠ 92.
Proof.
  intros [_ Hall]%Valid_spec Hc. rewrite Forall_forall in Hall. specialize (Hall c Hc). cbn in Hall. revert Hall. unfold isIDByte.
  rewrite !orb_true_iff, !andb_true_iff, !Z.leb_le, !Z.eqb_eq. lia.
Qed.

(** What is sent is read back; nothing is sent but valid identifiers, and
    nothing else of the header changes. *)
Lemma header_roundtrip ctx h name dv : let '(id, r) := SetHTTPRequestHeaderFromContext ctx (Some h) name dv in
  (id = [] ∧ r = Some h) ∨ (Valid id = true ∧ (id = FromContext ctx dv ∨ id = dv) ∧ (∀ d, FromHTTPRequestHeader r name d = id) ∧
    ∀ n, canonical n ≠ canonical name → ∀ d, FromHTTPRequestHeader r n d = FromHTTPRequestHeader (Some h) n d).
Proof.
  unfold SetHTTPRequestHeaderFromContext. set (id := if negb (Valid (FromContext ctx dv)) then dv else FromContext ctx dv). destruct (Valid id) eqn:Hv; cbn [negb]; [right|by left].
  split; [done|]. split; [subst id; destruct (Valid (FromContext ctx dv)); auto|]. unfold FromHTTPRequestHeader, Get, Set_. split.
  - intros d. rewrite lookup_insert_eq. cbn. by rewrite Hv.
  - intros n Hn d. by rewrite lookup_insert_ne.
Qed.
End Header.

(** The UUIDs that stand in for a missing identifier are valid. *)
Lemma UUID_Valid u : length u = 16%nat → Forall is_byte u → Valid (UUID_String u) = true.
Proof.
  intros Hl Hu. apply Valid_spec. rewrite UUID_String_length by done. split; [unfold MaxIDLen; lia|].
  assert (Hb : ∀ b, 0 <= b < 256 → Forall (fun c => isIDByte c = true) (putByte b)) by (apply (check_range (fun b => Forall (fun c => isIDByte c = true) (putByte b)) 0 256); vm_compute; reflexivity).
  assert (Hbytes : ∀ l, Forall is_byte l → Forall (fun c => isIDByte c = true) (hex_bytes l)).
  { intros l. induction 1 as [|x l Hx _ IH]; [constructor|]. cbn [hex_bytes map concat]. apply Forall_app. split; [by apply Hb|exact IH]. }
  unfold UUID_String. rewrite UUID_Format_bytes by done.
  repeat first [apply Forall_app; split|apply Forall_cons; split; [done|]|apply Hbytes; by repeat first [apply Forall_take|apply Forall_drop]].
Qed.
