(* ===== verification/RespWriter.v ===== *)
(** * [pkg/httputil]: the wrapped response writer

    respwriter.go. A handler is the program of the calls it makes on its
    writer, each continued by what the call returns; the wrapper turns it into
    the calls made on the writer underneath, which is [net/http]'s: the first
    final status counts, a write or a flush implies 200, a copy does once its
    source gives a byte, and a write may be short. Whatever the handler does,
    what the wrapper recorded is what was sent; and the client is sent what it
    would be without the wrapper, unless a source gives nothing before the
    header is written, for which the wrapper sends 200. *)

From stdpp Require Import base option list.
From S2P Require Import Prelude GoString.

#[local] Open Scope Z_scope.

Section Programs.
(** The entries of a log. *)
Context {L : Type}.

(** [PTee] sets a writer for copies or clears it, and [PCopy] is a write to
    it; [PReadFrom] is given the reads of its source. *)
Inductive prog : Type :=
| PDone
| PPanic
| PHeader (code : Z) (k : prog)
| PWrite (buf : gostring) (k : Z → bool → prog)
| PFlush (k : prog)
| PReadFrom (src : list gostring) (k : Z → bool → prog)
| PTee (set : bool) (k : prog)
| PCopy (buf : gostring) (k : bool → prog)
| PLog (e : L) (k : prog).

(** ** The writer underneath *)

(** What the client is sent, the copies, the log, whether the handler has
    panicked, and the writes so far. *)
Record conn : Type := MkConn {
  w_status : option Z;
  w_informational : list Z;
  w_body : gostring;
  w_copies : gostring;
  w_logs : list L;
  w_panicked : bool;
  w_writes : nat
}.

(** How much of each write is accepted, and which writes, to the client and to
    the copy, fail. *)
Variable accepted : nat → nat.
Variable fails : nat → bool.
Variable copyFails : nat → bool.

Definition informational (code : Z) : bool := (100 <=? code) && (code <=? 199) && negb (code =? 101).

Definition send_status (code : Z) (w : conn) : conn :=
  MkConn (Some code) (w_informational w) (w_body w) (w_copies w) (w_logs w) (w_panicked w) (w_writes w).
Definition send_informational (code : Z) (w : conn) : conn :=
  MkConn (w_status w) (w_informational w ++ [code]) (w_body w) (w_copies w) (w_logs w) (w_panicked w) (w_writes w).
Definition panic (w : conn) : conn :=
  MkConn (w_status w) (w_informational w) (w_body w) (w_copies w) (w_logs w) true (w_writes w).

(** [http.ResponseWriter.WriteHeader]. *)
Definition conn_WriteHeader (code : Z) (w : conn) : conn :=
  match w_status w with
  | Some _ => w
  | None => if (code <? 100) || (999 <? code) then panic w else if informational code then send_informational code w else send_status code w
  end.

Definition conn_implicit (w : conn) : conn := match w_status w with Some _ => w | None => send_status 200 w end.

(** What is accepted of a text, and whether there is an error: always if the
    write is short. *)
Definition taken (buf : gostring) (w : conn) : gostring := take (accepted (w_writes w)) buf.
Definition short (buf : gostring) (w : conn) : bool := (accepted (w_writes w) <? length buf)%nat || fails (w_writes w).

Definition conn_Write (buf : gostring) (w : conn) : conn * Z * bool :=
  let w := conn_implicit w in
  (MkConn (w_status w) (w_informational w) (w_body w ++ taken buf w) (w_copies w) (w_logs w) (w_panicked w) (S (w_writes w)),
   Z.of_nat (length (taken buf w)), short buf w).

(** [io.ReaderFrom]: the source is written, and if it gives nothing there is
    no write, and no header. *)
Definition conn_ReadFrom (src : list gostring) (w : conn) : conn * Z * bool :=
  match concat src with
  | [] => (w, 0, false)
  | buf => conn_Write buf w
  end.

Definition conn_copy (buf : gostring) (w : conn) : conn * bool :=
  (MkConn (w_status w) (w_informational w) (w_body w) (w_copies w ++ buf) (w_logs w) (w_panicked w) (S (w_writes w)), copyFails (w_writes w)).

Definition conn_log (e : L) (w : conn) : conn :=
  MkConn (w_status w) (w_informational w) (w_body w) (w_copies w) (w_logs w ++ [e]) (w_panicked w) (w_writes w).

(** A handler on the writer. *)
Fixpoint run (p : prog) (w : conn) : conn :=
  match p with
  | PDone => w
  | PPanic => panic w
  | PHeader code k => let w := conn_WriteHeader code w in if w_panicked w then w else run k w
  | PWrite buf k => let '(w, n, err) := conn_Write buf w in run (k n err) w
  | PFlush k => run k (conn_implicit w)
  | PReadFrom src k => let '(w, n, err) := conn_ReadFrom src w in run (k n err) w
  | PTee _ k => run k w
  | PCopy buf k => let '(w, err) := conn_copy buf w in run (k err) w
  | PLog e k => run k (conn_log e w)
  end.

(** ** The wrapper *)

(** [responseWriterWrapper], without the writer it wraps. *)
Record responseWriterWrapper : Type := MkWrapper {
  headerWritten : bool;
  size : Z;
  status : Z;
  tee : bool
}.

Definition NewResponseWriterWrapper : responseWriterWrapper := MkWrapper false 0 0 false.

(** Whether the writer underneath is an [http.Flusher] and an
    [io.ReaderFrom]. *)
Variables isFlusher isReaderFrom : bool.

Definition Size (b : responseWriterWrapper) : Z := size b.
Definition Status (b : responseWriterWrapper) : Z := status b.
Definition Tee (set : bool) (b : responseWriterWrapper) : responseWriterWrapper := MkWrapper (headerWritten b) (size b) (status b) set.

Definition WriteHeader (code : Z) (b : responseWriterWrapper) (k : responseWriterWrapper → prog) : prog :=
  if headerWritten b then k b
  else if (100 <=? code) && (code <=? 199) && negb (code =? 101) then PHeader code (k b)
  else PHeader code (k (MkWrapper true (size b) code (tee b))).

Definition maybeWriteHeader (b : responseWriterWrapper) (k : responseWriterWrapper → prog) : prog :=
  if negb (headerWritten b) then WriteHeader 200 b k else k b.

Definition add_size (n : Z) (b : responseWriterWrapper) : responseWriterWrapper := MkWrapper (headerWritten b) (wrapS 64 (size b + n)) (status b) (tee b).

Definition Write (buf : gostring) (b : responseWriterWrapper) (k : Z → bool → responseWriterWrapper → prog) : prog :=
  maybeWriteHeader b (fun b =>
    PWrite buf (fun n err =>
      if tee b then PCopy (take (Z.to_nat n) buf) (fun teeErr => k n (if negb err then teeErr else err) (add_size n b))
      else k n err (add_size n b))).

(** [io.Copy] to [Write]: read by read, until a write fails or is short. *)
Fixpoint Copy (src : list gostring) (total : Z) (b : responseWriterWrapper) (k : Z → bool → responseWriterWrapper → prog) : prog :=
  match src with
  | [] => k total false b
  | buf :: src =>
      if (length buf =? 0)%nat then Copy src total b k
      else Write buf b (fun n err b => if err || negb (n =? Z.of_nat (length buf)) then k (total + n) true b else Copy src (total + n) b k)
  end.

Definition ReadFrom (src : list gostring) (b : responseWriterWrapper) (k : Z → bool → responseWriterWrapper → prog) : prog :=
  if tee b || negb isReaderFrom then Copy src 0 b k
  else maybeWriteHeader b (fun b => PReadFrom src (fun n err => k n err (add_size n b))).

Definition Flush (b : responseWriterWrapper) (k : responseWriterWrapper → prog) : prog :=
  maybeWriteHeader b (fun b => if isFlusher then PFlush (k b) else k b).

(** A handler that is given a wrapper, as the calls it makes underneath, and
    what follows it. *)
Fixpoint wrapped (p : prog) (b : responseWriterWrapper) (done : responseWriterWrapper → prog) : prog :=
  match p with
  | PDone => done b
  | PPanic => PPanic
  | PHeader code k => WriteHeader code b (fun b => wrapped k b done)
  | PWrite buf k => Write buf b (fun n err b => wrapped (k n err) b done)
  | PFlush k => Flush b (fun b => wrapped k b done)
  | PReadFrom src k => ReadFrom src b (fun n err b => wrapped (k n err) b done)
  | PTee set k => wrapped k (Tee set b) done
  | PCopy buf k => PCopy buf (fun err => wrapped (k err) b done)
  | PLog e k => PLog e (wrapped k b done)
  end.

(** ** What it records *)

Lemma wrapS_add x n : wrapS 64 (wrapS 64 x + n) = wrapS 64 (x + n).
Proof.
  unfold wrapS. replace ((x + 2 ^ (64 - 1)) mod 2 ^ 64 - 2 ^ (64 - 1) + n + 2 ^ (64 - 1)) with ((x + 2 ^ (64 - 1)) mod 2 ^ 64 + n) by lia.
  rewrite Zplus_mod_idemp_l. do 2 f_equal. lia.
Qed.

(** What has been sent since the wrapper was made, and its account of it. *)
Record accounts (start : nat) (b : responseWriterWrapper) (w : conn) : Prop := Accounts {
  ac_header : headerWritten b = bool_decide (is_Some (w_status w));
  ac_status : w_status w = if headerWritten b then Some (status b) else None;
  ac_unsent : headerWritten b = false → status b = 0;
  ac_code : headerWritten b = true → 100 <= status b;
  ac_body : (start <= length (w_body w))%nat;
  ac_size : size b = wrapS 64 (Z.of_nat (length (w_body w) - start));
  ac_panic : w_panicked w = false
}.

(** The result of a program, when it does not panic. *)
Definition ends (Q : conn → Prop) (w : conn) : Prop := w_panicked w = true ∨ Q w.

Section Ends.
Variable start : nat.
Variable Q : conn → Prop.

Lemma run_WriteHeader code b w k : accounts start b w → (∀ b' w', accounts start b' w' → ends Q (run (k b') w')) → ends Q (run (WriteHeader code b k) w).
Proof.
  intros Hacc Hk. pose proof Hacc as [Hh Hs Hu Hcd Hb Hz Hp]. unfold WriteHeader. destruct (headerWritten b) eqn:Hw; [by apply Hk|].
  assert (Hgo : ∀ b', (informational code = true → b' = b) → (informational code = false → b' = MkWrapper true (size b) code (tee b)) → ends Q (run (PHeader code (k b')) w)).
  { intros b' Hi Hf. cbn [run]. unfold conn_WriteHeader. rewrite Hs. destruct ((code <? 100) || (999 <? code)) eqn:Hcode; [by left|]. destruct (informational code).
    - rewrite Hi by done. cbn [send_informational w_panicked]. rewrite Hp. apply Hk. constructor; cbn [send_informational w_status w_body w_panicked]; rewrite ?Hw; done.
    - rewrite Hf by done. cbn [send_status w_panicked]. rewrite Hp. apply Hk. apply orb_false_iff in Hcode as [Hlow%Z.ltb_ge _]. by constructor. }
  unfold informational in Hgo. destruct (_ && _ && _); apply Hgo; done.
Qed.

Lemma run_maybe b w k : accounts start b w → (∀ b' w', accounts start b' w' → headerWritten b' = true → ends Q (run (k b') w')) → ends Q (run (maybeWriteHeader b k) w).
Proof.
  intros Hacc Hk. pose proof Hacc as [Hh Hs Hu Hcd Hb Hz Hp]. unfold maybeWriteHeader. destruct (headerWritten b) eqn:Hw; cbn [negb]; [by apply Hk|].
  unfold WriteHeader. rewrite Hw. cbn [Z.leb Z.compare Pos.compare Pos.compare_cont andb run]. unfold conn_WriteHeader. rewrite Hs. cbn [orb Z.ltb Z.compare Pos.compare Pos.compare_cont].
  change (informational 200) with false. cbn [send_status w_panicked]. rewrite Hp. apply Hk; [|done]. by constructor.
Qed.

(** Sending a text under a header that is written. *)
Lemma sent_accounts buf b w : accounts start b w → headerWritten b = true →
  let '(w', n, err) := conn_Write buf w in accounts start (add_size n b) w' ∧ w_body w' = w_body w ++ take (Z.to_nat n) buf ∧ 0 <= n <= Z.of_nat (length buf) ∧ (err = false → n = Z.of_nat (length buf)).
Proof.
  intros [Hh Hs Hu Hcd Hb Hz Hp] Hw. unfold conn_Write, conn_implicit. rewrite Hw in Hs. rewrite Hs. unfold taken, short.
  assert (Hlen : length (take (accepted (w_writes w)) buf) = Nat.min (accepted (w_writes w)) (length buf)) by apply length_take. split_and!.
  - constructor; cbn [add_size headerWritten size status tee w_status w_body w_panicked]; rewrite ?length_app, ?Hlen; try done; rewrite ?Hw; try done; try lia.
    rewrite Hz, wrapS_add. f_equal. lia.
  - cbn [w_body]. rewrite Nat2Z.id, Hlen. f_equal. destruct (Nat.le_gt_cases (accepted (w_writes w)) (length buf)); [by rewrite Nat.min_l by lia|]. by rewrite Nat.min_r, !take_ge by lia.
  - rewrite Hlen. lia.
  - rewrite Hlen. lia.
  - intros [Hn _]%orb_false_iff. apply Nat.ltb_ge in Hn. rewrite Hlen. lia.
Qed.

Lemma copied_accounts src b w : accounts start b w → headerWritten b = true →
  let '(w', n, err) := conn_ReadFrom src w in accounts start (add_size n b) w'.
Proof.
  intros Hacc Hw. unfold conn_ReadFrom. destruct (concat src) as [|c buf].
  - destruct Hacc as [Hh Hs Hu Hcd Hb Hz Hp]. constructor; cbn [add_size headerWritten size status]; try done. rewrite Hz, wrapS_add. f_equal. lia.
  - pose proof (sent_accounts (c :: buf) b w Hacc Hw) as Hsent. destruct (conn_Write (c :: buf) w) as [[w' n] err]. apply Hsent.
Qed.

Lemma copy_accounts buf b w : accounts start b w → accounts start b (conn_copy buf w).1.
Proof. by intros []. Qed.

Lemma run_Write buf b w k : accounts start b w → (∀ b' w' n err, accounts start b' w' → ends Q (run (k n err b') w')) → ends Q (run (Write buf b k) w).
Proof.
  intros Hacc Hk. unfold Write. apply run_maybe; [done|]. clear b w Hacc. intros b w Hacc Hw. cbn [run].
  pose proof (sent_accounts buf b w Hacc Hw) as Hsent. destruct (conn_Write buf w) as [[w' n] err]. destruct Hsent as [Hacc' _].
  destruct (tee b); [|by apply Hk]. cbn [run]. pose proof (copy_accounts (take (Z.to_nat n) buf) _ _ Hacc') as Hc.
  destruct (conn_copy _ w') as [w2 terr]. by apply Hk.
Qed.

Lemma run_Copy src : ∀ total b w k, accounts start b w → (∀ b' w' n err, accounts start b' w' → ends Q (run (k n err b') w')) → ends Q (run (Copy src total b k) w).
Proof.
  induction src as [|buf src IH]; intros total b w k Hacc Hk; cbn [Copy]; [by apply Hk|]. destruct (_ =? 0)%nat; [by apply IH|].
  apply run_Write; [done|]. intros b' w' n err Hacc'. destruct (_ || _); [by apply Hk|by apply IH].
Qed.

Lemma run_ReadFrom src b w k : accounts start b w → (∀ b' w' n err, accounts start b' w' → ends Q (run (k n err b') w')) → ends Q (run (ReadFrom src b k) w).
Proof.
  intros Hacc Hk. unfold ReadFrom. destruct (_ || _); [by apply run_Copy|]. apply run_maybe; [done|]. clear b w Hacc. intros b w Hacc Hw. cbn [run].
  pose proof (copied_accounts src b w Hacc Hw) as Hacc'. destruct (conn_ReadFrom src w) as [[w' n] err]. by apply Hk.
Qed.

Lemma run_Flush b w k : accounts start b w → (∀ b' w', accounts start b' w' → ends Q (run (k b') w')) → ends Q (run (Flush b k) w).
Proof.
  intros Hacc Hk. unfold Flush. apply run_maybe; [done|]. clear b w Hacc. intros b w Hacc Hw. destruct isFlusher; [|by apply Hk]. cbn [run].
  assert (Himp : conn_implicit w = w); [|rewrite Himp; by apply Hk]. destruct Hacc as [_ Hs _ _ _ _ _]. unfold conn_implicit. by rewrite Hs, Hw.
Qed.

Lemma run_wrapped p : ∀ b w done, accounts start b w → (∀ b' w', accounts start b' w' → ends Q (run (done b') w')) → ends Q (run (wrapped p b done) w).
Proof.
  induction p as [| |code k IH|buf k IH|k IH|src k IH|set k IH|buf k IH|e k IH]; intros b w done Hacc Hd; cbn [wrapped].
  - by apply Hd.
  - by left.
  - apply run_WriteHeader; auto.
  - apply run_Write; auto.
  - apply run_Flush; auto.
  - apply run_ReadFrom; auto.
  - apply IH; [|done]. destruct Hacc. by constructor.
  - cbn [run]. pose proof (copy_accounts buf b w Hacc) as Hc. destruct (conn_copy buf w) as [w' err]. by apply IH.
  - cbn [run]. apply IH; [|done]. destruct Hacc. by constructor.
Qed.
End Ends.

(** ** What the client gets *)

(** The programs of a handler that asks for no copies, and whose sources give
    something unless the header is written, as [h] says it is already. *)
Fixpoint plain (p : prog) (h : bool) : Prop :=
  match p with
  | PDone | PPanic => True
  | PHeader code k => plain k (h || negb (informational code))
  | PFlush k => plain k true
  | PLog _ k => plain k h
  | PWrite _ k => ∀ n err, plain (k n err) true
  | PReadFrom src k => (h = true ∨ concat src ≠ []) ∧ ∀ n err, plain (k n err) true
  | PTee _ _ | PCopy _ _ => False
  end.

(** The header a wrapper has written, and one still to write. *)
Definition in_step (b : responseWriterWrapper) (w : conn) : Prop :=
  headerWritten b = bool_decide (is_Some (w_status w)) ∧ tee b = false ∧ w_panicked w = false.

Lemma maybe_in_step b w k : in_step b w → ∃ b', run (maybeWriteHeader b k) w = run (k b') (conn_implicit w) ∧ in_step b' (conn_implicit w).
Proof.
  intros (Hh & Ht & Hp). unfold maybeWriteHeader, conn_implicit. case_bool_decide as Hs; rewrite Hh; cbn [negb].
  - exists b. destruct Hs as [st Hst]. rewrite Hst. split; [done|]. split; [by rewrite Hst|done].
  - apply eq_None_not_Some in Hs. rewrite Hs. unfold WriteHeader. rewrite Hh. cbn [Z.leb Z.compare Pos.compare Pos.compare_cont andb run]. unfold conn_WriteHeader. rewrite Hs.
    change (informational 200) with false. cbn [orb Z.ltb Z.compare Pos.compare Pos.compare_cont send_status w_panicked]. rewrite Hp. by eexists.
Qed.

Lemma implicit_twice w : conn_implicit (conn_implicit w) = conn_implicit w.
Proof. unfold conn_implicit. destruct (w_status w) eqn:Hs; cbn [send_status w_status]; by rewrite ?Hs. Qed.

Lemma Write_implicit buf w : conn_Write buf (conn_implicit w) = conn_Write buf w.
Proof. unfold conn_Write. by rewrite implicit_twice. Qed.

Lemma Write_in_step buf b w n : in_step b (conn_implicit w) → in_step (add_size n b) (conn_Write buf w).1.1.
Proof. done. Qed.

Lemma implicit_sent w : is_Some (w_status (conn_implicit w)).
Proof. unfold conn_implicit. destruct (w_status w) eqn:Hs; [by rewrite Hs|by eexists]. Qed.

Lemma Write_sent buf w : is_Some (w_status (conn_Write buf w).1.1).
Proof. unfold conn_Write. cbn [fst w_status]. apply implicit_sent. Qed.

(** Copying under a header that is written, or bytes. *)
Lemma ReadFrom_implicit src w : is_Some (w_status w) ∨ concat src ≠ [] → conn_ReadFrom src (conn_implicit w) = conn_ReadFrom src w.
Proof.
  intros Hsrc. unfold conn_ReadFrom. destruct (concat src) as [|c buf]; [|apply Write_implicit]. destruct Hsrc as [[st Hst]|]; [|done].
  unfold conn_implicit. by rewrite Hst.
Qed.

Lemma ReadFrom_in_step src b w n : is_Some (w_status w) ∨ concat src ≠ [] → in_step b (conn_implicit w) →
  in_step (add_size n b) (conn_ReadFrom src w).1.1 ∧ is_Some (w_status (conn_ReadFrom src w).1.1).
Proof.
  intros Hsrc Hb. rewrite <- ReadFrom_implicit by done. unfold conn_ReadFrom. destruct (concat src) as [|c buf].
  - split; [done|]. apply implicit_sent.
  - rewrite Write_implicit. split; [by apply Write_in_step|apply Write_sent].
Qed.

(** To the client, a wrapped handler is the handler. *)
Lemma run_transparent p (Hflush : isFlusher = true) (Hread : isReaderFrom = true) : ∀ h b w done, plain p h → (h = true → is_Some (w_status w)) → in_step b w →
  w_panicked (run p w) = true ∧ run (wrapped p b done) w = run p w ∨ ∃ b', run (wrapped p b done) w = run (done b') (run p w).
Proof.
  induction p as [| |code k IH|buf k IH|k IH|src k IH|set k IH|buf k IH|e k IH]; intros h b w done Hn Hsent Hb; cbn [wrapped plain] in *; try done.
  - right. by exists b.
  - by left.
  - pose proof Hb as (Hh & Ht & Hp). unfold WriteHeader. cbn [run]. unfold conn_WriteHeader. case_bool_decide as Hs; rewrite Hh.
    + pose proof Hs as [st Hst]. rewrite Hst, Hp. by apply (IH _ _ _ _ Hn).
    + apply eq_None_not_Some in Hs. rewrite Hs. fold (informational code). destruct (informational code) eqn:Hi; cbn [run]; unfold conn_WriteHeader; rewrite Hs, ?Hi.
      * destruct (_ || _) eqn:Hcode in |- *; [by left|]. cbn [send_informational w_panicked]. rewrite Hp. rewrite orb_false_r in Hn. apply (IH _ _ _ _ Hn); [done|]. split; [cbn; by rewrite Hh, bool_decide_eq_false_2 by (rewrite Hs; by intros [])|done].
      * destruct (_ || _) eqn:Hcode in |- *; [by left|]. cbn [send_status w_panicked]. rewrite Hp. apply (IH _ _ _ _ Hn); [|done]. by eexists.
  - unfold Write. match goal with |- context [maybeWriteHeader b ?kk] => destruct (maybe_in_step b w kk Hb) as (b' & -> & Hb') end. cbn [run]. rewrite Write_implicit. pose proof (λ n, Write_in_step buf b' w n Hb') as Hw. pose proof (Write_sent buf w) as Hws.
    destruct (conn_Write buf w) as [[w' n] err]. destruct Hb' as (_ & Ht & _). rewrite Ht. by apply (IH _ _ true).
  - unfold Flush. match goal with |- context [maybeWriteHeader b ?kk] => destruct (maybe_in_step b w kk Hb) as (b' & -> & Hb') end. rewrite Hflush. cbn [run]. rewrite implicit_twice. apply (IH true); [done| |done]. intros _. apply implicit_sent.
  - unfold ReadFrom. pose proof Hb as (_ & Ht0 & _). rewrite Ht0, Hread. cbn [orb negb]. match goal with |- context [maybeWriteHeader b ?kk] => destruct (maybe_in_step b w kk Hb) as (b' & -> & Hb') end. cbn [run]. destruct Hn as [Hsrc Hn].
    assert (Hcopy : is_Some (w_status w) ∨ concat src ≠ []) by (destruct Hsrc; [left; by apply Hsent|by right]). rewrite ReadFrom_implicit by done.
    pose proof (λ n, ReadFrom_in_step src b' w n Hcopy Hb') as Hw. destruct (conn_ReadFrom src w) as [[w' n] err]. destruct (Hw n) as [Hw1 Hw2]. by apply (IH _ _ true).
  - destruct Hn.
  - destruct Hn.
  - cbn [run]. by apply (IH h).
Qed.
End Programs.

(** A handler that copies nothing and then answers 404 is not found; with the
    wrapper, which writes the header before it copies, it is 200. *)
Definition empty_copy : prog (L := unit) := PReadFrom [] (fun _ _ => PHeader 404 PDone).

Example empty_copy_seen : let run := run (L := unit) (fun _ => 0%nat) (fun _ => false) (fun _ => false) in
  let fresh := MkConn None [] [] [] [] false 0 in
  w_status (run empty_copy fresh) = Some 404 ∧
  w_status (run (wrapped true true empty_copy NewResponseWriterWrapper (fun _ => PDone)) fresh) = Some 200.
Proof. done. Qed.
