(* ===== verification/HTTPRoutes.v ===== *)
(** * [pkg/httpserver]: routes and middleware

    routes.go, route.go, middleware.go and the routing half of httpserver.go,
    config.go and options.go: which handler answers a route, through which
    middleware, and what is logged of a request. A handler is the program of
    [RespWriter] it makes of a request; [http.MaxBytesHandler],
    [http.TimeoutHandler], the router and the dump of a request are arguments.
    A nil function is [None]. *)

From stdpp Require Import base option list gmap.
From Stdlib Require Import String.
From S2P Require Import Prelude GoString GoText UHex RandomID TraceID RespWriter.

#[local] Open Scope Z_scope.

(** [slices.Contains]. *)
Definition str_in (s : gostring) (l : list gostring) : bool := existsb (str_eqb s) l.

Definition is_nil {A : Type} (f : option A) : bool := match f with None => true | Some _ => false end.

(** ** Requests and entries *)

(** What is read of a request; [q_trace] is the trace ID in its context. *)
Record Request : Type := MkRequest {
  q_method : gostring;
  q_path : gostring;
  q_rawQuery : gostring;
  q_requestURI : gostring;
  q_remoteAddr : gostring;
  q_header : gmap gostring gostring;
  q_trace : option gostring;
  q_time : Z
}.

Definition with_trace (t : option gostring) (r : Request) : Request :=
  MkRequest (q_method r) (q_path r) (q_rawQuery r) (q_requestURI r) (q_remoteAddr r) (q_header r) t (q_time r).

(** The entry of a request; [e_dump] is there at debug level. *)
Record entry : Type := MkEntry {
  e_traceid : gostring;
  e_time : Z;
  e_method : gostring;
  e_path : gostring;
  e_query : gostring;
  e_remoteAddress : gostring;
  e_uri : gostring;
  e_userAgent : gostring;
  e_forwardedFor : gostring;
  e_dump : option gostring;
  e_code : Z;
  e_size : Z
}.

Definition handler : Type := Request → @prog entry.

Inductive server_error : Type :=
| ErrNilBinder
| ErrNilRouteHandler (method path : gostring)
| ErrNilRouteMiddleware (method path : gostring)
| ErrInvalidRouteMethod (method path : gostring)
| ErrInvalidRoutePath (path : gostring)
| ErrDuplicateRoute (method path : gostring)
| ErrRouteRegistration (method path : gostring)
| ErrUnknownDefaultRoute (id : gostring)
| ErrMessage (msg : gostring).

(** ** Middleware *)

Record MiddlewareArgs : Type := MkArgs {
  a_method : gostring;
  a_path : gostring;
  a_description : gostring;
  a_traceIDHeaderName : gostring;
  a_redactFunc : gostring → gostring
}.

Definition MiddlewareFn : Type := MiddlewareArgs → handler → handler.

(** [ApplyMiddleware]: from the last to the first. *)
Definition ApplyMiddleware (arg : MiddlewareArgs) (next : handler) (middleware : list (option MiddlewareFn)) : handler :=
  fold_left (fun next v => match v with None => next | Some f => f arg next end) (rev middleware) next.

Section Server.
(** What is outside the package. *)
Variable canonical : gostring → gostring.
Variable newUUID : Request → list Z.
Variable debugEnabled : bool.
Variable DumpRequest : Request → gostring.
Variables isFlusher isReaderFrom : bool.
(** [strings.ToUpper] of a text that is not ASCII. *)
Variable upperNonASCII : gostring → gostring.
Variable MaxBytesHandler : handler → Z → handler.
Variable TimeoutHandler : handler → Z → gostring → handler.

(** [strings.IndexByte]. *)
Fixpoint IndexByte (s : gostring) (c : Z) : option nat :=
  match s with
  | [] => None
  | d :: s => if d =? c then Some O else S <$> IndexByte s c
  end.

Definition redactRequestURI (uri : gostring) (redactFn : gostring → gostring) : gostring :=
  match IndexByte uri 63 with
  | None => uri
  | Some q => take (q + 1) uri ++ redactFn (drop (q + 1) uri)
  end.

(** [RequestInjectHandler], its dependencies not nil. *)
Definition RequestInjectHandler (traceIDHeaderName : gostring) (redactFn : gostring → gostring) (next : handler) : handler := fun r =>
  let reqID := FromHTTPRequestHeader canonical (Some (q_header r)) traceIDHeaderName [] in
  let reqID := if str_eqb reqID [] then UUID_String (newUUID r) else reqID in
  let ctx := NewContext (q_trace r) reqID in
  wrapped isFlusher isReaderFrom (next (with_trace ctx r)) NewResponseWriterWrapper (fun rw =>
    let status := if Status rw =? 0 then 200 else Status rw in
    PLog (MkEntry reqID (q_time r) (q_method r) (q_path r) (redactFn (q_rawQuery r)) (q_remoteAddr r) (redactRequestURI (q_requestURI r) redactFn)
            (Get canonical (q_header r) (str "User-Agent")) (Get canonical (q_header r) (str "X-Forwarded-For"))
            (if debugEnabled then Some (redactFn (DumpRequest r)) else None) status (Size rw)) PDone).

Definition LoggerMiddlewareFn : MiddlewareFn := fun args next => RequestInjectHandler (a_traceIDHeaderName args) (a_redactFunc args) next.

(** ** Configuration *)

Record Route : Type := MkRoute {
  Method : gostring;
  Path : gostring;
  Description : gostring;
  Handler : option handler;
  Middleware : list (option MiddlewareFn);
  DisableLogger : bool;
  Timeout : Z
}.

Definition DisableTimeout : Z := -1.
Definition IndexHandlerFunc : Type := list Route → option handler.

(** A router: its table, and the handlers [New] sets when they are not. That
    of panics is given the value and answers a request, or panics again. *)
Context {R : Type}.
Record router : Type := MkRouter {
  r_table : R;
  r_NotFound : option handler;
  r_MethodNotAllowed : option handler;
  r_PanicHandler : option (bool → handler)
}.

(** [Handler], which may panic, and the handler bound to a method and a
    path. *)
Variable register : R → gostring → gostring → handler → option R.
Variable bound : R → gostring → gostring → option handler.

Definition IndexRoute : gostring := str "index".
Definition IPRoute : gostring := str "ip".
Definition MetricsRoute : gostring := str "metrics".
Definition PingRoute : gostring := str "ping".
Definition PprofRoute : gostring := str "pprof".
Definition StatusRoute : gostring := str "status".
Definition indexPath : gostring := str "/".
Definition ipHandlerPath : gostring := str "/ip".
Definition metricsHandlerPath : gostring := str "/metrics".
Definition pingHandlerPath : gostring := str "/ping".
Definition pprofHandlerPath : gostring := str "/pprof/*option".
Definition statusHandlerPath : gostring := str "/status".

Definition allDefaultRoutes : list gostring := [IndexRoute; IPRoute; MetricsRoute; PingRoute; PprofRoute; StatusRoute].
Definition MethodGet : gostring := str "GET".

Record handlers : Type := MkHandlers {
  h_index : IndexHandlerFunc;
  h_ip : handler;
  h_metrics : handler;
  h_ping : handler;
  h_pprof : handler;
  h_status : handler;
  h_notFound : handler;
  h_methodNotAllowed : handler;
  h_panic : handler
}.

(** Of the configuration, what routing reads. *)
Record config : Type := MkConfig {
  c_router : router;
  c_traceIDHeaderName : gostring;
  c_requestTimeout : Z;
  c_maxRequestBodyBytes : Z;
  c_defaultEnabledRoutes : list gostring;
  c_handlers : handlers;
  c_redactFn : gostring → gostring;
  c_middleware : list (option MiddlewareFn);
  c_disableDefaultRouteLogger : list gostring;
  c_disableRouteLogger : bool;
  c_disableNotFoundLogger : bool;
  c_disableMethodNotAllowedLogger : bool
}.

Definition Option : Type := config → result server_error config.

Definition set_router (r : router) (c : config) : config :=
  MkConfig r (c_traceIDHeaderName c) (c_requestTimeout c) (c_maxRequestBodyBytes c) (c_defaultEnabledRoutes c) (c_handlers c) (c_redactFn c) (c_middleware c) (c_disableDefaultRouteLogger c) (c_disableRouteLogger c) (c_disableNotFoundLogger c) (c_disableMethodNotAllowedLogger c).
Definition set_handlers (h : handlers) (c : config) : config :=
  MkConfig (c_router c) (c_traceIDHeaderName c) (c_requestTimeout c) (c_maxRequestBodyBytes c) (c_defaultEnabledRoutes c) h (c_redactFn c) (c_middleware c) (c_disableDefaultRouteLogger c) (c_disableRouteLogger c) (c_disableNotFoundLogger c) (c_disableMethodNotAllowedLogger c).

Definition WithRouter (v : option router) : Option := fun c =>
  match v with None => Error (ErrMessage (str "router is required")) | Some v => Ok (set_router v c) end.
Definition WithRequestTimeout (n : Z) : Option := fun c =>
  if n <=? 0 then Error (ErrMessage (str "invalid requestTimeout"))
  else Ok (MkConfig (c_router c) (c_traceIDHeaderName c) n (c_maxRequestBodyBytes c) (c_defaultEnabledRoutes c) (c_handlers c) (c_redactFn c) (c_middleware c) (c_disableDefaultRouteLogger c) (c_disableRouteLogger c) (c_disableNotFoundLogger c) (c_disableMethodNotAllowedLogger c)).
Definition WithMaxRequestBodyBytes (n : Z) : Option := fun c =>
  if n <=? 0 then Error (ErrMessage (str "invalid maxRequestBodyBytes"))
  else Ok (MkConfig (c_router c) (c_traceIDHeaderName c) (c_requestTimeout c) n (c_defaultEnabledRoutes c) (c_handlers c) (c_redactFn c) (c_middleware c) (c_disableDefaultRouteLogger c) (c_disableRouteLogger c) (c_disableNotFoundLogger c) (c_disableMethodNotAllowedLogger c)).
Definition WithEnableDefaultRoutes (ids : list gostring) : Option := fun c =>
  match find (fun id => negb (str_in id allDefaultRoutes)) ids with
  | Some id => Error (ErrUnknownDefaultRoute id)
  | None => Ok (MkConfig (c_router c) (c_traceIDHeaderName c) (c_requestTimeout c) (c_maxRequestBodyBytes c) ids (c_handlers c) (c_redactFn c) (c_middleware c) (c_disableDefaultRouteLogger c) (c_disableRouteLogger c) (c_disableNotFoundLogger c) (c_disableMethodNotAllowedLogger c))
  end.
Definition WithEnableAllDefaultRoutes : Option := fun c =>
  Ok (MkConfig (c_router c) (c_traceIDHeaderName c) (c_requestTimeout c) (c_maxRequestBodyBytes c) allDefaultRoutes (c_handlers c) (c_redactFn c) (c_middleware c) (c_disableDefaultRouteLogger c) (c_disableRouteLogger c) (c_disableNotFoundLogger c) (c_disableMethodNotAllowedLogger c)).
Definition WithIPHandlerFunc (v : option handler) : Option := fun c =>
  match v with None => Error (ErrMessage (str "ipHandlerFunc is required")) | Some v => Ok (set_handlers (MkHandlers (h_index (c_handlers c)) v (h_metrics (c_handlers c)) (h_ping (c_handlers c)) (h_pprof (c_handlers c)) (h_status (c_handlers c)) (h_notFound (c_handlers c)) (h_methodNotAllowed (c_handlers c)) (h_panic (c_handlers c))) c) end.
Definition WithMetricsHandlerFunc (v : option handler) : Option := fun c =>
  match v with None => Error (ErrMessage (str "metricsHandlerFunc is required")) | Some v => Ok (set_handlers (MkHandlers (h_index (c_handlers c)) (h_ip (c_handlers c)) v (h_ping (c_handlers c)) (h_pprof (c_handlers c)) (h_status (c_handlers c)) (h_notFound (c_handlers c)) (h_methodNotAllowed (c_handlers c)) (h_panic (c_handlers c))) c) end.
Definition WithPingHandlerFunc (v : option handler) : Option := fun c =>
  match v with None => Error (ErrMessage (str "pingHandlerFunc is required")) | Some v => Ok (set_handlers (MkHandlers (h_index (c_handlers c)) (h_ip (c_handlers c)) (h_metrics (c_handlers c)) v (h_pprof (c_handlers c)) (h_status (c_handlers c)) (h_notFound (c_handlers c)) (h_methodNotAllowed (c_handlers c)) (h_panic (c_handlers c))) c) end.
Definition WithPProfHandlerFunc (v : option handler) : Option := fun c =>
  match v with None => Error (ErrMessage (str "pprofHandlerFunc is required")) | Some v => Ok (set_handlers (MkHandlers (h_index (c_handlers c)) (h_ip (c_handlers c)) (h_metrics (c_handlers c)) (h_ping (c_handlers c)) v (h_status (c_handlers c)) (h_notFound (c_handlers c)) (h_methodNotAllowed (c_handlers c)) (h_panic (c_handlers c))) c) end.
Definition WithStatusHandlerFunc (v : option handler) : Option := fun c =>
  match v with None => Error (ErrMessage (str "statusHandlerFunc is required")) | Some v => Ok (set_handlers (MkHandlers (h_index (c_handlers c)) (h_ip (c_handlers c)) (h_metrics (c_handlers c)) (h_ping (c_handlers c)) (h_pprof (c_handlers c)) v (h_notFound (c_handlers c)) (h_methodNotAllowed (c_handlers c)) (h_panic (c_handlers c))) c) end.
Definition WithNotFoundHandlerFunc (v : option handler) : Option := fun c =>
  match v with None => Error (ErrMessage (str "notFoundHandlerFunc is required")) | Some v => Ok (set_handlers (MkHandlers (h_index (c_handlers c)) (h_ip (c_handlers c)) (h_metrics (c_handlers c)) (h_ping (c_handlers c)) (h_pprof (c_handlers c)) (h_status (c_handlers c)) v (h_methodNotAllowed (c_handlers c)) (h_panic (c_handlers c))) c) end.
Definition WithMethodNotAllowedHandlerFunc (v : option handler) : Option := fun c =>
  match v with None => Error (ErrMessage (str "methodNotAllowedHandlerFunc is required")) | Some v => Ok (set_handlers (MkHandlers (h_index (c_handlers c)) (h_ip (c_handlers c)) (h_metrics (c_handlers c)) (h_ping (c_handlers c)) (h_pprof (c_handlers c)) (h_status (c_handlers c)) (h_notFound (c_handlers c)) v (h_panic (c_handlers c))) c) end.
Definition WithPanicHandlerFunc (v : option handler) : Option := fun c =>
  match v with None => Error (ErrMessage (str "panicHandlerFunc is required")) | Some v => Ok (set_handlers (MkHandlers (h_index (c_handlers c)) (h_ip (c_handlers c)) (h_metrics (c_handlers c)) (h_ping (c_handlers c)) (h_pprof (c_handlers c)) (h_status (c_handlers c)) (h_notFound (c_handlers c)) (h_methodNotAllowed (c_handlers c)) v) c) end.
Definition WithIndexHandlerFunc (v : option IndexHandlerFunc) : Option := fun c =>
  match v with None => Error (ErrMessage (str "indexHandlerFunc is required")) | Some v => Ok (set_handlers (MkHandlers v (h_ip (c_handlers c)) (h_metrics (c_handlers c)) (h_ping (c_handlers c)) (h_pprof (c_handlers c)) (h_status (c_handlers c)) (h_notFound (c_handlers c)) (h_methodNotAllowed (c_handlers c)) (h_panic (c_handlers c))) c) end.
Definition WithTraceIDHeaderName (name : gostring) : Option := fun c =>
  if str_eqb name [] then Error (ErrMessage (str "traceIDHeaderName is required"))
  else Ok (MkConfig (c_router c) name (c_requestTimeout c) (c_maxRequestBodyBytes c) (c_defaultEnabledRoutes c) (c_handlers c) (c_redactFn c) (c_middleware c) (c_disableDefaultRouteLogger c) (c_disableRouteLogger c) (c_disableNotFoundLogger c) (c_disableMethodNotAllowedLogger c)).
Definition WithRedactFn (v : option (gostring → gostring)) : Option := fun c =>
  match v with None => Error (ErrMessage (str "redactFn is required")) | Some v => Ok (MkConfig (c_router c) (c_traceIDHeaderName c) (c_requestTimeout c) (c_maxRequestBodyBytes c) (c_defaultEnabledRoutes c) (c_handlers c) v (c_middleware c) (c_disableDefaultRouteLogger c) (c_disableRouteLogger c) (c_disableNotFoundLogger c) (c_disableMethodNotAllowedLogger c)) end.
Definition WithMiddlewareFn (fn : list (option MiddlewareFn)) : Option := fun c =>
  if existsb is_nil fn then Error (ErrMessage (str "middlewareFn is required"))
  else Ok (MkConfig (c_router c) (c_traceIDHeaderName c) (c_requestTimeout c) (c_maxRequestBodyBytes c) (c_defaultEnabledRoutes c) (c_handlers c) (c_redactFn c) (c_middleware c ++ fn) (c_disableDefaultRouteLogger c) (c_disableRouteLogger c) (c_disableNotFoundLogger c) (c_disableMethodNotAllowedLogger c)).
Definition WithoutRouteLogger : Option := fun c =>
  Ok (MkConfig (c_router c) (c_traceIDHeaderName c) (c_requestTimeout c) (c_maxRequestBodyBytes c) (c_defaultEnabledRoutes c) (c_handlers c) (c_redactFn c) (c_middleware c) (c_disableDefaultRouteLogger c) true (c_disableNotFoundLogger c) (c_disableMethodNotAllowedLogger c)).
Definition WithoutNotFoundLogger : Option := fun c =>
  Ok (MkConfig (c_router c) (c_traceIDHeaderName c) (c_requestTimeout c) (c_maxRequestBodyBytes c) (c_defaultEnabledRoutes c) (c_handlers c) (c_redactFn c) (c_middleware c) (c_disableDefaultRouteLogger c) (c_disableRouteLogger c) true (c_disableMethodNotAllowedLogger c)).
Definition WithoutMethodNotAllowedLogger : Option := fun c =>
  Ok (MkConfig (c_router c) (c_traceIDHeaderName c) (c_requestTimeout c) (c_maxRequestBodyBytes c) (c_defaultEnabledRoutes c) (c_handlers c) (c_redactFn c) (c_middleware c) (c_disableDefaultRouteLogger c) (c_disableRouteLogger c) (c_disableNotFoundLogger c) true).
Definition WithoutDefaultRouteLogger (ids : list gostring) : Option := fun c =>
  match find (fun id => negb (str_in id allDefaultRoutes)) ids with
  | Some id => Error (ErrUnknownDefaultRoute id)
  | None => Ok (MkConfig (c_router c) (c_traceIDHeaderName c) (c_requestTimeout c) (c_maxRequestBodyBytes c) (c_defaultEnabledRoutes c) (c_handlers c) (c_redactFn c) (c_middleware c) (c_disableDefaultRouteLogger c ++ ids) (c_disableRouteLogger c) (c_disableNotFoundLogger c) (c_disableMethodNotAllowedLogger c))
  end.

(** ** Binding *)

Definition isIndexRouteEnabled (c : config) : bool := str_in IndexRoute (c_defaultEnabledRoutes c).

(** [commonMiddleware]. *)
Definition maxBodyMiddlewareFn (n : Z) : MiddlewareFn := fun _ next => MaxBytesHandler next n.
Definition timeoutMessage : gostring := str "TIMEOUT".
Definition timeoutMiddlewareFn (timeout : Z) : MiddlewareFn := fun _ next => TimeoutHandler next timeout timeoutMessage.

Definition commonMiddleware (c : config) (noRouteLogger : bool) (rTimeout : Z) : list (option MiddlewareFn) :=
  let middleware := if 0 <? c_maxRequestBodyBytes c then [Some (maxBodyMiddlewareFn (c_maxRequestBodyBytes c))] else [] in
  let middleware := if negb (c_disableRouteLogger c) && negb noRouteLogger then middleware ++ [Some LoggerMiddlewareFn] else middleware in
  let timeout := if negb (rTimeout =? 0) then rTimeout else c_requestTimeout c in
  let middleware := if 0 <? timeout then middleware ++ [Some (timeoutMiddlewareFn timeout)] else middleware in
  middleware ++ c_middleware c.

Definition mwArgs (c : config) (method path description : gostring) : MiddlewareArgs :=
  MkArgs method path description (c_traceIDHeaderName c) (c_redactFn c).

(** [newPanicHandler]; [abort] tells whether the panic is
    [http.ErrAbortHandler]. *)
Definition newPanicHandler (c : config) (middleware : list (option MiddlewareFn)) : bool → handler :=
  let h := ApplyMiddleware (mwArgs c [] (str "500") (str "Internal Server Error")) (h_panic (c_handlers c)) middleware in
  fun abort r => if abort then PPanic else h r.

Definition or_else {A : Type} (x : option A) (y : A) : option A := match x with Some _ => x | None => Some y end.

Definition setRouter (c : config) : config :=
  let r := c_router c in
  set_router (MkRouter (r_table r)
    (or_else (r_NotFound r) (ApplyMiddleware (mwArgs c [] (str "404") (str "Not Found")) (h_notFound (c_handlers c)) (commonMiddleware c (c_disableNotFoundLogger c) 0)))
    (or_else (r_MethodNotAllowed r) (ApplyMiddleware (mwArgs c [] (str "405") (str "Method Not Allowed")) (h_methodNotAllowed (c_handlers c)) (commonMiddleware c (c_disableMethodNotAllowedLogger c) 0)))
    (or_else (r_PanicHandler r) (newPanicHandler c (commonMiddleware c false 0)))) c.

Definition defaultRoute (c : config) (id : gostring) : list Route :=
  let quiet := str_in id (c_disableDefaultRouteLogger c) in
  let h := c_handlers c in
  if str_eqb id IndexRoute then []
  else if str_eqb id IPRoute then [MkRoute MethodGet ipHandlerPath (str "Returns the public IP address of this service instance.") (Some (h_ip h)) [] quiet 0]
  else if str_eqb id MetricsRoute then [MkRoute MethodGet metricsHandlerPath (str "Returns Prometheus metrics.") (Some (h_metrics h)) [] quiet 0]
  else if str_eqb id PingRoute then [MkRoute MethodGet pingHandlerPath (str "Ping this service.") (Some (h_ping h)) [] quiet 0]
  else if str_eqb id PprofRoute then [MkRoute MethodGet pprofHandlerPath (str "Returns pprof data for the selected profile.") (Some (h_pprof h)) [] quiet DisableTimeout]
  else if str_eqb id StatusRoute then [MkRoute MethodGet statusHandlerPath (str "Check this service health status.") (Some (h_status h)) [] quiet 0]
  else [].

(** The loop of [newDefaultRoutes]. *)
Fixpoint newDefaultRoutes_loop (c : config) (ids seen : list gostring) (routes : list Route) : list Route :=
  match ids with
  | [] => routes
  | id :: ids =>
      if str_in id seen then newDefaultRoutes_loop c ids seen routes
      else newDefaultRoutes_loop c ids (id :: seen) (routes ++ defaultRoute c id)
  end.

Definition newDefaultRoutes (c : config) : list Route := newDefaultRoutes_loop c (c_defaultEnabledRoutes c) [] [].

Definition ToUpper (s : gostring) : gostring :=
  if is_ascii s then map (fun b => if between 97 b 122 then b - 32 else b) s else upperNonASCII s.

Definition validateRoute (r : Route) : result server_error unit :=
  if str_eqb (Method r) [] || negb (str_eqb (Method r) (ToUpper (Method r))) then Error (ErrInvalidRouteMethod (Method r) (Path r))
  else if negb (HasPrefix (Path r) [47]) then Error (ErrInvalidRoutePath (Path r))
  else match Handler r with
       | None => Error (ErrNilRouteHandler (Method r) (Path r))
       | Some _ => if existsb is_nil (Middleware r) then Error (ErrNilRouteMiddleware (Method r) (Path r)) else Ok tt
       end.

(** [reserveRoute]: the keys that are taken. *)
Definition routeKey (method path : gostring) : gostring := method ++ 32 :: path.
Definition reserveRoute (seen : list gostring) (method path : gostring) : result server_error (list gostring) :=
  if str_in (routeKey method path) seen then Error (ErrDuplicateRoute method path) else Ok (routeKey method path :: seen).

Definition registerRoute (t : R) (method path : gostring) (h : handler) : result server_error R :=
  match register t method path h with Some t => Ok t | None => Error (ErrRouteRegistration method path) end.

(** What answers a route. *)
Definition routeHandler (c : config) (r : Route) (h : handler) : handler :=
  ApplyMiddleware (mwArgs c (Method r) (Path r) (Description r)) h (commonMiddleware c (DisableLogger r) (Timeout r) ++ Middleware r).

Definition bindRoute (c : config) (r : Route) (seen : list gostring) (t : R) : result server_error (list gostring * R) :=
  (_ <-? validateRoute r ;;
   seen <-? reserveRoute seen (Method r) (Path r) ;;
   match Handler r with
   | None => Error (ErrNilRouteHandler (Method r) (Path r))
   | Some h => t <-? registerRoute t (Method r) (Path r) (routeHandler c r h) ;; Ok (seen, t)
   end)%go.

(** The loop of [loadRoutes]. *)
Fixpoint bindRoutes (c : config) (routes : list Route) (seen : list gostring) (t : R) : result server_error (list gostring * R) :=
  (match routes with
   | [] => Ok (seen, t)
   | r :: routes => p <-? bindRoute c r seen t ;; bindRoutes c routes p.1 p.2
   end)%go.

Definition indexHandler (c : config) (h : handler) : handler :=
  ApplyMiddleware (mwArgs c MethodGet indexPath (str "Index")) h (commonMiddleware c (str_in IndexRoute (c_disableDefaultRouteLogger c)) 0).

Definition bindIndexRoute (c : config) (routes : list Route) (seen : list gostring) (t : R) : result server_error R :=
  (if negb (isIndexRouteEnabled c) then Ok t
   else
     _ <-? reserveRoute seen MethodGet indexPath ;;
     match h_index (c_handlers c) routes with
     | None => Error (ErrNilRouteHandler MethodGet indexPath)
     | Some h => registerRoute t MethodGet indexPath (indexHandler c h)
     end)%go.

(** [loadRoutes]; [custom] is what the binder returns. *)
Definition loadRoutes (c : config) (custom : list Route) : result server_error R :=
  (let routes := newDefaultRoutes c ++ custom in
   p <-? bindRoutes c routes [] (r_table (c_router c)) ;;
   bindIndexRoute c routes p.1 p.2)%go.

Fixpoint apply_options (opts : list Option) (c : config) : result server_error config :=
  (match opts with
   | [] => Ok c
   | o :: opts => c <-? o c ;; apply_options opts c
   end)%go.

(** [New] up to the listener: the configuration and the router that serves.
    A nil binder is [None]. *)
Definition New (defaultConfig : config) (binder : option (list Route)) (opts : list Option) : result server_error (config * router) :=
  (match binder with
   | None => Error ErrNilBinder
   | Some custom =>
       c <-? apply_options opts defaultConfig ;;
       let c := setRouter c in
       t <-? loadRoutes c custom ;;
       Ok (c, MkRouter t (r_NotFound (c_router c)) (r_MethodNotAllowed (c_router c)) (r_PanicHandler (c_router c)))
   end)%go.

(** ** What answers *)

Lemma ApplyMiddleware_foldr arg h mws : ApplyMiddleware arg h mws = fold_right (fun v next => match v with None => next | Some f => f arg next end) h mws.
Proof. unfold ApplyMiddleware. by rewrite <- fold_left_rev_right, rev_involutive. Qed.

Lemma ApplyMiddleware_app arg h l k : ApplyMiddleware arg h (l ++ k) = ApplyMiddleware arg (ApplyMiddleware arg h k) l.
Proof. by rewrite !ApplyMiddleware_foldr, fold_right_app. Qed.

(** From the outside in: the guard of the body, the log, the timeout, the
    server's middleware. *)
Definition layers (c : config) (args : MiddlewareArgs) (quiet : bool) (rTimeout : Z) (inner : handler) : handler :=
  let timeout := if rTimeout =? 0 then c_requestTimeout c else rTimeout in
  let served := ApplyMiddleware args inner (c_middleware c) in
  let timed := if 0 <? timeout then TimeoutHandler served timeout timeoutMessage else served in
  let logged := if c_disableRouteLogger c || quiet then timed else RequestInjectHandler (c_traceIDHeaderName c) (c_redactFn c) timed in
  if 0 <? c_maxRequestBodyBytes c then MaxBytesHandler logged (c_maxRequestBodyBytes c) else logged.

Lemma common_layers c method path desc quiet rTimeout inner mws :
  ApplyMiddleware (mwArgs c method path desc) inner (commonMiddleware c quiet rTimeout ++ mws) =
  layers c (mwArgs c method path desc) quiet rTimeout (ApplyMiddleware (mwArgs c method path desc) inner mws).
Proof.
  unfold commonMiddleware, layers. rewrite ApplyMiddleware_app. generalize (ApplyMiddleware (mwArgs c method path desc) inner mws). intros h.
  destruct (rTimeout =? 0); cbn [negb];
    (match goal with |- context [0 <? c_maxRequestBodyBytes c] => destruct (0 <? c_maxRequestBodyBytes c) end); destruct (c_disableRouteLogger c), quiet; cbn [negb andb orb];
    (match goal with |- context [0 <? ?t] => destruct (0 <? t) end); rewrite !ApplyMiddleware_app; rewrite ?ApplyMiddleware_foldr; reflexivity.
Qed.

Definition routeLayers (c : config) (r : Route) (h : handler) : handler :=
  let args := mwArgs c (Method r) (Path r) (Description r) in layers c args (DisableLogger r) (Timeout r) (ApplyMiddleware args h (Middleware r)).

Lemma routeHandler_layers c r h : routeHandler c r h = routeLayers c r h.
Proof. apply common_layers. Qed.

(** A router that binds a route answers it, and the others as before. *)
Hypothesis register_bound : ∀ t m p h t', register t m p h = Some t' →
  ∀ m' p', bound t' m' p' = if str_eqb m' m && str_eqb p' p then Some h else bound t m' p'.

Lemma str_eqb_spec s t : str_eqb s t = true ↔ s = t.
Proof. unfold str_eqb. by rewrite bool_decide_eq_true. Qed.

Lemma str_in_spec s l : str_in s l = true ↔ s ∈ l.
Proof.
  unfold str_in. rewrite existsb_exists, list_elem_of_In. split; [intros (x & Hx & ->%str_eqb_spec); done|]. intros Hs. exists s. split; [done|]. by apply str_eqb_spec.
Qed.

(** A route that is declared as it must be. *)
Definition route_ok (r : Route) : Prop :=
  Method r ≠ [] ∧ Method r = ToUpper (Method r) ∧ (∃ p, Path r = 47 :: p) ∧ is_Some (Handler r) ∧ Forall is_Some (Middleware r).

Lemma validateRoute_spec r : validateRoute r = Ok tt ↔ route_ok r.
Proof.
  unfold validateRoute, route_ok. destruct (str_eqb (Method r) []) eqn:Hm; cbn [orb]; [apply str_eqb_spec in Hm; split; [done|by intros [? _]]|].
  assert (Hne : Method r ≠ []) by (intros He%str_eqb_spec; congruence).
  destruct (str_eqb (Method r) (ToUpper (Method r))) eqn:Hup; cbn [negb]; [apply str_eqb_spec in Hup|split; [done|intros (_ & Hup' & _); apply str_eqb_spec in Hup'; congruence]].
  destruct (HasPrefix (Path r) [47]) eqn:Hp; cbn [negb].
  2:{ split; [done|]. intros (_ & _ & [p Hpath] & _). rewrite Hpath in Hp. done. }
  apply HasPrefix_spec in Hp as [p Hp]. destruct (Handler r) as [h|]; [|split; [done|intros (_ & _ & _ & [? ?] & _); done]].
  assert (Hmw : existsb is_nil (Middleware r) = false ↔ Forall is_Some (Middleware r)).
  { rewrite <- not_true_iff_false, existsb_exists, Forall_forall. split.
    - intros Hn x Hx. destruct x; [done|]. exfalso. apply Hn. exists None. split; [by apply list_elem_of_In|done].
    - intros Hall (x & Hx & Hnil). apply list_elem_of_In, Hall in Hx as [y ->]. done. }
  destruct (existsb is_nil (Middleware r)); [split; [done|intros (_ & _ & _ & _ & Hall%Hmw); done]|]. split; [intros _|done]. split_and!; try done; [by exists p|by apply Hmw].
Qed.

(** The routes bound so far: their keys are taken, each is answered, and
    nothing else of the table has changed. *)
Definition answered (c : config) (rs : list Route) (seen : list gostring) (t0 t : R) : Prop :=
  NoDup seen ∧ (∀ k, k ∈ seen ↔ ∃ r, r ∈ rs ∧ k = routeKey (Method r) (Path r)) ∧ Forall route_ok rs ∧
  NoDup ((fun r => (Method r, Path r)) <$> rs) ∧
  (∀ r, r ∈ rs → ∃ h, Handler r = Some h ∧ bound t (Method r) (Path r) = Some (routeLayers c r h)) ∧
  (∀ m p, (∀ r, r ∈ rs → (m, p) ≠ (Method r, Path r)) → bound t m p = bound t0 m p).

Lemma bindRoute_answered c rs r seen t0 t seen' t' : answered c rs seen t0 t → bindRoute c r seen t = Ok (seen', t') → answered c (rs ++ [r]) seen' t0 t'.
Proof.
  intros (Hns & Hseen & Hok & Hnd & Hans & Hrest) Hb. unfold bindRoute in Hb. destruct (validateRoute r) as [[]|] eqn:Hv; [|done]. apply validateRoute_spec in Hv. cbn [result_bind] in Hb.
  unfold reserveRoute in Hb. destruct (str_in _ seen) eqn:Hin; [done|]. cbn [result_bind] in Hb. destruct (Handler r) as [h|] eqn:Hh; [|done]. unfold registerRoute in Hb.
  destruct (register t (Method r) (Path r) (routeHandler c r h)) as [t1|] eqn:Hreg; [|done]. cbn [result_bind] in Hb. injection Hb as <- <-.
  pose proof (register_bound _ _ _ _ _ Hreg) as Hbound. rewrite routeHandler_layers in Hbound.
  assert (Hnew : ∀ q, q ∈ rs → (Method q, Path q) ≠ (Method r, Path r)).
  { intros q Hq [= Hm Hp]. apply not_true_iff_false in Hin. apply Hin, str_in_spec, Hseen. exists q. by rewrite Hm, Hp. }
  assert (Hother : ∀ m p, (m, p) ≠ (Method r, Path r) → bound t1 m p = bound t m p).
  { intros m p Hne. rewrite Hbound. destruct (str_eqb m (Method r) && str_eqb p (Path r)) eqn:He; [|done]. apply andb_true_iff in He as [->%str_eqb_spec ->%str_eqb_spec]. done. }
  split; [|split; [|split; [|split; [|split]]]].
  - constructor; [|done]. intros Hk%str_in_spec. congruence.
  - intros k. rewrite elem_of_cons, Hseen. setoid_rewrite elem_of_app. setoid_rewrite list_elem_of_singleton. split.
    + intros [->|(q & Hq & ->)]; [exists r; split; [by right|done]|exists q; split; [by left|done]].
    + intros (q & [Hq | ->] & ->); [right; by exists q|by left].
  - apply Forall_app. split; [done|by constructor].
  - rewrite fmap_app. apply NoDup_app. split; [done|]. split; [|apply NoDup_singleton]. intros x Hx Hx'. apply list_elem_of_singleton in Hx'. subst x.
    apply list_elem_of_fmap in Hx as (q & Hq & Hqin). by apply (Hnew q Hqin).
  - intros q [Hq| ->%list_elem_of_singleton]%elem_of_app.
    + destruct (Hans q Hq) as (hq & Hhq & Hbq). exists hq. split; [done|]. by rewrite Hother by (by apply Hnew).
    + exists h. split; [done|]. rewrite Hbound. by rewrite !(proj2 (str_eqb_spec _ _) eq_refl).
  - intros m p Hmp. rewrite Hother by (apply Hmp; set_solver). apply Hrest. intros q Hq. apply Hmp. set_solver.
Qed.

Lemma bindRoutes_answered c routes : ∀ rs seen t0 t seen' t', answered c rs seen t0 t → bindRoutes c routes seen t = Ok (seen', t') → answered c (rs ++ routes) seen' t0 t'.
Proof.
  induction routes as [|r routes IH]; intros rs seen t0 t seen' t' Ha Hb; cbn [bindRoutes] in Hb; [injection Hb as <- <-; by rewrite app_nil_r|].
  destruct (bindRoute c r seen t) as [[s1 t1]|] eqn:H1; [|done]. cbn [result_bind fst snd] in Hb. apply (bindRoute_answered c rs r seen t0 t) in H1; [|done].
  replace (rs ++ r :: routes) with ((rs ++ [r]) ++ routes) by (by rewrite <- app_assoc). by eapply IH.
Qed.

(** The default routes: one for each identifier enabled, the first time. *)
Fixpoint firsts (seen ids : list gostring) : list gostring :=
  match ids with
  | [] => []
  | id :: ids => if str_in id seen then firsts seen ids else id :: firsts (id :: seen) ids
  end.

Lemma newDefaultRoutes_firsts c : newDefaultRoutes c = firsts [] (c_defaultEnabledRoutes c) ≫= defaultRoute c.
Proof.
  unfold newDefaultRoutes. assert (Hgen : ∀ ids seen routes, newDefaultRoutes_loop c ids seen routes = routes ++ (firsts seen ids ≫= defaultRoute c)); [|apply Hgen].
  induction ids as [|id ids IH]; intros seen routes; cbn [newDefaultRoutes_loop firsts]; [by rewrite app_nil_r|]. destruct (str_in id seen); [apply IH|]. rewrite IH. cbn [mbind list_bind]. by rewrite <- app_assoc.
Qed.

Lemma setRouter_table c : r_table (c_router (setRouter c)) = r_table (c_router c).
Proof. done. Qed.

(** The routing of a server that was made. *)
Lemma New_routes dc custom opts c rt : New dc (Some custom) opts = Ok (c, rt) →
  let routes := firsts [] (c_defaultEnabledRoutes c) ≫= defaultRoute c in
  let all := routes ++ custom in
  let t0 := r_table (c_router c) in
  Forall route_ok all ∧ NoDup ((fun r => (Method r, Path r)) <$> all) ∧
  (∀ r, r ∈ all → ∃ h, Handler r = Some h ∧ bound (r_table rt) (Method r) (Path r) = Some (routeLayers c r h)) ∧
  (if isIndexRouteEnabled c then
     (∀ r, r ∈ all → (Method r, Path r) ≠ (MethodGet, indexPath)) ∧
     ∃ h, h_index (c_handlers c) all = Some h ∧
       bound (r_table rt) MethodGet indexPath = Some (layers c (mwArgs c MethodGet indexPath (str "Index")) (str_in IndexRoute (c_disableDefaultRouteLogger c)) 0 h)
   else True) ∧
  (∀ m p, (∀ r, r ∈ all → (m, p) ≠ (Method r, Path r)) → (isIndexRouteEnabled c = true → (m, p) ≠ (MethodGet, indexPath)) → bound (r_table rt) m p = bound t0 m p).
Proof.
  intros Hnew. cbn zeta. cbn [New] in Hnew. destruct (apply_options opts dc) as [c1|]; [|done]. cbn [result_bind] in Hnew. set (c2 := setRouter c1) in *.
  destruct (loadRoutes c2 custom) as [t|] eqn:Hload; [|done]. cbn [result_bind] in Hnew. injection Hnew as <- <-. cbn [r_table].
  unfold loadRoutes in Hload. rewrite newDefaultRoutes_firsts in Hload. set (all := (firsts [] (c_defaultEnabledRoutes c2) ≫= defaultRoute c2) ++ custom) in *.
  destruct (bindRoutes c2 all [] (r_table (c_router c2))) as [[seen t1]|] eqn:Hb; [|done]. cbn [result_bind fst snd] in Hload.
  apply (bindRoutes_answered c2 all [] [] (r_table (c_router c2))) in Hb; [|split_and!; try done; [constructor|set_solver|constructor|set_solver]].
  destruct Hb as (_ & Hseen & Hok & Hnd & Hans & Hrest). cbn [app] in *. split; [done|]. split; [done|].
  unfold bindIndexRoute in Hload. destruct (isIndexRouteEnabled c2) eqn:Hi; cbn [negb] in Hload.
  2:{ injection Hload as <-. split_and!; try done. intros m p Hmp _. by apply Hrest. }
  unfold reserveRoute in Hload. destruct (str_in _ seen) eqn:Hin; [done|]. cbn [result_bind] in Hload. destruct (h_index (c_handlers c2) all) as [h|] eqn:Hh; [|done].
  unfold registerRoute in Hload. destruct (register t1 MethodGet indexPath (indexHandler c2 h)) as [t2|] eqn:Hreg; [|done]. injection Hload as <-.
  pose proof (register_bound _ _ _ _ _ Hreg) as Hbound.
  assert (Hnew : ∀ r, r ∈ all → (Method r, Path r) ≠ (MethodGet, indexPath)).
  { intros q Hq [= Hm Hp]. apply not_true_iff_false in Hin. apply Hin, str_in_spec, Hseen. exists q. by rewrite Hm, Hp. }
  assert (Hother : ∀ m p, (m, p) ≠ (MethodGet, indexPath) → bound t2 m p = bound t1 m p).
  { intros m p Hne. rewrite Hbound. destruct (str_eqb m MethodGet && str_eqb p indexPath) eqn:He; [|done]. apply andb_true_iff in He as [->%str_eqb_spec ->%str_eqb_spec]. done. }
  split; [|split; [split; [done|]|]].
  - intros r Hr. destruct (Hans r Hr) as (hr & Hhr & Hbr). exists hr. split; [done|]. by rewrite Hother by (by apply Hnew).
  - exists h. split; [done|]. rewrite Hbound, !(proj2 (str_eqb_spec _ _) eq_refl). cbn [andb]. f_equal.
    unfold indexHandler. rewrite <- (app_nil_r (commonMiddleware _ _ _)). by rewrite common_layers.
  - intros m p Hmp Hidx. rewrite Hother by (by apply Hidx). by apply Hrest.
Qed.

(** ** What is logged *)

Variable accepted : nat → nat.
Variables fails copyFails : nat → bool.

(** A connection on which nothing is sent. *)
Definition fresh_conn : @conn entry := MkConn None [] [] [] [] false 0.

(** The identifier of a request: its header's if that is valid, or a new
    UUID. *)
Definition requestID (name : gostring) (q : Request) : gostring :=
  let id := Get canonical (q_header q) name in if Valid id then id else UUID_String (newUUID q).

(** The entry tells what was sent, and of the query only what is left by the
    redaction. *)
Definition entry_ok (name : gostring) (redactFn : gostring → gostring) (q : Request) (w : @conn entry) (e : entry) : Prop :=
  e_traceid e = requestID name q ∧ Valid (e_traceid e) = true ∧
  e_code e = default 200 (w_status w) ∧ e_size e = wrapS 64 (Z.of_nat (length (w_body w))) ∧
  e_method e = q_method q ∧ e_path e = q_path q ∧ e_query e = redactFn (q_rawQuery q) ∧
  e_uri e = redactRequestURI (q_requestURI q) redactFn ∧ e_dump e = (if debugEnabled then Some (redactFn (DumpRequest q)) else None).

Definition serve (h : handler) (q : Request) : @conn entry := run accepted fails copyFails (h q) fresh_conn.

Lemma fresh_accounts : accounts 0 NewResponseWriterWrapper fresh_conn.
Proof. by constructor. Qed.

Lemma requestID_spec name q : length (newUUID q) = 16%nat → Forall is_byte (newUUID q) →
  (let id := FromHTTPRequestHeader canonical (Some (q_header q)) name [] in if str_eqb id [] then UUID_String (newUUID q) else id) = requestID name q ∧ Valid (requestID name q) = true.
Proof.
  intros Hl Hb. unfold FromHTTPRequestHeader, requestID. destruct (Valid (Get canonical (q_header q) name)) eqn:Hv; cbn [negb].
  - split; [|done]. unfold str_eqb. case_bool_decide as He; [|done]. by rewrite He in Hv.
  - split; [done|by apply UUID_Valid].
Qed.

(** The request with its identifier in the context. *)
Definition identified (name : gostring) (q : Request) : Request := with_trace (NewContext (q_trace q) (requestID name q)) q.

(** An identifier inherited from the context of the server stays in that of the
    request, next to the one that is logged. *)
Lemma inherited_id_kept name q t : q_trace q = Some t → q_trace (identified name q) = Some t.
Proof. intros Ht. unfold identified, with_trace, NewContext. cbn [q_trace]. rewrite Ht. by destruct (str_eqb _ _). Qed.

(** A request that is served is logged once, last. *)
Lemma inject_logged name redactFn next q : length (newUUID q) = 16%nat → Forall is_byte (newUUID q) →
  let w := serve (RequestInjectHandler name redactFn next) q in
  w_panicked w = true ∨ ∃ logs e, w_logs w = logs ++ [e] ∧ entry_ok name redactFn q w e.
Proof.
  intros Hl Hb. destruct (requestID_spec name q Hl Hb) as [Hid Hvalid]. unfold serve, RequestInjectHandler. cbn zeta in *. rewrite Hid.
  apply (run_wrapped accepted fails copyFails isFlusher isReaderFrom 0 (fun w => ∃ logs e, w_logs w = logs ++ [e] ∧ entry_ok name redactFn q w e)); [exact fresh_accounts|].
  intros b w [Hh Hs Hu Hc Hbody Hz Hp]. right. cbn [run conn_log w_logs]. eexists _, _. split; [done|]. unfold entry_ok. cbn [e_traceid e_code e_size e_method e_path e_query e_uri e_dump w_status w_body].
  split; [done|]. split; [done|]. split; [|split_and!; try done; unfold Size; rewrite Hz; by rewrite Nat.sub_0_r].
  cbn [conn_log w_status]. rewrite Hs. unfold Status. destruct (headerWritten b).
  - specialize (Hc eq_refl). destruct (Z.eqb_spec (status b) 0); [lia|done].
  - by rewrite Hu.
Qed.

(** And the client is sent what the handler sends. *)
Lemma inject_transparent name redactFn next q : length (newUUID q) = 16%nat → Forall is_byte (newUUID q) → isFlusher = true → isReaderFrom = true → plain (next (identified name q)) false →
  let w := serve (RequestInjectHandler name redactFn next) q in let w' := serve next (identified name q) in
  w_status w = w_status w' ∧ w_informational w = w_informational w' ∧ w_body w = w_body w' ∧ w_panicked w = w_panicked w'.
Proof.
  intros Hl Hb Hf Hr Hnt. destruct (requestID_spec name q Hl Hb) as [Hid _]. unfold serve, RequestInjectHandler. cbn zeta in *. rewrite Hid. fold (identified name q).
  match goal with |- context [wrapped _ _ _ _ ?d] => destruct (run_transparent accepted fails copyFails isFlusher isReaderFrom (next (identified name q)) Hf Hr false NewResponseWriterWrapper fresh_conn d Hnt) as [[_ ->]|[b' ->]] end; [done|done|done|].
  done.
Qed.
End Server.


(** A router that refuses to bind twice, every default route, and one that
    creates. *)
Definition table : Type := gostring → gostring → option handler.
Definition table_register (t : table) (m p : gostring) (h : handler) : option table :=
  match t m p with
  | Some _ => None
  | None => Some (fun m' p' => if str_eqb m' m && str_eqb p' p then Some h else t m' p')
  end.
Definition table_bound (t : table) (m p : gostring) : option handler := t m p.

Definition status_only (code : Z) : handler := fun _ => PHeader code PDone.
Definition plain_config : @config table :=
  MkConfig (MkRouter (R := table) (fun _ _ => None) None None None) DefaultHeader 0 0 []
    (MkHandlers (fun _ => Some (status_only 200)) (status_only 200) (status_only 501) (status_only 200) (status_only 200) (status_only 200) (status_only 404) (status_only 405) (status_only 500))
    (fun _ => str "@") [] [] false false false.

Definition items : Route := MkRoute (str "POST") (str "/items") (str "Creates an item.") (Some (fun _ => PHeader 201 (PWrite (str "made") (fun _ _ => PHeader 500 PDone)))) [] false 0.
Definition post : Request := MkRequest (str "POST") (str "/items") (str "token=x") (str "/items?token=x") [] ∅ None 0.

Definition made : result server_error (@config table * @router table) :=
  New id (fun _ => replicate 16 0) false (fun _ => []) true true id (fun h _ => h) (fun h _ _ => h) table_register plain_config (Some [items]) [WithEnableAllDefaultRoutes].

Lemma table_register_bound t m p h t' : table_register t m p h = Some t' → ∀ m' p', table_bound t' m' p' = if str_eqb m' m && str_eqb p' p then Some h else table_bound t m' p'.
Proof. intros Ht m' p'. unfold table_register in Ht. destruct (t m p); [discriminate Ht|]. injection Ht as <-. reflexivity. Qed.

Lemma zero_UUID (q : Request) : length (replicate 16 0) = 16%nat ∧ Forall is_byte (replicate 16 0).
Proof. split; [reflexivity|]. apply Forall_replicate. unfold is_byte. lia. Qed.

(** What was made. *)
Definition made_config : @config table := match made with Ok p => p.1 | Error _ => plain_config end.
Definition made_router : @router table := match made with Ok p => p.2 | Error _ => c_router plain_config end.

Lemma made_ok : made = Ok (made_config, made_router).
Proof.
  unfold made_config, made_router. assert (Hok : match made with Ok _ => true | Error _ => false end = true) by (vm_compute; reflexivity).
  destruct made as [[c rt]|e]; [reflexivity|discriminate Hok].
Qed.

(** The log of a request, and what it says. *)
Definition logged (h : option handler) : list (gostring * Z * Z * gostring) :=
  match h with
  | Some h => (fun e => (e_traceid e, e_code e, e_size e, e_uri e)) <$> w_logs (serve (fun _ => 3%nat) (fun _ => false) (fun _ => false) h post)
  | None => []
  end.

