(* ===== verification/HealthCheck.v ===== *)
(** * [pkg/healthcheck]: probes run together

    handler.go, checks.go, options.go and checkoptions.go. The goroutine of
    [ServeHTTP], those of [runCheck], the channel between them and the context
    are the relation [check_step]; a checker is what it ends with, when it
    does. The response is a function of the results collected. *)

From stdpp Require Import base option list strings gmap relations.
From S2P Require Import Prelude.

(** ** Results *)

Section HealthCheck.
Context {E : Type}.
Context (text : E → string).

Definition StatusOK : string := "OK".

Inductive check_error : Type := ErrCheckTimeout | ErrCheckPanic | ErrNoChecker | ErrChecker (e : E).

(** [err.Error()]. *)
Definition check_text (err : check_error) : string :=
  match err with
  | ErrCheckTimeout => "healthcheck timed out"
  | ErrCheckPanic => "healthcheck panicked"
  | ErrNoChecker => "healthcheck has no checker"
  | ErrChecker e => text e
  end.

(** [Checker] is [Checker != nil]. *)
Record HealthCheck : Type := MkHealthCheck { ID : string; Checker : bool }.

Definition New_HealthCheck (id : string) (checker : bool) : HealthCheck := MkHealthCheck id checker.

Record checkResult : Type := CheckResult { cr_id : string; cr_err : option check_error }.

(** An [indexedResult]. *)
Definition indexedResult : Type := nat * option check_error.

(** [results[res.index].err = res.err], where the index is in range. *)
Definition record_result (res : indexedResult) (results : list checkResult) : list checkResult :=
  match results !! res.1 with
  | Some r => <[res.1 := CheckResult (cr_id r) res.2]> results
  | None => results
  end.

Definition seeded (checks : list HealthCheck) : list checkResult := (fun c => CheckResult (ID c) (Some ErrCheckTimeout)) <$> checks.

(** ** Goroutines *)

(** How a checker ends. *)
Inductive probe : Type := ProbePanics | ProbeReturns (err : option E).

(** What [runCheck] reports of it. *)
Definition reported (p : probe) : option check_error :=
  match p with
  | ProbePanics => Some ErrCheckPanic
  | ProbeReturns err => ErrChecker <$> err
  end.

Inductive prober : Type :=
| PRunning
| PReporting (r : option check_error)
| PSent (r : option check_error).

(** [runChecks]: launching, collecting with a number to go, draining, gone. *)
Inductive collector : Type := CLaunch | CCollect (remaining : nat) | CDrain | CReturned.

Record health : Type := Health {
  h_ended : bool;                (** the context has ended *)
  h_probers : list prober;       (** the goroutines launched *)
  h_ch : list indexedResult;     (** the buffer of [resCh] *)
  h_results : list checkResult;
  h_main : collector;
  h_panics : list string         (** the checks logged as panicked *)
}.

Definition to_main (m : collector) (w : health) : health := Health (h_ended w) (h_probers w) (h_ch w) (h_results w) m (h_panics w).
Definition to_prober (i : nat) (p : prober) (w : health) : health :=
  Health (h_ended w) (<[i := p]> (h_probers w)) (h_ch w) (h_results w) (h_main w) (h_panics w).
Definition launch (w : health) : health := Health (h_ended w) (h_probers w ++ [PRunning]) (h_ch w) (h_results w) (h_main w) (h_panics w).
Definition send (res : indexedResult) (w : health) : health := Health (h_ended w) (h_probers w) (h_ch w ++ [res]) (h_results w) (h_main w) (h_panics w).
Definition collect (res : indexedResult) (ch : list indexedResult) (w : health) : health :=
  Health (h_ended w) (h_probers w) ch (record_result res (h_results w)) (h_main w) (h_panics w).
Definition context_ends (w : health) : health := Health true (h_probers w) (h_ch w) (h_results w) (h_main w) (h_panics w).
Definition log_panic (id : string) (p : probe) (w : health) : health :=
  Health (h_ended w) (h_probers w) (h_ch w) (h_results w) (h_main w) (match p with ProbePanics => h_panics w ++ [id] | _ => h_panics w end).

(** What is left to the context and the checkers, and the work under way. *)
Inductive health_origin : Type := FromOutside | OwnWork.

Section Steps.
Context (checks : list HealthCheck).

Definition health_initial : health := Health false [] [] (seeded checks) CLaunch [].

Inductive check_step : health_origin → health → health → Prop :=
| cs_context w : check_step FromOutside w (context_ends w)
| cs_checker w i c p : h_probers w !! i = Some PRunning → checks !! i = Some c → Checker c = true →
    check_step FromOutside w (log_panic (ID c) p (to_prober i (PReporting (reported p)) w))
| cs_no_checker w i c : h_probers w !! i = Some PRunning → checks !! i = Some c → Checker c = false →
    check_step OwnWork w (to_prober i (PReporting (Some ErrNoChecker)) w)
| cs_send w i r : h_probers w !! i = Some (PReporting r) → length (h_ch w) < length checks →
    check_step OwnWork w (send (i, r) (to_prober i (PSent r) w))
| cs_launch w : h_main w = CLaunch → length (h_probers w) < length checks → check_step OwnWork w (launch w)
| cs_launched w : h_main w = CLaunch → length (h_probers w) = length checks → check_step OwnWork w (to_main (CCollect (length checks)) w)
| cs_receive w n res ch : h_main w = CCollect (S n) → h_ch w = res :: ch → check_step OwnWork w (to_main (CCollect n) (collect res ch w))
| cs_done w n : h_main w = CCollect (S n) → h_ended w = true → check_step OwnWork w (to_main CDrain w)
| cs_collected w : h_main w = CCollect 0 → check_step OwnWork w (to_main CReturned w)
| cs_drain w res ch : h_main w = CDrain → h_ch w = res :: ch → check_step OwnWork w (collect res ch w)
| cs_drained w : h_main w = CDrain → h_ch w = [] → check_step OwnWork w (to_main CReturned w).

Definition check_steps (w w' : health) : Prop := ∃ o, check_step o w w'.
Definition health_reachable (w : health) : Prop := rtc check_steps health_initial w.
Definition health_works (w w' : health) : Prop := check_step OwnWork w w'.
End Steps.

(** ** The response *)

Fixpoint respond_loop (results : list checkResult) (status : Z) (data : gmap string string) : Z * gmap string string :=
  match results with
  | [] => (status, data)
  | res :: results =>
      match cr_err res with
      | Some err => respond_loop results 503 (<[cr_id res := check_text err]> data)
      | None => respond_loop results status (match data !! cr_id res with Some _ => data | None => <[cr_id res := StatusOK]> data end)
      end
  end.

(** What [ServeHTTP] writes of the results. *)
Definition respond (results : list checkResult) : Z * gmap string string := respond_loop results 200 ∅.

(** ** The invariant *)

Definition unsent (ps : list prober) : nat := sum_list_with (fun p => match p with PSent _ => 0 | _ => 1 end) ps.

(** What the results hold for a check. *)
Definition slot (w : health) (i : nat) : option check_error :=
  match h_probers w !! i with
  | Some (PSent r) => if decide (i ∈ (h_ch w).*1) then Some ErrCheckTimeout else r
  | _ => Some ErrCheckTimeout
  end.

(** What a check may report. *)
Definition may_report (c : HealthCheck) (r : option check_error) : Prop :=
  if Checker c then ∃ p, r = reported p else r = Some ErrNoChecker.

Record health_inv (checks : list HealthCheck) (w : health) : Prop := HealthInv {
  hi_results : h_results w = imap (fun i c => CheckResult (ID c) (slot w i)) checks;
  hi_launched : length (h_probers w) <= length checks ∧ (h_main w ≠ CLaunch → length (h_probers w) = length checks);
  hi_source : ∀ i c r, checks !! i = Some c → h_probers w !! i = Some (PReporting r) ∨ h_probers w !! i = Some (PSent r) → may_report c r;
  hi_nodup : NoDup (h_ch w).*1;
  hi_ch : ∀ i r, (i, r) ∈ h_ch w → h_probers w !! i = Some (PSent r);
  hi_count : length (h_ch w) + unsent (h_probers w) <= length (h_probers w);
  hi_main : match h_main w with
            | CCollect n => n = length (h_ch w) + unsent (h_probers w)
            | CDrain => h_ended w = true
            | CReturned => h_ended w = true ∨ (h_ch w = [] ∧ unsent (h_probers w) = 0)
            | CLaunch => length (h_ch w) + unsent (h_probers w) = length (h_probers w)
            end
}.

Lemma record_result_imap (f : nat → option check_error) (checks : list HealthCheck) i r :
  record_result (i, r) (imap (fun j c => CheckResult (ID c) (f j)) checks) = imap (fun j c => CheckResult (ID c) (if decide (j = i) then r else f j)) checks.
Proof.
  unfold record_result. cbn [fst snd]. rewrite list_lookup_imap. apply list_eq. intros j. rewrite list_lookup_imap.
  destruct (checks !! i) as [c|] eqn:Hi; simpl.
  - destruct (decide (j = i)) as [->|Hj].
    + rewrite list_lookup_insert_eq; [by rewrite Hi|]. rewrite length_imap. by eapply lookup_lt_Some.
    + by rewrite list_lookup_insert_ne, list_lookup_imap by done.
  - rewrite list_lookup_imap. destruct (checks !! j) eqn:Hj; [|done]. simpl. rewrite decide_False by congruence. done.
Qed.

Lemma unsent_insert ps i p q : ps !! i = Some p → unsent (<[i:=q]> ps) + match p with PSent _ => 0 | _ => 1 end = unsent ps + match q with PSent _ => 0 | _ => 1 end.
Proof. apply (sum_list_insert (fun p => match p with PSent _ => 0 | _ => 1 end)). Qed.

Lemma unsent_none ps i p : unsent ps = 0 → ps !! i = Some p → ∃ r, p = PSent r.
Proof.
  unfold unsent. revert i. induction ps as [|q ps IH]; intros [|i] H0 Hi; [done..| |]; cbn in *.
  - injection Hi as ->. destruct p; [done..|by eexists].
  - apply (IH i); [lia|done].
Qed.

Lemma health_inv_initial checks : health_inv checks (health_initial checks).
Proof.
  split; cbn; [|split; [lia|done]|intros i c r _ [H|H]; done|constructor|intros i r H; by apply elem_of_nil in H|lia|done].
  unfold seeded. apply list_eq. intros i. rewrite list_lookup_imap, list_lookup_fmap. by destruct (checks !! i).
Qed.

(** A prober's own step before it sends. *)
Lemma inv_prober checks w i p q : health_inv checks w → h_probers w !! i = Some p → (∀ r, p ≠ PSent r) → (∀ r, q ≠ PSent r) →
  (∀ c r, checks !! i = Some c → q = PReporting r → may_report c r) → health_inv checks (to_prober i q w).
Proof.
  intros [Hr [Hl Hl'] Hs Hn Hc Ho Hm] Hi Hp Hq Hrep. pose proof (unsent_insert _ i p q Hi) as Hu.
  assert (Huu : unsent (<[i:=q]> (h_probers w)) = unsent (h_probers w)) by (destruct p as [| |r], q as [| |r']; try lia; exfalso; naive_solver).
  assert (Hsl : ∀ j, slot (to_prober i q w) j = slot w j).
  { intros j. unfold slot. cbn [to_prober h_probers h_ch]. destruct (decide (i = j)) as [<-|Hj]; [|by rewrite list_lookup_insert_ne].
    rewrite list_lookup_insert_eq by (by eapply lookup_lt_Some). rewrite Hi. destruct p as [| |r], q as [| |r']; naive_solver. }
  split; cbn [to_prober h_results h_probers h_ch h_main h_ended]; rewrite ?length_insert, ?Huu; try done.
  - rewrite Hr. apply imap_ext. intros j c _. by rewrite Hsl.
  - intros j c r Hj. destruct (decide (i = j)) as [<-|Hne]; [|rewrite list_lookup_insert_ne by done; by apply Hs].
    rewrite list_lookup_insert_eq by (by eapply lookup_lt_Some). intros [[= ->]|[= ->]]; [by apply (Hrep c r)|by destruct (Hq r)].
  - intros j r Hj. pose proof (Hc j r Hj) as Hj'. rewrite list_lookup_insert_ne; [done|]. intros ->. rewrite Hi in Hj'. injection Hj' as ->. by apply (Hp r).
Qed.

Lemma inv_send checks w i r : health_inv checks w → h_probers w !! i = Some (PReporting r) → health_inv checks (send (i, r) (to_prober i (PSent r) w)).
Proof.
  intros [Hr [Hl Hl'] Hs Hn Hc Ho Hm] Hi. pose proof (unsent_insert _ i _ (PSent r) Hi) as Hu. cbn in Hu.
  assert (Hni : i ∉ (h_ch w).*1) by (intros ((j & r') & -> & Hin)%list_elem_of_fmap; apply Hc in Hin; cbn in Hi; congruence).
  pose proof (lookup_lt_Some _ _ _ Hi) as Hlt.
  split; cbn [send to_prober h_results h_probers h_ch h_main h_ended]; rewrite ?length_insert, ?length_app; cbn [length]; try done.
  - rewrite Hr. apply imap_ext. intros j c _. unfold slot. cbn [send to_prober h_probers h_ch]. rewrite fmap_app. destruct (decide (i = j)) as [<-|Hj].
    + rewrite list_lookup_insert_eq, Hi by done. rewrite decide_True; [done|set_solver].
    + rewrite list_lookup_insert_ne by done. destruct (h_probers w !! j) as [[| |r']|]; [done..| |done]. erewrite decide_ext; [reflexivity|]. set_solver.
  - intros j c r' Hj Hor. apply (Hs j c r' Hj). destruct (decide (i = j)) as [<-|Hne]; [|by rewrite list_lookup_insert_ne in Hor by done].
    rewrite list_lookup_insert_eq in Hor by done. left. destruct Hor as [[=]|[= <-]]. done.
  - rewrite fmap_app. apply NoDup_app. split_and!; [done| |apply NoDup_singleton]. intros j Hj Hj'. set_solver.
  - intros j r' [Hj|[= -> ->]%list_elem_of_singleton]%elem_of_app; [|by apply list_lookup_insert_eq].
    rewrite list_lookup_insert_ne; [by apply Hc|]. intros <-. apply Hni, list_elem_of_fmap. by exists (i, r').
  - lia.
  - destruct (h_main w); [lia|lia|done|]. destruct Hm as [?|[_ ?]]; [by left|lia].
Qed.

(** Taking a result from the channel. *)
Lemma inv_collect checks w res ch m : health_inv checks w → h_ch w = res :: ch → h_main w ≠ CLaunch →
  (match m with CCollect n => n = length ch + unsent (h_probers w) | CDrain => h_ended w = true | _ => False end) →
  health_inv checks (to_main m (collect res ch w)).
Proof.
  destruct res as [i r]. intros [Hr [Hl Hl'] Hs Hn Hc Ho Hm] Hch Hml Hm'. rewrite Hch in *. apply NoDup_cons in Hn as [Hni Hn].
  assert (Hi : h_probers w !! i = Some (PSent r)) by (apply Hc; left).
  split; cbn [to_main collect h_results h_probers h_ch h_main h_ended]; try done; [| |intros j r' Hj; apply Hc; by right|cbn in Ho; lia|destruct m; naive_solver].
  - rewrite Hr, record_result_imap. apply imap_ext. intros j c _. unfold slot. cbn [to_main collect h_probers h_ch]. rewrite Hch. f_equal.
    destruct (decide (j = i)) as [->|Hj]; [by rewrite Hi, decide_False|]. destruct (h_probers w !! j) as [[| |r']|]; [done..| |done].
    erewrite decide_ext; [reflexivity|]. set_solver.
  - split; [done|]. intros _. by apply Hl'.
Qed.

Lemma inv_to_main checks w m : health_inv checks w → (m ≠ CLaunch → length (h_probers w) = length checks) →
  (match m with
   | CCollect n => n = length (h_ch w) + unsent (h_probers w) | CDrain => h_ended w = true
   | CReturned => h_ended w = true ∨ (h_ch w = [] ∧ unsent (h_probers w) = 0) | CLaunch => False end) → health_inv checks (to_main m w).
Proof. intros [Hr [Hl Hl'] Hs Hn Hc Ho Hm] Hm1 Hm2. split; try done. by destruct m. Qed.

Lemma health_inv_step checks o w w' : health_inv checks w → check_step checks o w w' → health_inv checks w'.
Proof.
  intros Hw Hs. destruct Hs as [w|w i c p Hi Hc Hk|w i c Hi Hc Hk|w i r Hi Hlt|w Hm Hlt|w Hm Hl|w n res ch Hm Hch|w n Hm He|w Hm|w res ch Hm Hch|w Hm Hch].
  - destruct Hw as [Hr Hl Hs Hn Hc Ho Hm]. split; try done. cbn. destruct (h_main w); [done..|by left].
  - assert (Hw' : health_inv checks (to_prober i (PReporting (reported p)) w)); [|destruct Hw' as [Hr Hl Hs Hn Hc' Ho Hm], p; by split].
    eapply inv_prober; [done|exact Hi|done..|]. intros c' r Hc' [= <-]. assert (c' = c) as -> by congruence. unfold may_report. rewrite Hk. by exists p.
  - eapply inv_prober; [done|exact Hi|done..|]. intros c' r Hc' [= <-]. assert (c' = c) as -> by congruence. unfold may_report. by rewrite Hk.
  - by apply inv_send.
  - destruct Hw as [Hr [Hl _] Hs Hn Hc Ho Hm']. assert (Hnew : ∀ i, (h_probers w ++ [PRunning]) !! i = h_probers w !! i ∨ h_probers w !! i = None ∧ (h_probers w ++ [PRunning]) !! i ≠ None).
    { intros i. destruct (decide (i < length (h_probers w))) as [H|H]; [left; by rewrite lookup_app_l|]. destruct (decide (i = length (h_probers w))) as [->|H'].
      - right. split; [apply lookup_ge_None; lia|]. by rewrite list_lookup_middle.
      - left. rewrite !(proj2 (lookup_ge_None _ _)); [done|lia|]. rewrite length_app. cbn. lia. }
    assert (Hlast : ∀ i p, (h_probers w ++ [PRunning]) !! i = Some p → h_probers w !! i = None → p = PRunning).
    { intros i p Hi H0. apply lookup_snoc_Some in Hi as [[H H1]|[_ H]]; [congruence|done]. }
    split; cbn [launch h_results h_probers h_ch h_main h_ended]; try done.
    + rewrite Hr. apply imap_ext. intros i c _. unfold slot. cbn [launch h_probers h_ch]. destruct (Hnew i) as [->|[H0 H1]]; [done|]. rewrite H0.
      destruct ((_ ++ _) !! i) as [p|] eqn:Hp; [|done]. by rewrite (Hlast i p Hp H0).
    + rewrite length_app. cbn. split; [lia|done].
    + intros i c r Hi Hor. apply (Hs i c r Hi). destruct (Hnew i) as [<-|[H0 H1]]; [done|]. destruct Hor as [Hor|Hor]; by apply Hlast in Hor.
    + intros i r Hin. apply Hc in Hin. destruct (Hnew i) as [->|[H0 _]]; congruence.
    + unfold unsent in *. rewrite sum_list_with_app, length_app. cbn. lia.
    + unfold unsent in *. rewrite Hm in *. rewrite sum_list_with_app, length_app. cbn. lia.
  - apply inv_to_main; [done|done|]. destruct Hw as [_ _ _ _ _ _ Hw]. rewrite Hm in Hw. lia.
  - pose proof (hi_main _ _ Hw) as H0. rewrite Hm, Hch in H0. cbn in H0. apply inv_collect; [done|done|congruence|lia].
  - pose proof (hi_launched _ _ Hw) as [_ H0]. apply inv_to_main; [done| |done]. intros _. apply H0. congruence.
  - pose proof (hi_launched _ _ Hw) as [_ H0]. pose proof (hi_main _ _ Hw) as H1. rewrite Hm in H1.
    apply inv_to_main; [done|intros _; apply H0; congruence|]. right. split; [apply nil_length_inv; lia|lia].
  - pose proof (hi_main _ _ Hw) as H0. rewrite Hm in H0. assert (Hw' : health_inv checks (to_main CDrain (collect res ch w))) by (eapply inv_collect; [done|done|congruence|done]).
    unfold to_main, collect in *. cbn in *. by rewrite Hm.
  - pose proof (hi_launched _ _ Hw) as [_ H0]. pose proof (hi_main _ _ Hw) as H1. rewrite Hm in H1.
    apply inv_to_main; [done|intros _; apply H0; congruence|by left].
Qed.

Lemma health_inv_reachable checks w : health_reachable checks w → health_inv checks w.
Proof.
  unfold health_reachable. intros Hr. pose proof (health_inv_initial checks) as Hw. revert Hw Hr. generalize (health_initial checks).
  intros w0 Hw0 Hr. induction Hr as [w|w1 w2 w3 [o Hs] _ IH]; [done|]. apply IH. by eapply health_inv_step.
Qed.

Lemma health_inv_works checks w w' : health_inv checks w → rtc (health_works checks) w w' → health_inv checks w'.
Proof. intros Hw Hs. induction Hs as [|w1 w2 w3 H1 _ IH]; [done|]. apply IH. by eapply health_inv_step. Qed.

(** ** Collection *)

(** The results of a collection that is over do not change. *)
Lemma returned_for_ever checks w w' : h_main w = CReturned → rtc (check_steps checks) w w' → h_main w' = CReturned ∧ h_results w' = h_results w.
Proof.
  intros Hm Hs. induction Hs as [w|w1 w2 w3 [o H1] _ IH]; [done|].
  assert (h_main w2 = CReturned ∧ h_results w2 = h_results w1) as [H2 <-] by (destruct H1; try congruence; done). by apply IH.
Qed.

(** What is left to do without the context and the checkers. *)
Definition prober_work (p : prober) : nat := match p with PRunning => 4 | PReporting _ => 3 | PSent _ => 0 end.
Definition collector_work (m : collector) : nat := match m with CLaunch => 3 | CCollect _ => 2 | CDrain => 1 | CReturned => 0 end.
Definition health_work (checks : list HealthCheck) (w : health) : nat :=
  5 * (length checks - length (h_probers w)) + sum_list_with prober_work (h_probers w) + length (h_ch w) + collector_work (h_main w).

Lemma health_work_decreases checks w w' : health_works checks w w' → health_work checks w' < health_work checks w.
Proof.
  intros Hs. unfold health_works in Hs. remember OwnWork as o eqn:Ho. unfold health_work. destruct Hs; try done;
    cbn [h_probers h_ch h_main to_prober send launch to_main collect]; rewrite ?length_insert, ?length_app, ?sum_list_with_app;
    try match goal with H : h_probers ?w !! ?i = Some ?p |- context [<[?i := ?q]> (h_probers ?w)] => pose proof (sum_list_insert prober_work _ i p q H) end;
    repeat match goal with H : h_main _ = _ |- _ => rewrite H | H : h_ch _ = _ |- _ => rewrite H end; cbn [prober_work collector_work length sum_list_with] in *; lia.
Qed.

(** A checker is running that has not been told to stop. *)
Definition held_up (checks : list HealthCheck) (w : health) : Prop :=
  h_ended w = false ∧ ∃ i c, checks !! i = Some c ∧ Checker c = true ∧ h_probers w !! i = Some PRunning.

(** A goroutine that reports can always send. *)
Lemma send_never_blocks checks w i r : health_inv checks w → h_probers w !! i = Some (PReporting r) → length (h_ch w) < length checks.
Proof.
  intros Hw Hi. pose proof (hi_count _ _ Hw) as Hc. pose proof (hi_launched _ _ Hw) as [Hl _].
  assert (H0 : unsent (h_probers w) ≠ 0); [|lia]. intros H0. destruct (unsent_none _ _ _ H0 Hi) as [r' Hr]. done.
Qed.

Lemma health_works_on checks w : health_inv checks w → (h_main w = CReturned ∨ held_up checks w) ∨ ∃ w', health_works checks w w'.
Proof.
  intros Hw. pose proof (hi_main _ _ Hw) as Hm0. destruct (h_main w) as [|n| |] eqn:Hm.
  - right. pose proof (hi_launched _ _ Hw) as [Hl _]. destruct (decide (length (h_probers w) = length checks)).
    + eexists. by apply cs_launched. + eexists. apply cs_launch; [done|lia].
  - destruct n as [|n]; [right; eexists; by apply cs_collected|]. destruct (h_ended w) eqn:He; [right; eexists; by eapply cs_done|].
    destruct (h_ch w) as [|res ch] eqn:Hch; [|right; eexists; by eapply cs_receive]. cbn in Hm0.
    assert (∃ i p, h_probers w !! i = Some p ∧ ∀ r, p ≠ PSent r) as (i & p & Hi & Hp).
    { revert Hm0. unfold unsent. generalize (h_probers w). clear. induction l as [|p l IH]; [done|]. cbn. intros Hn.
      destruct p as [|r|r]; [by exists 0, PRunning|by exists 0, (PReporting r)|]. destruct (IH Hn) as (i & p & Hi & Hp). by exists (S i), p. }
    destruct p as [|r|r]; [| |by destruct (Hp r)].
    + pose proof (hi_launched _ _ Hw) as [Hl _]. destruct (lookup_lt_is_Some_2 checks i) as [c Hc]; [apply lookup_lt_Some in Hi; lia|].
      destruct (Checker c) eqn:Hk; [left; right; split; [done|by exists i, c]|]. right. eexists. by eapply cs_no_checker.
    + right. eexists. eapply cs_send; [done|by eapply send_never_blocks].
  - right. destruct (h_ch w) as [|res ch] eqn:Hch; eexists; [by apply cs_drained|by eapply cs_drain].
  - by left; left.
Qed.

(** ** Aggregation *)

(** What is said of an identifier: the last failure recorded under it. *)
Fixpoint last_failure (id : string) (results : list checkResult) : option check_error :=
  match results with
  | [] => None
  | r :: results => match last_failure id results with Some e => Some e | None => if decide (cr_id r = id) then cr_err r else None end
  end.

Definition verdict (id : string) (results : list checkResult) : option string :=
  if decide (id ∈ cr_id <$> results) then Some (match last_failure id results with Some e => check_text e | None => StatusOK end) else None.

Lemma respond_loop_spec results status data : let '(status', data') := respond_loop results status data in
  status' = (if decide (Forall (fun r => cr_err r = None) results) then status else 503%Z) ∧
  ∀ id, data' !! id = match last_failure id results with
                      | Some e => Some (check_text e)
                      | None => match data !! id with Some s => Some s | None => if decide (id ∈ cr_id <$> results) then Some StatusOK else None end
                      end.
Proof.
  revert status data. induction results as [|r results IH]; intros status data; cbn [respond_loop last_failure fmap list_fmap].
  { rewrite decide_True by constructor. split; [done|]. intros id. destruct (data !! id); [done|]. rewrite decide_False; [done|set_solver]. }
  destruct (cr_err r) as [e|] eqn:He.
  - specialize (IH 503%Z (<[cr_id r := check_text e]> data)). destruct (respond_loop _ _ _) as [status' data']. destruct IH as [-> Hd]. split.
    + rewrite (decide_False (P := Forall _ (r :: _))); [by case_decide|]. intros Hf. apply Forall_cons in Hf as [Hf _]. congruence.
    + intros id. rewrite Hd. destruct (last_failure id results); [done|]. destruct (decide (cr_id r = id)) as [<-|Hne]; [by rewrite lookup_insert_eq|].
      rewrite lookup_insert_ne by done. destruct (data !! id); [done|]. erewrite decide_ext; [reflexivity|]. set_solver.
  - set (data1 := match data !! cr_id r with Some _ => data | None => <[cr_id r := StatusOK]> data end). specialize (IH status data1).
    destruct (respond_loop _ _ _) as [status' data']. destruct IH as [-> Hd]. split; [erewrite decide_ext; [reflexivity|]; rewrite Forall_cons; tauto|].
    intros id. rewrite Hd. destruct (last_failure id results); [done|]. destruct (decide (cr_id r = id)) as [<-|Hne].
    + unfold data1. destruct (data !! cr_id r) eqn:Hr; [by rewrite Hr|]. rewrite lookup_insert_eq. rewrite decide_True; [done|set_solver].
    + assert (data1 !! id = data !! id) as -> by (unfold data1; destruct (data !! cr_id r); [done|by rewrite lookup_insert_ne]).
      destruct (data !! id); [done|]. erewrite decide_ext; [reflexivity|]. set_solver.
Qed.

Lemma respond_spec results : let '(status, data) := respond results in
  status = (if decide (Forall (fun r => cr_err r = None) results) then 200 else 503)%Z ∧ ∀ id, data !! id = verdict id results.
Proof.
  pose proof (respond_loop_spec results 200 ∅) as H. unfold respond. destruct (respond_loop _ _ _) as [status data]. destruct H as [Hs Hd].
  split; [done|]. intros id. rewrite Hd, lookup_empty. unfold verdict. destruct (last_failure id results) as [e|] eqn:He; [|done].
  rewrite decide_True; [done|]. clear -He. induction results as [|r results IH]; [done|]. cbn in *. apply elem_of_cons.
  destruct (last_failure id results); [right; by apply IH|]. destruct (decide (cr_id r = id)); [by left|done].
Qed.

(** What a collection has just returned. *)
Lemma collected checks w w' : health_inv checks w → check_steps checks w w' → h_main w ≠ CReturned → h_main w' = CReturned →
  cr_id <$> h_results w' = ID <$> checks ∧
  (∀ i c, checks !! i = Some c → ∃ r, h_results w' !! i = Some (CheckResult (ID c) r) ∧
     ((h_probers w' !! i = Some (PSent r) ∧ may_report c r) ∨
      (r = Some ErrCheckTimeout ∧ h_ended w' = true ∧ ∀ r', h_probers w' !! i ≠ Some (PSent r')))) ∧
  let '(status, data) := respond (h_results w') in
  ((status = 200%Z ∧ ∀ i, i < length checks → h_probers w' !! i = Some (PSent None)) ∨
   (status = 503%Z ∧ ∃ i, i < length checks ∧ h_probers w' !! i ≠ Some (PSent None))) ∧
  ∀ id, data !! id = verdict id (h_results w').
Proof.
  intros Hw [o Hs] Hn Hm. pose proof (health_inv_step _ _ _ _ Hw Hs) as Hw'. 
  assert (Hch : h_ch w' = []).
  { destruct Hs as [| | | | | | | |w Hm0| |w Hm0 Hch]; try (cbn in Hm; congruence); [|done].
    pose proof (hi_main _ _ Hw) as H0. rewrite Hm0 in H0. apply nil_length_inv. cbn. lia. }
  assert (Hres : ∀ i c, checks !! i = Some c → h_results w' !! i = Some (CheckResult (ID c) (slot w' i))).
  { intros i c Hc. by rewrite (hi_results _ _ Hw'), list_lookup_imap, Hc. }
  assert (Hslot : ∀ i c, checks !! i = Some c → (∃ r, slot w' i = r ∧ h_probers w' !! i = Some (PSent r) ∧ may_report c r) ∨
    slot w' i = Some ErrCheckTimeout ∧ h_ended w' = true ∧ ∀ r, h_probers w' !! i ≠ Some (PSent r)).
  { intros i c Hc. unfold slot. pose proof (hi_main _ _ Hw') as H0. rewrite Hm in H0. destruct (h_probers w' !! i) as [p|] eqn:Hp.
    - destruct p as [|r|r]; [right|right|left].
      1,2: split; [done|]; split; [|done]; destruct H0 as [?|[_ H0]]; [done|]; destruct (unsent_none _ _ _ H0 Hp) as [? [=]].
      exists r. rewrite Hch, decide_False by set_solver. split; [done|]. split; [done|]. apply (hi_source _ _ Hw' i); [done|by right].
    - pose proof (hi_launched _ _ Hw') as [_ Hl]. apply lookup_ge_None in Hp. apply lookup_lt_Some in Hc. rewrite Hl in Hp by congruence. lia. }
  split; [|split].
  - rewrite (hi_results _ _ Hw'). apply list_eq. intros i. rewrite !list_lookup_fmap, list_lookup_imap. by destruct (checks !! i).
  - intros i c Hc. exists (slot w' i). split; [by apply Hres|]. destruct (Hslot i c Hc) as [(r & -> & H)|H]; [by left|by right].
  - pose proof (respond_spec (h_results w')) as Hresp. destruct (respond _) as [status data]. destruct Hresp as [-> Hd]. split; [|done]. case_decide as Hf.
    + left. split; [done|]. intros i Hi. destruct (lookup_lt_is_Some_2 checks i Hi) as [c Hc]. pose proof (Forall_lookup_1 _ _ _ _ Hf (Hres i c Hc)) as H0. cbn in H0.
      destruct (Hslot i c Hc) as [(r & Hr & Hp & _)|(H & _)]; [|congruence]. by rewrite Hp, <-Hr, H0.
    + right. split; [done|]. apply not_Forall_Exists, Exists_exists in Hf as (x & Hin & Hx); [|apply _]. apply list_elem_of_lookup in Hin as [i Hi].
      assert (Hc : ∃ c, checks !! i = Some c) by (apply lookup_lt_is_Some_2; apply lookup_lt_Some in Hi; by rewrite (hi_results _ _ Hw'), length_imap in Hi).
      destruct Hc as [c Hc]. exists i. split; [by eapply lookup_lt_Some|]. rewrite (Hres i c Hc) in Hi. injection Hi as <-. intros Hp. apply Hx. cbn.
      destruct (Hslot i c Hc) as [(r & -> & Hp' & _)|(_ & _ & H)]; [congruence|by destruct (H None)].
Qed.

(** C31. However the checkers, the goroutines and the end of the context
    interleave, no result is sent to a full channel or recorded out of range,
    and the work under way is bounded and goes on until the results are
    returned, unless a checker is running and nobody has ended the context.
    What is returned, and does not change afterwards, holds one result for each
    check, in the order of registration: what the check reported if it had
    done so by then, [ErrCheckTimeout] otherwise, and only once the context has
    ended. The response has the status 200 when every check reported success
    and 503 otherwise, and says of each identifier, and of no other, OK unless
    a check registered under it failed. *)
Theorem probes_answered checks w : health_reachable checks w →
  (∀ i r, (i, r) ∈ h_ch w → i < length (h_results w)) ∧
  (∀ i r, h_probers w !! i = Some (PReporting r) → length (h_ch w) < length checks) ∧
  (∀ n w', nsteps (health_works checks) n w w' → n <= health_work checks w) ∧
  (∃ w', rtc (health_works checks) w w' ∧ (h_main w' = CReturned ∨ held_up checks w')) ∧
  ∀ w', check_steps checks w w' → h_main w ≠ CReturned → h_main w' = CReturned →
    (∀ w'', rtc (check_steps checks) w' w'' → h_main w'' = CReturned ∧ h_results w'' = h_results w') ∧
    cr_id <$> h_results w' = ID <$> checks ∧
    (∀ i c, checks !! i = Some c → ∃ r, h_results w' !! i = Some (CheckResult (ID c) r) ∧
       ((h_probers w' !! i = Some (PSent r) ∧ may_report c r) ∨
        (r = Some ErrCheckTimeout ∧ h_ended w' = true ∧ ∀ r', h_probers w' !! i ≠ Some (PSent r')))) ∧
    let '(status, data) := respond (h_results w') in
    ((status = 200%Z ∧ ∀ i, i < length checks → h_probers w' !! i = Some (PSent None)) ∨
     (status = 503%Z ∧ ∃ i, i < length checks ∧ h_probers w' !! i ≠ Some (PSent None))) ∧
    ∀ id, data !! id = verdict id (h_results w').
Proof.
  intros Hr. pose proof (health_inv_reachable _ _ Hr) as Hw. split_and!.
  - intros i r Hin. rewrite (hi_results _ _ Hw), length_imap. pose proof (hi_launched _ _ Hw) as [Hl _]. apply (hi_ch _ _ Hw), lookup_lt_Some in Hin. lia.
  - intros i r. by apply send_never_blocks.
  - intros n w' Hs. pose proof (work_bounded (health_works checks) (health_work checks) (health_work_decreases checks) n w w' Hs). lia.
  - apply (work_until (health_works checks) (health_work checks) (health_work_decreases checks) (health_inv checks)); [by apply health_works_on| |done].
    intros x y Hx Hs. by eapply health_inv_step.
  - intros w' Hs Hn Hm. split; [intros w'' Hs'; by apply (returned_for_ever checks w' w'')|]. by apply (collected checks w).
Qed.

End HealthCheck.

(** A check that succeeds, and one that is running when the context ends. *)
Definition two_checks : list HealthCheck := [New_HealthCheck "db" true; New_HealthCheck "cache" true].

Lemma two_checks_run : ∃ w w' : health (E := string), health_reachable two_checks w ∧ check_steps two_checks w w' ∧ h_main w = CDrain ∧ h_main w' = CReturned ∧
  h_results w' = [CheckResult "db" None; CheckResult "cache" (Some ErrCheckTimeout)].
Proof.
  eexists _, _. split.
  - eapply rtc_l; [exists OwnWork; apply cs_launch; [done|cbn; lia]|]. eapply rtc_l; [exists OwnWork; apply cs_launch; [done|cbn; lia]|].
    eapply rtc_l; [exists OwnWork; by apply cs_launched|]. eapply rtc_l; [exists FromOutside; by eapply (cs_checker _ _ 0 _ (ProbeReturns None))|].
    eapply rtc_l; [exists OwnWork; apply (cs_send _ _ 0 None); [done|cbn; lia]|]. eapply rtc_l; [exists FromOutside; apply cs_context|].
    eapply rtc_l; [exists OwnWork; by eapply cs_done|]. eapply rtc_l; [exists OwnWork; by eapply cs_drain|]. apply rtc_refl.
  - split; [exists OwnWork; by apply cs_drained|done].
Qed.

Lemma probes_answered_witness : ∃ w w' : health (E := string), health_reachable two_checks w ∧ check_steps two_checks w w' ∧ h_main w' = CReturned ∧
  (respond id (h_results w')).1 = 503%Z ∧ (respond id (h_results w')).2 !! "db"%string = Some "OK"%string ∧
  (∀ w'', rtc (check_steps two_checks) w' w'' → h_main w'' = CReturned ∧ h_results w'' = h_results w').
Proof.
  destruct two_checks_run as (w & w' & Hr & Hs & Hm & Hm' & Hres). exists w, w'.
  destruct (probes_answered id two_checks w Hr) as (_ & _ & _ & _ & H). destruct (H w' Hs) as (Hf & _); [by rewrite Hm|exact Hm'|].
  split; [exact Hr|]. split; [exact Hs|]. split; [exact Hm'|]. rewrite Hres. split; [reflexivity|]. split; [reflexivity|]. rewrite <- Hres. exact Hf.
Defined.

(** ** Handlers *)

(** A logger and a result writer are the caller's. *)
Section Handlers.
Context {Logger Writer : Type} (Default : Logger) (SendJSON : Logger → Writer).

Record Handler : Type := MkHandler {
  hd_checks : list HealthCheck;
  writeResult : option Writer;
  logger : option Logger;
  timeout : Z
}.

Definition HandlerOption : Type := Handler → Handler.

Definition WithResultWriter (w : option Writer) : HandlerOption := fun h => MkHandler (hd_checks h) w (logger h) (timeout h).
Definition WithLogger (l : option Logger) : HandlerOption := fun h => MkHandler (hd_checks h) (writeResult h) l (timeout h).
Definition WithTimeout (d : Z) : HandlerOption := fun h => MkHandler (hd_checks h) (writeResult h) (logger h) d.

Inductive warning : Type := EmptyID | DuplicateID (id : string) | NilChecker (id : string).

Fixpoint warnInvalidChecks (seen : gset string) (checks : list HealthCheck) : list warning :=
  match checks with
  | [] => []
  | hc :: checks =>
      (if decide (ID hc = ""%string) then [EmptyID] else if decide (ID hc ∈ seen) then [DuplicateID (ID hc)] else []) ++
      (if Checker hc then [] else [NilChecker (ID hc)]) ++
      warnInvalidChecks ({[ID hc]} ∪ seen) checks
  end.

(** The handler, and what is logged of the checks through its logger. *)
Definition NewHandler (checks : list HealthCheck) (opts : list HandlerOption) : Handler * list warning :=
  let h := fold_left (fun h apply => apply h) opts (MkHandler checks None (Some Default) 0) in
  let l := default Default (logger h) in
  let h := MkHandler (hd_checks h) (writeResult h) (Some l) (timeout h) in
  let h := MkHandler (hd_checks h) (Some (default (SendJSON l) (writeResult h))) (logger h) (timeout h) in
  (h, warnInvalidChecks ∅ (hd_checks h)).

(** The context of the checkers has a deadline of its own. *)
Definition bounded (h : Handler) : bool := (0 <? timeout h)%Z.

Lemma warnInvalidChecks_nil seen checks : warnInvalidChecks seen checks = [] ↔
  (∀ hc, hc ∈ checks → ID hc ≠ ""%string ∧ ID hc ∉ seen ∧ Checker hc = true) ∧ NoDup (ID <$> checks).
Proof.
  revert seen. induction checks as [|hc checks IH]; intros seen; cbn [warnInvalidChecks fmap list_fmap].
  { split; [|done]. intros _. split; [set_solver|constructor]. }
  rewrite !app_nil, IH, NoDup_cons. split.
  - intros (H1 & H2 & H3 & H4). repeat case_decide; try done. destruct (Checker hc) eqn:Hc; [|done]. split; [|split; [|done]].
    + intros x [->|Hx]%elem_of_cons; [done|]. destruct (H3 x Hx). set_solver.
    + intros (x & Hx & Hin)%list_elem_of_fmap. destruct (H3 x Hin). set_solver.
  - intros (H1 & H2 & H3). destruct (H1 hc) as (H4 & H5 & H6); [left|]. rewrite !decide_False, H6 by done. split_and!; [done..| |done].
    intros x Hx. destruct (H1 x) as (H7 & H8 & H9); [by right|]. split; [done|]. split; [|done]. rewrite list_elem_of_fmap in H2. set_solver.
Qed.

(** Whatever the options, a handler of the package has a logger and a writer,
    that of the last option that gives one and otherwise the defaults, and
    nothing is logged of the checks exactly when each has a checker and an
    identifier of its own. *)
Lemma NewHandler_ready checks opts :
  Forall (fun o => (∃ w, o = WithResultWriter w) ∨ (∃ l, o = WithLogger l) ∨ (∃ d, o = WithTimeout d)) opts →
  let '(h, warnings) := NewHandler checks opts in
  hd_checks h = checks ∧ is_Some (logger h) ∧ is_Some (writeResult h) ∧
  (∀ l w d, opts = [WithLogger l; WithResultWriter w; WithTimeout d] →
     h = MkHandler checks (Some (default (SendJSON (default Default l)) w)) (Some (default Default l)) d) ∧
  (warnings = [] ↔ (∀ hc, hc ∈ checks → ID hc ≠ ""%string ∧ Checker hc = true) ∧ NoDup (ID <$> checks)).
Proof.
  intros Ho. unfold NewHandler. assert (Hc : ∀ h, hd_checks (fold_left (fun h apply => apply h) opts h) = hd_checks h).
  { clear -Ho. induction Ho as [|o opts Ho _ IH]; intros h; [done|]. cbn [fold_left]. rewrite IH. by destruct Ho as [[? ->]|[[? ->]|[? ->]]]. }
  cbn [hd_checks logger writeResult]. rewrite Hc. cbn [hd_checks]. split_and!; [done|by eexists|by eexists|by intros l w d ->|].
  rewrite warnInvalidChecks_nil. split; (intros [H1 H2]; split; [|done]; intros hc Hin; destruct (H1 hc Hin)); [tauto|].
  split_and!; [done|apply not_elem_of_empty|done].
Qed.
End Handlers.

(** ** [CheckHTTPStatus] *)

(** Requests are made and sent by net/http and the client; [None] is a nil
    response or a nil body. *)
Section CheckHTTPStatus.
Context {E Req : Type}.

Definition maxDrainBytes : nat := 4 * 2 ^ 10.

Inductive probe_error : Type :=
| ErrBuildRequest (e : E)
| ErrRequest (e : E)
| ErrNilResponse
| ErrUnexpectedStatus (got : Z) (want : option Z)
| ErrClose (e : E).

Record checkConfig : Type := CheckConfig { configureRequest : option (Req → Req); acceptStatus : option (Z → bool) }.
Definition CheckOption : Type := checkConfig → checkConfig.
Definition WithConfigureRequest (fn : option (Req → Req)) : CheckOption := fun c => CheckConfig fn (acceptStatus c).
Definition WithAcceptStatus (fn : option (Z → bool)) : CheckOption := fun c => CheckConfig (configureRequest c) fn.

(** A response: its status, the bytes left in its body and what closing it
    answers. *)
Record Response : Type := MkResponse { StatusCode : Z; resp_body : list Byte.byte; resp_close : option E }.

Definition checkStatus (code wantStatusCode : Z) (accept : option (Z → bool)) : option probe_error :=
  match accept with
  | Some accept => if accept code then None else Some (ErrUnexpectedStatus code None)
  | None => if (code =? wantStatusCode)%Z then None else Some (ErrUnexpectedStatus code (Some wantStatusCode))
  end.

(** [errors.Join]. *)
Definition Join (err : option probe_error) (cerr : option E) : list probe_error :=
  match err with Some err => [err] | None => [] end ++ match cerr with Some e => [ErrClose e] | None => [] end.

(** What was done: the deadline the request was sent under, and that of the
    body. *)
Inductive probe_event : Type := PESent (deadline : option Z) (req : Req) | PEDrained (n : nat) | PEClosed.

Definition CheckHTTPStatus (NewRequest : result E Req) (Do : option Z → Req → result E (option Response)) (wantStatusCode timeout : Z) (opts : list CheckOption) : list probe_error * list probe_event :=
  let cfg := fold_left (fun cfg apply => apply cfg) opts (CheckConfig None None) in
  let deadline := if (0 <? timeout)%Z then Some timeout else None in
  match NewRequest with
  | Error nerr => ([ErrBuildRequest nerr], [])
  | Ok req =>
      let req := match configureRequest cfg with Some configure => configure req | None => req end in
      match Do deadline req with
      | Error derr => ([ErrRequest derr], [PESent deadline req])
      | Ok None => ([ErrNilResponse], [PESent deadline req])
      | Ok (Some resp) =>
          let err := checkStatus (StatusCode resp) wantStatusCode (acceptStatus cfg) in
          let n := length (take maxDrainBytes (resp_body resp)) in
          (Join err (resp_close resp), [PESent deadline req; PEDrained n; PEClosed])
      end
  end.

(** A probe succeeds exactly when its request is made and answered with a body,
    the last predicate given, or the equality without one, accepts the status
    and the body closes; a body is closed once whatever the status, after at
    most four kibibytes of it are read; nothing is sent twice, and nothing
    without the deadline of a positive timeout. *)
Lemma CheckHTTPStatus_correct NewRequest Do want timeout opts :
  let '(errs, events) := CheckHTTPStatus NewRequest Do want timeout opts in
  let cfg := fold_left (fun cfg apply => apply cfg) opts (CheckConfig None None) in
  let deadline := if (0 <? timeout)%Z then Some timeout else None in
  (errs = [] ↔ ∃ req resp, NewRequest = Ok req ∧ Do deadline (default id (configureRequest cfg) req) = Ok (Some resp) ∧
     match acceptStatus cfg with Some accept => accept (StatusCode resp) = true | None => StatusCode resp = want end ∧ resp_close resp = None) ∧
  (∀ d req, PESent d req ∈ events → d = deadline) ∧
  ((∃ req resp, NewRequest = Ok req ∧ Do deadline (default id (configureRequest cfg) req) = Ok (Some resp)) ↔ PEClosed ∈ events) ∧
  (∀ n, PEDrained n ∈ events → n <= 4096) ∧ sum_list_with (fun e => match e with PEClosed => 1 | _ => 0 end) events <= 1.
Proof.
  unfold CheckHTTPStatus. set (cfg := fold_left (fun cfg apply => apply cfg) opts (CheckConfig None None)). set (deadline := if (0 <? timeout)%Z then Some timeout else None). cbv zeta. clearbody cfg deadline.
  destruct NewRequest as [req|nerr]; cbv iota beta;
    [|split; [naive_solver|]; split; [intros ?? []%elem_of_nil|]; split; [split; [naive_solver|intros []%elem_of_nil]|]; split; [intros ? []%elem_of_nil|cbn; lia]].
  replace (match configureRequest cfg with Some configure => configure req | None => req end) with (default id (configureRequest cfg) req) by (by destruct (configureRequest cfg)).
  destruct (Do deadline _) as [[resp|]|derr] eqn:Hd; cbv iota beta zeta; setoid_rewrite elem_of_cons; repeat setoid_rewrite elem_of_cons; setoid_rewrite elem_of_nil;
    [|split; [split; [done|intros (? & ? & ? & ? & _); congruence]|]; split; [naive_solver|]; split; [split; [intros (? & ? & ? & ?); congruence|intros [[=]|[]]]|]; split; [intros ? [[=]|[]]|cbn; lia]..].
  split; [|split; [naive_solver|split; [|split; [|cbn; lia]]]];
    [| |intros n Hn; assert (n = length (take maxDrainBytes (resp_body resp))) as -> by naive_solver; rewrite length_take; etrans; [apply Nat.le_min_l|apply Nat.leb_le; reflexivity]].
  - unfold Join. rewrite app_nil. split.
    + intros [H1 H2]. exists req, resp. split; [done|]. split; [done|]. split; [|by destruct (resp_close resp)].
      unfold checkStatus in H1. destruct (acceptStatus cfg) as [accept|]; [by destruct (accept _)|]. destruct (Z.eqb_spec (StatusCode resp) want); [done|done].
    + intros (req' & resp' & [= <-] & Hd' & Hs & Hc). rewrite Hd in Hd'. injection Hd' as <-. rewrite Hc. split; [|done].
      unfold checkStatus. destruct (acceptStatus cfg) as [accept|]; [by rewrite Hs|by rewrite Hs, Z.eqb_refl].
  - naive_solver.
Qed.
End CheckHTTPStatus.
