(* ===== verification/Transaction.v ===== *)
(** * [pkg/sqltransaction] and [pkg/sqlxtransaction]: running in a transaction

    The two packages have the same code over [database/sql] and over sqlx. A
    transaction is what [sql.Tx] documents: it ends once, and afterwards
    [Commit] and [Rollback] answer [sql.ErrTxDone]. The function that is run
    may end it itself, fail or panic. *)

From stdpp Require Import base option list.
From S2P Require Import Prelude.

Section Transaction.
Context {E : Type}.

(** ** Transactions *)

Inductive txstate : Type := TxOpen | TxCommitted | TxRolledBack | TxBroken.
Inductive txerror : Type := ErrTxDone | TxDriver (e : E) | TxContext (e : E).

(** What the driver and the context will answer; when the context has ended,
    [d_watched] tells whether the watcher has rolled the transaction back by
    the time [Commit] returns. *)
Record database : Type := Database {
  d_begin : option E;
  d_context : option E;
  d_watched : bool;
  d_commit : option E;
  d_rollback : option E
}.

Definition Commit (d : database) (s : txstate) : option txerror * txstate :=
  match s with
  | TxOpen =>
      match d_context d with
      | Some e => (Some (TxContext e), if d_watched d then TxRolledBack else TxOpen)
      | None => match d_commit d with None => (None, TxCommitted) | Some e => (Some (TxDriver e), TxBroken) end
      end
  | _ => (Some ErrTxDone, s)
  end.

Definition Rollback (d : database) (s : txstate) : option txerror * txstate :=
  match s with
  | TxOpen => match d_rollback d with None => (None, TxRolledBack) | Some e => (Some (TxDriver e), TxBroken) end
  | _ => (Some ErrTxDone, s)
  end.

(** ** [ExecWithOptions] *)

Inductive flavour : Type := SQL | SQLX.

Inductive exec_error : Type :=
| ErrNilDB
| ErrNilExecFunc
| ErrStart (f : flavour) (e : E)
| ErrExecuting (f : flavour) (e : E)
| ErrCommit (f : flavour) (e : txerror)
| ErrJoin (errs : list exec_error)
| ErrRollingBack (f : flavour) (e : txerror).

(** How the function ends. *)
Inductive ran : Type := RunPanics | RunReturns (e : option E).

Inductive outcome : Type := Panicked | Returned (err : option exec_error).

Inductive call : Type := CallCommit | CallRollback.

(** The deferred function. *)
Definition cleanup (f : flavour) (d : database) (committed : bool) (err : option exec_error) (tx : txstate) (calls : list call) : option exec_error * txstate * list call :=
  if committed then (err, tx, calls)
  else
    let '(kerr, tx) := Rollback d tx in
    let err := match kerr with
               | Some ErrTxDone | None => err
               | Some kerr => Some (ErrJoin (match err with Some e => [e] | None => [] end ++ [ErrRollingBack f kerr]))
               end in
    (err, tx, calls ++ [CallRollback]).

(** A nil database is [None], and so is a nil function; a function is how it
    ends and the transaction it leaves. With the outcome, the transaction, if
    it was started, and the calls that end it. *)
Definition ExecWithOptions (f : flavour) (db : option database) (run : option (ran * txstate)) : outcome * option txstate * list call :=
  match db, run with
  | None, _ => (Returned (Some ErrNilDB), None, [])
  | Some _, None => (Returned (Some ErrNilExecFunc), None, [])
  | Some d, Some (result, tx) =>
      match d_begin d with
      | Some berr => (Returned (Some (ErrStart f berr)), None, [])
      | None =>
          match result with
          | RunPanics => let '(_, tx, calls) := cleanup f d false None tx [] in (Panicked, Some tx, calls)
          | RunReturns (Some rerr) =>
              let '(err, tx, calls) := cleanup f d false (Some (ErrExecuting f rerr)) tx [] in (Returned err, Some tx, calls)
          | RunReturns None =>
              let '(cerr, tx) := Commit d tx in
              let '(err, tx, calls) :=
                match cerr with
                | Some cerr => cleanup f d false (Some (ErrCommit f cerr)) tx [CallCommit]
                | None => cleanup f d true None tx [CallCommit]
                end in
              (Returned err, Some tx, calls)
          end
      end
  end.

Definition Exec (f : flavour) (db : option database) (run : option (ran * txstate)) : outcome * option txstate * list call := ExecWithOptions f db run.

Definition sql_ExecWithOptions := ExecWithOptions SQL.
Definition sql_Exec := Exec SQL.
Definition sqlx_ExecWithOptions := ExecWithOptions SQLX.
Definition sqlx_Exec := Exec SQLX.

(** ** Properties *)

(** The errors an error is made of. *)
Fixpoint mentions (e x : exec_error) : Prop := e = x ∨ match e with ErrJoin errs => foldr (fun e P => mentions e x ∨ P) False errs | _ => False end.

(** No error means that the function succeeded and that its transaction was
    committed by one call, and there is no error then. In every other case, a
    panic included, the transaction is over when [ExecWithOptions] is, and is
    not committed unless the function did so; a panic goes on, and the cause of
    an error, with that of a rollback that fails, is in the error returned. *)
Theorem transaction_ends f db run : let '(out, tx, calls) := ExecWithOptions f db run in
  (out = Returned None ↔ ∃ d, db = Some d ∧ run = Some (RunReturns None, TxOpen) ∧ d_begin d = None ∧ d_context d = None ∧ d_commit d = None) ∧
  (out = Returned None → tx = Some TxCommitted ∧ calls = [CallCommit]) ∧
  tx ≠ Some TxOpen ∧
  (tx = Some TxCommitted → out = Returned None ∨ ∃ r, run = Some (r, TxCommitted)) ∧
  (out = Panicked ↔ ∃ d s, db = Some d ∧ run = Some (RunPanics, s) ∧ d_begin d = None) ∧
  (∀ d s r, db = Some d → run = Some (r, s) → d_begin d = None → out ≠ Returned None →
     calls = match r with RunReturns None => [CallCommit] | _ => [] end ++ [CallRollback]) ∧
  (∀ d e s, db = Some d → run = Some (RunReturns (Some e), s) → d_begin d = None → ∃ err, out = Returned (Some err) ∧ mentions err (ErrExecuting f e) ∧
     ∀ k, s = TxOpen → d_rollback d = Some k → mentions err (ErrRollingBack f (TxDriver k))).
Proof.
  destruct db as [[b c w m k] | ], run as [[r s] | ];
    [destruct r as [ | [e | ]], s, b, c as [ce | ], w, m, k | | | ]; simpl;
    (split_and!; [naive_solver.. | ]); intros dd ee ss Hd Hr Hb; simplify_eq; simpl in *; simplify_eq;
    eexists; (split; [reflexivity | ]); simpl; split; try tauto; intros; simplify_eq; tauto.
Qed.
End Transaction.
