(* ===== verification/StringKey.v ===== *)
(** * [pkg/stringkey]: hashing normalized fields

    Bytes as they are built and hashed. The tables of [unicode.ToLower], the
    canonical composition of golang.org/x/text and FarmHash64 are parameters. *)

From stdpp Require Import base option list.
From S2P Require Import Prelude GoString Utf8 UHex RedactKeys.

#[local] Open Scope Z_scope.

(** ** Fields of a text *)

(** The words of a text, as [strings.Fields] defines them: the longest runs
    without a space. The first has begun when [cur] is not empty. *)
Fixpoint fields_loop (rs cur : list Z) : list (list Z) :=
  match rs with
  | [] => if decide (cur = []) then [] else [cur]
  | r :: rs =>
      if IsSpace r then (if decide (cur = []) then [] else [cur]) ++ fields_loop rs []
      else fields_loop rs (cur ++ [r])
  end.
Definition fields (s : gostring) : list (list Z) := fields_loop (runes s) [].

(** ** [New] *)

Section StringKey.
Context (ToLower : Z → Z) (NFC : gostring → gostring) (FarmHash64 : gostring → Z).

(** The loop of [appendNormalizedField] over the runes of the field. *)
Fixpoint appendNormalizedField_loop (rs : list Z) (pendingSpace started : bool) (b : gostring) : gostring :=
  match rs with
  | [] => b
  | r :: rs =>
      if IsSpace r then appendNormalizedField_loop rs (if started then true else pendingSpace) started b
      else
        let b := if pendingSpace then b ++ [32] else b in
        appendNormalizedField_loop rs false true (b ++ encodeRune (ToLower r))
  end.

Definition appendNormalizedField (b field : gostring) : gostring := appendNormalizedField_loop (runes field) false false b.

Record StringKey : Type := MkStringKey { key : Z }.

Fixpoint buffer_loop (fields : list gostring) (b : gostring) : gostring :=
  match fields with
  | [] => b
  | v :: fields => buffer_loop fields (appendNormalizedField b v ++ [9])
  end.

Definition New (fields : list gostring) : StringKey := MkStringKey (FarmHash64 (NFC (buffer_loop fields []))).

Definition Key (sk : StringKey) : Z := key sk.
Definition Hex (sk : StringKey) : gostring := Hex64 (key sk).

(** [strconv.FormatUint] in base 36. *)
Definition digit36 (d : Z) : Z := if d <? 10 then 48 + d else 87 + d.

Fixpoint format36_loop (fuel : nat) (n : Z) (acc : gostring) : gostring :=
  match fuel with
  | O => acc
  | S fuel => if n <? 36 then digit36 n :: acc else format36_loop fuel (n / 36) (digit36 (n mod 36) :: acc)
  end.

Definition String (sk : StringKey) : gostring := format36_loop 13 (key sk) [].

(** ** Properties *)

(** The words of a field, lowered and joined by a space. *)
Definition word (w : list Z) : gostring := w ≫= fun r => encodeRune (ToLower r).
Definition join_words (ws : list (list Z)) : gostring :=
  match ws with [] => [] | w :: ws => word w ++ (ws ≫= fun w => 32 :: word w) end.
Definition normal (field : gostring) : gostring := join_words (fields field).

Lemma fields_loop_begun rs : ∀ cur, cur ≠ [] → ∃ w ws, fields_loop rs cur = w :: ws.
Proof.
  induction rs as [|r rs IH]; intros cur Hc; cbn [fields_loop]; [rewrite decide_False by done; by eexists _, _|].
  destruct (IsSpace r); [rewrite decide_False by done; by eexists _, _|]. apply IH. by destruct cur.
Qed.

Lemma word_snoc cur r : word (cur ++ [r]) = word cur ++ encodeRune (ToLower r).
Proof. unfold word. rewrite bind_app. cbn. by rewrite app_nil_r. Qed.

(** Before any word; within a word, [cur] being written; after a word. *)
Lemma loop_words rs :
  (∀ b, appendNormalizedField_loop rs false false b = b ++ join_words (fields_loop rs [])) ∧
  (∀ b cur, cur ≠ [] → appendNormalizedField_loop rs false true (b ++ word cur) = b ++ join_words (fields_loop rs cur)) ∧
  (∀ b, appendNormalizedField_loop rs true true b = b ++ (fields_loop rs [] ≫= fun w => 32 :: word w)).
Proof.
  induction rs as [|r rs (IH1 & IH2 & IH3)]; cbn [appendNormalizedField_loop fields_loop].
  { rewrite decide_True by done. split; [|split]; intros b; cbn; rewrite ?app_nil_r; [done| |done]. intros cur Hc. rewrite decide_False by done. cbn. by rewrite app_nil_r. }
  assert (H1 : encodeRune (ToLower r) = word [r]) by (cbn; by rewrite app_nil_r). destruct (IsSpace r).
  - rewrite decide_True by done. split; [done|]. split; [|done]. intros b cur Hc. rewrite decide_False by done. rewrite IH3. cbn [join_words app]. by rewrite app_assoc.
  - split; [intros b; rewrite H1; by apply IH2|]. split.
    + intros b cur Hc. rewrite <- app_assoc, <- word_snoc. apply IH2. by destruct cur.
    + intros b. rewrite H1, IH2 by done. cbn [app]. destruct (fields_loop_begun rs [r]) as (w & ws & ->); [done|]. cbn. by rewrite <- app_assoc.
Qed.

Lemma appendNormalizedField_spec b field : appendNormalizedField b field = b ++ normal field.
Proof. apply loop_words. Qed.

Lemma buffer_spec fs : ∀ b, buffer_loop fs b = b ++ (fs ≫= fun f => normal f ++ [9]).
Proof. induction fs as [|f fs IH]; intros b; cbn [buffer_loop]; [by rewrite app_nil_r|]. rewrite IH, appendNormalizedField_spec. cbn. by rewrite <- !app_assoc. Qed.

(** ** Separators *)

(** No letter is lowered to or from a space. *)
Hypothesis lower_space : ∀ r, IsSpace (ToLower r) = IsSpace r.

Lemma fields_no_space rs : ∀ cur, Forall (fun r => IsSpace r = false) cur → Forall (Forall (fun r => IsSpace r = false)) (fields_loop rs cur).
Proof.
  induction rs as [|r rs IH]; intros cur Hc; cbn [fields_loop]; [case_decide; by repeat constructor|].
  destruct (IsSpace r) eqn:Hr; [apply Forall_app; split; [case_decide; by repeat constructor|by apply IH]|].
  apply IH, Forall_app. split; [done|by constructor].
Qed.

Lemma encode_no_tab r : IsSpace r = false → 9 ∉ encodeRune r.
Proof.
  intros Hr Hin. destruct (decide (128 <= r)) as [Hh|Hl].
  - destruct (encodeRune_high r Hh) as [Hf _]. rewrite Forall_forall in Hf. specialize (Hf 9 Hin). lia.
  - destruct (decide (0 <= r)).
    + rewrite encode_ascii in Hin by lia. apply list_elem_of_singleton in Hin as <-. done.
    + assert (Henc : encodeRune r = [239; 191; 189]); [|rewrite Henc in Hin; rewrite !elem_of_cons, elem_of_nil in Hin; lia].
      unfold encodeRune, between. by rewrite !(proj2 (Z.leb_gt _ r)) by lia.
Qed.

Lemma word_no_tab w : Forall (fun r => IsSpace r = false) w → 9 ∉ word w.
Proof.
  intros Hw Hin. apply list_elem_of_bind in Hin as (r & Hin & Hr). rewrite Forall_forall in Hw. revert Hin. apply encode_no_tab. rewrite lower_space. by apply Hw.
Qed.

Lemma normal_no_tab field : 9 ∉ normal field.
Proof.
  unfold normal, fields. pose proof (fields_no_space (runes field) [] ltac:(constructor)) as Hf. destruct Hf as [|w ws Hw Hws]; cbn; [apply not_elem_of_nil|].
  rewrite elem_of_app. intros [Hin|(w' & Hin & Hw')%list_elem_of_bind]; [by apply word_no_tab in Hin|]. rewrite Forall_forall in Hws.
  apply elem_of_cons in Hin as [?|Hin]; [done|]. revert Hin. apply word_no_tab. by apply Hws.
Qed.

Lemma split_at_tab l1 : ∀ l2 x y, 9 ∉ l1 → 9 ∉ l2 → l1 ++ 9 :: x = l2 ++ 9 :: y → l1 = l2 ∧ x = y.
Proof.
  induction l1 as [|a l1 IH]; intros [|c l2] x y H1 H2 He; cbn in He; simplify_eq; [done|set_solver..|].
  destruct (IH l2 x y) as [-> ->]; [set_solver|set_solver|done|done].
Qed.

Lemma buffer_inj fs : ∀ gs, buffer_loop fs [] = buffer_loop gs [] → normal <$> fs = normal <$> gs.
Proof.
  induction fs as [|f fs IH]; intros [|g gs] He; rewrite !buffer_spec in He; cbn in He; [done|by destruct (normal g)|by destruct (normal f)|].
  rewrite <- !app_assoc in He. apply split_at_tab in He as [Hn He]; [|apply normal_no_tab..]. cbn. f_equal; [done|]. apply IH. by rewrite !buffer_spec.
Qed.

(** ** Texts of a key *)

Definition undigit36 (c : Z) : Z := if c <=? 57 then c - 48 else c - 87.

Lemma format36_spec fuel : ∀ n acc, 0 <= n < 36 ^ Z.of_nat fuel → (0 < fuel)%nat →
  ∃ ds, format36_loop fuel n acc = map digit36 ds ++ acc ∧ ds ≠ [] ∧ Forall (fun d => 0 <= d < 36) ds ∧ value 36 ds = n ∧ (∀ d l, ds = d :: l → d = 0 → l = []).
Proof.
  induction fuel as [|fuel IH]; intros n acc Hn Hf; [lia|]. cbn [format36_loop]. destruct (Z.ltb_spec n 36).
  - exists [n]. split_and!; [done|done|repeat constructor; lia|unfold value; cbn; lia|by intros d l [= _ <-]].
  - destruct fuel as [|fuel]; [cbn in Hn; lia|]. rewrite Nat2Z.inj_succ, Z.pow_succ_r in Hn by lia. pose proof (Z.mod_pos_bound n 36). pose proof (Z.div_mod n 36).
    assert (1 <= n / 36) by (apply Z.div_le_lower_bound; lia).
    destruct (IH (n / 36) (digit36 (n mod 36) :: acc)) as (ds & -> & Hne & Hds & Hv & Hz); [split; [lia|apply Z.div_lt_upper_bound; lia]|lia|].
    exists (ds ++ [n mod 36]). rewrite map_app, <- app_assoc. split_and!; [done|by destruct ds|apply Forall_app; split; [done|by repeat constructor; lia]|rewrite value_snoc; lia|].
    intros d l Hd ->. destruct ds as [|d' ds]; [done|]. injection Hd as -> <-. rewrite (Hz 0 ds) in Hv by done. unfold value in Hv. cbn in Hv. lia.
Qed.

Lemma undigit36_digit d : 0 <= d < 36 → undigit36 (digit36 d) = d.
Proof. intros Hd. unfold digit36, undigit36. destruct (Z.ltb_spec d 10); [rewrite (proj2 (Z.leb_le _ _)) by lia; lia|rewrite (proj2 (Z.leb_gt _ _)) by lia; lia]. Qed.

(** The key is the hash of the composed normal forms of the fields, each ended
    by a tab, so that it does not change with the case or the spaces between
    words; what is composed determines the list of normal forms, so that no
    field runs into the next. The hexadecimal text has sixteen digits and the
    base-36 text no leading zero; each reads back as the key. *)
Theorem New_normalizes : (∀ s, 0 <= FarmHash64 s < 2 ^ 64) →
  (∀ fs, New fs = MkStringKey (FarmHash64 (NFC (fs ≫= fun f => normal f ++ [9])))) ∧
  (∀ fs gs, Forall2 (fun f g => map (map ToLower) (fields f) = map (map ToLower) (fields g)) fs gs → New fs = New gs) ∧
  (∀ fs gs, buffer_loop fs [] = buffer_loop gs [] ↔ normal <$> fs = normal <$> gs) ∧
  ∀ fs, length (Hex (New fs)) = 16%nat ∧ value 16 <$> unhex_all (Hex (New fs)) = Some (Key (New fs)) ∧
    value 36 (map undigit36 (String (New fs))) = Key (New fs) ∧ (∀ l, String (New fs) = 48 :: l → l = []).
Proof.
  intros Hh. split_and!.
  - intros fs. unfold New. by rewrite buffer_spec.
  - intros fs gs Hfg. unfold New. rewrite !buffer_spec. do 3 f_equal. cbn. induction Hfg as [|f g fs gs Hf _ IH]; [done|]. cbn. rewrite IH. do 2 f_equal.
    assert (Hw : ∀ v w, map ToLower v = map ToLower w → word v = word w).
    { intros v. induction v as [|a v IHv]; intros [|c w] He; [done..|]. injection He as Ha Hw. unfold word in *. cbn. rewrite Ha. f_equal. by apply IHv. }
    unfold normal. revert Hf. generalize (fields f), (fields g). intros [|v vs] [|w ws] He; [done..|]. injection He as Hv He. cbn. f_equal; [by apply Hw|].
    clear Hv. revert ws He. induction vs as [|v' vs IHv]; intros [|w' ws] He; [done..|]. injection He as Hv He. cbn. rewrite (Hw _ _ Hv). by rewrite (IHv ws).
  - intros fs gs. split; [apply buffer_inj|]. intros He. rewrite !buffer_spec. cbn. revert gs He. induction fs as [|f fs IH]; intros [|g gs] He; [done..|].
    injection He as Hf He. cbn. by rewrite Hf, (IH gs).
  - intros fs. unfold Hex, Key. set (k := key (New fs)). assert (Hk : 0 <= k < 2 ^ 64) by apply Hh. rewrite Hex64_text, unhex_hex_text. split_and!.
    + unfold hex_text. by rewrite length_map, digits_length.
    + f_equal. apply Z.mod_small. done.
    + unfold String. fold k. destruct (format36_spec 13 k []) as (ds & -> & _ & Hds & Hv & _); [split; [lia|]; assert (2 ^ 64 < 36 ^ Z.of_nat 13) by done; lia|lia|].
      rewrite app_nil_r, map_map. rewrite <- Hv. f_equal. clear Hv. induction Hds as [|d ds Hd _ IH]; [done|]. cbn [map]. by rewrite undigit36_digit, IH.
    + intros l. unfold String. fold k. destruct (format36_spec 13 k []) as (ds & -> & _ & Hds & _ & Hz); [split; [lia|]; assert (2 ^ 64 < 36 ^ Z.of_nat 13) by done; lia|lia|].
      rewrite app_nil_r. destruct ds as [|d ds]; [done|]. cbn [map]. intros [= Hd <-]. apply Forall_cons in Hds as [H0 _].
      rewrite (Hz d ds); [done|done|]. unfold digit36 in Hd. destruct (Z.ltb_spec d 10); lia.
Qed.
End StringKey.
