(* ===== verification/Guarded.v ===== *)
(** * [pkg/threadsafe], [pkg/maputil] and [pkg/sliceutil]: locked collections

    The calls of tsmap and tsslice take a lock, run over the collection and
    release it, whatever happens; they are programs whose accesses interleave,
    and the step relation says when a lock may be taken. The collections are
    those of maputil.go, sliceutil.go, tsmap and tsslice. *)

From stdpp Require Import base option list gmap relations.
From S2P Require Import Prelude.

(** ** Calls under a lock *)

Section Locks.
Context {S R : Type}.

(** What runs under the lock: accesses to the collection, each of which reads
    it and may change it, and what is returned. *)
Inductive prog : Type :=
| Ret (r : R)
| Act (f : S → S) (next : S → prog).

Fixpoint run (p : prog) (s : S) : S * R :=
  match p with
  | Ret r => (s, r)
  | Act f next => run (next s) (f s)
  end.

Fixpoint read_only (p : prog) : Prop :=
  match p with
  | Ret _ => True
  | Act f next => (∀ s, f s = s) ∧ ∀ s, read_only (next s)
  end.

(** A call takes the lock ([Lock]) or shares it ([RLock]). *)
Record locked_call : Type := LockedCall { lc_exclusive : bool; lc_prog : prog }.

Definition well_locked (c : locked_call) : Prop := lc_exclusive c = false → read_only (lc_prog c).

Inductive caller : Type :=
| Waiting (c : locked_call)
| Holding (exclusive : bool) (p : prog)
| Done (r : R).

(** A [sync.RWMutex] and the collection it guards; [g_log] lists the calls in
    the order in which they took the lock, [g_made] in that in which they were
    made. *)
Record guarded : Type := MkGuarded {
  g_data : S;
  g_writer : bool;
  g_readers : nat;
  g_callers : list caller;
  g_log : list (nat * locked_call);
  g_made : list locked_call
}.

Definition guarded_initial (s : S) : guarded := MkGuarded s false 0 [] [] [].

Inductive guarded_step : guarded → guarded → Prop :=
| gs_call w c : well_locked c → guarded_step w (MkGuarded (g_data w) (g_writer w) (g_readers w) (g_callers w ++ [Waiting c]) (g_log w) (g_made w ++ [c]))
| gs_lock w t c : g_callers w !! t = Some (Waiting c) → lc_exclusive c = true → g_writer w = false → g_readers w = 0 →
    guarded_step w (MkGuarded (g_data w) true 0 (<[t := Holding true (lc_prog c)]> (g_callers w)) (g_log w ++ [(t, c)]) (g_made w))
| gs_rlock w t c : g_callers w !! t = Some (Waiting c) → lc_exclusive c = false → g_writer w = false →
    guarded_step w (MkGuarded (g_data w) false (1 + g_readers w) (<[t := Holding false (lc_prog c)]> (g_callers w)) (g_log w ++ [(t, c)]) (g_made w))
| gs_access w t e f next : g_callers w !! t = Some (Holding e (Act f next)) →
    guarded_step w (MkGuarded (f (g_data w)) (g_writer w) (g_readers w) (<[t := Holding e (next (g_data w))]> (g_callers w)) (g_log w) (g_made w))
| gs_unlock w t r : g_callers w !! t = Some (Holding true (Ret r)) →
    guarded_step w (MkGuarded (g_data w) false (g_readers w) (<[t := Done r]> (g_callers w)) (g_log w) (g_made w))
| gs_runlock w t r : g_callers w !! t = Some (Holding false (Ret r)) →
    guarded_step w (MkGuarded (g_data w) (g_writer w) (g_readers w - 1) (<[t := Done r]> (g_callers w)) (g_log w) (g_made w)).

(** The calls one after the other. *)
Fixpoint one_by_one (log : list (nat * locked_call)) (s : S) : S * list (nat * R) :=
  match log with
  | [] => (s, [])
  | (t, c) :: log =>
      let '(s, r) := run (lc_prog c) s in
      let '(s, rs) := one_by_one log s in
      (s, (t, r) :: rs)
  end.

Lemma run_read_only p : ∀ s, read_only p → (run p s).1 = s.
Proof. induction p as [r|f next IH]; intros s Hp; [done|]. destruct Hp as [Hf Hn]. cbn. rewrite IH by done. apply Hf. Qed.

Lemma one_by_one_snoc log t c s : let '(s1, rs) := one_by_one log s in
  one_by_one (log ++ [(t, c)]) s = let '(s2, r) := run (lc_prog c) s1 in (s2, rs ++ [(t, r)]).
Proof.
  revert s. induction log as [|[u d] log IH]; intros s; cbn; [by destruct (run _ _)|]. destruct (run (lc_prog d) s) as [s1 r].
  specialize (IH s1). destruct (one_by_one log s1) as [s2 rs]. rewrite IH. by destruct (run _ s2).
Qed.

Definition holds (e : bool) (c : caller) : nat := match c with Holding e' _ => if Bool.eqb e e' then 1 else 0 | _ => 0 end.

(** Where a call stands, the sequential run of the log being [final, rs]. *)
Definition caller_ok (data final : S) (rs : list (nat * R)) (t : nat) (c : caller) : Prop :=
  match c with
  | Waiting c => well_locked c ∧ t ∉ rs.*1
  | Holding true p => ∃ r, (t, r) ∈ rs ∧ run p data = (final, r)
  | Holding false p => read_only p ∧ (t, (run p data).2) ∈ rs
  | Done r => (t, r) ∈ rs
  end.

Record guarded_inv (s0 : S) (w : guarded) : Prop := GuardedInv {
  gi_writer : sum_list_with (holds true) (g_callers w) = if g_writer w then 1 else 0;
  gi_readers : sum_list_with (holds false) (g_callers w) = g_readers w;
  gi_excl : g_writer w = true → g_readers w = 0;
  gi_data : g_writer w = false → g_data w = (one_by_one (g_log w) s0).1;
  gi_callers : ∀ t c, g_callers w !! t = Some c → caller_ok (g_data w) (one_by_one (g_log w) s0).1 (one_by_one (g_log w) s0).2 t c;
  gi_nodup : NoDup (g_log w).*1;
  gi_log : ∀ t, t ∈ (g_log w).*1 → t < length (g_callers w);
  gi_made : length (g_made w) = length (g_callers w) ∧ (∀ t c, (t, c) ∈ g_log w → g_made w !! t = Some c) ∧
            ∀ t c, g_callers w !! t = Some (Waiting c) → g_made w !! t = Some c
}.
Lemma one_by_one_fst log : ∀ s, (one_by_one log s).2.*1 = log.*1.
Proof.
  induction log as [|[t c] log IH]; intros s; [done|]. cbn. destruct (run (lc_prog c) s) as [s1 r]. specialize (IH s1).
  destruct (one_by_one log s1) as [s2 rs]. cbn in *. by rewrite IH.
Qed.

Lemma one_by_one_app log t c s : one_by_one (log ++ [(t, c)]) s =
  ((run (lc_prog c) (one_by_one log s).1).1, (one_by_one log s).2 ++ [(t, (run (lc_prog c) (one_by_one log s).1).2)]).
Proof. pose proof (one_by_one_snoc log t c s) as H. destruct (one_by_one log s) as [s1 rs]. rewrite H. cbn. by destruct (run _ s1). Qed.

(** One member of a list, or two, weigh at most what it weighs. *)
Lemma sum_list_one {A} (f : A → nat) l t x : l !! t = Some x → f x <= sum_list_with f l.
Proof. intros Ht. apply sum_list_with_in. by eapply list_elem_of_lookup_2. Qed.

Lemma sum_list_two {A} (f : A → nat) l t u x y : l !! t = Some x → l !! u = Some y → t ≠ u → f x + f y <= sum_list_with f l.
Proof.
  revert t u. induction l as [|a l IH]; intros [|t] [|u] Ht Hu Hne; cbn in *; try done; simplify_eq.
  - pose proof (sum_list_one f l u y Hu). lia.
  - pose proof (sum_list_one f l t x Ht). lia.
  - specialize (IH t u Ht Hu ltac:(lia)). lia.
Qed.

(** Two calls that hold the lock share it. *)
Lemma held_together s0 w t e p u e' q : guarded_inv s0 w → g_callers w !! t = Some (Holding e p) → g_callers w !! u = Some (Holding e' q) → t ≠ u → e = false ∧ e' = false.
Proof.
  intros [Hw Hr He _ _ _ _ _] Ht Hu Hne. pose proof (sum_list_two (holds true) _ t u _ _ Ht Hu Hne) as H1.
  pose proof (sum_list_two (holds false) _ t u _ _ Ht Hu Hne) as H2. pose proof (sum_list_one (holds true) _ t _ Ht) as H3.
  pose proof (sum_list_one (holds false) _ t _ Ht) as H4. pose proof (sum_list_one (holds true) _ u _ Hu) as H5. pose proof (sum_list_one (holds false) _ u _ Hu) as H6.
  rewrite Hw in H1, H3, H5. rewrite Hr in H2, H4, H6. destruct (g_writer w); [pose proof (He eq_refl)|]; destruct e, e'; cbn in *; done || lia.
Qed.

Lemma held_lock s0 w u e p : guarded_inv s0 w → g_callers w !! u = Some (Holding e p) → if e then g_writer w = true else 0 < g_readers w.
Proof.
  intros [Hw Hr _ _ _ _ _ _] Hu. pose proof (sum_list_one (holds e) _ u _ Hu) as H. destruct e; cbn in H; rewrite ?Hw, ?Hr in H; [|lia]. destruct (g_writer w); [done|lia].
Qed.

(** A call that has not been logged takes the lock. *)
Lemma log_fresh s0 w t c : guarded_inv s0 w → g_callers w !! t = Some (Waiting c) →
  NoDup (g_log w ++ [(t, c)]).*1 ∧ ∀ u, u ∈ (g_log w ++ [(t, c)]).*1 → u < length (g_callers w).
Proof.
  intros [_ _ _ _ Hc Hn Hl _] Ht. destruct (Hc t _ Ht) as [_ Hnt]. rewrite one_by_one_fst in Hnt. rewrite fmap_app. split.
  - apply NoDup_app. split_and!; [done| |apply NoDup_singleton]. set_solver.
  - intros u [Hin|Hin]%elem_of_app; [by apply Hl|]. apply list_elem_of_singleton in Hin as ->. by eapply lookup_lt_Some.
Qed.

Lemma caller_ok_snoc data final final' rs t r u c : caller_ok data final rs u c → u ≠ t → (∀ p, c ≠ Holding true p) → caller_ok data final' (rs ++ [(t, r)]) u c.
Proof.
  intros Hu Hne Hh. destruct c as [c|[] p|r']; cbn in *; [|by destruct (Hh p)| |]; [|rewrite elem_of_app; tauto..].
  destruct Hu as [Hwl Hnu]. split; [done|]. rewrite fmap_app. set_solver.
Qed.

(** A call that is no longer waiting. *)
Lemma made_insert (made : list locked_call) (callers : list caller) t c' : (∀ u c, callers !! u = Some (Waiting c) → made !! u = Some c) → (∀ c, c' ≠ Waiting c) →
  ∀ u c, <[t := c']> callers !! u = Some (Waiting c) → made !! u = Some c.
Proof. intros Hm Hc u c [(_ & Hx & _)|[_ Hu]]%list_lookup_insert_Some; [by destruct (Hc c)|by apply Hm]. Qed.

Lemma made_log (made : list locked_call) log t c : (∀ u d, (u, d) ∈ log → made !! u = Some d) → made !! t = Some c → ∀ u d, (u, d) ∈ log ++ [(t, c)] → made !! u = Some d.
Proof. intros Hm Ht u d [Hin|[= -> ->]%list_elem_of_singleton]%elem_of_app; [by apply Hm|done]. Qed.

Lemma guarded_inv_step s0 w w' : guarded_inv s0 w → guarded_step w w' → guarded_inv s0 w'.
Proof.
  intros Hi Hs. pose proof Hi as [Hw Hr He Hd Hc Hn Hl (Hml & Hmg & Hmw)].
  destruct Hs as [w c Hwl|w t c Ht Hex Hwr Hrd|w t c Ht Hex Hwr|w t e f next Ht|w t r Ht|w t r Ht]; cbn [g_data g_writer g_readers g_callers g_log g_made] in *.
  - split; cbn; rewrite ?sum_list_with_app; cbn; try done; [by rewrite Nat.add_0_r|by rewrite Nat.add_0_r| |intros t Hin; apply Hl in Hin; rewrite length_app; lia|].
    2: { rewrite !length_app, Hml. split; [done|]. split; [intros t d Hin; apply lookup_app_l_Some; by apply Hmg|].
         intros t d [[_ Ht]|[-> [= <-]]]%lookup_snoc_Some; [apply lookup_app_l_Some; by apply Hmw|]. rewrite <- Hml. by apply list_lookup_middle. }
    intros t c' [[_ Ht]|[-> <-]]%lookup_snoc_Some; [by apply Hc|]. split; [done|]. rewrite one_by_one_fst. intros Hin%Hl. lia.
  - pose proof (sum_list_insert (holds true) _ t _ (Holding true (lc_prog c)) Ht) as H1. pose proof (sum_list_insert (holds false) _ t _ (Holding true (lc_prog c)) Ht) as H2.
    cbn in H1, H2. rewrite Hw, Hwr in H1. rewrite Hr, Hrd in H2. destruct (log_fresh _ _ _ _ Hi Ht) as [Hn' Hl'].
    split; cbn; rewrite ?one_by_one_app; cbn; rewrite ?length_insert; try done; [lia|lia| |].
    2: { split; [done|]. split; [by eapply made_log, Hmw|by apply made_insert]. }
    intros u c' [(<- & <- & _)|[Hne Hu]]%list_lookup_insert_Some.
    + cbn. rewrite <- Hd by done. eexists. split; [apply elem_of_app; right; by left|]. by destruct (run _ _).
    + eapply caller_ok_snoc; [by apply Hc|done|]. intros p ->. pose proof (held_lock _ _ _ _ _ Hi Hu). cbn in *. congruence.
  - pose proof (sum_list_insert (holds true) _ t _ (Holding false (lc_prog c)) Ht) as H1. pose proof (sum_list_insert (holds false) _ t _ (Holding false (lc_prog c)) Ht) as H2.
    cbn in H1, H2. rewrite Hw, Hwr in H1. rewrite Hr in H2. destruct (log_fresh _ _ _ _ Hi Ht) as [Hn' Hl']. destruct (Hc t _ Ht) as [Hwl _]. specialize (Hwl Hex).
    split; cbn; rewrite ?one_by_one_app; cbn; rewrite ?length_insert; try done; [lia|lia| | |split; [done|split; [by eapply made_log, Hmw|by apply made_insert]]].
    + intros _. rewrite run_read_only by done. by apply Hd.
    + intros u c' [(<- & <- & _)|[Hne Hu]]%list_lookup_insert_Some.
      * cbn. split; [done|]. rewrite <- Hd by done. apply elem_of_app. right. by left.
      * eapply caller_ok_snoc; [by apply Hc|done|]. intros p ->. pose proof (held_lock _ _ _ _ _ Hi Hu). cbn in *. congruence.
  - pose proof (sum_list_insert (holds true) _ t _ (Holding e (next (g_data w))) Ht) as H1. pose proof (sum_list_insert (holds false) _ t _ (Holding e (next (g_data w))) Ht) as H2.
    pose proof (Hc t _ Ht) as Hok. assert (Hlk := held_lock _ _ _ _ _ Hi Ht). destruct e; cbn in H1, H2, Hok, Hlk.
    + destruct Hok as (r & Hin & Hrun). split; cbn; rewrite ?length_insert; try done; [lia|lia|congruence| |split; [done|split; [done|by apply made_insert]]].
      intros u c' [(<- & <- & _)|[Hne Hu]]%list_lookup_insert_Some; [by exists r|]. pose proof (Hc u c' Hu) as Hcu. destruct c' as [|e' q|]; [done| |done].
      by destruct (held_together _ _ _ _ _ _ _ _ Hi Ht Hu Hne).
    + destruct Hok as [[Hf Hnx] Hin]. split; cbn; rewrite ?length_insert, ?Hf; try done; [lia|lia| |split; [done|split; [done|by apply made_insert]]].
      intros u c' [(<- & <- & _)|[Hne Hu]]%list_lookup_insert_Some; [|by apply Hc]. cbn. split; [apply Hnx|]. by rewrite Hf in Hin.
  - pose proof (sum_list_insert (holds true) _ t _ (Done r) Ht) as H1. pose proof (sum_list_insert (holds false) _ t _ (Done r) Ht) as H2.
    assert (Hlk := held_lock _ _ _ _ _ Hi Ht). cbn in H1, H2, Hlk. rewrite Hw, Hlk in H1. destruct (Hc t _ Ht) as (r' & Hin & [= Hfin <-]).
    split; cbn; rewrite ?length_insert; try done; [lia|lia| |split; [done|split; [done|by apply made_insert]]].
    intros u c' [(<- & <- & _)|[Hne Hu]]%list_lookup_insert_Some; [done|]. by apply Hc.
  - pose proof (sum_list_insert (holds true) _ t _ (Done r) Ht) as H1. pose proof (sum_list_insert (holds false) _ t _ (Done r) Ht) as H2.
    assert (Hlk := held_lock _ _ _ _ _ Hi Ht). cbn in H1, H2, Hlk. destruct (Hc t _ Ht) as [_ Hin].
    split; cbn; rewrite ?length_insert; try done; [lia|lia|intros Hwt; rewrite He by done; lia| |split; [done|split; [done|by apply made_insert]]].
    intros u c' [(<- & <- & _)|[Hne Hu]]%list_lookup_insert_Some; [done|]. by apply Hc.
Qed.

Lemma guarded_inv_reachable s0 w : rtc guarded_step (guarded_initial s0) w → guarded_inv s0 w.
Proof.
  assert (H0 : guarded_inv s0 (guarded_initial s0)) by (split; cbn; [done..|apply NoDup_nil_2|intros t Hin; by apply elem_of_nil in Hin|split; [done|split; [intros t c Hin; by apply elem_of_nil in Hin|done]]]).
  revert H0. generalize (guarded_initial s0). intros w0 H0 Hr. induction Hr as [w|w1 w2 w3 Hs _ IH]; [done|]. apply IH. by eapply guarded_inv_step.
Qed.

(** Unless every call has returned, one of them can go on. *)
Lemma guarded_goes_on s0 w : guarded_inv s0 w → (∀ t c, g_callers w !! t = Some c → ∃ r, c = Done r) ∨ ∃ w', guarded_step w w' ∧ length (g_callers w') = length (g_callers w).
Proof.
  intros [Hw Hr He _ _ _ _ _]. destruct (decide (sum_list_with (holds true) (g_callers w) + sum_list_with (holds false) (g_callers w) = 0)) as [H0|H0].
  - assert (Hwr : g_writer w = false) by (destruct (g_writer w); [lia|done]). assert (Hrd : g_readers w = 0) by lia.
    destruct (decide (Exists (fun c => match c with Waiting _ => true | _ => false end = true) (g_callers w))) as [(c & Hin & Hc)%Exists_exists|Hn].
    + right. destruct c as [d| |]; [|done..]. apply list_elem_of_lookup in Hin as [t Ht].
      destruct (lc_exclusive d) eqn:Hex; eexists; (split; [first [by eapply gs_lock|by eapply gs_rlock]|cbn; by rewrite length_insert]).
    + left. intros t c Ht. pose proof (sum_list_one (holds true) _ t c Ht). pose proof (sum_list_one (holds false) _ t c Ht).
      destruct c as [d|[] p|r]; cbn in *; [|lia|lia|by eexists]. destruct Hn. apply Exists_exists. eexists. split; [by eapply list_elem_of_lookup_2|done].
  - right. assert (∃ t e p, g_callers w !! t = Some (Holding e p)) as (t & e & p & Ht).
    { clear -H0. induction (g_callers w) as [|c l IH]; [done|]. destruct c as [d|e p|r]; [|by exists 0, e, p|]; (destruct IH as (t & e & p & Ht); [done|by exists (1 + t), e, p]). }
    destruct p as [r|f next]; [destruct e|]; eexists; (split; [first [by eapply gs_unlock|by eapply gs_runlock|by eapply gs_access]|cbn; by rewrite length_insert]).
Qed.

(** Calls are atomic. Whatever the calls, each of any number of accesses to the
    collection, and however they interleave, each returns what it returns when
    they run one after the other in the order in which they took the lock, and
    the collection is then what they leave; each takes the lock once; only
    calls that change nothing hold it together; and as long as one has not
    returned some call can go on. *)
Theorem calls_atomic s0 w : rtc guarded_step (guarded_initial s0) w →
  let '(final, rs) := one_by_one (g_log w) s0 in
  (∀ t c, (t, c) ∈ g_log w → g_made w !! t = Some c) ∧ NoDup (g_log w).*1 ∧ rs.*1 = (g_log w).*1 ∧
  (∀ t r, g_callers w !! t = Some (Done r) → (t, r) ∈ rs) ∧
  ((∀ t p, g_callers w !! t ≠ Some (Holding true p)) → g_data w = final) ∧
  (∀ t u e p e' q, g_callers w !! t = Some (Holding e p) → g_callers w !! u = Some (Holding e' q) → t ≠ u → e = false ∧ e' = false) ∧
  ((∀ t c, g_callers w !! t = Some c → ∃ r, c = Done r) ∨ ∃ w', guarded_step w w' ∧ length (g_callers w') = length (g_callers w)).
Proof.
  intros Hr. pose proof (guarded_inv_reachable s0 w Hr) as Hi. pose proof Hi as [Hw _ He Hd Hc Hn Hl (_ & Hm & _)]. pose proof (one_by_one_fst (g_log w) s0) as Hf.
  destruct (one_by_one (g_log w) s0) as [final rs]. split; [done|]. split; [done|]. split; [done|]. split; [|split; [|split]].
  - intros t r Ht. apply (Hc t _ Ht).
  - intros Hno. apply Hd. destruct (g_writer w); [|done]. exfalso. clear -Hw Hno. induction (g_callers w) as [|c l IH]; [done|].
    destruct c as [d|[] p|r]; [|by destruct (Hno 0 p)| |]; (apply IH; [done|]; intros t q; apply (Hno (1 + t))).
  - intros t u e p e' q. by eapply held_together.
  - by eapply guarded_goes_on.
Qed.

(** A program that ends at once. *)
Definition atomically (f : S → S) (r : S → R) : prog := Act f (fun s => Ret (r s)).
End Locks.

(** ** Slices *)

(** An index from [k] on. *)
Section Sliceutil.
Context {A U : Type}.

Fixpoint sliceutil_Filter_loop (f : nat → A → bool) (k : nat) (s r : list A) : list A :=
  match s with
  | [] => r
  | v :: s => sliceutil_Filter_loop f (k + 1) s (if f k v then r ++ [v] else r)
  end.
Definition sliceutil_Filter (s : list A) (f : nat → A → bool) : list A := sliceutil_Filter_loop f 0 s [].

(** The slice of zeroes made first is filled index by index. *)
Fixpoint sliceutil_Map_loop (f : nat → A → U) (k : nat) (s : list A) (r : list U) : list U :=
  match s with
  | [] => r
  | v :: s => sliceutil_Map_loop f (k + 1) s (<[k := f k v]> r)
  end.
Definition sliceutil_Map (zero : U) (s : list A) (f : nat → A → U) : list U := sliceutil_Map_loop f 0 s (replicate (length s) zero).

Fixpoint sliceutil_Reduce_loop (f : nat → A → U → U) (k : nat) (s : list A) (r : U) : U :=
  match s with
  | [] => r
  | v :: s => sliceutil_Reduce_loop f (k + 1) s (f k v r)
  end.
Definition sliceutil_Reduce (s : list A) (init : U) (f : nat → A → U → U) : U := sliceutil_Reduce_loop f 0 s init.

Lemma sliceutil_Filter_loop_spec f s : ∀ k r, sliceutil_Filter_loop f k s r = r ++ (imap (fun i v => (f (k + i) v, v)) s ≫= fun p : bool * A => if p.1 then [p.2] else []).
Proof.
  induction s as [|v s IH]; intros k r; cbn [sliceutil_Filter_loop imap]; [by rewrite app_nil_r|]. rewrite IH. cbn. rewrite Nat.add_0_r.
  rewrite (imap_ext ((λ i v, (f (k + i) v, v)) ∘ S) (fun i v => (f (k + 1 + i) v, v))) by (intros i x _; cbn; do 2 f_equal; lia).
  destruct (f k v); [by rewrite <- app_assoc|done].
Qed.

Lemma sliceutil_Map_loop_spec f s : ∀ k r rest, length r = k → length rest = length s → sliceutil_Map_loop f k s (r ++ rest) = r ++ imap (fun i v => f (k + i) v) s.
Proof.
  induction s as [|v s IH]; intros k r [|u rest] Hr Hl; cbn in *; [done..|]. rewrite insert_app_r_alt, Hr, Nat.sub_diag by lia. cbn.
  change (f k v :: rest) with ([f k v] ++ rest). rewrite app_assoc, IH by (rewrite ?length_app; cbn; lia). rewrite <- app_assoc. cbn. rewrite Nat.add_0_r. do 2 f_equal.
  apply imap_ext. intros i x _. cbn. f_equal. lia.
Qed.

(** [Filter] keeps the members its predicate accepts at their index, in order;
    [Map] has the image of each at its index; [Reduce] is a fold from the
    left. *)
Lemma sliceutil_spec (s : list A) (f : nat → A → bool) (g : nat → A → U) (h : nat → A → U → U) (zero init : U) :
  (sliceutil_Filter s f = imap (fun i v => (f i v, v)) s ≫= fun p : bool * A => if p.1 then [p.2] else []) ∧
  (length (sliceutil_Map zero s g) = length s ∧ ∀ i, sliceutil_Map zero s g !! i = g i <$> s !! i) ∧
  ∀ v, sliceutil_Reduce (s ++ [v]) init h = h (length s) v (sliceutil_Reduce s init h).
Proof.
  split; [apply sliceutil_Filter_loop_spec|]. split.
  - assert (sliceutil_Map zero s g = imap g s) as -> by (apply (sliceutil_Map_loop_spec g s 0 []); [done|apply length_replicate]). rewrite length_imap. split; [done|].
    intros i. by rewrite list_lookup_imap.
  - intros v. unfold sliceutil_Reduce. enough (H : ∀ k r, sliceutil_Reduce_loop h k (s ++ [v]) r = h (k + length s) v (sliceutil_Reduce_loop h k s r)) by apply H.
    induction s as [|w s IH]; intros k r; cbn; [by rewrite Nat.add_0_r|]. rewrite IH. f_equal. lia.
Qed.
End Sliceutil.

(** ** Maps *)

(** The entries of a map in the order a loop meets them, which is any. *)
Section Maputil.
Context {K : Type} `{Countable K} {V : Type}.

Fixpoint maputil_Filter_loop (f : K → V → bool) (m : list (K * V)) (r : gmap K V) : gmap K V :=
  match m with
  | [] => r
  | (k, v) :: m => maputil_Filter_loop f m (if f k v then <[k := v]> r else r)
  end.
Definition maputil_Filter (m : list (K * V)) (f : K → V → bool) : gmap K V := maputil_Filter_loop f m ∅.

Fixpoint maputil_Map_loop {J U} `{Countable J} (f : K → V → J * U) (m : list (K * V)) (r : gmap J U) : gmap J U :=
  match m with
  | [] => r
  | (k, v) :: m => let '(j, u) := f k v in maputil_Map_loop f m (<[j := u]> r)
  end.
Definition maputil_Map {J U} `{Countable J} (m : list (K * V)) (f : K → V → J * U) : gmap J U := maputil_Map_loop f m ∅.

Fixpoint maputil_Reduce {U} (m : list (K * V)) (r : U) (f : K → V → U → U) : U :=
  match m with
  | [] => r
  | (k, v) :: m => maputil_Reduce m (f k v r) f
  end.

Definition maputil_Invert `{Countable V} (m : list (K * V)) : gmap V K := maputil_Map m (fun k v => (v, k)).

Lemma maputil_Filter_loop_spec f m : ∀ r, NoDup m.*1 → (∀ k, k ∈ m.*1 → r !! k = None) →
  ∀ k v, maputil_Filter_loop f m r !! k = Some v ↔ r !! k = Some v ∨ ((k, v) ∈ m ∧ f k v = true).
Proof.
  induction m as [|[k0 v0] m IH]; intros r Hn Hr k v; cbn [maputil_Filter_loop]; [set_solver|]. cbn in Hn. apply NoDup_cons in Hn as [Hk0 Hn].
  rewrite IH; [|done|].
  - rewrite elem_of_cons. destruct (f k0 v0) eqn:Hf; [rewrite lookup_insert_Some; pose proof (Hr k0 ltac:(by left))|]; naive_solver congruence.
  - intros j Hj. destruct (f k0 v0); [rewrite lookup_insert_ne by (intros ->; done)|]; apply Hr; by right.
Qed.

Lemma maputil_Map_loop_spec {J U} `{Countable J} (f : K → V → J * U) m : ∀ r j,
  maputil_Map_loop f m r !! j = match list_find (fun p => (f p.1 p.2).1 = j) (reverse m) with Some (_, p) => Some (f p.1 p.2).2 | None => r !! j end.
Proof.
  induction m as [|[k v] m IH]; intros r j; cbn [maputil_Map_loop]; [done|]. destruct (f k v) as [j' u] eqn:Hf. rewrite IH, reverse_cons.
  destruct (list_find _ (reverse m)) as [[i p]|] eqn:Hl; [by rewrite (list_find_app_l _ _ _ _ _ Hl)|].
  rewrite list_find_app_r by done. cbn. rewrite Hf. cbn. destruct (decide (j' = j)) as [<-|Hne]; cbn; [by rewrite lookup_insert_eq, Hf|by rewrite lookup_insert_ne].
Qed.

(** In whatever order the entries are met: [Filter] has the entries its
    predicate accepts; a key [Map] gives once has the value given with it, and
    otherwise one that was given with it; [Invert] undoes a map without
    repeated values; the result of [Reduce] does not depend on the order when
    the steps commute. *)
Lemma maputil_spec (m : gmap K V) l : l ≡ₚ map_to_list m →
  (∀ f k v, maputil_Filter l f !! k = Some v ↔ m !! k = Some v ∧ f k v = true) ∧
  (∀ J U (HJ : EqDecision J) (HC : Countable J) (f : K → V → J * U) j,
     (∀ u, maputil_Map l f !! j = Some u → ∃ k v, m !! k = Some v ∧ f k v = (j, u)) ∧
     (maputil_Map l f !! j = None → ∀ k v, m !! k = Some v → (f k v).1 ≠ j)) ∧
  (∀ (HE : EqDecision V) (HC : Countable V), (∀ k k' v, m !! k = Some v → m !! k' = Some v → k = k') → ∀ k v, maputil_Invert l !! v = Some k ↔ m !! k = Some v) ∧
  (∀ U (f : K → V → U → U) l' r, (∀ k v k' v' x, f k v (f k' v' x) = f k' v' (f k v x)) → l' ≡ₚ l → maputil_Reduce l' r f = maputil_Reduce l r f).
Proof.
  intros Hl. assert (Hin : ∀ k v, (k, v) ∈ l ↔ m !! k = Some v) by (intros k v; by rewrite Hl, elem_of_map_to_list).
  assert (Hmap : ∀ J U (HJ : EqDecision J) (HC : Countable J) (f : K → V → J * U) j,
     (∀ u, maputil_Map l f !! j = Some u → ∃ k v, m !! k = Some v ∧ f k v = (j, u)) ∧ (maputil_Map l f !! j = None → ∀ k v, m !! k = Some v → (f k v).1 ≠ j)).
  { intros J U HJ HC f j. unfold maputil_Map. rewrite maputil_Map_loop_spec. destruct (list_find _ _) as [[i [k v]]|] eqn:Hf.
    - apply list_find_Some in Hf as (Hi & Hj & _). split; [|done]. intros u [= <-]. exists k, v. apply list_elem_of_lookup_2 in Hi. rewrite elem_of_reverse, Hin in Hi.
      split; [done|]. cbn in *. rewrite <- Hj. by destruct (f k v).
    - split; [done|]. intros _ k v Hk. apply list_find_None in Hf. rewrite Forall_forall in Hf. apply (Hf (k, v)). by rewrite elem_of_reverse, Hin. }
  split_and!; [|done| |].
  - intros f k v. unfold maputil_Filter. rewrite maputil_Filter_loop_spec, Hin; [rewrite lookup_empty; naive_solver|rewrite Hl; apply NoDup_fst_map_to_list|intros; apply lookup_empty].
  - intros HE HC Hinj k v. destruct (Hmap V K HE HC (fun k v => (v, k)) v) as [H1 H2]. split.
    + intros Hk. destruct (H1 k Hk) as (k' & v' & Hk' & [= -> ->]). done.
    + intros Hk. destruct (maputil_Invert l !! v) as [k'|] eqn:Hv; [|by destruct (H2 Hv k v Hk)]. destruct (H1 k' Hv) as (k2 & v2 & Hk2 & [= -> ->]). f_equal. by eapply Hinj.
  - intros U f l' r Hc Hp. clear -Hc Hp. revert r. induction Hp as [|[k v] l1 l2 _ IH|[k v] [k' v'] l1|l1 l2 l3 _ IH1 _ IH2]; intros r; cbn; [done|by apply IH| |by rewrite IH1, IH2].
    by rewrite Hc.
Qed.
End Maputil.

(** ** [tsmap] *)

Section Tsmap.
Context {K : Type} `{Countable K} {V : Type} (zero : V).

(** A nil map is [None]. *)
Definition gomap : Type := option (gmap K V).
Definition entry (m : gomap) (k : K) : option V := default ∅ m !! k.

(** What a call returns; the results of callbacks are left to [Do]. *)
Inductive map_result : Type :=
| MapPanics
| MapUnit
| MapValue (v : V)
| MapOK (v : V) (ok : bool)
| MapLen (n : nat)
| MapCopy (m : gomap).

#[local] Notation map_prog := (prog (S := gomap) (R := map_result)).
#[local] Notation map_call := (locked_call (S := gomap) (R := map_result)).

(** A read of the map, and its assignment, which panics when it is nil. *)
Definition reading (r : gomap → map_result) : map_prog := Act id (fun m => Ret (r m)).
Definition assigning (k : K) (v : V) : map_prog :=
  Act (fmap (M := option) <[k := v]>) (fun m => Ret (match m with Some _ => MapUnit | None => MapPanics end)).

Definition tsmap_Set (k : K) (v : V) : map_call := LockedCall true (assigning k v).
Definition tsmap_Delete (k : K) : map_call := LockedCall true (Act (fmap (M := option) (delete k)) (fun _ => Ret MapUnit)).
Definition tsmap_Get (k : K) : map_call := LockedCall false (reading (fun m => MapValue (default zero (entry m k)))).
Definition tsmap_GetOK (k : K) : map_call :=
  LockedCall false (reading (fun m => match entry m k with Some v => MapOK v true | None => MapOK zero false end)).
Definition tsmap_Len : map_call := LockedCall false (reading (fun m => MapLen (size (default ∅ m)))).
Definition tsmap_Snapshot : map_call := LockedCall false (reading MapCopy).
Definition tsmap_Filter (f : K → V → bool) : map_call := LockedCall false (reading (fun m => MapCopy (Some (maputil_Filter (map_to_list (default ∅ m)) f)))).
Definition tsmap_Do (f : map_prog) : map_call := LockedCall true f.
Definition tsmap_RDo (f : map_prog) : map_call := LockedCall false f.

(** The methods of [Guarded], whose map is allocated by the first write. *)
Definition make_map (m : gomap) : gomap := Some (default ∅ m).
Definition NewGuardedMap (m : gomap) : gomap := m.
Definition GuardedMap_Len : map_call := tsmap_Len.
Definition GuardedMap_Get (k : K) : map_call := tsmap_Get k.
Definition GuardedMap_GetOK (k : K) : map_call := tsmap_GetOK k.
Definition GuardedMap_Set (k : K) (v : V) : map_call := LockedCall true (Act make_map (fun _ => assigning k v)).
Definition GuardedMap_Delete (k : K) : map_call := tsmap_Delete k.
Definition GuardedMap_Filter (f : K → V → bool) : map_call := tsmap_Filter f.
Definition GuardedMap_Snapshot : map_call := tsmap_Snapshot.
Definition GuardedMap_Do (f : map_prog) : map_call := LockedCall true (Act make_map (fun _ => f)).
Definition GuardedMap_RDo (f : map_prog) : map_call := LockedCall false f.

(** Every call that shares the lock only reads, the callback of [RDo] being
    bound to; [Set] on a nil map panics and leaves it, that of [Guarded] never
    does, and neither changes another key; [Do] of [Guarded] is given a map;
    the lookups agree with the map, a nil one being empty. *)
Lemma tsmap_calls (k : K) (v : V) (f : K → V → bool) (p : map_prog) (m : gomap) :
  (Forall well_locked [tsmap_Set k v; tsmap_Delete k; tsmap_Get k; tsmap_GetOK k; tsmap_Len; tsmap_Snapshot; tsmap_Filter f; tsmap_Do p; GuardedMap_Set k v; GuardedMap_Do p] ∧
   (read_only p → well_locked (tsmap_RDo p))) ∧
  (run (lc_prog (tsmap_Set k v)) None = (None, MapPanics)) ∧
  (let '(m', r) := run (lc_prog (GuardedMap_Set k v)) m in r = MapUnit ∧ entry m' k = Some v ∧ ∀ j, j ≠ k → entry m' j = entry m j) ∧
  (let '(m', r) := run (lc_prog (tsmap_Delete k)) m in r = MapUnit ∧ entry m' k = None ∧ ∀ j, j ≠ k → entry m' j = entry m j) ∧
  (run (lc_prog (tsmap_GetOK k)) m = (m, MapOK (default zero (entry m k)) (bool_decide (is_Some (entry m k))))) ∧
  (run (lc_prog (GuardedMap_Do p)) m = run p (Some (default ∅ m))) ∧
  (∀ m', (run (lc_prog (tsmap_Filter f)) m).2 = MapCopy m' → ∀ j u, entry m' j = Some u ↔ entry m j = Some u ∧ f j u = true).
Proof.
  split; [split; [repeat constructor; unfold well_locked; cbn; try done; intros _; by split|by intros Hp _]|]. split; [done|]. split; [|split; [|split; [|split; [done|]]]].
  - cbn. split; [done|]. split; [apply lookup_insert_eq|]. intros j Hj. unfold entry. cbn. by rewrite lookup_insert_ne.
  - destruct m as [m|]; cbn; (split; [done|]); [|split; [apply lookup_empty|done]]. unfold entry. cbn. split; [apply lookup_delete_eq|]. intros j Hj. by rewrite lookup_delete_ne.
  - cbn. by destruct (entry m k).
  - intros m' [= <-] j u. unfold entry. cbn. destruct (maputil_spec (default ∅ m) (map_to_list (default ∅ m))) as [Hf _]; [done|]. by rewrite Hf.
Qed.
End Tsmap.

(** ** [tsslice] *)

Section Tsslice.
Context {A : Type} (zero : A).

Inductive slice_result : Type :=
| SlicePanics
| SliceUnit
| SliceValue (v : A)
| SliceOK (v : A) (ok : bool)
| SliceBool (ok : bool)
| SliceLen (n : nat)
| SliceCopy (s : list A).

#[local] Notation slice_prog := (prog (S := list A) (R := slice_result)).
#[local] Notation slice_call := (locked_call (S := list A) (R := slice_result)).
#[local] Open Scope Z_scope.

Definition out_of_range (k : Z) (s : list A) : bool := (k <? 0) || (Z.of_nat (length s) <=? k).
Definition at_index (k : Z) (s : list A) : option A := if out_of_range k s then None else s !! Z.to_nat k.
Definition looking (r : list A → slice_result) : slice_prog := Act id (fun s => Ret (r s)).

(** [append]; [slices.Delete] of one member. *)
Definition append (s v : list A) : list A := s ++ v.
Definition delete_at (k : Z) (s : list A) : list A := take (Z.to_nat k) s ++ drop (Z.to_nat (k + 1)) s.

Definition tsslice_Set (k : Z) (v : A) : slice_call :=
  LockedCall true (Act (fun s => if out_of_range k s then s else <[Z.to_nat k := v]> s) (fun s => Ret (if out_of_range k s then SlicePanics else SliceUnit))).
Definition tsslice_SetOK (k : Z) (v : A) : slice_call :=
  LockedCall true (Act (fun s => if out_of_range k s then s else <[Z.to_nat k := v]> s) (fun s => Ret (SliceBool (negb (out_of_range k s))))).
Definition tsslice_Get (k : Z) : slice_call :=
  LockedCall false (looking (fun s => match at_index k s with Some v => SliceValue v | None => SlicePanics end)).
Definition tsslice_GetOK (k : Z) : slice_call :=
  LockedCall false (looking (fun s => match at_index k s with Some v => SliceOK v true | None => SliceOK zero false end)).
Definition tsslice_Len : slice_call := LockedCall false (looking (fun s => SliceLen (length s))).
Definition tsslice_Snapshot : slice_call := LockedCall false (looking SliceCopy).
Definition tsslice_Append (v : list A) : slice_call := LockedCall true (Act (fun s => append s v) (fun _ => Ret SliceUnit)).
Definition tsslice_Delete (k : Z) : slice_call :=
  LockedCall true (Act (fun s => if out_of_range k s then s else delete_at k s) (fun s => Ret (SliceBool (negb (out_of_range k s))))).
Definition tsslice_Filter (f : nat → A → bool) : slice_call := LockedCall false (looking (fun s => SliceCopy (sliceutil_Filter s f))).
Definition tsslice_Do (f : slice_prog) : slice_call := LockedCall true f.
Definition tsslice_RDo (f : slice_prog) : slice_call := LockedCall false f.

(** The methods of [Guarded]. *)
Definition NewGuardedSlice (s : list A) : list A := s.
Definition GuardedSlice_Len : slice_call := tsslice_Len.
Definition GuardedSlice_Get (k : Z) : slice_call := tsslice_Get k.
Definition GuardedSlice_GetOK (k : Z) : slice_call := tsslice_GetOK k.
Definition GuardedSlice_Set (k : Z) (v : A) : slice_call := tsslice_Set k v.
Definition GuardedSlice_SetOK (k : Z) (v : A) : slice_call := tsslice_SetOK k v.
Definition GuardedSlice_Append (v : list A) : slice_call := tsslice_Append v.
Definition GuardedSlice_Delete (k : Z) : slice_call := tsslice_Delete k.
Definition GuardedSlice_Filter (f : nat → A → bool) : slice_call := tsslice_Filter f.
Definition GuardedSlice_Snapshot : slice_call := tsslice_Snapshot.
Definition GuardedSlice_Do (f : slice_prog) : slice_call := tsslice_Do f.
Definition GuardedSlice_RDo (f : slice_prog) : slice_call := tsslice_RDo f.

(** The calls that share the lock only read; an index out of range panics in
    [Get] and [Set], is answered by false elsewhere, and changes nothing;
    within it [Set] changes one member and [Delete] removes one, keeping the
    order of the others. *)
Lemma tsslice_calls (k : Z) (v : A) (vs : list A) (f : nat → A → bool) (p : slice_prog) (s : list A) :
  (Forall well_locked [tsslice_Set k v; tsslice_SetOK k v; tsslice_Get k; tsslice_GetOK k; tsslice_Len; tsslice_Snapshot; tsslice_Append vs; tsslice_Delete k; tsslice_Filter f; tsslice_Do p] ∧
   (read_only p → well_locked (tsslice_RDo p))) ∧
  (out_of_range k s = true ↔ ¬ (0 <= k < Z.of_nat (length s))) ∧
  (¬ (0 <= k < Z.of_nat (length s)) →
     run (lc_prog (tsslice_Set k v)) s = (s, SlicePanics) ∧ run (lc_prog (tsslice_SetOK k v)) s = (s, SliceBool false) ∧ run (lc_prog (tsslice_Delete k)) s = (s, SliceBool false) ∧
     run (lc_prog (tsslice_Get k)) s = (s, SlicePanics) ∧ run (lc_prog (tsslice_GetOK k)) s = (s, SliceOK zero false)) ∧
  (0 <= k < Z.of_nat (length s) → ∃ l x r, s = l ++ x :: r ∧ Z.of_nat (length l) = k ∧
     run (lc_prog (tsslice_Set k v)) s = (l ++ v :: r, SliceUnit) ∧ run (lc_prog (tsslice_SetOK k v)) s = (l ++ v :: r, SliceBool true) ∧
     run (lc_prog (tsslice_Delete k)) s = (l ++ r, SliceBool true) ∧
     run (lc_prog (tsslice_Get k)) s = (s, SliceValue x) ∧ run (lc_prog (tsslice_GetOK k)) s = (s, SliceOK x true)).
Proof.
  split; [split; [repeat constructor; unfold well_locked; cbn; try done; intros _; by split|by intros Hp _]|].
  assert (Ho : out_of_range k s = true ↔ ¬ (0 <= k < Z.of_nat (length s))) by (unfold out_of_range; rewrite orb_true_iff, Z.ltb_lt, Z.leb_le; lia).
  split; [done|]. split.
  - intros Hk%Ho. unfold tsslice_Set, tsslice_SetOK, tsslice_Delete, tsslice_Get, tsslice_GetOK, looking, at_index. cbn. by rewrite Hk.
  - intros Hk. assert (Hn : out_of_range k s = false) by (destruct (out_of_range k s); [by destruct (proj1 Ho eq_refl)|done]).
    destruct (lookup_lt_is_Some_2 s (Z.to_nat k)) as [x Hx]; [lia|]. exists (take (Z.to_nat k) s), x, (drop (Datatypes.S (Z.to_nat k)) s).
    assert (Hlen : length (take (Z.to_nat k) s) = Z.to_nat k) by (rewrite length_take; lia).
    split; [by rewrite take_drop_middle|]. split; [rewrite Hlen; lia|].
    unfold tsslice_Set, tsslice_SetOK, tsslice_Delete, tsslice_Get, tsslice_GetOK, looking, at_index, delete_at. cbn. rewrite Hn, Hx.
    rewrite insert_take_drop by lia. replace (Z.to_nat (k + 1)) with (Datatypes.S (Z.to_nat k)) by lia. done.
Qed.
End Tsslice.
